(* ===== verification/_CoqProject ===== *)
-Q . S2P
Prelude.v
Base64.v
HttpText.v
QuicVarInt.v
QuicFlowControl.v
QuicAckTracker.v
QuicCongestion.v
QuicRecovery.v
QuicStream.v
QuicFrame.v
QuicPacket.v
QuicTransportParameters.v
HpackInteger.v
HpackHuffman.v
HpackDynamicTable.v
Hpack.v
Http2Frame.v
Http2Stream.v
Http2Connection.v
Http2Dispatch.v
Http2Response.v
QpackDynamicTable.v
HttpChunkedDecoder.v
HttpChunkedBody.v
HttpTransferCoding.v
HttpParser.v
BitStream.v
CompressDecoder.v
WebSocketFrame.v
WebSocketDeflate.v
WebSocketDeflateSafety.v
LittleEndian.v
Poly1305.v
ChaChaPoly.v
Aes.v
Aead.v
Checksums.v
DeflateContainers.v
DeflateProbe.v
Aes128GcmCoding.v
