(* ===== verification/Prelude.v ===== *)
(** * wknet: a verification library for the protocol core of the wknet client

    wknet is an HTTP client library for Windows kernel drivers.  Its sources,
    under src/src/wknetlib/, hold QUIC, HTTP/1, HTTP/2, HTTP/3, QPACK, HPACK,
    WebSocket and TLS stacks over kernel sockets.  This library models the parts
    that decide what goes on the wire and what the application sees, and proves
    what makes each part correct.  The models are functions on values; a method
    of a class becomes a function that takes the object as a record and returns
    the new record, and a status where the method returns one.

    ** The parts and their files

    - Prelude (this file): status codes ([NTSTATUS]), the [Result] type, unsigned
      machine arithmetic ([u64], [+!], [-!], [*!]), record update, byte lists
      indexed by [Z], spans (pointer and length), buffers, big-endian integers,
      and the tactics that the other files share.
    - QuicVarInt (quic/QuicVarInt.cpp): variable-length integers.
    - QuicFlowControl (quic/QuicFlowControl.cpp): connection flow control.
    - QuicAckTracker (quic/QuicAckTracker.cpp): the received packet numbers of a
      packet number space and the delayed acknowledgement.
    - QuicCongestion, QuicRecovery (quic/QuicCongestion.cpp,
      quic/QuicRecovery.cpp): congestion control and loss recovery; recovery owns
      a congestion controller and calls it.
    - QuicStream (quic/QuicStream.cpp): one stream, its reassembly buffer and
      its notifications.
    - QuicFrame, QuicPacket, QuicTransportParameters (the files of the same
      names): the wire formats, over QuicVarInt.
    - HpackInteger, HpackHuffman, HpackDynamicTable, Hpack (http2/Hpack.cpp and
      its headers): HPACK integers, Huffman coding, the dynamic table in its two
      buffers, and the header encoder and decoder over them.
    - Http2Frame, Http2Stream (http2/Http2Frame.cpp, http2/Http2Stream.cpp): the
      frame codec, and one stream's states and windows.
    - Http2Connection (http2/Http2Connection.cpp, the receiving side): the
      connection record, the table of active streams, control frames, dispatch,
      responses and the receiving loop, calling Hpack, Http2Frame and Http2Stream
      as the code does.  Http2Dispatch holds its invariant and flow control,
      Http2Response what a caller receives.
    - QpackDynamicTable (qpack/QpackDynamicTable.cpp): the table QPACK encoder
      and decoder share.
    - HttpChunkedDecoder (http1/HttpChunkedDecoder.cpp, and the receive loop of
      session/HttpH1Dispatch.cpp): streaming chunked transfer coding.
    - HttpChunkedBody (http1/HttpParser.cpp): the chunked decoder for bodies that
      arrived whole, with extensions and trailer fields, over HttpText.
    - Base64 (RFC 4648, no file of the program): what the two base64 encoders of
      the program, in Http2Frame and WebSocketFrame, are compared with.
    - HttpText (rtl/Text.cpp, http1/HttpTypes.cpp, http1/HttpResponse.cpp): texts,
      tokens of field values, fields of a response, Content-Range.
    - BitStream (no file of the program): the bits of a byte string, the least
      significant of a byte first.
    - CompressDecoder (codec/ContentCoding.cpp): the decoder of the compress coding
      (LZW), with a reference decoder on codes and a reference compressor.
    - LittleEndian, Poly1305, ChaChaPoly, Aes, Aead (crypto/Aead.cpp): authenticated
      encryption.  Poly1305 is the authenticator in its limbs of 26 bits, ChaChaPoly
      ChaCha20 and its AEAD, Aes the block cipher and its key schedules, Aead the CCM
      mode and the entry points, with the kernel's AES-GCM as a parameter.  Each has
      the text of its standard (RFC 8439, FIPS 197, RFC 3610) as its specification.
    - WebSocketFrame (ws/WebSocketFrame.cpp): the frame codec and the opening
      handshake, over HttpText.  WebSocketDeflate (ws/WebSocketDeflate.cpp):
      permessage-deflate; WebSocketDeflateSafety proves what holds on any input.
    A file models one class or one source file; the record of a class lists its
    fields with a short prefix, and operations keep the names of the methods.
    Where a method is long, its loops and cases are definitions of their own; the
    comment of a definition says which part of the method it is.

    ** What the theorems show

    - Wire formats: whatever the encoders accept, the parsers read back exactly,
      with any bytes after it (varint_decode_encode, frame_roundtrip,
      ack_frame_roundtrip, long_header_roundtrip, short_header_roundtrip,
      client_params_roundtrip); the parsers end and stay inside their input on
      every byte string (parse_frame_safe, coalesced_packets, parse_params_legal);
      the encoders stay within the capacity they are given
      (encode_within_capacity).
    - Reassembly: stream_delivery and receive_refines state that the application
      reads a prefix of what the peer sent, however it is segmented, and
      stream_accounting and stream_send state the accounting of both directions.
    - Receiving and loss: ack_received_refines_set and ack_ranges_exact relate the
      range array to the set of received numbers; recovery_accounting and
      ack_ranges_outcome the sent-packet array to what is in flight.
    - Limits: flow_safety, flow_ledger, congestion_bounds and
      can_send_within_window state that credit is never exceeded.
    - HPACK: hpack_roundtrip states that any sequence of headers encoded by one
      side is decoded by the other, which then has the same table;
      hpack_table_refines relates the buffers of the table to a bounded queue,
      huffman_exact and hpack_integer_exact the codes to their specification;
      hpack_decode_safe bounds the decoder on any input.
    - HTTP/2: h2_stream_refines and h2_stream_credit give the abstract stream;
      dispatch_invariant is the invariant of the connection under any frame,
      receive_window_open its flow control; fragments_as_one,
      validate_response_exact and response_complete say which response reaches
      the caller, and receive_response_ends that the loop ends.
    - QPACK: table_refines, table_bounds and referenced_stays relate the buffer
      with its offsets to a bounded queue of fields; reference_name_displaced says
      what becomes of a name that points into the buffer when the insertion evicts.
    - Chunked coding: chunked_language gives the accepted language as a grammar, which is wider than
      that of RFC 9112,
      chunked_pieces shows that segmentation does not matter, chunked_safe bounds
      the buffers;
      whole_chunked_exact and whole_chunked_more do so for whole bodies, and
      decoders_agree compares the two decoders on their common grammar.
    - WebSocket: ws_frame_roundtrip and ws_header_exact give the frames,
      handshake_exact and deflate_negotiated the responses that are accepted;
      inflate_meaning states that the decoder gives every message of RFC 1951 its
      meaning, canonical_decoded that its tables are the canonical codes,
      inflate_safe that it ends on any bytes within its limits, and
      deflate_roundtrip that the encoder's messages are read back.
    - Cryptography: poly1305_exact and aes_block_exact relate the optimised arithmetic
      to RFC 8439 and FIPS 197; aead_encrypt_exact, aead_decrypt_exact and
      aead_roundtrip give the tags, the one tag that is accepted, and the text back,
      for ChaCha20-Poly1305 and AES-CCM within their limits.
    - Content codings: compress_exact characterises the streams that the LZW decoder
      accepts, compress_roundtrip reads back files of the compress format without
      clear codes.
    Some theorems record behaviour that differs from what the code means to do:
    reset_entry_lost, reference_name_displaced, ccm_long_aad, loss_timer_drops_newer_packet,
    fin_below_received_accepted and the lemma extension_unbounded; and some examples do: compress_misaligned,
    stray_carriage_return and decoders_differ.

    ** Conventions, bounds and fuel

    [ULONGLONG] and [SIZE_T] are [Z] in the range of 64 bits (the library is built
    for 64-bit targets) and every operation on them wraps; [ULONG] wraps at 32
    bits; a [LONG] is two's complement ([i32]).  A pool allocation is a boolean
    argument that says whether it succeeds, a time is an argument.  A callback is
    a parameter, or an event of a log where its effect on the caller is only its
    status.  A pointer into a buffer is an offset, a pointer to an element of an
    array its index.  The transport under a connection is a record of what was
    sent, of the statuses of sends to come, and of the input in pieces.  Loops over
    arrays are structural on the list of their elements.  A loop that is not has fuel taken from the
    length of its input: the frame and parameter parsers consume at least one byte
    per turn, so the length is enough, and the chunked decoder at least one byte
    every two turns ([feed_loop_fuel]).  The header decoder consumes a byte per
    turn, a read its length; the turns of the HTTP/2 receiving loop are bounded by
    the limit on the frames of a connection ([turns_left]).  The loops of the
    inflater consume at least one bit per turn, its fuel is the bits of its input, and so is
    that of the LZW decoder; the ciphers take a turn per block, the aes128gcm decoder one per record, and have the length of
    the text.  Where fuel would run
    out the model returns [STATUS_OTHER]; the theorems above exclude it.

    ** What is not modelled

    The sending side of Http2Connection, and the drivers QuicConnection and
    Http3Connection, which tie these parts to sockets, threads and timers.  The
    WebSocket connection over a transport (session/WsConnection.cpp) is not either.
    TLS and the drivers of packet protection are not; hashes, key exchange and AES-GCM
    are the kernel's, and the GCM that Aead.cpp compiles for tests is left out.  SHA-1 and the random
    generator are parameters of the WebSocket handshake.  The EXI and Pack200 decoders (src/wknetlib/codec)
    are large and independent of the protocols.  Session management, the public
    interface and the samples pass handles to the layers below.  Trace calls and
    the zeroing of freed memory have no effect on the models. *)

From Stdlib Require Export ZArith Lia List.
From stdpp Require Export base tactics numbers option list.
#[global] Open Scope Z_scope.
Export ListNotations.

(** ** Status codes *)

(** The NTSTATUS values the modelled code returns.  [STATUS_OTHER] stands for
    any other failure code, e.g. one returned by an application callback. *)
Inductive NTSTATUS :=
  | STATUS_SUCCESS
  | STATUS_INVALID_PARAMETER
  | STATUS_BUFFER_TOO_SMALL
  | STATUS_BUFFER_OVERFLOW
  | STATUS_INTEGER_OVERFLOW
  | STATUS_INVALID_NETWORK_RESPONSE
  | STATUS_NOT_SUPPORTED
  | STATUS_DEVICE_BUSY
  | STATUS_INSUFFICIENT_RESOURCES
  | STATUS_INVALID_DEVICE_STATE
  | STATUS_NOT_FOUND
  | STATUS_CONNECTION_RESET
  | STATUS_CONNECTION_DISCONNECTED
  | STATUS_MORE_PROCESSING_REQUIRED
  | STATUS_RETRY
  | STATUS_IO_TIMEOUT
  | STATUS_INVALID_SIGNATURE
  | STATUS_OTHER (code : Z).

#[export] Instance NTSTATUS_eq_dec : EqDecision NTSTATUS.
Proof. solve_decision. Defined.

(** [NT_SUCCESS(status)]: every code above but the first is an error code. *)
Definition NT_SUCCESS (s : NTSTATUS) : bool :=
  match s with STATUS_SUCCESS => true | _ => false end.

Lemma NT_SUCCESS_true s : NT_SUCCESS s = true -> s = STATUS_SUCCESS.
Proof. by destruct s. Qed.

(** ** Fallible computations

    A function that returns a status and fills its out-parameters only on
    success is a [Result]. *)
Inductive Result (A : Type) :=
  | Ok (a : A)
  | Err (s : NTSTATUS).
Arguments Ok {A} a.
Arguments Err {A} s.

#[export] Instance Result_ret : MRet Result := fun A a => Ok a.
#[export] Instance Result_bind : MBind Result := fun A B f m =>
  match m with Ok a => f a | Err s => Err s end.

Definition status_of {A} (r : Result A) : NTSTATUS :=
  match r with Ok _ => STATUS_SUCCESS | Err s => s end.

Definition is_Ok {A} (r : Result A) : bool :=
  match r with Ok _ => true | Err _ => false end.

Lemma bind_Ok {A B} (m : Result A) (f : A -> Result B) b :
  (m ≫= f) = Ok b <-> exists a, m = Ok a /\ f a = Ok b.
Proof.
  split; [|by intros (a & -> & ?)].
  destruct m as [a|s]; simpl; [eauto|discriminate].
Qed.

Lemma bind_Ok_l {A B} (a : A) (f : A -> Result B) : (Ok a ≫= f) = f a.
Proof. done. Qed.

Lemma bind_Err_l {A B} s (f : A -> Result B) : (Err s ≫= f) = Err s.
Proof. done. Qed.

(** ** Machine integers

    A [ULONGLONG] or [SIZE_T] (the library is built for 64-bit targets) is a
    [Z] in [0, 2^64); arithmetic that the C++ code performs on it is reduced
    modulo [2^64] at every operation. *)
Definition u64 (x : Z) : Z := x mod 2 ^ 64.
Definition u32 (x : Z) : Z := x mod 2 ^ 32.
Definition u8 (x : Z) : Z := x mod 256.
(** A [LONG]: two's complement on 32 bits. *)
Definition i32 (x : Z) : Z := (x + 2 ^ 31) mod 2 ^ 32 - 2 ^ 31.
Definition MAXU64 : Z := 2 ^ 64 - 1.
Definition MAXU32 : Z := 2 ^ 32 - 1.

Declare Scope wk_scope.
Delimit Scope wk_scope with wk.
Notation "a +! b" := (u64 (a + b)) (at level 50, left associativity) : wk_scope.
Notation "a -! b" := (u64 (a - b)) (at level 50, left associativity) : wk_scope.
Notation "a *! b" := (u64 (a * b)) (at level 40, left associativity) : wk_scope.
#[global] Open Scope wk_scope.

Definition is_u64 (x : Z) : Prop := 0 <= x < 2 ^ 64.
Definition is_u32 (x : Z) : Prop := 0 <= x < 2 ^ 32.
Definition is_i32 (x : Z) : Prop := - 2 ^ 31 <= x < 2 ^ 31.
Definition is_byte (b : Z) : Prop := 0 <= b < 256.

Lemma u64_id x : 0 <= x < 2 ^ 64 -> u64 x = x.
Proof. apply Z.mod_small. Qed.
Lemma u32_id x : 0 <= x < 2 ^ 32 -> u32 x = x.
Proof. apply Z.mod_small. Qed.
Lemma u64_range x : 0 <= u64 x < 2 ^ 64.
Proof. apply Z.mod_pos_bound. lia. Qed.
Lemma u64_le x : 0 <= x -> u64 x <= x.
Proof. intros. apply Z.mod_le; lia. Qed.
Lemma u32_range x : 0 <= u32 x < 2 ^ 32.
Proof. apply Z.mod_pos_bound. lia. Qed.
Lemma i32_id x : - 2 ^ 31 <= x < 2 ^ 31 -> i32 x = x.
Proof. intros. unfold i32. rewrite Z.mod_small by lia. lia. Qed.
Lemma i32_range x : - 2 ^ 31 <= i32 x < 2 ^ 31.
Proof. unfold i32. pose proof (Z.mod_pos_bound (x + 2 ^ 31) (2 ^ 32) ltac:(lia)). lia. Qed.
Lemma u8_range x : 0 <= u8 x < 256.
Proof. apply Z.mod_pos_bound. lia. Qed.

Create HintDb wk.
#[export] Hint Resolve u64_range u32_range u8_range : wk.

(** [u64_simpl] removes every wrap-around whose argument [lia] bounds. *)
Ltac u64_simpl :=
  repeat match goal with
  | |- context [u64 ?x] => rewrite (u64_id x) by lia
  | H : context [u64 ?x] |- _ => rewrite (u64_id x) in H by lia
  end.

(** [bool_lia] turns the boolean comparisons of hypotheses and goal into
    propositions, and calls [lia]. *)
Ltac bool_prop :=
  repeat match goal with
  | H : (_ && _)%bool = true |- _ => apply andb_true_iff in H; destruct H
  | H : (_ || _)%bool = false |- _ => apply orb_false_iff in H; destruct H
  | H : negb _ = true |- _ => apply negb_true_iff in H
  | H : negb _ = false |- _ => apply negb_false_iff in H
  | H : (_ <? _) = true |- _ => apply Z.ltb_lt in H
  | H : (_ <? _) = false |- _ => apply Z.ltb_ge in H
  | H : (_ <=? _) = true |- _ => apply Z.leb_le in H
  | H : (_ <=? _) = false |- _ => apply Z.leb_gt in H
  | H : (_ =? _) = true |- _ => apply Z.eqb_eq in H
  | H : (_ =? _) = false |- _ => apply Z.eqb_neq in H
  | H : (_ >? _) = true |- _ => rewrite Z.gtb_ltb in H
  | H : (_ >? _) = false |- _ => rewrite Z.gtb_ltb in H
  | H : (_ >=? _) = true |- _ => rewrite Z.geb_leb in H
  | H : (_ >=? _) = false |- _ => rewrite Z.geb_leb in H
  end.
Ltac bool_lia := bool_prop; lia.

(** [case_if] splits on an innermost [if] of the goal whose test is a boolean. *)
Ltac case_if :=
  match goal with
  | |- context [if ?b then _ else _] =>
      lazymatch type of b with bool => idtac end;
      lazymatch b with context [if _ then _ else _] => fail | _ => destruct b eqn:? end
  end.
Ltac case_if_in H :=
  match type of H with
  | context [if ?b then _ else _] =>
      lazymatch type of b with bool => destruct b eqn:? end
  end.
(** Discard the branches that cannot return success. *)
Ltac case_ok H := repeat (case_if_in H; try discriminate H); bool_prop.

(** Decide the guard of the goal, by [lia]. *)
Ltac guard_false :=
  match goal with
  | |- context [if ?b then _ else _] =>
      replace b with false by (symmetry; rewrite ?orb_false_iff, ?Z.gtb_ltb, ?Z.geb_leb, ?Z.ltb_ge, ?Z.leb_gt, ?Z.eqb_neq; lia)
  end.

(** ** Record update

    [r <| field := v |>]: the assignment [this->field = v].  A record type
    declares its eta-expansion once; the setter of each field is derived from
    it. *)
Class Eta (R : Type) := eta_expand : R -> R.
Class Setter {R E : Type} (proj : R -> E) := set_field : (E -> E) -> R -> R.
#[global] Arguments set_field {R E} proj {_} f r.

Ltac derive_setter :=
  lazymatch goal with
  | |- @Setter ?R ?E ?proj =>
      exact (fun (f : E -> E) (x : R) => ltac:(
        let body := eval hnf in (@eta_expand R _ x) in
        let pat := eval pattern (proj x) in body in
        lazymatch pat with
        | ?F _ => let r := eval cbv beta in (F (f (proj x))) in exact r
        end))
  end.
#[export] Hint Extern 1 (Setter _) => derive_setter : typeclass_instances.

Declare Scope record_scope.
#[global] Open Scope record_scope.
Notation "r <| proj := v |>" := (set_field proj (fun _ => v) r)
  (at level 1, left associativity) : record_scope.

(** ** Bits *)

Lemma land_ones_mod a n : 0 <= n -> Z.land a (2 ^ n - 1) = a mod 2 ^ n.
Proof. intros. rewrite <- Z.land_ones by lia. by rewrite Z.ones_equiv. Qed.

Lemma lor_disjoint a b n :
  0 <= n -> 0 <= b < 2 ^ n -> Z.lor (a * 2 ^ n) b = a * 2 ^ n + b.
Proof.
  intros Hn Hb. symmetry. apply Z.add_nocarry_lor, Z.bits_inj'. intros i Hi.
  rewrite Z.land_spec, Z.bits_0, <- Z.shiftl_mul_pow2, Z.shiftl_spec by lia.
  destruct (Z.lt_ge_cases i n); [by rewrite Z.testbit_neg_r by lia|].
  destruct (Z.eq_dec b 0) as [->|]; [by rewrite Z.testbit_0_l, andb_false_r|].
  rewrite (Z.bits_above_log2 b i), andb_false_r; [done|lia|].
  enough (Z.log2 b < n) by lia. by apply Z.log2_lt_pow2; lia.
Qed.

Lemma lor_shiftl a b n :
  0 <= n -> 0 <= b < 2 ^ n -> Z.lor (Z.shiftl a n) b = a * 2 ^ n + b.
Proof. intros. rewrite Z.shiftl_mul_pow2 by lia. by apply lor_disjoint. Qed.

Lemma shiftl_8 a : Z.shiftl a 8 = a * 256.
Proof. by rewrite Z.shiftl_mul_pow2. Qed.
Lemma shiftr_8 a : Z.shiftr a 8 = a / 256.
Proof. by rewrite Z.shiftr_div_pow2. Qed.
Lemma land_255 a : Z.land a 255 = a mod 256.
Proof. by apply (land_ones_mod a 8). Qed.

(** A boolean fact about every byte is settled by evaluation. *)
Lemma byte_cases (f : Z -> bool) :
  forallb f (seqZ 0 256) = true -> forall b, is_byte b -> f b = true.
Proof.
  intros H b Hb. rewrite List.forallb_forall in H. apply H.
  apply list_elem_of_In, elem_of_seqZ. unfold is_byte in Hb. lia.
Qed.

(** ** Byte strings

    Lengths, offsets and indices of the code are [SIZE_T] values, so the list
    operations below are indexed by [Z]. *)
Definition zlen {A} (l : list A) : Z := Z.of_nat (length l).
Definition ztake {A} (n : Z) (l : list A) : list A := take (Z.to_nat n) l.
Definition zdrop {A} (n : Z) (l : list A) : list A := drop (Z.to_nat n) l.
(** [data[i]]; every use is guarded by a bounds check of the code. *)
Definition zget (l : list Z) (i : Z) : Z := nth (Z.to_nat i) l 0.
(** [{data + off, len}] *)
Definition zsub {A} (l : list A) (off len : Z) : list A := ztake len (zdrop off l).

Abbreviation bytes := (Forall is_byte).

(** [forall_list] splits [Forall P] of an explicit list. *)
Ltac forall_list := repeat first [apply Forall_nil_2 | apply Forall_cons_2].

Lemma zlen_nonneg {A} (l : list A) : 0 <= zlen l.
Proof. unfold zlen. lia. Qed.
Lemma zlen_nil {A} : zlen (@nil A) = 0.
Proof. done. Qed.
Lemma zlen_cons {A} (x : A) l : zlen (x :: l) = 1 + zlen l.
Proof. unfold zlen. simpl. lia. Qed.
Lemma zlen_app {A} (l k : list A) : zlen (l ++ k) = zlen l + zlen k.
Proof. unfold zlen. rewrite length_app. lia. Qed.
Lemma zlen_ztake {A} n (l : list A) : 0 <= n <= zlen l -> zlen (ztake n l) = n.
Proof. unfold zlen, ztake. rewrite length_take. lia. Qed.
Lemma zlen_zdrop {A} n (l : list A) : 0 <= n <= zlen l -> zlen (zdrop n l) = zlen l - n.
Proof. unfold zlen, zdrop. rewrite length_drop. lia. Qed.
Lemma zlen_zsub {A} off n (l : list A) :
  0 <= off -> 0 <= n -> off + n <= zlen l -> zlen (zsub l off n) = n.
Proof. intros. unfold zsub. rewrite zlen_ztake; [done|]. rewrite zlen_zdrop; lia. Qed.
Lemma zlen_map {A B} (f : A -> B) l : zlen (map f l) = zlen l.
Proof. unfold zlen. by rewrite length_map. Qed.
Lemma zdrop_0 {A} (l : list A) : zdrop 0 l = l.
Proof. done. Qed.
Lemma zdrop_all {A} (l : list A) : zdrop (zlen l) l = [].
Proof. unfold zdrop, zlen. rewrite Nat2Z.id. by apply drop_ge. Qed.
Lemma ztake_all {A} n (l : list A) : zlen l <= n -> ztake n l = l.
Proof. unfold ztake, zlen. intros. apply take_ge. lia. Qed.
Lemma zdrop_app_len {A} (l k : list A) : zdrop (zlen l) (l ++ k) = k.
Proof. unfold zdrop, zlen. rewrite Nat2Z.id. apply drop_app_length. Qed.
Lemma ztake_app_len {A} (l k : list A) : ztake (zlen l) (l ++ k) = l.
Proof. unfold ztake, zlen. rewrite Nat2Z.id. apply take_app_length. Qed.
Lemma zsub_at {A} (before w after : list A) : zsub (before ++ w ++ after) (zlen before) (zlen w) = w.
Proof. unfold zsub. by rewrite zdrop_app_len, ztake_app_len. Qed.
Lemma zdrop_zdrop {A} n m (l : list A) :
  0 <= n -> 0 <= m -> zdrop n (zdrop m l) = zdrop (m + n) l.
Proof. intros. unfold zdrop. rewrite drop_drop. f_equal. lia. Qed.
Lemma zdrop_app_plus {A} n (l k : list A) :
  0 <= n -> zdrop (zlen l + n) (l ++ k) = zdrop n k.
Proof.
  intros. unfold zdrop, zlen. rewrite Z2Nat.inj_add, Nat2Z.id by lia.
  rewrite drop_app, drop_ge, (Nat.add_comm (length l)), Nat.add_sub by lia. done.
Qed.
Lemma ztake_zdrop {A} n (l : list A) : ztake n l ++ zdrop n l = l.
Proof. apply take_drop. Qed.
Lemma zget_0 a l : zget (a :: l) 0 = a.
Proof. done. Qed.
Lemma zget_app_r l k i : zlen l <= i -> zget (l ++ k) i = zget k (i - zlen l).
Proof.
  unfold zget, zlen. intros. rewrite app_nth2 by lia. f_equal. lia.
Qed.
Lemma zget_app_l l k i : 0 <= i < zlen l -> zget (l ++ k) i = zget l i.
Proof. unfold zget, zlen. intros. apply app_nth1. lia. Qed.
Lemma zget_zdrop l n i : 0 <= n -> 0 <= i -> zget (zdrop n l) i = zget l (n + i).
Proof.
  unfold zget, zdrop. intros. rewrite Z2Nat.inj_add by lia.
  rewrite !nth_lookup, lookup_drop. done.
Qed.
Lemma zget_ztake l n i : 0 <= i < n -> zget (ztake n l) i = zget l i.
Proof.
  unfold zget, ztake. intros. rewrite !nth_lookup, lookup_take_lt by lia. done.
Qed.
Lemma zget_zsub l off n i : 0 <= off -> 0 <= i < n -> zget (zsub l off n) i = zget l (off + i).
Proof. intros. unfold zsub. by rewrite zget_ztake, zget_zdrop by lia. Qed.
(** Byte strings are equal when their bytes are. *)
Lemma zget_ext l k :
  zlen l = zlen k -> (forall i, 0 <= i < zlen l -> zget l i = zget k i) -> l = k.
Proof.
  unfold zget, zlen. intros Hlen H. apply (nth_ext _ _ 0 0); [lia|]. intros n Hn.
  specialize (H (Z.of_nat n)). rewrite Nat2Z.id in H. apply H. lia.
Qed.
Lemma zlen_replicate {A} n (x : A) : zlen (replicate n x) = Z.of_nat n.
Proof. unfold zlen. by rewrite length_replicate. Qed.
Lemma zget_byte l i : bytes l -> 0 <= i < zlen l -> is_byte (zget l i).
Proof.
  intros Hl Hi. unfold zget. apply Forall_nth; [done|]. unfold zlen in Hi. lia.
Qed.
Lemma bytes_zsub l off n : bytes l -> bytes (zsub l off n).
Proof. intros. by apply Forall_take, Forall_drop. Qed.
Lemma bytes_zdrop l n : bytes l -> bytes (zdrop n l).
Proof. intros. by apply Forall_drop. Qed.
Lemma bytes_ztake l n : bytes l -> bytes (ztake n l).
Proof. intros. by apply Forall_take. Qed.

(** ** Buffers *)

(** [RtlCopyMemory(dst + at, src, Length(src))] *)
Definition mem_copy (dst : list Z) (at_ : Z) (src : list Z) : list Z :=
  ztake at_ dst ++ src ++ zdrop (at_ + zlen src) dst.

Lemma zlen_mem_copy dst k src :
  0 <= k -> k + zlen src <= zlen dst -> zlen (mem_copy dst k src) = zlen dst.
Proof.
  intros. pose proof (zlen_nonneg src). unfold mem_copy.
  rewrite !zlen_app, zlen_ztake, zlen_zdrop by lia. lia.
Qed.

Lemma zget_mem_copy dst k src i :
  0 <= k -> k + zlen src <= zlen dst -> 0 <= i ->
  zget (mem_copy dst k src) i
  = if (k <=? i) && (i <? k + zlen src) then zget src (i - k) else zget dst i.
Proof.
  intros Hk Hd Hi. pose proof (zlen_nonneg src). unfold mem_copy.
  assert (zlen (ztake k dst) = k) by (apply zlen_ztake; lia).
  case_if; bool_prop.
  - rewrite zget_app_r, zget_app_l by lia. f_equal. lia.
  - destruct (Z.lt_ge_cases i k).
    + rewrite zget_app_l, zget_ztake by lia. done.
    + assert (k + zlen src <= i).
      { destruct (Z.leb_spec k i), (Z.ltb_spec i (k + zlen src)); simpl in *; try discriminate; lia. }
      rewrite !zget_app_r, zget_zdrop by lia. f_equal. lia.
Qed.

Lemma zsub_mem_copy_out dst k src off n :
  0 <= k -> k + zlen src <= zlen dst -> 0 <= off -> 0 <= n -> off + n <= zlen dst ->
  off + n <= k \/ k + zlen src <= off -> zsub (mem_copy dst k src) off n = zsub dst off n.
Proof.
  intros Hk Hd Ho Hn Hb Hout. apply zget_ext.
  { rewrite !zlen_zsub; rewrite ?zlen_mem_copy; lia. }
  intros i Hi. rewrite zlen_zsub in Hi by (rewrite ?zlen_mem_copy; lia).
  rewrite !zget_zsub, zget_mem_copy by lia. case_if; [bool_lia|done].
Qed.
Lemma zsub_mem_copy_in dst k src off n :
  0 <= k -> k + zlen src <= zlen dst -> 0 <= off -> 0 <= n -> off + n <= zlen src ->
  zsub (mem_copy dst k src) (k + off) n = zsub src off n.
Proof.
  intros Hk Hd Ho Hn Hb. apply zget_ext.
  { rewrite !zlen_zsub; rewrite ?zlen_mem_copy; lia. }
  intros i Hi. rewrite zlen_zsub in Hi by (rewrite ?zlen_mem_copy; lia).
  rewrite !zget_zsub, zget_mem_copy by lia. case_if; [f_equal; lia|].
  destruct (Z.leb_spec k (k + off + i)), (Z.ltb_spec (k + off + i) (k + zlen src)); cbn in *; try done; lia.
Qed.
Lemma zsub_zsub {A} (l : list A) a n b m :
  0 <= a -> 0 <= b -> 0 <= m -> b + m <= n -> zsub (zsub l a n) b m = zsub l (a + b) m.
Proof.
  intros. unfold zsub, ztake, zdrop. rewrite skipn_firstn_comm, firstn_firstn, drop_drop.
  rewrite Z2Nat.inj_add by lia. f_equal. lia.
Qed.

#[export] Hint Resolve bytes_zsub bytes_zdrop bytes_ztake : wk.
#[export] Hint Rewrite @zlen_app @zlen_cons @zlen_nil : zlen.
Ltac zlen_simpl := autorewrite with zlen in *.

(** ** Spans

    A pointer and a length, as the parsing functions take them.  [Null len] is
    a null pointer with a claimed length; [Bytes l] points to the bytes [l]. *)
Inductive span := Null (len : Z) | Bytes (l : list Z).
Definition sp_isnull (s : span) : bool := match s with Null _ => true | Bytes _ => false end.
Definition sp_len (s : span) : Z := match s with Null n => n | Bytes l => zlen l end.
Definition sp_bytes (s : span) : list Z := match s with Null _ => [] | Bytes l => l end.

(** ** Big-endian integers

    [be_put n v] is the loop
    [for (index = n; index > 0; --index) { out[index-1] = (UCHAR)(v & 0xff); v >>= 8; }]
    and [be_get acc l] the loop [for (b : l) acc = (acc << 8) | b] over a
    [ULONGLONG]; both occur in several files of the code. *)
Fixpoint be_put_loop (n : nat) (v : Z) (acc : list Z) : list Z :=
  match n with
  | O => acc
  | S n => be_put_loop n (Z.shiftr v 8) (u8 (Z.land v 255) :: acc)
  end.
Definition be_put (n : Z) (v : Z) : list Z := be_put_loop (Z.to_nat n) v [].

Fixpoint be_get (acc : Z) (l : list Z) : Z :=
  match l with
  | [] => acc
  | b :: l => be_get (Z.lor (u64 (Z.shiftl acc 8)) b) l
  end.

Lemma be_put_loop_app n v acc : be_put_loop n v acc = be_put_loop n v [] ++ acc.
Proof.
  revert v acc. induction n as [|n IH]; intros v acc; [done|].
  simpl. rewrite IH, (IH _ [_]), <- app_assoc. done.
Qed.
Lemma be_put_loop_S n v :
  be_put_loop (S n) v [] = be_put_loop n (v / 256) [] ++ [v mod 256].
Proof.
  simpl. rewrite be_put_loop_app, land_255, shiftr_8. unfold u8. by rewrite Z.mod_mod by lia.
Qed.
Lemma be_put_loop_len n v : length (be_put_loop n v []) = n.
Proof.
  revert v. induction n as [|n IH]; intros v; [done|].
  rewrite be_put_loop_S, length_app, IH. simpl. lia.
Qed.
Lemma be_put_len n v : 0 <= n -> zlen (be_put n v) = n.
Proof. intros. unfold be_put, zlen. rewrite be_put_loop_len. lia. Qed.
Lemma be_put_loop_bytes n v : bytes (be_put_loop n v []).
Proof.
  revert v. induction n as [|n IH]; intros v; [by constructor|].
  rewrite be_put_loop_S. apply Forall_app; split; [apply IH|].
  constructor; [|constructor]. unfold is_byte. apply Z.mod_pos_bound. lia.
Qed.
Lemma be_put_bytes n v : bytes (be_put n v).
Proof. apply be_put_loop_bytes. Qed.

Lemma be_get_app acc l k : be_get acc (l ++ k) = be_get (be_get acc l) k.
Proof. revert acc. induction l as [|b l IH]; intros acc; [done|]. apply IH. Qed.

(** One step of the reading loop, when the result fits. *)
Lemma be_get_step acc b :
  0 <= acc < 2 ^ 56 -> is_byte b -> Z.lor (u64 (Z.shiftl acc 8)) b = acc * 256 + b.
Proof.
  intros Hacc Hb. unfold is_byte in Hb. rewrite u64_id by (rewrite shiftl_8; lia).
  by apply (lor_shiftl acc b 8).
Qed.

Lemma pow256_S n : 256 ^ Z.of_nat (S n) = 256 * 256 ^ Z.of_nat n.
Proof. rewrite Nat2Z.inj_succ, Z.pow_succ_r by lia. done. Qed.
Lemma pow256_pos n : 0 < 256 ^ Z.of_nat n.
Proof. apply Z.pow_pos_nonneg; lia. Qed.

Lemma be_get_value l acc :
  bytes l -> 0 <= acc -> acc * 256 ^ zlen l + (256 ^ zlen l - 1) < 2 ^ 64 ->
  be_get acc l = acc * 256 ^ zlen l + be_get 0 l
  /\ 0 <= be_get 0 l < 256 ^ zlen l.
Proof.
  revert acc. induction l as [|b l IH] using rev_ind; intros acc Hl Hacc Hfit.
  { simpl. change (256 ^ zlen []) with 1. lia. }
  apply Forall_app in Hl as [Hl Hb]. apply Forall_inv in Hb.
  rewrite zlen_app in *. change (zlen [b]) with 1 in *.
  rewrite Z.pow_add_r in * by (try apply zlen_nonneg; lia).
  change (256 ^ 1) with 256 in *.
  assert (Hp : 0 < 256 ^ zlen l) by apply pow256_pos.
  destruct (IH acc Hl Hacc) as [IH1 IH2]; [nia|].
  unfold is_byte in Hb.
  rewrite !be_get_app. simpl. rewrite !be_get_step; try done; nia.
Qed.

Lemma be_get_put n v :
  0 <= n <= 8 -> be_get 0 (be_put n v) = v mod 256 ^ n.
Proof.
  intros Hn. unfold be_put. rewrite <- (Z2Nat.id n) at 2 by lia.
  assert (Hm : (Z.to_nat n <= 8)%nat) by lia. clear Hn. revert v.
  induction (Z.to_nat n) as [|m IH]; intros v; [by rewrite Z.mod_1_r|].
  rewrite be_put_loop_S, be_get_app, IH by lia. simpl be_get.
  rewrite pow256_S. pose proof (pow256_pos m).
  assert (256 ^ Z.of_nat m <= 2 ^ 56).
  { change (2 ^ 56) with (256 ^ 7). apply Z.pow_le_mono_r; lia. }
  rewrite be_get_step.
  - rewrite Z.rem_mul_r by lia. lia.
  - pose proof (Z.mod_pos_bound (v / 256) (256 ^ Z.of_nat m)). lia.
  - unfold is_byte. apply Z.mod_pos_bound. lia.
Qed.

Lemma be_put_get l :
  bytes l -> zlen l <= 8 -> be_put (zlen l) (be_get 0 l) = l.
Proof.
  unfold be_put, zlen. rewrite Nat2Z.id.
  induction l as [|b l IH] using rev_ind; intros Hl Hlen; [done|].
  rewrite length_app in *. simpl length in *. rewrite Nat.add_1_r in *.
  apply Forall_app in Hl as [Hl Hb]. apply Forall_inv in Hb.
  rewrite be_put_loop_S, be_get_app. simpl be_get.
  assert (Hp : 0 < 256 ^ zlen l <= 2 ^ 56).
  { split; [apply pow256_pos|]. change (2 ^ 56) with (256 ^ 7).
    apply Z.pow_le_mono_r; unfold zlen; lia. }
  destruct (be_get_value l 0) as [_ Hv]; [done|lia|lia|].
  unfold is_byte in Hb.
  rewrite be_get_step by (done || lia).
  rewrite Z.div_add_l, Z.div_small, Z.add_0_r by lia.
  rewrite IH by (done || lia). f_equal. f_equal.
  rewrite Z.add_comm, Z.mod_add by lia. by apply Z.mod_small.
Qed.

(** ** String literals *)

From Stdlib Require Ascii String.

Definition str (s : String.string) : list Z :=
  map (fun a => Z.of_N (Ascii.N_of_ascii a)) (String.list_ascii_of_string s).
