(* ===== verification/Base64.v ===== *)
(** * Base64 (RFC 4648): the reference both encoders of the code are compared with

    The bits of the input in groups of six, the last one filled up with zeros.
    http2/Http2Frame.cpp writes the groups with the URL alphabet,
    ws/WebSocketFrame.cpp with the standard one and padding; both take them from
    24-bit values by shifts. *)

From S2P Require Import Prelude.

Definition octet_bits (b : Z) : list bool := map (Z.testbit b) [7; 6; 5; 4; 3; 2; 1; 0].
Definition six (b5 b4 b3 b2 b1 b0 : bool) : Z :=
  32 * Z.b2z b5 + 16 * Z.b2z b4 + 8 * Z.b2z b3 + 4 * Z.b2z b2 + 2 * Z.b2z b1 + Z.b2z b0.
Fixpoint sextets (bits : list bool) : list Z :=
  match bits with
  | [] => []
  | [a] => [six a false false false false false]
  | [a; b] => [six a b false false false false]
  | [a; b; c] => [six a b c false false false]
  | [a; b; c; d] => [six a b c d false false]
  | [a; b; c; d; e] => [six a b c d e false]
  | a :: b :: c :: d :: e :: f :: rest => six a b c d e f :: sextets rest
  end.
Definition base64_digits (input : list Z) : list Z := sextets (flat_map octet_bits input).

(** The three ways a byte is cut. *)
Lemma octet_cuts b : is_byte b ->
  six (Z.testbit b 7) (Z.testbit b 6) (Z.testbit b 5) (Z.testbit b 4) (Z.testbit b 3) (Z.testbit b 2) = b / 4
  /\ 32 * Z.b2z (Z.testbit b 1) + 16 * Z.b2z (Z.testbit b 0) = b mod 4 * 16
  /\ 8 * Z.b2z (Z.testbit b 7) + 4 * Z.b2z (Z.testbit b 6) + 2 * Z.b2z (Z.testbit b 5) + Z.b2z (Z.testbit b 4) = b / 16
  /\ 32 * Z.b2z (Z.testbit b 3) + 16 * Z.b2z (Z.testbit b 2) + 8 * Z.b2z (Z.testbit b 1) + 4 * Z.b2z (Z.testbit b 0)
     = b mod 16 * 4
  /\ 2 * Z.b2z (Z.testbit b 7) + Z.b2z (Z.testbit b 6) = b / 64
  /\ six (Z.testbit b 5) (Z.testbit b 4) (Z.testbit b 3) (Z.testbit b 2) (Z.testbit b 1) (Z.testbit b 0) = b mod 64.
Proof.
  intros Hb. pose proof (byte_cases (fun b =>
    (six (Z.testbit b 7) (Z.testbit b 6) (Z.testbit b 5) (Z.testbit b 4) (Z.testbit b 3) (Z.testbit b 2) =? b / 4)
    && (32 * Z.b2z (Z.testbit b 1) + 16 * Z.b2z (Z.testbit b 0) =? b mod 4 * 16)
    && (8 * Z.b2z (Z.testbit b 7) + 4 * Z.b2z (Z.testbit b 6) + 2 * Z.b2z (Z.testbit b 5) + Z.b2z (Z.testbit b 4) =? b / 16)
    && (32 * Z.b2z (Z.testbit b 3) + 16 * Z.b2z (Z.testbit b 2) + 8 * Z.b2z (Z.testbit b 1) + 4 * Z.b2z (Z.testbit b 0)
        =? b mod 16 * 4)
    && (2 * Z.b2z (Z.testbit b 7) + Z.b2z (Z.testbit b 6) =? b / 64)
    && (six (Z.testbit b 5) (Z.testbit b 4) (Z.testbit b 3) (Z.testbit b 2) (Z.testbit b 1) (Z.testbit b 0) =? b mod 64))%bool
    eq_refl b Hb) as H. cbv beta in H. bool_prop. done.
Qed.

Definition triple_digits (a b c : Z) : list Z :=
  [a / 4; a mod 4 * 16 + b / 16; b mod 16 * 4 + c / 64; c mod 64].

Lemma triple_digits_range a b c : is_byte a -> is_byte b -> is_byte c ->
  Forall (fun d => 0 <= d < 64) (triple_digits a b c).
Proof.
  unfold is_byte. intros. unfold triple_digits. forall_list; Z.to_euclidean_division_equations; lia.
Qed.

(** The groups of a 24-bit value, by shifts. *)
Definition value_digits (v : Z) : list Z :=
  map (fun k => Z.land (Z.shiftr v k) 0x3f) [18; 12; 6; 0].

Lemma value_digits_triple a b c : is_byte a -> is_byte b -> is_byte c ->
  value_digits (a * 2 ^ 16 + b * 2 ^ 8 + c) = triple_digits a b c.
Proof.
  unfold is_byte. intros Ha Hb Hc. unfold value_digits, triple_digits. cbn [map].
  change 0x3f with (2 ^ 6 - 1). rewrite !land_ones_mod, !Z.shiftr_div_pow2 by lia. change (2 ^ 6) with 64.
  f_equal; [|f_equal; [|f_equal; [|f_equal]]]; Z.to_euclidean_division_equations; lia.
Qed.

Lemma digits_triple a b c rest : is_byte a -> is_byte b -> is_byte c ->
  base64_digits (a :: b :: c :: rest) = triple_digits a b c ++ base64_digits rest.
Proof.
  intros Ha Hb Hc. unfold base64_digits, triple_digits.
  destruct (octet_cuts a Ha) as (A1 & A2 & _). destruct (octet_cuts b Hb) as (_ & _ & B3 & B4 & _).
  destruct (octet_cuts c Hc) as (_ & _ & _ & _ & C5 & C6).
  cbn [flat_map octet_bits map app sextets]. rewrite A1, C6. f_equal.
  f_equal; [unfold six; lia|]. f_equal. unfold six. lia.
Qed.

(** The one or two bytes left: the groups of the bytes followed by zeros. *)
Lemma digits_tail a b : is_byte a -> is_byte b ->
  base64_digits [a] = ztake 2 (triple_digits a 0 0) /\ base64_digits [a; b] = ztake 3 (triple_digits a b 0).
Proof.
  intros Ha Hb. unfold base64_digits, triple_digits, ztake. cbn [Z.to_nat Pos.to_nat Pos.iter_op Nat.add take].
  destruct (octet_cuts a Ha) as (A1 & A2 & _). destruct (octet_cuts b Hb) as (_ & _ & B3 & B4 & _).
  cbn [flat_map octet_bits map app sextets]. rewrite A1, Z.div_0_l, Z.add_0_r by lia. unfold six. cbn [Z.b2z].
  change (0 / 64) with 0. rewrite <- A2, <- B3, <- B4.
  split; [change (take (Z.to_nat 2) ?l) with (take 2 l)|change (take (Z.to_nat 3) ?l) with (take 3 l)]; cbn [take];
    repeat (f_equal; try lia).
Qed.

Lemma digits_range l : bytes l -> Forall (fun d => 0 <= d < 64) (base64_digits l).
Proof.
  induction l as [l IH] using (induction_ltof1 _ (@length Z)). unfold ltof in IH. intros Hl.
  destruct l as [|a [|b [|c l]]]; [constructor| | |].
  - apply Forall_cons in Hl as [Ha _]. destruct (digits_tail a a Ha Ha) as [-> _].
    by apply Forall_take, triple_digits_range.
  - apply Forall_cons in Hl as [Ha [Hb _]%Forall_cons]. destruct (digits_tail a b Ha Hb) as [_ ->].
    by apply Forall_take, triple_digits_range.
  - apply Forall_cons in Hl as [Ha [Hb [Hc Hl]%Forall_cons]%Forall_cons].
    rewrite digits_triple by done. apply Forall_app. split; [by apply triple_digits_range|].
    apply IH; [cbn; lia|done].
Qed.

Definition base64_length (n : Z) : Z := n / 3 * 4 + (if n mod 3 =? 0 then 0 else n mod 3 + 1).

Lemma digits_length l : bytes l -> zlen (base64_digits l) = base64_length (zlen l).
Proof.
  unfold base64_length. induction l as [l IH] using (induction_ltof1 _ (@length Z)). unfold ltof in IH. intros Hl.
  destruct l as [|a [|b [|c l]]]; [done| | |].
  - apply Forall_cons in Hl as [Ha _]. by destruct (digits_tail a a Ha Ha) as [-> _].
  - apply Forall_cons in Hl as [Ha [Hb _]%Forall_cons]. by destruct (digits_tail a b Ha Hb) as [_ ->].
  - apply Forall_cons in Hl as [Ha [Hb [Hc Hl]%Forall_cons]%Forall_cons].
    rewrite digits_triple, zlen_app, IH by (done || (cbn; lia)).
    rewrite !zlen_cons. change (zlen (triple_digits a b c)) with 4.
    replace (1 + (1 + (1 + zlen l))) with (zlen l + 1 * 3) by lia. rewrite Z.div_add, Z.mod_add by lia. lia.
Qed.
