(* ===== verification/HttpText.v ===== *)
(** * Texts, header fields and responses as HTTP/1 and WebSocket read them
    (rtl/Text.cpp, http1/HttpTypes.cpp, http1/HttpResponse.cpp)

    A [Text] is a pointer and a length into a buffer owned by someone else: a
    span.  The comparisons on [char] give the same result for the bytes above
    127, which are negative there. *)

From Stdlib Require Import Ascii String.
From S2P Require Import Prelude.
#[local] Open Scope string_scope.
#[local] Open Scope list_scope.
#[local] Open Scope Z_scope.

Abbreviation Text := span (only parsing).

(** ** rtl/Text.cpp *)

Definition IsUpperAscii (value : Z) : bool := (value >=? 65) && (value <=? 90).
Definition ToLowerAscii (value : Z) : Z := if IsUpperAscii value then value + 32 else value.

(** [value]: the characters from the pointer on, up to the terminating zero. *)
Fixpoint c_string (value : list Z) : list Z :=
  match value with
  | [] => []
  | ch :: value => if ch =? 0 then [] else ch :: c_string value
  end.
Definition MakeText (value : option (list Z)) : Text :=
  match value with None => Null 0 | Some value => Bytes (c_string value) end.

Fixpoint equals_loop (left right : list Z) : bool :=
  match left, right with
  | x :: l, y :: r => if negb (ToLowerAscii x =? ToLowerAscii y) then false else equals_loop l r
  | _, _ => true
  end.
Definition TextEqualsIgnoreCase (left right : Text) : bool :=
  if negb (sp_len left =? sp_len right) || sp_isnull left || sp_isnull right then false
  else equals_loop (sp_bytes left) (sp_bytes right).

(** ** Scanning

    [cut stop l] is the loop [while (i < length && data[i] != stop) ++i]: what
    it passes over, and the rest; [split_on stop l] are the pieces such loops
    give when each starts after the [stop] at which the one before ended. *)
Fixpoint cut (stop : Z) (l : list Z) : list Z * list Z :=
  match l with
  | [] => ([], [])
  | ch :: rest => if ch =? stop then ([], l) else let '(piece, rest) := cut stop rest in (ch :: piece, rest)
  end.
Fixpoint split_on (stop : Z) (l : list Z) : list (list Z) :=
  match l with
  | [] => [[]]
  | ch :: l =>
      if ch =? stop then [] :: split_on stop l
      else match split_on stop l with [] => [[ch]] | piece :: pieces => (ch :: piece) :: pieces end
  end.

(** ** http1/HttpTypes.cpp *)

Definition is_blank (ch : Z) : bool := (ch =? 32) || (ch =? 9).
Definition IsTokenBoundary (value : Z) : bool := (value =? 44) || (value =? 32) || (value =? 9).

Fixpoint skip (p : Z -> bool) (l : list Z) : list Z :=
  match l with
  | [] => []
  | ch :: rest => if p ch then skip p rest else l
  end.
Definition trim (l : list Z) : list Z := rev (skip is_blank (rev (skip is_blank l))).
(** A null text has length 0 wherever the code trims one. *)
Definition TrimOptionalWhitespace (text : Text) : Text :=
  match text with Null len => Null len | Bytes l => Bytes (trim l) end.

(** [rest]: the value from [index] on. *)
Fixpoint has_token_loop (fuel : nat) (rest : list Z) (token : Text) : bool :=
  match fuel, rest with
  | _, [] => false
  | O, _ => false
  | S fuel, rest =>
      let '(candidate, rest) := cut 44 (skip IsTokenBoundary rest) in
      if TextEqualsIgnoreCase (TrimOptionalWhitespace (Bytes candidate)) token then true
      else has_token_loop fuel rest token
  end.
Definition HeaderValueHasToken (value token : Text) : bool :=
  let value := TrimOptionalWhitespace value in
  if sp_isnull value || sp_isnull token || (sp_len token =? 0) then false
  else has_token_loop (length (sp_bytes value)) (sp_bytes value) token.

(** ** http1/HttpResponse.cpp *)

Record HttpHeader := MkHeader { hd_Name : Text; hd_Value : Text }.

(** The pointer [Headers] with [HeaderCount]. *)
Inductive HeaderArray := NullHeaders (count : Z) | HeaderList (headers : list HttpHeader).
Definition ha_isnull (h : HeaderArray) : bool := match h with NullHeaders _ => true | HeaderList _ => false end.
Definition ha_count (h : HeaderArray) : Z := match h with NullHeaders n => n | HeaderList l => zlen l end.
Definition ha_headers (h : HeaderArray) : list HttpHeader :=
  match h with NullHeaders _ => [] | HeaderList l => l end.

Inductive HttpBodyKind := BodyKind_None | BodyKind_ContentLength | BodyKind_Chunked | BodyKind_CloseDelimited.

(** An array comes with its count, [Body] with [BodyLength]. *)
Record HttpResponse := MkResponse {
  rp_MajorVersion : Z;
  rp_MinorVersion : Z;
  rp_StatusCode : Z;
  rp_ReasonPhrase : Text;
  rp_Headers : HeaderArray;
  rp_Trailers : HeaderArray;
  rp_Body : span;
  rp_BodyKind : HttpBodyKind;
  rp_BodyEndsOnConnectionClose : bool;
  rp_BodyDeliveredViaCallback : bool;
  rp_HeadersDeliveredViaCallback : bool;
  rp_BytesConsumed : Z;
}.
#[export] Instance HttpResponse_eta : Eta HttpResponse := fun r =>
  MkResponse (rp_MajorVersion r) (rp_MinorVersion r) (rp_StatusCode r) (rp_ReasonPhrase r) (rp_Headers r)
    (rp_Trailers r) (rp_Body r) (rp_BodyKind r) (rp_BodyEndsOnConnectionClose r) (rp_BodyDeliveredViaCallback r)
    (rp_HeadersDeliveredViaCallback r) (rp_BytesConsumed r).
Definition response_default : HttpResponse :=
  MkResponse 0 0 0 (Null 0) (NullHeaders 0) (NullHeaders 0) (Null 0) BodyKind_None false false false 0.

Fixpoint find_header_loop (headers : list HttpHeader) (name : Text) : option HttpHeader :=
  match headers with
  | [] => None
  | h :: headers => if TextEqualsIgnoreCase (hd_Name h) name then Some h else find_header_loop headers name
  end.
Definition FindHeader (name : Text) (r : HttpResponse) : option HttpHeader :=
  if sp_isnull name || (sp_len name =? 0) || ha_isnull (rp_Headers r) then None
  else find_header_loop (ha_headers (rp_Headers r)) name.

Definition HasHeaderValueToken (name token : Text) (r : HttpResponse) : bool :=
  if ha_isnull (rp_Headers r) || sp_isnull token || (sp_len token =? 0) then false
  else
    existsb (fun h => TextEqualsIgnoreCase (hd_Name h) name && HeaderValueHasToken (hd_Value h) token)
      (ha_headers (rp_Headers r)).

Definition text (s : string) : Text := MakeText (Some (str s)).

Definition HasConnectionClose : HttpResponse -> bool := HasHeaderValueToken (text "Connection") (text "close").
Definition HasConnectionKeepAlive : HttpResponse -> bool :=
  HasHeaderValueToken (text "Connection") (text "keep-alive").
Definition HasChunkedTransferEncoding : HttpResponse -> bool :=
  HasHeaderValueToken (text "Transfer-Encoding") (text "chunked").
Definition IsPartialContent (r : HttpResponse) : bool := rp_StatusCode r =? 206.

(** *** Content-Range *)

Record HttpContentRange := MkRange {
  cr_FirstBytePos : Z;
  cr_LastBytePos : Z;
  cr_CompleteLength : Z;
  cr_HasRange : bool;
  cr_HasCompleteLength : bool;
}.
#[export] Instance HttpContentRange_eta : Eta HttpContentRange := fun r =>
  MkRange (cr_FirstBytePos r) (cr_LastBytePos r) (cr_CompleteLength r) (cr_HasRange r) (cr_HasCompleteLength r).
Definition range_default : HttpContentRange := MkRange 0 0 0 false false.

(** [rest]: the text from [*index] on; the result holds the new rest. *)
Fixpoint parse_unsigned_loop (rest : list Z) (result : Z) : option (Z * list Z) :=
  match rest with
  | c :: tail =>
      if (c <? 48) || (c >? 57) then Some (result, rest)
      else
        let digit := c - 48 in
        if result >? (MAXU64 -! digit) / 10 then None
        else parse_unsigned_loop tail ((result *! 10) +! digit)
  | [] => Some (result, [])
  end.
Definition ParseUnsigned (rest : list Z) : option (Z * list Z) :=
  match parse_unsigned_loop rest 0 with
  | Some (value, rest') => if zlen rest' =? zlen rest then None else Some (value, rest')
  | None => None
  end.

(** The next character, where the code compares [index] with the length first. *)
Definition expect (ch : Z) (rest : list Z) : option (list Z) :=
  match rest with c :: rest => if c =? ch then Some rest else None | [] => None end.

(** After the units: "*" "/" complete-length. *)
Definition unsatisfied_range (rest : list Z) : option (HttpContentRange * list Z) :=
  rest ← expect 42 rest;
  rest ← expect 47 rest;
  '(complete, rest) ← ParseUnsigned rest;
  Some (range_default <| cr_CompleteLength := complete |> <| cr_HasCompleteLength := true |>
                      <| cr_HasRange := false |>, rest).

(** first-byte-pos "-" last-byte-pos "/" ( complete-length | "*" ). *)
Definition satisfied_range (rest : list Z) : option (HttpContentRange * list Z) :=
  '(first, rest) ← ParseUnsigned rest;
  rest ← expect 45 rest;
  '(last, rest) ← ParseUnsigned rest;
  if last <? first then None
  else
    rest ← expect 47 rest;
    let range := range_default <| cr_FirstBytePos := first |> <| cr_LastBytePos := last |> <| cr_HasRange := true |> in
    match expect 42 rest with
    | Some rest => Some (range, rest)
    | None =>
        '(complete, rest) ← ParseUnsigned rest;
        if last >=? complete then None
        else Some (range <| cr_CompleteLength := complete |> <| cr_HasCompleteLength := true |>, rest)
    end.

Fixpoint starts_with (prefix l : list Z) : option (list Z) :=
  match prefix, l with
  | [], l => Some l
  | x :: prefix, y :: l => if negb (y =? x) then None else starts_with prefix l
  | _ :: _, [] => None
  end.

Definition parse_content_range (value : list Z) : option HttpContentRange :=
  rest ← starts_with (str "bytes") (skip is_blank value);
  match rest with
  | [] => None
  | c :: _ =>
      if negb (is_blank c) then None
      else
        match skip is_blank rest with
        | [] => None
        | (c :: _) as rest =>
            '(range, rest) ← (if c =? 42 then unsatisfied_range rest else satisfied_range rest);
            match skip is_blank rest with [] => Some range | _ => None end
        end
  end.

Definition GetContentRange (r : HttpResponse) : option HttpContentRange :=
  header ← FindHeader (text "Content-Range") r;
  if sp_isnull (hd_Value header) then None else parse_content_range (sp_bytes (hd_Value header)).

(** ** Comparison and trimming *)

Definition same_text (a b : list Z) : bool := bool_decide (map ToLowerAscii a = map ToLowerAscii b).

Lemma equals_loop_true l r :
  length l = length r -> equals_loop l r = true <-> map ToLowerAscii l = map ToLowerAscii r.
Proof.
  revert r. induction l as [|x l IH]; intros [|y r] Hl; try discriminate; [done|]. cbn [equals_loop map].
  injection Hl as Hl. destruct (Z.eqb_spec (ToLowerAscii x) (ToLowerAscii y)) as [E|E]; cbn [negb].
  - rewrite IH by done. split; [by intros ->; f_equal|by intros [= _ ?]].
  - split; [done|by intros [= ? _]].
Qed.

Lemma TextEqualsIgnoreCase_bytes a b : TextEqualsIgnoreCase (Bytes a) (Bytes b) = same_text a b.
Proof.
  unfold TextEqualsIgnoreCase, same_text. cbn [sp_len sp_isnull sp_bytes]. rewrite !orb_false_r.
  unfold zlen. destruct (Z.eqb_spec (Z.of_nat (length a)) (Z.of_nat (length b))) as [E|E]; cbn [negb].
  - apply eq_true_iff_eq. rewrite equals_loop_true, bool_decide_eq_true by lia. done.
  - symmetry. apply bool_decide_eq_false. intros H%(f_equal length). rewrite !length_map in H. lia.
Qed.

Lemma skip_app_blank p a l : Forall (fun ch => p ch = true) a -> skip p (a ++ l) = skip p l.
Proof. induction 1 as [|ch a Ha _ IH]; [done|]. cbn [app skip]. by rewrite Ha. Qed.
Lemma skip_spec p l : exists a, l = a ++ skip p l /\ Forall (fun ch => p ch = true) a.
Proof.
  induction l as [|ch l (a & E & Ha)]; [by exists []|]. cbn [skip]. destruct (p ch) eqn:Ech; [|by exists []].
  exists (ch :: a). cbn. rewrite <- E. eauto.
Qed.
Lemma skip_head p l : match skip p l with [] => True | ch :: _ => p ch = false end.
Proof. induction l as [|ch l IH]; [done|]. cbn [skip]. by destruct (p ch) eqn:?. Qed.
Lemma skip_none p l : match l with [] => True | ch :: _ => p ch = false end -> skip p l = l.
Proof. destruct l as [|ch l]; [done|]. cbn [skip]. by intros ->. Qed.
Lemma skip_length p l : (length (skip p l) <= length l)%nat.
Proof. destruct (skip_spec p l) as (a & E & _). rewrite E at 2. rewrite length_app. lia. Qed.

Lemma trim_cons ch l : is_blank ch = true -> trim (ch :: l) = trim l.
Proof. intros H. unfold trim. cbn [skip]. by rewrite H. Qed.
Lemma skip_snoc p l ch :
  p ch = true -> skip p (l ++ [ch]) = match skip p l with [] => [] | r => r ++ [ch] end.
Proof.
  intros H. induction l as [|c l IH]; cbn [app skip]; [by rewrite H|]. by destruct (p c).
Qed.
Lemma trim_snoc ch l : is_blank ch = true -> trim (l ++ [ch]) = trim l.
Proof.
  intros H. unfold trim. rewrite skip_snoc by done. destruct (skip is_blank l) as [|c r]; [done|].
  rewrite rev_app_distr. cbn [rev app skip]. by rewrite H.
Qed.
Lemma trim_spec l : exists a b,
  l = a ++ trim l ++ b /\ Forall (fun ch => is_blank ch = true) (a ++ b).
Proof.
  unfold trim. destruct (skip_spec is_blank l) as (a & E & Ha).
  destruct (skip_spec is_blank (rev (skip is_blank l))) as (b & E' & Hb). exists a, (rev b). split.
  - rewrite E at 1. f_equal. rewrite <- rev_app_distr, <- E'. by rewrite rev_involutive.
  - apply Forall_app. split; [done|]. by apply Forall_rev.
Qed.
Lemma trim_ends l : match trim l with [] => True | ch :: _ => is_blank ch = false end
                    /\ match rev (trim l) with [] => True | ch :: _ => is_blank ch = false end.
Proof.
  unfold trim. rewrite rev_involutive. split; [|apply skip_head].
  pose proof (skip_head is_blank l) as Hf. destruct (skip_spec is_blank (rev (skip is_blank l))) as (b & E & Hb).
  destruct (rev (skip is_blank (rev (skip is_blank l)))) as [|ch r] eqn:Er; [done|].
  apply (f_equal (@rev Z)) in E. rewrite rev_involutive, rev_app_distr, Er in E. rewrite E in Hf. exact Hf.
Qed.

(** ** Lists in a field value *)

Lemma split_on_cut stop l :
  split_on stop l
  = (cut stop l).1 :: match (cut stop l).2 with [] => [] | _ :: rest => split_on stop rest end.
Proof.
  induction l as [|ch l IH]; [done|]. cbn [split_on cut]. destruct (ch =? stop); [done|].
  destruct (cut stop l) as [piece rest]. cbn [fst snd] in *. by rewrite IH.
Qed.
Lemma cut_app stop l : l = (cut stop l).1 ++ (cut stop l).2.
Proof.
  induction l as [|ch l IH]; [done|]. cbn [cut]. destruct (ch =? stop); [done|].
  destruct (cut stop l) as [piece rest]. cbn [fst snd app] in *. by rewrite <- IH.
Qed.
Lemma cut_head stop l : match (cut stop l).2 with [] => True | ch :: _ => ch = stop end.
Proof.
  induction l as [|ch l IH]; [done|]. cbn [cut]. destruct (Z.eqb_spec ch stop); [done|].
  by destruct (cut stop l) as [piece rest].
Qed.
Lemma cut_plain stop l : Forall (fun ch => ch <> stop) (cut stop l).1.
Proof.
  induction l as [|ch l IH]; [constructor|]. cbn [cut]. destruct (Z.eqb_spec ch stop); [constructor|].
  destruct (cut stop l) as [piece rest]. by constructor.
Qed.

Section Tokens.
Variable P : list Z -> bool.
Hypothesis P_nil : P [] = false.
Hypothesis P_front : forall ch l, is_blank ch = true -> P (ch :: l) = P l.
Hypothesis P_back : forall ch l, is_blank ch = true -> P (l ++ [ch]) = P l.

Lemma pieces_skip l : existsb P (split_on 44 (skip IsTokenBoundary l)) = existsb P (split_on 44 l).
Proof.
  induction l as [|ch l IH]; [done|]. cbn [skip]. destruct (IsTokenBoundary ch) eqn:E; [|done].
  rewrite IH. cbn [split_on]. destruct (ch =? 44) eqn:E44; [cbn [existsb]; by rewrite P_nil|].
  destruct (split_on 44 l) as [|piece pieces]; cbn [existsb]; [|rewrite P_front; [done|]].
  - rewrite orb_false_r, P_front; [done|]. unfold IsTokenBoundary in E. by rewrite E44 in E.
  - unfold IsTokenBoundary in E. by rewrite E44 in E.
Qed.

Lemma pieces_front l : existsb P (split_on 44 (skip is_blank l)) = existsb P (split_on 44 l).
Proof.
  induction l as [|ch l IH]; [done|]. cbn [skip]. destruct (is_blank ch) eqn:E; [|done].
  rewrite IH. cbn [split_on]. replace (ch =? 44) with false.
  - destruct (split_on 44 l) as [|piece pieces] eqn:El; cbn [existsb]; rewrite ?P_front by done; [|done].
    by rewrite P_nil.
  - unfold is_blank in E. symmetry. apply Z.eqb_neq. intros ->. done.
Qed.

Lemma split_on_snoc l ch : ch <> 44 -> exists pieces last,
  split_on 44 l = pieces ++ [last] /\ split_on 44 (l ++ [ch]) = pieces ++ [last ++ [ch]].
Proof.
  intros H. induction l as [|c l (pieces & last & E & E')].
  { exists [], []. cbn. by rewrite (proj2 (Z.eqb_neq ch 44) H). }
  cbn [app split_on]. destruct (c =? 44).
  - exists ([] :: pieces), last. by rewrite E, E'.
  - rewrite E, E'. destruct pieces as [|p pieces]; [by exists [], (c :: last)|by exists ((c :: p) :: pieces), last].
Qed.
Lemma pieces_back l ch : is_blank ch = true -> existsb P (split_on 44 (l ++ [ch])) = existsb P (split_on 44 l).
Proof.
  intros H. destruct (split_on_snoc l ch) as (pieces & last & -> & ->); [by intros ->|].
  rewrite !existsb_app. cbn [existsb]. by rewrite P_back.
Qed.
Lemma pieces_trim l : existsb P (split_on 44 (trim l)) = existsb P (split_on 44 l).
Proof.
  rewrite <- (pieces_front l). unfold trim. destruct (skip_spec is_blank (rev (skip is_blank l))) as (b & E & Hb).
  apply (f_equal (@rev Z)) in E. rewrite rev_involutive, rev_app_distr in E. rewrite E at 2.
  generalize (rev (skip is_blank (rev (skip is_blank l)))) as r. clear E. intros r.
  induction b as [|ch b IH]; [by rewrite app_nil_r|]. apply Forall_cons in Hb as [Hc Hb].
  cbn [rev]. rewrite app_assoc, pieces_back by done. by apply IH.
Qed.
End Tokens.

Lemma has_token_loop_spec fuel rest token :
  (length rest <= fuel)%nat -> token <> [] ->
  has_token_loop fuel rest (Bytes token) = existsb (fun piece => same_text (trim piece) token) (split_on 44 rest).
Proof.
  intros Hf Ht. assert (Hnil : same_text (trim []) token = false).
  { apply bool_decide_eq_false. intros H%(f_equal length). by destruct token. }
  revert rest Hf. induction fuel as [|fuel IH]; intros rest Hf.
  { destruct rest; [|cbn in Hf; lia]. cbn [has_token_loop split_on existsb]. by rewrite Hnil. }
  rewrite <- (pieces_skip (fun piece => same_text (trim piece) token));
    [|done|by intros ch l H; rewrite trim_cons].
  destruct rest as [|c rest]; [cbn [skip split_on existsb has_token_loop]; by rewrite Hnil|]. cbn [has_token_loop].
  pose proof (skip_head IsTokenBoundary (c :: rest)) as Hh. pose proof (skip_length IsTokenBoundary (c :: rest)) as Hl.
  destruct (skip IsTokenBoundary (c :: rest)) as [|d r].
  { cbn [cut TrimOptionalWhitespace split_on existsb]. rewrite TextEqualsIgnoreCase_bytes, Hnil. by destruct fuel. }
  rewrite split_on_cut. pose proof (cut_app 44 (d :: r)) as Ea. pose proof (cut_head 44 (d :: r)) as Eh.
  destruct (cut 44 (d :: r)) as [candidate rest'] eqn:Ec. cbn [fst snd] in *.
  cbn [TrimOptionalWhitespace existsb]. rewrite TextEqualsIgnoreCase_bytes.
  destruct (same_text (trim candidate) token); [done|]. cbn [orb].
  assert (Hlen : (length rest' <= fuel)%nat).
  { cbn [cut] in Ec. destruct (Z.eqb_spec d 44) as [->|]; [done|]. destruct (cut 44 r). injection Ec as <- <-.
    apply (f_equal length) in Ea. cbn [length app] in *. rewrite length_app in Ea. lia. }
  rewrite IH by done. destruct rest' as [|x rest']; [cbn [split_on existsb]; by rewrite Hnil|].
  subst x. cbn [split_on Z.eqb Pos.eqb existsb]. by rewrite Hnil.
Qed.

(** A value has a token exactly when one of its comma-separated pieces, without
    the white space around it, is that token up to case. *)
Lemma HeaderValueHasToken_spec value token :
  token <> [] ->
  HeaderValueHasToken (Bytes value) (Bytes token)
  = existsb (fun piece => same_text (trim piece) token) (split_on 44 value).
Proof.
  intros Ht. unfold HeaderValueHasToken. cbn [TrimOptionalWhitespace sp_isnull orb sp_len sp_bytes].
  replace (zlen token =? 0) with false by (destruct token; [done|]; symmetry; apply Z.eqb_neq; rewrite zlen_cons; pose proof (zlen_nonneg token); lia).
  rewrite has_token_loop_spec by done.
  apply (pieces_trim (fun piece => same_text (trim piece) token)).
  - apply bool_decide_eq_false. intros H%(f_equal length). by destruct token.
  - intros ch l H. by rewrite trim_cons.
  - intros ch l H. by rewrite trim_snoc.
Qed.

(** ** Content-Range: the accepted language *)

Definition digit (ch : Z) : bool := (48 <=? ch) && (ch <=? 57).
Definition decimal_value (ds : list Z) : Z := foldl (fun n ch => 10 * n + (ch - 48)) 0 ds.

(** [ds] is a decimal number of the value [n], which fits in 64 bits. *)
Definition decimal (ds : list Z) (n : Z) : Prop :=
  ds <> [] /\ Forall (fun ch => digit ch = true) ds /\ decimal_value ds = n /\ n < 2 ^ 64.

Definition blanks (l : list Z) : Prop := Forall (fun ch => is_blank ch = true) l.

(** RFC 9110, section 14.4, with white space around it. *)
Inductive range_text : list Z -> HttpContentRange -> Prop :=
  | range_unsatisfied n complete :
      decimal n complete -> range_text (42 :: 47 :: n) (MkRange 0 0 complete false true)
  | range_unknown f l first last :
      decimal f first -> decimal l last -> first <= last ->
      range_text (f ++ 45 :: l ++ [47; 42]) (MkRange first last 0 true false)
  | range_known f l n first last complete :
      decimal f first -> decimal l last -> decimal n complete -> first <= last < complete ->
      range_text (f ++ 45 :: l ++ 47 :: n) (MkRange first last complete true true).

Definition content_range (value : list Z) (range : HttpContentRange) : Prop :=
  exists a b body c, blanks a /\ blanks b /\ b <> [] /\ blanks c
  /\ value = a ++ str "bytes" ++ b ++ body ++ c /\ range_text body range.

Lemma decimal_snoc ds ch : decimal_value (ds ++ [ch]) = 10 * decimal_value ds + (ch - 48).
Proof. unfold decimal_value. by rewrite foldl_app. Qed.
Lemma foldl_decimal ds n : 0 <= n -> Forall (fun ch => digit ch = true) ds ->
  n <= foldl (fun n ch => 10 * n + (ch - 48)) n ds.
Proof.
  intros Hn Hd. revert n Hn. induction Hd as [|ch ds H _ IH]; intros n Hn; [done|]. cbn [foldl].
  unfold digit in H. bool_prop. specialize (IH (10 * n + (ch - 48))). lia.
Qed.

Definition no_digit (l : list Z) : Prop := match l with [] => True | ch :: _ => digit ch = false end.

Lemma parse_unsigned_loop_spec rest n value rest' :
  0 <= n < 2 ^ 64 ->
  parse_unsigned_loop rest n = Some (value, rest')
  <-> exists ds, rest = ds ++ rest' /\ Forall (fun ch => digit ch = true) ds /\ no_digit rest'
                 /\ foldl (fun n ch => 10 * n + (ch - 48)) n ds = value /\ value < 2 ^ 64.
Proof.
  revert n. induction rest as [|c rest IH]; intros n Hn; cbn [parse_unsigned_loop].
  { split; [intros [= <- <-]; exists []; split_and!; (done || lia || constructor)|].
    intros (ds & E & _ & _ & <- & _). by destruct ds, rest'. }
  assert (Hd : (c <? 48) || (c >? 57) = negb (digit c)).
  { unfold digit. rewrite Z.gtb_ltb, Z.ltb_antisym, (Z.ltb_antisym c 57). by destruct (48 <=? c), (c <=? 57). }
  rewrite Hd. destruct (digit c) eqn:Ec; cbn [negb].
  2:{ split; [intros [= <- <-]; exists []; split_and!; (done || lia || constructor)|].
      intros (ds & E & Hds & _ & <- & _). destruct ds as [|d ds]; [by cbn in E; subst|].
      injection E as <- _. apply Forall_cons in Hds as [H _]. congruence. }
  unfold digit in Ec. bool_prop. assert (E1 : MAXU64 -! (c - 48) = MAXU64 - (c - 48)).
  { apply u64_id. unfold MAXU64. lia. }
  rewrite E1. case_if; bool_prop.
  { split; [done|]. intros (ds & E & Hds & Hn' & <- & Hv). exfalso. destruct ds as [|d ds].
    - cbn in E. subst rest'. cbn in Hn'. unfold digit in Hn'. destruct (Z.leb_spec 48 c), (Z.leb_spec c 57); (done || lia).
    - injection E as <- _. apply Forall_cons in Hds as [_ Hds].
      pose proof (foldl_decimal ds (10 * n + (c - 48)) ltac:(lia) Hds). cbn [foldl] in Hv.
      unfold MAXU64 in *. Z.to_euclidean_division_equations. lia. }
  assert (E2 : (n *! 10) +! (c - 48) = 10 * n + (c - 48)).
  { rewrite (u64_id (n * 10)), u64_id; unfold MAXU64 in *; Z.to_euclidean_division_equations; lia. }
  rewrite E2, IH by (unfold MAXU64 in *; Z.to_euclidean_division_equations; lia). split.
  - intros (ds & -> & Hds & Hn' & Hv & Hb). exists (c :: ds). split_and!; try done.
    constructor; [unfold digit; by apply andb_true_iff; split; apply Z.leb_le|done].
  - intros (ds & E & Hds & Hn' & Hv & Hb). destruct ds as [|d ds].
    + cbn in E. subst rest'. cbn in Hn'. unfold digit in Hn'. destruct (Z.leb_spec 48 c), (Z.leb_spec c 57); (done || lia).
    + injection E as <- ->. apply Forall_cons in Hds as [_ Hds]. exists ds. by split_and!.
Qed.

Lemma ParseUnsigned_spec rest value rest' :
  ParseUnsigned rest = Some (value, rest')
  <-> exists ds, rest = ds ++ rest' /\ decimal ds value /\ no_digit rest'.
Proof.
  unfold ParseUnsigned, decimal. split.
  - destruct (parse_unsigned_loop rest 0) as [[v r]|] eqn:E; [|done]. apply parse_unsigned_loop_spec in E; [|lia].
    destruct E as (ds & -> & Hds & Hr & Hv & Hb). destruct (Z.eqb_spec (zlen r) (zlen (ds ++ r))) as [El|El]; [done|].
    intros [= <- <-]. exists ds. split_and!; try done. intros ->. done.
  - intros (ds & -> & (Hne & Hds & Hv & Hb) & Hr).
    rewrite (proj2 (parse_unsigned_loop_spec (ds ++ rest') 0 value rest' ltac:(lia))) by (exists ds; by split_and!).
    rewrite zlen_app, (proj2 (Z.eqb_neq _ _)); [done|]. destruct ds; [done|]. rewrite zlen_cons.
    pose proof (zlen_nonneg ds). lia.
Qed.

Lemma expect_spec ch rest rest' : expect ch rest = Some rest' <-> rest = ch :: rest'.
Proof.
  destruct rest as [|c rest]; [done|]. cbn. destruct (Z.eqb_spec c ch) as [->|H].
  - split; [by intros [= ->]|by intros [= ->]].
  - split; [done|by intros [= ? _]].
Qed.
Lemma starts_with_spec prefix l rest : starts_with prefix l = Some rest <-> l = prefix ++ rest.
Proof.
  revert l. induction prefix as [|x prefix IH]; intros l; cbn [starts_with app]; [split; congruence|].
  destruct l as [|y l]; [done|]. destruct (Z.eqb_spec y x) as [->|H]; cbn [negb].
  - rewrite IH. split; [by intros ->|by intros [= ->]].
  - split; [done|by intros [= ? _]].
Qed.

Lemma blanks_no_digit c : blanks c -> no_digit c.
Proof.
  destruct 1 as [|ch c H _]; [done|]. unfold is_blank in H. cbn. unfold digit.
  apply orb_true_iff in H as [H|H]; apply Z.eqb_eq in H; by subst.
Qed.
Lemma blanks_skip c : skip is_blank c = [] <-> blanks c.
Proof.
  split; [|intros H; by rewrite <- (app_nil_r c), skip_app_blank].
  intros H. destruct (skip_spec is_blank c) as (a & E & Ha). by rewrite H, app_nil_r in E; subst.
Qed.

Lemma decimal_head ds n : decimal ds n -> exists d ds', ds = d :: ds' /\ digit d = true.
Proof. intros (Hne & Hds & _). destruct ds as [|d ds]; [done|]. apply Forall_cons in Hds as [? _]. eauto. Qed.

Lemma unsatisfied_range_spec rest range c : blanks c ->
  unsatisfied_range rest = Some (range, c)
  <-> exists n complete, rest = 42 :: 47 :: n ++ c /\ decimal n complete /\ range = MkRange 0 0 complete false true.
Proof.
  intros Hc. unfold unsatisfied_range. split.
  - intros H. apply bind_Some in H as (r1 & ->%expect_spec & H). apply bind_Some in H as (r2 & ->%expect_spec & H).
    apply bind_Some in H as ([complete r3] & H & [= <- <-]).
    apply ParseUnsigned_spec in H as (n & -> & Hn & _). by exists n, complete.
  - intros (n & complete & -> & Hn & ->). cbn.
    rewrite (proj2 (ParseUnsigned_spec (n ++ c) complete c)); [done|]. exists n. split_and!; [done..|].
    by apply blanks_no_digit.
Qed.

Lemma satisfied_range_spec rest range c : blanks c ->
  satisfied_range rest = Some (range, c)
  <-> exists body, rest = body ++ c /\ range_text body range /\ cr_HasRange range = true.
Proof.
  intros Hc. unfold satisfied_range. split.
  - intros H. apply bind_Some in H as ([first r1] & H1 & H). apply ParseUnsigned_spec in H1 as (f & -> & Hf & _).
    apply bind_Some in H as (r2 & ->%expect_spec & H). apply bind_Some in H as ([last r3] & H3 & H).
    apply ParseUnsigned_spec in H3 as (l & -> & Hl & _). destruct (Z.ltb_spec last first); [done|].
    apply bind_Some in H as (r4 & ->%expect_spec & H). destruct (expect 42 r4) as [r5|] eqn:E5.
    + apply expect_spec in E5 as ->. injection H as <- <-. exists (f ++ 45 :: l ++ [47; 42]). split_and!; [|by constructor|done].
      by rewrite <- app_assoc; cbn; rewrite <- app_assoc.
    + apply bind_Some in H as ([complete r5] & H5 & H). apply ParseUnsigned_spec in H5 as (n & -> & Hn & _).
      destruct (Z.geb_spec last complete); [done|]. injection H as <- <-.
      exists (f ++ 45 :: l ++ 47 :: n). split_and!; [|constructor; try done; lia|done].
      by rewrite <- app_assoc; cbn; rewrite <- app_assoc.
  - intros (body & -> & Hb & Hr).
    assert (Hmid : forall f l x first last, decimal f first -> decimal l last -> first <= last ->
      satisfied_range (f ++ 45 :: l ++ 47 :: x) =
        let range := range_default <| cr_FirstBytePos := first |> <| cr_LastBytePos := last |> <| cr_HasRange := true |> in
        match expect 42 x with
        | Some rest => Some (range, rest)
        | None =>
            '(complete, rest) ← ParseUnsigned x;
            if last >=? complete then None
            else Some (range <| cr_CompleteLength := complete |> <| cr_HasCompleteLength := true |>, rest)
        end).
    { intros f l x first last Hf Hl Hle. unfold satisfied_range.
      rewrite (proj2 (ParseUnsigned_spec _ first (45 :: l ++ 47 :: x))) by (by exists f). cbn [mbind option_bind].
      cbn [expect Z.eqb Pos.eqb mbind option_bind].
      rewrite (proj2 (ParseUnsigned_spec _ last (47 :: x))) by (by exists l). cbn [mbind option_bind].
      rewrite (proj2 (Z.ltb_ge last first)) by done. done. }
    destruct Hb as [n complete Hn|f l first last Hf Hl Hle|f l n first last complete Hf Hl Hn Hle]; [done| |].
    + rewrite <- app_assoc. cbn [app]. rewrite <- app_assoc. cbn [app].
      pose proof (Hmid f l (42 :: c) first last Hf Hl Hle) as E. unfold satisfied_range in E. rewrite E. done.
    + rewrite <- app_assoc. cbn [app]. rewrite <- app_assoc. cbn [app].
      pose proof (Hmid f l (n ++ c) first last Hf Hl ltac:(lia)) as E. unfold satisfied_range in E. rewrite E. cbv zeta.
      destruct (decimal_head n complete Hn) as (d & n' & En & Hd).
      replace (expect 42 (n ++ c)) with (@None (list Z)).
      * rewrite (proj2 (ParseUnsigned_spec (n ++ c) complete c)) by (exists n; split_and!; [done..|by apply blanks_no_digit]).
        cbn [mbind option_bind]. destruct (Z.geb_spec last complete); [lia|]. done.
      * rewrite En. cbn. destruct (Z.eqb_spec d 42) as [->|]; done.
Qed.

(** A Content-Range value is accepted exactly when it is of the grammar, with
    the numbers it says. *)
Lemma parse_content_range_spec value range :
  parse_content_range value = Some range <-> content_range value range.
Proof.
  unfold parse_content_range, content_range. split.
  - intros H. apply bind_Some in H as (r1 & E1%starts_with_spec & H).
    destruct (skip_spec is_blank value) as (a & Ea & Ha). rewrite E1 in Ea.
    destruct r1 as [|ch r1]; [done|]. destruct (is_blank ch) eqn:Ech; [|done]. cbn [negb] in H.
    destruct (skip_spec is_blank (ch :: r1)) as (b & Eb & Hb).
    destruct (skip is_blank (ch :: r1)) as [|d r2] eqn:Er2; [done|].
    apply bind_Some in H as ([rg c] & H & Hc). destruct (skip is_blank c) eqn:Ec; [|done]. injection Hc as <-.
    apply blanks_skip in Ec.
    assert (Hbody : exists body, d :: r2 = body ++ c /\ range_text body rg).
    { destruct (d =? 42).
      - apply (unsatisfied_range_spec (d :: r2) rg c Ec) in H as (n & complete & En & Hn & ->).
        exists (42 :: 47 :: n). split; [done|by constructor].
      - apply (satisfied_range_spec (d :: r2) rg c Ec) in H as (body & ? & ? & _). by exists body. }
    destruct Hbody as (body & Ebody & Hrt). exists a, b, body, c. rewrite Ea, Eb, Ebody. split_and!; try done.
    intros ->. pose proof (skip_head is_blank (ch :: r1)) as Hh. rewrite Er2 in Hh. cbn in Eb. injection Eb as <- _. congruence.
  - intros (a & b & body & c & Ha & Hb & Hne & Hc & -> & Hrt).
    rewrite skip_app_blank by done. rewrite (skip_none is_blank (str "bytes" ++ _)) by done.
    rewrite (proj2 (starts_with_spec _ _ (b ++ body ++ c))) by done. cbn [mbind option_bind].
    destruct b as [|ch b]; [done|]. cbn [app]. pose proof Hb as Hch. apply Forall_cons in Hch as [-> _]. cbn [negb].
    change (ch :: b ++ body ++ c) with ((ch :: b) ++ body ++ c). rewrite skip_app_blank by done.
    assert (Hd : exists d r2, body ++ c = d :: r2 /\ is_blank d = false /\ (d =? 42) = negb (cr_HasRange range)).
    { destruct Hrt as [n complete Hn|f l first last Hf|f l n first last complete Hf]; [by exists 42, (47 :: n ++ c)| |];
        destruct (decimal_head f first Hf) as (d & f' & -> & Hd); exists d; eexists; (split; [done|]);
        unfold digit in Hd; bool_prop; unfold is_blank; cbn [cr_HasRange negb];
        rewrite !(proj2 (Z.eqb_neq d _)) by lia; done. }
    destruct Hd as (d & r2 & Ed & Hblank & H42).
    rewrite (skip_none is_blank (body ++ c)) by (by rewrite Ed). rewrite Ed, H42, <- Ed. destruct (cr_HasRange range) eqn:Eh; cbn [negb].
    + rewrite (proj2 (satisfied_range_spec (body ++ c) range c Hc)) by (by exists body). cbn [mbind option_bind].
      by rewrite (proj2 (blanks_skip c) Hc).
    + rewrite (proj2 (unsatisfied_range_spec (body ++ c) range c Hc)).
      * cbn [mbind option_bind]. by rewrite (proj2 (blanks_skip c) Hc).
      * destruct Hrt as [n complete Hn| |]; [|done|done]. by exists n, complete.
Qed.
