(* ===== verification/QuicVarInt.v ===== *)
(** * QUIC variable-length integers (src/wknetlib/quic/QuicVarInt.cpp)

    The wire integer every QUIC and HTTP/3 structure is built from: the two top
    bits of the first byte give the length, the rest is big-endian. *)

From S2P Require Import Prelude.

Definition QuicVarIntMaximum : Z := 2 ^ 62 - 1.

Definition QuicVarIntEncodedLength (value : Z) : Z :=
  if value <=? 63 then 1
  else if value <=? 16383 then 2
  else if value <=? 1073741823 then 4
  else if value <=? QuicVarIntMaximum then 8
  else 0.

(** Returns the value and the bytes consumed. *)
Definition QuicDecodeVarInt (data : span) : Result (Z * Z) :=
  if sp_isnull data || (sp_len data =? 0) then Err STATUS_INVALID_PARAMETER
  else
    let d := sp_bytes data in
    let encodedLength := Z.shiftl 1 (Z.shiftr (zget d 0) 6) in
    if sp_len data <? encodedLength then Err STATUS_BUFFER_TOO_SMALL
    else
      let decoded := be_get (Z.land (zget d 0) 0x3f) (zsub d 1 (encodedLength - 1)) in
      Ok (decoded, encodedLength).

Definition varint_prefix (encodedLength : Z) : Z :=
  if encodedLength =? 1 then 0x00
  else if encodedLength =? 2 then 0x40
  else if encodedLength =? 4 then 0x80 else 0xc0.

Definition varint_or_first (prefix : Z) (out : list Z) : list Z :=
  match out with [] => [] | b :: rest => u8 (Z.lor b prefix) :: rest end.

(** [encodedLength = 0] asks for the shortest form.  Returns the bytes written
    to [output]; their number is the [bytesWritten] of the code. *)
Definition QuicEncodeVarInt (value encodedLength capacity : Z) : Result (list Z) :=
  if value >? QuicVarIntMaximum then Err STATUS_INTEGER_OVERFLOW
  else
    let encodedLength :=
      if encodedLength =? 0 then QuicVarIntEncodedLength value else encodedLength in
    if negb (encodedLength =? 1) && negb (encodedLength =? 2)
       && negb (encodedLength =? 4) && negb (encodedLength =? 8)
    then Err STATUS_INVALID_PARAMETER
    else
      let maximum :=
        if encodedLength =? 8 then QuicVarIntMaximum
        else u64 (Z.shiftl 1 (encodedLength * 8 - 2)) -! 1 in
      if value >? maximum then Err STATUS_INTEGER_OVERFLOW
      else if capacity <? encodedLength then Err STATUS_BUFFER_TOO_SMALL
      else Ok (varint_or_first (varint_prefix encodedLength) (be_put encodedLength value)).

(** ** Facts *)

(** The four lengths, with the shift that selects each and its range. *)
Definition varint_class (n k : Z) : Prop :=
  (n = 1 /\ k = 0) \/ (n = 2 /\ k = 1) \/ (n = 4 /\ k = 2) \/ (n = 8 /\ k = 3).

Definition varint_limit (n : Z) : Z := 2 ^ (8 * n - 2).

Lemma varint_prefix_class n k : varint_class n k -> varint_prefix n = 64 * k.
Proof. by intros [[-> ->]|[[-> ->]|[[-> ->]|[-> ->]]]]. Qed.

Lemma varint_class_shift n k : varint_class n k -> Z.shiftl 1 k = n.
Proof. by intros [[-> ->]|[[-> ->]|[[-> ->]|[-> ->]]]]. Qed.

Lemma varint_class_pos n k : varint_class n k -> 1 <= n <= 8 /\ 0 <= k <= 3.
Proof. intros [[-> ->]|[[-> ->]|[[-> ->]|[-> ->]]]]; lia. Qed.

Lemma varint_limit_split n k :
  varint_class n k -> varint_limit n = 64 * 256 ^ (n - 1) /\ varint_limit n <= 2 ^ 62.
Proof. intros [[-> ->]|[[-> ->]|[[-> ->]|[-> ->]]]]; by split. Qed.

(** The test the encoder performs for each length. *)
Definition varint_maximum (n : Z) : Z :=
  if n =? 8 then QuicVarIntMaximum else u64 (Z.shiftl 1 (n * 8 - 2)) -! 1.
Lemma varint_maximum_limit n k : varint_class n k -> varint_maximum n = varint_limit n - 1.
Proof. by intros [[-> ->]|[[-> ->]|[[-> ->]|[-> ->]]]]. Qed.

Lemma varint_encoded_length_class v :
  0 <= v <= QuicVarIntMaximum ->
  exists k, varint_class (QuicVarIntEncodedLength v) k
            /\ v < varint_limit (QuicVarIntEncodedLength v).
Proof.
  unfold QuicVarIntEncodedLength, varint_limit, varint_class, QuicVarIntMaximum.
  intros Hv. repeat case_if; bool_prop;
    [exists 0|exists 1|exists 2|exists 3|]; simpl; lia.
Qed.

Lemma varint_encode_ok v len cap n k :
  0 <= v -> varint_class n k ->
  (if len =? 0 then QuicVarIntEncodedLength v else len) = n ->
  v < varint_limit n -> n <= cap ->
  QuicEncodeVarInt v len cap = Ok (varint_or_first (64 * k) (be_put n v)).
Proof.
  intros Hv Hn Hlen Hlim Hcap. unfold QuicEncodeVarInt.
  pose proof (varint_limit_split n k Hn) as [_ Hmax].
  pose proof (varint_maximum_limit n k Hn) as Hm. unfold varint_maximum in Hm.
  destruct (v >? QuicVarIntMaximum) eqn:E.
  { unfold QuicVarIntMaximum in E. bool_lia. }
  rewrite Hlen, Hm.
  replace (negb _ && _ && _ && _) with false.
  2:{ by destruct Hn as [[-> ->]|[[-> ->]|[[-> ->]|[-> ->]]]]. }
  destruct (v >? varint_limit n - 1) eqn:E1; [bool_lia|].
  destruct (cap <? n) eqn:E2; [bool_lia|].
  by rewrite (varint_prefix_class n k).
Qed.

Lemma varint_encode_ok_inv v len cap out :
  0 <= v -> QuicEncodeVarInt v len cap = Ok out ->
  exists n k, varint_class n k /\ v < varint_limit n /\ n <= cap
    /\ (if len =? 0 then QuicVarIntEncodedLength v else len) = n
    /\ out = varint_or_first (64 * k) (be_put n v).
Proof.
  intros Hv. unfold QuicEncodeVarInt.
  destruct (v >? QuicVarIntMaximum); [discriminate|].
  set (n := if len =? 0 then _ else _).
  destruct (_ && _ && _ && _) eqn:Hn; [discriminate|].
  change (if n =? 8 then _ else _) with (varint_maximum n).
  destruct (v >? varint_maximum n) eqn:Hmax; [discriminate|].
  destruct (cap <? n) eqn:Hcap; [discriminate|]. intros [= <-].
  assert (exists k, varint_class n k) as [k Hk].
  { unfold varint_class.
    destruct (n =? 1) eqn:?; [exists 0; bool_lia|].
    destruct (n =? 2) eqn:?; [exists 1; bool_lia|].
    destruct (n =? 4) eqn:?; [exists 2; bool_lia|].
    destruct (n =? 8) eqn:?; [exists 3; bool_lia|discriminate]. }
  exists n, k. rewrite (varint_maximum_limit n k) in Hmax by done.
  rewrite (varint_prefix_class n k) by done. split_and!; try done; bool_lia.
Qed.

(** The first byte of an encoding: the value's top six bits under the prefix. *)
Lemma varint_first n k v :
  varint_class n k -> 0 <= v < varint_limit n ->
  exists b rest, be_put n v = b :: rest /\ 0 <= b < 64 /\ bytes rest
    /\ zlen rest = n - 1 /\ u8 (Z.lor b (64 * k)) = 64 * k + b
    /\ v = b * 256 ^ (n - 1) + be_get 0 rest.
Proof.
  intros Hn Hv. pose proof (varint_class_pos n k Hn) as [Hn1 Hk].
  pose proof (be_put_len n v ltac:(lia)) as Hlen.
  pose proof (be_put_bytes n v) as Hb.
  pose proof (be_get_put n v ltac:(lia)) as Hget.
  destruct (varint_limit_split n k Hn) as [Hsplit Hmax].
  assert (256 ^ n = 256 * 256 ^ (n - 1)) as Hp.
  { rewrite <- Z.pow_succ_r by lia. f_equal. lia. }
  rewrite Z.mod_small in Hget by lia.
  destruct (be_put n v) as [|b rest]; [unfold zlen in Hlen; simpl in Hlen; lia|].
  rewrite zlen_cons in Hlen. apply Forall_cons in Hb as [Hb Hrest].
  unfold is_byte in Hb. simpl in Hget.
  rewrite u64_id in Hget by (rewrite Z.shiftl_0_l; lia).
  rewrite Z.shiftl_0_l, Z.lor_0_l in Hget.
  replace (n - 1) with (zlen rest) in * by lia.
  destruct (be_get_value rest b Hrest) as [Hval Hrange]; [lia| |].
  { assert (256 * 256 ^ zlen rest <= 2 ^ 64); [|nia].
    rewrite <- Hp. change (2 ^ 64) with (256 ^ 8). apply Z.pow_le_mono_r; lia. }
  assert (b < 64) by nia.
  exists b, rest. split_and!; try done; try lia.
  rewrite Z.lor_comm. replace (64 * k) with (k * 2 ^ 6) by lia.
  rewrite lor_disjoint by lia. unfold u8. apply Z.mod_small. lia.
Qed.

Lemma byte_hi2_lo6 b k :
  0 <= b < 64 -> 0 <= k <= 3 ->
  Z.shiftr (64 * k + b) 6 = k /\ Z.land (64 * k + b) 0x3f = b.
Proof.
  intros. rewrite Z.shiftr_div_pow2 by lia. change 0x3f with (2 ^ 6 - 1).
  rewrite land_ones_mod by lia. change (2 ^ 6) with 64. split.
  - rewrite Z.mul_comm, Z.div_add_l, Z.div_small; lia.
  - rewrite Z.add_comm, Z.mul_comm, Z.mod_add by lia. by apply Z.mod_small.
Qed.

(** What decoding reads, stated on the encoded bytes. *)
Lemma varint_decode_bytes b k n rest suffix :
  varint_class n k -> 0 <= b < 64 -> bytes rest -> zlen rest = n - 1 ->
  QuicDecodeVarInt (Bytes ((64 * k + b) :: rest ++ suffix))
  = Ok (b * 256 ^ (n - 1) + be_get 0 rest, n).
Proof.
  intros Hn Hb Hrest Hlen. unfold QuicDecodeVarInt. cbn [sp_isnull sp_len sp_bytes orb].
  pose proof (varint_class_pos n k Hn) as [Hn1 Hk].
  destruct (varint_limit_split n k Hn) as [Hsplit Hmax].
  rewrite zlen_cons, zlen_app, zget_0.
  destruct (byte_hi2_lo6 b k Hb Hk) as [-> ->].
  rewrite (varint_class_shift n k Hn).
  pose proof (zlen_nonneg suffix).
  destruct (_ =? 0) eqn:E; [bool_lia|].
  destruct (_ <? n) eqn:E'; [bool_lia|].
  replace (zsub _ 1 (n - 1)) with rest.
  2:{ unfold zsub. rewrite <- Hlen. change (zdrop 1 (?x :: ?l)) with l.
      by rewrite ztake_app_len. }
  rewrite <- Hlen in *. do 2 f_equal.
  apply be_get_value; [done|lia|]. nia.
Qed.

Lemma varint_roundtrip v len cap out suffix :
  0 <= v -> QuicEncodeVarInt v len cap = Ok out ->
  QuicDecodeVarInt (Bytes (out ++ suffix)) = Ok (v, zlen out).
Proof.
  intros Hv H. apply varint_encode_ok_inv in H as (n & k & Hn & Hlim & _ & _ & ->); [|done].
  destruct (varint_first n k v Hn) as (b & rest & -> & Hb & Hrest & Hlen & Hor & Hval);
    [lia|].
  cbn [varint_or_first app]. rewrite Hor, (varint_decode_bytes b k n) by done.
  rewrite zlen_cons. do 2 f_equal; lia.
Qed.

Lemma varint_written v len cap out :
  0 <= v -> QuicEncodeVarInt v len cap = Ok out ->
  1 <= zlen out <= 8 /\ zlen out <= cap /\ bytes out /\ v <= QuicVarIntMaximum.
Proof.
  intros Hv H. apply varint_encode_ok_inv in H as (n & k & Hn & Hlim & Hcap & _ & ->); [|done].
  destruct (varint_first n k v Hn) as (b & rest & -> & Hb & Hrest & Hlen & Hor & Hval); [lia|].
  pose proof (varint_class_pos n k Hn). pose proof (varint_limit_split n k Hn) as [_ Hmax].
  cbn [varint_or_first]. rewrite Hor, zlen_cons. unfold QuicVarIntMaximum.
  repeat split; try lia. constructor; [unfold is_byte; lia|done].
Qed.

(** ** Properties *)

(** A value that [QuicEncodeVarInt] accepts is read back exactly, whatever
    length was forced, whatever follows it in the buffer, and the decoder
    consumes exactly the bytes written. *)
Theorem varint_decode_encode (v len cap : Z) (out suffix : list Z) :
  0 <= v -> QuicEncodeVarInt v len cap = Ok out ->
  QuicDecodeVarInt (Bytes (out ++ suffix)) = Ok (v, zlen out)
  /\ zlen out <= cap /\ bytes out.
Proof.
  intros Hv H. split; [by eapply varint_roundtrip|].
  apply varint_written in H; [|done]. tauto.
Qed.

Lemma varint_decode_encode_witness :
  QuicEncodeVarInt 494878333 0 8 = Ok [0x9d; 0x7f; 0x3e; 0x7d]
  /\ QuicDecodeVarInt (Bytes ([0x9d; 0x7f; 0x3e; 0x7d] ++ [1; 2])) = Ok (494878333, 4).
Proof.
  split; [by vm_compute|].
  refine (proj1 (varint_decode_encode 494878333 0 8 [0x9d; 0x7f; 0x3e; 0x7d] [1; 2] _ _)).
  - lia.
  - by vm_compute.
Defined.

Lemma byte_top_bits b :
  is_byte b ->
  exists k n, b = 64 * k + Z.land b 0x3f /\ 0 <= Z.land b 0x3f < 64
    /\ Z.shiftr b 6 = k /\ varint_class n k.
Proof.
  intros Hb. unfold is_byte in Hb. change 0x3f with (2 ^ 6 - 1).
  rewrite land_ones_mod, Z.shiftr_div_pow2 by lia. change (2 ^ 6) with 64.
  pose proof (Z.mod_pos_bound b 64 ltac:(lia)).
  pose proof (Z.div_mod b 64 ltac:(lia)).
  exists (b / 64).
  assert (0 <= b / 64 < 4) by (split; [apply Z.div_pos|apply Z.div_lt_upper_bound]; lia).
  exists (if b / 64 =? 0 then 1 else if b / 64 =? 1 then 2 else if b / 64 =? 2 then 4 else 8).
  split_and!; try lia. unfold varint_class. repeat case_if; bool_lia.
Qed.

(** The reader's four outcomes on a non-empty buffer. *)
Lemma varint_decode_cases l :
  bytes l -> l <> [] ->
  exists b k n rest tl, l = (64 * k + b) :: tl /\ varint_class n k /\ 0 <= b < 64
    /\ rest = ztake (n - 1) tl
    /\ ((zlen l < n /\ QuicDecodeVarInt (Bytes l) = Err STATUS_BUFFER_TOO_SMALL)
        \/ (n <= zlen l /\ zlen rest = n - 1 /\ bytes rest
            /\ QuicDecodeVarInt (Bytes l) = Ok (b * 256 ^ (n - 1) + be_get 0 rest, n))).
Proof.
  intros Hl Hne. destruct l as [|c tl]; [done|]. apply Forall_cons in Hl as [Hc Htl].
  destruct (byte_top_bits c Hc) as (k & n & Hck & Hb & Hk & Hn).
  pose proof (varint_class_pos n k Hn).
  exists (Z.land c 0x3f), k, n, (ztake (n - 1) tl), tl. rewrite <- Hck.
  split_and!; try done; try lia.
  destruct (Z.lt_ge_cases (zlen (c :: tl)) n) as [Hs|Hs]; [left|right]; (split; [done|]).
  - unfold QuicDecodeVarInt. cbn [sp_isnull sp_len sp_bytes orb].
    rewrite zget_0, Hk, (varint_class_shift n k Hn). rewrite zlen_cons in *.
    pose proof (zlen_nonneg tl). destruct (_ =? 0) eqn:?; [bool_lia|].
    destruct (_ <? n) eqn:?; [done|bool_lia].
  - rewrite zlen_cons in Hs. pose proof (zlen_nonneg tl).
    assert (zlen (ztake (n - 1) tl) = n - 1) by (rewrite zlen_ztake; lia).
    split_and!; [done|auto with wk|].
    rewrite <- (ztake_zdrop (n - 1) tl) at 1. rewrite Hck at 1.
    by rewrite (varint_decode_bytes _ k n) by auto with wk.
Qed.

Lemma varint_read l v n :
  bytes l -> QuicDecodeVarInt (Bytes l) = Ok (v, n) -> 0 <= v <= QuicVarIntMaximum /\ 1 <= n <= zlen l.
Proof.
  intros Hl Hd. assert (Hne : l <> []) by (intros ->; done).
  destruct (varint_decode_cases l Hl Hne) as (b & k & m & rest & tl & -> & Hn & Hb & -> & [[Hs E]|[Hs (Hlen & Hrest & E)]]);
    rewrite E in Hd; [done|]. injection Hd as <- <-.
  destruct (varint_class_pos m k Hn) as [Hn1 Hk], (varint_limit_split m k Hn) as [Hsplit Hmax].
  destruct (be_get_value _ 0 Hrest) as [_ Hv]; [lia|rewrite Hlen; lia|].
  rewrite Hlen in Hv. unfold QuicVarIntMaximum. split; [nia|lia].
Qed.

(** Decoding is total and exact on every byte string: it fails only on an
    empty buffer or on one shorter than its first byte announces; otherwise the
    value fits 62 bits, at most the buffer is consumed, and encoding the value
    back at that length reproduces the consumed bytes (no two values share an
    encoding and no bit of the input is ignored). *)
Theorem varint_encode_decode (l : list Z) :
  bytes l ->
  match QuicDecodeVarInt (Bytes l) with
  | Ok (v, n) => 0 <= v <= QuicVarIntMaximum /\ 1 <= n <= zlen l
                 /\ QuicEncodeVarInt v n n = Ok (ztake n l)
  | Err s => (l = [] /\ s = STATUS_INVALID_PARAMETER)
             \/ (l <> [] /\ zlen l < Z.shiftl 1 (Z.shiftr (zget l 0) 6)
                 /\ s = STATUS_BUFFER_TOO_SMALL)
  end.
Proof.
  intros Hl. destruct (decide (l = [])) as [->|Hne]; [by left|].
  destruct (varint_decode_cases l Hl Hne) as (b & k & n & rest & tl & -> & Hn & Hb & -> & [[Hs ->]|[Hs (Hlen & Hrest & ->)]]).
  - right. split_and!; [done| |done]. rewrite zget_0.
    pose proof (varint_class_pos n k Hn).
    destruct (byte_hi2_lo6 b k) as [-> _]; [lia..|]. by rewrite (varint_class_shift n k Hn).
  - pose proof (varint_class_pos n k Hn) as [Hn1 Hk].
    destruct (varint_limit_split n k Hn) as [Hsplit Hmax].
    destruct (be_get_value _ 0 Hrest) as [_ Hv]; [lia|rewrite Hlen; lia|].
    rewrite Hlen in Hv. set (v := b * _ + _).
    assert (0 <= v < varint_limit n) by (unfold v; nia).
    assert (Hput : be_put n v = b :: ztake (n - 1) tl).
    { rewrite <- (be_put_get (b :: ztake (n - 1) tl)).
      - rewrite zlen_cons, Hlen. f_equal; [lia|]. simpl.
        rewrite Z.shiftl_0_l, u64_id, Z.lor_0_l by lia. unfold v.
        destruct (be_get_value _ b Hrest) as [-> _]; [lia|rewrite Hlen; nia|by rewrite Hlen].
      - constructor; [unfold is_byte; lia|done].
      - rewrite zlen_cons. lia. }
    split_and!; [lia|unfold QuicVarIntMaximum; lia|lia|done|].
    rewrite (varint_encode_ok v n n n k); try done; try lia.
    2:{ destruct (n =? 0) eqn:?; [bool_lia|done]. }
    rewrite Hput. cbn [varint_or_first]. f_equal.
    replace (ztake n (64 * k + b :: tl)) with ((64 * k + b) :: ztake (n - 1) tl).
    2:{ unfold ztake. replace (Z.to_nat n) with (S (Z.to_nat (n - 1))) by lia. done. }
    f_equal. replace (64 * k) with (k * 2 ^ 6) by lia.
    rewrite Z.lor_comm, lor_disjoint by lia. unfold u8. apply Z.mod_small. lia.
Qed.

Lemma varint_encode_decode_witness :
  match QuicDecodeVarInt (Bytes [0x7b; 0xbd; 0x55]) with
  | Ok (v, n) => 0 <= v <= QuicVarIntMaximum /\ 1 <= n <= zlen [0x7b; 0xbd; 0x55]
                 /\ QuicEncodeVarInt v n n = Ok (ztake n [0x7b; 0xbd; 0x55])
  | Err s => ([0x7b; 0xbd; 0x55] = [] /\ s = STATUS_INVALID_PARAMETER)
             \/ ([0x7b; 0xbd; 0x55] <> [] /\ zlen [0x7b; 0xbd; 0x55] < Z.shiftl 1 (Z.shiftr (zget [0x7b; 0xbd; 0x55] 0) 6)
                 /\ s = STATUS_BUFFER_TOO_SMALL)
  end.
Proof.
  apply (varint_encode_decode [0x7b; 0xbd; 0x55]).
  repeat constructor; unfold is_byte; lia.
Defined.
