(* ===== verification/QuicFlowControl.v ===== *)
(** * Connection-level flow control (src/wknetlib/quic/QuicFlowControl.cpp)

    [QuicFlowController]: the credit the peer granted for sending (MAX_DATA) and
    the credit granted to the peer for receiving. *)

From S2P Require Import Prelude QuicVarInt.

Record QuicFlowController := MkFlow {
  fc_sendLimit : Z;
  fc_sendOffset : Z;
  fc_receiveLimit : Z;
  fc_receivedBytes : Z;
  fc_consumedBytes : Z;
  fc_initialized : bool;
  fc_dataBlockedPending : bool;
}.
#[export] Instance QuicFlowController_eta : Eta QuicFlowController := fun x =>
  MkFlow (fc_sendLimit x) (fc_sendOffset x) (fc_receiveLimit x) (fc_receivedBytes x)
    (fc_consumedBytes x) (fc_initialized x) (fc_dataBlockedPending x).

Definition flow_default : QuicFlowController := MkFlow 0 0 0 0 0 false false.

Definition Initialize (sendLimit receiveLimit : Z) (f : QuicFlowController)
    : NTSTATUS * QuicFlowController :=
  if (sendLimit >? QuicVarIntMaximum) || (receiveLimit >? QuicVarIntMaximum)
  then (STATUS_INVALID_PARAMETER, f)
  else
    (STATUS_SUCCESS,
     f <| fc_sendLimit := sendLimit |> <| fc_sendOffset := 0 |>
       <| fc_receiveLimit := receiveLimit |> <| fc_receivedBytes := 0 |>
       <| fc_consumedBytes := 0 |> <| fc_dataBlockedPending := false |>
       <| fc_initialized := true |>).

Definition CanReserveSend (bytes : Z) (f : QuicFlowController) : NTSTATUS :=
  if negb (fc_initialized f) || (bytes >? QuicVarIntMaximum -! fc_sendOffset f)
  then STATUS_INVALID_PARAMETER
  else if (fc_sendOffset f >? fc_sendLimit f) || (bytes >? fc_sendLimit f -! fc_sendOffset f)
  then STATUS_DEVICE_BUSY
  else STATUS_SUCCESS.

Definition ReserveSend (bytes : Z) (f : QuicFlowController) : NTSTATUS * QuicFlowController :=
  let validationStatus := CanReserveSend bytes f in
  if negb (NT_SUCCESS validationStatus) then
    (validationStatus,
     if decide (validationStatus = STATUS_DEVICE_BUSY)
     then f <| fc_dataBlockedPending := true |> else f)
  else (STATUS_SUCCESS, f <| fc_sendOffset := fc_sendOffset f +! bytes |>).

Definition OnMaxData (maximum : Z) (f : QuicFlowController) : NTSTATUS * QuicFlowController :=
  if negb (fc_initialized f) || (maximum >? QuicVarIntMaximum)
  then (STATUS_INVALID_PARAMETER, f)
  else
    (STATUS_SUCCESS,
     if maximum >? fc_sendLimit f
     then f <| fc_sendLimit := maximum |> <| fc_dataBlockedPending := false |>
     else f).

Definition OnStreamReceiveProgress (previousMaximumOffset currentMaximumOffset : Z)
    (f : QuicFlowController) : NTSTATUS * QuicFlowController :=
  if negb (fc_initialized f) || (previousMaximumOffset >? currentMaximumOffset)
     || (currentMaximumOffset >? QuicVarIntMaximum)
  then (STATUS_INVALID_PARAMETER, f)
  else
    let delta := currentMaximumOffset -! previousMaximumOffset in
    if (fc_receivedBytes f >? fc_receiveLimit f)
       || (delta >? fc_receiveLimit f -! fc_receivedBytes f)
    then (STATUS_INVALID_NETWORK_RESPONSE, f)
    else (STATUS_SUCCESS, f <| fc_receivedBytes := fc_receivedBytes f +! delta |>).

Definition OnStreamConsumed (bytes : Z) (f : QuicFlowController) : NTSTATUS * QuicFlowController :=
  if negb (fc_initialized f) || (fc_consumedBytes f >? fc_receivedBytes f)
     || (bytes >? fc_receivedBytes f -! fc_consumedBytes f)
  then (STATUS_INVALID_PARAMETER, f)
  else (STATUS_SUCCESS, f <| fc_consumedBytes := fc_consumedBytes f +! bytes |>).

Definition SetReceiveLimit (maximum : Z) (f : QuicFlowController) : NTSTATUS * QuicFlowController :=
  if negb (fc_initialized f) || (maximum >? QuicVarIntMaximum) || (maximum <? fc_receivedBytes f)
  then (STATUS_INVALID_PARAMETER, f)
  else (STATUS_SUCCESS, f <| fc_receiveLimit := maximum |>).

(** Returns whether a DATA_BLOCKED frame is due and the limit it reports. *)
Definition TakeDataBlocked (f : QuicFlowController) : (bool * Z) * QuicFlowController :=
  if negb (fc_initialized f) || negb (fc_dataBlockedPending f)
  then ((false, 0), f)
  else ((true, fc_sendLimit f), f <| fc_dataBlockedPending := false |>).

(** ** The controller as a state machine *)

Inductive flow_op :=
  | OpReserveSend (bytes : Z)
  | OpMaxData (maximum : Z)
  | OpReceiveProgress (previous current : Z)
  | OpConsumed (bytes : Z)
  | OpSetReceiveLimit (maximum : Z)
  | OpTakeDataBlocked.

Definition flow_step (f : QuicFlowController) (op : flow_op) : QuicFlowController :=
  match op with
  | OpReserveSend n => (ReserveSend n f).2
  | OpMaxData m => (OnMaxData m f).2
  | OpReceiveProgress p c => (OnStreamReceiveProgress p c f).2
  | OpConsumed n => (OnStreamConsumed n f).2
  | OpSetReceiveLimit m => (SetReceiveLimit m f).2
  | OpTakeDataBlocked => (TakeDataBlocked f).2
  end.

(** The arguments are ULONGLONG values. *)
Definition flow_op_u64 (op : flow_op) : Prop :=
  match op with
  | OpReserveSend n | OpMaxData n | OpConsumed n | OpSetReceiveLimit n => is_u64 n
  | OpReceiveProgress p c => is_u64 p /\ is_u64 c
  | OpTakeDataBlocked => True
  end.

Record flow_inv (f : QuicFlowController) : Prop := {
  fi_send : 0 <= fc_sendOffset f <= fc_sendLimit f;
  fi_send_max : fc_sendLimit f <= QuicVarIntMaximum;
  fi_consumed : 0 <= fc_consumedBytes f <= fc_receivedBytes f;
  fi_received : fc_receivedBytes f <= fc_receiveLimit f;
  fi_receive_max : fc_receiveLimit f <= QuicVarIntMaximum;
}.

Ltac flow_unfold :=
  unfold ReserveSend, CanReserveSend, OnMaxData, OnStreamReceiveProgress, OnStreamConsumed,
    SetReceiveLimit, TakeDataBlocked, QuicVarIntMaximum, is_u64 in *.

Lemma flow_step_inv f op : flow_inv f -> flow_op_u64 op -> flow_inv (flow_step f op).
Proof.
  intros [] Hop. destruct op; simpl in *; flow_unfold;
    repeat (u64_simpl; case_if; cbn); bool_prop; try case_decide; u64_simpl;
    constructor; unfold QuicVarIntMaximum in *; cbn; u64_simpl; lia.
Qed.

Lemma flow_steps_inv ops f :
  flow_inv f -> Forall flow_op_u64 ops -> flow_inv (foldl flow_step f ops).
Proof.
  revert f. induction ops as [|op ops IH]; intros f Hf Hops; [done|].
  apply Forall_cons in Hops as [Hop Hops]. by apply IH; [apply flow_step_inv|].
Qed.

(** ** Properties *)

(** Flow-control safety.  From any successful [Initialize], whatever
    sequence of operations follows (with any 64-bit arguments, failing calls
    included), the bytes sent never exceed the peer's limit, the bytes received
    never exceed the advertised limit, the bytes consumed never exceed the bytes
    received, and no counter leaves the 62-bit range. *)
Theorem flow_safety (sendLimit receiveLimit : Z) (ops : list flow_op) :
  0 <= sendLimit <= QuicVarIntMaximum -> 0 <= receiveLimit <= QuicVarIntMaximum ->
  Forall flow_op_u64 ops ->
  flow_inv (foldl flow_step (Initialize sendLimit receiveLimit flow_default).2 ops).
Proof.
  intros Hs Hr Hops. apply flow_steps_inv; [|done].
  unfold Initialize, QuicVarIntMaximum in *.
  case_if; bool_prop; constructor; unfold QuicVarIntMaximum; simpl; lia.
Qed.

Lemma flow_safety_witness :
  flow_inv (foldl flow_step (Initialize 100 200 flow_default).2
    [OpReserveSend 60; OpReserveSend 60; OpMaxData 150; OpReserveSend 60;
     OpReceiveProgress 0 200; OpReceiveProgress 200 201; OpConsumed 50]).
Proof.
  apply (flow_safety 100 200); [unfold QuicVarIntMaximum; lia..|].
  repeat constructor; unfold is_u64; lia.
Defined.

(** The abstract ledger: credit granted so far, and bytes accepted so far. *)
Definition ledger_step (f : QuicFlowController) (g : Z * Z) (op : flow_op) : Z * Z :=
  match op with
  | OpReserveSend n => if NT_SUCCESS (ReserveSend n f).1 then (g.1, g.2 + n) else g
  | OpMaxData m => if m <=? QuicVarIntMaximum then (Z.max g.1 m, g.2) else g
  | _ => g
  end.

Fixpoint ledger (f : QuicFlowController) (g : Z * Z) (ops : list flow_op) : Z * Z :=
  match ops with
  | [] => g
  | op :: ops => ledger (flow_step f op) (ledger_step f g op) ops
  end.

Lemma ledger_step_refines f op :
  flow_inv f -> flow_op_u64 op -> fc_initialized f = true ->
  fc_initialized (flow_step f op) = true
  /\ ledger_step f (fc_sendLimit f, fc_sendOffset f) op
    = (fc_sendLimit (flow_step f op), fc_sendOffset (flow_step f op)).
Proof.
  intros [] Hop Hi. destruct op; simpl in *; flow_unfold; rewrite Hi; cbn;
    repeat (u64_simpl; case_if; cbn); bool_prop; try case_decide; u64_simpl; cbn; u64_simpl;
    (split; [done|f_equal; lia]) || lia.
Qed.

Lemma ledger_refines ops f :
  flow_inv f -> Forall flow_op_u64 ops -> fc_initialized f = true ->
  ledger f (fc_sendLimit f, fc_sendOffset f) ops
  = (fc_sendLimit (foldl flow_step f ops), fc_sendOffset (foldl flow_step f ops)).
Proof.
  revert f. induction ops as [|op ops IH]; intros f Hf Hops Hi; [done|].
  apply Forall_cons in Hops as [Hop Hops]. simpl.
  destruct (ledger_step_refines f op) as [Hi' ->]; [done..|].
  apply IH; [by apply flow_step_inv|done|done].
Qed.

(** Refinement of the sending side to a credit ledger: after any run, the
    limit is the largest credit the peer ever granted (a smaller MAX_DATA never
    takes credit back), the offset is the initial one plus exactly the bytes of
    the reservations that reported success, and hence the bytes accepted never
    exceed the credit granted. *)
Theorem flow_ledger (ops : list flow_op) (f : QuicFlowController) :
  flow_inv f -> Forall flow_op_u64 ops -> fc_initialized f = true ->
  let f' := foldl flow_step f ops in
  ledger f (fc_sendLimit f, fc_sendOffset f) ops = (fc_sendLimit f', fc_sendOffset f')
  /\ (ledger f (fc_sendLimit f, fc_sendOffset f) ops).2
     <= (ledger f (fc_sendLimit f, fc_sendOffset f) ops).1.
Proof.
  intros Hf Hops Hi f'. rewrite ledger_refines by done. split; [done|].
  apply (fi_send _ (flow_steps_inv ops f Hf Hops)).
Qed.

Lemma flow_ledger_witness :
  let f := (Initialize 100 200 flow_default).2 in
  let ops := [OpReserveSend 60; OpReserveSend 60; OpMaxData 150; OpMaxData 90; OpReserveSend 60] in
  let f' := foldl flow_step f ops in
  ledger f (fc_sendLimit f, fc_sendOffset f) ops = (fc_sendLimit f', fc_sendOffset f')
  /\ (ledger f (fc_sendLimit f, fc_sendOffset f) ops).2
     <= (ledger f (fc_sendLimit f, fc_sendOffset f) ops).1.
Proof.
  apply flow_ledger.
  - constructor; unfold QuicVarIntMaximum; simpl; lia.
  - repeat constructor; unfold is_u64; lia.
  - done.
Defined.
