(* ===== verification/QuicAckTracker.v ===== *)
(** * Received packet numbers (src/wknetlib/quic/QuicAckTracker.cpp)

    [QuicAckTracker] keeps the received packet numbers of one packet-number space
    as descending disjoint ranges in a bounded array, and decides when an ACK is
    due. *)

From S2P Require Import Prelude QuicVarInt.

Record QuicAckRange := MkRange { Smallest : Z; Largest : Z }.

Definition WKNET_HARD_MAX_QUIC_ACK_RANGES : Z := 256.

(** [at_ranges] is the used prefix [ranges_[0 .. rangeCount_)]; [at_valid] and
    [at_capacity] are [ranges_.IsValid()] and [ranges_.Count()]. *)
Record QuicAckTracker := MkTracker {
  at_valid : bool;
  at_capacity : Z;
  at_ranges : list QuicAckRange;
  at_firstAckElicitingTime100ns : Z;
  at_ackElicitingSinceLastAck : Z;
  at_ackPending : bool;
  at_immediateAck : bool;
}.
#[export] Instance QuicAckTracker_eta : Eta QuicAckTracker := fun x =>
  MkTracker (at_valid x) (at_capacity x) (at_ranges x) (at_firstAckElicitingTime100ns x)
    (at_ackElicitingSinceLastAck x) (at_ackPending x) (at_immediateAck x).

Definition tracker_default : QuicAckTracker := MkTracker false 0 [] 0 0 false false.

(** [memory] tells whether the pool allocation succeeds. *)
Definition Initialize (capacity : Z) (memory : bool) (t : QuicAckTracker)
    : NTSTATUS * QuicAckTracker :=
  if (capacity =? 0) || (capacity >? WKNET_HARD_MAX_QUIC_ACK_RANGES)
  then (STATUS_INVALID_PARAMETER, t)
  else if memory
  then (STATUS_SUCCESS, MkTracker true capacity [] 0 0 false false)
  else (STATUS_INSUFFICIENT_RESOURCES, t <| at_valid := false |> <| at_capacity := 0 |>).

(** The search loop: a range that contains the number, or the insertion index. *)
Inductive slot := Duplicate | InsertAt (index : nat).
Fixpoint find_slot (packetNumber : Z) (index : nat) (ranges : list QuicAckRange) : slot :=
  match ranges with
  | [] => InsertAt index
  | range :: rest =>
      if (packetNumber >=? Smallest range) && (packetNumber <=? Largest range) then Duplicate
      else if packetNumber >? Largest range then InsertAt index
      else find_slot packetNumber (S index) rest
  end.

(** The right shift that opens [ranges_[index]], and the left shift that drops it. *)
Definition open_slot (index : nat) (r : QuicAckRange) (ranges : list QuicAckRange) :=
  take index ranges ++ r :: drop index ranges.
Definition close_slot (index : nat) (ranges : list QuicAckRange) :=
  take index ranges ++ drop (S index) ranges.

(** [ranges_[index].Smallest != 0 && ranges_[index].Smallest - 1 <= ranges_[index+1].Largest] *)
Definition touches (ranges : list QuicAckRange) (index : nat) : bool :=
  match ranges !! index, ranges !! S index with
  | Some hi, Some lo => negb (Smallest hi =? 0) && (Smallest hi -! 1 <=? Largest lo)
  | _, _ => false
  end.

(** [ranges_[index].Smallest = ranges_[index+1].Smallest], then drop [index+1]. *)
Definition merge_at (ranges : list QuicAckRange) (index : nat) : list QuicAckRange :=
  match ranges !! index, ranges !! S index with
  | Some hi, Some lo =>
      close_slot (S index) (<[index := MkRange (Smallest lo) (Largest hi)]> ranges)
  | _, _ => ranges
  end.

Definition coalesce (insertIndex : nat) (ranges : list QuicAckRange) : list QuicAckRange :=
  let '(ranges, insertIndex) :=
    match insertIndex with
    | S previous => if touches ranges previous then (merge_at ranges previous, previous)
                    else (ranges, insertIndex)
    | O => (ranges, insertIndex)
    end in
  if touches ranges insertIndex then merge_at ranges insertIndex else ranges.

Definition note_ack_eliciting (immediateAck : bool) (now100ns : Z) (t : QuicAckTracker)
    : QuicAckTracker :=
  let t := if at_ackElicitingSinceLastAck t =? 0
           then t <| at_firstAckElicitingTime100ns := now100ns |> else t in
  let t := if negb (at_ackElicitingSinceLastAck t =? MAXU32)
           then t <| at_ackElicitingSinceLastAck := u32 (at_ackElicitingSinceLastAck t + 1) |>
           else t in
  let t := t <| at_ackPending := true |> in
  t <| at_immediateAck :=
         at_immediateAck t || immediateAck || (at_ackElicitingSinceLastAck t >=? 2) |>.

(** Returns the status and the [duplicate] flag. *)
Definition OnPacketReceived (packetNumber : Z) (ackEliciting immediateAck : bool) (now100ns : Z)
    (t : QuicAckTracker) : (NTSTATUS * bool) * QuicAckTracker :=
  if negb (at_valid t) || (packetNumber >? QuicVarIntMaximum)
  then ((STATUS_INVALID_PARAMETER, false), t)
  else
    match find_slot packetNumber 0 (at_ranges t) with
    | Duplicate => ((STATUS_SUCCESS, true), t)
    | InsertAt insertIndex =>
        if zlen (at_ranges t) >=? at_capacity t
        then ((STATUS_INSUFFICIENT_RESOURCES, false), t)
        else
          let ranges := open_slot insertIndex (MkRange packetNumber packetNumber) (at_ranges t) in
          let t := t <| at_ranges := coalesce insertIndex ranges |> in
          ((STATUS_SUCCESS, false),
           if ackEliciting then note_ack_eliciting immediateAck now100ns t else t)
    end.

Definition CopyRanges (capacity : Z) (t : QuicAckTracker) : Result (list QuicAckRange) :=
  if negb (at_valid t) || (capacity <? zlen (at_ranges t)) then Err STATUS_INVALID_PARAMETER
  else Ok (at_ranges t).

Definition AckDeadline100ns (maxAckDelayMilliseconds : Z) (t : QuicAckTracker) : Z :=
  if negb (at_ackPending t) then 0
  else if at_immediateAck t then at_firstAckElicitingTime100ns t
  else
    let delay100ns :=
      if maxAckDelayMilliseconds >? MAXU64 / 10000 then MAXU64
      else maxAckDelayMilliseconds *! 10000 in
    if at_firstAckElicitingTime100ns t >? MAXU64 -! delay100ns then MAXU64
    else at_firstAckElicitingTime100ns t +! delay100ns.

Definition OnAckSent (t : QuicAckTracker) : QuicAckTracker :=
  t <| at_firstAckElicitingTime100ns := 0 |> <| at_ackElicitingSinceLastAck := 0 |>
    <| at_ackPending := false |> <| at_immediateAck := false |>.

(** ** Descending, disjoint, non-adjacent ranges *)

Definition range_ok (r : QuicAckRange) : Prop :=
  0 <= Smallest r <= Largest r /\ Largest r <= QuicVarIntMaximum.
(** [lo] comes after [hi] in the array, with at least one number missing between. *)
Definition gap (hi lo : QuicAckRange) : Prop := Largest lo + 1 < Smallest hi.

Fixpoint ranges_wf (l : list QuicAckRange) : Prop :=
  match l with
  | [] => True
  | r :: l => range_ok r /\ Forall (gap r) l /\ ranges_wf l
  end.

(** The packet numbers an array of ranges stands for. *)
Definition in_range (pn : Z) (r : QuicAckRange) : Prop := Smallest r <= pn <= Largest r.
Definition covers (l : list QuicAckRange) (pn : Z) : Prop := Exists (in_range pn) l.

Lemma ranges_wf_app a b :
  ranges_wf (a ++ b) <-> ranges_wf a /\ ranges_wf b /\ Forall (fun r => Forall (gap r) b) a.
Proof.
  induction a as [|r a IH]; simpl.
  { split; [intros; split_and!; done || by constructor|tauto]. }
  rewrite IH, Forall_app, Forall_cons. tauto.
Qed.

(** What the search finds on a well-formed array. *)
Lemma find_slot_spec pn l i :
  match find_slot pn i l with
  | Duplicate => covers l pn
  | InsertAt k => exists a b, l = a ++ b /\ k = (i + length a)%nat
      /\ Forall (fun r => pn < Smallest r) a
      /\ match b with [] => True | r :: _ => Largest r < pn end
  end.
Proof.
  revert i. induction l as [|r l IH]; intros i; simpl.
  { exists [], []. split_and!; auto. }
  destruct (_ && _) eqn:Hin; [left; unfold in_range; bool_lia|].
  destruct (pn >? Largest r) eqn:Hgt.
  { exists [], (r :: l). split_and!; [done|simpl; lia|by constructor|bool_lia]. }
  specialize (IH (S i)). destruct (find_slot pn (S i) l) as [|k].
  - by right.
  - destruct IH as (a & b & -> & -> & Ha & Hb). exists (r :: a), b.
    split_and!; [done|simpl; lia| |done]. constructor; [|done].
    rewrite andb_false_iff in Hin. destruct Hin; bool_lia.
Qed.

Lemma open_slot_app a b r : open_slot (length a) r (a ++ b) = a ++ r :: b.
Proof. unfold open_slot. by rewrite take_app_length, drop_app_length. Qed.

Lemma lookup_at {A} (a : list A) x b : (a ++ x :: b) !! length a = Some x.
Proof. by rewrite lookup_app_r, Nat.sub_diag by lia. Qed.
Lemma lookup_at_S {A} (a : list A) x y b : (a ++ x :: y :: b) !! S (length a) = Some y.
Proof. rewrite lookup_app_r by lia. by replace (S (length a) - length a)%nat with 1%nat by lia. Qed.

Lemma touches_at a hi lo b :
  touches (a ++ hi :: lo :: b) (length a)
  = negb (Smallest hi =? 0) && (Smallest hi -! 1 <=? Largest lo).
Proof. unfold touches. by rewrite lookup_at, lookup_at_S. Qed.
Lemma touches_end a hi : touches (a ++ [hi]) (length a) = false.
Proof.
  unfold touches. rewrite lookup_at. rewrite lookup_ge_None_2; [done|].
  rewrite length_app. simpl. lia.
Qed.
Lemma merge_at_app a hi lo b :
  merge_at (a ++ hi :: lo :: b) (length a) = a ++ MkRange (Smallest lo) (Largest hi) :: b.
Proof.
  unfold merge_at. rewrite lookup_at, lookup_at_S. unfold close_slot.
  rewrite insert_app_r_alt, Nat.sub_diag by lia. simpl.
  rewrite take_app_ge, drop_app_ge by lia.
  replace (S (length a) - length a)%nat with 1%nat by lia.
  replace (S (S (length a)) - length a)%nat with 2%nat by lia. simpl.
  by rewrite <- app_assoc.
Qed.

(** A merge test on well-formed neighbours is adjacency. *)
Lemma touches_adjacent hi lo :
  0 <= Smallest hi < 2 ^ 64 -> Largest lo < Smallest hi ->
  (negb (Smallest hi =? 0) && (Smallest hi -! 1 <=? Largest lo)) = true
  <-> Largest lo + 1 = Smallest hi /\ Smallest hi <> 0.
Proof.
  intros Hs Hlt. rewrite andb_true_iff, negb_true_iff, Z.eqb_neq, Z.leb_le.
  destruct (Z.eq_dec (Smallest hi) 0); [tauto|]. u64_simpl. lia.
Qed.

(** The neighbours of a range in a well-formed array, as bounds. *)
Definition above (s : Z) : list QuicAckRange -> Prop := Forall (fun r => s < Smallest r).
Definition below (s : Z) : list QuicAckRange -> Prop := Forall (fun r => Largest r < s).

Lemma above_weaken s s' l : above s l -> s' <= s -> above s' l.
Proof. intros H Hs. eapply Forall_impl; [exact H|]. simpl. lia. Qed.
Lemma below_weaken s s' l : below s l -> s <= s' -> below s' l.
Proof. intros H Hs. eapply Forall_impl; [exact H|]. simpl. lia. Qed.

Lemma ranges_wf_mid a m b :
  ranges_wf (a ++ m :: b) <->
  ranges_wf (a ++ b) /\ range_ok m /\ above (Largest m + 1) a /\ below (Smallest m - 1) b.
Proof.
  rewrite !ranges_wf_app. simpl.
  assert (Hb : Forall (gap m) b <-> below (Smallest m - 1) b).
  { unfold below, gap. rewrite !Forall_forall. split; intros H x Hx; specialize (H x Hx); lia. }
  assert (Ha : Forall (fun r => Forall (gap r) (m :: b)) a
               <-> above (Largest m + 1) a /\ Forall (fun r => Forall (gap r) b) a).
  { unfold above, gap. rewrite <- Forall_and. apply Forall_iff. intros r. by rewrite Forall_cons. }
  rewrite Ha, Hb. tauto.
Qed.

Lemma covers_mid a m b q : covers (a ++ m :: b) q <-> in_range q m \/ covers (a ++ b) q.
Proof. unfold covers. rewrite !Exists_app, Exists_cons. tauto. Qed.

(** [coalesce] at an insertion point: what each merge test decides. *)
Definition merge_right (a : list QuicAckRange) (x : QuicAckRange) (b : list QuicAckRange) :=
  match b with
  | lo :: b' => if negb (Smallest x =? 0) && (Smallest x -! 1 <=? Largest lo)
                then a ++ MkRange (Smallest lo) (Largest x) :: b' else a ++ x :: b
  | [] => a ++ x :: b
  end.

Lemma coalesce_right a x b i :
  i = length a ->
  (if touches (a ++ x :: b) i then merge_at (a ++ x :: b) i else a ++ x :: b) = merge_right a x b.
Proof.
  intros ->. destruct b as [|lo b]; simpl; [by rewrite touches_end|].
  by rewrite touches_at, merge_at_app.
Qed.

Lemma coalesce_nil x b : coalesce 0 (x :: b) = merge_right [] x b.
Proof. apply (coalesce_right []). done. Qed.

Lemma coalesce_snoc a p x b :
  coalesce (S (length a)) (a ++ p :: x :: b)
  = if negb (Smallest p =? 0) && (Smallest p -! 1 <=? Largest x)
    then merge_right a (MkRange (Smallest x) (Largest p)) b
    else merge_right (a ++ [p]) x b.
Proof.
  unfold coalesce. rewrite touches_at. destruct (_ && _).
  - rewrite merge_at_app. by apply coalesce_right.
  - replace (a ++ p :: x :: b) with ((a ++ [p]) ++ x :: b) by by rewrite <- app_assoc.
    apply coalesce_right. rewrite length_app. simpl. lia.
Qed.

(** Absorbing a range into a well-formed array that leaves room on the left and
    touches at most its right neighbour. *)
Lemma merge_right_spec a x b :
  ranges_wf (a ++ b) -> range_ok x -> above (Largest x + 1) a -> below (Smallest x) b ->
  ranges_wf (merge_right a x b)
  /\ (length (merge_right a x b) <= S (length (a ++ b)))%nat
  /\ forall q, covers (merge_right a x b) q <-> in_range q x \/ covers (a ++ b) q.
Proof.
  intros Hwf Hx Ha Hb. destruct Hx as [Hx1 Hx2]. unfold QuicVarIntMaximum in *.
  destruct b as [|lo b]; simpl.
  { split_and!; [|rewrite !length_app; simpl; lia|intros; apply covers_mid].
    apply ranges_wf_mid. split_and!; [done..|]. constructor. }
  apply ranges_wf_mid in Hwf as (Hwf & [Hlo1 Hlo2] & Ha' & Hb').
  apply Forall_cons in Hb as [Hlo Hb].
  destruct (_ && _) eqn:Ht.
  - apply touches_adjacent in Ht; [|unfold in_range in *; lia..].
    split_and!; [|rewrite !length_app; simpl; lia|].
    + apply ranges_wf_mid. split_and!; simpl; [done|split; simpl; unfold QuicVarIntMaximum; lia|done|].
      eapply below_weaken; [exact Hb'|lia].
    + intros q. rewrite !covers_mid. unfold in_range; simpl.
      split; [intros [?|?]|intros [?|[?|?]]]; try tauto; lia.
  - assert (Largest lo + 1 <> Smallest x).
    { intros E. enough (false = true) by done. rewrite <- Ht. apply touches_adjacent; lia. }
    split_and!; [|rewrite !length_app; simpl; lia|intros; apply covers_mid].
    apply ranges_wf_mid. split_and!; [|done..|].
    + apply ranges_wf_mid. split_and!; done.
    + constructor; [lia|]. eapply below_weaken; [exact Hb'|lia].
Qed.

(** The array code of [OnPacketReceived] is set insertion. *)
Lemma coalesce_spec a b pn :
  ranges_wf (a ++ b) -> 0 <= pn <= QuicVarIntMaximum ->
  above pn a -> match b with [] => True | r :: _ => Largest r < pn end ->
  let l := coalesce (length a) (a ++ MkRange pn pn :: b) in
  ranges_wf l /\ (length l <= S (length (a ++ b)))%nat
  /\ forall q, covers l q <-> q = pn \/ covers (a ++ b) q.
Proof.
  intros Hwf Hpn Ha Hb l. unfold l.
  assert (Hq : forall q, in_range q (MkRange pn pn) <-> q = pn).
  { intros q. unfold in_range. simpl. lia. }
  assert (Hb' : below pn b).
  { destruct b as [|lo b]; [constructor|].
    apply ranges_wf_mid in Hwf as (_ & [? ?] & _ & Hbb). constructor; [done|].
    eapply below_weaken; [exact Hbb|lia]. }
  destruct a as [|p a _] using rev_ind.
  { simpl length. rewrite app_nil_l, coalesce_nil.
    setoid_rewrite <- Hq. apply merge_right_spec; [done|split; simpl; lia|constructor|done]. }
  rewrite length_app, Nat.add_1_r in *. simpl in *.
  rewrite <- !app_assoc in *. simpl in *. rewrite coalesce_snoc. simpl.
  pose proof Hwf as Hwf'. apply ranges_wf_mid in Hwf as (Hwf & [Hp1 Hp2] & Ha' & Hb'').
  apply Forall_app in Ha as [Ha Hp]. apply Forall_inv in Hp.
  assert (Smallest p < 2 ^ 64) by (unfold QuicVarIntMaximum in *; lia).
  destruct (_ && _) eqn:Ht.
  - apply (touches_adjacent p (MkRange pn pn)) in Ht; simpl in *; [|lia..].
    destruct (merge_right_spec a (MkRange pn (Largest p)) b) as (H1 & H2 & H3);
      [done|split; simpl; lia|done|done|].
    split_and!; [done|rewrite !length_app in *; simpl; lia|].
    intros q. rewrite H3, covers_mid. unfold in_range. simpl.
    split; [intros [?|?]|intros [?|[?|?]]]; try tauto; lia.
  - assert (pn + 1 <> Smallest p).
    { intros E. enough (false = true) by done. rewrite <- Ht.
      apply (touches_adjacent p (MkRange pn pn)); simpl; lia. }
    setoid_rewrite <- Hq.
    replace (a ++ p :: b) with ((a ++ [p]) ++ b) in * by by rewrite <- app_assoc.
    apply merge_right_spec; [done|split; simpl; lia| |done].
    apply Forall_app. split; [eapply above_weaken; [exact Ha'|simpl; lia]|].
    constructor; [simpl; lia|constructor].
Qed.

(** ** Properties *)

Record tracker_inv (t : QuicAckTracker) : Prop := {
  ti_valid : at_valid t = true;
  ti_ranges : ranges_wf (at_ranges t);
  ti_count : zlen (at_ranges t) <= at_capacity t <= WKNET_HARD_MAX_QUIC_ACK_RANGES;
}.

Lemma note_ack_eliciting_frame imm now t :
  at_ranges (note_ack_eliciting imm now t) = at_ranges t
  /\ at_valid (note_ack_eliciting imm now t) = at_valid t
  /\ at_capacity (note_ack_eliciting imm now t) = at_capacity t.
Proof. unfold note_ack_eliciting. by repeat case_if. Qed.

(** The outcome of a call, as a set operation. *)
Definition received_outcome (pn : Z) (t : QuicAckTracker) (r : (NTSTATUS * bool) * QuicAckTracker)
    : Prop :=
  let '((status, duplicate), t') := r in
  match status with
  | STATUS_SUCCESS =>
      tracker_inv t' /\ (duplicate = true <-> covers (at_ranges t) pn)
      /\ (duplicate = true -> t' = t)
      /\ forall q, covers (at_ranges t') q <-> q = pn \/ covers (at_ranges t) q
  | STATUS_INSUFFICIENT_RESOURCES =>
      t' = t /\ duplicate = false /\ zlen (at_ranges t) = at_capacity t
      /\ ~ covers (at_ranges t) pn
  | _ => False
  end.

Lemma not_covers_slot a b pn :
  ranges_wf (a ++ b) -> above pn a -> match b with [] => True | r :: _ => Largest r < pn end ->
  ~ covers (a ++ b) pn.
Proof.
  intros Hwf Ha Hb. unfold covers. rewrite Exists_app. intros [H|H].
  - apply Exists_exists in H as (r & Hr & H). unfold above in Ha. rewrite Forall_forall in Ha.
    specialize (Ha r Hr). unfold in_range in H. simpl in Ha. lia.
  - destruct b as [|r b]; [by inversion H|].
    apply ranges_wf_mid in Hwf as (_ & [? ?] & _ & Hbb).
    apply Exists_cons in H as [H|H]; [unfold in_range in H; lia|].
    apply Exists_exists in H as (r' & Hr' & H). unfold below in Hbb.
    rewrite Forall_forall in Hbb. specialize (Hbb r' Hr'). unfold in_range in H. lia.
Qed.

Lemma received_outcome_ok pn e i now t :
  tracker_inv t -> 0 <= pn <= QuicVarIntMaximum ->
  received_outcome pn t (OnPacketReceived pn e i now t).
Proof.
  intros [Hv Hwf Hc] Hpn. unfold OnPacketReceived. rewrite Hv.
  destruct (negb true || _) eqn:Hg; [simpl in Hg; bool_lia|].
  pose proof (find_slot_spec pn (at_ranges t) 0) as Hs.
  destruct (find_slot _ _ _) as [|k].
  { simpl. split_and!; try done. intros q. split; [tauto|]. by intros [->|]. }
  destruct Hs as (a & b & Hab & -> & Ha & Hb). simpl.
  rewrite Hab in Hwf. pose proof (not_covers_slot a b pn Hwf Ha Hb) as Hno.
  destruct (zlen _ >=? _) eqn:Hfull; cbn.
  { rewrite Hab in *. split_and!; try done. bool_lia. }
  rewrite Hab, open_slot_app.
  destruct (coalesce_spec a b pn) as (H1 & H2 & H3); try done.
  assert (Ht : tracker_inv (t <| at_ranges := coalesce (length a) (a ++ MkRange pn pn :: b) |>)).
  { constructor; simpl; [done|done|]. rewrite Hab in *. unfold zlen in *. bool_prop. lia. }
  split_and!; [|done|done|].
  - destruct e; [|done]. destruct (note_ack_eliciting_frame i now
      (t <| at_ranges := coalesce (length a) (a ++ MkRange pn pn :: b) |>)) as (E1 & E2 & E3).
    destruct Ht as [? ? ?]. constructor; by rewrite ?E1, ?E2, ?E3.
  - intros q. destruct e; [|apply H3]. by rewrite (proj1 (note_ack_eliciting_frame i now _)).
Qed.

(** [OnPacketReceived] implements insertion into the set of received packet
    numbers on every branch: a call that succeeds adds exactly its packet number,
    reports a duplicate exactly when the number was already recorded (and then
    changes nothing), and keeps the array descending, disjoint, non-adjacent and
    within capacity; a call that fails leaves the tracker as it was, and fails
    only because the array is full. *)
Theorem ack_received_refines_set (pn : Z) (e i : bool) (now : Z) (t : QuicAckTracker) :
  tracker_inv t -> 0 <= pn <= QuicVarIntMaximum ->
  received_outcome pn t (OnPacketReceived pn e i now t).
Proof. apply received_outcome_ok. Qed.

Definition tracker_sample : QuicAckTracker :=
  MkTracker true 4 [MkRange 9 12; MkRange 3 7] 0 0 false false.

Lemma ack_received_refines_set_witness :
  received_outcome 8 tracker_sample (OnPacketReceived 8 true false 50 tracker_sample)
  /\ at_ranges (OnPacketReceived 8 true false 50 tracker_sample).2 = [MkRange 3 12].
Proof.
  split; [|by vm_compute].
  apply (ack_received_refines_set 8 true false 50 tracker_sample).
  - constructor; [done| |by vm_compute].
    simpl. unfold range_ok, gap, QuicVarIntMaximum. simpl.
    repeat split; simpl; try lia; repeat constructor; simpl; lia.
  - unfold QuicVarIntMaximum. lia.
Defined.

(** A run of receptions; the ghost set records the accepted numbers. *)
Record reception := MkReception { rx_pn : Z; rx_eliciting : bool; rx_immediate : bool; rx_now : Z }.

Definition receive (t : QuicAckTracker) (x : reception) : (NTSTATUS * bool) * QuicAckTracker :=
  OnPacketReceived (rx_pn x) (rx_eliciting x) (rx_immediate x) (rx_now x) t.

(** The tracker after a run, and each call's packet number, status and flag. *)
Fixpoint receive_run (t : QuicAckTracker) (xs : list reception)
    : list (Z * NTSTATUS * bool) * QuicAckTracker :=
  match xs with
  | [] => ([], t)
  | x :: xs =>
      let '(r, t') := receive t x in
      let '(log, t'') := receive_run t' xs in
      ((rx_pn x, r.1, r.2) :: log, t'')
  end.

Definition accepted (log : list (Z * NTSTATUS * bool)) (pn : Z) : Prop :=
  Exists (fun e => e.1 = (pn, STATUS_SUCCESS)) log.

Lemma receive_run_spec xs t :
  tracker_inv t -> Forall (fun x => 0 <= rx_pn x <= QuicVarIntMaximum) xs ->
  tracker_inv (receive_run t xs).2
  /\ forall q, covers (at_ranges (receive_run t xs).2) q
               <-> covers (at_ranges t) q \/ accepted (receive_run t xs).1 q.
Proof.
  revert t. induction xs as [|x xs IH]; intros t Ht Hxs; simpl.
  { split; [done|]. intros q. unfold accepted. rewrite Exists_nil. tauto. }
  apply Forall_cons in Hxs as [Hx Hxs].
  pose proof (received_outcome_ok (rx_pn x) (rx_eliciting x) (rx_immediate x) (rx_now x) t Ht Hx)
    as Ho. fold (receive t x) in Ho.
  destruct (receive t x) as [[status dup] t'].
  assert (Ht' : tracker_inv t') by (destruct status; naive_solver).
  specialize (IH t' Ht' Hxs). destruct (receive_run t' xs) as [log t'']. simpl in *.
  destruct IH as [Hi Hc]. split; [done|]. intros q. rewrite Hc. unfold accepted.
  rewrite Exists_cons. simpl.
  destruct status; try done; simpl in Ho.
  - destruct Ho as (_ & _ & _ & Ho). rewrite Ho. split; [|naive_solver]. intros [[->|?]|?]; auto.
  - destruct Ho as (-> & _). naive_solver.
Qed.

Lemma receive_run_capacity xs t : at_capacity (receive_run t xs).2 = at_capacity t.
Proof.
  revert t. induction xs as [|x xs IH]; intros t; [done|]. simpl.
  destruct (receive t x) as [r t'] eqn:E. specialize (IH t').
  destruct (receive_run t' xs). simpl in *. rewrite IH.
  unfold receive, OnPacketReceived in E. case_if_in E; [by injection E as _ <-|].
  destruct (find_slot _ _ _); [by injection E as _ <-|].
  case_if_in E; injection E as _ <-; [done|].
  destruct (rx_eliciting x); [|done].
  by rewrite (proj2 (proj2 (note_ack_eliciting_frame _ _ _))).
Qed.

(** End-to-end contract of a tracker: after [Initialize] and any sequence of
    receptions, the ranges [CopyRanges] hands to the ACK encoder denote exactly
    the set of packet numbers whose reception succeeded; they are descending,
    disjoint and non-adjacent, and no more than the capacity. *)
Theorem ack_ranges_exact (capacity : Z) (xs : list reception) (room : Z) :
  0 < capacity <= WKNET_HARD_MAX_QUIC_ACK_RANGES -> capacity <= room ->
  Forall (fun x => 0 <= rx_pn x <= QuicVarIntMaximum) xs ->
  let '(log, t) := receive_run (Initialize capacity true tracker_default).2 xs in
  exists ranges, CopyRanges room t = Ok ranges
    /\ ranges_wf ranges /\ zlen ranges <= capacity
    /\ forall q, covers ranges q <-> accepted log q.
Proof.
  intros Hcap Hroom Hxs.
  assert (Hinit : (Initialize capacity true tracker_default).2
                  = MkTracker true capacity [] 0 0 false false).
  { unfold Initialize. case_if; [|done].
    apply orb_true_iff in Heqb as [?|?]; bool_lia. }
  rewrite Hinit.
  assert (Ht0 : tracker_inv (MkTracker true capacity [] 0 0 false false)).
  { constructor; simpl; [done|done|]. rewrite zlen_nil. lia. }
  pose proof (receive_run_spec xs _ Ht0 Hxs) as H.
  pose proof (receive_run_capacity xs (MkTracker true capacity [] 0 0 false false)) as Hcapeq.
  destruct (receive_run _ xs) as [log t]. destruct H as [[Hv Hwf Hc] Hcov]. simpl in *.
  exists (at_ranges t). unfold CopyRanges. rewrite Hv.
  destruct (negb true || _) eqn:E; [simpl in E; bool_lia|].
  split_and!; [done|done|lia|]. intros q. rewrite Hcov. unfold covers. rewrite Exists_nil. tauto.
Qed.

Lemma ack_ranges_exact_witness :
  let xs := [MkReception 4 true false 10; MkReception 6 true false 11;
             MkReception 5 false false 12; MkReception 9 true false 13; MkReception 11 true false 14] in
  let '(log, t) := receive_run (Initialize 2 true tracker_default).2 xs in
  exists ranges, CopyRanges 2 t = Ok ranges
    /\ ranges_wf ranges /\ zlen ranges <= 2
    /\ forall q, covers ranges q <-> accepted log q.
Proof.
  apply (ack_ranges_exact 2).
  - unfold WKNET_HARD_MAX_QUIC_ACK_RANGES. lia.
  - lia.
  - unfold QuicVarIntMaximum. repeat constructor; simpl; lia.
Defined.

(** ** The ACK timer *)

(** The states a tracker reaches. *)
Inductive tracker_reachable : QuicAckTracker -> Prop :=
  | tr_init capacity :
      0 < capacity <= WKNET_HARD_MAX_QUIC_ACK_RANGES ->
      tracker_reachable (Initialize capacity true tracker_default).2
  | tr_received t pn e i now :
      tracker_reachable t -> is_u64 now ->
      tracker_reachable (OnPacketReceived pn e i now t).2
  | tr_ack_sent t :
      tracker_reachable t -> tracker_reachable (OnAckSent t).

Definition timer_inv (t : QuicAckTracker) : Prop :=
  0 <= at_ackElicitingSinceLastAck t <= MAXU32
  /\ is_u64 (at_firstAckElicitingTime100ns t)
  /\ (at_ackPending t = true <-> at_ackElicitingSinceLastAck t <> 0)
  /\ (at_ackElicitingSinceLastAck t >= 2 -> at_immediateAck t = true)
  /\ (at_ackPending t = false -> at_immediateAck t = false).

Lemma note_ack_eliciting_timer imm now t :
  timer_inv t -> is_u64 now -> timer_inv (note_ack_eliciting imm now t).
Proof.
  intros (Hn & Hf & Hp & Hi & Hz) Hnow. unfold timer_inv, note_ack_eliciting, is_u64, MAXU32 in *.
  case_if; simpl; case_if; simpl; bool_prop.
  all: try (rewrite u32_id in * by lia).
  all: split_and!; try lia; try done.
  all: try (intros Hge; apply orb_true_iff; right; apply Z.geb_le; lia).
  all: split; [lia|done].
Qed.

Lemma tracker_reachable_timer t : tracker_reachable t -> timer_inv t.
Proof.
  induction 1 as [capacity Hc|t pn e i now _ IH Hnow|t _ IH].
  - unfold Initialize. case_if.
    + unfold timer_inv, MAXU32, is_u64. simpl. split_and!; try lia; done.
    + unfold timer_inv, MAXU32, is_u64. simpl. split_and!; try lia; done.
  - unfold OnPacketReceived. case_if; [done|]. destruct (find_slot _ _ _); [done|].
    case_if; [done|]. simpl. destruct e; [|done]. by apply note_ack_eliciting_timer.
  - unfold timer_inv, OnAckSent, MAXU32, is_u64. simpl. split_and!; try lia; done.
Qed.

(** The ACK timer in every reachable state: an ACK is pending exactly when an
    ack-eliciting packet arrived since the last ACK, the second such packet makes
    it immediate, and the deadline is zero when nothing is pending, the arrival
    time of the first unacknowledged packet when the ACK is immediate, and
    otherwise that time plus the maximum delay, saturating at the largest
    timestamp instead of wrapping. *)
Theorem ack_timer (t : QuicAckTracker) (maxDelayMs : Z) :
  tracker_reachable t -> is_u64 maxDelayMs ->
  (at_ackPending t = true <-> at_ackElicitingSinceLastAck t <> 0)
  /\ (at_ackElicitingSinceLastAck t >= 2 -> at_immediateAck t = true)
  /\ AckDeadline100ns maxDelayMs t
     = (if at_ackPending t then
          if at_immediateAck t then at_firstAckElicitingTime100ns t
          else Z.min MAXU64 (at_firstAckElicitingTime100ns t + maxDelayMs * 10000)
        else 0).
Proof.
  intros Hr Hd. destruct (tracker_reachable_timer t Hr) as (Hn & Hf & Hp & Hi & _).
  split_and!; [done|done|]. unfold AckDeadline100ns.
  destruct (at_ackPending t); [|done]. destruct (at_immediateAck t); [done|]. cbn.
  unfold is_u64, MAXU64 in *.
  destruct (maxDelayMs >? _) eqn:E; bool_prop.
  - assert ((2 ^ 64 - 1) / 10000 < maxDelayMs) as E' by lia.
    assert ((2 ^ 64 - 1) / 10000 = 1844674407370955) as Hc by reflexivity.
    rewrite Hc in E'. u64_simpl. case_if; bool_prop; u64_simpl; lia.
  - assert ((2 ^ 64 - 1) / 10000 = 1844674407370955) as Hc by reflexivity.
    rewrite Hc in E. u64_simpl. case_if; bool_prop; u64_simpl; lia.
Qed.

Lemma ack_timer_witness :
  let t := (OnPacketReceived 7 true false 1000
              (Initialize 8 true tracker_default).2).2 in
  (at_ackPending t = true <-> at_ackElicitingSinceLastAck t <> 0)
  /\ (at_ackElicitingSinceLastAck t >= 2 -> at_immediateAck t = true)
  /\ AckDeadline100ns 25 t
     = (if at_ackPending t then
          if at_immediateAck t then at_firstAckElicitingTime100ns t
          else Z.min MAXU64 (at_firstAckElicitingTime100ns t + 25 * 10000)
        else 0).
Proof.
  apply ack_timer; [|unfold is_u64; lia].
  apply tr_received; [|unfold is_u64; lia].
  apply tr_init. unfold WKNET_HARD_MAX_QUIC_ACK_RANGES. lia.
Defined.
