(* ===== verification/QuicCongestion.v ===== *)
(** * Congestion control (src/wknetlib/quic/QuicCongestion.cpp)

    [QuicCongestion]: a NewReno-style window with a pacing deadline. *)

From S2P Require Import Prelude.

Definition MaximumDatagramSize : Z := 1200.

Record QuicCongestion := MkCongestion {
  cc_congestionWindow : Z;
  cc_slowStartThreshold : Z;
  cc_bytesInFlight : Z;
  cc_recoveryStartTime100ns : Z;
  cc_pacingDeadline100ns : Z;
}.
#[export] Instance QuicCongestion_eta : Eta QuicCongestion := fun x =>
  MkCongestion (cc_congestionWindow x) (cc_slowStartThreshold x) (cc_bytesInFlight x)
    (cc_recoveryStartTime100ns x) (cc_pacingDeadline100ns x).

Definition Reset : QuicCongestion :=
  MkCongestion (10 * MaximumDatagramSize) MAXU64 0 0 0.

(** The pacing interval of one packet, at least 1000 ticks. *)
Definition pacing_interval (bytes smoothedRtt100ns congestionWindow : Z) : Z :=
  let pacingRtt100ns := if smoothedRtt100ns =? 0 then 3330000 else smoothedRtt100ns in
  let interval100ns :=
    if congestionWindow =? 0 then pacingRtt100ns
    else (bytes *! pacingRtt100ns) / congestionWindow in
  if interval100ns <? 1000 then 1000 else interval100ns.

Definition OnPacketSent (bytes : Z) (inFlight : bool) (now100ns smoothedRtt100ns : Z)
    (c : QuicCongestion) : QuicCongestion :=
  let c := if inFlight then c <| cc_bytesInFlight := cc_bytesInFlight c +! bytes |> else c in
  let interval100ns := pacing_interval bytes smoothedRtt100ns (cc_congestionWindow c) in
  let pacingBase100ns :=
    if cc_pacingDeadline100ns c >? now100ns then cc_pacingDeadline100ns c else now100ns in
  c <| cc_pacingDeadline100ns :=
         (if pacingBase100ns >? MAXU64 -! interval100ns then MAXU64
          else pacingBase100ns +! interval100ns) |>.

(** [bytesInFlight_ = bytes > bytesInFlight_ ? 0 : bytesInFlight_ - bytes] *)
Definition leave_flight (bytes : Z) (c : QuicCongestion) : QuicCongestion :=
  c <| cc_bytesInFlight :=
         (if bytes >? cc_bytesInFlight c then 0 else cc_bytesInFlight c -! bytes) |>.

Definition OnPacketAcked (bytes sentTime : Z) (c : QuicCongestion) : QuicCongestion :=
  let c := leave_flight bytes c in
  if sentTime <=? cc_recoveryStartTime100ns c then c
  else if cc_congestionWindow c <? cc_slowStartThreshold c
  then c <| cc_congestionWindow := cc_congestionWindow c +! bytes |>
  else
    let increment := (MaximumDatagramSize *! bytes) / cc_congestionWindow c in
    let increment := if increment =? 0 then 1 else increment in
    c <| cc_congestionWindow := cc_congestionWindow c +! increment |>.

Definition OnPacketsLost (bytes now100ns : Z) (c : QuicCongestion) : QuicCongestion :=
  let c := leave_flight bytes c in
  if now100ns <=? cc_recoveryStartTime100ns c then c
  else
    let c := c <| cc_recoveryStartTime100ns := now100ns |> in
    let half := cc_congestionWindow c / 2 in
    let minimum := 2 * MaximumDatagramSize in
    let cwnd := if half <? minimum then minimum else half in
    c <| cc_congestionWindow := cwnd |> <| cc_slowStartThreshold := cwnd |>.

Definition OnPersistentCongestion (c : QuicCongestion) : QuicCongestion :=
  c <| cc_congestionWindow := 2 * MaximumDatagramSize |>
    <| cc_slowStartThreshold := 2 * MaximumDatagramSize |>.

Definition CanSend (bytes now100ns : Z) (c : QuicCongestion) : bool :=
  if (bytes =? 0) || (bytes >? MaximumDatagramSize) then false
  else if (cc_bytesInFlight c >? cc_congestionWindow c)
          || (bytes >? cc_congestionWindow c -! cc_bytesInFlight c) then false
  else now100ns >=? cc_pacingDeadline100ns c.

(** ** The controller as a state machine

    A datagram is at most [MaximumDatagramSize] bytes; [OnPacketsLost] is called
    with the total of a burst, the other operations with one packet's size. *)
Inductive cc_op :=
  | CcSent (bytes : Z) (inFlight : bool) (now rtt : Z)
  | CcAcked (bytes sentTime : Z)
  | CcLost (bytes now : Z)
  | CcPersistent.

Definition cc_step (c : QuicCongestion) (op : cc_op) : QuicCongestion :=
  match op with
  | CcSent b f now rtt => OnPacketSent b f now rtt c
  | CcAcked b t => OnPacketAcked b t c
  | CcLost b now => OnPacketsLost b now c
  | CcPersistent => OnPersistentCongestion c
  end.

Definition cc_op_ok (op : cc_op) : Prop :=
  match op with
  | CcSent b _ now rtt => 0 < b <= MaximumDatagramSize /\ is_u64 now /\ is_u64 rtt
  | CcAcked b t => 0 < b <= MaximumDatagramSize /\ is_u64 t
  | CcLost b now => is_u64 b /\ is_u64 now
  | CcPersistent => True
  end.

(** What holds after [n] operations. *)
Record cc_inv (n : Z) (c : QuicCongestion) : Prop := {
  ci_floor : 2 * MaximumDatagramSize <= cc_congestionWindow c;
  ci_ceiling : cc_congestionWindow c <= 10 * MaximumDatagramSize + MaximumDatagramSize * n;
  ci_ssthresh : 2 * MaximumDatagramSize <= cc_slowStartThreshold c <= MAXU64;
  ci_flight : 0 <= cc_bytesInFlight c <= MaximumDatagramSize * n;
  ci_recovery : is_u64 (cc_recoveryStartTime100ns c);
  ci_pacing : is_u64 (cc_pacingDeadline100ns c);
}.

Lemma leave_flight_frame b c :
  leave_flight b c = c <| cc_bytesInFlight := cc_bytesInFlight (leave_flight b c) |>.
Proof. done. Qed.

Lemma leave_flight_value b c :
  0 <= b -> 0 <= cc_bytesInFlight c < 2 ^ 64 ->
  cc_bytesInFlight (leave_flight b c) = Z.max 0 (cc_bytesInFlight c - b).
Proof. intros. unfold leave_flight. simpl. case_if; bool_prop; u64_simpl; lia. Qed.

Lemma acked_flight b t c :
  0 <= b -> 0 <= cc_bytesInFlight c < 2 ^ 64 ->
  cc_bytesInFlight (OnPacketAcked b t c) = Z.max 0 (cc_bytesInFlight c - b).
Proof. intros. rewrite <- leave_flight_value by done. unfold OnPacketAcked. by repeat case_if. Qed.
Lemma lost_flight b now c :
  0 <= b -> 0 <= cc_bytesInFlight c < 2 ^ 64 ->
  cc_bytesInFlight (OnPacketsLost b now c) = Z.max 0 (cc_bytesInFlight c - b).
Proof. intros. rewrite <- leave_flight_value by done. unfold OnPacketsLost. by repeat case_if. Qed.

Lemma pacing_range base i :
  is_u64 base -> 1000 <= i < 2 ^ 64 ->
  is_u64 (if base >? MAXU64 -! i then MAXU64 else base +! i)
  /\ base <= (if base >? MAXU64 -! i then MAXU64 else base +! i).
Proof.
  unfold is_u64, MAXU64. intros Hb Hi. rewrite (u64_id (_ - i)) by lia.
  case_if; bool_prop; u64_simpl; lia.
Qed.

Lemma div_range a c : 0 <= a < 2 ^ 64 -> 0 < c -> 0 <= a / c < 2 ^ 64.
Proof.
  intros Ha Hc. split; [apply Z.div_pos; lia|].
  apply Z.le_lt_trans with a; [|lia]. apply Z.div_le_upper_bound; nia.
Qed.

Lemma pacing_interval_range b rtt cwnd :
  is_u64 rtt -> 0 <= cwnd -> 1000 <= pacing_interval b rtt cwnd < 2 ^ 64.
Proof.
  unfold pacing_interval, is_u64. intros Hrtt Hc.
  destruct (rtt =? 0) eqn:?; destruct (cwnd =? 0) eqn:?; bool_prop;
    try pose proof (div_range (b *! 3330000) cwnd (u64_range _) ltac:(lia));
    try pose proof (div_range (b *! rtt) cwnd (u64_range _) ltac:(lia));
    case_if; bool_lia.
Qed.

Lemma cc_sent_inv n c b f now rtt :
  cc_inv n c -> 0 <= n <= 2 ^ 50 -> 0 < b <= MaximumDatagramSize -> is_u64 now -> is_u64 rtt ->
  cc_inv (n + 1) (OnPacketSent b f now rtt c).
Proof.
  intros [] Hn Hb Hnow Hrtt. unfold OnPacketSent. unfold MaximumDatagramSize, is_u64, MAXU64 in *.
  set (c' := if f then _ else _).
  assert (Hc' : cc_congestionWindow c' = cc_congestionWindow c
    /\ cc_pacingDeadline100ns c' = cc_pacingDeadline100ns c
    /\ 0 <= cc_bytesInFlight c' <= 1200 * (n + 1)
    /\ cc_slowStartThreshold c' = cc_slowStartThreshold c
    /\ cc_recoveryStartTime100ns c' = cc_recoveryStartTime100ns c).
  { unfold c'. destruct f; simpl; u64_simpl; split_and!; (done || lia). }
  destruct Hc' as (E1 & E2 & E3 & E4 & E5). rewrite E1, E2.
  pose proof (pacing_interval_range b rtt (cc_congestionWindow c) Hrtt ltac:(lia)) as Hint.
  set (base := if _ >? now then _ else now).
  assert (Hbase : is_u64 base) by (unfold base, is_u64; case_if; lia).
  destruct (pacing_range base _ Hbase Hint) as [Hp _].
  unfold is_u64, MAXU64 in Hp.
  constructor; unfold MaximumDatagramSize, MAXU64, is_u64; cbn [set_field cc_congestionWindow
    cc_slowStartThreshold cc_bytesInFlight cc_recoveryStartTime100ns cc_pacingDeadline100ns]; lia.
Qed.

Lemma cc_acked_inv n c b t :
  cc_inv n c -> 0 <= n <= 2 ^ 50 -> 0 < b <= MaximumDatagramSize ->
  cc_inv (n + 1) (OnPacketAcked b t c).
Proof.
  intros [] Hn Hb. unfold OnPacketAcked. unfold MaximumDatagramSize, is_u64, MAXU64 in *.
  pose proof (leave_flight_value b c ltac:(lia) ltac:(lia)) as Hfl.
  assert (Hdiv : 0 <= (1200 *! b) / cc_congestionWindow c <= b).
  { rewrite u64_id by lia. split; [apply Z.div_pos; lia|]. apply Z.div_le_upper_bound; nia. }
  rewrite leave_flight_frame, Hfl. simpl.
  repeat case_if; bool_prop; constructor; unfold MaximumDatagramSize, is_u64, MAXU64;
    simpl; u64_simpl; lia.
Qed.

Lemma cc_lost_inv n c b now :
  cc_inv n c -> 0 <= n <= 2 ^ 50 -> 0 <= b -> is_u64 now ->
  cc_inv (n + 1) (OnPacketsLost b now c).
Proof.
  intros [] Hn Hb Hnow. unfold OnPacketsLost. unfold MaximumDatagramSize, is_u64, MAXU64 in *.
  pose proof (leave_flight_value b c ltac:(lia) ltac:(lia)) as Hfl.
  rewrite leave_flight_frame, Hfl. simpl.
  pose proof (Z.mul_div_le (cc_congestionWindow c) 2 ltac:(lia)).
  repeat case_if; bool_prop; constructor; unfold MaximumDatagramSize, is_u64, MAXU64; simpl; lia.
Qed.

Lemma cc_step_inv n c op :
  cc_inv n c -> 0 <= n <= 2 ^ 50 -> cc_op_ok op -> cc_inv (n + 1) (cc_step c op).
Proof.
  intros Hc Hn Hop. destruct op; simpl in *.
  - destruct Hop as (? & ? & ?). by apply cc_sent_inv.
  - destruct Hop. by apply cc_acked_inv.
  - destruct Hop. apply cc_lost_inv; unfold is_u64 in *; (done || lia).
  - destruct Hc. unfold OnPersistentCongestion. unfold MaximumDatagramSize, MAXU64 in *.
    constructor; unfold MaximumDatagramSize, MAXU64; simpl; (done || lia).
Qed.

Lemma cc_run_inv ops n c :
  cc_inv n c -> 0 <= n -> n + zlen ops <= 2 ^ 50 -> Forall cc_op_ok ops ->
  cc_inv (n + zlen ops) (foldl cc_step c ops).
Proof.
  revert n c. induction ops as [|op ops IH]; intros n c Hc Hn Hlen Hops.
  { rewrite zlen_nil, Z.add_0_r. done. }
  apply Forall_cons in Hops as [Hop Hops]. rewrite zlen_cons in *.
  pose proof (zlen_nonneg ops). rewrite Z.add_assoc.
  apply IH; [by apply cc_step_inv; [|lia|]|lia|lia|done].
Qed.

(** ** Properties *)

(** Congestion-window bounds.  After any run of up to [2^50] operations the
    window is never below two datagrams (so the increment of congestion avoidance
    never divides by zero and a sender is never starved for good), never wraps
    around and grows by at most one datagram per operation, and the in-flight
    counter neither wraps nor goes negative. *)
Theorem congestion_bounds (ops : list cc_op) :
  zlen ops <= 2 ^ 50 -> Forall cc_op_ok ops -> cc_inv (zlen ops) (foldl cc_step Reset ops).
Proof.
  intros Hlen Hops. change (zlen ops) with (0 + zlen ops).
  by apply cc_run_inv.
Qed.

Lemma congestion_bounds_witness :
  cc_inv (zlen [CcSent 1200 true 100 0; CcAcked 1200 100; CcLost 900 500; CcPersistent; CcAcked 10 600])
    (foldl cc_step Reset
       [CcSent 1200 true 100 0; CcAcked 1200 100; CcLost 900 500; CcPersistent; CcAcked 10 600]).
Proof.
  apply (congestion_bounds
    [CcSent 1200 true 100 0; CcAcked 1200 100; CcLost 900 500; CcPersistent; CcAcked 10 600]).
  - by vm_compute.
  - unfold cc_op_ok, MaximumDatagramSize, is_u64. repeat constructor; lia.
Defined.

(** [CanSend] is the window check: when it admits a packet, registering it as
    in flight keeps the bytes in flight within the congestion window, and pushes
    the pacing deadline at least 1000 ticks past the send (unless the clock is at
    its end), so an immediate second send is refused. *)
Theorem can_send_within_window (n : Z) (c : QuicCongestion) (bytes now rtt : Z) :
  cc_inv n c -> 0 <= n <= 2 ^ 50 -> is_u64 bytes -> is_u64 rtt -> 0 <= now <= MAXU64 - 2 ^ 63 ->
  CanSend bytes now c = true ->
  let c' := OnPacketSent bytes true now rtt c in
  cc_bytesInFlight c' = cc_bytesInFlight c + bytes
  /\ cc_bytesInFlight c' <= cc_congestionWindow c'
  /\ now + 1000 <= cc_pacingDeadline100ns c'
  /\ forall b, CanSend b now c' = false.
Proof.
  intros Hc Hn Hb Hrtt Hnow Hs c'. unfold CanSend in Hs.
  pose proof Hc as [Hfl Hce _ Hfi _ Hpa]. unfold MaximumDatagramSize, is_u64, MAXU64 in *.
  case_if_in Hs; [discriminate|]. case_if_in Hs; [discriminate|]. bool_prop.
  rewrite u64_id in * by lia.
  assert (Hp : now + 1000 <= cc_pacingDeadline100ns c').
  { unfold c', OnPacketSent. simpl.
    pose proof (pacing_interval_range bytes rtt (cc_congestionWindow c) Hrtt ltac:(lia)) as Hint.
    assert (Hlt : cc_pacingDeadline100ns c <= now) by lia.
    replace (cc_pacingDeadline100ns c >? now) with false
      by (symmetry; rewrite Z.gtb_ltb; apply Z.ltb_ge; lia).
    unfold MAXU64. rewrite (u64_id (_ - _)) by lia. case_if; bool_prop; u64_simpl; lia. }
  split_and!; [| |done|].
  - unfold c', OnPacketSent. simpl. by u64_simpl.
  - unfold c', OnPacketSent. simpl. u64_simpl. lia.
  - intros b. unfold CanSend. repeat (case_if; [done|]).     rewrite Z.geb_leb. apply Z.leb_gt. lia.
Qed.

Lemma can_send_within_window_witness :
  CanSend 1200 100 Reset = true
  /\ let c' := OnPacketSent 1200 true 100 0 Reset in
  cc_bytesInFlight c' = cc_bytesInFlight Reset + 1200
  /\ cc_bytesInFlight c' <= cc_congestionWindow c'
  /\ 100 + 1000 <= cc_pacingDeadline100ns c'
  /\ forall b, CanSend b 100 c' = false.
Proof.
  split; [by vm_compute|].
  apply (can_send_within_window 0 Reset 1200 100 0).
  - by constructor.
  - lia.
  - unfold is_u64. lia.
  - unfold is_u64. lia.
  - unfold MAXU64. lia.
  - by vm_compute.
Defined.

#[global] Arguments leave_flight : simpl never.
#[global] Arguments OnPacketSent : simpl never.
#[global] Arguments OnPacketAcked : simpl never.
#[global] Arguments OnPacketsLost : simpl never.
