(* ===== verification/QuicRecovery.v ===== *)
(** * Loss detection (src/wknetlib/quic/QuicRecovery.cpp)

    [QuicRecovery] remembers the unacknowledged packets of the three
    packet-number spaces, turns ACK frames into congestion and RTT updates, and
    computes the loss and probe deadlines. *)

From S2P Require Import Prelude QuicVarInt QuicAckTracker QuicCongestion.

Inductive QuicPacketNumberSpace := Initial | Handshake | Application.
#[export] Instance QuicPacketNumberSpace_eq_dec : EqDecision QuicPacketNumberSpace.
Proof. solve_decision. Defined.

Record QuicSentPacket := MkSent {
  sp_Space : QuicPacketNumberSpace;
  sp_PacketNumber : Z;
  sp_SentTime100ns : Z;
  sp_Bytes : Z;
  sp_AckEliciting : bool;
  sp_InFlight : bool;
  sp_Terminal : bool;
}.
#[export] Instance QuicSentPacket_eta : Eta QuicSentPacket := fun x =>
  MkSent (sp_Space x) (sp_PacketNumber x) (sp_SentTime100ns x) (sp_Bytes x)
    (sp_AckEliciting x) (sp_InFlight x) (sp_Terminal x).

Definition WKNET_HARD_MAX_QUIC_SENT_PACKETS : Z := 4096.

(** The arrays indexed by packet-number space are functions of the space. *)
Definition per_space (A : Type) := QuicPacketNumberSpace -> A.
Definition set_space {A} (s : QuicPacketNumberSpace) (v : A) (f : per_space A) : per_space A :=
  fun s' => if decide (s = s') then v else f s'.

(** [rv_packets] is the used prefix [packets_[0 .. count_)]. *)
Record QuicRecovery := MkRecovery {
  rv_valid : bool;
  rv_capacity : Z;
  rv_packets : list QuicSentPacket;
  rv_latestRtt100ns : Z;
  rv_smoothedRtt100ns : Z;
  rv_rttVariance100ns : Z;
  rv_minimumRtt100ns : Z;
  rv_ptoCount : Z;
  rv_lostPacketCount : Z;
  rv_largestSent : per_space Z;
  rv_largestAcknowledged : per_space Z;
  rv_hasSent : per_space bool;
  rv_hasAcknowledged : per_space bool;
  rv_congestion : QuicCongestion;
}.
#[export] Instance QuicRecovery_eta : Eta QuicRecovery := fun x =>
  MkRecovery (rv_valid x) (rv_capacity x) (rv_packets x) (rv_latestRtt100ns x)
    (rv_smoothedRtt100ns x) (rv_rttVariance100ns x) (rv_minimumRtt100ns x) (rv_ptoCount x)
    (rv_lostPacketCount x) (rv_largestSent x) (rv_largestAcknowledged x) (rv_hasSent x)
    (rv_hasAcknowledged x) (rv_congestion x).

Definition recovery_default : QuicRecovery :=
  MkRecovery false 0 [] 0 0 0 0 0 0 (fun _ => 0) (fun _ => 0) (fun _ => false) (fun _ => false) Reset.

Definition Initialize (capacity : Z) (memory : bool) (r : QuicRecovery) : NTSTATUS * QuicRecovery :=
  if (capacity =? 0) || (capacity >? WKNET_HARD_MAX_QUIC_SENT_PACKETS)
  then (STATUS_INVALID_PARAMETER, r)
  else if negb memory
  then (STATUS_INSUFFICIENT_RESOURCES, r <| rv_valid := false |> <| rv_capacity := 0 |>)
  else (STATUS_SUCCESS,
        MkRecovery true capacity [] 0 0 0 0 0 0 (fun _ => 0) (fun _ => 0)
          (fun _ => false) (fun _ => false) Reset).

(** The clock reading [QuicClockNow100ns()] is the argument [now100ns]. *)
Definition OnPacketSent (space : QuicPacketNumberSpace) (pn bytes : Z) (ack : bool) (now100ns : Z)
    (r : QuicRecovery) : NTSTATUS * QuicRecovery :=
  if negb (rv_valid r) || (pn >? QuicVarIntMaximum) || (bytes =? 0) || (bytes >? MaximumDatagramSize)
  then (STATUS_INVALID_PARAMETER, r)
  else if rv_hasSent r space && (pn <=? rv_largestSent r space)
  then (STATUS_INVALID_DEVICE_STATE, r)
  else if zlen (rv_packets r) >=? rv_capacity r
  then (STATUS_INSUFFICIENT_RESOURCES, r)
  else
    (STATUS_SUCCESS,
     r <| rv_packets := rv_packets r ++ [MkSent space pn now100ns bytes ack ack false] |>
       <| rv_largestSent := set_space space pn (rv_largestSent r) |>
       <| rv_hasSent := set_space space true (rv_hasSent r) |>
       <| rv_congestion :=
            QuicCongestion.OnPacketSent bytes ack now100ns (rv_smoothedRtt100ns r) (rv_congestion r) |>).

Definition LossDelay100ns (r : QuicRecovery) : Z :=
  let d := if rv_latestRtt100ns r >? rv_smoothedRtt100ns r
           then rv_latestRtt100ns r else rv_smoothedRtt100ns r in
  let d := if d =? 0 then 3330000 else d in
  let d := (d *! 9) / 8 in
  if d <? 10000 then 10000 else d.

Definition BasePto100ns (space : QuicPacketNumberSpace) (maxAckDelayMs : Z) (r : QuicRecovery) : Z :=
  let base := if rv_smoothedRtt100ns r =? 0 then 3330000 else rv_smoothedRtt100ns r in
  let variance := 4 *! rv_rttVariance100ns r in
  let variance := if variance <? 10000 then 10000 else variance in
  let base := base +! variance in
  if decide (space = Application) then
    let ackDelay := if maxAckDelayMs >? MAXU64 / 10000 then MAXU64 else maxAckDelayMs *! 10000 in
    if ackDelay >? MAXU64 -! base then MAXU64 else base +! ackDelay
  else base.

(** The range validation loop of [OnAckRangesReceived]. *)
Fixpoint valid_ack_ranges (previous : option QuicAckRange) (ranges : list QuicAckRange) : bool :=
  match ranges with
  | [] => true
  | range :: rest =>
      if (Smallest range >? Largest range) || (Largest range >? QuicVarIntMaximum) then false
      else if match previous with Some p => Largest range >=? Smallest p | None => false end
      then false
      else valid_ack_ranges (Some range) rest
  end.

Fixpoint acknowledged_by (pn : Z) (ranges : list QuicAckRange) : bool :=
  match ranges with
  | [] => false
  | range :: rest =>
      if (pn >=? Smallest range) && (pn <=? Largest range) then true else acknowledged_by pn rest
  end.

(** The first packet loop: mark what the ranges acknowledge.  Accumulates the
    congestion controller, the packet [largestPacket] points to, and
    [newlyAckedAckEliciting]. *)
Record ack_acc := MkAckAcc {
  aa_congestion : QuicCongestion;
  aa_largestPacket : option QuicSentPacket;
  aa_newlyAcked : bool;
}.
Definition ack_one (space : QuicPacketNumberSpace) (ranges : list QuicAckRange) (largest : Z)
    (a : ack_acc) (p : QuicSentPacket) : ack_acc * QuicSentPacket :=
  if negb (bool_decide (sp_Space p = space)) || sp_Terminal p then (a, p)
  else if acknowledged_by (sp_PacketNumber p) ranges then
    let p := p <| sp_Terminal := true |> in
    let lp := if sp_PacketNumber p =? largest then Some p else aa_largestPacket a in
    if sp_InFlight p
    then (MkAckAcc (OnPacketAcked (sp_Bytes p) (sp_SentTime100ns p) (aa_congestion a)) lp
            (aa_newlyAcked a || sp_AckEliciting p), p)
    else (MkAckAcc (aa_congestion a) lp (aa_newlyAcked a), p)
  else (a, p).

(** The second packet loop: mark what the packet or time threshold loses. *)
Record loss_acc := MkLossAcc {
  la_lostBytes : Z;
  la_earliest : Z;
  la_latest : Z;
  la_newlyLost : Z;
  la_lostPacketCount : Z;
}.
Definition packet_lost (largest lossTimeThreshold : Z) (p : QuicSentPacket) : bool :=
  let packetThresholdLost := largest -! sp_PacketNumber p >=? 3 in
  let timeThresholdLost := sp_SentTime100ns p <=? lossTimeThreshold in
  packetThresholdLost || timeThresholdLost.
Definition loss_one (space : QuicPacketNumberSpace) (largest lossTimeThreshold : Z)
    (a : loss_acc) (p : QuicSentPacket) : loss_acc * QuicSentPacket :=
  if negb (bool_decide (sp_Space p = space)) || sp_Terminal p || (sp_PacketNumber p >=? largest)
  then (a, p)
  else if negb (packet_lost largest lossTimeThreshold p) then (a, p)
  else
    let sent := sp_SentTime100ns p in
    (MkLossAcc
       (if sp_InFlight p then la_lostBytes a +! sp_Bytes p else la_lostBytes a)
       (if sp_AckEliciting p && ((la_earliest a =? 0) || (sent <? la_earliest a))
        then sent else la_earliest a)
       (if sp_AckEliciting p && (sent >? la_latest a) then sent else la_latest a)
       (la_newlyLost a +! 1) (la_lostPacketCount a +! 1),
     p <| sp_Terminal := true |>).

(** A loop over [packets_[0 .. count_)] that updates each packet and an accumulator. *)
Fixpoint packet_loop {A} (f : A -> QuicSentPacket -> A * QuicSentPacket) (a : A)
    (ps : list QuicSentPacket) : A * list QuicSentPacket :=
  match ps with
  | [] => (a, [])
  | p :: ps => let '(a, p) := f a p in let '(a, ps) := packet_loop f a ps in (a, p :: ps)
  end.

(** [writeIndex]/[readIndex] compaction: the packets that are not terminal, in order. *)
Definition CompactTerminalPackets (r : QuicRecovery) : QuicRecovery :=
  r <| rv_packets := List.filter (fun p => negb (sp_Terminal p)) (rv_packets r) |>.

Definition update_rtt (space : QuicPacketNumberSpace) (now ackDelay : Z) (p : QuicSentPacket)
    (r : QuicRecovery) : QuicRecovery :=
  let latest := now -! sp_SentTime100ns p in
  let minimum := if (rv_minimumRtt100ns r =? 0) || (latest <? rv_minimumRtt100ns r)
                 then latest else rv_minimumRtt100ns r in
  let adjusted := if bool_decide (space = Application) && (latest >? minimum +! ackDelay)
                  then latest -! ackDelay else latest in
  let r := r <| rv_latestRtt100ns := latest |> <| rv_minimumRtt100ns := minimum |> in
  let srtt := rv_smoothedRtt100ns r in
  if srtt =? 0
  then r <| rv_smoothedRtt100ns := adjusted |> <| rv_rttVariance100ns := adjusted / 2 |>
  else
    let diff := if srtt >? adjusted then srtt -! adjusted else adjusted -! srtt in
    r <| rv_rttVariance100ns := ((3 *! rv_rttVariance100ns r) +! diff) / 4 |>
      <| rv_smoothedRtt100ns := ((7 *! srtt) +! adjusted) / 8 |>.

(** What a burst of losses does to the congestion controller. *)
Definition congestion_after_loss (space : QuicPacketNumberSpace) (now : Z) (la : loss_acc)
    (r : QuicRecovery) (cc : QuicCongestion) : QuicCongestion :=
  let cc := if negb (la_lostBytes la =? 0) then OnPacketsLost (la_lostBytes la) now cc else cc in
  if negb (la_newlyLost la =? 0) then
    let persistent := BasePto100ns space 0 r *! 3 in
    if negb (la_earliest la =? 0) && (la_latest la -! la_earliest la >=? persistent)
    then OnPersistentCongestion cc else cc
  else cc.

(** The bookkeeping of the largest number acknowledged. *)
Definition note_largest_acknowledged (space : QuicPacketNumberSpace) (largest : Z)
    (r : QuicRecovery) : QuicRecovery :=
  if negb (rv_hasAcknowledged r space) || (largest >? rv_largestAcknowledged r space)
  then r <| rv_largestAcknowledged := set_space space largest (rv_largestAcknowledged r) |>
         <| rv_hasAcknowledged := set_space space true (rv_hasAcknowledged r) |>
  else r.

Definition record_losses (ps : list QuicSentPacket) (la : loss_acc) (cc : QuicCongestion)
    (r : QuicRecovery) : QuicRecovery :=
  r <| rv_packets := ps |> <| rv_lostPacketCount := la_lostPacketCount la |> <| rv_congestion := cc |>.

Definition reset_pto (newlyAckedAckEliciting : bool) (r : QuicRecovery) : QuicRecovery :=
  if newlyAckedAckEliciting then r <| rv_ptoCount := 0 |> else r.

(** The part of [OnAckRangesReceived] after its validation. *)
Definition process_ack (space : QuicPacketNumberSpace) (ranges : list QuicAckRange) (largest : Z)
    (ackDelay now : Z) (r : QuicRecovery) : QuicRecovery :=
  let '(aa, ps) := packet_loop (ack_one space ranges largest)
                     (MkAckAcc (rv_congestion r) None false) (rv_packets r) in
  let r := note_largest_acknowledged space largest r in
  let lossDelay := LossDelay100ns r in
  let threshold := if now >? lossDelay then now -! lossDelay else 0 in
  let '(la, ps) := packet_loop (loss_one space largest threshold)
                     (MkLossAcc 0 0 0 0 (rv_lostPacketCount r)) ps in
  let r := record_losses ps la (congestion_after_loss space now la r (aa_congestion aa)) r in
  let r := match aa_largestPacket aa with
           | Some p => update_rtt space now ackDelay p r
           | None => r
           end in
  CompactTerminalPackets (reset_pto (aa_newlyAcked aa) r).

Definition OnAckRangesReceived (space : QuicPacketNumberSpace) (ranges : list QuicAckRange)
    (ackDelay now : Z) (r : QuicRecovery) : NTSTATUS * QuicRecovery :=
  if negb (rv_valid r) then (STATUS_INVALID_DEVICE_STATE, r)
  else if (zlen ranges =? 0) || (zlen ranges >? WKNET_HARD_MAX_QUIC_ACK_RANGES)
  then (STATUS_INVALID_PARAMETER, r)
  else if negb (valid_ack_ranges None ranges) then (STATUS_INVALID_NETWORK_RESPONSE, r)
  else
    match ranges with
    | [] => (STATUS_INVALID_PARAMETER, r)
    | first :: _ =>
        let largest := Largest first in
        if negb (rv_hasSent r space) || (largest >? rv_largestSent r space)
        then (STATUS_INVALID_NETWORK_RESPONSE, r)
        else (STATUS_SUCCESS, process_ack space ranges largest ackDelay now r)
    end.

Definition OnAckReceived (space : QuicPacketNumberSpace) (largest ackDelay now : Z)
    (r : QuicRecovery) : NTSTATUS * QuicRecovery :=
  OnAckRangesReceived space [MkRange largest largest] ackDelay now r.

Definition LossDeadline100ns (space : QuicPacketNumberSpace) (r : QuicRecovery) : Z :=
  if negb (rv_hasAcknowledged r space) then 0
  else
    let lossDelay := LossDelay100ns r in
    foldl (fun deadline p =>
      if negb (bool_decide (sp_Space p = space)) || sp_Terminal p
         || (sp_PacketNumber p >=? rv_largestAcknowledged r space)
      then deadline
      else
        let candidate := if sp_SentTime100ns p >? MAXU64 -! lossDelay then MAXU64
                         else sp_SentTime100ns p +! lossDelay in
        if (deadline =? 0) || (candidate <? deadline) then candidate else deadline)
      0 (rv_packets r).

(** [duration <<= ptoCount_], saturating. *)
Definition backoff (duration : Z) (r : QuicRecovery) : Z :=
  if (rv_ptoCount r >=? 31) || (duration >? Z.shiftr MAXU64 (rv_ptoCount r)) then MAXU64
  else u64 (Z.shiftl duration (rv_ptoCount r)).

Definition PtoDeadline100ns (space : QuicPacketNumberSpace) (maxAckDelayMs : Z) (r : QuicRecovery) : Z :=
  let last := foldl (fun last p =>
      if bool_decide (sp_Space p = space) && negb (sp_Terminal p) && sp_AckEliciting p
         && (sp_SentTime100ns p >? last)
      then sp_SentTime100ns p else last) 0 (rv_packets r) in
  if last =? 0 then 0
  else
    let duration := backoff (BasePto100ns space maxAckDelayMs r) r in
    if duration >? MAXU64 -! last then MAXU64 else last +! duration.

Definition PtoPeriod100ns (space : QuicPacketNumberSpace) (maxAckDelayMs : Z) (r : QuicRecovery) : Z :=
  backoff (BasePto100ns space maxAckDelayMs r) r.

(** The loss-timer loop: accumulates [lostBytes] and [newlyLost]. *)
Definition timer_one (space : QuicPacketNumberSpace) (now lossDelay : Z) (a : Z * Z)
    (p : QuicSentPacket) : (Z * Z) * QuicSentPacket :=
  if sp_Terminal p || negb (bool_decide (sp_Space p = space)) || (sp_SentTime100ns p >? now)
     || (now -! sp_SentTime100ns p <? lossDelay)
  then (a, p)
  else ((if sp_InFlight p then a.1 +! sp_Bytes p else a.1, a.2 +! 1), p <| sp_Terminal := true |>).

Definition OnLossTimerExpired (space : QuicPacketNumberSpace) (now : Z) (r : QuicRecovery)
    : NTSTATUS * QuicRecovery :=
  let deadline := LossDeadline100ns space r in
  if (deadline =? 0) || (deadline >? now) then (STATUS_NOT_FOUND, r)
  else
    let lossDelay := LossDelay100ns r in
    let '((lostBytes, newlyLost), ps) := packet_loop (timer_one space now lossDelay) (0, 0) (rv_packets r) in
    let r := r <| rv_packets := ps |> in
    if newlyLost =? 0 then (STATUS_NOT_FOUND, r)
    else
      let r := r <| rv_lostPacketCount := rv_lostPacketCount r +! newlyLost |> in
      let r := if negb (lostBytes =? 0)
               then r <| rv_congestion := OnPacketsLost lostBytes now (rv_congestion r) |> else r in
      (STATUS_SUCCESS, CompactTerminalPackets r).

Definition OnPtoFired (r : QuicRecovery) : QuicRecovery :=
  if rv_ptoCount r <? 31 then r <| rv_ptoCount := rv_ptoCount r + 1 |> else r.

(** ** Loops *)

Section loops.
  Context {A : Type} (f : A -> QuicSentPacket -> A * QuicSentPacket).

  (** A loop whose packet update ignores the accumulator is a [map]. *)
Lemma packet_loop_map (g : QuicSentPacket -> QuicSentPacket) a ps :
    (forall a p, (f a p).2 = g p) -> (packet_loop f a ps).2 = map g ps.
  Proof.
    intros Hg. revert a. induction ps as [|p ps IH]; intros a; [done|]. simpl.
    specialize (Hg a p). destruct (f a p) as [a' p']. specialize (IH a').
    destruct (packet_loop f a' ps). simpl in *. by subst.
  Qed.
End loops.

Definition in_space (space : QuicPacketNumberSpace) (p : QuicSentPacket) : bool :=
  bool_decide (sp_Space p = space).

Definition mark (b : bool) (p : QuicSentPacket) : QuicSentPacket :=
  if b then p <| sp_Terminal := true |> else p.

(** Which packets each loop makes terminal. *)
Definition acked_here space ranges (p : QuicSentPacket) : bool :=
  in_space space p && negb (sp_Terminal p) && acknowledged_by (sp_PacketNumber p) ranges.
Definition lost_here space largest threshold (p : QuicSentPacket) : bool :=
  in_space space p && negb (sp_Terminal p) && (sp_PacketNumber p <? largest)
  && packet_lost largest threshold p.
Definition expired_here space now lossDelay (p : QuicSentPacket) : bool :=
  negb (sp_Terminal p) && in_space space p && (sp_SentTime100ns p <=? now)
  && negb (now -! sp_SentTime100ns p <? lossDelay).

Lemma ack_one_marks space ranges largest a p :
  (ack_one space ranges largest a p).2 = mark (acked_here space ranges p) p.
Proof.
  unfold ack_one, acked_here, mark, in_space.
  destruct (bool_decide _), (sp_Terminal p), (acknowledged_by _ _); simpl; try done.
  by case_if.
Qed.
Lemma loss_one_marks space largest threshold a p :
  (loss_one space largest threshold a p).2 = mark (lost_here space largest threshold p) p.
Proof.
  unfold loss_one, lost_here, mark, in_space. rewrite Z.geb_leb, Z.leb_antisym.
  by destruct (bool_decide _), (sp_Terminal p), (_ <? _), (packet_lost _ _ _).
Qed.
Lemma timer_one_marks space now lossDelay a p :
  (timer_one space now lossDelay a p).2 = mark (expired_here space now lossDelay p) p.
Proof.
  unfold timer_one, expired_here, mark, in_space. rewrite Z.gtb_ltb, (Z.leb_antisym now).
  by destruct (bool_decide _), (sp_Terminal p), (now <? _), (_ <? lossDelay).
Qed.

(** The bytes of the packets still in flight. *)
Definition flight_one (p : QuicSentPacket) : Z :=
  if negb (sp_Terminal p) && sp_InFlight p then sp_Bytes p else 0.
Fixpoint flight (ps : list QuicSentPacket) : Z :=
  match ps with [] => 0 | p :: ps => flight_one p + flight ps end.

Definition packet_size_ok (p : QuicSentPacket) : Prop := 0 < sp_Bytes p <= MaximumDatagramSize.

Lemma flight_one_bound p : packet_size_ok p -> 0 <= flight_one p <= MaximumDatagramSize.
Proof. unfold packet_size_ok, flight_one. case_if; lia. Qed.
Lemma flight_bound ps :
  Forall packet_size_ok ps -> 0 <= flight ps <= MaximumDatagramSize * zlen ps.
Proof.
  induction 1 as [|p ps Hp _ IH]; [done|]. rewrite zlen_cons. simpl.
  pose proof (flight_one_bound p Hp). lia.
Qed.
Lemma flight_app ps qs : flight (ps ++ qs) = flight ps + flight qs.
Proof. induction ps as [|p ps IH]; simpl; [done|]. rewrite IH. lia. Qed.
Lemma flight_filter ps :
  flight (List.filter (fun p => negb (sp_Terminal p)) ps) = flight ps.
Proof.
  induction ps as [|p ps IH]; [done|]. simpl.
  destruct (negb (sp_Terminal p)) eqn:E; simpl; [lia|]. unfold flight_one. rewrite E. simpl. lia.
Qed.
Lemma flight_mark b p : flight_one (mark b p) = if b then 0 else flight_one p.
Proof. by destruct b. Qed.
Lemma flight_marks b ps :
  Forall packet_size_ok ps -> 0 <= flight (map (fun p => mark (b p) p) ps) <= flight ps.
Proof.
  induction 1 as [|p ps Hp _ IH]; [done|]. simpl. rewrite flight_mark.
  pose proof (flight_one_bound p Hp). case_if; lia.
Qed.
Lemma mark_size b p : packet_size_ok (mark b p) <-> packet_size_ok p.
Proof. by destruct b. Qed.

Lemma ack_one_flight space ranges largest a p :
  packet_size_ok p -> flight_one p <= cc_bytesInFlight (aa_congestion a) < 2 ^ 64 ->
  cc_bytesInFlight (aa_congestion (ack_one space ranges largest a p).1)
  = cc_bytesInFlight (aa_congestion a) - flight_one p
    + flight_one (ack_one space ranges largest a p).2.
Proof.
  intros Hp Hb. rewrite ack_one_marks, flight_mark.
  unfold ack_one, acked_here, in_space, flight_one in *. unfold packet_size_ok in Hp.
  destruct (bool_decide _), (sp_Terminal p), (acknowledged_by _ _); simpl in *; try lia.
  destruct (sp_InFlight p); simpl in *; [|lia].
  rewrite acked_flight by lia. lia.
Qed.

Lemma ack_loop_flight space ranges largest ps a :
  Forall packet_size_ok ps -> flight ps <= cc_bytesInFlight (aa_congestion a) < 2 ^ 64 ->
  let '(a', ps') := packet_loop (ack_one space ranges largest) a ps in
  cc_bytesInFlight (aa_congestion a') = cc_bytesInFlight (aa_congestion a) - flight ps + flight ps'.
Proof.
  revert a. induction ps as [|p ps IH]; intros a Hps Hb; simpl in *; [lia|].
  apply Forall_cons in Hps as [Hp Hps].
  pose proof (flight_bound ps Hps). pose proof (flight_one_bound p Hp).
  pose proof (ack_one_flight space ranges largest a p Hp ltac:(lia)) as Hone.
  pose proof (ack_one_marks space ranges largest a p) as Hm.
  destruct (ack_one space ranges largest a p) as [a' p']. simpl in *. subst p'.
  rewrite flight_mark in Hone.
  specialize (IH a' Hps). destruct (packet_loop _ a' ps) as [a'' ps'].
  rewrite IH; simpl; rewrite ?flight_mark; destruct (acked_here space ranges p); lia.
Qed.

Lemma marks_size b ps :
  Forall packet_size_ok ps -> Forall packet_size_ok (map (fun p => mark (b p) p) ps).
Proof. intros H. apply Forall_map. eapply Forall_impl; [exact H|]. intros p. simpl. by rewrite mark_size. Qed.

(** The loss loops accumulate exactly the bytes they take out of flight. *)
Lemma lost_loop_flight {A} (f : A -> QuicSentPacket -> A * QuicSentPacket) (bytes : A -> Z)
    (lost : QuicSentPacket -> bool) ps a :
  (forall a p, (f a p).2 = mark (lost p) p) ->
  (forall p, lost p = true -> sp_Terminal p = false) ->
  (forall a p, bytes (f a p).1
     = if lost p && sp_InFlight p then bytes a +! sp_Bytes p else bytes a) ->
  Forall packet_size_ok ps -> 0 <= bytes a -> bytes a + flight ps < 2 ^ 64 ->
  let '(a', ps') := packet_loop f a ps in
  bytes a' = bytes a + (flight ps - flight ps').
Proof.
  intros Hm Ht Hb. revert a. induction ps as [|p ps IH]; intros a Hps H0 Hfit; simpl in *; [lia|].
  apply Forall_cons in Hps as [Hp Hps].
  pose proof (flight_bound ps Hps). pose proof (flight_one_bound p Hp).
  specialize (Hm a p). specialize (Hb a p). specialize (Ht p).
  destruct (f a p) as [a' p']. simpl in *. subst p'. unfold packet_size_ok in Hp.
  assert (Ha' : bytes a' = bytes a + (if lost p then flight_one p else 0)).
  { rewrite Hb. unfold flight_one in *. destruct (lost p); [|simpl; lia].
    rewrite Ht in * by done. destruct (sp_InFlight p); simpl in *; u64_simpl; lia. }
  specialize (IH a' Hps). destruct (packet_loop f a' ps) as [a'' ps'].
  simpl. rewrite flight_mark. rewrite IH; destruct (lost p); lia.
Qed.

Lemma loss_loop_flight space largest threshold ps a :
  Forall packet_size_ok ps -> 0 <= la_lostBytes a -> la_lostBytes a + flight ps < 2 ^ 64 ->
  let '(a', ps') := packet_loop (loss_one space largest threshold) a ps in
  la_lostBytes a' = la_lostBytes a + (flight ps - flight ps').
Proof.
  apply (lost_loop_flight _ la_lostBytes (lost_here space largest threshold)).
  - apply loss_one_marks.
  - intros p H. unfold lost_here in H. by destruct (sp_Terminal p), (in_space space p).
  - intros a' p. unfold loss_one, lost_here, in_space. rewrite Z.geb_leb, Z.leb_antisym.
    by destruct (bool_decide _), (sp_Terminal p), (_ <? largest), (packet_lost _ _ _), (sp_InFlight p).
Qed.

Lemma timer_loop_flight space now lossDelay ps a :
  Forall packet_size_ok ps -> 0 <= a.1 -> a.1 + flight ps < 2 ^ 64 ->
  let '(a', ps') := packet_loop (timer_one space now lossDelay) a ps in
  a'.1 = a.1 + (flight ps - flight ps').
Proof.
  apply (lost_loop_flight _ fst (expired_here space now lossDelay)).
  - apply timer_one_marks.
  - intros p H. unfold expired_here in H. by destruct (sp_Terminal p).
  - intros a' p. unfold timer_one, expired_here, in_space. rewrite Z.gtb_ltb, (Z.leb_antisym now).
    by destruct (bool_decide _), (sp_Terminal p), (now <? _), (_ <? lossDelay), (sp_InFlight p).
Qed.

(** ** Invariant *)

Definition rec_packet_ok (r : QuicRecovery) (p : QuicSentPacket) : Prop :=
  sp_Terminal p = false /\ packet_size_ok p
  /\ rv_hasSent r (sp_Space p) = true /\ sp_PacketNumber p <= rv_largestSent r (sp_Space p).

(** Packet numbers of one space increase along the array. *)
Fixpoint pns_sorted (ps : list QuicSentPacket) : Prop :=
  match ps with
  | [] => True
  | p :: ps =>
      Forall (fun q => sp_Space q = sp_Space p -> sp_PacketNumber p < sp_PacketNumber q) ps
      /\ pns_sorted ps
  end.

Record rec_inv (r : QuicRecovery) : Prop := {
  ri_valid : rv_valid r = true;
  ri_count : zlen (rv_packets r) <= rv_capacity r <= WKNET_HARD_MAX_QUIC_SENT_PACKETS;
  ri_packets : Forall (rec_packet_ok r) (rv_packets r);
  ri_order : pns_sorted (rv_packets r);
  ri_flight : cc_bytesInFlight (rv_congestion r) = flight (rv_packets r);
}.

Lemma rec_inv_sizes r : rec_inv r -> Forall packet_size_ok (rv_packets r).
Proof. intros []. eapply Forall_impl; [done|]. by intros p (_ & ? & _). Qed.

Lemma rec_inv_flight_bound r :
  rec_inv r -> 0 <= flight (rv_packets r) <= MaximumDatagramSize * WKNET_HARD_MAX_QUIC_SENT_PACKETS.
Proof.
  intros H. pose proof (flight_bound _ (rec_inv_sizes r H)). destruct H.
  unfold MaximumDatagramSize, WKNET_HARD_MAX_QUIC_SENT_PACKETS in *. lia.
Qed.

Lemma pns_sorted_snoc ps q :
  pns_sorted ps ->
  Forall (fun p => sp_Space p = sp_Space q -> sp_PacketNumber p < sp_PacketNumber q) ps ->
  pns_sorted (ps ++ [q]).
Proof.
  induction ps as [|p ps IH]; intros Hs Hq; simpl in *; [by split|].
  destruct Hs as [Hp Hs]. apply Forall_cons in Hq as [Hpq Hq]. split; [|by apply IH].
  apply Forall_app. split; [done|]. constructor; [|constructor]. intros E. by apply Hpq.
Qed.

Lemma pns_sorted_filter f ps : pns_sorted ps -> pns_sorted (List.filter f ps).
Proof.
  induction ps as [|p ps IH]; simpl; [done|]. intros [Hp Hs].
  destruct (f p); simpl; [|by apply IH]. split; [|by apply IH].
  rewrite List.Forall_forall in *. intros q Hq. apply filter_In in Hq as [Hq _]. by apply Hp.
Qed.
Lemma Forall_List_filter {A} (P : A -> Prop) f l : Forall P l -> Forall P (List.filter f l).
Proof. rewrite !List.Forall_forall. intros H x Hx. apply filter_In in Hx as [Hx _]. auto. Qed.
Lemma zlen_List_filter {A} f (l : list A) : zlen (List.filter f l) <= zlen l.
Proof. unfold zlen. pose proof (List.filter_length_le f l). lia. Qed.

(** Dropping the packets two marking passes made terminal. *)
Lemma filter_marks b1 b2 ps :
  Forall (fun p => sp_Terminal p = false) ps ->
  (forall p, b2 (mark (b1 p) p) = b2 p && negb (b1 p)) ->
  List.filter (fun p => negb (sp_Terminal p))
    (map (fun p => mark (b2 p) p) (map (fun p => mark (b1 p) p) ps))
  = List.filter (fun p => negb (b1 p || b2 p)) ps.
Proof.
  intros Ht Hb. induction Ht as [|p ps Hp _ IH]; [done|]. simpl. rewrite Hb, IH.
  destruct (b1 p), (b2 p); simpl; by rewrite ?Hp.
Qed.

(** ** Acknowledgements *)

(** What stays in the array when an ACK is processed at time [now]. *)
Definition ack_threshold (r : QuicRecovery) (now : Z) : Z :=
  if now >? LossDelay100ns r then now -! LossDelay100ns r else 0.
Definition ack_keeps space ranges largest threshold (p : QuicSentPacket) : bool :=
  negb (acked_here space ranges p || lost_here space largest threshold p).

Lemma lost_here_mark space largest threshold b p :
  lost_here space largest threshold (mark b p) = lost_here space largest threshold p && negb b.
Proof. destruct b; simpl; [|by rewrite andb_true_r]. by rewrite andb_false_r; unfold lost_here;
  simpl; rewrite andb_false_r. Qed.

(** [r'] differs from [r] only in RTT, timer and counter fields. *)
Record same_core (r r' : QuicRecovery) : Prop := {
  sc_valid : rv_valid r' = rv_valid r;
  sc_capacity : rv_capacity r' = rv_capacity r;
  sc_largestSent : rv_largestSent r' = rv_largestSent r;
  sc_hasSent : rv_hasSent r' = rv_hasSent r;
  sc_packets : rv_packets r' = rv_packets r;
  sc_congestion : rv_congestion r' = rv_congestion r;
}.
#[local] Instance same_core_preorder : PreOrder same_core.
Proof.
  split; [by constructor|]. intros r1 r2 r3 [] []. constructor; by etransitivity.
Qed.

Lemma update_rtt_core space now d p r : same_core r (update_rtt space now d p r).
Proof.
  unfold update_rtt. cbv zeta.
  match goal with |- context [if ?b then _ <| rv_smoothedRtt100ns := _ |> <| _ := _ |> else _] =>
    destruct b end; constructor; reflexivity.
Qed.
Lemma reset_pto_core b r : same_core r (reset_pto b r).
Proof. destruct b; constructor; reflexivity. Qed.
Lemma note_largest_core space largest r :
  same_core r (note_largest_acknowledged space largest r)
  /\ LossDelay100ns (note_largest_acknowledged space largest r) = LossDelay100ns r
  /\ rv_lostPacketCount (note_largest_acknowledged space largest r) = rv_lostPacketCount r.
Proof. unfold note_largest_acknowledged. case_if; split_and!; by try constructor. Qed.

Lemma congestion_after_loss_flight space now la r cc :
  0 <= la_lostBytes la <= cc_bytesInFlight cc -> cc_bytesInFlight cc < 2 ^ 64 ->
  cc_bytesInFlight (congestion_after_loss space now la r cc)
  = cc_bytesInFlight cc - la_lostBytes la.
Proof.
  intros H1 H2. unfold congestion_after_loss.
  pose proof (lost_flight (la_lostBytes la) now cc ltac:(lia) ltac:(lia)).
  destruct (la_lostBytes la =? 0) eqn:?; simpl; repeat case_if; simpl; bool_prop; lia.
Qed.

(** Both loops of [process_ack] run on the packets of [r]: their results. *)
Definition ack_result space ranges largest r :=
  packet_loop (ack_one space ranges largest) (MkAckAcc (rv_congestion r) None false) (rv_packets r).
Definition loss_result space largest now r ps :=
  packet_loop (loss_one space largest (ack_threshold r now))
    (MkLossAcc 0 0 0 0 (rv_lostPacketCount r)) ps.

(** The fields of the result that the theorems need. *)
Lemma process_ack_fields space ranges largest d now r :
  let r' := process_ack space ranges largest d now r in
  let '(aa, ps1) := ack_result space ranges largest r in
  let '(la, ps2) := loss_result space largest now r ps1 in
  rv_valid r' = rv_valid r /\ rv_capacity r' = rv_capacity r
  /\ rv_largestSent r' = rv_largestSent r /\ rv_hasSent r' = rv_hasSent r
  /\ rv_packets r' = List.filter (fun p => negb (sp_Terminal p)) ps2
  /\ rv_congestion r' = congestion_after_loss space now la
       (note_largest_acknowledged space largest r) (aa_congestion aa).
Proof.
  intros r'. unfold r', process_ack, ack_result, loss_result, ack_threshold.
  destruct (packet_loop (ack_one _ _ _) _ _) as [aa ps1].
  destruct (note_largest_core space largest r) as (C1 & E5 & E6). rewrite E5, E6.
  destruct (packet_loop (loss_one _ _ _) _ _) as [la ps2].
  set (r1 := note_largest_acknowledged space largest r) in *. destruct C1 as [E1 E2 E3 E4 _ _].
  set (r2 := record_losses _ _ _ r1).
  assert (C : same_core r2 (reset_pto (aa_newlyAcked aa)
    match aa_largestPacket aa with Some p => update_rtt space now d p r2 | None => r2 end)).
  { etransitivity; [|apply reset_pto_core].
    destruct (aa_largestPacket aa); [apply update_rtt_core|reflexivity]. }
  destruct C as [F1 F2 F3 F4 F5 F6].
  unfold CompactTerminalPackets. cbn [set_field rv_valid rv_capacity rv_largestSent rv_hasSent
    rv_packets rv_congestion].
  rewrite F1, F2, F3, F4, F5, F6. unfold r2, record_losses. simpl. by rewrite E1, E2, E3, E4.
Qed.

Lemma ack_result_marks space ranges largest r :
  (ack_result space ranges largest r).2
  = map (fun p => mark (acked_here space ranges p) p) (rv_packets r).
Proof. apply packet_loop_map. apply ack_one_marks. Qed.
Lemma loss_result_marks space largest now r ps :
  (loss_result space largest now r ps).2
  = map (fun p => mark (lost_here space largest (ack_threshold r now) p) p) ps.
Proof. apply packet_loop_map. apply loss_one_marks. Qed.

Lemma process_ack_packets space ranges largest d now r :
  rec_inv r ->
  rv_packets (process_ack space ranges largest d now r)
  = List.filter (ack_keeps space ranges largest (ack_threshold r now)) (rv_packets r).
Proof.
  intros [_ _ Hp _ _]. pose proof (process_ack_fields space ranges largest d now r) as H.
  pose proof (ack_result_marks space ranges largest r) as H1.
  destruct (ack_result _ _ _ _) as [aa ps1]. simpl in H1. subst ps1.
  pose proof (loss_result_marks space largest now r
    (map (fun p => mark (acked_here space ranges p) p) (rv_packets r))) as H2.
  destruct (loss_result _ _ _ _ _) as [la ps2]. simpl in H2. subst ps2.
  destruct H as (_ & _ & _ & _ & -> & _). apply filter_marks.
  - eapply Forall_impl; [exact Hp|]. by intros p (? & _).
  - intros p. apply lost_here_mark.
Qed.

Lemma process_ack_flight space ranges largest d now r :
  rec_inv r ->
  cc_bytesInFlight (rv_congestion (process_ack space ranges largest d now r))
  = flight (rv_packets (process_ack space ranges largest d now r)).
Proof.
  intros Hr. pose proof (rec_inv_sizes r Hr) as Hsz. pose proof (rec_inv_flight_bound r Hr) as Hfb.
  destruct Hr as [_ _ _ _ Hf]. unfold MaximumDatagramSize, WKNET_HARD_MAX_QUIC_SENT_PACKETS in *.
  pose proof (process_ack_fields space ranges largest d now r) as H.
  pose proof (ack_result_marks space ranges largest r) as M1.
  pose proof (ack_loop_flight space ranges largest (rv_packets r)
    (MkAckAcc (rv_congestion r) None false) Hsz) as H1. cbn [aa_congestion] in H1.
  rewrite Hf in H1. specialize (H1 ltac:(lia)). fold (ack_result space ranges largest r) in H1.
  destruct (ack_result _ _ _ _) as [aa ps1]. simpl in M1.
  pose proof (marks_size (acked_here space ranges) _ Hsz) as Hsz1.
  pose proof (flight_marks (acked_here space ranges) _ Hsz) as Hb1. rewrite <- M1 in *.
  pose proof (loss_result_marks space largest now r ps1) as M2.
  pose proof (loss_loop_flight space largest (ack_threshold r now) ps1
    (MkLossAcc 0 0 0 0 (rv_lostPacketCount r)) Hsz1 ltac:(simpl; lia) ltac:(simpl; lia)) as H2.
  fold (loss_result space largest now r ps1) in H2. cbn [la_lostBytes] in H2.
  pose proof (flight_marks (lost_here space largest (ack_threshold r now)) _ Hsz1) as Hb2.
  destruct (loss_result _ _ _ _ _) as [la ps2]. simpl in M2. rewrite <- M2 in *.
  destruct H as (_ & _ & _ & _ & -> & ->).
  rewrite flight_filter, congestion_after_loss_flight by lia. lia.
Qed.

Lemma rec_inv_process_ack space ranges largest d now r :
  rec_inv r -> rec_inv (process_ack space ranges largest d now r).
Proof.
  intros Hr. pose proof (process_ack_packets space ranges largest d now r Hr) as Hp.
  pose proof (process_ack_flight space ranges largest d now r Hr) as Hf.
  pose proof (process_ack_fields space ranges largest d now r) as H.
  destruct (ack_result _ _ _ _) as [aa ps1]. destruct (loss_result _ _ _ _ _) as [la ps2].
  destruct H as (H1 & H2 & H3 & H4 & _ & _). destruct Hr as [Hv Hc Hk Ho _].
  constructor; rewrite ?H1, ?H2, ?Hp in *; try done.
  - pose proof (zlen_List_filter (ack_keeps space ranges largest (ack_threshold r now)) (rv_packets r)).
    lia.
  - apply Forall_List_filter. eapply Forall_impl; [exact Hk|].
    intros p (? & ? & ? & ?). unfold rec_packet_ok. by rewrite H3, H4.
  - by apply pns_sorted_filter.
Qed.

(** ** Sending *)

Lemma set_space_eq {A} s (v : A) f : set_space s v f s = v.
Proof. unfold set_space. by rewrite decide_True. Qed.
Lemma set_space_ne {A} s s' (v : A) f : s <> s' -> set_space s v f s' = f s'.
Proof. intros. unfold set_space. by rewrite decide_False. Qed.

Lemma cc_sent_flight b (ack : bool) now rtt c :
  0 <= b <= MaximumDatagramSize -> 0 <= cc_bytesInFlight c < 2 ^ 63 ->
  cc_bytesInFlight (QuicCongestion.OnPacketSent b ack now rtt c)
  = cc_bytesInFlight c + (if ack then b else 0).
Proof.
  intros. unfold MaximumDatagramSize in *. unfold QuicCongestion.OnPacketSent.
  destruct ack; simpl; u64_simpl; lia.
Qed.

Lemma rec_inv_sent space pn bytes ack now r :
  rec_inv r -> 0 <= bytes -> rec_inv (OnPacketSent space pn bytes ack now r).2.
Proof.
  intros Hr Hb. unfold OnPacketSent. repeat (case_if; [done|]). bool_prop.
  pose proof (rec_inv_flight_bound r Hr) as Hfb. destruct Hr as [Hv Hc Hk Ho Hf].
  unfold WKNET_HARD_MAX_QUIC_SENT_PACKETS in *.
  assert (Hlt : Forall (fun p => sp_Space p = space -> sp_PacketNumber p < pn) (rv_packets r)).
  { eapply Forall_impl; [exact Hk|]. intros p (_ & _ & Hs & Hl) E. rewrite E in *.
    match goal with H : _ && _ = false |- _ => rewrite Hs in H; simpl in H; bool_lia end. }
  constructor; cbn [set_field rv_valid rv_capacity rv_packets rv_largestSent rv_hasSent rv_congestion snd].
  - done.
  - rewrite zlen_app. change (zlen [_]) with 1. unfold WKNET_HARD_MAX_QUIC_SENT_PACKETS in *. lia.
  - apply Forall_app. split.
    + rewrite Forall_forall in *. intros p Hp. specialize (Hk p Hp). specialize (Hlt p Hp).
      simpl in Hlt. destruct Hk as (? & ? & ? & ?). unfold rec_packet_ok. simpl.
      destruct (decide (space = sp_Space p)) as [E|].
      * rewrite <- E, !set_space_eq. specialize (Hlt (eq_sym E)). split_and!; (done || lia).
      * by rewrite !set_space_ne.
    + constructor; [|constructor]. unfold rec_packet_ok, packet_size_ok. simpl.
      rewrite !set_space_eq. split_and!; (done || lia).
  - apply pns_sorted_snoc; done.
  - rewrite cc_sent_flight, flight_app, Hf by (unfold MaximumDatagramSize in *; lia).
    simpl. unfold flight_one. simpl. destruct ack; simpl; lia.
Qed.

(** ** The loss timer *)

Lemma timer_loop_count space now lossDelay ps a :
  0 <= a.2 -> a.2 + zlen ps < 2 ^ 64 ->
  (packet_loop (timer_one space now lossDelay) a ps).1.2
  = a.2 + zlen (List.filter (expired_here space now lossDelay) ps).
Proof.
  revert a. induction ps as [|p ps IH]; intros a H0 Hfit; simpl; [rewrite zlen_nil; lia|].
  rewrite zlen_cons in Hfit. pose proof (zlen_nonneg ps).
  assert (Hone : (timer_one space now lossDelay a p).1.2
                 = a.2 + if expired_here space now lossDelay p then 1 else 0).
  { unfold timer_one, expired_here, in_space. rewrite Z.gtb_ltb, (Z.leb_antisym now).
    destruct (bool_decide _), (sp_Terminal p), (now <? _), (_ <? lossDelay); simpl; u64_simpl; lia. }
  specialize (IH (timer_one space now lossDelay a p).1).
  destruct (timer_one space now lossDelay a p) as [a' p']. simpl in *.
  destruct (packet_loop _ a' ps) as [a'' ps']. simpl in *.
  destruct (expired_here space now lossDelay p); rewrite ?zlen_cons; rewrite IH; lia.
Qed.

Lemma no_marks (b : QuicSentPacket -> bool) ps :
  zlen (List.filter b ps) = 0 -> map (fun p => mark (b p) p) ps = ps.
Proof.
  induction ps as [|p ps IH]; [done|]. simpl. destruct (b p) eqn:E.
  - rewrite zlen_cons. pose proof (zlen_nonneg (List.filter b ps)). lia.
  - intros H. simpl. by rewrite IH.
Qed.

Lemma filter_mark_once b ps :
  Forall (fun p => sp_Terminal p = false) ps ->
  List.filter (fun p => negb (sp_Terminal p)) (map (fun p => mark (b p) p) ps)
  = List.filter (fun p => negb (b p)) ps.
Proof.
  induction 1 as [|p ps Hp _ IH]; [done|]. simpl. rewrite IH. destruct (b p); simpl; by rewrite ?Hp.
Qed.

(** The two outcomes of the timer. *)
Lemma loss_timer_cases space now r :
  rec_inv r ->
  ((OnLossTimerExpired space now r).1 = STATUS_NOT_FOUND /\ (OnLossTimerExpired space now r).2 = r)
  \/ ((OnLossTimerExpired space now r).1 = STATUS_SUCCESS
     /\ let r' := (OnLossTimerExpired space now r).2 in
        rv_valid r' = rv_valid r /\ rv_capacity r' = rv_capacity r
        /\ rv_largestSent r' = rv_largestSent r /\ rv_hasSent r' = rv_hasSent r
        /\ rv_packets r'
           = List.filter (fun p => negb (expired_here space now (LossDelay100ns r) p)) (rv_packets r)
        /\ cc_bytesInFlight (rv_congestion r') = flight (rv_packets r')).
Proof.
  intros Hr. pose proof (rec_inv_sizes r Hr) as Hsz. pose proof (rec_inv_flight_bound r Hr) as Hfb.
  destruct Hr as [Hv Hc Hk Ho Hf]. unfold MaximumDatagramSize, WKNET_HARD_MAX_QUIC_SENT_PACKETS in *.
  unfold OnLossTimerExpired. case_if; [by left|].
  set (ld := LossDelay100ns r).
  pose proof (timer_loop_count space now ld (rv_packets r) (0, 0) ltac:(simpl; lia) ltac:(simpl; lia)) as Hn.
  pose proof (timer_loop_flight space now ld (rv_packets r) (0, 0) Hsz ltac:(simpl; lia) ltac:(simpl; lia)) as Hfl.
  pose proof (packet_loop_map (timer_one space now ld) _ (0, 0) (rv_packets r)
    (timer_one_marks space now ld)) as Hm.
  pose proof (flight_marks (expired_here space now ld) _ Hsz) as Hb.
  destruct (packet_loop _ _ _) as [[lost newly] ps]. simpl in Hn, Hfl, Hm. rewrite <- Hm in Hb.
  destruct (newly =? 0) eqn:E.
  { left. bool_prop. split; [done|]. simpl.
    rewrite Hm, no_marks by lia. by destruct r. }
  right. split; [done|]. cbv zeta.
  assert (Hkept : List.filter (fun p => negb (sp_Terminal p)) ps
                  = List.filter (fun p => negb (expired_here space now ld p)) (rv_packets r)).
  { rewrite Hm. apply filter_mark_once. eapply Forall_impl; [exact Hk|]. by intros p (? & _). }
  destruct (lost =? 0) eqn:El; simpl; (split_and!; [done|done|done|done|done|]);
    rewrite flight_filter; [bool_prop; lia|]. rewrite lost_flight by lia. lia.
Qed.

Lemma rec_inv_loss_timer space now r : rec_inv r -> rec_inv (OnLossTimerExpired space now r).2.
Proof.
  intros Hr. destruct (loss_timer_cases space now r Hr) as [[_ ->]|[_ H]]; [done|].
  destruct H as (H1 & H2 & H3 & H4 & H5 & H6). destruct Hr as [Hv Hc Hk Ho _].
  constructor; rewrite ?H1, ?H2, ?H5 in *; try done.
  - pose proof (zlen_List_filter (fun p => negb (expired_here space now (LossDelay100ns r) p)) (rv_packets r)).
    lia.
  - apply Forall_List_filter. eapply Forall_impl; [exact Hk|].
    intros p (? & ? & ? & ?). unfold rec_packet_ok. by rewrite H3, H4.
  - by apply pns_sorted_filter.
Qed.

(** ** Properties *)

(** The states a recovery object reaches; every argument is what the C++ types
    allow ([bytes] and the clock are unsigned). *)
Inductive recovery_reachable : QuicRecovery -> Prop :=
  | rr_init capacity :
      0 < capacity <= WKNET_HARD_MAX_QUIC_SENT_PACKETS ->
      recovery_reachable (Initialize capacity true recovery_default).2
  | rr_sent r space pn bytes ack now :
      recovery_reachable r -> 0 <= bytes ->
      recovery_reachable (OnPacketSent space pn bytes ack now r).2
  | rr_acked r space ranges d now :
      recovery_reachable r -> recovery_reachable (OnAckRangesReceived space ranges d now r).2
  | rr_timer r space now :
      recovery_reachable r -> recovery_reachable (OnLossTimerExpired space now r).2
  | rr_pto r :
      recovery_reachable r -> recovery_reachable (OnPtoFired r).

Lemma ack_ranges_cases space ranges d now r :
  ((OnAckRangesReceived space ranges d now r).1 <> STATUS_SUCCESS
   /\ (OnAckRangesReceived space ranges d now r).2 = r)
  \/ exists first rest,
       ranges = first :: rest
       /\ rv_hasSent r space = true /\ Largest first <= rv_largestSent r space
       /\ OnAckRangesReceived space ranges d now r
          = (STATUS_SUCCESS, process_ack space ranges (Largest first) d now r).
Proof.
  unfold OnAckRangesReceived. repeat (case_if; [by left|]).
  destruct ranges as [|first rest]; [by left|]. case_if; [by left|]. right.
  exists first, rest. bool_prop. split_and!; done.
Qed.

Lemma recovery_reachable_inv r : recovery_reachable r -> rec_inv r.
Proof.
  induction 1 as [capacity Hc|r space pn bytes ack now _ IH Hb|r space ranges d now _ IH
                 |r space now _ IH|r _ IH].
  - unfold Initialize. destruct (_ || _) eqn:E; [apply orb_true_iff in E as [|]; bool_lia|].
    constructor; simpl; try done. rewrite zlen_nil. lia.
  - by apply rec_inv_sent.
  - destruct (ack_ranges_cases space ranges d now r) as [[_ ->]|(f & rest & _ & _ & _ & ->)];
      [done|]. by apply rec_inv_process_ack.
  - by apply rec_inv_loss_timer.
  - unfold OnPtoFired. case_if; [|done]. destruct IH. by constructor.
Qed.

(** C37. In every reachable state the congestion controller's bytes in flight are
    exactly the bytes of the unacknowledged in-flight packets the array holds,
    the array is within capacity and holds no terminal packet, its packet numbers
    increase strictly within each space, and none is beyond the largest sent. *)
Theorem recovery_accounting (r : QuicRecovery) :
  recovery_reachable r ->
  cc_bytesInFlight (rv_congestion r) = flight (rv_packets r)
  /\ zlen (rv_packets r) <= rv_capacity r
  /\ pns_sorted (rv_packets r)
  /\ Forall (fun p => sp_Terminal p = false /\ 0 < sp_Bytes p <= MaximumDatagramSize
                      /\ sp_PacketNumber p <= rv_largestSent r (sp_Space p)) (rv_packets r).
Proof.
  intros Hr. destruct (recovery_reachable_inv r Hr) as [_ Hc Hk Ho Hf].
  split_and!; [done|lia|done|]. eapply Forall_impl; [exact Hk|].
  by intros p (? & ? & _ & ?).
Qed.

(** Three packets sent 100 ticks apart. *)
Definition recovery_sample : QuicRecovery :=
  let r := (Initialize 16 true recovery_default).2 in
  let r := (OnPacketSent Application 1 1200 true 100 r).2 in
  let r := (OnPacketSent Application 2 1000 true 200 r).2 in
  (OnPacketSent Application 3 800 true 300 r).2.

Lemma recovery_accounting_witness :
  let r := (OnAckRangesReceived Application [MkRange 2 2] 0 5000000 recovery_sample).2 in
  cc_bytesInFlight (rv_congestion r) = flight (rv_packets r)
  /\ zlen (rv_packets r) <= rv_capacity r
  /\ pns_sorted (rv_packets r)
  /\ Forall (fun p => sp_Terminal p = false /\ 0 < sp_Bytes p <= MaximumDatagramSize
                      /\ sp_PacketNumber p <= rv_largestSent r (sp_Space p)) (rv_packets r).
Proof.
  apply recovery_accounting. apply rr_acked. unfold recovery_sample.
  repeat (apply rr_sent; [|lia]). apply rr_init. unfold WKNET_HARD_MAX_QUIC_SENT_PACKETS. lia.
Defined.

(** Acknowledgement processing, on every branch.  An ACK that fails
    validation (malformed or overlapping ranges, or acknowledging a packet number
    never sent in that space) changes nothing.  An accepted one removes exactly the packets of its space
    that a range covers or that are lost, i.e. older than its largest number by
    three packets or by the loss delay; packets of the other spaces, and later
    unacknowledged packets, stay; no packet it covers remains. *)
Theorem ack_ranges_outcome (space : QuicPacketNumberSpace) (ranges : list QuicAckRange)
    (d now : Z) (r : QuicRecovery) :
  rec_inv r ->
  match OnAckRangesReceived space ranges d now r with
  | (STATUS_SUCCESS, r') =>
      exists first rest, ranges = first :: rest
        /\ Largest first <= rv_largestSent r space
        /\ rv_packets r'
           = List.filter (ack_keeps space ranges (Largest first) (ack_threshold r now)) (rv_packets r)
        /\ (forall p, List.In p (rv_packets r') -> sp_Space p = space ->
              acknowledged_by (sp_PacketNumber p) ranges = false)
        /\ (forall p, List.In p (rv_packets r) -> sp_Space p <> space -> List.In p (rv_packets r'))
        /\ (forall p, List.In p (rv_packets r) -> Largest first < sp_PacketNumber p ->
              acknowledged_by (sp_PacketNumber p) ranges = false -> List.In p (rv_packets r'))
  | (_, r') => r' = r
  end.
Proof.
  intros Hr. pose proof (ack_ranges_cases space ranges d now r) as Hcases.
  destruct Hcases as [[Hne Heq]|(first & rest & Hrg & Hs & Hl & ->)].
  { destruct (OnAckRangesReceived _ _ _ _ _) as [[] r']; simpl in *; done. }
  exists first, rest. rewrite process_ack_packets by done.
  split_and!; try done; intros p Hp Hsp; unfold ack_keeps, acked_here, lost_here, in_space in *.
  - apply filter_In in Hp as [Hp Hk]. pose proof (ri_packets r Hr) as Hok.
    rewrite List.Forall_forall in Hok. destruct (Hok p Hp) as (Ht & _).
    rewrite Ht, bool_decide_true in Hk by done. simpl in Hk.
    by destruct (acknowledged_by _ _).
  - apply filter_In. split; [done|]. by rewrite bool_decide_false.
  - intros Ha. apply filter_In. split; [done|]. rewrite Ha, andb_false_r. simpl.
    replace (_ <? Largest first) with false by (symmetry; apply Z.ltb_ge; lia).
    by rewrite andb_false_r.
Qed.

Lemma ack_ranges_outcome_witness :
  rec_inv recovery_sample
  /\ match OnAckRangesReceived Application [MkRange 2 2] 0 5000000 recovery_sample with
  | (STATUS_SUCCESS, r') =>
      exists first rest, [MkRange 2 2] = first :: rest
        /\ Largest first <= rv_largestSent recovery_sample Application
        /\ rv_packets r'
           = List.filter (ack_keeps Application [MkRange 2 2] (Largest first)
               (ack_threshold recovery_sample 5000000)) (rv_packets recovery_sample)
        /\ (forall p, List.In p (rv_packets r') -> sp_Space p = Application ->
              acknowledged_by (sp_PacketNumber p) [MkRange 2 2] = false)
        /\ (forall p, List.In p (rv_packets recovery_sample) -> sp_Space p <> Application ->
              List.In p (rv_packets r'))
        /\ (forall p, List.In p (rv_packets recovery_sample) -> Largest first < sp_PacketNumber p ->
              acknowledged_by (sp_PacketNumber p) [MkRange 2 2] = false -> List.In p (rv_packets r'))
  | (_, r') => r' = recovery_sample
  end.
Proof.
  assert (H : rec_inv recovery_sample).
  { apply recovery_reachable_inv. unfold recovery_sample. repeat (apply rr_sent; [|lia]).
    apply rr_init. unfold WKNET_HARD_MAX_QUIC_SENT_PACKETS. lia. }
  split; [exact H|]. exact (ack_ranges_outcome Application [MkRange 2 2] 0 5000000 recovery_sample H).
Defined.

Definition pto_counted (k : nat) (r : QuicRecovery) : QuicRecovery := Nat.iter k OnPtoFired r.

Lemma pto_counted_frame k r :
  0 <= rv_ptoCount r <= 31 ->
  (forall space ms, BasePto100ns space ms (pto_counted k r) = BasePto100ns space ms r)
  /\ rv_ptoCount (pto_counted k r) = Z.min 31 (rv_ptoCount r + Z.of_nat k).
Proof.
  intros H. induction k as [|k [IH1 IH2]]; [split; [done|simpl; lia]|].
  assert (E : pto_counted (S k) r = OnPtoFired (pto_counted k r)) by done.
  rewrite E. unfold OnPtoFired. destruct (_ <? 31) eqn:Hlt; bool_prop.
  - split; [apply IH1|]. simpl. lia.
  - split; [apply IH1|]. lia.
Qed.

(** Exponential probe backoff: after the probe timer fired [k] times in a row
    the probe period is the base period times [2^k], saturating at the largest
    64-bit duration both on overflow and from the 31st firing on, and never
    wrapping to a shorter period. *)
Theorem pto_backoff (space : QuicPacketNumberSpace) (ms : Z) (k : nat) (r : QuicRecovery) :
  rv_ptoCount r = 0 -> 0 <= BasePto100ns space ms r <= MAXU64 ->
  PtoPeriod100ns space ms (pto_counted k r)
  = if (k <? 31)%nat then Z.min MAXU64 (BasePto100ns space ms r * 2 ^ Z.of_nat k) else MAXU64.
Proof.
  intros H0 Hb. unfold PtoPeriod100ns, backoff.
  destruct (pto_counted_frame k r) as [-> ->]; [lia|]. rewrite H0.
  destruct (k <? 31)%nat eqn:Hk.
  - apply Nat.ltb_lt in Hk. replace (Z.min 31 (0 + Z.of_nat k)) with (Z.of_nat k) by lia.
    set (d := BasePto100ns space ms r) in *.
    assert (Hp : 0 < 2 ^ Z.of_nat k) by (apply Z.pow_pos_nonneg; lia).
    rewrite Z.shiftr_div_pow2, Z.shiftl_mul_pow2 by lia. unfold MAXU64 in *.
    pose proof (Z.div_mod (2 ^ 64 - 1) (2 ^ Z.of_nat k) ltac:(lia)) as Hdm.
    pose proof (Z.mod_pos_bound (2 ^ 64 - 1) (2 ^ Z.of_nat k) Hp).
    set (q := (2 ^ 64 - 1) / 2 ^ Z.of_nat k) in *.
    destruct (_ || _) eqn:E.
    + apply orb_true_iff in E as [E|E]; bool_prop; [lia|]. rewrite Z.min_l; nia.
    + bool_prop. rewrite u64_id by nia. rewrite Z.min_r; nia.
  - apply Nat.ltb_ge in Hk. by replace (Z.min 31 (0 + Z.of_nat k)) with 31 by lia.
Qed.

Lemma pto_backoff_witness :
  BasePto100ns Application 25 recovery_sample = 3590000
  /\ PtoPeriod100ns Application 25 (pto_counted 3 recovery_sample)
     = if (3 <? 31)%nat then Z.min MAXU64 (BasePto100ns Application 25 recovery_sample * 2 ^ Z.of_nat 3)
       else MAXU64.
Proof.
  split; [by vm_compute|]. apply pto_backoff; [done|]. split; by vm_compute.
Defined.

(** C40. The loss timer forgets the packet-number condition.  [LossDeadline100ns]
    and the ACK path only ever consider packets sent before the largest
    acknowledged one, but once the deadline has passed [OnLossTimerExpired]
    declares every packet of the space that is old enough lost: there is a
    reachable state in which it drops a packet newer than every acknowledged
    packet, one for which no acknowledgement has been received at all. *)
Theorem loss_timer_drops_newer_packet :
  exists r now p,
    recovery_reachable r
    /\ rv_hasAcknowledged r Application = true
    /\ List.In p (rv_packets r) /\ sp_Space p = Application
    /\ rv_largestAcknowledged r Application < sp_PacketNumber p
    /\ (OnLossTimerExpired Application now r).1 = STATUS_SUCCESS
    /\ ~ List.In p (rv_packets (OnLossTimerExpired Application now r).2).
Proof.
  exists (OnAckRangesReceived Application [MkRange 2 2] 0 400 recovery_sample).2, 10400,
    (MkSent Application 3 300 800 true true false).
  split.
  { apply rr_acked. unfold recovery_sample. repeat (apply rr_sent; [|lia]). apply rr_init.
    unfold WKNET_HARD_MAX_QUIC_SENT_PACKETS. lia. }
  vm_compute. split_and!; try done. by right; left.
Qed.
