(* ===== verification/QuicStream.v ===== *)
(** * QUIC streams (src/wknetlib/quic/QuicStream.cpp)

    [QuicStream]: the reassembly buffer of the receiving side (out-of-order
    segments, overlaps, gaps), and the credit, FIN and reset state of the
    sending side.  A buffer [Data] of a chunk is the list of its [Capacity]
    bytes; the array [chunks_[0 .. chunkCount_)] is a list.  Calls of the
    application's callbacks are appended to an event log, and a failed
    allocation is an argument of the operation that allocates. *)

From S2P Require Import Prelude QuicVarInt.

(** ** Data *)

Record QuicStreamChunk := MkChunk {
  ck_Offset : Z;
  ck_Length : Z;
  ck_Capacity : Z;
  ck_DataOffset : Z;
  ck_Data : list Z;
}.
#[export] Instance QuicStreamChunk_eta : Eta QuicStreamChunk := fun x =>
  MkChunk (ck_Offset x) (ck_Length x) (ck_Capacity x) (ck_DataOffset x) (ck_Data x).

(** Which callbacks of the sink are not null. *)
Record QuicStreamApplicationEventSink := MkSink {
  sk_Opened : bool;
  sk_Readable : bool;
  sk_Writable : bool;
  sk_Reset : bool;
  sk_Closed : bool;
}.
Definition no_sink : QuicStreamApplicationEventSink := MkSink false false false false false.

Inductive StreamEvent :=
  | EvOpened
  | EvReadable
  | EvWritable
  | EvReset (errorCode : Z) (peerInitiated : bool)
  | EvClosed.

Record QuicStream := MkStream {
  st_streamId : Z;
  st_consumedOffset : Z;
  st_finalSize : Z;
  st_receivedUniqueBytes : Z;
  st_bufferedBytes : Z;
  st_highestReceivedOffset : Z;
  st_receiveLimit : Z;
  st_sendOffset : Z;
  st_sendLimit : Z;
  st_sendResetError : Z;
  st_receiveResetError : Z;
  st_stopError : Z;
  st_maxReassemblyBytes : Z;
  st_maxGaps : Z;
  st_chunks : list QuicStreamChunk;
  st_applicationSink : QuicStreamApplicationEventSink;
  st_initialized : bool;
  st_finalSizeKnown : bool;
  st_sendFin : bool;
  st_reset : bool;
  st_receiveReset : bool;
  st_stopped : bool;
  st_streamDataBlockedPending : bool;
  st_applicationWriteBlocked : bool;
  st_openedNotified : bool;
  st_readableNotified : bool;
  st_closedNotified : bool;
  st_events : list StreamEvent;
}.
#[export] Instance QuicStream_eta : Eta QuicStream := fun x =>
  MkStream (st_streamId x) (st_consumedOffset x) (st_finalSize x) (st_receivedUniqueBytes x)
    (st_bufferedBytes x) (st_highestReceivedOffset x) (st_receiveLimit x) (st_sendOffset x)
    (st_sendLimit x) (st_sendResetError x) (st_receiveResetError x) (st_stopError x)
    (st_maxReassemblyBytes x) (st_maxGaps x) (st_chunks x) (st_applicationSink x)
    (st_initialized x) (st_finalSizeKnown x) (st_sendFin x) (st_reset x) (st_receiveReset x)
    (st_stopped x) (st_streamDataBlockedPending x) (st_applicationWriteBlocked x)
    (st_openedNotified x) (st_readableNotified x) (st_closedNotified x) (st_events x).

Definition stream_default : QuicStream :=
  MkStream 0 0 0 0 0 0 QuicVarIntMaximum 0 0 0 0 0 0 0 [] no_sink
    false false false false false false false false false false false [].

Definition WKNET_HARD_MAX_QUIC_STREAM_GAPS : Z := 256.

Definition QuicStreamIsClientInitiated (id : Z) : bool := Z.land id 1 =? 0.
Definition QuicStreamIsBidirectional (id : Z) : bool := Z.land id 2 =? 0.

(** ** Notifications *)

Definition ReceiveFinished (s : QuicStream) : bool :=
  st_finalSizeKnown s && (st_consumedOffset s =? st_finalSize s).

Definition HasReadableState (s : QuicStream) : bool :=
  if negb (st_initialized s) || st_receiveReset s then false
  else if ReceiveFinished s then true
  else existsb (fun c => (ck_Offset c =? st_consumedOffset s) && negb (ck_Length c =? 0))
         (st_chunks s).

Definition IsClosedState (s : QuicStream) : bool :=
  if negb (st_initialized s) then false
  else
    let sendSideExists := QuicStreamIsBidirectional (st_streamId s)
                          || QuicStreamIsClientInitiated (st_streamId s) in
    let receiveSideExists := QuicStreamIsBidirectional (st_streamId s)
                             || negb (QuicStreamIsClientInitiated (st_streamId s)) in
    let sendClosed := negb sendSideExists || st_sendFin s || st_reset s in
    let receiveClosed := negb receiveSideExists || ReceiveFinished s || st_receiveReset s in
    sendClosed && receiveClosed.

Definition notify (e : StreamEvent) (s : QuicStream) : QuicStream :=
  s <| st_events := st_events s ++ [e] |>.

Definition NotifyOpened (s : QuicStream) : QuicStream :=
  if st_openedNotified s || negb (sk_Opened (st_applicationSink s)) then s
  else notify EvOpened (s <| st_openedNotified := true |>).

Definition RefreshReadableNotification (s : QuicStream) : QuicStream :=
  if negb (HasReadableState s) then s <| st_readableNotified := false |>
  else if st_readableNotified s || negb (sk_Readable (st_applicationSink s)) then s
  else notify EvReadable (s <| st_readableNotified := true |>).

Definition NotifyWritable (s : QuicStream) : QuicStream :=
  if negb (sk_Writable (st_applicationSink s)) then s else notify EvWritable s.

Definition MarkApplicationWriteBlocked (s : QuicStream) : QuicStream :=
  s <| st_applicationWriteBlocked := true |>.

Definition TryNotifyApplicationWritable (s : QuicStream) : QuicStream :=
  if negb (st_applicationWriteBlocked s) || st_sendFin s || st_reset s
     || (st_sendOffset s >=? st_sendLimit s) then s
  else NotifyWritable (s <| st_applicationWriteBlocked := false |>).

Definition NotifyReset (errorCode : Z) (peerInitiated : bool) (s : QuicStream) : QuicStream :=
  if negb (sk_Reset (st_applicationSink s)) then s else notify (EvReset errorCode peerInitiated) s.

Definition NotifyClosed (s : QuicStream) : QuicStream :=
  if st_closedNotified s || negb (sk_Closed (st_applicationSink s)) then s
  else notify EvClosed (s <| st_closedNotified := true |>).

Definition NotifyClosedIfNeeded (s : QuicStream) : QuicStream :=
  if IsClosedState s then NotifyClosed s else s.

Definition NotifyApplicationReadable (s : QuicStream) : QuicStream :=
  NotifyClosedIfNeeded (RefreshReadableNotification s).

Definition SetApplicationEventSink (sink : option QuicStreamApplicationEventSink)
    (s : QuicStream) : QuicStream :=
  let s := s <| st_applicationSink := default no_sink sink |> <| st_openedNotified := false |>
             <| st_readableNotified := false |> <| st_closedNotified := false |> in
  if negb (st_initialized s) || bool_decide (sink = None) then s
  else NotifyClosedIfNeeded (RefreshReadableNotification (NotifyOpened s)).

(** ** Life cycle *)

Definition Clear (s : QuicStream) : QuicStream :=
  let s := if st_initialized s then NotifyClosed s else s in
  s <| st_chunks := [] |> <| st_applicationSink := no_sink |> <| st_initialized := false |>
    <| st_openedNotified := false |> <| st_readableNotified := false |>
    <| st_closedNotified := false |>.

(** [allocated]: both arrays could be allocated. *)
Definition Initialize (id maxBytes maxGaps : Z) (allocated : bool) (s : QuicStream)
    : NTSTATUS * QuicStream :=
  let s := Clear s in
  if (id >? QuicVarIntMaximum) || (maxBytes =? 0) || (maxGaps =? 0)
     || (maxGaps >? WKNET_HARD_MAX_QUIC_STREAM_GAPS)
  then (STATUS_INVALID_PARAMETER, s)
  else if negb allocated then (STATUS_INSUFFICIENT_RESOURCES, Clear s)
  else
    (STATUS_SUCCESS,
     MkStream id 0 0 0 0 0 QuicVarIntMaximum 0 0 0 0 0 maxBytes maxGaps
       (st_chunks s) (st_applicationSink s) true false false false false false false false
       (st_openedNotified s) (st_readableNotified s) (st_closedNotified s) (st_events s)).

(** ** Receiving *)

Definition chunk_end (c : QuicStreamChunk) : Z := ck_Offset c +! ck_Length c.

(** The chunk touches or overlaps the segment [offset, end). *)
Definition affected (offset end_ : Z) (c : QuicStreamChunk) : bool :=
  negb ((end_ <? ck_Offset c) || (offset >? chunk_end c)).

(** The loop [for (p = os; p < oe; ++p)] that compares the overlap. *)
Fixpoint overlap_equal (n : nat) (p offset : Z) (data : list Z) (c : QuicStreamChunk) : bool :=
  match n with
  | O => true
  | S n =>
      if negb (zget data (p -! offset) =? zget (ck_Data c) (ck_DataOffset c +! (p -! ck_Offset c)))
      then false
      else overlap_equal n (p + 1) offset data c
  end.

Record Scan := MkScan { sc_unionStart : Z; sc_unionEnd : Z; sc_overlapBytes : Z }.

(** One iteration of the scan for an affected chunk; [None]: a buffered byte
    differs from the byte received. *)
Definition scan_chunk (offset end_ : Z) (data : list Z) (c : QuicStreamChunk) (a : Scan)
    : option Scan :=
  let cEnd := chunk_end c in
  let us := if ck_Offset c <? sc_unionStart a then ck_Offset c else sc_unionStart a in
  let ue := if cEnd >? sc_unionEnd a then cEnd else sc_unionEnd a in
  let os := if offset >? ck_Offset c then offset else ck_Offset c in
  let oe := if end_ <? cEnd then end_ else cEnd in
  if oe >? os then
    if overlap_equal (Z.to_nat (oe - os)) os offset data c
    then Some (MkScan us ue (sc_overlapBytes a +! (oe -! os)))
    else None
  else Some (MkScan us ue (sc_overlapBytes a)).

Fixpoint scan_chunks (offset end_ : Z) (data : list Z) (cs : list QuicStreamChunk) (a : Scan)
    : option Scan :=
  match cs with
  | [] => Some a
  | c :: cs =>
      if affected offset end_ c then
        match scan_chunk offset end_ data c a with
        | Some a => scan_chunks offset end_ data cs a
        | None => None
        end
      else scan_chunks offset end_ data cs a
  end.

Definition chunk_data (c : QuicStreamChunk) : list Z :=
  zsub (ck_Data c) (ck_DataOffset c) (ck_Length c).

(** The loop that copies the affected chunks into the merge buffer. *)
Fixpoint copy_chunks (us : Z) (cs : list QuicStreamChunk) (merged : list Z) : list Z :=
  match cs with
  | [] => merged
  | c :: cs => copy_chunks us cs (mem_copy merged (ck_Offset c -! us) (chunk_data c))
  end.

(** From [unionStart = offset] to the end of [Receive]. *)
Definition store_segment (offset end_ : Z) (data : list Z) (allocated : bool) (s : QuicStream)
    : NTSTATUS * QuicStream :=
  let length := zlen data in
  let cs := st_chunks s in
  match scan_chunks offset end_ data cs (MkScan offset end_ 0) with
  | None => (STATUS_INVALID_NETWORK_RESPONSE, s)
  | Some (MkScan unionStart unionEnd overlapBytes) =>
      let unique := length -! overlapBytes in
      if unique >? st_maxReassemblyBytes s -! st_bufferedBytes s
      then (STATUS_INSUFFICIENT_RESOURCES, s)
      else
        let touched := List.filter (affected offset end_) cs in
        if (zlen touched =? 0) && (zlen cs >=? st_maxGaps s)
        then (STATUS_INSUFFICIENT_RESOURCES, s)
        else
          let unionLength := unionEnd -! unionStart in
          if negb allocated then (STATUS_INSUFFICIENT_RESOURCES, s)
          else
            let merged := copy_chunks unionStart touched (replicate (Z.to_nat unionLength) 0) in
            let merged := mem_copy merged (offset -! unionStart) data in
            let kept := List.filter (fun c => negb (affected offset end_ c)) cs in
            (STATUS_SUCCESS,
             s <| st_chunks := kept ++ [MkChunk unionStart unionLength unionLength 0 merged] |>
               <| st_receivedUniqueBytes := st_receivedUniqueBytes s +! unique |>
               <| st_bufferedBytes := st_bufferedBytes s +! unique |>
               <| st_highestReceivedOffset :=
                    if end_ >? st_highestReceivedOffset s then end_
                    else st_highestReceivedOffset s |>)
  end.

Definition notify_if (notifyApplication : bool) (r : NTSTATUS * QuicStream)
    : NTSTATUS * QuicStream :=
  if NT_SUCCESS r.1 && notifyApplication then (r.1, NotifyApplicationReadable r.2) else r.

(** The segment once the limits, the final size and a received reset are
    accounted for: empty, already consumed, or trimmed to the unconsumed part. *)
Definition receive_segment (offset : Z) (data : list Z) (allocated : bool) (s : QuicStream)
    : NTSTATUS * QuicStream :=
  let end_ := offset +! zlen data in
  if zlen data =? 0 then
    (STATUS_SUCCESS,
     if end_ >? st_highestReceivedOffset s then s <| st_highestReceivedOffset := end_ |> else s)
  else if end_ <=? st_consumedOffset s then (STATUS_SUCCESS, s)
  else if offset <? st_consumedOffset s then
    let trim := st_consumedOffset s -! offset in
    let data := zdrop trim data in
    let offset := st_consumedOffset s in
    store_segment offset (offset +! zlen data) data allocated s
  else store_segment offset end_ data allocated s.

Definition Receive (offset : Z) (data : span) (fin notifyApplication allocated : bool)
    (s : QuicStream) : NTSTATUS * QuicStream :=
  let length := sp_len data in
  if negb (st_initialized s) || (sp_isnull data && negb (length =? 0))
     || (offset >? QuicVarIntMaximum) || (length >? QuicVarIntMaximum -! offset)
  then (STATUS_INVALID_PARAMETER, s)
  else if negb (QuicStreamIsBidirectional (st_streamId s))
          && QuicStreamIsClientInitiated (st_streamId s)
  then (STATUS_INVALID_DEVICE_STATE, s)
  else
    let end_ := offset +! length in
    if end_ >? st_receiveLimit s then (STATUS_INVALID_NETWORK_RESPONSE, s)
    else if st_finalSizeKnown s && (end_ >? st_finalSize s)
    then (STATUS_INVALID_NETWORK_RESPONSE, s)
    else if fin && st_finalSizeKnown s && negb (st_finalSize s =? end_)
    then (STATUS_INVALID_NETWORK_RESPONSE, s)
    else
      let s := if fin then s <| st_finalSizeKnown := true |> <| st_finalSize := end_ |> else s in
      if st_receiveReset s then
        (if end_ <=? st_finalSize s then STATUS_SUCCESS else STATUS_INVALID_NETWORK_RESPONSE, s)
      else notify_if notifyApplication (receive_segment offset (sp_bytes data) allocated s).

(** ** Consuming *)

(** The first chunk that starts at the consumed offset. *)
Fixpoint find_chunk (off : Z) (cs : list QuicStreamChunk) : option nat :=
  match cs with
  | [] => None
  | c :: cs => if ck_Offset c =? off then Some O else S <$> find_chunk off cs
  end.

(** The chunk less its first [n] bytes, removed when nothing is left. *)
Definition advance_chunk (n : Z) (c : QuicStreamChunk) : QuicStreamChunk :=
  MkChunk (ck_Offset c +! n) (ck_Length c -! n) (ck_Capacity c) (ck_DataOffset c +! n) (ck_Data c).
Definition take_from_chunk (i : nat) (n : Z) (c : QuicStreamChunk) (cs : list QuicStreamChunk)
    : list QuicStreamChunk :=
  let c := advance_chunk n c in
  if ck_Length c =? 0 then delete i cs else <[i := c]> cs.

(** The status, the bytes written to [output] and [*fin]; the pointers are not
    null. *)
Definition Consume (capacity : Z) (s : QuicStream) : NTSTATUS * list Z * bool * QuicStream :=
  if negb (st_initialized s) then (STATUS_INVALID_PARAMETER, [], false, s)
  else
    match i ← find_chunk (st_consumedOffset s) (st_chunks s); c ← st_chunks s !! i; Some (i, c) with
    | None =>
        (if st_receiveReset s && (st_bufferedBytes s =? 0) then STATUS_CONNECTION_RESET
         else STATUS_SUCCESS, [], ReceiveFinished s, s)
    | Some (i, c) =>
        let consumeLength := if capacity <? ck_Length c then capacity else ck_Length c in
        if consumeLength =? 0 then (STATUS_BUFFER_TOO_SMALL, [], false, s)
        else
          let out := zsub (ck_Data c) (ck_DataOffset c) consumeLength in
          let s := s <| st_consumedOffset := st_consumedOffset s +! consumeLength |>
                     <| st_bufferedBytes := st_bufferedBytes s -! consumeLength |>
                     <| st_chunks := take_from_chunk i consumeLength c (st_chunks s) |> in
          (STATUS_SUCCESS, out, ReceiveFinished s, RefreshReadableNotification s)
    end.

(** ** Limits, sending, resets *)

Definition SetReceiveLimit (maximum : Z) (s : QuicStream) : NTSTATUS * QuicStream :=
  if negb (st_initialized s) || (maximum >? QuicVarIntMaximum)
     || (maximum <? st_highestReceivedOffset s)
  then (STATUS_INVALID_PARAMETER, s)
  else (STATUS_SUCCESS, s <| st_receiveLimit := maximum |>).

Definition SetSendLimit (maximum : Z) (s : QuicStream) : NTSTATUS * QuicStream :=
  if negb (st_initialized s) || (maximum >? QuicVarIntMaximum) || (maximum <? st_sendOffset s)
  then (STATUS_INVALID_PARAMETER, s)
  else (STATUS_SUCCESS, TryNotifyApplicationWritable (s <| st_sendLimit := maximum |>)).

Definition OnMaxStreamData (maximum : Z) (s : QuicStream) : NTSTATUS * QuicStream :=
  if negb (st_initialized s) || (maximum >? QuicVarIntMaximum)
  then (STATUS_INVALID_PARAMETER, s)
  else
    (STATUS_SUCCESS,
     if maximum >? st_sendLimit s
     then TryNotifyApplicationWritable
            (s <| st_sendLimit := maximum |> <| st_streamDataBlockedPending := false |>)
     else s).

Definition CanWrite (length : Z) (s : QuicStream) : NTSTATUS :=
  if negb (st_initialized s) then STATUS_INVALID_DEVICE_STATE
  else if negb (QuicStreamIsBidirectional (st_streamId s))
          && negb (QuicStreamIsClientInitiated (st_streamId s))
  then STATUS_INVALID_DEVICE_STATE
  else if st_sendFin s || st_reset s then STATUS_INVALID_DEVICE_STATE
  else if (length >? QuicVarIntMaximum -! st_sendOffset s) || (st_sendOffset s >? st_sendLimit s)
          || (length >? st_sendLimit s -! st_sendOffset s)
  then STATUS_DEVICE_BUSY
  else STATUS_SUCCESS.

(** The status, [*accepted] and the stream. *)
Definition Write (data : span) (fin : bool) (s : QuicStream) : NTSTATUS * Z * QuicStream :=
  let length := sp_len data in
  if negb (st_initialized s) || (sp_isnull data && negb (length =? 0))
  then (STATUS_INVALID_PARAMETER, 0, s)
  else
    let validationStatus := CanWrite length s in
    if negb (NT_SUCCESS validationStatus) then
      (validationStatus, 0,
       if decide (validationStatus = STATUS_DEVICE_BUSY)
       then s <| st_streamDataBlockedPending := true |> <| st_applicationWriteBlocked := true |>
       else s)
    else
      (STATUS_SUCCESS, length,
       NotifyClosedIfNeeded
         (s <| st_sendOffset := st_sendOffset s +! length |> <| st_sendFin := fin |>)).

Definition Reset (error finalSize : Z) (s : QuicStream) : NTSTATUS * QuicStream :=
  if negb (st_initialized s) || (error >? QuicVarIntMaximum) || (finalSize >? QuicVarIntMaximum)
  then (STATUS_INVALID_PARAMETER, s)
  else if negb (QuicStreamIsBidirectional (st_streamId s))
          && negb (QuicStreamIsClientInitiated (st_streamId s))
  then (STATUS_INVALID_DEVICE_STATE, s)
  else if st_reset s then
    (if (st_sendResetError s =? error) && (finalSize =? st_sendOffset s)
     then STATUS_SUCCESS else STATUS_INVALID_DEVICE_STATE, s)
  else if negb (finalSize =? st_sendOffset s) then (STATUS_INVALID_NETWORK_RESPONSE, s)
  else
    (STATUS_SUCCESS,
     NotifyClosedIfNeeded (NotifyReset error false
       (s <| st_reset := true |> <| st_sendResetError := error |> <| st_sendFin := true |>))).

Definition OnResetReceived (error finalSize : Z) (s : QuicStream) : NTSTATUS * QuicStream :=
  if negb (st_initialized s) || (error >? QuicVarIntMaximum) || (finalSize >? QuicVarIntMaximum)
  then (STATUS_INVALID_PARAMETER, s)
  else if negb (QuicStreamIsBidirectional (st_streamId s))
          && QuicStreamIsClientInitiated (st_streamId s)
  then (STATUS_INVALID_DEVICE_STATE, s)
  else if (st_finalSizeKnown s && negb (st_finalSize s =? finalSize))
          || (finalSize <? st_highestReceivedOffset s) || (finalSize <? st_consumedOffset s)
          || (finalSize >? st_receiveLimit s)
  then (STATUS_INVALID_NETWORK_RESPONSE, s)
  else if st_receiveReset s then
    (if st_receiveResetError s =? error then STATUS_SUCCESS
     else STATUS_INVALID_NETWORK_RESPONSE, s)
  else
    (STATUS_SUCCESS,
     NotifyClosedIfNeeded (NotifyReset error true
       (s <| st_finalSizeKnown := true |> <| st_finalSize := finalSize |>
          <| st_receiveReset := true |> <| st_receiveResetError := error |>
          <| st_highestReceivedOffset := finalSize |>))).

Definition StopSending (error : Z) (s : QuicStream) : NTSTATUS * QuicStream :=
  if negb (st_initialized s) || (error >? QuicVarIntMaximum) then (STATUS_INVALID_PARAMETER, s)
  else if negb (QuicStreamIsBidirectional (st_streamId s))
          && negb (QuicStreamIsClientInitiated (st_streamId s))
  then (STATUS_INVALID_DEVICE_STATE, s)
  else if st_stopped s then
    (if st_stopError s =? error then STATUS_SUCCESS else STATUS_INVALID_DEVICE_STATE, s)
  else (STATUS_SUCCESS, s <| st_stopped := true |> <| st_stopError := error |>).

Definition TakeStreamDataBlocked (s : QuicStream) : option Z * QuicStream :=
  if negb (st_initialized s) || negb (st_streamDataBlockedPending s) then (None, s)
  else (Some (st_sendLimit s), s <| st_streamDataBlockedPending := false |>).

(** ** The buffered bytes *)

(** [stream_byte cs o]: the byte buffered for the stream offset [o]. *)
Definition has (c : QuicStreamChunk) (o : Z) : bool :=
  (ck_Offset c <=? o) && (o <? ck_Offset c + ck_Length c).
Definition chunk_byte (c : QuicStreamChunk) (o : Z) : Z :=
  zget (ck_Data c) (ck_DataOffset c + (o - ck_Offset c)).
Fixpoint stream_byte (cs : list QuicStreamChunk) (o : Z) : option Z :=
  match cs with
  | [] => None
  | c :: cs => if has c o then Some (chunk_byte c o) else stream_byte cs o
  end.

(** [in_segment offset data o]: the byte a segment carries for [o]. *)
Definition in_segment (offset : Z) (data : list Z) (o : Z) : option Z :=
  if (offset <=? o) && (o <? offset + zlen data) then Some (zget data (o - offset)) else None.

Definition chunk_ok (c : QuicStreamChunk) : Prop :=
  0 < ck_Length c /\ 0 <= ck_Offset c /\ ck_Offset c + ck_Length c <= QuicVarIntMaximum
  /\ 0 <= ck_DataOffset c /\ ck_DataOffset c + ck_Length c = ck_Capacity c
  /\ zlen (ck_Data c) = ck_Capacity c /\ ck_Capacity c <= QuicVarIntMaximum.

(** Two chunks neither overlap nor touch. *)
Definition apart (c d : QuicStreamChunk) : Prop :=
  ck_Offset c + ck_Length c < ck_Offset d \/ ck_Offset d + ck_Length d < ck_Offset c.
Fixpoint separated (cs : list QuicStreamChunk) : Prop :=
  match cs with
  | [] => True
  | c :: cs => Forall (apart c) cs /\ separated cs
  end.

Fixpoint total (cs : list QuicStreamChunk) : Z :=
  match cs with [] => 0 | c :: cs => ck_Length c + total cs end.

Lemma VarMax_eq : QuicVarIntMaximum = 2 ^ 62 - 1.
Proof. reflexivity. Qed.

Lemma chunk_end_ok c : chunk_ok c -> chunk_end c = ck_Offset c + ck_Length c.
Proof.
  intros Hc. unfold chunk_ok in Hc. rewrite VarMax_eq in Hc. unfold chunk_end.
  rewrite u64_id; lia.
Qed.

Lemma has_spec c o : has c o = true <-> ck_Offset c <= o < ck_Offset c + ck_Length c.
Proof. unfold has. rewrite andb_true_iff, Z.leb_le, Z.ltb_lt. done. Qed.
Lemma has_false c o : has c o = false <-> ~ (ck_Offset c <= o < ck_Offset c + ck_Length c).
Proof. rewrite <- has_spec. by rewrite not_true_iff_false. Qed.

Lemma affected_spec offset e c :
  chunk_ok c ->
  affected offset e c = true <-> ck_Offset c <= e /\ offset <= ck_Offset c + ck_Length c.
Proof.
  intros Hc. unfold affected. rewrite chunk_end_ok by done. rewrite Z.gtb_ltb.
  rewrite negb_true_iff, orb_false_iff, !Z.ltb_ge. done.
Qed.

Lemma stream_byte_None cs o :
  stream_byte cs o = None <-> Forall (fun c => has c o = false) cs.
Proof.
  induction cs as [|c cs IH]; simpl; [done|]. rewrite Forall_cons, <- IH.
  destruct (has c o); naive_solver.
Qed.

Lemma stream_byte_app cs ds o :
  stream_byte (cs ++ ds) o = match stream_byte cs o with Some b => Some b | None => stream_byte ds o end.
Proof. induction cs as [|c cs IH]; simpl; [done|]. by destruct (has c o). Qed.

Lemma stream_byte_one c o : stream_byte [c] o = if has c o then Some (chunk_byte c o) else None.
Proof. done. Qed.

Lemma apart_has c d o : apart c d -> has c o = true -> has d o = false.
Proof. unfold apart. rewrite has_spec, has_false. lia. Qed.

(** Dropping chunks that do not hold [o], or keeping those that do. *)
Lemma stream_byte_filter (P : QuicStreamChunk -> bool) cs o :
  Forall (fun c => has c o = true -> P c = true) cs ->
  stream_byte (List.filter P cs) o = stream_byte cs o.
Proof.
  induction 1 as [|c cs Hc _ IH]; simpl; [done|].
  destruct (P c) eqn:HP; simpl; rewrite IH; [done|]. by destruct (has c o); [naive_solver|].
Qed.
Lemma stream_byte_filter_None (P : QuicStreamChunk -> bool) cs o :
  Forall (fun c => has c o = true -> P c = false) cs -> stream_byte (List.filter P cs) o = None.
Proof.
  induction 1 as [|c cs Hc _ IH]; simpl; [done|].
  destruct (P c) eqn:HP; simpl; rewrite ?IH; [|done]. by destruct (has c o); [naive_solver|].
Qed.

Lemma Forall_filter {A} (P : A -> Prop) (f : A -> bool) l : Forall P l -> Forall P (List.filter f l).
Proof. induction 1; simpl; [done|]. destruct (f x); auto. Qed.

Lemma Forall_filter_and {A} (P : A -> Prop) (f : A -> bool) l :
  Forall (fun x => f x = true -> P x) l -> Forall P (List.filter f l).
Proof. induction 1; simpl; [done|]. destruct (f x) eqn:?; auto. Qed.

Lemma separated_filter P cs : separated cs -> separated (List.filter P cs).
Proof.
  induction cs as [|c cs IH]; simpl; [done|]. intros [Hc Hs]. specialize (IH Hs).
  destruct (P c); simpl; [|done]. split; [by apply Forall_filter|done].
Qed.

Lemma apart_sym c d : apart c d -> apart d c.
Proof. unfold apart. lia. Qed.

Lemma separated_elem cs c d : separated cs -> c ∈ cs -> d ∈ cs -> c <> d -> apart c d.
Proof.
  induction cs as [|x cs IH]; intros Hs Hc Hd Hne; [by apply elem_of_nil in Hc|].
  destruct Hs as [Hx Hs]. rewrite Forall_forall in Hx.
  apply elem_of_cons in Hc as [->|Hc], Hd as [->|Hd]; try done; auto using apart_sym.
Qed.

Lemma separated_snoc cs d : separated cs -> Forall (apart d) cs -> separated (cs ++ [d]).
Proof.
  induction cs as [|c cs IH]; simpl; [by repeat constructor|].
  intros [Hc Hs] Hd. inversion_clear Hd as [|? ? Hcd Hd']. split; [|auto].
  apply Forall_app. split; [done|]. constructor; [by apply apart_sym|constructor].
Qed.

Lemma total_app cs ds : total (cs ++ ds) = total cs + total ds.
Proof. induction cs as [|c cs IH]; simpl; lia. Qed.
Lemma total_filter P cs :
  total cs = total (List.filter P cs) + total (List.filter (fun c => negb (P c)) cs).
Proof. induction cs as [|c cs IH]; simpl; [done|]. destruct (P c); simpl; lia. Qed.
Lemma total_nonneg cs : Forall chunk_ok cs -> 0 <= total cs.
Proof. induction 1 as [|c cs Hc _ IH]; simpl; [lia|]. unfold chunk_ok in Hc. lia. Qed.

(** ** The scan of the chunks a segment touches *)

Lemma overlap_equal_spec n p offset data c :
  chunk_ok c -> 0 <= offset <= p -> ck_Offset c <= p ->
  p + Z.of_nat n <= ck_Offset c + ck_Length c ->
  overlap_equal n p offset data c = true <->
  (forall o, p <= o < p + Z.of_nat n -> chunk_byte c o = zget data (o - offset)).
Proof.
  intros Hc Hp Hcp. revert p Hp Hcp. induction n as [|n IH]; intros p Hp Hcp Hn.
  { split; [intros _ o Ho; lia|done]. }
  pose proof Hc as (? & ? & ? & ? & ? & ? & ?). pose proof VarMax_eq. simpl overlap_equal.
  rewrite (u64_id (p - offset)), (u64_id (p - ck_Offset c)) by lia.
  rewrite u64_id by lia. fold (chunk_byte c p).
  destruct (Z.eqb_spec (zget data (p - offset)) (chunk_byte c p)) as [Heq|Hne]; simpl.
  - rewrite IH by lia. split; intros Hrec o Ho; [|apply Hrec; lia].
    destruct (Z.eq_dec o p) as [->|]; [done|]. apply Hrec. lia.
  - split; [done|]. intros Hrec. destruct Hne. symmetry. apply Hrec. lia.
Qed.

Definition overlap (offset e : Z) (c : QuicStreamChunk) : Z :=
  Z.max 0 (Z.min e (ck_Offset c + ck_Length c) - Z.max offset (ck_Offset c)).

Definition agrees (offset : Z) (data : list Z) (c : QuicStreamChunk) : Prop :=
  forall o b, has c o = true -> in_segment offset data o = Some b -> chunk_byte c o = b.

Lemma in_segment_Some offset data o b :
  in_segment offset data o = Some b <->
  offset <= o < offset + zlen data /\ b = zget data (o - offset).
Proof.
  unfold in_segment. destruct (Z.leb_spec offset o), (Z.ltb_spec o (offset + zlen data));
    simpl; naive_solver lia.
Qed.

Lemma scan_chunk_spec offset data c us ue ov :
  let e := offset + zlen data in
  chunk_ok c -> 0 <= offset -> e <= QuicVarIntMaximum -> 0 <= ov -> ov + ck_Length c < 2 ^ 64 ->
  (exists a', scan_chunk offset e data c (MkScan us ue ov) = Some a') <-> agrees offset data c.
Proof.
  intros e Hc Ho He Hov Hfit. unfold scan_chunk. rewrite chunk_end_ok by done. simpl.
  pose proof Hc as (? & ? & ? & ? & ? & ? & ?). pose proof (zlen_nonneg data).
  assert (Hos : (if offset >? ck_Offset c then offset else ck_Offset c) = Z.max offset (ck_Offset c)).
  { destruct (Z.gtb_spec offset (ck_Offset c)); lia. }
  assert (Hoe : (if e <? ck_Offset c + ck_Length c then e else ck_Offset c + ck_Length c)
          = Z.min e (ck_Offset c + ck_Length c)).
  { destruct (Z.ltb_spec e (ck_Offset c + ck_Length c)); lia. }
  rewrite Hos, Hoe. unfold agrees. case_if; bool_prop.
  - pose proof (overlap_equal_spec
      (Z.to_nat (Z.min e (ck_Offset c + ck_Length c) - Z.max offset (ck_Offset c)))
      (Z.max offset (ck_Offset c)) offset data c Hc) as Heq.
    rewrite Z2Nat.id in Heq by lia. specialize (Heq ltac:(lia) ltac:(lia) ltac:(lia)).
    assert (Hiff : (forall o, Z.max offset (ck_Offset c) <= o < Z.max offset (ck_Offset c)
      + (Z.min e (ck_Offset c + ck_Length c) - Z.max offset (ck_Offset c)) ->
      chunk_byte c o = zget data (o - offset)) <-> (forall o b, has c o = true ->
      in_segment offset data o = Some b -> chunk_byte c o = b)).
    { setoid_rewrite has_spec. setoid_rewrite in_segment_Some. subst e. split.
      - intros Hag o b Hco [Hso ->]. apply Hag. lia.
      - intros Hag o Ho'. apply (Hag o); [lia|]. split; [lia|done]. }
    rewrite <- Hiff, <- Heq. case_if; split; [done|eauto|by intros []|done].
  - split; [|eauto]. intros _ o b. rewrite has_spec, in_segment_Some. subst e. lia.
Qed.

Lemma scan_chunk_value offset data c us ue ov a' :
  let e := offset + zlen data in
  chunk_ok c -> 0 <= offset -> e <= QuicVarIntMaximum -> 0 <= ov -> ov + ck_Length c < 2 ^ 64 ->
  scan_chunk offset e data c (MkScan us ue ov) = Some a' ->
  a' = MkScan (Z.min (ck_Offset c) us) (Z.max (ck_Offset c + ck_Length c) ue)
         (ov + overlap offset e c).
Proof.
  intros e Hc Ho He Hov Hfit. unfold scan_chunk. rewrite chunk_end_ok by done. simpl.
  pose proof Hc as (? & ? & ? & ? & ? & ? & ?). pose proof (zlen_nonneg data).
  pose proof VarMax_eq. unfold overlap.
  destruct (Z.ltb_spec (ck_Offset c) us), (Z.gtb_spec (ck_Offset c + ck_Length c) ue),
    (Z.gtb_spec offset (ck_Offset c)), (Z.ltb_spec e (ck_Offset c + ck_Length c));
    case_if; try (case_if; [|done]); intros [= <-]; bool_prop; u64_simpl; f_equal; lia.
Qed.

(** What the scan of all the chunks returns: the union of the segment with the
    chunks it touches, whose length is the segment's plus the chunks' less the
    overlap. *)
Record scan_post (offset e : Z) (cs : list QuicStreamChunk) (a a' : Scan) : Prop := {
  sp_start : sc_unionStart a' = sc_unionStart a
             \/ Exists (fun c => affected offset e c = true /\ ck_Offset c = sc_unionStart a') cs;
  sp_end : sc_unionEnd a' = sc_unionEnd a
           \/ Exists (fun c => affected offset e c = true
                               /\ ck_Offset c + ck_Length c = sc_unionEnd a') cs;
  sp_within : Forall (fun c => affected offset e c = true ->
                sc_unionStart a' <= ck_Offset c
                /\ ck_Offset c + ck_Length c <= sc_unionEnd a') cs;
  sp_grow : sc_unionStart a' <= sc_unionStart a /\ sc_unionEnd a <= sc_unionEnd a';
  sp_count : sc_unionEnd a' - sc_unionStart a' + (sc_overlapBytes a' - sc_overlapBytes a)
             = sc_unionEnd a - sc_unionStart a + total (List.filter (affected offset e) cs);
  sp_overlap : sc_overlapBytes a <= sc_overlapBytes a';
}.

(** Of chunks that do not touch, at most one sticks out on either side. *)
Lemma apart_left offset e c cs :
  Forall chunk_ok cs -> Forall (apart c) cs -> ck_Offset c < offset <= ck_Offset c + ck_Length c ->
  Forall (fun d => affected offset e d = true -> offset <= ck_Offset d) cs.
Proof.
  intros Hok Hc Ho. rewrite Forall_forall in *. intros d Hd Haff.
  specialize (Hok d Hd). specialize (Hc d Hd). unfold apart in Hc.
  apply affected_spec in Haff; [|done]. lia.
Qed.
Lemma apart_right offset e c cs :
  Forall chunk_ok cs -> Forall (apart c) cs -> ck_Offset c <= e < ck_Offset c + ck_Length c ->
  Forall (fun d => affected offset e d = true -> ck_Offset d + ck_Length d <= e) cs.
Proof.
  intros Hok Hc Ho. rewrite Forall_forall in *. intros d Hd Haff.
  specialize (Hok d Hd). specialize (Hc d Hd). unfold apart in Hc.
  apply affected_spec in Haff; [|done]. lia.
Qed.

Lemma scan_chunks_post offset data cs a a' :
  let e := offset + zlen data in
  Forall chunk_ok cs -> separated cs -> 0 <= offset -> e <= QuicVarIntMaximum ->
  0 <= sc_overlapBytes a -> sc_overlapBytes a + total cs < 2 ^ 64 ->
  sc_unionStart a <= offset -> e <= sc_unionEnd a ->
  (sc_unionStart a = offset
   \/ Forall (fun c => affected offset e c = true -> offset <= ck_Offset c) cs) ->
  (sc_unionEnd a = e
   \/ Forall (fun c => affected offset e c = true -> ck_Offset c + ck_Length c <= e) cs) ->
  scan_chunks offset e data cs a = Some a' ->
  scan_post offset e cs a a'.
Proof.
  intros e Hok Hsep Ho He. revert a Hsep. induction Hok as [|c cs Hc Hcs IH]; intros a.
  { intros _ Hov Hfit Hs Hu _ _ [= <-]. split; simpl; auto; lia. }
  intros [Hcd Hsep] Hov Hfit Hs Hu HL HR. simpl in *.
  pose proof (total_nonneg _ Hcs). pose proof Hc as (? & ? & _).
  pose proof (zlen_nonneg data) as Hd.
  destruct (affected offset e c) eqn:Haff; simpl.
  2: { intros Hscan. apply IH in Hscan as [P1 P2 P3 P4 P5 P6]; try done; try lia.
       - split; auto; [destruct P1|destruct P2|constructor; [congruence|done]|];
           rewrite ?Exists_cons; auto. simpl. by rewrite Haff.
       - destruct HL as [|HL]; [by left|right]. by inversion HL.
       - destruct HR as [|HR]; [by left|right]. by inversion HR. }
  destruct (scan_chunk offset e data c a) as [a1|] eqn:Hone; [|done]. destruct a as [us ue ov].
  simpl in *. apply scan_chunk_value in Hone as ->; try done; try lia.
  fold e. pose proof Haff as Haff'. apply affected_spec in Haff' as [Ha1 Ha2]; [|done].
  assert (HL' : us = offset \/ offset <= ck_Offset c).
  { destruct HL as [|HL]; [auto|]. inversion HL. auto. }
  assert (HR' : ue = e \/ ck_Offset c + ck_Length c <= e).
  { destruct HR as [|HR]; [auto|]. inversion HR. auto. }
  intros Hscan. apply IH in Hscan as [P1 P2 P3 P4 P5 P6]; simpl in *; unfold overlap in *; try done; try lia.
  - split; simpl.
    + rewrite Exists_cons. destruct P1 as [P1|]; [|auto].
      destruct (Z.min_spec (ck_Offset c) us) as [[? E]|[? E]]; rewrite E in P1; auto.
    + rewrite Exists_cons. destruct P2 as [P2|]; [|auto].
      destruct (Z.max_spec (ck_Offset c + ck_Length c) ue) as [[? E]|[? E]]; rewrite E in P2; auto.
    + constructor; [lia|done].
    + lia.
    + rewrite Haff. simpl. lia.
    + lia.
  - destruct (Z.le_gt_cases offset (ck_Offset c)).
    + destruct HL as [|HL]; [left; lia|right]. by inversion HL.
    + right. apply (apart_left _ _ c); try done; lia.
  - destruct (Z.le_gt_cases (ck_Offset c + ck_Length c) e).
    + destruct HR as [|HR]; [left; lia|right]. by inversion HR.
    + right. apply (apart_right _ _ c); try done; lia.
Qed.

Lemma scan_chunks_agree offset data cs a :
  let e := offset + zlen data in
  Forall chunk_ok cs -> 0 <= offset -> e <= QuicVarIntMaximum ->
  0 <= sc_overlapBytes a -> sc_overlapBytes a + total cs < 2 ^ 64 ->
  (exists a', scan_chunks offset e data cs a = Some a') <-> Forall (agrees offset data) cs.
Proof.
  intros e Hok Ho He. revert a. induction Hok as [|c cs Hc Hcs IH]; intros [us ue ov] Hov Hfit.
  { split; [constructor|eauto]. }
  simpl in *. rewrite Forall_cons. pose proof (total_nonneg _ Hcs). pose proof Hc as (? & ? & _).
  pose proof (scan_chunk_spec offset data c us ue ov Hc Ho He Hov ltac:(lia)) as Hone. fold e in Hone.
  destruct (affected offset e c) eqn:Haff.
  - destruct (scan_chunk offset e data c _) as [a1|] eqn:Hsc.
    + pose proof Hsc as ->%scan_chunk_value; try done; try lia.
      rewrite IH; simpl; unfold overlap; try lia. rewrite <- Hone. split; [eauto|by intros []].
    + rewrite <- Hone. split; intros; by destruct_and?; naive_solver.
  - rewrite IH by (simpl; lia). split; [|by intros []]. intros Hall. split; [|done].
    intros o b. rewrite has_spec, in_segment_Some. intros ? [? _]. exfalso.
    assert (affected offset e c = true); [|congruence]. apply affected_spec; [done|]. subst e. lia.
Qed.

(** ** Copying into the merge buffer *)

Lemma zlen_chunk_data c : chunk_ok c -> zlen (chunk_data c) = ck_Length c.
Proof. intros (? & ? & ? & ? & ? & ? & ?). unfold chunk_data. rewrite zlen_zsub; lia. Qed.

Definition fits (us n : Z) (c : QuicStreamChunk) : Prop :=
  chunk_ok c /\ us <= ck_Offset c /\ ck_Offset c + ck_Length c <= us + n.

Lemma copy_one us c m :
  0 <= us -> fits us (zlen m) c ->
  let m' := mem_copy m (ck_Offset c -! us) (chunk_data c) in
  zlen m' = zlen m
  /\ forall i, 0 <= i ->
       zget m' i = if has c (us + i) then chunk_byte c (us + i) else zget m i.
Proof.
  intros Hus (Hc & Hlo & Hhi). pose proof (zlen_chunk_data c Hc) as Hl.
  pose proof Hc as (? & ? & ? & ? & ? & ? & ?). pose proof VarMax_eq. u64_simpl. simpl. split.
  { rewrite zlen_mem_copy; lia. }
  intros i Hi. rewrite zget_mem_copy by lia. rewrite Hl.
  replace ((ck_Offset c - us <=? i) && _) with (has c (us + i)).
  2:{ unfold has. f_equal; [apply eq_true_iff_eq; rewrite !Z.leb_le; lia|].
      apply eq_true_iff_eq. rewrite !Z.ltb_lt. lia. }
  destruct (has c (us + i)) eqn:Hh; [|done]. apply has_spec in Hh.
  unfold chunk_data, chunk_byte. rewrite zget_zsub by lia. f_equal. lia.
Qed.

Lemma copy_chunks_spec us cs m :
  0 <= us -> Forall (fits us (zlen m)) cs -> separated cs ->
  zlen (copy_chunks us cs m) = zlen m
  /\ forall i, 0 <= i ->
       zget (copy_chunks us cs m) i
       = match stream_byte cs (us + i) with Some b => b | None => zget m i end.
Proof.
  intros Hus. revert m. induction cs as [|c cs IH]; intros m Hf Hs; [done|].
  inversion_clear Hf as [|? ? Hc Hf']. destruct Hs as [Hcd Hs].
  destruct (copy_one us c m Hus Hc) as [Hlen Hget]. simpl copy_chunks.
  destruct (IH (mem_copy m (ck_Offset c -! us) (chunk_data c))) as [Hl Hg]; [by rewrite Hlen|done|].
  split; [lia|]. intros i Hi. rewrite Hg, Hget by done. simpl.
  destruct (has c (us + i)) eqn:Hh; [|by destruct (stream_byte cs _)].
  replace (stream_byte cs (us + i)) with (@None Z); [done|]. symmetry. apply stream_byte_None.
  eapply Forall_impl; [exact Hcd|]. intros d Hd. by apply (apart_has c).
Qed.

(** ** Storing a segment *)

(** The receiving side's invariant, but for the offsets already notified. *)
Record chunks_inv (consumed buffered maxBytes gaps highest : Z) (cs : list QuicStreamChunk) : Prop := {
  ci_ok : Forall chunk_ok cs;
  ci_separated : separated cs;
  ci_unconsumed : Forall (fun c => consumed <= ck_Offset c) cs;
  ci_highest : Forall (fun c => ck_Offset c + ck_Length c <= highest) cs;
  ci_total : total cs = buffered;
  ci_bytes : buffered <= maxBytes < 2 ^ 64;
  ci_gaps : zlen cs <= gaps;
}.

(** The chunk that replaces those a segment touches. *)
Definition merge_chunks (offset e : Z) (data : list Z) (cs : list QuicStreamChunk) (us ue : Z)
    : list QuicStreamChunk :=
  List.filter (fun c => negb (affected offset e c)) cs
  ++ [MkChunk us (ue - us) (ue - us) 0
        (mem_copy (copy_chunks us (List.filter (affected offset e) cs)
                     (replicate (Z.to_nat (ue - us)) 0)) (offset - us) data)].

Lemma zlen_filter {A} (P : A -> bool) cs :
  zlen cs = zlen (List.filter P cs) + zlen (List.filter (fun c => negb (P c)) cs).
Proof.
  induction cs as [|c cs IH]; simpl; [done|]. destruct (P c); simpl; rewrite !zlen_cons; lia.
Qed.

Section store.
  Context (offset : Z) (data : list Z) (cs : list QuicStreamChunk) (us ue ov : Z).
Let e := offset + zlen data.
  Context (Hok : Forall chunk_ok cs) (Hsep : separated cs) (Ho : 0 <= offset)
    (He : e <= QuicVarIntMaximum) (Hne : 0 < zlen data) (Hfit : total cs < 2 ^ 64)
    (Hscan : scan_chunks offset e data cs (MkScan offset e 0) = Some (MkScan us ue ov)).

Lemma store_post : scan_post offset e cs (MkScan offset e 0) (MkScan us ue ov).
  Proof.
    apply scan_chunks_post with (data := data) in Hscan; simpl; try done; try lia; auto.
  Qed.

Lemma store_bounds : 0 <= us <= offset /\ e <= ue <= QuicVarIntMaximum.
  Proof.
    destruct store_post as [P1 P2 _ P4 _ _]. simpl in *. rewrite !Exists_exists in *.
    rewrite Forall_forall in Hok. split; split; try lia.
    - destruct P1 as [|(c & Hc & _ & Hu)]; [lia|]. apply Hok in Hc as (? & ? & _). lia.
    - destruct P2 as [|(c & Hc & _ & Hu)]; [lia|]. apply Hok in Hc as (? & ? & ? & _). lia.
  Qed.

Lemma store_ends lo hi :
    lo <= offset -> e <= hi -> Forall (fun c => lo <= ck_Offset c) cs ->
    Forall (fun c => ck_Offset c + ck_Length c <= hi) cs -> lo <= us /\ ue <= hi.
  Proof.
    intros Hlo Hhi Hl Hh. destruct store_post as [P1 P2 _ P4 _ _]. simpl in *.
    rewrite !Exists_exists, Forall_forall in *. split.
    - destruct P1 as [|(c & Hc & _ & <-)]; [lia|]. auto.
    - destruct P2 as [|(c & Hc & _ & <-)]; [lia|]. auto.
  Qed.

Lemma store_fits : Forall (fits us (ue - us)) (List.filter (affected offset e) cs).
  Proof.
    apply Forall_filter_and. destruct store_post as [_ _ P3 _ _ _]. simpl in *.
    rewrite Forall_forall in *. intros c Hc Haff. destruct (P3 c Hc Haff).
    split; [by apply Hok|]. lia.
  Qed.

  (** Every byte of the union is the segment's or a touched chunk's. *)
Lemma store_covered o :
    us <= o < ue -> in_segment offset data o = None ->
    exists b, stream_byte (List.filter (affected offset e) cs) o = Some b.
  Proof.
    intros Hr Hout. destruct (stream_byte _ o) as [b|] eqn:Hb; [eauto|]. exfalso.
    apply stream_byte_None in Hb. destruct store_post as [P1 P2 _ _ _ _]. simpl in *.
    rewrite !Exists_exists, Forall_forall in *. unfold in_segment in Hout.
    destruct (Z.leb_spec offset o), (Z.ltb_spec o (offset + zlen data)); simpl in *; try done.
    all: [> destruct P2 as [|(c & Hc & Haff & Hu)] | destruct P1 as [|(c & Hc & Haff & Hu)]
         | lia]; try (unfold e in *; lia).
    all: specialize (Hb c ltac:(apply list_elem_of_In, filter_In; split; [by apply list_elem_of_In|done])).
    all: apply affected_spec in Haff; [|by apply Hok]; apply has_false in Hb; unfold e in *; lia.
  Qed.

  (** A chunk the segment does not touch is apart from the union. *)
Lemma store_kept_apart :
    Forall (fun c => affected offset e c = false ->
              ck_Offset c + ck_Length c < us \/ ue < ck_Offset c) cs.
  Proof.
    destruct store_post as [P1 P2 _ _ _ _]. simpl in *. rewrite !Exists_exists in *.
    apply Forall_forall. intros d Hd Haff. pose proof Hok as Hok'. rewrite Forall_forall in Hok'.
    assert (Hout : ck_Offset d + ck_Length d < offset \/ e < ck_Offset d).
    { assert (~ (ck_Offset d <= e /\ offset <= ck_Offset d + ck_Length d)); [|lia].
      rewrite <- affected_spec by (by apply Hok'). congruence. }
    assert (Hap : forall c, c ∈ cs -> affected offset e c = true -> apart c d).
    { intros c Hc Hca. eapply separated_elem; [exact Hsep|done..|]. intros ->. congruence. }
    assert (Hd0 : chunk_ok d) by auto. destruct Hd0 as (? & _).
    destruct Hout as [Hout|Hout]; [left|right].
    - destruct P1 as [->|(c & Hc & Hca & <-)]; [done|]. pose proof (Hap c Hc Hca) as Hcd.
      apply affected_spec in Hca; [|by apply Hok']. unfold apart in Hcd. lia.
    - destruct P2 as [->|(c & Hc & Hca & <-)]; [done|]. pose proof (Hap c Hc Hca) as Hcd.
      apply affected_spec in Hca; [|by apply Hok']. unfold apart in Hcd. lia.
  Qed.

Lemma store_touched_has c o :
    c ∈ cs -> has c o = true -> affected offset e c = true <-> us <= o < ue.
  Proof.
    intros Hc Hh%has_spec. destruct store_post as [_ _ P3 _ _ _]. simpl in *.
    pose proof store_kept_apart as Hk. rewrite Forall_forall in P3, Hk.
    specialize (P3 c Hc). specialize (Hk c Hc).
    destruct (affected offset e c); split; intros; try done.
    - destruct P3; [done|lia].
    - destruct Hk; [done|lia|lia].
  Qed.

  (** The bytes after the merge, around the chunk [new] that holds the union. *)
Lemma store_merge_bytes new o :
    ck_Offset new = us -> ck_Length new = ue - us ->
    (us <= o < ue -> Some (chunk_byte new o) = match in_segment offset data o with
                      | Some b => Some b | None => stream_byte cs o end) ->
    stream_byte (List.filter (fun c => negb (affected offset e c)) cs ++ [new]) o
    = match in_segment offset data o with Some b => Some b | None => stream_byte cs o end.
  Proof.
    intros Hns Hnl Hb. rewrite stream_byte_app, stream_byte_one. destruct store_bounds as [? ?].
    destruct (has new o) eqn:Hh.
    - pose proof Hh as Hr%has_spec. rewrite <- Hb by lia. rewrite stream_byte_filter_None; [done|].
      apply Forall_forall. intros c Hc Hco. apply negb_false_iff.
      apply (store_touched_has c o); [done|done|lia].
    - apply has_false in Hh. rewrite stream_byte_filter.
      + rewrite (proj2 (eq_None_not_Some (in_segment offset data o))).
        * by destruct (stream_byte cs o).
        * intros [b [? _]%in_segment_Some]. unfold e in *. lia.
      + apply Forall_forall. intros c Hc Hco. apply negb_true_iff, not_true_iff_false.
        rewrite (store_touched_has c o) by done. lia.
  Qed.

Lemma store_merged i :
    0 <= i < ue - us ->
    let m := mem_copy (copy_chunks us (List.filter (affected offset e) cs)
                     (replicate (Z.to_nat (ue - us)) 0)) (offset - us) data in
    Some (zget m i) = match in_segment offset data (us + i) with
                      | Some b => Some b | None => stream_byte cs (us + i) end.
  Proof.
    intros Hi m. subst m. destruct store_bounds as [? ?].
    assert (Hz : zlen (replicate (Z.to_nat (ue - us)) 0) = ue - us) by (rewrite zlen_replicate; lia).
    destruct (copy_chunks_spec us (List.filter (affected offset e) cs)
                (replicate (Z.to_nat (ue - us)) 0)) as [Hl Hg];
      [lia|rewrite Hz; apply store_fits|by apply separated_filter|].
    rewrite zget_mem_copy by (unfold e in *; lia).
    destruct (in_segment offset data (us + i)) as [b|] eqn:Hseg.
    - apply in_segment_Some in Hseg as [Hr ->]. case_if; bool_prop.
      + do 2 f_equal. lia.
      + exfalso. destruct (Z.leb_spec (offset - us) i), (Z.ltb_spec i (offset - us + zlen data));
          simpl in *; try discriminate; lia.
    - destruct (store_covered (us + i) ltac:(lia) Hseg) as [b Hb].
      unfold in_segment in Hseg. replace ((offset - us <=? i) && _) with false.
      + rewrite Hg, Hb by lia. rewrite <- Hb. symmetry. symmetry. apply stream_byte_filter.
        eapply Forall_impl; [exact store_kept_apart|]. intros c Hc Hhas.
        destruct (affected offset e c) eqn:Haff; [done|]. apply has_spec in Hhas.
        destruct Hc; [done|lia|lia].
      + symmetry. destruct (Z.leb_spec offset (us + i)), (Z.ltb_spec (us + i) (offset + zlen data));
          simpl in *; try discriminate; apply andb_false_iff;
          rewrite Z.leb_gt, Z.ltb_ge; lia.
  Qed.
End store.

(** Chunks that do not overlap fill at most the interval that holds them. *)
Lemma total_within cs lo hi :
  lo <= hi -> separated cs ->
  Forall (fun c => 0 < ck_Length c /\ lo <= ck_Offset c /\ ck_Offset c + ck_Length c <= hi) cs ->
  total cs <= hi - lo.
Proof.
  remember (length cs) as n eqn:Hn. assert (Hle : (length cs <= n)%nat) by lia. clear Hn.
  revert cs lo hi Hle. induction n as [|n IH]; intros [|c cs] lo hi Hle Hlh Hs Hf; simpl in *; try lia.
  inversion_clear Hf as [|? ? Hc Hf']. destruct Hs as [Hcd Hs].
  set (left := fun d => ck_Offset d <? ck_Offset c). rewrite (total_filter left cs).
  assert (total (List.filter left cs) <= ck_Offset c - lo).
  { apply IH; [|lia|by apply separated_filter|].
    { etrans; [apply List.filter_length_le|lia]. }
    apply Forall_filter_and. rewrite Forall_forall in *. unfold left. intros d Hd Hl.
    specialize (Hf' d Hd). specialize (Hcd d Hd). unfold apart in Hcd. bool_lia. }
  assert (total (List.filter (fun d => negb (left d)) cs) <= hi - (ck_Offset c + ck_Length c)).
  { apply IH; [|lia|by apply separated_filter|].
    { etrans; [apply List.filter_length_le|lia]. }
    apply Forall_filter_and. rewrite Forall_forall in *. unfold left. intros d Hd Hl.
    specialize (Hf' d Hd). specialize (Hcd d Hd). unfold apart in Hcd. bool_lia. }
  lia.
Qed.

Lemma store_overlap_le offset data cs us ue ov :
  let e := offset + zlen data in
  Forall chunk_ok cs -> separated cs -> 0 <= offset -> e <= QuicVarIntMaximum -> 0 < zlen data ->
  total cs < 2 ^ 64 -> scan_chunks offset e data cs (MkScan offset e 0) = Some (MkScan us ue ov) ->
  0 <= ov <= zlen data
  /\ ue - us = zlen data - ov + total (List.filter (affected offset e) cs).
Proof.
  intros e Hok Hsep Ho He Hne Hfit Hscan.
  pose proof (store_post _ _ _ _ _ _ Hok Hsep Ho He Hfit Hscan) as [_ _ _ P4 P5 P6]. simpl in *.
  pose proof (store_fits _ _ _ _ _ _ Hok Hsep Ho He Hfit Hscan) as Hf.
  assert (total (List.filter (affected offset e) cs) <= ue - us).
  { apply total_within; [lia|by apply separated_filter|].
    eapply Forall_impl; [exact Hf|]. intros c ((? & _) & ? & ?). fold e. lia. }
  unfold e in *. split; lia.
Qed.

Lemma merge_chunks_inv offset data cs us ue ov consumed buffered maxBytes gaps highest :
  let e := offset + zlen data in
  chunks_inv consumed buffered maxBytes gaps highest cs ->
  0 <= consumed <= offset -> e <= QuicVarIntMaximum -> 0 < zlen data ->
  scan_chunks offset e data cs (MkScan offset e 0) = Some (MkScan us ue ov) ->
  zlen data - ov <= maxBytes - buffered ->
  List.filter (affected offset e) cs <> [] \/ zlen cs < gaps ->
  chunks_inv consumed (buffered + (zlen data - ov)) maxBytes gaps (Z.max e highest)
    (merge_chunks offset e data cs us ue)
  /\ 0 <= zlen data - ov <= zlen data
  /\ (forall o, stream_byte (merge_chunks offset e data cs us ue) o
       = match in_segment offset data o with Some b => Some b | None => stream_byte cs o end).
Proof.
  intros e [Hok Hsep Hun Hhi Htot Hbytes Hgap] Ho He Hne Hscan Hroom Hslot.
  assert (Hfit : total cs < 2 ^ 64) by lia. assert (Ho' : 0 <= offset) by lia.
  pose proof (store_overlap_le _ _ _ _ _ _ Hok Hsep Ho' He Hne Hfit Hscan) as [Hov Hcount].
  pose proof (store_bounds _ _ _ _ _ _ Hok Hsep Ho' He Hfit Hscan) as [Hus Hue].
  pose proof (store_merged _ _ _ _ _ _ Hok Hsep Ho' He Hne Hfit Hscan) as Hm.
  pose proof (store_kept_apart _ _ _ _ _ _ Hok Hsep Ho' He Hfit Hscan) as Hka.
  fold e in Hscan, Hslot, Hcount, Hue, Hm, Hka.
  set (M := mem_copy _ _ _) in Hm.
  set (new := MkChunk us (ue - us) (ue - us) 0 M).
  assert (HlM : zlen M = ue - us).
  { subst M. destruct (copy_chunks_spec us (List.filter (affected offset e) cs)
      (replicate (Z.to_nat (ue - us)) 0)) as [Hl _]; [lia| |by apply separated_filter|].
    - rewrite zlen_replicate, Z2Nat.id by lia.
      apply (store_fits _ _ _ _ _ _ Hok Hsep Ho' He Hfit Hscan).
    - rewrite zlen_replicate in Hl. rewrite zlen_mem_copy; unfold e in *; lia. }
  destruct (store_ends _ _ _ _ _ _ Hok Hsep Ho' He Hfit Hscan consumed (Z.max e highest))
    as [Hcu Hhu]; [lia|unfold e; lia|done|eapply Forall_impl; [exact Hhi|simpl; lia]|].
  assert (Hnew : chunk_ok new).
  { unfold chunk_ok; simpl. rewrite VarMax_eq in *. unfold e in *. lia. }
  unfold merge_chunks. fold M new.
  split; [split|split; [lia|]].
  - apply Forall_app. split; [by apply Forall_filter|by constructor].
  - apply separated_snoc; [by apply separated_filter|]. apply Forall_filter_and.
    eapply Forall_impl; [exact Hka|]. intros c Hc Haff%negb_true_iff. unfold apart. simpl.
    destruct Hc; [done|right; lia|left; lia].
  - apply Forall_app. split; [by apply Forall_filter|]. constructor; [|done]. by simpl.
  - apply Forall_app. split; [|constructor; [simpl; lia|done]].
    apply Forall_filter. eapply Forall_impl; [exact Hhi|]. simpl. lia.
  - rewrite total_app. simpl. rewrite (total_filter (affected offset e)) in Htot. lia.
  - lia.
  - rewrite zlen_app. change (zlen [new]) with 1. rewrite (zlen_filter (affected offset e)) in Hgap, Hslot.
    destruct Hslot; [|pose proof (zlen_nonneg (List.filter (affected offset e) cs)); lia].
    destruct (List.filter (affected offset e) cs); [done|]. rewrite zlen_cons in *. 
    pose proof (zlen_nonneg l). lia.
  - intros o. apply (store_merge_bytes _ _ _ _ _ _ Hok Hsep Ho' He Hfit Hscan); try done.
    intros Hr. specialize (Hm (o - us) ltac:(lia)). replace (us + (o - us)) with o in Hm by lia.
    rewrite <- Hm. done.
Qed.

(** The buffered bytes lie between the consumed offset and the highest one. *)
Lemma chunks_inv_fill consumed buffered maxBytes gaps highest cs :
  chunks_inv consumed buffered maxBytes gaps highest cs -> consumed <= highest ->
  consumed + buffered <= highest.
Proof.
  intros [Hok Hsep Hu Hh Ht _ _] Hch. rewrite <- Ht.
  enough (total cs <= highest - consumed) by lia. apply total_within; [done|done|].
  rewrite Forall_forall in *. intros c Hc. specialize (Hok c Hc) as (? & _). auto.
Qed.

(** ** The invariant of a stream *)

(** The fields the invariant is about: all but the notification flags. *)
Definition core (s : QuicStream) :=
  (st_streamId s, st_consumedOffset s, st_finalSize s, st_receivedUniqueBytes s,
   st_bufferedBytes s, st_highestReceivedOffset s, st_receiveLimit s, st_sendOffset s,
   st_sendLimit s, st_maxReassemblyBytes s, st_maxGaps s, st_chunks s, st_initialized s,
   st_finalSizeKnown s, st_sendFin s, st_reset s, st_receiveReset s).

Record stream_inv (s : QuicStream) : Prop := {
  si_chunks : chunks_inv (st_consumedOffset s) (st_bufferedBytes s) (st_maxReassemblyBytes s)
                (st_maxGaps s) (st_highestReceivedOffset s) (st_chunks s);
  si_unique : st_receivedUniqueBytes s = st_consumedOffset s + st_bufferedBytes s;
  si_consumed : 0 <= st_consumedOffset s <= st_highestReceivedOffset s;
  si_limit : st_highestReceivedOffset s <= st_receiveLimit s <= QuicVarIntMaximum;
  si_final : 0 <= st_finalSize s <= QuicVarIntMaximum;
  si_send : 0 <= st_sendOffset s <= st_sendLimit s /\ st_sendLimit s <= QuicVarIntMaximum;
  si_reset : st_reset s = true -> st_sendFin s = true;
}.

Lemma inv_core s s' : core s = core s' -> stream_inv s -> stream_inv s'.
Proof.
  intros [= H1 H2 H3 H4 H5 H6 H7 H8 H9 H10 H11 H12 H13 H14 H15 H16 H17] [].
  split; by rewrite <- ?H1, <- ?H2, <- ?H3, <- ?H4, <- ?H5, <- ?H6, <- ?H7, <- ?H8, <- ?H9,
    <- ?H10, <- ?H11, <- ?H12, <- ?H13, <- ?H14, <- ?H15, <- ?H16, <- ?H17.
Qed.

Lemma core_notify e s : core (notify e s) = core s.
Proof. done. Qed.
Lemma core_opened s : core (NotifyOpened s) = core s.
Proof. unfold NotifyOpened. by case_if. Qed.
Lemma core_refresh s : core (RefreshReadableNotification s) = core s.
Proof. unfold RefreshReadableNotification. by repeat case_if. Qed.
Lemma core_writable s : core (NotifyWritable s) = core s.
Proof. unfold NotifyWritable. by case_if. Qed.
Lemma core_reset e b s : core (NotifyReset e b s) = core s.
Proof. unfold NotifyReset. by case_if. Qed.
Lemma core_closed s : core (NotifyClosed s) = core s.
Proof. unfold NotifyClosed. by case_if. Qed.
Lemma core_closed_if s : core (NotifyClosedIfNeeded s) = core s.
Proof. unfold NotifyClosedIfNeeded. case_if; [apply core_closed|done]. Qed.
Lemma core_readable s : core (NotifyApplicationReadable s) = core s.
Proof. unfold NotifyApplicationReadable. by rewrite core_closed_if, core_refresh. Qed.
Lemma core_try s : core (TryNotifyApplicationWritable s) = core s.
Proof. unfold TryNotifyApplicationWritable. case_if; [done|]. by rewrite core_writable. Qed.
Lemma core_sink sink s : core (SetApplicationEventSink sink s) = core s.
Proof.
  unfold SetApplicationEventSink. cbv zeta. case_if; [done|].
  by rewrite core_closed_if, core_refresh, core_opened.
Qed.
Lemma core_notify_if b r : core (notify_if b r).2 = core r.2 /\ (notify_if b r).1 = r.1.
Proof. unfold notify_if. case_if; [|done]. simpl. by rewrite core_readable. Qed.
#[export] Hint Rewrite core_notify core_opened core_refresh core_writable core_reset core_closed
  core_closed_if core_readable core_try core_sink : core.

(** ** Receiving: what changes *)

(** A segment that reaches the buffer is stored whole or refused. *)
Lemma store_segment_spec offset data alloc s :
  let e := offset + zlen data in
  let r := store_segment offset e data alloc s in
  stream_inv s -> 0 < zlen data -> st_consumedOffset s <= offset -> e <= st_receiveLimit s ->
  (r.1 <> STATUS_SUCCESS /\ r.2 = s)
  \/ (r.1 = STATUS_SUCCESS /\ Forall (agrees offset data) (st_chunks s)
      /\ exists cs n, r.2 = s <| st_chunks := cs |>
               <| st_receivedUniqueBytes := st_receivedUniqueBytes s + n |>
               <| st_bufferedBytes := st_bufferedBytes s + n |>
               <| st_highestReceivedOffset := Z.max e (st_highestReceivedOffset s) |>
         /\ chunks_inv (st_consumedOffset s) (st_bufferedBytes s + n) (st_maxReassemblyBytes s)
              (st_maxGaps s) (Z.max e (st_highestReceivedOffset s)) cs
         /\ 0 <= n <= zlen data
         /\ forall o, stream_byte cs o
              = match in_segment offset data o with Some b => Some b | None => stream_byte (st_chunks s) o end).
Proof.
  intros e r Hinv Hne Hco Hel. pose proof Hinv as [Hci Huq Hcons Hlim _ _ _].
  pose proof Hci as [Hok Hsep _ _ Htot Hby _]. pose proof VarMax_eq.
  pose proof (total_nonneg _ Hok).
  assert (Ho : 0 <= offset) by lia. assert (He : e <= QuicVarIntMaximum) by lia.
  assert (Hfit : total (st_chunks s) < 2 ^ 64) by lia.
  pose proof (scan_chunks_agree offset data (st_chunks s) (MkScan offset e 0) Hok Ho He) as Hag.
  simpl in Hag. specialize (Hag ltac:(lia) ltac:(lia)). fold e in Hag.
  subst r. unfold store_segment.
  destruct (scan_chunks offset e data (st_chunks s) _) as [[us ue ov]|] eqn:Hscan; [|by left].
  pose proof (store_overlap_le _ _ _ _ _ _ Hok Hsep Ho He Hne Hfit Hscan) as [Hov Hcnt].
  pose proof (store_bounds _ _ _ _ _ _ Hok Hsep Ho He Hfit Hscan) as [Hus Hue]. fold e in Hue.
  u64_simpl. case_if; [by left|]. case_if; [by left|]. case_if; [by left|]. right.
  split; [done|]. split; [by apply Hag; eauto|]. bool_prop.
  destruct (merge_chunks_inv _ _ _ _ _ _ _ _ _ (st_maxGaps s) (st_highestReceivedOffset s)
    Hci (conj (proj1 Hcons) Hco) He Hne Hscan) as (Hci' & Hn & Hb); [lia| |].
  { fold e. destruct (List.filter (affected offset e) (st_chunks s)); [right|by left].
    destruct (zlen (st_chunks s) >=? st_maxGaps s) eqn:E; [done|bool_lia]. }
  exists (merge_chunks offset e data (st_chunks s) us ue), (zlen data - ov).
  split; [|split; [exact Hci'|split; [lia|exact Hb]]].
  unfold merge_chunks. cbn [snd]. rewrite !u64_id by lia. idtac.
  replace (if e >? st_highestReceivedOffset s then e else st_highestReceivedOffset s)
    with (Z.max e (st_highestReceivedOffset s)); [|destruct (Z.gtb_spec e (st_highestReceivedOffset s)); lia].
  rewrite (u64_id (st_receivedUniqueBytes s + _)); [done|].
  pose proof (chunks_inv_fill _ _ _ _ _ _ Hci' ltac:(lia)). lia.
Qed.

(** [Receive], past its guards, on a stream that was not reset: the core after
    the call, whether it is accepted or refused. *)
Record received (offset : Z) (data : list Z) (s s' : QuicStream) : Prop := {
  re_inv : stream_inv s';
  re_same : (st_streamId s', st_consumedOffset s', st_initialized s', st_receiveReset s',
             st_receiveLimit s', st_sendOffset s', st_sendLimit s', st_sendFin s', st_reset s')
          = (st_streamId s, st_consumedOffset s, st_initialized s, st_receiveReset s,
             st_receiveLimit s, st_sendOffset s, st_sendLimit s, st_sendFin s, st_reset s);
  re_final : st_finalSizeKnown s' = st_finalSizeKnown s /\ st_finalSize s' = st_finalSize s;
  re_bytes : forall o, st_consumedOffset s <= o ->
    stream_byte (st_chunks s') o
    = match in_segment offset data o with Some b => Some b | None => stream_byte (st_chunks s) o end;
  re_agree : forall o b b', st_consumedOffset s <= o -> in_segment offset data o = Some b ->
    stream_byte (st_chunks s) o = Some b' -> b' = b;
  re_highest : st_highestReceivedOffset s' = st_highestReceivedOffset s
    \/ st_highestReceivedOffset s' = Z.max (offset + zlen data) (st_highestReceivedOffset s);
}.

Lemma in_segment_trim offset data k o :
  0 <= k <= zlen data -> offset + k <= o ->
  in_segment (offset + k) (zdrop k data) o = in_segment offset data o.
Proof.
  intros Hk Ho. unfold in_segment. rewrite zlen_zdrop by lia.
  replace (offset + k + (zlen data - k)) with (offset + zlen data) by lia.
  replace (offset + k <=? o) with true by (symmetry; apply Z.leb_le; lia).
  replace (offset <=? o) with true by (symmetry; apply Z.leb_le; lia). simpl.
  case_if; [|done]. rewrite zget_zdrop by lia. do 2 f_equal. lia.
Qed.

Lemma agrees_bytes offset data cs o b b' :
  Forall (agrees offset data) cs -> in_segment offset data o = Some b ->
  stream_byte cs o = Some b' -> b' = b.
Proof.
  induction 1 as [|c cs Hc _ IH]; simpl; [done|]. intros Hs. destruct (has c o) eqn:Hh; [|auto].
  intros [= <-]. by apply (Hc o).
Qed.

Lemma store_received offset data cs n s :
  let e := offset + zlen data in
  let s' := s <| st_chunks := cs |> <| st_receivedUniqueBytes := st_receivedUniqueBytes s + n |>
              <| st_bufferedBytes := st_bufferedBytes s + n |>
              <| st_highestReceivedOffset := Z.max e (st_highestReceivedOffset s) |> in
  stream_inv s -> 0 <= n -> e <= st_receiveLimit s -> st_consumedOffset s <= offset ->
  Forall (agrees offset data) (st_chunks s) ->
  chunks_inv (st_consumedOffset s) (st_bufferedBytes s + n) (st_maxReassemblyBytes s)
    (st_maxGaps s) (Z.max e (st_highestReceivedOffset s)) cs ->
  (forall o, stream_byte cs o
     = match in_segment offset data o with Some b => Some b | None => stream_byte (st_chunks s) o end) ->
  received offset data s s'.
Proof.
  intros e s' [Hci Huq Hcons Hlim Hfin Hsend Hrst] Hn He Hco Hag Hci' Hb. split; try done.
  - split; unfold s'; cbn [set_field st_chunks st_consumedOffset st_bufferedBytes
      st_receivedUniqueBytes st_highestReceivedOffset st_maxReassemblyBytes st_maxGaps st_receiveLimit
      st_finalSize st_sendOffset st_sendLimit st_reset st_sendFin]; try done; lia.
  - intros o b b' _. by apply agrees_bytes.
  - by right.
Qed.

(** A segment that adds no byte at or after the consumed offset. *)
Lemma empty_received offset data s s' :
  (forall o, st_consumedOffset s <= o -> in_segment offset data o = None) ->
  core s' = core s \/ (core s' = core (s <| st_highestReceivedOffset :=
     Z.max (offset + zlen data) (st_highestReceivedOffset s) |>)
     /\ offset + zlen data <= st_receiveLimit s) ->
  stream_inv s -> received offset data s s'.
Proof.
  intros Hno Hs' Hinv. 
  assert (Hsub : exists h, core s' = core (s <| st_highestReceivedOffset := h |>)
    /\ (h = st_highestReceivedOffset s \/ h = Z.max (offset + zlen data) (st_highestReceivedOffset s)
        /\ offset + zlen data <= st_receiveLimit s)).
  { destruct Hs' as [->|[-> ?]]; [exists (st_highestReceivedOffset s)|eexists]; split; auto. }
  clear Hs'. destruct Hsub as (h & Hcore & Hh).
  assert (Hi : stream_inv s').
  { apply (inv_core (s <| st_highestReceivedOffset := h |>)); [done|].
    destruct Hinv as [[] ? ? ? ? ? ?]. split; cbn [set_field st_chunks st_consumedOffset
      st_bufferedBytes st_receivedUniqueBytes st_highestReceivedOffset st_maxReassemblyBytes
      st_maxGaps st_receiveLimit st_finalSize st_sendOffset st_sendLimit st_reset st_sendFin]; try done; try lia.
    split; try done. eapply Forall_impl; [done|]. simpl. lia. }
  injection Hcore as E1 E2 E3 E4 E5 E6 E7 E8 E9 E10 E11 E12 E13 E14 E15 E16 E17.
  split; [done|congruence|done| | |].
  - intros o Ho. rewrite Hno by done. by rewrite E12.
  - intros o b b' Ho. by rewrite Hno.
  - rewrite E6. cbn [set_field st_highestReceivedOffset]. destruct Hh as [->|[-> _]]; auto.
Qed.

Lemma receive_segment_spec offset data alloc s :
  stream_inv s -> 0 <= offset -> offset + zlen data <= st_receiveLimit s ->
  let r := receive_segment offset data alloc s in
  (r.1 <> STATUS_SUCCESS /\ r.2 = s) \/ (r.1 = STATUS_SUCCESS /\ received offset data s r.2).
Proof.
  intros Hinv Ho Hl r. pose proof Hinv as [_ _ Hcons Hlim _ _ _]. pose proof VarMax_eq.
  pose proof (zlen_nonneg data). subst r. unfold receive_segment. u64_simpl.
  destruct (Z.eqb_spec (zlen data) 0) as [Hz|Hz].
  { right. split; [done|]. apply empty_received; [| |done].
    - intros o _. apply eq_None_not_Some. intros [b [? _]%in_segment_Some]. lia.
    - case_if; bool_prop; [right; split; [|done]|by left]. by rewrite Z.max_l by lia. }
  destruct (Z.leb_spec (offset + zlen data) (st_consumedOffset s)).
  { right. split; [done|]. apply empty_received; [|by left|done].
    intros o ?. apply eq_None_not_Some. intros [b [? _]%in_segment_Some]. lia. }
  destruct (Z.ltb_spec offset (st_consumedOffset s)).
  - u64_simpl. set (k := st_consumedOffset s - offset).
    assert (Hk : zlen (zdrop k data) = zlen data - k) by (rewrite zlen_zdrop; unfold k; lia).
    assert (Hoff : st_consumedOffset s = offset + k) by (unfold k; lia).
    rewrite u64_id by lia.
    destruct (store_segment_spec (st_consumedOffset s) (zdrop k data) alloc s)
      as [|(Hr & Hag & cs & n & Hs' & Hci & Hn & Hb)]; try done; try lia; [by left|right].
    split; [done|].
    destruct (store_received (st_consumedOffset s) (zdrop k data) cs n s Hinv)
      as [R1 R2 R3 R4 R5 R6]; try done; try lia.
    rewrite Hs'. split; try done.
    + intros o Hoo. rewrite <- (in_segment_trim offset data k) by lia. rewrite <- Hoff. by apply R4.
    + intros o b b' Hoo. rewrite <- (in_segment_trim offset data k) by lia. rewrite <- Hoff. by apply R5.
    + right. cbn [set_field st_highestReceivedOffset]. f_equal. lia.
  - destruct (store_segment_spec offset data alloc s)
      as [|(Hr & Hag & cs & n & Hs' & Hci & Hn & Hb)]; try done; try lia; [by left|right].
    split; [done|]. rewrite Hs'. apply store_received; try done; lia.
Qed.

(** [Receive] on any arguments: [s1] is the stream with the final size of a FIN. *)
Lemma receive_spec offset data fin nt alloc s :
  let r := Receive offset data fin nt alloc s in
  let e := offset + sp_len data in
  stream_inv s -> 0 <= offset -> 0 <= sp_len data ->
  exists s1,
    (s1 = s \/ fin = true /\ s1 = s <| st_finalSizeKnown := true |> <| st_finalSize := e |>
               /\ st_highestReceivedOffset s <= st_receiveLimit s /\ e <= st_receiveLimit s)
    /\ (r.1 <> STATUS_SUCCESS /\ r.2 = s1
        \/ r.1 = STATUS_SUCCESS /\ st_receiveReset s = true /\ r.2 = s1
        \/ r.1 = STATUS_SUCCESS /\ st_receiveReset s = false /\ e <= st_receiveLimit s
           /\ (fin = true -> st_finalSizeKnown s1 = true /\ st_finalSize s1 = e)
           /\ exists s2, received offset (sp_bytes data) s1 s2 /\ core r.2 = core s2).
Proof.
  intros r e Hinv Ho Hn. subst r. unfold Receive. pose proof VarMax_eq.
  case_if; [exists s; split; [by left|by left]|]. bool_prop.
  case_if; [exists s; split; [by left|by left]|].
  rewrite (u64_id (offset + _)) by (rewrite u64_id in *; lia). fold e.
  case_if; [exists s; split; [by left|by left]|].
  case_if; [exists s; split; [by left|by left]|].
  case_if; [exists s; split; [by left|by left]|]. bool_prop.
  set (s1 := if fin then _ else s). exists s1.
  pose proof Hinv as [_ _ _ Hlim _ _ _].
  split; [destruct fin; [right|left]; unfold s1; repeat split; lia|].
  assert (Hrr : st_receiveReset s1 = st_receiveReset s) by (unfold s1; by destruct fin).
  assert (Hi1 : stream_inv s1).
  { unfold s1. destruct fin; [|done]. destruct Hinv as [? ? ? ? ? ? ?].
    split; cbn [set_field st_chunks st_consumedOffset
      st_bufferedBytes st_receivedUniqueBytes st_highestReceivedOffset st_maxReassemblyBytes
      st_maxGaps st_receiveLimit st_finalSize st_sendOffset st_sendLimit st_reset st_sendFin]; try done; lia. }
  rewrite Hrr. destruct (st_receiveReset s); [case_if; [right; left|left]; done|].
  assert (Hlen : zlen (sp_bytes data) = sp_len data).
  { destruct data; [|done]. simpl in *. destruct (Z.eqb_spec len 0); [by subst|done]. }
  assert (Hl1 : st_receiveLimit s1 = st_receiveLimit s) by (unfold s1; by destruct fin).
  destruct (core_notify_if nt (receive_segment offset (sp_bytes data) alloc s1)) as [Hc Hst].
  destruct (receive_segment_spec offset (sp_bytes data) alloc s1 Hi1 Ho) as [[Hr Hs']|[Hr Hre]];
    [rewrite Hlen, Hl1; fold e; lia|left|right; right]; rewrite Hst.
  - split; [done|]. unfold notify_if. destruct (receive_segment _ _ _ _) as [[] ?]; done.
  - split; [done|]. split; [done|]. split; [lia|]. split; [by intros ->; unfold s1|]. eauto.
Qed.

(** A segment within the limits that contradicts no buffered byte is accepted. *)
Lemma store_accepts offset data s :
  let e := offset + zlen data in
  stream_inv s -> 0 < zlen data -> st_consumedOffset s <= offset -> e <= st_receiveLimit s ->
  Forall (agrees offset data) (st_chunks s) ->
  zlen data <= st_maxReassemblyBytes s - st_bufferedBytes s ->
  zlen (st_chunks s) < st_maxGaps s ->
  (store_segment offset e data true s).1 = STATUS_SUCCESS.
Proof.
  intros e Hinv Hne Hco Hel Hag Hroom Hgap. pose proof Hinv as [Hci _ Hcons Hlim _ _ _].
  pose proof Hci as [Hok Hsep _ _ Htot Hby _]. pose proof VarMax_eq. pose proof (total_nonneg _ Hok).
  assert (Ho : 0 <= offset) by lia. assert (He : e <= QuicVarIntMaximum) by lia.
  assert (Hfit : total (st_chunks s) < 2 ^ 64) by lia.
  apply (scan_chunks_agree offset data (st_chunks s) (MkScan offset e 0) Hok Ho He) in Hag
    as [[us ue ov] Hscan]; [|simpl; lia|simpl; lia].
  pose proof (store_overlap_le _ _ _ _ _ _ Hok Hsep Ho He Hne Hfit Hscan) as [Hov _].
  unfold store_segment. subst e. rewrite Hscan.
  u64_simpl. destruct (Z.gtb_spec (zlen data - ov) (st_maxReassemblyBytes s - st_bufferedBytes s)); [lia|].
  replace (zlen (st_chunks s) >=? st_maxGaps s) with false by (symmetry; rewrite Z.geb_leb; apply Z.leb_gt; lia). by rewrite andb_false_r.
Qed.

(** ** Consuming *)

Lemma find_chunk_Some off cs i :
  find_chunk off cs = Some i -> exists c, cs !! i = Some c /\ ck_Offset c = off.
Proof.
  revert i. induction cs as [|c cs IH]; intros i; [done|]. simpl.
  destruct (Z.eqb_spec (ck_Offset c) off); [intros [= <-]; eauto|].
  destruct (find_chunk off cs) as [j|]; [|done]. intros [= <-]. by apply IH.
Qed.
Lemma find_chunk_None off cs :
  find_chunk off cs = None <-> Forall (fun c => ck_Offset c <> off) cs.
Proof.
  induction cs as [|c cs IH]; [done|]. simpl. rewrite Forall_cons, <- IH.
  destruct (Z.eqb_spec (ck_Offset c) off); [naive_solver|]. destruct (find_chunk off cs); naive_solver.
Qed.

(** Chunks with the same extent or less stay apart; a byte of [c] is read from
    what is left of it. *)
Lemma take_from_chunk_spec i n c cs :
  cs !! i = Some c -> chunk_ok c -> separated cs -> 0 < n <= ck_Length c ->
  exists cs1 cs2 rest, cs = cs1 ++ c :: cs2 /\ take_from_chunk i n c cs = cs1 ++ rest ++ cs2
    /\ ((rest = [] /\ n = ck_Length c) \/ (rest = [advance_chunk n c] /\ n < ck_Length c)).
Proof.
  intros Hi Hc Hs Hn. exists (take i cs), (drop (S i) cs).
  pose proof Hc as (? & ? & ? & ? & ? & ? & ?). pose proof VarMax_eq.
  unfold take_from_chunk, advance_chunk. cbn [ck_Length]. u64_simpl.
  destruct (Z.eqb_spec (ck_Length c - n) 0).
  - exists []. split; [by rewrite take_drop_middle|]. split; [by rewrite delete_take_drop|]. left. split; [done|lia].
  - eexists [_]. split; [by rewrite take_drop_middle|]. split; [|right; split; [done|lia]].
    simpl. apply insert_take_drop. by apply lookup_lt_Some in Hi.
Qed.

Lemma separated_middle cs1 c cs2 :
  separated (cs1 ++ c :: cs2) <-> Forall (apart c) (cs1 ++ cs2) /\ separated (cs1 ++ cs2).
Proof.
  induction cs1 as [|d cs1 IH]; simpl; [done|]. rewrite IH, !Forall_app, !Forall_cons, !Forall_app.
  assert (apart c d <-> apart d c) by (split; apply apart_sym). tauto.
Qed.

Lemma stream_byte_middle cs1 c cs2 o :
  Forall (apart c) cs1 ->
  stream_byte (cs1 ++ c :: cs2) o
  = if has c o then Some (chunk_byte c o) else stream_byte (cs1 ++ cs2) o.
Proof.
  intros Ha. rewrite !stream_byte_app. simpl. destruct (has c o) eqn:Hh; [|done].
  replace (stream_byte cs1 o) with (@None Z); [done|]. symmetry. apply stream_byte_None.
  eapply Forall_impl; [exact Ha|]. intros d Hd. by apply (apart_has c).
Qed.

Lemma advance_ok n c :
  chunk_ok c -> 0 < n < ck_Length c ->
  chunk_ok (advance_chunk n c) /\ ck_Offset (advance_chunk n c) = ck_Offset c + n
  /\ ck_Length (advance_chunk n c) = ck_Length c - n
  /\ (forall o, chunk_byte (advance_chunk n c) o = chunk_byte c o).
Proof.
  intros (? & ? & ? & ? & ? & ? & ?) Hn. unfold chunk_ok, advance_chunk, chunk_byte.
  pose proof VarMax_eq. cbn [ck_Offset ck_Length ck_DataOffset ck_Capacity ck_Data].
  u64_simpl. repeat split; try lia. intros o. f_equal. lia.
Qed.

(** The chunks after the first [n] bytes of the chunk at the consumed offset. *)
Lemma take_from_chunk_inv i n c cs consumed buffered maxBytes gaps highest :
  chunks_inv consumed buffered maxBytes gaps highest cs ->
  cs !! i = Some c -> ck_Offset c = consumed -> 0 < n <= ck_Length c ->
  let cs' := take_from_chunk i n c cs in
  chunks_inv (consumed + n) (buffered - n) maxBytes gaps highest cs'
  /\ (forall o, consumed + n <= o -> stream_byte cs' o = stream_byte cs o)
  /\ (forall o, consumed <= o < consumed + n -> stream_byte cs o = Some (chunk_byte c o)).
Proof.
  intros [Hok Hsep Hun Hhi Htot Hby Hgap] Hi Hoff Hn cs'. subst cs'.
  assert (Hc : chunk_ok c) by (rewrite Forall_lookup in Hok; eauto).
  destruct (take_from_chunk_spec i n c cs Hi Hc Hsep Hn) as (cs1 & cs2 & rest & -> & -> & Hrest).
  apply separated_middle in Hsep as [Hap Hsep]. pose proof Hap as [Hap1 Hap2]%Forall_app.
  rewrite Forall_app, Forall_cons in Hok, Hun, Hhi. rewrite total_app in Htot. simpl total in Htot.
  destruct Hok as (? & _ & ?), Hun as (? & _ & ?), Hhi as (? & ? & ?).
  rewrite zlen_app, zlen_cons in Hgap.
  assert (Hge : forall l, Forall (apart c) l -> Forall (fun d => consumed <= ck_Offset d) l ->
    Forall chunk_ok l -> Forall (fun d => consumed + n <= ck_Offset d) l).
  { intros l. rewrite !Forall_forall. intros Ha Hu Hk d Hd. specialize (Ha d Hd).
    specialize (Hu d Hd). specialize (Hk d Hd) as (? & _). unfold apart in Ha. lia. }
  split; [|split].
  3: { intros o Ho. rewrite stream_byte_middle by done. by rewrite (proj2 (has_spec c o)) by lia. }
  - destruct Hrest as [[-> Hn']|[-> Hn']]; cbn [app].
    + split; rewrite ?Forall_app, ?total_app, ?zlen_app; auto; lia.
    + destruct (advance_ok n c Hc ltac:(lia)) as (Hok' & Ho' & Hl' & _).
      split; rewrite ?Forall_app, ?Forall_cons, ?total_app, ?zlen_app, ?zlen_cons; cbn [total]; auto; try lia.
      * apply separated_middle. split; [|done]. eapply Forall_impl; [exact Hap|].
        unfold apart. intros d. lia.
      * split; [by auto|]. split; [lia|by auto].
      * split; [done|]. split; [lia|done].
  - intros o Ho. rewrite (stream_byte_middle cs1 c) by done.
    destruct Hrest as [[-> Hn']|[-> Hn']]; simpl.
    + by rewrite (proj2 (has_false c o)) by lia.
    + destruct (advance_ok n c Hc ltac:(lia)) as (Hok' & Ho' & Hl' & Hb').
      rewrite stream_byte_middle.
      * rewrite Hb'. replace (has (advance_chunk n c) o) with (has c o); [done|].
        apply eq_true_iff_eq. rewrite !has_spec. lia.
      * eapply Forall_impl; [exact Hap1|]. unfold apart. intros d. lia.
Qed.

(** What a call of [Consume] does. *)
Record consumed (capacity : Z) (s : QuicStream) (out : list Z) (s' : QuicStream) : Prop := {
  cn_inv : stream_inv s';
  cn_offset : st_consumedOffset s' = st_consumedOffset s + zlen out;
  cn_bytes : forall i, 0 <= i < zlen out ->
    stream_byte (st_chunks s) (st_consumedOffset s + i) = Some (zget out i);
  cn_rest : forall o, st_consumedOffset s' <= o ->
    stream_byte (st_chunks s') o = stream_byte (st_chunks s) o;
  cn_capacity : zlen out <= capacity;
  cn_progress : 0 < capacity -> stream_byte (st_chunks s) (st_consumedOffset s) <> None -> out <> [];
  cn_same : (st_initialized s', st_receiveReset s', st_finalSizeKnown s', st_finalSize s',
             st_highestReceivedOffset s', st_receiveLimit s', st_sendOffset s', st_sendFin s')
          = (st_initialized s, st_receiveReset s, st_finalSizeKnown s, st_finalSize s,
             st_highestReceivedOffset s, st_receiveLimit s, st_sendOffset s, st_sendFin s);
}.

Lemma first_byte_chunk consumed buffered maxBytes gaps highest cs :
  chunks_inv consumed buffered maxBytes gaps highest cs -> find_chunk consumed cs = None ->
  stream_byte cs consumed = None.
Proof.
  intros [Hok _ Hun _ _ _ _] Hf%find_chunk_None. apply stream_byte_None.
  rewrite Forall_forall in *. intros c Hc. specialize (Hf c Hc). specialize (Hun c Hc).
  apply has_false. lia.
Qed.

Lemma consume_spec capacity s st out fin s' :
  stream_inv s -> 0 <= capacity -> st_initialized s = true ->
  Consume capacity s = (st, out, fin, s') ->
  consumed capacity s out s' /\ (fin = true -> ReceiveFinished s' = true)
  /\ (st = STATUS_BUFFER_TOO_SMALL -> capacity = 0).
Proof.
  intros Hinv Hcap Hini. unfold Consume. rewrite Hini. simpl negb. cbv iota.
  pose proof Hinv as [Hci Huq Hcons Hlim Hfin Hsend Hrst]. pose proof VarMax_eq.
  assert (Hnil : (0 < capacity -> stream_byte (st_chunks s) (st_consumedOffset s) <> None -> False) ->
    consumed capacity s [] s).
  { intros Hp. split; rewrite ?zlen_nil; try done; try lia; [intros i Hi; change (0 <= i < 0) in Hi; lia|by intros; destruct Hp]. }
  destruct (find_chunk _ _) as [i|] eqn:Hf; simpl.
  2: { intros [= <- <- <- <-]. split; [|split; [done|by case_if]].
       apply Hnil. intros _. by erewrite first_byte_chunk. }
  apply find_chunk_Some in Hf as (c & Hi & Hoff). rewrite Hi. simpl.
  assert (Hc : chunk_ok c) by (destruct Hci as [Hok _ _ _ _ _ _]; rewrite Forall_lookup in Hok; eauto).
  pose proof Hc as (? & ? & ? & ? & ? & ? & ?).
  set (n := if capacity <? ck_Length c then capacity else ck_Length c).
  assert (Hn : n = Z.min capacity (ck_Length c))
    by (unfold n; destruct (Z.ltb_spec capacity (ck_Length c)); lia).
  destruct (Z.eqb_spec n 0) as [Hz|Hz]; intros [= <- <- <- <-].
  { split; [apply Hnil; lia|]. split; [done|lia]. }
  destruct (take_from_chunk_inv i n c _ _ _ _ _ _ Hci Hi Hoff ltac:(lia)) as (Hci' & Hrest & Hfirst).
  pose proof (chunks_inv_fill _ _ _ _ _ _ Hci' ltac:(destruct Hci as [_ _ _ Hh _ _ _];
    rewrite Forall_lookup in Hh; specialize (Hh _ _ Hi); simpl in Hh; lia)).
  assert (Hb : 0 <= st_bufferedBytes s - n).
  { destruct Hci' as [Hok' _ _ _ Ht _ _]. rewrite <- Ht. by apply total_nonneg. }
  destruct Hci as [_ _ _ _ _ Hby _].
  rewrite !u64_id by lia.
  set (s1 := _ <| st_chunks := _ |>).
  assert (Hl : zlen (zsub (ck_Data c) (ck_DataOffset c) n) = n) by (apply zlen_zsub; lia).
  pose proof (core_refresh s1) as Hcore.
  injection Hcore as E1 E2 E3 E4 E5 E6 E7 E8 E9 E10 E11 E12 E13 E14 E15 E16 E17.
  split; [|split; [intros Hf; unfold ReceiveFinished in *; by rewrite E14, E2, E3|done]].
  split; rewrite ?Hl, ?E2, ?E12; try done.
  - apply (inv_core s1); [by rewrite core_refresh|]. unfold s1. split; cbn [set_field st_chunks
      st_consumedOffset st_bufferedBytes st_receivedUniqueBytes st_highestReceivedOffset
      st_maxReassemblyBytes st_maxGaps st_receiveLimit st_finalSize st_sendOffset st_sendLimit
      st_reset st_sendFin]; try done; lia.
  - intros i' Hi'. rewrite Hfirst by lia. unfold chunk_byte. rewrite zget_zsub by lia.
    do 2 f_equal. lia.
  - lia.
  - intros _ _ Hnl. rewrite Hnl, zlen_nil in Hl. lia.
  - congruence.
Qed.

(** ** Histories *)

Inductive StreamOp :=
  | OpReceive (offset : Z) (data : span) (fin notifyApplication allocated : bool)
  | OpConsume (capacity : Z)
  | OpSetReceiveLimit (maximum : Z)
  | OpSetSendLimit (maximum : Z)
  | OpOnMaxStreamData (maximum : Z)
  | OpWrite (data : span) (fin : bool)
  | OpReset (error finalSize : Z)
  | OpOnResetReceived (error finalSize : Z)
  | OpStopSending (error : Z)
  | OpTakeStreamDataBlocked
  | OpMarkApplicationWriteBlocked
  | OpTryNotifyApplicationWritable
  | OpNotifyApplicationReadable
  | OpSetApplicationEventSink (sink : option QuicStreamApplicationEventSink).

(** The status of the call, the bytes it delivers to the application, and the
    stream after it. *)
Definition step (op : StreamOp) (s : QuicStream) : NTSTATUS * list Z * QuicStream :=
  match op with
  | OpReceive offset data fin nt alloc =>
      let r := Receive offset data fin nt alloc s in (r.1, [], r.2)
  | OpConsume capacity => let '(st, out, _, s) := Consume capacity s in (st, out, s)
  | OpSetReceiveLimit m => let r := SetReceiveLimit m s in (r.1, [], r.2)
  | OpSetSendLimit m => let r := SetSendLimit m s in (r.1, [], r.2)
  | OpOnMaxStreamData m => let r := OnMaxStreamData m s in (r.1, [], r.2)
  | OpWrite data fin => let '(st, _, s) := Write data fin s in (st, [], s)
  | OpReset error final => let r := Reset error final s in (r.1, [], r.2)
  | OpOnResetReceived error final => let r := OnResetReceived error final s in (r.1, [], r.2)
  | OpStopSending error => let r := StopSending error s in (r.1, [], r.2)
  | OpTakeStreamDataBlocked => (STATUS_SUCCESS, [], (TakeStreamDataBlocked s).2)
  | OpMarkApplicationWriteBlocked => (STATUS_SUCCESS, [], MarkApplicationWriteBlocked s)
  | OpTryNotifyApplicationWritable => (STATUS_SUCCESS, [], TryNotifyApplicationWritable s)
  | OpNotifyApplicationReadable => (STATUS_SUCCESS, [], NotifyApplicationReadable s)
  | OpSetApplicationEventSink sink => (STATUS_SUCCESS, [], SetApplicationEventSink sink s)
  end.

(** The arguments are values of unsigned types. *)
Definition op_ok (op : StreamOp) : Prop :=
  match op with
  | OpReceive offset data _ _ _ => 0 <= offset /\ 0 <= sp_len data
  | OpConsume capacity => 0 <= capacity
  | OpSetReceiveLimit m | OpSetSendLimit m | OpOnMaxStreamData m => 0 <= m
  | OpWrite data _ => 0 <= sp_len data
  | OpReset _ n | OpOnResetReceived _ n => 0 <= n
  | _ => True
  end.

(** Operations that leave what the receiving side holds alone. *)
Definition receive_view (s : QuicStream) :=
  (st_chunks s, st_consumedOffset s, st_initialized s).

Lemma view_core s s' : core s = core s' -> receive_view s = receive_view s'.
Proof. by intros [= E1 E2 E3 E4 E5 E6 E7 E8 E9 E10 E11 E12 E13 E14 E15 E16 E17];
  unfold receive_view; rewrite E2, E12, E13. Qed.

Ltac stream_fields :=
  cbn [set_field fst snd st_chunks st_consumedOffset st_bufferedBytes st_receivedUniqueBytes
    st_highestReceivedOffset st_maxReassemblyBytes st_maxGaps st_receiveLimit st_finalSize
    st_sendOffset st_sendLimit st_reset st_sendFin].

Lemma can_write length s :
  stream_inv s -> 0 <= length -> NT_SUCCESS (CanWrite length s) = true ->
  st_initialized s = true /\ st_sendFin s = false /\ st_reset s = false
  /\ st_sendOffset s + length <= st_sendLimit s.
Proof.
  intros [_ _ _ _ _ Hsend _] Hl Hw%NT_SUCCESS_true. pose proof VarMax_eq. unfold CanWrite in Hw.
  case_ok Hw. u64_simpl. repeat split; try done; lia.
Qed.

Lemma send_step_inv op s :
  stream_inv s -> op_ok op ->
  match op with OpReceive _ _ _ _ _ | OpConsume _ => False | _ => True end ->
  stream_inv (step op s).2 /\ receive_view (step op s).2 = receive_view s
  /\ (st_receiveReset (step op s).2 = false -> st_receiveReset s = false).
Proof.
  intros Hinv Hok Hop.
  enough (exists s1, core (step op s).2 = core s1 /\ stream_inv s1
      /\ receive_view s1 = receive_view s /\ (st_receiveReset s1 = false -> st_receiveReset s = false))
    as (s1 & Hcore & Hi & Hv & Hr).
  { split; [by apply (inv_core s1)|]. split; [by rewrite (view_core _ s1)|].
    injection Hcore as E1 E2 E3 E4 E5 E6 E7 E8 E9 E10 E11 E12 E13 E14 E15 E16 E17.
    by rewrite E17. }
  pose proof Hinv as [Hci Huq Hcons Hlim Hfin Hsend Hrst]. pose proof VarMax_eq.
  destruct op; try done; simpl in Hok; cbn [step].
  - unfold SetReceiveLimit. case_if; [by exists s|]. bool_prop. eexists; split; [done|].
    split; [split; stream_fields; try done; lia|done].
  - unfold SetSendLimit. case_if; [by exists s|]. bool_prop. stream_fields. rewrite core_try.
    eexists; split; [done|]. split; [split; stream_fields; try done; lia|done].
  - unfold OnMaxStreamData. case_if; [by exists s|]. case_if; [|by exists s]. bool_prop. stream_fields.
    rewrite core_try. eexists; split; [done|]. split; [split; stream_fields; try done; lia|done].
  - unfold Write. case_if; [by exists s|]. bool_prop.
    destruct (NT_SUCCESS (CanWrite (sp_len data) s)) eqn:Hw; simpl.
    + apply can_write in Hw; [|done|done]. rewrite core_closed_if. eexists; split; [done|].
      rewrite u64_id by lia. split; [|done]. split; stream_fields; try done; try lia.
      intros Hr. exfalso. destruct_and?. congruence.
    + exists s. destruct (decide _); done.
  - unfold Reset. repeat (case_if; [by exists s|]). stream_fields.
    rewrite core_closed_if, core_reset. eexists; split; [done|]. split; [split; stream_fields; done|done].
  - unfold OnResetReceived. repeat (case_if; [by exists s|]).
    destruct (st_receiveReset s) eqn:Hrr; [exists s; by rewrite Hrr|]. bool_prop. stream_fields.
    rewrite core_closed_if, core_reset. eexists; split; [done|]. split; [|done].
    split; stream_fields; try done; try lia. destruct Hci as [? ? ? Hh ? ? ?]. split; try done.
    eapply Forall_impl; [exact Hh|]. simpl. lia.
  - unfold StopSending. repeat (case_if; [by exists s|]). by exists s.
  - unfold TakeStreamDataBlocked. case_if; by exists s.
  - by exists s.
  - exists s. stream_fields. by rewrite core_try.
  - exists s. stream_fields. by rewrite core_readable.
  - exists s. stream_fields. by rewrite core_sink.
Qed.

Fixpoint run (ops : list StreamOp) (s : QuicStream)
    : list (StreamOp * NTSTATUS * list Z) * QuicStream :=
  match ops with
  | [] => ([], s)
  | op :: ops =>
      let '(st, out, s) := step op s in
      let '(log, s) := run ops s in
      ((op, st, out) :: log, s)
  end.

Definition delivered (log : list (StreamOp * NTSTATUS * list Z)) : list Z := concat (map snd log).

(** A segment received carries the bytes the peer's stream [S] has there. *)
Definition carries (S : Z -> Z) (op : StreamOp) : Prop :=
  match op with
  | OpReceive offset data _ _ _ => forall o b, in_segment offset (sp_bytes data) o = Some b -> b = S o
  | _ => True
  end.

Record history (S : Z -> Z) (log : list (StreamOp * NTSTATUS * list Z)) (s : QuicStream) : Prop := {
  hi_inv : stream_inv s;
  hi_init : st_initialized s = true;
  hi_len : zlen (delivered log) = st_consumedOffset s;
  hi_out : forall i, 0 <= i < zlen (delivered log) -> zget (delivered log) i = S i;
  hi_buffer : forall o b, st_consumedOffset s <= o -> stream_byte (st_chunks s) o = Some b -> b = S o;
  hi_kept : st_receiveReset s = false ->
    forall offset data fin nt alloc out o,
    In (OpReceive offset data fin nt alloc, STATUS_SUCCESS, out) log ->
    offset <= o < offset + zlen (sp_bytes data) ->
    o < st_consumedOffset s \/ stream_byte (st_chunks s) o = Some (S o);
}.

Lemma delivered_snoc log op st out : delivered (log ++ [(op, st, out)]) = delivered log ++ out.
Proof. unfold delivered. rewrite map_app, concat_app. simpl. by rewrite app_nil_r. Qed.

Lemma history_quiet S log s op st s' :
  history S log s -> stream_inv s' -> receive_view s' = receive_view s ->
  (st_receiveReset s' = false -> st_receiveReset s = false) ->
  (forall offset data fin nt alloc, op <> OpReceive offset data fin nt alloc) ->
  history S (log ++ [(op, st, [])]) s'.
Proof.
  intros [H1 H2 H3 H4 H5 H6] Hinv [= Ec Eo Ei] Hr Hop. split; try congruence.
  - rewrite delivered_snoc, app_nil_r. congruence.
  - by rewrite delivered_snoc, app_nil_r.
  - by rewrite Ec, Eo.
  - rewrite Ec, Eo. intros Hrr offset data fin nt alloc out o Hin. apply in_app_or in Hin as [Hin|[[= ->]|[]]].
    + eauto.
    + by destruct (Hop offset data fin nt alloc).
Qed.

Lemma history_receive S log s offset data fin nt alloc :
  history S log s -> op_ok (OpReceive offset data fin nt alloc) ->
  carries S (OpReceive offset data fin nt alloc) ->
  let r := Receive offset data fin nt alloc s in
  history S (log ++ [(OpReceive offset data fin nt alloc, r.1, [])]) r.2.
Proof.
  intros [H1 H2 H3 H4 H5 H6] [Ho Hl] Hcar r.
  destruct (receive_spec offset data fin nt alloc s H1 Ho Hl) as (s1 & Hs1 & Hcase).
  fold r in Hcase. simpl in Hcar.
  assert (Hi1 : stream_inv s1).
  { destruct Hs1 as [->|(_ & -> & Hlim & He)]; [done|]. destruct H1. split; stream_fields; try done; lia. }
  assert (Hv1 : receive_view s1 = receive_view s /\ st_receiveReset s1 = st_receiveReset s).
  { destruct Hs1 as [->|(_ & -> & _)]; done. }
  destruct Hv1 as [[= Ec Eo Ei] Er].
  destruct Hcase as [[Hst ->]|[(Hst & Hrr & ->)|(Hst & Hrr & _ & _ & s2 & [R1 R2 R3 R4 R5 R6] & Hcore)]].
  - split; rewrite ?delivered_snoc, ?app_nil_r, ?Ec, ?Eo, ?Ei, ?Er; try done.
    intros Hrr offset' data' fin' nt' alloc' out o [Hin|[[=]|[]]]%in_app_or; [eauto|congruence].
  - split; rewrite ?delivered_snoc, ?app_nil_r, ?Ec, ?Eo, ?Ei, ?Er; try done. congruence.
  - injection R2 as F1 F2 F3 F4 F5 F6 F7 F8 F9.
    pose proof (view_core _ _ Hcore) as [= Gc Go Gi].
    assert (Hb : forall o b, st_consumedOffset s <= o -> stream_byte (st_chunks r.2) o = Some b ->
      b = S o).
    { intros o b Ho'. rewrite Gc, R4, Ec by lia.
      destruct (in_segment _ _ _) eqn:Hs; [intros [= <-]; auto|by apply H5]. }
    split; rewrite ?delivered_snoc, ?app_nil_r, ?Go, ?Gi, ?F2, ?F3, ?Eo, ?Ei; try done.
    + by apply (inv_core s2).
    + intros _ offset' data' fin' nt' alloc' out o [Hin|[Heq|[]]]%in_app_or Hr; rewrite Gc.
      * destruct (H6 Hrr _ _ _ _ _ _ _ Hin Hr) as [|Hso]; [by left|].
        destruct (Z.lt_ge_cases o (st_consumedOffset s)); [by left|right].
        rewrite R4, Ec by lia. destruct (in_segment _ _ _) eqn:Hs; [f_equal; auto|done].
      * injection Heq as <- <- <- <- <- _ <-.
        destruct (Z.lt_ge_cases o (st_consumedOffset s)); [by left|right].
        rewrite R4 by lia. rewrite (proj2 (in_segment_Some offset (sp_bytes data) o (zget (sp_bytes data) (o - offset)))
            (conj Hr eq_refl)).
        f_equal. apply Hcar. by apply in_segment_Some.
Qed.

Lemma history_consume S log s capacity st out fin s' :
  history S log s -> 0 <= capacity -> Consume capacity s = (st, out, fin, s') ->
  history S (log ++ [(OpConsume capacity, st, out)]) s'.
Proof.
  intros [H1 H2 H3 H4 H5 H6] Hcap Hc.
  apply consume_spec in Hc as ([C1 C2 C3 C4 C5 C6 C7] & _ & _); [|done..].
  injection C7 as E1 E2 E3 E4 E5 E6 E7 E8. pose proof (zlen_nonneg out).
  pose proof (zlen_nonneg (delivered log)).
  split; rewrite ?delivered_snoc, ?zlen_app; try done; try congruence; try lia.
  - intros i Hi. destruct (Z.lt_ge_cases i (zlen (delivered log))).
    + rewrite zget_app_l by lia. apply H4. lia.
    + rewrite zget_app_r by lia. symmetry. symmetry. rewrite H3 in *.
      specialize (C3 (i - st_consumedOffset s) ltac:(lia)).
      apply H5 in C3; [|lia]. rewrite C3. f_equal. lia.
  - intros o b Ho. rewrite C4 by done. apply H5. lia.
  - rewrite E2. intros Hrr offset data fn nt alloc out' o [Hin|[[=]|[]]]%in_app_or Hr.
    destruct (Z.lt_ge_cases o (st_consumedOffset s')); [by left|right]. rewrite C4 by done.
    destruct (H6 Hrr _ _ _ _ _ _ _ Hin Hr); [lia|done].
Qed.

Lemma history_step S log s op st out s' :
  history S log s -> op_ok op -> carries S op -> step op s = (st, out, s') ->
  history S (log ++ [(op, st, out)]) s'.
Proof.
  intros Hh Hok Hcar Hs. pose proof Hh as [Hi _ _ _ _ _].
  destruct (match op with OpReceive _ _ _ _ _ | OpConsume _ => true | _ => false end) eqn:Hk.
  - destruct op; try done; simpl in Hs.
    + injection Hs as <- <- <-. by apply history_receive.
    + destruct (Consume capacity s) as [[[st' out'] fin] s1] eqn:Hc. injection Hs as <- <- <-.
      by apply (history_consume _ _ s _ _ _ fin).
  - assert (Hq : match op with OpReceive _ _ _ _ _ | OpConsume _ => False | _ => True end)
      by (by destruct op).
    destruct (send_step_inv op s Hi Hok Hq) as (Hi' & Hv & Hr).
    assert (out = []) as ->.
    { destruct op; try done; simpl in Hs; try (by injection Hs).
      destruct (Write _ _ _) as [[? ?] ?]. by injection Hs. }
    rewrite Hs in *. apply (history_quiet _ _ s); try done. intros. by intros ->.
Qed.

Lemma history_run S ops log s :
  history S log s -> Forall op_ok ops -> Forall (carries S) ops ->
  let r := run ops s in history S (log ++ r.1) r.2.
Proof.
  intros Hh Hok. revert log s Hh. induction Hok as [|op ops Hop _ IH]; intros log s Hh Hc; simpl.
  { by rewrite app_nil_r. }
  inversion_clear Hc as [|? ? Hcar Hcs]. destruct (step op s) as [[st out] s1] eqn:Hs.
  specialize (IH (log ++ [(op, st, out)]) s1). destruct (run ops s1) as [log2 s2].
  simpl in *. rewrite <- app_assoc in IH. apply IH; [|done]. by apply (history_step _ _ s).
Qed.

Lemma step_inv op s :
  stream_inv s -> st_initialized s = true -> op_ok op ->
  stream_inv (step op s).2 /\ st_initialized (step op s).2 = true.
Proof.
  intros Hi Hini Hok.
  destruct (match op with OpReceive _ _ _ _ _ | OpConsume _ => true | _ => false end) eqn:Hk.
  - destruct op; try done; simpl.
    + destruct Hok as [Ho Hl].
      destruct (receive_spec offset data fin notifyApplication allocated s Hi Ho Hl)
        as (s1 & Hs1 & Hcase).
      assert (Hi1 : stream_inv s1 /\ st_initialized s1 = true).
      { destruct Hs1 as [->|(_ & -> & Hlim & He)]; [done|]. split; [|done]. destruct Hi.
        split; stream_fields; try done; lia. }
      destruct Hcase as [[_ ->]|[(_ & _ & ->)|(_ & _ & _ & _ & s2 & [R1 R2 _ _ _ _] & Hcore)]]; [done..|].
      injection R2 as _ _ F3 _ _ _ _ _ _.
      pose proof (view_core _ _ Hcore) as [= _ _ Gi]. split; [by apply (inv_core s2)|].
      rewrite Gi, F3. by destruct Hi1.
    + destruct (Consume capacity s) as [[[st out] fin] s1] eqn:Hc. simpl in *.
      apply consume_spec in Hc as ([C1 _ _ _ _ _ C7] & _ & _); [|done..]. split; [done|].
      injection C7 as E1 _ _ _ _ _ _ _. congruence.
  - destruct (send_step_inv op s Hi Hok) as (Hi' & [= _ _ Hv] & _); [by destruct op|].
    split; [done|congruence].
Qed.

Lemma run_inv ops s :
  stream_inv s -> st_initialized s = true -> Forall op_ok ops -> stream_inv (run ops s).2.
Proof.
  intros Hi Hini Hok. revert s Hi Hini. induction Hok as [|op ops Hop _ IH]; intros s Hi Hini; [done|].
  simpl. destruct (step_inv op s Hi Hini Hop) as [Hi' Hini'].
  destruct (step op s) as [[st out] s1]. specialize (IH s1 Hi' Hini'). by destruct (run ops s1).
Qed.

Lemma initialize_inv id maxBytes maxGaps s0 :
  0 <= id <= QuicVarIntMaximum -> 0 < maxBytes < 2 ^ 64 ->
  0 < maxGaps <= WKNET_HARD_MAX_QUIC_STREAM_GAPS ->
  let r := Initialize id maxBytes maxGaps true s0 in
  r.1 = STATUS_SUCCESS /\ forall S, history S [] r.2.
Proof.
  intros Hid Hb Hg r. subst r. unfold Initialize.
  replace (_ || _) with false by (symmetry; rewrite !orb_false_iff, !Z.gtb_ltb, !Z.ltb_ge, !Z.eqb_neq; lia).
  simpl. split; [done|]. intros S. pose proof VarMax_eq. split; simpl; try done.
  - split; simpl; try done; try lia. split; simpl; try done; try lia.
    change (@zlen QuicStreamChunk []) with 0. lia.
  - intros i Hi. change (0 <= i < 0) in Hi. lia.
Qed.

Lemma elem_byte cs c o :
  separated cs -> c ∈ cs -> has c o = true -> stream_byte cs o = Some (chunk_byte c o).
Proof.
  intros Hs (cs1 & cs2 & ->)%list_elem_of_split Hh.
  apply separated_middle in Hs as [[Ha _]%Forall_app _]. by rewrite stream_byte_middle, Hh by done.
Qed.

Lemma receive_accepts offset data fin nt s :
  let e := offset + zlen data in
  stream_inv s -> st_initialized s = true -> st_receiveReset s = false -> 0 <= offset ->
  QuicStreamIsBidirectional (st_streamId s) = true ->
  st_consumedOffset s <= offset -> 0 < zlen data -> e <= st_receiveLimit s ->
  (st_finalSizeKnown s = true -> e <= st_finalSize s /\ (fin = true -> e = st_finalSize s)) ->
  zlen data <= st_maxReassemblyBytes s - st_bufferedBytes s -> zlen (st_chunks s) < st_maxGaps s ->
  (forall o b b', in_segment offset data o = Some b ->
     stream_byte (st_chunks s) o = Some b' -> b' = b) ->
  (Receive offset (Bytes data) fin nt true s).1 = STATUS_SUCCESS.
Proof.
  intros e Hinv Hini Hrr Ho Hbidi Hco Hne Hel Hfs Hroom Hgap Hag.
  pose proof Hinv as [Hci _ _ Hlim _ _ _]. pose proof VarMax_eq.
  assert (Hst : forall k f, (store_segment offset e data true (s <| st_finalSizeKnown := k |>
      <| st_finalSize := f |>)).1 = (store_segment offset e data true s).1).
  { intros k f. unfold store_segment. stream_fields. destruct (scan_chunks _ _ _ _ _) as [[]|]; [|done].
    by repeat case_if. }
  pose proof (store_accepts offset data s Hinv Hne Hco Hel) as Hacc. fold e in Hacc.
  unfold Receive. rewrite Hini, Hbidi. cbn [sp_len sp_isnull sp_bytes negb orb andb].
  u64_simpl. fold e. do 2 guard_false.
  case_if; [bool_prop; exfalso; destruct Hfs; [done|lia]|].
  case_if; [bool_prop; exfalso; destruct Hfs as [? Hf]; [done|]; by rewrite Hf in *|].
  set (s1 := if fin then _ else s).
  assert (Hrr1 : st_receiveReset s1 = false) by (unfold s1; by destruct fin).
  rewrite Hrr1. destruct (core_notify_if nt (receive_segment offset data true s1)) as [_ ->].
  unfold receive_segment. u64_simpl. fold e.
  replace (st_consumedOffset s1) with (st_consumedOffset s) by (unfold s1; by destruct fin).
  do 3 guard_false. transitivity (store_segment offset e data true s).1.
  { unfold s1. destruct fin; [apply Hst|done]. }
  apply Hacc; [|done..]. rewrite Forall_forall. intros c Hc o b Hh Hs.
  destruct Hci as [_ Hsep _ _ _ _ _]. by apply (Hag o b); [|apply elem_byte].
Qed.

(** ** Properties *)

(** C1. Reliable ordered delivery.  On a fresh stream, after any sequence of
    operations in which every received segment carries bytes of one stream [S]
    (in any order, overlapping or repeated), the bytes handed to the
    application are a prefix of [S], exactly as long as the consumed offset;
    every byte of an accepted segment has been delivered or is buffered with its
    value, unless the peer reset the stream; and when the next byte is buffered,
    a call of [Consume] with room for it delivers at least one byte. *)
Theorem stream_delivery S id maxBytes maxGaps s0 ops :
  0 <= id <= QuicVarIntMaximum -> 0 < maxBytes < 2 ^ 64 ->
  0 < maxGaps <= WKNET_HARD_MAX_QUIC_STREAM_GAPS ->
  Forall op_ok ops -> Forall (carries S) ops ->
  let '(log, s) := run ops (Initialize id maxBytes maxGaps true s0).2 in
  zlen (delivered log) = st_consumedOffset s
  /\ (forall i, 0 <= i < zlen (delivered log) -> zget (delivered log) i = S i)
  /\ (st_receiveReset s = false -> forall offset data fin nt alloc out o,
        In (OpReceive offset data fin nt alloc, STATUS_SUCCESS, out) log ->
        offset <= o < offset + zlen (sp_bytes data) ->
        o < zlen (delivered log) \/ stream_byte (st_chunks s) o = Some (S o))
  /\ (forall capacity, 0 < capacity -> stream_byte (st_chunks s) (st_consumedOffset s) <> None ->
        let '(st, out, _, _) := Consume capacity s in
        st = STATUS_SUCCESS /\ zget out 0 = S (st_consumedOffset s) /\ 0 < zlen out <= capacity).
Proof.
  intros Hid Hb Hg Hok Hcar.
  destruct (initialize_inv id maxBytes maxGaps s0 Hid Hb Hg) as [_ Hinit].
  pose proof (history_run S ops [] _ (Hinit S) Hok Hcar) as Hh.
  destruct (run ops _) as [log s]. simpl in Hh. pose proof Hh as [H1 H2 H3 H4 H5 H6].
  split; [done|]. split; [done|]. split; [rewrite H3; eauto|]. intros capacity Hcap Hnext.
  destruct (Consume capacity s) as [[[st out] fin] s'] eqn:Hc.
  assert (Hcap' : 0 <= capacity) by lia.
  pose proof (consume_spec _ _ _ _ _ _ H1 Hcap' H2 Hc) as ([C1 C2 C3 C4 C5 C6 C7] & _ & _).
  specialize (C6 Hcap Hnext). assert (0 < zlen out).
  { destruct out; [done|]. rewrite zlen_cons. pose proof (zlen_nonneg out). lia. }
  split; [|split; [|lia]].
  - revert Hc C6. unfold Consume. case_if; [intros [= <- <- <- <-]; done|].
    destruct (_ ≫= _) as [[i c]|]; [|by intros [= <- <- <- <-]].
    case_if; [|case_if]; try (by intros [= <- <- <- <-]).
    case_if; by intros [= <- <- <- <-].
  - apply H5; [lia|]. rewrite <- (C3 0) by lia. f_equal. lia.
Qed.

Definition demo_ops : list StreamOp :=
  [OpReceive 3 (Bytes [4; 5; 6]) false true true; OpConsume 10;
   OpReceive 1 (Bytes [2; 3; 4]) false true true;
   OpReceive 0 (Bytes [1; 2]) false true true; OpConsume 4].

Lemma demo_carries : Forall (carries (fun o => o + 1)) demo_ops.
Proof.
  forall_list; try done; simpl; intros o b;
    rewrite in_segment_Some; intros [Ho ->]; unfold zlen in Ho; simpl in Ho;
    [assert (o = 3 \/ o = 4 \/ o = 5) as [->|[->| ->]] by lia
    |assert (o = 1 \/ o = 2 \/ o = 3) as [->|[->| ->]] by lia
    |assert (o = 0 \/ o = 1) as [->| ->] by lia]; done.
Qed.

Lemma stream_delivery_witness :
  let '(log, s) := run demo_ops (Initialize 0 64 4 true stream_default).2 in
  delivered log = [1; 2; 3; 4] /\ zlen (delivered log) = st_consumedOffset s.
Proof.
  assert (Hok : Forall op_ok demo_ops) by (forall_list; simpl; unfold zlen; simpl; lia).
  pose proof (stream_delivery (fun o => o + 1) 0 64 4 stream_default demo_ops
    ltac:(rewrite VarMax_eq; lia) ltac:(lia) ltac:(unfold WKNET_HARD_MAX_QUIC_STREAM_GAPS; lia)
    Hok demo_carries) as H.
  destruct (run demo_ops _) as [log s] eqn:Hr. destruct H as [H _].
  split; [|exact H]. vm_compute in Hr. injection Hr as <- <-. reflexivity.
Defined.

(** C2. One call of [Receive] on an initialized stream: an accepted segment
    overlays the buffered bytes from the consumed offset on and changes no other
    byte; a refused one leaves the buffer and its accounting as they were; a
    segment that contradicts a buffered byte is refused; and a non-empty segment
    past the consumed offset, within the advertised limit and the final size,
    with room for it and memory available, is accepted when it contradicts
    nothing. *)
Theorem receive_refines offset data fin nt alloc s :
  stream_inv s -> st_initialized s = true -> st_receiveReset s = false -> 0 <= offset ->
  let r := Receive offset (Bytes data) fin nt alloc s in
  let e := offset + zlen data in
  (r.1 = STATUS_SUCCESS -> forall o, st_consumedOffset s <= o ->
     stream_byte (st_chunks r.2) o
     = match in_segment offset data o with Some b => Some b | None => stream_byte (st_chunks s) o end)
  /\ (r.1 <> STATUS_SUCCESS -> st_chunks r.2 = st_chunks s
        /\ st_bufferedBytes r.2 = st_bufferedBytes s
        /\ st_highestReceivedOffset r.2 = st_highestReceivedOffset s)
  /\ (forall o b b', st_consumedOffset s <= o -> in_segment offset data o = Some b ->
        stream_byte (st_chunks s) o = Some b' -> b <> b' -> r.1 <> STATUS_SUCCESS)
  /\ (QuicStreamIsBidirectional (st_streamId s) = true -> alloc = true ->
      st_consumedOffset s <= offset -> 0 < zlen data -> e <= st_receiveLimit s ->
      (st_finalSizeKnown s = true -> e <= st_finalSize s /\ (fin = true -> e = st_finalSize s)) ->
      zlen data <= st_maxReassemblyBytes s - st_bufferedBytes s ->
      zlen (st_chunks s) < st_maxGaps s ->
      (forall o b b', in_segment offset data o = Some b ->
         stream_byte (st_chunks s) o = Some b' -> b' = b) ->
      r.1 = STATUS_SUCCESS).
Proof.
  intros Hinv Hini Hrr Ho r e. pose proof (zlen_nonneg data) as Hn.
  destruct (receive_spec offset (Bytes data) fin nt alloc s Hinv Ho Hn) as (s1 & Hs1 & Hcase).
  fold r in Hcase. simpl sp_bytes in Hcase.
  assert (E : receive_view s1 = receive_view s /\ st_bufferedBytes s1 = st_bufferedBytes s
    /\ st_highestReceivedOffset s1 = st_highestReceivedOffset s).
  { destruct Hs1 as [->|(_ & -> & _)]; done. }
  destruct E as ([= Ec Eo Ei] & Eb & Eh).
  split; [|split; [|split]].
  - intros Hst. destruct Hcase as [[? _]|[(_ & ? & _)|(_ & _ & _ & _ & s2 & [_ _ _ R4 _ _] & Hcore)]];
      [done|congruence|]. pose proof (view_core _ _ Hcore) as [= Gc _ _].
    intros o Hoo. by rewrite Gc, R4, Ec by lia.
  - intros Hst. destruct Hcase as [[_ ->]|[(? & _)|(? & _)]]; done.
  - intros o b b' Hoo Hs Hb Hne Hst.
    destruct Hcase as [[? _]|[(_ & ? & _)|(_ & _ & _ & _ & s2 & [_ _ _ _ R5 _] & _)]];
      [done|congruence|]. destruct Hne. symmetry. apply (R5 o b b'); [lia|done|congruence].
  - intros Hbidi -> Hco Hne Hel Hfs Hroom Hgap Hag. by apply receive_accepts.
Qed.

Definition demo_stream : QuicStream :=
  (run [OpReceive 3 (Bytes [4; 5; 6]) false true true] (Initialize 0 64 4 true stream_default).2).2.

Lemma receive_refines_witness :
  let r := Receive 1 (Bytes [2; 3; 4]) false true true demo_stream in
  r.1 = STATUS_SUCCESS /\ stream_byte (st_chunks r.2) 1 = Some 2
  /\ (Receive 1 (Bytes [2; 3; 9]) false true true demo_stream).1 <> STATUS_SUCCESS.
Proof.
  assert (Hinv : stream_inv demo_stream).
  { destruct (initialize_inv 0 64 4 stream_default) as [_ H];
      [rewrite VarMax_eq; lia|lia|unfold WKNET_HARD_MAX_QUIC_STREAM_GAPS; lia|].
    apply (history_run (fun o => o + 1) [OpReceive 3 (Bytes [4; 5; 6]) false true true] [] _ (H _)).
    - forall_list. simpl. unfold zlen. simpl. lia.
    - forall_list. intros o b. rewrite in_segment_Some. intros [Ho ->]. unfold zlen in Ho. simpl in Ho.
      assert (o = 3 \/ o = 4 \/ o = 5) as [->|[->| ->]] by lia; done. }
  pose proof (receive_refines 1 [2; 3; 4] false true true demo_stream Hinv eq_refl eq_refl ltac:(lia))
    as (H1 & _).
  pose proof (receive_refines 1 [2; 3; 9] false true true demo_stream Hinv eq_refl eq_refl ltac:(lia))
    as (_ & _ & H3 & _).
  split; [reflexivity|]. split; [exact (H1 eq_refl 1 ltac:(vm_compute; discriminate))|].
  apply (H3 3 9 4); [vm_compute; discriminate|reflexivity|reflexivity|lia].
Defined.

(** Accounting.  Whatever the application and the peer do with a fresh
    stream: the bytes buffered are exactly the bytes of the chunks, never more
    than the reassembly limit, in at most the allowed number of chunks; chunks
    neither overlap nor touch and start at or after the consumed offset; the
    unique bytes received are those consumed plus those buffered; the largest
    offset received never passes the advertised limit; and the bytes sent never
    pass the limit of the peer. *)
Theorem stream_accounting id maxBytes maxGaps s0 ops :
  0 <= id <= QuicVarIntMaximum -> 0 < maxBytes < 2 ^ 64 ->
  0 < maxGaps <= WKNET_HARD_MAX_QUIC_STREAM_GAPS -> Forall op_ok ops ->
  let s := (run ops (Initialize id maxBytes maxGaps true s0).2).2 in
  st_bufferedBytes s = total (st_chunks s)
  /\ 0 <= st_bufferedBytes s <= st_maxReassemblyBytes s
  /\ zlen (st_chunks s) <= st_maxGaps s
  /\ separated (st_chunks s)
  /\ Forall (fun c => 0 < ck_Length c /\ st_consumedOffset s <= ck_Offset c
               /\ ck_Offset c + ck_Length c <= st_highestReceivedOffset s) (st_chunks s)
  /\ st_receivedUniqueBytes s = st_consumedOffset s + st_bufferedBytes s
  /\ st_receivedUniqueBytes s <= st_highestReceivedOffset s <= st_receiveLimit s
  /\ 0 <= st_sendOffset s <= st_sendLimit s /\ st_sendLimit s <= QuicVarIntMaximum.
Proof.
  intros Hid Hb Hg Hok s.
  destruct (initialize_inv id maxBytes maxGaps s0 Hid Hb Hg) as [_ Hinit].
  assert (Hinv : stream_inv s).
  { destruct (Hinit (fun _ => 0)) as [H1 H2 _ _ _ _]. subst s. apply run_inv; done. }
  destruct Hinv as [Hci Huq Hcons Hlim Hfin Hsend Hrst].
  pose proof (chunks_inv_fill _ _ _ _ _ _ Hci (proj2 Hcons)).
  destruct Hci as [Hk Hsep Hun Hhi Htot Hby Hgap]. pose proof (total_nonneg _ Hk).
  repeat split; try done; try lia. rewrite Forall_forall in *. intros c Hc.
  destruct (Hk c Hc) as [? _]. auto.
Qed.

Lemma stream_accounting_witness :
  let s := (run demo_ops (Initialize 0 64 4 true stream_default).2).2 in
  st_bufferedBytes s = 2 /\ st_bufferedBytes s = total (st_chunks s).
Proof.
  assert (Hok : Forall op_ok demo_ops) by (forall_list; simpl; unfold zlen; simpl; lia).
  pose proof (stream_accounting 0 64 4 stream_default demo_ops
    ltac:(rewrite VarMax_eq; lia) ltac:(lia) ltac:(unfold WKNET_HARD_MAX_QUIC_STREAM_GAPS; lia)
    Hok) as (H & _). split; [vm_compute; reflexivity|exact H].
Defined.

Lemma core_send s s' :
  core s = core s' -> st_sendOffset s = st_sendOffset s' /\ st_sendFin s = st_sendFin s'
    /\ st_sendLimit s = st_sendLimit s'.
Proof. by intros [= E1 E2 E3 E4 E5 E6 E7 E8 E9 E10 E11 E12 E13 E14 E15 E16 E17]. Qed.

Lemma other_ops_send op s :
  stream_inv s -> st_initialized s = true -> op_ok op ->
  match op with OpWrite _ _ => False | _ => True end ->
  st_sendOffset (step op s).2 = st_sendOffset s
  /\ (st_sendFin s = true -> st_sendFin (step op s).2 = true).
Proof.
  intros Hinv Hini Hok Hop.
  enough (exists s1, core (step op s).2 = core s1 /\ st_sendOffset s1 = st_sendOffset s
    /\ (st_sendFin s = true -> st_sendFin s1 = true)) as (s1 & Hcore & H1 & H2).
  { apply core_send in Hcore as (-> & -> & _). done. }
  destruct op; try done; cbn [step].
  - destruct Hok as [Ho Hl].
    destruct (receive_spec offset data fin notifyApplication allocated s Hinv Ho Hl)
      as (s1 & Hs1 & Hcase).
    assert (E : st_sendOffset s1 = st_sendOffset s /\ st_sendFin s1 = st_sendFin s)
      by (destruct Hs1 as [->|(_ & -> & _)]; done). destruct E as [E1 E2]. cbn [fst snd].
    destruct Hcase as [[_ ->]|[(_ & _ & ->)|(_ & _ & _ & _ & s2 & [_ R2 _ _ _ _] & ->)]];
      [exists s1; by rewrite E2..|]. injection R2 as _ _ _ _ _ F6 _ F8 _. exists s2.
    rewrite F6, F8, E1, E2. done.
  - destruct (Consume capacity s) as [[[st out] fin] s1] eqn:Hc. cbn [fst snd]. exists s1.
    apply consume_spec in Hc as ([_ _ _ _ _ _ C7] & _ & _); [|done..].
    injection C7 as _ _ _ _ _ _ E7 E8. by rewrite E8.
  - unfold SetReceiveLimit. case_if; by eexists.
  - unfold SetSendLimit. case_if; [by exists s|]. stream_fields. rewrite core_try. by eexists.
  - unfold OnMaxStreamData. repeat (case_if; stream_fields); rewrite ?core_try; by eexists.
  - unfold Reset. repeat (case_if; [by exists s|]). stream_fields.
    rewrite core_closed_if, core_reset. by eexists.
  - unfold OnResetReceived. repeat (case_if; [by exists s|]). stream_fields.
    rewrite core_closed_if, core_reset. by eexists.
  - unfold StopSending. repeat (case_if; [by exists s|]). by eexists.
  - unfold TakeStreamDataBlocked. case_if; by eexists.
  - by eexists.
  - stream_fields. rewrite core_try. by eexists.
  - stream_fields. rewrite core_readable. by eexists.
  - stream_fields. rewrite core_sink. by eexists.
Qed.

Lemma CanWrite_iff length s :
  stream_inv s -> st_initialized s = true -> 0 <= length ->
  NT_SUCCESS (CanWrite length s) = true <->
  (QuicStreamIsBidirectional (st_streamId s) = true \/ QuicStreamIsClientInitiated (st_streamId s) = true)
  /\ st_sendFin s = false /\ st_reset s = false /\ st_sendOffset s + length <= st_sendLimit s.
Proof.
  intros [_ _ _ _ _ Hsend _] Hini Hl. pose proof VarMax_eq. unfold CanWrite. rewrite Hini. cbn [negb].
  destruct (QuicStreamIsBidirectional _), (QuicStreamIsClientInitiated _), (st_sendFin s), (st_reset s);
    cbn [negb andb orb]; try (split; [done|naive_solver]);
    u64_simpl; case_if; bool_prop; split; try done; intros; destruct_and?; repeat split; auto; try lia;
    exfalso; rewrite !orb_true_iff, !Z.gtb_ltb, !Z.ltb_lt in *; lia.
Qed.

Lemma write_null_send len fin s :
  stream_inv s -> st_initialized s = true -> 0 <= len ->
  st_sendOffset (step (OpWrite (Null len) fin) s).2 = st_sendOffset s
  /\ (st_sendFin s = true -> st_sendFin (step (OpWrite (Null len) fin) s).2 = true).
Proof.
  intros Hinv Hini Hl. cbn [step]. unfold Write. rewrite Hini. cbn [negb sp_isnull sp_len orb andb].
  case_if; [done|]. bool_prop. subst len.
  destruct (NT_SUCCESS (CanWrite 0 s)) eqn:Hw; cbn [negb fst snd]; [|by destruct (decide _)].
  apply CanWrite_iff in Hw as (_ & Hf & _ & _); [|done..].
  destruct (core_send _ _ (core_closed_if (s <| st_sendOffset := st_sendOffset s +! 0 |>
      <| st_sendFin := fin |>))) as (-> & -> & _). stream_fields.
  destruct Hinv as [_ _ _ _ _ Hs _]. pose proof VarMax_eq. rewrite Z.add_0_r, u64_id by lia.
  split; [done|congruence].
Qed.

Lemma write_send data fin s :
  stream_inv s -> st_initialized s = true ->
  let s' := (step (OpWrite (Bytes data) fin) s).2 in
  let '(st, accepted, s1) := Write (Bytes data) fin s in
  (st = STATUS_SUCCESS <->
     (QuicStreamIsBidirectional (st_streamId s) = true
      \/ QuicStreamIsClientInitiated (st_streamId s) = true)
     /\ st_sendFin s = false /\ st_reset s = false
     /\ st_sendOffset s + zlen data <= st_sendLimit s)
  /\ (st = STATUS_SUCCESS -> accepted = zlen data
        /\ st_sendOffset s' = st_sendOffset s + zlen data /\ st_sendFin s' = fin)
  /\ (st <> STATUS_SUCCESS -> accepted = 0 /\ st_sendOffset s' = st_sendOffset s
        /\ st_sendFin s' = st_sendFin s)
  /\ (st = STATUS_DEVICE_BUSY -> (TakeStreamDataBlocked s').1 = Some (st_sendLimit s)).
Proof.
  intros Hinv Hini. pose proof (zlen_nonneg data) as Hn.
  pose proof (CanWrite_iff (zlen data) s Hinv Hini Hn) as Hiff.
  assert (Hcw : NT_SUCCESS (CanWrite (zlen data) s) = true ->
    0 <= st_sendOffset s + zlen data < 2 ^ 64).
  { pose proof Hinv as [_ _ _ _ _ Hsend _]. pose proof VarMax_eq.
    intros (_ & _ & _ & Hc)%CanWrite_iff; [lia|done..]. }
  cbn [step]. unfold Write. rewrite Hini. cbn [negb sp_isnull sp_len orb andb].
  destruct (NT_SUCCESS (CanWrite (zlen data) s)) eqn:Hw; cbn [negb fst snd].
  - specialize (Hcw eq_refl). split; [by rewrite <- Hiff|]. split; [|done]. intros _.
    destruct (core_send _ _ (core_closed_if (s <| st_sendOffset := st_sendOffset s +! zlen data |>
      <| st_sendFin := fin |>))) as (-> & -> & _). rewrite u64_id by lia. done.
  - split; [rewrite <- Hiff; split; [intros E; by rewrite E in Hw|done]|]. split; [intros E; by rewrite E in Hw|].
    split; [intros _; by destruct (decide _)|]. intros ->. rewrite decide_True by done.
    unfold TakeStreamDataBlocked. cbn [set_field st_initialized st_streamDataBlockedPending].
    by rewrite Hini.
Qed.

(** The sending side.  A write is accepted exactly when the stream has a
    sending side that is neither finished nor reset and the data fits the limit
    of the peer; it then advances the send offset by its whole length, and a
    write refused for lack of credit marks the stream blocked and sends nothing.
    No other operation moves the send offset, and once the stream is finished or
    reset nothing does. *)
Theorem stream_send op s :
  stream_inv s -> st_initialized s = true -> op_ok op ->
  let s' := (step op s).2 in
  match op with
  | OpWrite (Bytes data) fin =>
      let '(st, accepted, s1) := Write (Bytes data) fin s in
      (st = STATUS_SUCCESS <->
         (QuicStreamIsBidirectional (st_streamId s) = true
          \/ QuicStreamIsClientInitiated (st_streamId s) = true)
         /\ st_sendFin s = false /\ st_reset s = false
         /\ st_sendOffset s + zlen data <= st_sendLimit s)
      /\ (st = STATUS_SUCCESS -> accepted = zlen data
            /\ st_sendOffset s' = st_sendOffset s + zlen data /\ st_sendFin s' = fin)
      /\ (st <> STATUS_SUCCESS -> accepted = 0 /\ st_sendOffset s' = st_sendOffset s
            /\ st_sendFin s' = st_sendFin s)
      /\ (st = STATUS_DEVICE_BUSY -> (TakeStreamDataBlocked s').1 = Some (st_sendLimit s))
  | _ => st_sendOffset s' = st_sendOffset s
         /\ (st_sendFin s = true -> st_sendFin s' = true)
  end.
Proof.
  intros Hinv Hini Hok s'. destruct op as [| | | | |[len|data] fin| | | | | | | |]; subst s';
    try (apply other_ops_send; done).
  - by apply write_null_send.
  - by apply write_send.
Qed.

Lemma stream_send_witness :
  let s := (run [OpOnMaxStreamData 4] (Initialize 0 64 4 true stream_default).2).2 in
  st_sendOffset (step (OpWrite (Bytes [1; 2; 3]) true) s).2 = 3
  /\ (Write (Bytes [1; 2; 3; 4; 5]) false s).1.1 <> STATUS_SUCCESS.
Proof.
  set (s := (run _ _).2).
  assert (Hinv : stream_inv s).
  { apply run_inv; [|reflexivity|forall_list; simpl; lia].
    apply (initialize_inv 0 64 4 stream_default);
      [rewrite VarMax_eq; lia|lia|unfold WKNET_HARD_MAX_QUIC_STREAM_GAPS; lia|exact (fun _ => 0)]. }
  pose proof (stream_send (OpWrite (Bytes [1; 2; 3]) true) s Hinv eq_refl
    ltac:(vm_compute; discriminate)) as (_ & H1 & _).
  pose proof (stream_send (OpWrite (Bytes [1; 2; 3; 4; 5]) false) s Hinv eq_refl
    ltac:(vm_compute; discriminate)) as (H2 & _).
  split; [exact (proj1 (proj2 (H1 eq_refl)))|]. intros E. apply H2 in E as (_ & _ & _ & E).
  vm_compute in E. by destruct E.
Defined.

(** A FIN below data already received is accepted.  Of a stream whose bytes
    0..9 are buffered, [Receive] accepts an empty FIN segment at offset 2: the
    final size becomes 2 although the highest offset received is 10, all ten
    bytes are still handed to the application, and the stream never finishes.
    [OnResetReceived] refuses the same final size. *)
Theorem fin_below_received_accepted :
  let s0 := (Initialize 0 64 4 true stream_default).2 in
  let s1 := (Receive 0 (Bytes [0; 1; 2; 3; 4; 5; 6; 7; 8; 9]) false true true s0).2 in
  let r := Receive 2 (Bytes []) true true true s1 in
  let '(st, out, fin, s2) := Consume 100 r.2 in
  r.1 = STATUS_SUCCESS /\ st_finalSize r.2 = 2 /\ st_highestReceivedOffset r.2 = 10
  /\ out = [0; 1; 2; 3; 4; 5; 6; 7; 8; 9] /\ fin = false /\ ReceiveFinished s2 = false
  /\ (OnResetReceived 0 2 s1).1 = STATUS_INVALID_NETWORK_RESPONSE.
Proof. vm_compute. repeat split. Qed.
