(* ===== verification/QuicFrame.v ===== *)
(** * QUIC frames (src/wknetlib/quic/QuicFrame.cpp)

    [QuicParseFrame], [QuicDecodeAckRanges] and [QuicEncodeFrame].  A parser reads
    at an offset of the payload and returns the next one; a writer appends to the
    output, whose length is the [offset] of the code, and never past [capacity].
    The branches of the two long functions are definitions of their own, named
    after the frame. *)

From S2P Require Import Prelude QuicVarInt QuicAckTracker.

(** ** Data *)

Inductive QuicFrameKind :=
  | Padding | Ping | Ack | ResetStream | StopSending | Crypto | NewToken | Stream
  | MaxData | MaxStreamData | MaxStreams | DataBlocked | StreamDataBlocked | StreamsBlocked
  | NewConnectionId | RetireConnectionId | PathChallenge | PathResponse | ConnectionClose
  | HandshakeDone.
#[export] Instance QuicFrameKind_eq_dec : EqDecision QuicFrameKind.
Proof. solve_decision. Defined.

Record QuicFrame := MkFrame {
  Kind : QuicFrameKind;
  WireType : Z;
  StreamId : Z;
  Offset : Z;
  Length : Z;
  ErrorCode : Z;
  FinalSize : Z;
  Maximum : Z;
  LargestAcknowledged : Z;
  AckDelay : Z;
  AckRangeCount : Z;
  FirstAckRange : Z;
  Sequence : Z;
  RetirePriorTo : Z;
  TriggerFrameType : Z;
  Fin : bool;
  Bidirectional : bool;
  ApplicationClose : bool;
  Data : span;
  ConnectionId : span;
  StatelessResetToken : span;
  ReasonPhrase : span;
  AckRangeData : span;
}.
#[export] Instance QuicFrame_eta : Eta QuicFrame := fun x =>
  MkFrame (Kind x) (WireType x) (StreamId x) (Offset x) (Length x) (ErrorCode x) (FinalSize x)
    (Maximum x) (LargestAcknowledged x) (AckDelay x) (AckRangeCount x) (FirstAckRange x)
    (Sequence x) (RetirePriorTo x) (TriggerFrameType x) (Fin x) (Bidirectional x)
    (ApplicationClose x) (Data x) (ConnectionId x) (StatelessResetToken x) (ReasonPhrase x)
    (AckRangeData x).

Definition frame_default : QuicFrame :=
  MkFrame Padding 0 0 0 0 0 0 0 0 0 0 0 0 0 0 false false false
    (Null 0) (Null 0) (Null 0) (Null 0) (Null 0).

Definition QuicMaximumConnectionIdLength : Z := 20.

(** ** Reading and writing *)

(** [data + offset], of length [length - offset]. *)
Definition sp_drop (offset : Z) (s : span) : span :=
  match s with Null n => Null (n - offset) | Bytes l => Bytes (zdrop offset l) end.

Definition ReadValue (data : span) (offset : Z) : Result (Z * Z) :=
  if offset >? sp_len data then Err STATUS_INVALID_NETWORK_RESPONSE
  else '(value, consumed) ← QuicDecodeVarInt (sp_drop offset data);
       Ok (value, offset +! consumed).

Definition HasBytes (offset count length : Z) : bool :=
  (offset <=? length) && (count <=? length -! offset).

Definition WriteValue (value capacity : Z) (output : list Z) : Result (list Z) :=
  if zlen output >? capacity then Err STATUS_BUFFER_TOO_SMALL
  else
    let encodedLength := QuicVarIntEncodedLength value in
    written ← (if encodedLength =? 0 then Err STATUS_INTEGER_OVERFLOW
               else QuicEncodeVarInt value encodedLength (capacity -! zlen output));
    Ok (output ++ written).

Definition WriteBytes (data : span) (capacity : Z) (output : list Z) : Result (list Z) :=
  if (sp_isnull data && negb (sp_len data =? 0)) || (zlen output >? capacity)
     || (sp_len data >? capacity -! zlen output)
  then Err STATUS_BUFFER_TOO_SMALL
  else Ok (output ++ sp_bytes data).

(** ** Parsing *)

(** The bytes [{data + offset, length}], once a length field allows them. *)
Definition take_view (data : list Z) (offset length : Z) : Result (span * Z) :=
  if (length >? zlen data) || negb (HasBytes offset length (zlen data))
  then Err STATUS_INVALID_NETWORK_RESPONSE
  else Ok (Bytes (zsub data offset length), offset +! length).

Fixpoint skip_ranges (n : nat) (data : list Z) (offset : Z) : Result Z :=
  match n with
  | O => Ok offset
  | S n =>
      '(_, offset) ← ReadValue (Bytes data) offset;
      '(_, offset) ← ReadValue (Bytes data) offset;
      skip_ranges n data offset
  end.

Fixpoint skip_values (n : nat) (data : list Z) (offset : Z) : Result Z :=
  match n with
  | O => Ok offset
  | S n => '(_, offset) ← ReadValue (Bytes data) offset; skip_values n data offset
  end.

Definition parse_ack (data : list Z) (offset : Z) (frame : QuicFrame) : Result (QuicFrame * Z) :=
  '(largest, offset) ← ReadValue (Bytes data) offset;
  '(delay, offset) ← ReadValue (Bytes data) offset;
  '(count, offset) ← ReadValue (Bytes data) offset;
  '(first, offset) ← ReadValue (Bytes data) offset;
  if count >=? WKNET_HARD_MAX_QUIC_ACK_RANGES then Err STATUS_INVALID_NETWORK_RESPONSE
  else
    let rangeDataOffset := offset in
    offset ← skip_ranges (Z.to_nat count) data offset;
    let frame := frame <| Kind := Ack |> <| LargestAcknowledged := largest |>
                   <| AckDelay := delay |> <| AckRangeCount := count |> <| FirstAckRange := first |>
                   <| AckRangeData := Bytes (zsub data rangeDataOffset (offset -! rangeDataOffset)) |> in
    offset ← (if WireType frame =? 0x03 then skip_values 3 data offset else Ok offset);
    Ok (frame, offset).

Definition parse_reset_stream (data : list Z) (offset : Z) (frame : QuicFrame) : Result (QuicFrame * Z) :=
  '(id, offset) ← ReadValue (Bytes data) offset;
  '(error, offset) ← ReadValue (Bytes data) offset;
  '(final, offset) ← ReadValue (Bytes data) offset;
  Ok (frame <| Kind := ResetStream |> <| StreamId := id |> <| ErrorCode := error |>
        <| FinalSize := final |>, offset).

Definition parse_stop_sending (data : list Z) (offset : Z) (frame : QuicFrame) : Result (QuicFrame * Z) :=
  '(id, offset) ← ReadValue (Bytes data) offset;
  '(error, offset) ← ReadValue (Bytes data) offset;
  Ok (frame <| Kind := StopSending |> <| StreamId := id |> <| ErrorCode := error |>, offset).

Definition parse_crypto (data : list Z) (offset : Z) (frame : QuicFrame) : Result (QuicFrame * Z) :=
  let crypto := WireType frame =? 0x06 in
  '(off, offset) ← (if crypto then ReadValue (Bytes data) offset else Ok (0, offset));
  '(length, offset) ← ReadValue (Bytes data) offset;
  '(view, offset) ← take_view data offset length;
  Ok (frame <| Kind := if crypto then Crypto else NewToken |> <| Offset := off |>
        <| Length := length |> <| Data := view |>, offset).

Definition parse_stream (data : list Z) (offset : Z) (frame : QuicFrame) : Result (QuicFrame * Z) :=
  let type := WireType frame in
  '(id, offset) ← ReadValue (Bytes data) offset;
  '(off, offset) ← (if negb (Z.land type 0x04 =? 0) then ReadValue (Bytes data) offset
                    else Ok (0, offset));
  '(length, view, offset) ←
    (if negb (Z.land type 0x02 =? 0) then
       '(length, offset) ← ReadValue (Bytes data) offset;
       '(view, offset) ← take_view data offset length;
       Ok (length, view, offset)
     else
       let length := zlen data -! offset in
       Ok (length, Bytes (zsub data offset length), offset +! length));
  Ok (frame <| Kind := Stream |> <| Fin := negb (Z.land type 0x01 =? 0) |> <| StreamId := id |>
        <| Offset := off |> <| Length := length |> <| Data := view |>, offset).

(** The kind and direction of the frame types 0x10 to 0x17. *)
Definition limit_kind (type : Z) : QuicFrameKind * bool :=
  if type =? 0x10 then (MaxData, false)
  else if type =? 0x11 then (MaxStreamData, false)
  else if type <=? 0x13 then (MaxStreams, type =? 0x12)
  else if type =? 0x14 then (DataBlocked, false)
  else if type =? 0x15 then (StreamDataBlocked, false)
  else (StreamsBlocked, type =? 0x16).

Definition parse_limit (data : list Z) (offset : Z) (frame : QuicFrame) : Result (QuicFrame * Z) :=
  let type := WireType frame in
  '(id, offset) ← (if (type =? 0x11) || (type =? 0x15) then ReadValue (Bytes data) offset
                   else Ok (0, offset));
  '(maximum, offset) ← ReadValue (Bytes data) offset;
  Ok (frame <| Kind := (limit_kind type).1 |> <| Bidirectional := (limit_kind type).2 |>
        <| StreamId := id |> <| Maximum := maximum |>, offset).

Definition parse_new_connection_id (data : list Z) (offset : Z) (frame : QuicFrame)
    : Result (QuicFrame * Z) :=
  '(sequence, offset) ← ReadValue (Bytes data) offset;
  '(retire, offset) ← ReadValue (Bytes data) offset;
  if (retire >? sequence) || negb (HasBytes offset 1 (zlen data))
  then Err STATUS_INVALID_NETWORK_RESPONSE
  else
    let cidLength := zget data offset in
    let offset := offset +! 1 in
    if (cidLength =? 0) || (cidLength >? QuicMaximumConnectionIdLength)
       || negb (HasBytes offset (cidLength +! 16) (zlen data))
    then Err STATUS_INVALID_NETWORK_RESPONSE
    else
      Ok (frame <| Kind := NewConnectionId |> <| Sequence := sequence |> <| RetirePriorTo := retire |>
            <| ConnectionId := Bytes (zsub data offset cidLength) |>
            <| StatelessResetToken := Bytes (zsub data (offset +! cidLength) 16) |>,
          offset +! cidLength +! 16).

Definition parse_retire_connection_id (data : list Z) (offset : Z) (frame : QuicFrame)
    : Result (QuicFrame * Z) :=
  '(sequence, offset) ← ReadValue (Bytes data) offset;
  Ok (frame <| Kind := RetireConnectionId |> <| Sequence := sequence |>, offset).

Definition parse_path (data : list Z) (offset : Z) (frame : QuicFrame) : Result (QuicFrame * Z) :=
  if negb (HasBytes offset 8 (zlen data)) then Err STATUS_BUFFER_TOO_SMALL
  else
    Ok (frame <| Kind := if WireType frame =? 0x1a then PathChallenge else PathResponse |>
          <| Data := Bytes (zsub data offset 8) |>, offset +! 8).

Definition parse_connection_close (data : list Z) (offset : Z) (frame : QuicFrame)
    : Result (QuicFrame * Z) :=
  let type := WireType frame in
  '(error, offset) ← ReadValue (Bytes data) offset;
  '(trigger, offset) ← (if type =? 0x1c then ReadValue (Bytes data) offset else Ok (0, offset));
  '(length, offset) ← ReadValue (Bytes data) offset;
  '(view, offset) ← take_view data offset length;
  Ok (frame <| Kind := ConnectionClose |> <| ApplicationClose := type =? 0x1d |>
        <| ErrorCode := error |> <| TriggerFrameType := trigger |> <| Length := length |>
        <| ReasonPhrase := view |>, offset).

(** The frame and the bytes consumed; the output pointers are not null. *)
Definition QuicParseFrame (data : span) : Result (QuicFrame * Z) :=
  if sp_isnull data || (sp_len data =? 0) then Err STATUS_INVALID_PARAMETER
  else
    '(type, offset) ← ReadValue data 0;
    let data := sp_bytes data in
    let frame := frame_default <| WireType := type |> in
    if type =? 0x00 then Ok (frame <| Kind := Padding |>, offset)
    else if type =? 0x01 then Ok (frame <| Kind := Ping |>, offset)
    else if (type =? 0x02) || (type =? 0x03) then parse_ack data offset frame
    else if type =? 0x04 then parse_reset_stream data offset frame
    else if type =? 0x05 then parse_stop_sending data offset frame
    else if (type =? 0x06) || (type =? 0x07) then parse_crypto data offset frame
    else if (0x08 <=? type) && (type <=? 0x0f) then parse_stream data offset frame
    else if (0x10 <=? type) && (type <=? 0x17) then parse_limit data offset frame
    else if type =? 0x18 then parse_new_connection_id data offset frame
    else if type =? 0x19 then parse_retire_connection_id data offset frame
    else if (type =? 0x1a) || (type =? 0x1b) then parse_path data offset frame
    else if (type =? 0x1c) || (type =? 0x1d) then parse_connection_close data offset frame
    else if type =? 0x1e then Ok (frame <| Kind := HandshakeDone |>, offset)
    else Err STATUS_NOT_SUPPORTED.

(** ** The ranges of an ACK frame *)

(** The loop over [ranges[1 .. required)]; [previous] is [ranges[index - 1]]. *)
Fixpoint decode_ranges (n : nat) (data : span) (offset : Z) (previous : QuicAckRange)
    : Result (list QuicAckRange * Z) :=
  match n with
  | O => Ok ([], offset)
  | S n =>
      '(gap, offset) ← ReadValue data offset;
      '(rangeLength, offset) ← ReadValue data offset;
      if (Smallest previous <? 2) || (gap >? Smallest previous -! 2)
      then Err STATUS_INVALID_NETWORK_RESPONSE
      else
        let largest := Smallest previous -! gap -! 2 in
        if rangeLength >? largest then Err STATUS_INVALID_NETWORK_RESPONSE
        else
          let range := MkRange (largest -! rangeLength) largest in
          '(ranges, offset) ← decode_ranges n data offset range;
          Ok (range :: ranges, offset)
  end.

(** A failed read in the loop is reported as an invalid response. *)
Definition network_error {A} (r : Result A) : Result A :=
  match r with Ok a => Ok a | Err _ => Err STATUS_INVALID_NETWORK_RESPONSE end.

Definition QuicDecodeAckRanges (frame : QuicFrame) (rangeCapacity : Z) : Result (list QuicAckRange) :=
  let required := AckRangeCount frame +! 1 in
  if negb (bool_decide (Kind frame = Ack)) || (required >? rangeCapacity)
     || (required >? WKNET_HARD_MAX_QUIC_ACK_RANGES)
     || (FirstAckRange frame >? LargestAcknowledged frame)
  then Err STATUS_INVALID_PARAMETER
  else
    let first := MkRange (LargestAcknowledged frame -! FirstAckRange frame)
                   (LargestAcknowledged frame) in
    '(ranges, offset) ← network_error
       (decode_ranges (Z.to_nat (required - 1)) (AckRangeData frame) 0 first);
    if negb (offset =? sp_len (AckRangeData frame)) then Err STATUS_INVALID_NETWORK_RESPONSE
    else Ok (first :: ranges).

(** ** Encoding *)

(** The validation loop; [previous] is [ackRanges[index - 1]]. *)
Fixpoint ack_ranges_ordered (previous : option QuicAckRange) (ranges : list QuicAckRange) : bool :=
  match ranges with
  | [] => true
  | r :: rest =>
      if (Smallest r >? Largest r)
         || match previous with
            | None => false
            | Some p => (Smallest p <? 2) || (Largest r >? Smallest p -! 2)
            end
      then false
      else ack_ranges_ordered (Some r) rest
  end.

Fixpoint write_ranges (capacity : Z) (previous : QuicAckRange) (ranges : list QuicAckRange)
    (output : list Z) : Result (list Z) :=
  match ranges with
  | [] => Ok output
  | r :: rest =>
      let gap := Smallest previous -! Largest r -! 2 in
      output ← WriteValue gap capacity output;
      output ← WriteValue (Largest r -! Smallest r) capacity output;
      write_ranges capacity r rest output
  end.

Definition encode_ack (frame : QuicFrame) (ackRanges : list QuicAckRange) (capacity : Z)
    : Result (list Z) :=
  match ackRanges with
  | [] => Err STATUS_INVALID_PARAMETER
  | first :: rest =>
      if zlen ackRanges >? WKNET_HARD_MAX_QUIC_ACK_RANGES then Err STATUS_INVALID_PARAMETER
      else if negb (ack_ranges_ordered None ackRanges) then Err STATUS_INVALID_PARAMETER
      else
        output ← WriteValue 0x02 capacity [];
        output ← WriteValue (Largest first) capacity output;
        output ← WriteValue (AckDelay frame) capacity output;
        output ← WriteValue (zlen ackRanges -! 1) capacity output;
        output ← WriteValue (Largest first -! Smallest first) capacity output;
        write_ranges capacity first rest output
  end.

Definition encode_padding (frame : QuicFrame) (capacity : Z) : Result (list Z) :=
  let paddingLength := if Length frame =? 0 then 1 else Length frame in
  if paddingLength >? capacity then Err STATUS_BUFFER_TOO_SMALL
  else Ok (replicate (Z.to_nat paddingLength) 0).

Definition encode_reset_stream (frame : QuicFrame) (capacity : Z) : Result (list Z) :=
  output ← WriteValue 0x04 capacity [];
  output ← WriteValue (StreamId frame) capacity output;
  output ← WriteValue (ErrorCode frame) capacity output;
  WriteValue (FinalSize frame) capacity output.

Definition encode_stop_sending (frame : QuicFrame) (capacity : Z) : Result (list Z) :=
  output ← WriteValue 0x05 capacity [];
  output ← WriteValue (StreamId frame) capacity output;
  WriteValue (ErrorCode frame) capacity output.

Definition encode_crypto (frame : QuicFrame) (capacity : Z) : Result (list Z) :=
  let crypto := bool_decide (Kind frame = Crypto) in
  output ← WriteValue (if crypto then 0x06 else 0x07) capacity [];
  output ← (if crypto then WriteValue (Offset frame) capacity output else Ok output);
  output ← WriteValue (sp_len (Data frame)) capacity output;
  WriteBytes (Data frame) capacity output.

Definition encode_stream (frame : QuicFrame) (capacity : Z) : Result (list Z) :=
  let wireType := Z.lor 0x0e (if Fin frame then 1 else 0) in
  output ← WriteValue wireType capacity [];
  output ← WriteValue (StreamId frame) capacity output;
  output ← WriteValue (Offset frame) capacity output;
  output ← WriteValue (sp_len (Data frame)) capacity output;
  WriteBytes (Data frame) capacity output.

Definition limit_type (frame : QuicFrame) : Z :=
  match Kind frame with
  | MaxData => 0x10
  | MaxStreamData => 0x11
  | MaxStreams => if Bidirectional frame then 0x12 else 0x13
  | DataBlocked => 0x14
  | StreamDataBlocked => 0x15
  | _ => if Bidirectional frame then 0x16 else 0x17
  end.

Definition encode_limit (frame : QuicFrame) (capacity : Z) : Result (list Z) :=
  output ← WriteValue (limit_type frame) capacity [];
  output ← (if bool_decide (Kind frame = MaxStreamData) || bool_decide (Kind frame = StreamDataBlocked)
            then WriteValue (StreamId frame) capacity output else Ok output);
  WriteValue (Maximum frame) capacity output.

Definition encode_new_connection_id (frame : QuicFrame) (capacity : Z) : Result (list Z) :=
  if sp_isnull (ConnectionId frame) || (sp_len (ConnectionId frame) =? 0)
     || (sp_len (ConnectionId frame) >? QuicMaximumConnectionIdLength)
     || negb (sp_len (StatelessResetToken frame) =? 16)
     || (RetirePriorTo frame >? Sequence frame)
  then Err STATUS_INVALID_PARAMETER
  else
    output ← WriteValue 0x18 capacity [];
    output ← WriteValue (Sequence frame) capacity output;
    output ← WriteValue (RetirePriorTo frame) capacity output;
    output ← (if zlen output >=? capacity then Err STATUS_BUFFER_TOO_SMALL
              else Ok (output ++ [u8 (sp_len (ConnectionId frame))]));
    output ← WriteBytes (ConnectionId frame) capacity output;
    WriteBytes (StatelessResetToken frame) capacity output.

Definition encode_path (frame : QuicFrame) (capacity : Z) : Result (list Z) :=
  if negb (sp_len (Data frame) =? 8) then Err STATUS_INVALID_PARAMETER
  else
    output ← WriteValue (if bool_decide (Kind frame = PathChallenge) then 0x1a else 0x1b) capacity [];
    WriteBytes (Data frame) capacity output.

Definition encode_connection_close (frame : QuicFrame) (capacity : Z) : Result (list Z) :=
  output ← WriteValue (if ApplicationClose frame then 0x1d else 0x1c) capacity [];
  output ← WriteValue (ErrorCode frame) capacity output;
  output ← (if negb (ApplicationClose frame) then WriteValue (TriggerFrameType frame) capacity output
            else Ok output);
  output ← WriteValue (sp_len (ReasonPhrase frame)) capacity output;
  WriteBytes (ReasonPhrase frame) capacity output.

(** The bytes written to [output]; the output pointers are not null. *)
Definition QuicEncodeFrame (frame : QuicFrame) (ackRanges : list QuicAckRange) (capacity : Z)
    : Result (list Z) :=
  match Kind frame with
  | Padding => encode_padding frame capacity
  | Ping => WriteValue 0x01 capacity []
  | Ack => encode_ack frame ackRanges capacity
  | ResetStream => encode_reset_stream frame capacity
  | StopSending => encode_stop_sending frame capacity
  | Crypto | NewToken => encode_crypto frame capacity
  | Stream => encode_stream frame capacity
  | MaxData | MaxStreamData | MaxStreams | DataBlocked | StreamDataBlocked | StreamsBlocked =>
      encode_limit frame capacity
  | NewConnectionId => encode_new_connection_id frame capacity
  | RetireConnectionId =>
      output ← WriteValue 0x19 capacity [];
      WriteValue (Sequence frame) capacity output
  | PathChallenge | PathResponse => encode_path frame capacity
  | ConnectionClose => encode_connection_close frame capacity
  | HandshakeDone => WriteValue 0x1e capacity []
  end.

(** ** What the encoder writes and the parser reads *)

(** [w] is a wire form of the integer [v]. *)
Definition vi (v : Z) (w : list Z) : Prop :=
  0 <= v <= QuicVarIntMaximum /\ 1 <= zlen w <= 8 /\ bytes w
  /\ forall suffix, QuicDecodeVarInt (Bytes (w ++ suffix)) = Ok (v, zlen w).

(** [rest] is what is left of [data] at [offset]. *)
Definition at_ (data : list Z) (offset : Z) (rest : list Z) : Prop :=
  0 <= offset /\ zdrop offset data = rest /\ offset + zlen rest = zlen data /\ zlen data < 2 ^ 64.

Lemma at_app data offset w rest :
  at_ data offset (w ++ rest) -> at_ data (offset + zlen w) rest /\ zsub data offset (zlen w) = w.
Proof.
  intros (Ho & Hd & Hl & Hb). rewrite zlen_app in Hl. pose proof (zlen_nonneg w). split.
  - split; [lia|]. split; [|split; [lia|done]].
    rewrite <- zdrop_zdrop by lia. rewrite Hd. apply zdrop_app_len.
  - unfold zsub. rewrite Hd. apply ztake_app_len.
Qed.

Lemma at_bound data offset rest : at_ data offset rest -> 0 <= offset <= zlen data /\ zlen data < 2 ^ 64.
Proof. intros (Ho & _ & Hl & Hb). pose proof (zlen_nonneg rest). lia. Qed.

Lemma read_at data offset v w rest :
  at_ data offset (w ++ rest) -> vi v w ->
  ReadValue (Bytes data) offset = Ok (v, offset + zlen w) /\ at_ data (offset + zlen w) rest.
Proof.
  intros Hat (Hv & Hw & _ & Hdec). destruct (at_app _ _ _ _ Hat) as [Hat' _]. split; [|done].
  destruct (at_bound _ _ _ Hat') as [? ?]. destruct Hat as (Ho & Hd & Hl & Hb).
  pose proof (zlen_nonneg w). unfold ReadValue. cbn [sp_len sp_drop].
  guard_false. rewrite Hd, Hdec. simpl. by rewrite u64_id by lia.
Qed.

Lemma write_value v capacity out out' :
  0 <= v -> WriteValue v capacity out = Ok out' ->
  exists w, out' = out ++ w /\ vi v w /\ zlen out' <= capacity.
Proof.
  intros Hv. unfold WriteValue. case_if; [done|]. bool_prop.
  case_if; [done|]. intros (w & Hw & [= <-])%bind_Ok. exists w.
  pose proof (zlen_nonneg out). split; [done|].
  assert (Hr : forall suffix, QuicDecodeVarInt (Bytes (w ++ suffix)) = Ok (v, zlen w))
    by (intros; by eapply varint_roundtrip).
  apply varint_written in Hw as (Hl & Hc & Hb & Hm); [|done].
  split; [split_and!; done || lia|]. rewrite zlen_app.
  pose proof (u64_le (capacity - zlen out)). lia.
Qed.

Lemma write_bytes d capacity out out' :
  WriteBytes d capacity out = Ok out' ->
  out' = out ++ sp_bytes d /\ zlen (sp_bytes d) = sp_len d /\ zlen out' <= capacity.
Proof.
  unfold WriteBytes. case_if; [done|]. intros [= <-]. bool_prop. pose proof (zlen_nonneg out).
  pose proof (u64_le (capacity - zlen out)).
  assert (zlen (sp_bytes d) = sp_len d).
  { destruct d; [|done]. simpl in *. destruct (Z.eqb_spec len 0); [by subst|done]. }
  rewrite zlen_app. split; [done|]. split; lia.
Qed.

Lemma take_at data offset d rest :
  at_ data offset (d ++ rest) ->
  take_view data offset (zlen d) = Ok (Bytes d, offset + zlen d) /\ at_ data (offset + zlen d) rest.
Proof.
  intros Hat. destruct (at_app _ _ _ _ Hat) as [Hat' Hs]. split; [|done].
  destruct (at_bound _ _ _ Hat') as [? ?], (at_bound _ _ _ Hat) as [? ?]. pose proof (zlen_nonneg d).
  unfold take_view, HasBytes. u64_simpl. rewrite Hs.
  replace (_ || _) with false; [done|]. symmetry. rewrite orb_false_iff, negb_false_iff, andb_true_iff.
  rewrite Z.gtb_ltb, Z.ltb_ge, !Z.leb_le. lia.
Qed.

(** ** Round trips *)

(** The scalar fields hold values of unsigned types. *)
Definition frame_ok (f : QuicFrame) : Prop :=
  Forall (Z.le 0) [StreamId f; Offset f; ErrorCode f; FinalSize f; Maximum f; AckDelay f;
                   Sequence f; RetirePriorTo f; TriggerFrameType f;
                   Length f; sp_len (Data f); sp_len (ReasonPhrase f)]
  /\ bytes (sp_bytes (ConnectionId f)).

(** The frame the parser returns: what the wire carries of [f]. *)
Definition wire_frame (f : QuicFrame) : QuicFrame :=
  let d := frame_default <| Kind := Kind f |> in
  match Kind f with
  | Ping => d <| WireType := 0x01 |>
  | ResetStream => d <| WireType := 0x04 |> <| StreamId := StreamId f |>
                     <| ErrorCode := ErrorCode f |> <| FinalSize := FinalSize f |>
  | StopSending => d <| WireType := 0x05 |> <| StreamId := StreamId f |> <| ErrorCode := ErrorCode f |>
  | Crypto => d <| WireType := 0x06 |> <| Offset := Offset f |> <| Length := sp_len (Data f) |>
                <| Data := Bytes (sp_bytes (Data f)) |>
  | NewToken => d <| WireType := 0x07 |> <| Length := sp_len (Data f) |>
                  <| Data := Bytes (sp_bytes (Data f)) |>
  | Stream => d <| WireType := if Fin f then 0x0f else 0x0e |> <| Fin := Fin f |>
                <| StreamId := StreamId f |> <| Offset := Offset f |> <| Length := sp_len (Data f) |>
                <| Data := Bytes (sp_bytes (Data f)) |>
  | MaxData | DataBlocked => d <| WireType := limit_type f |> <| Maximum := Maximum f |>
  | MaxStreamData | StreamDataBlocked =>
      d <| WireType := limit_type f |> <| StreamId := StreamId f |> <| Maximum := Maximum f |>
  | MaxStreams | StreamsBlocked =>
      d <| WireType := limit_type f |> <| Bidirectional := Bidirectional f |> <| Maximum := Maximum f |>
  | NewConnectionId =>
      d <| WireType := 0x18 |> <| Sequence := Sequence f |> <| RetirePriorTo := RetirePriorTo f |>
        <| ConnectionId := Bytes (sp_bytes (ConnectionId f)) |>
        <| StatelessResetToken := Bytes (sp_bytes (StatelessResetToken f)) |>
  | RetireConnectionId => d <| WireType := 0x19 |> <| Sequence := Sequence f |>
  | PathChallenge => d <| WireType := 0x1a |> <| Data := Bytes (sp_bytes (Data f)) |>
  | PathResponse => d <| WireType := 0x1b |> <| Data := Bytes (sp_bytes (Data f)) |>
  | ConnectionClose =>
      d <| WireType := if ApplicationClose f then 0x1d else 0x1c |>
        <| ApplicationClose := ApplicationClose f |> <| ErrorCode := ErrorCode f |>
        <| TriggerFrameType := if ApplicationClose f then 0 else TriggerFrameType f |>
        <| Length := sp_len (ReasonPhrase f) |> <| ReasonPhrase := Bytes (sp_bytes (ReasonPhrase f)) |>
  | HandshakeDone => d <| WireType := 0x1e |>
  | Padding | Ack => d
  end.

(** Split a chain of writes into the pieces written. *)
Ltac split_writes H :=
  lazymatch type of H with
  | (WriteValue _ _ _ ≫= _) = Ok _ =>
      let o := fresh "o" in let Hw := fresh "Hw" in let w := fresh "w" in let Hv := fresh "Hv" in
      apply bind_Ok in H as (o & Hw & H);
      apply write_value in Hw as (w & -> & Hv & _); [|assumption || lia]; split_writes H
  | (Ok _ ≫= _) = Ok _ => rewrite bind_Ok_l in H; split_writes H
  | (WriteBytes _ _ _ ≫= _) = Ok _ =>
      let o := fresh "o" in let Hw := fresh "Hw" in let Hl := fresh "Hl" in
      apply bind_Ok in H as (o & Hw & H); apply write_bytes in Hw as (-> & Hl & _); split_writes H
  | WriteValue _ _ _ = Ok _ =>
      let w := fresh "w" in let Hv := fresh "Hv" in
      apply write_value in H as (w & -> & Hv & _); [|assumption || lia]
  | WriteBytes _ _ _ = Ok _ => let Hl := fresh "Hl" in apply write_bytes in H as (-> & Hl & _)
  | _ => idtac
  end.

(** Read back the next piece. *)
Ltac read_next :=
  match goal with
  | Hat : at_ ?data ?o (?w ++ _), Hv : vi ?v ?w |- context [ReadValue (Bytes ?data) ?o] =>
      let E := fresh "E" in
      destruct (read_at data o v w _ Hat Hv) as [E ?]; clear Hat; rewrite E, bind_Ok_l; clear E;
      cbv beta iota
  | Hat : at_ ?data ?o (sp_bytes ?d ++ _), Hl : zlen (sp_bytes ?d) = sp_len ?d
    |- context [take_view ?data ?o (sp_len ?d)] =>
      let E := fresh "E" in
      rewrite <- Hl; destruct (take_at data o (sp_bytes d) _ Hat) as [E ?]; clear Hat;
      rewrite E, bind_Ok_l; clear E; cbv beta iota
  end.

Lemma at_end data out rest offset :
  data = out ++ rest -> at_ data offset rest -> offset = zlen out.
Proof. intros -> (_ & _ & Hl & _). rewrite zlen_app in Hl. lia. Qed.

Lemma parse_type data t w rest :
  at_ data 0 (w ++ rest) -> vi t w ->
  sp_isnull (Bytes data) || (sp_len (Bytes data) =? 0) = false
  /\ ReadValue (Bytes data) 0 = Ok (t, zlen w) /\ at_ data (zlen w) rest.
Proof.
  intros Hat Hv. destruct (read_at _ _ _ _ _ Hat Hv) as [E Hat']. split; [|by rewrite E].
  destruct (at_bound _ _ _ Hat'). destruct Hv as (_ & ? & _). simpl. apply Z.eqb_neq. lia.
Qed.

(** Evaluate the tests of integer constants. *)
Ltac lit :=
  repeat match goal with
  | |- context [?a =? ?b] =>
      let r := eval vm_compute in (a =? b) in
      lazymatch r with true => idtac | false => idtac end; change (a =? b) with r
  | |- context [?a <=? ?b] =>
      let r := eval vm_compute in (a <=? b) in
      lazymatch r with true => idtac | false => idtac end; change (a <=? b) with r
  end; cbn [orb andb negb].

Ltac open_round_trip Hok H :=
  destruct Hok as [Hok Hcid]; repeat (apply Forall_cons in Hok as [? Hok]); split_writes H;
  lazymatch goal with
  | |- QuicParseFrame (Bytes (?out ++ ?rest)) = _ =>
      let Hdata := fresh "Hdata" in let data := fresh "data" in
      let Hat := fresh "Hat" in
      remember (out ++ rest) as data eqn:Hdata;
      assert (Hat : at_ data 0 data) by (split_and!; done || lia);
      rewrite Hdata in Hat at 2; rewrite <- !app_assoc in Hat; cbn [app] in Hat
  end.

(** Read the frame type and select the branch. *)
Ltac start_parse :=
  match goal with
  | Hat : at_ ?data 0 (?w ++ _), Hv : vi ?t ?w |- context [QuicParseFrame (Bytes ?data)] =>
      let Hg := fresh "Hg" in let E := fresh "E" in
      destruct (parse_type data t w _ Hat Hv) as (Hg & E & ?); clear Hat;
      unfold QuicParseFrame; rewrite Hg, E, bind_Ok_l; clear Hg E; cbv beta iota zeta;
      cbn [sp_bytes]; lit; cbv iota
  end.

Ltac close_round_trip :=
  match goal with
  | Hdata : ?data = ?out ++ ?rest, Hat : at_ ?data ?o ?rest |- Ok (_, ?o) = Ok (_, _) =>
      rewrite (at_end data out rest o Hdata Hat)
  end.

(** Compare the frame read with the frame that was encoded. *)
Ltac finish_round_trip :=
  unfold wire_frame, limit_type, limit_kind;
  repeat match goal with
  | H : Kind ?f = _ |- context [Kind ?f] => rewrite H
  | H : Fin ?f = _ |- context [Fin ?f] => rewrite H
  | H : Bidirectional ?f = _ |- context [Bidirectional ?f] => rewrite H
  | H : ApplicationClose ?f = _ |- context [ApplicationClose ?f] => rewrite H
  | H : zlen (sp_bytes ?d) = sp_len ?d |- context [zlen (sp_bytes ?d)] => rewrite H
  end; reflexivity.

Lemma reset_stream_roundtrip f capacity out rest :
  Kind f = ResetStream -> frame_ok f -> encode_reset_stream f capacity = Ok out ->
  zlen (out ++ rest) < 2 ^ 64 ->
  QuicParseFrame (Bytes (out ++ rest)) = Ok (wire_frame f, zlen out).
Proof.
  intros HK Hok H Hb. unfold encode_reset_stream in H. open_round_trip Hok H.
  start_parse. unfold parse_reset_stream. repeat read_next. close_round_trip.
  finish_round_trip.
Qed.

Lemma stop_sending_roundtrip f capacity out rest :
  Kind f = StopSending -> frame_ok f -> encode_stop_sending f capacity = Ok out ->
  zlen (out ++ rest) < 2 ^ 64 ->
  QuicParseFrame (Bytes (out ++ rest)) = Ok (wire_frame f, zlen out).
Proof.
  intros HK Hok H Hb. unfold encode_stop_sending in H. open_round_trip Hok H.
  start_parse. unfold parse_stop_sending. repeat read_next. close_round_trip.
  finish_round_trip.
Qed.

(** Decide the tests on the kind in the encoder's branch. *)
Ltac kind_test H :=
  repeat match type of H with
  | context [bool_decide (?a = ?b)] =>
      first [rewrite (bool_decide_true (a = b)) in H by done
            |rewrite (bool_decide_false (a = b)) in H by done]
  end; cbn [orb negb] in H; cbv zeta beta iota in H.

Lemma crypto_roundtrip f capacity out rest :
  Kind f = Crypto \/ Kind f = NewToken -> frame_ok f -> encode_crypto f capacity = Ok out ->
  zlen (out ++ rest) < 2 ^ 64 ->
  QuicParseFrame (Bytes (out ++ rest)) = Ok (wire_frame f, zlen out).
Proof.
  intros HK Hok H Hb. unfold encode_crypto in H.
  destruct HK as [HK|HK]; rewrite HK in H; kind_test H; open_round_trip Hok H; start_parse;
    unfold parse_crypto; cbn [set_field WireType]; lit; rewrite ?bind_Ok_l; cbv beta iota zeta;
    repeat read_next; close_round_trip; finish_round_trip.
Qed.

Lemma stream_roundtrip f capacity out rest :
  Kind f = Stream -> frame_ok f -> encode_stream f capacity = Ok out ->
  zlen (out ++ rest) < 2 ^ 64 ->
  QuicParseFrame (Bytes (out ++ rest)) = Ok (wire_frame f, zlen out).
Proof.
  intros HK Hok H Hb. unfold encode_stream in H. cbv zeta in H.
  destruct (Fin f) eqn:HF; [change (Z.lor 0x0e 1) with 0x0f in H|change (Z.lor 0x0e 0) with 0x0e in H];
    open_round_trip Hok H; start_parse; unfold parse_stream; cbn [set_field WireType]; cbv zeta; lit;
    cbv iota; repeat (read_next; rewrite ?bind_Ok_l; cbv beta iota); close_round_trip;
    finish_round_trip.
Qed.

Lemma limit_roundtrip f capacity out rest :
  Kind f ∈ [MaxData; MaxStreamData; MaxStreams; DataBlocked; StreamDataBlocked; StreamsBlocked] ->
  frame_ok f -> encode_limit f capacity = Ok out ->
  zlen (out ++ rest) < 2 ^ 64 ->
  QuicParseFrame (Bytes (out ++ rest)) = Ok (wire_frame f, zlen out).
Proof.
  intros HK Hok H Hb. unfold encode_limit, limit_type in H.
  rewrite !elem_of_cons in HK.
  destruct (Bidirectional f) eqn:HB;
  destruct HK as [HK|[HK|[HK|[HK|[HK|[HK|HK]]]]]]; try (by apply elem_of_nil in HK);
    rewrite HK in H; kind_test H; open_round_trip Hok H; start_parse; unfold parse_limit;
    cbn [set_field WireType]; cbv zeta; lit; rewrite ?bind_Ok_l; cbv beta iota;
    repeat read_next; close_round_trip; finish_round_trip.
Qed.

Lemma retire_roundtrip f capacity out rest :
  Kind f = RetireConnectionId -> frame_ok f ->
  (output ← WriteValue 0x19 capacity []; WriteValue (Sequence f) capacity output) = Ok out ->
  zlen (out ++ rest) < 2 ^ 64 ->
  QuicParseFrame (Bytes (out ++ rest)) = Ok (wire_frame f, zlen out).
Proof.
  intros HK Hok H Hb. open_round_trip Hok H. start_parse. unfold parse_retire_connection_id.
  repeat read_next. close_round_trip. finish_round_trip.
Qed.

Lemma plain_roundtrip f t capacity out rest :
  (Kind f = Ping /\ t = 0x01) \/ (Kind f = HandshakeDone /\ t = 0x1e) -> frame_ok f ->
  WriteValue t capacity [] = Ok out -> zlen (out ++ rest) < 2 ^ 64 ->
  QuicParseFrame (Bytes (out ++ rest)) = Ok (wire_frame f, zlen out).
Proof.
  intros [[HK ->]|[HK ->]] Hok H Hb; open_round_trip Hok H; start_parse; close_round_trip;
    finish_round_trip.
Qed.

Lemma connection_close_roundtrip f capacity out rest :
  Kind f = ConnectionClose -> frame_ok f -> encode_connection_close f capacity = Ok out ->
  zlen (out ++ rest) < 2 ^ 64 ->
  QuicParseFrame (Bytes (out ++ rest)) = Ok (wire_frame f, zlen out).
Proof.
  intros HK Hok H Hb. unfold encode_connection_close in H.
  destruct (ApplicationClose f) eqn:HA; kind_test H; open_round_trip Hok H; start_parse;
    unfold parse_connection_close; cbn [set_field WireType]; cbv zeta; lit;
    repeat (read_next; rewrite ?bind_Ok_l; cbv beta iota); close_round_trip;
    finish_round_trip.
Qed.

Lemma has_bytes_at data offset d rest :
  at_ data offset (d ++ rest) -> HasBytes offset (zlen d) (zlen data) = true.
Proof.
  intros Hat. destruct (at_app _ _ _ _ Hat) as [Hat' _].
  destruct (at_bound _ _ _ Hat), (at_bound _ _ _ Hat'). unfold HasBytes. u64_simpl.
  apply andb_true_iff. rewrite !Z.leb_le. lia.
Qed.

Lemma path_roundtrip f capacity out rest :
  Kind f = PathChallenge \/ Kind f = PathResponse -> frame_ok f -> encode_path f capacity = Ok out ->
  zlen (out ++ rest) < 2 ^ 64 ->
  QuicParseFrame (Bytes (out ++ rest)) = Ok (wire_frame f, zlen out).
Proof.
  intros HK Hok H Hb. unfold encode_path in H. destruct (Z.eqb_spec (sp_len (Data f)) 8) as [H8|]; [|done].
  cbn [negb] in H.
  destruct HK as [HK|HK]; rewrite HK in H; kind_test H; open_round_trip Hok H; start_parse;
    unfold parse_path; cbn [set_field WireType];
    match goal with Hat : at_ _ _ (sp_bytes (Data f) ++ _) |- _ =>
      destruct (at_app _ _ _ _ Hat) as [Hat' Hs]; pose proof (has_bytes_at _ _ _ _ Hat) as Hh;
      destruct (at_bound _ _ _ Hat') end;
    rewrite Hl, H8 in *; rewrite Hh, Hs; cbn [negb]; lit; rewrite u64_id by lia; close_round_trip;
    finish_round_trip.
Qed.

Lemma new_connection_id_roundtrip f capacity out rest :
  Kind f = NewConnectionId -> frame_ok f -> encode_new_connection_id f capacity = Ok out ->
  zlen (out ++ rest) < 2 ^ 64 ->
  QuicParseFrame (Bytes (out ++ rest)) = Ok (wire_frame f, zlen out).
Proof.
  intros HK Hok H Hb. unfold encode_new_connection_id in H. case_if_in H; [done|]. bool_prop.
  destruct Hok as [Hok Hcid]. repeat (apply Forall_cons in Hok as [? Hok]). split_writes H.
  apply bind_Ok in H as (o & Hw & H). case_if_in Hw; [done|]. injection Hw as <-. split_writes H.
  set (cid := sp_bytes (ConnectionId f)) in *. set (tok := sp_bytes (StatelessResetToken f)) in *.
  assert (Hu : u8 (sp_len (ConnectionId f)) = zlen cid).
  { unfold QuicMaximumConnectionIdLength in *. pose proof (zlen_nonneg cid).
    unfold u8. rewrite Z.mod_small; lia. }
  rewrite Hu in *. set (lb := [zlen cid]) in *.
  remember (_ ++ rest) as data eqn:Hdata.
  assert (Hat : at_ data 0 data) by (split_and!; done || lia).
  rewrite Hdata in Hat at 2. rewrite <- !app_assoc in Hat. cbn [app] in Hat.
  start_parse. unfold parse_new_connection_id. repeat read_next.
  match goal with H : at_ _ ?o (lb ++ _) |- _ =>
    pose proof (has_bytes_at _ _ _ _ H) as Hlb; destruct (at_app _ _ _ _ H) as [Hat1 Hsub];
    destruct (at_bound _ _ _ H); set (off := o) in *; change (zlen lb) with 1 in * end.
  assert (Hget : zget data off = zlen cid).
  { rewrite <- (Z.add_0_r off), <- (zget_zsub data off 1 0) by lia. by rewrite Hsub. }
  destruct (at_bound _ _ _ Hat1). rewrite Hlb, Hget. cbv zeta. rewrite u64_id by lia.
  pose proof (at_app _ _ _ _ Hat1) as [Hat2 Hsub2]. pose proof (at_app _ _ _ _ Hat2) as [Hat3 Hsub3].
  pose proof (has_bytes_at _ _ (cid ++ tok) rest ltac:(rewrite <- app_assoc; exact Hat1)) as Hh2.
  rewrite zlen_app in Hh2. destruct (at_bound _ _ _ Hat2), (at_bound _ _ _ Hat3).
  assert (Htok : zlen tok = 16) by lia. rewrite Htok in *. pose proof (zlen_nonneg cid).
  u64_simpl.
  rewrite Hh2, Hsub2, Hsub3. cbn [negb].
  replace ((RetirePriorTo f >? Sequence f) || false) with false by (symmetry; rewrite orb_false_r, Z.gtb_ltb, Z.ltb_ge; lia).
  replace (_ || false) with false
    by (symmetry; rewrite !orb_false_iff, Z.eqb_neq, Z.gtb_ltb, Z.ltb_ge;
        unfold QuicMaximumConnectionIdLength in *; pose proof (zlen_nonneg cid); split_and!; done || lia).
  rewrite (at_end _ _ _ _ Hdata Hat3). finish_round_trip.
Qed.

(** ** ACK frames *)

(** The wire form of the ranges below [previous]. *)
Inductive ranges_wire : QuicAckRange -> list QuicAckRange -> list Z -> Prop :=
  | rw_nil p : ranges_wire p [] []
  | rw_cons p r rest wg wl w :
      vi (Smallest p - Largest r - 2) wg -> vi (Largest r - Smallest r) wl ->
      2 <= Smallest p -> Largest r <= Smallest p - 2 -> 0 <= Smallest r <= Largest r ->
      ranges_wire r rest w -> ranges_wire p (r :: rest) (wg ++ wl ++ w).

Lemma ack_ranges_ordered_cons p r rest :
  ack_ranges_ordered (Some p) (r :: rest) = true -> 0 <= Smallest p < 2 ^ 64 ->
  Smallest r <= Largest r /\ 2 <= Smallest p /\ Largest r <= Smallest p - 2
  /\ ack_ranges_ordered (Some r) rest = true.
Proof.
  simpl. case_if; [done|]. bool_prop. intros Ho Hp. rewrite u64_id in * by lia.
  repeat split; (done || lia).
Qed.

Lemma write_ranges_spec capacity p ranges out out' :
  0 <= Smallest p < 2 ^ 64 -> Forall (fun r => 0 <= Smallest r) ranges ->
  ack_ranges_ordered (Some p) ranges = true -> write_ranges capacity p ranges out = Ok out' ->
  exists tail, out' = out ++ tail /\ ranges_wire p ranges tail.
Proof.
  intros Hp Hr. revert p out Hp. induction Hr as [|r ranges Hr0 _ IH]; intros p out Hp Ho.
  { intros [= <-]. exists []. rewrite app_nil_r. split; [done|constructor]. }
  apply ack_ranges_ordered_cons in Ho as (? & ? & ? & Ho); [|done]. cbn [write_ranges]. cbv zeta.
  u64_simpl. intros Hout. split_writes Hout. destruct (IH r _ ltac:(lia) Ho Hout) as (tail & -> & Ht).
  exists (w ++ w0 ++ tail). rewrite <- !app_assoc. split; [done|]. by constructor.
Qed.

Lemma skip_ranges_at p ranges tail data o rest :
  ranges_wire p ranges tail -> at_ data o (tail ++ rest) ->
  skip_ranges (length ranges) data o = Ok (o + zlen tail) /\ at_ data (o + zlen tail) rest.
Proof.
  intros Hw. revert o. induction Hw as [p|p r rs wg wl w Hg Hl _ _ _ _ IH]; intros o Hat.
  { change (zlen (@nil Z)) with 0. rewrite Z.add_0_r. done. }
  rewrite <- !app_assoc in Hat. cbn [skip_ranges length]. rewrite !zlen_app, !Z.add_assoc.
  repeat read_next. by apply IH.
Qed.

Lemma decode_ranges_at p ranges tail data o rest :
  ranges_wire p ranges tail -> at_ data o (tail ++ rest) -> Smallest p < 2 ^ 64 ->
  decode_ranges (length ranges) (Bytes data) o p = Ok (ranges, o + zlen tail).
Proof.
  intros Hw. revert o. induction Hw as [p|p r rs wg wl w Hg Hl H2 Hle Hr _ IH]; intros o Hat Hp.
  { change (zlen (@nil Z)) with 0. by rewrite Z.add_0_r. }
  rewrite <- !app_assoc in Hat. cbn [decode_ranges length]. rewrite !zlen_app, !Z.add_assoc.
  repeat read_next. cbv zeta. u64_simpl.
  replace (Smallest p - (Smallest p - Largest r - 2) - 2) with (Largest r) by lia.
  do 2 guard_false. u64_simpl. replace (Largest r - (Largest r - Smallest r)) with (Smallest r) by lia.
  replace (MkRange (Smallest r) (Largest r)) with r by (by destruct r).
  rewrite (IH (o + zlen wg + zlen wl)) by (done || lia). done.
Qed.

Lemma ack_roundtrip_lemma f ranges capacity out rest :
  frame_ok f -> Forall (fun r => is_u64 (Smallest r) /\ is_u64 (Largest r)) ranges ->
  encode_ack f ranges capacity = Ok out ->
  zlen (out ++ rest) < 2 ^ 64 ->
  exists f', QuicParseFrame (Bytes (out ++ rest)) = Ok (f', zlen out)
    /\ Kind f' = Ack /\ AckDelay f' = AckDelay f
    /\ forall rangeCapacity, zlen ranges <= rangeCapacity -> QuicDecodeAckRanges f' rangeCapacity = Ok ranges.
Proof.
  intros Hok Hr H Hb. destruct ranges as [|first ranges]; [done|]. unfold encode_ack in H.
  case_if_in H; [done|]. case_if_in H; [done|]. bool_prop. rewrite zlen_cons in *.
  unfold WKNET_HARD_MAX_QUIC_ACK_RANGES in *. apply Forall_cons in Hr as [Hf Hr].
  assert (Hford : Smallest first <= Largest first /\ ack_ranges_ordered (Some first) ranges = true).
  { match goal with H : ack_ranges_ordered _ _ = true |- _ => simpl in H; case_if_in H; [done|] end.
    bool_prop. done. }
  destruct Hford as [Hfl Hord]. pose proof (zlen_nonneg ranges).
  destruct Hok as [Hok Hcid]. repeat (apply Forall_cons in Hok as [? Hok]).
  unfold is_u64 in Hf. rewrite (u64_id (1 + _ - 1)), (u64_id (Largest first - _)) in H by lia.
  replace (1 + zlen ranges - 1) with (zlen ranges) in H by lia. split_writes H.
  apply write_ranges_spec in H as (tail & -> & Ht); [|lia| |done].
  2: { eapply Forall_impl; [exact Hr|]. unfold is_u64. simpl. lia. }
  remember (_ ++ rest) as data eqn:Hdata.
  assert (Hat : at_ data 0 data) by (split_and!; done || lia).
  rewrite Hdata in Hat at 2. rewrite <- !app_assoc in Hat. cbn [app] in Hat.
  start_parse. unfold parse_ack, WKNET_HARD_MAX_QUIC_ACK_RANGES. repeat read_next. guard_false. cbv zeta.
  match goal with H : at_ _ ?o (tail ++ rest) |- _ => set (off := o) in *;
    destruct (at_app _ _ _ _ H) as [Hat' Hsub]; destruct (at_bound _ _ _ H), (at_bound _ _ _ Hat') end.
  assert (Hskip : skip_ranges (Z.to_nat (zlen ranges)) data off = Ok (off + zlen tail)).
  { unfold zlen at 1. rewrite Nat2Z.id. by eapply skip_ranges_at. }
  rewrite Hskip, bind_Ok_l. cbn [set_field WireType]. lit. rewrite bind_Ok_l.
  rewrite u64_id by (pose proof (zlen_nonneg tail); lia).
  replace (off + zlen tail - off) with (zlen tail) by lia. rewrite Hsub.
  eexists. split; [by rewrite (at_end _ _ _ _ Hdata Hat')|]. split; [done|]. split; [done|].
  intros cap Hcap. unfold QuicDecodeAckRanges. cbn [set_field frame_default AckRangeCount Kind FirstAckRange LargestAcknowledged AckRangeData].
  rewrite bool_decide_true by done. cbn [negb orb]. unfold WKNET_HARD_MAX_QUIC_ACK_RANGES. u64_simpl.
  guard_false. replace (Largest first - (Largest first - Smallest first)) with (Smallest first) by lia.
  replace (Z.to_nat (zlen ranges + 1 - 1)) with (length ranges) by (unfold zlen; lia).
  replace (MkRange (Smallest first) (Largest first)) with first by (by destruct first).
  erewrite (decode_ranges_at _ _ _ tail 0 []); [|exact Ht|rewrite app_nil_r|lia].
  - simpl. by rewrite Z.eqb_refl.
  - split_and!; [lia|done|lia|]. pose proof (zlen_nonneg tail). lia.
Qed.

(** ** What the encoder accepts *)

Lemma write_value_ok v capacity out :
  0 <= v <= QuicVarIntMaximum -> zlen out + 8 <= capacity < 2 ^ 64 ->
  exists w, WriteValue v capacity out = Ok (out ++ w) /\ zlen w <= 8.
Proof.
  intros Hv Hc. pose proof (zlen_nonneg out). unfold WriteValue. guard_false. u64_simpl.
  destruct (varint_encoded_length_class v Hv) as (k & Hk & Hlim).
  pose proof (varint_class_pos _ _ Hk) as [Hn _]. cbv zeta. guard_false.
  assert (E : exists w, QuicEncodeVarInt v (QuicVarIntEncodedLength v) (capacity - zlen out) = Ok w).
  { eexists. apply (varint_encode_ok _ _ _ (QuicVarIntEncodedLength v) k); try done; try lia. by case_if. }
  destruct E as [w E]. rewrite E, bind_Ok_l. exists w. split; [done|].
  apply varint_written in E as (? & _); lia.
Qed.

Lemma ack_ranges_ordered_wf p ranges :
  ranges_wf (p :: ranges) -> ack_ranges_ordered (Some p) ranges = true.
Proof.
  revert p. induction ranges as [|r ranges IH]; intros p (Hp & Hg & Hwf); [done|].
  apply Forall_cons in Hg as [Hg _]. unfold gap, range_ok in *. pose proof Hwf as [[Hr1 Hr2] _].
  unfold QuicVarIntMaximum in *. simpl. rewrite u64_id by lia. guard_false. by apply IH.
Qed.

Lemma write_ranges_ok capacity p ranges out :
  ranges_wf (p :: ranges) -> zlen out + 16 * zlen ranges <= capacity < 2 ^ 64 ->
  exists out', write_ranges capacity p ranges out = Ok out'.
Proof.
  revert p out. induction ranges as [|r ranges IH]; intros p out (Hp & Hg & Hwf) Hc; [by eexists|].
  apply Forall_cons in Hg as [Hg _]. pose proof Hwf as [[Hr1 Hr2] _]. unfold gap, range_ok in *.
  rewrite zlen_cons in Hc. pose proof (zlen_nonneg ranges). unfold QuicVarIntMaximum in *.
  cbn [write_ranges]. cbv zeta. u64_simpl.
  destruct (write_value_ok (Smallest p - Largest r - 2) capacity out) as (w & E & Hw);
    [unfold QuicVarIntMaximum; lia|lia|]. rewrite E, bind_Ok_l.
  destruct (write_value_ok (Largest r - Smallest r) capacity (out ++ w)) as (w2 & E2 & Hw2);
    [unfold QuicVarIntMaximum; lia|rewrite zlen_app; lia|]. rewrite E2, bind_Ok_l.
  apply IH; [done|]. rewrite !zlen_app. lia.
Qed.

Lemma encode_ack_ok f ranges capacity :
  ranges_wf ranges -> 0 < zlen ranges <= WKNET_HARD_MAX_QUIC_ACK_RANGES ->
  0 <= AckDelay f <= QuicVarIntMaximum -> 40 + 16 * zlen ranges <= capacity < 2 ^ 64 ->
  exists out, encode_ack f ranges capacity = Ok out.
Proof.
  intros Hwf Hn Hd Hc. destruct ranges as [|first ranges]; [unfold zlen in Hn; simpl in Hn; lia|].
  pose proof Hwf as [[Hf1 Hf2] _]. pose proof (zlen_nonneg ranges). unfold encode_ack.
  guard_false. assert (Hord : ack_ranges_ordered None (first :: ranges) = true).
  { simpl. guard_false. by apply ack_ranges_ordered_wf. }
  rewrite Hord. cbn [negb]. rewrite zlen_cons in *.
  unfold WKNET_HARD_MAX_QUIC_ACK_RANGES, QuicVarIntMaximum in *. u64_simpl.
  destruct (write_value_ok 2 capacity []) as (w & E & Hw); [unfold QuicVarIntMaximum; lia|zlen_simpl; lia|].
  rewrite E, bind_Ok_l. cbn [app].
  destruct (write_value_ok (Largest first) capacity w) as (w1 & E1 & Hw1);
    [unfold QuicVarIntMaximum; lia|lia|]. rewrite E1, bind_Ok_l.
  destruct (write_value_ok (AckDelay f) capacity (w ++ w1)) as (w2 & E2 & Hw2);
    [unfold QuicVarIntMaximum; lia|rewrite zlen_app; lia|]. rewrite E2, bind_Ok_l.
  destruct (write_value_ok (1 + zlen ranges - 1) capacity ((w ++ w1) ++ w2)) as (w3 & E3 & Hw3);
    [unfold QuicVarIntMaximum; lia|rewrite !zlen_app; lia|]. rewrite E3, bind_Ok_l.
  destruct (write_value_ok (Largest first - Smallest first) capacity (((w ++ w1) ++ w2) ++ w3))
    as (w4 & E4 & Hw4); [unfold QuicVarIntMaximum; lia|rewrite !zlen_app; lia|]. rewrite E4, bind_Ok_l.
  apply write_ranges_ok; [done|]. rewrite !zlen_app. lia.
Qed.

(** ** What the parser may return *)

Lemma read_inv l offset v o :
  bytes l -> zlen l < 2 ^ 64 -> 0 <= offset -> ReadValue (Bytes l) offset = Ok (v, o) ->
  0 <= v <= QuicVarIntMaximum /\ offset < o <= zlen l.
Proof.
  intros Hl Hb Ho. unfold ReadValue. case_if; [done|]. bool_prop. cbn [sp_len sp_drop] in *.
  intros ((v' & n) & Hd & [= <- <-])%bind_Ok.
  apply varint_read in Hd as [Hv Hn]; [|by apply bytes_zdrop]. rewrite zlen_zdrop in Hn by lia.
  rewrite u64_id by lia. lia.
Qed.

(** A view of the input inside its first [n] bytes. *)
Definition view_in (l : list Z) (n : Z) (v : span) : Prop :=
  match v with
  | Null k => k = 0
  | Bytes d => exists off, 0 <= off /\ off + zlen d <= n /\ d = zsub l off (zlen d)
  end.

Definition views_in (l : list Z) (n : Z) (f : QuicFrame) : Prop :=
  Forall (view_in l n) [Data f; ConnectionId f; StatelessResetToken f; ReasonPhrase f; AckRangeData f].
Definition ack_values (f : QuicFrame) : Prop :=
  0 <= AckRangeCount f < WKNET_HARD_MAX_QUIC_ACK_RANGES /\ 0 <= FirstAckRange f
  /\ 0 <= LargestAcknowledged f <= QuicVarIntMaximum.

Lemma view_zsub l off len n :
  0 <= off -> 0 <= len -> off + len <= n <= zlen l -> view_in l n (Bytes (zsub l off len)).
Proof. intros. exists off. rewrite zlen_zsub by lia. repeat split; lia. Qed.

Lemma take_inv l offset length v o :
  zlen l < 2 ^ 64 -> 0 <= length -> 0 <= offset <= zlen l -> take_view l offset length = Ok (v, o) ->
  o = offset + length /\ o <= zlen l /\ view_in l o v.
Proof.
  intros Hb Hlen Ho. unfold take_view, HasBytes. case_if; [done|]. intros [= <- <-].
  apply orb_false_iff in Heqb as [? Hh]. apply negb_false_iff in Hh. bool_prop.
  rewrite u64_id in * by lia. rewrite u64_id by lia. split; [done|]. split; [lia|].
  apply view_zsub; lia.
Qed.

Lemma skip_ranges_inv n l offset o :
  bytes l -> zlen l < 2 ^ 64 -> 0 <= offset <= zlen l -> skip_ranges n l offset = Ok o ->
  offset <= o <= zlen l.
Proof.
  intros Hl Hb. revert offset. induction n as [|n IH]; intros offset Ho; [intros [= <-]; lia|].
  cbn [skip_ranges]. intros ((v1 & o1) & H1 & ((v2 & o2) & H2 & H3)%bind_Ok)%bind_Ok.
  apply read_inv in H1 as [_ ?]; [|done|lia..]. apply read_inv in H2 as [_ ?]; [|done|lia..].
  apply IH in H3; lia.
Qed.
Lemma skip_values_inv n l offset o :
  bytes l -> zlen l < 2 ^ 64 -> 0 <= offset <= zlen l -> skip_values n l offset = Ok o ->
  offset <= o <= zlen l.
Proof.
  intros Hl Hb. revert offset. induction n as [|n IH]; intros offset Ho; [intros [= <-]; lia|].
  cbn [skip_values]. intros ((v1 & o1) & H1 & H2)%bind_Ok.
  apply read_inv in H1 as [_ ?]; [|done|lia..]. apply IH in H2; lia.
Qed.

Lemma view_weaken l n m v : n <= m -> view_in l n v -> view_in l m v.
Proof. intros Hnm. destruct v as [|d]; [done|]. intros (off & ? & ? & ?). exists off. repeat split; done || lia. Qed.

(** Take a successful branch of the parser apart. *)
Ltac parse_inv H :=
  lazymatch type of H with
  | (ReadValue (Bytes _) _ ≫= _) = Ok _ =>
      let v := fresh "v" in let o := fresh "o" in let Hr := fresh "Hr" in let Hv := fresh "Hv" in
      apply bind_Ok in H as ((v & o) & Hr & H); apply read_inv in Hr as [Hv Hr]; [|assumption|lia..];
      parse_inv H
  | (take_view _ _ _ ≫= _) = Ok _ =>
      let v := fresh "v" in let o := fresh "o" in let Hr := fresh "Hr" in
      let E := fresh "E" in let Hb := fresh "Hb" in
      apply bind_Ok in H as ((v & o) & Hr & H); apply take_inv in Hr as (E & Hb & Hr); [|lia..];
      parse_inv H
  | (Ok _ ≫= _) = Ok _ => rewrite bind_Ok_l in H; cbv beta iota in H; parse_inv H
  | ((if ?b then _ else _) ≫= _) = Ok _ => destruct b; parse_inv H
  | (if ?b then _ else _) = Ok _ => let E := fresh "E" in destruct b eqn:E; [discriminate H|]; parse_inv H
  | _ => idtac
  end.

(** The views that a branch did not set are null. *)
Ltac close_views := split; [lia|]; split;
  [unfold views_in; cbn [set_field Data ConnectionId StatelessResetToken ReasonPhrase AckRangeData
     frame_default]; forall_list; try done
  |unfold ack_values, WKNET_HARD_MAX_QUIC_ACK_RANGES, QuicVarIntMaximum in *;
   cbn [set_field AckRangeCount FirstAckRange LargestAcknowledged frame_default]; try lia].

(** The result of a branch entered at [offset] with a fresh frame. *)
Definition branch_ok (p : list Z -> Z -> QuicFrame -> Result (QuicFrame * Z)) : Prop :=
  forall l offset t f n, bytes l -> zlen l < 2 ^ 64 -> 0 <= offset <= zlen l ->
  p l offset (frame_default <| WireType := t |>) = Ok (f, n) -> offset <= n <= zlen l /\ views_in l n f /\ ack_values f.

Lemma reset_stream_ok : branch_ok parse_reset_stream.
Proof. intros l o t f n Hl Hb Ho H. unfold parse_reset_stream in H. parse_inv H. injection H as <- <-. close_views. Qed.
Lemma stop_sending_ok : branch_ok parse_stop_sending.
Proof. intros l o t f n Hl Hb Ho H. unfold parse_stop_sending in H. parse_inv H. injection H as <- <-. close_views. Qed.
Lemma crypto_ok : branch_ok parse_crypto.
Proof.
  intros l o t f n Hl Hb Ho H. unfold parse_crypto in H. cbv zeta in H. parse_inv H;
    injection H as <- <-; close_views.
Qed.
Lemma limit_ok : branch_ok parse_limit.
Proof.
  intros l o t f n Hl Hb Ho H. unfold parse_limit in H. cbv zeta in H. parse_inv H;
    injection H as <- <-; close_views.
Qed.
Lemma retire_ok : branch_ok parse_retire_connection_id.
Proof. intros l o t f n Hl Hb Ho H. unfold parse_retire_connection_id in H. parse_inv H. injection H as <- <-. close_views. Qed.
Lemma connection_close_ok : branch_ok parse_connection_close.
Proof.
  intros l o t f n Hl Hb Ho H. unfold parse_connection_close in H. cbv zeta in H. parse_inv H;
    injection H as <- <-; close_views.
Qed.
Lemma has_bytes_inv offset count length :
  0 <= offset -> 0 <= count -> 0 <= length < 2 ^ 64 -> HasBytes offset count length = true ->
  offset + count <= length.
Proof. unfold HasBytes. intros. bool_prop. rewrite u64_id in * by lia. lia. Qed.

Lemma path_ok : branch_ok parse_path.
Proof.
  intros l o t f n Hl Hb Ho H. unfold parse_path in H. parse_inv H. injection H as <- <-.
  apply negb_false_iff, has_bytes_inv in E; [|lia..]. u64_simpl. close_views. apply view_zsub; lia.
Qed.
Lemma new_connection_id_ok : branch_ok parse_new_connection_id.
Proof.
  intros l o t f n Hl Hb Ho H. unfold parse_new_connection_id in H. parse_inv H. cbv zeta in H.
  apply orb_false_iff in E as [_ E]. apply negb_false_iff, has_bytes_inv in E; [|lia..].
  pose proof (zget_byte l o1 Hl ltac:(lia)) as Hc. unfold is_byte in Hc.
  parse_inv H. injection H as <- <-. bool_prop. rewrite (u64_id (o1 + 1)) in * by lia.
  rewrite (u64_id (zget l o1 + 16)) in * by lia.
  match goal with E : HasBytes _ _ _ = true |- _ => apply has_bytes_inv in E; [|lia..] end.
  u64_simpl. close_views; apply view_zsub; lia.
Qed.
Lemma stream_ok : branch_ok parse_stream.
Proof.
  intros l o t f n Hl Hb Ho H. unfold parse_stream in H. cbv zeta in H.
  parse_inv H.
  all: try (apply bind_Ok in H as ([[len v1] o3] & Hsel & H); parse_inv Hsel; injection Hsel as <- <- <-).
  all: injection H as <- <-; u64_simpl; close_views; apply view_zsub; lia.
Qed.
Lemma ack_ok : branch_ok parse_ack.
Proof.
  intros l o t f n Hl Hb Ho H. unfold parse_ack in H. parse_inv H. cbv zeta in H.
  apply bind_Ok in H as (o4 & Hs & H). apply skip_ranges_inv in Hs; [|done..|lia].
  apply bind_Ok in H as (o5 & Hs2 & H). injection H as <- <-.
  assert (o4 <= o5 <= zlen l).
  { revert Hs2. case_if; [|intros [= <-]; lia]. intros Hs2. apply skip_values_inv in Hs2; done || lia. }
  u64_simpl. close_views. apply (view_weaken _ o4); [lia|]. apply view_zsub; lia.
Qed.

Lemma parse_frame_ok l f n :
  bytes l -> zlen l < 2 ^ 64 -> QuicParseFrame (Bytes l) = Ok (f, n) -> 1 <= n <= zlen l /\ views_in l n f /\ ack_values f.
Proof.
  intros Hl Hb. unfold QuicParseFrame. case_if; [done|].
  intros ((t & o) & Hr & H)%bind_Ok. apply read_inv in Hr as [_ Hr]; [|done|lia..].
  cbv beta iota zeta in H. cbn [sp_bytes] in H.
  assert (Hbr : forall p, branch_ok p -> p l o (frame_default <| WireType := t |>) = Ok (f, n) ->
    1 <= n <= zlen l /\ views_in l n f /\ ack_values f).
  { intros p Hp E. apply Hp in E as (? & ? & ?); [|done|done|lia]. split; [lia|done]. }
  repeat (case_if_in H;
    [first [by eapply Hbr; [|exact H]; auto using ack_ok, reset_stream_ok, stop_sending_ok, crypto_ok,
              stream_ok, limit_ok, new_connection_id_ok, retire_ok, path_ok, connection_close_ok
           |injection H as <- <-; split; [lia|]; split; [unfold views_in; forall_list; done|done]]|]).
  discriminate H.
Qed.

(** ** The ranges of a received ACK *)

Lemma decode_ranges_wf n l offset p rs o :
  bytes l -> zlen l < 2 ^ 64 -> 0 <= offset -> range_ok p ->
  decode_ranges n (Bytes l) offset p = Ok (rs, o) ->
  ranges_wf (p :: rs) /\ length rs = n.
Proof.
  intros Hl Hb. revert offset p rs. induction n as [|n IH]; intros offset p rs Ho Hp.
  { intros [= <- <-]. split; [|done]. split_and!; done || constructor. }
  cbn [decode_ranges]. intros H. parse_inv H. bool_prop.
  unfold range_ok, QuicVarIntMaximum in *. u64_simpl. cbv zeta in H. parse_inv H. bool_prop. u64_simpl.
  apply bind_Ok in H as ([rs' o'] & H & [= <- <-]). apply IH in H as [Hwf Hlen]; [|lia|simpl; lia].
  split; [|simpl; lia]. pose proof Hwf as (_ & Hg & Hw).
  split; [unfold range_ok, QuicVarIntMaximum; lia|split; [|exact Hwf]]. constructor; [unfold gap; simpl; lia|]. eapply Forall_impl; [exact Hg|]. unfold gap. simpl. lia.
Qed.

Lemma padding_roundtrip f capacity out rest :
  encode_padding f capacity = Ok out ->
  Forall (eq 0) out /\ forall k, 0 <= k < zlen out ->
    QuicParseFrame (Bytes (zdrop k (out ++ rest))) = Ok (frame_default, 1).
Proof.
  unfold encode_padding. cbv zeta. set (n := if Length f =? 0 then 1 else Length f).
  case_if; [done|]. intros [= <-]. split; [by apply Forall_replicate|].
  intros k Hk. rewrite zlen_replicate in Hk.
  assert (E : exists tl, zdrop k (replicate (Z.to_nat n) 0 ++ rest) = 0 :: tl).
  { replace (Z.to_nat n) with (Z.to_nat k + S (Z.to_nat (n - k - 1)))%nat by lia.
    rewrite replicate_add, <- app_assoc. unfold zdrop. rewrite drop_app_le by (rewrite length_replicate; lia).
    rewrite drop_ge by (rewrite length_replicate; lia). eexists. reflexivity. }
  destruct E as [tl ->]. unfold QuicParseFrame. cbn [sp_isnull sp_len orb].
  rewrite zlen_cons. pose proof (zlen_nonneg tl).
  destruct (Z.eqb_spec (1 + zlen tl) 0); [lia|]. unfold ReadValue. cbn [sp_len sp_drop].
  rewrite zlen_cons. guard_false. rewrite zdrop_0.
  change (0 :: tl) with ([0] ++ tl). rewrite (varint_roundtrip 0 1 1 [0] tl) by (done || lia). done.
Qed.

(** ** Properties *)

(** C10. Every frame but PADDING and ACK that [QuicEncodeFrame] writes is parsed
    back: the parser consumes exactly the bytes written, whatever follows them,
    and returns the fields the encoder was given ([wire_frame]).  A run of
    padding is read as that many one-byte PADDING frames. *)
Theorem frame_roundtrip f ranges capacity out rest :
  frame_ok f -> Kind f <> Ack -> QuicEncodeFrame f ranges capacity = Ok out ->
  zlen (out ++ rest) < 2 ^ 64 ->
  if bool_decide (Kind f = Padding)
  then Forall (eq 0) out /\ forall k, 0 <= k < zlen out ->
       QuicParseFrame (Bytes (zdrop k (out ++ rest))) = Ok (frame_default, 1)
  else QuicParseFrame (Bytes (out ++ rest)) = Ok (wire_frame f, zlen out).
Proof.
  intros Hok Hack H Hb. unfold QuicEncodeFrame in H.
  destruct (Kind f) eqn:HK; try done; rewrite ?bool_decide_true, ?bool_decide_false by done;
    eauto using reset_stream_roundtrip, stop_sending_roundtrip, crypto_roundtrip, stream_roundtrip,
      retire_roundtrip, connection_close_roundtrip, path_roundtrip, new_connection_id_roundtrip,
      plain_roundtrip.
  1: exact (padding_roundtrip f capacity out rest H).
  all: eapply limit_roundtrip; eauto; rewrite HK, !elem_of_cons; tauto.
Qed.

Definition sample_stream : QuicFrame :=
  frame_default <| Kind := Stream |> <| StreamId := 4 |> <| Offset := 1000 |> <| Fin := true |>
    <| Data := Bytes [10; 20; 30] |>.

Lemma frame_roundtrip_witness :
  QuicEncodeFrame sample_stream [] 64 = Ok [0x0f; 4; 0x43; 0xe8; 3; 10; 20; 30]
  /\ QuicParseFrame (Bytes ([0x0f; 4; 0x43; 0xe8; 3; 10; 20; 30] ++ [1]))
     = Ok (wire_frame sample_stream, 8).
Proof.
  assert (E : QuicEncodeFrame sample_stream [] 64 = Ok [0x0f; 4; 0x43; 0xe8; 3; 10; 20; 30])
    by (vm_compute; reflexivity).
  split; [exact E|].
  refine (frame_roundtrip sample_stream [] 64 _ [1] _ _ E _).
  - split; [forall_list; vm_compute; discriminate|constructor].
  - discriminate.
  - vm_compute. reflexivity.
Defined.

(** The bound of the last write of a chain. *)
Ltac last_write H :=
  lazymatch type of H with
  | (_ ≫= _) = Ok _ =>
      let o := fresh "o" in let Hw := fresh "Hw" in
      apply bind_Ok in H as (o & Hw & H); cbv beta in H; last_write H
  | WriteValue _ _ _ = Ok _ => apply write_value in H as (? & ? & _ & H); [|assumption || lia]
  | WriteBytes _ _ _ = Ok _ => apply write_bytes in H as (_ & _ & H)
  | (if ?b then _ else _) = Ok _ =>
      let E := fresh "E" in destruct b eqn:E; [discriminate H|]; last_write H
  end.

Lemma write_ranges_len capacity p ranges out out' :
  zlen out <= capacity -> Forall (fun r => 0 <= Smallest r) ranges ->
  0 <= Smallest p < 2 ^ 64 -> ack_ranges_ordered (Some p) ranges = true ->
  write_ranges capacity p ranges out = Ok out' -> zlen out' <= capacity.
Proof.
  intros Hc Hr. revert p out Hc. induction Hr as [|r ranges Hr0 _ IH]; intros p out Hc Hp Ho.
  { by intros [= <-]. }
  apply ack_ranges_ordered_cons in Ho as (? & ? & ? & Ho); [|done]. cbn [write_ranges]. cbv zeta.
  u64_simpl. intros (o1 & Hw1 & (o2 & Hw2 & Hw3)%bind_Ok)%bind_Ok.
  apply write_value in Hw2 as (? & ? & _ & ?); [|lia].
  apply IH in Hw3; [done|done|lia|done].
Qed.

Lemma encode_ack_len f ranges capacity out :
  Forall (fun r => is_u64 (Smallest r) /\ is_u64 (Largest r)) ranges ->
  encode_ack f ranges capacity = Ok out -> zlen out <= capacity.
Proof.
  intros Hr H. destruct ranges as [|first ranges]; [done|]. unfold encode_ack in H.
  case_if_in H; [done|]. case_if_in H; [done|]. bool_prop.
  apply Forall_cons in Hr as [[Hf1 Hf2] Hr]. unfold is_u64 in *.
  assert (Hford : Smallest first <= Largest first /\ ack_ranges_ordered (Some first) ranges = true).
  { match goal with H : ack_ranges_ordered _ _ = true |- _ => simpl in H; case_if_in H; [done|] end.
    by bool_prop. }
  destruct Hford as [Hfl Hord].
  do 4 apply bind_Ok in H as (? & _ & H). apply bind_Ok in H as (o & Hw & H). rewrite u64_id in Hw by lia.
  apply write_value in Hw as (? & _ & _ & Hw); [|lia].
  apply write_ranges_len in H; try done. eapply Forall_impl; [exact Hr|]. simpl. lia.
Qed.

(** ACK ranges end to end.  Descending, disjoint, non-adjacent ranges, as the
    ACK tracker keeps them, are always accepted by the encoder when there is room
    (40 bytes and 16 per range are enough), and what the peer parses from the
    frame and decodes with [QuicDecodeAckRanges] is exactly the same ranges. *)
Theorem ack_frame_roundtrip f ranges capacity rest :
  frame_ok f -> Kind f = Ack -> AckDelay f <= QuicVarIntMaximum ->
  ranges_wf ranges -> 0 < zlen ranges <= WKNET_HARD_MAX_QUIC_ACK_RANGES ->
  40 + 16 * zlen ranges <= capacity -> capacity + zlen rest < 2 ^ 64 ->
  exists out f', QuicEncodeFrame f ranges capacity = Ok out /\ zlen out <= capacity
    /\ QuicParseFrame (Bytes (out ++ rest)) = Ok (f', zlen out)
    /\ Kind f' = Ack /\ AckDelay f' = AckDelay f
    /\ QuicDecodeAckRanges f' (zlen ranges) = Ok ranges.
Proof.
  intros Hok HK Hd Hwf Hn Hc Hb. pose proof (zlen_nonneg rest).
  assert (Hd0 : 0 <= AckDelay f).
  { destruct Hok as [Hok _]. by repeat (apply Forall_cons in Hok as [? Hok]). }
  destruct (encode_ack_ok f ranges capacity) as [out E]; [done|lia|lia|lia|].
  assert (Hr : Forall (fun r => is_u64 (Smallest r) /\ is_u64 (Largest r)) ranges).
  { clear -Hwf. induction ranges as [|r rs IH]; [constructor|]. destruct Hwf as ([? ?] & _ & Hwf).
    constructor; [unfold is_u64, QuicVarIntMaximum in *; lia|auto]. }
  pose proof (encode_ack_len f ranges capacity out Hr E) as Hlen.
  destruct (ack_roundtrip_lemma f ranges capacity out rest Hok Hr E) as (f' & Hp & HK' & Hd' & Hdec);
    [rewrite zlen_app; lia|].
  exists out, f'. unfold QuicEncodeFrame. rewrite HK. split_and!; try done. by apply Hdec.
Qed.

Definition sample_ack : QuicFrame := frame_default <| Kind := Ack |> <| AckDelay := 25 |>.
Definition sample_ranges : list QuicAckRange := [MkRange 100 110; MkRange 7 90; MkRange 0 3].

Lemma ack_frame_roundtrip_witness :
  exists out f', QuicEncodeFrame sample_ack sample_ranges 200 = Ok out /\ zlen out <= 200
    /\ QuicParseFrame (Bytes (out ++ [])) = Ok (f', zlen out)
    /\ Kind f' = Ack /\ AckDelay f' = 25
    /\ QuicDecodeAckRanges f' 3 = Ok sample_ranges.
Proof.
  refine (ack_frame_roundtrip sample_ack sample_ranges 200 [] _ eq_refl _ _ _ _ _).
  - split; [forall_list; vm_compute; discriminate|constructor].
  - vm_compute. discriminate.
  - vm_compute. repeat split; try discriminate; repeat constructor.
  - vm_compute. split; [reflexivity|discriminate].
  - vm_compute. discriminate.
  - vm_compute. reflexivity.
Defined.

(** The encoder never writes past the capacity of its output, whatever the
    frame. *)
Theorem encode_within_capacity f ranges capacity out :
  frame_ok f -> Forall (fun r => is_u64 (Smallest r) /\ is_u64 (Largest r)) ranges ->
  QuicEncodeFrame f ranges capacity = Ok out -> zlen out <= capacity.
Proof.
  intros Hok Hr H. destruct (decide (Kind f = Padding)) as [HK|HK].
  { unfold QuicEncodeFrame, encode_padding in H. rewrite HK in H. cbv zeta in H.
    case_if_in H; [done|]. injection H as <-. rewrite zlen_replicate. bool_prop.
    destruct Hok as [Hok _]. repeat (apply Forall_cons in Hok as [? Hok]).
    destruct (Length f =? 0); lia. }
  destruct (decide (Kind f = Ack)) as [HK2|HK2].
  { unfold QuicEncodeFrame in H. rewrite HK2 in H. by eapply encode_ack_len. }
  destruct Hok as [Hok _]. repeat (apply Forall_cons in Hok as [? Hok]).
  unfold QuicEncodeFrame, encode_reset_stream, encode_stop_sending, encode_crypto, encode_stream,
    encode_limit, encode_new_connection_id, encode_path, encode_connection_close in H. cbv zeta in H.
  destruct (Kind f); try done; last_write H; done.
Qed.

Lemma encode_within_capacity_witness :
  QuicEncodeFrame sample_stream [] 8 = Ok [0x0f; 4; 0x43; 0xe8; 3; 10; 20; 30]
  /\ zlen [0x0f; 4; 0x43; 0xe8; 3; 10; 20; 30] <= 8.
Proof.
  assert (E : QuicEncodeFrame sample_stream [] 8 = Ok [0x0f; 4; 0x43; 0xe8; 3; 10; 20; 30])
    by (vm_compute; reflexivity).
  split; [exact E|]. refine (encode_within_capacity sample_stream [] 8 _ _ _ E).
  - split; [forall_list; vm_compute; discriminate|constructor].
  - constructor.
Defined.

(** Whatever the bytes received: a frame the parser accepts consumes at least
    one byte and never more than there are (so the loop over a payload ends), and
    every view of the frame lies inside the bytes consumed; and the ranges decoded
    from an ACK frame the parser accepted are well formed (descending, disjoint,
    inside the packet-number space), one more than the frame announces, at most
    256, and start at the largest acknowledged number. *)
Theorem parse_frame_safe l f n :
  bytes l -> zlen l < 2 ^ 64 -> QuicParseFrame (Bytes l) = Ok (f, n) ->
  1 <= n <= zlen l /\ views_in l n f
  /\ forall capacity ranges, QuicDecodeAckRanges f capacity = Ok ranges ->
       ranges_wf ranges /\ zlen ranges = AckRangeCount f + 1
       /\ zlen ranges <= WKNET_HARD_MAX_QUIC_ACK_RANGES
       /\ Largest <$> head ranges = Some (LargestAcknowledged f).
Proof.
  intros Hl Hb Hp. pose proof (parse_frame_ok l f n Hl Hb Hp) as (Hn & Hv & Hc & Hf & Hla).
  split; [done|]. split; [done|].
  intros cap ranges Hd. revert Hd. unfold QuicDecodeAckRanges. case_if; [done|]. bool_prop.
  unfold WKNET_HARD_MAX_QUIC_ACK_RANGES, QuicVarIntMaximum in *. u64_simpl. cbv zeta.
  intros ([rs o] & Hd & Hfin)%bind_Ok. case_if_in Hfin; [done|]. injection Hfin as <-.
  unfold network_error in Hd. destruct (decode_ranges _ _ _ _) as [[rs' o']|] eqn:Hdr; [|done].
  injection Hd as <- <-. rewrite zlen_cons. unfold zlen.
  assert (Hfirst : range_ok (MkRange (LargestAcknowledged f - FirstAckRange f) (LargestAcknowledged f))).
  { unfold range_ok, QuicVarIntMaximum. simpl. lia. }
  assert (Hwf : ranges_wf (MkRange (LargestAcknowledged f - FirstAckRange f) (LargestAcknowledged f) :: rs')
    /\ length rs' = Z.to_nat (AckRangeCount f + 1 - 1)).
  { unfold views_in in Hv. do 4 apply Forall_cons in Hv as [_ Hv]. apply Forall_cons in Hv as [Hv _].
    destruct (AckRangeData f) as [k|d]; simpl in Hv.
    - subst k. destruct (Z.to_nat (AckRangeCount f + 1 - 1)); [|discriminate Hdr]. injection Hdr as <- <-.
      split; [|done]. split_and!; try done.
    - destruct Hv as (off & ? & ? & Hd). apply (decode_ranges_wf _ d 0 _ _ o'); try done; [|lia].
      rewrite Hd. by apply bytes_zsub. }
  destruct Hwf as [Hwf Hlen]. rewrite Hlen. split; [done|]. split; [lia|]. split; [lia|done].
Qed.

Lemma parse_frame_safe_witness :
  let l := [0x02; 0x40; 110; 25; 1; 10; 8; 3; 9] in
  QuicParseFrame (Bytes l) <> Err STATUS_NOT_SUPPORTED
  /\ match QuicParseFrame (Bytes l) with
     | Ok (f, n) => 1 <= n <= 9 /\ QuicDecodeAckRanges f 8 = Ok [MkRange 100 110; MkRange 87 90]
                    /\ ranges_wf [MkRange 100 110; MkRange 87 90]
     | Err _ => False
     end.
Proof.
  set (l := [0x02; 0x40; 110; 25; 1; 10; 8; 3; 9]).
  assert (Hl : bytes l) by (forall_list; unfold is_byte; lia).
  split; [vm_compute; discriminate|].
  destruct (QuicParseFrame (Bytes l)) as [[f n]|s] eqn:E; [|vm_compute in E; discriminate E].
  destruct (parse_frame_safe l f n Hl ltac:(reflexivity) E) as (Hn & _ & Hr).
  assert (Hd : QuicDecodeAckRanges f 8 = Ok [MkRange 100 110; MkRange 87 90]).
  { vm_compute in E. injection E as <- <-. vm_compute. reflexivity. }
  split; [exact Hn|]. split; [exact Hd|]. exact (proj1 (Hr _ _ Hd)).
Defined.
