(* ===== verification/QuicPacket.v ===== *)
(** * QUIC packet headers (src/wknetlib/quic/QuicPacket.cpp)

    Parsing and writing of long and short headers, truncation and reconstruction
    of packet numbers, and the iterator over the packets coalesced in a datagram.
    As in QuicFrame, a writer appends to the output and never past [capacity]. *)

From S2P Require Import Prelude QuicVarInt QuicAckTracker QuicFrame.

(** ** Data *)

Inductive QuicPacketType := Initial | ZeroRtt | Handshake | Retry | VersionNegotiation | OneRtt.
#[export] Instance QuicPacketType_eq_dec : EqDecision QuicPacketType.
Proof. solve_decision. Defined.

Definition QuicVersionNegotiation : Z := 0.
Definition QuicVersion1 : Z := 1.
Definition QuicRetryIntegrityTagLength : Z := 16.

Record QuicPacketHeader := MkHeader {
  ph_Type : QuicPacketType;
  ph_Version : Z;
  ph_IsLongHeader : bool;
  ph_FixedBit : bool;
  ph_FirstByte : Z;
  ph_DestinationConnectionId : span;
  ph_SourceConnectionId : span;
  ph_Token : span;
  ph_VersionList : span;
  ph_RetryIntegrityTag : span;
  ph_HeaderLength : Z;
  ph_PacketNumberOffset : Z;
  ph_PacketNumberLength : Z;
  ph_PayloadOffset : Z;
  ph_PayloadLength : Z;
  ph_PacketLength : Z;
}.
#[export] Instance QuicPacketHeader_eta : Eta QuicPacketHeader := fun x =>
  MkHeader (ph_Type x) (ph_Version x) (ph_IsLongHeader x) (ph_FixedBit x) (ph_FirstByte x)
    (ph_DestinationConnectionId x) (ph_SourceConnectionId x) (ph_Token x) (ph_VersionList x)
    (ph_RetryIntegrityTag x) (ph_HeaderLength x) (ph_PacketNumberOffset x)
    (ph_PacketNumberLength x) (ph_PayloadOffset x) (ph_PayloadLength x) (ph_PacketLength x).

Definition header_default : QuicPacketHeader :=
  MkHeader Initial 0 false false 0 (Null 0) (Null 0) (Null 0) (Null 0) (Null 0) 0 0 0 0 0 0.

Record QuicPacketIterator := MkIterator {
  it_Datagram : span;
  it_Offset : Z;
  it_ShortHeaderDestinationConnectionIdLength : Z;
}.

Record QuicLongHeaderEncodeOptions := MkLong {
  lo_Type : QuicPacketType;
  lo_Version : Z;
  lo_DestinationConnectionId : span;
  lo_SourceConnectionId : span;
  lo_Token : span;
  lo_PacketNumber : Z;
  lo_PacketNumberLength : Z;
  lo_ProtectedPayloadLength : Z;
}.

Record QuicShortHeaderEncodeOptions := MkShort {
  so_DestinationConnectionId : span;
  so_PacketNumber : Z;
  so_PacketNumberLength : Z;
  so_KeyPhase : bool;
}.

(** ** Helpers *)

Definition CanAdvance (offset length capacity : Z) : bool :=
  (offset <=? capacity) && (length <=? capacity -! offset).

Definition ReadBigEndian32 (data : list Z) (offset : Z) : Z :=
  Z.lor (Z.lor (Z.lor (Z.shiftl (zget data offset) 24) (Z.shiftl (zget data (offset + 1)) 16))
    (Z.shiftl (zget data (offset + 2)) 8)) (zget data (offset + 3)).

Definition WriteVarInt (value capacity : Z) (output : list Z) : Result (list Z) :=
  WriteValue value capacity output.

(** The bytes of the loop are the low [packetNumberLength] bytes, big-endian. *)
Definition WriteTruncatedPacketNumber (packetNumber packetNumberLength capacity : Z)
    (output : list Z) : Result (list Z) :=
  if (packetNumber >? QuicVarIntMaximum) || (packetNumberLength =? 0) || (packetNumberLength >? 4)
     || (zlen output >? capacity) || (packetNumberLength >? capacity -! zlen output)
  then Err STATUS_INVALID_PARAMETER
  else Ok (output ++ be_put packetNumberLength packetNumber).

Definition IsAllZero (data : list Z) : bool := forallb (fun b => b =? 0) data.

(** ** Parsing *)

Definition parse_short_header (packet : list Z) (cidLength : Z) (header : QuicPacketHeader)
    : Result QuicPacketHeader :=
  if negb (ph_FixedBit header) then Err STATUS_INVALID_NETWORK_RESPONSE
  else if (cidLength >? QuicMaximumConnectionIdLength) || negb (CanAdvance 1 cidLength (zlen packet))
  then Err STATUS_INVALID_NETWORK_RESPONSE
  else
    let pnLength := Z.land (zget packet 0) 0x03 + 1 in
    let pnOffset := 1 +! cidLength in
    if negb (CanAdvance pnOffset pnLength (zlen packet)) then Err STATUS_BUFFER_TOO_SMALL
    else
      let payloadOffset := pnOffset +! pnLength in
      Ok (header <| ph_Type := OneRtt |>
            <| ph_DestinationConnectionId := Bytes (zsub packet 1 cidLength) |>
            <| ph_PacketNumberLength := pnLength |> <| ph_PacketNumberOffset := pnOffset |>
            <| ph_PayloadOffset := payloadOffset |>
            <| ph_PayloadLength := zlen packet -! payloadOffset |>
            <| ph_HeaderLength := payloadOffset |> <| ph_PacketLength := zlen packet |>).

Definition parse_version_negotiation (packet : list Z) (offset : Z) (header : QuicPacketHeader)
    : Result QuicPacketHeader :=
  let listLength := zlen packet -! offset in
  if (listLength =? 0) || negb (listLength mod 4 =? 0) then Err STATUS_INVALID_NETWORK_RESPONSE
  else
    Ok (header <| ph_Type := VersionNegotiation |>
          <| ph_VersionList := Bytes (zsub packet offset listLength) |>
          <| ph_HeaderLength := offset |> <| ph_PacketLength := zlen packet |>).

Definition parse_retry (packet : list Z) (offset : Z) (header : QuicPacketHeader)
    : Result QuicPacketHeader :=
  if zlen packet -! offset <? QuicRetryIntegrityTagLength then Err STATUS_BUFFER_TOO_SMALL
  else
    let tokenLength := zlen packet -! offset -! QuicRetryIntegrityTagLength in
    Ok (header <| ph_Token := Bytes (zsub packet offset tokenLength) |>
          <| ph_RetryIntegrityTag :=
               Bytes (zsub packet (zlen packet - QuicRetryIntegrityTagLength) QuicRetryIntegrityTagLength) |>
          <| ph_HeaderLength := offset |> <| ph_PacketLength := zlen packet |>).

(** The variable-length integer at [packet + offset]. *)
Definition decode_at (packet : list Z) (offset : Z) : Result (Z * Z) :=
  '(value, consumed) ← QuicDecodeVarInt (Bytes (zdrop offset packet));
  Ok (value, offset +! consumed).

Definition parse_token (packet : list Z) (offset : Z) : Result (span * Z) :=
  '(tokenLength, offset) ← decode_at packet offset;
  if (tokenLength >? zlen packet) || negb (CanAdvance offset tokenLength (zlen packet))
  then Err STATUS_INVALID_NETWORK_RESPONSE
  else Ok (Bytes (zsub packet offset tokenLength), offset +! tokenLength).

Definition parse_protected (packet : list Z) (offset : Z) (header : QuicPacketHeader)
    : Result QuicPacketHeader :=
  '(protectedLength, offset) ← decode_at packet offset;
  if (protectedLength >? zlen packet) || negb (CanAdvance offset protectedLength (zlen packet))
  then Err STATUS_INVALID_NETWORK_RESPONSE
  else
    let pnLength := Z.land (zget packet 0) 0x03 + 1 in
    if protectedLength <? pnLength then Err STATUS_INVALID_NETWORK_RESPONSE
    else
      let payloadOffset := offset +! pnLength in
      Ok (header <| ph_PacketNumberLength := pnLength |> <| ph_PacketNumberOffset := offset |>
            <| ph_PayloadOffset := payloadOffset |>
            <| ph_PayloadLength := protectedLength -! pnLength |>
            <| ph_HeaderLength := payloadOffset |>
            <| ph_PacketLength := offset +! protectedLength |>).

Definition long_type (packet : list Z) : QuicPacketType :=
  let longType := Z.land (Z.shiftr (zget packet 0) 4) 0x03 in
  if longType =? 0 then Initial else if longType =? 1 then ZeroRtt
  else if longType =? 2 then Handshake else Retry.

(** Both connection identifiers, and the offset after them. *)
Definition parse_connection_ids (packet : list Z) : Result (span * span * Z) :=
  let offset := 5 in
  let dcidLength := zget packet offset in
  let offset := offset +! 1 in
  if (dcidLength >? QuicMaximumConnectionIdLength)
     || negb (CanAdvance offset (dcidLength +! 1) (zlen packet))
  then Err STATUS_INVALID_NETWORK_RESPONSE
  else
    let dcid := Bytes (zsub packet offset dcidLength) in
    let offset := offset +! dcidLength in
    let scidLength := zget packet offset in
    let offset := offset +! 1 in
    if (scidLength >? QuicMaximumConnectionIdLength) || negb (CanAdvance offset scidLength (zlen packet))
    then Err STATUS_INVALID_NETWORK_RESPONSE
    else Ok (dcid, Bytes (zsub packet offset scidLength), offset +! scidLength).

Definition parse_long_header (packet : list Z) (header : QuicPacketHeader) : Result QuicPacketHeader :=
  if zlen packet <? 6 then Err STATUS_BUFFER_TOO_SMALL
  else
    let version := ReadBigEndian32 packet 1 in
    '(dcid, scid, offset) ← parse_connection_ids packet;
    let header := header <| ph_Version := version |> <| ph_DestinationConnectionId := dcid |>
                    <| ph_SourceConnectionId := scid |> in
    if version =? QuicVersionNegotiation then parse_version_negotiation packet offset header
    else if negb (ph_FixedBit header) then Err STATUS_INVALID_NETWORK_RESPONSE
    else if negb (version =? QuicVersion1) then Err STATUS_NOT_SUPPORTED
    else
      let type := long_type packet in
      let header := header <| ph_Type := type |> in
      match type with
      | Retry => parse_retry packet offset header
      | Initial =>
          '(token, offset) ← parse_token packet offset;
          parse_protected packet offset (header <| ph_Token := token |>)
      | _ => parse_protected packet offset header
      end.

(** [header] is not null. *)
Definition QuicParsePacketHeader (packet : span) (cidLength : Z) : Result QuicPacketHeader :=
  if sp_isnull packet || (sp_len packet =? 0) then Err STATUS_INVALID_PARAMETER
  else
    let packet := sp_bytes packet in
    let first := zget packet 0 in
    let isLong := negb (Z.land first 0x80 =? 0) in
    let header := header_default <| ph_FirstByte := first |> <| ph_IsLongHeader := isLong |>
                    <| ph_FixedBit := negb (Z.land first 0x40 =? 0) |> in
    if negb isLong then parse_short_header packet cidLength header
    else parse_long_header packet header.

(** ** Packet numbers *)

Definition QuicEncodePacketNumber (packetNumber packetNumberLength capacity : Z) : Result (list Z) :=
  if (packetNumberLength =? 0) || (packetNumberLength >? 4) then Err STATUS_INVALID_PARAMETER
  else if packetNumber >? QuicVarIntMaximum then Err STATUS_INTEGER_OVERFLOW
  else
    let maximum := u64 (Z.shiftl 1 (packetNumberLength * 8)) -! 1 in
    if packetNumber >? maximum then Err STATUS_INTEGER_OVERFLOW
    else if capacity <? packetNumberLength then Err STATUS_BUFFER_TOO_SMALL
    else Ok (be_put packetNumberLength packetNumber).

Definition QuicReconstructPacketNumber (truncatedPacketNumber packetNumberLength expectedPacketNumber : Z)
    : Result Z :=
  if (packetNumberLength =? 0) || (packetNumberLength >? 4) || (expectedPacketNumber >? QuicVarIntMaximum)
  then Err STATUS_INVALID_PARAMETER
  else
    let window := u64 (Z.shiftl 1 (packetNumberLength * 8)) in
    let halfWindow := window / 2 in
    let mask := window -! 1 in
    if truncatedPacketNumber >? mask then Err STATUS_INVALID_PARAMETER
    else
      let candidate := Z.lor (Z.ldiff expectedPacketNumber mask) truncatedPacketNumber in
      let candidate :=
        if (candidate +! halfWindow <=? expectedPacketNumber)
           && (candidate <=? QuicVarIntMaximum -! window)
        then candidate +! window
        else if (candidate >? expectedPacketNumber +! halfWindow) && (candidate >=? window)
        then candidate -! window
        else candidate in
      if candidate >? QuicVarIntMaximum then Err STATUS_INTEGER_OVERFLOW
      else Ok candidate.

(** ** Coalesced packets *)

Definition QuicPacketIteratorInitialize (datagram : span) (cidLength : Z) : QuicPacketIterator :=
  MkIterator datagram 0 cidLength.

(** The header and the bytes of the next packet; [header] and [packet] are not null. *)
Definition QuicPacketIteratorNext (it : QuicPacketIterator)
    : Result (QuicPacketHeader * list Z) * QuicPacketIterator :=
  let length := sp_len (it_Datagram it) in
  if sp_isnull (it_Datagram it) && negb (length =? 0) then (Err STATUS_INVALID_PARAMETER, it)
  else if it_Offset it =? length then (Err STATUS_NOT_FOUND, it)
  else if it_Offset it >? length then (Err STATUS_INVALID_NETWORK_RESPONSE, it)
  else
    let current := zdrop (it_Offset it) (sp_bytes (it_Datagram it)) in
    let remaining := length -! it_Offset it in
    if IsAllZero current
    then (Err STATUS_NOT_FOUND,
          MkIterator (it_Datagram it) length (it_ShortHeaderDestinationConnectionIdLength it))
    else
      match QuicParsePacketHeader (Bytes current) (it_ShortHeaderDestinationConnectionIdLength it) with
      | Err s => (Err s, it)
      | Ok header =>
          if (ph_PacketLength header =? 0) || (ph_PacketLength header >? remaining)
          then (Err STATUS_INVALID_NETWORK_RESPONSE, it)
          else
            (Ok (header, zsub current 0 (ph_PacketLength header)),
             MkIterator (it_Datagram it) (it_Offset it +! ph_PacketLength header)
               (it_ShortHeaderDestinationConnectionIdLength it))
      end.

Definition QuicValidateInitialDatagramLength (datagramLength : Z) : NTSTATUS :=
  if datagramLength >=? 1200 then STATUS_SUCCESS else STATUS_INVALID_PARAMETER.

(** ** Writing headers *)

Definition long_type_bits (type : QuicPacketType) : option Z :=
  match type with ZeroRtt => Some 1 | Handshake => Some 2 | Initial => Some 0 | _ => None end.

(** [WriteBytes] of a length byte: [output[offset++] = (UCHAR)length]. *)
Definition write_byte (b capacity : Z) (output : list Z) : Result (list Z) :=
  if zlen output >=? capacity then Err STATUS_BUFFER_TOO_SMALL else Ok (output ++ [u8 b]).

(** [*packetNumberOffset] and the header written; [*headerLength] is its length. *)
Definition QuicEncodeLongPacketHeader (options : QuicLongHeaderEncodeOptions) (capacity : Z)
    : Result (Z * list Z) :=
  let dcid := lo_DestinationConnectionId options in
  let scid := lo_SourceConnectionId options in
  let token := lo_Token options in
  if negb (lo_Version options =? QuicVersion1) || (lo_PacketNumberLength options =? 0)
     || (lo_PacketNumberLength options >? 4) || (sp_len dcid >? QuicMaximumConnectionIdLength)
     || (sp_len scid >? QuicMaximumConnectionIdLength)
     || (sp_isnull dcid && negb (sp_len dcid =? 0)) || (sp_isnull scid && negb (sp_len scid =? 0))
     || (sp_isnull token && negb (sp_len token =? 0))
     || (lo_ProtectedPayloadLength options <? lo_PacketNumberLength options)
     || (lo_ProtectedPayloadLength options >? QuicVarIntMaximum)
  then Err STATUS_INVALID_PARAMETER
  else
    match long_type_bits (lo_Type options) with
    | None => Err STATUS_INVALID_PARAMETER
    | Some typeBits =>
        if capacity =? 0 then Err STATUS_BUFFER_TOO_SMALL
        else
          let first := Z.lor (Z.lor 0xc0 (Z.shiftl typeBits 4)) (lo_PacketNumberLength options -! 1) in
          if capacity -! 1 <? 4 then Err STATUS_BUFFER_TOO_SMALL
          else
            let v := lo_Version options in
            let output := [u8 first; u8 (Z.land (Z.shiftr v 24) 0xff); u8 (Z.land (Z.shiftr v 16) 0xff);
                           u8 (Z.land (Z.shiftr v 8) 0xff); u8 (Z.land v 0xff)] in
            output ← write_byte (sp_len dcid) capacity output;
            output ← WriteBytes dcid capacity output;
            output ← write_byte (sp_len scid) capacity output;
            output ← WriteBytes scid capacity output;
            output ← (if bool_decide (lo_Type options = Initial) then
                        output ← WriteVarInt (sp_len token) capacity output;
                        WriteBytes token capacity output
                      else Ok output);
            output ← WriteVarInt (lo_ProtectedPayloadLength options) capacity output;
            let packetNumberOffset := zlen output in
            output ← WriteTruncatedPacketNumber (lo_PacketNumber options)
                       (lo_PacketNumberLength options) capacity output;
            Ok (packetNumberOffset, output)
    end.

Definition QuicEncodeShortPacketHeader (options : QuicShortHeaderEncodeOptions) (capacity : Z)
    : Result (Z * list Z) :=
  let dcid := so_DestinationConnectionId options in
  if (capacity =? 0) || (so_PacketNumberLength options =? 0) || (so_PacketNumberLength options >? 4)
     || (sp_len dcid >? QuicMaximumConnectionIdLength) || (sp_isnull dcid && negb (sp_len dcid =? 0))
  then Err STATUS_INVALID_PARAMETER
  else
    let first := Z.lor (Z.lor 0x40 (if so_KeyPhase options then 0x04 else 0))
                   (u8 (so_PacketNumberLength options -! 1)) in
    output ← WriteBytes dcid capacity [u8 first];
    let packetNumberOffset := zlen output in
    output ← WriteTruncatedPacketNumber (so_PacketNumber options) (so_PacketNumberLength options)
               capacity output;
    Ok (packetNumberOffset, output).

(** ** Reading what was written *)

Lemma at_byte data o b rest : at_ data o (b :: rest) -> zget data o = b /\ at_ data (o + 1) rest.
Proof.
  intros Hat. destruct (at_app data o [b] rest Hat) as [Hat' Hs]. change (zlen [b]) with 1 in *.
  split; [|done]. destruct Hat as [Ho _]. rewrite <- (Z.add_0_r o), <- (zget_zsub data o 1 0) by lia.
  by rewrite Hs.
Qed.

Lemma can_advance_at data o d rest : at_ data o (d ++ rest) -> CanAdvance o (zlen d) (zlen data) = true.
Proof. exact (has_bytes_at data o d rest). Qed.

Lemma decode_at_at packet o v w rest :
  at_ packet o (w ++ rest) -> vi v w ->
  decode_at packet o = Ok (v, o + zlen w) /\ at_ packet (o + zlen w) rest.
Proof.
  intros Hat Hv. destruct (read_at _ _ _ _ _ Hat Hv) as [E Hat']. split; [|done].
  revert E. unfold ReadValue, decode_at. destruct (at_bound _ _ _ Hat). cbn [sp_len sp_drop].
  by guard_false.
Qed.

Lemma write_byte_inv b capacity out out' :
  write_byte b capacity out = Ok out' -> 0 <= b < 256 -> out' = out ++ [b].
Proof. unfold write_byte. case_if; [done|]. intros [= <-] Hb. unfold u8. by rewrite Z.mod_small. Qed.

Lemma write_pn_inv pn n capacity out out' :
  0 <= n -> WriteTruncatedPacketNumber pn n capacity out = Ok out' ->
  out' = out ++ be_put n pn /\ zlen out' <= capacity.
Proof.
  intros Hn. unfold WriteTruncatedPacketNumber. case_if; [done|]. intros [= <-]. bool_prop.
  pose proof (u64_le (capacity - zlen out)). rewrite zlen_app, be_put_len by lia. split; [done|lia].
Qed.

(** The first byte of a header says its form, type and packet-number length. *)
Lemma long_first_byte bits n :
  bits = 0 \/ bits = 1 \/ bits = 2 -> 1 <= n <= 4 ->
  let b := u8 (Z.lor (Z.lor 0xc0 (Z.shiftl bits 4)) (n - 1)) in
  negb (Z.land b 0x80 =? 0) = true /\ negb (Z.land b 0x40 =? 0) = true
  /\ Z.land (Z.shiftr b 4) 0x03 = bits /\ Z.land b 0x03 + 1 = n.
Proof.
  intros Hb Hn. assert (n = 1 \/ n = 2 \/ n = 3 \/ n = 4) as Hn' by lia.
  by destruct Hb as [->|[->| ->]], Hn' as [->|[->|[->| ->]]].
Qed.
Lemma short_first_byte kp n :
  1 <= n <= 4 ->
  let b := u8 (Z.lor (Z.lor 0x40 (if kp : bool then 0x04 else 0)) (u8 (n - 1))) in
  negb (Z.land b 0x80 =? 0) = false /\ negb (Z.land b 0x40 =? 0) = true
  /\ Z.land b 0x03 + 1 = n.
Proof.
  intros Hn. assert (n = 1 \/ n = 2 \/ n = 3 \/ n = 4) as Hn' by lia.
  by destruct kp, Hn' as [->|[->|[->| ->]]].
Qed.

(** Connection identifiers at offset 5. *)
Lemma parse_connection_ids_at packet dcid scid rest :
  at_ packet 5 (zlen dcid :: dcid ++ zlen scid :: scid ++ rest) ->
  zlen dcid <= QuicMaximumConnectionIdLength -> zlen scid <= QuicMaximumConnectionIdLength ->
  parse_connection_ids packet = Ok (Bytes dcid, Bytes scid, 7 + zlen dcid + zlen scid)
  /\ at_ packet (7 + zlen dcid + zlen scid) rest.
Proof.
  unfold QuicMaximumConnectionIdLength. intros Hat Hd Hs.
  pose proof (zlen_nonneg dcid). pose proof (zlen_nonneg scid).
  destruct (at_byte _ _ _ _ Hat) as [E5 Hat6]. change (5 + 1) with 6 in *.
  destruct (at_app _ _ _ _ Hat6) as [Hat7 Hdc].
  pose proof (can_advance_at _ _ (dcid ++ [zlen scid]) (scid ++ rest)
    ltac:(rewrite <- app_assoc; exact Hat6)) as Hc1.
  rewrite zlen_app in Hc1. change (zlen [zlen scid]) with 1 in Hc1.
  destruct (at_byte _ _ _ _ Hat7) as [E7 Hat8]. destruct (at_app _ _ _ _ Hat8) as [Hat9 Hsc].
  pose proof (can_advance_at _ _ _ _ Hat8) as Hc2.
  destruct (at_bound _ _ _ Hat9) as [? ?].
  replace (7 + zlen dcid + zlen scid) with (6 + zlen dcid + 1 + zlen scid) by lia.
  split; [|done]. unfold parse_connection_ids, QuicMaximumConnectionIdLength. rewrite E5. u64_simpl.
  change (5 + 1) with 6. rewrite Hc1, orb_false_r. guard_false. rewrite Hdc, E7. u64_simpl.
  rewrite Hc2, orb_false_r. guard_false. rewrite Hsc. by u64_simpl.
Qed.

Lemma parse_token_at packet offset w d rest :
  at_ packet offset (w ++ d ++ rest) -> vi (zlen d) w ->
  parse_token packet offset = Ok (Bytes d, offset + zlen w + zlen d)
  /\ at_ packet (offset + zlen w + zlen d) rest.
Proof.
  intros Hat Hv. destruct (decode_at_at _ _ _ _ _ Hat Hv) as [E Hat1].
  destruct (at_app _ _ _ _ Hat1) as [Hat2 Hd]. pose proof (can_advance_at _ _ _ _ Hat1) as Hc.
  destruct (at_bound _ _ _ Hat1), (at_bound _ _ _ Hat2). pose proof (zlen_nonneg d).
  split; [|done]. unfold parse_token. rewrite E, bind_Ok_l, Hc, orb_false_r. guard_false.
  rewrite Hd. by u64_simpl.
Qed.

(** The length field and the packet number: the tail of a long header. *)
Lemma parse_protected_at packet offset prot n w body header :
  at_ packet offset (w ++ body) -> vi prot w -> prot <= zlen body ->
  Z.land (zget packet 0) 0x03 + 1 = n -> n <= prot -> 0 <= n ->
  parse_protected packet offset header
  = Ok (header <| ph_PacketNumberLength := n |> <| ph_PacketNumberOffset := offset + zlen w |>
          <| ph_PayloadOffset := offset + zlen w + n |> <| ph_PayloadLength := prot - n |>
          <| ph_HeaderLength := offset + zlen w + n |>
          <| ph_PacketLength := offset + zlen w + prot |>).
Proof.
  intros Hat Hv Hp Hn Hnp Hn0. destruct (decode_at_at _ _ _ _ _ Hat Hv) as [E Hat1].
  destruct (at_bound _ _ _ Hat1) as [? ?]. destruct Hat1 as (_ & _ & Hl & _).
  destruct Hv as (Hv & _). unfold QuicVarIntMaximum in Hv.
  unfold parse_protected. rewrite E, bind_Ok_l, Hn.
  assert (Hc : CanAdvance (offset + zlen w) prot (zlen packet) = true).
  { unfold CanAdvance. u64_simpl. apply andb_true_iff. rewrite !Z.leb_le. lia. }
  rewrite Hc, orb_false_r. do 2 guard_false. cbv zeta. by u64_simpl.
Qed.

(** The values of unsigned fields. *)
Definition long_ok (o : QuicLongHeaderEncodeOptions) : Prop :=
  0 <= lo_PacketNumber o /\ 0 <= lo_PacketNumberLength o /\ 0 <= lo_ProtectedPayloadLength o
  /\ 0 <= sp_len (lo_DestinationConnectionId o) /\ 0 <= sp_len (lo_SourceConnectionId o)
  /\ 0 <= sp_len (lo_Token o).

(** The header that [QuicParsePacketHeader] is to return. *)
Definition long_header (o : QuicLongHeaderEncodeOptions) (first pnOffset : Z) : QuicPacketHeader :=
  let n := lo_PacketNumberLength o in
  MkHeader (lo_Type o) QuicVersion1 true true first
    (Bytes (sp_bytes (lo_DestinationConnectionId o))) (Bytes (sp_bytes (lo_SourceConnectionId o)))
    (if bool_decide (lo_Type o = Initial) then Bytes (sp_bytes (lo_Token o)) else Null 0)
    (Null 0) (Null 0) (pnOffset + n) pnOffset n (pnOffset + n)
    (lo_ProtectedPayloadLength o - n) (pnOffset + lo_ProtectedPayloadLength o).

(** The pieces of the header written. *)
Lemma long_header_pieces o capacity pnOffset out :
  long_ok o -> QuicEncodeLongPacketHeader o capacity = Ok (pnOffset, out) ->
  exists bits first wt wp,
    let d := sp_bytes (lo_DestinationConnectionId o) in
    let s := sp_bytes (lo_SourceConnectionId o) in
    let t := sp_bytes (lo_Token o) in
    let n := lo_PacketNumberLength o in
    long_type_bits (lo_Type o) = Some bits
    /\ first = u8 (Z.lor (Z.lor 0xc0 (Z.shiftl bits 4)) (n - 1)) /\ 1 <= n <= 4
    /\ zlen d <= QuicMaximumConnectionIdLength /\ zlen s <= QuicMaximumConnectionIdLength
    /\ (if bool_decide (lo_Type o = Initial) then exists w, wt = w ++ t /\ vi (zlen t) w else wt = [])
    /\ vi (lo_ProtectedPayloadLength o) wp /\ n <= lo_ProtectedPayloadLength o
    /\ out = first :: 0 :: 0 :: 0 :: 1 :: zlen d :: d ++ zlen s :: s ++ wt ++ wp ++ be_put n (lo_PacketNumber o)
    /\ pnOffset = zlen out - n /\ zlen out <= capacity.
Proof.
  intros (Hpn & Hn0 & Hp & Hdl & Hsl & Htl) H. unfold QuicEncodeLongPacketHeader in H. cbv zeta in H.
  case_if_in H; [done|]. bool_prop. unfold QuicMaximumConnectionIdLength in *.
  destruct (long_type_bits (lo_Type o)) as [bits|]; [|done].
  case_if_in H; [done|]. case_if_in H; [done|]. rewrite (u64_id (lo_PacketNumberLength o - 1)) in H by lia.
  assert (Hver : lo_Version o = 1) by done. rewrite Hver in H.
  set (first := u8 (Z.lor _ _)) in H.
  change [first; u8 (Z.land (Z.shiftr 1 24) 255); _; _; _] with [first; 0; 0; 0; 1] in H.
  apply bind_Ok in H as (o1 & W1 & H). apply write_byte_inv in W1 as ->; [|lia].
  apply bind_Ok in H as (o2 & W2 & H). apply write_bytes in W2 as (-> & Hd & _).
  apply bind_Ok in H as (o3 & W3 & H). apply write_byte_inv in W3 as ->; [|lia].
  apply bind_Ok in H as (o4 & W4 & H). apply write_bytes in W4 as (-> & Hs & _).
  apply bind_Ok in H as (o5 & W5 & H).
  apply bind_Ok in H as (o6 & W6 & H). apply write_value in W6 as (wp & -> & Hwp & _); [|lia].
  cbv zeta in H. apply bind_Ok in H as (o7 & W7 & [= <- <-]). apply write_pn_inv in W7 as [-> Hcap]; [|lia].
  assert (Hwt : exists wt, o5 = ((([first; 0; 0; 0; 1] ++ [sp_len (lo_DestinationConnectionId o)]) ++
      sp_bytes (lo_DestinationConnectionId o)) ++ [sp_len (lo_SourceConnectionId o)]) ++
      sp_bytes (lo_SourceConnectionId o) ++ wt /\
    if bool_decide (lo_Type o = Initial) then exists w, wt = w ++ sp_bytes (lo_Token o) /\ vi (zlen (sp_bytes (lo_Token o))) w
    else wt = []).
  { revert W5. case_if; intros W5.
    - split_writes W5. unfold WriteVarInt in W5. split_writes W5. exists (w ++ sp_bytes (lo_Token o)).
      rewrite !app_assoc. split; [done|]. exists w. by rewrite Hl.
    - injection W5 as <-. exists []. by rewrite app_nil_r. }
  destruct Hwt as (wt & -> & Hwt). exists bits, first, wt, wp. cbv zeta.
  split_and!; try done; try lia.
  - rewrite Hd, Hs. repeat progress (cbn [app]; rewrite <- ?app_assoc). done.
  - rewrite (zlen_app _ (be_put _ _)), be_put_len by lia. lia.
Qed.

Lemma zget_be_put data o n pn rest :
  at_ data o (be_put n pn ++ rest) -> 0 <= n -> zsub data o n = be_put n pn.
Proof. intros Hat Hn. destruct (at_app _ _ _ _ Hat) as [_ Hs]. by rewrite be_put_len in Hs by lia. Qed.

Lemma long_roundtrip o capacity pnOffset out payload cidLength :
  long_ok o -> QuicEncodeLongPacketHeader o capacity = Ok (pnOffset, out) ->
  lo_ProtectedPayloadLength o <= lo_PacketNumberLength o + zlen payload ->
  zlen (out ++ payload) < 2 ^ 64 ->
  QuicParsePacketHeader (Bytes (out ++ payload)) cidLength
  = Ok (long_header o (zget out 0) pnOffset)
  /\ zsub (out ++ payload) pnOffset (lo_PacketNumberLength o)
     = be_put (lo_PacketNumberLength o) (lo_PacketNumber o)
  /\ zlen out = pnOffset + lo_PacketNumberLength o /\ zlen out <= capacity.
Proof.
  intros Hok H Hpay Hb.
  destruct (long_header_pieces _ _ _ _ Hok H) as (bits & first & wt & wp & Hbits & Hf & Hn & Hd & Hs & Hwt
    & Hwp & Hnp & Hout & Hpno & Hcap).
  set (n := lo_PacketNumberLength o) in *. set (d := sp_bytes (lo_DestinationConnectionId o)) in *.
  set (s := sp_bytes (lo_SourceConnectionId o)) in *.
  destruct (long_first_byte bits n) as (Hlong & Hfix & Htype & Hpnl).
  { destruct (lo_Type o); try done; injection Hbits as <-; auto. } { done. }
  rewrite <- Hf in Hlong, Hfix, Htype, Hpnl.
  remember (out ++ payload) as packet eqn:Hpk.
  assert (Hat : at_ packet 0 packet) by (split_and!; done || lia).
  rewrite Hpk in Hat at 2. rewrite Hout in Hat. cbn [app] in Hat.
  repeat progress (rewrite <- ?app_assoc in Hat; cbn [app] in Hat).
  destruct (at_byte _ _ _ _ Hat) as [E0 Hat1]. change (0 + 1) with 1 in Hat1.
  destruct (at_byte _ _ _ _ Hat1) as [E1 Hat2]. change (1 + 1) with 2 in Hat2.
  destruct (at_byte _ _ _ _ Hat2) as [E2 Hat3]. change (2 + 1) with 3 in Hat3.
  destruct (at_byte _ _ _ _ Hat3) as [E3 Hat4]. change (3 + 1) with 4 in Hat4.
  destruct (at_byte _ _ _ _ Hat4) as [E4 Hat5]. change (4 + 1) with 5 in Hat5.
  destruct (parse_connection_ids_at packet d s _ Hat5 Hd Hs) as [Hids Hat6].
  set (o0 := 7 + zlen d + zlen s) in *.
  assert (Htok : exists o1, at_ packet o1 (wp ++ be_put n (lo_PacketNumber o) ++ payload)
    /\ (if bool_decide (lo_Type o = Initial)
        then parse_token packet o0 = Ok (Bytes (sp_bytes (lo_Token o)), o1) else o1 = o0)).
  { revert Hwt. case_if; intros Hwt.
    - destruct Hwt as (w & -> & Hv). rewrite <- app_assoc in Hat6.
      destruct (parse_token_at _ _ _ _ _ Hat6 Hv) as [E Hat7]. eauto.
    - subst wt. eauto. }
  destruct Htok as (o1 & Hat7 & Htok).
  destruct (at_app _ _ _ _ Hat7) as [Hat8 _]. destruct (at_app _ _ _ _ Hat8) as [Hat9 Hpn].
  rewrite be_put_len in Hat9, Hpn by lia.
  assert (Hpo : pnOffset = o1 + zlen wp).
  { pose proof (at_end packet out payload _ Hpk Hat9). lia. }
  assert (Hf0 : zget out 0 = first) by (rewrite Hout; done). rewrite Hf0.
  split; [|rewrite Hpo; split; [done|lia]].
  destruct (at_bound _ _ _ Hat6) as [? _]. pose proof (zlen_nonneg d). pose proof (zlen_nonneg s).
  assert (Hver : ReadBigEndian32 packet 1 = 1) by (unfold ReadBigEndian32;
    change (1 + 1) with 2; change (1 + 2) with 3; change (1 + 3) with 4; rewrite E1, E2, E3, E4; done).
  assert (Hltype : long_type packet = lo_Type o).
  { unfold long_type. rewrite E0, Htype. by destruct (lo_Type o); try done; injection Hbits as <-. }
  pose proof (fun h => parse_protected_at packet o1 (lo_ProtectedPayloadLength o) n wp _ h Hat7 Hwp) as Hprot.
  rewrite zlen_app, be_put_len, E0 in Hprot by lia.
  specialize (fun h => Hprot h ltac:(lia) Hpnl Hnp ltac:(lia)).
  unfold QuicParsePacketHeader. cbn [sp_isnull sp_len sp_bytes orb].
  destruct (Z.eqb_spec (zlen packet) 0) as [Hz|_]; [unfold o0 in *; lia|].
  cbv zeta. rewrite E0, Hlong, Hfix. cbn [negb]. unfold parse_long_header.
  guard_false. rewrite Hver, Hids, bind_Ok_l, Hltype. cbv beta iota zeta.
  unfold QuicVersionNegotiation, QuicVersion1. lit. cbn [set_field ph_FixedBit negb]. cbv iota.
  unfold long_header. rewrite Hpo. fold n.
  destruct (lo_Type o) eqn:HT; try done;
    [rewrite bool_decide_true in Htok |- * by done; rewrite Htok, bind_Ok_l
    |rewrite bool_decide_false in Htok |- * by done; subst o1..]; by rewrite Hprot.
Qed.

(** ** Reconstruction *)

Lemma window_pow n : 1 <= n <= 4 -> u64 (Z.shiftl 1 (n * 8)) = 256 ^ n /\ 256 ^ n = 2 ^ (8 * n).
Proof.
  intros Hn. assert (n = 1 \/ n = 2 \/ n = 3 \/ n = 4) as H by lia. by destruct H as [->|[->|[->| ->]]].
Qed.

Lemma ldiff_mask a k : 0 <= k -> Z.ldiff a (2 ^ k - 1) = a / 2 ^ k * 2 ^ k.
Proof.
  intros Hk. replace (2 ^ k - 1) with (Z.ones k) by (rewrite Z.ones_equiv; lia).
  rewrite Z.ldiff_ones_r by lia. by rewrite Z.shiftl_mul_pow2, Z.shiftr_div_pow2 by lia.
Qed.

Lemma reconstruct_lemma pn n expected :
  1 <= n <= 4 -> 0 <= pn <= QuicVarIntMaximum -> 0 <= expected <= QuicVarIntMaximum ->
  expected - 256 ^ n / 2 < pn <= expected + 256 ^ n / 2 ->
  QuicReconstructPacketNumber (pn mod 256 ^ n) n expected = Ok pn.
Proof.
  intros Hn Hpn He Hnear. destruct (window_pow n Hn) as [Hw Hw2].
  unfold QuicReconstructPacketNumber. rewrite Hw.
  assert (Hpow : 256 <= 256 ^ n <= 2 ^ 32 /\ 256 ^ n mod 2 = 0).
  { assert (n = 1 \/ n = 2 \/ n = 3 \/ n = 4) as H by lia. by destruct H as [->|[->|[->| ->]]]. }
  set (W := 256 ^ n) in *. cbv zeta. unfold QuicVarIntMaximum in *. guard_false.
  pose proof (Z.mod_pos_bound pn W ltac:(lia)) as Hm. u64_simpl. guard_false.
  assert (Hlor : Z.lor (Z.ldiff expected (W - 1)) (pn mod W) = expected / W * W + pn mod W).
  { rewrite Hw2, ldiff_mask, lor_disjoint by (rewrite <- ?Hw2; lia). done. }
  rewrite Hlor. clear Hlor.
  pose proof (Z.div_mod pn W ltac:(lia)) as Dp. pose proof (Z.div_mod expected W ltac:(lia)) as De.
  pose proof (Z.mod_pos_bound expected W ltac:(lia)).
  pose proof (Z.div_mod W 2 ltac:(lia)) as Dw.
  set (h := W / 2) in *. set (q := expected / W) in *. set (qp := pn / W) in *.
  assert (Hq : qp = q - 1 \/ qp = q \/ qp = q + 1) by nia.
  assert (Hc : q * W + pn mod W = pn + (q - qp) * W) by nia.
  assert (Hc0 : 0 <= q * W + pn mod W) by (assert (0 <= q) by (apply Z.div_pos; lia); nia).
  rewrite Hc in *. clear Hc.
  assert (Hcase : exists c, pn + (q - qp) * W = c /\ 0 <= c
    /\ (c = pn + W \/ c = pn \/ c = pn - W)) by (exists (pn + (q - qp) * W); destruct Hq as [-> | [-> | ->]]; lia).
  destruct Hcase as (c & -> & Hcp & Hcc).
  u64_simpl.
  destruct (Z.leb_spec (c + h) expected), (Z.leb_spec c (2 ^ 62 - 1 - W)); cbn [andb];
    [u64_simpl; guard_false; f_equal; lia|..];
    destruct (Z.gtb_spec c (expected + h)); rewrite ?Z.geb_leb; cbn [andb];
    try destruct (Z.leb_spec W c); u64_simpl; try (guard_false; f_equal; lia); exfalso; lia.
Qed.

(** ** Short headers *)

Definition short_header (o : QuicShortHeaderEncodeOptions) (first pnOffset total : Z) : QuicPacketHeader :=
  let n := so_PacketNumberLength o in
  MkHeader OneRtt 0 false true first (Bytes (sp_bytes (so_DestinationConnectionId o)))
    (Null 0) (Null 0) (Null 0) (Null 0) (pnOffset + n) pnOffset n (pnOffset + n)
    (total - (pnOffset + n)) total.

Lemma short_roundtrip o capacity pnOffset out payload :
  0 <= so_PacketNumberLength o -> QuicEncodeShortPacketHeader o capacity = Ok (pnOffset, out) ->
  zlen (out ++ payload) < 2 ^ 64 ->
  QuicParsePacketHeader (Bytes (out ++ payload)) (sp_len (so_DestinationConnectionId o))
  = Ok (short_header o (zget out 0) pnOffset (zlen (out ++ payload)))
  /\ zsub (out ++ payload) pnOffset (so_PacketNumberLength o)
     = be_put (so_PacketNumberLength o) (so_PacketNumber o)
  /\ zlen out = pnOffset + so_PacketNumberLength o /\ zlen out <= capacity.
Proof.
  intros Hn0 H Hb. unfold QuicEncodeShortPacketHeader in H. cbv zeta in H. case_if_in H; [done|].
  bool_prop. set (n := so_PacketNumberLength o) in *. unfold QuicMaximumConnectionIdLength in *.
  rewrite (u64_id (n - 1)) in H by lia.
  destruct (short_first_byte (so_KeyPhase o) n ltac:(lia)) as (Hlong & Hfix & Hpnl).
  set (first := u8 (Z.lor _ _)) in *.
  apply bind_Ok in H as (o1 & Hw & H). apply write_bytes in Hw as (-> & Hd & _).
  apply bind_Ok in H as (o2 & Hw & [= <- <-]). apply write_pn_inv in Hw as [-> Hcap]; [|lia].
  set (d := sp_bytes (so_DestinationConnectionId o)) in *. rewrite <- Hd in *.
  remember (_ ++ payload) as packet eqn:Hpk.
  assert (Hat : at_ packet 0 packet) by (split_and!; done || lia).
  rewrite Hpk in Hat at 2. rewrite <- !app_assoc in Hat. cbn [app] in Hat.
  destruct (at_byte _ _ _ _ Hat) as [E0 Hat1]. change (0 + 1) with 1 in Hat1.
  pose proof (can_advance_at _ _ _ _ Hat1) as Hc1. destruct (at_app _ _ _ _ Hat1) as [Hat2 Hsub].
  pose proof (can_advance_at _ _ _ _ Hat2) as Hc2. destruct (at_app _ _ _ _ Hat2) as [Hat3 Hpn].
  rewrite be_put_len in Hat3, Hpn, Hc2 by lia.
  assert (Hp : zlen (first :: d) = 1 + zlen d) by (by rewrite zlen_cons).
  change ([first] ++ d) with (first :: d) in *. rewrite Hp.
  split; [|split; [exact Hpn|split; [|exact Hcap]]].
  2: { rewrite (zlen_app _ (be_put _ _)), be_put_len by lia. by rewrite Hp. }
  destruct (at_bound _ _ _ Hat3). pose proof (zlen_nonneg d).
  unfold QuicParsePacketHeader. cbn [sp_isnull sp_len sp_bytes orb].
  destruct (Z.eqb_spec (zlen packet) 0) as [Hz|_]; [lia|].
  cbv zeta. rewrite E0, Hlong, Hfix. cbn [negb]. unfold parse_short_header.
  cbn [set_field ph_FixedBit negb]. cbv iota zeta. rewrite E0, Hpnl, Hc1, orb_false_r.
  unfold QuicMaximumConnectionIdLength. guard_false. u64_simpl. rewrite Hc2. cbn [negb].
  rewrite Hsub. reflexivity.
Qed.

(** ** The iterator *)

(** A parsed packet ends inside its bytes. *)
Lemma decode_at_inv l o v o' :
  bytes l -> zlen l < 2 ^ 64 -> 0 <= o <= zlen l -> decode_at l o = Ok (v, o') ->
  0 <= v <= QuicVarIntMaximum /\ o < o' <= zlen l.
Proof.
  intros Hl Hb Ho H. apply (read_inv l o v o'); [done|done|lia|]. revert H. unfold decode_at, ReadValue.
  cbn [sp_len sp_drop]. by guard_false.
Qed.

Lemma can_advance_inv o n l :
  0 <= o -> 0 <= n -> 0 <= l < 2 ^ 64 -> CanAdvance o n l = true -> o + n <= l.
Proof. exact (has_bytes_inv o n l). Qed.

Lemma parse_protected_inv l o h h' :
  bytes l -> zlen l < 2 ^ 64 -> 0 <= o <= zlen l -> parse_protected l o h = Ok h' ->
  0 < ph_PacketLength h' <= zlen l.
Proof.
  intros Hl Hb Ho. unfold parse_protected. intros ((v & o1) & Hd & H)%bind_Ok.
  apply decode_at_inv in Hd as [Hv Ho1]; [|done..]. case_if_in H; [done|]. case_if_in H; [done|].
  injection H as <-. cbn [set_field ph_PacketLength]. apply orb_false_iff in Heqb as [_ Hc].
  apply negb_false_iff, can_advance_inv in Hc; [|lia..]. u64_simpl. lia.
Qed.

Lemma parse_connection_ids_inv l r :
  bytes l -> 6 <= zlen l < 2 ^ 64 -> parse_connection_ids l = Ok r -> 0 <= r.2 <= zlen l.
Proof.
  intros Hl Hb. unfold parse_connection_ids. cbv zeta.
  pose proof (zget_byte l 5 Hl ltac:(lia)) as B5. unfold is_byte in B5. u64_simpl.
  case_if; [done|]. bool_prop.
  match goal with H : CanAdvance _ _ _ = true |- _ => apply can_advance_inv in H; [|lia..] end.
  change (5 + 1) with 6 in *.
  pose proof (zget_byte l (6 + zget l 5) Hl ltac:(lia)) as B6. unfold is_byte in B6.
  u64_simpl. case_if; [done|]. bool_prop.
  match goal with H : CanAdvance _ _ _ = true |- _ => apply can_advance_inv in H; [|lia..] end.
  u64_simpl. intros [= <-]. simpl. lia.
Qed.

Lemma parse_header_inv l cid h :
  bytes l -> zlen l < 2 ^ 64 -> QuicParsePacketHeader (Bytes l) cid = Ok h ->
  0 < ph_PacketLength h <= zlen l.
Proof.
  intros Hl Hb. unfold QuicParsePacketHeader. case_if; [done|]. cbn [sp_isnull sp_len sp_bytes orb] in *.
  pose proof (zlen_nonneg l) as Hz0. bool_prop. cbv zeta. case_if.
  { unfold parse_short_header. repeat (case_if; [done|]). intros [= <-].
    cbn [set_field ph_PacketLength]. lia. }
  unfold parse_long_header. case_if; [done|]. bool_prop. cbv zeta.
  intros ([[d s] o] & Hids & H)%bind_Ok. apply parse_connection_ids_inv in Hids; [|done|lia].
  simpl in Hids. case_if_in H.
  { unfold parse_version_negotiation in H. case_if_in H; [done|]. injection H as <-.
    cbn [set_field ph_PacketLength]. lia. }
  case_if_in H; [done|]. case_if_in H; [done|].
  destruct (long_type l); try (by apply parse_protected_inv in H).
  - apply bind_Ok in H as ((t & o1) & Ht & H). apply parse_protected_inv in H; [done..|].
    revert Ht. unfold parse_token. intros ((v & o2) & Hd & Ht)%bind_Ok.
    apply decode_at_inv in Hd as [Hv Ho2]; [|done..]. case_if_in Ht; [done|]. injection Ht as <- <-.
    bool_prop.
    match goal with H : CanAdvance _ _ _ = true |- _ => apply can_advance_inv in H; [|lia..] end.
    u64_simpl. lia.
  - unfold parse_retry in H. case_if_in H; [done|]. injection H as <-.
    cbn [set_field ph_PacketLength]. lia.
Qed.

(** The packets of a datagram, and the status that ends the iteration. *)
Fixpoint packets (fuel : nat) (it : QuicPacketIterator)
    : option (list (QuicPacketHeader * list Z) * NTSTATUS) :=
  match fuel with
  | O => None
  | S fuel =>
      match QuicPacketIteratorNext it with
      | (Ok hp, it) => '(l, st) ← packets fuel it; Some (hp :: l, st)
      | (Err st, _) => Some ([], st)
      end
  end.

Lemma iterator_step d o cid :
  bytes d -> zlen d < 2 ^ 64 -> 0 <= o <= zlen d ->
  match QuicPacketIteratorNext (MkIterator (Bytes d) o cid) with
  | (Ok (h, p), it) => exists n, it = MkIterator (Bytes d) (o + n) cid /\ 0 < n /\ o + n <= zlen d
      /\ ph_PacketLength h = n /\ p = zsub d o n
      /\ QuicParsePacketHeader (Bytes (zdrop o d)) cid = Ok h
  | (Err st, _) => st = STATUS_NOT_FOUND -> IsAllZero (zdrop o d) = true
      \/ QuicParsePacketHeader (Bytes (zdrop o d)) cid = Err STATUS_NOT_FOUND
  end.
Proof.
  intros Hd Hb Ho. unfold QuicPacketIteratorNext. cbn [it_Datagram it_Offset sp_isnull sp_len sp_bytes
    it_ShortHeaderDestinationConnectionIdLength andb].
  destruct (Z.eqb_spec o (zlen d)) as [->|Hne]; [intros _; left; by rewrite zdrop_all|].
  guard_false. u64_simpl. destruct (IsAllZero (zdrop o d)) eqn:Hz; [by left|].
  destruct (QuicParsePacketHeader _ _) as [h|s] eqn:Hp; [|intros ->; by right].
  pose proof Hp as Hp'. apply parse_header_inv in Hp' as [Hpl1 Hpl2];
    [|by apply bytes_zdrop|rewrite zlen_zdrop; lia].
  rewrite zlen_zdrop in Hpl2 by lia. guard_false. exists (ph_PacketLength h).
  rewrite u64_id by lia. split_and!; try done; try lia.
Qed.

Lemma packets_spec fuel d o cid :
  bytes d -> zlen d < 2 ^ 64 -> 0 <= o <= zlen d -> (Z.to_nat (zlen d - o) < fuel)%nat ->
  exists l st rest, packets fuel (MkIterator (Bytes d) o cid) = Some (l, st)
    /\ zdrop o d = concat (map snd l) ++ rest
    /\ Forall (fun hp => 0 < zlen hp.2 /\ zlen hp.2 = ph_PacketLength hp.1) l
    /\ (st = STATUS_NOT_FOUND -> IsAllZero rest = true \/ exists cid, QuicParsePacketHeader (Bytes rest) cid = Err STATUS_NOT_FOUND).
Proof.
  intros Hd Hb. revert o. induction fuel as [|fuel IH]; intros o Ho Hf; [lia|]. cbn [packets].
  pose proof (iterator_step d o cid Hd Hb Ho) as Hs.
  destruct (QuicPacketIteratorNext _) as [[[h p]|s] it].
  - destruct Hs as (n & -> & Hn & Hon & Hpl & -> & _).
    destruct (IH (o + n)) as (l & st & rest & E & Hd' & Hl & Hst); [lia|lia|].
    exists ((h, zsub d o n) :: l), st, rest. rewrite E. split; [done|]. split; [|split; [|done]].
    + cbn [map concat snd]. rewrite <- app_assoc, <- Hd'. unfold zsub.
      rewrite <- (zdrop_zdrop n o) by lia. by rewrite ztake_zdrop.
    + constructor; [|done]. cbn [fst snd]. rewrite zlen_zsub by lia. lia.
  - exists [], s, (zdrop o d). split; [done|]. split; [done|]. split; [done|].
    intros Hst. destruct (Hs Hst); [by left|right; eauto].
Qed.

(** The parser never reports NOT_FOUND, the status that ends the iteration. *)
Lemma bind_not_found {A B} (m : Result A) (f : A -> Result B) :
  m <> Err STATUS_NOT_FOUND -> (forall a, f a <> Err STATUS_NOT_FOUND) ->
  (m ≫= f) <> Err STATUS_NOT_FOUND.
Proof. destruct m as [a|s]; simpl; [auto|]. intros Hm _ [= ->]. by apply Hm. Qed.

Lemma decode_at_not_found l o : decode_at l o <> Err STATUS_NOT_FOUND.
Proof.
  unfold decode_at. apply bind_not_found; [|by intros []]. unfold QuicDecodeVarInt. cbv zeta.
  by repeat case_if.
Qed.

Lemma parse_protected_not_found l o h : parse_protected l o h <> Err STATUS_NOT_FOUND.
Proof.
  apply bind_not_found; [apply decode_at_not_found|]. intros [v o']. cbv zeta. by repeat case_if.
Qed.

Lemma parse_header_not_found d cid : QuicParsePacketHeader d cid <> Err STATUS_NOT_FOUND.
Proof.
  unfold QuicParsePacketHeader. case_if; [done|]. cbv zeta. case_if.
  { unfold parse_short_header. cbv zeta. by repeat case_if. }
  unfold parse_long_header. case_if; [done|]. cbv zeta. apply bind_not_found.
  { unfold parse_connection_ids. cbv zeta. by repeat case_if. }
  intros [[dc sc] o]. case_if; [unfold parse_version_negotiation; cbv zeta; by case_if|].
  case_if; [done|]. case_if; [done|].
  destruct (long_type _); try apply parse_protected_not_found.
  - apply bind_not_found; [|intros []; apply parse_protected_not_found].
    apply bind_not_found; [apply decode_at_not_found|]. intros [v o']. by case_if.
  - unfold parse_retry. cbv zeta. by case_if.
Qed.

(** ** Properties *)

(** Packet-number reconstruction: when the receiver's expected number is
    within half a window of the number sent, the truncated number on the wire
    determines the full one, up to both ends of the packet-number space. *)
Theorem reconstruct_packet_number pn n expected :
  1 <= n <= 4 -> 0 <= pn <= QuicVarIntMaximum -> 0 <= expected <= QuicVarIntMaximum ->
  expected - 256 ^ n / 2 < pn <= expected + 256 ^ n / 2 ->
  be_get 0 (be_put n pn) = pn mod 256 ^ n
  /\ QuicReconstructPacketNumber (be_get 0 (be_put n pn)) n expected = Ok pn.
Proof.
  intros Hn Hpn He Hnear. rewrite be_get_put by lia. split; [done|]. by apply reconstruct_lemma.
Qed.

Lemma reconstruct_packet_number_witness :
  be_put 2 0xa82f9b32 = [0x9b; 0x32]
  /\ QuicReconstructPacketNumber 0x9b32 2 0xa82f30eb = Ok 0xa82f9b32.
Proof.
  split; [reflexivity|].
  exact (proj2 (reconstruct_packet_number 0xa82f9b32 2 0xa82f30eb ltac:(lia)
    ltac:(unfold QuicVarIntMaximum; lia) ltac:(unfold QuicVarIntMaximum; lia)
    ltac:(vm_compute; split; [reflexivity|discriminate]))).
Defined.

(** A long header that [QuicEncodeLongPacketHeader] writes, followed by at
    least the payload it announces, is parsed back: type, connection
    identifiers, token, offsets and lengths are those of the options, the header
    fits the capacity, and a receiver whose expected packet number is close
    enough recovers the packet number from the bytes the parser points to. *)
Theorem long_header_roundtrip o capacity pnOffset out payload cidLength :
  long_ok o -> QuicEncodeLongPacketHeader o capacity = Ok (pnOffset, out) ->
  lo_ProtectedPayloadLength o <= lo_PacketNumberLength o + zlen payload ->
  zlen (out ++ payload) < 2 ^ 64 ->
  QuicParsePacketHeader (Bytes (out ++ payload)) cidLength
  = Ok (long_header o (zget out 0) pnOffset)
  /\ zlen out = pnOffset + lo_PacketNumberLength o /\ zlen out <= capacity
  /\ (forall expected, 1 <= lo_PacketNumberLength o <= 4 ->
        0 <= lo_PacketNumber o <= QuicVarIntMaximum -> 0 <= expected <= QuicVarIntMaximum ->
        expected - 256 ^ lo_PacketNumberLength o / 2 < lo_PacketNumber o
          <= expected + 256 ^ lo_PacketNumberLength o / 2 ->
        QuicReconstructPacketNumber
          (be_get 0 (zsub (out ++ payload) pnOffset (lo_PacketNumberLength o)))
          (lo_PacketNumberLength o) expected = Ok (lo_PacketNumber o)).
Proof.
  intros Hok H Hp Hb.
  destruct (long_roundtrip o capacity pnOffset out payload cidLength Hok H Hp Hb) as (E & Hs & Hl & Hc).
  split; [done|]. split; [done|]. split; [done|]. intros expected Hn Hpn He Hnear.
  rewrite Hs, be_get_put by lia. by apply reconstruct_lemma.
Qed.

Definition sample_long : QuicLongHeaderEncodeOptions :=
  MkLong Initial 1 (Bytes [1; 2; 3; 4]) (Bytes [9; 8]) (Bytes [7; 7; 7]) 0x1234 2 5.

Lemma long_header_roundtrip_witness :
  let out := [0xc1; 0; 0; 0; 1; 4; 1; 2; 3; 4; 2; 9; 8; 3; 7; 7; 7; 5; 0x12; 0x34] in
  QuicEncodeLongPacketHeader sample_long 64 = Ok (18, out)
  /\ QuicParsePacketHeader (Bytes (out ++ [1; 2; 3])) 0 = Ok (long_header sample_long 0xc1 18).
Proof.
  intros out. assert (E : QuicEncodeLongPacketHeader sample_long 64 = Ok (18, out))
    by (vm_compute; reflexivity).
  split; [exact E|].
  refine (proj1 (long_header_roundtrip sample_long 64 18 out [1; 2; 3] 0 _ E _ _)).
  - vm_compute. repeat split; discriminate.
  - vm_compute. discriminate.
  - vm_compute. reflexivity.
Defined.

(** The same for short headers, when the receiver knows the length of the
    connection identifier; the packet extends to the end of the datagram. *)
Theorem short_header_roundtrip o capacity pnOffset out payload :
  0 <= so_PacketNumberLength o -> QuicEncodeShortPacketHeader o capacity = Ok (pnOffset, out) ->
  zlen (out ++ payload) < 2 ^ 64 ->
  QuicParsePacketHeader (Bytes (out ++ payload)) (sp_len (so_DestinationConnectionId o))
  = Ok (short_header o (zget out 0) pnOffset (zlen (out ++ payload)))
  /\ zsub (out ++ payload) pnOffset (so_PacketNumberLength o)
     = be_put (so_PacketNumberLength o) (so_PacketNumber o)
  /\ zlen out = pnOffset + so_PacketNumberLength o /\ zlen out <= capacity.
Proof. apply short_roundtrip. Qed.

Lemma short_header_roundtrip_witness :
  let o := MkShort (Bytes [5; 6]) 0x0102 2 true in
  QuicEncodeShortPacketHeader o 16 = Ok (3, [0x45; 5; 6; 1; 2])
  /\ QuicParsePacketHeader (Bytes ([0x45; 5; 6; 1; 2] ++ [9; 9])) 2 = Ok (short_header o 0x45 3 7).
Proof.
  intros o. assert (E : QuicEncodeShortPacketHeader o 16 = Ok (3, [0x45; 5; 6; 1; 2]))
    by (vm_compute; reflexivity).
  split; [exact E|].
  refine (proj1 (short_header_roundtrip o 16 3 [0x45; 5; 6; 1; 2] [9; 9] _ E _)).
  - vm_compute. discriminate.
  - vm_compute. reflexivity.
Defined.

(** Coalesced packets.  On any datagram the iteration ends after at most as
    many steps as there are bytes; the packets it yields are non-empty, of the
    length their header says, and consecutive from the start of the datagram;
    and when it ends with NOT_FOUND only zero bytes (padding) are left. *)
Theorem coalesced_packets d cid :
  bytes d -> zlen d < 2 ^ 64 ->
  exists l st rest,
    packets (S (length d)) (QuicPacketIteratorInitialize (Bytes d) cid) = Some (l, st)
    /\ d = concat (map snd l) ++ rest
    /\ Forall (fun hp => 0 < zlen hp.2 /\ zlen hp.2 = ph_PacketLength hp.1) l
    /\ (st = STATUS_NOT_FOUND -> Forall (eq 0) rest).
Proof.
  intros Hd Hb. pose proof (zlen_nonneg d).
  destruct (packets_spec (S (length d)) d 0 cid) as (l & st & rest & E & Hd' & Hl & Hst);
    [done|done|lia|unfold zlen; lia|].
  exists l, st, rest. split; [exact E|]. split; [exact Hd'|]. split; [done|].
  intros Heq. destruct (Hst Heq) as [Hz|[c Hz]].
  - unfold IsAllZero in Hz. rewrite List.forallb_forall in Hz. apply Forall_forall. intros x Hx.
    apply list_elem_of_In, Hz in Hx. bool_lia.
  - by apply parse_header_not_found in Hz.
Qed.

Lemma coalesced_packets_witness :
  let d := [0xc1; 0; 0; 0; 1; 1; 4; 0; 0; 5; 1; 2; 3; 4; 5; 0x40; 7; 1; 2; 3] in
  match packets (S (length d)) (QuicPacketIteratorInitialize (Bytes d) 1) with
  | Some (l, _) => map snd l = [ztake 15 d; zdrop 15 d]
  | None => False
  end
  /\ exists l st rest,
       packets (S (length d)) (QuicPacketIteratorInitialize (Bytes d) 1) = Some (l, st)
       /\ d = concat (map snd l) ++ rest.
Proof.
  intros d. split; [vm_compute; reflexivity|].
  destruct (coalesced_packets d 1) as (l & st & rest & E & Hd & _).
  - unfold d. forall_list; unfold is_byte; lia.
  - vm_compute. reflexivity.
  - eauto.
Defined.
