(* ===== verification/QuicTransportParameters.v ===== *)
(** * QUIC transport parameters (src/wknetlib/quic/QuicTransportParameters.cpp)

    The parser of the parameters a peer sends in the TLS handshake, and the
    encoder of the client's own. *)

From S2P Require Import Prelude QuicVarInt QuicAckTracker QuicFrame.

(** ** Data *)

Inductive QuicTransportParameterPeerRole := Client | Server.

Definition QuicMaximumTransportParameterCount : Z := 64.
Definition WKNET_HARD_MAX_QUIC_TRANSPORT_PARAMETERS_BYTES : Z := 4096.

Definition TpOriginalDcid : Z := 0x00.
Definition TpMaxIdleTimeout : Z := 0x01.
Definition TpStatelessResetToken : Z := 0x02.
Definition TpMaxUdpPayloadSize : Z := 0x03.
Definition TpInitialMaxData : Z := 0x04.
Definition TpInitialMaxStreamDataBidiLocal : Z := 0x05.
Definition TpInitialMaxStreamDataBidiRemote : Z := 0x06.
Definition TpInitialMaxStreamDataUni : Z := 0x07.
Definition TpInitialMaxStreamsBidi : Z := 0x08.
Definition TpInitialMaxStreamsUni : Z := 0x09.
Definition TpAckDelayExponent : Z := 0x0a.
Definition TpMaxAckDelay : Z := 0x0b.
Definition TpDisableActiveMigration : Z := 0x0c.
Definition TpPreferredAddress : Z := 0x0d.
Definition TpActiveConnectionIdLimit : Z := 0x0e.
Definition TpInitialScid : Z := 0x0f.
Definition TpRetryScid : Z := 0x10.

Record QuicPreferredAddress := MkPreferred {
  pa_Ipv4Address : list Z;
  pa_Ipv4Port : Z;
  pa_Ipv6Address : list Z;
  pa_Ipv6Port : Z;
  pa_ConnectionId : span;
  pa_StatelessResetToken : list Z;
  pa_Present : bool;
}.
Definition preferred_default : QuicPreferredAddress :=
  MkPreferred (replicate 4 0) 0 (replicate 16 0) 0 (Null 0) (replicate 16 0) false.

(** [tp_ObservedIds] is the used prefix of the array. *)
Record QuicTransportParameters := MkParams {
  tp_OriginalDestinationConnectionId : span;
  tp_MaxIdleTimeout : Z;
  tp_StatelessResetToken : span;
  tp_MaxUdpPayloadSize : Z;
  tp_InitialMaxData : Z;
  tp_InitialMaxStreamDataBidiLocal : Z;
  tp_InitialMaxStreamDataBidiRemote : Z;
  tp_InitialMaxStreamDataUni : Z;
  tp_InitialMaxStreamsBidi : Z;
  tp_InitialMaxStreamsUni : Z;
  tp_AckDelayExponent : Z;
  tp_MaxAckDelay : Z;
  tp_ActiveConnectionIdLimit : Z;
  tp_InitialSourceConnectionId : span;
  tp_RetrySourceConnectionId : span;
  tp_PreferredAddress : QuicPreferredAddress;
  tp_DisableActiveMigration : bool;
  tp_ObservedIds : list Z;
}.
#[export] Instance QuicTransportParameters_eta : Eta QuicTransportParameters := fun x =>
  MkParams (tp_OriginalDestinationConnectionId x) (tp_MaxIdleTimeout x) (tp_StatelessResetToken x)
    (tp_MaxUdpPayloadSize x) (tp_InitialMaxData x) (tp_InitialMaxStreamDataBidiLocal x)
    (tp_InitialMaxStreamDataBidiRemote x) (tp_InitialMaxStreamDataUni x)
    (tp_InitialMaxStreamsBidi x) (tp_InitialMaxStreamsUni x) (tp_AckDelayExponent x)
    (tp_MaxAckDelay x) (tp_ActiveConnectionIdLimit x) (tp_InitialSourceConnectionId x)
    (tp_RetrySourceConnectionId x) (tp_PreferredAddress x) (tp_DisableActiveMigration x)
    (tp_ObservedIds x).

Definition params_default : QuicTransportParameters :=
  MkParams (Null 0) 0 (Null 0) 65527 0 0 0 0 0 0 3 25 2 (Null 0) (Null 0) preferred_default false [].

Record QuicClientTransportParameterOptions := MkOptions {
  to_InitialSourceConnectionId : span;
  to_MaxIdleTimeout : Z;
  to_InitialMaxData : Z;
  to_InitialMaxStreamDataBidiLocal : Z;
  to_InitialMaxStreamDataBidiRemote : Z;
  to_InitialMaxStreamDataUni : Z;
  to_InitialMaxStreamsBidi : Z;
  to_InitialMaxStreamsUni : Z;
  to_ActiveConnectionIdLimit : Z;
  to_DisableActiveMigration : bool;
}.

(** ** Parsing *)

Definition ReadPort (data : list Z) (offset : Z) : Z :=
  Z.lor (Z.shiftl (zget data offset) 8) (zget data (offset + 1)) mod 2 ^ 16.

(** [Seen] records the identifier, unless it was seen or the array is full. *)
Definition Seen (id : Z) (p : QuicTransportParameters) : bool * QuicTransportParameters :=
  if existsb (fun observed => observed =? id) (tp_ObservedIds p) then (true, p)
  else if zlen (tp_ObservedIds p) >=? QuicMaximumTransportParameterCount then (true, p)
  else (false, p <| tp_ObservedIds := tp_ObservedIds p ++ [id] |>).

Definition DecodeSingleVarInt (value : list Z) : Result Z :=
  '(decoded, consumed) ← QuicDecodeVarInt (Bytes value);
  if consumed =? zlen value then Ok decoded else Err STATUS_INVALID_NETWORK_RESPONSE.

(** A decoded value that must satisfy [ok]. *)
Definition decode_checked (value : list Z) (ok : Z -> bool) : Result Z :=
  v ← DecodeSingleVarInt value; if ok v then Ok v else Err STATUS_INVALID_NETWORK_RESPONSE.

Definition any_value (_ : Z) : bool := true.

Definition parse_preferred_address (value : list Z) : Result QuicPreferredAddress :=
  if zlen value <? 4 + 2 + 16 + 2 + 1 + 16 then Err STATUS_INVALID_NETWORK_RESPONSE
  else
    let cidLength := zget value 24 in
    if (cidLength >? QuicMaximumConnectionIdLength) || negb (zlen value =? 25 + cidLength + 16)
    then Err STATUS_INVALID_NETWORK_RESPONSE
    else
      Ok (MkPreferred (zsub value 0 4) (ReadPort value 4) (zsub value 6 16) (ReadPort value 22)
            (Bytes (zsub value 25 cidLength)) (zsub value (25 + cidLength) 16) true).

(** The [switch] on the identifier. *)
Definition set_parameter (id : Z) (value : list Z) (p : QuicTransportParameters)
    : Result QuicTransportParameters :=
  let cid_too_long := zlen value >? QuicMaximumConnectionIdLength in
  if id =? TpOriginalDcid then
    if cid_too_long then Err STATUS_INVALID_NETWORK_RESPONSE
    else Ok (p <| tp_OriginalDestinationConnectionId := Bytes value |>)
  else if id =? TpMaxIdleTimeout then
    v ← decode_checked value any_value; Ok (p <| tp_MaxIdleTimeout := v |>)
  else if id =? TpStatelessResetToken then
    if negb (zlen value =? 16) then Err STATUS_INVALID_NETWORK_RESPONSE
    else Ok (p <| tp_StatelessResetToken := Bytes value |>)
  else if id =? TpMaxUdpPayloadSize then
    v ← decode_checked value (fun v => negb ((v <? 1200) || (v >? 65527)));
    Ok (p <| tp_MaxUdpPayloadSize := v |>)
  else if id =? TpInitialMaxData then
    v ← decode_checked value any_value; Ok (p <| tp_InitialMaxData := v |>)
  else if id =? TpInitialMaxStreamDataBidiLocal then
    v ← decode_checked value any_value; Ok (p <| tp_InitialMaxStreamDataBidiLocal := v |>)
  else if id =? TpInitialMaxStreamDataBidiRemote then
    v ← decode_checked value any_value; Ok (p <| tp_InitialMaxStreamDataBidiRemote := v |>)
  else if id =? TpInitialMaxStreamDataUni then
    v ← decode_checked value any_value; Ok (p <| tp_InitialMaxStreamDataUni := v |>)
  else if id =? TpInitialMaxStreamsBidi then
    v ← decode_checked value (fun v => negb (v >? 2 ^ 60)); Ok (p <| tp_InitialMaxStreamsBidi := v |>)
  else if id =? TpInitialMaxStreamsUni then
    v ← decode_checked value (fun v => negb (v >? 2 ^ 60)); Ok (p <| tp_InitialMaxStreamsUni := v |>)
  else if id =? TpAckDelayExponent then
    v ← decode_checked value (fun v => negb (v >? 20)); Ok (p <| tp_AckDelayExponent := v |>)
  else if id =? TpMaxAckDelay then
    v ← decode_checked value (fun v => negb (v >=? 2 ^ 14)); Ok (p <| tp_MaxAckDelay := v |>)
  else if id =? TpDisableActiveMigration then
    if negb (zlen value =? 0) then Err STATUS_INVALID_NETWORK_RESPONSE
    else Ok (p <| tp_DisableActiveMigration := true |>)
  else if id =? TpPreferredAddress then
    a ← parse_preferred_address value; Ok (p <| tp_PreferredAddress := a |>)
  else if id =? TpActiveConnectionIdLimit then
    v ← decode_checked value (fun v => negb (v <? 2)); Ok (p <| tp_ActiveConnectionIdLimit := v |>)
  else if id =? TpInitialScid then
    if cid_too_long then Err STATUS_INVALID_NETWORK_RESPONSE
    else Ok (p <| tp_InitialSourceConnectionId := Bytes value |>)
  else if id =? TpRetryScid then
    if cid_too_long then Err STATUS_INVALID_NETWORK_RESPONSE
    else Ok (p <| tp_RetrySourceConnectionId := Bytes value |>)
  else Ok p.

Definition serverOnly (id : Z) : bool :=
  (id =? TpOriginalDcid) || (id =? TpStatelessResetToken) || (id =? TpPreferredAddress)
  || (id =? TpRetryScid).

(** What happens to one identifier and its value: duplicates, role, value. *)
Definition take_parameter (role : QuicTransportParameterPeerRole) (id : Z) (value : list Z)
    (p : QuicTransportParameters) : Result QuicTransportParameters :=
  let (seen, p) := Seen id p in
  if seen then Err STATUS_INVALID_NETWORK_RESPONSE
  else if serverOnly id && match role with Server => false | Client => true end
  then Err STATUS_INVALID_NETWORK_RESPONSE
  else set_parameter id value p.

Definition read_int (data : list Z) (offset : Z) : Result (Z * Z) :=
  '(value, consumed) ← QuicDecodeVarInt (Bytes (zdrop offset data)); Ok (value, offset +! consumed).

(** The [while] loop; every turn consumes two bytes at least. *)
Fixpoint parse_parameters (fuel : nat) (role : QuicTransportParameterPeerRole) (data : list Z)
    (offset : Z) (p : QuicTransportParameters) : Result QuicTransportParameters :=
  if negb (offset <? zlen data) then Ok p
  else
    match fuel with
    | O => Err (STATUS_OTHER 0)
    | S fuel =>
        '(id, offset) ← read_int data offset;
        '(length64, offset) ← read_int data offset;
        if (length64 >? zlen data) || (length64 >? zlen data -! offset)
        then Err STATUS_INVALID_NETWORK_RESPONSE
        else
          p ← take_parameter role id (zsub data offset length64) p;
          parse_parameters fuel role data (offset +! length64) p
    end.

Definition QuicParseTransportParameters (data : span) (role : QuicTransportParameterPeerRole)
    : Result QuicTransportParameters :=
  if (sp_isnull data && negb (sp_len data =? 0))
     || (sp_len data >? WKNET_HARD_MAX_QUIC_TRANSPORT_PARAMETERS_BYTES)
  then Err STATUS_INVALID_PARAMETER
  else parse_parameters (length (sp_bytes data)) role (sp_bytes data) 0 params_default.

(** ** Encoding *)

Definition WriteParameter (id : Z) (value : list Z) (capacity : Z) (output : list Z) : Result (list Z) :=
  written ← QuicEncodeVarInt id 0 (capacity -! zlen output);
  let output := output ++ written in
  written ← QuicEncodeVarInt (zlen value) 0 (capacity -! zlen output);
  let output := output ++ written in
  if zlen value >? capacity -! zlen output then Err STATUS_BUFFER_TOO_SMALL
  else Ok (output ++ value).

(** The two calls that encode an integer in the scratch array and write it. *)
Definition write_int (id v capacity : Z) (output : list Z) : Result (list Z) :=
  encoded ← QuicEncodeVarInt v 0 8; WriteParameter id encoded capacity output.
Definition write_nonzero (id v capacity : Z) (output : list Z) : Result (list Z) :=
  if v =? 0 then Ok output else write_int id v capacity output.

(** [allocated]: the scratch array could be allocated. *)
Definition QuicEncodeClientTransportParametersWithLimits (o : QuicClientTransportParameterOptions)
    (capacity : Z) (allocated : bool) : Result (list Z) :=
  let cid := to_InitialSourceConnectionId o in
  if (sp_len cid >? QuicMaximumConnectionIdLength) || (sp_isnull cid && negb (sp_len cid =? 0))
     || (to_MaxIdleTimeout o >? QuicVarIntMaximum) || (to_InitialMaxData o >? QuicVarIntMaximum)
     || (to_InitialMaxStreamDataBidiLocal o >? QuicVarIntMaximum)
     || (to_InitialMaxStreamDataBidiRemote o >? QuicVarIntMaximum)
     || (to_InitialMaxStreamDataUni o >? QuicVarIntMaximum)
     || (to_InitialMaxStreamsBidi o >? 2 ^ 60) || (to_InitialMaxStreamsUni o >? 2 ^ 60)
     || (to_ActiveConnectionIdLimit o <? 2) || (to_ActiveConnectionIdLimit o >? QuicVarIntMaximum)
  then Err STATUS_INVALID_PARAMETER
  else if negb allocated then Err STATUS_INSUFFICIENT_RESOURCES
  else
    output ← write_int TpMaxUdpPayloadSize 1200 capacity [];
    output ← write_nonzero TpMaxIdleTimeout (to_MaxIdleTimeout o) capacity output;
    output ← write_nonzero TpInitialMaxData (to_InitialMaxData o) capacity output;
    output ← write_nonzero TpInitialMaxStreamDataBidiLocal (to_InitialMaxStreamDataBidiLocal o) capacity output;
    output ← write_nonzero TpInitialMaxStreamDataBidiRemote (to_InitialMaxStreamDataBidiRemote o) capacity output;
    output ← write_nonzero TpInitialMaxStreamDataUni (to_InitialMaxStreamDataUni o) capacity output;
    output ← write_nonzero TpInitialMaxStreamsBidi (to_InitialMaxStreamsBidi o) capacity output;
    output ← write_nonzero TpInitialMaxStreamsUni (to_InitialMaxStreamsUni o) capacity output;
    output ← write_int TpActiveConnectionIdLimit (to_ActiveConnectionIdLimit o) capacity output;
    output ← (if to_DisableActiveMigration o
              then WriteParameter TpDisableActiveMigration [] capacity output else Ok output);
    WriteParameter TpInitialScid (sp_bytes cid) capacity output.

Definition QuicEncodeClientTransportParameters (cid : span) (capacity : Z) (allocated : bool)
    : Result (list Z) :=
  QuicEncodeClientTransportParametersWithLimits (MkOptions cid 0 0 0 0 0 0 0 2 true) capacity allocated.

(** ** The wire form of a list of parameters *)

Definition param_wire (id : Z) (value w : list Z) : Prop :=
  exists wi wl, w = wi ++ wl ++ value /\ vi id wi /\ vi (zlen value) wl.

Fixpoint wires (l : list (Z * list Z)) (w : list Z) : Prop :=
  match l with
  | [] => w = []
  | (id, value) :: l => exists w1 w2, w = w1 ++ w2 /\ param_wire id value w1 /\ wires l w2
  end.

Lemma wires_app l k w x : wires l w -> wires k x -> wires (l ++ k) (w ++ x).
Proof.
  revert w. induction l as [|[id v] l IH]; intros w; simpl; [by intros ->|].
  intros (w1 & w2 & -> & Hp & Hw) Hx. exists w1, (w2 ++ x). rewrite app_assoc. auto.
Qed.

Lemma encode_vi v capacity w : 0 <= v -> QuicEncodeVarInt v 0 capacity = Ok w -> vi v w.
Proof.
  intros Hv H. pose proof (varint_written _ _ _ _ Hv H) as (? & _ & ? & ?).
  split_and!; try done; try lia. intros suffix. by eapply varint_roundtrip.
Qed.

Lemma write_parameter_inv id value capacity out out' :
  0 <= id -> WriteParameter id value capacity out = Ok out' ->
  exists w, out' = out ++ w /\ wires [(id, value)] w.
Proof.
  intros Hid. unfold WriteParameter. intros (wi & Hi & (wl & Hl & H)%bind_Ok)%bind_Ok.
  apply encode_vi in Hi; [|done]. apply encode_vi in Hl; [|apply zlen_nonneg].
  case_if_in H; [done|]. injection H as <-. exists (wi ++ wl ++ value). rewrite !app_assoc. split; [done|].
  exists (wi ++ wl ++ value), []. rewrite app_nil_r, !app_assoc. split; [done|]. split; [|done].
  exists wi, wl. by rewrite !app_assoc.
Qed.

Lemma decode_single v w : vi v w -> DecodeSingleVarInt w = Ok v.
Proof.
  intros (_ & _ & _ & H). specialize (H []). rewrite app_nil_r in H. unfold DecodeSingleVarInt.
  rewrite H. simpl. by rewrite Z.eqb_refl.
Qed.

(** An integer parameter, and one that is left out when it is zero. *)
Definition int_param (id v : Z) (l : list (Z * list Z)) : Prop :=
  exists e, DecodeSingleVarInt e = Ok v /\ l = [(id, e)].
Definition opt_param (id v : Z) (l : list (Z * list Z)) : Prop :=
  if v =? 0 then l = [] else int_param id v l.

Lemma write_int_inv id v capacity out out' :
  0 <= id -> 0 <= v -> write_int id v capacity out = Ok out' ->
  exists w l, out' = out ++ w /\ wires l w /\ int_param id v l.
Proof.
  intros Hid Hv. unfold write_int. intros (e & He & H)%bind_Ok.
  apply encode_vi, decode_single in He; [|done]. apply write_parameter_inv in H as (w & -> & Hw); [|done].
  exists w, [(id, e)]. split; [done|]. split; [done|]. by exists e.
Qed.
Lemma write_nonzero_inv id v capacity out out' :
  0 <= id -> 0 <= v -> write_nonzero id v capacity out = Ok out' ->
  exists w l, out' = out ++ w /\ wires l w /\ opt_param id v l.
Proof.
  intros Hid Hv. unfold write_nonzero, opt_param. case_if; [|by apply write_int_inv].
  intros [= <-]. exists [], []. by rewrite app_nil_r.
Qed.

(** The parser on the wire form of a list takes the parameters one by one. *)
Fixpoint take_all (role : QuicTransportParameterPeerRole) (l : list (Z * list Z))
    (p : QuicTransportParameters) : Result QuicTransportParameters :=
  match l with
  | [] => Ok p
  | (id, value) :: l => p ← take_parameter role id value p; take_all role l p
  end.

Lemma read_int_at data o v w rest :
  at_ data o (w ++ rest) -> vi v w ->
  read_int data o = Ok (v, o + zlen w) /\ at_ data (o + zlen w) rest.
Proof.
  intros Hat Hv. destruct (read_at _ _ _ _ _ Hat Hv) as [E Hat']. split; [|done].
  revert E. unfold ReadValue, read_int. destruct (at_bound _ _ _ Hat). cbn [sp_len sp_drop].
  by guard_false.
Qed.

Lemma parse_wires role l w data o p fuel :
  wires l w -> at_ data o w -> (length l <= fuel)%nat ->
  parse_parameters fuel role data o p = take_all role l p.
Proof.
  revert w o p fuel. induction l as [|[id v] l IH]; intros w o p fuel Hw Hat Hf.
  { simpl in Hw. subst w. destruct Hat as (_ & _ & Hl & _). change (zlen (@nil Z)) with 0 in Hl.
    destruct fuel; simpl; rewrite (proj2 (Z.ltb_ge _ _)) by lia; done. }
  destruct Hw as (w1 & w2 & -> & (wi & wl & -> & Hi & Hl) & Hw). rewrite <- !app_assoc in Hat.
  destruct fuel as [|fuel]; [simpl in Hf; lia|]. cbn [parse_parameters take_all].
  destruct (read_int_at _ _ _ _ _ Hat Hi) as [E1 Hat1]. destruct (read_int_at _ _ _ _ _ Hat1 Hl) as [E2 Hat2].
  destruct (at_app _ _ _ _ Hat2) as [Hat3 Hs]. destruct (at_bound _ _ _ Hat), (at_bound _ _ _ Hat1),
    (at_bound _ _ _ Hat2), (at_bound _ _ _ Hat3). destruct Hi as (_ & ? & _).
  rewrite (proj2 (Z.ltb_lt _ _)) by lia. cbn [negb]. rewrite E1, bind_Ok_l, E2, bind_Ok_l.
  pose proof (zlen_nonneg v). u64_simpl. guard_false. rewrite Hs.
  destruct (take_parameter role id v p) as [p'|]; [|done]. rewrite !bind_Ok_l. apply (IH w2); [done|done|simpl in Hf; lia].
Qed.

Lemma take_all_app role l k p : take_all role (l ++ k) p = (p ← take_all role l p; take_all role k p).
Proof.
  revert p. induction l as [|[id v] l IH]; intros p; [done|]. simpl.
  destruct (take_parameter role id v p); simpl; [apply IH|done].
Qed.

(** The identifiers seen so far are among [known]. *)
Definition seen_in (known : list Z) (ids : list Z) : Prop :=
  Forall (fun i => i ∈ known) ids /\ zlen ids <= zlen known.

Lemma take_fresh role known ids id value p :
  seen_in known ids -> id ∉ known -> zlen known < 64 -> serverOnly id = false ->
  take_parameter role id value (p <| tp_ObservedIds := ids |>)
  = set_parameter id value (p <| tp_ObservedIds := ids ++ [id] |>).
Proof.
  intros [Hk Hl] Hid Hn Hs. unfold take_parameter, Seen. cbn [set_field tp_ObservedIds].
  rewrite Hs. cbn [andb].
  replace (existsb _ ids) with false.
  - unfold QuicMaximumTransportParameterCount. guard_false. done.
  - symmetry. apply not_true_iff_false. intros (x & Hx & Heq)%existsb_exists. apply Z.eqb_eq in Heq as ->.
    rewrite Forall_forall in Hk. apply Hid, Hk. by apply list_elem_of_In.
Qed.

(** A step of the parse of the parameters the encoder writes. *)
Lemma take_int role known ids id v l k (f : QuicTransportParameters -> QuicTransportParameters) p :
  int_param id v l -> seen_in known ids -> id ∉ known -> zlen known < 64 -> serverOnly id = false ->
  (forall e q, DecodeSingleVarInt e = Ok v -> set_parameter id e q = Ok (f q)) ->
  (forall x, f (p <| tp_ObservedIds := x |>) = (f p) <| tp_ObservedIds := x |>) ->
  exists ids', seen_in (id :: known) ids'
    /\ take_all role (l ++ k) (p <| tp_ObservedIds := ids |>)
       = take_all role k ((f p) <| tp_ObservedIds := ids' |>).
Proof.
  intros (e & He & ->) Hseen Hid Hn Hs Hset Hf. exists (ids ++ [id]). split.
  - destruct Hseen as [Hk Hl]. split.
    + apply Forall_app. split; [|constructor; [apply list_elem_of_here|constructor]].
      eapply Forall_impl; [exact Hk|]. intros x Hx. by apply list_elem_of_further.
    + rewrite zlen_app, (zlen_cons id known). change (zlen [id]) with 1. lia.
  - cbn [take_all app]. rewrite (take_fresh role known) by done. rewrite Hset by done.
    simpl. by rewrite Hf.
Qed.

Lemma take_opt role known ids id v l k (f : QuicTransportParameters -> QuicTransportParameters) p :
  opt_param id v l -> seen_in known ids -> id ∉ known -> zlen known < 64 -> serverOnly id = false ->
  (forall e q, DecodeSingleVarInt e = Ok v -> set_parameter id e q = Ok (f q)) ->
  (forall x, f (p <| tp_ObservedIds := x |>) = (f p) <| tp_ObservedIds := x |>) ->
  (v = 0 -> f p = p) ->
  exists ids', seen_in (id :: known) ids'
    /\ take_all role (l ++ k) (p <| tp_ObservedIds := ids |>)
       = take_all role k ((f p) <| tp_ObservedIds := ids' |>).
Proof.
  unfold opt_param. destruct (Z.eqb_spec v 0) as [Hz|Hz]; [|intros; by eapply take_int].
  intros -> [Hk Hl] _ _ _ _ _ Hp. exists ids. rewrite (Hp Hz). split; [|done]. split.
  - eapply Forall_impl; [exact Hk|]. intros x Hx. by apply list_elem_of_further.
  - rewrite zlen_cons. lia.
Qed.

(** The same steps, with the rest of the parse as a continuation. *)
Definition parses_to (role : QuicTransportParameterPeerRole) (l : list (Z * list Z))
    (p target : QuicTransportParameters) (ids : list Z) : Prop :=
  exists ids', take_all role l (p <| tp_ObservedIds := ids |>) = Ok (target <| tp_ObservedIds := ids' |>).

Lemma step_int (f : QuicTransportParameters -> QuicTransportParameters) role known ids id v l k p target :
  int_param id v l -> seen_in known ids -> id ∉ known -> zlen known < 64 -> serverOnly id = false ->
  (forall e q, DecodeSingleVarInt e = Ok v -> set_parameter id e q = Ok (f q)) ->
  (forall x, f (p <| tp_ObservedIds := x |>) = (f p) <| tp_ObservedIds := x |>) ->
  (forall ids', seen_in (id :: known) ids' -> parses_to role k (f p) target ids') ->
  parses_to role (l ++ k) p target ids.
Proof.
  intros H1 H2 H3 H4 H5 H6 H7 Hk.
  destruct (take_int role known ids id v l k f p H1 H2 H3 H4 H5 H6 H7) as (ids' & Hs & E).
  unfold parses_to. rewrite E. by apply Hk.
Qed.
Lemma step_opt (f : QuicTransportParameters -> QuicTransportParameters) role known ids id v l k p target :
  opt_param id v l -> seen_in known ids -> id ∉ known -> zlen known < 64 -> serverOnly id = false ->
  (forall e q, DecodeSingleVarInt e = Ok v -> set_parameter id e q = Ok (f q)) ->
  (forall x, f (p <| tp_ObservedIds := x |>) = (f p) <| tp_ObservedIds := x |>) ->
  (v = 0 -> f p = p) ->
  (forall ids', seen_in (id :: known) ids' -> parses_to role k (f p) target ids') ->
  parses_to role (l ++ k) p target ids.
Proof.
  intros H1 H2 H3 H4 H5 H6 H7 H8 Hk.
  destruct (take_opt role known ids id v l k f p H1 H2 H3 H4 H5 H6 H7 H8) as (ids' & Hs & E).
  unfold parses_to. rewrite E. by apply Hk.
Qed.

(** ** Round trip *)

Definition options_ok (o : QuicClientTransportParameterOptions) : Prop :=
  Forall (Z.le 0) [to_MaxIdleTimeout o; to_InitialMaxData o; to_InitialMaxStreamDataBidiLocal o;
    to_InitialMaxStreamDataBidiRemote o; to_InitialMaxStreamDataUni o; to_InitialMaxStreamsBidi o;
    to_InitialMaxStreamsUni o; to_ActiveConnectionIdLimit o].

(** The parameters a server reads from what the client encoded. *)
Definition client_params (o : QuicClientTransportParameterOptions) : QuicTransportParameters :=
  MkParams (Null 0) (to_MaxIdleTimeout o) (Null 0) 1200 (to_InitialMaxData o)
    (to_InitialMaxStreamDataBidiLocal o) (to_InitialMaxStreamDataBidiRemote o)
    (to_InitialMaxStreamDataUni o) (to_InitialMaxStreamsBidi o) (to_InitialMaxStreamsUni o) 3 25
    (to_ActiveConnectionIdLimit o) (Bytes (sp_bytes (to_InitialSourceConnectionId o))) (Null 0)
    preferred_default (to_DisableActiveMigration o) [].

Lemma decode_checked_ok e v ok : DecodeSingleVarInt e = Ok v -> ok v = true -> decode_checked e ok = Ok v.
Proof. intros He Hok. unfold decode_checked. by rewrite He, bind_Ok_l, Hok. Qed.

(** Split the next write of the encoder off. *)
Ltac next_write H w l Hw Hp :=
  let o1 := fresh "o" in let Hx := fresh "Hx" in
  apply bind_Ok in H as (o1 & Hx & H);
  first [apply write_int_inv in Hx as (w & l & -> & Hw & Hp)
        |apply write_nonzero_inv in Hx as (w & l & -> & Hw & Hp)];
  [|unfold TpMaxUdpPayloadSize, TpMaxIdleTimeout, TpInitialMaxData, TpInitialMaxStreamDataBidiLocal,
     TpInitialMaxStreamDataBidiRemote, TpInitialMaxStreamDataUni, TpInitialMaxStreamsBidi,
     TpInitialMaxStreamsUni, TpActiveConnectionIdLimit; lia|assumption || lia].

Lemma wires_length l w : wires l w -> (length l <= length w)%nat.
Proof.
  revert w. induction l as [|[id v] l IH]; intros w; simpl; [lia|].
  intros (w1 & w2 & -> & (wi & wl & -> & (_ & Hi & _) & _) & Hw). apply IH in Hw.
  rewrite !length_app. unfold zlen in Hi. lia.
Qed.

(** What the encoder wrote, as a list of parameters. *)
Lemma encoded_list o capacity out :
  options_ok o -> QuicEncodeClientTransportParametersWithLimits o capacity true = Ok out ->
  exists l1 l2 l3 l4 l5 l6 l7 l8 l9,
    wires (l1 ++ l2 ++ l3 ++ l4 ++ l5 ++ l6 ++ l7 ++ l8 ++ l9 ++
           (if to_DisableActiveMigration o then [(TpDisableActiveMigration, [])] else [])
           ++ [(TpInitialScid, sp_bytes (to_InitialSourceConnectionId o))]) out
    /\ int_param TpMaxUdpPayloadSize 1200 l1 /\ opt_param TpMaxIdleTimeout (to_MaxIdleTimeout o) l2
    /\ opt_param TpInitialMaxData (to_InitialMaxData o) l3
    /\ opt_param TpInitialMaxStreamDataBidiLocal (to_InitialMaxStreamDataBidiLocal o) l4
    /\ opt_param TpInitialMaxStreamDataBidiRemote (to_InitialMaxStreamDataBidiRemote o) l5
    /\ opt_param TpInitialMaxStreamDataUni (to_InitialMaxStreamDataUni o) l6
    /\ opt_param TpInitialMaxStreamsBidi (to_InitialMaxStreamsBidi o) l7
    /\ opt_param TpInitialMaxStreamsUni (to_InitialMaxStreamsUni o) l8
    /\ int_param TpActiveConnectionIdLimit (to_ActiveConnectionIdLimit o) l9
    /\ to_InitialMaxStreamsBidi o <= 2 ^ 60 /\ to_InitialMaxStreamsUni o <= 2 ^ 60
    /\ 2 <= to_ActiveConnectionIdLimit o
    /\ zlen (sp_bytes (to_InitialSourceConnectionId o)) <= QuicMaximumConnectionIdLength.
Proof.
  intros Hok H. repeat (apply Forall_cons in Hok as [? Hok]).
  unfold QuicEncodeClientTransportParametersWithLimits in H. cbv zeta in H. case_if_in H; [done|].
  cbn [negb] in H. bool_prop.
  next_write H w1 l1 W1 P1. next_write H w2 l2 W2 P2. next_write H w3 l3 W3 P3.
  next_write H w4 l4 W4 P4. next_write H w5 l5 W5 P5. next_write H w6 l6 W6 P6.
  next_write H w7 l7 W7 P7. next_write H w8 l8 W8 P8. next_write H w9 l9 W9 P9.
  apply bind_Ok in H as (o10 & Hx & H).
  apply write_parameter_inv in H as (w11 & -> & W11); [|unfold TpInitialScid; lia].
  assert (Hm : exists w10, o10 = ((((((((([] ++ w1) ++ w2) ++ w3) ++ w4) ++ w5) ++ w6) ++ w7) ++ w8) ++ w9) ++ w10
    /\ wires (if to_DisableActiveMigration o then [(TpDisableActiveMigration, [])] else []) w10).
  { destruct (to_DisableActiveMigration o).
    - apply write_parameter_inv in Hx; [done|unfold TpDisableActiveMigration; lia].
    - injection Hx as <-. exists []. by rewrite app_nil_r. }
  destruct Hm as (w10 & -> & W10). exists l1, l2, l3, l4, l5, l6, l7, l8, l9.
  assert (Hcid : zlen (sp_bytes (to_InitialSourceConnectionId o)) <= QuicMaximumConnectionIdLength).
  { destruct (to_InitialSourceConnectionId o); simpl in *; [|done]. by change (0 <= 20). }
  split_and!; try done; try lia.
  rewrite <- !app_assoc. cbn [app]. by repeat apply wires_app.
Qed.

(** The side conditions of the steps: identifiers are constants. *)
Ltac not_seen :=
  repeat (apply not_elem_of_cons; split; [intros E; vm_compute in E; discriminate E|]);
  apply not_elem_of_nil.

Ltac checked := intros e q He; unfold set_parameter; cbn [Z.eqb Pos.eqb TpOriginalDcid TpMaxIdleTimeout
  TpStatelessResetToken TpMaxUdpPayloadSize TpInitialMaxData TpInitialMaxStreamDataBidiLocal
  TpInitialMaxStreamDataBidiRemote TpInitialMaxStreamDataUni TpInitialMaxStreamsBidi
  TpInitialMaxStreamsUni TpAckDelayExponent TpMaxAckDelay TpDisableActiveMigration TpPreferredAddress
  TpActiveConnectionIdLimit TpInitialScid TpRetryScid];
  erewrite decode_checked_ok; [reflexivity|exact He|].

(** A bound that holds. *)
Ltac bool_ok := rewrite negb_true_iff, ?Z.gtb_ltb, Z.ltb_ge; lia.

Lemma take_client_params o role l1 l2 l3 l4 l5 l6 l7 l8 l9 :
  int_param TpMaxUdpPayloadSize 1200 l1 -> opt_param TpMaxIdleTimeout (to_MaxIdleTimeout o) l2 ->
  opt_param TpInitialMaxData (to_InitialMaxData o) l3 ->
  opt_param TpInitialMaxStreamDataBidiLocal (to_InitialMaxStreamDataBidiLocal o) l4 ->
  opt_param TpInitialMaxStreamDataBidiRemote (to_InitialMaxStreamDataBidiRemote o) l5 ->
  opt_param TpInitialMaxStreamDataUni (to_InitialMaxStreamDataUni o) l6 ->
  opt_param TpInitialMaxStreamsBidi (to_InitialMaxStreamsBidi o) l7 ->
  opt_param TpInitialMaxStreamsUni (to_InitialMaxStreamsUni o) l8 ->
  int_param TpActiveConnectionIdLimit (to_ActiveConnectionIdLimit o) l9 ->
  to_InitialMaxStreamsBidi o <= 2 ^ 60 -> to_InitialMaxStreamsUni o <= 2 ^ 60 ->
  2 <= to_ActiveConnectionIdLimit o ->
  zlen (sp_bytes (to_InitialSourceConnectionId o)) <= QuicMaximumConnectionIdLength ->
  parses_to role (l1 ++ l2 ++ l3 ++ l4 ++ l5 ++ l6 ++ l7 ++ l8 ++ l9 ++
      (if to_DisableActiveMigration o then [(TpDisableActiveMigration, [])] else [])
      ++ [(TpInitialScid, sp_bytes (to_InitialSourceConnectionId o))]) params_default
    (client_params o) [].
Proof.
  intros P1 P2 P3 P4 P5 P6 P7 P8 P9 Hb7 Hb8 Hb9 Hcid.
  assert (S0 : seen_in [] []) by (split; [constructor|done]).
  eapply (step_int (fun q => q <| tp_MaxUdpPayloadSize := 1200 |>));
    [exact P1|exact S0|not_seen|done|done|checked; done|done|intros i1 S1].
  eapply (step_opt (fun q => q <| tp_MaxIdleTimeout := to_MaxIdleTimeout o |>));
    [exact P2|exact S1|not_seen|done|done|checked; done|done|by intros ->|intros i2 S2].
  eapply (step_opt (fun q => q <| tp_InitialMaxData := to_InitialMaxData o |>));
    [exact P3|exact S2|not_seen|done|done|checked; done|done|by intros ->|intros i3 S3].
  eapply (step_opt (fun q => q <| tp_InitialMaxStreamDataBidiLocal := to_InitialMaxStreamDataBidiLocal o |>));
    [exact P4|exact S3|not_seen|done|done|checked; done|done|by intros ->|intros i4 S4].
  eapply (step_opt (fun q => q <| tp_InitialMaxStreamDataBidiRemote := to_InitialMaxStreamDataBidiRemote o |>));
    [exact P5|exact S4|not_seen|done|done|checked; done|done|by intros ->|intros i5 S5].
  eapply (step_opt (fun q => q <| tp_InitialMaxStreamDataUni := to_InitialMaxStreamDataUni o |>));
    [exact P6|exact S5|not_seen|done|done|checked; done|done|by intros ->|intros i6 S6].
  eapply (step_opt (fun q => q <| tp_InitialMaxStreamsBidi := to_InitialMaxStreamsBidi o |>));
    [exact P7|exact S6|not_seen|done|done|checked; bool_ok|done|by intros ->|intros i7 S7].
  eapply (step_opt (fun q => q <| tp_InitialMaxStreamsUni := to_InitialMaxStreamsUni o |>));
    [exact P8|exact S7|not_seen|done|done|checked; bool_ok|done|by intros ->|intros i8 S8].
  eapply (step_int (fun q => q <| tp_ActiveConnectionIdLimit := to_ActiveConnectionIdLimit o |>));
    [exact P9|exact S8|not_seen|done|done|checked; bool_ok|done|intros i9 S9].
  assert (Hdis : forall q ids, set_parameter TpDisableActiveMigration [] (q <| tp_ObservedIds := ids |>)
    = Ok (q <| tp_DisableActiveMigration := true |> <| tp_ObservedIds := ids |>)) by done.
  assert (Hscid : forall q ids,
    set_parameter TpInitialScid (sp_bytes (to_InitialSourceConnectionId o)) (q <| tp_ObservedIds := ids |>)
    = Ok (q <| tp_InitialSourceConnectionId := Bytes (sp_bytes (to_InitialSourceConnectionId o)) |>
            <| tp_ObservedIds := ids |>)).
  { intros q ids. unfold set_parameter.
    cbn [Z.eqb Pos.eqb TpOriginalDcid TpMaxIdleTimeout TpStatelessResetToken TpMaxUdpPayloadSize
      TpInitialMaxData TpInitialMaxStreamDataBidiLocal TpInitialMaxStreamDataBidiRemote
      TpInitialMaxStreamDataUni TpInitialMaxStreamsBidi TpInitialMaxStreamsUni TpAckDelayExponent
      TpMaxAckDelay TpDisableActiveMigration TpPreferredAddress TpActiveConnectionIdLimit TpInitialScid
      TpRetryScid]. by guard_false. }
  assert (Hnew : forall i ids, seen_in i ids -> seen_in (TpDisableActiveMigration :: i) (ids ++ [TpDisableActiveMigration])).
  { intros i ids [Hk Hl]. split.
    - apply Forall_app. split; [|constructor; [apply list_elem_of_here|constructor]].
      eapply Forall_impl; [exact Hk|]. intros x Hx. by apply list_elem_of_further.
    - rewrite zlen_app, (zlen_cons _ i). change (zlen [_]) with 1. lia. }
  unfold parses_to, client_params. destruct (to_DisableActiveMigration o); cbn [app take_all].
  - erewrite take_fresh by (exact S9 || done || not_seen). rewrite Hdis, bind_Ok_l.
    erewrite take_fresh by (apply Hnew, S9 || done || not_seen). rewrite Hscid, bind_Ok_l.
    eexists. reflexivity.
  - erewrite take_fresh by (exact S9 || done || not_seen). rewrite Hscid, bind_Ok_l.
    eexists. reflexivity.
Qed.

(** ** What the parser may accept *)

Record params_inv (role : QuicTransportParameterPeerRole) (p : QuicTransportParameters) : Prop := {
  pi_ids : NoDup (tp_ObservedIds p);
  pi_count : zlen (tp_ObservedIds p) <= QuicMaximumTransportParameterCount;
  pi_udp : 1200 <= tp_MaxUdpPayloadSize p <= 65527;
  pi_bidi : tp_InitialMaxStreamsBidi p <= 2 ^ 60;
  pi_uni : tp_InitialMaxStreamsUni p <= 2 ^ 60;
  pi_exponent : tp_AckDelayExponent p <= 20;
  pi_delay : tp_MaxAckDelay p < 2 ^ 14;
  pi_cids : 2 <= tp_ActiveConnectionIdLimit p;
  pi_scid : sp_len (tp_InitialSourceConnectionId p) <= QuicMaximumConnectionIdLength;
  pi_role : role = Client ->
    tp_OriginalDestinationConnectionId p = Null 0 /\ tp_StatelessResetToken p = Null 0
    /\ tp_PreferredAddress p = preferred_default /\ tp_RetrySourceConnectionId p = Null 0;
}.

Lemma params_default_inv role : params_inv role params_default.
Proof. split; simpl; try done; try constructor; vm_compute; discriminate. Qed.

Lemma decode_checked_inv value ok v : decode_checked value ok = Ok v -> ok v = true.
Proof. unfold decode_checked. intros (w & _ & H)%bind_Ok. case_if_in H; [|done]. by injection H as <-. Qed.

Lemma Seen_inv role id p p' : Seen id p = (false, p') -> params_inv role p -> params_inv role p'.
Proof.
  unfold Seen. case_if; [done|]. case_if; [done|]. intros [= <-] []. bool_prop.
  split; cbn [set_field tp_ObservedIds tp_MaxUdpPayloadSize tp_InitialMaxStreamsBidi
    tp_InitialMaxStreamsUni tp_AckDelayExponent tp_MaxAckDelay tp_ActiveConnectionIdLimit
    tp_InitialSourceConnectionId tp_OriginalDestinationConnectionId tp_StatelessResetToken
    tp_PreferredAddress tp_RetrySourceConnectionId]; try done.
  - apply NoDup_app. split; [done|]. split; [|apply NoDup_singleton].
    intros x Hx ->%list_elem_of_singleton. 
    assert (existsb (fun observed => observed =? id) (tp_ObservedIds p) = true); [|congruence].
    apply existsb_exists. exists id. split; [by apply list_elem_of_In|apply Z.eqb_refl].
  - rewrite zlen_app. change (zlen [id]) with 1. lia.
Qed.

Lemma set_parameter_inv role id value p p' :
  set_parameter id value p = Ok p' -> serverOnly id && match role with Server => false | Client => true end = false ->
  params_inv role p -> params_inv role p'.
Proof.
  intros H Hr Hi. pose proof Hi as [].
  assert (Hro : role = Client -> serverOnly id = false).
  { intros ->. by rewrite andb_true_r in Hr. }
  unfold serverOnly in Hro. revert H. unfold set_parameter. cbv zeta.
  repeat (case_if; [try (case_if; [done|]);
    first [intros (v & Hv & [= <-])%bind_Ok; try apply decode_checked_inv in Hv | intros [= <-]];
    split; cbn [set_field tp_ObservedIds tp_MaxUdpPayloadSize tp_InitialMaxStreamsBidi
      tp_InitialMaxStreamsUni tp_AckDelayExponent tp_MaxAckDelay tp_ActiveConnectionIdLimit
      tp_InitialSourceConnectionId tp_OriginalDestinationConnectionId tp_StatelessResetToken
      tp_PreferredAddress tp_RetrySourceConnectionId];
    first [done | bool_lia | cbn [sp_len]; bool_lia | intros Hc; specialize (Hro Hc); bool_prop; congruence]|]).
  intros Hfin. injection Hfin as <-. exact Hi.
Qed.

Lemma take_parameter_inv role id value p p' :
  take_parameter role id value p = Ok p' -> params_inv role p -> params_inv role p'.
Proof.
  unfold take_parameter. destruct (Seen id p) as [[] p1] eqn:Hs; [done|].
  destruct (serverOnly id && _) eqn:Hso; [done|].
  intros H Hi. eapply set_parameter_inv; [exact H|done|]. by eapply Seen_inv.
Qed.

Lemma parse_parameters_inv fuel role data o p p' :
  parse_parameters fuel role data o p = Ok p' -> params_inv role p -> params_inv role p'.
Proof.
  revert o p. induction fuel as [|fuel IH]; intros o p; simpl; [case_if; [by intros [= ->]|done]|].
  case_if; [by intros [= ->]|]. intros ((id & o1) & _ & ((n & o2) & _ & H)%bind_Ok)%bind_Ok Hi.
  case_if_in H; [done|]. apply bind_Ok in H as (p1 & Hp & H). apply IH in H; [done|].
  by eapply take_parameter_inv.
Qed.

(** The fuel is enough: running out of it is the only source of [STATUS_OTHER]. *)
Definition proper {A} (r : Result A) : Prop := r <> Err (STATUS_OTHER 0).
Lemma bind_proper {A B} (m : Result A) (f : A -> Result B) :
  proper m -> (forall a, m = Ok a -> proper (f a)) -> proper (m ≫= f).
Proof. unfold proper. destruct m as [a|s]; simpl; [auto|]. intros Hm _ [= ->]. by apply Hm. Qed.

Lemma decode_proper d : proper (QuicDecodeVarInt d).
Proof. unfold proper, QuicDecodeVarInt. cbv zeta. by repeat case_if. Qed.
Lemma read_int_proper d o : proper (read_int d o).
Proof. apply bind_proper; [apply decode_proper|by intros []]. Qed.
Lemma decode_checked_proper e ok : proper (decode_checked e ok).
Proof.
  apply bind_proper; [|intros v _; by case_if]. apply bind_proper; [apply decode_proper|].
  intros [v n] _. by case_if.
Qed.
Lemma set_parameter_proper id value p : proper (set_parameter id value p).
Proof.
  unfold set_parameter. cbv zeta.
  repeat (case_if; [first [apply bind_proper; [|done]; first [apply decode_checked_proper
    | unfold parse_preferred_address; cbv zeta; by repeat case_if] | by case_if]|]).
  done.
Qed.

Lemma parse_parameters_proper fuel role data o p :
  bytes data -> zlen data < 2 ^ 64 -> 0 <= o <= zlen data -> zlen data - o <= Z.of_nat fuel ->
  proper (parse_parameters fuel role data o p).
Proof.
  intros Hd Hb. revert o p. induction fuel as [|fuel IH]; intros o p Ho Hf; simpl; case_if; try done; bool_prop.
  { lia. }
  apply bind_proper; [apply read_int_proper|]. intros [id o1] H1.
  apply bind_proper; [apply read_int_proper|]. intros [n o2] H2.
  assert (Hread : forall o v o', 0 <= o <= zlen data -> read_int data o = Ok (v, o') ->
    0 <= v <= QuicVarIntMaximum /\ o < o' <= zlen data).
  { intros o' v o'' Ho' H. apply (read_inv data o' v o''); [done|done|lia|]. revert H.
    unfold read_int, ReadValue. cbn [sp_len sp_drop]. by guard_false. }
  apply Hread in H1 as [_ ?]; [|lia]. apply Hread in H2 as [? ?]; [|lia].
  case_if; [done|]. bool_prop. rewrite u64_id in * by lia. apply bind_proper.
  - unfold take_parameter. destruct (Seen id p) as [[] p1]; [done|].
    destruct (serverOnly id && _); [done|]. apply set_parameter_proper.
  - intros p1 _. rewrite u64_id by lia. apply IH; lia.
Qed.

(** ** Properties *)

(** What the client encodes the server reads: every limit, the connection
    identifier and the migration flag arrive, limits of zero (left out on the
    wire) read as zero, and all other parameters have their defaults.  The
    result is the same whatever role the parser is told. *)
Theorem client_params_roundtrip o capacity out role :
  options_ok o -> QuicEncodeClientTransportParametersWithLimits o capacity true = Ok out ->
  zlen out <= WKNET_HARD_MAX_QUIC_TRANSPORT_PARAMETERS_BYTES ->
  exists ids, QuicParseTransportParameters (Bytes out) role
              = Ok ((client_params o) <| tp_ObservedIds := ids |>).
Proof.
  intros Hok H Hlen.
  destruct (encoded_list o capacity out Hok H)
    as (l1 & l2 & l3 & l4 & l5 & l6 & l7 & l8 & l9 & Hw & P1 & P2 & P3 & P4 & P5 & P6 & P7 & P8 & P9
        & B7 & B8 & B9 & Bc).
  destruct (take_client_params o role l1 l2 l3 l4 l5 l6 l7 l8 l9 P1 P2 P3 P4 P5 P6 P7 P8 P9 B7 B8 B9 Bc)
    as (ids & Ht).
  exists ids. unfold QuicParseTransportParameters. cbn [sp_isnull sp_len sp_bytes andb orb].
  guard_false. rewrite <- Ht. change params_default with (params_default <| tp_ObservedIds := [] |>).
  apply parse_wires with (w := out); [done| |by eapply wires_length].
  unfold WKNET_HARD_MAX_QUIC_TRANSPORT_PARAMETERS_BYTES in Hlen. split_and!; done || lia.
Qed.

Definition sample_options : QuicClientTransportParameterOptions :=
  MkOptions (Bytes [1; 2; 3; 4; 5; 6; 7; 8]) 30000 1048576 65536 65536 0 100 3 4 true.

Lemma client_params_roundtrip_witness :
  exists out ids, QuicEncodeClientTransportParametersWithLimits sample_options 256 true = Ok out
    /\ zlen out = 50
    /\ QuicParseTransportParameters (Bytes out) Client
       = Ok ((client_params sample_options) <| tp_ObservedIds := ids |>).
Proof.
  destruct (QuicEncodeClientTransportParametersWithLimits sample_options 256 true) as [out|] eqn:E;
    [|vm_compute in E; discriminate E].
  assert (Hl : zlen out = 50) by (vm_compute in E; injection E as <-; reflexivity).
  destruct (client_params_roundtrip sample_options 256 out Client) as [ids Hp].
  - unfold options_ok. forall_list; vm_compute; discriminate.
  - exact E.
  - rewrite Hl. vm_compute. discriminate.
  - exists out, ids. split; [reflexivity|]. split; [exact Hl|exact Hp].
Defined.

(** Whatever a peer sends: the loop always ends by itself (the fuel of the
    model is never exhausted); a duplicated identifier is an error; and the
    parameters that are accepted are legal: payload size, stream limits, ACK
    delay, connection-identifier limit within the bounds of RFC 9000, and no
    server-only parameter when the peer is a client. *)
Theorem parse_params_legal l role :
  bytes l ->
  match QuicParseTransportParameters (Bytes l) role with
  | Ok p => params_inv role p
  | Err s => s <> STATUS_OTHER 0
  end.
Proof.
  intros Hl. unfold QuicParseTransportParameters. cbn [sp_isnull sp_len sp_bytes andb orb].
  case_if; [done|]. bool_prop. unfold WKNET_HARD_MAX_QUIC_TRANSPORT_PARAMETERS_BYTES in *.
  pose proof (zlen_nonneg l).
  pose proof (parse_parameters_proper (length l) role l 0 params_default Hl ltac:(lia) ltac:(lia)
    ltac:(unfold zlen; lia)) as Hproper.
  destruct (parse_parameters _ _ _ _ _) as [p|s] eqn:Hp.
  - eapply parse_parameters_inv; [exact Hp|apply params_default_inv].
  - intros ->. by apply Hproper.
Qed.

Lemma parse_params_legal_witness :
  match QuicParseTransportParameters (Bytes [0x0e; 1; 8; 0x0a; 1; 3; 0x40; 0x99; 2; 1; 2]) Client with
  | Ok p => params_inv Client p
  | Err s => s <> STATUS_OTHER 0
  end
  /\ QuicParseTransportParameters (Bytes [0x0e; 1; 8; 0x0e; 1; 8]) Client = Err STATUS_INVALID_NETWORK_RESPONSE
  /\ QuicParseTransportParameters (Bytes [0x10; 1; 8]) Client = Err STATUS_INVALID_NETWORK_RESPONSE.
Proof.
  split; [|split; reflexivity].
  apply parse_params_legal. forall_list; unfold is_byte; lia.
Defined.
