(* ===== verification/HpackInteger.v ===== *)
(** * HPACK integers (src/wknetlib/http2/Hpack.cpp, RFC 7541 section 5.1)

    A value below 2^prefixBits - 1 sits in the low bits of the first byte; a
    larger one fills them and continues in groups of seven bits, lowest first.
    The file models the encoder and the decoder, which both work on [ULONG]. *)

From S2P Require Import Prelude.

(** ** Encoding *)

Definition max_prefix (prefixBits : Z) : Z := u8 (u32 (u32 (Z.shiftl 1 prefixBits) - 1)).
Definition prefix_mask (prefixBits : Z) : Z := u8 (Z.lnot (max_prefix prefixBits)).

(** [while (value >= 128) ...] and the final byte; [out] is [dest[0 .. offset)].
    A [ULONG] has at most five groups of seven bits. *)
Fixpoint encode_continuation (fuel : nat) (value : Z) (out : list Z) (capacity : Z) : Result (list Z) :=
  match fuel with
  | O => Err (STATUS_OTHER 0)
  | S fuel =>
      if value >=? 128 then
        if zlen out >=? capacity then Err STATUS_BUFFER_TOO_SMALL
        else encode_continuation fuel (Z.shiftr value 7)
               (out ++ [u8 (Z.lor (Z.land value 0x7f) 0x80)]) capacity
      else if zlen out >=? capacity then Err STATUS_BUFFER_TOO_SMALL
      else Ok (out ++ [u8 value])
  end.

(** Returns the bytes written to [dest]; their number is [*bytesWritten]. *)
Definition HpackEncodeInteger (value prefix prefixBits capacity : Z) : Result (list Z) :=
  if (prefixBits =? 0) || (prefixBits >? 8) then Err STATUS_INVALID_PARAMETER
  else
    let maxPrefix := max_prefix prefixBits in
    let prefixMask := prefix_mask prefixBits in
    if value <? maxPrefix then
      if capacity <? 1 then Err STATUS_BUFFER_TOO_SMALL
      else Ok [u8 (Z.lor (Z.land prefix prefixMask) (Z.land value maxPrefix))]
    else if capacity <? 1 then Err STATUS_BUFFER_TOO_SMALL
    else encode_continuation 5 (u32 (value - maxPrefix))
           [u8 (Z.lor (Z.land prefix prefixMask) maxPrefix)] capacity.

(** ** Decoding *)

(** The loop; [rest] is [src[offset .. length)].  Returns the value and the
    final offset. *)
Fixpoint decode_continuation (rest : list Z) (offset m continuationBytes result : Z) : Result (Z * Z) :=
  match rest with
  | [] => Err STATUS_MORE_PROCESSING_REQUIRED
  | b :: rest =>
      let continuationBytes := continuationBytes +! 1 in
      if continuationBytes >? 5 then Err STATUS_INTEGER_OVERFLOW
      else
        let offset := offset +! 1 in
        let chunk := Z.land b 0x7f in
        if (m >=? 32) || ((m >=? 28) && (chunk >? 0x0f)) then Err STATUS_INTEGER_OVERFLOW
        else
          let increment := u32 (Z.shiftl chunk m) in
          if result >? u32 (MAXU32 - increment) then Err STATUS_INTEGER_OVERFLOW
          else
            let result := u32 (result + increment) in
            let m := u32 (m + 7) in
            if Z.land b 0x80 =? 0 then Ok (result, offset)
            else decode_continuation rest offset m continuationBytes result
  end.

(** Returns the value and the number of bytes consumed. *)
Definition HpackDecodeInteger (src : span) (prefixBits : Z) : Result (Z * Z) :=
  if sp_isnull src || (prefixBits =? 0) || (prefixBits >? 8) || (sp_len src =? 0)
  then Err STATUS_INVALID_PARAMETER
  else
    let maxPrefix := max_prefix prefixBits in
    let result := Z.land (zget (sp_bytes src) 0) maxPrefix in
    if result <? maxPrefix then Ok (result, 1)
    else decode_continuation (zdrop 1 (sp_bytes src)) 1 0 0 result.

(** ** Facts *)

(** Every prefix width the callers use. *)
Definition prefix_width (n : Z) : Prop := 1 <= n <= 8.

Lemma prefix_width_cases n (P : Z -> Prop) :
  prefix_width n -> P 1 -> P 2 -> P 3 -> P 4 -> P 5 -> P 6 -> P 7 -> P 8 -> P n.
Proof.
  intros Hn. unfold prefix_width in Hn.
  assert (n = 1 \/ n = 2 \/ n = 3 \/ n = 4 \/ n = 5 \/ n = 6 \/ n = 7 \/ n = 8) as Hc by lia.
  by destruct Hc as [->|[->|[->|[->|[->|[->|[->| ->]]]]]]].
Qed.

Lemma width_guard n : prefix_width n -> (n =? 0) || (n >? 8) = false.
Proof. intros Hn. by apply (prefix_width_cases n (fun n => (n =? 0) || (n >? 8) = false)). Qed.

Lemma max_prefix_value n : prefix_width n -> max_prefix n = 2 ^ n - 1.
Proof. intros Hn. by apply (prefix_width_cases n (fun n => max_prefix n = 2 ^ n - 1)). Qed.

Lemma max_prefix_range n : prefix_width n -> 1 <= max_prefix n <= 255.
Proof. intros Hn. apply (prefix_width_cases n (fun n => 1 <= max_prefix n <= 255)); done. Qed.

Lemma prefix_mask_max n : prefix_width n -> Z.land (prefix_mask n) (max_prefix n) = 0.
Proof. intros Hn. by apply (prefix_width_cases n (fun n => Z.land (prefix_mask n) (max_prefix n) = 0)). Qed.

Lemma prefix_mask_range n : prefix_width n -> 0 <= prefix_mask n < 256.
Proof. intros Hn. apply u8_range. Qed.

Lemma land_byte a b : 0 <= b < 256 -> 0 <= Z.land a b < 256.
Proof.
  intros Hb. assert (Hbb : b = Z.land b (2 ^ 8 - 1)).
  { rewrite land_ones_mod by lia. by rewrite Z.mod_small. }
  rewrite Hbb, Z.land_assoc, land_ones_mod by lia. by apply Z.mod_pos_bound.
Qed.

Lemma lor_byte a b : 0 <= a < 256 -> 0 <= b < 256 -> 0 <= Z.lor a b < 256.
Proof.
  intros Ha Hb. split; [apply Z.lor_nonneg; lia|].
  destruct (Z.eq_dec (Z.lor a b) 0) as [->|Hne]; [lia|].
  assert (0 <= Z.lor a b) by (apply Z.lor_nonneg; lia).
  apply (Z.log2_lt_pow2 _ 8); [lia|]. rewrite Z.log2_lor by lia.
  apply Z.max_lub_lt.
  - destruct (Z.eq_dec a 0) as [->|]; [done|]. apply Z.log2_lt_pow2; lia.
  - destruct (Z.eq_dec b 0) as [->|]; [done|]. apply Z.log2_lt_pow2; lia.
Qed.

(** The low bits of a first byte. *)
Lemma first_byte_low n p v :
  prefix_width n ->
  let b := u8 (Z.lor (Z.land p (prefix_mask n)) (Z.land v (max_prefix n))) in
  is_byte b /\ Z.land b (max_prefix n) = Z.land v (max_prefix n)
  /\ Z.land b (prefix_mask n) = Z.land p (prefix_mask n).
Proof.
  intros Hn b. subst b. pose proof (prefix_mask_range n Hn). pose proof (max_prefix_range n Hn).
  unfold u8. rewrite Z.mod_small by (apply lor_byte; apply land_byte; lia).
  split; [apply lor_byte; apply land_byte; lia|].
  rewrite !Z.land_lor_distr_l, <- !Z.land_assoc, !Z.land_diag, prefix_mask_max by done.
  by rewrite (Z.land_comm (max_prefix n)), prefix_mask_max, !Z.land_0_r, Z.lor_0_l, Z.lor_0_r by done.
Qed.

Lemma land_max_prefix n v : prefix_width n -> 0 <= v <= max_prefix n -> Z.land v (max_prefix n) = v.
Proof.
  intros Hn Hv. rewrite max_prefix_value in * by done. rewrite land_ones_mod by (unfold prefix_width in Hn; lia).
  apply Z.mod_small. lia.
Qed.

(** One continuation byte of the encoder, read back. *)
Lemma group_byte v :
  0 <= v ->
  let b := u8 (Z.lor (Z.land v 0x7f) 0x80) in
  is_byte b /\ Z.land b 0x7f = v mod 128 /\ Z.land b 0x80 = 128.
Proof.
  intros Hv b. assert (Hl : Z.land v 0x7f = v mod 128) by apply (land_ones_mod v 7 ltac:(lia)).
  pose proof (Z.mod_pos_bound v 128 ltac:(lia)).
  assert (Hb : b = v mod 128 + 128).
  { pose proof (lor_disjoint 1 (v mod 128) 7 ltac:(lia) ltac:(lia)) as Hd.
    change (1 * 2 ^ 7) with 128 in Hd. unfold b. rewrite Hl, Z.lor_comm, Hd.
    unfold u8. rewrite Z.mod_small; lia. }
  rewrite Hb. split; [unfold is_byte; lia|]. revert H. generalize (v mod 128). clear.
  intros w Hw. pose proof (byte_cases (fun b => negb (b >=? 128) ||
     ((Z.land b 0x7f =? b - 128) && (Z.land b 0x80 =? 128))) eq_refl (w + 128) ltac:(unfold is_byte; lia)) as H.
  cbn beta in H. destruct (w + 128 >=? 128) eqn:E; [|bool_lia]. cbn in H. bool_prop. lia.
Qed.

Lemma last_byte v : 0 <= v < 128 -> u8 v = v /\ Z.land v 0x7f = v /\ Z.land v 0x80 = 0.
Proof.
  intros Hv. split; [unfold u8; apply Z.mod_small; lia|].
  pose proof (byte_cases (fun b => (b >=? 128) || ((Z.land b 0x7f =? b) && (Z.land b 0x80 =? 0)))
    eq_refl v ltac:(unfold is_byte; lia)) as H.
  cbn beta in H. destruct (v >=? 128) eqn:E; [bool_lia|]. cbn in H. bool_prop. lia.
Qed.

(** The room left for the value at shift [m]: the encoder's loop at [value]
    corresponds to the decoder's at shift [m]. *)
Lemma encode_continuation_S fuel value out capacity :
  encode_continuation (S fuel) value out capacity
  = if value >=? 128 then
      if zlen out >=? capacity then Err STATUS_BUFFER_TOO_SMALL
      else encode_continuation fuel (Z.shiftr value 7)
             (out ++ [u8 (Z.lor (Z.land value 0x7f) 0x80)]) capacity
    else if zlen out >=? capacity then Err STATUS_BUFFER_TOO_SMALL
    else Ok (out ++ [u8 value]).
Proof. done. Qed.

(** What the encoder's loop appends is read back by the decoder's. *)
Lemma continuation_roundtrip fuel : forall value out capacity res,
  0 <= value -> encode_continuation fuel value out capacity = Ok res ->
  exists ext, res = out ++ ext /\ bytes ext /\ 1 <= zlen ext <= Z.of_nat fuel /\ zlen res <= capacity
    /\ forall rest offset cnt result,
        0 <= cnt -> 0 <= result -> 0 <= offset -> offset + 5 - cnt < 2 ^ 64 ->
        cnt <= 4 -> result + value * 2 ^ (7 * cnt) < 2 ^ 32 -> value * 2 ^ (7 * cnt) < 2 ^ 32 ->
        (cnt = 0 \/ 0 < value) ->
        decode_continuation (ext ++ rest) offset (7 * cnt) cnt result
        = Ok (result + value * 2 ^ (7 * cnt), offset + zlen ext).
Proof.
  induction fuel as [|fuel IH]; intros value out capacity res Hv H; [discriminate|].
  rewrite encode_continuation_S in H.
  destruct (value >=? 128) eqn:E; case_ok H.
  - apply IH in H as (ext & -> & Hext & Hlen & Hcap & Hdec); [|by apply Z.shiftr_nonneg].
    destruct (group_byte value Hv) as (Hb & Hlow & Hhigh).
    set (b := u8 (Z.lor (Z.land value 0x7f) 0x80)) in *. clearbody b.
    exists (b :: ext). rewrite <- app_assoc. split_and!; try done.
    { by constructor. }
    { rewrite zlen_cons. lia. } { rewrite zlen_cons. lia. }
    { by rewrite <- app_assoc in Hcap. }
    intros rest offset cnt result Hc Hr Ho Ho' Hc4 Hfit Hfit' Hpos.
    rewrite zlen_cons. cbn [app decode_continuation]. rewrite Hlow, Hhigh.
    rewrite Z.shiftr_div_pow2 in Hdec by lia. change (2 ^ 7) with 128 in *.
    pose proof (Z.div_mod value 128 ltac:(lia)) as Hdm.
    pose proof (Z.mod_pos_bound value 128 ltac:(lia)) as Hm.
    set (q := value / 128) in *. set (w := value mod 128) in *. clearbody q w. subst value.
    assert (Hq : 1 <= q) by lia.
    assert (Hp : 2 ^ (7 * (cnt + 1)) = 128 * 2 ^ (7 * cnt)).
    { replace (7 * (cnt + 1)) with (7 + 7 * cnt) by lia. by rewrite Z.pow_add_r by lia. }
    assert (Hc3 : cnt <= 3).
    { destruct (Z.eq_dec cnt 4) as [->|]; [|lia].
      change (2 ^ (7 * 4)) with 268435456 in *. nia. }
    pose proof (Z.pow_pos_nonneg 2 (7 * cnt) ltac:(lia) ltac:(lia)) as Hpp.
    specialize (Hdec rest (offset + 1) (cnt + 1)). rewrite Hp in Hdec.
    set (p := 2 ^ (7 * cnt)) in *.
    assert (Hpb : p <= 2097152) by (apply (Z.pow_le_mono_r 2 _ 21); lia).
    assert (Hw : 0 <= w * p) by nia. assert (Hqp : 128 <= 128 * q * p) by nia.
    rewrite (u64_id (cnt + 1)) by lia. rewrite (u64_id (offset + 1)) by lia.
    destruct (_ >? 5) eqn:?; [bool_lia|].
    destruct (_ || _) eqn:Eo; [destruct (7 * cnt >=? 32) eqn:?, (7 * cnt >=? 28) eqn:?; bool_lia|].
    rewrite Z.shiftl_mul_pow2 by lia. fold p. rewrite (u32_id (w * p)) by nia.
    rewrite (u32_id (MAXU32 - _)) by (unfold MAXU32; nia).
    destruct (result >? _) eqn:?; [unfold MAXU32 in *; bool_prop; nia|].
    rewrite (u32_id (result + _)) by nia. rewrite (u32_id (7 * cnt + 7)) by lia.
    replace (7 * cnt + 7) with (7 * (cnt + 1)) by lia. change (128 =? 0) with false. cbv iota.
    rewrite Hdec by nia. f_equal. f_equal; [nia|lia].
  - injection H as <-. destruct (last_byte value ltac:(lia)) as (Hu & Hlow & Hhigh).
    exists [u8 value]. change (zlen [_]) with 1. rewrite zlen_app. change (zlen [_]) with 1.
    split_and!; try done; try lia. { constructor; [apply u8_range|done]. }
    intros rest offset cnt result Hc Hr Ho Ho' Hc4 Hfit Hfit' Hpos.
    cbn [app decode_continuation]. rewrite Hu, Hlow, Hhigh.
    rewrite (u64_id (cnt + 1)) by lia. rewrite (u64_id (offset + 1)) by lia.
    pose proof (Z.pow_pos_nonneg 2 (7 * cnt) ltac:(lia) ltac:(lia)) as Hpp.
    destruct (_ >? 5) eqn:?; [bool_lia|].
    assert (Hch : 7 * cnt >= 28 -> value <= 15).
    { intros. assert (cnt = 4) as -> by lia. change (2 ^ (7 * 4)) with 268435456 in *. lia. }
    destruct (_ || _) eqn:Eo.
    { destruct (7 * cnt >=? 32) eqn:?, (7 * cnt >=? 28) eqn:?, (value >? 15) eqn:?; cbn in Eo; try done; bool_lia. }
    rewrite Z.shiftl_mul_pow2 by lia. set (p := 2 ^ (7 * cnt)) in *.
    rewrite (u32_id (value * p)) by nia. rewrite (u32_id (MAXU32 - _)) by (unfold MAXU32; nia).
    destruct (result >? _) eqn:?; [unfold MAXU32 in *; bool_prop; nia|].
    rewrite (u32_id (result + _)) by nia. done.
Qed.

(** Five groups hold any [ULONG], so the loop's only failure is a full buffer. *)
Lemma encode_continuation_total fuel value out capacity :
  0 <= value < 128 ^ Z.of_nat fuel -> (0 < fuel)%nat ->
  match encode_continuation fuel value out capacity with
  | Ok res => True
  | Err s => s = STATUS_BUFFER_TOO_SMALL /\ capacity < zlen out + Z.of_nat fuel
  end.
Proof.
  revert value out. induction fuel as [|fuel IH]; intros value out Hv Hf; [lia|].
  rewrite encode_continuation_S. rewrite Nat2Z.inj_succ, Z.pow_succ_r in Hv by lia.
  destruct (value >=? 128) eqn:E; (destruct (zlen out >=? capacity) eqn:E'; [bool_prop; split; [done|lia]|]); [|done].
  bool_prop. destruct (decide (fuel = 0%nat)) as [->|Hne]; [change (128 ^ Z.of_nat 0) with 1 in Hv; lia|].
  specialize (IH (Z.shiftr value 7) (out ++ [u8 (Z.lor (Z.land value 0x7f) 0x80)])).
  rewrite Z.shiftr_div_pow2 in * by lia. change (2 ^ 7) with 128 in *.
  rewrite zlen_app in IH. change (zlen [_]) with 1 in IH.
  destruct (encode_continuation _ _ _ _); [done|]. destruct IH as [-> IH]; [|lia|split; [done|lia]].
  split; [apply Z.div_pos; lia|]. apply Z.div_lt_upper_bound; lia.
Qed.

Lemma integer_encoded value prefix n capacity out :
  is_u32 value -> prefix_width n -> HpackEncodeInteger value prefix n capacity = Ok out ->
  bytes out /\ 1 <= zlen out <= 6 /\ zlen out <= capacity
  /\ Z.land (zget out 0) (prefix_mask n) = Z.land prefix (prefix_mask n)
  /\ (forall suffix, HpackDecodeInteger (Bytes (out ++ suffix)) n = Ok (value, zlen out)).
Proof.
  intros Hv Hn H. unfold is_u32 in Hv. pose proof (max_prefix_range n Hn) as Hmax.
  unfold HpackEncodeInteger in H. rewrite width_guard in H by done.
  unfold HpackDecodeInteger. cbn [sp_isnull sp_len sp_bytes orb]. rewrite (width_guard n Hn).
  destruct (value <? max_prefix n) eqn:Es.
  - case_ok H. injection H as <-.
    destruct (first_byte_low n prefix value Hn) as (Hb & Hlow & Hhigh).
    set (b := u8 _) in *. clearbody b. rewrite (land_max_prefix n value) in Hlow by (done || lia).
    change (zlen [b]) with 1. change (zget [b] 0) with b. split_and!; try done; try lia.
    { by apply Forall_cons. }
    intros suffix. cbn [app]. rewrite zget_0, Hlow, zlen_cons. pose proof (zlen_nonneg suffix).
    destruct (_ =? 0) eqn:?; [bool_lia|]. cbn [orb].
    destruct (value <? max_prefix n) eqn:?; [done|bool_lia].
  - destruct (capacity <? 1) eqn:Ec; [done|]. bool_prop.
    rewrite u32_id in H by lia.
    destruct (first_byte_low n prefix (max_prefix n) Hn) as (Hb & Hlow & Hhigh).
    rewrite Z.land_diag in Hb, Hlow, Hhigh. set (b := u8 _) in *. clearbody b.
    apply continuation_roundtrip in H as (ext & -> & Hext & Hlen & Hcap & Hdec); [|lia].
    rewrite zlen_app in *. change (zlen [b]) with 1 in *. change (Z.of_nat 5) with 5 in Hlen.
    cbn [app] in *. rewrite zget_0. split_and!; try done; try lia. { by constructor. }
    intros suffix. rewrite zget_0, Hlow, zlen_cons, zlen_app. pose proof (zlen_nonneg suffix).
    destruct (_ =? 0) eqn:?; [bool_lia|]. cbn [orb].
    rewrite Z.ltb_irrefl. change (zdrop 1 (b :: ?l)) with l.
    specialize (Hdec suffix 1 0 (max_prefix n)). change (7 * 0) with 0 in Hdec.
    change (2 ^ 0) with 1 in Hdec. rewrite Hdec by lia. f_equal. f_equal; lia.
Qed.

Lemma integer_too_small value prefix n capacity s :
  is_u32 value -> prefix_width n -> HpackEncodeInteger value prefix n capacity = Err s ->
  s = STATUS_BUFFER_TOO_SMALL /\ capacity < 6.
Proof.
  intros Hv Hn H. unfold is_u32 in Hv. pose proof (max_prefix_range n Hn) as Hmax.
  unfold HpackEncodeInteger in H. rewrite width_guard in H by done.
  destruct (value <? max_prefix n) eqn:Es.
  { destruct (capacity <? 1) eqn:?; [|done]. injection H as <-. split; [done|bool_lia]. }
  destruct (capacity <? 1) eqn:?; [injection H as <-; split; [done|bool_lia]|]. bool_prop.
  rewrite u32_id in H by lia.
  epose proof (encode_continuation_total 5 (value - max_prefix n) _ capacity) as Ht.
  rewrite H in Ht. destruct Ht as [-> Ht]; [change (128 ^ Z.of_nat 5) with (2 ^ 35); lia|lia|].
  split; [done|]. change (zlen [_]) with 1 in Ht. lia.
Qed.

(** The decoder's loop never wraps around. *)
Lemma decode_continuation_range rest : forall offset m cnt result v k,
  bytes rest -> is_u32 result -> 0 <= cnt -> cnt <= 5 -> m = 7 * cnt ->
  0 <= offset -> offset + zlen rest < 2 ^ 64 ->
  decode_continuation rest offset m cnt result = Ok (v, k) ->
  is_u32 v /\ result <= v /\ offset < k <= offset + zlen rest /\ k <= offset + 5 - cnt.
Proof.
  unfold is_u32. induction rest as [|b rest IH]; intros offset m cnt result v k Hb Hr Hc Hc5 -> Ho Hlen H; [discriminate|].
  cbn [decode_continuation] in H. rewrite zlen_cons in *. pose proof (zlen_nonneg rest).
  apply Forall_cons in Hb as [Hb Hrest].
  rewrite (u64_id (cnt + 1)), (u64_id (offset + 1)) in H by lia.
  pose proof (u32_range (Z.shiftl (Z.land b 127) (7 * cnt))) as Hi.
  set (incr := u32 (Z.shiftl (Z.land b 127) (7 * cnt))) in *. clearbody incr.
  rewrite (u32_id (MAXU32 - incr)) in H by (unfold MAXU32; lia).
  destruct (_ >? 5) eqn:?; [done|]. destruct (_ || _); [done|].
  destruct (result >? _) eqn:E; [done|]. unfold MAXU32 in E. bool_prop.
  rewrite (u32_id (result + incr)), (u32_id (7 * cnt + 7)) in H by lia.
  destruct (_ =? 0).
  - injection H as <- <-. lia.
  - apply IH in H; [lia|done|lia..].
Qed.

Lemma integer_decoded l n v k :
  bytes l -> zlen l < 2 ^ 63 -> prefix_width n -> HpackDecodeInteger (Bytes l) n = Ok (v, k) ->
  is_u32 v /\ 1 <= k <= zlen l /\ k <= 6.
Proof.
  intros Hl Hlen Hn H. pose proof (max_prefix_range n Hn). unfold HpackDecodeInteger in H.
  cbn [sp_isnull sp_len sp_bytes] in H.
  destruct (_ || (zlen l =? 0)) eqn:E; [done|]. bool_prop. pose proof (zlen_nonneg l).
  assert (0 <= Z.land (zget l 0) (max_prefix n) < 256) by (apply land_byte; lia).
  destruct (_ <? _) eqn:Es.
  - injection H as <- <-. unfold is_u32. lia.
  - assert (zlen (zdrop 1 l) = zlen l - 1) as Hd by (apply zlen_zdrop; lia).
    apply decode_continuation_range in H; [|by apply bytes_zdrop|unfold is_u32; lia|lia..].
    unfold is_u32 in *. lia.
Qed.

(** ** Properties *)

(** Every [ULONG] the encoder accepts is read back exactly, with any bytes
    after it; the encoding has at most six bytes, fits the buffer, and leaves
    the bits above the prefix as the caller set them; the encoder fails only
    for want of room.  The decoder, on any bytes, returns a value of 32 bits
    and stays inside its input, so its arithmetic never wraps around. *)
Theorem hpack_integer_exact (value prefix n capacity : Z) (l : list Z) :
  is_u32 value -> prefix_width n -> bytes l -> zlen l < 2 ^ 63 ->
  match HpackEncodeInteger value prefix n capacity with
  | Ok out =>
      bytes out /\ 1 <= zlen out <= 6 /\ zlen out <= capacity
      /\ Z.land (zget out 0) (prefix_mask n) = Z.land prefix (prefix_mask n)
      /\ (forall suffix, HpackDecodeInteger (Bytes (out ++ suffix)) n = Ok (value, zlen out))
  | Err s => s = STATUS_BUFFER_TOO_SMALL /\ capacity < 6
  end
  /\ match HpackDecodeInteger (Bytes l) n with
     | Ok (v, k) => is_u32 v /\ 1 <= k <= zlen l /\ k <= 6
     | Err _ => True
     end.
Proof.
  intros Hv Hn Hl Hlen. split.
  - destruct (HpackEncodeInteger _ _ _ _) eqn:E;
      [by eapply integer_encoded|by eapply integer_too_small].
  - destruct (HpackDecodeInteger _ _) as [[v k]|] eqn:E; [by eapply integer_decoded|done].
Qed.

(** RFC 7541, C.1.2: 1337 with a prefix of five bits. *)
Lemma hpack_integer_exact_witness :
  HpackEncodeInteger 1337 0 5 16 = Ok [31; 154; 10]
  /\ HpackDecodeInteger (Bytes ([31; 154; 10] ++ [7; 7])) 5 = Ok (1337, 3).
Proof.
  pose proof (hpack_integer_exact 1337 0 5 16 [] ltac:(by split) ltac:(by split)
    ltac:(by apply Forall_nil_2) ltac:(by vm_compute)) as [H _].
  assert (E : HpackEncodeInteger 1337 0 5 16 = Ok [31; 154; 10]) by (by vm_compute).
  rewrite E in H. destruct H as (_ & _ & _ & _ & H). exact (conj E (H [7; 7])).
Defined.
