(* ===== verification/HpackHuffman.v ===== *)
(** * HPACK Huffman coding (src/wknetlib/http2/HpackHuffman.h and Hpack.cpp, RFC 7541 section 5.2)

    The static code of 257 symbols, the encoder that packs codes into bytes
    most significant bit first and pads with ones, and the decoder that reads
    one bit at a time and looks the collected bits up in the bucket of their
    length.  The main result is that the decoder accepts exactly the encoder's
    outputs. *)

From S2P Require Import Prelude.

(** ** Tables *)

(** [{ code, bit length }] of the symbols 0 to 255 and of EOS, 256. *)
Definition HpackHuffmanEncodeTable : list (Z * Z) := [
  (0x1ff8, 13); (0x7fffd8, 23); (0xfffffe2, 28); (0xfffffe3, 28); (0xfffffe4, 28); (0xfffffe5, 28);
  (0xfffffe6, 28); (0xfffffe7, 28); (0xfffffe8, 28); (0xffffea, 24); (0x3ffffffc, 30); (0xfffffe9, 28);
  (0xfffffea, 28); (0x3ffffffd, 30); (0xfffffeb, 28); (0xfffffec, 28); (0xfffffed, 28); (0xfffffee, 28);
  (0xfffffef, 28); (0xffffff0, 28); (0xffffff1, 28); (0xffffff2, 28); (0x3ffffffe, 30); (0xffffff3, 28);
  (0xffffff4, 28); (0xffffff5, 28); (0xffffff6, 28); (0xffffff7, 28); (0xffffff8, 28); (0xffffff9, 28);
  (0xffffffa, 28); (0xffffffb, 28); (0x14, 6); (0x3f8, 10); (0x3f9, 10); (0xffa, 12);
  (0x1ff9, 13); (0x15, 6); (0xf8, 8); (0x7fa, 11); (0x3fa, 10); (0x3fb, 10);
  (0xf9, 8); (0x7fb, 11); (0xfa, 8); (0x16, 6); (0x17, 6); (0x18, 6);
  (0x0, 5); (0x1, 5); (0x2, 5); (0x19, 6); (0x1a, 6); (0x1b, 6);
  (0x1c, 6); (0x1d, 6); (0x1e, 6); (0x1f, 6); (0x5c, 7); (0xfb, 8);
  (0x7ffc, 15); (0x20, 6); (0xffb, 12); (0x3fc, 10); (0x1ffa, 13); (0x21, 6);
  (0x5d, 7); (0x5e, 7); (0x5f, 7); (0x60, 7); (0x61, 7); (0x62, 7);
  (0x63, 7); (0x64, 7); (0x65, 7); (0x66, 7); (0x67, 7); (0x68, 7);
  (0x69, 7); (0x6a, 7); (0x6b, 7); (0x6c, 7); (0x6d, 7); (0x6e, 7);
  (0x6f, 7); (0x70, 7); (0x71, 7); (0x72, 7); (0xfc, 8); (0x73, 7);
  (0xfd, 8); (0x1ffb, 13); (0x7fff0, 19); (0x1ffc, 13); (0x3ffc, 14); (0x22, 6);
  (0x7ffd, 15); (0x3, 5); (0x23, 6); (0x4, 5); (0x24, 6); (0x5, 5);
  (0x25, 6); (0x26, 6); (0x27, 6); (0x6, 5); (0x74, 7); (0x75, 7);
  (0x28, 6); (0x29, 6); (0x2a, 6); (0x7, 5); (0x2b, 6); (0x76, 7);
  (0x2c, 6); (0x8, 5); (0x9, 5); (0x2d, 6); (0x77, 7); (0x78, 7);
  (0x79, 7); (0x7a, 7); (0x7b, 7); (0x7ffe, 15); (0x7fc, 11); (0x3ffd, 14);
  (0x1ffd, 13); (0xffffffc, 28); (0xfffe6, 20); (0x3fffd2, 22); (0xfffe7, 20); (0xfffe8, 20);
  (0x3fffd3, 22); (0x3fffd4, 22); (0x3fffd5, 22); (0x7fffd9, 23); (0x3fffd6, 22); (0x7fffda, 23);
  (0x7fffdb, 23); (0x7fffdc, 23); (0x7fffdd, 23); (0x7fffde, 23); (0xffffeb, 24); (0x7fffdf, 23);
  (0xffffec, 24); (0xffffed, 24); (0x3fffd7, 22); (0x7fffe0, 23); (0xffffee, 24); (0x7fffe1, 23);
  (0x7fffe2, 23); (0x7fffe3, 23); (0x7fffe4, 23); (0x1fffdc, 21); (0x3fffd8, 22); (0x7fffe5, 23);
  (0x3fffd9, 22); (0x7fffe6, 23); (0x7fffe7, 23); (0xffffef, 24); (0x3fffda, 22); (0x1fffdd, 21);
  (0xfffe9, 20); (0x3fffdb, 22); (0x3fffdc, 22); (0x7fffe8, 23); (0x7fffe9, 23); (0x1fffde, 21);
  (0x7fffea, 23); (0x3fffdd, 22); (0x3fffde, 22); (0xfffff0, 24); (0x1fffdf, 21); (0x3fffdf, 22);
  (0x7fffeb, 23); (0x7fffec, 23); (0x1fffe0, 21); (0x1fffe1, 21); (0x3fffe0, 22); (0x1fffe2, 21);
  (0x7fffed, 23); (0x3fffe1, 22); (0x7fffee, 23); (0x7fffef, 23); (0xfffea, 20); (0x3fffe2, 22);
  (0x3fffe3, 22); (0x3fffe4, 22); (0x7ffff0, 23); (0x3fffe5, 22); (0x3fffe6, 22); (0x7ffff1, 23);
  (0x3ffffe0, 26); (0x3ffffe1, 26); (0xfffeb, 20); (0x7fff1, 19); (0x3fffe7, 22); (0x7ffff2, 23);
  (0x3fffe8, 22); (0x1ffffec, 25); (0x3ffffe2, 26); (0x3ffffe3, 26); (0x3ffffe4, 26); (0x7ffffde, 27);
  (0x7ffffdf, 27); (0x3ffffe5, 26); (0xfffff1, 24); (0x1ffffed, 25); (0x7fff2, 19); (0x1fffe3, 21);
  (0x3ffffe6, 26); (0x7ffffe0, 27); (0x7ffffe1, 27); (0x3ffffe7, 26); (0x7ffffe2, 27); (0xfffff2, 24);
  (0x1fffe4, 21); (0x1fffe5, 21); (0x3ffffe8, 26); (0x3ffffe9, 26); (0xffffffd, 28); (0x7ffffe3, 27);
  (0x7ffffe4, 27); (0x7ffffe5, 27); (0xfffec, 20); (0xfffff3, 24); (0xfffed, 20); (0x1fffe6, 21);
  (0x3fffe9, 22); (0x1fffe7, 21); (0x1fffe8, 21); (0x7ffff3, 23); (0x3fffea, 22); (0x3fffeb, 22);
  (0x1ffffee, 25); (0x1ffffef, 25); (0xfffff4, 24); (0xfffff5, 24); (0x3ffffea, 26); (0x7ffff4, 23);
  (0x3ffffeb, 26); (0x7ffffe6, 27); (0x3ffffec, 26); (0x3ffffed, 26); (0x7ffffe7, 27); (0x7ffffe8, 27);
  (0x7ffffe9, 27); (0x7ffffea, 27); (0x7ffffeb, 27); (0xffffffe, 28); (0x7ffffec, 27); (0x7ffffed, 27);
  (0x7ffffee, 27); (0x7ffffef, 27); (0x7fffff0, 27); (0x3ffffee, 26); (0x3fffffff, 30)
].

Definition HpackHuffmanSymbolsByLength : list Z := [
  48; 49; 50; 97; 99; 101; 105; 111; 115; 116; 32; 37; 45; 46; 47; 51;
  52; 53; 54; 55; 56; 57; 61; 65; 95; 98; 100; 102; 103; 104; 108; 109;
  110; 112; 114; 117; 58; 66; 67; 68; 69; 70; 71; 72; 73; 74; 75; 76;
  77; 78; 79; 80; 81; 82; 83; 84; 85; 86; 87; 89; 106; 107; 113; 118;
  119; 120; 121; 122; 38; 42; 44; 59; 88; 90; 33; 34; 40; 41; 63; 39;
  43; 124; 35; 62; 0; 36; 64; 91; 93; 126; 94; 125; 60; 96; 123; 92;
  195; 208; 128; 130; 131; 162; 184; 194; 224; 226; 153; 161; 167; 172; 176; 177;
  179; 209; 216; 217; 227; 229; 230; 129; 132; 133; 134; 136; 146; 154; 156; 160;
  163; 164; 169; 170; 173; 178; 181; 185; 186; 187; 189; 190; 196; 198; 228; 232;
  233; 1; 135; 137; 138; 139; 140; 141; 143; 147; 149; 150; 151; 152; 155; 157;
  158; 165; 166; 168; 174; 175; 180; 182; 183; 188; 191; 197; 231; 239; 9; 142;
  144; 145; 148; 159; 171; 206; 215; 225; 236; 237; 199; 207; 234; 235; 192; 193;
  200; 201; 202; 205; 210; 213; 218; 219; 238; 240; 242; 243; 255; 203; 204; 211;
  212; 214; 221; 222; 223; 241; 244; 245; 246; 247; 248; 250; 251; 252; 253; 254;
  2; 3; 4; 5; 6; 7; 8; 11; 12; 14; 15; 16; 17; 18; 19; 20;
  21; 23; 24; 25; 26; 27; 28; 29; 30; 31; 127; 220; 249; 10; 13; 22;
  256
].

Definition HpackHuffmanLengthOffsets : list Z := [
  0; 0; 0; 0; 0; 0; 10; 36; 68; 74; 74; 79; 82; 84; 90; 92;
  95; 95; 95; 95; 98; 106; 119; 145; 174; 186; 190; 205; 224; 253; 253; 257
].

Definition HpackHuffmanLengthCounts : list Z := [
  0; 0; 0; 0; 0; 10; 26; 32; 6; 0; 5; 3; 2; 6; 2; 3;
  0; 0; 0; 3; 8; 13; 26; 29; 12; 4; 15; 19; 29; 0; 4; 0
].

Definition huffman_symbol (symbol : Z) : Z * Z :=
  nth (Z.to_nat symbol) HpackHuffmanEncodeTable (0, 0).
Definition Code (symbol : Z) : Z := (huffman_symbol symbol).1.
Definition BitLength (symbol : Z) : Z := (huffman_symbol symbol).2.

(** ** Lookup *)

(** The loop of [FindHuffmanSymbol] over the candidates [offset + i]. *)
Fixpoint find_candidate (code offset : Z) (i : Z) (count : nat) : option Z :=
  match count with
  | O => None
  | S count =>
      let candidate := zget HpackHuffmanSymbolsByLength (offset + i) in
      if Code candidate =? code then Some candidate
      else find_candidate code offset (i + 1) count
  end.

Definition FindHuffmanSymbol (code bitLength : Z) : option Z :=
  if bitLength >=? 32 then None
  else
    let offset := zget HpackHuffmanLengthOffsets bitLength in
    let count := zget HpackHuffmanLengthCounts bitLength in
    find_candidate code offset 0 (Z.to_nat count).

(** ** Encoding *)

(** A null source gives 0, like an empty one. *)
Definition HpackHuffmanEncodedLength (src : list Z) : Z :=
  let totalBits := foldl (fun totalBits b => totalBits +! BitLength b) 0 src in
  (totalBits +! 7) / 8.

(** [dest[0 .. destOffset)], [currentByte], [bitCount] *)
Record EncodeState := MkEncode { en_dest : list Z; en_currentByte : Z; en_bitCount : Z }.

Definition put_bit (capacity bit : Z) (st : EncodeState) : Result EncodeState :=
  let currentByte := u8 (Z.lor (Z.shiftl (en_currentByte st) 1) bit) in
  let bitCount := u8 (en_bitCount st + 1) in
  if bitCount =? 8 then
    if zlen (en_dest st) >=? capacity then Err STATUS_BUFFER_TOO_SMALL
    else Ok (MkEncode (en_dest st ++ [currentByte]) 0 0)
  else Ok (MkEncode (en_dest st) currentByte bitCount).

(** [for (bitIndex = 0; bitIndex < codeLen; ++bitIndex)]; [n] is the number of
    bits left, so [bitIndex = codeLen - n] and [bitShift = n - 1]. *)
Fixpoint put_code (capacity code : Z) (n : nat) (st : EncodeState) : Result EncodeState :=
  match n with
  | O => Ok st
  | S n =>
      let bit := Z.land (Z.shiftr code (Z.of_nat n)) 0x01 in
      st ← put_bit capacity bit st; put_code capacity code n st
  end.

Fixpoint put_codes (capacity : Z) (src : list Z) (st : EncodeState) : Result EncodeState :=
  match src with
  | [] => Ok st
  | b :: src =>
      st ← put_code capacity (Code b) (Z.to_nat (BitLength b)) st;
      put_codes capacity src st
  end.

(** Returns the bytes written to [dest], which is not null. *)
Definition HpackHuffmanEncode (src : span) (capacity : Z) : Result (list Z) :=
  if sp_isnull src && (sp_len src >? 0) then Err STATUS_INVALID_PARAMETER
  else if sp_len src =? 0 then Ok []
  else
    st ← put_codes capacity (sp_bytes src) (MkEncode [] 0 0);
    if en_bitCount st >? 0 then
      if zlen (en_dest st) >=? capacity then Err STATUS_BUFFER_TOO_SMALL
      else
        let room := 8 - en_bitCount st in
        let currentByte :=
          u8 (Z.lor (Z.shiftl (en_currentByte st) room) (u32 (Z.shiftl 1 room) - 1)) in
        Ok (en_dest st ++ [currentByte])
    else Ok (en_dest st).

(** ** Decoding *)

(** [dest[0 .. destOffset)], [currentCode], [currentBitLen] *)
Record DecodeState := MkDecode { de_dest : list Z; de_currentCode : Z; de_currentBitLen : Z }.

(** The body of the loop over the bits of a byte. *)
Definition take_bit (capacity bit : Z) (st : DecodeState) : Result DecodeState :=
  let currentCode := u32 (Z.lor (u32 (Z.shiftl (de_currentCode st) 1)) bit) in
  let currentBitLen := u8 (de_currentBitLen st + 1) in
  if currentBitLen >? 30 then Err STATUS_INVALID_NETWORK_RESPONSE
  else
    match FindHuffmanSymbol currentCode currentBitLen with
    | Some symbol =>
        if symbol =? 256 then Err STATUS_INVALID_NETWORK_RESPONSE
        else if zlen (de_dest st) >=? capacity then Err STATUS_BUFFER_TOO_SMALL
        else Ok (MkDecode (de_dest st ++ [u8 symbol]) 0 0)
    | None => Ok (MkDecode (de_dest st) currentCode currentBitLen)
    end.

(** [for (bitIdx = 7; bitIdx >= 0; --bitIdx)]; [n] is [bitIdx + 1]. *)
Fixpoint take_byte (capacity byte : Z) (n : nat) (st : DecodeState) : Result DecodeState :=
  match n with
  | O => Ok st
  | S n =>
      st ← take_bit capacity (Z.land (Z.shiftr byte (Z.of_nat n)) 1) st;
      take_byte capacity byte n st
  end.

Fixpoint take_bytes (capacity : Z) (src : list Z) (st : DecodeState) : Result DecodeState :=
  match src with
  | [] => Ok st
  | byte :: src => st ← take_byte capacity byte 8 st; take_bytes capacity src st
  end.

(** Returns the bytes written to [dest], which is not null. *)
Definition HpackHuffmanDecode (src : span) (capacity : Z) : Result (list Z) :=
  if sp_isnull src && (sp_len src >? 0) then Err STATUS_INVALID_PARAMETER
  else if sp_len src =? 0 then Ok []
  else
    st ← take_bytes capacity (sp_bytes src) (MkDecode [] 0 0);
    if de_currentBitLen st >? 7 then Err STATUS_INVALID_NETWORK_RESPONSE
    else if de_currentBitLen st >? 0 then
      let paddingMask := u32 (u32 (Z.shiftl 1 (de_currentBitLen st)) - 1) in
      if negb (Z.land (de_currentCode st) paddingMask =? paddingMask)
      then Err STATUS_INVALID_NETWORK_RESPONSE
      else Ok (de_dest st)
    else Ok (de_dest st).

(** ** Bit strings *)

Definition is_bit (b : Z) : Prop := b = 0 \/ b = 1.
Abbreviation bits := (Forall is_bit).

(** The low [n] bits of [code], the highest first. *)
Fixpoint code_bits (code : Z) (n : nat) : list Z :=
  match n with
  | O => []
  | S n => Z.land (Z.shiftr code (Z.of_nat n)) 1 :: code_bits code n
  end.
Definition bval (l : list Z) : Z := foldl (fun a b => 2 * a + b) 0 l.
Definition byte_bits (l : list Z) : list Z := concat (map (fun b => code_bits b 8) l).
Definition symbol_bits (s : Z) : list Z := code_bits (Code s) (Z.to_nat (BitLength s)).
Definition source_bits (l : list Z) : list Z := concat (map symbol_bits l).
Definition ones (n : nat) : list Z := replicate n 1.

Lemma land_1 a : Z.land a 1 = a mod 2.
Proof. by apply (land_ones_mod a 1). Qed.

Lemma land_1_bit a : is_bit (Z.land a 1).
Proof. rewrite land_1. unfold is_bit. pose proof (Z.mod_pos_bound a 2 ltac:(lia)). lia. Qed.

(** Reading one more bit. *)
Lemma shiftr_step a n : Z.shiftr a (Z.of_nat n) = 2 * Z.shiftr a (Z.of_nat (S n)) + Z.land (Z.shiftr a (Z.of_nat n)) 1.
Proof.
  rewrite land_1, Nat2Z.inj_succ, <- Z.add_1_r, <- Z.shiftr_shiftr, (Z.shiftr_div_pow2 _ 1) by lia.
  apply Z.div_mod. done.
Qed.

Lemma code_bits_bits c n : bits (code_bits c n).
Proof. induction n; cbn; constructor; [apply land_1_bit|done]. Qed.
Lemma code_bits_length c n : length (code_bits c n) = n.
Proof. by induction n; cbn; f_equal. Qed.

Lemma bval_app l k : bval (l ++ k) = bval l * 2 ^ zlen k + bval k.
Proof.
  unfold bval. rewrite foldl_app. generalize (foldl (fun a b => 2 * a + b) 0 l). clear l.
  induction k as [|b k IH] using rev_ind; intros a; [change (2 ^ zlen (@nil Z)) with 1; cbn; lia|].
  rewrite !foldl_app, zlen_app, Z.pow_add_r by (try apply zlen_nonneg; done). cbn [foldl].
  rewrite IH. change (2 ^ zlen [b]) with 2. lia.
Qed.
Lemma bval_snoc l b : bval (l ++ [b]) = 2 * bval l + b.
Proof. rewrite bval_app. change (2 ^ zlen [b]) with 2. change (bval [b]) with (2 * 0 + b). lia. Qed.

Lemma bval_range l : bits l -> 0 <= bval l < 2 ^ zlen l.
Proof.
  induction l as [|b l IH] using rev_ind; intros Hl; [done|].
  apply Forall_app in Hl as [Hl Hb]. apply Forall_inv in Hb. unfold is_bit in Hb.
  rewrite bval_snoc, zlen_app, Z.pow_add_r by (try apply zlen_nonneg; done).
  change (2 ^ zlen [b]) with 2. specialize (IH Hl). lia.
Qed.

Lemma code_bits_snoc c n : code_bits c (S n) = code_bits (Z.shiftr c 1) n ++ [Z.land c 1].
Proof.
  revert c. induction n as [|n IH]; intros c; [cbn; by rewrite Z.shiftr_0_r|].
  cbn [code_bits] in *. rewrite IH. cbn [app]. f_equal.
  rewrite Z.shiftr_shiftr by lia. do 2 f_equal. lia.
Qed.

(** A bit string is determined by its length and value. *)
Lemma code_bits_bval l : bits l -> code_bits (bval l) (length l) = l.
Proof.
  induction l as [|b l IH] using rev_ind; intros Hl; [done|].
  apply Forall_app in Hl as [Hl Hb]. apply Forall_inv in Hb.
  rewrite length_app. cbn [length]. rewrite Nat.add_1_r, code_bits_snoc, bval_snoc.
  assert (Z.shiftr (2 * bval l + b) 1 = bval l /\ Z.land (2 * bval l + b) 1 = b) as [-> ->].
  { rewrite land_1, Z.shiftr_div_pow2 by lia. change (2 ^ 1) with 2. unfold is_bit in Hb.
    pose proof (Z.div_mod (2 * bval l + b) 2 ltac:(lia)).
    pose proof (Z.mod_pos_bound (2 * bval l + b) 2 ltac:(lia)). lia. }
  by rewrite IH.
Qed.

Lemma bval_code_bits c n : 0 <= c < 2 ^ Z.of_nat n -> bval (code_bits c n) = c.
Proof.
  revert c. induction n as [|n IH]; intros c Hc; [cbn in *; lia|].
  rewrite code_bits_snoc, bval_snoc. rewrite IH.
  - pose proof (shiftr_step c 0) as H. rewrite Z.shiftr_0_r in H. change (Z.of_nat 1) with 1 in H. lia.
  - rewrite Nat2Z.inj_succ, Z.pow_succ_r in Hc by lia.
    rewrite Z.shiftr_div_pow2 by lia. change (2 ^ 1) with 2.
    split; [apply Z.div_pos; lia|apply Z.div_lt_upper_bound; lia].
Qed.

Lemma bval_ones n : bval (ones n) = 2 ^ Z.of_nat n - 1.
Proof.
  induction n as [|n IH]; [done|]. unfold ones in *. rewrite replicate_S_end, bval_snoc, IH.
  rewrite Nat2Z.inj_succ, Z.pow_succ_r by lia. lia.
Qed.
Lemma ones_bits n : bits (ones n).
Proof. apply Forall_replicate. by right. Qed.
Lemma ones_bval l : bits l -> bval l = 2 ^ zlen l - 1 -> l = ones (length l).
Proof.
  intros Hl Hv. pose proof (code_bits_bval l Hl) as H. rewrite Hv in H. rewrite <- H.
  rewrite code_bits_length.
  pose proof (code_bits_bval (ones (length l)) (ones_bits _)) as H'.
  rewrite bval_ones in H'. unfold ones in H' at 1. rewrite length_replicate in H'. done.
Qed.

Lemma byte_bits_length l : zlen (byte_bits l) = 8 * zlen l.
Proof.
  unfold byte_bits. induction l as [|b l IH]; [done|]. cbn [map concat].
  rewrite zlen_app, zlen_cons, IH. unfold zlen. rewrite code_bits_length. lia.
Qed.
Lemma byte_bits_app l k : byte_bits (l ++ k) = byte_bits l ++ byte_bits k.
Proof. unfold byte_bits. by rewrite map_app, concat_app. Qed.
Lemma byte_bits_bits l : bits (byte_bits l).
Proof.
  unfold byte_bits. induction l; cbn [map concat]; [done|].
  apply Forall_app; split; [apply code_bits_bits|done].
Qed.

Lemma byte_bits_inj l k : bytes l -> bytes k -> byte_bits l = byte_bits k -> l = k.
Proof.
  revert k. induction l as [|b l IH]; intros [|c k] Hl Hk H; [done|done|done|].
  unfold byte_bits in H. cbn [map concat] in H.
  apply app_inj_1 in H as [H1 H2]; [|by rewrite !code_bits_length].
  apply Forall_cons in Hl as [Hb Hl], Hk as [Hc Hk]. unfold is_byte in *. f_equal; [|by apply IH].
  rewrite <- (bval_code_bits b 8), <- (bval_code_bits c 8), H1 by (change (2 ^ Z.of_nat 8) with 256; lia). done.
Qed.

Lemma source_bits_app l k : source_bits (l ++ k) = source_bits l ++ source_bits k.
Proof. unfold source_bits. by rewrite map_app, concat_app. Qed.
Lemma source_bits_bits l : bits (source_bits l).
Proof.
  unfold source_bits. induction l; cbn [map concat]; [done|].
  apply Forall_app; split; [apply code_bits_bits|done].
Qed.

(** ** The code *)

(** The lookup finds a symbol by its code and nothing by a proper prefix of it. *)
Definition symbol_ok (s : Z) : bool :=
  let n := BitLength s in
  (5 <=? n) && (n <=? 30) && (0 <=? Code s) && (Code s <? 2 ^ n)
  && (match FindHuffmanSymbol (Code s) n with Some s' => s' =? s | None => false end)
  && forallb (fun k =>
       match FindHuffmanSymbol (Z.shiftr (Code s) (n - k)) k with Some _ => false | None => true end)
       (seqZ 1 (n - 1)).

(** Every candidate of a bucket has the bucket's length. *)
Definition bucket_ok (n : Z) : bool :=
  forallb (fun i =>
    let s := zget HpackHuffmanSymbolsByLength (zget HpackHuffmanLengthOffsets n + i) in
    (BitLength s =? n) && (0 <=? s) && (s <=? 256)) (seqZ 0 (zget HpackHuffmanLengthCounts n)).

Lemma symbols_ok : forallb symbol_ok (seqZ 0 257) = true.
Proof. by vm_compute. Qed.
Lemma buckets_ok : forallb bucket_ok (seqZ 0 32) = true.
Proof. by vm_compute. Qed.

Definition is_symbol (s : Z) : Prop := 0 <= s <= 256.

Lemma forallb_seqZ f a n k : forallb f (seqZ a n) = true -> a <= k < a + n -> f k = true.
Proof. intros H Hk. rewrite List.forallb_forall in H. apply H, list_elem_of_In, elem_of_seqZ. lia. Qed.

Lemma symbol_facts s :
  is_symbol s ->
  5 <= BitLength s <= 30 /\ 0 <= Code s < 2 ^ BitLength s
  /\ FindHuffmanSymbol (Code s) (BitLength s) = Some s
  /\ forall k, 1 <= k < BitLength s -> FindHuffmanSymbol (Z.shiftr (Code s) (BitLength s - k)) k = None.
Proof.
  intros Hs. unfold is_symbol in Hs.
  pose proof (forallb_seqZ _ _ _ s symbols_ok ltac:(lia)) as H. unfold symbol_ok in H.
  apply andb_true_iff in H as [H Hp]. apply andb_true_iff in H as [H Hf].
  destruct (FindHuffmanSymbol (Code s) _) as [s'|] eqn:E; [|done]. bool_prop. subst s'.
  split_and!; try done; try lia.
  intros k Hk. pose proof (forallb_seqZ _ _ _ k Hp ltac:(lia)) as H'. cbn beta in H'.
  by destruct (FindHuffmanSymbol _ k).
Qed.

Lemma find_candidate_some code offset i count s :
  find_candidate code offset i count = Some s ->
  Code s = code /\ exists j, i <= j < i + Z.of_nat count /\ s = zget HpackHuffmanSymbolsByLength (offset + j).
Proof.
  revert i. induction count as [|count IH]; intros i H; [done|]. cbn [find_candidate] in H.
  destruct (_ =? _) eqn:E.
  - injection H as <-. split; [bool_lia|]. exists i. split; [lia|done].
  - apply IH in H as (Hc & j & Hj & ->). split; [done|]. exists j. split; [lia|done].
Qed.

Lemma find_sound code n s :
  0 <= n -> FindHuffmanSymbol code n = Some s -> Code s = code /\ BitLength s = n /\ is_symbol s.
Proof.
  intros Hn H. unfold FindHuffmanSymbol in H. destruct (n >=? 32) eqn:E; [done|]. bool_prop.
  apply find_candidate_some in H as (Hc & j & Hj & ->).
  pose proof (forallb_seqZ _ _ _ n buckets_ok ltac:(lia)) as Hb. unfold bucket_ok in Hb.
  pose proof (forallb_seqZ _ _ _ j Hb ltac:(lia)) as Hs. cbn beta in Hs.
  unfold is_symbol. split; [done|]. bool_prop. lia.
Qed.

(** Padding is never a code: EOS is longer and starts with it. *)
Lemma find_ones k : 1 <= k <= 7 -> FindHuffmanSymbol (2 ^ k - 1) k = None.
Proof.
  intros Hk. assert (forallb (fun k => match FindHuffmanSymbol (2 ^ k - 1) k with
    Some _ => false | None => true end) (seqZ 1 7) = true) as H by (by vm_compute).
  pose proof (forallb_seqZ _ _ _ k H ltac:(lia)) as H'. cbn beta in H'. by destruct (FindHuffmanSymbol _ k).
Qed.

Lemma byte_symbol b : is_byte b -> is_symbol b.
Proof. unfold is_byte, is_symbol. lia. Qed.

Lemma symbol_bits_length s : is_symbol s -> zlen (symbol_bits s) = BitLength s.
Proof.
  intros Hs. apply symbol_facts in Hs as [Hs _]. unfold symbol_bits, zlen.
  rewrite code_bits_length. lia.
Qed.

Lemma source_bits_length l : bytes l -> 5 * zlen l <= zlen (source_bits l) <= 30 * zlen l.
Proof.
  unfold source_bits. induction l as [|b l IH]; intros Hl; [done|].
  apply Forall_cons in Hl as [Hb Hl]. apply byte_symbol in Hb. cbn [map concat].
  rewrite zlen_app, zlen_cons, symbol_bits_length by done.
  apply symbol_facts in Hb as [Hb _]. specialize (IH Hl). lia.
Qed.

(** ** The encoder writes the bits of the codes *)

Fixpoint put_bits (capacity : Z) (l : list Z) (st : EncodeState) : Result EncodeState :=
  match l with
  | [] => Ok st
  | b :: l => st ← put_bit capacity b st; put_bits capacity l st
  end.

Lemma put_code_bits capacity code n st :
  put_code capacity code n st = put_bits capacity (code_bits code n) st.
Proof.
  revert st. induction n as [|n IH]; intros st; [done|]. cbn [put_code put_bits code_bits].
  destruct (put_bit _ _ _); [apply IH|done].
Qed.

Lemma put_bits_app capacity l k st :
  put_bits capacity (l ++ k) st = put_bits capacity l st ≫= put_bits capacity k.
Proof.
  revert st. induction l as [|b l IH]; intros st; [done|]. cbn [put_bits app].
  destruct (put_bit _ _ _); [apply IH|done].
Qed.

Lemma put_codes_bits capacity src st :
  put_codes capacity src st = put_bits capacity (source_bits src) st.
Proof.
  revert st. induction src as [|b src IH]; intros st; [done|].
  unfold source_bits. cbn [put_codes map concat]. rewrite put_bits_app, put_code_bits.
  unfold symbol_bits. destruct (put_bits _ _ _); [apply IH|done].
Qed.

(** [l] is what has been written so far. *)
Definition encoded (capacity : Z) (st : EncodeState) (l : list Z) : Prop :=
  exists p, l = byte_bits (en_dest st) ++ p /\ bits p /\ bytes (en_dest st)
    /\ zlen p = en_bitCount st /\ en_bitCount st <= 7 /\ en_currentByte st = bval p
    /\ zlen (en_dest st) <= capacity.

Lemma put_bit_spec capacity b st l :
  is_bit b -> encoded capacity st l ->
  match put_bit capacity b st with
  | Ok st' => encoded capacity st' (l ++ [b])
  | Err s => s = STATUS_BUFFER_TOO_SMALL /\ 8 * capacity < zlen l + 1
  end.
Proof.
  intros Hb (p & -> & Hp & Hd & Hlen & Hc & Hcur & Hcap). unfold put_bit.
  pose proof (zlen_nonneg p). pose proof (bval_range p Hp) as Hr.
  assert (2 ^ zlen p <= 2 ^ 7) by (apply Z.pow_le_mono_r; lia). change (2 ^ 7) with 128 in *.
  assert (Hbit : 0 <= b <= 1) by (unfold is_bit in Hb; lia).
  assert (Hv : u8 (Z.lor (Z.shiftl (en_currentByte st) 1) b) = bval (p ++ [b])).
  { rewrite Hcur, lor_shiftl, bval_snoc by lia. unfold u8. rewrite Z.mod_small; lia. }
  rewrite Hv. unfold u8. rewrite Z.mod_small by lia.
  assert (Hpb : bits (p ++ [b])) by (apply Forall_app; split; [done|by apply Forall_cons]).
  assert (Hl : zlen (p ++ [b]) = en_bitCount st + 1) by (rewrite zlen_app, Hlen; done).
  destruct (_ =? 8) eqn:E; bool_prop.
  - destruct (_ >=? capacity) eqn:E'; bool_prop.
    { split; [done|]. rewrite zlen_app, byte_bits_length. lia. }
    pose proof (bval_range _ Hpb) as Hr'. rewrite Hl, E in Hr'. change (2 ^ 8) with 256 in Hr'.
    exists []. cbn [en_dest en_bitCount en_currentByte]. split_and!; try done; try lia.
    + rewrite byte_bits_app, <- !app_assoc, app_nil_r. f_equal. unfold byte_bits. cbn [map concat].
      rewrite app_nil_r. rewrite <- (code_bits_bval (p ++ [b])) at 1 by done.
      f_equal. unfold zlen in *. lia.
    + apply Forall_app; split; [done|]. by apply Forall_cons.
    + rewrite zlen_app. change (zlen [_]) with 1. lia.
  - exists (p ++ [b]). cbn [en_dest en_bitCount en_currentByte]. split_and!; try done; try lia.
    by rewrite app_assoc.
Qed.

Lemma put_bits_spec capacity k st l :
  bits k -> encoded capacity st l ->
  match put_bits capacity k st with
  | Ok st' => encoded capacity st' (l ++ k)
  | Err s => s = STATUS_BUFFER_TOO_SMALL /\ 8 * capacity < zlen l + zlen k
  end.
Proof.
  revert st l. induction k as [|b k IH]; intros st l Hk He; [by rewrite app_nil_r|].
  apply Forall_cons in Hk as [Hb Hk]. cbn [put_bits]. pose proof (put_bit_spec capacity b st l Hb He) as H.
  destruct (put_bit _ _ _) as [st'|]; cbn [mbind Result_bind].
  - specialize (IH st' (l ++ [b]) Hk H). rewrite zlen_app, <- app_assoc in IH. cbn [app] in IH.
    rewrite zlen_cons. change (zlen [b]) with 1 in IH. destruct (put_bits _ _ _); [done|].
    split; [tauto|lia].
  - rewrite zlen_cons. pose proof (zlen_nonneg k). split; [tauto|lia].
Qed.

(** The encoding is the codes' bits, padded with ones to whole bytes. *)
Lemma encode_spec src capacity :
  0 <= capacity ->
  match HpackHuffmanEncode (Bytes src) capacity with
  | Ok out => bytes out /\ zlen out <= capacity
      /\ exists n, (n <= 7)%nat /\ byte_bits out = source_bits src ++ ones n
  | Err s => s = STATUS_BUFFER_TOO_SMALL /\ 8 * capacity < zlen (source_bits src)
  end.
Proof.
  intros Hcap. unfold HpackHuffmanEncode. cbn [sp_isnull sp_len sp_bytes andb].
  destruct (_ =? 0) eqn:E.
  { destruct src; [|rewrite zlen_cons in E; pose proof (zlen_nonneg src); bool_lia].
    split_and!; [done|done|]. exists 0%nat. split; [lia|done]. }
  rewrite put_codes_bits.
  pose proof (put_bits_spec capacity (source_bits src) (MkEncode [] 0 0) [] (source_bits_bits _)) as H.
  destruct (put_bits _ _ _) as [st|]; cbn [mbind Result_bind].
  2:{ apply H. exists []. by split_and!. }
  destruct H as (p & Hl & Hp & Hd & Hlen & Hc & Hcur & Hdc).
  { exists []. by split_and!. }
  cbn [app] in Hl. pose proof (zlen_nonneg p).
  destruct (_ >? 0) eqn:E0; bool_prop.
  - destruct (_ >=? capacity) eqn:E1; bool_prop.
    { split; [done|]. rewrite Hl, zlen_app, byte_bits_length. lia. }
    set (room := 8 - en_bitCount st). assert (1 <= room <= 7) by (unfold room; lia).
    pose proof (bval_range p Hp) as Hr. rewrite Hlen in Hr.
    assert (Hpow : 256 = 2 ^ en_bitCount st * 2 ^ room).
    { rewrite <- Z.pow_add_r by lia. by replace (en_bitCount st + room) with 8 by (unfold room; lia). }
    assert (1 <= 2 ^ room) by (pose proof (Z.pow_pos_nonneg 2 room); lia).
    assert (2 ^ room <= 2 ^ 7) by (apply Z.pow_le_mono_r; lia). change (2 ^ 7) with 128 in *.
    assert (Hv : u8 (Z.lor (Z.shiftl (en_currentByte st) room) (u32 (Z.shiftl 1 room) - 1))
                 = bval (p ++ ones (Z.to_nat room))).
    { rewrite (Z.shiftl_mul_pow2 1), Z.mul_1_l by lia. rewrite u32_id by lia.
      rewrite lor_shiftl, Hcur by lia. rewrite bval_app, bval_ones.
      unfold ones. rewrite zlen_replicate, Z2Nat.id by lia. unfold u8. rewrite Z.mod_small; nia. }
    assert (Hpb : bits (p ++ ones (Z.to_nat room))) by (apply Forall_app; split; [done|apply ones_bits]).
    assert (Hpl : zlen (p ++ ones (Z.to_nat room)) = 8).
    { unfold ones. rewrite zlen_app, zlen_replicate. unfold room. lia. }
    rewrite Hv. split_and!.
    + apply Forall_app; split; [done|]. apply Forall_cons; split; [|done].
      pose proof (bval_range _ Hpb) as Hr'. rewrite Hpl in Hr'. exact Hr'.
    + rewrite zlen_app. change (zlen [_]) with 1. lia.
    + exists (Z.to_nat room). split; [lia|]. rewrite Hl, byte_bits_app, <- app_assoc. f_equal.
      unfold byte_bits. cbn [map concat]. rewrite app_nil_r.
      rewrite <- (code_bits_bval _ Hpb) at 2. f_equal. unfold zlen in Hpl. lia.
  - split_and!; [done|done|]. exists 0%nat. split; [lia|].
    assert (p = []) as -> by (destruct p; [done|rewrite zlen_cons in *; pose proof (zlen_nonneg p); lia]).
    change (ones 0) with (@nil Z). by rewrite Hl, !app_nil_r.
Qed.

(** ** The decoder reads them back *)

Fixpoint take_bits (capacity : Z) (l : list Z) (st : DecodeState) : Result DecodeState :=
  match l with
  | [] => Ok st
  | b :: l => st ← take_bit capacity b st; take_bits capacity l st
  end.

Lemma take_byte_bits capacity byte n st :
  take_byte capacity byte n st = take_bits capacity (code_bits byte n) st.
Proof.
  revert st. induction n as [|n IH]; intros st; [done|]. cbn [take_byte take_bits code_bits].
  destruct (take_bit _ _ _); [apply IH|done].
Qed.

Lemma take_bits_app capacity l k st :
  take_bits capacity (l ++ k) st = take_bits capacity l st ≫= take_bits capacity k.
Proof.
  revert st. induction l as [|b l IH]; intros st; [done|]. cbn [take_bits app].
  destruct (take_bit _ _ _); [apply IH|done].
Qed.

Lemma take_bytes_bits capacity src st :
  take_bytes capacity src st = take_bits capacity (byte_bits src) st.
Proof.
  revert st. induction src as [|b src IH]; intros st; [done|].
  unfold byte_bits. cbn [take_bytes map concat]. rewrite take_bits_app, take_byte_bits.
  destruct (take_bits _ _ _); [apply IH|done].
Qed.

(** The step, without its wrap-arounds. *)
Lemma take_bit_step capacity dest c n b :
  is_bit b -> 0 <= n < 30 -> 0 <= c < 2 ^ n ->
  take_bit capacity b (MkDecode dest c n)
  = match FindHuffmanSymbol (2 * c + b) (n + 1) with
    | Some symbol =>
        if symbol =? 256 then Err STATUS_INVALID_NETWORK_RESPONSE
        else if zlen dest >=? capacity then Err STATUS_BUFFER_TOO_SMALL
        else Ok (MkDecode (dest ++ [u8 symbol]) 0 0)
    | None => Ok (MkDecode dest (2 * c + b) (n + 1))
    end.
Proof.
  intros Hb Hn Hc. unfold take_bit. cbn [de_dest de_currentCode de_currentBitLen].
  assert (2 ^ n <= 2 ^ 30) by (apply Z.pow_le_mono_r; lia). unfold is_bit in Hb.
  assert (u8 (n + 1) = n + 1) as -> by (unfold u8; apply Z.mod_small; lia).
  rewrite (u32_id (Z.shiftl c 1)) by (rewrite Z.shiftl_mul_pow2 by lia; lia).
  rewrite lor_shiftl by lia. change (2 ^ 1) with 2. rewrite (Z.mul_comm c), u32_id by lia.
  destruct (_ >? 30) eqn:E; [bool_lia|done].
Qed.

(** Reading the last [m] bits of a symbol's code. *)
Lemma take_code_tail capacity dest s m :
  is_byte s -> zlen dest < capacity -> (1 <= m)%nat -> Z.of_nat m <= BitLength s ->
  take_bits capacity (code_bits (Code s) m)
    (MkDecode dest (Z.shiftr (Code s) (Z.of_nat m)) (BitLength s - Z.of_nat m))
  = Ok (MkDecode (dest ++ [s]) 0 0).
Proof.
  intros Hs Hcap Hm Hml. destruct (symbol_facts s (byte_symbol s Hs)) as (Hn & Hc & Hfind & Hnone).
  induction m as [|m IH]; [lia|]. cbn [code_bits take_bits].
  rewrite take_bit_step; [|apply land_1_bit|lia|].
  2:{ rewrite Z.shiftr_div_pow2 by lia. split; [apply Z.div_pos; lia|].
      apply Z.div_lt_upper_bound; [lia|]. rewrite <- Z.pow_add_r by lia.
      replace (Z.of_nat (S m) + (BitLength s - Z.of_nat (S m))) with (BitLength s) by lia. lia. }
  rewrite <- shiftr_step. replace (BitLength s - Z.of_nat (S m) + 1) with (BitLength s - Z.of_nat m) by lia.
  destruct m as [|m].
  - change (Z.of_nat 0) with 0. rewrite Z.shiftr_0_r, Z.sub_0_r, Hfind. unfold is_byte in Hs.
    destruct (s =? 256) eqn:?; [bool_lia|]. destruct (_ >=? capacity) eqn:?; [bool_lia|].
    unfold u8. by rewrite Z.mod_small.
  - specialize (Hnone (BitLength s - Z.of_nat (S m)) ltac:(lia)).
    replace (BitLength s - (BitLength s - Z.of_nat (S m))) with (Z.of_nat (S m)) in Hnone by lia.
    rewrite Hnone. apply IH; lia.
Qed.

Lemma take_source capacity l dest :
  bytes l -> zlen dest + zlen l <= capacity ->
  take_bits capacity (source_bits l) (MkDecode dest 0 0) = Ok (MkDecode (dest ++ l) 0 0).
Proof.
  revert dest. induction l as [|s l IH]; intros dest Hl Hcap; [by rewrite app_nil_r|].
  apply Forall_cons in Hl as [Hs Hl]. rewrite zlen_cons in Hcap. pose proof (zlen_nonneg l).
  unfold source_bits. cbn [map concat]. rewrite take_bits_app.
  pose proof (symbol_facts s (byte_symbol s Hs)) as (Hn & Hc & _).
  pose proof (take_code_tail capacity dest s (Z.to_nat (BitLength s)) Hs ltac:(lia) ltac:(lia) ltac:(lia)) as Ht.
  rewrite Z2Nat.id, Z.sub_diag, Z.shiftr_div_pow2, Z.div_small in Ht by lia.
  change (symbol_bits s) with (code_bits (Code s) (Z.to_nat (BitLength s))). rewrite Ht. cbn [mbind Result_bind].
  fold (source_bits l). rewrite (IH (dest ++ [s])), <- app_assoc; [done|done|].
  rewrite zlen_app. change (zlen [s]) with 1. lia.
Qed.

Lemma take_ones capacity dest n :
  (n <= 7)%nat ->
  take_bits capacity (ones n) (MkDecode dest 0 0) = Ok (MkDecode dest (2 ^ Z.of_nat n - 1) (Z.of_nat n)).
Proof.
  induction n as [|n IH]; intros Hn; [done|].
  unfold ones in *. rewrite replicate_S_end, take_bits_app, IH by lia. cbn [mbind Result_bind take_bits].
  pose proof (Z.pow_pos_nonneg 2 (Z.of_nat n) ltac:(lia) ltac:(lia)).
  rewrite take_bit_step by (unfold is_bit; lia).
  assert (2 * (2 ^ Z.of_nat n - 1) + 1 = 2 ^ (Z.of_nat n + 1) - 1) as -> by (rewrite Z.pow_add_r; lia).
  rewrite find_ones by lia. cbn [mbind Result_bind]. do 3 f_equal; lia.
Qed.

(** Everything read so far is the codes of the output and a rest of at most 30 bits. *)
Definition decoded (capacity : Z) (st : DecodeState) (l : list Z) : Prop :=
  exists p, l = source_bits (de_dest st) ++ p /\ bits p /\ bytes (de_dest st)
    /\ zlen p = de_currentBitLen st /\ de_currentBitLen st <= 30 /\ de_currentCode st = bval p
    /\ zlen (de_dest st) <= capacity.

Lemma take_bit_decoded capacity b st l st' :
  is_bit b -> decoded capacity st l -> take_bit capacity b st = Ok st' -> decoded capacity st' (l ++ [b]).
Proof.
  intros Hb (p & -> & Hp & Hd & Hlen & Hn & Hcur & Hcap) H. pose proof (zlen_nonneg p).
  pose proof (bval_range p Hp) as Hr. destruct st as [dest c n]. cbn [de_dest de_currentCode de_currentBitLen] in *.
  assert (Hpb : bits (p ++ [b])) by (apply Forall_app; split; [done|by apply Forall_cons]).
  assert (Hpl : zlen (p ++ [b]) = n + 1) by (rewrite zlen_app, Hlen; done).
  destruct (Z.eq_dec n 30) as [->|Hn30].
  { unfold take_bit in H. cbn [de_dest de_currentBitLen] in H. change (u8 (30 + 1) >? 30) with true in H. done. }
  rewrite take_bit_step in H by (try done; rewrite <- ?Hlen, ?Hcur; lia).
  rewrite Hcur, <- bval_snoc in H.
  destruct (FindHuffmanSymbol _ _) as [s|] eqn:E.
  - apply find_sound in E as (Hcode & Hbl & Hs); [|lia]. case_ok H. injection H as <-.
    exists []. unfold is_symbol in Hs. unfold u8. rewrite Z.mod_small by lia.
    cbn [de_dest de_currentCode de_currentBitLen]. split_and!; try done; try lia.
    + rewrite source_bits_app, app_nil_r, <- app_assoc. f_equal. unfold source_bits, symbol_bits.
      cbn [map concat]. rewrite app_nil_r, Hcode, Hbl, <- Hpl. unfold zlen. rewrite Nat2Z.id.
      by rewrite code_bits_bval.
    + apply Forall_app; split; [done|]. apply Forall_cons; split; [|done]. unfold is_byte. lia.
    + rewrite zlen_app. change (zlen [s]) with 1. lia.
  - injection H as <-. exists (p ++ [b]). cbn [de_dest de_currentCode de_currentBitLen].
    split_and!; try done; try lia. by rewrite app_assoc.
Qed.

Lemma take_bits_decoded capacity k st l st' :
  bits k -> decoded capacity st l -> take_bits capacity k st = Ok st' -> decoded capacity st' (l ++ k).
Proof.
  revert st l. induction k as [|b k IH]; intros st l Hk Hd H.
  { injection H as <-. by rewrite app_nil_r. }
  apply Forall_cons in Hk as [Hb Hk]. cbn [take_bits] in H. apply bind_Ok in H as (st1 & H1 & H2).
  rewrite (app_assoc l [b] k : l ++ b :: k = _). eapply IH; [done| |done].
  by eapply take_bit_decoded.
Qed.

(** What the decoder accepts. *)
Lemma decode_spec src capacity out :
  0 <= capacity ->
  HpackHuffmanDecode (Bytes src) capacity = Ok out <->
  bytes out /\ zlen out <= capacity
  /\ exists n, (n <= 7)%nat /\ byte_bits src = source_bits out ++ ones n.
Proof.
  intros Hcap. unfold HpackHuffmanDecode. cbn [sp_isnull sp_len sp_bytes andb].
  destruct (_ =? 0) eqn:E.
  { destruct src; [|rewrite zlen_cons in E; pose proof (zlen_nonneg src); bool_lia].
    split.
    - intros [= <-]. split_and!; try done. exists 0%nat. split; [lia|done].
    - intros (Hb & _ & n & _ & H). symmetry in H. apply app_nil in H as [H _].
      pose proof (source_bits_length out Hb) as Hl. rewrite H in Hl. change (zlen (@nil Z)) with 0 in Hl.
      destruct out; [done|]. rewrite zlen_cons in Hl. pose proof (zlen_nonneg out). lia. }
  rewrite take_bytes_bits. split.
  - intros H. apply bind_Ok in H as (st & H & Hf).
    apply (take_bits_decoded capacity _ _ []) in H; [|apply byte_bits_bits|exists []; by split_and!].
    destruct H as (p & Hl & Hp & Hd & Hlen & Hn & Hcur & Hdc). cbn [app] in Hl.
    destruct (_ >? 7) eqn:E7; [done|]. bool_prop. pose proof (zlen_nonneg p).
    assert (de_dest st = out /\ p = ones (length p)) as [<- Hones].
    { destruct (_ >? 0) eqn:E0; bool_prop.
      - assert (2 ^ zlen p <= 2 ^ 7) by (apply Z.pow_le_mono_r; lia).
        pose proof (Z.pow_pos_nonneg 2 (zlen p) ltac:(lia) ltac:(lia)). pose proof (bval_range p Hp).
        rewrite Z.shiftl_mul_pow2, Z.mul_1_l in Hf by lia. rewrite <- Hlen in Hf.
        rewrite (u32_id (2 ^ _)), u32_id in Hf by lia. rewrite land_ones_mod, Hcur in Hf by lia.
        rewrite Z.mod_small in Hf by lia. case_if_in Hf; [done|]. injection Hf as <-. bool_prop.
        split; [done|]. by apply ones_bval.
      - injection Hf as <-. split; [done|]. destruct p; [done|]. rewrite zlen_cons in *. pose proof (zlen_nonneg p). lia. }
    split_and!; [done|done|]. exists (length p). split; [unfold zlen in *; lia|]. by rewrite <- Hones.
  - intros (Hb & Hc & n & Hn & ->). rewrite take_bits_app, take_source by done.
    cbn [mbind Result_bind app]. rewrite take_ones by lia. cbn [mbind Result_bind de_dest de_currentCode de_currentBitLen].
    pose proof (Z.pow_pos_nonneg 2 (Z.of_nat n) ltac:(lia) ltac:(lia)).
    assert (2 ^ Z.of_nat n <= 2 ^ 7) by (apply Z.pow_le_mono_r; lia).
    destruct (_ >? 7) eqn:?; [bool_lia|]. destruct (_ >? 0) eqn:?; [|done].
    rewrite Z.shiftl_mul_pow2, Z.mul_1_l by lia. rewrite (u32_id (2 ^ _)), u32_id by lia.
    rewrite Z.land_diag, Z.eqb_refl. done.
Qed.

(** ** Lengths *)

Lemma encoded_length_bits src acc :
  bytes src -> 0 <= acc -> acc + 30 * zlen src < 2 ^ 64 ->
  foldl (fun totalBits b => totalBits +! BitLength b) acc src = acc + zlen (source_bits src).
Proof.
  revert acc. induction src as [|b src IH]; intros acc Hs Ha Hn.
  { cbn [foldl]. change (zlen (source_bits [])) with 0. lia. }
  apply Forall_cons in Hs as [Hb Hs]. apply byte_symbol in Hb. rewrite zlen_cons in Hn.
  pose proof (symbol_facts b Hb) as [Hbl _]. pose proof (zlen_nonneg src).
  unfold source_bits. cbn [foldl map concat]. rewrite zlen_app, symbol_bits_length by done.
  rewrite u64_id by lia. rewrite IH by (done || lia). unfold source_bits. lia.
Qed.

Lemma encoded_length src :
  bytes src -> zlen src < 2 ^ 32 -> HpackHuffmanEncodedLength src = (zlen (source_bits src) + 7) / 8.
Proof.
  intros Hs Hl. unfold HpackHuffmanEncodedLength. pose proof (zlen_nonneg src).
  rewrite encoded_length_bits by (done || lia).
  pose proof (source_bits_length src Hs). rewrite u64_id by lia. done.
Qed.

(** The announced length is the number of bytes written. *)
Lemma encoded_length_exact src capacity :
  bytes src -> zlen src < 2 ^ 32 -> 0 <= capacity ->
  match HpackHuffmanEncode (Bytes src) capacity with
  | Ok out => zlen out = HpackHuffmanEncodedLength src
  | Err s => s = STATUS_BUFFER_TOO_SMALL /\ capacity < HpackHuffmanEncodedLength src
  end.
Proof.
  intros Hs Hl Hc. rewrite encoded_length by done.
  pose proof (encode_spec src capacity Hc) as H. destruct (HpackHuffmanEncode _ _) as [out|s].
  - destruct H as (_ & _ & n & Hn & Hbits). apply (f_equal zlen) in Hbits.
    rewrite byte_bits_length, zlen_app in Hbits. unfold ones in Hbits. rewrite zlen_replicate in Hbits.
    apply (Z.div_unique _ _ _ (7 - Z.of_nat n)); lia.
  - destruct H as [-> H]. split; [done|]. apply Z.lt_le_trans with (capacity + 1); [lia|].
    apply Z.div_le_lower_bound; lia.
Qed.

(** The decoded text is shorter than twice the code. *)
Lemma decoded_length src capacity out :
  0 <= capacity -> HpackHuffmanDecode (Bytes src) capacity = Ok out ->
  bytes out /\ zlen out <= capacity /\ 5 * zlen out <= 8 * zlen src.
Proof.
  intros Hc H. apply decode_spec in H as (Hb & Hl & n & Hn & Hbits); [|done].
  split_and!; [done|done|]. apply (f_equal zlen) in Hbits. pose proof (source_bits_length out Hb).
  rewrite byte_bits_length, zlen_app in Hbits. unfold ones in Hbits. rewrite zlen_replicate in Hbits. lia.
Qed.

Lemma huffman_roundtrip src capacity out room :
  bytes src -> 0 <= capacity -> zlen src <= room ->
  HpackHuffmanEncode (Bytes src) capacity = Ok out -> HpackHuffmanDecode (Bytes out) room = Ok src.
Proof.
  intros Hs Hc Hr H. pose proof (encode_spec src capacity Hc) as He. rewrite H in He.
  destruct He as (_ & _ & Hbits). pose proof (zlen_nonneg src). by apply decode_spec; [lia|].
Qed.

(** ** Properties *)

(** C16. The decoder accepts exactly the encoder's outputs: it reads [out] from
    [src] if and only if [out] fits the room and encoding [out] gives [src],
    bit for bit.  So decoding inverts encoding on every byte string, no two
    encodings denote the same text, EOS and wrong padding are refused, and the
    length announced beforehand is the length written. *)
Theorem huffman_exact (src out : list Z) (capacity : Z) :
  bytes src -> 0 <= capacity -> zlen src < 2 ^ 31 ->
  (HpackHuffmanDecode (Bytes src) capacity = Ok out <->
     bytes out /\ zlen out <= capacity /\ HpackHuffmanEncode (Bytes out) (zlen src) = Ok src)
  /\ match HpackHuffmanEncode (Bytes src) capacity with
     | Ok e => zlen e = HpackHuffmanEncodedLength src /\ HpackHuffmanDecode (Bytes e) (zlen src) = Ok src
     | Err s => s = STATUS_BUFFER_TOO_SMALL /\ capacity < HpackHuffmanEncodedLength src
     end.
Proof.
  intros Hs Hc Hlen. pose proof (zlen_nonneg src). split; [split|].
  - intros H'. apply decode_spec in H' as (Hb & Hl & n & Hn & Hbits); [|done]. split_and!; [done..|].
    pose proof (encode_spec out (zlen src) ltac:(done)) as He.
    pose proof (f_equal zlen Hbits) as Hz. rewrite byte_bits_length, zlen_app in Hz.
    unfold ones in Hz. rewrite zlen_replicate in Hz.
    destruct (HpackHuffmanEncode _ _) as [e|s]; [|lia]. destruct He as (Hbe & _ & m & Hm & Hme).
    pose proof (f_equal zlen Hme) as Hz'. rewrite byte_bits_length, zlen_app in Hz'.
    unfold ones in Hz'. rewrite zlen_replicate in Hz'.
    f_equal. apply byte_bits_inj; [done..|]. rewrite Hbits, Hme. by replace m with n by lia.
  - intros (Hb & Hl & He). pose proof (encode_spec out (zlen src) ltac:(done)) as Hspec.
    rewrite He in Hspec. destruct Hspec as (_ & _ & Hbits). by apply decode_spec.
  - pose proof (encoded_length_exact src capacity Hs ltac:(lia) Hc) as He.
    destruct (HpackHuffmanEncode _ _) as [e|s] eqn:E; [|done]. split; [done|].
    by apply (huffman_roundtrip src capacity).
Qed.

(** RFC 7541, C.4.1: www.example.com *)
Lemma huffman_exact_witness :
  let text := [119; 119; 119; 46; 101; 120; 97; 109; 112; 108; 101; 46; 99; 111; 109] in
  HpackHuffmanDecode (Bytes [0xf1; 0xe3; 0xc2; 0xe5; 0xf2; 0x3a; 0x6b; 0xa0; 0xab; 0x90; 0xf4; 0xff]) 64
  = Ok text.
Proof.
  intros text. set (src := [0xf1; 0xe3; 0xc2; 0xe5; 0xf2; 0x3a; 0x6b; 0xa0; 0xab; 0x90; 0xf4; 0xff]).
  assert (Hs : bytes src) by (repeat (apply Forall_cons; split; [by split|]); apply Forall_nil_2).
  assert (Ht : bytes text) by (repeat (apply Forall_cons; split; [by split|]); apply Forall_nil_2).
  destruct (huffman_exact src text 64 Hs ltac:(lia) ltac:(by vm_compute)) as [[_ H] _].
  apply H. split_and!; [exact Ht|by vm_compute|by vm_compute].
Defined.
