(* ===== verification/HpackDynamicTable.v ===== *)
(** * The HPACK dynamic table (src/wknetlib/http2/Hpack.cpp, RFC 7541 section 2.3.2)

    Entries are kept in a ring buffer, the newest at the head; their names and
    values lie in one byte buffer that grows at its end and is compacted when it
    is full.  The file models every operation, and shows that they implement a
    list of fields, newest first, of bounded total size: insertion puts the
    field in front and keeps the longest prefix that fits. *)

From S2P Require Import Prelude.

Definition HpackEntryOverhead : Z := 32.
Definition MaxSizeT : Z := MAXU64.

Record Entry := MkEntry {
  NameOffset : Z;
  NameLength : Z;
  ValueOffset : Z;
  ValueLength : Z;
}.
#[export] Instance Entry_eta : Eta Entry := fun x =>
  MkEntry (NameOffset x) (NameLength x) (ValueOffset x) (ValueLength x).
Definition entry_zero : Entry := MkEntry 0 0 0 0.

(** [ht_dataBuffer] and [ht_entries] are the blocks [dataBuffer_] and
    [entries_] point to, empty for a null pointer. *)
Record HpackDynamicTable := MkTable {
  ht_dataBuffer : list Z;
  ht_dataCapacity : Z;
  ht_dataUsed : Z;
  ht_entries : list Entry;
  ht_entryCapacity : Z;
  ht_entryCount : Z;
  ht_entryHead : Z;
  ht_currentSize : Z;
  ht_maxSize : Z;
}.
#[export] Instance HpackDynamicTable_eta : Eta HpackDynamicTable := fun x =>
  MkTable (ht_dataBuffer x) (ht_dataCapacity x) (ht_dataUsed x) (ht_entries x) (ht_entryCapacity x)
    (ht_entryCount x) (ht_entryHead x) (ht_currentSize x) (ht_maxSize x).

Definition table_default : HpackDynamicTable := MkTable [] 0 0 [] 0 0 0 0 4096.

(** [entries_[i]] and [entries_[i] = e] *)
Definition get_entry (entries : list Entry) (i : Z) : Entry := nth (Z.to_nat i) entries entry_zero.
Definition set_entry (entries : list Entry) (i : Z) (e : Entry) : list Entry := <[Z.to_nat i := e]> entries.

(** ** Memory *)

(** The two loops of [MemMove]; [data] holds both regions. *)
Fixpoint move_forward (n : nat) (i : Z) (data : list Z) (dst src : Z) : list Z :=
  match n with
  | O => data
  | S n => move_forward n (i + 1) (<[Z.to_nat (dst + i) := zget data (src + i)]> data) dst src
  end.
Fixpoint move_backward (n : nat) (data : list Z) (dst src : Z) : list Z :=
  match n with
  | O => data
  | S n =>
      let i := Z.of_nat n in
      move_backward n (<[Z.to_nat (dst + i) := zget data (src + i)]> data) dst src
  end.
Definition MemMove (data : list Z) (dst src len : Z) : list Z :=
  if (dst =? src) || (len =? 0) then data
  else if dst <? src then move_forward (Z.to_nat len) 0 data dst src
  else move_backward (Z.to_nat len) data dst src.

Definition DynamicTableDataCapacityLimit (maxSize : Z) : Z :=
  if maxSize >? (MaxSizeT -! 1024) / 2 then MaxSizeT else maxSize *! 2 +! 1024.

(** ** Construction *)

Definition Reset (t : HpackDynamicTable) : HpackDynamicTable :=
  MkTable [] 0 0 [] 0 0 0 0 (ht_maxSize t).

(** [data_ok], [entries_ok]: the allocations succeed.  An allocated array is zeroed. *)
Definition Initialize (maxSize : Z) (data_ok entries_ok : bool) (t : HpackDynamicTable)
    : NTSTATUS * HpackDynamicTable :=
  let t := Reset t in
  let t := t <| ht_maxSize := maxSize |> in
  if maxSize =? 0 then (STATUS_SUCCESS, t)
  else
    let t := t <| ht_dataCapacity := DynamicTableDataCapacityLimit maxSize |> in
    let t := if ht_dataCapacity t <? 1024 then t <| ht_dataCapacity := 1024 |> else t in
    if negb data_ok then (STATUS_INSUFFICIENT_RESOURCES, t)
    else
      let t := t <| ht_dataBuffer := replicate (Z.to_nat (ht_dataCapacity t)) 0 |> in
      let t := t <| ht_entryCapacity := 128 |> in
      if negb entries_ok then (STATUS_INSUFFICIENT_RESOURCES, t <| ht_dataBuffer := [] |>)
      else (STATUS_SUCCESS, t <| ht_entries := replicate (Z.to_nat 128) entry_zero |>).

(** ** Eviction *)

Definition Evict (t : HpackDynamicTable) : HpackDynamicTable :=
  if ht_entryCount t =? 0 then t
  else
    let tailIdx := (ht_entryHead t +! ht_entryCount t -! 1) mod ht_entryCapacity t in
    let entry := get_entry (ht_entries t) tailIdx in
    let entrySize := NameLength entry +! ValueLength entry +! HpackEntryOverhead in
    let t := t <| ht_currentSize := ht_currentSize t -! entrySize |> in
    let t := t <| ht_entryCount := ht_entryCount t -! 1 |> in
    if ht_entryCount t =? 0 then t <| ht_entryHead := 0 |> <| ht_dataUsed := 0 |> else t.

(** [while (currentSize_ + extra > maxSize_ && entryCount_ > 0) Evict();] the
    loop runs at most once per entry. *)
Fixpoint evict_loop (count : nat) (extra : Z) (t : HpackDynamicTable) : HpackDynamicTable :=
  match count with
  | O => t
  | S count =>
      if (ht_currentSize t +! extra >? ht_maxSize t) && (ht_entryCount t >? 0)
      then evict_loop count extra (Evict t) else t
  end.
Definition evict_for (extra : Z) (t : HpackDynamicTable) : HpackDynamicTable :=
  evict_loop (Z.to_nat (ht_entryCount t)) extra t.

(** ** Compaction *)

(** A pointer into the buffer follows the bytes of the entry it points into. *)
Definition relocate (candidateStart totalLength writeOffset : Z) (offset : option Z) : option Z :=
  match offset with
  | None => None
  | Some o =>
      if (o >=? candidateStart) && (o <? candidateStart +! totalLength)
      then Some (writeOffset +! (o -! candidateStart)) else Some o
  end.

(** The loop of [CompactData], from the oldest entry: the buffer, the entries,
    [writeOffset] and the two relocated offsets. *)
Fixpoint compact_loop (remaining : nat) (head capacity : Z) (data : list Z) (entries : list Entry)
    (writeOffset : Z) (firstOffset secondOffset : option Z)
    : list Z * list Entry * Z * option Z * option Z :=
  match remaining with
  | O => (data, entries, writeOffset, firstOffset, secondOffset)
  | S r =>
      let idx := (head +! Z.of_nat remaining -! 1) mod capacity in
      let entry := get_entry entries idx in
      let candidateStart := NameOffset entry in
      let totalLength := NameLength entry +! ValueLength entry in
      let data := if negb (totalLength =? 0) then MemMove data writeOffset candidateStart totalLength
                  else data in
      let firstOffset := relocate candidateStart totalLength writeOffset firstOffset in
      let secondOffset := relocate candidateStart totalLength writeOffset secondOffset in
      let entry := entry <| NameOffset := writeOffset |> in
      let entry := entry <| ValueOffset := writeOffset +! NameLength entry |> in
      compact_loop r head capacity data (set_entry entries idx entry) (writeOffset +! totalLength)
        firstOffset secondOffset
  end.

Definition CompactData (firstOffset secondOffset : option Z) (t : HpackDynamicTable)
    : HpackDynamicTable * option Z * option Z :=
  if ht_entryCount t =? 0 then (t <| ht_dataUsed := 0 |> <| ht_entryHead := 0 |>, firstOffset, secondOffset)
  else
    let '(data, entries, writeOffset, firstOffset, secondOffset) :=
      compact_loop (Z.to_nat (ht_entryCount t)) (ht_entryHead t) (ht_entryCapacity t)
        (ht_dataBuffer t) (ht_entries t) 0 firstOffset secondOffset in
    (t <| ht_dataBuffer := data |> <| ht_entries := entries |> <| ht_dataUsed := writeOffset |>,
     firstOffset, secondOffset).

Definition UpdateMaxSize (newMaxSize : Z) (t : HpackDynamicTable) : HpackDynamicTable :=
  let t := t <| ht_maxSize := newMaxSize |> in
  let t := evict_for 0 t in
  (CompactData None None t).1.1.

(** ** Insertion *)

(** The name and value of [Insert]: bytes outside the table, or a pointer into
    its buffer. *)
Inductive Source :=
  | External (l : list Z)
  | InTable (offset : Z).

(** [PointerInRange(source, dataBuffer_, dataUsed_)] and the offset. *)
Definition table_offset (source : Source) (t : HpackDynamicTable) : option Z :=
  match source with
  | External _ => None
  | InTable o => if (0 <=? o) && (o <? ht_dataUsed t) then Some o else None
  end.
Definition with_offset (source : Source) (o : option Z) : Source :=
  match o with Some o => InTable o | None => source end.
(** The [len] bytes a source points to. *)
Definition source_bytes (source : Source) (len : Z) (t : HpackDynamicTable) : list Z :=
  match source with
  | External l => ztake len l
  | InTable o => zsub (ht_dataBuffer t) o len
  end.

(** Compact when the strings do not fit behind the used data. *)
Definition compact_if_full (dataNeeded : Z) (name value : Source) (t : HpackDynamicTable)
    : HpackDynamicTable * Source * Source :=
  if ht_dataUsed t +! dataNeeded >? ht_dataCapacity t then
    let '(t, nameOffset, valueOffset) := CompactData (table_offset name t) (table_offset value t) t in
    (t, with_offset name nameOffset, with_offset value valueOffset)
  else (t, name, value).

(** Grow the buffer when compaction was not enough.  The copy keeps the offsets. *)
Definition grow_data (dataNeeded dataCapacityLimit : Z) (data_ok : bool) (t : HpackDynamicTable)
    : NTSTATUS * HpackDynamicTable :=
  if ht_dataUsed t +! dataNeeded >? ht_dataCapacity t then
    let newCapacity := ht_dataCapacity t *! 2 in
    let newCapacity := if newCapacity <? ht_dataUsed t +! dataNeeded +! 1024
                       then ht_dataUsed t +! dataNeeded +! 1024 else newCapacity in
    let newCapacity := if newCapacity >? dataCapacityLimit then dataCapacityLimit else newCapacity in
    if ht_dataUsed t +! dataNeeded >? newCapacity then (STATUS_INVALID_NETWORK_RESPONSE, t)
    else if (newCapacity =? 0) || negb data_ok then (STATUS_INSUFFICIENT_RESOURCES, t)
    else
      let newBuffer := mem_copy (replicate (Z.to_nat newCapacity) 0) 0 (ztake (ht_dataUsed t) (ht_dataBuffer t)) in
      (STATUS_SUCCESS, t <| ht_dataBuffer := newBuffer |> <| ht_dataCapacity := newCapacity |>)
  else (STATUS_SUCCESS, t).

(** Double the ring when it is full, the newest entry first.  An array of no
    elements is not allocated. *)
Definition grow_entries (entries_ok : bool) (t : HpackDynamicTable) : NTSTATUS * HpackDynamicTable :=
  if ht_entryCount t >=? ht_entryCapacity t then
    let newCapacity := ht_entryCapacity t *! 2 in
    if (newCapacity =? 0) || negb entries_ok then (STATUS_INSUFFICIENT_RESOURCES, t)
    else
      let copied := map (fun i => get_entry (ht_entries t) ((ht_entryHead t +! i) mod ht_entryCapacity t))
                      (seqZ 0 (ht_entryCount t)) in
      let newEntries := copied ++ replicate (Z.to_nat (newCapacity - ht_entryCount t)) entry_zero in
      (STATUS_SUCCESS, t <| ht_entries := newEntries |> <| ht_entryCapacity := newCapacity |> <| ht_entryHead := 0 |>)
  else (STATUS_SUCCESS, t).

(** [if (len > 0) { MemCopy(dataBuffer_ + dataUsed_, source, len); dataUsed_ += len; }] *)
Definition append_string (source : Source) (len : Z) (t : HpackDynamicTable) : HpackDynamicTable :=
  if len >? 0
  then t <| ht_dataBuffer := mem_copy (ht_dataBuffer t) (ht_dataUsed t) (source_bytes source len t) |>
         <| ht_dataUsed := ht_dataUsed t +! len |>
  else t.

(** Copy the strings behind the used data and put the entry at the head. *)
Definition store_entry (name : Source) (nameLen : Z) (value : Source) (valueLen entrySize : Z)
    (t : HpackDynamicTable) : HpackDynamicTable :=
  let nameOffset := ht_dataUsed t in
  let t := append_string name nameLen t in
  let valueOffset := ht_dataUsed t in
  let t := append_string value valueLen t in
  let t := if ht_entryHead t =? 0 then t <| ht_entryHead := ht_entryCapacity t -! 1 |>
           else t <| ht_entryHead := ht_entryHead t -! 1 |> in
  let entry := MkEntry nameOffset nameLen valueOffset valueLen in
  t <| ht_entries := set_entry (ht_entries t) (ht_entryHead t) entry |>
    <| ht_entryCount := ht_entryCount t +! 1 |>
    <| ht_currentSize := ht_currentSize t +! entrySize |>.

Definition Insert (data_ok entries_ok : bool) (name : Source) (nameLen : Z) (value : Source) (valueLen : Z)
    (t : HpackDynamicTable) : NTSTATUS * HpackDynamicTable :=
  if (nameLen >? MaxSizeT -! valueLen) || (nameLen +! valueLen >? MaxSizeT -! HpackEntryOverhead)
  then (STATUS_INTEGER_OVERFLOW, t)
  else
    let entrySize := nameLen +! valueLen +! HpackEntryOverhead in
    if entrySize >? ht_maxSize t then
      (STATUS_SUCCESS, t <| ht_entryCount := 0 |> <| ht_entryHead := 0 |> <| ht_dataUsed := 0 |>
                         <| ht_currentSize := 0 |>)
    else
      let t := evict_for entrySize t in
      let dataNeeded := nameLen +! valueLen in
      let dataCapacityLimit := DynamicTableDataCapacityLimit (ht_maxSize t) in
      if dataNeeded >? dataCapacityLimit then (STATUS_INVALID_NETWORK_RESPONSE, t)
      else
        let '(t, name, value) := compact_if_full dataNeeded name value t in
        let '(status, t) := grow_data dataNeeded dataCapacityLimit data_ok t in
        if negb (NT_SUCCESS status) then (status, t)
        else
          let '(status, t) := grow_entries entries_ok t in
          if negb (NT_SUCCESS status) then (status, t)
          else (STATUS_SUCCESS, store_entry name nameLen value valueLen entrySize t).

(** ** Lookup *)

Definition entry_field (data : list Z) (e : Entry) : list Z * list Z :=
  (zsub data (NameOffset e) (NameLength e), zsub data (ValueOffset e) (ValueLength e)).

(** The name and value the pointers and lengths denote. *)
Definition Lookup (index : Z) (t : HpackDynamicTable) : option (list Z * list Z) :=
  if index >=? ht_entryCount t then None
  else
    let actualIdx := (ht_entryHead t +! index) mod ht_entryCapacity t in
    Some (entry_field (ht_dataBuffer t) (get_entry (ht_entries t) actualIdx)).

Definition EntryCount (t : HpackDynamicTable) : Z := ht_entryCount t.
Definition CurrentSize (t : HpackDynamicTable) : Z := ht_currentSize t.
Definition MaxSize (t : HpackDynamicTable) : Z := ht_maxSize t.

(** ** The abstract table

    A list of fields, newest first.  [fit limit l] keeps the longest prefix of
    [l] whose total size is at most [limit]. *)
Section fit.
Context {A : Type} (size : A -> Z).

Fixpoint fit (limit : Z) (l : list A) : list A :=
  match l with
  | [] => []
  | x :: l => if size x <=? limit then x :: fit (limit - size x) l else []
  end.
Definition total (l : list A) : Z := foldr (fun x n => size x + n) 0 l.

Lemma bytes_total_app l k : total (l ++ k) = total l + total k.
Proof. unfold total. induction l as [|x l IH]; cbn; [done|]. rewrite IH. lia. Qed.
Lemma bytes_total_nonneg l : Forall (fun x => 0 <= size x) l -> 0 <= total l.
Proof. unfold total. induction 1; cbn in *; lia. Qed.

Lemma fit_all limit l : Forall (fun x => 0 <= size x) l -> total l <= limit -> fit limit l = l.
Proof.
  intros Hl. revert limit. induction Hl as [|x l Hx Hl IH]; intros limit H; [done|].
  cbn [fit total foldr] in *. fold (total l) in H. pose proof (bytes_total_nonneg l Hl).
  destruct (_ <=? _) eqn:E; [|bool_lia]. by rewrite IH by lia.
Qed.

Lemma fit_drop_last limit l x :
  Forall (fun x => 0 <= size x) l -> limit < total (l ++ [x]) -> fit limit (l ++ [x]) = fit limit l.
Proof.
  intros Hl. revert limit. induction Hl as [|y l Hy Hl IH]; intros limit H.
  - cbn in *. destruct (_ <=? _) eqn:E; [bool_lia|done].
  - cbn [app fit total foldr] in *. fold (total (l ++ [x])) in H.
    destruct (_ <=? _) eqn:E; [|done]. by rewrite IH by lia.
Qed.

Lemma fit_total limit l : 0 <= limit -> total (fit limit l) <= limit.
Proof.
  revert limit. induction l as [|x l IH]; intros limit H; [done|]. cbn [fit].
  destruct (_ <=? _) eqn:E; [|done]. bool_prop. cbn [total foldr]. fold (total (fit (limit - size x) l)).
  specialize (IH (limit - size x)). lia.
Qed.

Lemma fit_prefix limit l : fit limit l `prefix_of` l.
Proof.
  revert limit. induction l as [|x l IH]; intros limit; [done|]. cbn [fit].
  destruct (_ <=? _); [by apply prefix_cons|apply prefix_nil].
Qed.

Lemma fit_mono limit l k : l `prefix_of` k -> fit limit l `prefix_of` fit limit k.
Proof.
  intros [m ->]. revert limit. induction l as [|x l IH]; intros limit; [apply prefix_nil|].
  cbn [fit app]. destruct (_ <=? _); [by apply prefix_cons|done].
Qed.
End fit.

Lemma fit_map {A B} (size : B -> Z) (f : A -> B) limit l :
  map f (fit (fun x => size (f x)) limit l) = fit size limit (map f l).
Proof.
  revert limit. induction l as [|x l IH]; intros limit; [done|]. cbn [fit map].
  destruct (_ <=? _); [|done]. cbn [map]. by rewrite IH.
Qed.

Lemma total_map {A B} (size : B -> Z) (f : A -> B) l : total size (map f l) = total (fun x => size (f x)) l.
Proof. unfold total. induction l; cbn; [done|]. lia. Qed.

Definition field_size (f : list Z * list Z) : Z := zlen f.1 + zlen f.2 + HpackEntryOverhead.

Lemma field_bytes_pos f : 32 <= field_size f.
Proof. unfold field_size, HpackEntryOverhead. pose proof (zlen_nonneg f.1). pose proof (zlen_nonneg f.2). lia. Qed.
Lemma field_sizes l : Forall (fun x => 0 <= field_size x) l.
Proof. apply Forall_forall. intros f _. pose proof (field_bytes_pos f). lia. Qed.

(** ** The ring *)

Definition ring (entries : list Entry) (head cap count : Z) : list Entry :=
  map (fun i => get_entry entries ((head + i) mod cap)) (seqZ 0 count).

Definition table_ring (t : HpackDynamicTable) : list Entry :=
  ring (ht_entries t) (ht_entryHead t) (ht_entryCapacity t) (ht_entryCount t).
Definition fields (t : HpackDynamicTable) : list (list Z * list Z) :=
  map (entry_field (ht_dataBuffer t)) (table_ring t).

Definition entry_total (e : Entry) : Z := NameLength e + ValueLength e.
Definition entry_wf (e : Entry) : Prop :=
  0 <= NameLength e /\ 0 <= ValueLength e /\ ValueOffset e = NameOffset e + NameLength e.

(** The strings of [r], newest first, lie in [lo, hi) in the order of insertion. *)
Fixpoint layout (lo hi : Z) (r : list Entry) : Prop :=
  match r with
  | [] => lo <= hi
  | e :: r => entry_wf e /\ NameOffset e + entry_total e <= hi /\ layout lo (NameOffset e) r
  end.

Record table_wf (t : HpackDynamicTable) : Prop := {
  wf_data : zlen (ht_dataBuffer t) = ht_dataCapacity t;
  wf_entries : zlen (ht_entries t) = ht_entryCapacity t;
  wf_count : 0 <= ht_entryCount t <= ht_entryCapacity t;
  wf_head : 0 <= ht_entryHead t /\ (ht_entryHead t < ht_entryCapacity t \/ ht_entryHead t = 0);
  wf_layout : layout 0 (ht_dataUsed t) (table_ring t);
  wf_used : ht_dataUsed t <= ht_dataCapacity t;
  wf_size : ht_currentSize t = total field_size (fields t);
  wf_size_bound : ht_currentSize t < 2 ^ 32;
  wf_max : is_u32 (ht_maxSize t);
  wf_capacity : ht_dataCapacity t < 2 ^ 34;
  wf_entry_capacity : ht_entryCapacity t < 2 ^ 40;
}.

(** The invariant between calls. *)
Definition table_ok (t : HpackDynamicTable) : Prop :=
  table_wf t /\ ht_currentSize t <= ht_maxSize t.

Lemma seqZ_snoc n : 0 <= n -> seqZ 0 (n + 1) = seqZ 0 n ++ [n].
Proof. intros. rewrite seqZ_app by lia. done. Qed.

Lemma ring_snoc entries head cap n :
  0 <= n -> ring entries head cap (n + 1) = ring entries head cap n ++ [get_entry entries ((head + n) mod cap)].
Proof. intros. unfold ring. by rewrite seqZ_snoc, map_app. Qed.

Lemma ring_length entries head cap n : 0 <= n -> zlen (ring entries head cap n) = n.
Proof. intros. unfold ring. rewrite zlen_map. unfold zlen. rewrite length_seqZ. lia. Qed.

Lemma ring_index_inj head cap i j :
  0 <= i < cap -> 0 <= j < cap -> (head + i) mod cap = (head + j) mod cap -> i = j.
Proof.
  intros Hi Hj H. pose proof (Z.div_mod (head + i) cap ltac:(lia)).
  pose proof (Z.div_mod (head + j) cap ltac:(lia)).
  assert (i - j = cap * ((head + i) / cap - (head + j) / cap)) as Hd by lia.
  set (q := (head + i) / cap - (head + j) / cap) in *. clearbody q.
  assert (-1 < q < 1) by nia. assert (q = 0) as -> by lia. lia.
Qed.

Lemma get_set_entry entries i j e :
  0 <= i < zlen entries -> 0 <= j ->
  get_entry (set_entry entries i e) j = if i =? j then e else get_entry entries j.
Proof.
  intros Hi Hj. unfold get_entry, set_entry, zlen in *. rewrite !nth_lookup.
  destruct (_ =? _) eqn:E; bool_prop.
  - subst j. by rewrite list_lookup_insert_eq by lia.
  - by rewrite list_lookup_insert_ne by lia.
Qed.

Lemma zlen_set_entry entries i e : zlen (set_entry entries i e) = zlen entries.
Proof. unfold zlen, set_entry. by rewrite length_insert. Qed.

(** Writing position [k] of the ring leaves the positions below it. *)
Lemma ring_set_above entries head cap n k e :
  zlen entries = cap -> 0 <= n <= k -> k < cap ->
  ring (set_entry entries ((head + k) mod cap) e) head cap n = ring entries head cap n.
Proof.
  intros Hlen Hn Hk. unfold ring. apply map_ext_in. intros i Hi.
  apply list_elem_of_In, elem_of_seqZ in Hi.
  pose proof (Z.mod_pos_bound (head + k) cap ltac:(lia)). pose proof (Z.mod_pos_bound (head + i) cap ltac:(lia)).
  rewrite get_set_entry by lia. destruct (_ =? _) eqn:E; [|done]. bool_prop.
  apply ring_index_inj in E; lia.
Qed.

(** Putting an entry before the head. *)
Lemma ring_cons entries head cap n e :
  zlen entries = cap -> 0 <= n < cap -> 0 <= head < cap ->
  let h := if head =? 0 then cap - 1 else head - 1 in
  ring (set_entry entries h e) h cap (n + 1) = e :: ring entries head cap n.
Proof.
  intros Hlen Hn Hh h.
  assert (Hhr : 0 <= h < cap) by (unfold h; destruct (_ =? 0) eqn:?; bool_lia).
  assert (Hm : forall i, (h + (1 + i)) mod cap = (head + i) mod cap).
  { intros i. unfold h. destruct (_ =? 0) eqn:E; bool_prop.
    - subst head. replace (cap - 1 + (1 + i)) with (0 + i + 1 * cap) by lia. by rewrite Z.mod_add by lia.
    - f_equal. lia. }
  clearbody h.
  unfold ring. rewrite seqZ_cons by lia. cbn [map].
  rewrite Z.add_0_r, Z.mod_small, get_set_entry, Z.eqb_refl by lia. f_equal.
  replace (Z.pred (n + 1)) with n by lia.
  replace (seqZ (Z.succ 0) n) with (map (Z.add 1) (seqZ 0 n)) by (apply (fmap_add_seqZ 1 0 n)).
  rewrite map_map. apply map_ext_in. intros i Hi. apply list_elem_of_In, elem_of_seqZ in Hi.
  rewrite Hm. pose proof (Z.mod_pos_bound (head + i) cap ltac:(lia)).
  rewrite get_set_entry by lia. destruct (_ =? _) eqn:E; [|done]. bool_prop. exfalso.
  assert (Hi0 : (h + 0) mod cap = (h + (1 + i)) mod cap) by (rewrite Hm, <- E, Z.add_0_r; by rewrite Z.mod_small by lia).
  destruct (Z.eq_dec (1 + i) cap) as [Hc|Hc]; [lia|]. apply ring_index_inj in Hi0; lia.
Qed.

(** ** Memory moves *)

Lemma zget_insert l i j x :
  0 <= i < zlen l -> 0 <= j -> zget (<[Z.to_nat i := x]> l) j = if i =? j then x else zget l j.
Proof.
  intros Hi Hj. unfold zget, zlen in *. rewrite !nth_lookup. destruct (_ =? _) eqn:E; bool_prop.
  - subst j. by rewrite list_lookup_insert_eq by lia.
  - by rewrite list_lookup_insert_ne by lia.
Qed.
Lemma zlen_insert {A} (l : list A) i x : zlen (<[i := x]> l) = zlen l.
Proof. unfold zlen. by rewrite length_insert. Qed.

Lemma move_forward_spec n : forall i data dst src,
  0 <= i -> 0 <= dst <= src -> src + i + Z.of_nat n <= zlen data ->
  zlen (move_forward n i data dst src) = zlen data
  /\ forall j, 0 <= j -> zget (move_forward n i data dst src) j
     = if (dst + i <=? j) && (j <? dst + i + Z.of_nat n) then zget data (src + (j - dst)) else zget data j.
Proof.
  induction n as [|n IH]; intros i data dst src Hi Hd Hlen.
  - split; [done|]. intros j Hj. cbn [move_forward]. case_if; [bool_lia|done].
  - cbn [move_forward]. destruct (IH (i + 1) (<[Z.to_nat (dst + i):=zget data (src + i)]> data) dst src)
      as [Hz Hg]; [lia..|rewrite zlen_insert; lia|].
    rewrite zlen_insert in Hz. split; [done|]. intros j Hj. rewrite Hg by done.
    rewrite !zget_insert by lia. repeat case_if; try (f_equal; bool_lia); try done;
      destruct (dst + i + 1 <=? j) eqn:?, (dst + i <=? j) eqn:?; cbn in *; try discriminate; bool_lia.
Qed.

Lemma move_backward_spec n : forall data dst src,
  0 <= src <= dst -> dst + Z.of_nat n <= zlen data ->
  zlen (move_backward n data dst src) = zlen data
  /\ forall j, 0 <= j -> zget (move_backward n data dst src) j
     = if (dst <=? j) && (j <? dst + Z.of_nat n) then zget data (src + (j - dst)) else zget data j.
Proof.
  induction n as [|n IH]; intros data dst src Hd Hlen.
  - split; [done|]. intros j Hj. cbn [move_backward]. case_if; [bool_lia|done].
  - cbn [move_backward]. set (k := Z.of_nat n).
    destruct (IH (<[Z.to_nat (dst + k):=zget data (src + k)]> data) dst src) as [Hz Hg];
      [done|rewrite zlen_insert; lia|].
    rewrite zlen_insert in Hz. split; [done|]. intros j Hj. rewrite Hg by done.
    destruct ((dst <=? j) && (j <? dst + Z.of_nat n)) eqn:E1; bool_prop.
    + rewrite zget_insert by lia. repeat case_if; try (f_equal; bool_lia); try done;
        destruct (dst <=? j) eqn:?; cbn in *; try discriminate; bool_lia.
    + rewrite zget_insert by lia. repeat case_if; try (f_equal; bool_lia); try done;
        destruct (dst <=? j) eqn:?; cbn in *; try discriminate; bool_lia.
Qed.

(** [MemMove] is right for overlapping regions, in both directions. *)
Lemma MemMove_spec data dst src len :
  0 <= dst -> 0 <= src -> 0 <= len -> dst + len <= zlen data -> src + len <= zlen data ->
  MemMove data dst src len = mem_copy data dst (zsub data src len).
Proof.
  intros Hd Hs Hl Hdl Hsl. assert (Hz : zlen (zsub data src len) = len) by (apply zlen_zsub; lia).
  apply zget_ext.
  { rewrite zlen_mem_copy by lia. unfold MemMove. repeat case_if; [done|..]; bool_prop;
      [apply move_forward_spec|apply move_backward_spec]; lia. }
  intros j Hj. rewrite zget_mem_copy, Hz by lia.
  assert (Hg : zget (MemMove data dst src len) j
    = if (dst <=? j) && (j <? dst + len) then zget data (src + (j - dst)) else zget data j).
  { unfold MemMove. destruct ((dst =? src) || (len =? 0)) eqn:E0; bool_prop.
    - case_if; [|done]. apply orb_true_iff in E0 as [E|E]; bool_prop; [f_equal; lia|lia].
    - destruct (dst <? src) eqn:E1; bool_prop.
      + destruct (move_forward_spec (Z.to_nat len) 0 data dst src) as [_ Hg]; [lia..|].
        rewrite Hg by lia. by rewrite Z.add_0_r, Z2Nat.id by lia.
      + destruct (move_backward_spec (Z.to_nat len) data dst src) as [_ Hg]; [lia..|].
        rewrite Hg by lia. by rewrite Z2Nat.id by lia. }
  rewrite Hg. case_if; [|done]. bool_prop. rewrite zget_zsub by lia. done.
Qed.

(** ** Layout *)

Lemma data_layout_le lo hi r : layout lo hi r -> lo <= hi.
Proof.
  revert hi. induction r as [|e r IH]; intros hi H; [done|]. destruct H as ((Hn & Hv & _) & Hh & Hr).
  apply IH in Hr. unfold entry_total in *. lia.
Qed.

Lemma data_layout_weaken lo hi hi' r : hi <= hi' -> layout lo hi r -> layout lo hi' r.
Proof. destruct r as [|e r]; cbn [layout]; [lia|]. intros ? (? & ? & ?). split_and!; [done|lia|done]. Qed.

Lemma layout_snoc lo hi r e :
  layout lo hi (r ++ [e])
  <-> entry_wf e /\ lo <= NameOffset e /\ layout (NameOffset e + entry_total e) hi r.
Proof.
  revert hi. induction r as [|e' r IH]; intros hi; cbn [app layout]; [tauto|].
  rewrite IH. tauto.
Qed.

(** A weaker form: where each entry lies. *)
Lemma layout_in lo hi r e :
  layout lo hi r -> e ∈ r -> entry_wf e /\ lo <= NameOffset e /\ NameOffset e + entry_total e <= hi.
Proof.
  revert hi. induction r as [|e' r IH]; intros hi Hl He; [by apply not_elem_of_nil in He|].
  destruct Hl as (Hw & Hh & Hr). apply elem_of_cons in He as [->|He].
  - pose proof (data_layout_le _ _ _ Hr). split_and!; [done|lia|lia].
  - destruct (IH _ Hr He) as (Hw' & Hlo & Hhi). destruct Hw as (? & ? & _). unfold entry_total in *.
    split_and!; [done|lia|lia].
Qed.

(** The fields only read the buffer inside the layout. *)
Lemma fields_agree data data' lo hi r :
  layout lo hi r -> 0 <= lo -> hi <= zlen data -> zlen data' = zlen data ->
  (forall off n, lo <= off -> 0 <= n -> off + n <= hi -> zsub data' off n = zsub data off n) ->
  map (entry_field data') r = map (entry_field data) r.
Proof.
  intros Hl Hlo Hhi Hz Heq. apply map_ext_in. intros e He. apply list_elem_of_In in He.
  destruct (layout_in _ _ _ _ Hl He) as ((Hn & Hv & Ho) & Hlo' & Hhi'). unfold entry_total in *.
  unfold entry_field. rewrite !Heq by lia. done.
Qed.

Lemma entry_field_size data e :
  entry_wf e -> 0 <= NameOffset e -> NameOffset e + entry_total e <= zlen data ->
  field_size (entry_field data e) = entry_total e + HpackEntryOverhead.
Proof.
  intros (Hn & Hv & Ho) H0 Hz. unfold entry_total in *. unfold field_size, entry_field. cbn [fst snd].
  rewrite !zlen_zsub by lia. lia.
Qed.

(** ** Compaction *)

Definition ring_total (r : list Entry) : Z := total entry_total r.

Lemma ring_total_bound lo hi r : layout lo hi r -> lo + ring_total r <= hi.
Proof.
  unfold ring_total, total. revert hi. induction r as [|e r IH]; intros hi Hl; cbn in *; [lia|].
  destruct Hl as (_ & Hh & Hr). apply IH in Hr. lia.
Qed.

Lemma compact_loop_S r head cap data entries w f s :
  compact_loop (S r) head cap data entries w f s
  = let idx := (head +! Z.of_nat (S r) -! 1) mod cap in
    let e := get_entry entries idx in
    let n := NameLength e +! ValueLength e in
    let data := if negb (n =? 0) then MemMove data w (NameOffset e) n else data in
    compact_loop r head cap data
      (set_entry entries idx (MkEntry w (NameLength e) (w +! NameLength e) (ValueLength e)))
      (w +! n) (relocate (NameOffset e) n w f) (relocate (NameOffset e) n w s).
Proof. done. Qed.

Lemma compact_step k head cap w data entries :
  zlen entries = cap -> Z.of_nat k < cap -> cap < 2 ^ 40 -> 0 <= head < cap ->
  0 <= w -> zlen data < 2 ^ 34 ->
  forall hi, layout w hi (ring entries head cap (Z.of_nat k + 1)) -> hi <= zlen data ->
  let idx := (head +! Z.of_nat (S k) -! 1) mod cap in
  let e := get_entry entries idx in
  let n := NameLength e +! ValueLength e in
  let e' := MkEntry w (NameLength e) (w +! NameLength e) (ValueLength e) in
  let data' := if negb (n =? 0) then MemMove data w (NameOffset e) n else data in
  let entries' := set_entry entries idx e' in
  idx = (head + Z.of_nat k) mod cap /\ n = entry_total e /\ w +! n = w + n /\ 0 <= n
  /\ ring entries head cap (Z.of_nat k + 1) = ring entries head cap (Z.of_nat k) ++ [e]
  /\ ring entries' head cap (Z.of_nat k) = ring entries head cap (Z.of_nat k)
  /\ get_entry entries' idx = e' /\ entry_wf e' /\ entry_total e' = n
  /\ layout (w + n) hi (ring entries head cap (Z.of_nat k))
  /\ zlen data' = zlen data
  /\ entry_field data' e' = entry_field data e
  /\ (forall off m, 0 <= off -> 0 <= m -> off + m <= zlen data -> off + m <= w \/ w + n <= off ->
      zsub data' off m = zsub data off m).
Proof.
  intros Hlen Hk Hcap Hhead Hw Hz hi Hl Hhi idx e n e' data' entries'.
  assert (Hidx : idx = (head + Z.of_nat k) mod cap).
  { unfold idx. rewrite (u64_id (head + _)) by lia. rewrite u64_id by lia. f_equal. lia. }
  rewrite ring_snoc in Hl by lia. rewrite <- Hidx in Hl. fold e in Hl.
  apply layout_snoc in Hl as ((He1 & He2 & He3) & Hlo & Hl).
  pose proof (data_layout_le _ _ _ Hl) as Hle. unfold entry_total in Hle.
  assert (Hn : n = entry_total e) by (unfold n, entry_total; rewrite u64_id; lia).
  unfold entry_total in Hn.
  assert (Hidxr : 0 <= idx < cap) by (rewrite Hidx; apply Z.mod_pos_bound; lia).
  assert (Hd' : data' = mem_copy data w (zsub data (NameOffset e) n)).
  { unfold data'. destruct (n =? 0) eqn:E; cbn [negb]; bool_prop; [|apply MemMove_spec; lia].
    rewrite E. unfold zsub, mem_copy. rewrite zlen_ztake by (pose proof (zlen_nonneg (zdrop (NameOffset e) data)); lia).
    unfold ztake at 2. cbn [Z.to_nat take app]. rewrite Z.add_0_r. symmetry. apply ztake_zdrop. }
  assert (Hsl : zlen (zsub data (NameOffset e) n) = n) by (apply zlen_zsub; lia).
  assert (Hwn : w +! NameLength e = w + NameLength e) by (rewrite u64_id; lia).
  split_and!; try done; try lia.
  - rewrite u64_id; lia.
  - rewrite ring_snoc by lia. rewrite <- Hidx. done.
  - unfold entries'. rewrite Hidx. apply ring_set_above; lia.
  - unfold entries'. rewrite get_set_entry, Z.eqb_refl by lia. done.
  - assert (Hs : w + n <= NameOffset e + entry_total e) by (unfold entry_total; lia).
    revert Hs Hl. generalize (ring entries head cap (Z.of_nat k)). clear. intros r Hs.
    revert hi. induction r as [|x r IH]; intros hi Hl; cbn [layout] in *; [lia|].
    destruct Hl as (? & ? & Hr). split_and!; [done|done|by apply IH].
  - rewrite Hd'. apply zlen_mem_copy; lia.
  - unfold entry_field. cbn [NameOffset NameLength ValueOffset ValueLength e']. rewrite Hd', Hwn. f_equal.
    + rewrite <- (Z.add_0_r w) at 2. rewrite zsub_mem_copy_in by lia. rewrite zsub_zsub by lia. f_equal. lia.
    + rewrite zsub_mem_copy_in by lia. rewrite zsub_zsub by lia. by rewrite He3.
  - intros off m Ho Hm Hb Hout. rewrite Hd'. apply zsub_mem_copy_out; lia.
Qed.

(** What compaction of the first [k] positions does. *)
Definition compacted (k : nat) (head cap w : Z) (data : list Z) (entries : list Entry)
    (data' : list Z) (entries' : list Entry) (w' : Z) : Prop :=
  zlen data' = zlen data /\ zlen entries' = cap
  /\ w' = w + ring_total (ring entries head cap (Z.of_nat k))
  /\ layout w w' (ring entries' head cap (Z.of_nat k))
  /\ map (entry_field data') (ring entries' head cap (Z.of_nat k))
     = map (entry_field data) (ring entries head cap (Z.of_nat k))
  /\ (forall off n, 0 <= off -> 0 <= n -> off + n <= w -> zsub data' off n = zsub data off n)
  /\ (forall j, Z.of_nat k <= j < cap ->
       get_entry entries' ((head + j) mod cap) = get_entry entries ((head + j) mod cap)).

Lemma ring_total_snoc r e : ring_total (r ++ [e]) = ring_total r + entry_total e.
Proof. unfold ring_total. rewrite bytes_total_app. cbn. lia. Qed.

Lemma compact_entries_spec k : forall head cap w data entries f s hi data' entries' w' f' s',
  zlen entries = cap -> Z.of_nat k <= cap -> cap < 2 ^ 40 -> 0 <= head < cap ->
  0 <= w -> zlen data < 2 ^ 34 ->
  layout w hi (ring entries head cap (Z.of_nat k)) -> hi <= zlen data ->
  compact_loop k head cap data entries w f s = (data', entries', w', f', s') ->
  compacted k head cap w data entries data' entries' w'.
Proof.
  induction k as [|k IH]; intros head cap w data entries f s hi data' entries' w' f' s' Hlen Hk Hcap Hhead Hw Hz Hl Hhi H.
  { injection H as <- <- <- _ _. unfold compacted.
    change (ring entries head cap (Z.of_nat 0)) with (@nil Entry). change (ring_total []) with 0.
    split_and!; try done; cbn [layout]; lia. }
  rewrite compact_loop_S in H. cbn zeta in H.
  assert (Hk1 : Z.of_nat (S k) = Z.of_nat k + 1) by lia. rewrite Hk1 in Hl.
  pose proof (compact_step k head cap w data entries Hlen ltac:(lia) Hcap Hhead Hw Hz hi Hl Hhi) as Hstep.
  cbn zeta in Hstep.
  set (idx := (head +! Z.of_nat (S k) -! 1) mod cap) in *.
  set (e := get_entry entries idx) in *. set (n := NameLength e +! ValueLength e) in *.
  set (e' := MkEntry w (NameLength e) (w +! NameLength e) (ValueLength e)) in *.
  set (data1 := if negb (n =? 0) then MemMove data w (NameOffset e) n else data) in *.
  destruct Hstep as (Hidx & Hn & Hwn & Hn0 & Hsnoc & Hring & Hget & Hwf & Htot & Hl1 & Hz1 & Hfield & Hout).
  assert (Hno : NameOffset e' = w) by done.
  rewrite Hwn in H. clearbody idx. clearbody e. clearbody data1. clearbody n. clearbody e'.
  pose proof (data_layout_le _ _ _ Hl1) as Hle.
  apply IH with (hi := hi) in H; [|by rewrite zlen_set_entry|lia..|by rewrite Hring|lia].
  destruct H as (Hz' & He' & Hw' & Hl' & Hf' & Hlow & Hhigh). rewrite Hring in Hw', Hf'.
  assert (Hget' : get_entry entries' ((head + Z.of_nat k) mod cap) = e').
  { rewrite Hhigh by lia. by rewrite <- Hidx. }
  assert (Hring' : ring entries' head cap (Z.of_nat k + 1) = ring entries' head cap (Z.of_nat k) ++ [e']).
  { rewrite ring_snoc by lia. by rewrite Hget'. }
  unfold compacted. rewrite Hk1, Hring', Hsnoc. split_and!.
  - lia.
  - done.
  - rewrite ring_total_snoc. lia.
  - apply layout_snoc. rewrite Hno, Htot. split_and!; try done; lia.
  - rewrite !map_app, Hf'. cbn [map]. f_equal.
    + eapply fields_agree; [exact Hl1|lia|lia|done|]. intros off m Ho Hm Hb. apply Hout; lia.
    + f_equal. rewrite <- Hfield. destruct Hwf as (Hw1 & Hw2 & Hw3). unfold entry_total in *.
      unfold entry_field. rewrite !Hlow by lia. done.
  - intros off m Ho Hm Hb. rewrite Hlow by lia. apply Hout; lia.
  - intros j Hj. rewrite Hhigh by lia. rewrite get_set_entry.
    + destruct (_ =? _) eqn:E; [|done]. bool_prop. rewrite Hidx in E. apply ring_index_inj in E; lia.
    + rewrite Hidx. pose proof (Z.mod_pos_bound (head + Z.of_nat k) cap). lia.
    + apply Z.mod_pos_bound. lia.
Qed.

(** Read and write the fields of a table given as a constructor. *)
Ltac table_cbn :=
  cbv beta iota delta [set_field ht_dataBuffer ht_dataCapacity ht_dataUsed ht_entries ht_entryCapacity
       ht_entryCount ht_entryHead ht_currentSize ht_maxSize] in *.

(** The settings a step leaves alone. *)
Definition same_limits (t t' : HpackDynamicTable) : Prop :=
  ht_maxSize t' = ht_maxSize t /\ ht_entryCapacity t' = ht_entryCapacity t
  /\ ht_dataCapacity t' = ht_dataCapacity t.

Lemma ring_nil entries head cap : ring entries head cap 0 = [].
Proof. done. Qed.

Lemma CompactData_spec f s t t' f' s' :
  table_wf t -> CompactData f s t = (t', f', s') ->
  table_wf t' /\ fields t' = fields t /\ same_limits t t' /\ ht_entryCount t' = ht_entryCount t
  /\ ht_currentSize t' = ht_currentSize t
  /\ ht_dataUsed t' + HpackEntryOverhead * ht_entryCount t = ht_currentSize t.
Proof.
  intros [Hd He Hc Hh Hl Hu Hs Hsb Hm Hcap Hec] H. unfold CompactData in H.
  destruct t as [data dcap used entries ecap cnt head cur max]. unfold fields, table_ring in *. table_cbn.
  destruct (cnt =? 0) eqn:E; bool_prop.
  - subst cnt. injection H as <- _ _. pose proof (zlen_nonneg data). rewrite ring_nil in Hs. cbn in Hs.
    unfold same_limits. table_cbn. split_and!; try done; try lia.
    constructor; unfold table_ring; table_cbn; try done; try lia.
  - destruct (compact_loop _ _ _ _ _ _ _ _) as [[[[data' entries'] w'] f1] s1] eqn:Ec.
    injection H as <- _ _.
    pose proof (compact_entries_spec (Z.to_nat cnt) head ecap 0 data entries f s used data' entries' w' f1 s1) as Hspec.
    unfold compacted in Hspec. rewrite Z2Nat.id in Hspec by lia.
    destruct Hspec as (Hz & He' & Hw' & Hl' & Hf' & _ & _); try done; try lia.
    pose proof (ring_total_bound _ _ _ Hl) as Hb.
    assert (Hsz : total field_size (map (entry_field data) (ring entries head ecap cnt))
                  = ring_total (ring entries head ecap cnt) + HpackEntryOverhead * cnt).
    { rewrite <- (ring_length entries head ecap cnt) at 3 by lia. revert Hl.
      assert (Hud : used <= zlen data) by lia. revert Hud. generalize (ring entries head ecap cnt). clear.
      intros r Hud Hl. unfold ring_total. assert (Hall : Forall (fun e => field_size (entry_field data e) = entry_total e + HpackEntryOverhead) r).
      { apply Forall_forall. intros e Hin. destruct (layout_in _ _ _ _ Hl Hin) as (Hw & Hlo & Hhi).
        apply entry_field_size; [done|lia|lia]. }
      clear Hl. unfold total. induction Hall as [|e r Hx Hr IH]; [done|]. cbn [map foldr]. rewrite zlen_cons. lia. }
    unfold same_limits. table_cbn. split_and!; try done; try lia.
    constructor; unfold table_ring, fields, table_ring; table_cbn; try done; try lia. by rewrite Hf'.
Qed.

(** One eviction drops the last field. *)
Lemma Evict_spec t :
  table_wf t -> 0 < ht_entryCount t ->
  table_wf (Evict t) /\ same_limits t (Evict t) /\ ht_entryCount (Evict t) = ht_entryCount t - 1
  /\ exists x, fields t = fields (Evict t) ++ [x].
Proof.
  intros [Hd He Hc Hh Hl Hu Hs Hsb Hm Hcap Hec] Hpos. unfold Evict.
  destruct t as [data dcap used entries ecap cnt head cur max]. unfold fields, table_ring in *.
  table_cbn.
  destruct (cnt =? 0) eqn:E; [bool_lia|]. unfold is_u32 in Hm.
  assert (Hidx : (head +! cnt -! 1) mod ecap = (head + (cnt - 1)) mod ecap).
  { rewrite (u64_id (head + cnt)) by lia. rewrite u64_id by lia. f_equal. lia. }
  rewrite Hidx. assert (Hsnoc := ring_snoc entries head ecap (cnt - 1) ltac:(lia)).
  rewrite Z.sub_add in Hsnoc. set (e := get_entry _ _) in *.
  assert (Hle := Hl). rewrite Hsnoc in Hl. apply layout_snoc in Hl as (Hwf & Hlo & Hl).
  destruct Hwf as (Hw1 & Hw2 & Hw3). unfold entry_total in Hl.
  destruct (layout_in _ _ _ e Hle) as (_ & _ & Hhi). { rewrite Hsnoc. apply elem_of_app. right. by apply list_elem_of_singleton. }
  unfold entry_total in Hhi.
  assert (Hfs : field_size (entry_field data e) = NameLength e + ValueLength e + 32).
  { apply entry_field_size; unfold entry_wf, entry_total; lia. }
  rewrite Hsnoc, map_app, bytes_total_app in Hs. cbn [map total foldr] in Hs. rewrite Hfs in Hs.
  assert (Htn := bytes_total_nonneg field_size _ (field_sizes (map (entry_field data) (ring entries head ecap (cnt - 1))))).
  assert (Hes : NameLength e +! ValueLength e +! HpackEntryOverhead = NameLength e + ValueLength e + 32).
  { unfold HpackEntryOverhead. rewrite (u64_id (NameLength e + _)) by lia. rewrite u64_id by lia. done. }
  change HpackEntryOverhead with 32 in *.
  rewrite Hes. rewrite (u64_id (cur - _)) by lia. rewrite (u64_id (cnt - 1)) by lia.
  assert (Hr0 : layout 0 used (ring entries head ecap (cnt - 1))).
  { revert Hl. assert (Hx : 0 <= NameOffset e + (NameLength e + ValueLength e)) by lia.
    generalize (ring entries head ecap (cnt - 1)). clear -Hx. intros r. revert used.
    induction r as [|x r IH]; intros used Hl; cbn [layout] in *; [lia|].
    destruct Hl as (? & ? & Hr). split_and!; [done|done|by apply IH]. }
  destruct (cnt - 1 =? 0) eqn:E1; bool_prop.
  - rewrite E1 in *. unfold same_limits. table_cbn. split_and!; try done.
    + pose proof (zlen_nonneg data). rewrite ring_nil in Hs. cbn [map total foldr] in Hs.
      constructor; unfold fields, table_ring; table_cbn; try done; try lia.
      rewrite ring_nil. cbn [map total foldr]. lia.
    + exists (entry_field data e). by rewrite Hsnoc.
  - unfold same_limits. table_cbn. split_and!; try done.
    + constructor; unfold fields, table_ring; table_cbn; try done; try lia.
    + exists (entry_field data e). by rewrite Hsnoc, map_app.
Qed.

Lemma same_limits_trans t t' t'' : same_limits t t' -> same_limits t' t'' -> same_limits t t''.
Proof. unfold same_limits. intros (-> & -> & ->) (? & ? & ?). by split_and!. Qed.

Lemma no_fields t : table_wf t -> ht_entryCount t = 0 -> fields t = [] /\ ht_currentSize t = 0.
Proof.
  intros [] H0. assert (fields t = []) as Hf by (unfold fields, table_ring; by rewrite H0).
  split; [done|]. rewrite wf_size0, Hf. done.
Qed.

Lemma size_nonneg t : table_wf t -> 0 <= ht_currentSize t.
Proof. intros []. rewrite wf_size0. apply bytes_total_nonneg, field_sizes. Qed.

(** The eviction loop keeps what fits. *)
Lemma evict_loop_spec n : forall extra t,
  table_wf t -> ht_entryCount t <= Z.of_nat n -> 0 <= extra <= ht_maxSize t ->
  let t' := evict_loop n extra t in
  table_wf t' /\ same_limits t t' /\ fields t' = fit field_size (ht_maxSize t - extra) (fields t)
  /\ ht_currentSize t' + extra <= ht_maxSize t.
Proof.
  induction n as [|n IH]; intros extra t Hwf Hn Hx t'; subst t'.
  - destruct (no_fields t Hwf) as [Hf Hc]; [destruct Hwf; lia|].
    cbn [evict_loop]. rewrite Hf, Hc. split_and!; [done|done|done|lia].
  - cbn [evict_loop]. pose proof Hwf as []. unfold is_u32 in *.
    pose proof (bytes_total_nonneg field_size _ (field_sizes (fields t))).
    rewrite (u64_id (ht_currentSize t + extra)) by lia.
    destruct ((_ >? _) && _) eqn:E.
    + bool_prop. destruct (Evict_spec t Hwf ltac:(lia)) as (Hwf1 & Hsl & Hcnt & x & Hx1).
      assert (Hsl' := Hsl). destruct Hsl' as (Hmax & _). specialize (IH extra (Evict t) Hwf1 ltac:(lia)).
      rewrite Hmax in IH. destruct IH as (Hwf2 & Hsl2 & Hf & Hc); [done|]. split_and!; [done| | |done].
      { by eapply same_limits_trans. }
      rewrite Hf, Hx1. symmetry. apply fit_drop_last; [apply field_sizes|]. rewrite <- Hx1. lia.
    + assert (ht_currentSize t + extra <= ht_maxSize t).
      { apply andb_false_iff in E as [E|E]; bool_prop; [lia|].
        destruct (no_fields t Hwf) as [_ Hc]; lia. }
      split_and!; [done|done| |done]. symmetry. apply fit_all; [apply field_sizes|lia].
Qed.

Lemma evict_for_spec extra t :
  table_wf t -> 0 <= extra <= ht_maxSize t ->
  let t' := evict_for extra t in
  table_wf t' /\ same_limits t t' /\ fields t' = fit field_size (ht_maxSize t - extra) (fields t)
  /\ ht_currentSize t' + extra <= ht_maxSize t.
Proof. intros Hwf Hx. apply evict_loop_spec; [done|destruct Hwf; lia|done]. Qed.

Lemma UpdateMaxSize_spec n t :
  table_wf t -> is_u32 n ->
  table_ok (UpdateMaxSize n t) /\ ht_maxSize (UpdateMaxSize n t) = n
  /\ ht_entryCapacity (UpdateMaxSize n t) = ht_entryCapacity t
  /\ fields (UpdateMaxSize n t) = fit field_size n (fields t).
Proof.
  intros Hwf Hn. unfold UpdateMaxSize, table_ok.
  assert (Hwf1 : table_wf (t <| ht_maxSize := n |>)) by (destruct Hwf; constructor; done).
  destruct (evict_for_spec 0 (t <| ht_maxSize := n |>) Hwf1) as (Hwf2 & (Hm & Hec & _) & Hf & Hc).
  { unfold is_u32 in Hn. change (ht_maxSize _) with n. lia. }
  change (ht_maxSize (t <| ht_maxSize := n |>)) with n in *. rewrite Z.sub_0_r in Hf.
  destruct (CompactData None None _) as [[t2 f2] s2] eqn:E. cbn [fst].
  apply CompactData_spec in E as (Hwf3 & Hf3 & (Hm3 & Hec3 & _) & _ & Hc3 & _); [|done].
  split_and!; [done|lia|congruence|by rewrite Hec3, Hec|]. rewrite Hf3, Hf. done.
Qed.

Lemma capacity_limit m : is_u32 m -> DynamicTableDataCapacityLimit m = 2 * m + 1024.
Proof.
  unfold is_u32. intros Hm. unfold DynamicTableDataCapacityLimit.
  destruct (_ >? _) eqn:E.
  - bool_prop. change ((MaxSizeT -! 1024) / 2) with 9223372036854775295 in E. lia.
  - rewrite (u64_id (m * 2)) by lia. rewrite u64_id by lia. lia.
Qed.

(** ** Insertion *)

Lemma compact_if_full_spec needed n v t t' n' v' :
  table_wf t -> 0 <= needed < 2 ^ 33 ->
  compact_if_full needed (External n) (External v) t = (t', n', v') ->
  n' = External n /\ v' = External v /\ table_wf t' /\ fields t' = fields t /\ same_limits t t'
  /\ ht_entryCount t' = ht_entryCount t /\ ht_currentSize t' = ht_currentSize t
  /\ (ht_dataUsed t' + needed <= ht_dataCapacity t'
      \/ ht_dataUsed t' + HpackEntryOverhead * ht_entryCount t' = ht_currentSize t').
Proof.
  intros Hwf Hn H. unfold compact_if_full in H. pose proof Hwf as []. pose proof (data_layout_le _ _ _ wf_layout0).
  rewrite u64_id in H by lia. destruct (_ >? _) eqn:E; bool_prop.
  - destruct (CompactData _ _ t) as [[t1 f1] s1] eqn:Ec. injection H as <- <- <-.
    assert (f1 = None /\ s1 = None) as [-> ->].
    { unfold CompactData in Ec. destruct (_ =? 0); [by injection Ec as <- <- <-|].
      destruct (compact_loop _ _ _ _ _ _ _ _) as [[[[d1 e1] w1] f2] s2] eqn:El. injection Ec as _ <- <-.
      revert El. generalize (Z.to_nat (ht_entryCount t)), (ht_dataBuffer t), (ht_entries t), 0.
      intros k. induction k as [|k IH]; intros dat ent w El; [by injection El as <- <- <- <- <-|].
      rewrite compact_loop_S in El. cbn zeta in El. by eapply IH. }
    apply CompactData_spec in Ec as (? & ? & ? & Hcnt & Hcur & Hu); [|done].
    split_and!; try done. right. rewrite Hcnt, Hcur. done.
  - injection H as <- <- <-. split_and!; try done. by left.
Qed.

Lemma wf_frame t t' :
  table_wf t -> ht_entries t' = ht_entries t -> ht_entryCapacity t' = ht_entryCapacity t ->
  ht_entryCount t' = ht_entryCount t -> ht_entryHead t' = ht_entryHead t ->
  ht_dataUsed t' = ht_dataUsed t -> ht_currentSize t' = ht_currentSize t -> ht_maxSize t' = ht_maxSize t ->
  zlen (ht_dataBuffer t') = ht_dataCapacity t' -> ht_dataUsed t <= ht_dataCapacity t' < 2 ^ 34 ->
  fields t' = fields t -> table_wf t'.
Proof.
  intros [] He Hec Hcnt Hh Hu Hcur Hm Hz Hc Hf.
  constructor; rewrite ?He, ?Hec, ?Hcnt, ?Hh, ?Hu, ?Hcur, ?Hm, ?Hf; try done; try lia.
  unfold table_ring in *. by rewrite He, Hh, Hec, Hcnt.
Qed.

Lemma grow_data_spec needed data_ok t s t' :
  table_wf t -> 0 <= needed ->
  (ht_dataUsed t + needed <= ht_dataCapacity t
   \/ ht_dataUsed t + HpackEntryOverhead * ht_entryCount t = ht_currentSize t) ->
  ht_currentSize t + needed <= ht_maxSize t ->
  grow_data needed (DynamicTableDataCapacityLimit (ht_maxSize t)) data_ok t = (s, t') ->
  table_wf t' /\ fields t' = fields t /\ ht_maxSize t' = ht_maxSize t
  /\ ht_entryCapacity t' = ht_entryCapacity t /\ ht_currentSize t' = ht_currentSize t
  /\ ((s = STATUS_SUCCESS /\ ht_dataUsed t' + needed <= ht_dataCapacity t')
      \/ (s = STATUS_INSUFFICIENT_RESOURCES /\ data_ok = false)).
Proof.
  intros Hwf Hn Hroom Hfit H. unfold grow_data in H. pose proof Hwf as [].
  pose proof (size_nonneg t Hwf). pose proof (data_layout_le _ _ _ wf_layout0) as Hu0. pose proof wf_max0 as Hmax. unfold is_u32 in Hmax.
  rewrite capacity_limit in H by done.
  rewrite (u64_id (ht_dataUsed t + needed)) in H by lia.
  destruct (ht_dataUsed t + needed >? ht_dataCapacity t) eqn:E; bool_prop.
  2:{ injection H as <- <-. split_and!; try done. by left. }
  rewrite (u64_id (_ * 2)) in H by (pose proof (zlen_nonneg (ht_dataBuffer t)); lia).
  rewrite (u64_id (_ + 1024)) in H by lia.
  set (c1 := if ht_dataCapacity t * 2 <? _ then _ else _) in H.
  assert (Hc1 : ht_dataUsed t + needed + 1024 <= c1) by (unfold c1; case_if; bool_lia).
  clearbody c1. set (c2 := if c1 >? _ then _ else _) in H.
  unfold HpackEntryOverhead in Hroom.
  assert (Hc2 : ht_dataUsed t + needed <= c2 <= 2 * ht_maxSize t + 1024 /\ 0 < c2) by (unfold c2; case_if; bool_lia).
  clearbody c2. destruct (_ >? c2) eqn:E2; [bool_lia|].
  destruct (c2 =? 0) eqn:E3; [bool_lia|]. cbn [orb] in H.
  destruct data_ok; cbn [negb] in H; injection H as <- <-.
  - assert (Hz : zlen (mem_copy (replicate (Z.to_nat c2) 0) 0 (ztake (ht_dataUsed t) (ht_dataBuffer t))) = c2).
    { rewrite zlen_mem_copy; rewrite ?zlen_replicate, ?zlen_ztake by lia; lia. }
    assert (Hf : fields (t <| ht_dataBuffer := mem_copy (replicate (Z.to_nat c2) 0) 0 (ztake (ht_dataUsed t) (ht_dataBuffer t)) |>
                           <| ht_dataCapacity := c2 |>) = fields t).
    { unfold fields. apply map_ext_in. intros e He. apply list_elem_of_In in He.
      destruct (layout_in _ _ _ _ wf_layout0 He) as ((Hw1 & Hw2 & Hw3) & Hlo & Hhi). unfold entry_total in *.
      unfold entry_field. change (ht_dataBuffer (_ <| ht_dataCapacity := c2 |>)) with
        (mem_copy (replicate (Z.to_nat c2) 0) 0 (ztake (ht_dataUsed t) (ht_dataBuffer t))).
      assert (Hsub : forall off m, 0 <= off -> 0 <= m -> off + m <= ht_dataUsed t ->
        zsub (mem_copy (replicate (Z.to_nat c2) 0) 0 (ztake (ht_dataUsed t) (ht_dataBuffer t))) off m
        = zsub (ht_dataBuffer t) off m).
      { intros off m Ho Hm Hb. rewrite <- (Z.add_0_l off) at 1.
        rewrite zsub_mem_copy_in; rewrite ?zlen_replicate, ?zlen_ztake by lia; try lia.
        change (ztake (ht_dataUsed t) (ht_dataBuffer t)) with (zsub (ht_dataBuffer t) 0 (ht_dataUsed t)).
        rewrite zsub_zsub by lia. done. }
      rewrite !Hsub by lia. done. }
    split_and!; try done.
    + eapply wf_frame; try done; unfold set_field; cbn; lia.
    + left. split; [done|]. unfold set_field. cbn. lia.
  - split_and!; try done. by right.
Qed.

Lemma get_entry_app l k i : 0 <= i < zlen l -> get_entry (l ++ k) i = get_entry l i.
Proof. intros Hi. unfold get_entry, zlen in *. apply app_nth1. lia. Qed.

(** An array that starts with the ring is a ring with its head at 0. *)
Lemma ring_copied r k cap n : zlen r = n -> n <= cap -> ring (r ++ k) 0 cap n = r.
Proof.
  intros Hr Hn. apply (nth_ext _ _ entry_zero entry_zero).
  { pose proof (ring_length (r ++ k) 0 cap n). unfold zlen in *. lia. }
  intros i Hi. assert (Hlen : Z.of_nat (length (ring (r ++ k) 0 cap n)) = n).
  { apply (ring_length (r ++ k) 0 cap n). unfold zlen in Hr. lia. }
  unfold ring in *. rewrite (nth_indep _ _ (get_entry (r ++ k) ((0 + 0) mod cap))) by lia.
  rewrite (map_nth (fun i => get_entry (r ++ k) ((0 + i) mod cap))).
  rewrite length_map, length_seqZ in Hlen, Hi.
  assert (Hnth : nth i (seqZ 0 n) 0 = Z.of_nat i).
  { rewrite nth_lookup. rewrite lookup_seqZ_lt by lia. cbn. lia. }
  rewrite Hnth, Z.add_0_l, Z.mod_small by lia. rewrite get_entry_app by lia.
  unfold get_entry. by rewrite Nat2Z.id.
Qed.

(** Every entry takes at least 32 bytes. *)
Lemma count_bound data r : HpackEntryOverhead * zlen r <= total field_size (map (entry_field data) r).
Proof.
  induction r as [|e r IH]; [done|]. cbn [map total foldr]. rewrite zlen_cons.
  pose proof (field_bytes_pos (entry_field data e)). unfold HpackEntryOverhead in *.
  fold (total field_size (map (entry_field data) r)). lia.
Qed.

Lemma grow_entries_spec ok t s t' :
  table_wf t -> grow_entries ok t = (s, t') ->
  table_wf t' /\ fields t' = fields t /\ ht_maxSize t' = ht_maxSize t
  /\ ht_entryCapacity t <= ht_entryCapacity t' /\ ht_currentSize t' = ht_currentSize t
  /\ ht_dataUsed t' = ht_dataUsed t /\ ht_dataCapacity t' = ht_dataCapacity t
  /\ ((s = STATUS_SUCCESS /\ ht_entryCount t' < ht_entryCapacity t')
      \/ (s = STATUS_INSUFFICIENT_RESOURCES /\ (ok = false \/ ht_entryCapacity t = 0))).
Proof.
  intros Hwf H. unfold grow_entries in H. pose proof Hwf as [Hd He Hc Hh Hl Hu Hs Hsb Hm Hcap Hec].
  destruct (_ >=? _) eqn:E; bool_prop.
  2:{ injection H as <- <-. split_and!; try done. by left. }
  rewrite (u64_id (_ * 2)) in H by lia. destruct (_ =? 0) eqn:E0; bool_prop.
  { injection H as <- <-. split_and!; try done. right. split; [done|]. right. lia. }
  cbn [orb] in H. destruct ok; cbn [negb] in H; injection H as <- <-.
  2:{ split_and!; try done. right. split; [done|by left]. }
  set (copied := map _ _).
  assert (Hcopy : copied = table_ring t).
  { unfold copied, table_ring, ring. apply map_ext_in. intros i Hi. apply list_elem_of_In, elem_of_seqZ in Hi.
    rewrite u64_id by lia. done. }
  clearbody copied. subst copied. destruct t as [data dcap used entries ecap cnt head cur max].
  unfold fields, table_ring in *. table_cbn.
  set (r := ring entries head ecap cnt) in *.
  assert (Hrl : zlen r = cnt) by (apply ring_length; lia).
  set (pad := replicate _ entry_zero).
  assert (Hring : ring (r ++ pad) 0 (ecap * 2) cnt = r) by (apply ring_copied; lia).
  pose proof (count_bound data r) as Hcb. rewrite Hrl, <- Hs in Hcb. unfold HpackEntryOverhead in Hcb.
  split_and!; try done; rewrite ?Hring; try done; try lia.
  - constructor; unfold fields, table_ring; table_cbn; rewrite ?Hring; try done; try lia.
    rewrite zlen_app, Hrl. unfold pad. rewrite zlen_replicate. lia.
  - left. split; [done|lia].
Qed.

Lemma mem_copy_below dst k src off n :
  0 <= off -> 0 <= n -> off + n <= k -> k + zlen src <= zlen dst ->
  zsub (mem_copy dst k src) off n = zsub dst off n.
Proof. intros. pose proof (zlen_nonneg src). apply zsub_mem_copy_out; lia. Qed.

Lemma append_string_spec l t :
  ht_dataUsed t + zlen l < 2 ^ 64 -> 0 <= ht_dataUsed t ->
  append_string (External l) (zlen l) t
  = (t <| ht_dataBuffer := mem_copy (ht_dataBuffer t) (ht_dataUsed t) l |>) <| ht_dataUsed := ht_dataUsed t + zlen l |>.
Proof.
  intros Hb Hu. pose proof (zlen_nonneg l). unfold append_string, source_bytes. rewrite ztake_all by lia.
  rewrite u64_id by lia. destruct (_ >? 0) eqn:E; [done|]. bool_prop.
  assert (l = []) as -> by (destruct l; [done|rewrite zlen_cons in *; pose proof (zlen_nonneg l); lia]).
  destruct t as [data dcap used entries ecap cnt head cur max]. table_cbn.
  unfold mem_copy. change (zlen (@nil Z)) with 0. rewrite Z.add_0_r. cbn [app]. by rewrite ztake_zdrop.
Qed.

(** The two strings, as the new entry reads them back. *)
Lemma two_copies dst k n v :
  0 <= k -> k + (zlen n + zlen v) <= zlen dst ->
  let data := mem_copy (mem_copy dst k n) (k + zlen n) v in
  zlen data = zlen dst /\ zsub data k (zlen n) = n /\ zsub data (k + zlen n) (zlen v) = v
  /\ forall off m, 0 <= off -> 0 <= m -> off + m <= k -> zsub data off m = zsub dst off m.
Proof.
  intros Hk Hb data. pose proof (zlen_nonneg n). pose proof (zlen_nonneg v).
  assert (Hz1 : zlen (mem_copy dst k n) = zlen dst) by (apply zlen_mem_copy; lia).
  assert (Hall : forall l : list Z, zsub l 0 (zlen l) = l).
  { intros l. unfold zsub. rewrite zdrop_0. by apply ztake_all. }
  unfold data. split_and!.
  - rewrite zlen_mem_copy by lia. done.
  - rewrite mem_copy_below by lia. rewrite <- (Z.add_0_r k) at 2. rewrite zsub_mem_copy_in by lia. apply Hall.
  - rewrite <- (Z.add_0_r (k + zlen n)) at 2. rewrite zsub_mem_copy_in by lia. apply Hall.
  - intros off m Ho Hm Hlim. rewrite !mem_copy_below by lia. done.
Qed.

Lemma store_entry_spec n v t :
  table_wf t -> ht_entryCount t < ht_entryCapacity t ->
  ht_dataUsed t + (zlen n + zlen v) <= ht_dataCapacity t ->
  ht_currentSize t + field_size (n, v) <= ht_maxSize t ->
  let t' := store_entry (External n) (zlen n) (External v) (zlen v) (field_size (n, v)) t in
  table_wf t' /\ fields t' = (n, v) :: fields t /\ ht_maxSize t' = ht_maxSize t
  /\ ht_entryCapacity t' = ht_entryCapacity t /\ ht_currentSize t' = ht_currentSize t + field_size (n, v).
Proof.
  intros Hwf Hcnt Hroom Hfit t'. pose proof (size_nonneg t Hwf) as Hsn. pose proof Hwf as [Hd He Hc Hh Hl Hu Hs Hsb Hm Hcap Hec].
  pose proof (data_layout_le _ _ _ Hl) as Hu0. pose proof (zlen_nonneg n). pose proof (zlen_nonneg v).
  pose proof (field_bytes_pos (n, v)) as Hfs. unfold is_u32 in Hm.
  assert (Ht0 : t' = store_entry (External n) (zlen n) (External v) (zlen v) (field_size (n, v)) t) by done.
  clearbody t'. unfold store_entry in Ht0. cbv zeta in Ht0. rewrite (append_string_spec n) in Ht0 by lia.
  destruct t as [data dcap used entries ecap cnt head cur max]. unfold fields, table_ring in *. table_cbn.
  rewrite append_string_spec in Ht0 by (table_cbn; lia). table_cbn.
  destruct (two_copies data used n v) as (Hz & Hgn & Hgv & Hbelow); [lia..|].
  set (data2 := mem_copy (mem_copy data used n) (used + zlen n) v) in *.
  set (h := if head =? 0 then ecap - 1 else head - 1).
  assert (Ht' : t' = MkTable data2 dcap (used + zlen n + zlen v)
      (set_entry entries h (MkEntry used (zlen n) (used + zlen n) (zlen v))) ecap (cnt + 1) h
      (cur + field_size (n, v)) max).
  { rewrite Ht0. unfold h. destruct (head =? 0) eqn:Eh; bool_prop; u64_simpl; done. }
  clear Ht0. clearbody data2. subst t'.
  assert (Hring : ring (set_entry entries h (MkEntry used (zlen n) (used + zlen n) (zlen v))) h ecap (cnt + 1)
    = MkEntry used (zlen n) (used + zlen n) (zlen v) :: ring entries head ecap cnt).
  { apply ring_cons; lia. }
  assert (Hold : map (entry_field data2) (ring entries head ecap cnt) = map (entry_field data) (ring entries head ecap cnt)).
  { eapply fields_agree; [exact Hl|lia|lia|done|]. intros; apply Hbelow; lia. }
  assert (Hnew : entry_field data2 (MkEntry used (zlen n) (used + zlen n) (zlen v)) = (n, v)).
  { unfold entry_field. cbn [NameOffset NameLength ValueOffset ValueLength]. by rewrite Hgn, Hgv. }
  split_and!; try done.
  - constructor; unfold fields, table_ring; table_cbn; rewrite ?Hring; try done; try lia.
    + by rewrite zlen_set_entry.
    + unfold h. destruct (head =? 0) eqn:Eh; bool_lia.
    + cbn [layout]. unfold entry_wf, entry_total. cbn [NameOffset NameLength ValueOffset ValueLength]. split_and!; try done; lia.
    + cbn [map total foldr]. rewrite Hnew, Hold, Hs. unfold total. lia.
  - cbn. rewrite Hring. cbn [map]. by rewrite Hnew, Hold.
Qed.

Lemma entry_size n v :
  zlen n < 2 ^ 62 -> zlen v < 2 ^ 62 ->
  zlen n +! zlen v = zlen n + zlen v /\ zlen n +! zlen v +! HpackEntryOverhead = field_size (n, v)
  /\ (zlen n >? MaxSizeT -! zlen v) || (zlen n +! zlen v >? MaxSizeT -! HpackEntryOverhead) = false.
Proof.
  intros Hn Hv. pose proof (zlen_nonneg n). pose proof (zlen_nonneg v).
  unfold field_size, MaxSizeT, MAXU64, HpackEntryOverhead in *. cbn [fst snd].
  rewrite (u64_id (zlen n + zlen v)) by lia. rewrite (u64_id (2 ^ 64 - 1 - zlen v)) by lia.
  rewrite (u64_id (2 ^ 64 - 1 - 32)) by lia. rewrite u64_id by lia.
  split_and!; [done|done|]. apply orb_false_iff. rewrite !Z.gtb_ltb, !Z.ltb_ge. lia.
Qed.

Lemma Insert_spec data_ok entries_ok n v t s t' :
  table_ok t -> zlen n < 2 ^ 62 -> zlen v < 2 ^ 62 ->
  Insert data_ok entries_ok (External n) (zlen n) (External v) (zlen v) t = (s, t') ->
  table_ok t' /\ ht_maxSize t' = ht_maxSize t /\ ht_entryCapacity t <= ht_entryCapacity t'
  /\ ((s = STATUS_SUCCESS /\ fields t' = fit field_size (ht_maxSize t) ((n, v) :: fields t))
      \/ (s = STATUS_INSUFFICIENT_RESOURCES
          /\ (data_ok = false \/ entries_ok = false \/ ht_entryCapacity t = 0)
          /\ fields t' = fit field_size (ht_maxSize t - field_size (n, v)) (fields t))).
Proof.
  intros [Hwf Hcur] Hn Hv H. unfold Insert in H.
  destruct (entry_size n v Hn Hv) as (Hsum & Hsize & Hg). rewrite Hg, Hsize, Hsum in H.
  pose proof (field_bytes_pos (n, v)) as Hpos. pose proof Hwf as [Hd He Hc Hh Hl Hu Hs Hsb Hm Hcap Hec].
  pose proof (size_nonneg t Hwf). pose proof Hm as Hm'. unfold is_u32 in Hm'. cbn [fit].
  pose proof (zlen_nonneg n). pose proof (zlen_nonneg v).
  destruct (field_size (n, v) >? ht_maxSize t) eqn:E; bool_prop.
  { injection H as <- <-. destruct (_ <=? _) eqn:E'; [bool_lia|]. pose proof (zlen_nonneg (ht_dataBuffer t)).
    destruct t as [data dcap used entries ecap cnt head cur max]. unfold table_ok. table_cbn.
    split_and!; try done; try lia; [|by left]. constructor; unfold fields, table_ring; table_cbn; try done; try lia. }
  destruct (evict_for_spec (field_size (n, v)) t Hwf ltac:(lia)) as (Hwf1 & (Hm1 & Hec1 & _) & Hf1 & Hc1).
  set (t1 := evict_for _ t) in *. clearbody t1. rewrite Hm1, capacity_limit in H by done.
  assert (Hfs : field_size (n, v) = zlen n + zlen v + 32) by done.
  destruct (zlen n + zlen v >? _) eqn:E1; [bool_lia|].
  destruct (compact_if_full _ _ _ t1) as [[t2 n2] v2] eqn:E2.
  apply compact_if_full_spec in E2 as (-> & -> & Hwf2 & Hf2 & (Hm2 & Hec2 & _) & Hcnt2 & Hc2 & Hroom); [|done|lia].
  destruct (grow_data _ _ _ t2) as [s3 t3] eqn:E3.
  rewrite <- capacity_limit, <- Hm1, <- Hm2 in E3 by done.
  apply grow_data_spec in E3 as (Hwf3 & Hf3 & Hm3 & Hec3 & Hc3 & Hs3); [|done|lia|tauto|lia].
  destruct (_ <=? _) eqn:E4; [|bool_lia].
  destruct Hs3 as [[-> Hroom3]|[-> Hok]].
  2:{ injection H as <- <-. split_and!; [split; [done|lia]|lia|lia|]. right. rewrite Hf3, Hf2. split_and!; try done. by left. }
  cbn [NT_SUCCESS negb] in H. destruct (grow_entries entries_ok t3) as [s4 t4] eqn:E5.
  apply grow_entries_spec in E5 as (Hwf4 & Hf4 & Hm4 & Hec4 & Hc4 & Hu4 & Hd4 & Hs4); [|done].
  destruct Hs4 as [[-> Hcnt4]|[-> Hok]].
  2:{ injection H as <- <-. split_and!; [split; [done|lia]|lia|lia|]. right. rewrite Hf4, Hf3, Hf2.
      split_and!; try done. rewrite Hec3, Hec2, Hec1 in Hok. tauto. }
  cbn [NT_SUCCESS negb] in H. injection H as <- <-.
  destruct (store_entry_spec n v t4 Hwf4 Hcnt4) as (Hwf5 & Hf5 & Hm5 & Hec5 & Hc5); [lia|lia|].
  split_and!; [split; [done|lia]|lia|lia|]. left. split; [done|]. by rewrite Hf5, Hf4, Hf3, Hf2, Hf1.
Qed.

Lemma Lookup_spec i t : table_wf t -> 0 <= i -> Lookup i t = fields t !! Z.to_nat i.
Proof.
  intros [] Hi. unfold Lookup, fields, table_ring, ring.
  destruct (_ >=? _) eqn:E; bool_prop.
  - symmetry. apply lookup_ge_None. rewrite !length_map, length_seqZ. lia.
  - rewrite !list_lookup_fmap, lookup_seqZ_lt by lia. cbn [fmap option_fmap option_map].
    rewrite Z.add_0_l, Z2Nat.id, u64_id by lia. done.
Qed.

Lemma Initialize_spec maxSize t t' :
  is_u32 maxSize -> Initialize maxSize true true t = (STATUS_SUCCESS, t') ->
  table_ok t' /\ fields t' = [] /\ ht_maxSize t' = maxSize /\ (maxSize <> 0 -> 0 < ht_entryCapacity t').
Proof.
  intros Hm H. unfold Initialize, Reset in H. pose proof Hm as Hm'. unfold is_u32 in Hm'. unfold table_ok.
  table_cbn. rewrite capacity_limit in H by done. cbn [negb] in H.
  destruct (maxSize =? 0) eqn:E0; bool_prop.
  - injection H as <-. unfold table_ok. table_cbn. split_and!; try done; try lia.
    constructor; unfold fields, table_ring; table_cbn; try done; try lia.
  - destruct (_ <? 1024) eqn:E1; [bool_lia|]. injection H as <-. unfold table_ok. table_cbn. split_and!; try done; try lia.
    constructor; unfold fields, table_ring; table_cbn; rewrite ?zlen_replicate; try done; try lia.
Qed.

(** ** Properties *)

(** The operations on a table, with the outcome of their allocations. *)
Inductive table_op :=
  | OpInsert (name value : list Z) (data_ok entries_ok : bool)
  | OpResize (newMaxSize : Z).
Definition run_op (op : table_op) (t : HpackDynamicTable) : NTSTATUS * HpackDynamicTable :=
  match op with
  | OpInsert n v data_ok entries_ok => Insert data_ok entries_ok (External n) (zlen n) (External v) (zlen v) t
  | OpResize m => (STATUS_SUCCESS, UpdateMaxSize m t)
  end.
Definition op_ok (op : table_op) : Prop :=
  match op with
  | OpInsert n v _ _ => zlen n < 2 ^ 62 /\ zlen v < 2 ^ 62
  | OpResize m => is_u32 m
  end.
(** What an operation that succeeds does to the size limit and the fields. *)
Definition abstract_op (op : table_op) (limit : Z) (l : list (list Z * list Z)) : Z * list (list Z * list Z) :=
  match op with
  | OpInsert n v _ _ => (limit, fit field_size limit ((n, v) :: l))
  | OpResize m => (m, fit field_size m l)
  end.
(** The allocator may refuse this operation. *)
Definition may_fail (op : table_op) (t : HpackDynamicTable) : Prop :=
  match op with
  | OpInsert _ _ data_ok entries_ok => data_ok = false \/ entries_ok = false \/ ht_entryCapacity t = 0
  | OpResize _ => False
  end.

(** C15. The ring buffer and the byte buffer implement the abstract table.  A
    successful insertion puts the field in front and keeps the longest prefix
    that fits; resizing keeps the longest prefix that fits; an insertion fails
    only when an allocation does, and then the table is a prefix of the old
    one.  In every case the invariant is kept: the recorded size is the total
    size of the fields and within the limit, and looking up an index gives the
    field at that position. *)
Theorem hpack_table_refines (t : HpackDynamicTable) (op : table_op) :
  table_ok t -> op_ok op ->
  let '(s, t') := run_op op t in
  table_ok t'
  /\ ht_currentSize t' = total field_size (fields t') /\ ht_currentSize t' <= ht_maxSize t'
  /\ (forall i, 0 <= i -> Lookup i t' = fields t' !! Z.to_nat i)
  /\ ((s = STATUS_SUCCESS /\ (ht_maxSize t', fields t') = abstract_op op (ht_maxSize t) (fields t))
      \/ (s = STATUS_INSUFFICIENT_RESOURCES /\ may_fail op t
          /\ ht_maxSize t' = ht_maxSize t /\ fields t' `prefix_of` fields t)).
Proof.
  intros Hok Hop. destruct (run_op op t) as [s t'] eqn:E.
  assert (Hmain : table_ok t' /\
    ((s = STATUS_SUCCESS /\ (ht_maxSize t', fields t') = abstract_op op (ht_maxSize t) (fields t))
      \/ (s = STATUS_INSUFFICIENT_RESOURCES /\ may_fail op t
          /\ ht_maxSize t' = ht_maxSize t /\ fields t' `prefix_of` fields t))).
  { destruct op as [n v d e|m]; cbn [run_op op_ok abstract_op may_fail] in *.
    - destruct Hop as [Hn Hv]. apply Insert_spec in E as (Hok' & Hm & _ & Hr); [|done..]. split; [done|].
      destruct Hr as [[-> Hf]|(-> & Hfail & Hf)]; [left|right].
      + split; [done|]. by rewrite Hm, Hf.
      + split_and!; try done. rewrite Hf. apply fit_prefix.
    - injection E as <- <-. destruct Hok as [Hwf _].
      destruct (UpdateMaxSize_spec m t Hwf Hop) as (Hok' & Hm & _ & Hf). split; [done|]. left. split; [done|].
      by rewrite Hm, Hf. }
  destruct Hmain as [[Hwf Hc] Hm]. split_and!; try done.
  - apply (wf_size _ Hwf).
  - intros i Hi. by apply Lookup_spec.
Qed.

(** Two small fields in a table of 100 bytes; the second evicts the first. *)
Definition example_table : HpackDynamicTable :=
  (Insert true true (External [97; 98; 99]) 3 (External [1; 2; 3]) 3
    (Initialize 100 true true table_default).2).2.

Lemma hpack_table_refines_witness :
  table_ok example_table
  /\ fields (run_op (OpInsert [120; 121] (replicate 40 7) true true) example_table).2 = [([120; 121], replicate 40 7)].
Proof.
  destruct (Initialize_spec 100 table_default (Initialize 100 true true table_default).2) as (Hi & Hf0 & _).
  { by split. } { by vm_compute. }
  destruct (Insert_spec true true [97; 98; 99] [1; 2; 3] (Initialize 100 true true table_default).2
    STATUS_SUCCESS example_table Hi) as (Hok & Hm & _ & [[_ Hf]|[? _]]); [done|done|by vm_compute| |done].
  split; [exact Hok|].
  pose proof (hpack_table_refines example_table (OpInsert [120; 121] (replicate 40 7) true true) Hok
    ltac:(split; by vm_compute)) as H.
  destruct (run_op _ example_table) as [s t'] eqn:E. destruct H as (_ & _ & _ & _ & [[_ H]|[Hs _]]).
  - apply (f_equal snd) in H. cbn [abstract_op snd] in H |- *. rewrite H, Hf, Hf0, Hm. by vm_compute.
  - exfalso. assert (Es : (run_op (OpInsert [120; 121] (replicate 40 7) true true) example_table).1 = STATUS_SUCCESS).
    { by vm_compute. }
    rewrite E in Es. cbn [fst] in Es. congruence.
Defined.

(** A table initialised with size 0 has no ring; resized later, it refuses every
    field, because it doubles a capacity of 0. *)
Example zero_table_refuses :
  (Insert true true (External [97]) 1 (External [98]) 1
     (UpdateMaxSize 4096 (Initialize 0 true true table_default).2)).1 = STATUS_INSUFFICIENT_RESOURCES.
Proof. by vm_compute. Qed.
