(* ===== verification/Hpack.v ===== *)
(** * The HPACK encoder and decoder (src/wknetlib/http2/Hpack.cpp, RFC 7541)

    Header blocks over the static table, the dynamic table, the integers and the
    Huffman code of the other files.  The decoder's output pointers are offsets
    into the caller's name-value buffer.  The main result is that a decoder
    that starts from the encoder's table reads back every block the encoder
    writes, and ends with the encoder's table. *)

From Stdlib Require Import Ascii String.
From S2P Require Import Prelude HpackInteger HpackHuffman HpackDynamicTable.
#[local] Open Scope string_scope.
#[local] Open Scope list_scope.
#[local] Open Scope Z_scope.

(** ** The static table (http2/HpackStaticTable.h) *)

Record HpackStaticEntry := MkStatic {
  st_Name : list Z;
  st_NameLength : Z;
  st_Value : list Z;
  st_ValueLength : Z;
}.

Definition HpackStaticTable : list HpackStaticEntry := [
  MkStatic (str ":authority") 10 [] 0;
  MkStatic (str ":method") 7 (str "GET") 3;
  MkStatic (str ":method") 7 (str "POST") 4;
  MkStatic (str ":path") 5 (str "/") 1;
  MkStatic (str ":path") 5 (str "/index.html") 11;
  MkStatic (str ":scheme") 7 (str "http") 4;
  MkStatic (str ":scheme") 7 (str "https") 5;
  MkStatic (str ":status") 7 (str "200") 3;
  MkStatic (str ":status") 7 (str "204") 3;
  MkStatic (str ":status") 7 (str "206") 3;
  MkStatic (str ":status") 7 (str "304") 3;
  MkStatic (str ":status") 7 (str "400") 3;
  MkStatic (str ":status") 7 (str "404") 3;
  MkStatic (str ":status") 7 (str "500") 3;
  MkStatic (str "accept-charset") 14 [] 0;
  MkStatic (str "accept-encoding") 15 (str "gzip, deflate") 13;
  MkStatic (str "accept-language") 15 [] 0;
  MkStatic (str "accept-ranges") 13 [] 0;
  MkStatic (str "accept") 6 [] 0;
  MkStatic (str "access-control-allow-origin") 27 [] 0;
  MkStatic (str "age") 3 [] 0;
  MkStatic (str "allow") 5 [] 0;
  MkStatic (str "authorization") 13 [] 0;
  MkStatic (str "cache-control") 13 [] 0;
  MkStatic (str "content-disposition") 19 [] 0;
  MkStatic (str "content-encoding") 16 [] 0;
  MkStatic (str "content-language") 16 [] 0;
  MkStatic (str "content-length") 14 [] 0;
  MkStatic (str "content-location") 16 [] 0;
  MkStatic (str "content-range") 13 [] 0;
  MkStatic (str "content-type") 12 [] 0;
  MkStatic (str "cookie") 6 [] 0;
  MkStatic (str "date") 4 [] 0;
  MkStatic (str "etag") 4 [] 0;
  MkStatic (str "expect") 6 [] 0;
  MkStatic (str "expires") 7 [] 0;
  MkStatic (str "from") 4 [] 0;
  MkStatic (str "host") 4 [] 0;
  MkStatic (str "if-match") 8 [] 0;
  MkStatic (str "if-modified-since") 17 [] 0;
  MkStatic (str "if-none-match") 13 [] 0;
  MkStatic (str "if-range") 8 [] 0;
  MkStatic (str "if-unmodified-since") 19 [] 0;
  MkStatic (str "last-modified") 13 [] 0;
  MkStatic (str "link") 4 [] 0;
  MkStatic (str "location") 8 [] 0;
  MkStatic (str "max-forwards") 12 [] 0;
  MkStatic (str "proxy-authenticate") 18 [] 0;
  MkStatic (str "proxy-authorization") 19 [] 0;
  MkStatic (str "range") 5 [] 0;
  MkStatic (str "referer") 7 [] 0;
  MkStatic (str "refresh") 7 [] 0;
  MkStatic (str "retry-after") 11 [] 0;
  MkStatic (str "server") 6 [] 0;
  MkStatic (str "set-cookie") 10 [] 0;
  MkStatic (str "strict-transport-security") 25 [] 0;
  MkStatic (str "transfer-encoding") 17 [] 0;
  MkStatic (str "user-agent") 10 [] 0;
  MkStatic (str "vary") 4 [] 0;
  MkStatic (str "via") 3 [] 0;
  MkStatic (str "www-authenticate") 16 [] 0
].
Definition HpackStaticTableSize : Z := 61.

(** [HpackStaticTable[i]], as the name and the value its pointers and lengths denote. *)
Definition static_field (i : Z) : list Z * list Z :=
  let e := nth (Z.to_nat i) HpackStaticTable (MkStatic [] 0 [] 0) in
  (ztake (st_NameLength e) (st_Name e), ztake (st_ValueLength e) (st_Value e)).

(** ** Helpers *)

(** [if (c >= 'A' && c <= 'Z') c += 32;] the bytes from 128 on are negative as
    [char] and are left alone too. *)
Definition lower (c : Z) : Z := if (c >=? 65) && (c <=? 90) then c + 32 else c.

Fixpoint name_equals_loop (a b : list Z) : bool :=
  match a, b with
  | ca :: a, cb :: b => if negb (lower ca =? lower cb) then false else name_equals_loop a b
  | _, _ => true
  end.
Definition NameEquals (a b : list Z) : bool :=
  if negb (zlen a =? zlen b) then false else name_equals_loop a b.

Fixpoint value_equals_loop (a b : list Z) : bool :=
  match a, b with
  | ca :: a, cb :: b => if negb (ca =? cb) then false else value_equals_loop a b
  | _, _ => true
  end.
Definition ValueEquals (a b : list Z) : bool :=
  if negb (zlen a =? zlen b) then false else value_equals_loop a b.

Definition RangeFits (offset length capacity : Z) : bool :=
  (offset <=? capacity) && (length <=? capacity -! offset).

Definition MultiplySize (left right : Z) : option Z :=
  if negb (left =? 0) && (right >? MAXU64 / left) then None else Some (left *! right).

(** The new header list size. *)
Definition AddHeaderListSize (nameLength valueLength maxHeaderListSize headerListSize : Z) : option Z :=
  if nameLength >? MaxSizeT -! valueLength then None
  else
    let fieldSize := nameLength +! valueLength in
    if fieldSize >? MaxSizeT -! HpackEntryOverhead then None
    else
      let fieldSize := fieldSize +! HpackEntryOverhead in
      if headerListSize >? MaxSizeT -! fieldSize then None
      else if negb (maxHeaderListSize =? MaxSizeT)
              && ((fieldSize >? maxHeaderListSize) || (headerListSize >? maxHeaderListSize -! fieldSize))
      then None
      else Some (headerListSize +! fieldSize).

Definition IsSensitiveHeaderName (name : list Z) : bool :=
  NameEquals name (str "authorization") || NameEquals name (str "cookie")
  || NameEquals name (str "proxy-authorization").

(** ** Decoder *)

Record HpackDecoder := MkDecoder { hd_table : HpackDynamicTable; hd_maxTableSize : Z }.
#[export] Instance HpackDecoder_eta : Eta HpackDecoder := fun x => MkDecoder (hd_table x) (hd_maxTableSize x).

Definition Decoder_Initialize (maxTableSize : Z) (data_ok entries_ok : bool) (d : HpackDecoder)
    : NTSTATUS * HpackDecoder :=
  let d := d <| hd_maxTableSize := maxTableSize |> in
  let '(status, table) := Initialize maxTableSize data_ok entries_ok (hd_table d) in
  (status, d <| hd_table := table |>).

Definition Decoder_Reset (d : HpackDecoder) : HpackDecoder := d <| hd_table := Reset (hd_table d) |>.

Definition Decoder_UpdateMaxTableSize (maxTableSize : Z) (d : HpackDecoder) : HpackDecoder :=
  let d := d <| hd_maxTableSize := maxTableSize |> in
  d <| hd_table := UpdateMaxSize maxTableSize (hd_table d) |>.

(** A pointer to a name or value: into the caller's buffer, or to a string of
    the static or the dynamic table. *)
Inductive Part :=
  | InBuffer (offset : Z)
  | Elsewhere (l : list Z).

(** [offset], the contents of [nameValueBuffer], and [nvOffset]. *)
Record Cursor := MkCursor { cu_offset : Z; cu_buffer : list Z; cu_nvOffset : Z }.

(** A string literal (section 5.2): where it was put, its length, the cursor
    after it.  [capacity] is [nameValueCapacity]. *)
Definition decode_string (block : list Z) (capacity : Z) (c : Cursor) : Result (Part * Z * Cursor) :=
  let offset := cu_offset c in
  if offset >=? zlen block then Err STATUS_INVALID_NETWORK_RESPONSE
  else
    let huffman := negb (Z.land (zget block offset) 0x80 =? 0) in
    '(strLen, consumed) ← HpackDecodeInteger (Bytes (zdrop offset block)) 7;
    let offset := offset +! consumed in
    if negb (RangeFits offset strLen (zlen block)) then Err STATUS_INVALID_NETWORK_RESPONSE
    else
      let nvOffset := cu_nvOffset c in
      if huffman then
        match MultiplySize strLen 2 with
        | None => Err STATUS_BUFFER_TOO_SMALL
        | Some huffmanCapacityHint =>
            if negb (RangeFits nvOffset huffmanCapacityHint capacity) then Err STATUS_BUFFER_TOO_SMALL
            else
              text ← HpackHuffmanDecode (Bytes (zsub block offset strLen)) (capacity -! nvOffset);
              Ok (InBuffer nvOffset, zlen text,
                  MkCursor (offset +! strLen) (mem_copy (cu_buffer c) nvOffset text) (nvOffset +! zlen text))
        end
      else if negb (RangeFits nvOffset strLen capacity) then Err STATUS_BUFFER_TOO_SMALL
      else
        Ok (InBuffer nvOffset, strLen,
            MkCursor (offset +! strLen) (mem_copy (cu_buffer c) nvOffset (zsub block offset strLen))
              (nvOffset +! strLen)).

(** An index above 0 of the static or the dynamic table. *)
Definition lookup_field (index : Z) (t : HpackDynamicTable) : Result (list Z * list Z) :=
  if index <=? HpackStaticTableSize then Ok (static_field (index -! 1))
  else
    match Lookup (index -! HpackStaticTableSize -! 1) t with
    | None => Err STATUS_INVALID_NETWORK_RESPONSE
    | Some field => Ok field
    end.

Definition decode_indexed (block : list Z) (t : HpackDynamicTable) (c : Cursor)
    : Result (Part * Z * Part * Z * Cursor) :=
  '(index, consumed) ← HpackDecodeInteger (Bytes (zdrop (cu_offset c) block)) 7;
  if index =? 0 then Err STATUS_INVALID_NETWORK_RESPONSE
  else
    '(name, value) ← lookup_field index t;
    Ok (Elsewhere name, zlen name, Elsewhere value, zlen value,
        MkCursor (cu_offset c +! consumed) (cu_buffer c) (cu_nvOffset c)).

(** A literal field, with incremental indexing ([prefixBits] 6) or without (4). *)
Definition decode_literal (prefixBits : Z) (block : list Z) (capacity : Z) (t : HpackDynamicTable) (c : Cursor)
    : Result (Part * Z * Part * Z * Cursor) :=
  '(index, consumed) ← HpackDecodeInteger (Bytes (zdrop (cu_offset c) block)) prefixBits;
  let c := MkCursor (cu_offset c +! consumed) (cu_buffer c) (cu_nvOffset c) in
  '(name, nameLen, c) ←
    (if index >? 0 then
       '(name, _) ← lookup_field index t; Ok (Elsewhere name, zlen name, c)
     else decode_string block capacity c);
  '(value, valueLen, c) ← decode_string block capacity c;
  Ok (name, nameLen, value, valueLen, c).

(** Where the part is in the buffer, copied there unless it is already. *)
Definition MaterializeHeaderPart (source : Part) (length capacity : Z) (c : Cursor) : Result (Z * Cursor) :=
  let inRange := match source with
                 | InBuffer o => negb (capacity =? 0) && (0 <=? o) && (o <? capacity)
                 | Elsewhere _ => false
                 end in
  match source, inRange with
  | InBuffer o, true => Ok (o, c)
  | _, _ =>
      if negb (RangeFits (cu_nvOffset c) length capacity) then Err STATUS_BUFFER_TOO_SMALL
      else
        let bytes := match source with InBuffer o => zsub (cu_buffer c) o length | Elsewhere l => ztake length l end in
        Ok (cu_nvOffset c,
            MkCursor (cu_offset c) (mem_copy (cu_buffer c) (cu_nvOffset c) bytes) (cu_nvOffset c +! length))
  end.

(** [headers[hdrIdx]]: the data pointers are offsets into the buffer. *)
Record HttpHeaderRef := MkHeaderRef { hr_Name : Z; hr_NameLength : Z; hr_Value : Z; hr_ValueLength : Z }.

(** The variables of the loop and the table. *)
Record Decoding := MkDecoding {
  dc_cursor : Cursor;
  dc_headers : list HttpHeaderRef;
  dc_headerListSize : Z;
  dc_allowTableSizeUpdate : bool;
  dc_table : HpackDynamicTable;
}.
#[export] Instance Decoding_eta : Eta Decoding := fun x =>
  MkDecoding (dc_cursor x) (dc_headers x) (dc_headerListSize x) (dc_allowTableSizeUpdate x) (dc_table x).

Section decode.
(** The arguments of the call; [alloc i] says whether the two allocations of
    the insertion for header [i] succeed. *)
Context (block : list Z) (headerCapacity nameValueCapacity maxHeaderListSize maxTableSize : Z)
        (alloc : Z -> bool * bool).

(** The end of the loop body: materialise, count, insert, emit. *)
Definition emit_field (name : Part) (nameLen : Z) (value : Part) (valueLen : Z) (addToTable : bool)
    (c : Cursor) (st : Decoding) : NTSTATUS * Decoding :=
  match MaterializeHeaderPart name nameLen nameValueCapacity c with
  | Err s => (s, st)
  | Ok (outName, c) =>
      match MaterializeHeaderPart value valueLen nameValueCapacity c with
      | Err s => (s, st)
      | Ok (outValue, c) =>
          match AddHeaderListSize nameLen valueLen maxHeaderListSize (dc_headerListSize st) with
          | None => (STATUS_INVALID_NETWORK_RESPONSE, st)
          | Some headerListSize =>
              let hdrIdx := zlen (dc_headers st) in
              let '(insertStatus, table) :=
                if addToTable then
                  Insert (alloc hdrIdx).1 (alloc hdrIdx).2
                    (External (zsub (cu_buffer c) outName nameLen)) nameLen
                    (External (zsub (cu_buffer c) outValue valueLen)) valueLen (dc_table st)
                else (STATUS_SUCCESS, dc_table st) in
              let st := st <| dc_table := table |> in
              if negb (NT_SUCCESS insertStatus) then (insertStatus, st)
              else if hdrIdx >=? headerCapacity then (STATUS_BUFFER_TOO_SMALL, st)
              else
                (STATUS_SUCCESS,
                 MkDecoding c (dc_headers st ++ [MkHeaderRef outName nameLen outValue valueLen])
                   headerListSize false table)
          end
      end
  end.

(** One turn of the loop, at [offset < blockLen]. *)
Definition decode_step (st : Decoding) : NTSTATUS * Decoding :=
  let c := dc_cursor st in
  let byte := zget block (cu_offset c) in
  if negb (Z.land byte 0x80 =? 0) then
    match decode_indexed block (dc_table st) c with
    | Err s => (s, st)
    | Ok (name, nameLen, value, valueLen, c) => emit_field name nameLen value valueLen false c st
    end
  else if Z.land byte 0xC0 =? 0x40 then
    match decode_literal 6 block nameValueCapacity (dc_table st) c with
    | Err s => (s, st)
    | Ok (name, nameLen, value, valueLen, c) => emit_field name nameLen value valueLen true c st
    end
  else if (Z.land byte 0xF0 =? 0x00) || (Z.land byte 0xF0 =? 0x10) then
    match decode_literal 4 block nameValueCapacity (dc_table st) c with
    | Err s => (s, st)
    | Ok (name, nameLen, value, valueLen, c) => emit_field name nameLen value valueLen false c st
    end
  else if Z.land byte 0xE0 =? 0x20 then
    if negb (dc_allowTableSizeUpdate st) then (STATUS_INVALID_NETWORK_RESPONSE, st)
    else
      match HpackDecodeInteger (Bytes (zdrop (cu_offset c) block)) 5 with
      | Err s => (s, st)
      | Ok (newSize, consumed) =>
          if newSize >? maxTableSize then (STATUS_INVALID_NETWORK_RESPONSE, st)
          else
            (STATUS_SUCCESS,
             st <| dc_cursor := MkCursor (cu_offset c +! consumed) (cu_buffer c) (cu_nvOffset c) |>
                <| dc_table := UpdateMaxSize newSize (dc_table st) |>)
      end
  else (STATUS_INVALID_NETWORK_RESPONSE, st).

(** [while (offset < blockLen)]; a turn consumes at least one byte. *)
Fixpoint decode_loop (fuel : nat) (st : Decoding) : NTSTATUS * Decoding :=
  if cu_offset (dc_cursor st) <? zlen block then
    match fuel with
    | O => (STATUS_OTHER 0, st)
    | S fuel =>
        match decode_step st with
        | (STATUS_SUCCESS, st) => decode_loop fuel st
        | (s, st) => (s, st)
        end
    end
  else (STATUS_SUCCESS, st).
End decode.

(** The headers, the contents of [nameValueBuffer] and [*nameValueUsed]; the
    pointers to them are not null. *)
Definition Decode (block : span) (headerCapacity : Z) (nameValueBuffer : list Z) (maxHeaderListSize : Z)
    (alloc : Z -> bool * bool) (d : HpackDecoder)
    : Result (list HttpHeaderRef * list Z * Z) * HpackDecoder :=
  if sp_isnull block && (sp_len block >? 0) then (Err STATUS_INVALID_PARAMETER, d)
  else
    let start := MkDecoding (MkCursor 0 nameValueBuffer 0) [] 0 true (hd_table d) in
    let '(status, st) :=
      decode_loop (sp_bytes block) headerCapacity (zlen nameValueBuffer) maxHeaderListSize (hd_maxTableSize d)
        alloc (length (sp_bytes block)) start in
    let d := d <| hd_table := dc_table st |> in
    (if NT_SUCCESS status
     then Ok (dc_headers st, cu_buffer (dc_cursor st), cu_nvOffset (dc_cursor st)) else Err status, d).

(** ** Encoder *)

Record HpackEncoder := MkEncoder {
  he_table : HpackDynamicTable;
  he_maxTableSize : Z;
  he_pendingTableSize : Z;
  he_tableSizeUpdatePending : bool;
}.
#[export] Instance HpackEncoder_eta : Eta HpackEncoder := fun x =>
  MkEncoder (he_table x) (he_maxTableSize x) (he_pendingTableSize x) (he_tableSizeUpdatePending x).

Definition Encoder_Initialize (maxTableSize : Z) (data_ok entries_ok : bool) (e : HpackEncoder)
    : NTSTATUS * HpackEncoder :=
  let '(status, table) := Initialize maxTableSize data_ok entries_ok (he_table e) in
  (status, MkEncoder table maxTableSize maxTableSize false).

Definition Encoder_Reset (e : HpackEncoder) : HpackEncoder :=
  e <| he_table := Reset (he_table e) |> <| he_tableSizeUpdatePending := false |>.

Definition Encoder_UpdateMaxTableSize (maxTableSize : Z) (e : HpackEncoder) : HpackEncoder :=
  if he_maxTableSize e =? maxTableSize then e
  else MkEncoder (UpdateMaxSize maxTableSize (he_table e)) maxTableSize maxTableSize true.

(** The two loops of [FindMatch]: [lookup i] for the indices [i], reported as
    [base + i + 1].  [inl] is a full match, [inr] the first name match so far. *)
Fixpoint find_match_loop (lookup : Z -> option (list Z * list Z)) (base : Z) (name value : list Z)
    (indices : list Z) (nameMatchIdx : Z) : Z + Z :=
  match indices with
  | [] => inr nameMatchIdx
  | i :: indices =>
      match lookup i with
      | Some (eName, eValue) =>
          if NameEquals name eName then
            if ValueEquals value eValue then inl (base +! i +! 1)
            else find_match_loop lookup base name value indices
                   (if nameMatchIdx =? 0 then base +! i +! 1 else nameMatchIdx)
          else find_match_loop lookup base name value indices nameMatchIdx
      | None => find_match_loop lookup base name value indices nameMatchIdx
      end
  end.

(** The index, 0 for no match, and [*nameOnly]. *)
Definition FindMatch (name value : list Z) (t : HpackDynamicTable) : Z * bool :=
  match find_match_loop (fun i => Some (static_field i)) 0 name value (seqZ 0 HpackStaticTableSize) 0 with
  | inl index => (index, false)
  | inr nameMatchIdx =>
      match find_match_loop (fun i => Lookup i t) HpackStaticTableSize name value (seqZ 0 (EntryCount t))
              nameMatchIdx with
      | inl index => (index, false)
      | inr nameMatchIdx => if nameMatchIdx >? 0 then (nameMatchIdx, true) else (0, false)
      end
  end.

(** [out] is [dest[0 .. *offset)]. *)
Definition EncodeHeaderString (data : span) (capacity : Z) (out : list Z) : Result (list Z) :=
  let length := sp_len data in
  if sp_isnull data && negb (length =? 0) then Err STATUS_INVALID_PARAMETER
  else if zlen out >? capacity then Err STATUS_BUFFER_TOO_SMALL
  else
    let huffLen := HpackHuffmanEncodedLength (sp_bytes data) in
    if (huffLen <? length) && (length >? 0) then
      number ← HpackEncodeInteger (u32 huffLen) 0x80 7 (capacity -! zlen out);
      let out := out ++ number in
      code ← HpackHuffmanEncode data (capacity -! zlen out);
      Ok (out ++ code)
    else
      number ← HpackEncodeInteger (u32 length) 0x00 7 (capacity -! zlen out);
      let out := out ++ number in
      if negb (length =? 0) then
        if negb (RangeFits (zlen out) length capacity) then Err STATUS_BUFFER_TOO_SMALL
        else Ok (out ++ sp_bytes data)
      else Ok out.

(** [http1::HttpHeader] *)
Record HttpHeader := MkHeader { h_Name : span; h_Value : span }.

(** A literal: the name by index or as a string, then the value. *)
Definition encode_literal (matchIdx : Z) (neverIndex : bool) (hdr : HttpHeader) (capacity : Z) (out : list Z)
    : Result (list Z) :=
  let literalPrefix := if neverIndex then 0x10 else 0x40 in
  let literalPrefixBits := if neverIndex then 4 else 6 in
  out ←
    (if matchIdx >? 0 then
       number ← HpackEncodeInteger (u32 matchIdx) literalPrefix literalPrefixBits (capacity -! zlen out);
       Ok (out ++ number)
     else if zlen out >=? capacity then Err STATUS_BUFFER_TOO_SMALL
     else EncodeHeaderString (h_Name hdr) capacity (out ++ [literalPrefix]));
  EncodeHeaderString (h_Value hdr) capacity out.

(** The loop body: the output and the table. *)
Definition encode_header (ok : bool * bool) (capacity : Z) (hdr : HttpHeader) (out : list Z)
    (t : HpackDynamicTable) : Result (list Z) * HpackDynamicTable :=
  if sp_isnull (h_Name hdr) || (sp_len (h_Name hdr) =? 0)
     || (sp_isnull (h_Value hdr) && negb (sp_len (h_Value hdr) =? 0))
  then (Err STATUS_INVALID_PARAMETER, t)
  else
    let name := sp_bytes (h_Name hdr) in
    let value := sp_bytes (h_Value hdr) in
    let '(matchIdx, nameOnly) := FindMatch name value t in
    let neverIndex := IsSensitiveHeaderName name in
    if (matchIdx >? 0) && negb nameOnly && negb neverIndex then
      (number ← HpackEncodeInteger (u32 matchIdx) 0x80 7 (capacity -! zlen out); Ok (out ++ number), t)
    else
      match encode_literal matchIdx neverIndex hdr capacity out with
      | Err s => (Err s, t)
      | Ok out =>
          if negb neverIndex then
            let '(status, t) := Insert ok.1 ok.2 (External name) (sp_len (h_Name hdr))
                                  (External value) (sp_len (h_Value hdr)) t in
            if negb (NT_SUCCESS status) then (Err status, t) else (Ok out, t)
          else (Ok out, t)
      end.

Fixpoint encode_loop (alloc : Z -> bool * bool) (capacity i : Z) (headers : list HttpHeader) (out : list Z)
    (t : HpackDynamicTable) : Result (list Z) * HpackDynamicTable :=
  match headers with
  | [] => (Ok out, t)
  | hdr :: headers =>
      match encode_header (alloc i) capacity hdr out t with
      | (Ok out, t) => encode_loop alloc capacity (i +! 1) headers out t
      | (Err s, t) => (Err s, t)
      end
  end.

(** Returns the block; [dest] is not null. *)
Definition Encode (headers : list HttpHeader) (capacity : Z) (alloc : Z -> bool * bool) (e : HpackEncoder)
    : Result (list Z) * HpackEncoder :=
  match (if he_tableSizeUpdatePending e
         then HpackEncodeInteger (u32 (he_pendingTableSize e)) 0x20 5 (capacity -! 0) else Ok []) with
  | Err s => (Err s, e)
  | Ok out =>
      let e := if he_tableSizeUpdatePending e then e <| he_tableSizeUpdatePending := false |> else e in
      let '(r, table) := encode_loop alloc capacity 0 headers out (he_table e) in
      (r, e <| he_table := table |>)
  end.

(** ** Comparison of names *)

(** Equal up to the case of ASCII letters. *)
Definition same_name (a b : list Z) : Prop := map lower a = map lower b.
Definition same_field (f g : list Z * list Z) : Prop := same_name f.1 g.1 /\ f.2 = g.2.

#[export] Instance same_name_equiv : Equivalence same_name.
Proof. split; unfold same_name; repeat intro; congruence. Qed.
#[export] Instance same_field_equiv : Equivalence same_field.
Proof.
  split.
  - intros f. by split.
  - intros f g [H1 H2]. by split.
  - intros f g h [H1 H2] [H3 H4]. split; [by transitivity g.1|congruence].
Qed.

Lemma same_name_length a b : same_name a b -> zlen a = zlen b.
Proof. intros H. apply (f_equal zlen) in H. by rewrite !zlen_map in H. Qed.
Lemma same_field_size f g : same_field f g -> field_size f = field_size g.
Proof. intros [H1 H2]. unfold field_size. apply same_name_length in H1. rewrite H2. lia. Qed.

Lemma NameEquals_spec a b : NameEquals a b = true <-> same_name a b.
Proof.
  unfold NameEquals, same_name.
  assert (Hloop : forall a b, length a = length b -> (name_equals_loop a b = true <-> map lower a = map lower b)).
  { clear. induction a as [|x a IH]; intros [|y b] Hl; try done. cbn [name_equals_loop map] in *.
    destruct (lower x =? lower y) eqn:E; cbn [negb]; bool_prop.
    - rewrite IH by (simpl in Hl; lia). rewrite E. split; [by intros ->|by intros [=]].
    - split; [done|by intros [=]]. }
  destruct (zlen a =? zlen b) eqn:E; cbn [negb]; bool_prop.
  - apply Hloop. unfold zlen in E. lia.
  - split; [done|]. intros H. apply (f_equal zlen) in H. by rewrite !zlen_map in H.
Qed.

Lemma ValueEquals_spec a b : ValueEquals a b = true <-> a = b.
Proof.
  unfold ValueEquals.
  assert (Hloop : forall a b, length a = length b -> (value_equals_loop a b = true <-> a = b)).
  { clear. induction a as [|x a IH]; intros [|y b] Hl; try done. cbn [value_equals_loop] in *.
    destruct (x =? y) eqn:E; cbn [negb]; bool_prop.
    - rewrite IH by (simpl in Hl; lia). rewrite E. split; [by intros ->|by intros [=]].
    - split; [done|by intros [=]]. }
  destruct (zlen a =? zlen b) eqn:E; cbn [negb]; bool_prop.
  - apply Hloop. unfold zlen in E. lia.
  - split; [done|]. by intros ->.
Qed.

(** The lengths of the static table are the lengths of its strings. *)
Lemma static_table_lengths :
  length HpackStaticTable = 61%nat
  /\ forallb (fun e => (zlen (st_Name e) =? st_NameLength e) && (zlen (st_Value e) =? st_ValueLength e))
       HpackStaticTable = true.
Proof. by vm_compute. Qed.

(** ** Tables of the two sides

    [sub_table l k]: the fields [l] of the encoder are, up to the case of the
    names, the newest fields of the decoder. *)
Definition sub_table (l k : list (list Z * list Z)) : Prop :=
  exists k1 k2, k = k1 ++ k2 /\ Forall2 same_field l k1.

Lemma sub_table_fit limit l k : sub_table l k -> sub_table (fit field_size limit l) (fit field_size limit k).
Proof.
  intros (k1 & k2 & -> & H). revert limit. induction H as [|x y l k1 Hxy H IH]; intros limit.
  - by exists [], (fit field_size limit k2).
  - cbn [fit app]. rewrite (same_field_size x y Hxy). destruct (_ <=? _).
    + destruct (IH (limit - field_size y)) as (m1 & m2 & -> & Hm). exists (y :: m1), m2. split; [done|by constructor].
    + by exists [], [].
Qed.

Lemma sub_table_cons f g l k : same_field f g -> sub_table l k -> sub_table (f :: l) (g :: k).
Proof. intros Hfg (k1 & k2 & -> & H). exists (g :: k1), k2. split; [done|by constructor]. Qed.

Lemma sub_table_prefix l' l k : l' `prefix_of` l -> sub_table l k -> sub_table l' k.
Proof.
  intros [m ->] (k1 & k2 & -> & H). apply Forall2_app_inv_l in H as (m1 & m2 & H1 & _ & ->).
  exists m1, (m2 ++ k2). by rewrite app_assoc.
Qed.

Lemma sub_table_lookup l k i f : sub_table l k -> l !! i = Some f -> exists g, k !! i = Some g /\ same_field f g.
Proof.
  intros (k1 & k2 & -> & H) Hi. destruct (Forall2_lookup_l _ _ _ _ _ H Hi) as (g & Hg & Hfg).
  exists g. split; [by apply lookup_app_l_Some|done].
Qed.

(** ** Search *)

Lemma find_match_loop_spec lookup base name value indices : forall acc,
  (forall i, In i indices -> 0 <= base + i /\ base + i + 1 < 2 ^ 64) -> 0 <= acc ->
  match find_match_loop lookup base name value indices acc with
  | inl r => exists i n, In i indices /\ r = base + i + 1 /\ lookup i = Some (n, value) /\ same_name name n
  | inr r => r = acc \/ exists i n v, In i indices /\ r = base + i + 1 /\ lookup i = Some (n, v) /\ same_name name n
  end.
Proof.
  induction indices as [|i indices IH]; intros acc Hb Hacc; [by left|]. cbn [find_match_loop].
  assert (Hb' : forall j, In j indices -> 0 <= base + j /\ base + j + 1 < 2 ^ 64) by (intros; apply Hb; by right).
  destruct (Hb i) as [Hb1 Hb2]; [by left|].
  assert (Hgen : forall acc', 0 <= acc' -> (acc' = acc \/ exists i0 n v, In i0 (i :: indices) /\ acc' = base + i0 + 1
      /\ lookup i0 = Some (n, v) /\ same_name name n) ->
    match find_match_loop lookup base name value indices acc' with
    | inl r => exists j n, In j (i :: indices) /\ r = base + j + 1 /\ lookup j = Some (n, value) /\ same_name name n
    | inr r => r = acc \/ exists j n v, In j (i :: indices) /\ r = base + j + 1 /\ lookup j = Some (n, v) /\ same_name name n
    end).
  { intros acc' Ha Hor. specialize (IH acc' Hb' Ha). destruct (find_match_loop _ _ _ _ _ _) as [r|r].
    - destruct IH as (j & n & Hj & Hr). exists j, n. split; [by right|done].
    - destruct IH as [->|(j & n & v & Hj & Hr)]; [done|]. right. exists j, n, v. split; [by right|done]. }
  destruct (lookup i) as [[n v]|] eqn:El; [|apply Hgen; [done|by left]].
  destruct (NameEquals name n) eqn:En; [|apply Hgen; [done|by left]]. apply NameEquals_spec in En.
  rewrite (u64_id (base + i)), (u64_id (base + i + 1)) by lia.
  destruct (ValueEquals value v) eqn:Ev.
  - apply ValueEquals_spec in Ev as ->. exists i, n. split_and!; try done. by left.
  - destruct (acc =? 0); apply Hgen; [lia| |done|by left]. right. exists i, n, v. split_and!; try done. by left.
Qed.

(** An index the encoder finds denotes a field of that name, and of that value
    unless only the name matched. *)
Lemma FindMatch_spec name value t idx nameOnly :
  table_ok t -> FindMatch name value t = (idx, nameOnly) ->
  (idx = 0 /\ nameOnly = false)
  \/ (1 <= idx < 2 ^ 32 /\ exists n v, lookup_field idx t = Ok (n, v) /\ same_name name n
        /\ (nameOnly = false -> v = value)
        /\ (idx <= 61 \/ fields t !! Z.to_nat (idx - 62) = Some (n, v))).
Proof.
  intros [Hwf Hcur] H. unfold FindMatch in H. pose proof Hwf as [].
  pose proof (count_bound (ht_dataBuffer t) (table_ring t)) as Hcb. fold (fields t) in Hcb.
  unfold table_ring in Hcb. rewrite ring_length in Hcb by lia. unfold HpackEntryOverhead in Hcb.
  assert (Hin : forall i n, In i (seqZ 0 n) -> 0 <= i < n).
  { intros i n Hi. apply list_elem_of_In, elem_of_seqZ in Hi. lia. }
  pose proof (find_match_loop_spec (fun i => Some (static_field i)) 0 name value (seqZ 0 HpackStaticTableSize) 0) as Hs.
  unfold HpackStaticTableSize in *.
  specialize (Hs ltac:(intros i Hi; apply Hin in Hi; lia) ltac:(done)).
  assert (Hstat : forall i, 0 <= i < 61 -> lookup_field (i + 1) t = Ok (static_field i)).
  { intros i Hi. unfold lookup_field, HpackStaticTableSize. destruct (_ <=? _) eqn:E; [|bool_lia].
    rewrite u64_id by lia. by replace (i + 1 - 1) with i by lia. }
  assert (Hdyn : forall i f, 0 <= i < ht_entryCount t -> Lookup i t = Some f ->
    lookup_field (61 + i + 1) t = Ok f /\ fields t !! Z.to_nat (61 + i + 1 - 62) = Some f).
  { intros i f Hi Hl. unfold lookup_field, HpackStaticTableSize. destruct (_ <=? 61) eqn:E; [bool_lia|].
    rewrite (u64_id (_ - 61)), u64_id by lia. replace (61 + i + 1 - 61 - 1) with i by lia. rewrite Hl. split; [done|].
    rewrite <- Hl, Lookup_spec by (done || lia). f_equal. lia. }
  destruct (find_match_loop (fun i => Some (static_field i)) _ _ _ _ _) as [r|r].
  { injection H as <- <-. destruct Hs as (i & n & Hi & -> & Hl & Hn). apply Hin in Hi. right. split; [lia|].
    apply (inj Some) in Hl. exists n, value. rewrite Z.add_0_l, Hstat, Hl by lia. split_and!; try done. left. lia. }
  assert (Hr0 : 0 <= r <= 61) by (destruct Hs as [->|(i & n & v & Hi & -> & _)]; [lia|apply Hin in Hi; lia]).
  pose proof (find_match_loop_spec (fun i => Lookup i t) 61 name value (seqZ 0 (EntryCount t)) r) as Hd.
  unfold EntryCount in *. specialize (Hd ltac:(intros i Hi; apply Hin in Hi; lia) ltac:(lia)).
  destruct (find_match_loop (fun i => Lookup i t) _ _ _ _ _) as [r'|r'].
  { injection H as <- <-. destruct Hd as (i & n & Hi & -> & Hl & Hn). apply Hin in Hi. right. split; [lia|].
    destruct (Hdyn i _ Hi Hl) as [Hl1 Hl2]. exists n, value. split_and!; try done. by right. }
  destruct (r' >? 0) eqn:E; bool_prop; injection H as <- <-; [|by left]. right.
  destruct Hd as [->|(i & n & v & Hi & -> & Hl & Hn)].
  - destruct Hs as [->|(i & n & v & Hi & -> & Hl & Hn)]; [lia|]. apply Hin in Hi. split; [lia|].
    apply (inj Some) in Hl. exists n, v. rewrite Z.add_0_l, Hstat, Hl by lia. split_and!; try done. left. lia.
  - apply Hin in Hi. destruct (Hdyn i _ Hi Hl) as [Hl1 Hl2]. split; [lia|]. exists n, v. split_and!; try done. by right.
Qed.

(** The decoder finds the same field at that index. *)
Lemma lookup_synced te td idx n v :
  table_ok te -> table_ok td -> sub_table (fields te) (fields td) -> 1 <= idx < 2 ^ 32 ->
  lookup_field idx te = Ok (n, v) ->
  (idx <= 61 \/ fields te !! Z.to_nat (idx - 62) = Some (n, v)) ->
  exists n', lookup_field idx td = Ok (n', v) /\ same_name n n'.
Proof.
  intros Hte [Hwf _] Hsub Hidx Hl Hor. unfold lookup_field, HpackStaticTableSize in *.
  destruct (idx <=? 61) eqn:E; bool_prop; [by exists n|]. destruct Hor as [?|Hor]; [lia|].
  destruct (sub_table_lookup _ _ _ _ Hsub Hor) as ([n' v'] & Hg & Hname & Hv). cbn in Hname, Hv. subst v'.
  exists n'. split; [|done]. rewrite (u64_id (idx - 61)), u64_id by lia.
  rewrite Lookup_spec by (done || lia). replace (idx - 61 - 1) with (idx - 62) by lia. by rewrite Hg.
Qed.

(** ** Ranges and sizes *)

Lemma RangeFits_true offset length capacity :
  0 <= offset -> 0 <= length -> offset + length <= capacity -> capacity < 2 ^ 64 ->
  RangeFits offset length capacity = true.
Proof.
  intros. unfold RangeFits. rewrite u64_id by lia. apply andb_true_iff. rewrite !Z.leb_le. lia.
Qed.
Lemma RangeFits_inv offset length capacity :
  0 <= offset -> capacity < 2 ^ 64 -> RangeFits offset length capacity = true -> offset + length <= capacity.
Proof. intros Ho Hc H. unfold RangeFits in H. bool_prop. rewrite u64_id in * by lia. lia. Qed.

Lemma MultiplySize_2 n : 0 <= n < 2 ^ 62 -> MultiplySize n 2 = Some (n * 2).
Proof.
  intros Hn. unfold MultiplySize. destruct (negb _ && _) eqn:E.
  - bool_prop. assert (2 <= MAXU64 / n); [|lia]. apply Z.div_le_lower_bound; unfold MAXU64; lia.
  - by rewrite u64_id by lia.
Qed.

Lemma AddHeaderListSize_ok n v limit acc :
  0 <= acc -> limit < 2 ^ 64 -> acc + field_size (n, v) <= limit ->
  AddHeaderListSize (zlen n) (zlen v) limit acc = Some (acc + field_size (n, v)).
Proof.
  intros Ha Hlim Hfit. pose proof (zlen_nonneg n). pose proof (zlen_nonneg v).
  unfold field_size, HpackEntryOverhead in *. cbn [fst snd] in *. unfold AddHeaderListSize, MaxSizeT, MAXU64, HpackEntryOverhead.
  rewrite (u64_id (2 ^ 64 - 1 - zlen v)) by lia. destruct (zlen n >? _) eqn:E1; [bool_lia|].
  rewrite (u64_id (zlen n + zlen v)), (u64_id (2 ^ 64 - 1 - 32)) by lia. destruct (zlen n + zlen v >? _) eqn:E2; [bool_lia|].
  rewrite (u64_id (zlen n + zlen v + 32)) by lia. rewrite (u64_id (2 ^ 64 - 1 - _)) by lia.
  destruct (acc >? _) eqn:E3; [bool_lia|]. rewrite (u64_id (limit - _)) by lia. rewrite u64_id by lia.
  destruct (_ && _) eqn:E4; [|done]. bool_prop. exfalso.
  match goal with H : (_ || _)%bool = true |- _ => apply orb_true_iff in H as [H|H] end; bool_lia.
Qed.

(** ** Strings, on the wire and back *)

(** A span of bytes with a pointer unless it is empty. *)
Definition span_ok (s : span) : Prop := match s with Null n => n = 0 | Bytes l => bytes l /\ zlen l < 2 ^ 30 end.

Lemma span_ok_facts s :
  span_ok s -> bytes (sp_bytes s) /\ zlen (sp_bytes s) < 2 ^ 30 /\ sp_len s = zlen (sp_bytes s).
Proof. destruct s as [n|l]; [intros ->; split_and!; [apply Forall_nil_2|done|done]|intros []; by split_and!]. Qed.

(** The length in front of a string, and the encoding flag. *)
Lemma string_prefix flag len capacity number pre tail :
  is_u32 len -> flag = 0 \/ flag = 0x80 -> HpackEncodeInteger len flag 7 capacity = Ok number ->
  zlen (pre ++ number ++ tail) < 2 ^ 62 ->
  (zlen pre >=? zlen (pre ++ number ++ tail)) = false
  /\ negb (Z.land (zget (pre ++ number ++ tail) (zlen pre)) 0x80 =? 0) = negb (flag =? 0)
  /\ HpackDecodeInteger (Bytes (zdrop (zlen pre) (pre ++ number ++ tail))) 7 = Ok (len, zlen number)
  /\ 0 < zlen number <= capacity.
Proof.
  intros Hlen Hflag H Hz. assert (H' := H). apply integer_encoded in H as (_ & Hl & Hcap & Hp & Hdec); [|done|by split].
  pose proof (zlen_nonneg tail). split_and!.
  - rewrite !zlen_app. destruct (_ >=? _) eqn:E; [bool_lia|done].
  - rewrite zget_app_r, Z.sub_diag, zget_app_l by lia. change (prefix_mask 7) with 0x80 in Hp. rewrite Hp.
    by destruct Hflag as [-> | ->].
  - rewrite zdrop_app_len. apply Hdec.
  - lia.
  - lia.
Qed.

Lemma zsub_middle {A} (l k m : list A) : zsub (l ++ k ++ m) (zlen l) (zlen k) = k.
Proof. unfold zsub. rewrite zdrop_app_len, ztake_app_len. done. Qed.
Lemma zsub_second {A} (l k m r : list A) : zsub (l ++ (k ++ m) ++ r) (zlen l + zlen k) (zlen m) = m.
Proof. rewrite <- zlen_app. rewrite <- (app_assoc k), app_assoc. apply zsub_middle. Qed.

Lemma string_roundtrip s capacity out res :
  span_ok s -> zlen out <= capacity < 2 ^ 62 -> EncodeHeaderString s capacity out = Ok res ->
  let l := sp_bytes s in
  exists chunk, res = out ++ chunk /\ 0 < zlen chunk /\ zlen res <= capacity
    /\ forall pre rest room buffer nv,
        zlen (pre ++ chunk ++ rest) < 2 ^ 62 -> 0 <= nv -> nv + 2 * zlen l <= room -> room < 2 ^ 62 ->
        decode_string (pre ++ chunk ++ rest) room (MkCursor (zlen pre) buffer nv)
        = Ok (InBuffer nv, zlen l, MkCursor (zlen pre + zlen chunk) (mem_copy buffer nv l) (nv + zlen l)).
Proof.
  intros Hs Hcap H l. destruct (span_ok_facts s Hs) as (Hl & Hlen & Hsl). fold l in Hl, Hlen, Hsl.
  pose proof (zlen_nonneg l). pose proof (zlen_nonneg out). unfold EncodeHeaderString in H. rewrite Hsl in H. fold l in H.
  destruct (sp_isnull s && _); [done|]. destruct (_ >? capacity) eqn:E0; [done|]. bool_prop.
  rewrite (u64_id (capacity - zlen out)) in H by lia.
  assert (Hhl : 0 <= HpackHuffmanEncodedLength l < 2 ^ 32).
  { rewrite encoded_length by (done || lia). pose proof (source_bits_length l Hl).
    split; [apply Z.div_pos; lia|]. apply Z.div_lt_upper_bound; lia. }
  destruct ((_ <? _) && _) eqn:E1.
  - bool_prop. apply bind_Ok in H as (number & Hnum & H). rewrite (u32_id (HpackHuffmanEncodedLength l)) in Hnum by done.
    apply bind_Ok in H as (code & Hcode & H). injection H as <-.
    assert (Hnull : HpackHuffmanEncode s = HpackHuffmanEncode (Bytes l)) by (by destruct s; [cbn in Hs; subst|]).
    rewrite Hnull in Hcode. assert (Hnl : zlen number <= capacity - zlen out).
    { by apply integer_encoded in Hnum as (_ & _ & ? & _); [|done|by split]. }
    rewrite u64_id in Hcode by (rewrite zlen_app; pose proof (zlen_nonneg number); lia). rewrite zlen_app in Hcode.
    pose proof (encoded_length_exact l (capacity - (zlen out + zlen number)) Hl ltac:(lia) ltac:(lia)) as Hcl.
    pose proof (encode_spec l (capacity - (zlen out + zlen number)) ltac:(lia)) as Hcs.
    rewrite Hcode in Hcl, Hcs. destruct Hcs as (_ & Hcc & _).
    exists (number ++ code). rewrite <- app_assoc, !zlen_app. pose proof (zlen_nonneg code).
    destruct (string_prefix 0x80 _ _ number [] [] Hhl ltac:(by right) Hnum) as (_ & _ & _ & Hpos).
    { cbn [app]. rewrite app_nil_r. lia. }
    split_and!; [done|lia|lia|]. intros pre rest room buffer nv Hz Hnv Hroom Hroom'.
    pose proof (zlen_nonneg pre). pose proof (zlen_nonneg rest).
    rewrite !zlen_app in Hz.
    destruct (string_prefix 0x80 _ _ number pre (code ++ rest) Hhl ltac:(by right) Hnum) as (Hlt & Hflag & Hdec & _).
    { rewrite !zlen_app. lia. }
    unfold decode_string. cbn [cu_offset cu_buffer cu_nvOffset]. rewrite <- (app_assoc number), Hlt, Hflag, Hdec.
    cbn [mbind Result_bind negb]. change (128 =? 0) with false. cbn [negb].
    rewrite (u64_id (zlen pre + zlen number)) by lia. rewrite <- Hcl.
    rewrite RangeFits_true by (rewrite ?zlen_app; lia). cbn [negb].
    rewrite MultiplySize_2 by lia. rewrite RangeFits_true by lia. cbn [negb].
    rewrite (app_assoc number), zsub_second. rewrite (u64_id (room - nv)) by lia.
    rewrite (huffman_roundtrip l (capacity - (zlen out + zlen number)) code (room - nv)) by (done || lia).
    cbn [mbind Result_bind]. rewrite (u64_id (_ + zlen code)), (u64_id (nv + _)) by lia. do 3 f_equal. lia.
  - apply bind_Ok in H as (number & Hnum & H). rewrite u32_id in Hnum by lia.
    destruct (string_prefix 0 (zlen l) _ number [] [] ltac:(unfold is_u32; lia) ltac:(by left) Hnum) as (_ & _ & _ & Hpos).
    { cbn [app]. rewrite app_nil_r. apply integer_encoded in Hnum; [lia|unfold is_u32; lia|by split]. }
    assert (res = out ++ (number ++ l) /\ zlen out + zlen number + zlen l <= capacity) as [-> Hfit].
    { destruct (negb (zlen l =? 0)) eqn:E2; bool_prop.
      - destruct (negb (RangeFits _ _ _)) eqn:E3; [done|]. bool_prop. injection H as <-.
        apply RangeFits_inv in E3; [|apply zlen_nonneg|lia]. rewrite zlen_app in E3. rewrite <- app_assoc. done.
      - injection H as <-. assert (l = []) as Hln by (destruct l; [done|rewrite zlen_cons in *; pose proof (zlen_nonneg l); lia]).
        rewrite Hln, app_nil_r. change (zlen (@nil Z)) with 0. split; [done|lia]. }
    exists (number ++ l). rewrite !zlen_app. split_and!; [done|lia|lia|].
    intros pre rest room buffer nv Hz Hnv Hroom Hroom'. rewrite !zlen_app in Hz.
    pose proof (zlen_nonneg pre). pose proof (zlen_nonneg rest).
    destruct (string_prefix 0 (zlen l) _ number pre (l ++ rest) ltac:(unfold is_u32; lia) ltac:(by left) Hnum) as (Hlt & Hflag & Hdec & _).
    { rewrite !zlen_app. lia. }
    unfold decode_string. cbn [cu_offset cu_buffer cu_nvOffset]. rewrite <- (app_assoc number), Hlt, Hflag, Hdec.
    cbn [mbind Result_bind negb]. change (0 =? 0) with true. cbn [negb].
    rewrite (u64_id (zlen pre + zlen number)) by lia.
    rewrite RangeFits_true by (rewrite ?zlen_app; lia). cbn [negb]. rewrite RangeFits_true by lia. cbn [negb].
    rewrite (app_assoc number), zsub_second. rewrite (u64_id (_ + zlen l)), (u64_id (nv + _)) by lia. do 3 f_equal. lia.
Qed.

(** ** The name-value buffer *)

(** [b'] extends [b]: what lies below [nv] is unchanged. *)
Definition keeps (nv : Z) (b b' : list Z) : Prop :=
  zlen b' = zlen b /\ forall off n, 0 <= off -> 0 <= n -> off + n <= nv -> zsub b' off n = zsub b off n.

Lemma keeps_refl nv b : keeps nv b b.
Proof. by split. Qed.
Lemma keeps_trans nv nv' b b' b'' : nv <= nv' -> keeps nv b b' -> keeps nv' b' b'' -> keeps nv b b''.
Proof.
  intros Hn [H1 H2] [H3 H4]. split; [lia|]. intros off n Ho Hn' Hb. rewrite H4 by lia. by apply H2.
Qed.
Lemma keeps_copy nv b l : 0 <= nv -> nv + zlen l <= zlen b -> keeps nv b (mem_copy b nv l).
Proof.
  intros Hn Hb. split; [by apply zlen_mem_copy|]. intros off n Ho Hn' Hlim. by apply mem_copy_below.
Qed.
Lemma copy_reads nv b l : 0 <= nv -> nv + zlen l <= zlen b -> zsub (mem_copy b nv l) nv (zlen l) = l.
Proof.
  intros Hn Hb. pose proof (zlen_nonneg l). rewrite <- (Z.add_0_r nv) at 2. rewrite zsub_mem_copy_in by lia.
  unfold zsub. rewrite zdrop_0. by apply ztake_all.
Qed.

(** The bytes a pointer denotes, and the room it takes to put them in the buffer. *)
Definition part_reads (c : Cursor) (p : Part) (l : list Z) : Prop :=
  match p with
  | InBuffer o => 0 <= o /\ o + zlen l <= cu_nvOffset c /\ zsub (cu_buffer c) o (zlen l) = l
  | Elsewhere m => m = l
  end.
Definition part_cost (p : Part) (l : list Z) : Z := match p with InBuffer _ => 0 | Elsewhere _ => zlen l end.

Lemma part_reads_keeps c c' p l :
  keeps (cu_nvOffset c) (cu_buffer c) (cu_buffer c') -> cu_nvOffset c <= cu_nvOffset c' ->
  part_reads c p l -> part_reads c' p l.
Proof.
  destruct p as [o|m]; [|done]. intros [_ Hk] Hn (Ho & Hl & Hr). pose proof (zlen_nonneg l). split_and!; [done|lia|].
  by rewrite Hk by lia.
Qed.

Lemma zsub_0 {A} (l : list A) o : zsub l o 0 = [].
Proof. done. Qed.
Lemma zlen_0_nil {A} (l : list A) : zlen l = 0 -> l = [].
Proof. destruct l; [done|]. rewrite zlen_cons. pose proof (zlen_nonneg l). lia. Qed.

Lemma materialize_ok p l c capacity :
  zlen (cu_buffer c) = capacity -> capacity < 2 ^ 62 -> 0 <= cu_nvOffset c ->
  part_reads c p l -> cu_nvOffset c + part_cost p l <= capacity ->
  exists o c', MaterializeHeaderPart p (zlen l) capacity c = Ok (o, c')
    /\ cu_offset c' = cu_offset c /\ keeps (cu_nvOffset c) (cu_buffer c) (cu_buffer c')
    /\ cu_nvOffset c <= cu_nvOffset c' <= cu_nvOffset c + part_cost p l
    /\ part_reads c' (InBuffer o) l.
Proof.
  intros Hz Hcap Hnv Hr Hcost. pose proof (zlen_nonneg l). unfold MaterializeHeaderPart.
  destruct p as [o|m]; cbn [part_reads part_cost] in *.
  - destruct Hr as (Ho & Hl & Hr). destruct (_ && (o <? capacity)) eqn:E.
    { exists o, c. split_and!; try done; lia || apply keeps_refl. }
    assert (Hl0 : zlen l = 0).
    { apply andb_false_iff in E as [E|E]; [apply andb_false_iff in E as [E|E]|]; bool_prop; lia. }
    rewrite RangeFits_true by lia. cbn [negb]. rewrite Hl0, zsub_0. apply zlen_0_nil in Hl0 as Hl1.
    eexists _, _. split; [done|]. cbn [cu_offset cu_buffer cu_nvOffset]. rewrite u64_id by lia.
    split_and!; try done; try lia. apply keeps_copy; [lia|change (zlen (@nil Z)) with 0; lia].
  - subst m. rewrite RangeFits_true by lia. cbn [negb]. rewrite ztake_all by lia.
    eexists _, _. split; [done|]. cbn [cu_offset cu_buffer cu_nvOffset]. rewrite u64_id by lia.
    split_and!; try done; try lia; [apply keeps_copy; lia|apply copy_reads; lia].
Qed.

(** What an emitted header denotes. *)
Definition reads (c : Cursor) (r : HttpHeaderRef) (f : list Z * list Z) : Prop :=
  hr_NameLength r = zlen f.1 /\ hr_ValueLength r = zlen f.2
  /\ part_reads c (InBuffer (hr_Name r)) f.1 /\ part_reads c (InBuffer (hr_Value r)) f.2.

Lemma reads_keeps c c' r f :
  keeps (cu_nvOffset c) (cu_buffer c) (cu_buffer c') -> cu_nvOffset c <= cu_nvOffset c' -> reads c r f -> reads c' r f.
Proof. intros Hk Hn (H1 & H2 & H3 & H4). split_and!; [done|done|by eapply part_reads_keeps..]. Qed.

(** The end of the loop body succeeds when there is room. *)
Lemma emit_ok name n value v (addToTable : bool) c st headerCapacity capacity limit alloc :
  zlen (cu_buffer c) = capacity -> capacity < 2 ^ 62 -> 0 <= cu_nvOffset c ->
  part_reads c name n -> part_reads c value v ->
  cu_nvOffset c + part_cost name n + part_cost value v <= capacity ->
  zlen n < 2 ^ 32 -> zlen v < 2 ^ 32 ->
  0 <= dc_headerListSize st -> dc_headerListSize st + field_size (n, v) <= limit -> limit < 2 ^ 64 ->
  zlen (dc_headers st) < headerCapacity ->
  table_ok (dc_table st) -> 0 < ht_entryCapacity (dc_table st) -> (forall i, alloc i = (true, true)) ->
  exists st' r,
    emit_field headerCapacity capacity limit alloc name (zlen n) value (zlen v) addToTable c st = (STATUS_SUCCESS, st')
    /\ cu_offset (dc_cursor st') = cu_offset c
    /\ keeps (cu_nvOffset c) (cu_buffer c) (cu_buffer (dc_cursor st'))
    /\ cu_nvOffset c <= cu_nvOffset (dc_cursor st') <= cu_nvOffset c + part_cost name n + part_cost value v
    /\ dc_headers st' = dc_headers st ++ [r] /\ reads (dc_cursor st') r (n, v)
    /\ dc_headerListSize st' = dc_headerListSize st + field_size (n, v)
    /\ table_ok (dc_table st') /\ 0 < ht_entryCapacity (dc_table st')
    /\ ht_maxSize (dc_table st') = ht_maxSize (dc_table st)
    /\ fields (dc_table st') = if addToTable then fit field_size (ht_maxSize (dc_table st)) ((n, v) :: fields (dc_table st))
                               else fields (dc_table st).
Proof.
  intros Hz Hcap Hnv Hn Hv Hcost Hnl Hvl Hhls Hlim Hlim' Hhc Hok Hec Halloc. unfold emit_field.
  assert (Hcv : 0 <= part_cost value v) by (destruct value; cbn; [lia|apply zlen_nonneg]).
  destruct (materialize_ok name n c capacity) as (o1 & c1 & -> & Ho1 & Hk1 & Hn1 & Hr1); [done..|lia|].
  assert (Hv1 : part_reads c1 value v) by (eapply part_reads_keeps; [exact Hk1|lia|done]).
  assert (Hz1 : zlen (cu_buffer c1) = capacity) by (destruct Hk1; lia).
  destruct (materialize_ok value v c1 capacity) as (o2 & c2 & -> & Ho2 & Hk2 & Hn2 & Hr2); [done|done|lia|done|lia|].
  rewrite AddHeaderListSize_ok by lia.
  assert (Hr1' : part_reads c2 (InBuffer o1) n) by (eapply part_reads_keeps; [exact Hk2|lia|done]).
  assert (Hkeep : keeps (cu_nvOffset c) (cu_buffer c) (cu_buffer c2)) by (eapply keeps_trans; [|exact Hk1|exact Hk2]; lia).
  assert (Hhc' : (zlen (dc_headers st) >=? headerCapacity) = false) by (rewrite Z.geb_leb, Z.leb_gt; lia).
  assert (Hbytes : zsub (cu_buffer c2) o1 (zlen n) = n /\ zsub (cu_buffer c2) o2 (zlen v) = v).
  { destruct Hr1' as (_ & _ & ?), Hr2 as (_ & _ & ?). done. }
  destruct Hbytes as [-> ->]. rewrite Halloc. cbn [fst snd].
  destruct addToTable.
  - destruct (Insert true true _ _ _ _ _) as [s t'] eqn:E.
    destruct (Insert_spec true true n v (dc_table st) s t' Hok ltac:(lia) ltac:(lia) E) as (Hok' & Hm & Hec' & [[-> Hf]|(_ & Hbad & _)]).
    2:{ destruct Hbad as [?|[?|?]]; [done|done|lia]. }
    cbn [NT_SUCCESS negb]. rewrite Hhc'. eexists _, _. split; [done|]. cbn [dc_cursor dc_headers dc_headerListSize dc_table].
    split_and!; try done; try lia.
  - cbn [NT_SUCCESS negb]. rewrite Hhc'. eexists _, _. split; [done|]. cbn [dc_cursor dc_headers dc_headerListSize dc_table].
    split_and!; try done; try lia.
Qed.

(** ** One field, on the wire and back *)

(** The representations do not overlap. *)
Lemma first_byte_classes b :
  is_byte b ->
  (Z.land b 0xC0 = 0x40 -> Z.land b 0x80 = 0)
  /\ (Z.land b 0xF0 = 0x10 -> Z.land b 0x80 = 0 /\ Z.land b 0xC0 <> 0x40)
  /\ (Z.land b 0xE0 = 0x20 -> Z.land b 0x80 = 0 /\ Z.land b 0xC0 <> 0x40 /\ Z.land b 0xF0 <> 0 /\ Z.land b 0xF0 <> 0x10).
Proof.
  intros Hb.
  pose proof (byte_cases (fun b =>
    (negb (Z.land b 0xC0 =? 0x40) || (Z.land b 0x80 =? 0))
    && (negb (Z.land b 0xF0 =? 0x10) || ((Z.land b 0x80 =? 0) && negb (Z.land b 0xC0 =? 0x40)))
    && (negb (Z.land b 0xE0 =? 0x20) || ((Z.land b 0x80 =? 0) && negb (Z.land b 0xC0 =? 0x40)
          && negb (Z.land b 0xF0 =? 0) && negb (Z.land b 0xF0 =? 0x10)))) eq_refl b Hb) as H.
  cbn beta in H. apply andb_true_iff in H as [H H3]. apply andb_true_iff in H as [H1 H2].
  split_and!; intros E.
  - apply orb_true_iff in H1 as [H1|H1]; bool_prop; done.
  - apply orb_true_iff in H2 as [H2|H2]; bool_prop; done.
  - apply orb_true_iff in H3 as [H3|H3]; bool_prop; done.
Qed.

(** The widths and patterns of the two kinds of literal. *)
Definition literal_bits (neverIndex : bool) : Z := if neverIndex then 4 else 6.
Definition literal_pattern (neverIndex : bool) : Z := if neverIndex then 0x10 else 0x40.

Lemma literal_mask b k : Z.land (zget b 0) (prefix_mask (literal_bits k)) = Z.land (literal_pattern k) (prefix_mask (literal_bits k)) ->
  Z.land (zget b 0) (if k then 0xF0 else 0xC0) = literal_pattern k.
Proof. by destruct k. Qed.

(** An index number in front. *)
Lemma index_prefix idx pattern n capacity number pre tail :
  is_u32 idx -> prefix_width n -> HpackEncodeInteger idx pattern n capacity = Ok number ->
  HpackDecodeInteger (Bytes (zdrop (zlen pre) (pre ++ number ++ tail))) n = Ok (idx, zlen number)
  /\ 0 < zlen number <= capacity /\ is_byte (zget number 0)
  /\ Z.land (zget number 0) (prefix_mask n) = Z.land pattern (prefix_mask n).
Proof.
  intros Hi Hn H. apply integer_encoded in H as (Hb & Hl & Hcap & Hp & Hdec); [|done..].
  rewrite zdrop_app_len. split_and!; [apply Hdec|lia|lia|apply zget_byte; [done|lia]|done].
Qed.

Lemma literal_roundtrip neverIndex matchIdx nameOnly te hdr capacity out res :
  let n := sp_bytes (h_Name hdr) in
  let v := sp_bytes (h_Value hdr) in
  table_ok te -> FindMatch n v te = (matchIdx, nameOnly) ->
  span_ok (h_Name hdr) -> span_ok (h_Value hdr) -> zlen out <= capacity < 2 ^ 62 ->
  encode_literal matchIdx neverIndex hdr capacity out = Ok res ->
  exists chunk, res = out ++ chunk /\ 0 < zlen chunk /\ zlen res <= capacity
    /\ is_byte (zget chunk 0) /\ Z.land (zget chunk 0) (if neverIndex then 0xF0 else 0xC0) = literal_pattern neverIndex
    /\ forall pre rest buffer nv td,
        zlen (pre ++ chunk ++ rest) < 2 ^ 62 -> 0 <= nv -> nv + 2 * (zlen n + zlen v) <= zlen buffer ->
        zlen buffer < 2 ^ 62 -> table_ok td -> sub_table (fields te) (fields td) ->
        exists name value n' c',
          decode_literal (literal_bits neverIndex) (pre ++ chunk ++ rest) (zlen buffer) td (MkCursor (zlen pre) buffer nv)
          = Ok (name, zlen n', value, zlen v, c')
          /\ same_name n n' /\ cu_offset c' = zlen pre + zlen chunk
          /\ part_reads c' name n' /\ part_reads c' value v
          /\ keeps nv buffer (cu_buffer c') /\ nv <= cu_nvOffset c'
          /\ cu_nvOffset c' + part_cost name n' + part_cost value v <= nv + zlen n + zlen v.
Proof.
  intros n v Hte Hfind Hsn Hsv Hcap H. destruct (span_ok_facts _ Hsn) as (_ & Hnl & _), (span_ok_facts _ Hsv) as (_ & Hvl & _).
  fold n in Hnl. fold v in Hvl. pose proof (zlen_nonneg n). pose proof (zlen_nonneg v). pose proof (zlen_nonneg out).
  assert (Hbits : prefix_width (literal_bits neverIndex)) by (destruct neverIndex; by split).
  unfold encode_literal in H. apply bind_Ok in H as (mid & Hmid & Hval).
  fold (literal_bits neverIndex) in Hmid. fold (literal_pattern neverIndex) in Hmid.
  destruct (FindMatch_spec n v te matchIdx nameOnly Hte Hfind) as [[-> ->]|(Hidx & en & ev & Hlook & Hname & _ & Hwhere)].
  - (* a new name *)
    change (0 >? 0) with false in Hmid. cbv iota in Hmid.
    destruct (_ >=? capacity) eqn:E; [done|]. bool_prop.
    apply (string_roundtrip _ _ _ _ Hsn) in Hmid as (ch1 & -> & Hp1 & Hc1 & Hd1).
    2:{ rewrite zlen_app. change (zlen [_]) with 1. lia. }
    apply (string_roundtrip _ _ _ _ Hsv) in Hval as (ch2 & -> & Hp2 & Hc2 & Hd2); [|lia].
    fold n in Hd1. fold v in Hd2. exists ([literal_pattern neverIndex] ++ ch1 ++ ch2).
    rewrite !zlen_app in *. change (zlen [_]) with 1 in *. split_and!; try lia.
    + by rewrite <- !app_assoc.
    + by destruct neverIndex.
    + by destruct neverIndex.
    + intros pre rest buffer nv td Hz Hnv Hroom Hroom' Htd Hsub. pose proof (zlen_nonneg pre). pose proof (zlen_nonneg rest).
      rewrite !zlen_app in Hz. change (zlen [_]) with 1 in Hz.
      exists (InBuffer nv), (InBuffer (nv + zlen n)), n,
        (MkCursor (zlen pre + 1 + zlen ch1 + zlen ch2) (mem_copy (mem_copy buffer nv n) (nv + zlen n) v) (nv + zlen n + zlen v)).
      assert (Hfirst : HpackDecodeInteger (Bytes (zdrop (zlen pre) (pre ++ ([literal_pattern neverIndex] ++ ch1 ++ ch2) ++ rest)))
                         (literal_bits neverIndex) = Ok (0, 1)).
      { rewrite zdrop_app_len. by destruct neverIndex. }
      unfold decode_literal. cbn [cu_offset cu_buffer cu_nvOffset]. rewrite Hfirst. cbn [mbind Result_bind].
      change (0 >? 0) with false. cbv iota. rewrite u64_id by lia.
      specialize (Hd1 (pre ++ [literal_pattern neverIndex]) (ch2 ++ rest) (zlen buffer) buffer nv).
      rewrite !zlen_app in Hd1. change (zlen [_]) with 1 in Hd1.
      replace (pre ++ ([literal_pattern neverIndex] ++ ch1 ++ ch2) ++ rest)
        with ((pre ++ [literal_pattern neverIndex]) ++ ch1 ++ ch2 ++ rest) by (by rewrite <- !app_assoc).
      rewrite Hd1 by lia. cbn [mbind Result_bind].
      specialize (Hd2 ((pre ++ [literal_pattern neverIndex]) ++ ch1) rest (zlen buffer) (mem_copy buffer nv n) (nv + zlen n)).
      rewrite !zlen_app in Hd2. change (zlen [_]) with 1 in Hd2. rewrite (app_assoc (pre ++ _)).
      rewrite Hd2 by lia. cbn [mbind Result_bind].
      destruct (two_copies buffer nv n v) as (Hz' & Hr1 & Hr2 & Hbelow); [lia..|].
      cbn [cu_offset cu_buffer cu_nvOffset part_reads part_cost]. split_and!; try done; try lia.
  - (* a name of the tables *)
    destruct (matchIdx >? 0) eqn:E; [|bool_lia]. apply bind_Ok in Hmid as (number & Hnum & [= <-]).
    rewrite u32_id in Hnum by lia. rewrite u64_id in Hnum by lia.
    assert (Hiu : is_u32 matchIdx) by (unfold is_u32; lia).
    destruct (index_prefix _ _ _ _ _ [] [] Hiu Hbits Hnum) as (_ & Hpos & Hbyte & Hpat).
    apply literal_mask in Hpat.
    apply (string_roundtrip _ _ _ _ Hsv) in Hval as (ch2 & -> & Hp2 & Hc2 & Hd2); [|rewrite zlen_app; lia].
    fold v in Hd2. exists (number ++ ch2). rewrite !zlen_app in *. rewrite zget_app_l by lia.
    split_and!; try done; try lia. { by rewrite <- app_assoc. }
    intros pre rest buffer nv td Hz Hnv Hroom Hroom' Htd Hsub. pose proof (zlen_nonneg pre). pose proof (zlen_nonneg rest).
    rewrite !zlen_app in Hz.
    destruct (lookup_synced te td matchIdx en ev Hte Htd Hsub Hidx Hlook Hwhere) as (n' & Hlook' & Hname').
    assert (Hnn : same_name n n') by (by transitivity en). pose proof (same_name_length _ _ Hnn) as Hnlen.
    exists (Elsewhere n'), (InBuffer nv), n', (MkCursor (zlen pre + zlen number + zlen ch2) (mem_copy buffer nv v) (nv + zlen v)).
    destruct (index_prefix _ _ _ _ _ pre (ch2 ++ rest) Hiu Hbits Hnum) as (Hfirst & _).
    unfold decode_literal. cbn [cu_offset cu_buffer cu_nvOffset]. rewrite <- (app_assoc number), Hfirst. cbn [mbind Result_bind].
    rewrite E, Hlook'. cbn [mbind Result_bind]. rewrite u64_id by lia.
    specialize (Hd2 (pre ++ number) rest (zlen buffer) buffer nv). rewrite !zlen_app in Hd2.
    rewrite (app_assoc pre), Hd2 by lia. cbn [mbind Result_bind].
    cbn [cu_offset cu_buffer cu_nvOffset part_reads part_cost]. split_and!; try done; try lia.
    + apply copy_reads; lia.
    + apply keeps_copy; lia.
Qed.

(** [decode_step] on a literal parses it and emits the field. *)
Lemma step_literal (neverIndex : bool) block headerCapacity capacity limit maxT alloc st name nameLen value valueLen c' :
  let b := zget block (cu_offset (dc_cursor st)) in
  is_byte b -> Z.land b (if neverIndex then 0xF0 else 0xC0) = literal_pattern neverIndex ->
  decode_literal (literal_bits neverIndex) block capacity (dc_table st) (dc_cursor st) = Ok (name, nameLen, value, valueLen, c') ->
  decode_step block headerCapacity capacity limit maxT alloc st
  = emit_field headerCapacity capacity limit alloc name nameLen value valueLen (negb neverIndex) c' st.
Proof.
  intros b Hb Hpat Hdec. unfold decode_step. fold b. destruct (first_byte_classes b Hb) as (Hc1 & Hc2 & _).
  destruct neverIndex; cbn [literal_pattern literal_bits negb] in *.
  - destruct (Hc2 Hpat) as [H1 H2]. rewrite H1, Hpat. apply Z.eqb_neq in H2. rewrite H2. cbn [negb Z.eqb].
    change (0 =? 0) with true. change (16 =? 0) with false. change (16 =? 16) with true. cbn [negb orb]. by rewrite Hdec.
  - rewrite (Hc1 Hpat), Hpat. change (0 =? 0) with true. change (64 =? 64) with true. cbn [negb]. by rewrite Hdec.
Qed.

Lemma field_roundtrip ok hdr capacity out te res te' :
  let n := sp_bytes (h_Name hdr) in
  let v := sp_bytes (h_Value hdr) in
  table_ok te -> span_ok (h_Name hdr) -> span_ok (h_Value hdr) -> zlen out <= capacity < 2 ^ 62 ->
  encode_header ok capacity hdr out te = (Ok res, te') ->
  exists chunk (add : bool), res = out ++ chunk /\ 0 < zlen chunk /\ zlen res <= capacity
    /\ table_ok te' /\ ht_maxSize te' = ht_maxSize te
    /\ fields te' = (if add then fit field_size (ht_maxSize te) ((n, v) :: fields te) else fields te)
    /\ forall pre rest st,
        let c := dc_cursor st in
        cu_offset c = zlen pre -> zlen (pre ++ chunk ++ rest) < 2 ^ 62 -> 0 <= cu_nvOffset c ->
        cu_nvOffset c + 2 * (zlen n + zlen v) <= zlen (cu_buffer c) -> zlen (cu_buffer c) < 2 ^ 62 ->
        table_ok (dc_table st) -> sub_table (fields te) (fields (dc_table st)) ->
        exists name value n' c', same_name n n' /\ cu_offset c' = zlen pre + zlen chunk
          /\ part_reads c' name n' /\ part_reads c' value v
          /\ keeps (cu_nvOffset c) (cu_buffer c) (cu_buffer c') /\ cu_nvOffset c <= cu_nvOffset c'
          /\ cu_nvOffset c' + part_cost name n' + part_cost value v <= cu_nvOffset c + zlen n + zlen v
          /\ forall headerCapacity limit maxT alloc,
              decode_step (pre ++ chunk ++ rest) headerCapacity (zlen (cu_buffer c)) limit maxT alloc st
              = emit_field headerCapacity (zlen (cu_buffer c)) limit alloc name (zlen n') value (zlen v) add c' st.
Proof.
  intros n v Hte Hsn Hsv Hcap H. destruct (span_ok_facts _ Hsn) as (_ & Hnl & Hsln), (span_ok_facts _ Hsv) as (_ & Hvl & Hslv).
  unfold encode_header in H. destruct (_ || _); [done|]. fold n in H, Hnl, Hsln. fold v in H, Hvl, Hslv.
  destruct (FindMatch n v te) as [matchIdx nameOnly] eqn:Hfind. pose proof (zlen_nonneg out).
  destruct (_ && _ && _) eqn:E.
  - (* indexed *)
    bool_prop. injection H as H <-. apply bind_Ok in H as (number & Hnum & [= <-]).
    destruct (FindMatch_spec n v te matchIdx nameOnly Hte Hfind) as [[-> _]|(Hidx & en & ev & Hlook & Hname & Hval & Hwhere)]; [lia|].
    rewrite Hval in * by done. assert (Hiu : is_u32 matchIdx) by (unfold is_u32; lia).
    rewrite u32_id in Hnum by lia. rewrite u64_id in Hnum by lia.
    destruct (index_prefix _ _ 7 _ _ [] [] Hiu ltac:(by split) Hnum) as (_ & Hpos & Hbyte & Hpat).
    change (prefix_mask 7) with 0x80 in Hpat. change (Z.land 128 128) with 128 in Hpat.
    exists number, false. rewrite zlen_app. split_and!; try done; try lia.
    intros pre rest st c Hoff Hz Hnv Hroom Hroom' Htd Hsub.
    destruct (lookup_synced te (dc_table st) matchIdx en v Hte Htd Hsub Hidx Hlook Hwhere) as (n' & Hlook' & Hname').
    assert (Hnn : same_name n n') by (by transitivity en). pose proof (same_name_length _ _ Hnn) as Hnlen.
    rewrite !zlen_app in Hz. pose proof (zlen_nonneg pre). pose proof (zlen_nonneg rest).
    destruct (index_prefix _ _ 7 _ _ pre rest Hiu ltac:(by split) Hnum) as (Hfirst & _).
    exists (Elsewhere n'), (Elsewhere v), n', (MkCursor (zlen pre + zlen number) (cu_buffer c) (cu_nvOffset c)).
    cbn [cu_offset cu_buffer cu_nvOffset part_reads part_cost]. split_and!; try done; try lia.
    intros headerCapacity limit maxT alloc. unfold decode_step. fold c. rewrite Hoff.
    rewrite zget_app_r, Z.sub_diag, zget_app_l, Hpat by lia. change (128 =? 0) with false. cbn [negb].
    unfold decode_indexed. rewrite Hoff, Hfirst. cbn [mbind Result_bind].
    destruct (matchIdx =? 0) eqn:E0; [bool_lia|]. rewrite Hlook'. cbn [mbind Result_bind].
    by rewrite u64_id by lia.
  - destruct (encode_literal matchIdx (IsSensitiveHeaderName n) hdr capacity out) as [mid|] eqn:Hlit; [|done].
    destruct (literal_roundtrip _ _ _ _ _ _ _ _ Hte Hfind Hsn Hsv Hcap Hlit)
      as (chunk & -> & Hpos & Hc & Hbyte & Hpat & Hdec).
    set (never := IsSensitiveHeaderName n) in *. clearbody never. fold n in Hdec. fold v in Hdec.
    exists chunk, (negb never). rewrite zlen_app in Hc.
    assert (Hres : res = out ++ chunk /\ table_ok te' /\ ht_maxSize te' = ht_maxSize te
        /\ fields te' = (if negb never then fit field_size (ht_maxSize te) ((n, v) :: fields te) else fields te)).
    { destruct never; cbn [negb] in *; [by injection H as <- <-|]. rewrite Hsln, Hslv in H.
      destruct (Insert _ _ _ _ _ _ te) as [s t1] eqn:Ei.
      destruct (Insert_spec _ _ n v te s t1 Hte ltac:(lia) ltac:(lia) Ei) as (Hok & Hm & _ & [[-> Hf]|(-> & _ & _)]); [|done].
      cbn [NT_SUCCESS negb] in H. by injection H as <- <-. }
    destruct Hres as (-> & Hok' & Hmax' & Hf'). rewrite zlen_app. split_and!; try done.
    intros pre rest st c Hoff Hz Hnv Hroom Hroom' Htd Hsub.
    destruct (Hdec pre rest (cu_buffer c) (cu_nvOffset c) (dc_table st)) as (name & value & n' & c' & Hd & Hnn & Ho & Hr1 & Hr2 & Hk & Hn1 & Hn2);
      [done|lia|lia|done|done|done|].
    assert (Hceq : MkCursor (zlen pre) (cu_buffer c) (cu_nvOffset c) = c) by (rewrite <- Hoff; by destruct c).
    rewrite Hceq in Hd. exists name, value, n', c'. split_and!; try done.
    intros headerCapacity limit maxT alloc.
    assert (Hget : zget (pre ++ chunk ++ rest) (cu_offset (dc_cursor st)) = zget chunk 0).
    { fold c. rewrite Hoff, zget_app_r, Z.sub_diag, zget_app_l by lia. done. }
    apply step_literal; [by rewrite Hget|by rewrite Hget|done].
Qed.

(** ** A block *)

Definition header_ok (h : HttpHeader) : Prop := span_ok (h_Name h) /\ span_ok (h_Value h).
Definition header_field (h : HttpHeader) : list Z * list Z := (sp_bytes (h_Name h), sp_bytes (h_Value h)).
(** The characters of the headers. *)
Definition text_size (headers : list HttpHeader) : Z :=
  total (fun f => zlen f.1 + zlen f.2) (map header_field headers).

(** A header of the output denotes a header of the input. *)
Definition decodes_to (c : Cursor) (r : HttpHeaderRef) (h : HttpHeader) : Prop :=
  exists g, same_field (header_field h) g /\ reads c r g.

Lemma decode_loop_step block hc cap limit maxT alloc fuel st st' :
  cu_offset (dc_cursor st) < zlen block ->
  decode_step block hc cap limit maxT alloc st = (STATUS_SUCCESS, st') ->
  decode_loop block hc cap limit maxT alloc (S fuel) st = decode_loop block hc cap limit maxT alloc fuel st'.
Proof. intros Hlt Hs. cbn [decode_loop]. destruct (_ <? _) eqn:E; [|bool_lia]. by rewrite Hs. Qed.

(** What the two sides share before and after a field. *)
Definition tables_synced (te td : HpackDynamicTable) : Prop :=
  table_ok te /\ table_ok td /\ 0 < ht_entryCapacity td
  /\ ht_maxSize te = ht_maxSize td /\ sub_table (fields te) (fields td).

Lemma loop_roundtrip alloc_e capacity headers : forall i out te res te',
  Forall header_ok headers -> table_ok te -> zlen out <= capacity < 2 ^ 62 ->
  encode_loop alloc_e capacity i headers out te = (Ok res, te') ->
  exists tail, res = out ++ tail /\ zlen res <= capacity /\ table_ok te'
    /\ forall hc limit maxT alloc fuel st,
        let c := dc_cursor st in
        cu_offset c = zlen out -> zlen (cu_buffer c) < 2 ^ 62 -> 0 <= cu_nvOffset c ->
        cu_nvOffset c + 2 * text_size headers <= zlen (cu_buffer c) ->
        0 <= dc_headerListSize st -> limit < 2 ^ 64 ->
        dc_headerListSize st + total field_size (map header_field headers) <= limit ->
        zlen (dc_headers st) + zlen headers <= hc -> tables_synced te (dc_table st) ->
        (forall i, alloc i = (true, true)) -> zlen tail <= Z.of_nat fuel ->
        exists st' refs,
          decode_loop res hc (zlen (cu_buffer c)) limit maxT alloc fuel st = (STATUS_SUCCESS, st')
          /\ dc_headers st' = dc_headers st ++ refs /\ Forall2 (decodes_to (dc_cursor st')) refs headers
          /\ keeps (cu_nvOffset c) (cu_buffer c) (cu_buffer (dc_cursor st'))
          /\ cu_nvOffset c <= cu_nvOffset (dc_cursor st') <= zlen (cu_buffer c)
          /\ tables_synced te' (dc_table st').
Proof.
  induction headers as [|hdr headers IH]; intros i out te res te' Hh Hte Hcap H.
  { injection H as <- <-. exists []. rewrite app_nil_r. split_and!; [done|lia|done|].
    intros hc limit maxT alloc fuel st c Hoff Hz Hnv Hroom Hls Hlim Hlsz Hhc Hsync Ha Hfuel.
    change (text_size []) with 0 in Hroom.
    exists st, []. rewrite app_nil_r. split_and!; try done; try (fold c; lia).
    destruct fuel; cbn [decode_loop]; fold c; rewrite Hoff; by rewrite Z.ltb_irrefl. }
  apply Forall_cons in Hh as [[Hsn Hsv] Hh]. cbn [encode_loop] in H.
  destruct (encode_header (alloc_e i) capacity hdr out te) as [[mid|] te1] eqn:E1; [|done].
  destruct (field_roundtrip _ _ _ _ _ _ _ Hte Hsn Hsv Hcap E1)
    as (chunk & add & -> & Hpos & Hc1 & Hte1 & Hm1 & Hf1 & Hdec).
  destruct (IH _ (out ++ chunk) te1 res te' Hh Hte1 ltac:(lia) H) as (tail & -> & Hc2 & Hte2 & Hrest).
  exists (chunk ++ tail). split_and!; [by rewrite app_assoc|lia|done|].
  intros hc limit maxT alloc fuel st c Hoff Hz Hnv Hroom Hls Hlim Hlsz Hhc (_ & Htd & Hec & Hmax & Hsub) Ha Hfuel.
  rewrite zlen_cons in Hhc. rewrite zlen_app in Hfuel. pose proof (zlen_nonneg tail). pose proof (zlen_nonneg headers).
  destruct fuel as [|fuel]; [lia|].
  set (n := sp_bytes (h_Name hdr)) in *. set (v := sp_bytes (h_Value hdr)) in *.
  pose proof (zlen_nonneg n). pose proof (zlen_nonneg v).
  assert (Hts : text_size (hdr :: headers) = zlen n + zlen v + text_size headers) by done.
  assert (Htf : total field_size (map header_field (hdr :: headers)) = field_size (n, v) + total field_size (map header_field headers)) by done.
  assert (Hts0 : 0 <= text_size headers).
  { unfold text_size. apply bytes_total_nonneg, Forall_forall. intros f _. pose proof (zlen_nonneg f.1). pose proof (zlen_nonneg f.2). lia. }
  assert (Htf0 : 0 <= total field_size (map header_field headers)) by (apply bytes_total_nonneg, field_sizes).
  rewrite Hts in Hroom. rewrite Htf in Hlsz. rewrite <- app_assoc. rewrite <- app_assoc in Hc2, Hrest.
  destruct (Hdec out tail st Hoff) as (name & value & n' & c' & Hnn & Ho' & Hr1 & Hr2 & Hk & Hn1 & Hn2 & Hstep);
    [lia|done|fold c; lia|done|done|done|]. fold c in Hk, Hn1, Hn2, Hstep.
  pose proof (same_name_length _ _ Hnn) as Hnlen. destruct (span_ok_facts _ Hsn) as (_ & Hnl & _), (span_ok_facts _ Hsv) as (_ & Hvl & _).
  fold n in Hnl. fold v in Hvl.
  assert (Hfs : field_size (n', v) = field_size (n, v)) by (symmetry; by apply same_field_size).
  destruct (emit_ok name n' value v add c' st hc (zlen (cu_buffer c)) limit alloc)
    as (st1 & r & Hemit & Ho1 & Hk1 & Hnv1 & Hh1 & Hrd & Hls1 & Htd1 & Hec1 & Hmd1 & Hfd1);
    [apply Hk|lia|lia|done|done|lia|lia|lia|lia|lia|lia|lia|done|done|done|].
  assert (Hkc : keeps (cu_nvOffset c) (cu_buffer c) (cu_buffer (dc_cursor st1))) by (by eapply keeps_trans; [|exact Hk|exact Hk1]).
  assert (Hzc : zlen (cu_buffer (dc_cursor st1)) = zlen (cu_buffer c)) by apply Hkc.
  pose proof (field_bytes_pos (n, v)).
  assert (Hsync1 : tables_synced te1 (dc_table st1)).
  { unfold tables_synced. split_and!; [done|done|done|lia|]. rewrite Hf1, Hfd1. rewrite Hmax in *.
    destruct add; [|done]. apply sub_table_fit, sub_table_cons; done. }
  destruct (Hrest hc limit maxT alloc fuel st1) as (st2 & refs & Hloop & Hh2 & Hall & Hk2 & Hnv2 & Hsync2); try done.
  { rewrite zlen_app. lia. } { lia. } { lia. } { rewrite Hzc. lia. } { lia. } { lia. }
  { rewrite Hh1, zlen_app. change (zlen [r]) with 1. lia. } { lia. }
  exists st2, (r :: refs). rewrite Hzc in Hloop, Hnv2. split_and!.
  - erewrite decode_loop_step; [exact Hloop| |by rewrite Hstep].
    fold c. rewrite Hoff, !zlen_app. lia.
  - rewrite Hh2, Hh1, <- app_assoc. done.
  - constructor; [|done]. exists (n', v). split; [by split|]. eapply reads_keeps; [exact Hk2|lia|done].
  - eapply keeps_trans; [|exact Hkc|exact Hk2]. lia.
  - lia.
  - lia.
  - done.
Qed.

(** ** Two ends of a connection *)

(** The encoder may owe the decoder a table size update. *)
Definition synced (e : HpackEncoder) (d : HpackDecoder) : Prop :=
  table_ok (he_table e) /\ table_ok (hd_table d) /\ 0 < ht_entryCapacity (hd_table d)
  /\ sub_table (fields (he_table e)) (fields (hd_table d))
  /\ if he_tableSizeUpdatePending e
     then ht_maxSize (he_table e) = he_pendingTableSize e /\ he_pendingTableSize e <= hd_maxTableSize d
     else ht_maxSize (he_table e) = ht_maxSize (hd_table d).

Lemma synced_initial size e d e' d' :
  is_u32 size -> size <> 0 ->
  Encoder_Initialize size true true e = (STATUS_SUCCESS, e') ->
  Decoder_Initialize size true true d = (STATUS_SUCCESS, d') -> synced e' d'.
Proof.
  intros Hs Hs0 He Hd. unfold Encoder_Initialize in He. unfold Decoder_Initialize in Hd.
  destruct (Initialize size true true (he_table e)) as [s1 t1] eqn:E1.
  destruct (Initialize size true true (hd_table (d <| hd_maxTableSize := size |>))) as [s2 t2] eqn:E2.
  injection He as -> <-. injection Hd as -> <-.
  apply Initialize_spec in E1 as (H1 & H2 & H3 & H4); [|done]. apply Initialize_spec in E2 as (H5 & H6 & H7 & H8); [|done].
  unfold synced. unfold set_field; cbn [he_table hd_table he_tableSizeUpdatePending].
  split_and!; try done; [by apply H8| |congruence]. rewrite H2, H6. by exists [], [].
Qed.

Lemma synced_resize size e d :
  synced e d -> is_u32 size -> size <= hd_maxTableSize d -> synced (Encoder_UpdateMaxTableSize size e) d.
Proof.
  intros (Hte & Htd & Hec & Hsub & Hmax) Hs Hle. unfold Encoder_UpdateMaxTableSize. destruct (_ =? size); [done|].
  destruct (UpdateMaxSize_spec size (he_table e) (proj1 Hte) Hs) as (Hok & Hm & _ & Hf).
  unfold synced. cbn [he_table he_tableSizeUpdatePending he_pendingTableSize]. split_and!; try done.
  rewrite Hf. eapply sub_table_prefix; [apply fit_prefix|done].
Qed.

(** The size update in front of a block, when one is pending. *)
Definition pending_update (capacity : Z) (e : HpackEncoder) : Result (list Z) :=
  if he_tableSizeUpdatePending e
  then HpackEncodeInteger (u32 (he_pendingTableSize e)) 0x20 5 (capacity -! 0) else Ok [].

Lemma pending_roundtrip e d capacity out :
  synced e d -> 0 <= capacity < 2 ^ 62 -> pending_update capacity e = Ok out ->
  zlen out <= capacity /\ table_ok (he_table e)
  /\ forall tail hc cap limit alloc fuel buffer,
      zlen (out ++ tail) < 2 ^ 62 -> zlen (out ++ tail) <= Z.of_nat fuel ->
      exists fuel' st,
        decode_loop (out ++ tail) hc cap limit (hd_maxTableSize d) alloc fuel (MkDecoding (MkCursor 0 buffer 0) [] 0 true (hd_table d))
        = decode_loop (out ++ tail) hc cap limit (hd_maxTableSize d) alloc fuel' st
        /\ zlen tail <= Z.of_nat fuel' /\ dc_cursor st = MkCursor (zlen out) buffer 0 /\ dc_headers st = []
        /\ dc_headerListSize st = 0 /\ tables_synced (he_table e) (dc_table st).
Proof.
  intros (Hte & Htd & Hec & Hsub & Hp) Hcap H. unfold pending_update in H.
  destruct (he_tableSizeUpdatePending e).
  2:{ injection H as <-. change (zlen (@nil Z)) with 0. split_and!; [lia|done|].
      intros tail hc cap limit alloc fuel buffer Hz Hfuel. eexists fuel, _. cbn [app] in *. split_and!; [done|done|done|done|done|].
      by split_and!. }
  destruct Hp as [Hm Hle]. pose proof Hte as [Hwf _]. pose proof (wf_max _ Hwf) as Hmax. unfold is_u32 in Hmax.
  assert (Hiu : is_u32 (he_pendingTableSize e)) by (unfold is_u32; lia).
  rewrite u32_id, Z.sub_0_r, u64_id in H by (unfold is_u32 in Hiu; lia).
  destruct (index_prefix _ _ 5 _ _ [] [] Hiu ltac:(by split) H) as (_ & Hpos & Hbyte & Hpat).
  change (prefix_mask 5) with 0xE0 in Hpat. change (Z.land 32 224) with 32 in Hpat.
  split_and!; [lia|done|]. intros tail hc cap limit alloc fuel buffer Hz Hfuel.
  rewrite zlen_app in Hz, Hfuel. pose proof (zlen_nonneg tail). destruct fuel as [|fuel]; [lia|].
  destruct (index_prefix _ _ 5 _ _ [] tail Hiu ltac:(by split) H) as (Hdec & _).
  change (zlen (@nil Z)) with 0 in Hdec. cbn [app] in Hdec.
  destruct (UpdateMaxSize_spec (he_pendingTableSize e) (hd_table d) (proj1 Htd) Hiu) as (Hok & Hm' & Hec' & Hf).
  exists fuel, (MkDecoding (MkCursor (0 +! zlen out) buffer 0) [] 0 true (UpdateMaxSize (he_pendingTableSize e) (hd_table d))).
  split_and!; try done; try lia.
  - apply decode_loop_step; [cbn [dc_cursor cu_offset]; rewrite zlen_app; lia|]. unfold decode_step.
    cbn [dc_cursor cu_offset cu_buffer cu_nvOffset dc_allowTableSizeUpdate dc_table]. rewrite zget_app_l by lia.
    destruct (first_byte_classes _ Hbyte) as (_ & _ & Hc). destruct (Hc Hpat) as (H1 & H2 & H3 & H4).
    rewrite H1, Hpat. apply Z.eqb_neq in H2, H3, H4. rewrite H2, H3, H4. change (0 =? 0) with true. change (32 =? 32) with true.
    cbn [negb orb]. rewrite Hdec. destruct (_ >? _) eqn:E; [bool_lia|]. done.
  - cbn [dc_cursor]. by rewrite u64_id, Z.add_0_l by lia.
  - unfold tables_synced. cbn [dc_table]. split_and!; try done; [by rewrite Hec'|congruence|]. rewrite Hf, <- Hm.
    rewrite <- (fit_all field_size (ht_maxSize (he_table e)) (fields (he_table e))).
    + by apply sub_table_fit.
    + apply field_sizes.
    + destruct Hte as [Hw Hc']. pose proof (wf_size _ Hw). lia.
Qed.

(** ** Any block

    What holds of the decoder whatever the peer sends. *)

(** Running out of fuel is the only source of [STATUS_OTHER 0]. *)
Definition failure (s : NTSTATUS) : Prop := s <> STATUS_OTHER 0 /\ s <> STATUS_SUCCESS.
Definition proper {A} (r : Result A) : Prop := match r with Ok _ => True | Err s => failure s end.

Lemma decode_continuation_proper rest : forall offset m cnt result,
  proper (decode_continuation rest offset m cnt result).
Proof.
  unfold proper. induction rest as [|b rest IH]; intros offset m cnt result; [done|].
  cbn [decode_continuation]. repeat case_if; done || apply IH.
Qed.
Lemma decode_integer_proper src n : proper (HpackDecodeInteger src n).
Proof.
  unfold HpackDecodeInteger. destruct (_ || _); [done|]. destruct (_ <? _); [done|].
  apply decode_continuation_proper.
Qed.

Lemma take_bits_proper capacity l st : proper (take_bits capacity l st).
Proof.
  unfold proper in *. revert st. induction l as [|b l IH]; intros st; [done|]. cbn [take_bits]. unfold take_bit.
  destruct (_ >? 30); [done|]. destruct (FindHuffmanSymbol _ _); [|apply IH].
  destruct (_ =? 256); [done|]. destruct (_ >=? _); [done|apply IH].
Qed.
Lemma huffman_proper src capacity : proper (HpackHuffmanDecode (Bytes src) capacity).
Proof.
  unfold HpackHuffmanDecode. cbn [sp_isnull sp_len sp_bytes andb]. destruct (_ =? 0); [done|].
  rewrite take_bytes_bits. pose proof (take_bits_proper capacity (byte_bits src) (MkDecode [] 0 0)) as H.
  unfold proper in *. destruct (take_bits _ _ _); cbn [mbind Result_bind]; [|done].
  repeat case_if; done.
Qed.

(** The cursor stays inside the block and the buffer. *)
Record cursor_ok (block : list Z) (capacity : Z) (c : Cursor) : Prop := {
  co_offset : 0 <= cu_offset c <= zlen block;
  co_buffer : zlen (cu_buffer c) = capacity;
  co_nv : 0 <= cu_nvOffset c <= capacity;
}.
(** A later cursor. *)
Definition advances (c c' : Cursor) : Prop :=
  cu_offset c < cu_offset c' /\ cu_nvOffset c <= cu_nvOffset c'.
Definition part_in (c : Cursor) (p : Part) (len : Z) : Prop :=
  match p with
  | InBuffer o => 0 <= o /\ 0 <= len /\ o + len <= cu_nvOffset c
  | Elsewhere l => len = zlen l
  end.

Section safety.
Context (block : list Z) (capacity : Z).
Hypothesis Hblock : bytes block.
Hypothesis Hlen : zlen block < 2 ^ 62.
Hypothesis Hcap : capacity < 2 ^ 62.

Lemma integer_safe n offset v k :
  0 <= offset <= zlen block -> prefix_width n ->
  HpackDecodeInteger (Bytes (zdrop offset block)) n = Ok (v, k) -> is_u32 v /\ 1 <= k /\ offset + k <= zlen block.
Proof.
  intros Ho Hn H. apply integer_decoded in H as (Hv & Hk & _); [|by apply bytes_zdrop|rewrite zlen_zdrop; lia|done].
  rewrite zlen_zdrop in Hk by lia. split; [done|lia].
Qed.

Lemma decode_string_safe c :
  cursor_ok block capacity c ->
  match decode_string block capacity c with
  | Ok (p, len, c') => cursor_ok block capacity c' /\ advances c c' /\ part_in c' p len
  | Err s => failure s
  end.
Proof.
  intros [Ho Hb Hn]. unfold decode_string. destruct (_ >=? _) eqn:E0; [done|]. bool_prop.
  pose proof (decode_integer_proper (Bytes (zdrop (cu_offset c) block)) 7) as Hp. unfold proper in Hp.
  destruct (HpackDecodeInteger _ 7) as [[len k]|s] eqn:Ei; cbn [mbind Result_bind]; [|done]. clear Hp.
  apply integer_safe in Ei as (Hv & Hk & Hfit); [|done|by split]. unfold is_u32 in Hv.
  rewrite (u64_id (cu_offset c + k)) by lia.
  destruct (RangeFits (_ + k) len _) eqn:E1; cbn [negb]; [|done]. apply RangeFits_inv in E1; [|lia|lia].
  destruct (negb (Z.land _ _ =? 0)).
  - rewrite MultiplySize_2 by lia. destruct (RangeFits _ _ capacity) eqn:E2; cbn [negb]; [|done].
    apply RangeFits_inv in E2; [|lia|lia]. rewrite (u64_id (capacity - _)) by lia.
    pose proof (huffman_proper (zsub block (cu_offset c + k) len) (capacity - cu_nvOffset c)) as Hp. unfold proper in Hp.
    destruct (HpackHuffmanDecode _ _) as [text|s] eqn:Eh; cbn [mbind Result_bind]; [|done].
    apply decoded_length in Eh as (_ & Hcl & _); [|lia]. pose proof (zlen_nonneg text).
    rewrite !u64_id by lia. unfold advances, part_in. cbn [cu_offset cu_nvOffset].
    split_and!; try lia. constructor; cbn [cu_offset cu_buffer cu_nvOffset]; try lia. rewrite zlen_mem_copy; lia.
  - destruct (RangeFits _ _ capacity) eqn:E2; cbn [negb]; [|done]. apply RangeFits_inv in E2; [|lia|lia].
    rewrite !u64_id by lia. unfold advances, part_in. cbn [cu_offset cu_nvOffset].
    split_and!; try lia. constructor; cbn [cu_offset cu_buffer cu_nvOffset]; try lia.
    rewrite zlen_mem_copy; rewrite ?zlen_zsub by lia; lia.
Qed.

Lemma lookup_safe index t :
  match lookup_field index t with Ok _ => True | Err s => failure s end.
Proof. unfold lookup_field. destruct (_ <=? _); [done|]. by destruct (Lookup _ t). Qed.

Definition parsed (c : Cursor) (r : Result (Part * Z * Part * Z * Cursor)) : Prop :=
  match r with
  | Ok (name, nameLen, value, valueLen, c') =>
      cursor_ok block capacity c' /\ advances c c' /\ part_in c' name nameLen /\ part_in c' value valueLen
  | Err s => failure s
  end.

Lemma part_in_advances c c' p len : cu_nvOffset c <= cu_nvOffset c' -> part_in c p len -> part_in c' p len.
Proof. destruct p; cbn; [lia|done]. Qed.

Lemma decode_indexed_safe t c : cursor_ok block capacity c -> parsed c (decode_indexed block t c).
Proof.
  intros [Ho Hb Hn]. unfold decode_indexed, parsed.
  pose proof (decode_integer_proper (Bytes (zdrop (cu_offset c) block)) 7) as Hp. unfold proper in Hp.
  destruct (HpackDecodeInteger _ 7) as [[index k]|s] eqn:Ei; cbn [mbind Result_bind]; [|done]. clear Hp.
  apply integer_safe in Ei as (Hv & Hk & Hfit); [|done|by split].
  destruct (index =? 0); [done|]. pose proof (lookup_safe index t) as Hl.
  destruct (lookup_field index t) as [[n v]|s]; cbn [mbind Result_bind]; [|done].
  rewrite u64_id by lia. unfold advances. cbn [cu_offset cu_nvOffset part_in]. split_and!; try done; try lia.
  constructor; cbn [cu_offset cu_buffer cu_nvOffset]; lia.
Qed.

Lemma decode_literal_safe n t c :
  prefix_width n -> cursor_ok block capacity c -> parsed c (decode_literal n block capacity t c).
Proof.
  intros Hpw [Ho Hb Hn]. unfold decode_literal, parsed.
  pose proof (decode_integer_proper (Bytes (zdrop (cu_offset c) block)) n) as Hp. unfold proper in Hp.
  destruct (HpackDecodeInteger _ n) as [[index k]|s] eqn:Ei; cbn [mbind Result_bind]; [|done]. clear Hp.
  apply integer_safe in Ei as (Hv & Hk & Hfit); [|done|done]. rewrite u64_id by lia.
  set (c1 := MkCursor (cu_offset c + k) (cu_buffer c) (cu_nvOffset c)).
  assert (Hc1 : cursor_ok block capacity c1) by (constructor; unfold c1; cbn [cu_offset cu_buffer cu_nvOffset]; lia).
  assert (Hname : match (if index >? 0 then '(name, _) ← lookup_field index t; Ok (Elsewhere name, zlen name, c1)
                         else decode_string block capacity c1) with
                  | Ok (p, len, c') => cursor_ok block capacity c' /\ cu_offset c < cu_offset c'
                      /\ cu_nvOffset c <= cu_nvOffset c' /\ part_in c' p len
                  | Err s => failure s
                  end).
  { destruct (index >? 0).
    - pose proof (lookup_safe index t). destruct (lookup_field index t) as [[nm v]|s]; cbn [mbind Result_bind]; [|done].
      split_and!; try done; unfold c1; cbn [cu_offset cu_nvOffset]; lia.
    - pose proof (decode_string_safe c1 Hc1) as Hd. destruct (decode_string _ _ _) as [[[p len] c']|s]; [|done].
      destruct Hd as (? & [Ha1 Ha2] & ?). unfold c1 in Ha1, Ha2. cbn [cu_offset cu_nvOffset] in Ha1, Ha2.
      split_and!; try done; lia. }
  destruct (if index >? 0 then _ else _) as [[[p len] c2]|s]; cbn [mbind Result_bind]; [|done].
  destruct Hname as (Hc2 & Ha1 & Ha2 & Hp1). pose proof (decode_string_safe c2 Hc2) as Hd.
  destruct (decode_string _ _ _) as [[[q vlen] c3]|s]; cbn [mbind Result_bind]; [|done].
  destruct Hd as (Hc3 & [Hb1 Hb2] & Hq). unfold advances. split_and!; try done; try lia.
  by eapply part_in_advances.
Qed.

Lemma materialize_safe p len c :
  cursor_ok block capacity c -> part_in c p len ->
  match MaterializeHeaderPart p len capacity c with
  | Ok (o, c') => cursor_ok block capacity c' /\ cu_offset c' = cu_offset c /\ cu_nvOffset c <= cu_nvOffset c'
                  /\ 0 <= o /\ 0 <= len /\ o + len <= cu_nvOffset c'
  | Err s => failure s
  end.
Proof.
  intros [Ho Hb Hn] Hp. unfold MaterializeHeaderPart.
  assert (Hcopy : forall l, zlen l = len \/ (exists o, l = zsub (cu_buffer c) o len /\ 0 <= o /\ 0 <= len /\ o + len <= cu_nvOffset c) ->
    match (if negb (RangeFits (cu_nvOffset c) len capacity) then Err STATUS_BUFFER_TOO_SMALL
           else Ok (cu_nvOffset c, MkCursor (cu_offset c) (mem_copy (cu_buffer c) (cu_nvOffset c) l) (cu_nvOffset c +! len))) with
    | Ok (o, c') => cursor_ok block capacity c' /\ cu_offset c' = cu_offset c /\ cu_nvOffset c <= cu_nvOffset c'
                  /\ 0 <= o /\ 0 <= len /\ o + len <= cu_nvOffset c'
    | Err s => failure s
    end).
  { intros l Hl. assert (Hz : zlen l = len).
    { destruct Hl as [Hl|(o & -> & H1 & H2 & H3)]; [done|]. rewrite zlen_zsub; lia. }
    pose proof (zlen_nonneg l). destruct (RangeFits _ _ _) eqn:E; cbn [negb]; [|done].
    apply RangeFits_inv in E; [|lia|lia]. rewrite u64_id by lia. cbn [cu_offset cu_nvOffset]. split_and!; try done; try lia.
    constructor; cbn [cu_offset cu_buffer cu_nvOffset]; try lia. rewrite zlen_mem_copy; lia. }
  destruct p as [o|l]; cbn [part_in] in Hp.
  - destruct (_ && (o <? capacity)) eqn:E.
    + split_and!; try done; lia.
    + apply Hcopy. right. by exists o.
  - apply Hcopy. left. rewrite ztake_all by lia. done.
Qed.
End safety.

Lemma AddHeaderListSize_inv n v limit acc x :
  0 <= n < 2 ^ 62 -> 0 <= v < 2 ^ 62 -> 0 <= acc <= limit -> limit < 2 ^ 64 ->
  AddHeaderListSize n v limit acc = Some x -> x = acc + (n + v + HpackEntryOverhead) /\ x <= limit.
Proof.
  intros Hn Hv Ha Hlim H. unfold AddHeaderListSize, MaxSizeT, MAXU64, HpackEntryOverhead in *.
  destruct (n >? _); [done|]. rewrite (u64_id (n + v)) in H by lia. destruct (n + v >? _); [done|].
  rewrite (u64_id (n + v + 32)) in H by lia. rewrite (u64_id (_ - (n + v + 32))) in H by lia.
  destruct (acc >? _) eqn:E3; [done|]. bool_prop. rewrite (u64_id (acc + _)) in H by lia.
  destruct (_ && _) eqn:E4; [done|]. injection H as <-. split; [done|].
  destruct (limit =? 2 ^ 64 - 1) eqn:E5; bool_prop; [lia|]. cbn [negb andb] in E4. bool_prop.
  rewrite u64_id in * by lia. lia.
Qed.

(** The headers emitted so far. *)
Definition refs_size (refs : list HttpHeaderRef) : Z :=
  total (fun r => hr_NameLength r + hr_ValueLength r + HpackEntryOverhead) refs.
Definition ref_in (used : Z) (r : HttpHeaderRef) : Prop :=
  0 <= hr_Name r /\ 0 <= hr_NameLength r /\ hr_Name r + hr_NameLength r <= used
  /\ 0 <= hr_Value r /\ 0 <= hr_ValueLength r /\ hr_Value r + hr_ValueLength r <= used.

Lemma ref_in_weaken used used' refs : used <= used' -> Forall (ref_in used) refs -> Forall (ref_in used') refs.
Proof. intros Hu Hf. eapply Forall_impl; [exact Hf|]. unfold ref_in. intros r. lia. Qed.

Definition table_safe (maxT : Z) (t : HpackDynamicTable) : Prop := table_ok t /\ ht_maxSize t <= maxT.

Record decoding_ok (block : list Z) (hc capacity limit maxT : Z) (st : Decoding) : Prop := {
  ok_cursor : cursor_ok block capacity (dc_cursor st);
  ok_headers : Forall (ref_in (cu_nvOffset (dc_cursor st))) (dc_headers st);
  ok_count : zlen (dc_headers st) <= hc;
  ok_size : dc_headerListSize st = refs_size (dc_headers st) /\ 0 <= dc_headerListSize st <= limit;
  ok_table : table_safe maxT (dc_table st);
}.

(** One turn keeps the invariant and consumes input, or stops with a proper status. *)
Definition turn_ok (block : list Z) (hc capacity limit maxT : Z) (offset : Z) (r : NTSTATUS * Decoding) : Prop :=
  table_safe maxT (dc_table r.2) /\ r.1 <> STATUS_OTHER 0
  /\ (r.1 = STATUS_SUCCESS -> decoding_ok block hc capacity limit maxT r.2 /\ offset < cu_offset (dc_cursor r.2)).

Lemma turn_error block hc capacity limit maxT offset s st :
  table_safe maxT (dc_table st) -> failure s -> turn_ok block hc capacity limit maxT offset (s, st).
Proof. intros Ht [H1 H2]. by split_and!. Qed.

Lemma emit_safe block hc capacity limit maxT alloc name nameLen value valueLen (add : bool) c st :
  zlen block < 2 ^ 62 -> capacity < 2 ^ 62 -> limit < 2 ^ 64 ->
  decoding_ok block hc capacity limit maxT st ->
  cursor_ok block capacity c -> advances (dc_cursor st) c -> part_in c name nameLen -> part_in c value valueLen ->
  turn_ok block hc capacity limit maxT (cu_offset (dc_cursor st))
    (emit_field hc capacity limit alloc name nameLen value valueLen add c st).
Proof.
  intros Hblock Hcap Hlim [Hcur Hrefs Hcnt [Hls Hls'] Htab] Hc [Ha1 Ha2] Hn Hv. unfold emit_field.
  pose proof (materialize_safe block capacity Hcap name nameLen c Hc Hn) as Hm1.
  destruct (MaterializeHeaderPart name _ _ _) as [[o1 c1]|s] eqn:E1; [|by apply turn_error].
  destruct Hm1 as (Hc1 & Ho1 & Hn1 & Hr1 & Hr2 & Hr3).
  pose proof (materialize_safe block capacity Hcap value valueLen c1 Hc1 ltac:(by eapply part_in_advances)) as Hm2.
  destruct (MaterializeHeaderPart value _ _ _) as [[o2 c2]|s] eqn:E2; [|by apply turn_error].
  destruct Hm2 as (Hc2 & Ho2 & Hn2 & Hq1 & Hq2 & Hq3). pose proof (co_nv _ _ _ Hc2) as Hnv2.
  destruct (AddHeaderListSize _ _ _ _) as [size|] eqn:E3; [|by apply turn_error].
  apply AddHeaderListSize_inv in E3 as [Hsize Hsl]; [|lia|lia|lia|done].
  assert (Hz1 : zlen (zsub (cu_buffer c2) o1 nameLen) = nameLen) by (apply zlen_zsub; rewrite ?(co_buffer _ _ _ Hc2); lia).
  assert (Hz2 : zlen (zsub (cu_buffer c2) o2 valueLen) = valueLen) by (apply zlen_zsub; rewrite ?(co_buffer _ _ _ Hc2); lia).
  destruct (if add then _ else _) as [s t'] eqn:E4.
  assert (Htab' : table_safe maxT t' /\ s <> STATUS_OTHER 0).
  { destruct add; [|by injection E4 as <- <-]. destruct Htab as [Hok Hmax].
    destruct (Insert_spec (alloc (zlen (dc_headers st))).1 (alloc (zlen (dc_headers st))).2
      (zsub (cu_buffer c2) o1 nameLen) (zsub (cu_buffer c2) o2 valueLen) (dc_table st) s t' Hok)
      as (Hok' & Hm & _ & Hs); [lia|lia|by rewrite Hz1, Hz2|].
    split; [split; [done|lia]|]. by destruct Hs as [[-> _]|[-> _]]. }
  destruct Htab' as [Htab' Hs]. destruct (NT_SUCCESS s) eqn:Es; cbn [negb].
  2:{ apply turn_error; [done|]. split; [done|by intros ->]. }
  destruct (_ >=? hc) eqn:Eh; [by apply turn_error|]. bool_prop.
  change (dc_headers (st <| dc_table := t' |>)) with (dc_headers st).
  split_and!; try done. intros _. cbn [snd dc_cursor]. split; [|lia].
  constructor; cbn [dc_cursor dc_headers dc_headerListSize dc_table]; try done.
  - apply Forall_app. split; [eapply ref_in_weaken; [|done]; lia|]. apply Forall_cons; split; [|done].
    unfold ref_in. cbn [hr_Name hr_NameLength hr_Value hr_ValueLength]. lia.
  - rewrite zlen_app. change (zlen [_]) with 1. lia.
  - split; [|unfold HpackEntryOverhead in *; lia]. unfold refs_size in *. rewrite bytes_total_app, <- Hls. cbn. unfold HpackEntryOverhead in *. lia.
Qed.

Lemma step_safe block hc capacity limit maxT alloc st :
  bytes block -> zlen block < 2 ^ 62 -> capacity < 2 ^ 62 -> limit < 2 ^ 64 ->
  decoding_ok block hc capacity limit maxT st ->
  turn_ok block hc capacity limit maxT (cu_offset (dc_cursor st)) (decode_step block hc capacity limit maxT alloc st).
Proof.
  intros Hb Hblock Hcap Hlim Hok. pose proof Hok as [Hcur Hrefs Hcnt Hls Htab]. unfold decode_step.
  assert (Hparsed : forall (r : Result (Part * Z * Part * Z * Cursor)) (add : bool),
    parsed block capacity (dc_cursor st) r ->
    turn_ok block hc capacity limit maxT (cu_offset (dc_cursor st))
      match r with
      | Err s => (s, st)
      | Ok (name, nameLen, value, valueLen, c) => emit_field hc capacity limit alloc name nameLen value valueLen add c st
      end).
  { intros [[[[[name nameLen] value] valueLen] c]|s] add Hp; cbn [parsed] in Hp.
    - destruct Hp as (Hc & Ha & Hp1 & Hp2). by apply emit_safe.
    - by apply turn_error. }
  destruct (negb (Z.land _ 128 =? 0)).
  { apply (Hparsed _ false). by apply decode_indexed_safe. }
  destruct (Z.land _ 192 =? 64).
  { apply (Hparsed _ true). by apply decode_literal_safe. }
  destruct (_ || _).
  { apply (Hparsed _ false). by apply decode_literal_safe. }
  destruct (Z.land _ 224 =? 32); [|by apply turn_error].
  destruct (dc_allowTableSizeUpdate st); cbn [negb]; [|by apply turn_error].
  pose proof (decode_integer_proper (Bytes (zdrop (cu_offset (dc_cursor st)) block)) 5) as Hp. unfold proper in Hp.
  destruct (HpackDecodeInteger _ 5) as [[size k]|s] eqn:Ei; [|by apply turn_error].
  destruct Hcur as [Ho Hbuf Hn]. apply (integer_safe block Hb Hblock) in Ei as (Hv & Hk & Hfit); [|done|by split].
  destruct (size >? maxT) eqn:E; [by apply turn_error|]. bool_prop.
  destruct Htab as [[Hwf _] _]. destruct (UpdateMaxSize_spec size (dc_table st) Hwf Hv) as (Hok' & Hm & _ & _).
  rewrite u64_id by lia. split_and!; [split; [done|cbn [snd dc_table]; unfold set_field; cbn [dc_table]; lia]|done|]. intros _. cbn [snd]. unfold set_field. cbn [dc_cursor cu_offset].
  split; [|lia]. constructor; cbn [dc_cursor dc_headers dc_headerListSize dc_table cu_nvOffset]; try done.
  - constructor; cbn [cu_offset cu_buffer cu_nvOffset]; lia.
  - split; [done|lia].
Qed.

Lemma loop_safe block hc capacity limit maxT alloc fuel : forall st,
  bytes block -> zlen block < 2 ^ 62 -> capacity < 2 ^ 62 -> limit < 2 ^ 64 ->
  decoding_ok block hc capacity limit maxT st -> zlen block - cu_offset (dc_cursor st) <= Z.of_nat fuel ->
  let '(s, st') := decode_loop block hc capacity limit maxT alloc fuel st in
  table_safe maxT (dc_table st') /\ s <> STATUS_OTHER 0
  /\ (s = STATUS_SUCCESS -> decoding_ok block hc capacity limit maxT st' /\ cu_offset (dc_cursor st') = zlen block).
Proof.
  induction fuel as [|fuel IH]; intros st Hb Hblock Hcap Hlim Hok Hfuel; cbn [decode_loop];
    pose proof (co_offset _ _ _ (ok_cursor _ _ _ _ _ _ Hok)) as Ho; destruct (_ <? _) eqn:E; bool_prop.
  - lia.
  - split_and!; [apply (ok_table _ _ _ _ _ _ Hok)|done|]. intros _. split; [done|lia].
  - destruct (step_safe block hc capacity limit maxT alloc st Hb Hblock Hcap Hlim Hok) as (Ht & Hs & Hnext).
    destruct (decode_step _ _ _ _ _ _ st) as [s st1]. cbn [fst snd] in *.
    destruct s; try (split_and!; [apply Ht|done|done]).
    destruct (Hnext eq_refl) as [Hok1 Hadv]. apply IH; [done..|lia].
  - split_and!; [apply (ok_table _ _ _ _ _ _ Hok)|done|]. intros _. split; [done|lia].
Qed.

Lemma encode_decode (e e' : HpackEncoder) (d : HpackDecoder) (headers : list HttpHeader) (capacity : Z)
    (alloc_e alloc_d : Z -> bool * bool) (out buffer : list Z) (headerCapacity limit : Z) :
  synced e d -> Forall header_ok headers -> 0 <= capacity < 2 ^ 62 ->
  Encode headers capacity alloc_e e = (Ok out, e') ->
  (forall i, alloc_d i = (true, true)) ->
  2 * text_size headers <= zlen buffer -> zlen buffer < 2 ^ 62 ->
  total field_size (map header_field headers) <= limit -> limit < 2 ^ 64 -> zlen headers <= headerCapacity ->
  zlen out <= capacity
  /\ exists refs buffer' used d',
      Decode (Bytes out) headerCapacity buffer limit alloc_d d = (Ok (refs, buffer', used), d')
      /\ zlen buffer' = zlen buffer /\ 0 <= used <= zlen buffer
      /\ Forall2 (decodes_to (MkCursor 0 buffer' used)) refs headers
      /\ synced e' d'.
Proof.
  intros Hsync Hh Hcap H Ha Hroom Hroom' Hlim Hlim' Hhc. unfold Encode in H.
  fold (pending_update capacity e) in H. destruct (pending_update capacity e) as [pre|] eqn:Epre; [|done].
  destruct (pending_roundtrip e d capacity pre Hsync Hcap Epre) as (Hpc & Hte & Hstart).
  destruct (encode_loop alloc_e capacity 0 headers pre _) as [[res|] te'] eqn:El; [|done]. injection H as <- <-.
  assert (Het : he_table (if he_tableSizeUpdatePending e then e <| he_tableSizeUpdatePending := false |> else e) = he_table e)
    by (by destruct (he_tableSizeUpdatePending e)).
  rewrite Het in El.
  destruct (loop_roundtrip alloc_e capacity headers 0 pre (he_table e) res te' Hh Hte ltac:(lia) El) as (tail & -> & Hrc & Hte' & Hloop). split; [done|].
  destruct (Hstart tail headerCapacity (zlen buffer) limit alloc_d (length (pre ++ tail)) buffer)
    as (fuel & st & Hst & Hfuel & Hc & Hhd & Hls & Hts); [lia|unfold zlen; lia|].
  specialize (Hloop headerCapacity limit (hd_maxTableSize d) alloc_d fuel st). cbv zeta in Hloop. rewrite Hc in Hloop.
  cbn [cu_offset cu_buffer cu_nvOffset] in Hloop. rewrite Hhd, Hls in Hloop. change (zlen (@nil HttpHeaderRef)) with 0 in Hloop.
  destruct Hloop as (st' & refs & Hdec & Hh' & Hall & Hk & Hnv & (_ & Htd' & Hec' & Hmax' & Hsub')); try done; try lia.
  exists refs, (cu_buffer (dc_cursor st')), (cu_nvOffset (dc_cursor st')), (d <| hd_table := dc_table st' |>).
  unfold Decode. cbn [sp_isnull sp_len sp_bytes andb]. rewrite Hst, Hdec. cbn [NT_SUCCESS]. rewrite Hh'. cbn [app].
  split_and!; try done; try lia; [apply Hk|].
  unfold synced. destruct (he_tableSizeUpdatePending e) eqn:Ep; unfold set_field;
      cbn [he_table hd_table he_tableSizeUpdatePending]; rewrite ?Ep; by split_and!.
Qed.

Lemma decode_is_safe (block buffer : list Z) (headerCapacity limit : Z) (alloc : Z -> bool * bool) (d : HpackDecoder) :
  bytes block -> zlen block < 2 ^ 62 -> zlen buffer < 2 ^ 62 -> 0 <= limit < 2 ^ 64 -> 0 <= headerCapacity ->
  table_safe (hd_maxTableSize d) (hd_table d) ->
  let '(r, d') := Decode (Bytes block) headerCapacity buffer limit alloc d in
  hd_maxTableSize d' = hd_maxTableSize d /\ table_safe (hd_maxTableSize d) (hd_table d')
  /\ match r with
     | Ok (refs, buffer', used) =>
         zlen buffer' = zlen buffer /\ 0 <= used <= zlen buffer
         /\ Forall (ref_in used) refs /\ zlen refs <= headerCapacity /\ refs_size refs <= limit
     | Err s => s <> STATUS_OTHER 0 /\ s <> STATUS_SUCCESS
     end.
Proof.
  intros Hb Hlen Hbuf Hlim Hhc Htab. unfold Decode. cbn [sp_isnull sp_len sp_bytes andb].
  set (start := MkDecoding _ _ _ _ _). pose proof (zlen_nonneg block). pose proof (zlen_nonneg buffer).
  assert (Hstart : decoding_ok block headerCapacity (zlen buffer) limit (hd_maxTableSize d) start).
  { constructor; unfold start; cbn [dc_cursor dc_headers dc_headerListSize dc_table cu_nvOffset]; try done.
    - split; [done|lia]. }
  pose proof (loop_safe block headerCapacity (zlen buffer) limit (hd_maxTableSize d) alloc (length block) start
    Hb Hlen Hbuf (proj2 Hlim) Hstart) as Hloop.
  destruct (decode_loop _ _ _ _ _ _ _ start) as [s st]. destruct Hloop as (Ht & Hs & Hok); [change (cu_offset (dc_cursor start)) with 0; unfold zlen; lia|].
  split_and!; [done|exact Ht|]. destruct s; cbn [NT_SUCCESS]; try done.
  destruct (Hok eq_refl) as [[Hc Hr Hcnt [Hsz Hsz'] _] _]. pose proof (co_buffer _ _ _ Hc). pose proof (co_nv _ _ _ Hc).
  split_and!; try done; lia.
Qed.

(** ** Properties *)

(** C14. A decoder that is in step with the encoder reads back every block the
    encoder writes: as many headers, in order, with the same values and with
    names equal up to the case of letters (the encoder matches names
    regardless of case), placed inside the caller's buffer; and the two ends
    are in step again, so the next block can be decoded.  This holds for
    indexed fields, literals with and without indexing, both string encodings,
    evictions on both sides, and pending table size updates.  The buffer must
    hold twice the characters, because the decoder reserves twice the length of
    a Huffman string, and the limits of the call must admit the headers. *)
Theorem hpack_roundtrip (e e' : HpackEncoder) (d : HpackDecoder) (headers : list HttpHeader) (capacity : Z)
    (alloc_e alloc_d : Z -> bool * bool) (out buffer : list Z) (headerCapacity limit : Z) :
  synced e d -> Forall header_ok headers -> 0 <= capacity < 2 ^ 62 ->
  Encode headers capacity alloc_e e = (Ok out, e') ->
  (forall i, alloc_d i = (true, true)) ->
  2 * text_size headers <= zlen buffer -> zlen buffer < 2 ^ 62 ->
  total field_size (map header_field headers) <= limit -> limit < 2 ^ 64 -> zlen headers <= headerCapacity ->
  zlen out <= capacity
  /\ exists refs buffer' used d',
      Decode (Bytes out) headerCapacity buffer limit alloc_d d = (Ok (refs, buffer', used), d')
      /\ zlen buffer' = zlen buffer /\ 0 <= used <= zlen buffer
      /\ Forall2 (decodes_to (MkCursor 0 buffer' used)) refs headers
      /\ synced e' d'.
Proof. exact (encode_decode e e' d headers capacity alloc_e alloc_d out buffer headerCapacity limit). Qed.

(** Whatever block the peer sends, the decoder ends, keeps its dynamic
    table well formed and within the limit it announced, and, when it reports
    success, every name and value it reports lies in the used part of the
    caller's buffer, the number of headers is within the capacity, and their
    list size (names, values and 32 per header) is within the limit. *)
Theorem hpack_decode_safe (block buffer : list Z) (headerCapacity limit : Z) (alloc : Z -> bool * bool) (d : HpackDecoder) :
  bytes block -> zlen block < 2 ^ 62 -> zlen buffer < 2 ^ 62 -> 0 <= limit < 2 ^ 64 -> 0 <= headerCapacity ->
  table_safe (hd_maxTableSize d) (hd_table d) ->
  let '(r, d') := Decode (Bytes block) headerCapacity buffer limit alloc d in
  hd_maxTableSize d' = hd_maxTableSize d /\ table_safe (hd_maxTableSize d) (hd_table d')
  /\ match r with
     | Ok (refs, buffer', used) =>
         zlen buffer' = zlen buffer /\ 0 <= used <= zlen buffer
         /\ Forall (ref_in used) refs /\ zlen refs <= headerCapacity /\ refs_size refs <= limit
     | Err s => s <> STATUS_OTHER 0 /\ s <> STATUS_SUCCESS
     end.
Proof. exact (decode_is_safe block buffer headerCapacity limit alloc d). Qed.

(** *** Examples *)

Definition new_encoder : HpackEncoder := MkEncoder table_default 4096 4096 false.
Definition new_decoder : HpackDecoder := MkDecoder table_default 4096.
Definition example_encoder : HpackEncoder := (Encoder_Initialize 256 true true new_encoder).2.
Definition example_decoder : HpackDecoder := (Decoder_Initialize 256 true true new_decoder).2.
Definition alloc_ok (i : Z) : bool * bool := (true, true).
Definition example_headers : list HttpHeader :=
  [MkHeader (Bytes (str ":method")) (Bytes (str "GET"));
   MkHeader (Bytes (str "X-Id")) (Bytes (str "7"));
   MkHeader (Bytes (str "cookie")) (Null 0)].
Definition example_block : list Z := [130; 64; 4; 88; 45; 73; 100; 1; 55; 31; 17; 0].

Lemma str_ok s : zlen (str s) < 2 ^ 30 -> span_ok (Bytes (str s)).
Proof.
  intros Hl. split; [|done]. unfold str. apply Forall_forall. intros x Hx. apply list_elem_of_fmap in Hx as (a & -> & _).
  unfold is_byte. pose proof (N_ascii_bounded a). lia.
Qed.

Lemma example_synced : synced example_encoder example_decoder.
Proof. by apply (synced_initial 256 new_encoder new_decoder). Qed.

(** A block that does not fit leaves its insertions in the encoder's table: the
    caller that drops it is out of step with the peer. *)
Example failed_block_keeps_insertions :
  let '(r, e') := Encode [MkHeader (Bytes (str "x-id")) (Bytes (str "7")); MkHeader (Bytes (str "x-id")) (Bytes (str "8"))]
                    8 alloc_ok example_encoder in
  r = Err STATUS_BUFFER_TOO_SMALL /\ fields (he_table e') = [(str "x-id", str "7")].
Proof. by vm_compute. Qed.

Lemma hpack_roundtrip_witness :
  exists refs buffer' used d',
    Decode (Bytes example_block) 8 (replicate 64 0) MAXU64 alloc_ok example_decoder = (Ok (refs, buffer', used), d')
    /\ Forall2 (decodes_to (MkCursor 0 buffer' used)) refs example_headers.
Proof.
  destruct (Encode example_headers 64 alloc_ok example_encoder) as [r e'] eqn:E.
  assert (Er : r = Ok example_block).
  { apply (f_equal fst) in E. cbn [fst] in E. rewrite <- E. by vm_compute. }
  rewrite Er in E.
  assert (Hh : Forall header_ok example_headers).
  { apply Forall_cons; split; [split; by apply str_ok|]. apply Forall_cons; split; [split; by apply str_ok|].
    apply Forall_cons; split; [split; [by apply str_ok|done]|]. apply Forall_nil_2. }
  destruct (hpack_roundtrip example_encoder e' example_decoder example_headers 64 alloc_ok alloc_ok example_block
    (replicate 64 0) 8 MAXU64 example_synced Hh) as (_ & refs & buffer' & used & d' & H & _ & _ & Hall & _);
    [lia|exact E|done|by vm_compute|by vm_compute|by vm_compute|by vm_compute|by vm_compute|].
  exists refs, buffer', used, d'. by split.
Defined.

(** A size update that the decoder did not allow, then an indexed field. *)
Lemma hpack_decode_safe_witness :
  let '(r, d') := Decode (Bytes [0x3f; 0xff; 0x7f; 0x82]) 8 (replicate 64 0) 1000 alloc_ok example_decoder in
  table_safe 256 (hd_table d') /\ match r with Ok (refs, _, _) => zlen refs <= 8 | Err s => s <> STATUS_OTHER 0 end.
Proof.
  assert (Hb : bytes [0x3f; 0xff; 0x7f; 0x82]) by (repeat (apply Forall_cons; split; [by split|]); apply Forall_nil_2).
  assert (Ht : table_safe (hd_maxTableSize example_decoder) (hd_table example_decoder)).
  { destruct example_synced as (_ & Hok & _). split; [exact Hok|]. by vm_compute. }
  pose proof (hpack_decode_safe [0x3f; 0xff; 0x7f; 0x82] (replicate 64 0) 8 1000 alloc_ok example_decoder Hb
    ltac:(by vm_compute) ltac:(by vm_compute) ltac:(lia) ltac:(lia) Ht) as H.
  destruct (Decode _ _ _ _ _ _) as [r d']. destruct H as (_ & Hsafe & H). split; [exact Hsafe|].
  destruct r as [[[refs b] u]|s]; tauto.
Defined.
