(* ===== verification/Http2Frame.v ===== *)
(** * HTTP/2 frames (src/wknetlib/http2/Http2Frame.cpp)

    [Http2FrameCodec]: the frame header, an encoder per frame type, the decoders
    of the payloads, and the removal of padding and priority.  An encoder
    returns the bytes it writes at [dest]; their number is [*bytesWritten]; a
    decoder that fills several out-parameters returns them together.  Pointers
    to outputs are not null; an input pointer with its length is a [span].  A
    frame type is its byte, because the header decoder keeps unknown ones. *)

From S2P Require Import Prelude Base64.

(** ** Constants *)

Definition Http2FrameHeaderLength : Z := 9.
Definition Http2DefaultMaxFrameSize : Z := 16384.
Definition Http2MaxAllowedFrameSize : Z := 16777215.
Definition Http2InitialWindowSize : Z := 65535.
Definition Http2MaxWindowSize : Z := 0x7fffffff.

(** [enum class Http2FrameType] *)
Definition FrameType_Data : Z := 0x0.
Definition FrameType_Headers : Z := 0x1.
Definition FrameType_Priority : Z := 0x2.
Definition FrameType_RstStream : Z := 0x3.
Definition FrameType_Settings : Z := 0x4.
Definition FrameType_PushPromise : Z := 0x5.
Definition FrameType_Ping : Z := 0x6.
Definition FrameType_GoAway : Z := 0x7.
Definition FrameType_WindowUpdate : Z := 0x8.
Definition FrameType_Continuation : Z := 0x9.

(** [namespace Http2FrameFlags] *)
Definition Flag_EndStream : Z := 0x01.
Definition Flag_Ack : Z := 0x01.
Definition Flag_EndHeaders : Z := 0x04.
Definition Flag_Padded : Z := 0x08.
Definition Flag_Priority : Z := 0x20.

(** [enum class Http2ErrorCode] *)
Definition ErrorCode_NoError : Z := 0x0.
Definition ErrorCode_ProtocolError : Z := 0x1.
Definition ErrorCode_FlowControlError : Z := 0x3.
Definition ErrorCode_SettingsTimeout : Z := 0x4.
Definition ErrorCode_FrameSizeError : Z := 0x6.
Definition ErrorCode_RefusedStream : Z := 0x7.
Definition ErrorCode_CompressionError : Z := 0x9.
Definition ErrorCode_EnhanceYourCalm : Z := 0xb.

(** [enum class Http2SettingId] *)
Definition SettingId_HeaderTableSize : Z := 0x1.
Definition SettingId_EnablePush : Z := 0x2.
Definition SettingId_MaxConcurrentStreams : Z := 0x3.
Definition SettingId_InitialWindowSize : Z := 0x4.
Definition SettingId_MaxFrameSize : Z := 0x5.
Definition SettingId_MaxHeaderListSize : Z := 0x6.
Definition SettingId_EnableConnectProtocol : Z := 0x8.

(** ** Data *)

Record Http2Settings := MkSettings {
  st_HeaderTableSize : Z;
  st_EnablePush : Z;
  st_MaxConcurrentStreams : Z;
  st_InitialWindowSize : Z;
  st_MaxFrameSize : Z;
  st_MaxHeaderListSize : Z;
  st_EnableConnectProtocol : Z;
}.
#[export] Instance Http2Settings_eta : Eta Http2Settings := fun x =>
  MkSettings (st_HeaderTableSize x) (st_EnablePush x) (st_MaxConcurrentStreams x) (st_InitialWindowSize x)
    (st_MaxFrameSize x) (st_MaxHeaderListSize x) (st_EnableConnectProtocol x).
Definition settings_default : Http2Settings := MkSettings 4096 0 100 65535 16384 65536 0.

Record Http2FrameHeader := MkFrameHeader { fh_Length : Z; fh_Type : Z; fh_Flags : Z; fh_StreamId : Z }.

Record Http2Priority := MkPriority { pr_StreamDependency : Z; pr_Weight : Z; pr_Exclusive : bool }.

(** ** Integers on the wire *)

Definition WriteUint24BE (value : Z) : list Z :=
  [u8 (Z.land (Z.shiftr value 16) 0xff); u8 (Z.land (Z.shiftr value 8) 0xff); u8 (Z.land value 0xff)].
Definition ReadUint24BE (src : list Z) : Z :=
  Z.lor (Z.lor (u32 (Z.shiftl (zget src 0) 16)) (u32 (Z.shiftl (zget src 1) 8))) (zget src 2).

Definition WriteUint32BE (value : Z) : list Z :=
  [u8 (Z.land (Z.shiftr value 24) 0xff); u8 (Z.land (Z.shiftr value 16) 0xff);
   u8 (Z.land (Z.shiftr value 8) 0xff); u8 (Z.land value 0xff)].
Definition ReadUint32BE (src : list Z) : Z :=
  Z.lor (Z.lor (Z.lor (u32 (Z.shiftl (zget src 0) 24)) (u32 (Z.shiftl (zget src 1) 16)))
           (u32 (Z.shiftl (zget src 2) 8))) (zget src 3).

Definition WriteUint16BE (value : Z) : list Z :=
  [u8 (Z.land (Z.shiftr value 8) 0xff); u8 (Z.land value 0xff)].
Definition ReadUint16BE (src : list Z) : Z :=
  Z.lor (Z.shiftl (zget src 0) 8) (zget src 1) mod 2 ^ 16.

(** ** Frame header *)

Definition EncodeFrameHeader (header : Http2FrameHeader) (capacity : Z) : Result (list Z) :=
  if capacity <? Http2FrameHeaderLength then Err STATUS_BUFFER_TOO_SMALL
  else if fh_Length header >? Http2MaxAllowedFrameSize then Err STATUS_INVALID_PARAMETER
  else if negb (Z.land (fh_StreamId header) 0x80000000 =? 0) then Err STATUS_INVALID_PARAMETER
  else
    Ok (WriteUint24BE (fh_Length header) ++ [u8 (fh_Type header); u8 (fh_Flags header)]
        ++ WriteUint32BE (Z.land (fh_StreamId header) 0x7fffffff)).

Definition DecodeFrameHeader (src : span) : Result Http2FrameHeader :=
  if sp_isnull src then Err STATUS_INVALID_PARAMETER
  else if sp_len src <? Http2FrameHeaderLength then Err STATUS_MORE_PROCESSING_REQUIRED
  else
    let src := sp_bytes src in
    Ok (MkFrameHeader (ReadUint24BE src) (zget src 3) (zget src 4)
          (Z.land (ReadUint32BE (zdrop 5 src)) 0x7fffffff)).

(** [payload] may be null when its length is 0. *)
Definition null_payload (payload : span) : bool := sp_isnull payload && (sp_len payload >? 0).

Definition EncodeFrame (header : Http2FrameHeader) (payload : span) (capacity : Z) : Result (list Z) :=
  if null_payload payload then Err STATUS_INVALID_PARAMETER
  else if negb (fh_Length header =? u32 (sp_len payload)) then Err STATUS_INVALID_PARAMETER
  else if capacity <? Http2FrameHeaderLength +! sp_len payload then Err STATUS_BUFFER_TOO_SMALL
  else
    out ← EncodeFrameHeader header capacity;
    Ok (out ++ sp_bytes payload).

(** ** Settings *)

Definition writeSetting (id value : Z) : list Z := WriteUint16BE id ++ WriteUint32BE value.

Definition settings_payload (s : Http2Settings) : list Z :=
  writeSetting SettingId_HeaderTableSize (st_HeaderTableSize s)
  ++ writeSetting SettingId_EnablePush (st_EnablePush s)
  ++ writeSetting SettingId_MaxConcurrentStreams (st_MaxConcurrentStreams s)
  ++ writeSetting SettingId_InitialWindowSize (st_InitialWindowSize s)
  ++ writeSetting SettingId_MaxFrameSize (st_MaxFrameSize s)
  ++ writeSetting SettingId_MaxHeaderListSize (st_MaxHeaderListSize s)
  ++ writeSetting SettingId_EnableConnectProtocol (st_EnableConnectProtocol s).

Definition SettingsPayloadLen : Z := 7 * 6.

Definition EncodeSettings (s : Http2Settings) (capacity : Z) : Result (list Z) :=
  if capacity <? Http2FrameHeaderLength + SettingsPayloadLen then Err STATUS_BUFFER_TOO_SMALL
  else
    out ← EncodeFrameHeader (MkFrameHeader SettingsPayloadLen FrameType_Settings 0 0) capacity;
    Ok (out ++ settings_payload s).

Definition EncodeSettingsAck (capacity : Z) : Result (list Z) :=
  if capacity <? Http2FrameHeaderLength then Err STATUS_BUFFER_TOO_SMALL
  else EncodeFrameHeader (MkFrameHeader 0 FrameType_Settings Flag_Ack 0) capacity.

(** One turn of the loop of [DecodeSettingsPayload]. *)
Definition apply_setting (id value : Z) (s : Http2Settings) : Result Http2Settings :=
  if id =? SettingId_HeaderTableSize then Ok (s <| st_HeaderTableSize := value |>)
  else if id =? SettingId_EnablePush then
    if value >? 1 then Err STATUS_INVALID_NETWORK_RESPONSE else Ok (s <| st_EnablePush := value |>)
  else if id =? SettingId_MaxConcurrentStreams then Ok (s <| st_MaxConcurrentStreams := value |>)
  else if id =? SettingId_InitialWindowSize then
    if value >? Http2MaxWindowSize then Err STATUS_INVALID_NETWORK_RESPONSE
    else Ok (s <| st_InitialWindowSize := value |>)
  else if id =? SettingId_MaxFrameSize then
    if (value <? Http2DefaultMaxFrameSize) || (value >? Http2MaxAllowedFrameSize)
    then Err STATUS_INVALID_NETWORK_RESPONSE
    else Ok (s <| st_MaxFrameSize := value |>)
  else if id =? SettingId_MaxHeaderListSize then Ok (s <| st_MaxHeaderListSize := value |>)
  else if id =? SettingId_EnableConnectProtocol then
    if value >? 1 then Err STATUS_INVALID_NETWORK_RESPONSE
    else Ok (s <| st_EnableConnectProtocol := value |>)
  else Ok s.

(** [while (offset < payloadLen)]; the length is a multiple of 6. *)
Fixpoint decode_settings_loop (payload : list Z) (s : Http2Settings) : NTSTATUS * Http2Settings :=
  match payload with
  | i0 :: i1 :: v0 :: v1 :: v2 :: v3 :: rest =>
      match apply_setting (ReadUint16BE [i0; i1]) (ReadUint32BE [v0; v1; v2; v3]) s with
      | Err status => (status, s)
      | Ok s => decode_settings_loop rest s
      end
  | _ => (STATUS_SUCCESS, s)
  end.

(** [*settings] is updated in place, so it is returned on failure too. *)
Definition DecodeSettingsPayload (payload : span) (s : Http2Settings) : NTSTATUS * Http2Settings :=
  if null_payload payload then (STATUS_INVALID_PARAMETER, s)
  else if negb (sp_len payload mod 6 =? 0) then (STATUS_INVALID_NETWORK_RESPONSE, s)
  else decode_settings_loop (sp_bytes payload) s.

(** ** The HTTP2-Settings token *)

Definition Base64UrlChar (value : Z) : Z :=
  if value <? 26 then 65 + value
  else if value <? 52 then 97 + (value - 26)
  else if value <? 62 then 48 + (value - 52)
  else if value =? 62 then 45 else 95.

Definition sextet (value shift : Z) : Z := Base64UrlChar (u8 (Z.land (Z.shiftr value shift) 0x3f)).

(** The loop over triples, and the one or two bytes left; [output] is
    [output[0 .. out)]. *)
Fixpoint base64_loop (input : list Z) (capacity : Z) (output : list Z) : Result (list Z) :=
  match input with
  | [] => Ok output
  | [a] =>
      if zlen output +! 2 >? capacity then Err STATUS_BUFFER_TOO_SMALL
      else let value := u32 (Z.shiftl a 16) in Ok (output ++ [sextet value 18; sextet value 12])
  | [a; b] =>
      if zlen output +! 3 >? capacity then Err STATUS_BUFFER_TOO_SMALL
      else
        let value := Z.lor (u32 (Z.shiftl a 16)) (u32 (Z.shiftl b 8)) in
        Ok (output ++ [sextet value 18; sextet value 12; sextet value 6])
  | a :: b :: c :: rest =>
      if zlen output +! 4 >? capacity then Err STATUS_BUFFER_TOO_SMALL
      else
        let value := Z.lor (Z.lor (u32 (Z.shiftl a 16)) (u32 (Z.shiftl b 8))) c in
        base64_loop rest capacity
          (output ++ [sextet value 18; sextet value 12; sextet value 6; sextet value 0])
  end.

Definition Base64UrlEncode (input : span) (capacity : Z) : Result (list Z) :=
  if sp_isnull input then Err STATUS_INVALID_PARAMETER else base64_loop (sp_bytes input) capacity [].

(** [heap_ok]: the allocation of the frame succeeds. *)
Definition EncodeSettingsPayloadBase64Url (s : Http2Settings) (capacity : Z) (heap_ok : bool) : Result (list Z) :=
  if negb heap_ok then Err STATUS_INSUFFICIENT_RESOURCES
  else
    frame ← EncodeSettings s (Http2FrameHeaderLength + 7 * 6);
    Base64UrlEncode (Bytes (zdrop Http2FrameHeaderLength frame)) capacity.

(** ** WINDOW_UPDATE, PING, GOAWAY, RST_STREAM *)

Definition EncodeWindowUpdate (streamId increment capacity : Z) : Result (list Z) :=
  if (increment =? 0) || (increment >? Http2MaxWindowSize) then Err STATUS_INVALID_PARAMETER
  else if capacity <? Http2FrameHeaderLength + 4 then Err STATUS_BUFFER_TOO_SMALL
  else
    out ← EncodeFrameHeader (MkFrameHeader 4 FrameType_WindowUpdate 0 streamId) capacity;
    Ok (out ++ WriteUint32BE (Z.land increment 0x7fffffff)).

Definition DecodeWindowUpdatePayload (payload : span) : Result Z :=
  if sp_isnull payload then Err STATUS_INVALID_PARAMETER
  else if negb (sp_len payload =? 4) then Err STATUS_INVALID_NETWORK_RESPONSE
  else
    let increment := Z.land (ReadUint32BE (sp_bytes payload)) 0x7fffffff in
    if increment =? 0 then Err STATUS_INVALID_NETWORK_RESPONSE else Ok increment.

(** [opaqueData] points to at least 8 bytes. *)
Definition EncodePing (opaqueData : span) (ack : bool) (capacity : Z) : Result (list Z) :=
  if sp_isnull opaqueData then Err STATUS_INVALID_PARAMETER
  else if capacity <? Http2FrameHeaderLength + 8 then Err STATUS_BUFFER_TOO_SMALL
  else
    out ← EncodeFrameHeader (MkFrameHeader 8 FrameType_Ping (if ack then Flag_Ack else 0) 0) capacity;
    Ok (out ++ zsub (sp_bytes opaqueData) 0 8).

Definition EncodeGoAway (lastStreamId errorCode capacity : Z) : Result (list Z) :=
  if capacity <? Http2FrameHeaderLength + 8 then Err STATUS_BUFFER_TOO_SMALL
  else
    out ← EncodeFrameHeader (MkFrameHeader 8 FrameType_GoAway 0 0) capacity;
    Ok (out ++ WriteUint32BE (Z.land lastStreamId 0x7fffffff) ++ WriteUint32BE errorCode).

(** The last stream id and the error code. *)
Definition DecodeGoAwayPayload (payload : span) : Result (Z * Z) :=
  if sp_isnull payload || (sp_len payload <? 8) then Err STATUS_INVALID_NETWORK_RESPONSE
  else
    Ok (Z.land (ReadUint32BE (sp_bytes payload)) 0x7fffffff, ReadUint32BE (zdrop 4 (sp_bytes payload))).

Definition EncodeRstStream (streamId errorCode capacity : Z) : Result (list Z) :=
  if streamId =? 0 then Err STATUS_INVALID_PARAMETER
  else if capacity <? Http2FrameHeaderLength + 4 then Err STATUS_BUFFER_TOO_SMALL
  else
    out ← EncodeFrameHeader (MkFrameHeader 4 FrameType_RstStream 0 streamId) capacity;
    Ok (out ++ WriteUint32BE errorCode).

Definition DecodeRstStreamPayload (payload : span) : Result Z :=
  if sp_isnull payload then Err STATUS_INVALID_PARAMETER
  else if negb (sp_len payload =? 4) then Err STATUS_INVALID_NETWORK_RESPONSE
  else Ok (ReadUint32BE (sp_bytes payload)).

(** ** PRIORITY *)

Definition ValidatePriority (streamId : Z) (p : Http2Priority) : NTSTATUS :=
  if (streamId =? 0) || negb (Z.land streamId 0x80000000 =? 0)
     || negb (Z.land (pr_StreamDependency p) 0x80000000 =? 0)
     || (pr_StreamDependency p =? streamId) || (pr_Weight p =? 0) || (pr_Weight p >? 256)
  then STATUS_INVALID_PARAMETER
  else STATUS_SUCCESS.

Definition WritePriorityPayload (p : Http2Priority) : list Z :=
  let dependency := Z.land (pr_StreamDependency p) 0x7fffffff in
  let dependency := if pr_Exclusive p then Z.lor dependency 0x80000000 else dependency in
  WriteUint32BE dependency ++ [u8 (pr_Weight p - 1)].

Definition EncodePriority (streamId : Z) (p : Http2Priority) (capacity : Z) : Result (list Z) :=
  let status := ValidatePriority streamId p in
  if negb (NT_SUCCESS status) then Err status
  else if capacity <? Http2FrameHeaderLength + 5 then Err STATUS_BUFFER_TOO_SMALL
  else
    out ← EncodeFrameHeader (MkFrameHeader 5 FrameType_Priority 0 streamId) capacity;
    Ok (out ++ WritePriorityPayload p).

Definition DecodePriorityPayload (streamId : Z) (payload : span) : Result Http2Priority :=
  if sp_isnull payload then Err STATUS_INVALID_PARAMETER
  else if (streamId =? 0) || negb (Z.land streamId 0x80000000 =? 0) then Err STATUS_INVALID_PARAMETER
  else if negb (sp_len payload =? 5) then Err STATUS_INVALID_NETWORK_RESPONSE
  else
    let dependency := ReadUint32BE (sp_bytes payload) in
    let p := MkPriority (Z.land dependency 0x7fffffff) (zget (sp_bytes payload) 4 + 1)
               (negb (Z.land dependency 0x80000000 =? 0)) in
    if pr_StreamDependency p =? streamId then Err STATUS_INVALID_NETWORK_RESPONSE else Ok p.

(** ** HEADERS, CONTINUATION, DATA *)

Definition or_flag (b : bool) (flag flags : Z) : Z := if b then Z.lor flags flag else flags.

Definition EncodeHeaders (streamId : Z) (headerBlock : span) (endStream endHeaders : bool) (capacity : Z)
    : Result (list Z) :=
  if streamId =? 0 then Err STATUS_INVALID_PARAMETER
  else if null_payload headerBlock then Err STATUS_INVALID_PARAMETER
  else if sp_len headerBlock >? Http2MaxAllowedFrameSize then Err STATUS_INVALID_PARAMETER
  else if capacity <? Http2FrameHeaderLength + sp_len headerBlock then Err STATUS_BUFFER_TOO_SMALL
  else
    let flags := or_flag endHeaders Flag_EndHeaders (or_flag endStream Flag_EndStream 0) in
    out ← EncodeFrameHeader (MkFrameHeader (sp_len headerBlock) FrameType_Headers flags streamId) capacity;
    Ok (out ++ sp_bytes headerBlock).

Definition EncodeHeadersWithPriority (streamId : Z) (headerBlock : span) (p : Http2Priority)
    (endStream endHeaders : bool) (capacity : Z) : Result (list Z) :=
  let status := ValidatePriority streamId p in
  if negb (NT_SUCCESS status) then Err status
  else if null_payload headerBlock then Err STATUS_INVALID_PARAMETER
  else if sp_len headerBlock >? Http2MaxAllowedFrameSize - 5 then Err STATUS_INVALID_PARAMETER
  else
    let payloadLen := 5 + sp_len headerBlock in
    if capacity <? Http2FrameHeaderLength + payloadLen then Err STATUS_BUFFER_TOO_SMALL
    else
      let flags := or_flag endHeaders Flag_EndHeaders (or_flag endStream Flag_EndStream Flag_Priority) in
      out ← EncodeFrameHeader (MkFrameHeader payloadLen FrameType_Headers flags streamId) capacity;
      Ok (out ++ WritePriorityPayload p ++ sp_bytes headerBlock).

Definition EncodeContinuation (streamId : Z) (block : span) (endHeaders : bool) (capacity : Z)
    : Result (list Z) :=
  if streamId =? 0 then Err STATUS_INVALID_PARAMETER
  else if null_payload block then Err STATUS_INVALID_PARAMETER
  else if sp_len block >? Http2MaxAllowedFrameSize then Err STATUS_INVALID_PARAMETER
  else if capacity <? Http2FrameHeaderLength + sp_len block then Err STATUS_BUFFER_TOO_SMALL
  else
    let flags := if endHeaders then Flag_EndHeaders else 0 in
    out ← EncodeFrameHeader (MkFrameHeader (sp_len block) FrameType_Continuation flags streamId) capacity;
    Ok (out ++ sp_bytes block).

Definition EncodeData (streamId : Z) (data : span) (endStream : bool) (capacity : Z) : Result (list Z) :=
  if streamId =? 0 then Err STATUS_INVALID_PARAMETER
  else if null_payload data then Err STATUS_INVALID_PARAMETER
  else if sp_len data >? Http2MaxAllowedFrameSize then Err STATUS_INVALID_PARAMETER
  else if capacity <? Http2FrameHeaderLength + sp_len data then Err STATUS_BUFFER_TOO_SMALL
  else
    let flags := if endStream then Flag_EndStream else 0 in
    out ← EncodeFrameHeader (MkFrameHeader (sp_len data) FrameType_Data flags streamId) capacity;
    Ok (out ++ sp_bytes data).

(** ** Padding and priority of a received frame *)

Definition StripPadding (flags : Z) (payload : span) : Result span :=
  if null_payload payload then Err STATUS_INVALID_PARAMETER
  else if Z.land flags Flag_Padded =? 0 then Ok payload
  else if sp_len payload <? 1 then Err STATUS_INVALID_NETWORK_RESPONSE
  else
    let padLength := zget (sp_bytes payload) 0 in
    if padLength >=? sp_len payload then Err STATUS_INVALID_NETWORK_RESPONSE
    else Ok (Bytes (zsub (sp_bytes payload) 1 (sp_len payload - 1 - padLength))).

Definition StripPriority (flags : Z) (payload : span) : Result span :=
  if null_payload payload then Err STATUS_INVALID_PARAMETER
  else if Z.land flags Flag_Priority =? 0 then Ok payload
  else if sp_len payload <? 5 then Err STATUS_INVALID_NETWORK_RESPONSE
  else Ok (Bytes (zsub (sp_bytes payload) 5 (sp_len payload - 5))).

(** ** Frames

    What the encoders send, as one type; [encode_frame] is the encoder of the
    frame, [frame_header] and [frame_payload] what it puts on the wire. *)

Inductive frame :=
  | DATA (streamId : Z) (data : list Z) (endStream : bool)
  | HEADERS (streamId : Z) (block : list Z) (priority : option Http2Priority) (endStream endHeaders : bool)
  | CONTINUATION (streamId : Z) (block : list Z) (endHeaders : bool)
  | PRIORITY (streamId : Z) (priority : Http2Priority)
  | RST_STREAM (streamId errorCode : Z)
  | SETTINGS (settings : Http2Settings)
  | SETTINGS_ACK
  | PING (opaqueData : list Z) (ack : bool)
  | GOAWAY (lastStreamId errorCode : Z)
  | WINDOW_UPDATE (streamId increment : Z)
  | FRAME (header : Http2FrameHeader) (payload : list Z).

Definition encode_frame (f : frame) (capacity : Z) : Result (list Z) :=
  match f with
  | DATA streamId data endStream => EncodeData streamId (Bytes data) endStream capacity
  | HEADERS streamId block None endStream endHeaders =>
      EncodeHeaders streamId (Bytes block) endStream endHeaders capacity
  | HEADERS streamId block (Some p) endStream endHeaders =>
      EncodeHeadersWithPriority streamId (Bytes block) p endStream endHeaders capacity
  | CONTINUATION streamId block endHeaders => EncodeContinuation streamId (Bytes block) endHeaders capacity
  | PRIORITY streamId p => EncodePriority streamId p capacity
  | RST_STREAM streamId errorCode => EncodeRstStream streamId errorCode capacity
  | SETTINGS s => EncodeSettings s capacity
  | SETTINGS_ACK => EncodeSettingsAck capacity
  | PING opaqueData ack => EncodePing (Bytes opaqueData) ack capacity
  | GOAWAY lastStreamId errorCode => EncodeGoAway lastStreamId errorCode capacity
  | WINDOW_UPDATE streamId increment => EncodeWindowUpdate streamId increment capacity
  | FRAME header payload => EncodeFrame header (Bytes payload) capacity
  end.

(** ** Integers on the wire: facts *)

Lemma wire_byte v k : 0 <= k -> u8 (Z.land (Z.shiftr v k) 0xff) = v / 2 ^ k mod 256.
Proof. intros. rewrite land_255, Z.shiftr_div_pow2 by lia. unfold u8. by rewrite Z.mod_mod. Qed.
Lemma wire_byte_0 v : u8 (Z.land v 0xff) = v mod 256.
Proof. rewrite land_255. unfold u8. by rewrite Z.mod_mod. Qed.

Lemma u32_shift b k : is_byte b -> 0 <= k <= 24 -> u32 (Z.shiftl b k) = b * 2 ^ k.
Proof.
  unfold is_byte. intros. rewrite Z.shiftl_mul_pow2 by lia. apply u32_id.
  assert (2 ^ k <= 2 ^ 24) by (apply Z.pow_le_mono_r; lia). pose proof (Z.pow_nonneg 2 k ltac:(lia)). nia.
Qed.

Lemma read32_value a b c d l :
  is_byte a -> is_byte b -> is_byte c -> is_byte d ->
  ReadUint32BE (a :: b :: c :: d :: l) = a * 2 ^ 24 + b * 2 ^ 16 + c * 2 ^ 8 + d.
Proof.
  intros Ha Hb Hc Hd. unfold ReadUint32BE.
  change (zget _ 0) with a. change (zget _ 1) with b. change (zget _ 2) with c. change (zget _ 3) with d.
  rewrite !u32_shift by (done || lia). unfold is_byte in *.
  rewrite lor_disjoint by lia.
  replace (a * 2 ^ 24 + b * 2 ^ 16) with ((a * 2 ^ 8 + b) * 2 ^ 16) by lia. rewrite lor_disjoint by lia.
  replace ((a * 2 ^ 8 + b) * 2 ^ 16 + c * 2 ^ 8) with ((a * 2 ^ 16 + b * 2 ^ 8 + c) * 2 ^ 8) by lia.
  rewrite lor_disjoint by lia. lia.
Qed.
Lemma read24_value a b c l :
  is_byte a -> is_byte b -> is_byte c -> ReadUint24BE (a :: b :: c :: l) = a * 2 ^ 16 + b * 2 ^ 8 + c.
Proof.
  intros Ha Hb Hc. unfold ReadUint24BE. change (zget _ 0) with a. change (zget _ 1) with b. change (zget _ 2) with c.
  rewrite !u32_shift by (done || lia). unfold is_byte in *. rewrite lor_disjoint by lia.
  replace (a * 2 ^ 16 + b * 2 ^ 8) with ((a * 2 ^ 8 + b) * 2 ^ 8) by lia. rewrite lor_disjoint by lia. lia.
Qed.
Lemma read16_value a b l : is_byte a -> is_byte b -> ReadUint16BE (a :: b :: l) = a * 2 ^ 8 + b.
Proof.
  intros Ha Hb. unfold ReadUint16BE. change (zget _ 0) with a. change (zget _ 1) with b. unfold is_byte in *.
  rewrite Z.shiftl_mul_pow2, lor_disjoint, Z.mod_small by lia. done.
Qed.

Lemma mod_byte x : is_byte (x mod 256).
Proof. apply Z.mod_pos_bound. lia. Qed.
#[local] Hint Resolve mod_byte : core.

Lemma read_write32 v l : is_u32 v -> ReadUint32BE (WriteUint32BE v ++ l) = v.
Proof.
  unfold is_u32, WriteUint32BE. intros. cbn [app].
  rewrite !wire_byte, wire_byte_0, read32_value by (done || lia). Z.to_euclidean_division_equations. lia.
Qed.
Lemma read_write24 v l : 0 <= v < 2 ^ 24 -> ReadUint24BE (WriteUint24BE v ++ l) = v.
Proof.
  unfold WriteUint24BE. intros. cbn [app].
  rewrite !wire_byte, wire_byte_0, read24_value by (done || lia). Z.to_euclidean_division_equations. lia.
Qed.
Lemma write32_len v : zlen (WriteUint32BE v) = 4. Proof. done. Qed.
Lemma write24_len v : zlen (WriteUint24BE v) = 3. Proof. done. Qed.

Lemma read32_range l : bytes l -> 4 <= zlen l -> is_u32 (ReadUint32BE l).
Proof.
  intros Hl Hn. destruct l as [|a [|b [|c [|d l]]]]; try (zlen_simpl; unfold zlen in *; cbn in *; lia).
  repeat (apply Forall_cons in Hl as [? Hl]). rewrite read32_value by done. unfold is_byte, is_u32 in *. lia.
Qed.

Lemma mask31 v : Z.land v 0x7fffffff = v mod 2 ^ 31.
Proof. by apply (land_ones_mod v 31). Qed.
Lemma mask31_id v : 0 <= v < 2 ^ 31 -> Z.land v 0x7fffffff = v.
Proof. intros. rewrite mask31. by apply Z.mod_small. Qed.
(** The top bit of a 32-bit value. *)
Lemma top_bit v : is_u32 v -> Z.land v 0x80000000 = if v <? 2 ^ 31 then 0 else 2 ^ 31.
Proof.
  unfold is_u32. intros Hv. apply Z.bits_inj'. intros i Hi. rewrite Z.land_spec.
  change 0x80000000 with (2 ^ 31). rewrite Z.pow2_bits_eqb by lia.
  destruct (Z.eqb_spec 31 i) as [<-|Hn]; [|rewrite andb_false_r; case_if; [by rewrite Z.bits_0|]].
  - rewrite andb_true_r, Z.testbit_eqb by lia. destruct (Z.ltb_spec v (2 ^ 31)) as [H|H].
    + by rewrite Z.div_small by lia.
    + assert (v / 2 ^ 31 = 1) as -> by (Z.to_euclidean_division_equations; lia). done.
  - rewrite Z.pow2_bits_eqb by lia. by rewrite (proj2 (Z.eqb_neq _ _) Hn).
Qed.
Lemma top_bit_clear v : is_u32 v -> (Z.land v 0x80000000 =? 0) = (v <? 2 ^ 31).
Proof. intros. rewrite top_bit by done. by destruct (v <? 2 ^ 31). Qed.

(** ** The frame header *)

Definition header_ok (h : Http2FrameHeader) : Prop :=
  0 <= fh_Length h <= Http2MaxAllowedFrameSize /\ is_byte (fh_Type h) /\ is_byte (fh_Flags h)
  /\ 0 <= fh_StreamId h < 2 ^ 31.

Lemma u8_id b : is_byte b -> u8 b = b.
Proof. apply Z.mod_small. Qed.

(** A header that is in range is written in nine bytes and read back, whatever
    follows it. *)
Lemma header_roundtrip h capacity :
  header_ok h -> Http2FrameHeaderLength <= capacity ->
  exists out, EncodeFrameHeader h capacity = Ok out /\ zlen out = Http2FrameHeaderLength
              /\ forall tail, DecodeFrameHeader (Bytes (out ++ tail)) = Ok h.
Proof.
  unfold Http2FrameHeaderLength, header_ok, Http2MaxAllowedFrameSize. intros (Hl & Ht & Hf & Hs) Hc.
  unfold EncodeFrameHeader, Http2FrameHeaderLength, Http2MaxAllowedFrameSize.
  rewrite top_bit_clear by (unfold is_u32; lia).
  do 2 guard_false. replace (fh_StreamId h <? 2 ^ 31) with true by (symmetry; apply Z.ltb_lt; lia). cbn [negb].
  eexists. split; [done|]. split; [done|]. intros tail.
  unfold DecodeFrameHeader, Http2FrameHeaderLength. cbn [sp_isnull sp_len sp_bytes].
  assert (Hlen : (zlen ((WriteUint24BE (fh_Length h) ++ [u8 (fh_Type h); u8 (fh_Flags h)] ++
      WriteUint32BE (Z.land (fh_StreamId h) 2147483647)) ++ tail) <? 9) = false).
  { apply Z.ltb_ge. rewrite !zlen_app, write24_len, write32_len. pose proof (zlen_nonneg tail). rewrite !zlen_cons, zlen_nil. lia. }
  rewrite Hlen. f_equal. rewrite <- !app_assoc, read_write24 by lia.
  change (zget _ 3) with (u8 (fh_Type h)). change (zget _ 4) with (u8 (fh_Flags h)).
  change (zdrop 5 _) with (WriteUint32BE (Z.land (fh_StreamId h) 2147483647) ++ tail).
  rewrite (mask31_id (fh_StreamId h)), read_write32, mask31_id, !u8_id by (done || lia || unfold is_u32; lia).
  by destruct h.
Qed.

(** What is decoded is in range. *)
Lemma header_decoded src h : bytes (sp_bytes src) -> DecodeFrameHeader src = Ok h ->
  header_ok h /\ Http2FrameHeaderLength <= sp_len src.
Proof.
  unfold DecodeFrameHeader, header_ok. destruct src as [|l]; [done|]. cbn [sp_isnull sp_len sp_bytes].
  intros Hl H. case_ok H. injection H as <-. cbn [fh_Length fh_Type fh_Flags fh_StreamId].
  unfold Http2FrameHeaderLength in *. split; [|lia].
  assert (0 <= ReadUint24BE l < 2 ^ 24).
  { destruct l as [|a [|b [|c l]]]; try (unfold zlen in *; cbn in *; lia).
    repeat (apply Forall_cons in Hl as [? Hl]). rewrite read24_value by done. unfold is_byte in *. lia. }
  pose proof (zget_byte l 3 Hl). pose proof (zget_byte l 4 Hl). rewrite mask31. unfold Http2MaxAllowedFrameSize.
  pose proof (Z.mod_pos_bound (ReadUint32BE (zdrop 5 l)) (2 ^ 31)). split_and!; try lia; auto with lia.
Qed.

(** ** What the receiver reads *)

Definition priority_ok (streamId : Z) (p : Http2Priority) : Prop :=
  0 <= pr_StreamDependency p < 2 ^ 31 /\ pr_StreamDependency p <> streamId /\ 1 <= pr_Weight p <= 256.

Definition settings_ok (s : Http2Settings) : Prop :=
  is_u32 (st_HeaderTableSize s) /\ 0 <= st_EnablePush s <= 1 /\ is_u32 (st_MaxConcurrentStreams s)
  /\ 0 <= st_InitialWindowSize s <= Http2MaxWindowSize
  /\ Http2DefaultMaxFrameSize <= st_MaxFrameSize s <= Http2MaxAllowedFrameSize
  /\ is_u32 (st_MaxHeaderListSize s) /\ 0 <= st_EnableConnectProtocol s <= 1.

Definition stream_id_ok (streamId : Z) : Prop := 0 < streamId < 2 ^ 31.

(** Seven integers of 32 bits, which need not be legal settings. *)
Definition settings_typed (s : Http2Settings) : Prop :=
  is_u32 (st_HeaderTableSize s) /\ is_u32 (st_EnablePush s) /\ is_u32 (st_MaxConcurrentStreams s)
  /\ is_u32 (st_InitialWindowSize s) /\ is_u32 (st_MaxFrameSize s)
  /\ is_u32 (st_MaxHeaderListSize s) /\ is_u32 (st_EnableConnectProtocol s).

(** The arguments by their types: ULONG and USHORT integers, a PING of eight bytes, a
    payload of fewer than 2^32 bytes. *)
Definition frame_typed (f : frame) : Prop :=
  match f with
  | DATA streamId _ _ | CONTINUATION streamId _ _ | HEADERS streamId _ None _ _ => is_u32 streamId
  | HEADERS streamId _ (Some p) _ _ | PRIORITY streamId p =>
      is_u32 streamId /\ is_u32 (pr_StreamDependency p) /\ 0 <= pr_Weight p < 2 ^ 16
  | RST_STREAM a b | GOAWAY a b | WINDOW_UPDATE a b => is_u32 a /\ is_u32 b
  | SETTINGS s => settings_typed s
  | SETTINGS_ACK => True
  | PING opaqueData _ => zlen opaqueData = 8
  | FRAME header payload =>
      is_u32 (fh_Length header) /\ is_byte (fh_Type header) /\ is_byte (fh_Flags header) /\ is_u32 (fh_StreamId header)
      /\ zlen payload < 2 ^ 32
  end.

(** The arguments that the encoders take; [EncodeSettings] does not look at the values,
    and [EncodeGoAway] clears the reserved bit. *)
Definition frame_ok (f : frame) : Prop :=
  match f with
  | DATA streamId data _ => stream_id_ok streamId /\ zlen data <= Http2MaxAllowedFrameSize
  | HEADERS streamId block None _ _ => stream_id_ok streamId /\ zlen block <= Http2MaxAllowedFrameSize
  | HEADERS streamId block (Some p) _ _ =>
      stream_id_ok streamId /\ priority_ok streamId p /\ zlen block <= Http2MaxAllowedFrameSize - 5
  | CONTINUATION streamId block _ => stream_id_ok streamId /\ zlen block <= Http2MaxAllowedFrameSize
  | PRIORITY streamId p => stream_id_ok streamId /\ priority_ok streamId p
  | RST_STREAM streamId errorCode => stream_id_ok streamId /\ is_u32 errorCode
  | SETTINGS s => settings_typed s
  | SETTINGS_ACK => True
  | PING opaqueData _ => zlen opaqueData = 8
  | GOAWAY lastStreamId errorCode => is_u32 lastStreamId /\ is_u32 errorCode
  | WINDOW_UPDATE streamId increment => 0 <= streamId < 2 ^ 31 /\ 0 < increment <= Http2MaxWindowSize
  | FRAME header payload => header_ok header /\ fh_Length header = zlen payload
  end.

Definition flag_set (flag flags : Z) : bool := negb (Z.land flags flag =? 0).

(** The frame in the terms of the receiver: the type, the stream and the flags
    of the header, and what the decoders make of the payload. *)
Definition frame_reads (f : frame) (h : Http2FrameHeader) (payload : list Z) : Prop :=
  match f with
  | DATA streamId data endStream =>
      fh_Type h = FrameType_Data /\ fh_StreamId h = streamId /\ flag_set Flag_EndStream (fh_Flags h) = endStream
      /\ StripPadding (fh_Flags h) (Bytes payload) = Ok (Bytes data)
  | HEADERS streamId block priority endStream endHeaders =>
      fh_Type h = FrameType_Headers /\ fh_StreamId h = streamId /\ flag_set Flag_EndStream (fh_Flags h) = endStream
      /\ flag_set Flag_EndHeaders (fh_Flags h) = endHeaders
      /\ (StripPadding (fh_Flags h) (Bytes payload) ≫= StripPriority (fh_Flags h)) = Ok (Bytes block)
      /\ match priority with
         | Some p => DecodePriorityPayload streamId (Bytes (zsub payload 0 5)) = Ok p
         | None => payload = block
         end
  | CONTINUATION streamId block endHeaders =>
      fh_Type h = FrameType_Continuation /\ fh_StreamId h = streamId
      /\ flag_set Flag_EndHeaders (fh_Flags h) = endHeaders /\ payload = block
  | PRIORITY streamId p =>
      fh_Type h = FrameType_Priority /\ fh_StreamId h = streamId
      /\ DecodePriorityPayload streamId (Bytes payload) = Ok p
  | RST_STREAM streamId errorCode =>
      fh_Type h = FrameType_RstStream /\ fh_StreamId h = streamId
      /\ DecodeRstStreamPayload (Bytes payload) = Ok errorCode
  | SETTINGS s =>
      fh_Type h = FrameType_Settings /\ fh_StreamId h = 0 /\ flag_set Flag_Ack (fh_Flags h) = false
      /\ (settings_ok s -> forall before, DecodeSettingsPayload (Bytes payload) before = (STATUS_SUCCESS, s))
      /\ (~ settings_ok s -> forall before, (DecodeSettingsPayload (Bytes payload) before).1 = STATUS_INVALID_NETWORK_RESPONSE)
  | SETTINGS_ACK =>
      fh_Type h = FrameType_Settings /\ fh_StreamId h = 0 /\ flag_set Flag_Ack (fh_Flags h) = true /\ payload = []
  | PING opaqueData ack =>
      fh_Type h = FrameType_Ping /\ fh_StreamId h = 0 /\ flag_set Flag_Ack (fh_Flags h) = ack
      /\ payload = opaqueData
  | GOAWAY lastStreamId errorCode =>
      fh_Type h = FrameType_GoAway /\ fh_StreamId h = 0
      /\ DecodeGoAwayPayload (Bytes payload) = Ok (lastStreamId mod 2 ^ 31, errorCode)
  | WINDOW_UPDATE streamId increment =>
      fh_Type h = FrameType_WindowUpdate /\ fh_StreamId h = streamId
      /\ DecodeWindowUpdatePayload (Bytes payload) = Ok increment
  | FRAME header body => h = header /\ payload = body
  end.

(** What each encoder puts on the wire. *)
Definition frame_payload (f : frame) : list Z :=
  match f with
  | DATA _ data _ => data
  | HEADERS _ block (Some p) _ _ => WritePriorityPayload p ++ block
  | HEADERS _ block None _ _ => block
  | CONTINUATION _ block _ => block
  | PRIORITY _ p => WritePriorityPayload p
  | RST_STREAM _ errorCode => WriteUint32BE errorCode
  | SETTINGS s => settings_payload s
  | SETTINGS_ACK => []
  | PING opaqueData _ => opaqueData
  | GOAWAY lastStreamId errorCode => WriteUint32BE (Z.land lastStreamId 0x7fffffff) ++ WriteUint32BE errorCode
  | WINDOW_UPDATE _ increment => WriteUint32BE (Z.land increment 0x7fffffff)
  | FRAME _ payload => payload
  end.

Definition frame_header (f : frame) : Http2FrameHeader :=
  let header := MkFrameHeader (zlen (frame_payload f)) in
  match f with
  | DATA streamId _ endStream => header FrameType_Data (if endStream then Flag_EndStream else 0) streamId
  | HEADERS streamId _ priority endStream endHeaders =>
      header FrameType_Headers
        (or_flag endHeaders Flag_EndHeaders
           (or_flag endStream Flag_EndStream (match priority with Some _ => Flag_Priority | None => 0 end))) streamId
  | CONTINUATION streamId _ endHeaders =>
      header FrameType_Continuation (if endHeaders then Flag_EndHeaders else 0) streamId
  | PRIORITY streamId _ => header FrameType_Priority 0 streamId
  | RST_STREAM streamId _ => header FrameType_RstStream 0 streamId
  | SETTINGS _ => header FrameType_Settings 0 0
  | SETTINGS_ACK => header FrameType_Settings Flag_Ack 0
  | PING _ ack => header FrameType_Ping (if ack then Flag_Ack else 0) 0
  | GOAWAY _ _ => header FrameType_GoAway 0 0
  | WINDOW_UPDATE streamId _ => header FrameType_WindowUpdate 0 streamId
  | FRAME header _ => header
  end.

Lemma priority_valid streamId p :
  stream_id_ok streamId -> priority_ok streamId p -> ValidatePriority streamId p = STATUS_SUCCESS.
Proof.
  unfold stream_id_ok, priority_ok, ValidatePriority. intros Hs (Hd & Hne & Hw).
  rewrite !top_bit_clear by (unfold is_u32; lia).
  replace (streamId <? 2 ^ 31) with true by (symmetry; apply Z.ltb_lt; lia).
  replace (pr_StreamDependency p <? 2 ^ 31) with true by (symmetry; apply Z.ltb_lt; lia). cbn [negb].
  by guard_false.
Qed.

Lemma zsub_full {A} (l : list A) : zsub l 0 (zlen l) = l.
Proof. unfold zsub. rewrite zdrop_0. by apply ztake_all. Qed.

Ltac use_capacity :=
  match goal with |- (if ?c <? ?n then _ else _) = _ => replace n with n by done; destruct (c <? n) eqn:?; [done|] end.

Lemma frame_encoded f capacity : frame_ok f ->
  encode_frame f capacity
  = if capacity <? Http2FrameHeaderLength + zlen (frame_payload f) then Err STATUS_BUFFER_TOO_SMALL
    else out ← EncodeFrameHeader (frame_header f) capacity; Ok (out ++ frame_payload f).
Proof.
  destruct f as [sid d es|sid b [p|] es eh|sid b eh|sid p|sid e|s| |d a|last e|sid inc|hd d];
    cbn [frame_ok encode_frame frame_payload frame_header].
  - unfold stream_id_ok. intros [Hs Hd]. unfold EncodeData, null_payload. cbn [sp_isnull sp_len sp_bytes andb].
    by do 2 guard_false.
  - intros (Hs & Hp & Hb). unfold EncodeHeadersWithPriority, null_payload. cbn [sp_isnull sp_len sp_bytes andb].
    rewrite priority_valid by done. cbn [NT_SUCCESS negb]. guard_false.
    by rewrite zlen_app.
  - unfold stream_id_ok. intros [Hs Hd]. unfold EncodeHeaders, null_payload. cbn [sp_isnull sp_len sp_bytes andb].
    by do 2 guard_false.
  - unfold stream_id_ok. intros [Hs Hd]. unfold EncodeContinuation, null_payload.
    cbn [sp_isnull sp_len sp_bytes andb]. by do 2 guard_false.
  - intros (Hs & Hp). unfold EncodePriority. rewrite priority_valid by done. done.
  - unfold stream_id_ok. intros [Hs _]. unfold EncodeRstStream. by guard_false.
  - done.
  - intros _. unfold EncodeSettingsAck. change (zlen []) with 0. rewrite Z.add_0_r.
    destruct (capacity <? Http2FrameHeaderLength); [done|].
    destruct (EncodeFrameHeader _ _) as [out|]; cbn [mbind Result_bind]; by rewrite ?app_nil_r.
  - intros Hd. unfold EncodePing. cbn [sp_isnull sp_bytes]. rewrite Hd, <- Hd, zsub_full. done.
  - done.
  - intros [Hs Hi]. unfold EncodeWindowUpdate, Http2MaxWindowSize in *. by guard_false.
  - intros [(Hl & _) E]. unfold EncodeFrame, null_payload, Http2MaxAllowedFrameSize, Http2FrameHeaderLength in *. cbn [sp_isnull sp_len sp_bytes andb].
    pose proof (zlen_nonneg d). rewrite u32_id, E, Z.eqb_refl, u64_id by lia. done.
Qed.

(** What the encoders refuse. *)
Lemma header_accepted h capacity : is_u32 (fh_StreamId h) -> is_Ok (EncodeFrameHeader h capacity) = true ->
  fh_Length h <= Http2MaxAllowedFrameSize /\ fh_StreamId h < 2 ^ 31.
Proof.
  unfold EncodeFrameHeader. intros Hu H. rewrite top_bit_clear in H by done. case_ok H. by split.
Qed.
Lemma then_payload (r : Result (list Z)) (g : list Z -> list Z) : is_Ok (out ← r; Ok (g out)) = true -> is_Ok r = true.
Proof. by destruct r. Qed.
Lemma priority_accepted streamId p : is_u32 streamId -> is_u32 (pr_StreamDependency p) /\ 0 <= pr_Weight p < 2 ^ 16 ->
  NT_SUCCESS (ValidatePriority streamId p) = true -> stream_id_ok streamId /\ priority_ok streamId p.
Proof.
  unfold ValidatePriority, stream_id_ok, priority_ok, is_u32. intros Hs [Hd Hw] H. rewrite !top_bit_clear in H by (unfold is_u32; lia).
  case_if_in H; [done|]. bool_prop. lia.
Qed.
Lemma frame_accepted f capacity : frame_typed f -> is_Ok (encode_frame f capacity) = true -> frame_ok f.
Proof.
  destruct f as [sid d es|sid b [p|] es eh|sid b eh|sid p|sid e|s| |d a|last e|sid inc|hd d];
    cbn [frame_typed frame_ok encode_frame]; intros Ht H; try done.
  all: unfold EncodeData, EncodeHeaders, EncodeHeadersWithPriority, EncodeContinuation, EncodePriority, EncodeRstStream, EncodeWindowUpdate, EncodeFrame,
    null_payload in H; cbn [sp_isnull sp_len sp_bytes andb] in H.
  - case_ok H; (apply then_payload, header_accepted in H as [_ H]; [|done]); cbn in H; unfold stream_id_ok, is_u32 in *; lia.
  - destruct Ht as [Hs Hp]. destruct (NT_SUCCESS _) eqn:Ev; [|done]. cbn [negb] in H. case_ok H;
    destruct (priority_accepted sid p Hs Hp Ev); (split_and!; [done..|lia]).
  - case_ok H; (apply then_payload, header_accepted in H as [_ H]; [|done]); cbn in H; unfold stream_id_ok, is_u32 in *; lia.
  - case_ok H; (apply then_payload, header_accepted in H as [_ H]; [|done]); cbn in H; unfold stream_id_ok, is_u32 in *; lia.
  - destruct Ht as [Hs Hp]. destruct (NT_SUCCESS _) eqn:Ev; [|done]. by apply priority_accepted.
  - case_ok H; (apply then_payload, header_accepted in H as [_ H]; [|by destruct Ht]); cbn in H; unfold stream_id_ok, is_u32 in *; lia.
  - case_ok H; (apply then_payload, header_accepted in H as [_ H]; [|by destruct Ht]); cbn in H; unfold is_u32 in *; lia.
  - destruct Ht as (Hl & Hty & Hfl & Hs & Hn). pose proof (zlen_nonneg d). case_ok H. apply then_payload, header_accepted in H as [H1 H2]; [|done].
    rewrite u32_id in * by lia. unfold header_ok, is_u32, is_byte in *. lia.
Qed.

Lemma flag_bits es eh pr :
  let flags := or_flag eh Flag_EndHeaders (or_flag es Flag_EndStream (if pr : bool then Flag_Priority else 0)) in
  is_byte flags /\ flag_set Flag_EndStream flags = es /\ flag_set Flag_EndHeaders flags = eh
  /\ Z.land flags Flag_Padded = 0 /\ flag_set Flag_Priority flags = pr.
Proof. by destruct es, eh, pr. Qed.

Lemma priority_wire_len p : zlen (WritePriorityPayload p) = 5.
Proof. done. Qed.

Lemma frame_header_ok f : frame_ok f -> header_ok (frame_header f).
Proof.
  intros H. destruct (match f with FRAME _ _ => true | _ => false end) eqn:E; [by destruct f; try done; apply H|]. revert E H.
  destruct f as [sid d es|sid b [p|] es eh|sid b eh|sid p|sid e|s| |d a|last e|sid inc|hd d];
    unfold header_ok, frame_ok, stream_id_ok, Http2MaxAllowedFrameSize; cbn [frame_payload frame_header fh_Length fh_Type fh_Flags fh_StreamId];
    intros E H; try done; clear E; repeat match goal with H : _ /\ _ |- _ => destruct H end;
    try pose proof (zlen_nonneg d); try pose proof (zlen_nonneg b);
    rewrite ?zlen_app, ?priority_wire_len, ?write32_len, ?zlen_nil;
    split_and!; try lia; try done; try (by destruct es); try (by destruct eh); try (by destruct a);
    try (by apply (flag_bits es eh true)); try (by apply (flag_bits es eh false)).
Qed.

(** ** Settings: facts *)

Lemma decode_written id v rest s :
  0 <= id < 2 ^ 16 -> is_u32 v ->
  decode_settings_loop (writeSetting id v ++ rest) s
  = match apply_setting id v s with
    | Err status => (status, s)
    | Ok s => decode_settings_loop rest s
    end.
Proof.
  intros Hid Hv. unfold writeSetting. rewrite <- app_assoc.
  change (WriteUint16BE id ++ WriteUint32BE v ++ rest)
    with (u8 (Z.land (Z.shiftr id 8) 0xff) :: u8 (Z.land id 0xff)
          :: u8 (Z.land (Z.shiftr v 24) 0xff) :: u8 (Z.land (Z.shiftr v 16) 0xff)
          :: u8 (Z.land (Z.shiftr v 8) 0xff) :: u8 (Z.land v 0xff) :: rest).
  cbn [decode_settings_loop].
  rewrite (eq_refl : ReadUint32BE [_; _; _; _] = ReadUint32BE (WriteUint32BE v ++ [])), (read_write32 v []) by done.
  rewrite wire_byte, wire_byte_0, read16_value by (done || lia).
  replace (id / 2 ^ 8 mod 256 * 2 ^ 8 + id mod 256) with id; [done|].
  Z.to_euclidean_division_equations. lia.
Qed.

(** Every setting is one of the seven, so the settings before do not matter. *)
Lemma settings_roundtrip s before :
  settings_ok s -> DecodeSettingsPayload (Bytes (settings_payload s)) before = (STATUS_SUCCESS, s).
Proof.
  unfold settings_ok, Http2MaxWindowSize, Http2DefaultMaxFrameSize, Http2MaxAllowedFrameSize, is_u32.
  intros (H1 & H2 & H3 & H4 & H5 & H6 & H7).
  unfold DecodeSettingsPayload, null_payload. cbn [sp_isnull sp_len sp_bytes andb].
  change (zlen (settings_payload s) mod 6 =? 0) with true. cbn [negb]. unfold settings_payload.
  repeat (rewrite decode_written by (done || (unfold is_u32; lia));
          unfold apply_setting at 1; cbn [Z.eqb Pos.eqb SettingId_HeaderTableSize SettingId_EnablePush
            SettingId_MaxConcurrentStreams SettingId_InitialWindowSize SettingId_MaxFrameSize
            SettingId_MaxHeaderListSize SettingId_EnableConnectProtocol];
          unfold Http2MaxWindowSize, Http2DefaultMaxFrameSize, Http2MaxAllowedFrameSize; try guard_false).
  rewrite <- (app_nil_r (writeSetting SettingId_EnableConnectProtocol _)).
  rewrite decode_written by (done || (unfold is_u32; lia)). unfold apply_setting at 1.
  cbn [Z.eqb Pos.eqb SettingId_EnableConnectProtocol]. guard_false. by destruct s.
Qed.

(** Settings that are not legal are written all the same, and refused. *)
Definition settings_entries (s : Http2Settings) : list (Z * Z) :=
  [(SettingId_HeaderTableSize, st_HeaderTableSize s); (SettingId_EnablePush, st_EnablePush s);
   (SettingId_MaxConcurrentStreams, st_MaxConcurrentStreams s); (SettingId_InitialWindowSize, st_InitialWindowSize s);
   (SettingId_MaxFrameSize, st_MaxFrameSize s); (SettingId_MaxHeaderListSize, st_MaxHeaderListSize s);
   (SettingId_EnableConnectProtocol, st_EnableConnectProtocol s)].
Lemma decode_loop_refused l rest s :
  Forall (fun e => 0 <= e.1 < 2 ^ 16 /\ is_u32 e.2) l -> Exists (fun e => forall s, apply_setting e.1 e.2 s = Err STATUS_INVALID_NETWORK_RESPONSE) l ->
  Forall (fun e => forall s, (exists s', apply_setting e.1 e.2 s = Ok s') \/ apply_setting e.1 e.2 s = Err STATUS_INVALID_NETWORK_RESPONSE) l ->
  (decode_settings_loop (concat (map (fun e => writeSetting e.1 e.2) l) ++ rest) s).1 = STATUS_INVALID_NETWORK_RESPONSE.
Proof.
  intros Hr Hx Ha. revert s. induction l as [|e l IH]; intros s; [by inversion Hx|]. apply Forall_cons in Hr as [[Hi Hv] Hr]. apply Forall_cons in Ha as [He Ha].
  cbn [map concat]. rewrite <- app_assoc, decode_written by done. destruct (He s) as [[s' E]|E]; rewrite E; [|done].
  apply IH; [done| |done]. inversion Hx as [? ? Hx'|]; subst; [|done]. by rewrite Hx' in E.
Qed.
Lemma settings_refused s before : settings_typed s -> ~ settings_ok s ->
  (DecodeSettingsPayload (Bytes (settings_payload s)) before).1 = STATUS_INVALID_NETWORK_RESPONSE.
Proof.
  intros (T1 & T2 & T3 & T4 & T5 & T6 & T7) Hno. unfold DecodeSettingsPayload, null_payload. cbn [sp_isnull sp_len sp_bytes andb].
  change (zlen (settings_payload s) mod 6 =? 0) with true. cbn [negb].
  change (settings_payload s) with (concat (map (fun e => writeSetting e.1 e.2) (settings_entries s))).
  rewrite <- (app_nil_r (concat _)). apply decode_loop_refused.
  - unfold settings_entries. repeat (apply Forall_cons; split; [by split|]). apply Forall_nil_2.
  - unfold settings_ok, is_u32, settings_entries, Http2MaxWindowSize, Http2DefaultMaxFrameSize, Http2MaxAllowedFrameSize in *.
    destruct (decide (st_EnablePush s <= 1)); [|do 1 apply Exists_cons_tl; apply Exists_cons_hd; intros; unfold apply_setting; cbn; case_if; [done|bool_prop; lia]].
    destruct (decide (st_InitialWindowSize s <= 2147483647));
      [|do 3 apply Exists_cons_tl; apply Exists_cons_hd; intros; unfold apply_setting, Http2MaxWindowSize; cbn; case_if; [done|bool_prop; lia]].
    destruct (decide (16384 <= st_MaxFrameSize s <= 16777215));
      [|do 4 apply Exists_cons_tl; apply Exists_cons_hd; intros; unfold apply_setting, Http2DefaultMaxFrameSize, Http2MaxAllowedFrameSize; cbn; case_if; [done|bool_prop; lia]].
    do 6 apply Exists_cons_tl. apply Exists_cons_hd. intros. unfold apply_setting. cbn. case_if; [done|]. bool_prop. exfalso. apply Hno. lia.
  - unfold settings_entries. repeat (apply Forall_cons; split; [intros s0; unfold apply_setting; cbn; repeat case_if; eauto|]). apply Forall_nil_2.
Qed.

(** ** Reading back *)

Lemma zdrop_app_eq {A} n (l k : list A) : zlen l = n -> zdrop n (l ++ k) = k.
Proof. intros <-. apply zdrop_app_len. Qed.
Lemma zsub_app_eq {A} n m (l k r : list A) : zlen l = n -> zlen k = m -> zsub (l ++ k ++ r) n m = k.
Proof. intros <- <-. unfold zsub. rewrite zdrop_app_len. apply ztake_app_len. Qed.

Lemma strip_priority_written p block flags :
  flag_set Flag_Priority flags = true ->
  StripPriority flags (Bytes (WritePriorityPayload p ++ block)) = Ok (Bytes block).
Proof.
  unfold flag_set, StripPriority, null_payload. cbn [sp_isnull sp_len sp_bytes andb].
  destruct (Z.land flags Flag_Priority =? 0); [done|]. intros _.
  rewrite zlen_app, priority_wire_len. pose proof (zlen_nonneg block). guard_false.
  rewrite <- (app_nil_r block) at 1. rewrite (zsub_app_eq 5 (5 + zlen block - 5)) by (done || lia). done.
Qed.

Lemma strip_nothing flags payload :
  Z.land flags Flag_Padded = 0 -> StripPadding flags (Bytes payload) = Ok (Bytes payload).
Proof. intros H. unfold StripPadding, null_payload. cbn [sp_isnull andb]. by rewrite H. Qed.

Lemma set_top v b :
  0 <= v < 2 ^ 31 ->
  let w := if b : bool then Z.lor v 0x80000000 else v in
  is_u32 w /\ Z.land w 0x7fffffff = v /\ negb (Z.land w 0x80000000 =? 0) = b.
Proof.
  intros Hv w. assert (Hw : w = if b then v + 2 ^ 31 else v).
  { unfold w. destruct b; [|done]. rewrite Z.lor_comm. change 0x80000000 with (1 * 2 ^ 31).
    rewrite lor_disjoint by lia. lia. }
  assert (is_u32 w) by (rewrite Hw; unfold is_u32; destruct b; lia).
  split; [done|]. rewrite mask31, top_bit_clear, Hw by done. destruct b.
  - split; [Z.to_euclidean_division_equations; lia|]. apply negb_true_iff, Z.ltb_ge. lia.
  - split; [by apply Z.mod_small|]. apply negb_false_iff, Z.ltb_lt. lia.
Qed.

Lemma priority_roundtrip streamId p :
  stream_id_ok streamId -> priority_ok streamId p ->
  DecodePriorityPayload streamId (Bytes (WritePriorityPayload p)) = Ok p.
Proof.
  unfold stream_id_ok, priority_ok. intros Hs (Hd & Hne & Hw). unfold DecodePriorityPayload.
  cbn [sp_isnull sp_len sp_bytes]. rewrite top_bit_clear by (unfold is_u32; lia).
  replace (streamId <? 2 ^ 31) with true by (symmetry; apply Z.ltb_lt; lia). cbn [negb]. guard_false.
  change (zlen (WritePriorityPayload p) =? 5) with true. cbn [negb].
  unfold WritePriorityPayload. rewrite (mask31_id (pr_StreamDependency p)) by done.
  destruct (set_top (pr_StreamDependency p) (pr_Exclusive p) Hd) as (Hr & Hlow & Htop).
  rewrite read_write32, Hlow, Htop by done.
  change (zget (_ ++ [_]) 4) with (u8 (pr_Weight p - 1)). rewrite u8_id by (unfold is_byte; lia).
  cbn [pr_StreamDependency]. guard_false. rewrite Z.sub_add. by destruct p.
Qed.

Lemma frame_reads_own f : frame_ok f -> frame_reads f (frame_header f) (frame_payload f).
Proof.
  destruct f as [sid d es|sid b [p|] es eh|sid b eh|sid p|sid e|s| |d a|last e|sid inc|hd d];
    cbn [frame_reads frame_ok frame_header frame_payload fh_Type fh_StreamId fh_Flags]; intros Hok.
  - split_and!; try done; [by destruct es|apply strip_nothing; by destruct es].
  - destruct Hok as (Hs & Hp & _). destruct (flag_bits es eh true) as (_ & H1 & H2 & H3 & H4).
    split_and!; try done; [|by apply (priority_roundtrip sid p)].
    rewrite strip_nothing by done. cbn [mbind Result_bind]. by apply strip_priority_written.
  - destruct (flag_bits es eh false) as (_ & H1 & H2 & H3 & H4). split_and!; try done.
    rewrite strip_nothing by done. cbn [mbind Result_bind]. unfold StripPriority, null_payload.
    cbn [sp_isnull andb]. apply negb_false_iff in H4. by rewrite H4.
  - split_and!; try done. by destruct eh.
  - destruct Hok as [Hs Hp]. split_and!; try done. by apply priority_roundtrip.
  - destruct Hok as [Hs He]. split_and!; try done. unfold DecodeRstStreamPayload. cbn [sp_isnull sp_len sp_bytes].
    change (zlen (WriteUint32BE e) =? 4) with true. cbn [negb].
    rewrite <- (app_nil_r (WriteUint32BE e)). by rewrite read_write32.
  - refine (conj eq_refl (conj eq_refl (conj eq_refl (conj _ _)))); intros Hs before; [by apply settings_roundtrip|by apply settings_refused].
  - done.
  - split_and!; try done. by destruct a.
  - destruct Hok as [Hl He]. split_and!; try done. unfold DecodeGoAwayPayload. cbn [sp_isnull sp_len sp_bytes orb].
    rewrite zlen_app, !write32_len. change (4 + 4 <? 8) with false. cbn iota.
    pose proof (Z.mod_pos_bound last (2 ^ 31)). rewrite (zdrop_app_eq 4), (mask31 last), read_write32, mask31_id by (done || (unfold is_u32; lia)).
    rewrite <- (app_nil_r (WriteUint32BE e)), read_write32 by done. done.
  - destruct Hok as [Hs Hi]. unfold Http2MaxWindowSize in Hi. split_and!; try done. unfold DecodeWindowUpdatePayload.
    cbn [sp_isnull sp_len sp_bytes]. change (zlen (WriteUint32BE _) =? 4) with true. cbn [negb].
    rewrite <- (app_nil_r (WriteUint32BE _)), (mask31_id inc), read_write32, (mask31_id inc) by (unfold is_u32; lia).
    by guard_false.
  - done.
Qed.

(** ** Base64url: the reference

    RFC 4648, section 5, without padding characters: each group of six bits is a
    letter of the alphabet. *)

Definition base64url_alphabet : list Z := seqZ 65 26 ++ seqZ 97 26 ++ seqZ 48 10 ++ [45; 95].
Definition base64url (input : list Z) : list Z :=
  map (fun d => nth (Z.to_nat d) base64url_alphabet 0) (base64_digits input).

Lemma alphabet_char d : 0 <= d < 64 -> nth (Z.to_nat d) base64url_alphabet 0 = Base64UrlChar d.
Proof.
  intros Hd. assert (H : forallb (fun d => nth (Z.to_nat d) base64url_alphabet 0 =? Base64UrlChar d) (seqZ 0 64) = true) by done.
  rewrite List.forallb_forall in H. apply Z.eqb_eq, (H d), list_elem_of_In, elem_of_seqZ. lia.
Qed.

Lemma base64url_digits l : bytes l -> base64url l = map Base64UrlChar (base64_digits l).
Proof.
  intros Hl. apply map_ext_Forall. eapply Forall_impl; [by apply digits_range|]. intros d. apply alphabet_char.
Qed.
Lemma reference_length l : bytes l -> zlen (base64url l) = base64_length (zlen l).
Proof. intros. unfold base64url. by rewrite zlen_map, digits_length. Qed.

(** The characters of a 24-bit value. *)
Lemma sextets_value v : 0 <= v ->
  [sextet v 18; sextet v 12; sextet v 6; sextet v 0] = map Base64UrlChar (value_digits v).
Proof.
  intros Hv. unfold value_digits. cbn [map].
  assert (H : forall k, 0 <= k -> sextet v k = Base64UrlChar (Z.land (Z.shiftr v k) 0x3f)).
  { intros k Hk. unfold sextet, u8. f_equal. change 0x3f with (2 ^ 6 - 1). rewrite land_ones_mod by lia.
    apply Z.mod_small. pose proof (Z.mod_pos_bound (Z.shiftr v k) (2 ^ 6)). lia. }
  by rewrite !H by lia.
Qed.
Lemma triple_chars a b c : is_byte a -> is_byte b -> is_byte c ->
  let v := Z.lor (Z.lor (u32 (Z.shiftl a 16)) (u32 (Z.shiftl b 8))) c in
  [sextet v 18; sextet v 12; sextet v 6; sextet v 0] = map Base64UrlChar (triple_digits a b c).
Proof.
  intros Ha Hb Hc v. rewrite <- value_digits_triple, <- (read24_value a b c []) by done.
  change v with (ReadUint24BE [a; b; c]). apply sextets_value. rewrite read24_value by done. unfold is_byte in *. lia.
Qed.

Lemma base64_loop_spec l capacity output :
  bytes l -> 0 <= capacity < 2 ^ 63 -> zlen output <= capacity ->
  base64_loop l capacity output
  = if zlen output + zlen (base64url l) >? capacity then Err STATUS_BUFFER_TOO_SMALL else Ok (output ++ base64url l).
Proof.
  revert output. induction l as [l IH] using (induction_ltof1 _ (@length Z)). unfold ltof in IH.
  intros output Hl Hc Ho. pose proof (zlen_nonneg output). rewrite base64url_digits by done.
  destruct l as [|a [|b [|c l]]].
  - change (map _ (base64_digits [])) with (@nil Z). rewrite zlen_nil, app_nil_r. by guard_false.
  - apply Forall_cons in Hl as [Ha _]. destruct (digits_tail a a Ha Ha) as [-> _]. cbn [base64_loop].
    rewrite u64_id by lia. change (zlen (map _ _)) with 2. case_if; [done|].
    pose proof (triple_chars a 0 0 Ha ltac:(done) ltac:(done)) as T. cbv zeta in T.
    change (u32 (Z.shiftl 0 8)) with 0 in T. rewrite !Z.lor_0_r in T. by injection T as -> -> _ _.
  - apply Forall_cons in Hl as [Ha [Hb _]%Forall_cons]. destruct (digits_tail a b Ha Hb) as [_ ->].
    cbn [base64_loop]. rewrite u64_id by lia. change (zlen (map _ _)) with 3. case_if; [done|].
    pose proof (triple_chars a b 0 Ha Hb ltac:(done)) as T. cbv zeta in T. rewrite !Z.lor_0_r in T.
    by injection T as -> -> -> _.
  - apply Forall_cons in Hl as [Ha [Hb [Hc' Hl]%Forall_cons]%Forall_cons]. cbn [base64_loop].
    rewrite digits_triple, map_app, u64_id, zlen_app by (done || lia). cbv zeta. rewrite triple_chars by done.
    rewrite <- base64url_digits by done.
    change (zlen (map _ (triple_digits a b c))) with 4. pose proof (zlen_nonneg (base64url l)).
    destruct (zlen output + 4 >? capacity) eqn:Ec; bool_prop.
    + replace (zlen output + (4 + zlen (base64url l)) >? capacity) with true; [done|].
      symmetry. rewrite Z.gtb_ltb. apply Z.ltb_lt. lia.
    + rewrite IH; [|cbn; lia|done|done|rewrite zlen_app; change (zlen (map _ _)) with 4; lia].
      rewrite zlen_app, <- app_assoc. change (zlen (map _ (triple_digits a b c))) with 4. by rewrite Z.add_assoc.
Qed.

(** ** Settings: what a payload means *)

(** The entries of a payload, in order. *)
Fixpoint entries (payload : list Z) : list (Z * Z) :=
  match payload with
  | i0 :: i1 :: v0 :: v1 :: v2 :: v3 :: rest =>
      (i0 * 2 ^ 8 + i1, v0 * 2 ^ 24 + v1 * 2 ^ 16 + v2 * 2 ^ 8 + v3) :: entries rest
  | _ => []
  end.

Definition entry_valid (e : Z * Z) : Prop :=
  (e.1 = SettingId_EnablePush -> e.2 <= 1)
  /\ (e.1 = SettingId_InitialWindowSize -> e.2 <= Http2MaxWindowSize)
  /\ (e.1 = SettingId_MaxFrameSize -> Http2DefaultMaxFrameSize <= e.2 <= Http2MaxAllowedFrameSize)
  /\ (e.1 = SettingId_EnableConnectProtocol -> e.2 <= 1).

Definition setting (id : Z) (s : Http2Settings) : option Z :=
  if id =? SettingId_HeaderTableSize then Some (st_HeaderTableSize s)
  else if id =? SettingId_EnablePush then Some (st_EnablePush s)
  else if id =? SettingId_MaxConcurrentStreams then Some (st_MaxConcurrentStreams s)
  else if id =? SettingId_InitialWindowSize then Some (st_InitialWindowSize s)
  else if id =? SettingId_MaxFrameSize then Some (st_MaxFrameSize s)
  else if id =? SettingId_MaxHeaderListSize then Some (st_MaxHeaderListSize s)
  else if id =? SettingId_EnableConnectProtocol then Some (st_EnableConnectProtocol s)
  else None.

(** The value of a setting after the entries: the last one wins. *)
Fixpoint last_value (id : Z) (l : list (Z * Z)) (before : Z) : Z :=
  match l with
  | [] => before
  | (i, v) :: l => last_value id l (if i =? id then v else before)
  end.

Ltac settings_consts :=
  unfold entry_valid, setting, apply_setting, SettingId_HeaderTableSize, SettingId_EnablePush,
    SettingId_MaxConcurrentStreams, SettingId_InitialWindowSize, SettingId_MaxFrameSize,
    SettingId_MaxHeaderListSize, SettingId_EnableConnectProtocol, Http2MaxWindowSize, Http2DefaultMaxFrameSize,
    Http2MaxAllowedFrameSize in *; cbn [fst snd] in *.

Lemma apply_setting_valid id v s : entry_valid (id, v) <-> is_Ok (apply_setting id v s) = true.
Proof.
  settings_consts.
  repeat (case_if; bool_prop; cbn [is_Ok]); (split; [intros (H1 & H2 & H3 & H4)|]); try done;
    try (specialize (H1 ltac:(done)); lia); try (specialize (H2 ltac:(done)); lia);
    try (specialize (H3 ltac:(done)); lia); try (specialize (H4 ltac:(done)); lia);
    intros _; split_and!; lia.
Qed.

Lemma apply_setting_value id v s s' j :
  apply_setting id v s = Ok s' -> setting j s' = option_map (fun old => if id =? j then v else old) (setting j s).
Proof.
  intros H. settings_consts. destruct s as [s1 s2 s3 s4 s5 s6 s7]. unfold set_field, eta_expand, Http2Settings_eta in H.
  cbn [st_HeaderTableSize st_EnablePush st_MaxConcurrentStreams st_InitialWindowSize st_MaxFrameSize
    st_MaxHeaderListSize st_EnableConnectProtocol] in H.
  repeat (case_if_in H; bool_prop; try discriminate H); injection H as <-;
    cbn [st_HeaderTableSize st_EnablePush st_MaxConcurrentStreams st_InitialWindowSize st_MaxFrameSize
    st_MaxHeaderListSize st_EnableConnectProtocol]; subst;
    repeat match goal with |- context [if ?a =? ?b then _ else _] => destruct (Z.eqb_spec a b) end;
    cbn [option_map]; try lia; congruence.
Qed.

Lemma apply_setting_ok id v s s' :
  is_u32 v -> settings_ok s -> apply_setting id v s = Ok s' -> settings_ok s'.
Proof.
  unfold settings_ok, is_u32. intros Hv (H1 & H2 & H3 & H4 & H5 & H6 & H7) H. settings_consts.
  destruct s as [s1 s2 s3 s4 s5 s6 s7]. unfold set_field, eta_expand, Http2Settings_eta in H.
  cbn [st_HeaderTableSize st_EnablePush st_MaxConcurrentStreams st_InitialWindowSize st_MaxFrameSize
    st_MaxHeaderListSize st_EnableConnectProtocol] in *.
  repeat (case_if_in H; bool_prop; try discriminate H); injection H as <-;
    cbn [st_HeaderTableSize st_EnablePush st_MaxConcurrentStreams st_InitialWindowSize st_MaxFrameSize
    st_MaxHeaderListSize st_EnableConnectProtocol]; split_and!; lia.
Qed.

Lemma decode_entry i0 i1 v0 v1 v2 v3 rest s :
  bytes (i0 :: i1 :: v0 :: v1 :: v2 :: v3 :: rest) ->
  exists id v, entries (i0 :: i1 :: v0 :: v1 :: v2 :: v3 :: rest) = (id, v) :: entries rest /\ is_u32 v
    /\ decode_settings_loop (i0 :: i1 :: v0 :: v1 :: v2 :: v3 :: rest) s
       = match apply_setting id v s with Err status => (status, s) | Ok s => decode_settings_loop rest s end
    /\ bytes rest.
Proof.
  intros Hl. repeat (apply Forall_cons in Hl as [? Hl]).
  exists (i0 * 2 ^ 8 + i1), (v0 * 2 ^ 24 + v1 * 2 ^ 16 + v2 * 2 ^ 8 + v3).
  cbn [decode_settings_loop]. rewrite read16_value, read32_value by done.
  split_and!; [done|unfold is_byte, is_u32 in *; lia..|done|done].
Qed.

(** A list of at least one entry, or an empty one. *)
Lemma six_cases (P : list Z -> Prop) :
  P [] -> (forall a b c d e f rest, zlen rest mod 6 = 0 -> P rest -> P (a :: b :: c :: d :: e :: f :: rest)) ->
  forall l, zlen l mod 6 = 0 -> P l.
Proof.
  intros H0 HS l. induction l as [l IH] using (induction_ltof1 _ (@length Z)). unfold ltof in IH. intros Hm.
  destruct l as [|a [|b [|c [|d [|e [|f rest]]]]]]; [done|by (cbv in Hm)..|].
  assert (zlen rest mod 6 = 0).
  { rewrite <- Hm, !zlen_cons. replace (1 + (1 + (1 + (1 + (1 + (1 + zlen rest)))))) with (zlen rest + 1 * 6) by lia.
    by rewrite Z.mod_add. }
  apply HS; [done|]. apply IH; [cbn; lia|done].
Qed.

Lemma decode_settings_ok l s :
  zlen l mod 6 = 0 -> bytes l -> settings_ok s ->
  settings_ok (decode_settings_loop l s).2
  /\ ((decode_settings_loop l s).1 = STATUS_SUCCESS <-> Forall entry_valid (entries l))
  /\ ((decode_settings_loop l s).1 = STATUS_SUCCESS ->
      forall j, setting j (decode_settings_loop l s).2 = option_map (last_value j (entries l)) (setting j s)).
Proof.
  intros Hm. revert s. pattern l. revert l Hm. apply six_cases.
  - intros s _ Hs. cbn. split_and!; [done..| |]; [done|]. intros _ j. by destruct (setting j s).
  - intros a b c d e f rest _ IH s Hl Hs.
    destruct (decode_entry a b c d e f rest s Hl) as (id & v & -> & Hv & -> & Hrest).
    pose proof (apply_setting_valid id v s) as Hval. rewrite Forall_cons.
    destruct (apply_setting id v s) as [s'|st] eqn:E; cbn [is_Ok] in Hval.
    + destruct (IH s' Hrest (apply_setting_ok _ _ _ _ Hv Hs E)) as (I1 & I2 & I3). split; [done|]. split.
      * rewrite I2. split; [intros ?; split; [by apply Hval|done]|by intros [_ ?]].
      * intros Hst j. rewrite (I3 Hst j), (apply_setting_value _ _ _ _ j E). by destruct (setting j s).
    + assert (Hne : st <> STATUS_SUCCESS).
      { intros ->. settings_consts. repeat (case_if_in E; try discriminate E). }
      cbn [fst snd]. split; [done|]. split; [|done]. split; [done|]. intros [Hv' _]. apply Hval in Hv'. done.
Qed.

(** ** Properties *)

(** C13. What the receiver's decoders make of every frame that an encoder writes.
    Whatever the arguments, each encoder succeeds exactly when it should take them
    ([frame_ok]) and the buffer has room for nine bytes and the payload, and writes no
    more; the header decoder then returns the type, flags, stream and length written,
    whatever bytes follow; and the payload decoders applied to that length (padding
    and priority removed as the flags say) give back the data, the header block, the
    priority, the error codes, the window increment.  Two encoders do not check their
    arguments: [EncodeGoAway] drops the reserved bit of the stream, and
    [EncodeSettings] writes any values; the decoder gives legal settings back, and
    refuses the others with STATUS_INVALID_NETWORK_RESPONSE. *)
Theorem h2_frame_roundtrip (f : frame) (capacity : Z) :
  frame_typed f ->
  (is_Ok (encode_frame f capacity) = true <-> frame_ok f /\ Http2FrameHeaderLength + zlen (frame_payload f) <= capacity)
  /\ forall out, encode_frame f capacity = Ok out ->
     zlen out <= capacity
     /\ forall tail, exists h,
          DecodeFrameHeader (Bytes (out ++ tail)) = Ok h
          /\ zlen out = Http2FrameHeaderLength + fh_Length h
          /\ frame_reads f h (zsub (out ++ tail) Http2FrameHeaderLength (fh_Length h)).
Proof.
  intros Ht. assert (Hacc := frame_accepted f capacity Ht). pose proof (zlen_nonneg (frame_payload f)).
  assert (Hmain : frame_ok f -> encode_frame f capacity
    = if capacity <? Http2FrameHeaderLength + zlen (frame_payload f) then Err STATUS_BUFFER_TOO_SMALL
      else out ← EncodeFrameHeader (frame_header f) capacity; Ok (out ++ frame_payload f)) by apply frame_encoded.
  assert (Hread : forall hd, frame_ok f -> EncodeFrameHeader (frame_header f) capacity = Ok hd -> Http2FrameHeaderLength <= capacity ->
    zlen hd = Http2FrameHeaderLength /\ forall tail, DecodeFrameHeader (Bytes (hd ++ tail)) = Ok (frame_header f)).
  { intros hd Hf E Hc. destruct (header_roundtrip (frame_header f) capacity (frame_header_ok f Hf) Hc) as (hd' & E' & Hn & Hdec).
    rewrite E in E'. injection E' as <-. done. }
  assert (Hlen : frame_ok f -> fh_Length (frame_header f) = zlen (frame_payload f)) by (destruct f; try done; by intros [_ ?]).
  split.
  - split.
    + intros Hi. specialize (Hacc Hi). split; [done|]. rewrite Hmain in Hi by done. case_if_in Hi; [done|]. bool_prop. lia.
    + intros [Hf Hc]. rewrite Hmain by done. destruct (header_roundtrip (frame_header f) capacity (frame_header_ok f Hf) ltac:(lia)) as (hd & -> & _).
      by guard_false.
  - intros out E. assert (Hf : frame_ok f) by (apply Hacc; by rewrite E). rewrite Hmain in E by done. case_if_in E; [done|]. bool_prop.
    apply bind_Ok in E as (hd & E1 & E2). injection E2 as <-. destruct (Hread hd Hf E1 ltac:(lia)) as [Hn Hdec].
    rewrite zlen_app, Hn. split; [lia|]. intros tail. exists (frame_header f). specialize (Hlen Hf).
    rewrite <- app_assoc, Hdec. split; [done|]. split; [lia|].
    rewrite (zsub_app_eq _ _ hd) by done. by apply frame_reads_own.
Qed.

(** The settings the connection holds are always in range, also after a
    payload that is rejected in the middle: whatever bytes arrive,
    [DecodeSettingsPayload] keeps [EnablePush] and [EnableConnectProtocol]
    boolean, the initial window within 2^31-1 and the frame size between 2^14
    and 2^24-1.  It accepts exactly the payloads that are whole entries all of
    which are valid, and then each setting has the last value given for it, or
    the one it had; unknown identifiers change nothing. *)
Theorem settings_decoded (payload : list Z) (s : Http2Settings) :
  bytes payload -> settings_ok s ->
  let '(status, s') := DecodeSettingsPayload (Bytes payload) s in
  settings_ok s'
  /\ (status = STATUS_SUCCESS <-> zlen payload mod 6 = 0 /\ Forall entry_valid (entries payload))
  /\ (status = STATUS_SUCCESS ->
      forall id, setting id s' = option_map (last_value id (entries payload)) (setting id s)).
Proof.
  intros Hb Hs. unfold DecodeSettingsPayload, null_payload. cbn [sp_isnull sp_len sp_bytes andb].
  destruct (Z.eqb_spec (zlen payload mod 6) 0) as [Hm|Hm]; cbn [negb]; [|split_and!; [done|split; [done|by intros [? _]]|done]].
  destruct (decode_settings_ok payload s Hm Hb Hs) as (H1 & H2 & H3).
  destruct (decode_settings_loop payload s) as [status s']; cbn [fst snd] in *. split_and!; [done| |done].
  rewrite H2. split; [by split|by intros [_ ?]].
Qed.

(** The token of the [HTTP2-Settings] header field is the base64url coding
    (RFC 4648, section 5, without padding) of the payload of the SETTINGS
    frame: 56 letters, or an error when they do not fit. *)
Theorem settings_token (s : Http2Settings) (capacity : Z) :
  0 <= capacity < 2 ^ 63 ->
  EncodeSettingsPayloadBase64Url s capacity true
  = (if capacity <? 56 then Err STATUS_BUFFER_TOO_SMALL else Ok (base64url (settings_payload s)))
  /\ zlen (base64url (settings_payload s)) = 56
  /\ EncodeSettings s (Http2FrameHeaderLength + SettingsPayloadLen)
     = Ok ([0; 0; 42; 4; 0; 0; 0; 0; 0] ++ settings_payload s).
Proof.
  intros Hc. assert (Hb : bytes (settings_payload s)).
  { unfold settings_payload, writeSetting, WriteUint32BE, WriteUint16BE.
    repeat apply Forall_app_2; repeat constructor; apply u8_range. }
  assert (Hn : zlen (base64url (settings_payload s)) = 56) by (by rewrite reference_length).
  split_and!; [|done|done]. unfold EncodeSettingsPayloadBase64Url. cbn [negb].
  change (EncodeSettings s (Http2FrameHeaderLength + 7 * 6))
    with (Ok ([0; 0; 42; 4; 0; 0; 0; 0; 0] ++ settings_payload s)). cbn [mbind Result_bind].
  unfold Base64UrlEncode. cbn [sp_isnull sp_bytes].
  rewrite (zdrop_app_eq Http2FrameHeaderLength), base64_loop_spec, Hn by (done || (change (zlen (@nil Z)) with 0; lia)).
  change (zlen [] + 56) with 56. rewrite Z.gtb_ltb. done.
Qed.

(** Padding and priority are removed exactly.  A padded payload is accepted
    exactly when it is a length byte, the content and that many bytes of
    padding, and then the content is what is returned; a payload with the
    priority flag is accepted exactly when it is five bytes and the content;
    without the flag the payload is returned as it is.  Nothing outside the
    payload is read. *)
Theorem strip_exact (flags : Z) (payload content : list Z) :
  bytes payload ->
  (StripPadding flags (Bytes payload) = Ok (Bytes content) <->
     if flag_set Flag_Padded flags
     then exists padding, payload = zlen padding :: content ++ padding
     else payload = content)
  /\ (StripPriority flags (Bytes payload) = Ok (Bytes content) <->
     if flag_set Flag_Priority flags
     then exists field, zlen field = 5 /\ payload = field ++ content
     else payload = content).
Proof.
  intros Hb. unfold StripPadding, StripPriority, flag_set, null_payload. cbn [sp_isnull sp_len sp_bytes andb]. split.
  - destruct (Z.land flags Flag_Padded =? 0); cbn [negb]; [split; [by intros [= ->]|by intros ->]|].
    destruct payload as [|p rest]; [split; [done|by intros [padding ?]]|].
    apply Forall_cons in Hb as [Hp Hrest]. rewrite zget_0, zlen_cons. pose proof (zlen_nonneg rest).
    unfold is_byte in Hp. guard_false. destruct (p >=? 1 + zlen rest) eqn:Ec; bool_prop.
    + split; [done|]. intros [padding [= -> ->]]. rewrite zlen_app in *. pose proof (zlen_nonneg content). lia.
    + assert (Hs : zsub (p :: rest) 1 (1 + zlen rest - 1 - p) = ztake (zlen rest - p) rest).
      { unfold zsub. change (zdrop 1 (p :: rest)) with rest. f_equal. lia. }
      rewrite Hs. split.
      * intros [= <-]. exists (zdrop (zlen rest - p) rest). rewrite zlen_zdrop, ztake_zdrop by lia. f_equal. lia.
      * intros [padding [= -> ->]]. rewrite zlen_app.
        replace (zlen content + zlen padding - zlen padding) with (zlen content) by lia. by rewrite ztake_app_len.
  - destruct (Z.land flags Flag_Priority =? 0); cbn [negb]; [split; [by intros [= ->]|by intros ->]|].
    pose proof (zlen_nonneg payload). destruct (zlen payload <? 5) eqn:Ec; bool_prop.
    + split; [done|]. intros (field & Hf & ->). rewrite zlen_app in *. pose proof (zlen_nonneg content). lia.
    + split.
      * intros [= <-]. exists (ztake 5 payload). rewrite zlen_ztake by lia. split; [done|].
        unfold zsub. rewrite (ztake_all _ (zdrop 5 payload)) by (rewrite zlen_zdrop; lia). by rewrite ztake_zdrop.
      * intros (field & Hf & ->). rewrite zlen_app, Hf.
        rewrite <- (app_nil_r content) at 1. rewrite (zsub_app_eq 5 _ field content []); [done|done|lia].
Qed.

(** ** Witnesses *)

Definition example_priority : Http2Priority := MkPriority 3 256 true.
Definition example_frame : frame := HEADERS 5 [130; 132] (Some example_priority) true true.

Lemma h2_frame_roundtrip_witness :
  encode_frame example_frame 64 = Ok [0; 0; 7; 1; 37; 0; 0; 0; 5; 128; 0; 0; 3; 255; 130; 132]
  /\ exists h, DecodeFrameHeader (Bytes ([0; 0; 7; 1; 37; 0; 0; 0; 5; 128; 0; 0; 3; 255; 130; 132] ++ [1; 2])) = Ok h
     /\ frame_reads example_frame h [128; 0; 0; 3; 255; 130; 132].
Proof.
  assert (E : encode_frame example_frame 64 = Ok [0; 0; 7; 1; 37; 0; 0; 0; 5; 128; 0; 0; 3; 255; 130; 132]) by done.
  split; [done|].
  destruct (h2_frame_roundtrip example_frame 64) as [_ H].
  { by vm_compute. }
  destruct (proj2 (H _ E) [1; 2]) as (h & H1 & _ & H3). exists h. split; [done|].
  injection H1 as <-. exact H3.
Defined.

(** SETTINGS with MAX_FRAME_SIZE 20000, an unknown setting, and an
    INITIAL_WINDOW_SIZE that is too large. *)
Definition example_settings : list Z :=
  [0; 5; 0; 0; 78; 32;  0; 9; 0; 0; 0; 1;  0; 4; 128; 0; 0; 0].

Lemma settings_decoded_witness :
  DecodeSettingsPayload (Bytes example_settings) settings_default
  = (STATUS_INVALID_NETWORK_RESPONSE, settings_default <| st_MaxFrameSize := 20000 |>)
  /\ settings_ok (DecodeSettingsPayload (Bytes example_settings) settings_default).2.
Proof.
  split; [done|].
  pose proof (settings_decoded example_settings settings_default) as H.
  destruct (DecodeSettingsPayload _ _) as [status s'] eqn:E. apply H.
  - unfold example_settings. repeat (apply Forall_cons; split; [by split|]). apply Forall_nil_2.
  - unfold settings_ok. by vm_compute.
Defined.

Lemma settings_token_witness :
  EncodeSettingsPayloadBase64Url settings_default 55 true = Err STATUS_BUFFER_TOO_SMALL.
Proof. destruct (settings_token settings_default 55) as [H _]; [lia|exact H]. Defined.

Lemma strip_exact_witness : StripPadding 0x08 (Bytes [2; 7; 8; 0; 0]) = Ok (Bytes [7; 8]).
Proof.
  apply (strip_exact 0x08 [2; 7; 8; 0; 0] [7; 8]).
  - repeat (apply Forall_cons; split; [by split|]). apply Forall_nil_2.
  - cbn. by exists [0; 0].
Defined.
