(* ===== verification/Http2Stream.v ===== *)
(** * HTTP/2 streams (src/wknetlib/http2/Http2Stream.cpp)

    [Http2Stream]: the state of RFC 9113, section 5.1, without the reserved
    states, and the two flow-control windows.  A window is a [LONG] and may be
    negative after a SETTINGS frame; conversions and subtractions of the code
    wrap at their width.  The second half gives the abstract stream, two
    independent directions each with a credit, that the class implements. *)

From S2P Require Import Prelude Http2Frame.

(** ** Data *)

Inductive Http2StreamState := Idle | Open | HalfClosedLocal | HalfClosedRemote | Closed.
#[export] Instance Http2StreamState_eq_dec : EqDecision Http2StreamState.
Proof. solve_decision. Defined.

Record Http2Stream := MkStream {
  hs_streamId : Z;
  hs_state : Http2StreamState;
  hs_localWindow : Z;
  hs_remoteWindow : Z;
}.
#[export] Instance Http2Stream_eta : Eta Http2Stream := fun x =>
  MkStream (hs_streamId x) (hs_state x) (hs_localWindow x) (hs_remoteWindow x).

(** [Http2Stream stream = {}] *)
Definition stream_default : Http2Stream := MkStream 0 Idle Http2InitialWindowSize Http2InitialWindowSize.

(** ** Operations *)

Definition Stream_Initialize (streamId localWindow remoteWindow : Z) (s : Http2Stream) : Http2Stream :=
  MkStream streamId Idle (i32 localWindow) (i32 remoteWindow).

Definition SendHeaders (endStream : bool) (s : Http2Stream) : NTSTATUS * Http2Stream :=
  match hs_state s with
  | Idle => (STATUS_SUCCESS, s <| hs_state := if endStream then HalfClosedLocal else Open |>)
  | Open => (STATUS_SUCCESS, if endStream then s <| hs_state := HalfClosedLocal |> else s)
  | HalfClosedRemote => (STATUS_SUCCESS, if endStream then s <| hs_state := Closed |> else s)
  | _ => (STATUS_INVALID_DEVICE_STATE, s)
  end.

Definition SendData (length : Z) (endStream : bool) (s : Http2Stream) : NTSTATUS * Http2Stream :=
  if negb (bool_decide (hs_state s = Open)) && negb (bool_decide (hs_state s = HalfClosedRemote))
  then (STATUS_INVALID_DEVICE_STATE, s)
  else if (negb (length =? 0) && (hs_remoteWindow s <=? 0)) || (length >? u64 (hs_remoteWindow s))
  then (STATUS_BUFFER_TOO_SMALL, s)
  else
    let s := s <| hs_remoteWindow := i32 (hs_remoteWindow s - i32 length) |> in
    let s := if endStream
             then s <| hs_state := if bool_decide (hs_state s = HalfClosedRemote) then Closed else HalfClosedLocal |>
             else s in
    (STATUS_SUCCESS, s).

Definition ReceiveHeaders (endStream : bool) (s : Http2Stream) : NTSTATUS * Http2Stream :=
  match hs_state s with
  | Idle => (STATUS_SUCCESS, s <| hs_state := if endStream then HalfClosedRemote else Open |>)
  | Open => (STATUS_SUCCESS, if endStream then s <| hs_state := HalfClosedRemote |> else s)
  | HalfClosedLocal => (STATUS_SUCCESS, if endStream then s <| hs_state := Closed |> else s)
  | _ => (STATUS_INVALID_DEVICE_STATE, s)
  end.

Definition ReceiveData (length : Z) (endStream : bool) (s : Http2Stream) : NTSTATUS * Http2Stream :=
  if negb (bool_decide (hs_state s = Open)) && negb (bool_decide (hs_state s = HalfClosedLocal))
  then (STATUS_INVALID_DEVICE_STATE, s)
  else if (negb (length =? 0) && (hs_localWindow s <=? 0)) || (length >? u64 (hs_localWindow s))
  then (STATUS_INVALID_NETWORK_RESPONSE, s)
  else
    let s := s <| hs_localWindow := i32 (hs_localWindow s - i32 length) |> in
    let s := if endStream
             then s <| hs_state := if bool_decide (hs_state s = HalfClosedLocal) then Closed else HalfClosedRemote |>
             else s in
    (STATUS_SUCCESS, s).

Definition IncreaseRemoteWindow (increment : Z) (s : Http2Stream) : NTSTATUS * Http2Stream :=
  if increment =? 0 then (STATUS_INVALID_PARAMETER, s)
  else if hs_remoteWindow s >? i32 (u32 (Http2MaxWindowSize - increment)) then (STATUS_INVALID_NETWORK_RESPONSE, s)
  else (STATUS_SUCCESS, s <| hs_remoteWindow := i32 (hs_remoteWindow s + i32 increment) |>).

(** [delta] is a [long long]; the sum of a [LONG] and the difference of two
    [ULONG]s does not overflow it. *)
Definition AdjustRemoteWindow (delta : Z) (s : Http2Stream) : NTSTATUS * Http2Stream :=
  let adjusted := hs_remoteWindow s + delta in
  if (adjusted >? Http2MaxWindowSize) || (adjusted <? - Http2MaxWindowSize)
  then (STATUS_INVALID_NETWORK_RESPONSE, s)
  else (STATUS_SUCCESS, s <| hs_remoteWindow := i32 adjusted |>).

Definition IncreaseLocalWindow (increment : Z) (s : Http2Stream) : NTSTATUS * Http2Stream :=
  if increment =? 0 then (STATUS_INVALID_PARAMETER, s)
  else if hs_localWindow s >? i32 (u32 (Http2MaxWindowSize - increment)) then (STATUS_INVALID_NETWORK_RESPONSE, s)
  else (STATUS_SUCCESS, s <| hs_localWindow := i32 (hs_localWindow s + i32 increment) |>).

Definition Stream_Reset (s : Http2Stream) : Http2Stream := stream_default.

Definition Stream_Close (s : Http2Stream) : Http2Stream := s <| hs_state := Closed |>.

(** ** The operations as steps *)

Inductive stream_op :=
  | OpSendHeaders (endStream : bool)
  | OpSendData (length : Z) (endStream : bool)
  | OpReceiveHeaders (endStream : bool)
  | OpReceiveData (length : Z) (endStream : bool)
  | OpIncreaseRemoteWindow (increment : Z)
  | OpAdjustRemoteWindow (delta : Z)
  | OpIncreaseLocalWindow (increment : Z).

Definition stream_step (op : stream_op) : Http2Stream -> NTSTATUS * Http2Stream :=
  match op with
  | OpSendHeaders endStream => SendHeaders endStream
  | OpSendData length endStream => SendData length endStream
  | OpReceiveHeaders endStream => ReceiveHeaders endStream
  | OpReceiveData length endStream => ReceiveData length endStream
  | OpIncreaseRemoteWindow increment => IncreaseRemoteWindow increment
  | OpAdjustRemoteWindow delta => AdjustRemoteWindow delta
  | OpIncreaseLocalWindow increment => IncreaseLocalWindow increment
  end.

(** The ranges of the arguments: a length is a [SIZE_T], an increment comes
    from a frame or is a frame length, a delta is the difference of two window
    settings. *)
Definition stream_op_ok (op : stream_op) : Prop :=
  match op with
  | OpSendHeaders _ | OpReceiveHeaders _ => True
  | OpSendData length _ | OpReceiveData length _ => is_u64 length
  | OpIncreaseRemoteWindow increment | OpIncreaseLocalWindow increment => 0 <= increment <= Http2MaxWindowSize
  | OpAdjustRemoteWindow delta => - Http2MaxWindowSize <= delta <= Http2MaxWindowSize
  end.

(** ** The abstract stream

    Idle, or two directions, each open or ended, with the credit of each. *)
Record duplex := MkDuplex { dx_idle : bool; dx_sending : bool; dx_receiving : bool; dx_sendCredit : Z; dx_receiveCredit : Z }.

Definition duplex_step (op : stream_op) (d : duplex) : NTSTATUS * duplex :=
  let '(MkDuplex idle sending receiving send receive) := d in
  match op with
  | OpSendHeaders endStream =>
      if idle || sending
      then (STATUS_SUCCESS, MkDuplex false (negb endStream) receiving send receive)
      else (STATUS_INVALID_DEVICE_STATE, d)
  | OpReceiveHeaders endStream =>
      if idle || receiving
      then (STATUS_SUCCESS, MkDuplex false sending (negb endStream) send receive)
      else (STATUS_INVALID_DEVICE_STATE, d)
  | OpSendData length endStream =>
      if idle || negb sending then (STATUS_INVALID_DEVICE_STATE, d)
      else if (0 <? length) && (send <? length) then (STATUS_BUFFER_TOO_SMALL, d)
      else (STATUS_SUCCESS, MkDuplex false (negb endStream) receiving (send - length) receive)
  | OpReceiveData length endStream =>
      if idle || negb receiving then (STATUS_INVALID_DEVICE_STATE, d)
      else if (0 <? length) && (receive <? length) then (STATUS_INVALID_NETWORK_RESPONSE, d)
      else (STATUS_SUCCESS, MkDuplex false sending (negb endStream) send (receive - length))
  | OpIncreaseRemoteWindow increment =>
      if increment =? 0 then (STATUS_INVALID_PARAMETER, d)
      else if send + increment >? Http2MaxWindowSize then (STATUS_INVALID_NETWORK_RESPONSE, d)
      else (STATUS_SUCCESS, MkDuplex idle sending receiving (send + increment) receive)
  | OpAdjustRemoteWindow delta =>
      if Z.abs (send + delta) >? Http2MaxWindowSize then (STATUS_INVALID_NETWORK_RESPONSE, d)
      else (STATUS_SUCCESS, MkDuplex idle sending receiving (send + delta) receive)
  | OpIncreaseLocalWindow increment =>
      if increment =? 0 then (STATUS_INVALID_PARAMETER, d)
      else if receive + increment >? Http2MaxWindowSize then (STATUS_INVALID_NETWORK_RESPONSE, d)
      else (STATUS_SUCCESS, MkDuplex idle sending receiving send (receive + increment))
  end.

(** The directions of a state; both of an idle stream are open. *)
Definition duplex_of (s : Http2Stream) : duplex :=
  MkDuplex (bool_decide (hs_state s = Idle))
    (match hs_state s with Idle | Open | HalfClosedRemote => true | _ => false end)
    (match hs_state s with Idle | Open | HalfClosedLocal => true | _ => false end)
    (hs_remoteWindow s) (hs_localWindow s).

(** The windows stay within 2^31-1 either way; the local one is never
    negative. *)
Definition stream_ok (s : Http2Stream) : Prop :=
  - Http2MaxWindowSize <= hs_remoteWindow s <= Http2MaxWindowSize /\ 0 <= hs_localWindow s <= Http2MaxWindowSize.

(** ** Simulation *)

Ltac stream_cbn :=
  cbv beta iota delta [set_field eta_expand Http2Stream_eta hs_streamId hs_state hs_localWindow hs_remoteWindow
    duplex_of stream_ok] in *.

(** Evaluate the comparisons of known states. *)
Ltac decide_states :=
  repeat match goal with
  | |- context [bool_decide (?a = ?b :> Http2StreamState)] =>
      is_constructor a; is_constructor b;
      let v := eval vm_compute in (bool_decide (a = b)) in change (bool_decide (a = b)) with v;
      cbn [negb andb orb fst snd]
  end.

(** The window test of [SendData] and [ReceiveData]. *)
Lemma window_test length w :
  is_u64 length -> - Http2MaxWindowSize <= w <= Http2MaxWindowSize ->
  (negb (length =? 0) && (w <=? 0)) || (length >? u64 w) = (0 <? length) && (w <? length).
Proof.
  unfold is_u64, Http2MaxWindowSize. intros Hl Hw. rewrite Z.gtb_ltb. apply eq_true_iff_eq.
  assert (u64 w = if w <? 0 then w + 2 ^ 64 else w).
  { unfold u64. destruct (Z.ltb_spec w 0); [|by rewrite Z.mod_small by lia].
    rewrite <- (Z.mod_add w 1) by lia. rewrite Z.mod_small; lia. }
  rewrite orb_true_iff, !andb_true_iff, negb_true_iff, Z.eqb_neq, Z.leb_le, !Z.ltb_lt.
  destruct (Z.ltb_spec w 0); lia.
Qed.

Lemma increment_limit increment :
  0 <= increment <= Http2MaxWindowSize ->
  i32 (u32 (Http2MaxWindowSize - increment)) = Http2MaxWindowSize - increment /\ i32 increment = increment.
Proof. unfold Http2MaxWindowSize. intros. rewrite u32_id, !i32_id by lia. done. Qed.

Lemma stream_step_refines op s :
  stream_ok s -> stream_op_ok op ->
  duplex_step op (duplex_of s) = ((stream_step op s).1, duplex_of (stream_step op s).2)
  /\ stream_ok (stream_step op s).2
  /\ hs_streamId (stream_step op s).2 = hs_streamId s
  /\ ((stream_step op s).1 <> STATUS_SUCCESS -> (stream_step op s).2 = s).
Proof.
  intros Hs Hop. destruct s as [id st lw rw].
  destruct op as [es|n es|es|n es|inc|delta|inc]; cbn [stream_step stream_op_ok] in *.
  - destruct st, es; by split_and!.
  - unfold SendData, duplex_step. stream_cbn. unfold Http2MaxWindowSize in *. rewrite window_test by (done || unfold Http2MaxWindowSize; lia).
    assert (Hfit : (0 <? n) && (rw <? n) = false -> n <= 2 ^ 31 - 1 /\ i32 (rw - i32 n) = rw - n
                   /\ -2147483647 <= rw - n <= 2147483647).
    { intros E. unfold is_u64 in *. apply andb_false_iff in E as [E|E]; bool_prop; rewrite (i32_id n), i32_id by lia; lia. }
    destruct st; decide_states. 1,3,5: cbn [fst snd]; split_and!; first [lia|done].
    all: destruct ((0 <? n) && (rw <? n)); [cbn [fst snd]; split_and!; first [lia|done]|];
      destruct (Hfit eq_refl) as (Hn & -> & Hr); destruct es; decide_states; cbn [fst snd]; cbn [fst snd]; split_and!; first [lia|done].
  - destruct st, es; by split_and!.
  - unfold ReceiveData, duplex_step. stream_cbn. unfold Http2MaxWindowSize in *. rewrite window_test by (done || unfold Http2MaxWindowSize; lia).
    assert (Hfit : (0 <? n) && (lw <? n) = false -> n <= 2 ^ 31 - 1 /\ i32 (lw - i32 n) = lw - n
                   /\ 0 <= lw - n <= 2147483647).
    { intros E. unfold is_u64 in *. apply andb_false_iff in E as [E|E]; bool_prop; rewrite (i32_id n), i32_id by lia; lia. }
    destruct st; decide_states. 1,4,5: cbn [fst snd]; split_and!; first [lia|done].
    all: destruct ((0 <? n) && (lw <? n)); [cbn [fst snd]; split_and!; first [lia|done]|];
      destruct (Hfit eq_refl) as (Hn & -> & Hr); destruct es; decide_states; cbn [fst snd]; cbn [fst snd]; split_and!; first [lia|done].
  - destruct (increment_limit inc Hop) as [E1 E2]. unfold IncreaseRemoteWindow, duplex_step. stream_cbn. rewrite E1, E2.
    unfold Http2MaxWindowSize in *. case_if; [cbn [fst snd]; split_and!; first [lia|done]|]. bool_prop.
    replace (rw >? 2147483647 - inc) with (rw + inc >? 2147483647)
      by (rewrite !Z.gtb_ltb; apply eq_true_iff_eq; rewrite !Z.ltb_lt; lia).
    case_if; bool_prop; [cbn [fst snd]; split_and!; first [lia|done]|]. rewrite i32_id by lia. cbn [fst snd]; split_and!; first [lia|done].
  - unfold AdjustRemoteWindow, duplex_step. stream_cbn. unfold Http2MaxWindowSize in *.
    replace (Z.abs (rw + delta) >? 2147483647) with ((rw + delta >? 2147483647) || (rw + delta <? Z.opp 2147483647))
      by (rewrite !Z.gtb_ltb; apply eq_true_iff_eq; rewrite orb_true_iff, !Z.ltb_lt; lia).
    case_if; bool_prop; [cbn [fst snd]; split_and!; first [lia|done]|]. rewrite i32_id by lia. cbn [fst snd]; split_and!; first [lia|done].
  - destruct (increment_limit inc Hop) as [E1 E2]. unfold IncreaseLocalWindow, duplex_step. stream_cbn. rewrite E1, E2.
    unfold Http2MaxWindowSize in *. case_if; [cbn [fst snd]; split_and!; first [lia|done]|]. bool_prop.
    replace (lw >? 2147483647 - inc) with (lw + inc >? 2147483647)
      by (rewrite !Z.gtb_ltb; apply eq_true_iff_eq; rewrite !Z.ltb_lt; lia).
    case_if; bool_prop; [cbn [fst snd]; split_and!; first [lia|done]|]. rewrite i32_id by lia. cbn [fst snd]; split_and!; first [lia|done].
Qed.

(** ** Runs *)

Section runs.
Context {S : Type} (step : stream_op -> S -> NTSTATUS * S).

(** Each operation with its status. *)
Fixpoint run (ops : list stream_op) (s : S) : list (stream_op * NTSTATUS) * S :=
  match ops with
  | [] => ([], s)
  | op :: ops =>
      let '(status, s) := step op s in
      let '(log, s) := run ops s in ((op, status) :: log, s)
  end.

Lemma run_cons op ops s :
  run (op :: ops) s
  = ((op, (step op s).1) :: (run ops (step op s).2).1, (run ops (step op s).2).2).
Proof. cbn [run]. destruct (step op s) as [st s']. cbn [fst snd]. by destruct (run ops s'). Qed.
End runs.

(** What the accepted operations of a log add up to. *)
Definition accepted (log : list (stream_op * NTSTATUS)) : list stream_op :=
  map fst (List.filter (fun e => NT_SUCCESS e.2) log).
Definition op_sent (op : stream_op) : Z := match op with OpSendData n _ => n | _ => 0 end.
Definition op_granted (op : stream_op) : Z :=
  match op with OpIncreaseRemoteWindow n => n | OpAdjustRemoteWindow d => d | _ => 0 end.
Definition op_received (op : stream_op) : Z := match op with OpReceiveData n _ => n | _ => 0 end.
Definition op_announced (op : stream_op) : Z := match op with OpIncreaseLocalWindow n => n | _ => 0 end.
Definition op_ends_sending (op : stream_op) : bool :=
  match op with OpSendHeaders es | OpSendData _ es => es | _ => false end.
Definition op_sends (op : stream_op) : bool :=
  match op with OpSendHeaders _ | OpSendData _ _ => true | _ => false end.
Definition sum (f : stream_op -> Z) (ops : list stream_op) : Z := foldr (fun op n => f op + n) 0 ops.

Lemma accepted_cons op st log :
  accepted ((op, st) :: log) = if NT_SUCCESS st then op :: accepted log else accepted log.
Proof. unfold accepted. cbn. by destruct (NT_SUCCESS st). Qed.

Lemma run_refines ops s :
  stream_ok s -> Forall stream_op_ok ops ->
  run duplex_step ops (duplex_of s) = ((run stream_step ops s).1, duplex_of (run stream_step ops s).2)
  /\ stream_ok (run stream_step ops s).2 /\ hs_streamId (run stream_step ops s).2 = hs_streamId s.
Proof.
  intros Hs Hops. revert s Hs. induction Hops as [|op ops Hop _ IH]; intros s Hs; [done|].
  destruct (stream_step_refines op s Hs Hop) as (H1 & H2 & H3 & _). rewrite !run_cons, H1. cbn [fst snd].
  destruct (IH _ H2) as (I1 & I2 & I3). rewrite I1. split_and!; [done|done|congruence].
Qed.

(** One step of the abstract stream, as the ledger sees it. *)
Lemma duplex_ledger op d :
  stream_op_ok op ->
  let '(st, d') := duplex_step op d in
  let add := if NT_SUCCESS st then 1 else 0 in
  dx_sendCredit d' = dx_sendCredit d + add * (op_granted op - op_sent op)
  /\ dx_receiveCredit d' = dx_receiveCredit d + add * (op_announced op - op_received op)
  /\ (NT_SUCCESS st = true -> 0 < op_sent op -> 0 <= dx_sendCredit d')
  /\ (NT_SUCCESS st = true -> 0 < op_received op -> 0 <= dx_receiveCredit d').
Proof.
  intros Hop. destruct d as [i s r sc rc].
  destruct op as [es|n es|es|n es|inc|delta|inc]; cbn [duplex_step op_granted op_sent op_announced op_received stream_op_ok] in *;
    repeat (case_if; cbn [NT_SUCCESS]); cbn [NT_SUCCESS dx_sendCredit dx_receiveCredit]; unfold is_u64 in *; split_and!; try lia; intros _ Hn;
    match goal with H : _ && _ = false |- _ => apply andb_false_iff in H as [H|H]; bool_lia end.
Qed.

(** Once the sending direction has ended nothing more is sent. *)
Lemma duplex_ended op d :
  dx_idle d = false -> dx_sending d = false ->
  dx_idle (duplex_step op d).2 = false /\ dx_sending (duplex_step op d).2 = false
  /\ (op_sends op = true -> NT_SUCCESS (duplex_step op d).1 = false).
Proof.
  destruct d as [i s r sc rc]. cbn [dx_idle dx_sending]. intros -> ->.
  destruct op; cbn [duplex_step orb negb op_sends]; repeat case_if; by split_and!.
Qed.
Lemma duplex_ends op d :
  op_ends_sending op = true -> NT_SUCCESS (duplex_step op d).1 = true ->
  dx_idle (duplex_step op d).2 = false /\ dx_sending (duplex_step op d).2 = false.
Proof.
  destruct d as [i s r sc rc].
  destruct op as [es|n es|es|n es|inc|delta|inc]; cbn [duplex_step op_ends_sending]; try done; intros ->;
    repeat case_if; cbn [fst snd NT_SUCCESS]; intros ?; by split_and!.
Qed.

Lemma duplex_final ops d :
  Forall stream_op_ok ops ->
  let '(log, d') := run duplex_step ops d in
  dx_sendCredit d' = dx_sendCredit d + sum op_granted (accepted log) - sum op_sent (accepted log)
  /\ dx_receiveCredit d' = dx_receiveCredit d + sum op_announced (accepted log) - sum op_received (accepted log).
Proof.
  intros Hops. revert d. induction Hops as [|op ops Hop _ IH]; intros d; [cbn; lia|].
  rewrite run_cons. pose proof (duplex_ledger op d Hop) as Hl. destruct (duplex_step op d) as [st d1]. cbn [fst snd].
  specialize (IH d1). destruct (run duplex_step ops d1) as [log d2]. cbn [fst snd]. rewrite accepted_cons.
  destruct (NT_SUCCESS st); unfold sum in *; cbn [foldr]; lia.
Qed.

Lemma duplex_quiet ops d :
  dx_idle d = false -> dx_sending d = false ->
  Forall (fun e => op_sends e.1 = true -> NT_SUCCESS e.2 = false) (run duplex_step ops d).1.
Proof.
  revert d. induction ops as [|op ops IH]; intros d Hi Hs; [by apply Forall_nil_2|].
  rewrite run_cons. cbn [fst]. destruct (duplex_ended op d Hi Hs) as (H1 & H2 & H3).
  apply Forall_cons. split; [done|by apply IH].
Qed.

Lemma duplex_entry ops d pre op st post :
  Forall stream_op_ok ops -> (run duplex_step ops d).1 = pre ++ (op, st) :: post -> NT_SUCCESS st = true ->
  (0 < op_sent op -> sum op_sent (accepted pre) + op_sent op <= dx_sendCredit d + sum op_granted (accepted pre))
  /\ (0 < op_received op ->
      sum op_received (accepted pre) + op_received op <= dx_receiveCredit d + sum op_announced (accepted pre))
  /\ (op_ends_sending op = true -> Forall (fun e => op_sends e.1 = true -> NT_SUCCESS e.2 = false) post).
Proof.
  intros Hops. revert d pre. induction Hops as [|op1 ops Hop Hops IH]; intros d pre H Hst; [by destruct pre|].
  rewrite run_cons in H. cbn [fst] in H. pose proof (duplex_ledger op1 d Hop) as Hl.
  destruct pre as [|[op2 st2] pre]; cbn [app] in H; injection H as E1 E2 E3.
  - subst op1. pose proof (duplex_ends op d) as He. destruct (duplex_step op d) as [st1 d1]. cbn [fst snd] in *. subst st1.
    destruct Hl as (L1 & L2 & L3 & L4). rewrite Hst in *. unfold accepted, sum; cbn [List.filter map foldr].
    assert (Hz : (0 < op_sent op -> op_granted op = 0) /\ (0 < op_received op -> op_announced op = 0))
      by (destruct op; cbn; lia).
    split_and!; [intros; lia..|]. intros Hends. rewrite <- E3. by apply duplex_quiet; apply He.
  - subst op2. destruct (duplex_step op1 d) as [st1 d1]. cbn [fst snd] in *. subst st1.
    destruct (IH d1 pre E3 Hst) as (I1 & I2 & I3). rewrite !accepted_cons.
    destruct (NT_SUCCESS st2); unfold sum in *; cbn [foldr]; split_and!; try done; intros Hn;
      [specialize (I1 Hn)|specialize (I2 Hn)|specialize (I1 Hn)|specialize (I2 Hn)]; lia.
Qed.

(** ** Properties *)

Definition initial_duplex (localWindow remoteWindow : Z) : duplex :=
  MkDuplex true true true remoteWindow localWindow.

(** C12. The five states and two [LONG] windows implement two independent
    directions with a credit each.  Any sequence of operations on a fresh
    stream gives, operation by operation, the statuses of the abstract stream:
    sending needs the sending direction open and the credit, receiving needs
    the receiving direction open and the announced window, and neither touches
    the other direction.  No window overflows: the send window stays within
    2^31-1 in absolute value, the receive window is never negative. *)
Theorem h2_stream_refines (streamId localWindow remoteWindow : Z) (old : Http2Stream) (ops : list stream_op) :
  0 <= localWindow <= Http2MaxWindowSize -> 0 <= remoteWindow <= Http2MaxWindowSize -> Forall stream_op_ok ops ->
  let '(log, s) := run stream_step ops (Stream_Initialize streamId localWindow remoteWindow old) in
  run duplex_step ops (initial_duplex localWindow remoteWindow) = (log, duplex_of s)
  /\ stream_ok s /\ hs_streamId s = streamId.
Proof.
  intros Hl Hr Hops. unfold Http2MaxWindowSize in *.
  assert (E : Stream_Initialize streamId localWindow remoteWindow old = MkStream streamId Idle localWindow remoteWindow).
  { unfold Stream_Initialize. rewrite !i32_id by lia. done. }
  rewrite E. destruct (run_refines ops (MkStream streamId Idle localWindow remoteWindow)) as (H1 & H2 & H3);
    [unfold stream_ok, Http2MaxWindowSize; cbn [hs_remoteWindow hs_localWindow]; lia|done|].
  change (duplex_of (MkStream streamId Idle localWindow remoteWindow)) with (initial_duplex localWindow remoteWindow) in H1.
  destruct (run stream_step ops _) as [log s]. done.
Qed.

(** Flow control of a stream, over any sequence of operations.  The send
    window is the initial one plus everything granted by WINDOW_UPDATE and
    SETTINGS minus the bytes accepted for sending, and the receive window
    likewise; whenever data is accepted, all data accepted so far is within
    what had been granted by then; and after the end of the stream has been
    sent no HEADERS or DATA is accepted for sending any more. *)
Theorem h2_stream_credit (streamId localWindow remoteWindow : Z) (old : Http2Stream) (ops : list stream_op) :
  0 <= localWindow <= Http2MaxWindowSize -> 0 <= remoteWindow <= Http2MaxWindowSize -> Forall stream_op_ok ops ->
  let '(log, s) := run stream_step ops (Stream_Initialize streamId localWindow remoteWindow old) in
  hs_remoteWindow s = remoteWindow + sum op_granted (accepted log) - sum op_sent (accepted log)
  /\ hs_localWindow s = localWindow + sum op_announced (accepted log) - sum op_received (accepted log)
  /\ forall pre op post, log = pre ++ (op, STATUS_SUCCESS) :: post ->
     (0 < op_sent op -> sum op_sent (accepted pre) + op_sent op <= remoteWindow + sum op_granted (accepted pre))
     /\ (0 < op_received op ->
         sum op_received (accepted pre) + op_received op <= localWindow + sum op_announced (accepted pre))
     /\ (op_ends_sending op = true -> Forall (fun e => op_sends e.1 = true -> NT_SUCCESS e.2 = false) post).
Proof.
  intros Hl Hr Hops. unfold Http2MaxWindowSize in *.
  assert (E : Stream_Initialize streamId localWindow remoteWindow old = MkStream streamId Idle localWindow remoteWindow).
  { unfold Stream_Initialize. rewrite !i32_id by lia. done. }
  rewrite E. destruct (run_refines ops (MkStream streamId Idle localWindow remoteWindow)) as (H1 & _);
    [unfold stream_ok, Http2MaxWindowSize; cbn [hs_remoteWindow hs_localWindow]; lia|done|].
  pose proof (duplex_final ops (duplex_of (MkStream streamId Idle localWindow remoteWindow)) Hops) as Hf.
  rewrite H1 in Hf. destruct (run stream_step ops _) as [log s]. cbn [fst snd] in *. destruct Hf as [Hf1 Hf2].
  split_and!; [done..|]. intros pre op post Hlog.
  apply (duplex_entry ops (duplex_of (MkStream streamId Idle localWindow remoteWindow)) pre op STATUS_SUCCESS post Hops);
    [by rewrite H1|done].
Qed.

(** ** Witnesses *)

(** A request with a body: the window falls to -30 when the peer shrinks it,
    blocks, and is opened again. *)
Definition example_ops : list stream_op :=
  [OpSendHeaders false; OpSendData 20 false; OpAdjustRemoteWindow (-30); OpSendData 1 false;
   OpIncreaseRemoteWindow 70; OpSendData 40 true; OpReceiveHeaders false; OpReceiveData 100 true; OpSendData 0 true].

Lemma example_ops_ok : Forall stream_op_ok example_ops.
Proof.
  unfold example_ops. repeat (apply Forall_cons; split; [by vm_compute|]). apply Forall_nil_2.
Qed.

Lemma h2_stream_refines_witness :
  (run stream_step example_ops (Stream_Initialize 1 100 20 stream_default)).2 = MkStream 1 Closed 0 0
  /\ (run duplex_step example_ops (initial_duplex 100 20)).2 = duplex_of (MkStream 1 Closed 0 0).
Proof.
  pose proof (h2_stream_refines 1 100 20 stream_default example_ops ltac:(by vm_compute) ltac:(by vm_compute) example_ops_ok) as H.
  assert (E : (run stream_step example_ops (Stream_Initialize 1 100 20 stream_default)).2 = MkStream 1 Closed 0 0) by (by vm_compute).
  destruct (run stream_step _ _) as [log s]. cbn [snd] in E. subst s. destruct H as (-> & _). done.
Defined.

Lemma h2_stream_credit_witness :
  map snd (run stream_step example_ops (Stream_Initialize 1 100 20 stream_default)).1
  = [STATUS_SUCCESS; STATUS_SUCCESS; STATUS_SUCCESS; STATUS_BUFFER_TOO_SMALL; STATUS_SUCCESS; STATUS_SUCCESS;
     STATUS_SUCCESS; STATUS_SUCCESS; STATUS_INVALID_DEVICE_STATE]
  /\ hs_remoteWindow (run stream_step example_ops (Stream_Initialize 1 100 20 stream_default)).2 = 20 + 40 - 60.
Proof.
  pose proof (h2_stream_credit 1 100 20 stream_default example_ops ltac:(by vm_compute) ltac:(by vm_compute) example_ops_ok) as H.
  assert (E : run stream_step example_ops (Stream_Initialize 1 100 20 stream_default)
              = ((run stream_step example_ops (Stream_Initialize 1 100 20 stream_default)).1, MkStream 1 Closed 0 0))
    by (by vm_compute).
  split; [by vm_compute|]. rewrite E in *. exact (proj1 H).
Defined.
