(* ===== verification/Http2Connection.v ===== *)
(** * HTTP/2 connections: the receiving side (src/wknetlib/http2/Http2Connection.cpp)

    What an [Http2Connection] does with a frame it has read: [DispatchFrame],
    [HandleConnectionFrame] and [ProcessResponseFrame], with the control frames
    they send, the table of active streams, and the receiving loop.

    An operation takes the connection and returns its status and the
    connection.  The transport is a record of the environment: what was sent,
    the status of each send to come, and the input.  The array [activeStreams_]
    is a list, empty for the null pointer; a pointer to an element is its index.
    The pointers of [Http2ResponseFrameState] to the caller's variables are the
    fields that hold their values; [rs_pointers] says that they are set.  The
    buffer [responseHeaderBlock_], which all streams share, is a field of the
    connection.  The locks order the calls and have no effect on the result of
    one.  Pool allocations are arguments. *)

From Stdlib Require Import Ascii String.
From S2P Require Import Prelude HpackInteger HpackHuffman HpackDynamicTable Hpack Http2Frame Http2Stream.

#[local] Open Scope string_scope.
#[local] Open Scope list_scope.
#[local] Open Scope Z_scope.

(** ** Constants *)

Definition LocalMaxFramePayloadSize : Z := 32768.
Definition WindowUpdateThreshold : Z := Http2InitialWindowSize / 2.
Definition Http2MaxContinuationFrames : Z := 64.
Definition Http2MaxEmptyContinuationFrames : Z := 4.
Definition WKNET_HARD_MAX_H2_CONCURRENT_STREAMS_LOCAL : Z := 100.
Definition DefaultActiveStreamCapacity : Z := WKNET_HARD_MAX_H2_CONCURRENT_STREAMS_LOCAL.
Definition WKNET_HARD_MAX_CONNECTION_BYTES : Z := 0.
Definition WKNET_HARD_MAX_CONNECTION_FRAMES : Z := Z.shiftl 1 20.
Definition WKNET_HARD_MAX_CONNECTION_CONTROL_SIGNALS : Z := 4096.
Definition TrailerCapacity : Z := 16.

(** ** State *)

(** [Http2ResponseFrameState].  [rs_responseHeaders] are the entries of
    [ResponseHeaders] up to [*ResponseHeaderCount]; their data pointers are
    offsets into [NameValueBuffer], whose contents are [rs_nameValueBuffer];
    [rs_delivered] is what the body sink was given and accepted. *)
Record Http2ResponseFrameState := MkResponse {
  rs_pointers : bool;
  rs_StreamClosed : bool;
  rs_TerminalResponseReceived : bool;
  rs_ResponseHeadersReceived : bool;
  rs_ResponseDataReceived : bool;
  rs_ResponseContentLengthPresent : bool;
  rs_ResponseContentLength : Z;
  rs_RequestForbidsResponseBody : bool;
  rs_ResponseBodyForbidden : bool;
  rs_TunnelMode : bool;
  rs_ExpectingContinuation : bool;
  rs_PendingHeaderEndStream : bool;
  rs_ContinuationStreamId : Z;
  rs_ContinuationFrames : Z;
  rs_EmptyContinuationFrames : Z;
  rs_ResponseHeaderBlockCapacity : Z;
  rs_ResponseHeaderBlockLen : Z;
  rs_ResponseHeaderCapacity : Z;
  rs_responseHeaders : list HttpHeaderRef;
  rs_StatusCode : Z;
  rs_nameValueBuffer : list Z;
  rs_BodyLength : Z;
  rs_delivered : list (list Z);
}.
#[export] Instance Http2ResponseFrameState_eta : Eta Http2ResponseFrameState := fun x =>
  MkResponse (rs_pointers x) (rs_StreamClosed x) (rs_TerminalResponseReceived x) (rs_ResponseHeadersReceived x)
    (rs_ResponseDataReceived x) (rs_ResponseContentLengthPresent x) (rs_ResponseContentLength x)
    (rs_RequestForbidsResponseBody x) (rs_ResponseBodyForbidden x) (rs_TunnelMode x)
    (rs_ExpectingContinuation x) (rs_PendingHeaderEndStream x) (rs_ContinuationStreamId x)
    (rs_ContinuationFrames x) (rs_EmptyContinuationFrames x) (rs_ResponseHeaderBlockCapacity x)
    (rs_ResponseHeaderBlockLen x) (rs_ResponseHeaderCapacity x) (rs_responseHeaders x) (rs_StatusCode x)
    (rs_nameValueBuffer x) (rs_BodyLength x) (rs_delivered x).

(** [Http2ResponseFrameState state = {}] *)
Definition response_default : Http2ResponseFrameState :=
  MkResponse false false false false false false 0 false false false false false 0 0 0 0 0 0 [] 0 [] 0 [].

Record Http2ActiveStream := MkActive {
  as_InUse : bool;
  as_Stream : Http2Stream;
  as_ResponseState : Http2ResponseFrameState;
}.
#[export] Instance Http2ActiveStream_eta : Eta Http2ActiveStream := fun x =>
  MkActive (as_InUse x) (as_Stream x) (as_ResponseState x).
Definition active_default : Http2ActiveStream := MkActive false stream_default response_default.

(** The environment behind [Http2Transport]: the data of each [Send], in order,
    the statuses the sends to come return (success when the list is used up),
    and what [Receive] will deliver, piece by piece. *)
Record Http2Transport := MkTransport {
  tr_sent : list (list Z);
  tr_results : list NTSTATUS;
  tr_incoming : list (Result (list Z));
}.
#[export] Instance Http2Transport_eta : Eta Http2Transport := fun x =>
  MkTransport (tr_sent x) (tr_results x) (tr_incoming x).

Record Http2Connection := MkConnection {
  hc_localSettings : Http2Settings;
  hc_peerSettings : Http2Settings;
  hc_nextStreamId : Z;
  hc_connectionSendWindow : Z;
  hc_connectionRecvWindow : Z;
  hc_connectionRecvConsumed : Z;
  hc_connectionBytesRead : Z;
  hc_connectionFramesRead : Z;
  hc_connectionControlSignals : Z;
  hc_goAwaySent : bool;
  hc_goAwayReceived : bool;
  hc_goAwayLastStreamId : Z;
  hc_settingsAckReceived : bool;
  hc_readFrameErrorCode : Z;
  hc_framePayloadCapacity : Z;
  hc_headerBlockCapacity : Z;
  hc_encoder : HpackEncoder;
  hc_decoder : HpackDecoder;
  hc_headerBlock : list Z;
  hc_responseHeaderBlock : list Z;
  hc_decodedHeaderScratchCapacity : Z;
  hc_activeStreams : list Http2ActiveStream;
  hc_transport : Http2Transport;
}.
#[export] Instance Http2Connection_eta : Eta Http2Connection := fun x =>
  MkConnection (hc_localSettings x) (hc_peerSettings x) (hc_nextStreamId x) (hc_connectionSendWindow x)
    (hc_connectionRecvWindow x) (hc_connectionRecvConsumed x) (hc_connectionBytesRead x)
    (hc_connectionFramesRead x) (hc_connectionControlSignals x) (hc_goAwaySent x) (hc_goAwayReceived x)
    (hc_goAwayLastStreamId x) (hc_settingsAckReceived x) (hc_readFrameErrorCode x)
    (hc_framePayloadCapacity x) (hc_headerBlockCapacity x) (hc_encoder x) (hc_decoder x) (hc_headerBlock x)
    (hc_responseHeaderBlock x) (hc_decodedHeaderScratchCapacity x) (hc_activeStreams x) (hc_transport x).

(** ** Sending control frames *)

(** [Send] of the transport, an interface of the environment. *)
Definition transport_send (data : list Z) (t : Http2Transport) : NTSTATUS * Http2Transport :=
  let t' := t <| tr_sent := tr_sent t ++ [data] |> in
  match tr_results t with
  | [] => (STATUS_SUCCESS, t')
  | status :: rest => (status, t' <| tr_results := rest |>)
  end.

Definition SendRaw (data : list Z) (c : Http2Connection) : NTSTATUS * Http2Connection :=
  let '(status, t) := transport_send data (hc_transport c) in (status, c <| hc_transport := t |>).

(** An encoded frame is sent unless the encoder failed. *)
Definition send_encoded (frame : Result (list Z)) (c : Http2Connection) : NTSTATUS * Http2Connection :=
  match frame with
  | Err status => (status, c)
  | Ok data => SendRaw data c
  end.

Definition SendGoAway (errorCode : Z) (c : Http2Connection) : NTSTATUS * Http2Connection :=
  if hc_goAwaySent c then (STATUS_SUCCESS, c)
  else
    let lastStreamId := if hc_nextStreamId c >? 2 then hc_nextStreamId c - 2 else 0 in
    let '(status, c) := send_encoded (EncodeGoAway lastStreamId errorCode (Http2FrameHeaderLength + 8)) c in
    (status, if NT_SUCCESS status then c <| hc_goAwaySent := true |> else c).

Definition SendRstStream (streamId errorCode : Z) (c : Http2Connection) : NTSTATUS * Http2Connection :=
  if streamId =? 0 then (STATUS_INVALID_PARAMETER, c)
  else send_encoded (EncodeRstStream streamId errorCode (Http2FrameHeaderLength + 4)) c.

(** A connection or stream error: the frame is sent, its own status ignored. *)
Definition fail_connection (errorCode : Z) (status : NTSTATUS) (c : Http2Connection) : NTSTATUS * Http2Connection :=
  (status, (SendGoAway errorCode c).2).
Definition fail_stream (streamId errorCode : Z) (status : NTSTATUS) (c : Http2Connection)
    : NTSTATUS * Http2Connection :=
  (status, (SendRstStream streamId errorCode c).2).

(** ** Active streams *)

Definition MaxConcurrentStreamsLocked (c : Http2Connection) : Z :=
  let limit := st_MaxConcurrentStreams (hc_peerSettings c) in
  let limit := if limit >? WKNET_HARD_MAX_H2_CONCURRENT_STREAMS_LOCAL
               then WKNET_HARD_MAX_H2_CONCURRENT_STREAMS_LOCAL else limit in
  let capacity := zlen (hc_activeStreams c) in
  if negb (capacity =? 0) && (limit >? u32 capacity) then u32 capacity else limit.

(** The first index at which the test holds. *)
Fixpoint find_index (test : Http2ActiveStream -> bool) (l : list Http2ActiveStream) : option nat :=
  match l with
  | [] => None
  | a :: l => if test a then Some O else option_map S (find_index test l)
  end.

Definition FindActiveStream (streamId : Z) (c : Http2Connection) : option nat :=
  if streamId =? 0 then None
  else find_index (fun a => as_InUse a && (hs_streamId (as_Stream a) =? streamId)) (hc_activeStreams c).

Definition FindContinuationStream (c : Http2Connection) : option nat :=
  find_index (fun a => as_InUse a && rs_ExpectingContinuation (as_ResponseState a)) (hc_activeStreams c).

Definition get_active (i : nat) (c : Http2Connection) : Http2ActiveStream := nth i (hc_activeStreams c) active_default.
Definition set_active (i : nat) (a : Http2ActiveStream) (c : Http2Connection) : Http2Connection :=
  c <| hc_activeStreams := <[i := a]> (hc_activeStreams c) |>.

Definition active_count (l : list Http2ActiveStream) : Z := zlen (List.filter as_InUse l).

Definition ReserveActiveStream (c : Http2Connection) : option (nat * Http2Connection) :=
  if active_count (hc_activeStreams c) >=? MaxConcurrentStreamsLocked c then None
  else
    match find_index (fun a => negb (as_InUse a)) (hc_activeStreams c) with
    | None => None
    | Some i => Some (i, set_active i (active_default <| as_InUse := true |>) c)
    end.

Definition ReleaseActiveStream (streamId : Z) (c : Http2Connection) : Http2Connection :=
  match FindActiveStream streamId c with
  | None => c
  | Some i => set_active i active_default c
  end.

(** The loop of [AdjustActiveStreamRemoteWindows] stops at the first failure. *)
Fixpoint adjust_streams (delta : Z) (l : list Http2ActiveStream) : NTSTATUS * list Http2ActiveStream :=
  match l with
  | [] => (STATUS_SUCCESS, [])
  | a :: l =>
      if negb (as_InUse a) then let '(status, l) := adjust_streams delta l in (status, a :: l)
      else
        let '(status, stream) := AdjustRemoteWindow delta (as_Stream a) in
        let a := a <| as_Stream := stream |> in
        if negb (NT_SUCCESS status) then (status, a :: l)
        else let '(status, l) := adjust_streams delta l in (status, a :: l)
  end.

Definition AdjustActiveStreamRemoteWindows (delta : Z) (c : Http2Connection) : NTSTATUS * Http2Connection :=
  if delta =? 0 then (STATUS_SUCCESS, c)
  else let '(status, l) := adjust_streams delta (hc_activeStreams c) in (status, c <| hc_activeStreams := l |>).

Definition AllocateStreamId (c : Http2Connection) : Z * Http2Connection :=
  (hc_nextStreamId c, c <| hc_nextStreamId := u32 (hc_nextStreamId c + 2) |>).

Definition IsReusable (c : Http2Connection) : bool :=
  negb (hc_goAwaySent c) && negb (hc_goAwayReceived c) && (hc_nextStreamId c <=? 0x7ffffffd).

(** ** Connection frames *)

Definition IsConnectionControlSignal (type : Z) : bool :=
  (type =? FrameType_Settings) || (type =? FrameType_Ping) || (type =? FrameType_GoAway)
  || (type =? FrameType_WindowUpdate).

Definition IsValidFrameTarget (h : Http2FrameHeader) : bool :=
  if (fh_Type h =? FrameType_Data) || (fh_Type h =? FrameType_Headers) || (fh_Type h =? FrameType_Priority)
     || (fh_Type h =? FrameType_RstStream) || (fh_Type h =? FrameType_Continuation)
  then negb (fh_StreamId h =? 0)
  else if (fh_Type h =? FrameType_Settings) || (fh_Type h =? FrameType_Ping) || (fh_Type h =? FrameType_GoAway)
  then fh_StreamId h =? 0
  else if fh_Type h =? FrameType_PushPromise then negb (fh_StreamId h =? 0)
  else true.

(** The loop of [SettingsErrorCodeForPayload]. *)
Fixpoint settings_error_loop (payload : list Z) : Z :=
  match payload with
  | i0 :: i1 :: v0 :: v1 :: v2 :: v3 :: rest =>
      let id := ReadUint16BE [i0; i1] in
      let value := ReadUint32BE [v0; v1; v2; v3] in
      if (id =? SettingId_EnablePush) && negb (value =? 0) then ErrorCode_ProtocolError
      else if (id =? SettingId_InitialWindowSize) && (value >? Http2MaxWindowSize) then ErrorCode_FlowControlError
      else if (id =? SettingId_MaxFrameSize)
              && ((value <? Http2DefaultMaxFrameSize) || (value >? Http2MaxAllowedFrameSize))
      then ErrorCode_ProtocolError
      else if (id =? SettingId_EnableConnectProtocol) && (value >? 1) then ErrorCode_ProtocolError
      else settings_error_loop rest
  | _ => ErrorCode_ProtocolError
  end.

Definition SettingsErrorCodeForPayload (payload : span) : Z :=
  if sp_isnull payload && negb (sp_len payload =? 0) then ErrorCode_ProtocolError
  else if negb (sp_len payload mod 6 =? 0) then ErrorCode_FrameSizeError
  else settings_error_loop (sp_bytes payload).

Definition RecordConnectionControlSignal (c : Http2Connection) : NTSTATUS * Http2Connection :=
  if hc_connectionControlSignals c >=? WKNET_HARD_MAX_CONNECTION_CONTROL_SIGNALS
  then (STATUS_INVALID_NETWORK_RESPONSE, c)
  else (STATUS_SUCCESS, c <| hc_connectionControlSignals := u32 (hc_connectionControlSignals c + 1) |>).

(** The windows after a change of [InitialWindowSize].  [activeStream] is the
    stream of the caller; it is adjusted here only when there is no array. *)
Definition change_initial_window (previous : Z) (activeStream : option Http2Stream) (c : Http2Connection)
    : NTSTATUS * option Http2Stream * Http2Connection :=
  let delta := st_InitialWindowSize (hc_peerSettings c) - previous in
  let '(status, c) := AdjustActiveStreamRemoteWindows delta c in
  match activeStream with
  | Some stream =>
      if NT_SUCCESS status && (zlen (hc_activeStreams c) =? 0)
      then let '(status, stream) := AdjustRemoteWindow delta stream in (status, Some stream, c)
      else (status, activeStream, c)
  | None => (status, None, c)
  end.

Definition handle_settings (header : Http2FrameHeader) (payload : span) (activeStream : option Http2Stream)
    (c : Http2Connection) : NTSTATUS * option Http2Stream * Http2Connection :=
  if flag_set Flag_Ack (fh_Flags header) then
    if negb (sp_len payload =? 0)
    then let '(status, c) := fail_connection ErrorCode_FrameSizeError STATUS_INVALID_NETWORK_RESPONSE c in
         (status, activeStream, c)
    else (STATUS_SUCCESS, activeStream, c <| hc_settingsAckReceived := true |>)
  else
    let previous := hc_peerSettings c in
    if negb (sp_len payload mod 6 =? 0)
    then let '(status, c) := fail_connection ErrorCode_FrameSizeError STATUS_INVALID_NETWORK_RESPONSE c in
         (status, activeStream, c)
    else
      let '(status, settings) := DecodeSettingsPayload payload (hc_peerSettings c) in
      let c := c <| hc_peerSettings := settings |> in
      if negb (NT_SUCCESS status) || negb (st_EnablePush settings =? 0)
      then
        let failure := if NT_SUCCESS status then STATUS_INVALID_NETWORK_RESPONSE else status in
        let '(status, c) := fail_connection (SettingsErrorCodeForPayload payload) failure c in
        (status, activeStream, c)
      else
        let c := c <| hc_encoder := Encoder_UpdateMaxTableSize (st_HeaderTableSize settings) (hc_encoder c) |> in
        let '(status, activeStream, c) :=
          if negb (st_InitialWindowSize settings =? st_InitialWindowSize previous)
          then change_initial_window (st_InitialWindowSize previous) activeStream c
          else (STATUS_SUCCESS, activeStream, c) in
        if negb (NT_SUCCESS status)
        then let '(status, c) := fail_connection ErrorCode_FlowControlError status c in (status, activeStream, c)
        else let '(status, c) := send_encoded (EncodeSettingsAck Http2FrameHeaderLength) c in
             (status, activeStream, c).

Definition handle_ping (header : Http2FrameHeader) (payload : span) (c : Http2Connection)
    : NTSTATUS * Http2Connection :=
  if negb (sp_len payload =? 8) then fail_connection ErrorCode_FrameSizeError STATUS_INVALID_NETWORK_RESPONSE c
  else if flag_set Flag_Ack (fh_Flags header) then (STATUS_SUCCESS, c)
  else send_encoded (EncodePing payload true (Http2FrameHeaderLength + 8)) c.

Definition handle_goaway (payload : span) (activeStream : option Http2Stream) (c : Http2Connection)
    : NTSTATUS * Http2Connection :=
  match DecodeGoAwayPayload payload with
  | Err status => (status, c)
  | Ok (lastStreamId, errorCode) =>
      let c := c <| hc_goAwayReceived := true |> <| hc_goAwayLastStreamId := lastStreamId |> in
      if negb (errorCode =? ErrorCode_NoError) then (STATUS_CONNECTION_DISCONNECTED, c)
      else
        match activeStream with
        | Some stream => if hs_streamId stream >? lastStreamId then (STATUS_RETRY, c) else (STATUS_SUCCESS, c)
        | None => (STATUS_SUCCESS, c)
        end
  end.

(** The error code for a WINDOW_UPDATE whose payload is refused. *)
Definition increment_error (payloadLen : Z) : Z :=
  if payloadLen =? 4 then ErrorCode_ProtocolError else ErrorCode_FrameSizeError.

Definition handle_window_update (payload : span) (c : Http2Connection) : NTSTATUS * Http2Connection :=
  match DecodeWindowUpdatePayload payload with
  | Err status => fail_connection (increment_error (sp_len payload)) status c
  | Ok increment =>
      if hc_connectionSendWindow c >? i32 (i32 Http2MaxWindowSize - i32 increment)
      then fail_connection ErrorCode_FlowControlError STATUS_INVALID_NETWORK_RESPONSE c
      else (STATUS_SUCCESS,
            c <| hc_connectionSendWindow := i32 (hc_connectionSendWindow c + i32 increment) |>)
  end.

(** The switch of [HandleConnectionFrame]. *)
Definition handle_by_type (header : Http2FrameHeader) (payload : span) (activeStream : option Http2Stream)
    (c : Http2Connection) : NTSTATUS * option Http2Stream * Http2Connection :=
  let keep (r : NTSTATUS * Http2Connection) := (r.1, activeStream, r.2) in
  let type := fh_Type header in
  if type =? FrameType_Settings then handle_settings header payload activeStream c
  else if type =? FrameType_Ping then keep (handle_ping header payload c)
  else if type =? FrameType_GoAway then keep (handle_goaway payload activeStream c)
  else if type =? FrameType_WindowUpdate then keep (handle_window_update payload c)
  else if (type =? FrameType_PushPromise) || (type =? FrameType_Data) || (type =? FrameType_Headers)
          || (type =? FrameType_RstStream)
  then keep (fail_connection ErrorCode_ProtocolError STATUS_INVALID_NETWORK_RESPONSE c)
  else keep (STATUS_SUCCESS, c).

Definition HandleConnectionFrame (header : Http2FrameHeader) (payload : span) (activeStream : option Http2Stream)
    (c : Http2Connection) : NTSTATUS * option Http2Stream * Http2Connection :=
  let keep (r : NTSTATUS * Http2Connection) := (r.1, activeStream, r.2) in
  if negb (IsValidFrameTarget header)
  then keep (fail_connection ErrorCode_ProtocolError STATUS_INVALID_NETWORK_RESPONSE c)
  else if IsConnectionControlSignal (fh_Type header) then
    let '(status, c) := RecordConnectionControlSignal c in
    if negb (NT_SUCCESS status) then keep (fail_connection ErrorCode_EnhanceYourCalm status c)
    else handle_by_type header payload activeStream c
  else handle_by_type header payload activeStream c.

(** A stream pointer of the caller may be null; the stream after the call. *)
Definition SendWindowUpdateIfNeeded (stream : option Http2Stream) (consumed : Z) (c : Http2Connection)
    : NTSTATUS * option Http2Stream * Http2Connection :=
  let '(status, c) :=
    if hc_connectionRecvConsumed c >=? WindowUpdateThreshold then
      let '(status, c) :=
        send_encoded (EncodeWindowUpdate 0 (hc_connectionRecvConsumed c) (Http2FrameHeaderLength + 4)) c in
      if negb (NT_SUCCESS status) then (status, c)
      else
        (STATUS_SUCCESS,
         c <| hc_connectionRecvWindow := i32 (hc_connectionRecvWindow c + i32 (hc_connectionRecvConsumed c)) |>
           <| hc_connectionRecvConsumed := 0 |>)
    else (STATUS_SUCCESS, c) in
  if negb (NT_SUCCESS status) then (status, stream, c)
  else
    match stream with
    | Some s =>
        if consumed >? 0 then
          let '(status, c) :=
            send_encoded (EncodeWindowUpdate (hs_streamId s) consumed (Http2FrameHeaderLength + 4)) c in
          if negb (NT_SUCCESS status) then (status, Some s, c)
          else let '(status, s) := IncreaseLocalWindow consumed s in (status, Some s, c)
        else (STATUS_SUCCESS, Some s, c)
    | None => (STATUS_SUCCESS, None, c)
    end.

(** ** Response header blocks *)

(** Characters as bytes: the tests on [char] below have the same result for
    bytes above 127, which are negative there. *)
Definition is_digit (ch : Z) : bool := negb ((ch <? 48) || (ch >? 57)).
Definition is_upper (ch : Z) : bool := (ch >=? 65) && (ch <=? 90).

Fixpoint bytes_equal (a b : list Z) : bool :=
  match a, b with
  | [], [] => true
  | x :: a, y :: b => (x =? y) && bytes_equal a b
  | _, _ => false
  end.
Definition TextEquals (a b : list Z) : bool := (zlen a =? zlen b) && bytes_equal a b.

Definition TextEqualsAsciiInsensitive (a b : list Z) : bool :=
  (zlen a =? zlen b) && bytes_equal (map lower a) (map lower b).

(** [code = (USHORT)(code * 10 + digit)] over three digits; 0 for anything else. *)
Definition ParseStatusCode (data : list Z) : Z :=
  if negb (zlen data =? 3) then 0
  else if forallb is_digit data then foldl (fun code ch => (code * 10 + (ch - 48)) mod 2 ^ 16) 0 data
  else 0.

Fixpoint parse_decimal_loop (data : list Z) (parsed : Z) : option Z :=
  match data with
  | [] => Some parsed
  | ch :: data =>
      if negb (is_digit ch) then None
      else
        let digit := ch - 48 in
        if parsed >? (MAXU64 -! digit) / 10 then None
        else parse_decimal_loop data ((parsed *! 10) +! digit)
  end.
Definition ParseUnsignedDecimal (data : list Z) : option Z :=
  if zlen data =? 0 then None else parse_decimal_loop data 0.

Definition TextContainsUppercase (data : list Z) : bool := existsb is_upper data.

Definition IsConnectionSpecificHeaderName (name : list Z) : bool :=
  TextEquals name (str "connection") || TextEquals name (str "keep-alive")
  || TextEquals name (str "proxy-connection") || TextEquals name (str "transfer-encoding")
  || TextEquals name (str "upgrade").

Definition bad_name_char (ch : Z) : bool :=
  (ch <=? 0x20) || (ch >=? 0x7f) || (ch =? 58) || is_upper ch.

Definition IsValidHttp2FieldName (name : list Z) : bool :=
  if zlen name =? 0 then false
  else
    let pseudo := zget name 0 =? 58 in
    if pseudo && (zlen name =? 1) then false
    else negb (existsb bad_name_char (if pseudo then zdrop 1 name else name)).

Definition IsValidHttp2FieldValue (value : list Z) : bool :=
  negb (existsb (fun ch => (ch =? 0) || (ch =? 13) || (ch =? 10)) value).

Definition StatusForbidsResponseBody (statusCode : Z) : bool :=
  ((statusCode >=? 100) && (statusCode <? 200)) || (statusCode =? 204) || (statusCode =? 304).

Definition IsHpackCompressionFailure (status : NTSTATUS) : bool :=
  bool_decide (status = STATUS_INVALID_NETWORK_RESPONSE) || bool_decide (status = STATUS_INTEGER_OVERFLOW)
  || bool_decide (status = STATUS_MORE_PROCESSING_REQUIRED).

(** The variables of the loop of [ValidateResponseHeaderBlock]. *)
Record Validation := MkValidation {
  va_regularHeaderSeen : bool;
  va_statusSeen : bool;
  va_contentLengthSeen : bool;
  va_parsedContentLength : Z;
  va_parsedStatus : Z;
}.
#[export] Instance Validation_eta : Eta Validation := fun x =>
  MkValidation (va_regularHeaderSeen x) (va_statusSeen x) (va_contentLengthSeen x) (va_parsedContentLength x)
    (va_parsedStatus x).

(** One header; [None] is the return of [STATUS_INVALID_NETWORK_RESPONSE]. *)
Definition validate_header (trailers : bool) (header : list Z * list Z) (v : Validation) : option Validation :=
  let '(name, value) := header in
  if zlen name =? 0 then None
  else if negb (IsValidHttp2FieldName name) || negb (IsValidHttp2FieldValue value) || TextContainsUppercase name
  then None
  else if zget name 0 =? 58 then
    if trailers || va_regularHeaderSeen v || negb (TextEquals name (str ":status")) || va_statusSeen v then None
    else
      let parsedStatus := ParseStatusCode value in
      if parsedStatus =? 0 then None
      else Some (v <| va_parsedStatus := parsedStatus |> <| va_statusSeen := true |>)
  else
    let v := v <| va_regularHeaderSeen := true |> in
    if IsConnectionSpecificHeaderName name then None
    else if TextEquals name (str "te") && negb (TextEqualsAsciiInsensitive value (str "trailers")) then None
    else if negb trailers && TextEquals name (str "content-length") then
      match ParseUnsignedDecimal value with
      | None => None
      | Some currentLength =>
          if va_contentLengthSeen v && negb (currentLength =? va_parsedContentLength v) then None
          else Some (v <| va_contentLengthSeen := true |> <| va_parsedContentLength := currentLength |>)
      end
    else Some v.

Fixpoint validate_loop (trailers : bool) (headers : list (list Z * list Z)) (v : Validation) : option Validation :=
  match headers with
  | [] => Some v
  | header :: headers =>
      match validate_header trailers header v with
      | None => None
      | Some v => validate_loop trailers headers v
      end
  end.

(** The status code and the content length, when there is one. *)
Definition ValidateResponseHeaderBlock (headers : list (list Z * list Z)) (trailers : bool)
    : Result (Z * option Z) :=
  match validate_loop trailers headers (MkValidation false false false 0 0) with
  | None => Err STATUS_INVALID_NETWORK_RESPONSE
  | Some v =>
      if negb trailers && negb (va_statusSeen v) then Err STATUS_INVALID_NETWORK_RESPONSE
      else Ok (if trailers then 0 else va_parsedStatus v,
               if negb trailers && va_contentLengthSeen v then Some (va_parsedContentLength v) else None)
  end.

(** The text of a decoded header. *)
Definition header_text (buffer : list Z) (r : HttpHeaderRef) : list Z * list Z :=
  (zsub buffer (hr_Name r) (hr_NameLength r), zsub buffer (hr_Value r) (hr_ValueLength r)).

Fixpoint copy_regular_loop (buffer : list Z) (decoded : list HttpHeaderRef) (capacity : Z)
    (out : list HttpHeaderRef) : Result (list HttpHeaderRef) :=
  match decoded with
  | [] => Ok out
  | r :: decoded =>
      if negb (hr_NameLength r =? 0) && (zget (header_text buffer r).1 0 =? 58)
      then copy_regular_loop buffer decoded capacity out
      else if zlen out >=? capacity then Err STATUS_BUFFER_TOO_SMALL
      else copy_regular_loop buffer decoded capacity (out ++ [r])
  end.
Definition CopyRegularResponseHeaders (buffer : list Z) (decoded : list HttpHeaderRef) (capacity : Z)
    : Result (list HttpHeaderRef) := copy_regular_loop buffer decoded capacity [].

(** ** Frames of a stream

    A step takes the entry of the stream in [activeStreams_] and the
    connection, and returns both with the status. *)

Definition Outcome : Type := NTSTATUS * Http2ActiveStream * Http2Connection.
Definition outcome (a : Http2ActiveStream) (r : NTSTATUS * Http2Connection) : Outcome := (r.1, a, r.2).
Definition oc_status (o : Outcome) : NTSTATUS := o.1.1.
Definition oc_active (o : Outcome) : Http2ActiveStream := o.1.2.
Definition oc_connection (o : Outcome) : Http2Connection := o.2.

(** [state.field = value] *)
Definition with_state (f : Http2ResponseFrameState -> Http2ResponseFrameState) (a : Http2ActiveStream)
    : Http2ActiveStream := a <| as_ResponseState := f (as_ResponseState a) |>.

Section frames.
(** The allocations of the header decoder, and the status with which the
    caller's sink takes a piece of the body after the pieces before it. *)
Context (alloc : Z -> bool * bool) (append : list (list Z) -> list Z -> NTSTATUS).

(** CONTINUATION only where it is expected, and nothing else there. *)
Definition check_continuation (fh : Http2FrameHeader) (a : Http2ActiveStream) (c : Http2Connection) : Outcome :=
  let state := as_ResponseState a in
  let refuse a := outcome a (fail_connection ErrorCode_ProtocolError STATUS_INVALID_NETWORK_RESPONSE c) in
  if fh_Type fh =? FrameType_Continuation then
    if negb (rs_ExpectingContinuation state) || negb (fh_StreamId fh =? rs_ContinuationStreamId state) then refuse a
    else
      let frames := u32 (rs_ContinuationFrames state + 1) in
      let a := with_state (fun s => s <| rs_ContinuationFrames := frames |>) a in
      if frames >? Http2MaxContinuationFrames then refuse a
      else if fh_Length fh =? 0 then
        let empty := u32 (rs_EmptyContinuationFrames state + 1) in
        let a := with_state (fun s => s <| rs_EmptyContinuationFrames := empty |>) a in
        if empty >? Http2MaxEmptyContinuationFrames then refuse a else (STATUS_SUCCESS, a, c)
      else (STATUS_SUCCESS, with_state (fun s => s <| rs_EmptyContinuationFrames := 0 |>) a, c)
  else if rs_ExpectingContinuation state then refuse a
  else (STATUS_SUCCESS, a, c).

Definition process_priority (fh : Http2FrameHeader) (payload : span) (a : Http2ActiveStream) (c : Http2Connection)
    : Outcome :=
  match DecodePriorityPayload (fh_StreamId fh) payload with
  | Ok _ => (STATUS_SUCCESS, a, c)
  | Err status =>
      let errorCode := if sp_len payload =? 5 then ErrorCode_ProtocolError else ErrorCode_FrameSizeError in
      outcome a (fail_stream (fh_StreamId fh) errorCode status c)
  end.

(** The decoded block is the final response: its headers are reported. *)
Definition accept_response (fh : Http2FrameHeader) (refs : list HttpHeaderRef) (status : Z) (contentLength : option Z)
    (a : Http2ActiveStream) (c : Http2Connection) : Outcome :=
  let state := as_ResponseState a in
  match CopyRegularResponseHeaders (rs_nameValueBuffer state) refs (rs_ResponseHeaderCapacity state) with
  | Err s => (s, a, c)
  | Ok headers =>
      let present := match contentLength with Some _ => true | None => false end in
      let length := match contentLength with Some n => n | None => 0 end in
      let forbidden := rs_RequestForbidsResponseBody state || StatusForbidsResponseBody status in
      let a := with_state (fun s => s <| rs_responseHeaders := headers |> <| rs_StatusCode := status |>
                 <| rs_ResponseContentLengthPresent := present |> <| rs_ResponseContentLength := length |>
                 <| rs_ResponseBodyForbidden := forbidden |>) a in
      if forbidden && present && negb (length =? 0)
      then outcome a (fail_stream (fh_StreamId fh) ErrorCode_ProtocolError STATUS_INVALID_NETWORK_RESPONSE c)
      else (STATUS_SUCCESS,
            with_state (fun s => s <| rs_ResponseHeadersReceived := true |>
                                   <| rs_TerminalResponseReceived := true |>) a, c)
  end.

(** The end of a final response or of trailers: the stream may be complete. *)
Definition finish_block (fh : Http2FrameHeader) (a : Http2ActiveStream) (c : Http2Connection) : Outcome :=
  let a := with_state (fun s => s <| rs_ResponseHeaderBlockLen := 0 |>) a in
  let state := as_ResponseState a in
  if rs_PendingHeaderEndStream state then
    if rs_ResponseContentLengthPresent state && negb (rs_BodyLength state =? rs_ResponseContentLength state)
    then outcome a (fail_stream (fh_StreamId fh) ErrorCode_ProtocolError STATUS_INVALID_NETWORK_RESPONSE c)
    else (STATUS_SUCCESS,
          with_state (fun s => s <| rs_StreamClosed := true |> <| rs_PendingHeaderEndStream := false |>) a, c)
  else (STATUS_SUCCESS, with_state (fun s => s <| rs_PendingHeaderEndStream := false |>) a, c).

(** A decoded block: validation, interim responses, the final response. *)
Definition accept_block (fh : Http2FrameHeader) (trailers : bool) (buffer : list Z) (refs : list HttpHeaderRef)
    (a : Http2ActiveStream) (c : Http2Connection) : Outcome :=
  match ValidateResponseHeaderBlock (map (header_text buffer) refs) trailers with
  | Err status => outcome a (fail_stream (fh_StreamId fh) ErrorCode_ProtocolError status c)
  | Ok (status, contentLength) =>
      if negb trailers && (status >=? 100) && (status <? 200) then
        if (status =? 101) || rs_PendingHeaderEndStream (as_ResponseState a)
        then outcome a (fail_stream (fh_StreamId fh) ErrorCode_ProtocolError STATUS_INVALID_NETWORK_RESPONSE c)
        else (STATUS_SUCCESS,
              with_state (fun s => s <| rs_ResponseHeaderBlockLen := 0 |> <| rs_PendingHeaderEndStream := false |>) a,
              c)
      else
        let '(st, a, c) :=
          if trailers then (STATUS_SUCCESS, a, c) else accept_response fh refs status contentLength a c in
        if negb (NT_SUCCESS st) then (st, a, c) else finish_block fh a c
  end.

(** The call of the decoder; trailers go to [trailerHeaders_] and
    [headerBlock_], a response to the scratch array and the caller's buffer.
    What a failed call leaves in a buffer is not read afterwards. *)
Definition decode_block (fh : Http2FrameHeader) (trailers : bool) (a : Http2ActiveStream) (c : Http2Connection)
    : Outcome :=
  let state := as_ResponseState a in
  let block := ztake (rs_ResponseHeaderBlockLen state) (hc_responseHeaderBlock c) in
  let capacity := if trailers then TrailerCapacity else hc_decodedHeaderScratchCapacity c in
  let buffer := if trailers then hc_headerBlock c else rs_nameValueBuffer state in
  let '(r, decoder) :=
    Decode (Bytes block) capacity buffer (st_MaxHeaderListSize (hc_localSettings c)) alloc (hc_decoder c) in
  let c := c <| hc_decoder := decoder |> in
  match r with
  | Err status =>
      if bool_decide (status = STATUS_BUFFER_TOO_SMALL)
      then outcome a (fail_connection ErrorCode_EnhanceYourCalm status c)
      else if IsHpackCompressionFailure status
      then outcome a (fail_connection ErrorCode_CompressionError status c)
      else (status, a, c)
  | Ok (refs, buffer, _) =>
      let a := if trailers then a else with_state (fun s => s <| rs_nameValueBuffer := buffer |>) a in
      let c := if trailers then c <| hc_headerBlock := buffer |> else c in
      accept_block fh trailers buffer refs a c
  end.

(** The block is complete. *)
Definition complete_block (fh : Http2FrameHeader) (a : Http2ActiveStream) (c : Http2Connection) : Outcome :=
  let a := with_state (fun s => s <| rs_ExpectingContinuation := false |> <| rs_ContinuationStreamId := 0 |>
                                  <| rs_ContinuationFrames := 0 |> <| rs_EmptyContinuationFrames := 0 |>) a in
  let state := as_ResponseState a in
  let '(status, stream) := ReceiveHeaders (rs_PendingHeaderEndStream state) (as_Stream a) in
  let a := a <| as_Stream := stream |> in
  if negb (NT_SUCCESS status) then outcome a (fail_stream (fh_StreamId fh) ErrorCode_ProtocolError status c)
  else
    let trailers := rs_ResponseHeadersReceived state in
    if trailers && (negb (rs_ResponseDataReceived state) || negb (rs_PendingHeaderEndStream state))
    then outcome a (fail_stream (fh_StreamId fh) ErrorCode_ProtocolError STATUS_INVALID_NETWORK_RESPONSE c)
    else decode_block fh trailers a c.

(** A fragment of a block is appended to the buffer. *)
Definition append_fragment (fh : Http2FrameHeader) (content : span) (a : Http2ActiveStream) (c : Http2Connection)
    : Outcome :=
  let state := as_ResponseState a in
  let capacity := rs_ResponseHeaderBlockCapacity state in
  let contentLen := sp_len content in
  if (contentLen >? capacity) || (rs_ResponseHeaderBlockLen state >? capacity - contentLen)
  then outcome a (fail_connection ErrorCode_EnhanceYourCalm STATUS_BUFFER_TOO_SMALL c)
  else
    let c := c <| hc_responseHeaderBlock :=
               mem_copy (hc_responseHeaderBlock c) (rs_ResponseHeaderBlockLen state) (sp_bytes content) |> in
    let a := with_state (fun s => s <| rs_ResponseHeaderBlockLen := rs_ResponseHeaderBlockLen s +! contentLen |>) a in
    if flag_set Flag_EndHeaders (fh_Flags fh) then complete_block fh a c
    else if fh_Type fh =? FrameType_Headers then
      (STATUS_SUCCESS,
       with_state (fun s => s <| rs_ExpectingContinuation := true |> <| rs_ContinuationStreamId := fh_StreamId fh |>
                              <| rs_ContinuationFrames := 0 |> <| rs_EmptyContinuationFrames := 0 |>) a, c)
    else (STATUS_SUCCESS, a, c).

Definition process_headers (fh : Http2FrameHeader) (payload : span) (a : Http2ActiveStream) (c : Http2Connection)
    : Outcome :=
  if fh_Type fh =? FrameType_Headers then
    let endStream := flag_set Flag_EndStream (fh_Flags fh) in
    let a := with_state (fun s => s <| rs_PendingHeaderEndStream := endStream |>) a in
    match StripPadding (fh_Flags fh) payload ≫= StripPriority (fh_Flags fh) with
    | Err status => (status, a, c)
    | Ok content => append_fragment fh content a c
    end
  else append_fragment fh payload a c.

(** The content of a DATA frame has been delivered: credit and end of stream. *)
Definition finish_data (fh : Http2FrameHeader) (fpLen : Z) (a : Http2ActiveStream) (c : Http2Connection) : Outcome :=
  let endStream := flag_set Flag_EndStream (fh_Flags fh) in
  let c := c <| hc_connectionRecvConsumed := u32 (hc_connectionRecvConsumed c + u32 fpLen) |> in
  let '(status, stream, c) :=
    SendWindowUpdateIfNeeded (if endStream then None else Some (as_Stream a)) (u32 fpLen) c in
  let a := match stream with Some s => a <| as_Stream := s |> | None => a end in
  let state := as_ResponseState a in
  if negb (NT_SUCCESS status) then (status, a, c)
  else if endStream then
    if rs_ResponseContentLengthPresent state && negb (rs_BodyLength state =? rs_ResponseContentLength state)
    then outcome a (fail_stream (fh_StreamId fh) ErrorCode_ProtocolError STATUS_INVALID_NETWORK_RESPONSE c)
    else (STATUS_SUCCESS, with_state (fun s => s <| rs_StreamClosed := true |>) a, c)
  else (STATUS_SUCCESS, a, c).

(** The content, within the window of the connection, goes to the sink. *)
Definition deliver_data (fh : Http2FrameHeader) (fpLen : Z) (content : span) (a : Http2ActiveStream)
    (c : Http2Connection) : Outcome :=
  if (hc_connectionRecvWindow c <? 0) || (fpLen >? u64 (hc_connectionRecvWindow c))
  then outcome a (fail_connection ErrorCode_FlowControlError STATUS_INVALID_NETWORK_RESPONSE c)
  else
    let c := c <| hc_connectionRecvWindow := i32 (hc_connectionRecvWindow c - i32 fpLen) |> in
    let state := as_ResponseState a in
    let contentLen := sp_len content in
    if rs_BodyLength state >? MAXU64 -! contentLen then (STATUS_BUFFER_TOO_SMALL, a, c)
    else
      let nextBodyLen := rs_BodyLength state +! contentLen in
      if rs_ResponseContentLengthPresent state && (nextBodyLen >? rs_ResponseContentLength state)
      then outcome a (fail_stream (fh_StreamId fh) ErrorCode_ProtocolError STATUS_INVALID_NETWORK_RESPONSE c)
      else
        let status := append (rs_delivered state) (sp_bytes content) in
        if negb (NT_SUCCESS status) then (status, a, c)
        else
          let a := with_state (fun s => s <| rs_BodyLength := nextBodyLen |> <| rs_ResponseDataReceived := true |>
                                          <| rs_delivered := rs_delivered s ++ [sp_bytes content] |>) a in
          finish_data fh fpLen a c.

Definition process_data (fh : Http2FrameHeader) (payload : span) (a : Http2ActiveStream) (c : Http2Connection)
    : Outcome :=
  let state := as_ResponseState a in
  let refuse := outcome a (fail_stream (fh_StreamId fh) ErrorCode_ProtocolError STATUS_INVALID_NETWORK_RESPONSE c) in
  if negb (rs_ResponseHeadersReceived state) then refuse
  else
    match StripPadding (fh_Flags fh) payload with
    | Err status => (status, a, c)
    | Ok content =>
        if rs_ResponseBodyForbidden state then refuse
        else
          let fpLen := sp_len payload in
          let '(status, stream) := ReceiveData fpLen (flag_set Flag_EndStream (fh_Flags fh)) (as_Stream a) in
          let a := a <| as_Stream := stream |> in
          if negb (NT_SUCCESS status)
          then outcome a (fail_stream (fh_StreamId fh) ErrorCode_FlowControlError status c)
          else deliver_data fh fpLen content a c
    end.

Definition process_reset (payload : span) (a : Http2ActiveStream) (c : Http2Connection) : Outcome :=
  match DecodeRstStreamPayload payload with
  | Err status => (status, a, c)
  | Ok errorCode =>
      let a := a <| as_Stream := Stream_Reset (as_Stream a) |> in
      let a := with_state (fun s => s <| rs_StreamClosed := true |>) a in
      if (errorCode =? ErrorCode_NoError) && rs_TerminalResponseReceived (as_ResponseState a)
      then (STATUS_SUCCESS, a, c)
      else if errorCode =? ErrorCode_RefusedStream then (STATUS_RETRY, a, c)
      else (STATUS_CONNECTION_DISCONNECTED, a, c)
  end.

Definition process_window_update (fh : Http2FrameHeader) (payload : span) (a : Http2ActiveStream)
    (c : Http2Connection) : Outcome :=
  match DecodeWindowUpdatePayload payload with
  | Err status => outcome a (fail_stream (fh_StreamId fh) (increment_error (sp_len payload)) status c)
  | Ok increment =>
      let '(status, stream) := IncreaseRemoteWindow increment (as_Stream a) in
      let a := a <| as_Stream := stream |> in
      if negb (NT_SUCCESS status)
      then outcome a (fail_stream (fh_StreamId fh) ErrorCode_FlowControlError status c)
      else (STATUS_SUCCESS, a, c)
  end.

Definition ProcessResponseFrame (fh : Http2FrameHeader) (payload : span) (a : Http2ActiveStream)
    (c : Http2Connection) : Outcome :=
  if negb (rs_pointers (as_ResponseState a)) then (STATUS_INVALID_PARAMETER, a, c)
  else
    let '(status, a, c) := check_continuation fh a c in
    let type := fh_Type fh in
    if negb (NT_SUCCESS status) then (status, a, c)
    else if type =? FrameType_Priority then process_priority fh payload a c
    else if (type =? FrameType_Headers) || (type =? FrameType_Continuation) then process_headers fh payload a c
    else if type =? FrameType_Data then process_data fh payload a c
    else if type =? FrameType_RstStream then process_reset payload a c
    else if type =? FrameType_WindowUpdate then process_window_update fh payload a c
    else (STATUS_SUCCESS, a, c).

(** ** Dispatch *)

(** The stream frame goes to the entry at index [i]. *)
Definition process_at (fh : Http2FrameHeader) (payload : span) (i : nat) (c : Http2Connection)
    : NTSTATUS * Http2Connection :=
  let '(status, a, c) := ProcessResponseFrame fh payload (get_active i c) c in (status, set_active i a c).

Definition dispatch_stream_frame (fh : Http2FrameHeader) (payload : span) (c : Http2Connection)
    : NTSTATUS * Http2Connection :=
  if (fh_Type fh =? FrameType_Settings) || (fh_Type fh =? FrameType_Ping) || (fh_Type fh =? FrameType_GoAway)
  then fail_connection ErrorCode_ProtocolError STATUS_INVALID_NETWORK_RESPONSE c
  else if fh_Type fh =? FrameType_PushPromise
  then fail_connection ErrorCode_ProtocolError STATUS_INVALID_NETWORK_RESPONSE c
  else
    match FindActiveStream (fh_StreamId fh) c with
    | None =>
        if fh_Type fh =? FrameType_WindowUpdate then
          match DecodeWindowUpdatePayload payload with
          | Err status => fail_stream (fh_StreamId fh) (increment_error (sp_len payload)) status c
          | Ok _ => (STATUS_SUCCESS, c)
          end
        else (STATUS_SUCCESS, c)
    | Some i => process_at fh payload i c
    end.

(** The pointer [activeStream] is null or points to the entry at an index. *)
Definition DispatchFrame (fh : Http2FrameHeader) (payload : span) (activeStream : option nat) (c : Http2Connection)
    : NTSTATUS * Http2Connection :=
  if negb (IsValidFrameTarget fh)
  then fail_connection ErrorCode_ProtocolError STATUS_INVALID_NETWORK_RESPONSE c
  else
    let unexpected :=
      match FindContinuationStream c with
      | Some i =>
          negb (fh_Type fh =? FrameType_Continuation)
          || negb (fh_StreamId fh =? hs_streamId (as_Stream (get_active i c)))
      | None => fh_Type fh =? FrameType_Continuation
      end in
    if unexpected then fail_connection ErrorCode_ProtocolError STATUS_INVALID_NETWORK_RESPONSE c
    else if fh_StreamId fh =? 0 then
      let stream := option_map (fun i => as_Stream (get_active i c)) activeStream in
      let '(status, _, c) := HandleConnectionFrame fh payload stream c in (status, c)
    else dispatch_stream_frame fh payload c.
End frames.

(** ** Reading *)

(** [Receive] of the transport, an interface of the environment: at most
    [length] bytes of the next piece, or the failure that comes next. *)
Definition transport_receive (length : Z) (t : Http2Transport) : Result (list Z) * Http2Transport :=
  match tr_incoming t with
  | [] => (Err STATUS_CONNECTION_DISCONNECTED, t)
  | Err status :: rest => (Err status, t <| tr_incoming := rest |>)
  | Ok piece :: rest =>
      (Ok (ztake length piece),
       t <| tr_incoming := if zlen piece <=? length then rest else Ok (zdrop length piece) :: rest |>)
  end.

(** [while (totalRead < length)]: [got] is what has been read; every turn reads
    a byte or returns, so [length] turns are enough. *)
Fixpoint read_exact_loop (fuel : nat) (length : Z) (got : list Z) (t : Http2Transport)
    : Result (list Z) * Http2Transport :=
  if zlen got <? length then
    match fuel with
    | O => (Err (STATUS_OTHER 0), t)
    | S fuel =>
        match transport_receive (length - zlen got) t with
        | (Err status, t) => (Err status, t)
        | (Ok received, t) =>
            if zlen received =? 0 then (Err STATUS_CONNECTION_DISCONNECTED, t)
            else read_exact_loop fuel length (got ++ received) t
        end
    end
  else (Ok got, t).

Definition ReadExact (length : Z) (c : Http2Connection) : Result (list Z) * Http2Connection :=
  let '(r, t) := read_exact_loop (Z.to_nat length) length [] (hc_transport c) in (r, c <| hc_transport := t |>).

(** The test on bytes is switched off by the limit 0. *)
Definition RecordReceivedFrame (header : Http2FrameHeader) (c : Http2Connection) : NTSTATUS * Http2Connection :=
  let frameBytes := Http2FrameHeaderLength +! fh_Length header in
  if (hc_connectionFramesRead c >=? WKNET_HARD_MAX_CONNECTION_FRAMES)
     || (negb (WKNET_HARD_MAX_CONNECTION_BYTES =? 0)
         && ((frameBytes >? WKNET_HARD_MAX_CONNECTION_BYTES)
             || (hc_connectionBytesRead c >? WKNET_HARD_MAX_CONNECTION_BYTES -! frameBytes)))
  then (STATUS_INVALID_NETWORK_RESPONSE, c <| hc_readFrameErrorCode := ErrorCode_EnhanceYourCalm |>)
  else
    (STATUS_SUCCESS,
     c <| hc_connectionFramesRead := u32 (hc_connectionFramesRead c + 1) |>
       <| hc_connectionBytesRead := hc_connectionBytesRead c +! frameBytes |>).

Definition HandleReadFrameFailure (status : NTSTATUS) (c : Http2Connection) : NTSTATUS * Http2Connection :=
  if bool_decide (status = STATUS_INVALID_NETWORK_RESPONSE) && negb (hc_readFrameErrorCode c =? ErrorCode_NoError)
  then fail_connection (hc_readFrameErrorCode c) status c
  else if bool_decide (status = STATUS_IO_TIMEOUT) && negb (hc_settingsAckReceived c)
  then fail_connection ErrorCode_SettingsTimeout status c
  else (status, c).

(** [ReadFrameWithTimeout] is the same over [ReceiveWithTimeout]; there the
    environment delivers [STATUS_IO_TIMEOUT] among the failures. *)
Definition ReadFrame (payloadCapacity : Z) (c : Http2Connection)
    : Result (Http2FrameHeader * list Z) * Http2Connection :=
  let c := c <| hc_readFrameErrorCode := ErrorCode_NoError |> in
  match ReadExact Http2FrameHeaderLength c with
  | (Err status, c) => (Err status, c)
  | (Ok headerBuf, c) =>
      match DecodeFrameHeader (Bytes headerBuf) with
      | Err status => (Err status, c)
      | Ok header =>
          if fh_Length header >? st_MaxFrameSize (hc_localSettings c)
          then (Err STATUS_INVALID_NETWORK_RESPONSE, c <| hc_readFrameErrorCode := ErrorCode_FrameSizeError |>)
          else if fh_Length header >? payloadCapacity then (Err STATUS_BUFFER_TOO_SMALL, c)
          else
            let '(status, c) := RecordReceivedFrame header c in
            if negb (NT_SUCCESS status) then (Err status, c)
            else
              match (if fh_Length header >? 0 then ReadExact (fh_Length header) c else (Ok [], c)) with
              | (Err status, c) => (Err status, c)
              | (Ok payload, c) => (Ok (header, payload), c)
              end
      end
  end.

Definition DispatchNextFrame (alloc : Z -> bool * bool) (append : list (list Z) -> list Z -> NTSTATUS)
    (activeStream : option nat) (c : Http2Connection) : NTSTATUS * Http2Connection :=
  match ReadFrame (hc_framePayloadCapacity c) c with
  | (Err status, c) => HandleReadFrameFailure status c
  | (Ok (fh, payload), c) => DispatchFrame alloc append fh (Bytes payload) activeStream c
  end.

(** ** Receiving a response *)

(** The frame of one turn of [ReceiveResponse], which counts it only after the
    payload has been read. *)
Definition receive_frame (c : Http2Connection) : Result (Http2FrameHeader * list Z) * Http2Connection :=
  let failed (status : NTSTATUS) c := let '(status, c) := HandleReadFrameFailure status c in (Err status, c) in
  if hc_framePayloadCapacity c <? Http2FrameHeaderLength then (Err STATUS_INVALID_DEVICE_STATE, c)
  else
    let c := c <| hc_readFrameErrorCode := ErrorCode_NoError |> in
    match ReadExact Http2FrameHeaderLength c with
    | (Err status, c) => failed status c
    | (Ok headerBuf, c) =>
        match DecodeFrameHeader (Bytes headerBuf) with
        | Err status => (Err status, c)
        | Ok fh =>
            if fh_Length fh >? st_MaxFrameSize (hc_localSettings c)
            then failed STATUS_INVALID_NETWORK_RESPONSE (c <| hc_readFrameErrorCode := ErrorCode_FrameSizeError |>)
            else if fh_Length fh >? hc_framePayloadCapacity c then (Err STATUS_BUFFER_TOO_SMALL, c)
            else
              match (if negb (fh_Length fh =? 0) then ReadExact (fh_Length fh) c else (Ok [], c)) with
              | (Err status, c) => failed status c
              | (Ok payload, c) =>
                  let '(status, c) := RecordReceivedFrame fh c in
                  if negb (NT_SUCCESS status) then failed status c else (Ok (fh, payload), c)
              end
        end
    end.

(** What the loop of [ReceiveResponse] returns: the body length and what was
    stored through the pointers of the stream. *)
Fixpoint receive_response_loop (alloc : Z -> bool * bool) (append : list (list Z) -> list Z -> NTSTATUS)
    (fuel : nat) (streamId : Z) (observed : bool) (c : Http2Connection)
    : Result Http2ResponseFrameState * Http2Connection :=
  let missing (observed : bool) := if observed then STATUS_CONNECTION_DISCONNECTED else STATUS_INVALID_PARAMETER in
  match FindActiveStream streamId c with
  | None => (Err (missing observed), c)
  | Some i =>
      let state := as_ResponseState (get_active i c) in
      if rs_StreamClosed state then (Ok state, ReleaseActiveStream streamId c)
      else
        match receive_frame c with
        | (Err status, c) => (Err status, c)
        | (Ok (fh, payload), c) =>
            match fuel with
            | O => (Err (STATUS_OTHER 0), c)
            | S fuel =>
                match FindActiveStream streamId c with
                | None => (Err (missing true), c)
                | Some i =>
                    let '(status, c) := DispatchFrame alloc append fh (Bytes payload) (Some i) c in
                    if negb (NT_SUCCESS status) then (Err status, c)
                    else receive_response_loop alloc append fuel streamId true c
                end
            end
        end
  end.

Definition ReceiveResponse (alloc : Z -> bool * bool) (append : list (list Z) -> list Z -> NTSTATUS)
    (fuel : nat) (streamId : Z) (c : Http2Connection) : Result Http2ResponseFrameState * Http2Connection :=
  receive_response_loop alloc append fuel streamId false c.
