(* ===== verification/Http2Dispatch.v ===== *)
(** * HTTP/2 connections: theorems about the receiving side

    The invariant of an [Http2Connection] and its streams, and that every frame
    preserves it; the windows of the connection; header blocks in fragments;
    the validation of response headers; and the fate of a stream that is
    reset. *)

From Stdlib Require Import Ascii String.
From S2P Require Import Prelude HpackInteger HpackHuffman HpackDynamicTable Hpack Http2Frame Http2Stream Http2Connection.
#[local] Open Scope string_scope.
#[local] Open Scope list_scope.
#[local] Open Scope Z_scope.

(** ** The invariant *)

Definition body_total (l : list (list Z)) : Z := foldr (fun d n => zlen d + n) 0 l.

(** The state of a response.  [live] says that the stream has not been reset. *)
Record response_ok (capacity : Z) (live : bool) (receiving : bool) (s : Http2ResponseFrameState) : Prop := {
  ro_block : 0 <= rs_ResponseHeaderBlockLen s <= rs_ResponseHeaderBlockCapacity s;
  ro_capacity : rs_ResponseHeaderBlockCapacity s <= capacity;
  ro_body : rs_BodyLength s = body_total (rs_delivered s);
  ro_body_fits : 0 <= rs_BodyLength s < 2 ^ 64;
  ro_length : rs_ResponseContentLengthPresent s = true -> rs_BodyLength s <= rs_ResponseContentLength s;
  ro_no_headers : rs_ResponseHeadersReceived s = false -> rs_delivered s = [];
  ro_forbidden : rs_ResponseBodyForbidden s = true -> rs_delivered s = [];
  ro_closed : rs_StreamClosed s = true -> live = true ->
    receiving = false /\ rs_ResponseHeadersReceived s = true
    /\ (rs_ResponseContentLengthPresent s = true -> rs_BodyLength s = rs_ResponseContentLength s);
  ro_continuation : is_u32 (rs_ContinuationFrames s) /\ is_u32 (rs_EmptyContinuationFrames s);
  ro_buffer : zlen (rs_nameValueBuffer s) < 2 ^ 62 /\ 0 <= rs_ResponseHeaderCapacity s;
}.

Definition live (a : Http2ActiveStream) : bool := negb (hs_streamId (as_Stream a) =? 0).
Definition receiving (s : Http2Stream) : bool :=
  match hs_state s with Idle | Open | HalfClosedLocal => true | _ => false end.

Record active_ok (capacity : Z) (a : Http2ActiveStream) : Prop := {
  ao_stream : stream_ok (as_Stream a);
  ao_local : hs_localWindow (as_Stream a) <= Http2InitialWindowSize;
  ao_id : 0 <= hs_streamId (as_Stream a) < 2 ^ 31;
  ao_response : response_ok capacity (live a) (receiving (as_Stream a)) (as_ResponseState a);
  ao_expecting : rs_ExpectingContinuation (as_ResponseState a) = true -> live a = true ->
    rs_ContinuationStreamId (as_ResponseState a) = hs_streamId (as_Stream a);
}.

(** Everything but the table of streams. *)
Record rest_ok (c : Http2Connection) : Prop := {
  rk_peer : settings_ok (hc_peerSettings c);
  rk_send : 0 <= hc_connectionSendWindow c <= Http2MaxWindowSize;
  rk_receive : 0 <= hc_connectionRecvWindow c /\ 0 <= hc_connectionRecvConsumed c
    /\ hc_connectionRecvWindow c + hc_connectionRecvConsumed c <= Http2InitialWindowSize;
  rk_decoder : table_safe (hd_maxTableSize (hc_decoder c)) (hd_table (hc_decoder c));
  rk_block : bytes (hc_responseHeaderBlock c) /\ zlen (hc_responseHeaderBlock c) = hc_headerBlockCapacity c;
  rk_headerBlock : zlen (hc_headerBlock c) = hc_headerBlockCapacity c;
  rk_capacity : 0 <= hc_headerBlockCapacity c < 2 ^ 32;
  rk_limits : 0 <= hc_decodedHeaderScratchCapacity c /\ is_u32 (st_MaxHeaderListSize (hc_localSettings c));
  rk_next : is_u32 (hc_nextStreamId c);
}.

Definition in_use (l : list Http2ActiveStream) (i : nat) (a : Http2ActiveStream) : Prop :=
  l !! i = Some a /\ as_InUse a = true.

Record conn_ok (c : Http2Connection) : Prop := {
  cn_rest : rest_ok c;
  cn_active : forall i a, in_use (hc_activeStreams c) i a -> active_ok (hc_headerBlockCapacity c) a;
  cn_distinct : forall i j a b, in_use (hc_activeStreams c) i a -> in_use (hc_activeStreams c) j b ->
    live a = true -> hs_streamId (as_Stream a) = hs_streamId (as_Stream b) -> i = j;
  cn_continuation : forall i j a b, in_use (hc_activeStreams c) i a -> in_use (hc_activeStreams c) j b ->
    rs_ExpectingContinuation (as_ResponseState a) = true -> rs_ExpectingContinuation (as_ResponseState b) = true ->
    i = j;
}.

(** What has been read and what is to come. *)
Definition input (c : Http2Connection) : Z * list (Result (list Z)) :=
  (hc_connectionFramesRead c, tr_incoming (hc_transport c)).

(** A step on the connection that leaves the table of streams alone. *)
Record good (c c' : Http2Connection) : Prop := {
  gd_rest : rest_ok c';
  gd_streams : hc_activeStreams c' = hc_activeStreams c;
  gd_capacity : hc_headerBlockCapacity c' = hc_headerBlockCapacity c;
  gd_input : input c' = input c;
}.

Lemma good_refl c : rest_ok c -> good c c.
Proof. by constructor. Qed.
Lemma good_trans c1 c2 c3 : good c1 c2 -> good c2 c3 -> good c1 c3.
Proof. intros [H1 H2 H3 H4] [H5 H6 H7 H8]. constructor; [done|congruence..]. Qed.

(** Fields that [rest_ok] does not mention. *)
Lemma good_ext c c' :
  rest_ok c -> hc_peerSettings c' = hc_peerSettings c -> hc_connectionSendWindow c' = hc_connectionSendWindow c ->
  hc_connectionRecvWindow c' = hc_connectionRecvWindow c -> hc_connectionRecvConsumed c' = hc_connectionRecvConsumed c ->
  hc_decoder c' = hc_decoder c -> hc_responseHeaderBlock c' = hc_responseHeaderBlock c ->
  hc_headerBlock c' = hc_headerBlock c -> hc_headerBlockCapacity c' = hc_headerBlockCapacity c ->
  hc_decodedHeaderScratchCapacity c' = hc_decodedHeaderScratchCapacity c ->
  hc_localSettings c' = hc_localSettings c -> hc_nextStreamId c' = hc_nextStreamId c ->
  hc_activeStreams c' = hc_activeStreams c -> input c' = input c -> good c c'.
Proof.
  intros [] E1 E2 E3 E4 E5 E6 E7 E8 E9 E10 E11 E12 E13. constructor; [constructor|done..].
  all: by rewrite ?E1, ?E2, ?E3, ?E4, ?E5, ?E6, ?E7, ?E8, ?E9, ?E10, ?E11.
Qed.

Lemma good_sent t c :
  rest_ok c -> tr_incoming t = tr_incoming (hc_transport c) -> good c (c <| hc_transport := t |>).
Proof. intros H E. apply good_ext; try done. unfold input. cbn. by rewrite E. Qed.
Lemma good_goaway g c : rest_ok c -> good c (c <| hc_goAwaySent := g |>).
Proof. intros H. by apply good_ext. Qed.

Lemma good_SendRaw data c : rest_ok c -> good c (SendRaw data c).2.
Proof.
  intros H. unfold SendRaw, transport_send. destruct (tr_results (hc_transport c)); by apply good_sent.
Qed.
Lemma good_send_encoded r c : rest_ok c -> good c (send_encoded r c).2.
Proof. intros H. destruct r; [by apply good_SendRaw|by apply good_refl]. Qed.
Lemma good_SendGoAway e c : rest_ok c -> good c (SendGoAway e c).2.
Proof.
  intros H. unfold SendGoAway. case_if; [by apply good_refl|].
  pose proof (good_send_encoded (EncodeGoAway (if hc_nextStreamId c >? 2 then hc_nextStreamId c - 2 else 0) e
    (Http2FrameHeaderLength + 8)) c H) as Hg.
  destruct (send_encoded _ c) as [st c']. cbn [snd] in *. case_if; [|done].
  eapply good_trans; [done|]. apply good_goaway, Hg.
Qed.
Lemma good_fail_connection e st c : rest_ok c -> good c (fail_connection e st c).2.
Proof. apply good_SendGoAway. Qed.
Lemma good_SendRstStream i e c : rest_ok c -> good c (SendRstStream i e c).2.
Proof. intros H. unfold SendRstStream. case_if; [by apply good_refl|by apply good_send_encoded]. Qed.
Lemma good_fail_stream i e st c : rest_ok c -> good c (fail_stream i e st c).2.
Proof. apply good_SendRstStream. Qed.
#[local] Hint Resolve good_refl good_SendRaw good_send_encoded good_SendGoAway good_SendRstStream good_fail_connection good_fail_stream : wk.

(** ** The table of streams *)

Lemma find_index_some test l i : find_index test l = Some i -> exists a, l !! i = Some a /\ test a = true.
Proof.
  revert i. induction l as [|a l IH]; intros i H; [done|]. cbn in H. destruct (test a) eqn:E.
  - injection H as <-. by exists a.
  - destruct (find_index test l) as [j|]; [|done]. injection H as <-. by apply IH.
Qed.
Lemma find_index_none test l : find_index test l = None -> forall i a, l !! i = Some a -> test a = false.
Proof.
  induction l as [|a l IH]; intros H i b Hi; [done|]. cbn in H. destruct (test a) eqn:E; [done|].
  destruct (find_index test l); [done|]. destruct i as [|i]; cbn in Hi; [by injection Hi as <-|by eapply IH].
Qed.

Lemma get_active_lookup i a c : hc_activeStreams c !! i = Some a -> get_active i c = a.
Proof. intros H. unfold get_active. by apply nth_lookup_Some with (d := active_default) in H. Qed.

Lemma FindActiveStream_some streamId c i :
  FindActiveStream streamId c = Some i ->
  exists a, in_use (hc_activeStreams c) i a /\ hs_streamId (as_Stream a) = streamId /\ live a = true
            /\ get_active i c = a.
Proof.
  unfold FindActiveStream. destruct (Z.eqb_spec streamId 0) as [|Hne]; [done|]. intros H.
  destruct (find_index_some _ _ _ H) as (a & Ha & Ht). bool_prop. exists a. unfold live.
  split; [by split|]. split_and!; [done| |by apply get_active_lookup]. apply negb_true_iff, Z.eqb_neq. congruence.
Qed.
Lemma FindActiveStream_none streamId c i a :
  FindActiveStream streamId c = None -> in_use (hc_activeStreams c) i a -> hs_streamId (as_Stream a) = streamId ->
  streamId = 0.
Proof.
  unfold FindActiveStream. destruct (Z.eqb_spec streamId 0) as [|Hne]; [done|]. intros H [Ha Hu] Hid.
  pose proof (find_index_none _ _ H i a Ha) as Hf. cbv beta in Hf. rewrite Hu, Hid, Z.eqb_refl in Hf. done.
Qed.

(** ** Frames of a stream preserve the invariant *)

(** What a frame leaves of the stream it was for. *)
Record step_ok (c : Http2Connection) (a : Http2ActiveStream) (o : Outcome) : Prop := {
  so_good : good c (oc_connection o);
  so_active : active_ok (hc_headerBlockCapacity c) (oc_active o);
  so_use : as_InUse (oc_active o) = as_InUse a;
  so_id : hs_streamId (as_Stream (oc_active o)) = hs_streamId (as_Stream a) \/ live (oc_active o) = false;
}.

Lemma step_fail_connection c a e st :
  rest_ok c -> active_ok (hc_headerBlockCapacity c) a -> step_ok c a (outcome a (fail_connection e st c)).
Proof. intros Hc Ha. constructor; cbn; auto with wk. Qed.
Lemma step_fail_stream c a i e st :
  rest_ok c -> active_ok (hc_headerBlockCapacity c) a -> step_ok c a (outcome a (fail_stream i e st c)).
Proof. intros Hc Ha. constructor; cbn; auto with wk. Qed.

Lemma step_same c a st : rest_ok c -> active_ok (hc_headerBlockCapacity c) a -> step_ok c a (st, a, c).
Proof. intros Hc Ha. constructor; cbn; auto with wk. Qed.

(** A step after a step. *)
Lemma step_trans c a c' a' o :
  good c c' -> as_InUse a' = as_InUse a -> hs_streamId (as_Stream a') = hs_streamId (as_Stream a) ->
  step_ok c' a' o -> step_ok c a o.
Proof.
  intros Hg Hu Hi [H1 H2 H3 H4]. constructor.
  - by eapply good_trans.
  - by rewrite <- (gd_capacity _ _ Hg).
  - congruence.
  - destruct H4 as [H4|H4]; [left; congruence|by right].
Qed.

Lemma step_from c a b o :
  rest_ok c -> as_InUse b = as_InUse a -> hs_streamId (as_Stream b) = hs_streamId (as_Stream a) ->
  step_ok c b o -> step_ok c a o.
Proof. intros Hc. by apply step_trans, good_refl. Qed.

Lemma active_with_state capacity a f :
  active_ok capacity a ->
  response_ok capacity (live a) (receiving (as_Stream a)) (f (as_ResponseState a)) ->
  (rs_ExpectingContinuation (f (as_ResponseState a)) = true -> live a = true ->
   rs_ContinuationStreamId (f (as_ResponseState a)) = hs_streamId (as_Stream a)) ->
  active_ok capacity (with_state f a).
Proof. intros [H1 H2 H3 H4 H5] Hr He. by constructor. Qed.

(** [response_ok] after an update of fields it says little about. *)
Ltac response_same := constructor; cbn; try assumption; auto with wk.

Lemma is_u32_u32 x : is_u32 (u32 x).
Proof. apply u32_range. Qed.
Lemma is_u32_0 : is_u32 0.
Proof. done. Qed.
#[local] Hint Resolve is_u32_u32 is_u32_0 : wk.

Definition with_counts (frames empty : Z) (a : Http2ActiveStream) : Http2ActiveStream :=
  with_state (fun s => s <| rs_ContinuationFrames := frames |> <| rs_EmptyContinuationFrames := empty |>) a.

Lemma with_counts_same a :
  with_counts (rs_ContinuationFrames (as_ResponseState a)) (rs_EmptyContinuationFrames (as_ResponseState a)) a = a.
Proof. by destruct a as [? ? []]. Qed.

(** It only counts, and it refuses, or accepts what is in order. *)
Lemma check_continuation_cases fh a c :
  is_u32 (rs_ContinuationFrames (as_ResponseState a)) -> is_u32 (rs_EmptyContinuationFrames (as_ResponseState a)) ->
  exists frames empty, is_u32 frames /\ is_u32 empty /\
    (check_continuation fh a c
     = outcome (with_counts frames empty a) (fail_connection ErrorCode_ProtocolError STATUS_INVALID_NETWORK_RESPONSE c)
     \/ check_continuation fh a c = (STATUS_SUCCESS, with_counts frames empty a, c)
        /\ (fh_Type fh =? FrameType_Continuation) = rs_ExpectingContinuation (as_ResponseState a)).
Proof.
  intros Hf He. unfold check_continuation.
  destruct (fh_Type fh =? FrameType_Continuation) eqn:Et.
  - destruct (negb (rs_ExpectingContinuation (as_ResponseState a)) || negb (fh_StreamId fh =? _)) eqn:E1.
    { eexists _, _. split; [exact Hf|]. split; [exact He|]. left. by rewrite with_counts_same. }
    apply orb_false_iff in E1 as [E1 _]. apply negb_false_iff in E1.
    set (n := u32 (rs_ContinuationFrames (as_ResponseState a) + 1)). cbv zeta.
    destruct (n >? Http2MaxContinuationFrames).
    { exists n, (rs_EmptyContinuationFrames (as_ResponseState a)). split; [apply u32_range|]. split; [exact He|by left]. }
    destruct (fh_Length fh =? 0).
    + set (m := u32 (rs_EmptyContinuationFrames (as_ResponseState a) + 1)). cbv zeta. exists n, m.
      split; [apply u32_range|]. split; [apply u32_range|].
      destruct (m >? Http2MaxEmptyContinuationFrames); [by left|right; by rewrite E1].
    + exists n, 0. split; [apply u32_range|]. split; [done|]. right. by rewrite E1.
  - eexists _, _. split; [exact Hf|]. split; [exact He|]. rewrite with_counts_same.
    destruct (rs_ExpectingContinuation (as_ResponseState a)); [by left|by right].
Qed.

Lemma with_counts_ok capacity frames empty a :
  is_u32 frames -> is_u32 empty -> active_ok capacity a -> active_ok capacity (with_counts frames empty a).
Proof.
  intros Hf He Ha. pose proof Ha as [_ _ _ [] Hx]. apply active_with_state; [done|by constructor|done].
Qed.

Lemma response_live capacity l r r' s :
  response_ok capacity l r s -> (rs_StreamClosed s = true -> l = true -> r' = false) -> response_ok capacity l r' s.
Proof. intros [] H. constructor; try done. intros Hc Hl. split; [by apply H|by apply ro_closed0]. Qed.

(** Only the stream changes. *)
Lemma active_with_stream capacity a s :
  active_ok capacity a -> stream_ok s -> hs_localWindow s <= Http2InitialWindowSize ->
  hs_streamId s = hs_streamId (as_Stream a) ->
  (rs_StreamClosed (as_ResponseState a) = true -> live a = true -> receiving s = false) ->
  active_ok capacity (a <| as_Stream := s |>).
Proof.
  intros [A1 A2 A3 A4 A5] H1 H2 H3 H4.
  assert (Hl : live (a <| as_Stream := s |>) = live a) by (unfold live; cbn; by rewrite H3).
  constructor; cbn [as_Stream set_field eta_expand Http2ActiveStream_eta]; try done; rewrite ?H3; try done.
  - rewrite Hl. by eapply response_live.
  - intros Hx Hlive. rewrite Hl in Hlive. by apply A5.
Qed.

(** [ReceiveHeaders] accepts only an open receiving direction, and ends it as
    told. *)
Lemma ReceiveHeaders_spec es s :
  stream_ok s ->
  stream_ok (ReceiveHeaders es s).2 /\ hs_localWindow (ReceiveHeaders es s).2 = hs_localWindow s
  /\ hs_streamId (ReceiveHeaders es s).2 = hs_streamId s
  /\ ((ReceiveHeaders es s).1 <> STATUS_SUCCESS -> (ReceiveHeaders es s).2 = s)
  /\ ((ReceiveHeaders es s).1 = STATUS_SUCCESS ->
      receiving s = true /\ (es = true -> receiving (ReceiveHeaders es s).2 = false)).
Proof. intros Hs. destruct s as [i [] l r], es; by split_and!. Qed.

Lemma finish_block_ok fh a c :
  rest_ok c -> active_ok (hc_headerBlockCapacity c) a ->
  rs_ResponseHeadersReceived (as_ResponseState a) = true ->
  (rs_PendingHeaderEndStream (as_ResponseState a) = true -> receiving (as_Stream a) = false) ->
  step_ok c a (finish_block fh a c).
Proof.
  intros Hc Ha Hh Hp. pose proof Ha as [_ _ _ [R1 R2 R3 R4 R5 R6 R7 R8 R9 R10] He]. unfold finish_block.
  set (b := with_state (fun s => s <| rs_ResponseHeaderBlockLen := 0 |>) a).
  assert (Hb : active_ok (hc_headerBlockCapacity c) b).
  { apply active_with_state; [done| |done]. constructor; cbn; try done; lia. }
  change (rs_PendingHeaderEndStream (as_ResponseState b)) with (rs_PendingHeaderEndStream (as_ResponseState a)).
  change (rs_ResponseContentLengthPresent (as_ResponseState b)) with (rs_ResponseContentLengthPresent (as_ResponseState a)).
  change (rs_BodyLength (as_ResponseState b)) with (rs_BodyLength (as_ResponseState a)).
  change (rs_ResponseContentLength (as_ResponseState b)) with (rs_ResponseContentLength (as_ResponseState a)).
  destruct (rs_PendingHeaderEndStream (as_ResponseState a)) eqn:Ep.
  - destruct (rs_ResponseContentLengthPresent (as_ResponseState a) &&
      negb (rs_BodyLength (as_ResponseState a) =? rs_ResponseContentLength (as_ResponseState a))) eqn:El.
    + apply (step_from c a b); [done..|]. by apply step_fail_stream.
    + constructor; [by apply good_refl| |done|by left]. apply active_with_state; [done| |done].
      pose proof Hb as [_ _ _ [] _]. constructor; cbn; try done. intros _ Hl. split_and!; [by apply Hp|done|].
      intros Hpr. rewrite Hpr in El. apply negb_false_iff, Z.eqb_eq in El. done.
  - constructor; [by apply good_refl| |done|by left]. apply active_with_state; [done| |done].
    pose proof Hb as [_ _ _ [] _]. by constructor.
Qed.

Lemma parse_decimal_loop_range l p n : 0 <= p -> parse_decimal_loop l p = Some n -> 0 <= n.
Proof.
  revert p. induction l as [|ch l IH]; intros p Hp H; cbn in H; [congruence|].
  repeat case_if_in H; try done. eapply IH; [|exact H]. pose proof (u64_range ((p *! 10) + (ch - 48))). lia.
Qed.
Lemma validate_header_length trailers h v v' :
  0 <= va_parsedContentLength v -> validate_header trailers h v = Some v' -> 0 <= va_parsedContentLength v'.
Proof.
  intros Hv H. unfold validate_header in H. destruct h as [name value].
  repeat (case_if_in H; try discriminate H); try (injection H as <-; done).
  destruct (ParseUnsignedDecimal value) as [n|] eqn:En; [|done]. case_if_in H; [done|]. injection H as <-.
  unfold ParseUnsignedDecimal in En. case_if_in En; [done|]. cbn. by eapply (parse_decimal_loop_range value 0).
Qed.
Lemma validated_length headers trailers status n :
  ValidateResponseHeaderBlock headers trailers = Ok (status, Some n) -> 0 <= n.
Proof.
  unfold ValidateResponseHeaderBlock.
  assert (H : forall hs v v', 0 <= va_parsedContentLength v -> validate_loop trailers hs v = Some v' ->
            0 <= va_parsedContentLength v').
  { induction hs as [|h hs IH]; intros v v' Hv Hl; cbn in Hl; [congruence|].
    destruct (validate_header trailers h v) as [v1|] eqn:E; [|done]. eapply IH; [|exact Hl].
    by eapply validate_header_length. }
  destruct (validate_loop _ _ _) as [v|] eqn:E; [|done]. intros Hr. case_if_in Hr; [done|].
  injection Hr as _ Hr. case_if_in Hr; [|done]. injection Hr as <-. by eapply (H _ (MkValidation false false false 0 0)).
Qed.

Lemma copy_status buffer refs capacity st : CopyRegularResponseHeaders buffer refs capacity = Err st -> st <> STATUS_SUCCESS.
Proof.
  unfold CopyRegularResponseHeaders. generalize (@nil HttpHeaderRef). induction refs as [|r refs IH]; intros out H; [done|].
  cbn [copy_regular_loop] in H. case_if_in H; [by eapply IH|]. case_if_in H; [by injection H as <-|by eapply IH].
Qed.

(** The headers of the final response arrive before any data. *)
Lemma accept_response_ok fh refs status contentLength a c :
  rest_ok c -> active_ok (hc_headerBlockCapacity c) a ->
  rs_ResponseHeadersReceived (as_ResponseState a) = false ->
  (rs_StreamClosed (as_ResponseState a) = true -> live a = false) ->
  (forall n, contentLength = Some n -> 0 <= n) ->
  step_ok c a (accept_response fh refs status contentLength a c)
  /\ (oc_status (accept_response fh refs status contentLength a c) = STATUS_SUCCESS ->
      rs_ResponseHeadersReceived (as_ResponseState (oc_active (accept_response fh refs status contentLength a c))) = true)
  /\ as_Stream (oc_active (accept_response fh refs status contentLength a c)) = as_Stream a
  /\ rs_PendingHeaderEndStream (as_ResponseState (oc_active (accept_response fh refs status contentLength a c)))
     = rs_PendingHeaderEndStream (as_ResponseState a).
Proof.
  intros Hc Ha Hh Hcl Hlen. pose proof Ha as [_ _ _ [R1 R2 R3 R4 R5 R6 R7 R8 R9 R10] He].
  assert (Hd : rs_delivered (as_ResponseState a) = []) by auto.
  assert (Hb0 : rs_BodyLength (as_ResponseState a) = 0) by (by rewrite R3, Hd).
  unfold accept_response. destruct (CopyRegularResponseHeaders _ _ _) as [hs|st] eqn:Ecopy.
  2:{ split; [by apply step_same|]. split; [|done]. intros Hs. by destruct (copy_status _ _ _ _ Ecopy). }
  cbv zeta. set (b := with_state _ a).
  assert (Hb : active_ok (hc_headerBlockCapacity c) b).
  { apply active_with_state; [done| |done]. constructor; cbn; try done.
    - intros Hp. destruct contentLength as [n|]; [|done]. rewrite Hb0. by apply Hlen.
    - intros Hcl' Hl. rewrite Hcl in Hl by done. done. }
  match goal with |- step_ok _ _ (if ?t then _ else _) /\ _ => destruct t end.
  - split; [|done]. apply (step_from c a b); [done..|]. by apply step_fail_stream.
  - split; [|done]. constructor; [by apply good_refl| |done|by left]. apply active_with_state; [done| |done].
    pose proof Hb as [_ _ _ [] _]. constructor; cbn; try done. intros Hx Hl.
    by destruct (ro_closed0 Hx Hl) as (? & _ & ?).
Qed.

Lemma accept_block_ok fh trailers buffer refs a c :
  rest_ok c -> active_ok (hc_headerBlockCapacity c) a ->
  rs_ResponseHeadersReceived (as_ResponseState a) = trailers ->
  (rs_StreamClosed (as_ResponseState a) = true -> live a = false) ->
  (rs_PendingHeaderEndStream (as_ResponseState a) = true -> receiving (as_Stream a) = false) ->
  step_ok c a (accept_block fh trailers buffer refs a c).
Proof.
  intros Hc Ha Ht Hcl Hp. unfold accept_block.
  destruct (ValidateResponseHeaderBlock _ _) as [[status len]|st] eqn:Ev; [|by apply step_fail_stream].
  destruct (negb trailers && (status >=? 100) && (status <? 200)) eqn:Ei.
  - case_if; [by apply step_fail_stream|].
    constructor; [by apply good_refl| |done|by left]. apply active_with_state; [done| |by apply Ha].
    pose proof (ao_response _ _ Ha) as []. constructor; cbn; try done; lia.
  - destruct trailers; [by apply finish_block_ok|].
    destruct (accept_response_ok fh refs status len a c Hc Ha Ht Hcl) as (Hs & Hhead & Hst & Hpend).
    { intros n ->. by eapply validated_length. }
    destruct (accept_response fh refs status len a c) as [[st b] c1] eqn:E.
    cbn [oc_status oc_active oc_connection fst snd] in *. destruct Hs as [S1 S2 S3 S4]. cbn [oc_active oc_connection fst snd] in *.
    destruct (NT_SUCCESS st) eqn:Est; cbn [negb]; [|by constructor]. apply NT_SUCCESS_true in Est. destruct S1 as [G1 G2 G3 G4].
    apply (step_trans c a c1 b); [by constructor|done|by rewrite Hst|].
    apply finish_block_ok; [done|by rewrite G3|by apply Hhead|]. rewrite Hpend, Hst. done.
Qed.

(** The decoder keeps its table in order and the buffers their lengths. *)
Lemma decode_block_ok alloc fh trailers a c :
  rest_ok c -> active_ok (hc_headerBlockCapacity c) a ->
  rs_ResponseHeadersReceived (as_ResponseState a) = trailers ->
  (rs_StreamClosed (as_ResponseState a) = true -> live a = false) ->
  (rs_PendingHeaderEndStream (as_ResponseState a) = true -> receiving (as_Stream a) = false) ->
  step_ok c a (decode_block alloc fh trailers a c).
Proof.
  intros Hc Ha Ht Hcl Hp. unfold decode_block.
  pose proof Hc as [K1 K2 K3 K4 [K5 K5'] K6 K7 [K8 K8'] K9]. pose proof (ao_response _ _ Ha) as [R1 R2 R3 R4 R5 R6 R7 R8 R9 [R10 R11]].
  set (block := ztake _ _). set (capacity := if trailers then _ else _). set (buffer := if trailers then hc_headerBlock c else _).
  assert (Hbuf : zlen buffer < 2 ^ 62) by (unfold buffer; destruct trailers; lia).
  assert (Hblock : bytes block /\ zlen block < 2 ^ 62).
  { unfold block. split; [auto with wk|]. rewrite zlen_ztake by lia. lia. }
  pose proof (decode_is_safe block buffer capacity (st_MaxHeaderListSize (hc_localSettings c)) alloc (hc_decoder c)
    (proj1 Hblock) (proj2 Hblock) Hbuf) as Hd.
  destruct (Decode (Bytes block) capacity buffer _ alloc (hc_decoder c)) as [r d].
  destruct Hd as (D1 & D2 & Hr); [unfold is_u32 in *; lia|unfold capacity, TrailerCapacity; destruct trailers; lia|done|].
  set (c1 := c <| hc_decoder := d |>).
  assert (Hc1 : rest_ok c1) by (constructor; cbn; try done; by rewrite D1).
  assert (Hg1 : good c c1) by by constructor.
  destruct r as [[[refs buffer'] used]|st].
  2:{ eapply step_trans; [exact Hg1|done|done|].
      repeat case_if; [by apply step_fail_connection..|by apply step_same]. }
  set (b := if trailers then a else _). set (c2 := if trailers then _ else c1).
  assert (Hc2 : rest_ok c2 /\ good c c2).
  { assert (Hx : rest_ok c2); [|split; [done|unfold c2 in *; destruct trailers; by constructor]].
    unfold c2, buffer in *. destruct trailers; [|done]. constructor; cbn; try done; [by rewrite D1|lia]. }
  assert (Hb : active_ok (hc_headerBlockCapacity c2) b).
  { assert (hc_headerBlockCapacity c2 = hc_headerBlockCapacity c) as -> by apply Hc2.
    unfold b, buffer in *. destruct trailers; [done|]. apply active_with_state; [done| |by apply Ha].
    constructor; cbn; try done. lia. }
  apply (step_trans c a c2 b); [apply Hc2|by unfold b; destruct trailers..|].
  apply accept_block_ok; [apply Hc2|done|..]; unfold b; by destruct trailers.
Qed.

Lemma complete_block_ok alloc fh a c :
  rest_ok c -> active_ok (hc_headerBlockCapacity c) a ->
  step_ok c a (complete_block alloc fh a c).
Proof.
  intros Hc Ha. unfold complete_block. set (b := with_state _ a).
  assert (Hb : active_ok (hc_headerBlockCapacity c) b).
  { apply active_with_state; [done| |done]. pose proof (ao_response _ _ Ha) as []. by constructor. }
  pose proof (ReceiveHeaders_spec (rs_PendingHeaderEndStream (as_ResponseState b)) (as_Stream b) (ao_stream _ _ Hb)) as
    (H1 & H2 & H3 & H4 & H5).
  destruct (ReceiveHeaders _ _) as [status stream]. cbn [fst snd] in *.
  destruct (NT_SUCCESS status) eqn:Es; cbn [negb].
  - apply NT_SUCCESS_true in Es. destruct (H5 Es) as [H6 H7].
    assert (Hcl : rs_StreamClosed (as_ResponseState b) = true -> live b = true -> False).
    { intros Hx Hl. destruct (ro_closed _ _ _ _ (ao_response _ _ Hb) Hx Hl) as [Hy _]. by rewrite Hy in H6. }
    set (d := b <| as_Stream := stream |>).
    assert (Hd : active_ok (hc_headerBlockCapacity c) d).
    { apply active_with_stream; try done; [by rewrite H2; apply Ha|]. intros Hx Hl. by destruct (Hcl Hx Hl). }
    assert (Hlive : live d = live b) by (unfold live; cbn; by rewrite H3).
    apply (step_from c a d); [done..|].
    case_if; [by apply step_fail_stream|].
    apply decode_block_ok; [done|done|done| |done].
    intros Hx. rewrite Hlive. destruct (live b) eqn:El; [|done]. by destruct (Hcl Hx eq_refl).
  - rewrite H4 by (intros ->; done). apply (step_from c a (b <| as_Stream := as_Stream b |>)); [done..|].
    apply step_fail_stream; [done|]. assert (b <| as_Stream := as_Stream b |> = b) as -> by (by destruct b). done.
Qed.

Lemma append_fragment_ok alloc fh content a c :
  rest_ok c -> active_ok (hc_headerBlockCapacity c) a -> bytes content ->
  fh_StreamId fh = hs_streamId (as_Stream a) -> step_ok c a (append_fragment alloc fh (Bytes content) a c).
Proof.
  intros Hc Ha Hb Hid. pose proof (ao_response _ _ Ha) as [R1 R2 R3 R4 R5 R6 R7 R8 R9 R10].
  pose proof Hc as [K1 K2 K3 K4 [K5 K5'] K6 K7 K8 K9]. pose proof (zlen_nonneg content).
  unfold append_fragment. cbn [sp_len sp_bytes]. case_if; [by apply step_fail_connection|].
  apply orb_false_iff in Heqb as [E1 E2]. bool_prop.
  set (c1 := c <| hc_responseHeaderBlock := _ |>).
  assert (Hc1 : rest_ok c1).
  { constructor; cbn; try done. split; [|rewrite zlen_mem_copy; lia].
    unfold mem_copy. repeat (apply Forall_app; split); auto with wk. }
  assert (Hg : good c c1) by by constructor. set (b := with_state _ a).
  assert (Hb1 : active_ok (hc_headerBlockCapacity c1) b).
  { apply active_with_state; [done| |by apply Ha]. constructor; cbn; try done. rewrite u64_id by lia. lia. }
  repeat case_if; [by apply (step_trans c a c1 b), complete_block_ok| |].
  - constructor; [done| |done|by left]. cbn [oc_active fst snd]. apply active_with_state; [done| |done].
    pose proof (ao_response _ _ Hb1) as []. by constructor.
  - apply (step_trans c a c1 b); [done..|]. by apply step_same.
Qed.

Lemma StripPadding_bytes flags payload content :
  bytes payload -> StripPadding flags (Bytes payload) = Ok content -> exists l, content = Bytes l /\ bytes l.
Proof.
  unfold StripPadding, null_payload. cbn [sp_isnull sp_bytes andb]. intros Hb H. repeat case_if_in H; try done;
    injection H as <-; eauto with wk.
Qed.
Lemma StripPriority_bytes flags payload content :
  bytes payload -> StripPriority flags (Bytes payload) = Ok content -> exists l, content = Bytes l /\ bytes l.
Proof.
  unfold StripPriority, null_payload. cbn [sp_isnull sp_bytes andb]. intros Hb H. repeat case_if_in H; try done;
    injection H as <-; eauto with wk.
Qed.

Lemma process_headers_ok alloc fh payload a c :
  rest_ok c -> active_ok (hc_headerBlockCapacity c) a -> bytes payload ->
  fh_StreamId fh = hs_streamId (as_Stream a) -> step_ok c a (process_headers alloc fh (Bytes payload) a c).
Proof.
  intros Hc Ha Hb Hid. unfold process_headers. case_if; [|by apply append_fragment_ok].
  set (b := with_state _ a). assert (Hb1 : active_ok (hc_headerBlockCapacity c) b).
  { apply active_with_state; [done| |by apply Ha]. pose proof (ao_response _ _ Ha) as []. by constructor. }
  apply (step_from c a b); [done..|].
  destruct (StripPadding (fh_Flags fh) (Bytes payload)) as [p|] eqn:E1; cbn [mbind Result_bind]; [|by apply step_same].
  destruct (StripPadding_bytes _ _ _ Hb E1) as (l1 & -> & Hl1).
  destruct (StripPriority (fh_Flags fh) (Bytes l1)) as [p|] eqn:E2; [|by apply step_same].
  destruct (StripPriority_bytes _ _ _ Hl1 E2) as (l2 & -> & Hl2). by apply append_fragment_ok.
Qed.

(** Received data leaves the announced window. *)
Lemma ReceiveData_spec n es s :
  stream_ok s -> 0 <= n < 2 ^ 64 ->
  let '(status, s') := ReceiveData n es s in
  hs_streamId s' = hs_streamId s /\ hs_remoteWindow s' = hs_remoteWindow s
  /\ (status <> STATUS_SUCCESS -> s' = s)
  /\ (status = STATUS_SUCCESS -> n <= hs_localWindow s /\ hs_localWindow s' = hs_localWindow s - n
      /\ receiving s = true /\ receiving s' = negb es).
Proof.
  intros [Hr Hl] Hn. destruct s as [id st lw rw]. unfold ReceiveData. stream_cbn. unfold Http2MaxWindowSize in *.
  rewrite window_test by (done || unfold Http2MaxWindowSize; lia).
  destruct st; decide_states. 1,4,5: by split_and!.
  all: destruct ((0 <? n) && (lw <? n)) eqn:E; [by split_and!|].
  all: assert (Hfit : n <= lw) by (apply andb_false_iff in E as [E|E]; bool_prop; lia).
  all: rewrite (i32_id n), i32_id by lia; destruct es; decide_states; by split_and!.
Qed.

Lemma IncreaseLocalWindow_spec n s :
  stream_ok s -> 0 < n -> hs_localWindow s + n <= Http2InitialWindowSize ->
  IncreaseLocalWindow n s = (STATUS_SUCCESS, s <| hs_localWindow := hs_localWindow s + n |>).
Proof.
  intros [Hr Hl] Hn Hw. change Http2InitialWindowSize with 65535 in Hw.
  destruct (increment_limit n) as [E1 E2]; [unfold Http2MaxWindowSize; lia|].
  unfold IncreaseLocalWindow. rewrite E1, E2, i32_id by lia. unfold Http2MaxWindowSize.
  destruct (Z.eqb_spec n 0); [lia|]. by guard_false.
Qed.

(** Sending leaves the counters of the connection alone. *)
Definition windows (c : Http2Connection) : Z * Z := (hc_connectionRecvWindow c, hc_connectionRecvConsumed c).
Lemma send_encoded_windows r c : windows (send_encoded r c).2 = windows c.
Proof. unfold send_encoded, SendRaw. destruct r; [|done]. by destruct (transport_send _ _). Qed.

(** The stream of the caller after its credit has been announced. *)
Record credited (n : Z) (status : NTSTATUS) (s s' : Http2Stream) : Prop := {
  cr_ok : stream_ok s' /\ hs_localWindow s' <= Http2InitialWindowSize;
  cr_same : hs_streamId s' = hs_streamId s /\ hs_state s' = hs_state s;
  cr_window : status = STATUS_SUCCESS -> hs_localWindow s' = hs_localWindow s + n;
}.

Lemma SendWindowUpdateIfNeeded_ok stream n c :
  rest_ok c -> 0 <= n ->
  (forall s, stream = Some s -> stream_ok s /\ hs_localWindow s + n <= Http2InitialWindowSize) ->
  let '(status, stream', c') := SendWindowUpdateIfNeeded stream n c in
  good c c'
  /\ hc_connectionRecvWindow c' + hc_connectionRecvConsumed c' = hc_connectionRecvWindow c + hc_connectionRecvConsumed c
  /\ (status = STATUS_SUCCESS -> hc_connectionRecvConsumed c' < WindowUpdateThreshold)
  /\ match stream, stream' with
     | None, None => True
     | Some s, Some s' => credited n status s s'
     | _, _ => False
     end.
Proof.
  intros Hc Hn Hs. unfold SendWindowUpdateIfNeeded.
  set (first := if _ >=? _ then _ else _).
  assert (Hf : good c first.2 /\ hc_connectionRecvWindow first.2 + hc_connectionRecvConsumed first.2
                 = hc_connectionRecvWindow c + hc_connectionRecvConsumed c
               /\ (first.1 = STATUS_SUCCESS -> hc_connectionRecvConsumed first.2 < WindowUpdateThreshold)).
  { unfold first. case_if; [|bool_prop; split_and!; [auto with wk|done|intros _; cbn; lia]].
    pose proof (good_send_encoded (EncodeWindowUpdate 0 (hc_connectionRecvConsumed c) (Http2FrameHeaderLength + 4)) c Hc) as Hg.
    pose proof (send_encoded_windows (EncodeWindowUpdate 0 (hc_connectionRecvConsumed c) (Http2FrameHeaderLength + 4)) c) as Hw.
    destruct (send_encoded _ c) as [st c1]. cbn [snd] in *. injection Hw as W1 W2.
    case_if; [split_and!; [done|cbn [snd]; lia|cbn; by intros ->]|]. destruct Hg as [Hg1 Hg2 Hg3 Hg4].
    pose proof Hg1 as [K1 K2 K3 K4 K5 K6 K7 K8 K9]. change Http2InitialWindowSize with 65535 in *. cbn [snd].
    assert (Hi : i32 (hc_connectionRecvWindow c1 + i32 (hc_connectionRecvConsumed c1)) = hc_connectionRecvWindow c1 + hc_connectionRecvConsumed c1).
    { rewrite (i32_id (hc_connectionRecvConsumed c1)), i32_id by lia. lia. }
    split_and!; [|cbn; rewrite Hi; lia|done].
    constructor; [|done..]. constructor; cbn; try done. rewrite Hi. change Http2InitialWindowSize with 65535. lia. }
  destruct first as [st c1]. cbn [fst snd] in Hf. destruct Hf as (Hg & Hsum & Hless).
  destruct (negb (NT_SUCCESS st)) eqn:Est.
  { split_and!; [done|done|by intros ->|]. destruct stream as [s|]; [|done]. destruct (Hs s eq_refl) as [H1 H2].
    constructor; [split; [done|lia]|done|]. by intros ->. }
  apply negb_false_iff, NT_SUCCESS_true in Est. specialize (Hless Est).
  destruct stream as [s|]; [|by split_and!]. destruct (Hs s eq_refl) as [H1 H2].
  case_if.
  - bool_prop.
    pose proof (good_send_encoded (EncodeWindowUpdate (hs_streamId s) n (Http2FrameHeaderLength + 4)) c1 (gd_rest _ _ Hg)) as Hg1.
    pose proof (send_encoded_windows (EncodeWindowUpdate (hs_streamId s) n (Http2FrameHeaderLength + 4)) c1) as Hw.
    destruct (send_encoded _ c1) as [st1 c2]. cbn [snd] in *. injection Hw as W1 W2.
    case_if.
    + split_and!; [by eapply good_trans|lia|by intros ->|]. constructor; [split; [done|lia]|done|]. by intros ->.
    + rewrite IncreaseLocalWindow_spec by done. cbv beta iota. split_and!; [by eapply good_trans|lia|lia|].
      change Http2InitialWindowSize with 65535 in *. destruct H1 as [H1 H1'].
      constructor; cbn; [|done|done]. unfold stream_ok, Http2MaxWindowSize in *. cbn.
      change Http2InitialWindowSize with 65535. lia.
  - bool_prop. split_and!; [done..|]. constructor; [split; [done|lia]|done|lia].
Qed.

(** What the connection may still be sent, once all credit is announced. *)
Definition receive_credit (c : Http2Connection) : Z := hc_connectionRecvWindow c + hc_connectionRecvConsumed c.

(** Frames that fail keep the credit. *)
Lemma credit_fail_stream i e st c : windows (fail_stream i e st c).2 = windows c.
Proof. unfold fail_stream, SendRstStream. cbn [snd]. case_if; [done|]. apply send_encoded_windows. Qed.
Lemma windows_credit c c' : windows c' = windows c -> receive_credit c' = receive_credit c.
Proof. unfold receive_credit. by intros [= -> ->]. Qed.

Lemma finish_data_ok fh n a c :
  rest_ok c -> active_ok (hc_headerBlockCapacity c) a -> 0 <= n ->
  receive_credit c + n <= Http2InitialWindowSize -> hs_localWindow (as_Stream a) + n <= Http2InitialWindowSize ->
  rs_ResponseHeadersReceived (as_ResponseState a) = true ->
  (flag_set Flag_EndStream (fh_Flags fh) = true -> receiving (as_Stream a) = false) ->
  step_ok c a (finish_data fh n a c)
  /\ receive_credit (oc_connection (finish_data fh n a c)) = receive_credit c + n
  /\ (oc_status (finish_data fh n a c) = STATUS_SUCCESS ->
      hc_connectionRecvConsumed (oc_connection (finish_data fh n a c)) < WindowUpdateThreshold).
Proof.
  intros Hc Ha Hn Hcr Hw Hh Hend. unfold finish_data, receive_credit in *.
  pose proof Hc as [K1 K2 K3 K4 K5 K6 K7 K8 K9]. change Http2InitialWindowSize with 65535 in *.
  rewrite (u32_id n), u32_id by lia. set (c1 := c <| hc_connectionRecvConsumed := _ |>).
  assert (Hc1 : rest_ok c1).
  { constructor; cbn; try done. change Http2InitialWindowSize with 65535. lia. }
  assert (Hg1 : good c c1) by by constructor. set (es := flag_set _ _) in *.
  pose proof (SendWindowUpdateIfNeeded_ok (if es then None else Some (as_Stream a)) n c1 Hc1 Hn) as Hs.
  destruct (SendWindowUpdateIfNeeded _ n c1) as [[st stream] c2].
  destruct Hs as (Hg2 & Hcredit & Hless & Hstream).
  { intros s E. destruct es; [done|]. injection E as <-. split; [by apply Ha|done]. }
  assert (Hg : good c c2) by (by eapply good_trans). change (hc_connectionRecvConsumed c1) with (hc_connectionRecvConsumed c + n) in Hcredit.
  change (hc_connectionRecvWindow c1) with (hc_connectionRecvWindow c) in Hcredit.
  assert (Hc2 : rest_ok c2) by apply Hg.
  set (b := match stream with Some s => _ | None => a end).
  assert (Hb : active_ok (hc_headerBlockCapacity c2) b /\ as_InUse b = as_InUse a /\ as_ResponseState b = as_ResponseState a
    /\ hs_streamId (as_Stream b) = hs_streamId (as_Stream a) /\ (es = true -> receiving (as_Stream b) = false)).
  { rewrite (gd_capacity _ _ Hg). unfold b. destruct es, stream as [s|]; try done.
    destruct Hstream as [[S1 S2] [S3 S4] S5]. split_and!; try done. apply active_with_stream; try done.
    intros Hcl Hl. unfold receiving. rewrite S4. by apply (ro_closed _ _ _ _ (ao_response _ _ Ha)). }
  destruct Hb as (Hb1 & Hb2 & Hb3 & Hb4 & Hb5).
  assert (Hstep : forall st, step_ok c a (st, b, c2)).
  { intros st'. apply (step_trans c a c2 b); [done..|]. by apply step_same. }
  destruct (negb (NT_SUCCESS st)) eqn:Est; [split_and!; [done|cbn; lia|cbn; by intros ->]|].
  apply negb_false_iff, NT_SUCCESS_true in Est. specialize (Hless Est).
  destruct es eqn:Ees; [|split_and!; [done|cbn; lia|done]]. case_if.
  - split_and!; [apply (step_trans c a c2 b); [done..|]; by apply step_fail_stream| |done].
    change (receive_credit (fail_stream (fh_StreamId fh) ErrorCode_ProtocolError STATUS_INVALID_NETWORK_RESPONSE c2).2 = hc_connectionRecvWindow c + hc_connectionRecvConsumed c + n).
    rewrite (windows_credit c2) by apply credit_fail_stream. unfold receive_credit. lia.
  - split_and!; [|cbn; lia|done]. apply (step_trans c a c2 b); [done..|]. constructor; [by apply good_refl| |done|by left].
    apply active_with_state; [done| |by apply Hb1]. pose proof (ao_response _ _ Hb1) as []. constructor; cbn; try done.
    intros _ _. split_and!; [by apply Hb5|by rewrite Hb3|]. intros Hp. rewrite Hp in Heqb0. by apply negb_false_iff, Z.eqb_eq in Heqb0.
Qed.

(** A frame handled in full gives back the credit it took. *)
Definition credit_kept (c : Http2Connection) (status : NTSTATUS) (c' : Http2Connection) : Prop :=
  receive_credit c' <= receive_credit c
  /\ (status = STATUS_SUCCESS -> receive_credit c' = receive_credit c
      /\ (hc_connectionRecvConsumed c < WindowUpdateThreshold -> hc_connectionRecvConsumed c' < WindowUpdateThreshold)).

Lemma credit_fail_connection e st c : windows (fail_connection e st c).2 = windows c.
Proof.
  unfold fail_connection, SendGoAway. cbn [snd]. case_if; [done|].
  set (r := EncodeGoAway _ _ _). pose proof (send_encoded_windows r c) as H.
  destruct (send_encoded r c) as [st' c']. cbn [snd] in *. by case_if.
Qed.
Lemma kept_refl c st : credit_kept c st c.
Proof. split; [lia|done]. Qed.
Lemma kept_same c st c' : windows c' = windows c -> credit_kept c st c'.
Proof. intros H. pose proof (windows_credit _ _ H). injection H as _ H. split; [lia|]. split; [done|congruence]. Qed.

(** The credit of a failed step is at most that of a kept one. *)
Lemma step_data c c' a o :
  good c c' -> receive_credit c' <= receive_credit c -> oc_status o <> STATUS_SUCCESS ->
  step_ok c' a o /\ windows (oc_connection o) = windows c' ->
  step_ok c a o /\ credit_kept c (oc_status o) (oc_connection o).
Proof.
  intros Hg Hc Hs [Ho Hr]. apply windows_credit in Hr. split; [by apply (step_trans c a c' a)|]. split; [lia|done].
Qed.

Lemma deliver_data_ok append fh n content a c :
  rest_ok c -> active_ok (hc_headerBlockCapacity c) a -> zlen content <= n < 2 ^ 32 ->
  hs_localWindow (as_Stream a) + n <= Http2InitialWindowSize ->
  (rs_StreamClosed (as_ResponseState a) = true -> live a = false) ->
  rs_ResponseHeadersReceived (as_ResponseState a) = true -> rs_ResponseBodyForbidden (as_ResponseState a) = false ->
  (flag_set Flag_EndStream (fh_Flags fh) = true -> receiving (as_Stream a) = false) ->
  step_ok c a (deliver_data append fh n (Bytes content) a c)
  /\ credit_kept c (oc_status (deliver_data append fh n (Bytes content) a c))
       (oc_connection (deliver_data append fh n (Bytes content) a c)).
Proof.
  intros Hc Ha Hn Hw Hcl Hh Hf Hend. pose proof (zlen_nonneg content). unfold deliver_data. cbn [sp_len sp_bytes].
  pose proof Hc as [K1 K2 [K3 [K3' K3'']] K4 K5 K6 K7 K8 K9]. change Http2InitialWindowSize with 65535 in *.
  destruct ((hc_connectionRecvWindow c <? 0) || _) eqn:E1.
  { split; [by apply step_fail_connection|]. apply kept_same, credit_fail_connection. }
  apply orb_false_iff in E1 as [E1 E2]. bool_prop. rewrite u64_id in E2 by lia.
  rewrite (i32_id n), i32_id by lia. set (c1 := c <| hc_connectionRecvWindow := _ |>).
  assert (Hc1 : rest_ok c1).
  { constructor; cbn; try done. change Http2InitialWindowSize with 65535. lia. }
  assert (Hg1 : good c c1) by by constructor.
  assert (Hr1 : receive_credit c1 = receive_credit c - n) by (unfold receive_credit; cbn; lia).
  pose proof (ao_response _ _ Ha) as [R1 R2 R3 R4 R5 R6 R7 R8 R9 R10].
  assert (Hm : MAXU64 -! zlen content = MAXU64 - zlen content) by (unfold MAXU64; rewrite u64_id; lia).
  rewrite Hm. destruct (rs_BodyLength (as_ResponseState a) >? MAXU64 - zlen content) eqn:E3.
  { apply (step_data c c1 a); [done|lia|done|]. split; [by apply step_same|done]. }
  bool_prop. unfold MAXU64 in E3. rewrite u64_id by lia.
  destruct (rs_ResponseContentLengthPresent _ && _) eqn:E4.
  { apply (step_data c c1 a); [done|lia|done|]. split; [by apply step_fail_stream|]. apply credit_fail_stream. }
  destruct (negb (NT_SUCCESS (append _ content))) eqn:E5.
  { apply (step_data c c1 a); [done|lia| |split; [by apply step_same|done]]. cbn. by intros E; rewrite E in E5. }
  set (b := with_state _ a). assert (Hb : active_ok (hc_headerBlockCapacity c1) b).
  { apply active_with_state; [done| |by apply Ha]. constructor; cbn; try done.
    - rewrite R3. unfold body_total. rewrite foldr_app. cbn [foldr].
      generalize (rs_delivered (as_ResponseState a)). induction l as [|d l IH]; cbn [foldr]; lia.
    - lia.
    - intros Hp. rewrite Hp in E4. cbn in E4. bool_prop. lia.
    - by rewrite Hh.
    - by rewrite Hf.
    - intros Hx Hl. by rewrite Hcl in Hl. }
  destruct (finish_data_ok fh n b c1) as (F1 & F2 & F3); [done|done|lia|change Http2InitialWindowSize with 65535; unfold receive_credit in *; lia|done|done|done|].
  split; [by apply (step_trans c a c1 b)|]. split; [lia|]. intros Hs. split; [lia|auto].
Qed.

Lemma process_data_ok append fh payload a c :
  rest_ok c -> active_ok (hc_headerBlockCapacity c) a -> bytes payload -> zlen payload < 2 ^ 32 ->
  step_ok c a (process_data append fh (Bytes payload) a c)
  /\ credit_kept c (oc_status (process_data append fh (Bytes payload) a c))
       (oc_connection (process_data append fh (Bytes payload) a c)).
Proof.
  intros Hc Ha Hb Hn. pose proof (zlen_nonneg payload). unfold process_data. cbn [sp_len].
  destruct (rs_ResponseHeadersReceived (as_ResponseState a)) eqn:Eh; cbn [negb].
  2:{ split; [by apply step_fail_stream|]. apply kept_same, credit_fail_stream. }
  destruct (StripPadding (fh_Flags fh) (Bytes payload)) as [p|st] eqn:Ep.
  2:{ split; [by apply step_same|apply kept_refl]. }
  destruct (StripPadding_bytes _ _ _ Hb Ep) as (content & -> & _).
  destruct (rs_ResponseBodyForbidden (as_ResponseState a)) eqn:Ef.
  { split; [by apply step_fail_stream|]. apply kept_same, credit_fail_stream. }
  assert (Hlen : zlen content <= zlen payload).
  { unfold StripPadding, null_payload in Ep. cbn [sp_isnull sp_len sp_bytes andb] in Ep.
    destruct (Z.land _ _ =? 0); [injection Ep as ->; lia|]. destruct (zlen payload <? 1); [done|].
    case_if_in Ep; [done|]. injection Ep as <-. unfold zsub, ztake, zdrop, zlen. rewrite length_take, length_drop. lia. }
  pose proof (ReceiveData_spec (zlen payload) (flag_set Flag_EndStream (fh_Flags fh)) (as_Stream a) (ao_stream _ _ Ha)) as Hr.
  pose proof (stream_step_refines (OpReceiveData (zlen payload) (flag_set Flag_EndStream (fh_Flags fh))) (as_Stream a) (ao_stream _ _ Ha)) as Hs.
  cbn [stream_step stream_op_ok] in Hs. destruct (ReceiveData _ _ _) as [st stream]. cbn [fst snd] in Hs.
  destruct Hr as (H1 & H2 & H3 & H4); [lia|]. destruct Hs as (_ & Hs & _); [unfold is_u64; lia|].
  destruct (NT_SUCCESS st) eqn:Est; cbn [negb].
  - apply NT_SUCCESS_true in Est. destruct (H4 Est) as (H5 & H6 & H7 & H8). set (b := a <| as_Stream := stream |>).
    assert (Hcl : rs_StreamClosed (as_ResponseState a) = true -> live a = true -> False).
    { intros Hx Hl. destruct (ro_closed _ _ _ _ (ao_response _ _ Ha) Hx Hl) as [Hy _]. by rewrite Hy in H7. }
    pose proof (ao_local _ _ Ha).
    assert (Hb1 : active_ok (hc_headerBlockCapacity c) b).
    { apply active_with_stream; try done; [lia|]. intros Hx Hl. by destruct (Hcl Hx Hl). }
    assert (Hlive : live b = live a) by (unfold live; cbn; by rewrite H1).
    destruct (deliver_data_ok append fh (zlen payload) content b c) as [D1 D2]; try done.
    + cbn. lia.
    + intros Hx. rewrite Hlive. destruct (live a) eqn:El; [|done]. by destruct (Hcl Hx eq_refl).
    + intros E. cbn. by rewrite H8, E.
    + split; [by apply (step_from c a b)|done].
  - rewrite H3 by (intros ->; done). split; [|apply kept_same, credit_fail_stream].
    assert (a <| as_Stream := as_Stream a |> = a) as -> by (by destruct a). by apply step_fail_stream.
Qed.

Lemma process_reset_ok payload a c :
  rest_ok c -> active_ok (hc_headerBlockCapacity c) a -> step_ok c a (process_reset payload a c).
Proof.
  intros Hc Ha. unfold process_reset. destruct (DecodeRstStreamPayload payload); [|by apply step_same].
  set (b := with_state _ _). assert (Hb : active_ok (hc_headerBlockCapacity c) b).
  { pose proof (ao_response _ _ Ha) as []. constructor; cbn; try done. }
  repeat case_if; (constructor; [by apply good_refl|done|done|by right]).
Qed.

Lemma process_window_update_ok fh payload a c :
  rest_ok c -> active_ok (hc_headerBlockCapacity c) a -> bytes payload ->
  step_ok c a (process_window_update fh (Bytes payload) a c).
Proof.
  intros Hc Ha Hb. unfold process_window_update. destruct (DecodeWindowUpdatePayload (Bytes payload)) as [n|st] eqn:E;
    [|by apply step_fail_stream].
  assert (Hn : 0 <= n <= Http2MaxWindowSize).
  { unfold DecodeWindowUpdatePayload in E. cbn [sp_isnull sp_len sp_bytes] in E. case_if_in E; [done|].
    case_if_in E; [done|]. injection E as <-. rewrite mask31. unfold Http2MaxWindowSize.
    pose proof (Z.mod_pos_bound (ReadUint32BE payload) (2 ^ 31)). lia. }
  destruct (stream_step_refines (OpIncreaseRemoteWindow n) (as_Stream a) (ao_stream _ _ Ha) Hn) as (_ & S1 & S2 & S3).
  cbn [stream_step] in *. assert (Hst : hs_state (IncreaseRemoteWindow n (as_Stream a)).2 = hs_state (as_Stream a)
    /\ hs_localWindow (IncreaseRemoteWindow n (as_Stream a)).2 = hs_localWindow (as_Stream a)).
  { unfold IncreaseRemoteWindow. repeat case_if; done. }
  destruct (IncreaseRemoteWindow n (as_Stream a)) as [st stream]. cbn [fst snd] in *. destruct Hst as [T1 T2].
  set (b := a <| as_Stream := stream |>). assert (Hb1 : active_ok (hc_headerBlockCapacity c) b).
  { apply active_with_stream; try done; [by rewrite T2; apply Ha|]. intros Hx Hl. unfold receiving. rewrite T1.
    by apply (ro_closed _ _ _ _ (ao_response _ _ Ha)). }
  apply (step_from c a b); [done..|]. case_if; [by apply step_fail_stream|by apply step_same].
Qed.

Lemma process_priority_ok fh payload a c :
  rest_ok c -> active_ok (hc_headerBlockCapacity c) a -> step_ok c a (process_priority fh payload a c).
Proof.
  intros Hc Ha. unfold process_priority. destruct (DecodePriorityPayload _ _); [by apply step_same|by apply step_fail_stream].
Qed.

(** Only DATA touches the receive windows of the connection. *)
Ltac credit_step :=
  repeat match goal with
  | |- context [if ?b then _ else _] => lazymatch type of b with bool => destruct b end
  | |- context [match ?r with Ok _ => _ | Err _ => _ end] => destruct r
  end; cbn [oc_connection outcome fst snd]; rewrite ?credit_fail_stream, ?credit_fail_connection; try done.

Lemma finish_block_credit fh a c : windows (oc_connection (finish_block fh a c)) = windows c.
Proof. unfold finish_block. cbv zeta. credit_step. Qed.
Lemma accept_response_credit fh refs st n a c :
  windows (oc_connection (accept_response fh refs st n a c)) = windows c.
Proof. unfold accept_response. cbv zeta. credit_step. Qed.
Lemma accept_block_credit fh trailers buffer refs a c :
  windows (oc_connection (accept_block fh trailers buffer refs a c)) = windows c.
Proof.
  unfold accept_block. destruct (ValidateResponseHeaderBlock _ _) as [[st n]|]; [|credit_step].
  destruct (_ && (st <? 200)); [credit_step|]. destruct trailers; [apply finish_block_credit|].
  pose proof (accept_response_credit fh refs st n a c) as H.
  destruct (accept_response _ _ _ _ _ _) as [[s b] c1]. cbn [oc_connection snd] in H. rewrite <- H.
  destruct (negb _); [done|apply finish_block_credit].
Qed.
Lemma decode_block_credit alloc fh trailers a c :
  windows (oc_connection (decode_block alloc fh trailers a c)) = windows c.
Proof.
  unfold decode_block. destruct (Decode _ _ _ _ _ _) as [[[[refs buffer] used]|st] d].
  - rewrite accept_block_credit. by destruct trailers.
  - credit_step.
Qed.
Lemma complete_block_credit alloc fh a c :
  windows (oc_connection (complete_block alloc fh a c)) = windows c.
Proof.
  unfold complete_block. destruct (ReceiveHeaders _ _) as [st stream].
  destruct (negb _); [credit_step|]. destruct (_ && _); [credit_step|apply decode_block_credit].
Qed.
Lemma append_fragment_credit alloc fh content a c :
  windows (oc_connection (append_fragment alloc fh content a c)) = windows c.
Proof.
  unfold append_fragment. destruct (_ || _); [credit_step|].
  destruct (flag_set _ _); [by rewrite complete_block_credit|credit_step].
Qed.
Lemma process_headers_credit alloc fh payload a c :
  windows (oc_connection (process_headers alloc fh payload a c)) = windows c.
Proof.
  unfold process_headers. destruct (_ =? _); [|apply append_fragment_credit].
  destruct (_ ≫= _); [apply append_fragment_credit|done].
Qed.

Lemma ProcessResponseFrame_ok alloc append fh payload a c :
  rest_ok c -> active_ok (hc_headerBlockCapacity c) a -> bytes payload -> zlen payload < 2 ^ 32 ->
  fh_StreamId fh = hs_streamId (as_Stream a) ->
  step_ok c a (ProcessResponseFrame alloc append fh (Bytes payload) a c)
  /\ credit_kept c (oc_status (ProcessResponseFrame alloc append fh (Bytes payload) a c))
       (oc_connection (ProcessResponseFrame alloc append fh (Bytes payload) a c)).
Proof.
  intros Hc Ha Hb Hn Hid. unfold ProcessResponseFrame. destruct (negb (rs_pointers _)).
  { split; [by apply step_same|apply kept_refl]. }
  destruct (ro_continuation _ _ _ _ (ao_response _ _ Ha)) as [C1 C2].
  destruct (check_continuation_cases fh a c C1 C2) as (n & m & Hf & He & [->|[-> Hcont]]); cbn [outcome fst snd fail_connection NT_SUCCESS negb].
  { split; [|apply kept_same, (credit_fail_connection _ STATUS_SUCCESS)].
    apply (step_from c a (with_counts n m a)); [done..|].
    apply (step_fail_connection c _ ErrorCode_ProtocolError STATUS_INVALID_NETWORK_RESPONSE); [done|by apply with_counts_ok]. }
  pose proof (with_counts_ok _ _ _ _ Hf He Ha) as Hw. set (b := with_counts n m a) in *.
  assert (Hfrom : forall o, step_ok c b o -> step_ok c a o) by (intros o; by apply step_from).
  repeat case_if.
  - split; [by apply Hfrom, process_priority_ok|]. apply kept_same. unfold process_priority. credit_step.
  - split; [by apply Hfrom, process_headers_ok|]. apply kept_same, process_headers_credit.
  - destruct (process_data_ok append fh payload b c Hc Hw Hb Hn) as [H1 H2]. split; [by apply Hfrom|done].
  - split; [by apply Hfrom, process_reset_ok|]. apply kept_same. unfold process_reset. credit_step.
  - split; [by apply Hfrom, process_window_update_ok|]. apply kept_same. unfold process_window_update.
    destruct (DecodeWindowUpdatePayload _); [|credit_step]. destruct (IncreaseRemoteWindow _ _). credit_step.
  - split; [by apply Hfrom, step_same|apply kept_refl].
Qed.

(** ** The table after a frame *)

Lemma in_use_set i a' l j b :
  in_use (<[i := a']> l) j b -> (j = i /\ b = a' /\ as_InUse a' = true) \/ (j <> i /\ in_use l j b).
Proof.
  intros [H Hu]. destruct (decide (j = i)) as [->|Hne].
  - left. apply list_lookup_insert_Some in H as [(_ & <- & _)|[? _]]; [by subst|done].
  - right. rewrite list_lookup_insert_ne in H by done. by split.
Qed.

(** The entry of the frame changes; no other entry expects a CONTINUATION. *)
Lemma set_active_ok c i a o :
  conn_ok c -> in_use (hc_activeStreams c) i a -> step_ok c a o ->
  (forall j b, in_use (hc_activeStreams c) j b -> rs_ExpectingContinuation (as_ResponseState b) = true -> j = i) ->
  conn_ok (set_active i (oc_active o) (oc_connection o)).
Proof.
  intros [C1 C2 C3 C4] Hi [[G1 G2 G3 G4] A U I] Hx.
  assert (Hin : forall j b, in_use (hc_activeStreams (set_active i (oc_active o) (oc_connection o))) j b ->
    (j = i /\ b = oc_active o) \/ (j <> i /\ in_use (hc_activeStreams c) j b)).
  { intros j b H. unfold set_active in H. cbn in H. rewrite G2 in H.
    destruct (in_use_set _ _ _ _ _ H) as [(? & ? & _)|]; [by left|by right]. }
  assert (Hlive : live (oc_active o) = true -> hs_streamId (as_Stream (oc_active o)) = hs_streamId (as_Stream a) /\ live a = true).
  { intros H. destruct I as [I|I]; [|by rewrite I in H]. split; [done|]. unfold live in *. by rewrite <- I. }
  constructor.
  - destruct G1. by constructor.
  - intros j b H. change (hc_headerBlockCapacity (set_active _ _ _)) with (hc_headerBlockCapacity (oc_connection o)). rewrite G3.
    destruct (Hin j b H) as [[_ ->]|[_ H']]; [done|by eapply C2].
  - intros j k b d Hj Hk Hl Hid. destruct (Hin j b Hj) as [[-> ->]|[Hji Hj']], (Hin k d Hk) as [[-> ->]|[Hki Hk']]; [done|..].
    + destruct (Hlive Hl) as [E1 E2]. eapply C3; [exact Hi|done|done|congruence].
    + assert (Hl' : live (oc_active o) = true) by (unfold live in *; by rewrite <- Hid). destruct (Hlive Hl') as [E1 E2].
      eapply C3; [done|exact Hi|done|congruence].
    + by eapply C3.
  - intros j k b d Hj Hk Hb Hd. destruct (Hin j b Hj) as [[-> ->]|[Hji Hj']], (Hin k d Hk) as [[-> ->]|[Hki Hk']]; [done|..].
    + by destruct Hki; eapply Hx.
    + by destruct Hji; eapply Hx.
    + by destruct Hji; eapply Hx.
Qed.

(** The connection changes and the table does not. *)
Lemma good_conn_ok c c' : conn_ok c -> good c c' -> conn_ok c'.
Proof.
  intros [C1 C2 C3 C4] [G1 G2 G3 G4]. constructor; rewrite ?G2, ?G3; done.
Qed.

(** ** Connection frames *)

(** A change of send windows only. *)
Record same_entry (a a' : Http2ActiveStream) : Prop := {
  se_use : as_InUse a' = as_InUse a;
  se_response : as_ResponseState a' = as_ResponseState a;
  se_stream : hs_streamId (as_Stream a') = hs_streamId (as_Stream a) /\ hs_state (as_Stream a') = hs_state (as_Stream a)
    /\ hs_localWindow (as_Stream a') = hs_localWindow (as_Stream a);
  se_ok : stream_ok (as_Stream a) -> stream_ok (as_Stream a');
}.

#[export] Instance same_entry_refl : Reflexive same_entry.
Proof. intros a. by constructor. Qed.

#[export] Instance same_entry_trans : Transitive same_entry.
Proof.
  intros a b c [A1 A2 (A3 & A4 & A5) A6] [B1 B2 (B3 & B4 & B5) B6]. constructor; [congruence..| |by auto].
  split_and!; congruence.
Qed.

Lemma adjust_streams_same delta l :
  - Http2MaxWindowSize <= delta <= Http2MaxWindowSize -> Forall2 same_entry l (adjust_streams delta l).2.
Proof.
  intros Hd. induction l as [|a l IH]; [by apply Forall2_nil|]. cbn [adjust_streams].
  assert (Hsame : Forall2 same_entry l l) by done.
  destruct (negb (as_InUse a)).
  { destruct (adjust_streams delta l) as [st l']. apply Forall2_cons. split; [done|done]. }
  pose proof (stream_step_refines (OpAdjustRemoteWindow delta) (as_Stream a)) as Hs. cbn [stream_step stream_op_ok] in Hs.
  assert (Hst : hs_state (AdjustRemoteWindow delta (as_Stream a)).2 = hs_state (as_Stream a)
    /\ hs_localWindow (AdjustRemoteWindow delta (as_Stream a)).2 = hs_localWindow (as_Stream a)
    /\ hs_streamId (AdjustRemoteWindow delta (as_Stream a)).2 = hs_streamId (as_Stream a)).
  { unfold AdjustRemoteWindow. case_if; done. }
  destruct (AdjustRemoteWindow delta (as_Stream a)) as [st s]. cbn [fst snd] in *. destruct Hst as (T1 & T2 & T3).
  assert (Ha : same_entry a (a <| as_Stream := s |>)).
  { constructor; cbn; try done. intros Hok. by apply Hs. }
  destruct (negb (NT_SUCCESS st)); [by apply Forall2_cons|].
  destruct (adjust_streams delta l) as [st' l']. by apply Forall2_cons.
Qed.

Lemma in_use_same l l' i a' :
  Forall2 same_entry l l' -> in_use l' i a' -> exists a, in_use l i a /\ same_entry a a'.
Proof.
  intros HF [H Hu]. destruct (Forall2_lookup_r _ _ _ _ _ HF H) as (a & Ha & Hs). exists a.
  split; [|done]. split; [done|]. by rewrite <- (se_use _ _ Hs).
Qed.

Lemma same_entry_active capacity a a' : same_entry a a' -> active_ok capacity a -> active_ok capacity a'.
Proof.
  intros [E1 E2 (E3 & E4 & E5) E6] [A1 A2 A3 A4 A5].
  assert (live a' = live a) by (unfold live; by rewrite E3).
  assert (receiving (as_Stream a') = receiving (as_Stream a)) by (unfold receiving; by rewrite E4).
  constructor; rewrite ?E2, ?E3; [by apply E6|congruence|done|congruence|]. intros Hx Hl. apply A5; congruence.
Qed.

Lemma same_table_ok c l :
  conn_ok c -> Forall2 same_entry (hc_activeStreams c) l -> conn_ok (c <| hc_activeStreams := l |>).
Proof.
  intros [C1 C2 C3 C4] HF. constructor.
  - destruct C1. by constructor.
  - intros i a H. destruct (in_use_same _ _ _ _ HF H) as (a0 & H0 & Hs). eapply same_entry_active; [done|]. by eapply C2.
  - intros i j a b Hi Hj Hl Hid. destruct (in_use_same _ _ _ _ HF Hi) as (a0 & Ha & [_ _ (Sa & _) _]).
    destruct (in_use_same _ _ _ _ HF Hj) as (b0 & Hb & [_ _ (Sb & _) _]).
    eapply C3; [exact Ha|exact Hb| |congruence]. unfold live in *. by rewrite <- Sa.
  - intros i j a b Hi Hj Hx Hy. destruct (in_use_same _ _ _ _ HF Hi) as (a0 & Ha & [_ Ra _ _]).
    destruct (in_use_same _ _ _ _ HF Hj) as (b0 & Hb & [_ Rb _ _]).
    eapply C4; [exact Ha|exact Hb|by rewrite <- Ra|by rewrite <- Rb].
Qed.

Lemma DecodeSettingsPayload_ok payload s :
  bytes payload -> settings_ok s -> settings_ok (DecodeSettingsPayload (Bytes payload) s).2.
Proof.
  intros Hb Hs. unfold DecodeSettingsPayload, null_payload. cbn [sp_isnull sp_len sp_bytes andb].
  destruct (Z.eqb_spec (zlen payload mod 6) 0) as [Hm|]; cbn [negb]; [|done]. by apply decode_settings_ok.
Qed.

(** What a handler of connection frames keeps. *)
Record kept (c c' : Http2Connection) : Prop := {
  ke_ok : conn_ok c';
  ke_windows : windows c' = windows c;
  ke_table : Forall2 same_entry (hc_activeStreams c) (hc_activeStreams c');
  ke_input : input c' = input c;
}.

Lemma kept_here c : conn_ok c -> kept c c.
Proof. intros H. by constructor. Qed.
Lemma kept_trans c1 c2 c3 : kept c1 c2 -> kept c2 c3 -> kept c1 c3.
Proof.
  intros [_ H1 T1 F1] [H2 H3 T2 F2]. constructor; [done|congruence|by etrans|congruence].
Qed.
Lemma kept_good c c' : conn_ok c -> good c c' -> windows c' = windows c -> kept c c'.
Proof.
  intros H Hg Hw. constructor; [by eapply good_conn_ok|done| |apply Hg]. by rewrite (gd_streams _ _ Hg).
Qed.
Lemma kept_SendGoAway e c : conn_ok c -> kept c (SendGoAway e c).2.
Proof.
  intros H. apply kept_good; [done|apply good_SendGoAway, H|]. apply (credit_fail_connection e STATUS_SUCCESS).
Qed.
Lemma kept_send_encoded r c : conn_ok c -> kept c (send_encoded r c).2.
Proof. intros H. apply kept_good; [done|apply good_send_encoded, H|apply send_encoded_windows]. Qed.
Lemma kept_same_table c l :
  conn_ok c -> Forall2 same_entry (hc_activeStreams c) l -> kept c (c <| hc_activeStreams := l |>).
Proof. intros H1 H2. constructor; [by apply same_table_ok|done..]. Qed.
Lemma kept_ext c c' :
  conn_ok c -> rest_ok c' -> hc_activeStreams c' = hc_activeStreams c ->
  hc_headerBlockCapacity c' = hc_headerBlockCapacity c -> windows c' = windows c -> input c' = input c -> kept c c'.
Proof. intros H1 H2 H3 H4 H5 H6. by apply kept_good. Qed.

Lemma handle_settings_kept h payload stream c :
  conn_ok c -> bytes payload -> kept c (handle_settings h (Bytes payload) stream c).2.
Proof.
  intros Hc Hb. unfold handle_settings. cbn [sp_len].
  destruct (flag_set Flag_Ack (fh_Flags h)).
  { destruct (negb (zlen payload =? 0)); [by apply kept_SendGoAway|]. cbn [snd].
    apply kept_ext; try done. destruct Hc as [[] _ _ _]. by constructor. }
  destruct (negb (zlen payload mod 6 =? 0)); [by apply kept_SendGoAway|].
  pose proof (DecodeSettingsPayload_ok payload (hc_peerSettings c) Hb (rk_peer _ (cn_rest _ Hc))) as Hs.
  destruct (DecodeSettingsPayload _ _) as [st settings]. cbn [snd] in Hs.
  set (c1 := c <| hc_peerSettings := settings |>). assert (K1 : kept c c1).
  { apply kept_ext; try done. destruct Hc as [[] _ _ _]. by constructor. }
  destruct (negb (NT_SUCCESS st) || _); [apply (kept_trans c c1); [done|apply kept_SendGoAway, K1]|].
  set (c2 := c1 <| hc_encoder := _ |>). assert (K2 : kept c c2).
  { apply kept_ext; try done. destruct K1 as [[[] _ _ _] _ _ _]. by constructor. }
  set (changed := if negb (_ =? _) then _ else _).
  assert (K3 : kept c changed.2).
  { unfold changed. case_if; [|done]. unfold change_initial_window, AdjustActiveStreamRemoteWindows.
    destruct (_ =? 0); [destruct stream; [case_if; [by destruct (AdjustRemoteWindow _ _)|done]|done]|].
    set (delta := st_InitialWindowSize _ - _).
    assert (Hd : - Http2MaxWindowSize <= delta <= Http2MaxWindowSize).
    { unfold delta. change (hc_peerSettings c2) with settings. destruct Hs as (_ & _ & _ & Hs & _).
      destruct (rk_peer _ (cn_rest _ Hc)) as (_ & _ & _ & Hp & _). lia. }
    pose proof (adjust_streams_same delta (hc_activeStreams c2) Hd) as HF.
    destruct (adjust_streams delta (hc_activeStreams c2)) as [st1 l]. cbn [snd] in HF.
    assert (K4 : kept c (c2 <| hc_activeStreams := l |>)).
    { apply (kept_trans c c2); [done|]. apply kept_same_table; [apply K2|done]. }
    destruct stream; [|done]. case_if; [by destruct (AdjustRemoteWindow _ _)|done]. }
  destruct changed as [[st3 stream3] c3]. cbn [snd] in K3.
  destruct (negb (NT_SUCCESS st3)); [apply (kept_trans c c3); [done|apply kept_SendGoAway, K3]|].
  pose proof (kept_send_encoded (EncodeSettingsAck Http2FrameHeaderLength) c3 (ke_ok _ _ K3)) as K5.
  destruct (send_encoded _ c3) as [st4 c4]. cbn [snd] in *. by apply (kept_trans c c3).
Qed.

Lemma handle_window_update_kept payload c :
  conn_ok c -> kept c (handle_window_update (Bytes payload) c).2.
Proof.
  intros Hc. unfold handle_window_update. destruct (DecodeWindowUpdatePayload _) as [n|] eqn:E; [|by apply kept_SendGoAway].
  case_if; [by apply kept_SendGoAway|]. cbn [snd]. apply kept_ext; try done.
  assert (Hn : 0 <= n < 2 ^ 31).
  { unfold DecodeWindowUpdatePayload in E. cbn [sp_isnull sp_len sp_bytes] in E. case_if_in E; [done|].
    case_if_in E; [done|]. injection E as <-. rewrite mask31. pose proof (Z.mod_pos_bound (ReadUint32BE payload) (2 ^ 31)). lia. }
  destruct Hc as [[K1 K2 K3 K4 K5 K6 K7 K8 K9] _ _ _]. unfold Http2MaxWindowSize in *.
  rewrite (i32_id 2147483647), (i32_id n), i32_id in Heqb by lia. bool_prop.
  constructor; cbn; try done. rewrite (i32_id n), i32_id by lia. unfold Http2MaxWindowSize. lia.
Qed.

Lemma handle_by_type_kept h payload stream c :
  conn_ok c -> bytes payload -> kept c (handle_by_type h (Bytes payload) stream c).2.
Proof.
  intros Hc Hb. unfold handle_by_type. repeat case_if; cbn [snd].
  - by apply handle_settings_kept.
  - unfold handle_ping. repeat case_if; [by apply kept_SendGoAway|done|by apply kept_send_encoded].
  - unfold handle_goaway. destruct (DecodeGoAwayPayload _) as [[last e]|]; [|done].
    set (c1 := c <| hc_goAwayReceived := true |> <| hc_goAwayLastStreamId := last |>).
    assert (K1 : kept c c1). { apply kept_ext; try done. destruct Hc as [[] _ _ _]. by constructor. }
    destruct (negb _); [done|]. destruct stream; [by case_if|done].
  - by apply handle_window_update_kept.
  - by apply kept_SendGoAway.
  - by apply kept_here.
Qed.

Lemma HandleConnectionFrame_kept h payload stream c :
  conn_ok c -> bytes payload -> kept c (HandleConnectionFrame h (Bytes payload) stream c).2.
Proof.
  intros Hc Hb. unfold HandleConnectionFrame. case_if; [by apply kept_SendGoAway|].
  case_if; [|by apply handle_by_type_kept].
  unfold RecordConnectionControlSignal. case_if; cbn [NT_SUCCESS negb]; [by apply kept_SendGoAway|].
  set (c1 := c <| hc_connectionControlSignals := _ |>). assert (K1 : kept c c1).
  { apply kept_ext; try done. destruct Hc as [[] _ _ _]. by constructor. }
  apply (kept_trans c c1); [done|]. apply handle_by_type_kept; [apply K1|done].
Qed.

(** ** Dispatch *)

(** A frame of another stream leaves an entry as it was; a frame of the
    connection changes send windows only. *)
Definition others_kept (streamId : Z) (c c' : Http2Connection) : Prop :=
  forall j b, in_use (hc_activeStreams c) j b -> streamId = 0 \/ hs_streamId (as_Stream b) <> streamId ->
  exists b', hc_activeStreams c' !! j = Some b' /\ same_entry b b' /\ (streamId <> 0 -> b' = b).

Record dispatched (streamId : Z) (c : Http2Connection) (r : NTSTATUS * Http2Connection) : Prop := {
  di_ok : conn_ok r.2;
  di_credit : credit_kept c r.1 r.2;
  di_others : others_kept streamId c r.2;
  di_input : input r.2 = input c;
}.

Lemma dispatched_good streamId c r :
  conn_ok c -> good c r.2 -> windows r.2 = windows c -> dispatched streamId c r.
Proof.
  intros Hc Hg Hw. constructor; [by eapply good_conn_ok|by apply kept_same| |apply Hg].
  intros j b [Hb _] _. exists b. rewrite (gd_streams _ _ Hg). split_and!; [done|done|done].
Qed.
Lemma dispatched_SendGoAway streamId e st c : conn_ok c -> dispatched streamId c (fail_connection e st c).
Proof. intros Hc. apply dispatched_good; [done|apply good_fail_connection, Hc|apply credit_fail_connection]. Qed.
Lemma dispatched_fail_stream streamId i e st c : conn_ok c -> dispatched streamId c (fail_stream i e st c).
Proof. intros Hc. apply dispatched_good; [done|apply good_fail_stream, Hc|apply credit_fail_stream]. Qed.
Lemma dispatched_same streamId st c : conn_ok c -> dispatched streamId c (st, c).
Proof. intros Hc. apply dispatched_good; [done|apply good_refl, Hc|done]. Qed.

Lemma process_at_ok alloc append fh payload i a c :
  conn_ok c -> in_use (hc_activeStreams c) i a -> get_active i c = a -> hs_streamId (as_Stream a) = fh_StreamId fh ->
  bytes payload -> zlen payload < 2 ^ 32 ->
  (forall j b, in_use (hc_activeStreams c) j b -> rs_ExpectingContinuation (as_ResponseState b) = true -> j = i) ->
  live a = true ->
  dispatched (fh_StreamId fh) c (process_at alloc append fh (Bytes payload) i c).
Proof.
  intros Hc Hi Hget Hid Hb Hn Hx Hl. unfold process_at. rewrite Hget.
  destruct (ProcessResponseFrame_ok alloc append fh payload a c (cn_rest _ Hc)) as [H1 H2]; try done.
  { by eapply cn_active. }
  pose proof (set_active_ok c i a _ Hc Hi H1 Hx) as H3.
  destruct (ProcessResponseFrame _ _ _ _ _ _) as [[st a'] c']. cbn [oc_active oc_connection oc_status fst snd] in *.
  constructor; cbn [fst snd]; [done|done| |exact (gd_input _ _ (so_good _ _ _ H1))].
  intros j b Hj Hne. exists b. pose proof (gd_streams _ _ (so_good _ _ _ H1)) as Hs. cbn in Hs |- *. rewrite Hs.
  rewrite list_lookup_insert_ne; [split_and!; [apply Hj|done|done]|]. intros <-.
  destruct Hj as [Hj _], Hi as [Hi _]. assert (b = a) as -> by congruence.
  destruct Hne as [Hne|Hne]; [|done]. unfold live in Hl. by rewrite Hid, Hne in Hl.
Qed.

Lemma FindContinuationStream_none c j b :
  FindContinuationStream c = None -> in_use (hc_activeStreams c) j b ->
  rs_ExpectingContinuation (as_ResponseState b) = true -> False.
Proof.
  unfold FindContinuationStream. intros H [Hb Hu] Hx. pose proof (find_index_none _ _ H j b Hb) as Hf.
  cbv beta in Hf. by rewrite Hu, Hx in Hf.
Qed.
Lemma FindContinuationStream_some c i :
  FindContinuationStream c = Some i -> exists a, in_use (hc_activeStreams c) i a
    /\ rs_ExpectingContinuation (as_ResponseState a) = true /\ get_active i c = a.
Proof.
  unfold FindContinuationStream. intros H. destruct (find_index_some _ _ _ H) as (a & Ha & Ht). bool_prop.
  exists a. split_and!; [by split|done|by apply get_active_lookup].
Qed.

Lemma DispatchFrame_ok alloc append fh payload activeStream c :
  conn_ok c -> bytes payload -> zlen payload < 2 ^ 32 ->
  dispatched (fh_StreamId fh) c (DispatchFrame alloc append fh (Bytes payload) activeStream c).
Proof.
  intros Hc Hb Hn. unfold DispatchFrame. case_if; [by apply dispatched_SendGoAway|].
  set (unexpected := match FindContinuationStream c with Some i => _ | None => _ end).
  destruct unexpected eqn:Eu; [by apply dispatched_SendGoAway|]. destruct (Z.eqb_spec (fh_StreamId fh) 0) as [E0|E0].
  { pose proof (HandleConnectionFrame_kept fh payload (option_map (fun i => as_Stream (get_active i c)) activeStream) c Hc Hb) as [K1 K2 K3 K4].
    destruct (HandleConnectionFrame _ _ _ c) as [[st s] c']. constructor; [done|by apply kept_same| |done].
    intros j b [Hj _] _. destruct (Forall2_lookup_l _ _ _ _ _ K3 Hj) as (b' & Hb' & Hs). by exists b'. }
  unfold dispatch_stream_frame. case_if; [by apply dispatched_SendGoAway|].
  case_if; [by apply dispatched_SendGoAway|].
  destruct (FindActiveStream (fh_StreamId fh) c) as [i|] eqn:Ef.
  2:{ case_if; [|by apply dispatched_same].
      destruct (DecodeWindowUpdatePayload _); [by apply dispatched_same|by apply dispatched_fail_stream]. }
  destruct (FindActiveStream_some _ _ _ Ef) as (a & Hi & Hid & Hl & Hget).
  apply (process_at_ok _ _ _ _ _ a); try done. intros j b Hj Hx.
  unfold unexpected in Eu. destruct (FindContinuationStream c) as [k|] eqn:Ec.
  - destruct (FindContinuationStream_some _ _ Ec) as (d & Hk & Hd & Hgd). rewrite Hgd in Eu.
    apply orb_false_iff in Eu as [_ Eu]. apply negb_false_iff, Z.eqb_eq in Eu.
    rewrite (cn_continuation _ Hc j k b d Hj Hk Hx Hd).
    symmetry. eapply (cn_distinct _ Hc i k a d); [done..|congruence].
  - by destruct (FindContinuationStream_none c j b Ec Hj Hx).
Qed.

(** ** Frames in sequence *)

Section sequences.
Context (alloc : Z -> bool * bool) (append : list (list Z) -> list Z -> NTSTATUS).

(** Dispatch until a frame fails, as the receiving loops of the code do. *)
Fixpoint dispatch_all (frames : list (Http2FrameHeader * list Z)) (c : Http2Connection)
    : NTSTATUS * Http2Connection :=
  match frames with
  | [] => (STATUS_SUCCESS, c)
  | (fh, payload) :: frames =>
      let '(status, c) := DispatchFrame alloc append fh (Bytes payload) None c in
      if NT_SUCCESS status then dispatch_all frames c else (status, c)
  end.

Definition frames_ok (frames : list (Http2FrameHeader * list Z)) : Prop :=
  Forall (fun f => bytes f.2 /\ zlen f.2 < 2 ^ 32) frames.

Lemma dispatch_all_ok frames c :
  conn_ok c -> frames_ok frames ->
  conn_ok (dispatch_all frames c).2 /\ credit_kept c (dispatch_all frames c).1 (dispatch_all frames c).2.
Proof.
  intros Hc Hf. revert c Hc. induction Hf as [|[fh payload] frames [Hb Hn] _ IH]; intros c Hc.
  { split; [done|apply kept_refl]. }
  cbn [dispatch_all]. destruct (DispatchFrame_ok alloc append fh payload None c Hc Hb Hn) as [D1 D2 _ _].
  destruct (DispatchFrame _ _ _ _ _ c) as [st c1]. cbn [fst snd] in *.
  destruct (NT_SUCCESS st) eqn:Es; [|by split]. apply NT_SUCCESS_true in Es.
  destruct (IH c1 D1) as [I1 [I2 I3]]. destruct D2 as [D2 D3]. destruct (D3 Es) as [D4 D5].
  split; [done|]. split; [lia|]. intros Hst. destruct (I3 Hst). split; [lia|auto].
Qed.

(** What may happen to the table of streams. *)
Inductive table_op :=
  | FrameArrives (fh : Http2FrameHeader) (payload : list Z)
  | StreamReleased (streamId : Z)
  | StreamReserved.

Definition table_step (op : table_op) (c : Http2Connection) : Http2Connection :=
  match op with
  | FrameArrives fh payload => (DispatchFrame alloc append fh (Bytes payload) None c).2
  | StreamReleased streamId => ReleaseActiveStream streamId c
  | StreamReserved => match ReserveActiveStream c with Some (_, c') => c' | None => c end
  end.
Definition table_op_ok (op : table_op) : Prop :=
  match op with FrameArrives _ payload => bytes payload /\ zlen payload < 2 ^ 32 | _ => True end.

(** An entry that is in use and belongs to no stream. *)
Definition lost (i : nat) (c : Http2Connection) : Prop :=
  exists a, in_use (hc_activeStreams c) i a /\ live a = false.

Lemma fresh_ok b capacity : 0 <= capacity -> active_ok capacity (active_default <| as_InUse := b |>).
Proof. intros H. by constructor. Qed.

Lemma set_fresh_ok c i b :
  conn_ok c -> conn_ok (set_active i (active_default <| as_InUse := b |>) c).
Proof.
  intros Hc. pose proof Hc as [C1 C2 C3 C4].
  assert (Hin : forall j d, in_use (hc_activeStreams (set_active i (active_default <| as_InUse := b |>) c)) j d ->
    d = active_default <| as_InUse := b |> \/ in_use (hc_activeStreams c) j d).
  { intros j d H. destruct (in_use_set _ _ _ _ _ H) as [(_ & ? & _)|[_ ?]]; [by left|by right]. }
  constructor.
  - destruct C1. by constructor.
  - intros j d H. destruct (Hin j d H) as [->|H']; [|by eapply C2]. apply fresh_ok, C1.
  - intros j k d e Hj Hk Hl Hid. destruct (Hin j d Hj) as [->|Hj']; [done|]. destruct (Hin k e Hk) as [->|Hk']; [|by eapply C3].
    unfold live in Hl. by rewrite Hid in Hl.
  - intros j k d e Hj Hk Hx Hy. destruct (Hin j d Hj) as [->|Hj']; [done|]. destruct (Hin k e Hk) as [->|Hk']; [done|].
    by eapply C4.
Qed.

Lemma table_step_ok op c i :
  conn_ok c -> table_op_ok op -> lost i c -> conn_ok (table_step op c) /\ lost i (table_step op c).
Proof.
  intros Hc Hop (a & Hi & Hl). destruct op as [fh payload|streamId|]; cbn [table_step table_op_ok] in *.
  - destruct Hop as [Hb Hn]. destruct (DispatchFrame_ok alloc append fh payload None c Hc Hb Hn) as [D1 _ D3 _].
    split; [done|]. assert (Hid : hs_streamId (as_Stream a) = 0) by (unfold live in Hl; by apply negb_false_iff, Z.eqb_eq in Hl).
    destruct (D3 i a Hi) as (a' & Ha' & [S1 S2 (S3 & _) _] & _).
    { rewrite Hid. destruct (decide (fh_StreamId fh = 0)); [by left|by right]. }
    exists a'. split; [split; [done|rewrite S1; apply Hi]|]. unfold live. by rewrite S3, Hid.
  - unfold ReleaseActiveStream. destruct (FindActiveStream streamId c) as [j|] eqn:Ef; [|split; [done|by exists a]].
    destruct (FindActiveStream_some _ _ _ Ef) as (b & Hj & Hid & Hlb & _). split; [by apply (set_fresh_ok c j false)|].
    exists a. split; [|done]. destruct Hi as [Hi Hu]. split; [|done]. unfold set_active. cbn.
    rewrite list_lookup_insert_ne; [done|]. intros <-. destruct Hj as [Hj _]. assert (a = b) by congruence. congruence.
  - unfold ReserveActiveStream. case_if; [split; [done|by exists a]|].
    destruct (find_index _ _) as [j|] eqn:Ef; [|split; [done|by exists a]]. split; [by apply (set_fresh_ok c j true)|].
    exists a. split; [|done]. destruct Hi as [Hi Hu]. split; [|done]. unfold set_active. cbn.
    destruct (find_index_some _ _ _ Ef) as (b & Hj & Hb). rewrite list_lookup_insert_ne; [done|]. intros <-.
    assert (a = b) as -> by congruence. by rewrite Hu in Hb.
Qed.

Lemma table_run_ok ops c i :
  conn_ok c -> Forall table_op_ok ops -> lost i c -> lost i (foldl (fun c op => table_step op c) c ops).
Proof.
  intros Hc Hops. revert c Hc. induction Hops as [|op ops Hop _ IH]; intros c Hc Hl; [done|]. cbn [foldl].
  destruct (table_step_ok op c i Hc Hop Hl). by apply IH.
Qed.
End sequences.

(** The stream of a live entry is found. *)
Lemma FindActiveStream_live c i a :
  conn_ok c -> in_use (hc_activeStreams c) i a -> live a = true ->
  FindActiveStream (hs_streamId (as_Stream a)) c = Some i.
Proof.
  intros Hc Hi Hl. destruct (FindActiveStream _ c) as [j|] eqn:E.
  - destruct (FindActiveStream_some _ _ _ E) as (b & Hj & Hid & Hb & _). f_equal. by eapply (cn_distinct _ Hc j i b a).
  - pose proof (FindActiveStream_none _ _ i a E Hi eq_refl) as H0. unfold live in Hl. by rewrite H0 in Hl.
Qed.

(** The entry after RST_STREAM. *)
Definition reset_entry (a : Http2ActiveStream) : Http2ActiveStream :=
  with_state (fun s => s <| rs_StreamClosed := true |>) (a <| as_Stream := Stream_Reset (as_Stream a) |>).

Lemma dispatch_reset alloc append fh payload i a c :
  conn_ok c -> in_use (hc_activeStreams c) i a -> live a = true -> rs_pointers (as_ResponseState a) = true ->
  FindContinuationStream c = None ->
  fh_Type fh = FrameType_RstStream -> fh_StreamId fh = hs_streamId (as_Stream a) -> zlen payload = 4 ->
  (DispatchFrame alloc append fh (Bytes payload) (Some i) c).2 = set_active i (reset_entry a) c.
Proof.
  intros Hc Hi Hl Hp Hf Ht Hid Hn. unfold live in Hl. apply negb_true_iff in Hl.
  unfold DispatchFrame, dispatch_stream_frame, IsValidFrameTarget. rewrite Ht, Hf, Hid, Hl. cbn [negb orb].
  rewrite (FindActiveStream_live c i a) by (done || unfold live; by rewrite Hl). cbn.
  unfold process_at. rewrite (get_active_lookup i a c) by apply Hi. unfold ProcessResponseFrame.
  rewrite Hp. cbn [negb].
  assert (Hx : rs_ExpectingContinuation (as_ResponseState a) = false).
  { destruct (rs_ExpectingContinuation (as_ResponseState a)) eqn:E; [|done]. by destruct (FindContinuationStream_none c i a Hf Hi). }
  unfold check_continuation. rewrite Ht, Hx. cbn. unfold process_reset, DecodeRstStreamPayload. cbn [sp_isnull sp_len].
  rewrite Hn. cbn. by repeat case_if.
Qed.

(** ** Properties *)

(** C4. Every frame keeps the connection in order, whatever its type, flags,
    payload and stream.  [conn_ok] says: the peer's settings are legal; the send
    window of the connection and those of the streams stay within 2^31-1, and no
    receive window is negative or above what was announced; the header block
    being collected fits its buffer and the HPACK table its size; the body
    length of a stream is the sum of what the sink was given, never more than
    the content length, and equal to it once the stream is complete; no body
    before the headers or where none is allowed; stream ids are distinct; at
    most one stream waits for a CONTINUATION.  And a frame of one stream changes
    no other stream, a frame of the connection nothing of a stream but its send
    window. *)
Theorem dispatch_invariant (alloc : Z -> bool * bool) (append : list (list Z) -> list Z -> NTSTATUS)
    (fh : Http2FrameHeader) (payload : list Z) (activeStream : option nat) (c : Http2Connection) :
  conn_ok c -> bytes payload -> zlen payload < 2 ^ 32 ->
  let '(status, c') := DispatchFrame alloc append fh (Bytes payload) activeStream c in
  conn_ok c' /\ others_kept (fh_StreamId fh) c c'.
Proof.
  intros Hc Hb Hn. destruct (DispatchFrame_ok alloc append fh payload activeStream c Hc Hb Hn) as [D1 _ D3 _].
  by destruct (DispatchFrame _ _ _ _ _ c).
Qed.

(** C33. The peer is never left without receive window.  While frames are
    accepted the credit of the connection is conserved, and the part that has
    not been announced stays below the threshold: after any number of accepted
    frames the window is larger than the largest payload the connection
    accepts, so that a peer within it can always send its next frame. *)
Theorem receive_window_open (alloc : Z -> bool * bool) (append : list (list Z) -> list Z -> NTSTATUS)
    (frames : list (Http2FrameHeader * list Z)) (c : Http2Connection) :
  conn_ok c -> frames_ok frames ->
  receive_credit c = Http2InitialWindowSize -> hc_connectionRecvConsumed c < WindowUpdateThreshold ->
  let '(status, c') := dispatch_all alloc append frames c in
  status = STATUS_SUCCESS ->
  receive_credit c' = Http2InitialWindowSize /\ LocalMaxFramePayloadSize < hc_connectionRecvWindow c'.
Proof.
  intros Hc Hf Hcr Hcons. destruct (dispatch_all_ok alloc append frames c Hc Hf) as [_ [_ D]].
  destruct (dispatch_all alloc append frames c) as [st c']. cbn [fst snd] in D. intros Hs. destruct (D Hs) as [D1 D2].
  specialize (D2 Hcons). split; [congruence|]. rewrite Hcr in D1. unfold receive_credit in D1.
  change Http2InitialWindowSize with 65535 in *. change WindowUpdateThreshold with 32767 in *.
  change LocalMaxFramePayloadSize with 32768. lia.
Qed.

(** C39. A stream the peer resets loses its entry of the table for good.
    RST_STREAM clears the stream id and leaves the entry in use; after that no
    call finds the entry by the stream's id, and no frame, no release of any
    stream and no reservation ever frees it. *)
Theorem reset_entry_lost (alloc : Z -> bool * bool) (append : list (list Z) -> list Z -> NTSTATUS)
    (fh : Http2FrameHeader) (payload : list Z) (i : nat) (a : Http2ActiveStream) (c : Http2Connection)
    (ops : list table_op) :
  conn_ok c -> in_use (hc_activeStreams c) i a -> live a = true -> rs_pointers (as_ResponseState a) = true ->
  FindContinuationStream c = None ->
  fh_Type fh = FrameType_RstStream -> fh_StreamId fh = hs_streamId (as_Stream a) ->
  bytes payload -> zlen payload = 4 -> Forall table_op_ok ops ->
  let c' := (DispatchFrame alloc append fh (Bytes payload) (Some i) c).2 in
  FindActiveStream (fh_StreamId fh) c' = None
  /\ lost i (foldl (fun c op => table_step alloc append op c) c' ops).
Proof.
  intros Hc Hi Hl Hp Hf Ht Hid Hb Hn Hops. cbv zeta.
  destruct (DispatchFrame_ok alloc append fh payload (Some i) c Hc Hb ltac:(lia)) as [D1 _ _ _].
  rewrite (dispatch_reset alloc append fh payload i a c) in * by done.
  assert (Hi' : in_use (hc_activeStreams (set_active i (reset_entry a) c)) i (reset_entry a)).
  { split; [|apply Hi]. unfold set_active. cbn. destruct Hi as [Hi _]. apply lookup_lt_Some in Hi. by apply list_lookup_insert_eq. }
  split; [|apply table_run_ok; [done..|]; by exists (reset_entry a)].
  destruct (FindActiveStream (fh_StreamId fh) _) as [j|] eqn:E; [|done].
  destruct (FindActiveStream_some _ _ _ E) as (b & Hj & Hb1 & Hb2 & _).
  destruct (in_use_set _ _ _ _ _ Hj) as [(_ & -> & _)|[Hne Hj']]; [done|].
  destruct Hne. eapply (cn_distinct _ Hc j i b a); [done..|congruence].
Qed.

(** ** Witnesses *)

(** Two requests have been sent, on the streams 1 and 3. *)
Definition example_response : Http2ResponseFrameState :=
  response_default <| rs_pointers := true |> <| rs_ResponseHeaderBlockCapacity := 256 |>
    <| rs_ResponseHeaderCapacity := 8 |> <| rs_nameValueBuffer := replicate 256 0 |>.
Definition example_stream (streamId : Z) : Http2ActiveStream :=
  MkActive true (MkStream streamId HalfClosedLocal 65535 65535) example_response.
Definition example_connection : Http2Connection :=
  MkConnection settings_default settings_default 5 65535 65535 0 0 0 0 false false 0 true 0 32768 256
    example_encoder example_decoder (replicate 256 0) (replicate 256 0) 9
    [example_stream 1; example_stream 3; active_default] (MkTransport [] [] []).
Definition append_ok (delivered : list (list Z)) (data : list Z) : NTSTATUS := STATUS_SUCCESS.

Lemma example_active_ok streamId : 0 < streamId < 2 ^ 31 -> active_ok 256 (example_stream streamId).
Proof.
  intros H. constructor; [by vm_compute|by vm_compute|cbn; lia| |done].
  constructor; try done; by vm_compute.
Qed.

Lemma example_in_use i a :
  in_use (hc_activeStreams example_connection) i a -> (i = O /\ a = example_stream 1) \/ (i = 1%nat /\ a = example_stream 3).
Proof.
  intros [H Hu]. destruct i as [|[|[|i]]]; cbn in H; [left|right| |done]; injection H as <-; [done..|].
  by vm_compute in Hu.
Qed.

Lemma example_connection_ok : conn_ok example_connection.
Proof.
  constructor.
  - destruct example_synced as (_ & Hok & _). constructor; try (by vm_compute).
    split; [|by vm_compute]. apply Forall_replicate. by vm_compute.
  - intros i a H. destruct (example_in_use i a H) as [[_ ->]|[_ ->]]; by apply example_active_ok.
  - intros i j a b Hi Hj _ E. destruct (example_in_use i a Hi) as [[-> ->]|[-> ->]], (example_in_use j b Hj) as [[-> ->]|[-> ->]];
      done.
  - intros i j a b Hi Hj _ E. by destruct (example_in_use j b Hj) as [[-> ->]|[-> ->]].
Qed.

(** A response on stream 3: [:status: 200], and four bytes of data that end it. *)
Definition example_frames : list (Http2FrameHeader * list Z) :=
  [(MkFrameHeader 1 FrameType_Headers Flag_EndHeaders 3, [0x88]);
   (MkFrameHeader 4 FrameType_Data Flag_EndStream 3, [119; 107; 110; 101])].

Lemma dispatch_invariant_witness :
  let r := DispatchFrame alloc_ok append_ok (MkFrameHeader 1 FrameType_Headers Flag_EndHeaders 3) (Bytes [0x88]) None
             example_connection in
  r.1 = STATUS_SUCCESS /\ map (fun a => rs_StatusCode (as_ResponseState a)) (hc_activeStreams r.2) = [0; 200; 0]
  /\ conn_ok r.2.
Proof.
  pose proof (dispatch_invariant alloc_ok append_ok (MkFrameHeader 1 FrameType_Headers Flag_EndHeaders 3) [0x88] None
    example_connection example_connection_ok ltac:(repeat (apply Forall_cons; split; [by split|]); apply Forall_nil_2)
    ltac:(by vm_compute)) as H.
  cbv zeta. split; [by vm_compute|]. split; [by vm_compute|].
  destruct (DispatchFrame _ _ _ _ _ _) as [st c']. exact (proj1 H).
Defined.

Lemma example_frames_ok : frames_ok example_frames.
Proof.
  repeat (apply Forall_cons; split; [split; [repeat (apply Forall_cons; split; [by split|]); apply Forall_nil_2|by vm_compute]|]).
  apply Forall_nil_2.
Qed.

Lemma receive_window_open_witness :
  let c' := (dispatch_all alloc_ok append_ok example_frames example_connection).2 in
  map (fun a => rs_delivered (as_ResponseState a)) (hc_activeStreams c') = [[]; [[119; 107; 110; 101]]; []]
  /\ receive_credit c' = 65535 /\ 32768 < hc_connectionRecvWindow c'.
Proof.
  pose proof (receive_window_open alloc_ok append_ok example_frames example_connection example_connection_ok example_frames_ok
    ltac:(by vm_compute) ltac:(by vm_compute)) as H.
  cbv zeta. split; [by vm_compute|].
  assert (E : (dispatch_all alloc_ok append_ok example_frames example_connection).1 = STATUS_SUCCESS) by (by vm_compute).
  destruct (dispatch_all _ _ _ _) as [st c']. exact (H E).
Defined.

(** The caller releases the stream and reserves another. *)
Lemma reset_entry_lost_witness :
  let c' := (DispatchFrame alloc_ok append_ok (MkFrameHeader 4 FrameType_RstStream 0 1) (Bytes [0; 0; 0; 8]) (Some 0%nat)
               example_connection).2 in
  lost 0 (table_step alloc_ok append_ok StreamReserved (table_step alloc_ok append_ok (StreamReleased 1) c')).
Proof.
  apply (reset_entry_lost alloc_ok append_ok (MkFrameHeader 4 FrameType_RstStream 0 1) [0; 0; 0; 8] 0 (example_stream 1)
    example_connection [StreamReleased 1; StreamReserved]); try done; [exact example_connection_ok| |].
  - repeat (apply Forall_cons; split; [by split|]). apply Forall_nil_2.
  - repeat (apply Forall_cons; split; [done|]). apply Forall_nil_2.
Defined.
