(* ===== verification/Http2Response.v ===== *)
(** * HTTP/2 responses: theorems about what a caller receives

    Over the invariant of Http2Dispatch: [ReceiveResponse] ends and returns
    complete responses; header blocks in fragments; the validation of response
    headers; and a response from the peer's header encoder to the caller. *)

From Stdlib Require Import Ascii String.
From S2P Require Import Prelude HpackInteger HpackHuffman HpackDynamicTable Hpack Http2Frame Http2Stream Http2Connection Http2Dispatch.
#[local] Open Scope string_scope.
#[local] Open Scope list_scope.
#[local] Open Scope Z_scope.

(** ** Reading *)

(** The transport delivers bytes. *)
Definition pieces_ok (l : list (Result (list Z))) : Prop :=
  Forall (fun r => match r with Ok piece => bytes piece | Err _ => True end) l.

Lemma transport_receive_ok n t :
  pieces_ok (tr_incoming t) ->
  let '(r, t') := transport_receive n t in
  pieces_ok (tr_incoming t') /\ tr_sent t' = tr_sent t /\ (forall l, r = Ok l -> bytes l /\ zlen l <= Z.max 0 n).
Proof.
  intros H. unfold transport_receive. destruct (tr_incoming t) as [|[piece|st] rest] eqn:E.
  - by rewrite E.
  - apply Forall_cons in H as [Hp Hr]. split_and!; [|done|].
    + cbn. case_if; [done|]. apply Forall_cons; split; [auto with wk|done].
    + intros l [= <-]. split; [auto with wk|]. unfold ztake, zlen. rewrite length_take. lia.
  - apply Forall_cons in H as [_ H]. by split_and!.
Qed.

Lemma read_exact_loop_ok fuel n got t :
  pieces_ok (tr_incoming t) -> bytes got -> zlen got <= n ->
  let '(r, t') := read_exact_loop fuel n got t in
  pieces_ok (tr_incoming t') /\ (forall l, r = Ok l -> bytes l /\ zlen l = n).
Proof.
  revert got t. induction fuel as [|fuel IH]; intros got t Ht Hg Hn; cbn [read_exact_loop];
    destruct (zlen got <? n) eqn:E; bool_prop; try (split; [done|]; intros l [= <-]; split; [done|lia]); [done|].
  pose proof (transport_receive_ok (n - zlen got) t Ht) as Hr.
  destruct (transport_receive _ t) as [[l|st] t']; destruct Hr as (H1 & _ & H2); [|done].
  case_if; [done|]. destruct (H2 l eq_refl). apply IH; [done|by apply Forall_app|]. rewrite zlen_app. lia.
Qed.

(** A read changes the transport only. *)
Lemma ReadExact_ok n c :
  rest_ok c -> pieces_ok (tr_incoming (hc_transport c)) -> 0 <= n ->
  let '(r, c') := ReadExact n c in
  exists t, c' = c <| hc_transport := t |> /\ pieces_ok (tr_incoming t) /\ (forall l, r = Ok l -> bytes l /\ zlen l = n).
Proof.
  intros Hc Ht Hn. unfold ReadExact.
  pose proof (read_exact_loop_ok (Z.to_nat n) n [] (hc_transport c) Ht (Forall_nil_2 _) ltac:(rewrite zlen_nil; lia)) as H.
  destruct (read_exact_loop _ _ _ _) as [r t]. by exists t.
Qed.

(** [ReadExact] reads to the end: the loop equation of the code, without fuel. *)
Definition read_exact (n : Z) (got : list Z) (t : Http2Transport) : Result (list Z) * Http2Transport :=
  read_exact_loop (Z.to_nat (n - zlen got)) n got t.

Lemma read_exact_loop_fuel fuel fuel' n got t :
  n - zlen got <= Z.of_nat fuel -> n - zlen got <= Z.of_nat fuel' ->
  read_exact_loop fuel n got t = read_exact_loop fuel' n got t.
Proof.
  revert fuel' got t. induction fuel as [|fuel IH]; intros [|fuel'] got t H H'; cbn [read_exact_loop]; [done|..];
    destruct (zlen got <? n) eqn:E; bool_prop; try done; try lia.
  destruct (transport_receive _ t) as [[l|st] t']; [|done]. destruct (Z.eqb_spec (zlen l) 0); [done|].
  pose proof (zlen_nonneg l). apply IH; rewrite zlen_app; lia.
Qed.

Lemma read_exact_eq n got t :
  read_exact n got t =
  if zlen got <? n then
    match transport_receive (n - zlen got) t with
    | (Err status, t) => (Err status, t)
    | (Ok received, t) =>
        if zlen received =? 0 then (Err STATUS_CONNECTION_DISCONNECTED, t) else read_exact n (got ++ received) t
    end
  else (Ok got, t).
Proof.
  unfold read_exact. destruct (Z.to_nat (n - zlen got)) as [|k] eqn:Ek; cbn [read_exact_loop];
    destruct (zlen got <? n) eqn:E; bool_prop; try done; [lia|].
  destruct (transport_receive _ t) as [[l|st] t']; [|done]. destruct (Z.eqb_spec (zlen l) 0); [done|].
  pose proof (zlen_nonneg l). apply read_exact_loop_fuel; rewrite zlen_app; lia.
Qed.

(** ** A turn of the receiving loop *)

(** Frames are counted, and refused beyond the limit. *)
Lemma RecordReceivedFrame_ok fh c :
  0 <= hc_connectionFramesRead c ->
  let '(status, c') := RecordReceivedFrame fh c in
  if NT_SUCCESS status
  then hc_connectionFramesRead c < WKNET_HARD_MAX_CONNECTION_FRAMES
       /\ exists n, c' = c <| hc_connectionFramesRead := hc_connectionFramesRead c + 1 |> <| hc_connectionBytesRead := n |>
  else exists e, c' = c <| hc_readFrameErrorCode := e |>.
Proof.
  intros Hf. unfold RecordReceivedFrame. change (negb (WKNET_HARD_MAX_CONNECTION_BYTES =? 0)) with false. cbn [andb orb].
  rewrite orb_false_r. destruct (hc_connectionFramesRead c >=? _) eqn:E; cbn [NT_SUCCESS]; [by eexists|].
  bool_prop. split; [done|]. unfold WKNET_HARD_MAX_CONNECTION_FRAMES in E. change (Z.shiftl 1 20) with 1048576 in E.
  rewrite (u32_id (_ + 1)) by lia. by eexists.
Qed.

(** Reading a frame leaves the streams and windows alone. *)
Record reading (c c' : Http2Connection) : Prop := {
  re_ok : conn_ok c';
  re_streams : hc_activeStreams c' = hc_activeStreams c;
  re_pieces : pieces_ok (tr_incoming (hc_transport c'));
  re_frames : hc_connectionFramesRead c <= hc_connectionFramesRead c';
}.

Lemma reading_refl c : conn_ok c -> pieces_ok (tr_incoming (hc_transport c)) -> reading c c.
Proof. by constructor. Qed.
Lemma reading_trans c1 c2 c3 : reading c1 c2 -> reading c2 c3 -> reading c1 c3.
Proof. intros [A1 A2 A3 A4] [B1 B2 B3 B4]. constructor; [done|congruence|done|lia]. Qed.

(** Fields that a reading may change. *)
Lemma reading_fields c t n b e :
  conn_ok c -> pieces_ok (tr_incoming t) -> hc_connectionFramesRead c <= n ->
  reading c (c <| hc_transport := t |> <| hc_connectionFramesRead := n |> <| hc_connectionBytesRead := b |>
               <| hc_readFrameErrorCode := e |>).
Proof.
  intros [C1 C2 C3 C4] Ht Hn. constructor; try done. constructor; try done. destruct C1. by constructor.
Qed.

Lemma reading_error c e : conn_ok c -> pieces_ok (tr_incoming (hc_transport c)) ->
  reading c (c <| hc_readFrameErrorCode := e |>).
Proof.
  intros Hc Ht. pose proof (reading_fields c (hc_transport c) (hc_connectionFramesRead c) (hc_connectionBytesRead c) e Hc Ht
    (Z.le_refl _)) as H. by destruct c.
Qed.
Lemma reading_transport c t : conn_ok c -> pieces_ok (tr_incoming t) -> reading c (c <| hc_transport := t |>).
Proof.
  intros Hc Ht. pose proof (reading_fields c t (hc_connectionFramesRead c) (hc_connectionBytesRead c)
    (hc_readFrameErrorCode c) Hc Ht (Z.le_refl _)) as H. by destruct c.
Qed.

Lemma reading_ReadExact n c :
  conn_ok c -> pieces_ok (tr_incoming (hc_transport c)) -> 0 <= n ->
  reading c (ReadExact n c).2 /\ hc_connectionFramesRead (ReadExact n c).2 = hc_connectionFramesRead c
  /\ (forall l, (ReadExact n c).1 = Ok l -> bytes l /\ zlen l = n).
Proof.
  intros Hc Ht Hn. pose proof (ReadExact_ok n c (cn_rest _ Hc) Ht Hn) as H.
  destruct (ReadExact n c) as [r c']. destruct H as (t & -> & H1 & H2). split_and!; [by apply reading_transport|done|done].
Qed.

Lemma reading_good c c' : conn_ok c -> pieces_ok (tr_incoming (hc_transport c)) -> good c c' -> reading c c'.
Proof.
  intros Hc Ht Hg. pose proof (gd_input _ _ Hg) as Hi. unfold input in Hi. injection Hi as H1 H2.
  constructor; [by eapply good_conn_ok|apply Hg|by rewrite H2|lia].
Qed.
Lemma reading_failed st c :
  conn_ok c -> pieces_ok (tr_incoming (hc_transport c)) -> reading c (HandleReadFrameFailure st c).2.
Proof.
  intros Hc Ht. unfold HandleReadFrameFailure.
  repeat case_if; [..|by apply reading_refl]; apply reading_good; try done; apply good_fail_connection, Hc.
Qed.

(** What [receive_frame] leaves. *)
Definition frame_read (c : Http2Connection) (o : Result (Http2FrameHeader * list Z) * Http2Connection) : Prop :=
  reading c o.2
  /\ match o.1 with
     | Ok (fh, payload) =>
         bytes payload /\ zlen payload < 2 ^ 32 /\ hc_connectionFramesRead c < WKNET_HARD_MAX_CONNECTION_FRAMES
         /\ hc_connectionFramesRead c < hc_connectionFramesRead o.2
     | Err _ => True
     end.

Lemma frame_failed c c1 st :
  reading c c1 -> frame_read c (let '(status, c2) := HandleReadFrameFailure st c1 in (Err status, c2)).
Proof.
  intros R. pose proof (reading_failed st c1 (re_ok _ _ R) (re_pieces _ _ R)) as R1.
  destruct (HandleReadFrameFailure st c1) as [st' c2]. split; [by eapply reading_trans|done].
Qed.

Lemma receive_frame_ok c :
  conn_ok c -> pieces_ok (tr_incoming (hc_transport c)) -> 0 <= hc_connectionFramesRead c -> frame_read c (receive_frame c).
Proof.
  intros Hc Ht Hf. unfold receive_frame. case_if; [split; [by apply reading_refl|done]|].
  set (c0 := c <| hc_readFrameErrorCode := ErrorCode_NoError |>). pose proof (reading_error c ErrorCode_NoError Hc Ht) as R0.
  fold c0 in R0.
  destruct (reading_ReadExact Http2FrameHeaderLength c0 (re_ok _ _ R0) (re_pieces _ _ R0) ltac:(done)) as (R1 & F1 & B1).
  destruct (ReadExact Http2FrameHeaderLength c0) as [[headerBuf|st] c1]; cbn [fst snd] in *.
  2:{ apply frame_failed. by eapply reading_trans. }
  assert (R01 : reading c c1) by by eapply reading_trans. destruct (B1 headerBuf eq_refl) as [Bh _].
  destruct (DecodeFrameHeader (Bytes headerBuf)) as [fh|st] eqn:Ed; [|by split].
  destruct (header_decoded (Bytes headerBuf) fh Bh Ed) as [[Hlen _] _].
  case_if.
  { apply frame_failed. eapply reading_trans; [done|]. apply reading_error; apply R1. }
  case_if; [by split|]. set (body := if negb (fh_Length fh =? 0) then _ else _).
  assert (R2 : reading c1 body.2 /\ hc_connectionFramesRead body.2 = hc_connectionFramesRead c1
    /\ (forall l, body.1 = Ok l -> bytes l /\ zlen l = fh_Length fh)).
  { unfold body. case_if; [apply reading_ReadExact; [apply R1|apply R1|lia]|]. cbn [fst snd].
    split_and!; [apply reading_refl; apply R1|done|]. intros l [= <-]. bool_prop. by rewrite zlen_nil. }
  destruct body as [[payload|st] c2]; cbn [fst snd] in R2; destruct R2 as (R2 & F2 & B2).
  2:{ apply frame_failed. by eapply reading_trans. }
  assert (R02 : reading c c2) by by eapply reading_trans.
  assert (F02 : hc_connectionFramesRead c2 = hc_connectionFramesRead c) by (rewrite F2, F1; done).
  pose proof (RecordReceivedFrame_ok fh c2 ltac:(lia)) as Hr.
  destruct (RecordReceivedFrame fh c2) as [st c3]. destruct (NT_SUCCESS st); cbn [negb].
  - destruct Hr as (Hlt & n & ->). destruct (B2 payload eq_refl) as [Bp Lp]. unfold Http2MaxAllowedFrameSize in Hlen.
    split; cbn [fst snd]; [|split_and!; [done|lia|lia|cbn; lia]]. eapply reading_trans; [done|].
    pose proof (reading_fields c2 (hc_transport c2) (hc_connectionFramesRead c2 + 1) n (hc_readFrameErrorCode c2)
      (re_ok _ _ R2) (re_pieces _ _ R2) ltac:(lia)) as R3. by destruct c2.
  - destruct Hr as (e & ->). apply frame_failed. eapply reading_trans; [done|]. apply reading_error; apply R2.
Qed.

(** ** The receiving loop *)

Section receive.
Context (alloc : Z -> bool * bool) (append : list (list Z) -> list Z -> NTSTATUS).

(** What the loop needs, and keeps. *)
Record receivable (c : Http2Connection) : Prop := {
  rc_ok : conn_ok c;
  rc_pieces : pieces_ok (tr_incoming (hc_transport c));
  rc_frames : 0 <= hc_connectionFramesRead c;
}.

(** The frames that may still be read bound the turns. *)
Definition turns_left (c : Http2Connection) : nat :=
  Z.to_nat (WKNET_HARD_MAX_CONNECTION_FRAMES - hc_connectionFramesRead c).

Lemma turn_ok c fh payload c1 i :
  receivable c -> receive_frame c = (Ok (fh, payload), c1) ->
  let '(status, c2) := DispatchFrame alloc append fh (Bytes payload) (Some i) c1 in
  receivable c2 /\ (turns_left c2 < turns_left c)%nat.
Proof.
  intros [H1 H2 H3] E. pose proof (receive_frame_ok c H1 H2 H3) as Hf. rewrite E in Hf.
  destruct Hf as [[R1 R2 R3 R4] (Hb & Hn & Hlt & Hlt')]. cbn [fst snd] in *.
  destruct (DispatchFrame_ok alloc append fh payload (Some i) c1 R1 Hb Hn) as [D1 _ _ D4].
  destruct (DispatchFrame _ _ _ _ _ c1) as [st c2]. cbn [snd] in *. unfold input in D4. injection D4 as E1 E2.
  split; [constructor; [done|by rewrite E2|lia]|]. unfold turns_left. rewrite E1. lia.
Qed.

(** The result does not depend on the fuel, once it covers the turns. *)
Lemma receive_response_fuel fuel fuel' streamId observed c :
  receivable c -> (turns_left c <= fuel)%nat -> (turns_left c <= fuel')%nat ->
  receive_response_loop alloc append fuel streamId observed c
  = receive_response_loop alloc append fuel' streamId observed c.
Proof.
  revert fuel' observed c. induction fuel as [|fuel IH]; intros fuel' observed c Hc Hf Hf'.
  all: destruct fuel' as [|fuel']; cbn [receive_response_loop]; [try done..|];
    destruct (FindActiveStream streamId c) as [i|]; try done; case_if; try done;
    pose proof (receive_frame_ok c (rc_ok _ Hc) (rc_pieces _ Hc) (rc_frames _ Hc)) as Hr;
    destruct (receive_frame c) as [[[fh payload]|st] c1] eqn:E; try done; cbn [fst snd] in Hr.
  - destruct Hr as [_ (_ & _ & Hlt & _)]. unfold turns_left in Hf. lia.
  - destruct Hr as [_ (_ & _ & Hlt & _)]. unfold turns_left in Hf'. lia.
  - destruct (FindActiveStream streamId c1) as [j|]; [|done].
    pose proof (turn_ok c fh payload c1 j Hc E) as Ht. destruct (DispatchFrame _ _ _ _ _ c1) as [st c2].
    destruct Ht as [T1 T2]. case_if; [done|]. apply IH; [done|lia|lia].
Qed.

(** [for (;;)] of [ReceiveResponse], without fuel. *)
Definition receiving_from (streamId : Z) (observed : bool) (c : Http2Connection)
    : Result Http2ResponseFrameState * Http2Connection :=
  receive_response_loop alloc append (turns_left c) streamId observed c.

(** One turn of the loop, and [next] for the turns after it. *)
Definition receive_turn (next : Http2Connection -> Result Http2ResponseFrameState * Http2Connection)
    (streamId : Z) (observed : bool) (c : Http2Connection) : Result Http2ResponseFrameState * Http2Connection :=
  match FindActiveStream streamId c with
  | None => (Err (if observed then STATUS_CONNECTION_DISCONNECTED else STATUS_INVALID_PARAMETER), c)
  | Some i =>
      let state := as_ResponseState (get_active i c) in
      if rs_StreamClosed state then (Ok state, ReleaseActiveStream streamId c)
      else
        match receive_frame c with
        | (Err status, c) => (Err status, c)
        | (Ok (fh, payload), c) =>
            match FindActiveStream streamId c with
            | None => (Err STATUS_CONNECTION_DISCONNECTED, c)
            | Some i =>
                let '(status, c) := DispatchFrame alloc append fh (Bytes payload) (Some i) c in
                if negb (NT_SUCCESS status) then (Err status, c) else next c
            end
        end
  end.

Lemma receiving_from_eq streamId observed c :
  receivable c ->
  receiving_from streamId observed c = receive_turn (receiving_from streamId true) streamId observed c.
Proof.
  intros Hc. unfold receiving_from at 1. rewrite (receive_response_fuel _ (S (turns_left c))) by (done || lia).
  cbn [receive_response_loop]. unfold receive_turn. destruct (FindActiveStream streamId c) as [i|]; [|done]. case_if; [done|].
  destruct (receive_frame c) as [[[fh payload]|st] c1] eqn:E; [|done].
  destruct (FindActiveStream streamId c1) as [j|]; [|done].
  pose proof (turn_ok c fh payload c1 j Hc E) as Ht. destruct (DispatchFrame _ _ _ _ _ c1) as [st c2].
  destruct Ht as [T1 T2]. case_if; [done|]. apply receive_response_fuel; [done|lia|lia].
Qed.

(** A response that was returned. *)
Definition complete (state : Http2ResponseFrameState) : Prop :=
  rs_ResponseHeadersReceived state = true /\ rs_BodyLength state = body_total (rs_delivered state)
  /\ (rs_ResponseContentLengthPresent state = true -> body_total (rs_delivered state) = rs_ResponseContentLength state)
  /\ (rs_ResponseBodyForbidden state = true -> rs_delivered state = []).

Lemma released_ok streamId c i :
  receivable c -> FindActiveStream streamId c = Some i ->
  receivable (ReleaseActiveStream streamId c) /\ FindActiveStream streamId (ReleaseActiveStream streamId c) = None.
Proof.
  intros [Hc Ht Hf] E. unfold ReleaseActiveStream. rewrite E.
  split; [constructor; [by apply (set_fresh_ok c i false)|done|done]|].
  destruct (FindActiveStream_some _ _ _ E) as (a & Hi & Hid & Hl & _).
  destruct (FindActiveStream streamId (set_active i active_default c)) as [j|] eqn:Ej; [|done].
  destruct (FindActiveStream_some _ _ _ Ej) as (b & Hj & Hb1 & Hb2 & _).
  destruct (in_use_set _ _ _ _ _ Hj) as [(_ & -> & ?)|[Hne Hj']]; [done|].
  destruct Hne. eapply (cn_distinct _ Hc j i b a); [done..|congruence].
Qed.

Lemma closed_complete streamId c i :
  conn_ok c -> FindActiveStream streamId c = Some i -> rs_StreamClosed (as_ResponseState (get_active i c)) = true ->
  complete (as_ResponseState (get_active i c)).
Proof.
  intros Hc E Hcl. destruct (FindActiveStream_some _ _ _ E) as (a & Hi & _ & Hl & Hget). rewrite Hget in *.
  pose proof (ao_response _ _ (cn_active _ Hc i a Hi)) as Ho. destruct (ro_closed _ _ _ _ Ho Hcl Hl) as (_ & Hh & Hlen).
  pose proof (ro_body _ _ _ _ Ho) as Hb. split_and!; [done|done|intros Hp; rewrite <- Hb; auto|apply Ho].
Qed.

Lemma receive_response_ok fuel streamId observed c :
  receivable c -> (turns_left c <= fuel)%nat ->
  let '(r, c') := receive_response_loop alloc append fuel streamId observed c in
  receivable c'
  /\ forall state, r = Ok state -> complete state /\ FindActiveStream streamId c' = None.
Proof.
  revert observed c. induction fuel as [|fuel IH]; intros observed c Hc Hf; cbn [receive_response_loop].
  all: destruct (FindActiveStream streamId c) as [i|] eqn:Ei; [|by split].
  all: destruct (rs_StreamClosed (as_ResponseState (get_active i c))) eqn:Ecl;
    [destruct (released_ok streamId c i Hc Ei); split; [done|]; intros state [= <-]; split; [eapply (closed_complete streamId); [apply Hc|done|done]|done]|].
  all: pose proof (receive_frame_ok c (rc_ok _ Hc) (rc_pieces _ Hc) (rc_frames _ Hc)) as Hr;
    destruct (receive_frame c) as [[[fh payload]|st] c1] eqn:E; destruct Hr as [[R1 R2 R3 R4] Hr]; cbn [fst snd] in *.
  2,4: split; [constructor; [done|done|pose proof (rc_frames _ Hc); lia]|done].
  - destruct Hr as (_ & _ & Hlt & _). unfold turns_left in Hf. lia.
  - assert (Hc1 : receivable c1) by (constructor; [done|done|pose proof (rc_frames _ Hc); lia]).
    destruct (FindActiveStream streamId c1) as [j|]; [|by split].
    pose proof (turn_ok c fh payload c1 j Hc E) as Ht. destruct (DispatchFrame _ _ _ _ _ c1) as [st c2].
    destruct Ht as [T1 T2]. case_if; [by split|]. apply IH; [done|lia].
Qed.
End receive.

(** ** Header blocks in fragments *)

Lemma mem_copy_app dst k x y :
  0 <= k -> k + zlen x + zlen y <= zlen dst ->
  mem_copy (mem_copy dst k x) (k + zlen x) y = mem_copy dst k (x ++ y).
Proof.
  intros Hk Hd. pose proof (zlen_nonneg x). pose proof (zlen_nonneg y). apply zget_ext.
  { rewrite !zlen_mem_copy; rewrite ?zlen_mem_copy, ?zlen_app; lia. }
  intros i Hi. rewrite !zlen_mem_copy in Hi by (rewrite ?zlen_mem_copy; lia).
  rewrite !zget_mem_copy by (rewrite ?zlen_mem_copy, ?zlen_app; lia). rewrite zlen_app.
  destruct (Z.leb_spec (k + zlen x) i); cbn [andb].
  - destruct (Z.ltb_spec i (k + zlen x + zlen y)).
    + replace (k <=? i) with true by (symmetry; apply Z.leb_le; lia).
      replace (i <? k + (zlen x + zlen y)) with true by (symmetry; apply Z.ltb_lt; lia). cbn [andb].
      rewrite zget_app_r by lia. f_equal. lia.
    + replace (i <? k + zlen x) with false by (symmetry; apply Z.ltb_ge; lia).
      replace (i <? k + (zlen x + zlen y)) with false by (symmetry; apply Z.ltb_ge; lia). by rewrite !andb_false_r.
  - destruct (Z.leb_spec k i); cbn [andb]; [|done].
    replace (i <? k + zlen x) with true by (symmetry; apply Z.ltb_lt; lia).
    replace (i <? k + (zlen x + zlen y)) with true by (symmetry; apply Z.ltb_lt; lia).
    by rewrite zget_app_l by lia.
Qed.

Section fragments.
Context (alloc : Z -> bool * bool) (append : list (list Z) -> list Z -> NTSTATUS).

(** The frames of one stream in turn, until one fails. *)
Definition process_frame (f : frame) : Http2ActiveStream -> Http2Connection -> Outcome :=
  ProcessResponseFrame alloc append (frame_header f) (Bytes (frame_payload f)).
Fixpoint process_frames (l : list frame) (a : Http2ActiveStream) (c : Http2Connection) : Outcome :=
  match l with
  | [] => (STATUS_SUCCESS, a, c)
  | f :: l =>
      let '(status, a, c) := process_frame f a c in
      if NT_SUCCESS status then process_frames l a c else (status, a, c)
  end.

(** CONTINUATION frames, the last with END_HEADERS. *)
Fixpoint continuations (streamId : Z) (l : list (list Z)) : list frame :=
  match l with
  | [] => []
  | [x] => [CONTINUATION streamId x true]
  | x :: l => CONTINUATION streamId x false :: continuations streamId l
  end.

(** At most four empty ones in a row, after [n] of them. *)
Fixpoint few_empty (n : Z) (l : list (list Z)) : Prop :=
  match l with
  | [] => True
  | x :: l =>
      let n := if zlen x =? 0 then n + 1 else 0 in n <= Http2MaxEmptyContinuationFrames /\ few_empty n l
  end.

(** The bookkeeping of CONTINUATION. *)
Definition with_expecting (expecting : bool) (streamId frames empty : Z) (a : Http2ActiveStream) : Http2ActiveStream :=
  with_state (fun s => s <| rs_ExpectingContinuation := expecting |> <| rs_ContinuationStreamId := streamId |>
                         <| rs_ContinuationFrames := frames |> <| rs_EmptyContinuationFrames := empty |>) a.
Definition with_length (n : Z) (a : Http2ActiveStream) : Http2ActiveStream :=
  with_state (fun s => s <| rs_ResponseHeaderBlockLen := n |>) a.
Definition with_block (block : list Z) (c : Http2Connection) : Http2Connection := c <| hc_responseHeaderBlock := block |>.

(** It is forgotten once the block is complete. *)
Lemma complete_block_expecting fh x i n m a c :
  complete_block alloc fh (with_expecting x i n m a) c = complete_block alloc fh a c.
Proof. destruct a as [u s []]. reflexivity. Qed.
Lemma complete_block_stream fh fh' a c :
  fh_StreamId fh = fh_StreamId fh' -> complete_block alloc fh a c = complete_block alloc fh' a c.
Proof.
  intros H. unfold complete_block, decode_block, accept_block, accept_response, finish_block. by rewrite H.
Qed.

(** Appending a fragment that fits. *)
Lemma append_fragment_fits fh x n a c :
  0 <= n -> n + zlen x <= rs_ResponseHeaderBlockCapacity (as_ResponseState a) -> n + zlen x < 2 ^ 64 ->
  append_fragment alloc fh (Bytes x) (with_length n a) c
  = let a' := with_length (n + zlen x) a in
    let c' := with_block (mem_copy (hc_responseHeaderBlock c) n x) c in
    if flag_set Flag_EndHeaders (fh_Flags fh) then complete_block alloc fh a' c'
    else if fh_Type fh =? FrameType_Headers then (STATUS_SUCCESS, with_expecting true (fh_StreamId fh) 0 0 a', c')
    else (STATUS_SUCCESS, a', c').
Proof.
  intros Hn Hfit Hmax. pose proof (zlen_nonneg x). unfold append_fragment. cbn [sp_len sp_bytes].
  change (rs_ResponseHeaderBlockCapacity (as_ResponseState (with_length n a))) with (rs_ResponseHeaderBlockCapacity (as_ResponseState a)).
  change (rs_ResponseHeaderBlockLen (as_ResponseState (with_length n a))) with n. guard_false.
  assert (E : with_state (fun s => s <| rs_ResponseHeaderBlockLen := rs_ResponseHeaderBlockLen s +! zlen x |>) (with_length n a)
    = with_length (n + zlen x) a).
  { unfold with_state, with_length. cbn. rewrite u64_id by lia. by destruct a as [? ? []]. }
  by rewrite E.
Qed.
(** What a HEADERS frame carries is its block, with and without a priority. *)
Lemma headers_block streamId x priority es eh :
  let f := HEADERS streamId x priority es eh in
  (StripPadding (fh_Flags (frame_header f)) (Bytes (frame_payload f)) ≫= StripPriority (fh_Flags (frame_header f))) = Ok (Bytes x)
  /\ flag_set Flag_EndStream (fh_Flags (frame_header f)) = es
  /\ flag_set Flag_EndHeaders (fh_Flags (frame_header f)) = eh.
Proof.
  cbv zeta. destruct priority as [p|]; cbn [frame_header frame_payload fh_Flags].
  - destruct (flag_bits es eh true) as (_ & H1 & H2 & H3 & H4). split_and!; [|done|done].
    rewrite strip_nothing by done. cbn [mbind Result_bind]. by apply strip_priority_written.
  - destruct (flag_bits es eh false) as (_ & H1 & H2 & H3 & H4). split_and!; [|done|done].
    rewrite strip_nothing by done. cbn [mbind Result_bind]. unfold StripPriority, null_payload.
    cbn [sp_isnull andb]. apply negb_false_iff in H4. by rewrite H4.
Qed.

Definition with_pending (es : bool) (a : Http2ActiveStream) : Http2ActiveStream :=
  with_state (fun s => s <| rs_PendingHeaderEndStream := es |>) a.

Lemma process_headers_frame streamId x priority es eh n a c :
  rs_pointers (as_ResponseState a) = true -> rs_ExpectingContinuation (as_ResponseState a) = false ->
  rs_ResponseHeaderBlockLen (as_ResponseState a) = n ->
  0 <= n -> n + zlen x <= rs_ResponseHeaderBlockCapacity (as_ResponseState a) -> n + zlen x < 2 ^ 64 ->
  process_frame (HEADERS streamId x priority es eh) a c
  = let a' := with_length (n + zlen x) (with_pending es a) in
    let c' := with_block (mem_copy (hc_responseHeaderBlock c) n x) c in
    if eh then complete_block alloc (frame_header (HEADERS streamId x priority es eh)) a' c'
    else (STATUS_SUCCESS, with_expecting true streamId 0 0 a', c').
Proof.
  intros Hp Hx Hlen Hn Hfit Hmax. unfold process_frame, ProcessResponseFrame. rewrite Hp. cbn [negb].
  set (f := HEADERS streamId x priority es eh). destruct (headers_block streamId x priority es eh) as (H1 & H2 & H3). fold f in H1, H2, H3.
  unfold check_continuation. rewrite Hx. change (fh_Type (frame_header f)) with FrameType_Headers. cbn [orb negb].
  change (FrameType_Headers =? FrameType_Continuation) with false. cbn [NT_SUCCESS negb].
  change (FrameType_Headers =? FrameType_Priority) with false. change (FrameType_Headers =? FrameType_Headers) with true.
  cbn [orb]. unfold process_headers. change (fh_Type (frame_header f) =? FrameType_Headers) with true. cbv iota. cbv zeta.
  rewrite H1, H2. change (with_state (fun s => s <| rs_PendingHeaderEndStream := es |>) a) with (with_pending es a).
  assert (E : with_pending es a = with_length n (with_pending es a)) by (rewrite <- Hlen; by destruct a as [? ? []]).
  rewrite E, append_fragment_fits by done. rewrite H3. by destruct eh.
Qed.

Lemma process_continuation_frame streamId x eh n k e a c :
  rs_pointers (as_ResponseState a) = true ->
  0 <= n -> n + zlen x <= rs_ResponseHeaderBlockCapacity (as_ResponseState a) -> n + zlen x < 2 ^ 64 ->
  0 <= k -> k + 1 <= Http2MaxContinuationFrames -> 0 <= e ->
  let e' := if zlen x =? 0 then e + 1 else 0 in e' <= Http2MaxEmptyContinuationFrames ->
  process_frame (CONTINUATION streamId x eh) (with_expecting true streamId k e (with_length n a)) c
  = let a' := with_length (n + zlen x) a in
    let c' := with_block (mem_copy (hc_responseHeaderBlock c) n x) c in
    if eh then complete_block alloc (frame_header (CONTINUATION streamId x eh)) a' c'
    else (STATUS_SUCCESS, with_expecting true streamId (k + 1) e' a', c').
Proof.
  intros Hp Hn Hfit Hmax Hk Hk' He e' He'. unfold process_frame, ProcessResponseFrame.
  change (rs_pointers (as_ResponseState (with_expecting true streamId k e (with_length n a)))) with (rs_pointers (as_ResponseState a)).
  rewrite Hp. cbn [negb]. set (f := CONTINUATION streamId x eh). unfold Http2MaxContinuationFrames, Http2MaxEmptyContinuationFrames in *.
  assert (Hc : check_continuation (frame_header f) (with_expecting true streamId k e (with_length n a)) c
    = (STATUS_SUCCESS, with_expecting true streamId (k + 1) e' (with_length n a), c)).
  { unfold check_continuation. change (fh_Type (frame_header f)) with FrameType_Continuation.
    change (fh_StreamId (frame_header f)) with streamId. change (fh_Length (frame_header f)) with (zlen x). cbn -[zlen].
    rewrite Z.eqb_refl. cbn [negb orb]. unfold Http2MaxContinuationFrames, Http2MaxEmptyContinuationFrames.
    rewrite (u32_id (k + 1)) by lia. guard_false. unfold e' in *. destruct (zlen x =? 0); [|by destruct a as [? ? []]].
    rewrite (u32_id (e + 1)) by lia. guard_false. by destruct a as [? ? []]. }
  rewrite Hc. cbn [NT_SUCCESS negb]. change (fh_Type (frame_header f)) with FrameType_Continuation.
  change (FrameType_Continuation =? FrameType_Priority) with false. cbn [orb].
  change (FrameType_Continuation =? FrameType_Headers) with false. change (FrameType_Continuation =? FrameType_Continuation) with true.
  cbn [orb]. unfold process_headers. change (fh_Type (frame_header f) =? FrameType_Headers) with false. cbv iota.
  assert (E : with_expecting true streamId (k + 1) e' (with_length n a) = with_length n (with_expecting true streamId (k + 1) e' a)).
  { by destruct a as [? ? []]. }
  change (frame_payload f) with x. rewrite E, append_fragment_fits by done.
  replace (flag_set Flag_EndHeaders (fh_Flags (frame_header f))) with eh by (by destruct eh).
  change (fh_Type (frame_header f) =? FrameType_Headers) with false. cbv zeta. destruct eh.
  - assert (E' : with_length (n + zlen x) (with_expecting true streamId (k + 1) e' a)
      = with_expecting true streamId (k + 1) e' (with_length (n + zlen x) a)) by (by destruct a as [? ? []]).
    by rewrite E', complete_block_expecting.
  - by destruct a as [? ? []].
Qed.

Lemma process_one f a c : process_frames [f] a c = process_frame f a c.
Proof.
  cbn [process_frames]. destruct (process_frame f a c) as [[st a'] c']. destruct (NT_SUCCESS st) eqn:E; [|done].
  by rewrite (NT_SUCCESS_true _ E).
Qed.

Lemma process_continuations streamId l n k e a c fh :
  l <> [] -> fh_StreamId fh = streamId -> rs_pointers (as_ResponseState a) = true ->
  0 <= n -> n + zlen (concat l) <= rs_ResponseHeaderBlockCapacity (as_ResponseState a) ->
  rs_ResponseHeaderBlockCapacity (as_ResponseState a) <= zlen (hc_responseHeaderBlock c) < 2 ^ 64 ->
  0 <= k -> k + zlen l <= Http2MaxContinuationFrames -> 0 <= e -> few_empty e l ->
  process_frames (continuations streamId l) (with_expecting true streamId k e (with_length n a)) c
  = complete_block alloc fh (with_length (n + zlen (concat l)) a)
      (with_block (mem_copy (hc_responseHeaderBlock c) n (concat l)) c).
Proof.
  intros Hne Hfh Hp. revert n k e c. induction l as [|x l IH]; [done|]. intros n k e c Hn Hfit Hcap Hk Hk' He Hfew.
  cbn [concat] in *. rewrite zlen_app in *. rewrite zlen_cons in Hk'. destruct Hfew as [He' Hfew].
  pose proof (zlen_nonneg x). pose proof (zlen_nonneg (concat l)). pose proof (zlen_nonneg l).
  destruct l as [|y l].
  - cbn [continuations]. rewrite process_one, process_continuation_frame by (done || lia). cbv zeta.
    cbn [concat]. rewrite (@zlen_nil Z), Z.add_0_r, app_nil_r. by apply complete_block_stream.
  - change (continuations streamId (x :: y :: l)) with (CONTINUATION streamId x false :: continuations streamId (y :: l)).
    cbn [process_frames]. rewrite process_continuation_frame by (done || lia). cbn [NT_SUCCESS]. cbv zeta.
    assert (Hs : zlen (mem_copy (hc_responseHeaderBlock c) n x) = zlen (hc_responseHeaderBlock c)) by (apply zlen_mem_copy; lia).
    rewrite IH; [|done|lia|lia| |lia|lia| |done].
    + unfold with_block. cbn [hc_responseHeaderBlock set_field eta_expand Http2Connection_eta].
      rewrite mem_copy_app by lia. by rewrite Z.add_assoc.
    + unfold with_block. cbn [hc_responseHeaderBlock set_field eta_expand Http2Connection_eta]. lia.
    + case_if; lia.
Qed.

(** A block in fragments and the block in one frame. *)
Lemma fragments_complete streamId priority es x l a c :
  l <> [] -> rs_pointers (as_ResponseState a) = true -> rs_ExpectingContinuation (as_ResponseState a) = false ->
  0 <= rs_ResponseHeaderBlockLen (as_ResponseState a) ->
  rs_ResponseHeaderBlockLen (as_ResponseState a) + zlen (x ++ concat l) <= rs_ResponseHeaderBlockCapacity (as_ResponseState a) ->
  rs_ResponseHeaderBlockCapacity (as_ResponseState a) <= zlen (hc_responseHeaderBlock c) < 2 ^ 64 ->
  zlen l <= Http2MaxContinuationFrames -> few_empty 0 l ->
  process_frames (HEADERS streamId x priority es false :: continuations streamId l) a c
  = process_frame (HEADERS streamId (x ++ concat l) None es true) a c.
Proof.
  intros Hne Hp Hx Hn Hfit Hcap Hl Hfew. rewrite zlen_app in Hfit. pose proof (zlen_nonneg x). pose proof (zlen_nonneg (concat l)).
  set (n := rs_ResponseHeaderBlockLen (as_ResponseState a)) in *.
  rewrite (process_headers_frame streamId (x ++ concat l) None es true n) by (rewrite ?zlen_app; done || lia). cbv zeta.
  cbn [process_frames]. rewrite (process_headers_frame streamId x priority es false n) by (done || lia). cbv zeta. cbn [NT_SUCCESS].
  assert (Hs : zlen (mem_copy (hc_responseHeaderBlock c) n x) = zlen (hc_responseHeaderBlock c)) by (apply zlen_mem_copy; lia).
  rewrite (process_continuations streamId l _ _ _ _ _ (frame_header (HEADERS streamId (x ++ concat l) None es true)));
    [|done|done|done|lia| | |done|lia|done|done].
  - unfold with_block. cbn [hc_responseHeaderBlock set_field eta_expand Http2Connection_eta].
    rewrite mem_copy_app by lia. by rewrite zlen_app, Z.add_assoc.
  - change (rs_ResponseHeaderBlockCapacity (as_ResponseState (with_pending es a))) with (rs_ResponseHeaderBlockCapacity (as_ResponseState a)). lia.
  - unfold with_block. cbn [hc_responseHeaderBlock set_field eta_expand Http2Connection_eta].
    change (rs_ResponseHeaderBlockCapacity (as_ResponseState (with_pending es a))) with (rs_ResponseHeaderBlockCapacity (as_ResponseState a)). lia.
Qed.
End fragments.

(** ** Response headers: the specification *)

Definition name_char (ch : Z) : Prop := 0x20 < ch < 0x7f /\ ch <> 58 /\ ~ (65 <= ch <= 90).
Definition value_char (ch : Z) : Prop := ch <> 0 /\ ch <> 13 /\ ch <> 10.
Definition digit (ch : Z) : Prop := 48 <= ch <= 57.
(** The number that a string of digits denotes. *)
Definition decimal (v : list Z) : Z := foldl (fun n ch => n * 10 + (ch - 48)) 0 v.
Definition decimal_value (v : list Z) (n : Z) : Prop := v <> [] /\ Forall digit v /\ n = decimal v /\ n < 2 ^ 64.

Definition connection_specific : list (list Z) :=
  [str "connection"; str "keep-alive"; str "proxy-connection"; str "transfer-encoding"; str "upgrade"].

(** RFC 9113, section 8.2: lower-case names without controls or colons, values
    without NUL, CR and LF, no connection-specific fields, and "te" only for
    trailers. *)
Definition regular_field (f : list Z * list Z) : Prop :=
  f.1 <> [] /\ Forall name_char f.1 /\ Forall value_char f.2 /\ ~ In f.1 connection_specific
  /\ (f.1 = str "te" -> map lower f.2 = str "trailers").

Definition content_lengths (fields : list (list Z * list Z)) : list (list Z) :=
  map snd (List.filter (fun f => TextEquals f.1 (str "content-length")) fields).

(** All content-length fields give one number. *)
Definition content_length_of (fields : list (list Z * list Z)) (n : option Z) : Prop :=
  match n with
  | None => content_lengths fields = []
  | Some n => content_lengths fields <> [] /\ Forall (fun v => decimal_value v n) (content_lengths fields)
  end.

Lemma bytes_equal_true a b : bytes_equal a b = true <-> a = b.
Proof.
  revert b. induction a as [|x a IH]; intros [|y b]; cbn; try done.
  rewrite andb_true_iff, Z.eqb_eq, IH. split; [by intros [-> ->]|by intros [= -> ->]].
Qed.
Lemma TextEquals_true a b : TextEquals a b = true <-> a = b.
Proof.
  unfold TextEquals. rewrite andb_true_iff, bytes_equal_true, Z.eqb_eq. split; [by intros [_ ?]|by intros ->].
Qed.
Lemma TextEqualsAsciiInsensitive_true a b :
  TextEqualsAsciiInsensitive a b = true <-> map lower a = map lower b.
Proof.
  unfold TextEqualsAsciiInsensitive. rewrite andb_true_iff, bytes_equal_true, Z.eqb_eq.
  split; [by intros [_ ?]|]. intros H. split; [|done]. apply (f_equal zlen) in H. by rewrite !zlen_map in H.
Qed.

Lemma is_digit_true ch : is_digit ch = true <-> digit ch.
Proof. unfold is_digit, digit. rewrite negb_true_iff, orb_false_iff, Z.gtb_ltb, !Z.ltb_ge. lia. Qed.

Lemma parse_decimal_loop_exact l p n :
  0 <= p < 2 ^ 64 ->
  parse_decimal_loop l p = Some n <->
  Forall digit l /\ n = foldl (fun n ch => n * 10 + (ch - 48)) p l /\ n < 2 ^ 64.
Proof.
  revert p. induction l as [|ch l IH]; intros p Hp; cbn [parse_decimal_loop foldl].
  { split; [intros [= <-]; split_and!; [by apply Forall_nil_2|done|lia]|by intros (_ & -> & _)]. }
  rewrite Forall_cons, <- is_digit_true. destruct (is_digit ch) eqn:Ed; cbn [negb]; [|split; [done|by intros [[? _] _]]].
  apply is_digit_true in Ed. unfold digit in Ed.
  assert (Em : MAXU64 -! (ch - 48) = MAXU64 - (ch - 48)) by (unfold MAXU64; rewrite u64_id; lia). rewrite Em. unfold MAXU64.
  assert (Hgrow : forall k q, 0 <= q -> q <= foldl (fun n ch => n * 10 + (ch - 48)) q k \/ ~ Forall digit k).
  { induction k as [|d k IHk]; intros q Hq; [left; cbn; lia|]. cbn [foldl].
    destruct (decide (48 <= d <= 57)) as [Hd|Hd]; [|right; intros HF; apply Forall_cons in HF as [? _]; unfold digit in *; lia].
    destruct (IHk (q * 10 + (d - 48)) ltac:(lia)) as [H|H]; [left; lia|right; intros HF; apply Forall_cons in HF as [_ ?]; done]. }
  destruct (p >? (2 ^ 64 - 1 - (ch - 48)) / 10) eqn:E.
  - split; [done|]. intros ([_ Hl] & -> & Hn). exfalso. bool_prop.
    destruct (Hgrow l (p * 10 + (ch - 48)) ltac:(lia)) as [H|H]; [|done].
    pose proof (Z.mul_succ_div_gt (2 ^ 64 - 1 - (ch - 48)) 10). lia.
  - bool_prop. assert (Hfit : p * 10 + (ch - 48) < 2 ^ 64) by (pose proof (Z.mul_div_le (2 ^ 64 - 1 - (ch - 48)) 10); lia).
    rewrite (u64_id (p * 10)), u64_id by lia. rewrite IH by lia. split; [intros (? & ? & ?)|intros ([? ?] & ? & ?)]; split_and!; done.
Qed.

Lemma ParseUnsignedDecimal_exact v n : ParseUnsignedDecimal v = Some n <-> decimal_value v n.
Proof.
  unfold ParseUnsignedDecimal, decimal_value, decimal. destruct v as [|ch v]; [split; [done|by intros [? _]]|].
  rewrite zlen_cons. pose proof (zlen_nonneg v). destruct (Z.eqb_spec (1 + zlen v) 0); [lia|].
  rewrite parse_decimal_loop_exact by lia. split; [by intros (? & ? & ?)|by intros (_ & ? & ? & ?)].
Qed.

Lemma ParseStatusCode_exact v n :
  n <> 0 -> ParseStatusCode v = n <-> zlen v = 3 /\ Forall digit v /\ decimal v = n.
Proof.
  intros Hn. unfold ParseStatusCode. destruct (Z.eqb_spec (zlen v) 3) as [Hl|]; cbn [negb]; [|split; [intros; congruence|by intros [? _]]].
  destruct v as [|a [|b [|d [|e v]]]]; try (cbn in Hl; unfold zlen in Hl; cbn in Hl; lia).
  unfold decimal. cbn [forallb foldl]. rewrite !Forall_cons, <- !is_digit_true.
  destruct (is_digit a) eqn:Ea, (is_digit b) eqn:Eb, (is_digit d) eqn:Ed; cbn [andb];
    try (split; [intros; congruence|intros (_ & (? & ? & ? & _) & _); congruence]).
  apply is_digit_true in Ea, Eb, Ed. unfold digit in *.
  rewrite (Z.mod_small (0 * 10 + (a - 48))), (Z.mod_small ((0 * 10 + (a - 48)) * 10 + (b - 48))), Z.mod_small by lia.
  split; [intros <-; split_and!; done|by intros (_ & _ & <-)].
Qed.

Lemma bad_name_char_false ch : bad_name_char ch = false <-> name_char ch.
Proof.
  unfold bad_name_char, is_upper, name_char.
  rewrite !orb_false_iff, andb_false_iff, !Z.geb_leb, !Z.leb_gt, Z.eqb_neq. lia.
Qed.
Lemma existsb_false {A} (p : A -> bool) l : existsb p l = false <-> Forall (fun x => p x = false) l.
Proof.
  induction l as [|x l IH]; cbn [existsb]; [split; [by intros; apply Forall_nil_2|done]|].
  by rewrite orb_false_iff, Forall_cons, IH.
Qed.
Lemma Forall_iff_pred {A} (P Q : A -> Prop) l : (forall x, P x <-> Q x) -> Forall P l <-> Forall Q l.
Proof. intros H. split; intros Hl; (eapply Forall_impl; [exact Hl|]); intros x; by apply H. Qed.

Lemma name_chars_false name : existsb bad_name_char name = false <-> Forall name_char name.
Proof. rewrite existsb_false. apply Forall_iff_pred, bad_name_char_false. Qed.

Lemma IsValidHttp2FieldValue_true value : IsValidHttp2FieldValue value = true <-> Forall value_char value.
Proof.
  unfold IsValidHttp2FieldValue. rewrite negb_true_iff, existsb_false. apply Forall_iff_pred. intros ch.
  unfold value_char. rewrite !orb_false_iff, !Z.eqb_neq. tauto.
Qed.

Lemma upper_of_names name : Forall name_char name -> TextContainsUppercase name = false.
Proof.
  unfold TextContainsUppercase. intros H. apply existsb_false. eapply Forall_impl; [exact H|].
  intros ch (_ & _ & Hc). unfold is_upper. rewrite andb_false_iff, Z.geb_leb, !Z.leb_gt. lia.
Qed.

Lemma connection_specific_true name : IsConnectionSpecificHeaderName name = true <-> In name connection_specific.
Proof.
  unfold IsConnectionSpecificHeaderName, connection_specific. rewrite !orb_true_iff, !TextEquals_true. cbn [In].
  intuition congruence.
Qed.

(** The tests of [ValidateResponseHeaderBlock] on a field that is not a pseudo
    header, as one. *)
Definition regular_test (name value : list Z) : bool :=
  negb (zlen name =? 0) && IsValidHttp2FieldName name && IsValidHttp2FieldValue value
  && negb (TextContainsUppercase name) && negb (zget name 0 =? 58) && negb (IsConnectionSpecificHeaderName name)
  && negb (TextEquals name (str "te") && negb (TextEqualsAsciiInsensitive value (str "trailers"))).

Lemma regular_test_true name value : regular_test name value = true <-> regular_field (name, value).
Proof.
  unfold regular_test, regular_field. cbn [fst snd].
  rewrite !andb_true_iff, !negb_true_iff, Z.eqb_neq, IsValidHttp2FieldValue_true.
  rewrite <- (not_true_iff_false (IsConnectionSpecificHeaderName name)), connection_specific_true.
  rewrite andb_false_iff, negb_false_iff, TextEqualsAsciiInsensitive_true, <- (not_true_iff_false (TextEquals name (str "te"))),
    TextEquals_true.
  change (map lower (str "trailers")) with (str "trailers").
  destruct name as [|ch name].
  { rewrite zlen_nil. split; [by intros ((((((? & _) & _) & _) & _) & _) & _)|by intros (? & _)]. }
  rewrite zget_0. unfold IsValidHttp2FieldName. rewrite zget_0, zlen_cons. pose proof (zlen_nonneg name).
  destruct (Z.eqb_spec (1 + zlen name) 0); [lia|]. destruct (Z.eqb_spec ch 58) as [->|Hch]; cbn [andb negb].
  - split; [by intros (((_ & ?) & _) & _)|]. intros (_ & Hn & _). apply Forall_cons in Hn as [(_ & ? & _) _]. done.
  - rewrite negb_true_iff, name_chars_false. split.
    + intros ((((((_ & Hn) & Hv) & _) & _) & Hc) & Ht). split_and!; [done|done|done|done|]. intros E. destruct Ht; done.
    + intros (_ & Hn & Hv & Hc & Ht). split_and!; try done; [by apply upper_of_names|].
      destruct (decide (ch :: name = str "te")) as [E|E]; [right; by apply Ht|by left].
Qed.

Lemma validate_regular trailers name value v :
  zget name 0 <> 58 ->
  validate_header trailers (name, value) v =
  if regular_test name value then
    if negb trailers && TextEquals name (str "content-length") then
      match ParseUnsignedDecimal value with
      | None => None
      | Some n =>
          if va_contentLengthSeen v && negb (n =? va_parsedContentLength v) then None
          else Some (v <| va_regularHeaderSeen := true |> <| va_contentLengthSeen := true |> <| va_parsedContentLength := n |>)
      end
    else Some (v <| va_regularHeaderSeen := true |>)
  else None.
Proof.
  intros Hz. apply Z.eqb_neq in Hz. unfold validate_header, regular_test. rewrite Hz.
  destruct (zlen name =? 0); [done|]. destruct (IsValidHttp2FieldName name); [|done].
  destruct (IsValidHttp2FieldValue value); [|done]. destruct (TextContainsUppercase name); [done|]. cbn [negb andb orb].
  destruct (IsConnectionSpecificHeaderName name); [done|].
  destruct (TextEquals name (str "te") && _); [done|]. done.
Qed.

Lemma validate_pseudo trailers name value v v' :
  zget name 0 = 58 ->
  validate_header trailers (name, value) v = Some v' <->
  trailers = false /\ va_regularHeaderSeen v = false /\ va_statusSeen v = false /\ name = str ":status"
  /\ Forall value_char value /\ ParseStatusCode value <> 0
  /\ v' = v <| va_parsedStatus := ParseStatusCode value |> <| va_statusSeen := true |>.
Proof.
  intros Hz. unfold validate_header. rewrite Hz. change (58 =? 58) with true. cbv iota. split.
  - intros H. case_if_in H; [done|]. case_if_in H; [done|]. case_if_in H; [done|]. case_if_in H; [done|]. injection H as <-.
    bool_prop. repeat match goal with H : negb _ = false |- _ => apply negb_false_iff in H end.
    rewrite <- IsValidHttp2FieldValue_true, <- (TextEquals_true name). by split_and!.
  - intros (-> & -> & -> & -> & Hv & Hs & ->). apply IsValidHttp2FieldValue_true in Hv. rewrite Hv.
    apply Z.eqb_neq in Hs. rewrite Hs. done.
Qed.

(** ** The loops *)

Lemma trailers_loop hs v : is_Some (validate_loop true hs v) <-> Forall regular_field hs.
Proof.
  revert v. induction hs as [|[name value] hs IH]; intros v; cbn [validate_loop].
  { split; [by intros; apply Forall_nil_2|by eexists]. }
  rewrite Forall_cons, <- regular_test_true. destruct (Z.eq_dec (zget name 0) 58) as [Hz|Hz].
  - destruct (validate_header true (name, value) v) eqn:E; [by apply validate_pseudo in E as (? & _)|].
    split; [by intros [? ?]|]. intros [Ht _]. apply regular_test_true in Ht as (Hne & Hn & _). cbn in Hn.
    destruct name as [|ch name]; [done|]. apply Forall_cons in Hn as [(_ & ? & _) _]. done.
  - rewrite validate_regular by done. cbn [negb andb]. destruct (regular_test name value).
    + rewrite IH. split; [by split|by intros [_ ?]].
    + split; [by intros [? ?]|by intros [? _]].
Qed.

(** A status is accepted before any field only. *)
Lemma no_status_later hs v v' :
  validate_loop false hs v = Some v' -> va_regularHeaderSeen v = true -> va_statusSeen v' = va_statusSeen v.
Proof.
  revert v. induction hs as [|[name value] hs IH]; intros v H Hr; cbn [validate_loop] in H; [by injection H as <-|].
  destruct (validate_header false (name, value) v) as [v1|] eqn:E; [|done].
  destruct (Z.eq_dec (zget name 0) 58) as [Hz|Hz].
  { apply validate_pseudo in E as (_ & Hr' & _); [|done]. by rewrite Hr in Hr'. }
  rewrite validate_regular in E by done. case_if_in E; [|done]. case_if_in E.
  - destruct (ParseUnsignedDecimal value); [|done]. case_if_in E; [done|]. injection E as <-. by rewrite (IH _ H).
  - injection E as <-. by rewrite (IH _ H).
Qed.

(** The length that a state of the loop has read, after the fields. *)
Definition length_after (v : Validation) (fields : list (list Z * list Z)) (v' : Validation) : Prop :=
  (content_lengths fields = [] /\ va_contentLengthSeen v' = va_contentLengthSeen v
   /\ va_parsedContentLength v' = va_parsedContentLength v)
  \/ (content_lengths fields <> [] /\ va_contentLengthSeen v' = true
      /\ Forall (fun x => decimal_value x (va_parsedContentLength v')) (content_lengths fields)
      /\ (va_contentLengthSeen v = true -> va_parsedContentLength v' = va_parsedContentLength v)).

Lemma content_lengths_cons name value fields :
  content_lengths ((name, value) :: fields)
  = if TextEquals name (str "content-length") then value :: content_lengths fields else content_lengths fields.
Proof. unfold content_lengths. cbn. by destruct (TextEquals name _). Qed.

Lemma regular_not_pseudo name value : regular_field (name, value) -> zget name 0 <> 58.
Proof.
  intros (Hne & Hn & _). cbn in *. destruct name as [|ch name]; [done|]. apply Forall_cons in Hn as [(_ & ? & _) _]. done.
Qed.

(** After the status: only regular fields, one content length. *)
Lemma fields_loop hs v v' :
  va_statusSeen v = true -> validate_loop false hs v = Some v' ->
  Forall regular_field hs /\ length_after v hs v' /\ va_parsedStatus v' = va_parsedStatus v /\ va_statusSeen v' = true.
Proof.
  revert v. induction hs as [|[name value] hs IH]; intros v Hs H; cbn [validate_loop] in H.
  { injection H as <-. split_and!; [by apply Forall_nil_2|by left|done|done]. }
  destruct (validate_header false (name, value) v) as [v1|] eqn:E; [|done].
  destruct (Z.eq_dec (zget name 0) 58) as [Hz|Hz].
  { apply validate_pseudo in E as (_ & _ & Hs' & _); [|done]. by rewrite Hs in Hs'. }
  rewrite validate_regular in E by done. destruct (regular_test name value) eqn:Er; [|done]. apply regular_test_true in Er.
  unfold length_after. rewrite content_lengths_cons, Forall_cons. cbn [negb andb] in E. destruct (TextEquals name _).
  - destruct (ParseUnsignedDecimal value) as [n|] eqn:En; [|done]. apply ParseUnsignedDecimal_exact in En.
    destruct (va_contentLengthSeen v && negb (n =? va_parsedContentLength v)) eqn:Ec; [done|]. injection E as <-.
    pose proof (fun e => IH _ e H) as I. destruct (I Hs) as (I1 & I2 & I3 & I4). clear I. split_and!; [done|done| |done|done]. right.
    assert (Hv : va_contentLengthSeen v = true -> va_parsedContentLength v = n).
    { intros Hx. rewrite Hx in Ec. cbn in Ec. by apply negb_false_iff, Z.eqb_eq in Ec. }
    destruct I2 as [(J1 & J2 & J3)|(J1 & J2 & J3 & J4)]; cbn in *.
    + rewrite J1, J2, J3. split_and!; [done|done|by apply Forall_cons|intros; symmetry; by apply Hv].
    + rewrite (J4 eq_refl) in *. split_and!; [done|done|by apply Forall_cons|intros; symmetry; by apply Hv].
  - injection E as <-. pose proof (fun e => IH _ e H) as I. destruct (I Hs) as (I1 & I2 & I3 & I4). clear I. split_and!; done.
Qed.

Lemma fields_accepted hs v n :
  va_statusSeen v = true -> Forall regular_field hs -> Forall (fun x => decimal_value x n) (content_lengths hs) ->
  (va_contentLengthSeen v = true -> va_parsedContentLength v = n) -> is_Some (validate_loop false hs v).
Proof.
  revert v. induction hs as [|[name value] hs IH]; intros v Hs Hr Hl Hv; cbn [validate_loop]; [by eexists|].
  apply Forall_cons in Hr as [Hf Hr]. rewrite validate_regular by (by eapply regular_not_pseudo).
  rewrite (proj2 (regular_test_true name value) Hf). rewrite content_lengths_cons in Hl. cbn [negb andb].
  destruct (TextEquals name _); [|by apply IH]. apply Forall_cons in Hl as [Hval Hl].
  rewrite (proj2 (ParseUnsignedDecimal_exact value n) Hval).
  destruct (va_contentLengthSeen v && negb (n =? va_parsedContentLength v)) eqn:Ec; [|by apply IH].
  apply andb_true_iff in Ec as [E1 E2]. rewrite (Hv E1), Z.eqb_refl in E2. done.
Qed.

Definition status_line (value : list Z) (status : Z) : Prop :=
  zlen value = 3 /\ Forall digit value /\ decimal value = status /\ status <> 0.

Lemma response_validated headers status len :
  ValidateResponseHeaderBlock headers false = Ok (status, len) <->
  exists value fields, headers = (str ":status", value) :: fields
    /\ status_line value status /\ Forall regular_field fields /\ content_length_of fields len.
Proof.
  unfold ValidateResponseHeaderBlock. split.
  - destruct (validate_loop _ _ _) as [v|] eqn:E; [|done]. cbn [negb andb].
    destruct (va_statusSeen v) eqn:Es; [|done]. cbn [negb]. intros [= <- <-].
    destruct headers as [|[name value] fields]; [injection E as <-; done|]. cbn [validate_loop] in E.
    destruct (validate_header false (name, value) _) as [v1|] eqn:E1; [|done].
    destruct (Z.eq_dec (zget name 0) 58) as [Hz|Hz].
    + apply validate_pseudo in E1 as (_ & _ & _ & -> & Hval & Hst & ->); [|done]. exists value, fields.
      pose proof (fun e => fields_loop fields _ v e E) as F. destruct (F eq_refl) as (F1 & F2 & F3 & F4). cbn in F3. rewrite F3.
      destruct (proj1 (ParseStatusCode_exact value _ Hst) eq_refl) as (P1 & P2 & P3).
      split_and!; [done|by split_and!|done|]. unfold content_length_of.
      destruct F2 as [(J1 & J2 & J3)|(J1 & J2 & J3 & J4)]; rewrite J2; [done|by split].
    + rewrite validate_regular in E1 by done. exfalso.
      assert (Hr : va_regularHeaderSeen v1 = true /\ va_statusSeen v1 = false).
      { case_if_in E1; [|done]. case_if_in E1; [destruct (ParseUnsignedDecimal value); [|done]; case_if_in E1; [done|]|]; by injection E1 as <-. }
      destruct Hr as [Hr Hs]. by rewrite (no_status_later fields v1 v E Hr), Hs in Es.
  - intros (value & fields & -> & (S1 & S2 & S3 & S4) & Hf & Hl). cbn [validate_loop].
    assert (Hst : ParseStatusCode value = status) by (by apply ParseStatusCode_exact).
    assert (Hval : Forall value_char value).
    { eapply Forall_impl; [exact S2|]. intros ch Hd. unfold digit, value_char in *. lia. }
    rewrite (proj2 (validate_pseudo false (str ":status") value _ _ eq_refl)) by (by split_and!; [..|rewrite Hst|]).
    set (v1 := _ <| va_parsedStatus := _ |> <| va_statusSeen := true |>).
    set (n := match len with Some n => n | None => 0 end).
    assert (Hlen : Forall (fun x => decimal_value x n) (content_lengths fields)).
    { unfold n. destruct len as [n'|]; [apply Hl|]. unfold content_length_of in Hl. rewrite Hl. by apply Forall_nil_2. }
    destruct (fields_accepted fields v1 n eq_refl Hf Hlen) as [v Hv]; [done|]. rewrite Hv.
    destruct (fields_loop fields v1 v eq_refl Hv) as (_ & F2 & F3 & F4). rewrite F4. cbn [negb andb].
    rewrite F3. change (va_parsedStatus v1) with (ParseStatusCode value). rewrite Hst. f_equal. f_equal.
    destruct F2 as [(J1 & J2 & J3)|(J1 & J2 & J3 & J4)]; rewrite J2; destruct len as [n'|]; cbn [content_length_of] in Hl; try done.
    + by destruct Hl.
    + f_equal. unfold n in Hlen. destruct (content_lengths fields) as [|x l]; [done|]. apply Forall_cons in J3 as [(_ & _ & J3 & _) _].
      apply Forall_cons in Hlen as [(_ & _ & Hx & _) _]. congruence.
Qed.

Lemma trailers_validated headers status len :
  ValidateResponseHeaderBlock headers true = Ok (status, len) <->
  status = 0 /\ len = None /\ Forall regular_field headers.
Proof.
  unfold ValidateResponseHeaderBlock. rewrite <- (trailers_loop headers (MkValidation false false false 0 0)).
  destruct (validate_loop _ _ _) as [v|]; cbn [negb andb].
  - split; [by intros [= <- <-]|by intros (-> & -> & _)].
  - split; [done|by intros (_ & _ & [? ?])].
Qed.

(** ** Properties *)

(** C3. A response that is returned is complete.  Whatever the transport
    delivers, in whatever pieces and with whatever other frames in between:
    when [ReceiveResponse] succeeds the headers of a final response have been
    received, the body reported is all that the caller's sink was given, its
    length is that of the content-length field if there was one, it is empty
    where no body is allowed, and the stream has left the table.  And the
    connection stays in order on every outcome. *)
Theorem response_complete (alloc : Z -> bool * bool) (append : list (list Z) -> list Z -> NTSTATUS) (streamId : Z)
    (c : Http2Connection) (fuel : nat) :
  receivable c -> (turns_left c <= fuel)%nat ->
  let '(r, c') := ReceiveResponse alloc append fuel streamId c in
  receivable c'
  /\ forall state, r = Ok state -> complete state /\ FindActiveStream streamId c' = None.
Proof. apply receive_response_ok. Qed.

(** C34. [ReceiveResponse] ends.  The limit on the frames of a connection bounds
    the turns of its loop, also against a peer that sends frames for ever: with
    that much fuel the model satisfies the equation of the loop, and more fuel
    changes nothing.  The same holds of the reading loop, which the length of
    the read bounds. *)
Theorem receive_response_ends (alloc : Z -> bool * bool) (append : list (list Z) -> list Z -> NTSTATUS) (streamId : Z)
    (observed : bool) (c : Http2Connection) (fuel : nat) :
  receivable c -> (turns_left c <= fuel)%nat ->
  receive_response_loop alloc append fuel streamId observed c
  = receive_turn alloc append (receiving_from alloc append streamId true) streamId observed c
  /\ forall n got t, read_exact n got t =
       if zlen got <? n then
         match transport_receive (n - zlen got) t with
         | (Err status, t) => (Err status, t)
         | (Ok received, t) =>
             if zlen received =? 0 then (Err STATUS_CONNECTION_DISCONNECTED, t) else read_exact n (got ++ received) t
         end
       else (Ok got, t).
Proof.
  intros Hc Hf. split; [|apply read_exact_eq]. rewrite <- receiving_from_eq by done.
  by apply receive_response_fuel.
Qed.

(** C11. Fragmentation makes no difference.  A header block in a HEADERS frame and
    any number of CONTINUATION frames, cut anywhere, with a priority or
    without, is handled exactly as the same block in one HEADERS frame: the
    same status, the same response, the same HPACK table and the same control
    frames sent.  The limits: 64 CONTINUATION frames, four empty ones in a row,
    and the block fits the buffer. *)
Theorem fragments_as_one (alloc : Z -> bool * bool) (append : list (list Z) -> list Z -> NTSTATUS) (streamId : Z)
    (priority : option Http2Priority) (es : bool) (x : list Z) (l : list (list Z)) (a : Http2ActiveStream)
    (c : Http2Connection) :
  rs_pointers (as_ResponseState a) = true -> rs_ExpectingContinuation (as_ResponseState a) = false ->
  0 <= rs_ResponseHeaderBlockLen (as_ResponseState a) ->
  rs_ResponseHeaderBlockLen (as_ResponseState a) + zlen (x ++ concat l) <= rs_ResponseHeaderBlockCapacity (as_ResponseState a) ->
  rs_ResponseHeaderBlockCapacity (as_ResponseState a) <= zlen (hc_responseHeaderBlock c) < 2 ^ 64 ->
  l <> [] -> zlen l <= Http2MaxContinuationFrames -> few_empty 0 l ->
  process_frames alloc append (HEADERS streamId x priority es false :: continuations streamId l) a c
  = process_frame alloc append (HEADERS streamId (x ++ concat l) None es true) a c.
Proof. intros. by apply fragments_complete. Qed.

(** C35. Which response headers are accepted.  A final or interim response is
    exactly a [:status] of three digits, first and once, then regular fields
    (RFC 9113, section 8.2: lower-case names, no control characters, nothing
    connection-specific, "te" for trailers only), whose content-length fields,
    if there are any, are decimal numbers below 2^64 with one value; that
    value is what is returned.  Trailers are exactly regular fields. *)
Theorem validate_response_exact (headers : list (list Z * list Z)) (status : Z) (len : option Z) :
  (ValidateResponseHeaderBlock headers false = Ok (status, len) <->
   exists value fields, headers = (str ":status", value) :: fields
     /\ status_line value status /\ Forall regular_field fields /\ content_length_of fields len)
  /\ (ValidateResponseHeaderBlock headers true = Ok (status, len) <->
      status = 0 /\ len = None /\ Forall regular_field headers).
Proof. split; [apply response_validated|apply trailers_validated]. Qed.

(** ** Witnesses *)

(** A response of two frames in three pieces, after a PING of the peer; the
    connection may still read four frames. *)
Definition example_input : list (Result (list Z)) :=
  [Ok [0; 0; 8; 6; 0; 0; 0; 0; 0; 1; 2; 3; 4; 5; 6; 7; 8; 0; 0; 1; 1; 4]; Ok [0; 0; 0; 1; 0x88; 0; 0; 2; 0; 1; 0; 0; 0];
   Ok [1; 104; 105]].
Definition receiving_connection : Http2Connection :=
  example_connection <| hc_transport := MkTransport [] [] example_input |>
    <| hc_connectionFramesRead := WKNET_HARD_MAX_CONNECTION_FRAMES - 4 |>.

Lemma example_receivable : receivable receiving_connection.
Proof.
  constructor; [|by repeat (apply Forall_cons; split; [repeat (apply Forall_cons; split; [by split|]); apply Forall_nil_2|]);
    apply Forall_nil_2|done].
  destruct example_connection_ok as [C1 C2 C3 C4]. constructor; [|exact C2|exact C3|exact C4]. destruct C1. by constructor.
Qed.

Lemma response_complete_witness :
  let '(r, c') := ReceiveResponse alloc_ok append_ok 4 1 receiving_connection in
  match r with
  | Ok state => rs_StatusCode state = 200 /\ rs_delivered state = [[104; 105]] /\ complete state
  | Err _ => False
  end /\ length (tr_sent (hc_transport c')) = 1%nat.
Proof.
  pose proof (response_complete alloc_ok append_ok 1 receiving_connection 4 example_receivable ltac:(vm_compute; lia)) as H.
  assert (E : match ReceiveResponse alloc_ok append_ok 4 1 receiving_connection with
              | (Ok state, c') => rs_StatusCode state = 200 /\ rs_delivered state = [[104; 105]]
                                  /\ length (tr_sent (hc_transport c')) = 1%nat
              | _ => False end) by (vm_compute; by split_and!).
  destruct (ReceiveResponse _ _ _ _ _) as [[state|st] c']; [|done]. destruct E as (E1 & E2 & E3). destruct H as [_ H].
  split; [|exact E3]. split; [exact E1|]. split; [exact E2|]. exact (proj1 (H state eq_refl)).
Defined.

Lemma receive_response_ends_witness :
  receive_response_loop alloc_ok append_ok 7 1 false receiving_connection
  = receive_turn alloc_ok append_ok (receiving_from alloc_ok append_ok 1 true) 1 false receiving_connection.
Proof. apply (receive_response_ends alloc_ok append_ok 1 false receiving_connection 7 example_receivable). vm_compute. lia. Defined.

(** [:status: 200] and "x: y" cut into three frames, one of them empty. *)
Lemma fragments_as_one_witness :
  let r := process_frames alloc_ok append_ok (HEADERS 1 [0x88] (Some example_priority) false false :: continuations 1 [[]; [0; 1; 120; 1; 121]])
             (example_stream 1) example_connection in
  r = process_frame alloc_ok append_ok (HEADERS 1 [0x88; 0; 1; 120; 1; 121] None false true) (example_stream 1) example_connection
  /\ zlen (rs_responseHeaders (as_ResponseState (oc_active r))) = 1.
Proof.
  cbv zeta. split; [|by vm_compute].
  apply (fragments_as_one alloc_ok append_ok 1 (Some example_priority) false [0x88] [[]; [0; 1; 120; 1; 121]] (example_stream 1)
    example_connection); try done.
Defined.

Example validate_example :
  ValidateResponseHeaderBlock [(str ":status", str "200"); (str "content-length", str "10")] false = Ok (200, Some 10).
Proof. reflexivity. Qed.
