(* ===== verification/QpackDynamicTable.v ===== *)
(** * The QPACK dynamic table (src/wknetlib/qpack/QpackDynamicTable.cpp)

    A queue of header fields.  Names and values lie in one buffer that is
    compacted after evictions; entries have absolute indices and reference
    counts, and a referenced entry is not evicted.  The file models every
    operation on the buffer and the entry array, with the pointers into the buffer
    that lookups hand out, and shows that they implement a bounded queue of fields;
    and that an insertion whose name is such a pointer, as both sides of QPACK make
    it, can store another name when it evicts. *)

From S2P Require Import Prelude.

Definition QpackIntegerMaximum : Z := 2 ^ 62 - 1.
Definition QpackEntryOverhead : Z := 32.
Definition WKNET_HARD_MAX_QPACK_DYNAMIC_TABLE_BYTES : Z := 64 * 1024.

Record Entry := MkEntry {
  NameOffset : Z;
  NameLength : Z;
  ValueOffset : Z;
  ValueLength : Z;
  Size : Z;
  AbsoluteIndex : Z;
  ReferenceCount : Z;
}.
#[export] Instance Entry_eta : Eta Entry := fun x =>
  MkEntry (NameOffset x) (NameLength x) (ValueOffset x) (ValueLength x) (Size x) (AbsoluteIndex x)
    (ReferenceCount x).
Definition sizeof_Entry : Z := 56.

(** A pointer with a length: to bytes outside the table, or into [data_]. *)
Inductive Source :=
  | Outside (s : span)
  | Inside (offset length : Z).
Definition sr_len (s : Source) : Z := match s with Outside s => sp_len s | Inside _ length => length end.
(** What it points to, when [data_] holds [data]. *)
Definition sr_bytes (data : list Z) (s : Source) : list Z :=
  match s with Outside s => sp_bytes s | Inside offset length => zsub data offset length end.

(** The strings of a view are pointers into [data_]. *)
Record QpackDynamicEntryView := MkView { vw_Name : Source; vw_Value : Source; vw_AbsoluteIndex : Z }.

(** [qt_data] is the block [data_] points to, [qt_entries] the used prefix
    [entries_[0 .. entryCount_)]. *)
Record QpackDynamicTable := MkTable {
  qt_data : list Z;
  qt_entries : list Entry;
  qt_maximumCapacity : Z;
  qt_capacity : Z;
  qt_currentSize : Z;
  qt_dataUsed : Z;
  qt_entryCapacity : Z;
  qt_insertCount : Z;
}.
#[export] Instance QpackDynamicTable_eta : Eta QpackDynamicTable := fun x =>
  MkTable (qt_data x) (qt_entries x) (qt_maximumCapacity x) (qt_capacity x) (qt_currentSize x)
    (qt_dataUsed x) (qt_entryCapacity x) (qt_insertCount x).

Definition table_default : QpackDynamicTable := MkTable [] [] 0 0 0 0 0 0.

Definition entryCount (t : QpackDynamicTable) : Z := zlen (qt_entries t).

Definition AdditionOverflows (left right : Z) : bool := left >? MAXU64 -! right.

(** [RtlCompareMemory(left, right, length) == length] *)
Definition BytesEqual (left right : list Z) : bool := bool_decide (left = right).

(** ** Construction *)

Definition Reset (t : QpackDynamicTable) : QpackDynamicTable := table_default.

(** [data_ok] and [entries_ok]: the two allocations succeed; a fresh block is [contents]. *)
Definition Initialize (maximumCapacity initialCapacity : Z) (contents : list Z) (data_ok entries_ok : bool)
    (t : QpackDynamicTable) : NTSTATUS * QpackDynamicTable :=
  let t := Reset t in
  if (maximumCapacity >? WKNET_HARD_MAX_QPACK_DYNAMIC_TABLE_BYTES) || (initialCapacity >? maximumCapacity)
  then (STATUS_INVALID_PARAMETER, t)
  else
    let t := t <| qt_maximumCapacity := maximumCapacity |> <| qt_capacity := initialCapacity |> in
    if maximumCapacity =? 0 then (STATUS_SUCCESS, t)
    else if negb data_ok then (STATUS_INSUFFICIENT_RESOURCES, Reset t)
    else
      let t := t <| qt_data := contents |> in
      let n := maximumCapacity / QpackEntryOverhead in
      let n := if n =? 0 then 1 else n in
      let t := t <| qt_entryCapacity := n |> in
      if n >? MAXU64 / sizeof_Entry then (STATUS_INTEGER_OVERFLOW, Reset t)
      else if negb entries_ok then (STATUS_INSUFFICIENT_RESOURCES, Reset t)
      else (STATUS_SUCCESS, t).

(** ** Eviction *)

Fixpoint validate_eviction (targetSize simulatedSize : Z) (entries : list Entry) : NTSTATUS :=
  if simulatedSize >? targetSize then
    match entries with
    | [] => if simulatedSize <=? targetSize then STATUS_SUCCESS else STATUS_INSUFFICIENT_RESOURCES
    | e :: entries =>
        if negb (ReferenceCount e =? 0) then STATUS_DEVICE_BUSY
        else validate_eviction targetSize (simulatedSize -! Size e) entries
    end
  else if simulatedSize <=? targetSize then STATUS_SUCCESS else STATUS_INSUFFICIENT_RESOURCES.

Definition ValidateEviction (targetSize : Z) (t : QpackDynamicTable) : NTSTATUS :=
  validate_eviction targetSize (qt_currentSize t) (qt_entries t).

Definition EvictOldest (t : QpackDynamicTable) : QpackDynamicTable :=
  match qt_entries t with
  | [] => t
  | oldest :: rest =>
      let t := t <| qt_currentSize := qt_currentSize t -! Size oldest |> in
      let length := NameLength oldest +! ValueLength oldest in
      let t := if negb (length =? 0)
               then t <| qt_data := mem_copy (qt_data t) (NameOffset oldest)
                                      (replicate (Z.to_nat length) 0) |>
               else t in
      t <| qt_entries := rest |>
  end.

(** [while (currentSize_ > targetSize && entryCount_ != 0) EvictOldest();] the loop
    runs at most once per entry. *)
Fixpoint evict_loop (count : nat) (targetSize : Z) (t : QpackDynamicTable) : QpackDynamicTable :=
  match count with
  | O => t
  | S count =>
      if (qt_currentSize t >? targetSize) && negb (entryCount t =? 0)
      then evict_loop count targetSize (EvictOldest t) else t
  end.
Definition EvictUntil (targetSize : Z) (t : QpackDynamicTable) : QpackDynamicTable :=
  evict_loop (length (qt_entries t)) targetSize t.

(** The loop of [CompactData]: the buffer, the final [writeOffset], the entries. *)
Fixpoint compact_loop (data : list Z) (writeOffset : Z) (entries : list Entry)
    : list Z * Z * list Entry :=
  match entries with
  | [] => (data, writeOffset, [])
  | e :: entries =>
      let length := NameLength e +! ValueLength e in
      let data := if negb (length =? 0) && negb (NameOffset e =? writeOffset)
                  then mem_copy data writeOffset (zsub data (NameOffset e) length) else data in
      let e := e <| NameOffset := writeOffset |> in
      let writeOffset := writeOffset +! NameLength e in
      let e := e <| ValueOffset := writeOffset |> in
      let writeOffset := writeOffset +! ValueLength e in
      let '(data, writeOffset, entries) := compact_loop data writeOffset entries in
      (data, writeOffset, e :: entries)
  end.
Definition CompactData (t : QpackDynamicTable) : QpackDynamicTable :=
  let '(data, writeOffset, entries) := compact_loop (qt_data t) 0 (qt_entries t) in
  let data := if qt_dataUsed t >? writeOffset
              then mem_copy data writeOffset (replicate (Z.to_nat (qt_dataUsed t -! writeOffset)) 0)
              else data in
  t <| qt_data := data |> <| qt_entries := entries |> <| qt_dataUsed := writeOffset |>.

Definition SetCapacity (capacity : Z) (t : QpackDynamicTable) : NTSTATUS * QpackDynamicTable :=
  if capacity >? qt_maximumCapacity t then (STATUS_INVALID_PARAMETER, t)
  else
    let validationStatus := ValidateEviction capacity t in
    if negb (NT_SUCCESS validationStatus) then (validationStatus, t)
    else (STATUS_SUCCESS, (CompactData (EvictUntil capacity t)) <| qt_capacity := capacity |>).

(** ** Lookup *)

Fixpoint FindEntry (absoluteIndex : Z) (entries : list Entry) : option Entry :=
  match entries with
  | [] => None
  | e :: entries => if AbsoluteIndex e =? absoluteIndex then Some e else FindEntry absoluteIndex entries
  end.

Definition entry_name (data : list Z) (e : Entry) : list Z := zsub data (NameOffset e) (NameLength e).
Definition entry_value (data : list Z) (e : Entry) : list Z := zsub data (ValueOffset e) (ValueLength e).

Definition LookupAbsolute (absoluteIndex : Z) (t : QpackDynamicTable) : Result QpackDynamicEntryView :=
  match FindEntry absoluteIndex (qt_entries t) with
  | None => Err STATUS_NOT_FOUND
  | Some e => Ok (MkView (Inside (NameOffset e) (NameLength e)) (Inside (ValueOffset e) (ValueLength e)) (AbsoluteIndex e))
  end.

Definition LookupRelative (base relativeIndex : Z) (t : QpackDynamicTable) : Result QpackDynamicEntryView :=
  if (base =? 0) || (relativeIndex >=? base) then Err STATUS_NOT_FOUND
  else LookupAbsolute (base -! relativeIndex -! 1) t.

Definition LookupPostBase (base postBaseIndex : Z) (t : QpackDynamicTable) : Result QpackDynamicEntryView :=
  if base >? QpackIntegerMaximum -! postBaseIndex then Err STATUS_INTEGER_OVERFLOW
  else LookupAbsolute (base +! postBaseIndex) t.

(** The loops that search from the newest entry to the oldest. *)
Definition find_last (p : Entry -> bool) (entries : list Entry) : option Entry :=
  List.find p (rev entries).

Definition bad_pointer (s : span) : bool := sp_isnull s && negb (sp_len s =? 0).
Definition bad_source (s : Source) : bool := match s with Outside s => bad_pointer s | Inside _ _ => false end.

Definition FindExact (name value : span) (t : QpackDynamicTable) : Result Z :=
  if bad_pointer name || bad_pointer value then Err STATUS_INVALID_PARAMETER
  else
    match find_last (fun e =>
            (NameLength e =? sp_len name) && (ValueLength e =? sp_len value)
            && BytesEqual (entry_name (qt_data t) e) (sp_bytes name)
            && BytesEqual (entry_value (qt_data t) e) (sp_bytes value)) (qt_entries t) with
    | Some e => Ok (AbsoluteIndex e)
    | None => Err STATUS_NOT_FOUND
    end.

Definition FindName (name : span) (t : QpackDynamicTable) : Result Z :=
  if bad_pointer name then Err STATUS_INVALID_PARAMETER
  else
    match find_last (fun e =>
            (NameLength e =? sp_len name) && BytesEqual (entry_name (qt_data t) e) (sp_bytes name))
            (qt_entries t) with
    | Some e => Ok (AbsoluteIndex e)
    | None => Err STATUS_NOT_FOUND
    end.

(** ** Insertion *)

Section Insertion.
(** [RtlCopyMemory] of ranges that overlap, which its documentation excludes: the
    bytes it leaves, by the contents, the destination, the source, the length and
    the position. *)
Context (overlapped : list Z -> Z -> Z -> Z -> Z -> Z).

(** What [RtlCopyMemory(data_ + destination, s, length of s)] writes. *)
Definition source_bytes (data : list Z) (destination : Z) (s : Source) : list Z :=
  match s with
  | Outside s => sp_bytes s
  | Inside offset length =>
      if (offset <? destination + length) && (destination <? offset + length)
      then map (overlapped data destination offset length) (seqZ 0 length)
      else zsub data offset length
  end.

(** The end of [Insert]: copy the strings behind the used data, append the entry. *)
Definition append_entry (name value : Source) (entrySize : Z) (t : QpackDynamicTable) : QpackDynamicTable :=
  let nameOffset := qt_dataUsed t in
  let t := if negb (sr_len name =? 0)
           then t <| qt_data := mem_copy (qt_data t) (qt_dataUsed t) (source_bytes (qt_data t) (qt_dataUsed t) name) |>
                  <| qt_dataUsed := qt_dataUsed t +! sr_len name |>
           else t in
  let valueOffset := qt_dataUsed t in
  let t := if negb (sr_len value =? 0)
           then t <| qt_data := mem_copy (qt_data t) (qt_dataUsed t) (source_bytes (qt_data t) (qt_dataUsed t) value) |>
                  <| qt_dataUsed := qt_dataUsed t +! sr_len value |>
           else t in
  let entry := MkEntry nameOffset (sr_len name) valueOffset (sr_len value) entrySize (qt_insertCount t) 0 in
  t <| qt_entries := qt_entries t ++ [entry] |>
    <| qt_insertCount := qt_insertCount t +! 1 |>
    <| qt_currentSize := qt_currentSize t +! entrySize |>.

(** Returns the absolute index, which is 0 when the call fails, and the table.  The
    strings are read where they are copied, after eviction and compaction. *)
Definition Insert (name value : Source) (t : QpackDynamicTable) : Result Z * QpackDynamicTable :=
  let nameLength := sr_len name in
  let valueLength := sr_len value in
  if bad_source name || bad_source value then (Err STATUS_INVALID_PARAMETER, t)
  else if AdditionOverflows nameLength valueLength
          || AdditionOverflows (nameLength +! valueLength) QpackEntryOverhead
  then (Err STATUS_INTEGER_OVERFLOW, t)
  else
    let entrySize := nameLength +! valueLength +! QpackEntryOverhead in
    if (entrySize >? qt_capacity t) || (qt_insertCount t =? QpackIntegerMaximum)
    then (Err STATUS_INSUFFICIENT_RESOURCES, t)
    else
      let targetSize := qt_capacity t -! entrySize in
      let validationStatus := ValidateEviction targetSize t in
      if negb (NT_SUCCESS validationStatus) then (Err validationStatus, t)
      else
        let t := CompactData (EvictUntil targetSize t) in
        if entryCount t >=? qt_entryCapacity t then (Err STATUS_INSUFFICIENT_RESOURCES, t)
        else
          let dataLength := nameLength +! valueLength in
          if (qt_dataUsed t >? qt_maximumCapacity t)
             || (dataLength >? qt_maximumCapacity t -! qt_dataUsed t)
          then (Err STATUS_INSUFFICIENT_RESOURCES, t)
          else (Ok (qt_insertCount t), append_entry name value entrySize t).

(** [allocated]: the copy of the source could be allocated. *)
Definition DuplicateRelative (relativeIndex : Z) (allocated : bool) (t : QpackDynamicTable)
    : Result Z * QpackDynamicTable :=
  match LookupRelative (qt_insertCount t) relativeIndex t with
  | Err s => (Err s, t)
  | Ok source =>
      let nameLength := sr_len (vw_Name source) in
      let valueLength := sr_len (vw_Value source) in
      if nameLength >? MAXU64 -! valueLength then (Err STATUS_INTEGER_OVERFLOW, t)
      else if nameLength +! valueLength =? 0 then Insert (Outside (Null 0)) (Outside (Null 0)) t
      else if negb allocated then (Err STATUS_INSUFFICIENT_RESOURCES, t)
      else Insert (Outside (Bytes (sr_bytes (qt_data t) (vw_Name source))))
             (Outside (Bytes (sr_bytes (qt_data t) (vw_Value source)))) t
  end.

(** The two calls that the decoder makes for the instruction Insert With Name
    Reference to a dynamic entry (QpackDecoder.cpp), and the encoder when it writes
    one; the decoding of the value, which comes between them and does not touch the
    table, is left out. *)
Definition InsertWithNameReference (relativeIndex : Z) (value : span) (t : QpackDynamicTable)
    : Result Z * QpackDynamicTable :=
  match LookupRelative (qt_insertCount t) relativeIndex t with
  | Err s => (Err s, t)
  | Ok entry => Insert (vw_Name entry) (Outside value) t
  end.
End Insertion.

(** ** References *)

(** Change the entry [FindEntry] points to. *)
Fixpoint update_entry (absoluteIndex : Z) (f : Entry -> Entry) (entries : list Entry) : list Entry :=
  match entries with
  | [] => []
  | e :: entries => if AbsoluteIndex e =? absoluteIndex then f e :: entries
                    else e :: update_entry absoluteIndex f entries
  end.

Definition AddReference (absoluteIndex : Z) (t : QpackDynamicTable) : NTSTATUS * QpackDynamicTable :=
  match FindEntry absoluteIndex (qt_entries t) with
  | None => (STATUS_NOT_FOUND, t)
  | Some entry =>
      if ReferenceCount entry =? MAXU32 then (STATUS_INTEGER_OVERFLOW, t)
      else (STATUS_SUCCESS,
            t <| qt_entries := update_entry absoluteIndex
                   (fun e => e <| ReferenceCount := u32 (ReferenceCount e + 1) |>) (qt_entries t) |>)
  end.

Definition ReleaseReference (absoluteIndex : Z) (t : QpackDynamicTable) : NTSTATUS * QpackDynamicTable :=
  match FindEntry absoluteIndex (qt_entries t) with
  | None => (STATUS_NOT_FOUND, t)
  | Some entry =>
      if ReferenceCount entry =? 0 then (STATUS_INVALID_PARAMETER, t)
      else (STATUS_SUCCESS,
            t <| qt_entries := update_entry absoluteIndex
                   (fun e => e <| ReferenceCount := u32 (ReferenceCount e - 1) |>) (qt_entries t) |>)
  end.

(** ** The specification: a bounded queue of fields *)

Record QpackField := MkField { fd_name : list Z; fd_value : list Z; fd_index : Z; fd_refs : Z }.

Definition field_size (f : QpackField) : Z := zlen (fd_name f) + zlen (fd_value f) + QpackEntryOverhead.
Fixpoint table_size (l : list QpackField) : Z :=
  match l with [] => 0 | f :: l => field_size f + table_size l end.

(** Drop the oldest fields until the rest fits; a referenced one may not go. *)
Fixpoint shed (targetSize : Z) (l : list QpackField) : Result (list QpackField) :=
  if table_size l <=? targetSize then Ok l
  else match l with
       | [] => Err STATUS_INSUFFICIENT_RESOURCES
       | f :: l => if fd_refs f =? 0 then shed targetSize l else Err STATUS_DEVICE_BUSY
       end.

Definition spec_insert (name value : list Z) (capacity insertCount : Z) (l : list QpackField)
    : Result (list QpackField) :=
  let size := zlen name + zlen value + QpackEntryOverhead in
  if (size >? capacity) || (insertCount =? QpackIntegerMaximum) then Err STATUS_INSUFFICIENT_RESOURCES
  else rest ← shed (capacity - size) l; Ok (rest ++ [MkField name value insertCount 0]).

(** ** What the buffer and the entries represent *)

Definition field_at (data : list Z) (e : Entry) : QpackField :=
  MkField (entry_name data e) (entry_value data e) (AbsoluteIndex e) (ReferenceCount e).
Definition fields (t : QpackDynamicTable) : list QpackField := map (field_at (qt_data t)) (qt_entries t).

(** The data of the entries lies in order, between [lo] and [hi]. *)
Fixpoint layout (lo : Z) (entries : list Entry) (hi : Z) : Prop :=
  match entries with
  | [] => lo <= hi
  | e :: entries =>
      lo <= NameOffset e /\ 0 <= NameLength e /\ 0 <= ValueLength e
      /\ ValueOffset e = NameOffset e + NameLength e
      /\ layout (ValueOffset e + ValueLength e) entries hi
  end.
(** The same without gaps. *)
Fixpoint packed (lo : Z) (entries : list Entry) (hi : Z) : Prop :=
  match entries with
  | [] => lo = hi
  | e :: entries =>
      lo = NameOffset e /\ 0 <= NameLength e /\ 0 <= ValueLength e
      /\ ValueOffset e = NameOffset e + NameLength e
      /\ packed (ValueOffset e + ValueLength e) entries hi
  end.
(** Consecutive absolute indices. *)
Fixpoint indexed (first : Z) (entries : list Entry) (next : Z) : Prop :=
  match entries with
  | [] => first = next
  | e :: entries => AbsoluteIndex e = first /\ indexed (first + 1) entries next
  end.
Definition entry_ok (e : Entry) : Prop :=
  Size e = NameLength e + ValueLength e + QpackEntryOverhead /\ 0 <= ReferenceCount e < 2 ^ 32.

Record table_ok (t : QpackDynamicTable) : Prop := {
  tk_capacity : 0 <= qt_capacity t <= qt_maximumCapacity t;
  tk_maximum : qt_maximumCapacity t <= WKNET_HARD_MAX_QPACK_DYNAMIC_TABLE_BYTES;
  tk_data : zlen (qt_data t) = qt_maximumCapacity t;
  tk_used : 0 <= qt_dataUsed t <= qt_maximumCapacity t;
  tk_layout : layout 0 (qt_entries t) (qt_dataUsed t);
  tk_entries : Forall entry_ok (qt_entries t);
  tk_size : qt_currentSize t = table_size (fields t) /\ qt_currentSize t <= qt_capacity t;
  tk_indices : exists first, 0 <= first /\ indexed first (qt_entries t) (qt_insertCount t);
  tk_insertCount : qt_insertCount t <= QpackIntegerMaximum;
  tk_entryCapacity : qt_maximumCapacity t <= qt_entryCapacity t * QpackEntryOverhead + 31;
}.

(** ** Layouts *)

Lemma layout_weaken lo lo' entries hi hi' :
  layout lo entries hi -> lo' <= lo -> hi <= hi' -> layout lo' entries hi'.
Proof.
  revert lo lo'. induction entries as [|e l IH]; intros lo lo'; cbn; [lia|].
  intros (? & ? & ? & ? & ?) ? ?. split_and!; try done; [lia|]. by eapply IH; [| |].
Qed.
Lemma layout_le lo entries hi : layout lo entries hi -> lo <= hi.
Proof.
  revert lo. induction entries as [|e l IH]; intros lo; cbn; [done|]. intros (? & ? & ? & ? & H).
  apply IH in H. lia.
Qed.
Lemma packed_layout lo entries hi : packed lo entries hi -> layout lo entries hi.
Proof.
  revert lo. induction entries as [|e l IH]; intros lo; cbn; [lia|]. intros (? & ? & ? & ? & H).
  split_and!; try done; [lia|]. by apply IH.
Qed.
Lemma layout_app lo a b hi :
  layout lo (a ++ b) hi <-> exists mid, layout lo a mid /\ layout mid b hi.
Proof.
  revert lo. induction a as [|e a IH]; intros lo; cbn.
  - split; [intros; exists lo; split; [lia|done]|]. intros (mid & ? & ?). by eapply layout_weaken.
  - rewrite IH. naive_solver.
Qed.
Lemma indexed_next first entries next : indexed first entries next -> next = first + zlen entries.
Proof.
  revert first. induction entries as [|e es IH]; intros first; cbn [indexed].
  - intros <-. unfold zlen. cbn. lia.
  - intros [_ H]. apply IH in H. rewrite zlen_cons. lia.
Qed.
Lemma indexed_app first a b next :
  indexed first (a ++ b) next <-> indexed first a (first + zlen a) /\ indexed (first + zlen a) b next.
Proof.
  revert first. induction a as [|e a IH]; intros first; cbn [app indexed].
  - rewrite zlen_nil, Z.add_0_r. naive_solver.
  - rewrite IH, zlen_cons. replace (first + (1 + zlen a)) with (first + 1 + zlen a) by lia. tauto.
Qed.

(** A change of the buffer below or above its data leaves an entry alone. *)
Lemma field_at_copy data k src e :
  0 <= k -> k + zlen src <= zlen data -> 0 <= NameOffset e -> 0 <= NameLength e -> 0 <= ValueLength e ->
  ValueOffset e = NameOffset e + NameLength e -> ValueOffset e + ValueLength e <= zlen data ->
  ValueOffset e + ValueLength e <= k \/ k + zlen src <= NameOffset e ->
  field_at (mem_copy data k src) e = field_at data e.
Proof.
  intros. unfold field_at, entry_name, entry_value.
  by rewrite !zsub_mem_copy_out by lia.
Qed.
Lemma fields_copy_below data k src lo entries hi :
  0 <= k -> layout lo entries hi -> k + zlen src <= lo -> hi <= zlen data ->
  map (field_at (mem_copy data k src)) entries = map (field_at data) entries.
Proof.
  intros Hk. revert lo. induction entries as [|e l IH]; intros lo; [done|].
  intros (? & ? & ? & Hv & Hl) Hs Hd. pose proof (layout_le _ _ _ Hl). cbn. pose proof (zlen_nonneg src).
  rewrite field_at_copy by lia. f_equal. eapply IH; [exact Hl|lia|done].
Qed.
Lemma fields_copy_above data k src lo entries hi :
  0 <= lo -> layout lo entries hi -> hi <= k -> k + zlen src <= zlen data ->
  map (field_at (mem_copy data k src)) entries = map (field_at data) entries.
Proof.
  intros Hlo Hl Hk Hd. revert lo Hlo Hl. induction entries as [|e l IH]; intros lo Hlo; [done|].
  intros (? & ? & ? & Hv & Hl). pose proof (layout_le _ _ _ Hl). cbn. pose proof (zlen_nonneg src).
  rewrite field_at_copy by lia. f_equal. eapply (IH (ValueOffset e + ValueLength e)); [lia|done].
Qed.
Lemma field_size_at data e lo hi :
  0 <= lo -> layout lo [e] hi -> hi <= zlen data -> entry_ok e -> field_size (field_at data e) = Size e.
Proof.
  intros Hlo (? & ? & ? & ? & ?) Hd [Hs _]. cbn in *. unfold field_size, field_at, entry_name, entry_value. cbn.
  rewrite !zlen_zsub by lia. lia.
Qed.

(** ** Eviction *)

Lemma table_size_nonneg l : 0 <= table_size l.
Proof.
  induction l as [|f l IH]; cbn; [lia|]. unfold field_size, QpackEntryOverhead.
  pose proof (zlen_nonneg (fd_name f)). pose proof (zlen_nonneg (fd_value f)). lia.
Qed.
Lemma field_size_pos f : QpackEntryOverhead <= field_size f.
Proof.
  unfold field_size. pose proof (zlen_nonneg (fd_name f)). pose proof (zlen_nonneg (fd_value f)). lia.
Qed.
Lemma table_size_app l k : table_size (l ++ k) = table_size l + table_size k.
Proof. induction l as [|f l IH]; cbn; [done|]. lia. Qed.

Lemma validate_eviction_spec target data lo entries hi :
  0 <= lo -> layout lo entries hi -> hi <= zlen data -> Forall entry_ok entries ->
  table_size (map (field_at data) entries) < 2 ^ 64 ->
  validate_eviction target (table_size (map (field_at data) entries)) entries
  = status_of (shed target (map (field_at data) entries)).
Proof.
  intros Hlo Hl Hd He. revert lo Hlo Hl. induction He as [|e es Hok He IH]; intros lo Hlo Hl Hb.
  { cbn. rewrite Z.gtb_ltb. destruct (Z.ltb_spec target 0), (Z.leb_spec 0 target); done || lia. }
  cbn [map validate_eviction shed]. rewrite Z.gtb_ltb, Z.ltb_antisym.
  destruct (table_size (field_at data e :: map (field_at data) es) <=? target); [done|]. cbn [negb].
  change (fd_refs (field_at data e)) with (ReferenceCount e).
  destruct (ReferenceCount e =? 0); [|done]. cbn [negb].
  pose proof Hl as Hl'. destruct Hl as (? & ? & ? & ? & Hl).
  assert (Hs : field_size (field_at data e) = Size e).
  { apply (field_size_at data e lo hi); [done| |done|done]. cbn. pose proof (layout_le _ _ _ Hl). by split_and!. }
  cbn [map table_size] in Hb |- *. rewrite Hs in *. pose proof (table_size_nonneg (map (field_at data) es)).
  pose proof (field_size_pos (field_at data e)). unfold QpackEntryOverhead in *.
  replace (Size e + table_size (map (field_at data) es) -! Size e) with (table_size (map (field_at data) es))
    by (symmetry; rewrite u64_id; lia).
  eapply (IH (ValueOffset e + ValueLength e)); [lia|done|lia].
Qed.

Lemma ValidateEviction_spec target t :
  table_ok t -> ValidateEviction target t = status_of (shed target (fields t)).
Proof.
  intros [Hc Hm Hd Hu Hl He [Hs Hsc] Hi Hic Hec]. unfold ValidateEviction. rewrite Hs.
  unfold WKNET_HARD_MAX_QPACK_DYNAMIC_TABLE_BYTES in *.
  eapply validate_eviction_spec; [|exact Hl| | |]; try done; [lia|]. fold (fields t). lia.
Qed.

(** What eviction and compaction leave alone. *)
Definition same_shape (t t' : QpackDynamicTable) : Prop :=
  qt_maximumCapacity t' = qt_maximumCapacity t /\ qt_capacity t' = qt_capacity t
  /\ qt_entryCapacity t' = qt_entryCapacity t /\ qt_insertCount t' = qt_insertCount t.

Lemma same_shape_trans t1 t2 t3 : same_shape t1 t2 -> same_shape t2 t3 -> same_shape t1 t3.
Proof. unfold same_shape. intros (? & ? & ? & ?) (? & ? & ? & ?). split_and!; congruence. Qed.

Lemma evict_oldest_ok t :
  table_ok t -> qt_entries t <> [] ->
  table_ok (EvictOldest t) /\ fields (EvictOldest t) = tail (fields t) /\ same_shape t (EvictOldest t)
  /\ qt_entries (EvictOldest t) = tail (qt_entries t).
Proof.
  intros [Hc Hm Hd Hu Hl He [Hs Hsc] (first & Hf & Hi) Hic Hec] Hne. unfold EvictOldest.
  unfold fields in Hs |- *. destruct (qt_entries t) as [|e es]; [done|].
  apply Forall_cons in He as [Hok He]. pose proof Hl as Hlay. destruct Hl as (Ho & Hn & Hv & Hvo & Hl).
  pose proof (layout_le _ _ _ Hl) as Hle. cbn [map table_size tail] in *.
  assert (Hse : field_size (field_at (qt_data t) e) = Size e).
  { eapply (field_size_at _ e 0 (qt_dataUsed t)); [done| |lia|done]. by split_and!. }
  rewrite Hse in Hs. pose proof (table_size_nonneg (map (field_at (qt_data t)) es)).
  pose proof (field_size_pos (field_at (qt_data t) e)).
  unfold QpackEntryOverhead, WKNET_HARD_MAX_QPACK_DYNAMIC_TABLE_BYTES in *.
  rewrite (u64_id (NameLength e + ValueLength e)) by lia.
  set (data' := if negb (NameLength e + ValueLength e =? 0) then
      mem_copy (qt_data t) (NameOffset e) (replicate (Z.to_nat (NameLength e + ValueLength e)) 0)
    else qt_data t).
  assert (Hlen : zlen data' = zlen (qt_data t)).
  { unfold data'. case_if; [|done]. apply zlen_mem_copy; [lia|]. rewrite zlen_replicate. lia. }
  assert (Hfields : map (field_at data') es = map (field_at (qt_data t)) es).
  { unfold data'. case_if; [|done]. eapply fields_copy_below; [lia|exact Hl| |lia].
    rewrite zlen_replicate. lia. }
  assert (Ht : forall t', qt_data t' = data' -> qt_entries t' = es -> same_shape t t' ->
    qt_currentSize t' = qt_currentSize t - Size e -> qt_dataUsed t' = qt_dataUsed t -> table_ok t').
  { intros t' E1 E2 (E3 & E4 & E5 & E6) E7 E8. destruct Hi as [_ Hi].
    constructor; unfold fields; rewrite ?E1, ?E2, ?E3, ?E4, ?E5, ?E6, ?E7, ?E8; try done; try lia.
    - eapply layout_weaken; [exact Hl|lia|lia].
    - rewrite Hfields. lia.
    - exists (first + 1). split; [lia|done]. }
  rewrite Hs in *. replace (Size e + table_size (map (field_at (qt_data t)) es) -! Size e)
    with (Size e + table_size (map (field_at (qt_data t)) es) - Size e) by (symmetry; apply u64_id; lia).
  unfold data' in *. case_if; (split; [apply Ht; done|split; [exact Hfields|done]]).
Qed.

Lemma evict_loop_ok n target t l :
  table_ok t -> length (qt_entries t) = n -> shed target (fields t) = Ok l ->
  table_ok (evict_loop n target t) /\ fields (evict_loop n target t) = l
  /\ same_shape t (evict_loop n target t).
Proof.
  revert t l. induction n as [|n IH]; intros t l Ht Hn Hs.
  { cbn. split_and!; try done. unfold fields in *. destruct (qt_entries t); [|done]. cbn in *.
    case_if_in Hs; [by injection Hs|done]. }
  cbn [evict_loop]. pose proof Ht as [_ _ _ _ _ _ [Hsz _] _ _ _].
  destruct (qt_entries t) as [|e es] eqn:He; [done|]. unfold entryCount. rewrite He.
  replace (zlen (e :: es) =? 0) with false.
  2: { symmetry. apply Z.eqb_neq. rewrite zlen_cons. pose proof (zlen_nonneg es). lia. }
  cbn [negb]. rewrite andb_true_r, Z.gtb_ltb, Z.ltb_antisym, Hsz.
  destruct (evict_oldest_ok t Ht) as (Ht' & Hf & Hsh & Hes); [by rewrite He|].
  unfold fields in Hs at 1. rewrite He in Hs. cbn [map shed] in Hs.
  change (field_at (qt_data t) e :: map (field_at (qt_data t)) es) with (map (field_at (qt_data t)) (e :: es)) in Hs.
  rewrite <- He in Hs. fold (fields t) in Hs.
  destruct (table_size (fields t) <=? target).
  { injection Hs as <-. by split_and!. }
  cbn [negb]. case_if_in Hs; [|done].
  destruct (IH (EvictOldest t) l) as (H1 & H2 & H3); [done|rewrite Hes, He; cbn in *; lia| |].
  { rewrite Hf. unfold fields. rewrite He. exact Hs. }
  split_and!; try done. by eapply same_shape_trans.
Qed.

(** ** Compaction *)

(** The data of one entry moved down to [w]. *)
Definition moved (data : list Z) (w : Z) (e : Entry) : list Z :=
  let length := NameLength e +! ValueLength e in
  if negb (length =? 0) && negb (NameOffset e =? w)
  then mem_copy data w (zsub data (NameOffset e) length) else data.
Definition moved_entry (w : Z) (e : Entry) : Entry :=
  e <| NameOffset := w |> <| ValueOffset := w +! NameLength e |>.

Lemma moved_spec data w e hi :
  0 <= w -> layout w [e] hi -> hi <= zlen data -> hi < 2 ^ 64 ->
  zlen (moved data w e) = zlen data
  /\ field_at (moved data w e) (moved_entry w e) = field_at data e
  /\ (forall off n, 0 <= off -> 0 <= n -> off + n <= zlen data ->
        off + n <= w \/ ValueOffset e + ValueLength e <= off -> zsub (moved data w e) off n = zsub data off n).
Proof.
  intros Hw (Ho & Hn & Hv & Hvo & Hhi) Hd Hb. cbn in Hhi. unfold moved, moved_entry.
  rewrite (u64_id (NameLength e + ValueLength e)), (u64_id (w + NameLength e)) by lia.
  assert (Hlen : zlen (zsub data (NameOffset e) (NameLength e + ValueLength e)) = NameLength e + ValueLength e)
    by (apply zlen_zsub; lia).
  case_if.
  - split_and!.
    + apply zlen_mem_copy; lia.
    + unfold field_at, entry_name, entry_value. cbn [NameOffset NameLength ValueOffset ValueLength set_field AbsoluteIndex ReferenceCount].
      f_equal.
      * rewrite <- (Z.add_0_r w) at 2. rewrite zsub_mem_copy_in, zsub_zsub by lia. by rewrite Z.add_0_r.
      * rewrite zsub_mem_copy_in, zsub_zsub by lia. by rewrite Hvo.
    + intros off n Hoff Hnn Hb2 Hout. apply zsub_mem_copy_out; lia.
  - split_and!; [done| |done]. unfold field_at, entry_name, entry_value.
    cbn [NameOffset NameLength ValueOffset ValueLength set_field AbsoluteIndex ReferenceCount].
    apply andb_false_iff in Heqb as [Hz|Hz]; bool_prop.
    + assert (NameLength e = 0) as -> by lia. assert (ValueLength e = 0) as -> by lia. done.
    + by rewrite Hvo, Hz.
Qed.

(** The data of later entries, below the move. *)
Lemma fields_moved data w e entries hi :
  0 <= w -> layout w (e :: entries) hi -> hi <= zlen data -> hi < 2 ^ 64 ->
  map (field_at (moved data w e)) entries = map (field_at data) entries.
Proof.
  intros Hw (Ho & Hn & Hv & Hvo & Hl) Hd Hb. pose proof (layout_le _ _ _ Hl).
  unfold moved. rewrite (u64_id (NameLength e + ValueLength e)) by lia. case_if; [|done].
  eapply fields_copy_below; [lia|exact Hl| |lia]. rewrite zlen_zsub by lia. lia.
Qed.

Lemma compact_loop_spec data w entries hi :
  0 <= w -> layout w entries hi -> hi <= zlen data -> hi < 2 ^ 64 ->
  let '(data', w', entries') := compact_loop data w entries in
  zlen data' = zlen data /\ packed w entries' w' /\ w' <= hi
  /\ map (field_at data') entries' = map (field_at data) entries
  /\ (Forall entry_ok entries -> Forall entry_ok entries')
  /\ (forall first next, indexed first entries next -> indexed first entries' next)
  /\ (forall off n, 0 <= off -> 0 <= n -> off + n <= w -> zsub data' off n = zsub data off n).
Proof.
  revert data w. induction entries as [|e es IH]; intros data w Hw Hl Hd Hb.
  { cbn in *. split_and!; done. }
  cbn [compact_loop]. fold (moved data w e).
  pose proof Hl as Hlay. destruct Hl as (Ho & Hn & Hv & Hvo & Hl). pose proof (layout_le _ _ _ Hl) as Hle.
  destruct (moved_spec data w e (ValueOffset e + ValueLength e)) as (Hlen & Hfe & Hout);
    [done|cbn; by split_and!|lia|lia|].
  pose proof (fields_moved data w e es hi Hw Hlay Hd Hb) as Hfs.
  cbn [NameLength ValueLength set_field].
  rewrite (u64_id (w + NameLength e)), (u64_id (w + NameLength e + ValueLength e)) by lia.
  set (w1 := w + NameLength e + ValueLength e).
  specialize (IH (moved data w e) w1 ltac:(unfold w1; lia)).
  assert (Hl1 : layout w1 es hi) by (eapply layout_weaken; [exact Hl|unfold w1; lia|lia]).
  specialize (IH Hl1 ltac:(lia) Hb). destruct (compact_loop (moved data w e) w1 es) as [[data' w'] es'].
  destruct IH as (I1 & I2 & I3 & I4 & I5 & I6 & I7).
  assert (Hme : moved_entry w e = (e <| NameOffset := w |> <| ValueOffset := w + NameLength e |>)).
  { unfold moved_entry. by rewrite u64_id by lia. }
  change (set_field ValueOffset _ _) with (e <| NameOffset := w |> <| ValueOffset := w + NameLength e |>).
  rewrite <- Hme. refine (conj _ (conj _ (conj I3 (conj _ (conj _ (conj _ _)))))).
  - by rewrite I1.
  - rewrite Hme. cbn [packed NameOffset NameLength ValueOffset ValueLength set_field]. split_and!; try done; lia.
  - cbn [map]. rewrite I4, Hfs. f_equal. rewrite <- Hfe. unfold field_at, entry_name, entry_value.
    rewrite Hme. cbn [NameOffset NameLength ValueOffset ValueLength set_field].
    by rewrite !I7 by (unfold w1; lia).
  - intros [Hok Hoks]%Forall_cons. constructor; [by rewrite Hme|by apply I5].
  - intros first next [H1 H2]. split; [exact H1|by apply I6].
  - intros off n Hoff Hnn Hlt. rewrite I7 by (unfold w1; lia). apply Hout; lia.
Qed.

Lemma compact_ok t :
  table_ok t ->
  table_ok (CompactData t) /\ fields (CompactData t) = fields t /\ same_shape t (CompactData t)
  /\ packed 0 (qt_entries (CompactData t)) (qt_dataUsed (CompactData t)).
Proof.
  intros [Hc Hm Hd Hu Hl He [Hs Hsc] (first & Hf & Hi) Hic Hec]. unfold CompactData.
  unfold WKNET_HARD_MAX_QPACK_DYNAMIC_TABLE_BYTES in *.
  pose proof (compact_loop_spec (qt_data t) 0 (qt_entries t) (qt_dataUsed t) ltac:(lia) Hl ltac:(lia) ltac:(lia)) as Hspec.
  destruct (compact_loop (qt_data t) 0 (qt_entries t)) as [[data w] es].
  destruct Hspec as (H1 & H2 & H3 & H4 & H5 & H6 & _). pose proof (packed_layout _ _ _ H2) as H2'.
  pose proof (layout_le _ _ _ H2') as Hw.
  set (data' := if qt_dataUsed t >? w then mem_copy data w (replicate (Z.to_nat (qt_dataUsed t -! w)) 0) else data).
  assert (Hdata : zlen data' = zlen data /\ map (field_at data') es = map (field_at data) es).
  { unfold data'. case_if; [|done]. bool_prop. rewrite u64_id by lia. split.
    - apply zlen_mem_copy; [lia|]. rewrite zlen_replicate. lia.
    - eapply (fields_copy_above data w _ 0 es w); [lia|done|lia|]. rewrite zlen_replicate. lia. }
  destruct Hdata as [D1 D2]. cbn [fields qt_data qt_entries set_field qt_dataUsed].
  assert (Hfields : map (field_at data') es = fields t) by (by rewrite D2, H4).
  split; [|by split_and!]. constructor; unfold fields; cbn [qt_capacity qt_maximumCapacity qt_data qt_dataUsed qt_entries qt_currentSize qt_insertCount qt_entryCapacity set_field]; try done; try lia.
  - by apply H5.
  - rewrite Hfields. done.
  - exists first. split; [done|by apply H6].
Qed.

(** Eviction down to a size, then compaction. *)
Lemma evict_compact_ok target t l :
  table_ok t -> shed target (fields t) = Ok l ->
  let t' := CompactData (EvictUntil target t) in
  table_ok t' /\ fields t' = l /\ same_shape t t' /\ packed 0 (qt_entries t') (qt_dataUsed t').
Proof.
  intros Ht Hs t'. destruct (evict_loop_ok (length (qt_entries t)) target t l) as (H1 & H2 & H3); try done.
  destruct (compact_ok _ H1) as (H4 & H5 & H6 & H7). split_and!; try done.
  - unfold t'. etransitivity; [exact H5|done].
  - by eapply same_shape_trans.
Qed.

Lemma shed_error target l s : shed target l = Err s -> NT_SUCCESS s = false.
Proof. induction l as [|f l IH]; cbn; repeat case_if; try done; by intros [= <-]. Qed.
Lemma shed_size target l l' : shed target l = Ok l' -> table_size l' <= target.
Proof.
  induction l as [|f l IH]; cbn; [case_if; [by intros [= <-]; cbn; bool_lia|done]|].
  case_if; [intros [= <-]; cbn; bool_lia|]. case_if; [done|done].
Qed.

(** What the data of packed entries takes. *)
Lemma packed_size data lo entries hi :
  0 <= lo -> packed lo entries hi -> hi <= zlen data ->
  table_size (map (field_at data) entries) = hi - lo + zlen entries * QpackEntryOverhead.
Proof.
  revert lo. induction entries as [|e es IH]; intros lo Hlo.
  { cbn [packed]. intros <- _. unfold zlen. cbn. lia. }
  intros (-> & Hn & Hv & Hvo & Hp) Hd. pose proof (layout_le _ _ _ (packed_layout _ _ _ Hp)).
  cbn [map table_size]. rewrite (IH (ValueOffset e + ValueLength e)) by (done || lia).
  rewrite zlen_cons. unfold field_size, field_at, entry_name, entry_value. cbn [fd_name fd_value].
  rewrite !zlen_zsub by lia. unfold QpackEntryOverhead. lia.
Qed.

(** The strings of the fields, one after the other: what packed entries hold. *)
Definition strings (l : list QpackField) : list Z := concat (map (fun f => fd_name f ++ fd_value f) l).
Lemma strings_app l k : strings (l ++ k) = strings l ++ strings k.
Proof. unfold strings. by rewrite map_app, concat_app. Qed.
Lemma zsub_split {A} (l : list A) off n m : 0 <= off -> 0 <= n -> 0 <= m -> off + n + m <= zlen l ->
  zsub l off (n + m) = zsub l off n ++ zsub l (off + n) m.
Proof.
  intros. unfold zsub, ztake, zdrop. rewrite !Z2Nat.inj_add by lia. by rewrite <- drop_drop, take_take_drop.
Qed.
Lemma packed_strings data lo entries hi :
  0 <= lo -> packed lo entries hi -> hi <= zlen data -> zsub data lo (hi - lo) = strings (map (field_at data) entries).
Proof.
  revert lo. induction entries as [|e es IH]; intros lo Hlo.
  { cbn [packed]. intros <- _. by rewrite Z.sub_diag. }
  intros (-> & Hn & Hv & Hvo & Hp) Hd. pose proof (layout_le _ _ _ (packed_layout _ _ _ Hp)).
  change (strings (map (field_at data) (e :: es))) with ((entry_name data e ++ entry_value data e) ++ strings (map (field_at data) es)).
  rewrite <- (IH (ValueOffset e + ValueLength e)) by (done || lia). unfold entry_name, entry_value. rewrite Hvo in *.
  rewrite <- zsub_split by lia. rewrite <- (Z.add_assoc (NameOffset e)), <- zsub_split by lia. f_equal. lia.
Qed.
(** Where the strings of a packed entry begin. *)
Lemma packed_offset data lo es e es' hi :
  0 <= lo -> packed lo (es ++ e :: es') hi -> hi <= zlen data ->
  NameOffset e = lo + zlen (strings (map (field_at data) es)) /\ 0 <= NameLength e /\ 0 <= ValueLength e
  /\ ValueOffset e = NameOffset e + NameLength e /\ ValueOffset e + ValueLength e <= hi.
Proof.
  revert lo. induction es as [|x es IH]; intros lo Hlo; cbn [app packed].
  - intros (-> & Hn & Hv & Hvo & Hp) Hd. pose proof (layout_le _ _ _ (packed_layout _ _ _ Hp)). change (zlen (strings (map _ []))) with 0. lia.
  - intros (-> & Hn & Hv & Hvo & Hp) Hd. pose proof (layout_le _ _ _ (packed_layout _ _ _ Hp)).
    destruct (IH (ValueOffset x + ValueLength x) ltac:(lia) Hp Hd) as (E & H1 & H2 & H3 & H4). split_and!; try done.
    change (strings (map (field_at data) (x :: es))) with ((entry_name data x ++ entry_value data x) ++ strings (map (field_at data) es)).
    unfold entry_name, entry_value. rewrite !zlen_app, !zlen_zsub by lia. lia.
Qed.
Lemma packed_app lo a b hi : packed lo (a ++ b) hi <-> exists mid, packed lo a mid /\ packed mid b hi.
Proof.
  revert lo. induction a as [|e a IH]; intros lo; cbn.
  - split; [intros; by exists lo|by intros (mid & <- & ?)].
  - rewrite IH. naive_solver.
Qed.

Lemma mem_copy_nil data k : mem_copy data k [] = data.
Proof. unfold mem_copy. rewrite zlen_nil, Z.add_0_r. cbn. apply ztake_zdrop. Qed.

(** The two copies of [Insert], and the entry that points to them. *)
Lemma append_field data used name value size index :
  0 <= used -> used + zlen name + zlen value <= zlen data ->
  let data' := mem_copy (mem_copy data used name) (used + zlen name) value in
  zlen data' = zlen data
  /\ field_at data' (MkEntry used (zlen name) (used + zlen name) (zlen value) size index 0)
     = MkField name value index 0
  /\ (forall entries, layout 0 entries used -> map (field_at data') entries = map (field_at data) entries).
Proof.
  intros Hu Hb data'. pose proof (zlen_nonneg name). pose proof (zlen_nonneg value).
  assert (H1 : zlen (mem_copy data used name) = zlen data) by (apply zlen_mem_copy; lia).
  split_and!.
  - unfold data'. rewrite zlen_mem_copy; lia.
  - unfold field_at, entry_name, entry_value. cbn. f_equal; unfold data'.
    + rewrite zsub_mem_copy_out by lia. rewrite <- (Z.add_0_r used) at 2. rewrite zsub_mem_copy_in by lia.
      unfold zsub. by apply ztake_all.
    + rewrite <- (Z.add_0_r (used + zlen name)) at 2. rewrite zsub_mem_copy_in by lia.
      unfold zsub. by apply ztake_all.
  - intros entries Hl. unfold data'.
    rewrite (fields_copy_above _ _ _ 0 entries used) by (done || lia).
    by rewrite (fields_copy_above _ _ _ 0 entries used) by (done || lia).
Qed.

(** An insertion that the specification allows, from the point where the room is made. *)
Lemma insert_room t (name value : list Z) :
  table_ok t -> packed 0 (qt_entries t) (qt_dataUsed t) ->
  let size := zlen name + zlen value + QpackEntryOverhead in
  table_size (fields t) <= qt_capacity t - size ->
  entryCount t < qt_entryCapacity t
  /\ qt_dataUsed t + zlen name + zlen value <= qt_maximumCapacity t.
Proof.
  intros [Hc Hm Hd Hu Hl He [Hs Hsc] Hi Hic Hec] Hp size Hsize. unfold fields in Hsize.
  rewrite (packed_size _ 0 _ (qt_dataUsed t)) in Hsize by (done || lia).
  pose proof (zlen_nonneg name). pose proof (zlen_nonneg value). pose proof (zlen_nonneg (qt_entries t)).
  unfold entryCount, size, QpackEntryOverhead in *. lia.
Qed.

Definition string_ok (s : span) : Prop := bad_pointer s = false /\ 0 <= sp_len s.

Lemma string_bytes s : string_ok s -> zlen (sp_bytes s) = sp_len s.
Proof.
  destruct s as [n|l]; [|done]. unfold string_ok, bad_pointer. cbn. intros [H _]. bool_prop. by subst.
Qed.

(** The pointer of a source leads into the buffer. *)
Definition source_ok (size : Z) (s : Source) : Prop :=
  match s with
  | Outside s => string_ok s
  | Inside offset length => 0 <= offset /\ 0 <= length /\ offset + length <= size
  end.
Lemma source_length overlapped data destination s :
  source_ok (zlen data) s -> zlen (source_bytes overlapped data destination s) = sr_len s /\ 0 <= sr_len s /\ bad_source s = false.
Proof.
  destruct s as [s|offset length]; cbn [source_ok source_bytes sr_len bad_source].
  - intros Hs. split; [by apply string_bytes|]. by destruct Hs.
  - intros (? & ? & ?). split; [|done]. case_if; [|by apply zlen_zsub]. unfold zlen. rewrite length_map, length_seqZ. lia.
Qed.

Lemma copy_of_source overlapped (s : Source) (t : QpackDynamicTable) :
  source_ok (zlen (qt_data t)) s -> 0 <= qt_dataUsed t -> qt_dataUsed t + sr_len s < 2 ^ 64 ->
  (if negb (sr_len s =? 0)
   then t <| qt_data := mem_copy (qt_data t) (qt_dataUsed t) (source_bytes overlapped (qt_data t) (qt_dataUsed t) s) |>
          <| qt_dataUsed := qt_dataUsed t +! sr_len s |>
   else t)
  = t <| qt_data := mem_copy (qt_data t) (qt_dataUsed t) (source_bytes overlapped (qt_data t) (qt_dataUsed t) s) |>
      <| qt_dataUsed := qt_dataUsed t + sr_len s |>.
Proof.
  intros Hs Hu Hb. destruct (source_length overlapped _ (qt_dataUsed t) s Hs) as (Hl & Hp & _). rewrite u64_id by lia.
  case_if; [done|]. bool_prop. rewrite Heqb in *.
  destruct (source_bytes overlapped (qt_data t) (qt_dataUsed t) s) as [|x l]; [|rewrite zlen_cons in Hl; pose proof (zlen_nonneg l); lia].
  rewrite mem_copy_nil, Z.add_0_r. by destruct t.
Qed.

Lemma append_entry_ok overlapped name value t :
  let size := sr_len name + sp_len value + QpackEntryOverhead in
  table_ok t -> source_ok (zlen (qt_data t)) name -> string_ok value -> qt_insertCount t < QpackIntegerMaximum ->
  qt_currentSize t + size <= qt_capacity t ->
  qt_dataUsed t + sr_len name + sp_len value <= qt_maximumCapacity t ->
  let t' := append_entry overlapped name (Outside value) size t in
  table_ok t'
  /\ fields t' = fields t ++ [MkField (source_bytes overlapped (qt_data t) (qt_dataUsed t) name) (sp_bytes value) (qt_insertCount t) 0]
  /\ qt_insertCount t' = qt_insertCount t + 1 /\ qt_capacity t' = qt_capacity t
  /\ qt_maximumCapacity t' = qt_maximumCapacity t
  /\ (packed 0 (qt_entries t) (qt_dataUsed t) -> packed 0 (qt_entries t') (qt_dataUsed t')).
Proof.
  intros size [Hc Hm Hd Hu Hl He [Hs Hsc] (first & Hf & Hi) Hic Hec] Hn Hv Hcount Hsize Hdata.
  destruct (source_length overlapped _ (qt_dataUsed t) name Hn) as (Ln & Pn & _). pose proof (string_bytes value Hv) as Lv.
  pose proof Hv as [_ Pv]. pose proof (table_size_nonneg (fields t)).
  unfold QpackIntegerMaximum, WKNET_HARD_MAX_QPACK_DYNAMIC_TABLE_BYTES, QpackEntryOverhead in *.
  unfold append_entry. rewrite (copy_of_source overlapped name t) by (done || lia). cbn zeta.
  rewrite copy_of_source; [|exact Hv|cbn; lia|cbn; lia]. cbn [source_bytes sr_len].
  set (nm := source_bytes overlapped (qt_data t) (qt_dataUsed t) name) in *. clearbody nm.
  destruct (append_field (qt_data t) (qt_dataUsed t) nm (sp_bytes value) size (qt_insertCount t))
    as (D1 & D2 & D3); [lia|lia|]. rewrite Ln, Lv in *. pose proof (zlen_nonneg (qt_entries t)).
  assert (Hfirst : qt_insertCount t = first + zlen (qt_entries t)) by (by eapply indexed_next).
  cbn [qt_data qt_entries qt_maximumCapacity qt_capacity qt_currentSize qt_dataUsed qt_entryCapacity qt_insertCount set_field].
  set (data' := mem_copy (mem_copy _ _ _) _ _) in *.
  rewrite (u64_id (qt_insertCount t + 1)), (u64_id (qt_currentSize t + size)) by (unfold size in *; lia).
  assert (Hfields : map (field_at data') (qt_entries t ++ [MkEntry (qt_dataUsed t) (sr_len name)
      (qt_dataUsed t + sr_len name) (sp_len value) size (qt_insertCount t) 0])
    = fields t ++ [MkField nm (sp_bytes value) (qt_insertCount t) 0]).
  { rewrite map_app, D3 by done. cbn [map]. by rewrite D2. }
  clearbody data'. split; [|refine (conj Hfields (conj eq_refl (conj eq_refl (conj eq_refl _))))].
  - constructor; unfold fields; cbn [qt_data qt_entries qt_maximumCapacity qt_capacity qt_currentSize qt_dataUsed qt_entryCapacity qt_insertCount set_field];
      try done; try (unfold QpackIntegerMaximum; lia).
    + apply layout_app. exists (qt_dataUsed t). split; [done|]. cbn. split_and!; lia.
    + apply Forall_app. split; [done|]. constructor; [|constructor]. split; [done|cbn; lia].
    + rewrite Hfields, table_size_app. cbn [table_size]. unfold field_size. cbn [fd_name fd_value].
      rewrite Ln, Lv. unfold size, QpackEntryOverhead in *. lia.
    + exists first. split; [done|]. apply indexed_app. cbn. rewrite <- Hfirst. done.
  - intros Hp. apply packed_app. exists (qt_dataUsed t). split; [done|]. cbn. split_and!; lia.
Qed.

(** The table after the eviction that an insertion makes. *)
Definition room (target : Z) (t : QpackDynamicTable) : QpackDynamicTable := CompactData (EvictUntil target t).

(** An insertion, whatever the name points to: the guards, the room, the new field. *)
Lemma insert_source_spec overlapped name value t :
  table_ok t -> source_ok (zlen (qt_data t)) name -> string_ok value -> sr_len name + sp_len value + QpackEntryOverhead < 2 ^ 64 ->
  let size := sr_len name + sp_len value + QpackEntryOverhead in
  let '(r, t') := Insert overlapped name (Outside value) t in
  match (if (size >? qt_capacity t) || (qt_insertCount t =? QpackIntegerMaximum) then Err STATUS_INSUFFICIENT_RESOURCES
         else shed (qt_capacity t - size) (fields t)) with
  | Err s => r = Err s /\ t' = t
  | Ok kept => let t1 := room (qt_capacity t - size) t in
            r = Ok (qt_insertCount t) /\ table_ok t'
            /\ fields t' = kept ++ [MkField (source_bytes overlapped (qt_data t1) (qt_dataUsed t1) name) (sp_bytes value) (qt_insertCount t) 0]
            /\ qt_insertCount t' = qt_insertCount t + 1 /\ qt_capacity t' = qt_capacity t
            /\ qt_maximumCapacity t' = qt_maximumCapacity t /\ packed 0 (qt_entries t') (qt_dataUsed t')
  end.
Proof.
  intros Ht Hn Hv Hfit. pose proof Ht as [Hc Hm Hdl _ _ _ [Hs Hsc] _ Hic _].
  destruct (source_length overlapped _ (qt_dataUsed t) name Hn) as (_ & Pn & Bn). pose proof (string_bytes value Hv) as Lv.
  pose proof Hv as [Bv Pv]. cbv zeta.
  unfold Insert. rewrite Bn. cbn [bad_source sr_len]. rewrite Bv. cbn [orb].
  unfold AdditionOverflows, QpackEntryOverhead, WKNET_HARD_MAX_QPACK_DYNAMIC_TABLE_BYTES, QpackIntegerMaximum in *.
  rewrite (u64_id (MAXU64 - sp_len value)), (u64_id (sr_len name + sp_len value)), (u64_id (MAXU64 - 32)),
    (u64_id (sr_len name + sp_len value + 32)) by (unfold MAXU64; lia).
  unfold MAXU64. guard_false. cbn zeta.
  destruct ((_ >? qt_capacity t) || _) eqn:Hcap; [done|]. bool_prop.
  rewrite (u64_id (qt_capacity t - _)) by lia. rewrite ValidateEviction_spec by done.
  destruct (shed _ (fields t)) as [l|s] eqn:Hshed; cycle 1.
  { assert (NT_SUCCESS s = false) as E; [|cbn; by rewrite E]. eapply shed_error, Hshed. }
  cbn [status_of NT_SUCCESS negb].
  destruct (evict_compact_ok _ _ _ Ht Hshed) as (Ht1 & Hf1 & (Sm & Sc & Se & Si) & Hp1). cbn zeta in *. fold (room (qt_capacity t - (sr_len name + sp_len value + 32)) t) in *.
  set (t1 := room _ t) in *. clearbody t1. apply shed_size in Hshed. rewrite <- Hf1 in Hshed.
  pose proof Ht1 as [Hc1 Hm1 Hd1 Hu1 Hl1 He1 [Hs1 Hsc1] (first & Hfi & Hi1) Hic1 Hec1].
  assert (Hn1 : source_ok (zlen (qt_data t1)) name) by (by rewrite Hd1, Sm, <- Hdl).
  destruct (source_length overlapped _ (qt_dataUsed t1) name Hn1) as (Ln & _ & _).
  destruct (insert_room t1 (source_bytes overlapped (qt_data t1) (qt_dataUsed t1) name) (sp_bytes value) Ht1 Hp1) as [Hroom Hdata].
  { rewrite Ln, Lv, Sc. unfold QpackEntryOverhead. lia. }
  rewrite Ln, Lv in Hdata.
  rewrite Z.geb_leb. replace (qt_entryCapacity t1 <=? entryCount t1) with false by (symmetry; apply Z.leb_gt; lia).
  rewrite (u64_id (qt_maximumCapacity t1 - qt_dataUsed t1)) by lia. guard_false.
  rewrite <- Si. unfold QpackEntryOverhead in *.
  destruct (append_entry_ok overlapped name value t1) as (R1 & R2 & R3 & R4 & R5 & R6); try done; try (unfold QpackIntegerMaximum, QpackEntryOverhead; lia).
  rewrite Hf1, Si in *. unfold QpackEntryOverhead in *. split_and!; try congruence; auto.
Qed.

(** The strings come from outside the table. *)
Lemma insert_spec overlapped name value t :
  table_ok t -> string_ok name -> string_ok value -> sp_len name + sp_len value + QpackEntryOverhead < 2 ^ 64 ->
  let '(r, t') := Insert overlapped (Outside name) (Outside value) t in
  match spec_insert (sp_bytes name) (sp_bytes value) (qt_capacity t) (qt_insertCount t) (fields t) with
  | Err s => r = Err s /\ t' = t
  | Ok l => r = Ok (qt_insertCount t) /\ table_ok t' /\ fields t' = l
            /\ qt_insertCount t' = qt_insertCount t + 1 /\ qt_capacity t' = qt_capacity t
            /\ qt_maximumCapacity t' = qt_maximumCapacity t /\ packed 0 (qt_entries t') (qt_dataUsed t')
  end.
Proof.
  intros Ht Hn Hv Hfit. pose proof (insert_source_spec overlapped (Outside name) value t Ht Hn Hv Hfit) as H. cbv zeta in H.
  unfold spec_insert. rewrite (string_bytes name Hn), (string_bytes value Hv). cbn [sr_len source_bytes] in H.
  destruct (Insert overlapped (Outside name) (Outside value) t) as [r t'].
  case_if; [exact H|]. destruct (shed _ (fields t)); exact H.
Qed.

(** ** Lookup *)

Definition find_field (index : Z) (l : list QpackField) : option QpackField :=
  List.find (fun f => fd_index f =? index) l.
(** The strings of a view, as long as the table does not change. *)
Definition view_field (data : list Z) (v : QpackDynamicEntryView) : list Z * list Z * Z :=
  (sr_bytes data (vw_Name v), sr_bytes data (vw_Value v), vw_AbsoluteIndex v).
Definition view_of (f : QpackField) : list Z * list Z * Z := (fd_name f, fd_value f, fd_index f).
Definition read (t : QpackDynamicTable) (r : Result QpackDynamicEntryView) : Result (list Z * list Z * Z) :=
  v ← r; Ok (view_field (qt_data t) v).

Lemma find_entry_field data index entries :
  find_field index (map (field_at data) entries) = option_map (field_at data) (FindEntry index entries).
Proof.
  unfold find_field. induction entries as [|e es IH]; [done|]. cbn. by destruct (AbsoluteIndex e =? index).
Qed.
Lemma read_Ok t r : is_Ok (read t r) = is_Ok r.
Proof. by destruct r. Qed.
Lemma LookupAbsolute_spec index t :
  read t (LookupAbsolute index t)
  = match find_field index (fields t) with Some f => Ok (view_of f) | None => Err STATUS_NOT_FOUND end.
Proof. unfold LookupAbsolute, fields. rewrite find_entry_field. by destruct (FindEntry _ _). Qed.

(** Field [k] of the queue has index [first + k]. *)
Lemma indexed_lookup data first entries next f index :
  indexed first entries next ->
  find_field index (map (field_at data) entries) = Some f <->
  (first <= index /\ map (field_at data) entries !! Z.to_nat (index - first) = Some f).
Proof.
  unfold find_field. revert first. induction entries as [|e es IH]; intros first; cbn [indexed map List.find].
  { intros _. rewrite lookup_nil. naive_solver. }
  intros [He H]. cbn [field_at fd_index]. rewrite He. destruct (first =? index) eqn:E; bool_prop.
  - subst index. rewrite Z.sub_diag. cbn. split; [intros E; split; [lia|done]|by intros [_ ?]].
  - rewrite (IH _ H). split; intros [Hle Hf].
    + split; [lia|]. replace (Z.to_nat (index - first)) with (S (Z.to_nat (index - (first + 1)))) by lia. done.
    + assert (first < index) by lia. split; [lia|].
      by replace (Z.to_nat (index - first)) with (S (Z.to_nat (index - (first + 1)))) in Hf by lia.
Qed.

Lemma find_field_self t f :
  table_ok t -> List.In f (fields t) -> find_field (fd_index f) (fields t) = Some f.
Proof.
  intros Ht Hin. destruct (tk_indices t Ht) as (first & Hf & Hi). unfold fields in *.
  apply (indexed_lookup _ first _ (qt_insertCount t)); [done|].
  apply list_elem_of_In, list_elem_of_lookup in Hin as [k Hk].
  assert (E : fd_index f = first + Z.of_nat k).
  { clear -Hi Hk. revert first k Hi Hk. induction (qt_entries t) as [|e es IH]; intros first k Hi Hk; [done|].
    destruct Hi as [He Hi], k as [|k]; cbn in Hk; [injection Hk as <-; cbn; lia|].
    rewrite (IH (first + 1) k) by done. lia. }
  split; [lia|]. rewrite E. by replace (Z.to_nat (first + Z.of_nat k - first)) with k by lia.
Qed.
Lemma find_field_in index l f : find_field index l = Some f -> List.In f l /\ fd_index f = index.
Proof. intros H. apply List.find_some in H as [? ?]. split; [done|bool_lia]. Qed.

(** ** Capacity, duplication, references *)

Lemma set_capacity_spec capacity t :
  table_ok t -> 0 <= capacity ->
  let '(s, t') := SetCapacity capacity t in
  match (if capacity >? qt_maximumCapacity t then Err STATUS_INVALID_PARAMETER
         else shed capacity (fields t)) with
  | Err s' => s = s' /\ t' = t
  | Ok l => s = STATUS_SUCCESS /\ table_ok t' /\ fields t' = l /\ qt_capacity t' = capacity
            /\ qt_insertCount t' = qt_insertCount t /\ qt_maximumCapacity t' = qt_maximumCapacity t
            /\ packed 0 (qt_entries t') (qt_dataUsed t')
  end.
Proof.
  intros Ht Hcap. unfold SetCapacity. case_if; [done|]. bool_prop. rewrite ValidateEviction_spec by done.
  destruct (shed capacity (fields t)) as [l|s] eqn:Hs.
  - cbn [status_of NT_SUCCESS negb]. destruct (evict_compact_ok _ _ _ Ht Hs) as (H1 & H2 & (H3 & H4 & H5 & H6) & H7).
    cbn zeta in *. set (t1 := CompactData _) in *. clearbody t1. apply shed_size in Hs.
    split_and!; try done. destruct H1 as [K1 K2 K3 K4 K5 K6 [K7 K8] K9 K10 K11].
    constructor; try done; cbn [qt_capacity qt_maximumCapacity set_field]; try lia.
    split; [done|]. cbn. rewrite K7, H2. done.
  - pose proof (shed_error _ _ _ Hs) as E. cbn. by rewrite E.
Qed.

Lemma field_lengths t f :
  table_ok t -> List.In f (fields t) -> zlen (fd_name f) + zlen (fd_value f) <= 64 * 1024.
Proof.
  intros [Hc Hm _ _ _ _ [Hs Hsc] _ _ _] Hin. unfold WKNET_HARD_MAX_QPACK_DYNAMIC_TABLE_BYTES in *.
  apply list_elem_of_In, list_elem_of_split in Hin as (a & b & E). rewrite E, table_size_app in Hs.
  cbn [table_size] in Hs. pose proof (table_size_nonneg a). pose proof (table_size_nonneg b).
  unfold field_size, QpackEntryOverhead in Hs. lia.
Qed.

Lemma find_entry_in index entries e : FindEntry index entries = Some e -> List.In e entries.
Proof.
  induction entries as [|x es IH]; cbn; [done|]. case_if; [intros [= <-]; by left|]. intros H. right. by apply IH.
Qed.
Lemma entry_lengths t e : table_ok t -> List.In e (qt_entries t) ->
  zlen (fd_name (field_at (qt_data t) e)) = NameLength e /\ zlen (fd_value (field_at (qt_data t) e)) = ValueLength e
  /\ 0 <= NameLength e /\ 0 <= ValueLength e.
Proof.
  intros [_ _ Hd Hu Hl _ _ _ _ _] Hin. apply List.in_split in Hin as (a & b & E). rewrite E in Hl.
  apply layout_app in Hl as (mid & Ha & Ho & Hn & Hv & Hvo & Hb). apply layout_le in Ha, Hb.
  unfold field_at, entry_name, entry_value. cbn [fd_name fd_value]. rewrite !zlen_zsub by lia. done.
Qed.

Lemma string_ok_bytes l : string_ok (Bytes l).
Proof. split; [done|]. apply zlen_nonneg. Qed.

(** Relative index [r] is the field inserted [r + 1] insertions ago. *)
Lemma relative_spec relativeIndex t :
  table_ok t -> 0 <= relativeIndex ->
  LookupRelative (qt_insertCount t) relativeIndex t
  = match FindEntry (qt_insertCount t - 1 - relativeIndex) (qt_entries t) with
    | Some e => Ok (MkView (Inside (NameOffset e) (NameLength e)) (Inside (ValueOffset e) (ValueLength e)) (AbsoluteIndex e))
    | None => Err STATUS_NOT_FOUND end.
Proof.
  intros Ht Hr. pose proof Ht as [_ _ _ _ _ _ _ (first & Hf & Hi) Hic _]. pose proof (indexed_next _ _ _ Hi).
  pose proof (zlen_nonneg (qt_entries t)). unfold LookupRelative, QpackIntegerMaximum in *. case_if.
  - replace (FindEntry _ _) with (@None Entry); [done|]. symmetry.
    destruct (FindEntry _ _) as [e|] eqn:E; [|done].
    assert (Ef : find_field (qt_insertCount t - 1 - relativeIndex) (fields t) = Some (field_at (qt_data t) e))
      by (unfold fields; by rewrite find_entry_field, E).
    apply (indexed_lookup _ first _ _ _ _ Hi) in Ef as [? _].
    apply orb_true_iff in Heqb as [?|?]; bool_prop; lia.
  - bool_prop. rewrite (u64_id (qt_insertCount t - relativeIndex)), u64_id by lia.
    unfold LookupAbsolute. by replace (qt_insertCount t - relativeIndex - 1) with (qt_insertCount t - 1 - relativeIndex) by lia.
Qed.

Definition spec_duplicate (relativeIndex : Z) (allocated : bool) (capacity insertCount : Z)
    (l : list QpackField) : Result (list QpackField) :=
  match find_field (insertCount - 1 - relativeIndex) l with
  | None => Err STATUS_NOT_FOUND
  | Some f => if negb allocated && negb (zlen (fd_name f) + zlen (fd_value f) =? 0)
              then Err STATUS_INSUFFICIENT_RESOURCES
              else spec_insert (fd_name f) (fd_value f) capacity insertCount l
  end.

Lemma duplicate_spec overlapped relativeIndex allocated t :
  table_ok t -> 0 <= relativeIndex ->
  let '(r, t') := DuplicateRelative overlapped relativeIndex allocated t in
  match spec_duplicate relativeIndex allocated (qt_capacity t) (qt_insertCount t) (fields t) with
  | Err s => r = Err s /\ t' = t
  | Ok l => r = Ok (qt_insertCount t) /\ table_ok t' /\ fields t' = l
            /\ qt_insertCount t' = qt_insertCount t + 1 /\ qt_capacity t' = qt_capacity t
            /\ qt_maximumCapacity t' = qt_maximumCapacity t /\ packed 0 (qt_entries t') (qt_dataUsed t')
  end.
Proof.
  intros Ht Hr. unfold DuplicateRelative, spec_duplicate. rewrite relative_spec by done. unfold fields at 1. rewrite find_entry_field.
  destruct (FindEntry _ (qt_entries t)) as [e|] eqn:He; [|done]. cbn [option_map].
  assert (Hf : find_field (qt_insertCount t - 1 - relativeIndex) (fields t) = Some (field_at (qt_data t) e))
    by (unfold fields; by rewrite find_entry_field, He).
  apply find_field_in in Hf as [Hin _]. pose proof (field_lengths t _ Ht Hin) as Hl.
  destruct (entry_lengths t e Ht) as (Ln & Lv & Pn & Pv). { by apply find_entry_in in He. }
  cbn [vw_Name vw_Value sr_len sr_bytes]. change (zsub (qt_data t) (NameOffset e) (NameLength e)) with (fd_name (field_at (qt_data t) e)).
  change (zsub (qt_data t) (ValueOffset e) (ValueLength e)) with (fd_value (field_at (qt_data t) e)).
  set (f := field_at (qt_data t) e) in *. rewrite Ln, Lv in *.
  rewrite (u64_id (MAXU64 - _)), u64_id by (unfold MAXU64; lia).
  unfold MAXU64. guard_false. destruct (_ =? 0) eqn:Hz.
  - bool_prop. cbn [negb]. rewrite andb_false_r. assert (fd_name f = [] /\ fd_value f = []) as [-> ->].
    { split; [destruct (fd_name f)|destruct (fd_value f)]; try done; rewrite zlen_cons in *;
        pose proof (zlen_nonneg l); lia. }
    by apply (insert_spec overlapped (Null 0) (Null 0)).
  - cbn [negb]. rewrite andb_true_r. destruct allocated; [|done]. cbn [negb].
    apply (insert_spec overlapped (Bytes (fd_name f)) (Bytes (fd_value f))); [done|apply string_ok_bytes..|].
    cbn [sp_len]. rewrite Ln, Lv. unfold QpackEntryOverhead. lia.
Qed.

(** The reference count of one field changes. *)
Definition change_refs (index : Z) (g : Z -> Z) (l : list QpackField) : list QpackField :=
  map (fun f => if fd_index f =? index then MkField (fd_name f) (fd_value f) (fd_index f) (g (fd_refs f)) else f) l.

Lemma change_refs_absent index g data entries first next :
  indexed first entries next -> index < first ->
  change_refs index g (map (field_at data) entries) = map (field_at data) entries.
Proof.
  revert first. induction entries as [|e es IH]; intros first; [done|]. intros [He Hi] Hlt.
  cbn. rewrite He. replace (first =? index) with false by (symmetry; apply Z.eqb_neq; lia).
  f_equal. eapply IH; [exact Hi|lia].
Qed.

Lemma update_entry_spec index g data entries first next :
  indexed first entries next ->
  let f e := e <| ReferenceCount := g (ReferenceCount e) |> in
  map (field_at data) (update_entry index f entries) = change_refs index g (map (field_at data) entries)
  /\ indexed first (update_entry index f entries) next
  /\ (forall lo hi, layout lo entries hi -> layout lo (update_entry index f entries) hi)
  /\ length (update_entry index f entries) = length entries.
Proof.
  intros Hi f. revert first Hi. induction entries as [|e es IH]; intros first Hi; [done|].
  cbn [update_entry]. destruct Hi as [He Hi]. destruct (AbsoluteIndex e =? index) eqn:E; bool_prop.
  - refine (conj _ (conj (conj He Hi) (conj (fun lo hi H => H) eq_refl))).
    unfold change_refs. cbn [map field_at fd_index]. rewrite E, Z.eqb_refl.
    fold (change_refs index g (map (field_at data) es)). rewrite (change_refs_absent _ _ _ _ _ _ Hi) by lia.
    f_equal. unfold field_at. cbn. by rewrite E.
  - destruct (IH _ Hi) as (H1 & H2 & H3 & H4). split; [|split; [by split|split; [|cbn; by rewrite H4]]].
    + cbn [map]. rewrite H1. cbn. replace (AbsoluteIndex e =? index) with false by (symmetry; by apply Z.eqb_neq).
      done.
    + intros lo hi (? & ? & ? & ? & ?). cbn. split_and!; try done. by apply H3.
Qed.

Lemma change_refs_size index g l : table_size (change_refs index g l) = table_size l.
Proof. induction l as [|f l IH]; [done|]. cbn. fold (change_refs index g l). rewrite IH. by case_if. Qed.

(** A reference count that stays in range. *)
Lemma update_refs_ok index g t :
  table_ok t ->
  (forall f, List.In f (fields t) -> fd_index f = index -> 0 <= g (fd_refs f) < 2 ^ 32) ->
  let t' := t <| qt_entries := update_entry index
                   (fun e => e <| ReferenceCount := g (ReferenceCount e) |>) (qt_entries t) |> in
  table_ok t' /\ fields t' = change_refs index g (fields t).
Proof.
  intros [Hc Hm Hd Hu Hl He [Hs Hsc] (first & Hf & Hi) Hic Hec] Hg t'.
  destruct (update_entry_spec index g (qt_data t) _ _ _ Hi) as (H1 & H2 & H3 & H4). cbn zeta in *.
  split; [|exact H1]. constructor; try done.
  - by apply H3.
  - cbn. clear -He Hg. unfold fields in Hg. revert Hg. induction He as [|e es Hok He IH]; intros Hg; [constructor|].
    cbn [update_entry]. destruct (AbsoluteIndex e =? index) eqn:E; bool_prop; constructor; try done.
    + destruct Hok. split; [done|]. cbn. apply (Hg (field_at (qt_data t) e)); [by left|done].
    + apply IH. intros f Hin. apply Hg. by right.
  - unfold t', fields. cbn [qt_currentSize qt_data qt_entries qt_capacity set_field]. rewrite H1, change_refs_size. done.
  - by exists first.
Qed.

Definition spec_add_reference (index : Z) (l : list QpackField) : Result (list QpackField) :=
  match find_field index l with
  | None => Err STATUS_NOT_FOUND
  | Some f => if fd_refs f =? MAXU32 then Err STATUS_INTEGER_OVERFLOW
              else Ok (change_refs index (fun n => n + 1) l)
  end.
Definition spec_release_reference (index : Z) (l : list QpackField) : Result (list QpackField) :=
  match find_field index l with
  | None => Err STATUS_NOT_FOUND
  | Some f => if fd_refs f =? 0 then Err STATUS_INVALID_PARAMETER
              else Ok (change_refs index (fun n => n - 1) l)
  end.

Lemma field_refs t f : table_ok t -> List.In f (fields t) -> 0 <= fd_refs f < 2 ^ 32.
Proof.
  intros Ht Hin. pose proof (tk_entries t Ht) as He. unfold fields in Hin. apply List.in_map_iff in Hin as (e & <- & Hin).
  rewrite List.Forall_forall in He. by apply He.
Qed.
Lemma change_refs_ext index g h l :
  (forall f, List.In f l -> fd_index f = index -> g (fd_refs f) = h (fd_refs f)) ->
  change_refs index g l = change_refs index h l.
Proof.
  intros H. apply List.map_ext_in. intros f Hin. case_if; [|done]. bool_prop. f_equal. by apply H.
Qed.

(** Both operations: the guard, then the change. *)
Lemma reference_spec index t f g :
  table_ok t -> find_field index (fields t) = Some f -> 0 <= g (fd_refs f) < 2 ^ 32 ->
  let t' := t <| qt_entries := update_entry index
                   (fun e => e <| ReferenceCount := u32 (g (ReferenceCount e)) |>) (qt_entries t) |> in
  table_ok t' /\ fields t' = change_refs index g (fields t).
Proof.
  intros Ht Hf Hg t'.
  assert (Huniq : forall f', List.In f' (fields t) -> fd_index f' = index -> f' = f).
  { intros f' Hin E. pose proof (find_field_self t f' Ht Hin) as H. rewrite E in H. congruence. }
  destruct (update_refs_ok index (fun n => u32 (g n)) t Ht) as [H1 H2].
  { intros f' Hin E. apply u32_range. }
  split; [exact H1|]. unfold t'. rewrite H2. apply change_refs_ext.
  intros f' Hin E. rewrite (Huniq f' Hin E). by apply u32_id.
Qed.

Lemma add_reference_spec index t :
  table_ok t ->
  let '(s, t') := AddReference index t in
  match spec_add_reference index (fields t) with
  | Err s' => s = s' /\ t' = t
  | Ok l => s = STATUS_SUCCESS /\ table_ok t' /\ fields t' = l /\ same_shape t t'
  end.
Proof.
  intros Ht. unfold AddReference, spec_add_reference. unfold fields at 1. rewrite find_entry_field.
  destruct (FindEntry index (qt_entries t)) as [e|] eqn:E; [|done]. cbn [option_map].
  change (fd_refs (field_at (qt_data t) e)) with (ReferenceCount e). case_if; [done|]. bool_prop.
  assert (Hf : find_field index (fields t) = Some (field_at (qt_data t) e)).
  { unfold fields. by rewrite find_entry_field, E. }
  pose proof (field_refs t _ Ht (proj1 (find_field_in _ _ _ Hf))) as Hr. cbn in Hr. unfold MAXU32 in *.
  destruct (reference_spec index t (field_at (qt_data t) e) (fun n => n + 1) Ht Hf) as [H1 H2]; [cbn; lia|].
  by split_and!.
Qed.
Lemma release_reference_spec index t :
  table_ok t ->
  let '(s, t') := ReleaseReference index t in
  match spec_release_reference index (fields t) with
  | Err s' => s = s' /\ t' = t
  | Ok l => s = STATUS_SUCCESS /\ table_ok t' /\ fields t' = l /\ same_shape t t'
  end.
Proof.
  intros Ht. unfold ReleaseReference, spec_release_reference. unfold fields at 1. rewrite find_entry_field.
  destruct (FindEntry index (qt_entries t)) as [e|] eqn:E; [|done]. cbn [option_map].
  change (fd_refs (field_at (qt_data t) e)) with (ReferenceCount e). case_if; [done|]. bool_prop.
  assert (Hf : find_field index (fields t) = Some (field_at (qt_data t) e)).
  { unfold fields. by rewrite find_entry_field, E. }
  pose proof (field_refs t _ Ht (proj1 (find_field_in _ _ _ Hf))) as Hr. cbn in Hr.
  destruct (reference_spec index t (field_at (qt_data t) e) (fun n => n - 1) Ht Hf) as [H1 H2]; [cbn; lia|].
  by split_and!.
Qed.

(** ** Any sequence of operations *)

Inductive table_op :=
  | OpInsert (name value : span)
  | OpInsertWithNameReference (relativeIndex : Z) (value : span)
  | OpDuplicate (relativeIndex : Z) (allocated : bool)
  | OpSetCapacity (capacity : Z)
  | OpAddReference (absoluteIndex : Z)
  | OpReleaseReference (absoluteIndex : Z).

Definition table_step (overlapped : list Z -> Z -> Z -> Z -> Z -> Z) (op : table_op) (t : QpackDynamicTable)
    : NTSTATUS * QpackDynamicTable :=
  match op with
  | OpInsert name value => let (r, t') := Insert overlapped (Outside name) (Outside value) t in (status_of r, t')
  | OpInsertWithNameReference r value => let (r, t') := InsertWithNameReference overlapped r value t in (status_of r, t')
  | OpDuplicate r allocated => let (r, t') := DuplicateRelative overlapped r allocated t in (status_of r, t')
  | OpSetCapacity capacity => SetCapacity capacity t
  | OpAddReference index => AddReference index t
  | OpReleaseReference index => ReleaseReference index t
  end.

(** The arguments are what C++ values of their types can be. *)
Definition op_ok (op : table_op) : Prop :=
  match op with
  | OpInsert name value =>
      string_ok name /\ string_ok value /\ sp_len name + sp_len value + QpackEntryOverhead < 2 ^ 64
  | OpInsertWithNameReference r value =>
      0 <= r /\ string_ok value /\ 64 * 1024 + sp_len value + QpackEntryOverhead < 2 ^ 64
  | OpDuplicate r _ => 0 <= r
  | OpSetCapacity capacity => 0 <= capacity
  | _ => True
  end.

(** The operations on the queue, for a table of the given limits. *)
Definition spec_step (op : table_op) (maximum capacity insertCount : Z) (l : list QpackField)
    : Result (list QpackField) :=
  match op with
  | OpInsert name value => spec_insert (sp_bytes name) (sp_bytes value) capacity insertCount l
  | OpInsertWithNameReference r value =>
      match find_field (insertCount - 1 - r) l with
      | None => Err STATUS_NOT_FOUND
      | Some f => spec_insert (fd_name f) (sp_bytes value) capacity insertCount l
      end
  | OpDuplicate r allocated => spec_duplicate r allocated capacity insertCount l
  | OpSetCapacity c => if c >? maximum then Err STATUS_INVALID_PARAMETER else shed c l
  | OpAddReference index => spec_add_reference index l
  | OpReleaseReference index => spec_release_reference index l
  end.
Definition capacity_after (op : table_op) (capacity : Z) : Z :=
  match op with OpSetCapacity c => c | _ => capacity end.
Definition count_after (op : table_op) (insertCount : Z) : Z :=
  match op with OpInsert _ _ | OpInsertWithNameReference _ _ | OpDuplicate _ _ => insertCount + 1 | _ => insertCount end.

(** The queue [l'] after an operation that is specified to turn [before] into [l]: it
    is [l]; only the name of a field that was inserted with a name reference may be
    another one, of the same length, where fields were evicted for it. *)
Definition recorded (op : table_op) (before l l' : list QpackField) : Prop :=
  match op with
  | OpInsertWithNameReference _ _ =>
      exists kept name name' value index,
        l = kept ++ [MkField name value index 0] /\ l' = kept ++ [MkField name' value index 0]
        /\ zlen name' = zlen name /\ (kept = before -> name' = name)
  | _ => l' = l
  end.

Definition step_outcome (overlapped : list Z -> Z -> Z -> Z -> Z -> Z) (op : table_op) (t : QpackDynamicTable) : Prop :=
  let '(s, t') := table_step overlapped op t in
  match spec_step op (qt_maximumCapacity t) (qt_capacity t) (qt_insertCount t) (fields t) with
  | Err s' => s = s' /\ t' = t
  | Ok l => s = STATUS_SUCCESS /\ table_ok t' /\ recorded op (fields t) l (fields t')
            /\ qt_capacity t' = capacity_after op (qt_capacity t)
            /\ qt_insertCount t' = count_after op (qt_insertCount t)
            /\ qt_maximumCapacity t' = qt_maximumCapacity t
  end.

(** ** A name inside the table *)

Lemma evict_loop_used n target t : qt_dataUsed (evict_loop n target t) = qt_dataUsed t.
Proof.
  revert t. induction n as [|n IH]; intros t; [done|]. cbn [evict_loop]. case_if; [|done]. rewrite IH.
  unfold EvictOldest. destruct (qt_entries t); [done|]. by case_if.
Qed.
(** Compaction clears what it frees. *)
Lemma compact_cleared t : table_ok t ->
  let t1 := CompactData t in
  0 <= qt_dataUsed t1 <= qt_dataUsed t
  /\ zsub (qt_data t1) (qt_dataUsed t1) (qt_dataUsed t - qt_dataUsed t1) = replicate (Z.to_nat (qt_dataUsed t - qt_dataUsed t1)) 0.
Proof.
  intros [Hc Hm Hd Hu Hl He [Hs Hsc] _ Hic Hec]. unfold CompactData, WKNET_HARD_MAX_QPACK_DYNAMIC_TABLE_BYTES in *.
  pose proof (compact_loop_spec (qt_data t) 0 (qt_entries t) (qt_dataUsed t) ltac:(lia) Hl ltac:(lia) ltac:(lia)) as Hspec.
  destruct (compact_loop (qt_data t) 0 (qt_entries t)) as [[data w] es]. destruct Hspec as (H1 & H2 & H3 & _).
  pose proof (layout_le _ _ _ (packed_layout _ _ _ H2)) as Hw. cbn [qt_dataUsed qt_data set_field]. split; [lia|].
  case_if; bool_prop.
  - rewrite u64_id by lia. pose proof (zsub_mem_copy_in data w (replicate (Z.to_nat (qt_dataUsed t - w)) 0) 0 (qt_dataUsed t - w)) as E.
    rewrite zlen_replicate, Z.add_0_r in E. rewrite E by lia. unfold zsub. apply ztake_all. rewrite zlen_replicate. lia.
  - replace (qt_dataUsed t - w) with 0 by lia. done.
Qed.

(** The used part of the buffer once room has been made: the strings that are kept,
    then zeros up to where the old strings ended. *)
Lemma room_bytes target t kept : table_ok t -> packed 0 (qt_entries t) (qt_dataUsed t) -> shed target (fields t) = Ok kept ->
  qt_dataUsed t = zlen (strings (fields t)) /\ qt_dataUsed (room target t) = zlen (strings kept)
  /\ zlen (strings kept) <= zlen (strings (fields t))
  /\ zsub (qt_data (room target t)) 0 (zlen (strings (fields t)))
     = strings kept ++ replicate (Z.to_nat (zlen (strings (fields t)) - zlen (strings kept))) 0.
Proof.
  intros Ht Hp Hs. assert (Hlen : forall t, table_ok t -> packed 0 (qt_entries t) (qt_dataUsed t) ->
    zsub (qt_data t) 0 (qt_dataUsed t) = strings (fields t) /\ qt_dataUsed t = zlen (strings (fields t))).
  { clear. intros t [_ _ Hd Hu _ _ _ _ _ _] Hp.
    pose proof (packed_strings (qt_data t) 0 _ _ ltac:(lia) Hp ltac:(lia)) as E. rewrite Z.sub_0_r in E. split; [exact E|].
    unfold fields. rewrite <- E, zlen_zsub; lia. }
  destruct (Hlen t Ht Hp) as [_ Eu]. split; [exact Eu|].
  destruct (evict_compact_ok _ _ _ Ht Hs) as (Ht1 & Hf1 & (Sm & _) & Hp1). cbn zeta in *. fold (room target t) in *.
  destruct (Hlen _ Ht1 Hp1) as [E1 Eu1]. rewrite Hf1 in *. split; [exact Eu1|].
  destruct (evict_loop_ok (length (qt_entries t)) target t kept) as (He & _); [done..|].
  destruct (compact_cleared _ He) as [Hle Hz]. fold (EvictUntil target t) in Hz, Hle. fold (room target t) in Hz, Hle.
  unfold EvictUntil in Hz, Hle. rewrite evict_loop_used in Hz, Hle. rewrite Eu, Eu1 in Hle. split; [lia|].
  pose proof (tk_used _ Ht). pose proof (tk_data _ Ht1).
  replace (zlen (strings (fields t))) with (zlen (strings kept) + (zlen (strings (fields t)) - zlen (strings kept))) at 1 by lia.
  rewrite zsub_split by lia. rewrite <- Eu1 at 1. rewrite E1. f_equal. rewrite Z.add_0_l, <- Eu, <- Eu1. exact Hz.
Qed.

(** Where the name of a field lies. *)
Definition offset_in (before : list QpackField) : Z := zlen (strings before).
(** The bytes at the old place of a name once room has been made. *)
Definition displaced (l kept before : list QpackField) (length : Z) : list Z :=
  zsub (strings kept ++ replicate (Z.to_nat (zlen (strings l) - zlen (strings kept))) 0) (offset_in before) length.

Lemma named_entry index t e : table_ok t -> packed 0 (qt_entries t) (qt_dataUsed t) -> FindEntry index (qt_entries t) = Some e ->
  exists before after, fields t = before ++ field_at (qt_data t) e :: after /\ NameOffset e = offset_in before
  /\ 0 <= NameLength e /\ NameOffset e + NameLength e <= qt_dataUsed t /\ zlen (fd_name (field_at (qt_data t) e)) = NameLength e.
Proof.
  intros Ht Hp He%find_entry_in. destruct (entry_lengths t e Ht He) as (Ln & _). apply List.in_split in He as (a & b & E).
  pose proof (tk_used _ Ht). pose proof (tk_data _ Ht).
  exists (map (field_at (qt_data t)) a), (map (field_at (qt_data t)) b). unfold fields. rewrite E in Hp |- *.
  destruct (packed_offset (qt_data t) 0 a e b (qt_dataUsed t)) as (Ho & Pn & Pv & Ev & Hhi); [lia|done|lia|].
  rewrite map_app. split_and!; first [done | by rewrite Ho | lia].
Qed.

(** An insertion with a name reference: the guards of the specification, the fields
    that it keeps, and for the name what is at the old place of the name. *)
Lemma reference_insert_spec overlapped r value t :
  table_ok t -> packed 0 (qt_entries t) (qt_dataUsed t) -> 0 <= r -> string_ok value ->
  64 * 1024 + sp_len value + QpackEntryOverhead < 2 ^ 64 ->
  let '(result, t') := InsertWithNameReference overlapped r value t in
  match find_field (qt_insertCount t - 1 - r) (fields t) with
  | None => result = Err STATUS_NOT_FOUND /\ t' = t
  | Some f =>
      let size := zlen (fd_name f) + sp_len value + QpackEntryOverhead in
      match (if (size >? qt_capacity t) || (qt_insertCount t =? QpackIntegerMaximum) then Err STATUS_INSUFFICIENT_RESOURCES
             else shed (qt_capacity t - size) (fields t)) with
      | Err s => result = Err s /\ t' = t
      | Ok kept => exists before after name,
            fields t = before ++ f :: after
            /\ result = Ok (qt_insertCount t) /\ table_ok t'
            /\ fields t' = kept ++ [MkField name (sp_bytes value) (qt_insertCount t) 0]
            /\ qt_insertCount t' = qt_insertCount t + 1 /\ qt_capacity t' = qt_capacity t
            /\ qt_maximumCapacity t' = qt_maximumCapacity t /\ packed 0 (qt_entries t') (qt_dataUsed t')
            /\ zlen name = zlen (fd_name f)
            /\ (offset_in before + zlen name <= zlen (strings kept) \/ zlen (strings kept) + zlen name <= offset_in before ->
                name = displaced (fields t) kept before (zlen name))
      end
  end.
Proof.
  intros Ht Hp Hr Hv Hfit. unfold InsertWithNameReference. rewrite relative_spec by done. unfold fields at 1. rewrite find_entry_field.
  destruct (FindEntry _ (qt_entries t)) as [e|] eqn:He; [|done]. cbn [option_map vw_Name].
  destruct (named_entry _ t e Ht Hp He) as (before & after & E & Ho & Pn & Hhi & Ln).
  pose proof (tk_used _ Ht). pose proof (tk_data _ Ht). pose proof (tk_maximum _ Ht). unfold WKNET_HARD_MAX_QPACK_DYNAMIC_TABLE_BYTES, QpackEntryOverhead in *.
  pose proof (zlen_nonneg (strings before)) as Pb. fold (offset_in before) in Pb.
  assert (Hsrc : source_ok (zlen (qt_data t)) (Inside (NameOffset e) (NameLength e))) by (cbn; lia).
  pose proof (insert_source_spec overlapped (Inside (NameOffset e) (NameLength e)) value t Ht Hsrc Hv) as Hins. cbn [sr_len] in Hins. unfold QpackEntryOverhead in Hins.
  specialize (Hins ltac:(lia)). cbv zeta in Hins |- *. destruct (Insert overlapped _ (Outside value) t) as [res t']. rewrite Ln.
  case_if; [exact Hins|]. destruct (shed _ (fields t)) as [kept|s] eqn:Hs; [|exact Hins].
  destruct Hins as (R1 & R2 & R3 & R4 & R5 & R6 & R7). destruct (room_bytes _ _ _ Ht Hp Hs) as (Eu & Eu1 & Hle & Hz).
  destruct (evict_compact_ok _ _ _ Ht Hs) as (Ht1 & _ & (Sm & _) & _). cbn zeta in *.
  fold (room (qt_capacity t - (NameLength e + sp_len value + 32)) t) in *. pose proof (tk_data _ Ht1) as Hd1. rewrite Sm in Hd1.
  assert (Hsrc1 : source_ok (zlen (qt_data (room (qt_capacity t - (NameLength e + sp_len value + 32)) t))) (Inside (NameOffset e) (NameLength e))) by (cbn; lia).
  destruct (source_length overlapped _ (qt_dataUsed (room (qt_capacity t - (NameLength e + sp_len value + 32)) t)) _ Hsrc1) as (Hl & _). cbn [sr_len] in Hl.
  eexists before, after, _. split; [exact E|]. refine (conj R1 (conj R2 (conj R3 (conj R4 (conj R5 (conj R6 (conj R7 (conj Hl _)))))))).
  rewrite Hl. intros Hsep. unfold displaced. rewrite <- Hz, Eu1. cbn [source_bytes]. rewrite <- Ho in *.
  rewrite zsub_zsub, Z.add_0_l by lia. case_if; [|done]. bool_prop. lia.
Qed.

(** Where nothing is evicted the name is the one that was meant. *)
Lemma displaced_same before f after :
  displaced (before ++ f :: after) (before ++ f :: after) before (zlen (fd_name f)) = fd_name f.
Proof.
  unfold displaced, offset_in. rewrite Z.sub_diag. cbn [Z.to_nat replicate]. rewrite app_nil_r, strings_app.
  change (strings (f :: after)) with ((fd_name f ++ fd_value f) ++ strings after). rewrite <- app_assoc. apply zsub_at.
Qed.

Definition packed_table (t : QpackDynamicTable) : Prop := packed 0 (qt_entries t) (qt_dataUsed t).

Lemma update_packed index f lo entries hi :
  (forall e, NameOffset (f e) = NameOffset e /\ NameLength (f e) = NameLength e /\ ValueOffset (f e) = ValueOffset e /\ ValueLength (f e) = ValueLength e) ->
  packed lo entries hi -> packed lo (update_entry index f entries) hi.
Proof.
  intros Hf. revert lo. induction entries as [|e es IH]; intros lo; [done|]. intros (H1 & H2 & H3 & H4 & H5). cbn [update_entry].
  case_if; cbn [packed].
  - destruct (Hf e) as (-> & -> & -> & ->). done.
  - split_and!; try done. by apply IH.
Qed.

Lemma step_spec overlapped op t : table_ok t -> packed_table t -> op_ok op ->
  step_outcome overlapped op t /\ packed_table (snd (table_step overlapped op t)).
Proof.
  intros Ht Hp Hop. unfold step_outcome, packed_table in *.
  destruct op as [name value|r value|r allocated|c|index|index]; cbn [table_step spec_step capacity_after count_after op_ok recorded] in *.
  - destruct Hop as (? & ? & ?). pose proof (insert_spec overlapped name value t) as Hs. destruct (Insert overlapped _ _ t) as [r t'].
    specialize (Hs ltac:(done) ltac:(done) ltac:(done) ltac:(done)). cbn [snd].
    destruct (spec_insert _ _ _ _ _); [destruct Hs as (-> & ? & ? & ? & ? & ? & ?)|destruct Hs as [-> ->]]; by split_and!.
  - destruct Hop as (Hr & Hv & Hfit). pose proof (reference_insert_spec overlapped r value t Ht Hp Hr Hv Hfit) as H.
    destruct (InsertWithNameReference overlapped r value t) as [res t']. cbn [snd].
    destruct (find_field _ (fields t)) as [f|]; [|by destruct H as [-> ->]]. unfold spec_insert. rewrite (string_bytes value Hv).
    cbv zeta in H. case_if; [by destruct H as [-> ->]|]. destruct (shed _ (fields t)) as [kept|s]; cbn [mbind Result_bind]; [|by destruct H as [-> ->]].
    destruct H as (before & after & name & E & -> & R2 & R3 & R4 & R5 & R6 & R7 & Hl & Hname). split; [|exact R7].
    refine (conj eq_refl (conj R2 (conj _ (conj R5 (conj R4 R6))))). eexists kept, _, name, _, _. refine (conj eq_refl (conj R3 (conj Hl _))).
    intros ->. rewrite Hname, Hl, E; [apply displaced_same|]. left. unfold offset_in.
    rewrite Hl, E, strings_app, zlen_app. change (strings (f :: after)) with ((fd_name f ++ fd_value f) ++ strings after).
    rewrite !zlen_app. pose proof (zlen_nonneg (fd_value f)). pose proof (zlen_nonneg (strings after)). lia.
  - pose proof (duplicate_spec overlapped r allocated t Ht Hop) as H. destruct (DuplicateRelative overlapped r allocated t) as [r' t']. cbn [snd].
    destruct (spec_duplicate _ _ _ _ _); [destruct H as (-> & ? & ? & ? & ? & ? & ?)|destruct H as [-> ->]]; by split_and!.
  - pose proof (set_capacity_spec c t Ht Hop) as H. destruct (SetCapacity c t) as [s t']. cbn [snd].
    destruct (if c >? qt_maximumCapacity t then Err STATUS_INVALID_PARAMETER else shed c (fields t)); naive_solver.
  - pose proof (add_reference_spec index t Ht) as H.
    assert (Hp' : packed 0 (qt_entries (snd (AddReference index t))) (qt_dataUsed (snd (AddReference index t)))).
    { unfold AddReference. destruct (FindEntry _ _); [|done]. case_if; [done|]. by apply update_packed. }
    destruct (AddReference index t) as [s t']. cbn [snd] in *. split; [|done].
    destruct (spec_add_reference _ _); unfold same_shape in *; naive_solver.
  - pose proof (release_reference_spec index t Ht) as H.
    assert (Hp' : packed 0 (qt_entries (snd (ReleaseReference index t))) (qt_dataUsed (snd (ReleaseReference index t)))).
    { unfold ReleaseReference. destruct (FindEntry _ _); [|done]. case_if; [done|]. by apply update_packed. }
    destruct (ReleaseReference index t) as [s t']. cbn [snd] in *. split; [|done].
    destruct (spec_release_reference _ _); unfold same_shape in *; naive_solver.
Qed.

Lemma step_ok overlapped op t : table_ok t -> packed_table t -> op_ok op ->
  table_ok (snd (table_step overlapped op t)) /\ packed_table (snd (table_step overlapped op t)).
Proof.
  intros Ht Hp Hop. destruct (step_spec overlapped op t Ht Hp Hop) as [H Hp']. split; [|exact Hp']. unfold step_outcome in H.
  destruct (table_step overlapped op t) as [s t']. destruct (spec_step _ _ _ _ _); [apply H|by destruct H as [_ ->]].
Qed.

Inductive table_reachable (overlapped : list Z -> Z -> Z -> Z -> Z -> Z) : QpackDynamicTable -> Prop :=
  | tr_initialize maximumCapacity initialCapacity contents data_ok entries_ok t :
      0 <= initialCapacity -> zlen contents = maximumCapacity ->
      table_reachable overlapped (snd (Initialize maximumCapacity initialCapacity contents data_ok entries_ok t))
  | tr_reset t : table_reachable overlapped (Reset t)
  | tr_step op t : table_reachable overlapped t -> op_ok op -> table_reachable overlapped (snd (table_step overlapped op t)).

Lemma reset_ok t : table_ok (Reset t).
Proof.
  constructor; try done. exists 0. done.
Qed.

Lemma initialize_ok maximumCapacity initialCapacity contents data_ok entries_ok t :
  0 <= initialCapacity -> zlen contents = maximumCapacity ->
  table_ok (snd (Initialize maximumCapacity initialCapacity contents data_ok entries_ok t)).
Proof.
  intros Hi Hc. unfold Initialize. pose proof (zlen_nonneg contents).
  case_if; [apply reset_ok|]. bool_prop.
  case_if.
  { bool_prop. subst maximumCapacity. cbn [snd]. constructor; cbn; try done; try lia; by exists 0. }
  case_if; [apply reset_ok|]. cbv zeta. bool_prop.
  match goal with |- context [if ?b then (STATUS_INTEGER_OVERFLOW, _) else _] => destruct b end; [apply reset_ok|].
  case_if; [apply reset_ok|]. cbn [snd]. constructor; cbn; try done; try lia; [by exists 0|].
  unfold QpackEntryOverhead. pose proof (Z.div_mod maximumCapacity 32 ltac:(lia)).
  pose proof (Z.mod_pos_bound maximumCapacity 32 ltac:(lia)). case_if; bool_prop; lia.
Qed.

Lemma initialize_packed maximumCapacity initialCapacity contents data_ok entries_ok t :
  packed_table (snd (Initialize maximumCapacity initialCapacity contents data_ok entries_ok t)).
Proof. unfold Initialize. cbv zeta. repeat case_if; done. Qed.

Lemma table_reachable_ok overlapped t : table_reachable overlapped t -> table_ok t /\ packed_table t.
Proof.
  induction 1 as [| |op t _ [IH1 IH2] Hop]; [split; [by apply initialize_ok|apply initialize_packed]|split; [apply reset_ok|done]|by apply step_ok].
Qed.

(** What eviction leaves: the newest fields, among them every referenced one. *)
Lemma shed_keeps target l l' f : shed target l = Ok l' -> List.In f l -> fd_refs f <> 0 -> List.In f l'.
Proof.
  induction l as [|x l IH]; cbn; [done|]. case_if; [by intros [= <-]|]. case_if; [|done]. bool_prop.
  intros Hs [->|Hin] Hf; [done|]. by apply IH.
Qed.
Lemma change_refs_keeps index g l f :
  List.In f l ->
  exists n, List.In (MkField (fd_name f) (fd_value f) (fd_index f) n) (change_refs index g l).
Proof.
  intros Hin. apply (List.in_map (fun f => if fd_index f =? index
    then MkField (fd_name f) (fd_value f) (fd_index f) (g (fd_refs f)) else f)) in Hin.
  fold (change_refs index g l) in Hin. destruct (fd_index f =? index); [by eexists|].
  exists (fd_refs f). by destruct f.
Qed.
Lemma insert_keeps name value capacity count l l' f :
  spec_insert name value capacity count l = Ok l' -> List.In f l -> fd_refs f <> 0 -> List.In f l'.
Proof.
  unfold spec_insert. case_if; [done|]. intros (rest & Hs & [= <-])%bind_Ok Hin Hf.
  apply List.in_or_app. left. by eapply shed_keeps.
Qed.

Lemma step_keeps overlapped op t f :
  table_ok t -> packed_table t -> op_ok op -> List.In f (fields t) -> fd_refs f <> 0 ->
  exists n, List.In (MkField (fd_name f) (fd_value f) (fd_index f) n) (fields (snd (table_step overlapped op t))).
Proof.
  intros Ht Hp Hop Hin Hf. destruct (step_spec overlapped op t Ht Hp Hop) as [H _]. unfold step_outcome in H.
  destruct (table_step overlapped op t) as [s t']. cbn [snd].
  assert (Hself : forall l, List.In f l -> exists n, List.In (MkField (fd_name f) (fd_value f) (fd_index f) n) l).
  { intros l Hl. exists (fd_refs f). by destruct f. }
  destruct (spec_step _ _ _ _ _) as [l|s'] eqn:E; [destruct H as (_ & _ & H & _)|destruct H as [_ ->]; by apply Hself].
  destruct op as [name value|r value|r allocated|c|index|index]; cbn [spec_step recorded] in E, H; try (rewrite H; clear H).
  - by eapply Hself, insert_keeps.
  - destruct (find_field _ _) as [g|]; [|done]. destruct H as (kept & name & name' & value' & index & El & -> & _ & _). apply Hself.
    pose proof (insert_keeps _ _ _ _ _ _ _ E Hin Hf) as Hk. rewrite El in Hk. unfold spec_insert in E. case_if_in E; [done|].
    apply bind_Ok in E as (rest & Hs & E'). injection E' as E'. rewrite El in E'. apply app_inj_tail in E' as [-> _].
    apply List.in_or_app. left. by eapply shed_keeps.
  - unfold spec_duplicate in E. destruct (find_field _ _); [|done]. case_if_in E; [done|]. by eapply Hself, insert_keeps.
  - case_if_in E; [done|]. by eapply Hself, shed_keeps.
  - unfold spec_add_reference in E. destruct (find_field _ _); [|done]. case_if_in E; [done|].
    injection E as <-. by apply change_refs_keeps.
  - unfold spec_release_reference in E. destruct (find_field _ _); [|done]. case_if_in E; [done|].
    injection E as <-. by apply change_refs_keeps.
Qed.

(** The status and the queue after an insertion with a name reference that evicts. *)
Lemma reference_evicts overlapped r value t f kept :
  table_ok t -> packed_table t -> 0 <= r -> string_ok value -> 64 * 1024 + sp_len value + QpackEntryOverhead < 2 ^ 64 ->
  find_field (qt_insertCount t - 1 - r) (fields t) = Some f -> qt_insertCount t < QpackIntegerMaximum ->
  zlen (fd_name f) + sp_len value + QpackEntryOverhead <= qt_capacity t ->
  shed (qt_capacity t - (zlen (fd_name f) + sp_len value + QpackEntryOverhead)) (fields t) = Ok kept ->
  exists before after name t',
    fields t = before ++ f :: after /\ InsertWithNameReference overlapped r value t = (Ok (qt_insertCount t), t')
    /\ fields t' = kept ++ [MkField name (sp_bytes value) (qt_insertCount t) 0] /\ zlen name = zlen (fd_name f)
    /\ (offset_in before + zlen name <= zlen (strings kept) \/ zlen (strings kept) + zlen name <= offset_in before ->
        name = displaced (fields t) kept before (zlen name)).
Proof.
  intros Ht Hp Hr Hv Hfit Hf Hc Hs Hsh. pose proof (reference_insert_spec overlapped r value t Ht Hp Hr Hv Hfit) as H.
  rewrite Hf in H. cbv zeta in H. rewrite Hsh in H.
  replace ((zlen (fd_name f) + sp_len value + QpackEntryOverhead >? qt_capacity t) || (qt_insertCount t =? QpackIntegerMaximum)) with false in H.
  2:{ symmetry. apply orb_false_iff. split; [rewrite Z.gtb_ltb; apply Z.ltb_ge; lia|apply Z.eqb_neq; lia]. }
  destruct (InsertWithNameReference overlapped r value t) as [res t'].
  destruct H as (before & after & name & E & -> & _ & R3 & _ & _ & _ & _ & Hl & Hname). by exists before, after, name, t'.
Qed.

(** ** Properties *)

(** A table of capacity 100 that holds ("ab", "c"), referenced, and ("k", "vv"). *)
Definition sample_ops : list table_op :=
  [OpInsert (Bytes [97; 98]) (Bytes [99]); OpInsert (Bytes [107]) (Bytes [118; 118]); OpAddReference 0].
Definition run (overlapped : list Z -> Z -> Z -> Z -> Z -> Z) (ops : list table_op) : QpackDynamicTable :=
  foldl (fun t op => snd (table_step overlapped op t))
    (snd (Initialize 128 100 (replicate 128 0) true true table_default)) ops.
(** An overlapping copy that leaves zeros. *)
Definition zeros (data : list Z) (destination offset length index : Z) : Z := 0.
Definition table_sample : QpackDynamicTable := run zeros sample_ops.

Lemma run_reachable overlapped ops : Forall op_ok ops -> table_reachable overlapped (run overlapped ops).
Proof.
  intros H. unfold run. assert (H0 : table_reachable overlapped (snd (Initialize 128 100 (replicate 128 0) true true table_default))) by (by apply tr_initialize).
  revert H0. generalize (snd (Initialize 128 100 (replicate 128 0) true true table_default)).
  induction H as [|op ops Hop _ IH]; intros t Ht; [done|]. cbn [foldl]. apply IH. by apply tr_step.
Qed.
Lemma table_sample_reachable : table_reachable zeros table_sample.
Proof. apply run_reachable. by repeat constructor. Qed.

(** C18. In every reachable table, every operation does what it does on the abstract
    queue of fields, on every branch: an insertion and a reduction of the capacity
    evict exactly the oldest fields needed, and fail, with the specified status,
    exactly when the entry is too large or a field that would have to go is
    referenced; a duplicate inserts the strings of its source even when the source
    is evicted for it; an operation that fails leaves the table as it was.  The
    buffer of the implementation, with its offsets and its compaction, always
    holds the strings of the queue.  An insertion with a name reference, whose name
    is a pointer into that buffer, is covered with one exception, which [recorded]
    states: where it evicts, only the length of the name that it stores is the one
    specified; [reference_name_displaced] says what the name is then. *)
Theorem table_refines (overlapped : list Z -> Z -> Z -> Z -> Z -> Z) (t : QpackDynamicTable) (op : table_op) :
  table_reachable overlapped t -> op_ok op -> step_outcome overlapped op t.
Proof. intros [Ht Hp]%table_reachable_ok Hop. by apply step_spec. Qed.

Lemma table_refines_witness :
  step_outcome zeros (OpInsert (Bytes [120]) (Null 0)) table_sample
  /\ fst (table_step zeros (OpInsert (Bytes [120]) (Null 0)) table_sample) = STATUS_DEVICE_BUSY.
Proof.
  split; [|by vm_compute]. apply table_refines; [apply table_sample_reachable|by repeat split].
Defined.

(** C19. An insertion with a name reference into the table copies the name after the
    eviction and the compaction that it causes, from the place where the name was
    before them.  It succeeds and keeps the fields that it should, but the name of
    the new field is whatever lies at the old place: bytes of the strings that were
    kept and moved down, then zeros (where the copy does not overlap itself).  So in
    a table that holds ("ab", "c") and ("k", "vv") the value "x" under the name of
    the first field, which makes room by evicting that field, is stored under the
    name "kv". *)
Theorem reference_name_displaced (overlapped : list Z -> Z -> Z -> Z -> Z -> Z) (r : Z) (value : span) (t : QpackDynamicTable) (f : QpackField)
    (kept : list QpackField) :
  table_reachable overlapped t -> 0 <= r -> string_ok value -> 64 * 1024 + sp_len value + QpackEntryOverhead < 2 ^ 64 ->
  find_field (qt_insertCount t - 1 - r) (fields t) = Some f -> qt_insertCount t < QpackIntegerMaximum ->
  zlen (fd_name f) + sp_len value + QpackEntryOverhead <= qt_capacity t ->
  shed (qt_capacity t - (zlen (fd_name f) + sp_len value + QpackEntryOverhead)) (fields t) = Ok kept ->
  exists before after name t',
    fields t = before ++ f :: after /\ InsertWithNameReference overlapped r value t = (Ok (qt_insertCount t), t')
    /\ fields t' = kept ++ [MkField name (sp_bytes value) (qt_insertCount t) 0] /\ zlen name = zlen (fd_name f)
    /\ (offset_in before + zlen name <= zlen (strings kept) \/ zlen (strings kept) + zlen name <= offset_in before ->
        name = displaced (fields t) kept before (zlen name)).
Proof. intros [Ht Hp]%table_reachable_ok. by apply reference_evicts. Qed.

Definition reference_sample : QpackDynamicTable :=
  run zeros [OpInsert (Bytes [97; 98]) (Bytes [99]); OpInsert (Bytes [107]) (Bytes [118; 118])].
Lemma reference_name_displaced_witness :
  exists t', InsertWithNameReference zeros 1 (Bytes [120]) reference_sample = (Ok 2, t')
  /\ fields t' = [MkField [107] [118; 118] 1 0] ++ [MkField [107; 118] [120] 2 0].
Proof.
  destruct (reference_name_displaced zeros 1 (Bytes [120]) reference_sample (MkField [97; 98] [99] 0 0) [MkField [107] [118; 118] 1 0])
    as (before & after & name & t' & E & H1 & H2 & H3 & H4);
    [by apply run_reachable; repeat constructor|done|done|done|by vm_compute|by vm_compute|by vm_compute|by vm_compute|].
  assert (Ef : fields reference_sample = [MkField [97; 98] [99] 0 0; MkField [107] [118; 118] 1 0]) by (vm_compute; reflexivity).
  exists t'. split; [exact H1|]. rewrite Ef in E, H4. clear Ef. assert (before = []) as ->.
  { clear - E. destruct before as [|b [|b' [|b'' before]]]; [reflexivity|discriminate E..]. }
  rewrite H2. rewrite H3 in H4. rewrite H4; [vm_compute; reflexivity|left; vm_compute; discriminate].
Defined.

(** In every reachable table the sizes of the entries add up to the current
    size, which is at most the capacity; every name and value lies inside the
    used part of the buffer; and an absolute index is found exactly when it is one
    of the last [EntryCount] insertions, with the field inserted under it, while a
    relative index counts back from the last insertion. *)
Theorem table_bounds (overlapped : list Z -> Z -> Z -> Z -> Z -> Z) (t : QpackDynamicTable) :
  table_reachable overlapped t ->
  qt_currentSize t = table_size (fields t) /\ qt_currentSize t <= qt_capacity t <= qt_maximumCapacity t
  /\ zlen (qt_data t) = qt_maximumCapacity t /\ qt_maximumCapacity t <= WKNET_HARD_MAX_QPACK_DYNAMIC_TABLE_BYTES
  /\ layout 0 (qt_entries t) (qt_dataUsed t) /\ qt_dataUsed t <= zlen (qt_data t)
  /\ (forall index, is_Ok (LookupAbsolute index t) = true
        <-> qt_insertCount t - entryCount t <= index < qt_insertCount t)
  /\ (forall r, 0 <= r ->
        LookupRelative (qt_insertCount t) r t = LookupAbsolute (qt_insertCount t - 1 - r) t).
Proof.
  intros Hr. destruct (table_reachable_ok overlapped t Hr) as [Ht _].
  pose proof Ht as [Hc Hm Hd Hu Hl He [Hs Hsc] (first & Hf & Hi) Hic Hec].
  split_and!; try done; try lia.
  - intros index. rewrite <- (read_Ok t), LookupAbsolute_spec. pose proof (indexed_next _ _ _ Hi) as Hn. unfold entryCount.
    pose proof (fun f => indexed_lookup (qt_data t) first _ _ f index Hi) as Hlk. fold (fields t) in Hlk.
    assert (Hlen : length (fields t) = length (qt_entries t)) by (unfold fields; by rewrite length_map).
    unfold zlen in *. destruct (find_field index (fields t)) as [f|] eqn:E; cbn.
    + destruct (proj1 (Hlk f) eq_refl) as [? Hk]. apply lookup_lt_Some in Hk. split; [lia|done].
    + split; [done|]. intros Hin. destruct (lookup_lt_is_Some_2 (fields t) (Z.to_nat (index - first))) as [f Hk]; [lia|].
      assert (Ha : first <= index) by lia. by pose proof (proj2 (Hlk f) (conj Ha Hk)).
  - intros r Hr0. by rewrite relative_spec by done.
Qed.

Lemma table_bounds_witness :
  is_Ok (LookupAbsolute 1 table_sample) = true /\ qt_currentSize table_sample = 70.
Proof.
  destruct (table_bounds zeros table_sample table_sample_reachable) as (_ & _ & _ & _ & _ & _ & H & _).
  split; [|by vm_compute]. apply H. vm_compute. done.
Defined.

(** A referenced entry stays: as long as its reference count is not zero, no
    operation evicts it, and a lookup by its absolute index gives the same name
    and value after the operation, wherever compaction has moved them. *)
Theorem referenced_stays (overlapped : list Z -> Z -> Z -> Z -> Z -> Z) (t : QpackDynamicTable) (op : table_op) (f : QpackField) :
  table_reachable overlapped t -> op_ok op -> List.In f (fields t) -> fd_refs f <> 0 ->
  let t' := snd (table_step overlapped op t) in
  read t' (LookupAbsolute (fd_index f) t') = Ok (view_of f) /\ read t (LookupAbsolute (fd_index f) t) = Ok (view_of f).
Proof.
  intros Hr Hop Hin Hf. destruct (table_reachable_ok overlapped t Hr) as [Ht Hp]. cbv zeta.
  rewrite !LookupAbsolute_spec, (find_field_self t f Ht Hin). split; [|done].
  destruct (step_keeps overlapped op t f Ht Hp Hop Hin Hf) as [n Hn].
  pose proof (find_field_self _ _ (proj1 (step_ok overlapped op t Ht Hp Hop)) Hn) as E. cbn [fd_index] in E. by rewrite E.
Qed.

Lemma referenced_stays_witness :
  let t' := snd (table_step zeros (OpSetCapacity 70) table_sample) in
  read t' (LookupAbsolute 0 t') = Ok ([97; 98], [99], 0).
Proof.
  assert (Hin : List.In (MkField [97; 98] [99] 0 1) (fields table_sample)) by (vm_compute; by left).
  assert (Hop : op_ok (OpSetCapacity 70)) by (cbn; lia).
  assert (Hf : fd_refs (MkField [97; 98] [99] 0 1) <> 0) by (cbn; lia).
  exact (proj1 (referenced_stays zeros table_sample (OpSetCapacity 70) (MkField [97; 98] [99] 0 1)
    table_sample_reachable Hop Hin Hf)).
Defined.
