(* ===== verification/HttpChunkedDecoder.v ===== *)
(** * The streaming chunked-body decoder (src/wknetlib/http1/HttpChunkedDecoder.cpp)

    [Feed] takes the bytes that follow a response header block, in pieces of any
    size, hands the payload of the chunks to a callback and stores the trailer
    fields.  The file models every operation, gives the language the decoder
    accepts as a grammar, and shows that [Feed] accepts exactly that language,
    however the bytes are cut into pieces. *)

From S2P Require Import Prelude.

Definition HttpMaxHeaderLineBytes : Z := 8 * 1024.
Definition HttpMaxChunkSizeLineBytes : Z := 32.

(** ** Characters *)

Definition CR : Z := 13.
Definition LF : Z := 10.
Definition SP : Z := 32.
Definition HTAB : Z := 9.
Definition COLON : Z := 58.
Definition SEMICOLON : Z := 59.

Definition in_chars (lo hi ch : Z) : bool := (ch >=? lo) && (ch <=? hi).

Definition IsHexDigit (value : Z) : bool :=
  in_chars 48 57 value || in_chars 97 102 value || in_chars 65 70 value.

Definition HexValue (value : Z) : Z :=
  if in_chars 48 57 value then u8 (value - 48)
  else if in_chars 97 102 value then u8 (10 + value - 97)
  else u8 (10 + value - 65).

Definition IsTchar (value : Z) : bool :=
  in_chars 48 57 value || in_chars 65 90 value || in_chars 97 122 value
  || existsb (fun x => value =? x) [33; 35; 36; 37; 38; 39; 42; 43; 45; 46; 94; 95; 96; 124; 126].

Definition is_ows (ch : Z) : bool := (ch =? SP) || (ch =? HTAB).

(** ** State *)

Inductive State :=
  | SizeLine | ChunkData | ChunkDataCr | ChunkDataLf | TrailerLine | Complete | Failed.
#[export] Instance State_eq_dec : EqDecision State.
Proof. solve_decision. Defined.

(** A text of the trailer arena: offset and length, or a null pointer. *)
Record HttpHeader := MkHeader { hd_Name : Z * Z; hd_Value : option (Z * Z) }.

(** [cd_sizeLine], [cd_trailerLine], [cd_trailerArena] and [cd_stored] are the used
    prefixes of [sizeLine_], [trailerLine_], [trailerArena_] and [trailers_], whose
    lengths are the fields [sizeLineLength_], [trailerLineLength_],
    [trailerArenaUsed_] and [trailerCount_].  [cd_trailers] tells whether
    [trailers_] is not null; the two heap buffers are there exactly when
    [cd_initialized] is set. *)
Record HttpChunkedDecoder := MkDecoder {
  cd_state : State;
  cd_chunkRemaining : Z;
  cd_sawChunkExtension : bool;
  cd_sizeLineHasDigit : bool;
  cd_sizeLine : list Z;
  cd_trailerLine : list Z;
  cd_trailerLineEmptyPending : bool;
  cd_trailers : bool;
  cd_trailerCapacity : Z;
  cd_stored : list HttpHeader;
  cd_trailerArena : list Z;
  cd_trailerArenaCapacity : Z;
  cd_initialized : bool;
}.
#[export] Instance HttpChunkedDecoder_eta : Eta HttpChunkedDecoder := fun x =>
  MkDecoder (cd_state x) (cd_chunkRemaining x) (cd_sawChunkExtension x) (cd_sizeLineHasDigit x)
    (cd_sizeLine x) (cd_trailerLine x) (cd_trailerLineEmptyPending x) (cd_trailers x)
    (cd_trailerCapacity x) (cd_stored x) (cd_trailerArena x) (cd_trailerArenaCapacity x)
    (cd_initialized x).

Definition decoder_default : HttpChunkedDecoder :=
  MkDecoder SizeLine 0 false false [] [] false false 0 [] [] 0 false.

(** [memory]: both allocations succeed. *)
Definition Initialize (memory : bool) (d : HttpChunkedDecoder) : NTSTATUS * HttpChunkedDecoder :=
  if cd_initialized d then (STATUS_SUCCESS, d)
  else if negb memory then (STATUS_INSUFFICIENT_RESOURCES, d)
  else (STATUS_SUCCESS, d <| cd_trailerArenaCapacity := 4096 |> <| cd_initialized := true |>).

Definition Reset (d : HttpChunkedDecoder) : HttpChunkedDecoder :=
  d <| cd_state := SizeLine |> <| cd_chunkRemaining := 0 |> <| cd_sawChunkExtension := false |>
    <| cd_sizeLineHasDigit := false |> <| cd_sizeLine := [] |> <| cd_trailerLine := [] |>
    <| cd_trailerLineEmptyPending := false |> <| cd_stored := [] |> <| cd_trailerArena := [] |>.

Definition SetTrailerStorage (trailers : bool) (trailerCapacity : Z) (d : HttpChunkedDecoder)
    : HttpChunkedDecoder :=
  d <| cd_trailers := trailers |> <| cd_trailerCapacity := trailerCapacity |>
    <| cd_stored := [] |> <| cd_trailerArena := [] |>.

Definition IsComplete (d : HttpChunkedDecoder) : bool := bool_decide (cd_state d = Complete).
Definition TrailerCount (d : HttpChunkedDecoder) : Z := zlen (cd_stored d).

Definition fail (status : NTSTATUS) (d : HttpChunkedDecoder) : NTSTATUS * HttpChunkedDecoder :=
  (status, d <| cd_state := Failed |>).

(** ** The size line *)

(** The digit loop of [FinishSizeLine]. *)
Fixpoint accumulate_size (size : Z) (digits : list Z) : option Z :=
  match digits with
  | [] => Some size
  | ch :: digits =>
      if negb (IsHexDigit ch) then None
      else
        let digit := HexValue ch in
        if size >? (MAXU64 -! digit) / 16 then None
        else accumulate_size ((size *! 16) +! digit) digits
  end.

Definition FinishSizeLine (d : HttpChunkedDecoder) : NTSTATUS * HttpChunkedDecoder :=
  if negb (cd_sizeLineHasDigit d) then fail STATUS_INVALID_NETWORK_RESPONSE d
  else
    match accumulate_size 0 (cd_sizeLine d) with
    | None => fail STATUS_INVALID_NETWORK_RESPONSE d
    | Some size =>
        let d := d <| cd_chunkRemaining := size |> <| cd_sizeLine := [] |>
                   <| cd_sizeLineHasDigit := false |> <| cd_sawChunkExtension := false |> in
        if cd_chunkRemaining d =? 0
        then (STATUS_SUCCESS, d <| cd_state := TrailerLine |> <| cd_trailerLine := [] |>)
        else (STATUS_SUCCESS, d <| cd_state := ChunkData |>)
    end.

Definition ProcessSizeLineChar (ch : Z) (d : HttpChunkedDecoder) : NTSTATUS * HttpChunkedDecoder :=
  if ch =? CR then (STATUS_SUCCESS, d)
  else if ch =? LF then FinishSizeLine d
  else if cd_sawChunkExtension d then (STATUS_SUCCESS, d)
  else if ch =? SEMICOLON then
    if negb (cd_sizeLineHasDigit d) then fail STATUS_INVALID_NETWORK_RESPONSE d
    else (STATUS_SUCCESS, d <| cd_sawChunkExtension := true |>)
  else if negb (IsHexDigit ch) then fail STATUS_INVALID_NETWORK_RESPONSE d
  else if zlen (cd_sizeLine d) >=? HttpMaxChunkSizeLineBytes
  then fail STATUS_INVALID_NETWORK_RESPONSE d
  else (STATUS_SUCCESS, d <| cd_sizeLine := cd_sizeLine d ++ [ch] |> <| cd_sizeLineHasDigit := true |>).

(** ** Trailer lines *)

(** The search for the colon; the length of the line when there is none. *)
Fixpoint find_colon (line : list Z) : Z :=
  match line with
  | [] => 0
  | ch :: line => if ch =? COLON then 0 else 1 + find_colon line
  end.

(** The loops that move [valueStart] and [valueEnd] over white space. *)
Fixpoint trim_left (l : list Z) : list Z :=
  match l with
  | ch :: rest => if is_ows ch then trim_left rest else l
  | [] => []
  end.
Definition trim (l : list Z) : list Z := rev (trim_left (rev (trim_left l))).

Definition FinishTrailerLine (d : HttpChunkedDecoder) : NTSTATUS * HttpChunkedDecoder :=
  let line := cd_trailerLine d in
  if zlen line =? 0 then (STATUS_SUCCESS, d <| cd_state := Complete |>)
  else
    let colon := find_colon line in
    if (colon =? 0) || (colon =? zlen line) then fail STATUS_INVALID_NETWORK_RESPONSE d
    else
      let name := ztake colon line in
      if negb (forallb IsTchar name) then fail STATUS_INVALID_NETWORK_RESPONSE d
      else
        let value := trim (zdrop (colon + 1) line) in
        let needed := zlen name +! zlen value in
        let used := zlen (cd_trailerArena d) in
        if negb (cd_initialized d) || (needed >? cd_trailerArenaCapacity d -! used)
        then fail STATUS_BUFFER_OVERFLOW d
        else if negb (cd_trailers d) || (zlen (cd_stored d) >=? cd_trailerCapacity d)
        then fail STATUS_BUFFER_TOO_SMALL d
        else
          let header := MkHeader (used, zlen name)
                          (if zlen value =? 0 then None
                           else Some (used + zlen name, zlen value)) in
          (STATUS_SUCCESS,
           d <| cd_trailerArena := cd_trailerArena d ++ name ++ value |>
             <| cd_stored := cd_stored d ++ [header] |> <| cd_trailerLine := [] |>).

Definition ProcessTrailerLineChar (ch : Z) (d : HttpChunkedDecoder)
    : NTSTATUS * HttpChunkedDecoder :=
  if ch =? LF then FinishTrailerLine d
  else if ch =? CR then (STATUS_SUCCESS, d)
  else if negb (cd_initialized d) || (zlen (cd_trailerLine d) >=? HttpMaxHeaderLineBytes)
  then fail STATUS_INVALID_NETWORK_RESPONSE d
  else (STATUS_SUCCESS, d <| cd_trailerLine := cd_trailerLine d ++ [ch] |>).

(** ** Feed *)

Section Feed.
Context {C : Type}.
(** [onData] and the state of its context; [None] is a null pointer. *)
Variable onData : option (C -> list Z -> NTSTATUS * C).

Definition deliver (c : C) (data : list Z) : NTSTATUS * C :=
  match onData with None => (STATUS_SUCCESS, c) | Some f => f c data end.

(** What a call returns: the status, [*bytesConsumed], the decoder and the context. *)
Definition fed : Type := NTSTATUS * Z * HttpChunkedDecoder * C.

(** The [while] loop: [rest] is [data + offset].  A turn that consumes nothing is
    followed by one that consumes a byte, so [2 * dataLength + 1] turns are enough
    ([feed_loop_fuel]). *)
Fixpoint feed_loop (fuel : nat) (rest : list Z) (offset : Z) (d : HttpChunkedDecoder) (c : C) : fed :=
  match rest with
  | [] => (if bool_decide (cd_state d = Complete) then STATUS_SUCCESS
           else STATUS_MORE_PROCESSING_REQUIRED, offset, d, c)
  | ch :: tail =>
      match fuel with
      | O => (STATUS_OTHER 0, offset, d, c)
      | S fuel =>
          let offset' := offset +! 1 in
          match cd_state d with
          | SizeLine =>
              let (status, d) := ProcessSizeLineChar ch d in
              if negb (NT_SUCCESS status) then (status, offset', d, c)
              else feed_loop fuel tail offset' d c
          | ChunkData =>
              let available := zlen rest in
              let take := if available <? cd_chunkRemaining d then available
                          else cd_chunkRemaining d in
              let (status, c) := if negb (take =? 0) then deliver c (ztake take rest)
                                 else (STATUS_SUCCESS, c) in
              if negb (NT_SUCCESS status)
              then (status, offset, d <| cd_state := Failed |>, c)
              else
                let d := d <| cd_chunkRemaining := cd_chunkRemaining d -! take |> in
                let d := if cd_chunkRemaining d =? 0 then d <| cd_state := ChunkDataCr |> else d in
                feed_loop fuel (zdrop take rest) (offset +! take) d c
          | ChunkDataCr =>
              if negb (ch =? CR)
              then (STATUS_INVALID_NETWORK_RESPONSE, offset', d <| cd_state := Failed |>, c)
              else feed_loop fuel tail offset' (d <| cd_state := ChunkDataLf |>) c
          | ChunkDataLf =>
              if negb (ch =? LF)
              then (STATUS_INVALID_NETWORK_RESPONSE, offset', d <| cd_state := Failed |>, c)
              else
                feed_loop fuel tail offset'
                  (d <| cd_state := SizeLine |> <| cd_sizeLine := [] |>
                     <| cd_sizeLineHasDigit := false |> <| cd_sawChunkExtension := false |>) c
          | TrailerLine =>
              let (status, d) := ProcessTrailerLineChar ch d in
              if negb (NT_SUCCESS status) then (status, offset', d, c)
              else if bool_decide (cd_state d = Complete) then (STATUS_SUCCESS, offset', d, c)
              else feed_loop fuel tail offset' d c
          | Complete => (STATUS_SUCCESS, offset, d, c)
          | Failed => (STATUS_INVALID_NETWORK_RESPONSE, offset, d, c)
          end
      end
  end.

Definition Feed (data : span) (d : HttpChunkedDecoder) (c : C) : fed :=
  if negb (cd_initialized d) then (STATUS_INVALID_DEVICE_STATE, 0, d, c)
  else
    match cd_state d with
    | Complete => (STATUS_SUCCESS, 0, d, c)
    | Failed => (STATUS_INVALID_NETWORK_RESPONSE, 0, d, c)
    | _ =>
        if sp_len data =? 0 then (STATUS_MORE_PROCESSING_REQUIRED, 0, d, c)
        else if sp_isnull data then (STATUS_INVALID_PARAMETER, 0, d, c)
        else feed_loop (2 * length (sp_bytes data) + 1) (sp_bytes data) 0 d c
    end.
End Feed.

(** The receive loop of the caller (src/wknetlib/session/HttpH1Dispatch.cpp).
    [window] holds bytes received and not yet consumed; [pieces] are what the
    following reads of the transport return; a read that fails or returns nothing
    ends the body early. *)
Section Pump.
Context {C : Type}.
Variable onData : option (C -> list Z -> NTSTATUS * C).

Fixpoint pump (fuel : nat) (window : list Z) (pieces : list (list Z)) (d : HttpChunkedDecoder) (c : C)
    : NTSTATUS * HttpChunkedDecoder * C :=
  match fuel with
  | O => (STATUS_OTHER 0, d, c)
  | S fuel =>
      let '(window, pieces) :=
        match window, pieces with [], piece :: rest => (piece, rest) | _, _ => (window, pieces) end in
      match window with
      | [] => (STATUS_CONNECTION_DISCONNECTED, d, c)
      | _ :: _ =>
          let '(status, consumed, d, c) := Feed onData (Bytes window) d c in
          if NT_SUCCESS status then (STATUS_SUCCESS, d, c)
          else if negb (bool_decide (status = STATUS_MORE_PROCESSING_REQUIRED)) then (status, d, c)
          else pump fuel (zdrop consumed window) pieces d c
      end
  end.
End Pump.

(** ** The loop, without its fuel *)

Section FeedFacts.
Context {C : Type}.
Variable onData : option (C -> list Z -> NTSTATUS * C).
Implicit Types (rest : list Z) (d : HttpChunkedDecoder) (c : C).

(** The turns the loop may still take. *)
Definition turns (rest : list Z) (d : HttpChunkedDecoder) : nat :=
  2 * length rest + (if bool_decide (cd_state d = ChunkData) && (cd_chunkRemaining d =? 0) then 1 else 0).

Lemma turns_tail ch rest d d' : (turns rest d' < turns (ch :: rest) d)%nat.
Proof. unfold turns. simpl length. repeat case_if; lia. Qed.

Lemma take_range (available remaining : Z) :
  0 <= available -> 0 <= remaining ->
  0 <= (if available <? remaining then available else remaining) <= available.
Proof. intros. case_if; bool_lia. Qed.

(** What every operation keeps: the remaining count is a [SIZE_T]. *)
Definition sized (d : HttpChunkedDecoder) : Prop := 0 <= cd_chunkRemaining d < 2 ^ 64.

Lemma accumulate_range size digits n :
  0 <= size < 2 ^ 64 -> accumulate_size size digits = Some n -> 0 <= n < 2 ^ 64.
Proof.
  revert size. induction digits as [|ch l IH]; intros size Hs; cbn [accumulate_size].
  - by intros [= <-].
  - repeat case_if; try done. apply IH. auto with wk.
Qed.

Lemma take_le (available remaining : Z) :
  (if available <? remaining then available else remaining) <= remaining.
Proof. case_if; bool_lia. Qed.

Lemma sized_size_char ch d : sized d -> sized (snd (ProcessSizeLineChar ch d)).
Proof.
  unfold sized, ProcessSizeLineChar, FinishSizeLine, fail. intros H.
  repeat case_if; try done. destruct (accumulate_size 0 _) as [n|] eqn:E; [|done].
  apply accumulate_range in E; [|lia]. by case_if.
Qed.
Lemma sized_trailer_char ch d : sized d -> sized (snd (ProcessTrailerLineChar ch d)).
Proof.
  unfold sized, ProcessTrailerLineChar, FinishTrailerLine, fail. intros H.
  by repeat case_if.
Qed.

(** The turn that hands payload to the callback. *)
Definition after_take (take : Z) (d : HttpChunkedDecoder) : HttpChunkedDecoder :=
  let d := d <| cd_chunkRemaining := cd_chunkRemaining d -! take |> in
  if cd_chunkRemaining d =? 0 then d <| cd_state := ChunkDataCr |> else d.

Lemma sized_after_take take d : sized (after_take take d).
Proof. unfold sized, after_take. case_if; cbn; auto with wk. Qed.

Lemma turns_take ch rest d :
  sized d -> cd_state d = ChunkData ->
  let take := if zlen (ch :: rest) <? cd_chunkRemaining d then zlen (ch :: rest)
              else cd_chunkRemaining d in
  (turns (zdrop take (ch :: rest)) (after_take take d) < turns (ch :: rest) d)%nat.
Proof.
  intros Hs Hd take. unfold sized in Hs. pose proof (zlen_nonneg rest).
  assert (Ht : 0 <= take <= zlen (ch :: rest)) by (apply take_range; rewrite ?zlen_cons; lia).
  assert (Hle : take <= cd_chunkRemaining d) by apply take_le.
  unfold turns, after_take. rewrite Hd. cbn [cd_chunkRemaining set_field].
  rewrite u64_id by lia. unfold zdrop. rewrite length_drop. cbn [length].
  assert (Hz : take = 0 -> cd_chunkRemaining d = 0).
  { unfold take. case_if; bool_prop; rewrite ?zlen_cons in *; lia. }
  clearbody take.
  destruct (cd_chunkRemaining d - take =? 0) eqn:E; cbn [cd_state cd_chunkRemaining set_field];
    rewrite ?Hd, ?E; change (bool_decide (ChunkDataCr = ChunkData)) with false;
    change (bool_decide (ChunkData = ChunkData)) with true; cbn [andb];
    destruct (cd_chunkRemaining d =? 0) eqn:E2; bool_prop; lia.
Qed.

(** The fuel does not matter once it covers the turns. *)
Lemma feed_loop_fuel f1 f2 rest off d c :
  sized d -> (turns rest d <= f1)%nat -> (turns rest d <= f2)%nat ->
  feed_loop onData f1 rest off d c = feed_loop onData f2 rest off d c.
Proof.
  revert f2 rest off d c. induction f1 as [|f1 IH]; intros f2 rest off d c Hs H1 H2.
  { destruct rest; [by destruct f2|]. unfold turns in H1. simpl in H1. lia. }
  destruct rest as [|ch rest]; [by destruct f2|].
  destruct f2 as [|f2]; [unfold turns in H2; simpl in H2; lia|]. cbn [feed_loop].
  assert (Htail : forall d', sized d' ->
    feed_loop onData f1 rest (off +! 1) d' c = feed_loop onData f2 rest (off +! 1) d' c).
  { intros d' Hd'. pose proof (turns_tail ch rest d d'). apply IH; [done|lia..]. }
  destruct (cd_state d) eqn:Hst; [..|done|done].
  - pose proof (sized_size_char ch d Hs). destruct (ProcessSizeLineChar ch d) as [s d'].
    case_if; [done|]. by apply Htail.
  - pose proof (turns_take ch rest d Hs Hst) as Ht. cbn zeta in Ht.
    set (take := if _ <? _ then _ else _) in *.
    destruct (if negb (take =? 0) then _ else _) as [s c']. case_if; [done|].
    change (feed_loop onData f1 (zdrop take (ch :: rest)) (off +! take) (after_take take d) c'
      = feed_loop onData f2 (zdrop take (ch :: rest)) (off +! take) (after_take take d) c').
    apply IH; [apply sized_after_take|lia..].
  - case_if; [done|]. by apply Htail.
  - case_if; [done|]. by apply Htail.
  - pose proof (sized_trailer_char ch d Hs). destruct (ProcessTrailerLineChar ch d) as [s d'].
    case_if; [done|]. case_bool_decide; [done|]. by apply Htail.
Qed.

Definition feed (rest : list Z) (off : Z) (d : HttpChunkedDecoder) (c : C) : fed :=
  feed_loop onData (2 * length rest + 1) rest off d c.

Lemma feed_enough f rest off d c :
  sized d -> (turns rest d <= f)%nat -> feed_loop onData f rest off d c = feed rest off d c.
Proof.
  intros. apply feed_loop_fuel; [done..|]. unfold turns. case_if; lia.
Qed.

(** One turn in each state. *)
Lemma feed_nil off d c :
  feed [] off d c = (if bool_decide (cd_state d = Complete) then STATUS_SUCCESS
                     else STATUS_MORE_PROCESSING_REQUIRED, off, d, c).
Proof. done. Qed.

Lemma feed_tail ch rest off d c :
  sized d -> 0 <= off -> off + zlen (ch :: rest) < 2 ^ 64 ->
  feed_loop onData (2 * length rest + 2) rest (off +! 1) d c = feed rest (off + 1) d c.
Proof.
  intros Hs Ho Hb. pose proof (zlen_nonneg rest). rewrite zlen_cons in Hb. rewrite u64_id by lia.
  apply feed_enough; [done|]. unfold turns. case_if; lia.
Qed.

Lemma feed_cons ch rest off d c :
  feed (ch :: rest) off d c = feed_loop onData (S (2 * length rest + 2)) (ch :: rest) off d c.
Proof. unfold feed. f_equal. simpl. lia. Qed.

Lemma feed_size ch rest off d c :
  cd_state d = SizeLine -> sized d -> 0 <= off -> off + zlen (ch :: rest) < 2 ^ 64 ->
  feed (ch :: rest) off d c =
    let (s, d') := ProcessSizeLineChar ch d in
    if negb (NT_SUCCESS s) then (s, off + 1, d', c) else feed rest (off + 1) d' c.
Proof.
  intros Hst Hs Ho Hb. rewrite feed_cons. cbn [feed_loop]. rewrite Hst.
  pose proof (sized_size_char ch d Hs) as Hs'. destruct (ProcessSizeLineChar ch d) as [s d'].
  rewrite (feed_tail ch) by done. pose proof (zlen_nonneg rest). rewrite zlen_cons in Hb.
  by rewrite u64_id by lia.
Qed.
Lemma feed_trailer ch rest off d c :
  cd_state d = TrailerLine -> sized d -> 0 <= off -> off + zlen (ch :: rest) < 2 ^ 64 ->
  feed (ch :: rest) off d c =
    let (s, d') := ProcessTrailerLineChar ch d in
    if negb (NT_SUCCESS s) then (s, off + 1, d', c)
    else if bool_decide (cd_state d' = Complete) then (STATUS_SUCCESS, off + 1, d', c)
    else feed rest (off + 1) d' c.
Proof.
  intros Hst Hs Ho Hb. rewrite feed_cons. cbn [feed_loop]. rewrite Hst.
  pose proof (sized_trailer_char ch d Hs) as Hs'. destruct (ProcessTrailerLineChar ch d) as [s d'].
  rewrite (feed_tail ch) by done. pose proof (zlen_nonneg rest). rewrite zlen_cons in Hb.
  by rewrite u64_id by lia.
Qed.
Lemma feed_cr ch rest off d c :
  cd_state d = ChunkDataCr -> sized d -> 0 <= off -> off + zlen (ch :: rest) < 2 ^ 64 ->
  feed (ch :: rest) off d c =
    if negb (ch =? CR) then (STATUS_INVALID_NETWORK_RESPONSE, off + 1, d <| cd_state := Failed |>, c)
    else feed rest (off + 1) (d <| cd_state := ChunkDataLf |>) c.
Proof.
  intros Hst Hs Ho Hb. rewrite feed_cons. cbn [feed_loop]. rewrite Hst.
  rewrite (feed_tail ch) by done. pose proof (zlen_nonneg rest). rewrite zlen_cons in Hb.
  by rewrite u64_id by lia.
Qed.
Lemma feed_lf ch rest off d c :
  cd_state d = ChunkDataLf -> sized d -> 0 <= off -> off + zlen (ch :: rest) < 2 ^ 64 ->
  feed (ch :: rest) off d c =
    if negb (ch =? LF) then (STATUS_INVALID_NETWORK_RESPONSE, off + 1, d <| cd_state := Failed |>, c)
    else feed rest (off + 1)
           (d <| cd_state := SizeLine |> <| cd_sizeLine := [] |>
              <| cd_sizeLineHasDigit := false |> <| cd_sawChunkExtension := false |>) c.
Proof.
  intros Hst Hs Ho Hb. rewrite feed_cons. cbn [feed_loop]. rewrite Hst.
  rewrite (feed_tail ch) by done. pose proof (zlen_nonneg rest). rewrite zlen_cons in Hb.
  by rewrite u64_id by lia.
Qed.

(** The callback takes what it is given. *)
Definition accepts : Prop := forall c x, fst (deliver onData c x) = STATUS_SUCCESS.
Definition received (c : C) (chunks : list (list Z)) : C :=
  foldl (fun c x => snd (deliver onData c x)) c chunks.

(** A chunk that is delivered whole, and one that the input cuts. *)
Lemma feed_data data rest off d c :
  accepts -> cd_state d = ChunkData -> data <> [] -> cd_chunkRemaining d = zlen data ->
  0 <= off -> off + zlen (data ++ rest) < 2 ^ 64 ->
  feed (data ++ rest) off d c =
    feed rest (off + zlen data) (d <| cd_chunkRemaining := 0 |> <| cd_state := ChunkDataCr |>)
      (received c [data]).
Proof.
  intros Ha Hst Hne Hr Ho Hb. destruct data as [|ch data]; [done|].
  pose proof (zlen_nonneg rest). rewrite zlen_app in Hb. change ((ch :: data) ++ rest) with (ch :: (data ++ rest)).
  rewrite feed_cons. cbn [feed_loop]. rewrite Hst, Hr.
  change (ch :: data ++ rest) with ((ch :: data) ++ rest). rewrite zlen_app.
  rewrite zlen_cons in *. pose proof (zlen_nonneg data).
  replace (if _ <? _ then _ else _) with (1 + zlen data) by (case_if; bool_lia).
  replace (1 + zlen data =? 0) with false by (symmetry; apply Z.eqb_neq; lia). cbn [negb].
  rewrite <- zlen_cons with (x := ch). rewrite ztake_app_len.
  specialize (Ha c (ch :: data)) as Hd. destruct (deliver onData c (ch :: data)) as [s c'] eqn:E.
  simpl in Hd. subst s. cbn [NT_SUCCESS negb]. rewrite zdrop_app_len. rewrite zlen_cons.
  replace (off +! (1 + zlen data)) with (off + (1 + zlen data)) by (symmetry; apply u64_id; lia).
  assert (Hs : sized (d <| cd_chunkRemaining := 0 |> <| cd_state := ChunkDataCr |>)).
  { unfold sized. cbn. lia. }
  rewrite Z.sub_diag. change (u64 0) with 0. cbn [cd_chunkRemaining set_field Z.eqb]. unfold received. cbn [foldl]. rewrite E. cbn [snd].
  apply feed_enough; [done|]. unfold turns. cbn [cd_state set_field].
  change (bool_decide (ChunkDataCr = ChunkData)) with false. cbn [andb].
  rewrite length_app. lia.
Qed.
Lemma feed_data_cut data off d c :
  accepts -> cd_state d = ChunkData -> data <> [] -> zlen data < cd_chunkRemaining d < 2 ^ 64 ->
  0 <= off -> off + zlen data < 2 ^ 64 ->
  feed data off d c =
    (STATUS_MORE_PROCESSING_REQUIRED, off + zlen data,
     d <| cd_chunkRemaining := cd_chunkRemaining d - zlen data |>, received c [data]).
Proof.
  intros Ha Hst Hne Hr Ho Hb. destruct data as [|ch data]; [done|]. rewrite feed_cons.
  cbn [feed_loop]. rewrite Hst. pose proof (zlen_nonneg data). rewrite zlen_cons in *.
  replace (_ <? _) with true by (symmetry; apply Z.ltb_lt; lia).
  replace (1 + zlen data =? 0) with false by (symmetry; apply Z.eqb_neq; lia). cbn [negb].
  rewrite ztake_all by (rewrite zlen_cons; lia).
  specialize (Ha c (ch :: data)) as Hd. destruct (deliver onData c (ch :: data)) as [s c'] eqn:E.
  simpl in Hd. subst s. cbn [NT_SUCCESS negb]. 
  replace (zdrop (1 + zlen data) (ch :: data)) with (@nil Z)
    by (by rewrite <- (zlen_cons ch), zdrop_all).
  cbn [cd_chunkRemaining set_field]. rewrite !u64_id by lia.
  replace (_ - _ =? 0) with false by (symmetry; apply Z.eqb_neq; lia).
  unfold received. cbn [foldl]. rewrite E. cbn [snd].
  replace (2 * length data + 2)%nat with (S (2 * length data + 1)) by lia. cbn [feed_loop].
  cbn [cd_state set_field]. by rewrite Hst.
Qed.
End FeedFacts.

(** ** The accepted language

    A line is what comes before a line feed, less its carriage returns: the
    decoder drops every carriage return of a line, wherever it is. *)
Definition no_lf (w : list Z) : Prop := Forall (fun ch => ch <> LF) w.
Definition strip (w : list Z) : list Z := List.filter (fun ch => negb (ch =? CR)) w.

Fixpoint until (stop : Z) (l : list Z) : list Z :=
  match l with
  | [] => []
  | ch :: l => if ch =? stop then [] else ch :: until stop l
  end.
Definition hex_value (n : Z) (digits : list Z) : Z := foldl (fun n ch => 16 * n + HexValue ch) n digits.

(** The size a line announces: 1 to 32 hexadecimal digits whose value is a
    [SIZE_T], then nothing or an extension that a semicolon opens. *)
Definition chunk_size (line : list Z) : option Z :=
  let digits := until SEMICOLON line in
  if (zlen digits =? 0) || (zlen digits >? HttpMaxChunkSizeLineBytes)
     || negb (forallb IsHexDigit digits) || (hex_value 0 digits >=? 2 ^ 64)
  then None else Some (hex_value 0 digits).

(** A trailer field: a token, a colon, and a value less the white space around it. *)
Inductive trailer_field : list Z -> list Z * list Z -> Prop :=
  | trailer_field_intro name before value after :
      name <> [] -> forallb IsTchar name = true ->
      forallb is_ows before = true -> forallb is_ows after = true ->
      trim value = value ->
      trailer_field (name ++ COLON :: before ++ value ++ after) (name, value).

Inductive trailer_section : list Z -> list (list Z * list Z) -> Prop :=
  | trailer_end w : no_lf w -> strip w = [] -> trailer_section (w ++ [LF]) []
  | trailer_cons w field rest fields :
      no_lf w -> zlen (strip w) <= HttpMaxHeaderLineBytes -> trailer_field (strip w) field ->
      trailer_section rest fields -> trailer_section (w ++ LF :: rest) (field :: fields).

(** A body, with the payload of its chunks and its trailer fields. *)
Inductive chunked_body : list Z -> list (list Z) -> list (list Z * list Z) -> Prop :=
  | chunked_last w trailer fields :
      no_lf w -> chunk_size (strip w) = Some 0 -> trailer_section trailer fields ->
      chunked_body (w ++ LF :: trailer) [] fields
  | chunked_cons w data rest chunks fields :
      no_lf w -> data <> [] -> chunk_size (strip w) = Some (zlen data) ->
      chunked_body rest chunks fields ->
      chunked_body (w ++ LF :: data ++ CR :: LF :: rest) (data :: chunks) fields.

(** The grammar of RFC 9112, section 7.1: every line ends with CRLF and has no other
    carriage return or line feed.  A size is up to 32 digits, the extensions are any
    text, and there is no white space before the first of them. *)
Definition line_text (w : list Z) : Prop := Forall (fun ch => ch <> CR /\ ch <> LF) w.
Definition rfc_size_line (w : list Z) (n : Z) : Prop :=
  exists digits ext, w = digits ++ ext /\ digits <> [] /\ zlen digits <= HttpMaxChunkSizeLineBytes
    /\ forallb IsHexDigit digits = true /\ hex_value 0 digits = n /\ n < 2 ^ 64
    /\ (ext = [] \/ exists text, ext = SEMICOLON :: text) /\ line_text ext.
Inductive rfc_trailers : list Z -> list (list Z * list Z) -> Prop :=
  | rfc_trailers_end : rfc_trailers [CR; LF] []
  | rfc_trailers_field w field rest fields :
      line_text w -> zlen w <= HttpMaxHeaderLineBytes -> trailer_field w field -> rfc_trailers rest fields ->
      rfc_trailers (w ++ CR :: LF :: rest) (field :: fields).
Inductive rfc_body : list Z -> list (list Z) -> list (list Z * list Z) -> Prop :=
  | rfc_last w trailer fields :
      rfc_size_line w 0 -> rfc_trailers trailer fields -> rfc_body (w ++ CR :: LF :: trailer) [] fields
  | rfc_chunk w data rest chunks fields :
      rfc_size_line w (zlen data) -> data <> [] -> rfc_body rest chunks fields ->
      rfc_body (w ++ CR :: LF :: data ++ CR :: LF :: rest) (data :: chunks) fields.

(** The fields the decoder has stored, read back from its arena. *)
Definition field_of (arena : list Z) (h : HttpHeader) : list Z * list Z :=
  (zsub arena (fst (hd_Name h)) (snd (hd_Name h)),
   match hd_Value h with None => [] | Some (off, len) => zsub arena off len end).
Definition stored_fields (d : HttpChunkedDecoder) : list (list Z * list Z) :=
  map (field_of (cd_trailerArena d)) (cd_stored d).

Fixpoint field_bytes (fields : list (list Z * list Z)) : Z :=
  match fields with
  | [] => 0
  | (name, value) :: fields => zlen name + zlen value + field_bytes fields
  end.
(** The room the trailer storage has for some more fields. *)
Definition within_limits (d : HttpChunkedDecoder) (fields : list (list Z * list Z)) : Prop :=
  (fields = [] \/ cd_trailers d = true)
  /\ TrailerCount d + zlen fields <= cd_trailerCapacity d
  /\ zlen (cd_trailerArena d) + field_bytes fields <= cd_trailerArenaCapacity d.

(** A decoder at the start of a body, or between two chunks. *)
Record clean (d : HttpChunkedDecoder) : Prop := {
  cl_initialized : cd_initialized d = true;
  cl_state : cd_state d = SizeLine;
  cl_ext : cd_sawChunkExtension d = false;
  cl_digit : cd_sizeLineHasDigit d = false;
  cl_size : cd_sizeLine d = [];
}.
(** The trailer storage is in bounds, and so is every text in it. *)
Definition text_in (used : Z) (t : Z * Z) : Prop := 0 <= fst t /\ 0 <= snd t /\ fst t + snd t <= used.
Definition header_in (used : Z) (h : HttpHeader) : Prop :=
  text_in used (hd_Name h) /\ match hd_Value h with None => True | Some t => text_in used t end.
Record stored_ok (d : HttpChunkedDecoder) : Prop := {
  so_count : TrailerCount d <= cd_trailerCapacity d < 2 ^ 64;
  so_arena : zlen (cd_trailerArena d) <= cd_trailerArenaCapacity d < 2 ^ 63;
  so_headers : Forall (header_in (zlen (cd_trailerArena d))) (cd_stored d);
}.

(** ** Size lines *)

Lemma hex_digit_range ch : IsHexDigit ch = true -> 0 <= HexValue ch < 16.
Proof.
  unfold IsHexDigit, HexValue, in_chars, u8. intros H.
  assert (48 <= ch <= 57 \/ 97 <= ch <= 102 \/ 65 <= ch <= 70) as Hc.
  { repeat (apply orb_true_iff in H as [H|H]); bool_lia. }
  repeat case_if; rewrite Z.mod_small; bool_lia.
Qed.

Lemma hex_value_mono n digits :
  0 <= n -> forallb IsHexDigit digits = true -> n <= hex_value n digits.
Proof.
  revert n. induction digits as [|ch l IH]; intros n Hn; cbn [hex_value foldl forallb]; [lia|].
  intros [Hc Hl]%andb_true_iff. pose proof (hex_digit_range ch Hc).
  specialize (IH (16 * n + HexValue ch)). unfold hex_value in IH.
  assert (16 * n + HexValue ch <= foldl (fun n ch => 16 * n + HexValue ch) (16 * n + HexValue ch) l);
    [apply IH; [lia|done]|lia].
Qed.

Lemma accumulate_value n digits :
  0 <= n < 2 ^ 64 -> forallb IsHexDigit digits = true ->
  accumulate_size n digits
  = if hex_value n digits >=? 2 ^ 64 then None else Some (hex_value n digits).
Proof.
  revert n. induction digits as [|ch l IH]; intros n Hn Hd.
  { cbn. replace (n >=? 2 ^ 64) with false by (rewrite Z.geb_leb; symmetry; apply Z.leb_gt; lia). done. }
  pose proof Hd as Hd'. cbn [forallb] in Hd'. apply andb_true_iff in Hd' as [Hc Hl].
  cbn [accumulate_size]. rewrite Hc. cbn [negb]. pose proof (hex_digit_range ch Hc) as Hr.
  assert (Hm : MAXU64 -! HexValue ch = 2 ^ 64 - 1 - HexValue ch) by (apply u64_id; unfold MAXU64; lia).
  rewrite Hm. change (hex_value n (ch :: l)) with (hex_value (16 * n + HexValue ch) l).
  pose proof (Z.mul_succ_div_gt (2 ^ 64 - 1 - HexValue ch) 16 ltac:(lia)).
  pose proof (Z.mul_div_le (2 ^ 64 - 1 - HexValue ch) 16 ltac:(lia)).
  case_if; bool_prop.
  - pose proof (hex_value_mono (16 * n + HexValue ch) l ltac:(lia) Hl).
    replace (hex_value _ l >=? _) with true; [done|]. symmetry. rewrite Z.geb_leb. apply Z.leb_le. lia.
  - assert (16 * n + HexValue ch < 2 ^ 64) by lia.
    rewrite (u64_id (n * 16)), u64_id by lia. replace (n * 16 + HexValue ch) with (16 * n + HexValue ch) by lia.
    rewrite IH; [done|lia|done].
Qed.

Section Lines.
Context {C : Type}.
Variable onData : option (C -> list Z -> NTSTATUS * C).
Implicit Types (rest w : list Z) (d : HttpChunkedDecoder) (c : C).
Abbreviation feed := (feed onData).

(** A call that did not complete the body. *)
Definition unfinished (r : @fed C) : Prop := r.1.1.1 <> STATUS_SUCCESS.

(** A size line half read. *)
Definition in_size_line (s : list Z) (e : bool) (d : HttpChunkedDecoder) : HttpChunkedDecoder :=
  d <| cd_sizeLine := s |> <| cd_sizeLineHasDigit := negb (bool_decide (s = [])) |>
    <| cd_sawChunkExtension := e |>.

Fixpoint scan_size (s : list Z) (e : bool) (w : list Z) : option (list Z * bool) :=
  match w with
  | [] => Some (s, e)
  | ch :: w =>
      if ch =? CR then scan_size s e w
      else if e then scan_size s e w
      else if ch =? SEMICOLON then if bool_decide (s = []) then None else scan_size s true w
      else if negb (IsHexDigit ch) || (zlen s >=? HttpMaxChunkSizeLineBytes) then None
      else scan_size (s ++ [ch]) e w
  end.

Lemma feed_size_chars w rest off d c s e :
  cd_state d = SizeLine -> sized d -> no_lf w -> 0 <= off -> off + zlen (w ++ rest) < 2 ^ 64 ->
  match scan_size s e w with
  | Some (s', e') => feed (w ++ rest) off (in_size_line s e d) c
                     = feed rest (off + zlen w) (in_size_line s' e' d) c
  | None => unfinished (feed (w ++ rest) off (in_size_line s e d) c)
  end.
Proof.
  intros Hst Hs Hw. revert off s e. induction Hw as [|ch w Hch Hw IH]; intros off s e Ho Hb.
  { cbn. by rewrite Z.add_0_r. }
  cbn [app scan_size] in *. rewrite feed_size by done. rewrite zlen_cons in *.
  assert (IH' : forall s e, match scan_size s e w with
    | Some (s', e') => feed (w ++ rest) (off + 1) (in_size_line s e d) c
                       = feed rest (off + (1 + zlen w)) (in_size_line s' e' d) c
    | None => unfinished (feed (w ++ rest) (off + 1) (in_size_line s e d) c)
    end).
  { intros s' e'. rewrite Z.add_assoc. apply IH; lia. }
  unfold ProcessSizeLineChar. destruct (ch =? CR); [apply IH'|].
  replace (ch =? LF) with false by (symmetry; by apply Z.eqb_neq).
  cbn [cd_sawChunkExtension cd_sizeLineHasDigit cd_sizeLine in_size_line set_field].
  destruct e; [apply IH'|]. destruct (ch =? SEMICOLON).
  { rewrite negb_involutive. destruct (bool_decide (s = [])) eqn:E; [done|].
    specialize (IH' s true). unfold in_size_line in *. by rewrite E in *. }
  destruct (IsHexDigit ch); [|done]. cbn [negb orb]. destruct (_ >=? _); [done|].
  specialize (IH' (s ++ [ch]) false). unfold in_size_line in *.
  replace (bool_decide (s ++ [ch] = [])) with false in *; [exact IH'|].
  symmetry. apply bool_decide_eq_false. by destruct s.
Qed.

Lemma scan_extension s w : scan_size s true w = Some (s, true).
Proof. induction w as [|ch w IH]; [done|]. cbn. by case_if. Qed.

(** The scan keeps the digits before the first semicolon. *)
Lemma scan_size_spec s w :
  let digits := until SEMICOLON (strip w) in
  match scan_size s false w with
  | Some (s', _) => s' = s ++ digits /\ forallb IsHexDigit digits = true
                    /\ (zlen s <= HttpMaxChunkSizeLineBytes -> zlen s' <= HttpMaxChunkSizeLineBytes)
  | None => s ++ digits = [] \/ forallb IsHexDigit digits = false
            \/ zlen (s ++ digits) > HttpMaxChunkSizeLineBytes
  end.
Proof.
  revert s. induction w as [|ch w IH]; intros s.
  { cbn. by rewrite app_nil_r. }
  cbn [scan_size]. unfold strip. cbn [List.filter]. destruct (ch =? CR); cbn [negb].
  { apply IH. }
  cbn [until]. destruct (ch =? SEMICOLON).
  { rewrite app_nil_r. case_bool_decide; [by left|]. by rewrite scan_extension. }
  cbn [forallb]. destruct (IsHexDigit ch); cbn [negb orb]; [|tauto].
  destruct (zlen s >=? _) eqn:E; bool_prop.
  { right; right. rewrite zlen_app, zlen_cons.
    pose proof (zlen_nonneg (until SEMICOLON (strip w))). fold (strip w). lia. }
  specialize (IH (s ++ [ch])). cbn zeta in IH. fold (strip w).
  destruct (scan_size (s ++ [ch]) false w) as [[s' e']|].
  - destruct IH as (-> & ? & IH). rewrite <- app_assoc. split_and!; [done|done|].
    intros _. rewrite <- app_assoc in IH. apply IH. rewrite zlen_app, zlen_cons, zlen_nil. lia.
  - rewrite <- app_assoc in IH. exact IH.
Qed.

(** The decoder after a size line. *)
Definition after_size (n : Z) (d : HttpChunkedDecoder) : HttpChunkedDecoder :=
  if n =? 0
  then d <| cd_chunkRemaining := n |> <| cd_state := TrailerLine |> <| cd_trailerLine := [] |>
  else d <| cd_chunkRemaining := n |> <| cd_state := ChunkData |>.

Lemma clean_in_line d : clean d -> in_size_line [] false d = d.
Proof. destruct d. intros [? ? ? ? ?]. by simplify_eq/=. Qed.

Lemma finish_size s e d :
  clean d -> forallb IsHexDigit s = true -> zlen s <= HttpMaxChunkSizeLineBytes ->
  FinishSizeLine (in_size_line s e d)
  = match (if (zlen s =? 0) || (hex_value 0 s >=? 2 ^ 64) then None else Some (hex_value 0 s)) with
    | None => fail STATUS_INVALID_NETWORK_RESPONSE (in_size_line s e d)
    | Some n => (STATUS_SUCCESS, after_size n d)
    end.
Proof.
  intros Hc Hs Hl. unfold FinishSizeLine. cbn [cd_sizeLineHasDigit cd_sizeLine in_size_line set_field].
  rewrite negb_involutive. case_bool_decide as E; [by rewrite E|].
  replace (zlen s =? 0) with false by (symmetry; apply Z.eqb_neq; destruct s; [done|rewrite zlen_cons; pose proof (zlen_nonneg s); lia]).
  rewrite accumulate_value by (done || lia). cbn [orb]. case_if; [done|].
  destruct Hc as [H1 H2 H3 H4 H5]. unfold after_size. destruct d. cbn in *. subst.
  by case_if.
Qed.

Lemma feed_size_line w rest off d c :
  clean d -> sized d -> no_lf w -> 0 <= off -> off + zlen (w ++ LF :: rest) < 2 ^ 64 ->
  match chunk_size (strip w) with
  | Some n => feed (w ++ LF :: rest) off d c = feed rest (off + zlen w + 1) (after_size n d) c
  | None => unfinished (feed (w ++ LF :: rest) off d c)
  end.
Proof.
  intros Hc Hs Hw Ho Hb. pose proof Hc as [_ Hst _ _ _].
  pose proof (feed_size_chars w (LF :: rest) off d c [] false Hst Hs Hw Ho Hb) as Hf.
  rewrite (clean_in_line d Hc) in Hf.
  pose proof (scan_size_spec [] w) as Hspec. cbn zeta in Hspec. rewrite !app_nil_l in Hspec.
  unfold chunk_size. set (digits := until SEMICOLON (strip w)) in *.
  rewrite zlen_app in Hb. pose proof (zlen_nonneg w).
  destruct (scan_size [] false w) as [[s e]|].
  - destruct Hspec as (-> & Hhex & Hlen). specialize (Hlen ltac:(done)).
    rewrite Hhex. cbn [negb]. rewrite orb_false_r.
    replace (zlen digits >? _) with false by (symmetry; rewrite Z.gtb_ltb; apply Z.ltb_ge; lia).
    rewrite orb_false_r, Hf. rewrite feed_size; [|done|done|lia|lia].
    unfold ProcessSizeLineChar. change (LF =? CR) with false. change (LF =? LF) with true. cbn iota.
    rewrite finish_size by done. by case_if.
  - destruct (_ || _) eqn:E; [done|]. bool_prop. destruct Hspec as [Hn|[Hn|Hn]].
    + by rewrite Hn in *.
    + by rewrite Hn in *.
    + lia.
Qed.

Lemma feed_size_open w off d c :
  clean d -> sized d -> no_lf w -> 0 <= off -> off + zlen w < 2 ^ 64 -> unfinished (feed w off d c).
Proof.
  intros Hc Hs Hw Ho Hb. pose proof Hc as [_ Hst _ _ _]. rewrite <- (clean_in_line d Hc).
  pose proof (feed_size_chars w [] off d c [] false Hst Hs Hw Ho) as Hf. rewrite app_nil_r in Hf.
  specialize (Hf Hb). destruct (scan_size [] false w) as [[s e]|]; [|done].
  rewrite Hf, feed_nil. cbn [cd_state in_size_line set_field]. by rewrite Hst.
Qed.
End Lines.

(** ** Trailer fields *)

Lemma trim_left_ows ws l : forallb is_ows ws = true -> trim_left (ws ++ l) = trim_left l.
Proof.
  induction ws as [|ch ws IH]; [done|]. cbn. intros [Hc Hw]%andb_true_iff. rewrite Hc. by apply IH.
Qed.
Lemma trim_left_split l : exists ws, l = ws ++ trim_left l /\ forallb is_ows ws = true.
Proof.
  induction l as [|ch l (ws & E & IH)]; [by exists []|]. cbn. destruct (is_ows ch) eqn:Hc.
  - exists (ch :: ws). cbn. rewrite Hc, IH. split; [|done]. by f_equal.
  - by exists [].
Qed.
(** A list that starts with no white space. *)
Definition starts (l : list Z) : Prop := match l with [] => True | ch :: _ => is_ows ch = false end.
Lemma trim_left_starts l : starts (trim_left l).
Proof. induction l as [|ch l IH]; [done|]. cbn. by destruct (is_ows ch) eqn:E. Qed.
Lemma starts_trim_left l : starts l -> trim_left l = l.
Proof. destruct l; [done|]. cbn. by intros ->. Qed.
Lemma starts_app l k : l <> [] -> starts l -> starts (l ++ k).
Proof. by destruct l. Qed.
Lemma starts_prefix l k : starts (l ++ k) -> starts l.
Proof. by destruct l. Qed.
Lemma ows_rev ws : forallb is_ows (rev ws) = forallb is_ows ws.
Proof.
  induction ws as [|ch ws IH]; [done|]. cbn. rewrite forallb_app, IH. cbn.
  rewrite andb_true_r. apply andb_comm.
Qed.

Lemma trim_split l :
  exists before after, l = before ++ trim l ++ after
    /\ forallb is_ows before = true /\ forallb is_ows after = true.
Proof.
  destruct (trim_left_split l) as (b & Hb & Hbw). unfold trim.
  destruct (trim_left_split (rev (trim_left l))) as (a & Ha & Haw).
  exists b, (rev a). rewrite ows_rev. split_and!; [|done..].
  rewrite <- rev_app_distr, <- Ha, rev_involutive. done.
Qed.

Lemma trim_starts l : starts (trim l) /\ starts (rev (trim l)).
Proof.
  unfold trim. rewrite rev_involutive. split; [|apply trim_left_starts].
  destruct (trim_left_split (rev (trim_left l))) as (a & Ha & _).
  apply (starts_prefix _ (rev a)). rewrite <- rev_app_distr, <- Ha, rev_involutive.
  apply trim_left_starts.
Qed.
Lemma trim_fix l : trim l = l <-> starts l /\ starts (rev l).
Proof.
  split; [intros <-; apply trim_starts|]. intros [H1 H2]. unfold trim.
  by rewrite (starts_trim_left l), starts_trim_left, rev_involutive.
Qed.
Lemma trim_idem l : trim (trim l) = trim l.
Proof. apply trim_fix, trim_starts. Qed.

Lemma trim_padded before value after :
  trim value = value -> forallb is_ows before = true -> forallb is_ows after = true ->
  trim (before ++ value ++ after) = value.
Proof.
  intros Hv Hb Ha. apply trim_fix in Hv as [Hs1 Hs2]. unfold trim. rewrite trim_left_ows by done.
  destruct (decide (value = [])) as [->|Hne].
  { rewrite app_nil_l. rewrite <- (app_nil_r after), trim_left_ows by done. done. }
  rewrite (starts_trim_left (value ++ after)) by (by apply starts_app).
  rewrite rev_app_distr, trim_left_ows by (by rewrite ows_rev).
  by rewrite starts_trim_left, rev_involutive.
Qed.

Lemma trim_length l : zlen (trim l) <= zlen l.
Proof.
  destruct (trim_split l) as (b & a & E & _ & _). rewrite E at 2. rewrite !zlen_app.
  pose proof (zlen_nonneg b). pose proof (zlen_nonneg a). lia.
Qed.

Lemma find_colon_range line : 0 <= find_colon line <= zlen line.
Proof.
  induction line as [|ch l IH]; cbn [find_colon]; [done|]. rewrite zlen_cons. case_if; lia.
Qed.
Lemma find_colon_split line :
  find_colon line <> zlen line ->
  line = ztake (find_colon line) line ++ COLON :: zdrop (find_colon line + 1) line.
Proof.
  unfold ztake, zdrop. induction line as [|ch l IH]; [done|]. cbn [find_colon].
  pose proof (find_colon_range l). rewrite zlen_cons. case_if; bool_prop; intros Hn.
  - by subst.
  - replace (Z.to_nat (1 + find_colon l)) with (S (Z.to_nat (find_colon l))) by lia.
    replace (Z.to_nat (1 + find_colon l + 1)) with (S (Z.to_nat (find_colon l + 1))) by lia.
    cbn. f_equal. apply IH. lia.
Qed.
Lemma find_colon_name name rest :
  forallb IsTchar name = true -> find_colon (name ++ COLON :: rest) = zlen name.
Proof.
  induction name as [|ch l IH]; [done|]. cbn [app find_colon forallb]. intros [Hc Hl]%andb_true_iff.
  rewrite zlen_cons, IH by done. case_if; [|done]. bool_prop. subst. by vm_compute in Hc.
Qed.

(** The parsing of [FinishTrailerLine]. *)
Definition parse_field (line : list Z) : option (list Z * list Z) :=
  let colon := find_colon line in
  if (colon =? 0) || (colon =? zlen line) || negb (forallb IsTchar (ztake colon line)) then None
  else Some (ztake colon line, trim (zdrop (colon + 1) line)).

Lemma parse_field_spec line field : parse_field line = Some field <-> trailer_field line field.
Proof.
  unfold parse_field. split.
  - case_if; [done|]. intros [= <-]. bool_prop. pose proof (find_colon_range line).
    destruct (trim_split (zdrop (find_colon line + 1) line)) as (b & a & E & Hb & Ha).
    rewrite (find_colon_split line) at 1 by done. rewrite E at 1.
    apply trailer_field_intro; try done; [|apply trim_idem].
    intros Hn. apply (f_equal zlen) in Hn. rewrite zlen_ztake in Hn by lia. done.
  - intros [name before value after Hn Ht Hb Ha Hv]. rewrite find_colon_name by done.
    rewrite ztake_app_len, Ht, zlen_app, zlen_cons. cbn [negb].
    pose proof (zlen_nonneg (before ++ value ++ after)).
    replace (zlen name =? 0) with false.
    2: { symmetry. apply Z.eqb_neq. destruct name; [done|]. rewrite zlen_cons. pose proof (zlen_nonneg name). lia. }
    replace (_ =? _) with false by (symmetry; apply Z.eqb_neq; lia). cbn [orb].
    rewrite zdrop_app_plus by lia. change (zdrop 1 (COLON :: ?l)) with l.
    do 2 f_equal. by apply trim_padded.
Qed.

(** The decoder after it has stored a field. *)
Definition store (field : list Z * list Z) (d : HttpChunkedDecoder) : HttpChunkedDecoder :=
  let '(name, value) := field in
  let used := zlen (cd_trailerArena d) in
  d <| cd_trailerArena := cd_trailerArena d ++ name ++ value |>
    <| cd_stored := cd_stored d
         ++ [MkHeader (used, zlen name)
               (if zlen value =? 0 then None else Some (used + zlen name, zlen value))] |>
    <| cd_trailerLine := [] |>.

Lemma zsub_app_l {A} (l k : list A) off n :
  0 <= off -> 0 <= n -> off + n <= zlen l -> zsub (l ++ k) off n = zsub l off n.
Proof.
  unfold zsub, ztake, zdrop, zlen. intros. rewrite drop_app_le by lia.
  apply take_app_le. rewrite length_drop. lia.
Qed.
Lemma zsub_app_mid {A} (l k r : list A) : zsub (l ++ k ++ r) (zlen l) (zlen k) = k.
Proof. unfold zsub. by rewrite zdrop_app_len, ztake_app_len. Qed.

Lemma field_of_app arena more h : header_in (zlen arena) h -> field_of (arena ++ more) h = field_of arena h.
Proof.
  destruct h as [[no nl] v]. intros [(? & ? & ?) Hv]. unfold field_of. cbn in *.
  rewrite zsub_app_l by done. f_equal. destruct v as [[vo vl]|]; [|done].
  destruct Hv as (? & ? & ?). by apply zsub_app_l.
Qed.

Lemma stored_fields_store field d :
  stored_ok d -> stored_fields (store field d) = stored_fields d ++ [field].
Proof.
  intros [_ _ Hh]. destruct field as [name value]. unfold stored_fields, store.
  cbn [cd_trailerArena cd_stored set_field]. rewrite map_app. f_equal.
  - apply map_ext_Forall. eapply Forall_impl; [exact Hh|]. intros h. apply field_of_app.
  - cbn [map]. unfold field_of. cbn [hd_Name hd_Value fst snd]. rewrite zsub_app_mid.
    do 2 f_equal. case_if; bool_prop; cbn [fst snd].
    + by destruct value; [|rewrite zlen_cons in *; pose proof (zlen_nonneg value); lia].
    + rewrite app_assoc, <- zlen_app. rewrite <- (app_nil_r value) at 1. apply zsub_app_mid.
Qed.

Lemma stored_ok_store field d :
  stored_ok d -> within_limits d [field] -> stored_ok (store field d).
Proof.
  intros [Hc Ha Hh] (_ & Hn & Hb). destruct field as [name value]. unfold within_limits, TrailerCount in *.
  cbn [field_bytes] in Hb. change (zlen [(name, value)]) with 1 in Hn. pose proof (zlen_nonneg name). pose proof (zlen_nonneg value).
  pose proof (zlen_nonneg (cd_trailerArena d)).
  constructor; unfold TrailerCount, store; cbn [cd_stored cd_trailerCapacity cd_trailerArena cd_trailerArenaCapacity set_field];
    rewrite ?zlen_app, ?zlen_cons, ?zlen_nil; [lia|lia|].
  apply Forall_app. split.
  - eapply Forall_impl; [exact Hh|]. intros [[? ?] v] [(? & ? & ?) Hv]. unfold header_in, text_in in *.
    cbn in *. split; [lia|]. destruct v as [[? ?]|]; [cbn in *; lia|done].
  - constructor; [|constructor]. unfold header_in, text_in. cbn. split; [lia|]. case_if; [done|]. cbn. lia.
Qed.

Lemma within_limits_cons d field fields :
  stored_ok d ->
  within_limits d (field :: fields) <-> within_limits d [field] /\ within_limits (store field d) fields.
Proof.
  intros [Hc Ha Hh]. destruct field as [name value]. unfold within_limits, TrailerCount, store.
  cbn [field_bytes cd_stored cd_trailers cd_trailerCapacity cd_trailerArena cd_trailerArenaCapacity set_field].
  autorewrite with zlen. pose proof (zlen_nonneg fields).
  assert (0 <= field_bytes fields).
  { induction fields as [|[n v] l IH]; cbn; [lia|]. pose proof (zlen_nonneg n). pose proof (zlen_nonneg v).
    rewrite zlen_cons in *. specialize (IH (zlen_nonneg l)). lia. }
  split.
  - intros ([?|?] & ? & ?); [done|]. split_and!; auto; lia.
  - intros (([?|?] & ? & ?) & _ & ? & ?); [done|]. split_and!; auto; lia.
Qed.
Lemma within_limits_nil d : stored_ok d -> within_limits d [].
Proof. intros [? ? _]. unfold within_limits. cbn. rewrite zlen_nil. split_and!; [by left|lia..]. Qed.

Definition within_limitsb (d : HttpChunkedDecoder) (field : list Z * list Z) : bool :=
  negb (zlen (fst field) + zlen (snd field) >? cd_trailerArenaCapacity d - zlen (cd_trailerArena d))
  && (cd_trailers d && negb (zlen (cd_stored d) >=? cd_trailerCapacity d)).

Lemma within_limitsb_spec d field : within_limitsb d field = true <-> within_limits d [field].
Proof.
  unfold within_limitsb, within_limits, TrailerCount. destruct field as [name value]. cbn [fst snd field_bytes].
  rewrite zlen_cons, zlen_nil, !andb_true_iff, !negb_true_iff, Z.gtb_ltb, Z.geb_leb, Z.ltb_ge, Z.leb_gt.
  split; [intros (? & ? & ?); split_and!; auto; lia|].
  intros ([?|?] & ? & ?); [done|]. split_and!; auto; lia.
Qed.

Lemma finish_trailer d :
  cd_initialized d = true -> stored_ok d -> cd_trailerLine d <> [] ->
  zlen (cd_trailerLine d) <= HttpMaxHeaderLineBytes ->
  match parse_field (cd_trailerLine d) with
  | Some field =>
      if within_limitsb d field then FinishTrailerLine d = (STATUS_SUCCESS, store field d)
      else NT_SUCCESS (fst (FinishTrailerLine d)) = false
  | None => NT_SUCCESS (fst (FinishTrailerLine d)) = false
  end.
Proof.
  intros Hi [Hc Ha _] Hne Hl. unfold FinishTrailerLine, parse_field. unfold TrailerCount in Hc.
  set (line := cd_trailerLine d) in *. pose proof (find_colon_range line).
  pose proof (zlen_nonneg (cd_stored d)). pose proof (zlen_nonneg (cd_trailerArena d)).
  replace (zlen line =? 0) with false.
  2: { symmetry. apply Z.eqb_neq. destruct line; [done|]. rewrite zlen_cons. pose proof (zlen_nonneg line). lia. }
  destruct (_ || (find_colon line =? zlen line)) eqn:E; [done|]. destruct (forallb _ _) eqn:Ht; [|done].
  cbn [negb orb]. bool_prop. unfold within_limitsb. cbn [fst snd]. rewrite Hi. cbn [negb orb].
  assert (Hn : zlen (ztake (find_colon line) line) = find_colon line) by (apply zlen_ztake; lia).
  pose proof (trim_length (zdrop (find_colon line + 1) line)) as Hv.
  pose proof (zlen_nonneg (trim (zdrop (find_colon line + 1) line))).
  rewrite zlen_zdrop in Hv by lia. unfold HttpMaxHeaderLineBytes in Hl.
  rewrite !u64_id by lia. destruct (_ >? _); [done|]. cbn [negb andb].
  destruct (cd_trailers d); [|done]. cbn [negb orb andb]. by destruct (_ >=? _).
Qed.

Lemma split_line l : no_lf l \/ exists w rest, l = w ++ LF :: rest /\ no_lf w.
Proof.
  induction l as [|ch l IH]; [left; constructor|]. destruct (decide (ch = LF)) as [->|Hn].
  { right. exists [], l. split; [done|constructor]. }
  destruct IH as [IH|(w & rest & -> & Hw)]; [left; by constructor|].
  right. exists (ch :: w), rest. split; [done|by constructor].
Qed.
Lemma strip_length w : zlen (strip w) <= zlen w.
Proof.
  induction w as [|ch w IH]; [done|]. unfold strip. cbn [List.filter].
  destruct (negb _); fold (strip w); rewrite ?zlen_cons in *; lia.
Qed.

Section Trailers.
Context {C : Type}.
Variable onData : option (C -> list Z -> NTSTATUS * C).
Implicit Types (rest w : list Z) (d : HttpChunkedDecoder) (c : C).
Abbreviation feed := (feed onData).

(** A decoder that reads the trailer section. *)
Record in_trailer (d : HttpChunkedDecoder) : Prop := {
  it_initialized : cd_initialized d = true;
  it_state : cd_state d = TrailerLine;
  it_sized : sized d;
  it_stored : stored_ok d;
}.

Lemma in_trailer_line d line : in_trailer d -> in_trailer (d <| cd_trailerLine := line |>).
Proof. intros [? ? ? [? ? ?]]. by constructor. Qed.

Lemma feed_trailer_chars w rest off d c line :
  in_trailer d -> no_lf w -> 0 <= off -> off + zlen (w ++ rest) < 2 ^ 64 ->
  zlen line <= HttpMaxHeaderLineBytes ->
  if zlen line + zlen (strip w) <=? HttpMaxHeaderLineBytes
  then feed (w ++ rest) off (d <| cd_trailerLine := line |>) c
       = feed rest (off + zlen w) (d <| cd_trailerLine := line ++ strip w |>) c
  else unfinished (feed (w ++ rest) off (d <| cd_trailerLine := line |>) c).
Proof.
  intros Hd Hw. revert off line. induction Hw as [|ch w Hch Hw IH]; intros off line Ho Hb Hl.
  { cbn. rewrite Z.add_0_r, app_nil_r. replace (_ <=? _) with true; [by rewrite Z.add_0_r|].
    symmetry. apply Z.leb_le. lia. }
  pose proof (in_trailer_line d line Hd) as [Hi Hst Hs _].
  cbn [app] in *. rewrite feed_trailer by done. rewrite zlen_cons in *.
  unfold ProcessTrailerLineChar. replace (ch =? LF) with false by (symmetry; by apply Z.eqb_neq).
  unfold strip. cbn [List.filter]. destruct (ch =? CR); cbn [negb]; fold (strip w).
  { cbn. replace (bool_decide _) with false by (symmetry; apply bool_decide_eq_false; cbn; by rewrite (it_state d Hd)).
    rewrite Z.add_assoc. apply IH; lia. }
  cbn [cd_initialized cd_trailerLine set_field]. rewrite (it_initialized d Hd). cbn [negb orb].
  pose proof (zlen_nonneg (strip w)). rewrite zlen_cons.
  destruct (_ >=? _) eqn:E; bool_prop.
  { replace (_ <=? _) with false by (symmetry; apply Z.leb_gt; lia). done. }
  cbn. replace (bool_decide _) with false by (symmetry; apply bool_decide_eq_false; cbn; by rewrite (it_state d Hd)).
  specialize (IH (off + 1) (line ++ [ch])).
  assert (El : zlen (line ++ [ch]) = zlen line + 1) by apply zlen_app. rewrite El in IH.
  rewrite <- app_assoc in IH. replace (zlen line + 1 + zlen (strip w)) with (zlen line + (1 + zlen (strip w))) in IH by lia.
  replace (off + 1 + zlen w) with (off + (1 + zlen w)) in IH by lia. apply IH; lia.
Qed.

Lemma feed_trailer_line w rest off d c :
  in_trailer d -> cd_trailerLine d = [] -> no_lf w -> 0 <= off -> off + zlen (w ++ LF :: rest) < 2 ^ 64 ->
  if bool_decide (strip w = [])
  then exists d', feed (w ++ LF :: rest) off d c = (STATUS_SUCCESS, off + zlen w + 1, d', c)
         /\ cd_stored d' = cd_stored d /\ cd_trailerArena d' = cd_trailerArena d
  else
    match (if zlen (strip w) <=? HttpMaxHeaderLineBytes then parse_field (strip w) else None) with
    | Some field =>
        if within_limitsb d field
        then feed (w ++ LF :: rest) off d c = feed rest (off + zlen w + 1) (store field d) c
        else unfinished (feed (w ++ LF :: rest) off d c)
    | None => unfinished (feed (w ++ LF :: rest) off d c)
    end.
Proof.
  intros Hd Hl Hw Ho Hb. pose proof (zlen_nonneg w).
  pose proof (feed_trailer_chars w (LF :: rest) off d c [] Hd Hw Ho Hb ltac:(done)) as Hf.
  replace (d <| cd_trailerLine := [] |>) with d in Hf by (destruct d; cbn in *; by subst).
  rewrite zlen_nil, Z.add_0_l, app_nil_l in Hf. rewrite zlen_app in Hb.
  set (d1 := d <| cd_trailerLine := strip w |>) in *.
  pose proof (in_trailer_line d (strip w) Hd) as Hd1. fold d1 in Hd1. pose proof Hd1 as [Hi Hst Hs Hk].
  destruct (zlen (strip w) <=? _) eqn:Hlen.
  2: { case_bool_decide as E; [|done]. by rewrite E in Hlen. }
  bool_prop. rewrite feed_trailer in Hf; [|done|done|lia|lia].
  change (ProcessTrailerLineChar LF d1) with (FinishTrailerLine d1) in Hf.
  case_bool_decide as E.
  { unfold FinishTrailerLine in Hf. change (cd_trailerLine d1) with (strip w) in Hf.
    rewrite E in Hf. cbn in Hf. eexists. split; [exact Hf|]. done. }
  pose proof (finish_trailer d1 Hi Hk E Hlen) as Hfin. change (cd_trailerLine d1) with (strip w) in Hfin.
  destruct (parse_field (strip w)) as [field|].
  - change (within_limitsb d1 field) with (within_limitsb d field) in Hfin.
    destruct (within_limitsb d field).
    + rewrite Hfin in Hf. cbn [NT_SUCCESS negb] in Hf.
      replace (bool_decide _) with false in Hf; [by destruct field|].
      symmetry. apply bool_decide_eq_false. destruct field. change (cd_state _) with (cd_state d1). by rewrite Hst.
    + destruct (FinishTrailerLine d1) as [s d2]. cbn [fst] in Hfin. rewrite Hfin in Hf. cbn [negb] in Hf. rewrite Hf.
      unfold unfinished. cbn. by intros ->.
  - destruct (FinishTrailerLine d1) as [s d2]. cbn [fst] in Hfin. rewrite Hfin in Hf. cbn [negb] in Hf. rewrite Hf.
    unfold unfinished. cbn. by intros ->.
Qed.

Lemma in_trailer_store d field :
  in_trailer d -> within_limits d [field] -> in_trailer (store field d).
Proof.
  intros [? ? ? ?] Hl. pose proof (stored_ok_store field d ltac:(done) Hl). destruct field. by constructor.
Qed.
Lemma store_line field d : cd_trailerLine (store field d) = [].
Proof. by destruct field. Qed.

Lemma trailers_complete t fields :
  trailer_section t fields -> forall rest off d c,
  in_trailer d -> cd_trailerLine d = [] -> within_limits d fields ->
  0 <= off -> off + zlen (t ++ rest) < 2 ^ 64 ->
  exists d', feed (t ++ rest) off d c = (STATUS_SUCCESS, off + zlen t, d', c)
    /\ stored_fields d' = stored_fields d ++ fields.
Proof.
  induction 1 as [w Hw Hs|w field t fields Hw Hlen Hf Ht IH]; intros rest off d c Hd Hl Hlim Ho Hb;
    rewrite <- app_assoc in *; cbn [app] in *; rewrite zlen_app; rewrite ?zlen_cons, ?zlen_nil.
  - pose proof (feed_trailer_line w rest off d c Hd Hl Hw Ho Hb) as H. rewrite Hs in H.
    destruct H as (d' & E & E1 & E2). exists d'. unfold stored_fields. rewrite E1, E2, app_nil_r.
    split; [|done]. rewrite E. do 3 f_equal. lia.
  - pose proof (feed_trailer_line w (t ++ rest) off d c Hd Hl Hw Ho Hb) as H.
    apply within_limits_cons in Hlim as [Hlim Hlims]; [|apply Hd].
    assert (strip w <> []) as Hne.
    { intros E. rewrite E in Hf. by inversion Hf as [[|? ?] ? ? ? ? ? ? ? ? E1]. }
    rewrite bool_decide_eq_false_2 in H by done. apply Z.leb_le in Hlen. rewrite Hlen in H.
    apply parse_field_spec in Hf. rewrite Hf in H. pose proof Hlim as Hlimb.
    apply within_limitsb_spec in Hlimb. rewrite Hlimb in H. rewrite H.
    rewrite zlen_app, zlen_cons in Hb. pose proof (zlen_nonneg w).
    destruct (IH rest (off + zlen w + 1) (store field d) c) as (d' & E & E1);
      [by apply in_trailer_store|apply store_line|done|lia|lia|].
    exists d'. rewrite E, E1, stored_fields_store by apply Hd. rewrite <- app_assoc.
    split; [|done]. do 3 f_equal. lia.
Qed.

(** What a completed section of a body reads, and how it leaves the decoder. *)
Definition reads_trailers rest off d c (r : @fed C) : Prop :=
  exists t rest' fields d', r = (STATUS_SUCCESS, off + zlen t, d', c) /\ rest = t ++ rest'
    /\ trailer_section t fields /\ within_limits d fields
    /\ stored_fields d' = stored_fields d ++ fields.

Lemma unfinished_or_not (r : @fed C) (P : Prop) : unfinished r -> r.1.1.1 = STATUS_SUCCESS -> P.
Proof. done. Qed.

Lemma trailers_sound k rest off d c :
  zlen rest <= k -> in_trailer d -> cd_trailerLine d = [] -> 0 <= off -> off + zlen rest < 2 ^ 64 ->
  (feed rest off d c).1.1.1 = STATUS_SUCCESS -> reads_trailers rest off d c (feed rest off d c).
Proof.
  intros Hk Hd Hl Ho Hb. pose proof (zlen_nonneg rest) as Hk0.
  assert (0 <= k) as Hk1 by lia. revert rest off d Hk Hd Hl Ho Hb Hk0.
  refine (natlike_ind (fun k => forall rest off d, zlen rest <= k -> in_trailer d -> cd_trailerLine d = [] ->
    0 <= off -> off + zlen rest < 2 ^ 64 -> 0 <= zlen rest -> (feed rest off d c).1.1.1 = STATUS_SUCCESS ->
    reads_trailers rest off d c (feed rest off d c)) _ _ k Hk1); clear k Hk1.
  { intros rest off d Hk Hd Hl Ho Hb Hk0 H. destruct rest; [|rewrite zlen_cons in Hk; pose proof (zlen_nonneg rest); lia].
    rewrite feed_nil, (it_state d Hd) in H. done. }
  intros k Hk1 IH rest off d Hk Hd Hl Ho Hb Hk0 H.
  destruct (split_line rest) as [Hno|(w & rest' & -> & Hw)].
  { pose proof (feed_trailer_chars rest [] off d c [] Hd Hno Ho) as Hf.
    rewrite app_nil_r in Hf. specialize (Hf Hb ltac:(done)).
    replace (d <| cd_trailerLine := [] |>) with d in Hf by (destruct d; cbn in *; by subst).
    case_if_in Hf; [|by destruct Hf]. rewrite Hf, feed_nil in H. cbn [cd_state set_field] in H.
    by rewrite (it_state d Hd) in H. }
  pose proof (feed_trailer_line w rest' off d c Hd Hl Hw Ho Hb) as Hf.
  rewrite zlen_app, zlen_cons in *. pose proof (zlen_nonneg w). pose proof (zlen_nonneg rest').
  case_bool_decide as E.
  { destruct Hf as (d' & E0 & E1 & E2). rewrite E0. exists (w ++ [LF]), rest', [], d'.
    unfold stored_fields. rewrite E1, E2, app_nil_r, zlen_app, <- app_assoc. cbn [app].
    split_and!; [do 3 f_equal; change (zlen [LF]) with 1; lia|done|by constructor|by apply within_limits_nil, Hd|done]. }
  destruct (zlen (strip w) <=? _) eqn:Hlen; [|by destruct Hf].
  destruct (parse_field (strip w)) as [field|] eqn:Hp; [|by destruct Hf].
  destruct (within_limitsb d field) eqn:Hlim; [|by destruct Hf].
  rewrite Hf in H |- *. apply within_limitsb_spec in Hlim. apply parse_field_spec in Hp.
  destruct (IH rest' (off + zlen w + 1) (store field d)) as (t & r2 & fields & d' & E0 & -> & Ht & Hlims & E1);
    [lia|by apply in_trailer_store|apply store_line|lia|lia|lia|done|].
  rewrite E0. exists (w ++ LF :: t), r2, (field :: fields), d'.
  rewrite E1, stored_fields_store by apply Hd. rewrite <- !app_assoc, zlen_app, zlen_cons.
  split_and!; [do 3 f_equal; lia|done| |by apply within_limits_cons; [apply Hd|]|done].
  constructor; [done| |done|done]. by apply Z.leb_le.
Qed.
End Trailers.

Section Body.
Context {C : Type}.
Variable onData : option (C -> list Z -> NTSTATUS * C).
Implicit Types (rest w data : list Z) (d : HttpChunkedDecoder) (c : C).
Abbreviation feed := (feed onData).
Hypothesis Haccepts : accepts onData.

(** A decoder that expects a size line. *)
Record in_body (d : HttpChunkedDecoder) : Prop := {
  ib_clean : clean d;
  ib_sized : sized d;
  ib_stored : stored_ok d;
}.

Lemma in_trailer_last d : in_body d -> in_trailer (after_size 0 d).
Proof. intros [[? ? ? ? ?] ? [? ? ?]]. by constructor. Qed.

(** The decoder after a chunk. *)
Definition next_chunk (d : HttpChunkedDecoder) : HttpChunkedDecoder := d <| cd_chunkRemaining := 0 |>.

Lemma in_body_next d : in_body d -> in_body (next_chunk d).
Proof. by intros [[? ? ? ? ?] ? [? ? ?]]. Qed.

Lemma feed_chunk data rest off d c :
  in_body d -> data <> [] -> 0 <= off -> off + zlen (data ++ CR :: LF :: rest) < 2 ^ 64 ->
  feed (data ++ CR :: LF :: rest) off (after_size (zlen data) d) c
  = feed rest (off + zlen data + 2) (next_chunk d) (received onData c [data]).
Proof.
  intros [Hc _ _] Hne Ho Hb. pose proof (zlen_nonneg data). pose proof (zlen_nonneg rest).
  assert (Hz : (zlen data =? 0) = false).
  { apply Z.eqb_neq. destruct data; [done|]. rewrite zlen_cons in *. pose proof (zlen_nonneg data). lia. }
  rewrite feed_data; [|done|unfold after_size; by rewrite Hz|done|unfold after_size; by rewrite Hz|done|done].
  rewrite zlen_app, !zlen_cons in Hb.
  assert (Hs : sized ((after_size (zlen data) d) <| cd_chunkRemaining := 0 |>)) by (unfold sized; cbn; lia).
  rewrite feed_cr; [|done|exact Hs|lia|rewrite !zlen_cons; lia]. change (CR =? CR) with true. cbn [negb].
  rewrite feed_lf; [|done|exact Hs|lia|rewrite zlen_cons; lia]. change (LF =? LF) with true. cbn [negb].
  replace (off + zlen data + 1 + 1) with (off + zlen data + 2) by lia. f_equal.
  unfold after_size. rewrite Hz. destruct Hc as [H1 H2 H3 H4 H5]. destruct d. cbn in *. by subst.
Qed.

(** Payload that is cut short, or not followed by its line break, completes nothing. *)
Lemma feed_chunk_bad n rest off d c :
  n <> 0 -> 0 <= n < 2 ^ 64 -> 0 <= off -> off + zlen rest < 2 ^ 64 ->
  (feed rest off (after_size n d) c).1.1.1 = STATUS_SUCCESS ->
  exists data rest', rest = data ++ CR :: LF :: rest' /\ zlen data = n.
Proof.
  intros Hn Hn' Ho Hb H. assert (Hz : (n =? 0) = false) by (by apply Z.eqb_neq).
  assert (Hst : cd_state (after_size n d) = ChunkData) by (unfold after_size; by rewrite Hz).
  assert (Hr : cd_chunkRemaining (after_size n d) = n) by (unfold after_size; by rewrite Hz).
  destruct (decide (rest = [])) as [->|Hne]; [by rewrite feed_nil, Hst in H|].
  destruct (Z.lt_ge_cases (zlen rest) n) as [Hlt|Hge].
  { by rewrite feed_data_cut in H; [|done|done|done|lia|done|done]. }
  set (data := ztake n rest). assert (Hd : zlen data = n) by (apply zlen_ztake; lia).
  pose proof (ztake_zdrop n rest) as E. fold data in E. set (tl := zdrop n rest) in *. clearbody data tl. subst rest.
  assert (data <> []) as Hdne. { intros ->. change (zlen (@nil Z)) with 0 in Hd. lia. }
  rewrite feed_data in H; [|done|done|done|lia|done|done]. rewrite zlen_app in Hb.
  assert (Hs : sized ((after_size n d) <| cd_chunkRemaining := 0 |>)) by (unfold sized; cbn; lia).
  pose proof (zlen_nonneg tl). destruct tl as [|x tl]; [by rewrite feed_nil in H|]. rewrite zlen_cons in *.
  pose proof (zlen_nonneg tl).
  rewrite feed_cr in H; [|done|exact Hs|lia|rewrite zlen_cons; lia].
  destruct (x =? CR) eqn:E1; [|done]. cbn [negb] in H. bool_prop. subst x.
  destruct tl as [|x tl]; [by rewrite feed_nil in H|]. rewrite zlen_cons in *. pose proof (zlen_nonneg tl).
  rewrite feed_lf in H; [|done|exact Hs|lia|rewrite zlen_cons; lia].
  destruct (x =? LF) eqn:E2; [|done]. bool_prop. subst x. by exists data, tl.
Qed.

Lemma within_limits_next d fields : within_limits (next_chunk d) fields <-> within_limits d fields.
Proof. done. Qed.

Lemma body_complete body chunks fields :
  chunked_body body chunks fields -> forall rest off d c,
  in_body d -> within_limits d fields -> 0 <= off -> off + zlen (body ++ rest) < 2 ^ 64 ->
  exists d', feed (body ++ rest) off d c = (STATUS_SUCCESS, off + zlen body, d', received onData c chunks)
    /\ stored_fields d' = stored_fields d ++ fields.
Proof.
  induction 1 as [w t fields Hw Hn Ht|w data body chunks fields Hw Hne Hn Hbody IH];
    intros rest off d c Hd Hlim Ho Hb; rewrite <- !app_assoc in *; cbn [app] in *;
    pose proof (zlen_nonneg w).
  - pose proof (feed_size_line onData w (t ++ rest) off d c (ib_clean d Hd) (ib_sized d Hd) Hw Ho Hb) as H1.
    rewrite Hn in H1. rewrite H1. rewrite zlen_app, zlen_cons in Hb.
    destruct (trailers_complete onData t fields Ht rest (off + zlen w + 1) (after_size 0 d) c)
      as (d' & E & E1); [by apply in_trailer_last|done|done|lia|lia|].
    exists d'. rewrite E, zlen_app, zlen_cons. split; [|done]. cbn [received foldl]. do 3 f_equal. lia.
  - rewrite <- app_assoc in *. cbn [app] in *.
    pose proof (feed_size_line onData w (data ++ CR :: LF :: body ++ rest) off d c
      (ib_clean d Hd) (ib_sized d Hd) Hw Ho Hb) as H1.
    rewrite Hn in H1. rewrite H1. rewrite zlen_app, zlen_cons in Hb.
    rewrite feed_chunk by (done || lia). rewrite zlen_app, !zlen_cons in Hb. pose proof (zlen_nonneg data).
    destruct (IH rest (off + zlen w + 1 + zlen data + 2) (next_chunk d) (received onData c [data]))
      as (d' & E & E1); [by apply in_body_next|done|lia|lia|].
    exists d'. rewrite E, zlen_app, zlen_cons, zlen_app, !zlen_cons. split; [|done].
    do 3 f_equal. lia.
Qed.

(** What a completed body reads. *)
Definition reads_body rest off d c (r : @fed C) : Prop :=
  exists body rest' chunks fields d', r = (STATUS_SUCCESS, off + zlen body, d', received onData c chunks)
    /\ rest = body ++ rest' /\ chunked_body body chunks fields /\ within_limits d fields
    /\ stored_fields d' = stored_fields d ++ fields.

Lemma body_sound k rest off d c :
  zlen rest <= k -> in_body d -> 0 <= off -> off + zlen rest < 2 ^ 64 ->
  (feed rest off d c).1.1.1 = STATUS_SUCCESS -> reads_body rest off d c (feed rest off d c).
Proof.
  intros Hk. pose proof (zlen_nonneg rest). assert (0 <= k) as Hk1 by lia.
  revert rest off d c Hk H.
  refine (natlike_ind (fun k => forall rest off d c, zlen rest <= k -> 0 <= zlen rest -> in_body d ->
    0 <= off -> off + zlen rest < 2 ^ 64 -> (feed rest off d c).1.1.1 = STATUS_SUCCESS ->
    reads_body rest off d c (feed rest off d c)) _ _ k Hk1); clear k Hk1.
  { intros rest off d c Hk Hk0 [[_ Hst _ _ _] _ _] _ _ H.
    destruct rest; [|rewrite zlen_cons in Hk; pose proof (zlen_nonneg rest); lia].
    by rewrite feed_nil, Hst in H. }
  intros k Hk1 IH rest off d c Hk Hk0 Hd Ho Hb H.
  destruct (split_line rest) as [Hno|(w & rest' & -> & Hw)].
  { by destruct (feed_size_open onData rest off d c (ib_clean d Hd) (ib_sized d Hd) Hno Ho Hb). }
  pose proof (feed_size_line onData w rest' off d c (ib_clean d Hd) (ib_sized d Hd) Hw Ho Hb) as Hf.
  destruct (chunk_size (strip w)) as [n|] eqn:Hn; [|by destruct Hf].
  rewrite Hf in H |- *. rewrite zlen_app, zlen_cons in *. pose proof (zlen_nonneg w). pose proof (zlen_nonneg rest').
  destruct (decide (n = 0)) as [->|Hn0].
  - destruct (trailers_sound onData (zlen rest') rest' (off + zlen w + 1) (after_size 0 d) c)
      as (t & r2 & fields & d' & E & -> & Ht & Hlim & Hst); [lia|by apply in_trailer_last|done|lia|lia|done|].
    exists (w ++ LF :: t), r2, [], fields, d'. rewrite E, <- app_assoc, zlen_app, zlen_cons.
    split_and!; [cbn [received foldl]; do 3 f_equal; lia|done|by constructor|done|done].
  - assert (Hn' : 0 <= n < 2 ^ 64).
    { unfold chunk_size in Hn. case_if_in Hn; [done|]. injection Hn as <-. bool_prop.
      pose proof (hex_value_mono 0 (until SEMICOLON (strip w)) ltac:(done) ltac:(done)). lia. }
    destruct (feed_chunk_bad n rest' (off + zlen w + 1) d c) as (data & r2 & -> & Hdata);
      [done|done|lia|lia|done|]. subst n.
    assert (Hne : data <> []) by (by intros ->).
    rewrite feed_chunk in H |- * by (done || lia). rewrite zlen_app, !zlen_cons in *.
    pose proof (zlen_nonneg data). pose proof (zlen_nonneg r2).
    destruct (IH r2 (off + zlen w + 1 + zlen data + 2) (next_chunk d) (received onData c [data]))
      as (body & r3 & chunks & fields & d' & E & -> & Hbody & Hlim & Hst);
      [lia|lia|by apply in_body_next|lia|lia|done|].
    exists (w ++ LF :: data ++ CR :: LF :: body), r3, (data :: chunks), fields, d'.
    rewrite E, <- app_assoc. cbn [app]. rewrite <- app_assoc. rewrite zlen_app, zlen_cons, zlen_app, !zlen_cons.
    split_and!; [|done|by constructor|done|done]. do 3 f_equal. lia.
Qed.
End Body.

(** ** Input in pieces *)

Section Pieces.
Context {C : Type}.
Variable onData : option (C -> list Z -> NTSTATUS * C).
Implicit Types (rest w data : list Z) (d : HttpChunkedDecoder) (c : C).
Abbreviation feed := (feed onData).

(** A decoder that is not done: what [Feed] starts the loop with. *)
Record live (d : HttpChunkedDecoder) : Prop := {
  lv_initialized : cd_initialized d = true;
  lv_complete : cd_state d <> Complete;
  lv_failed : cd_state d <> Failed;
  lv_chunk : cd_state d = ChunkData -> cd_chunkRemaining d <> 0;
  lv_sized : sized d;
}.

Lemma Feed_live data d c : live d -> Feed onData (Bytes data) d c = feed data 0 d c.
Proof.
  intros [Hi H1 H2 _ _]. unfold Feed. rewrite Hi. cbn [negb sp_len sp_isnull sp_bytes].
  assert (E : feed [] 0 d c = (STATUS_MORE_PROCESSING_REQUIRED, 0, d, c)).
  { rewrite feed_nil. by rewrite bool_decide_eq_false_2. }
  destruct data as [|ch data].
  - rewrite E. cbn. by destruct (cd_state d).
  - replace (zlen (ch :: data) =? 0) with false.
    2: { symmetry. apply Z.eqb_neq. rewrite zlen_cons. pose proof (zlen_nonneg data). lia. }
    by destruct (cd_state d).
Qed.

Definition shift (off : Z) (r : @fed C) : @fed C := let '(s, n, d, c) := r in (s, off +! n, d, c).

Lemma u64_add_assoc (x y z : Z) : (x +! y) +! z = x +! (y +! z).
Proof. unfold u64. rewrite Zplus_mod_idemp_l, Zplus_mod_idemp_r. f_equal. lia. Qed.

Lemma feed_loop_shift fuel rest off k d c :
  feed_loop onData fuel rest (off +! k) d c = shift off (feed_loop onData fuel rest k d c).
Proof.
  revert rest k d c. induction fuel as [|fuel IH]; intros rest k d c; [by destruct rest|].
  destruct rest as [|ch rest]; [done|]. cbn [feed_loop]. rewrite u64_add_assoc.
  destruct (cd_state d).
  - destruct (ProcessSizeLineChar ch d). case_if; [done|]. apply IH.
  - destruct (if negb (_ =? 0) then _ else _). case_if; [done|]. rewrite u64_add_assoc. apply IH.
  - case_if; [done|]. apply IH.
  - case_if; [done|]. apply IH.
  - destruct (ProcessTrailerLineChar ch d). case_if; [done|]. case_bool_decide; [done|]. apply IH.
  - done.
  - done.
Qed.

Lemma feed_shift rest off d c : 0 <= off < 2 ^ 64 -> feed rest off d c = shift off (feed rest 0 d c).
Proof.
  intros. change (feed rest) with (feed_loop onData (2 * length rest + 1) rest); cbv beta. rewrite <- feed_loop_shift. f_equal. by rewrite Z.add_0_r, u64_id.
Qed.

Lemma live_size_char ch d d' :
  live d -> cd_state d = SizeLine -> ProcessSizeLineChar ch d = (STATUS_SUCCESS, d') -> live d'.
Proof.
  intros [Hi H1 H2 H3 H4] Hst. pose proof (sized_size_char ch d H4) as Hs.
  unfold ProcessSizeLineChar, FinishSizeLine, fail in *.
  repeat (case_if; try done); try (intros [= <-]; constructor; cbn; rewrite ?Hst; done).
  destruct (accumulate_size 0 _) as [n|] eqn:E; [|done]. cbn in *.
  case_if; intros [= <-]; constructor; cbn; try done. intros _. bool_lia.
Qed.
Lemma live_trailer_char ch d d' :
  live d -> cd_state d = TrailerLine -> ProcessTrailerLineChar ch d = (STATUS_SUCCESS, d') ->
  cd_state d' = Complete \/ live d'.
Proof.
  intros [Hi H1 H2 H3 H4] Hst. pose proof (sized_trailer_char ch d H4) as Hs.
  unfold ProcessTrailerLineChar, FinishTrailerLine, fail in *.
  repeat (case_if; try done); intros [= <-]; try (by left); right; constructor; cbn; rewrite ?Hst; done.
Qed.
Lemma size_char_status ch d :
  fst (ProcessSizeLineChar ch d) <> STATUS_MORE_PROCESSING_REQUIRED.
Proof.
  unfold ProcessSizeLineChar, FinishSizeLine, fail. repeat (case_if; try done).
  destruct (accumulate_size 0 _); [|done]. cbn. by case_if.
Qed.
Lemma trailer_char_status ch d :
  fst (ProcessTrailerLineChar ch d) <> STATUS_MORE_PROCESSING_REQUIRED.
Proof. unfold ProcessTrailerLineChar, FinishTrailerLine, fail. by repeat (case_if; try done). Qed.

(** A callback whose context does not depend on how its input is cut. *)
Definition additive : Prop := forall c x y, x <> [] -> y <> [] ->
  snd (deliver onData c (x ++ y)) = snd (deliver onData (snd (deliver onData c x)) y).
Hypothesis Haccepts : accepts onData.
Hypothesis Hadditive : additive.

(** Continue with more input where a call asked for it. *)
Definition continue (b : list Z) (r : @fed C) : @fed C :=
  let '(s, n, d, c) := r in
  if bool_decide (s = STATUS_MORE_PROCESSING_REQUIRED) then feed b n d c else r.
(** A call that asks for more has consumed its input and left the decoder live. *)
Definition wants_more (off : Z) (a : list Z) (r : @fed C) : Prop :=
  let '(s, n, d, c) := r in
  s = STATUS_MORE_PROCESSING_REQUIRED -> n = off + zlen a /\ live d.

Lemma continue_feed b off d c : live d -> continue b (feed [] off d c) = feed b off d c.
Proof. intros []. rewrite feed_nil. by rewrite bool_decide_eq_false_2. Qed.

(** The payload turn, when the payload goes on after the first piece. *)
Lemma feed_app_cut a b off d c :
  live d -> cd_state d = ChunkData -> a <> [] -> zlen a < cd_chunkRemaining d ->
  0 <= off -> off + zlen (a ++ b) < 2 ^ 64 ->
  feed (a ++ b) off d c = continue b (feed a off d c) /\ wants_more off a (feed a off d c).
Proof.
  intros [Hi H1 H2 H3 H4] Hst Hne Hlt Ho Hb. rewrite zlen_app in Hb. unfold sized in H4.
  pose proof (zlen_nonneg b). pose proof (zlen_nonneg a).
  rewrite (feed_data_cut onData a) by (done || lia). cbn [continue].
  rewrite bool_decide_eq_true_2 by done.
  set (d1 := d <| cd_chunkRemaining := cd_chunkRemaining d - zlen a |>).
  assert (Hl1 : live d1). { constructor; try done; [cbn; lia|unfold sized; cbn; lia]. }
  split; [|intros _; done].
  destruct (decide (b = [])) as [->|Hbne].
  { rewrite app_nil_r, (feed_data_cut onData a), feed_nil by (done || lia). unfold d1. cbn [cd_state set_field].
    by rewrite Hst. }
  assert (Hrec : received onData c [a ++ b] = received onData (received onData c [a]) [b]) by (by apply Hadditive).
  destruct (Z.lt_ge_cases (zlen a + zlen b) (cd_chunkRemaining d)) as [Hlt2|Hge].
  { rewrite feed_data_cut; [|done|done|by destruct a|rewrite zlen_app; lia|done|rewrite zlen_app; lia].
    rewrite (feed_data_cut onData b); [|done|done|done|cbn; lia|lia|lia]. rewrite Hrec, zlen_app.
    unfold d1. cbn [cd_chunkRemaining set_field].
    by rewrite Z.add_assoc, Z.sub_add_distr. }
  set (m := cd_chunkRemaining d - zlen a). set (b1 := ztake m b).
  assert (Hm : 0 < m <= zlen b) by (unfold m; lia).
  assert (Hb1 : zlen b1 = m) by (apply zlen_ztake; lia).
  pose proof (ztake_zdrop m b) as E. fold b1 in E. set (b2 := zdrop m b) in *. clearbody b1 b2. subst b.
  rewrite zlen_app in *. pose proof (zlen_nonneg b2). assert (Hb1ne : b1 <> []) by (intros ->; change (zlen (@nil Z)) with 0 in *; lia).
  rewrite (feed_data onData b1); [|done|done|done|cbn; lia|lia|rewrite zlen_app; lia].
  rewrite app_assoc, feed_data; [|done|done|by destruct a|rewrite zlen_app; lia|done|rewrite !zlen_app; lia].
  rewrite zlen_app, Z.add_assoc. f_equal. by apply Hadditive.
Qed.

Lemma feed_app k a b off d c :
  (length a <= k)%nat -> live d -> 0 <= off -> off + zlen (a ++ b) < 2 ^ 64 ->
  feed (a ++ b) off d c = continue b (feed a off d c) /\ wants_more off a (feed a off d c).
Proof.
  revert a off d c. induction k as [|k IH]; intros a off d c Hk Hl Ho Hb;
    (destruct a as [|ch a]; [split; [by rewrite continue_feed|]|cbn [length] in Hk]).
  { rewrite feed_nil. cbn. rewrite Z.add_0_r. by intros _. }
  { lia. }
  { rewrite feed_nil. cbn. rewrite Z.add_0_r. by intros _. }
  pose proof Hl as [Hi H1 H2 H3 Hs]. rewrite zlen_app, zlen_cons in Hb.
  pose proof (zlen_nonneg a). pose proof (zlen_nonneg b).
  assert (Htail : forall d', live d' ->
    feed (a ++ b) (off + 1) d' c = continue b (feed a (off + 1) d' c)
    /\ wants_more off (ch :: a) (feed a (off + 1) d' c)).
  { intros d' Hl'. destruct (IH a (off + 1) d' c) as [E W]; [lia|done|lia|rewrite zlen_app; lia|].
    split; [done|]. unfold wants_more in *. destruct (feed a (off + 1) d' c) as [[[s n] d2] c2].
    intros Es. destruct (W Es) as [-> ?]. split; [|done]. rewrite zlen_cons. lia. }
  cbn [app]. destruct (cd_state d) eqn:Hst; [..|done|done].
  - rewrite !feed_size by (done || lia || (rewrite zlen_cons, ?zlen_app; lia)).
    pose proof (size_char_status ch d). pose proof (live_size_char ch d) as Hlive.
    destruct (ProcessSizeLineChar ch d) as [s d'].
    destruct (NT_SUCCESS s) eqn:E; cbn [negb]; [apply NT_SUCCESS_true in E; subst s; by apply Htail, Hlive|].
    cbn [continue wants_more fst] in *. by rewrite bool_decide_eq_false_2.
  - destruct (Z.lt_ge_cases (zlen (ch :: a)) (cd_chunkRemaining d)) as [Hlt|Hge].
    { apply (feed_app_cut (ch :: a)); try done. rewrite zlen_app, zlen_cons. lia. }
    unfold sized in Hs. specialize (H3 eq_refl). set (m := cd_chunkRemaining d) in *.
    set (a1 := ztake m (ch :: a)). rewrite zlen_cons in Hge.
    assert (Ha1 : zlen a1 = m) by (apply zlen_ztake; rewrite zlen_cons; lia).
    pose proof (ztake_zdrop m (ch :: a)) as E. fold a1 in E. set (a2 := zdrop m (ch :: a)) in *.
    assert (Hlen : length a2 = (S (length a) - Z.to_nat m)%nat) by (unfold a2, zdrop; by rewrite length_drop).
    assert (Hz : zlen a1 + zlen a2 = 1 + zlen a) by (by rewrite <- zlen_app, E, zlen_cons).
    clearbody a1 a2. change (ch :: a ++ b) with ((ch :: a) ++ b). rewrite <- E, <- app_assoc.
    assert (a1 <> []) by (intros ->; change (zlen (@nil Z)) with 0 in *; lia).
    pose proof (zlen_nonneg a2).
    rewrite (feed_data onData a1 (a2 ++ b)), (feed_data onData a1 a2)
      by (done || lia || (rewrite !zlen_app; lia)).
    destruct (IH a2 (off + zlen a1) (d <| cd_chunkRemaining := 0 |> <| cd_state := ChunkDataCr |>)
      (received onData c [a1])) as [E2 W]; [lia|by constructor|lia|rewrite zlen_app; lia|].
    split; [done|]. unfold wants_more in *. destruct (feed a2 _ _ _) as [[[s n] d2] c2].
    intros Es. destruct (W Es) as [-> ?]. split; [|done]. rewrite zlen_app. lia.
  - rewrite !feed_cr by (done || lia || (rewrite zlen_cons, ?zlen_app; lia)).
    case_if; [done|]. apply Htail. by constructor.
  - rewrite !feed_lf by (done || lia || (rewrite zlen_cons, ?zlen_app; lia)).
    case_if; [done|]. apply Htail. by constructor.
  - rewrite !feed_trailer by (done || lia || (rewrite zlen_cons, ?zlen_app; lia)).
    pose proof (trailer_char_status ch d). pose proof (live_trailer_char ch d) as Hlive.
    destruct (ProcessTrailerLineChar ch d) as [s d'].
    destruct (NT_SUCCESS s) eqn:E; cbn [negb].
    2: { cbn [continue wants_more fst] in *. by rewrite bool_decide_eq_false_2. }
    apply NT_SUCCESS_true in E. subst s. case_bool_decide; [done|].
    destruct (Hlive d' Hl Hst eq_refl) as [|Hl']; [done|]. by apply Htail.
Qed.

(** The receive loop reads the pieces as one input. *)
Lemma pump_feed pieces d c :
  Forall (fun p => p <> []) pieces -> zlen (concat pieces) < 2 ^ 64 -> live d ->
  let '(s, n, d', c') := feed (concat pieces) 0 d c in
  pump onData (S (length pieces)) [] pieces d c
  = (if bool_decide (s = STATUS_MORE_PROCESSING_REQUIRED) then STATUS_CONNECTION_DISCONNECTED else s, d', c').
Proof.
  intros Hp. revert d c. induction Hp as [|p pieces Hne Hp IH]; intros d c Hb Hl.
  { cbn [concat]. rewrite feed_nil.
    rewrite (bool_decide_eq_false_2 (cd_state d = Complete)) by apply Hl. done. }
  cbn [concat length] in *. remember (S (length pieces)) as fuel. cbn [pump].
  destruct p as [|ch p]; [done|]. set (q := ch :: p) in *.
  pose proof (Feed_live q d c Hl) as E. rewrite E. rewrite zlen_app in Hb.
  pose proof (zlen_nonneg q). pose proof (zlen_nonneg (concat pieces)).
  destruct (feed_app (length q) q (concat pieces) 0 d c) as [Happ W];
    [lia|done|lia|rewrite zlen_app; lia|].
  rewrite Happ. destruct (feed q 0 d c) as [[[s n] d'] c']. cbn [continue wants_more] in *.
  case_bool_decide as Em.
  - destruct (W Em) as [-> Hl']. subst s. cbn [NT_SUCCESS negb]. change (ch :: p) with q.
    rewrite Z.add_0_l, zdrop_all. change (negb (bool_decide _)) with false. cbn iota.
    specialize (IH d' c' ltac:(lia) Hl'). rewrite feed_shift by lia.
    destruct (feed (concat pieces) 0 d' c') as [[[s n] d2] c2]. cbn [shift]. exact IH.
  - destruct (NT_SUCCESS s) eqn:Es; [apply NT_SUCCESS_true in Es; by subst s|].
    by rewrite !bool_decide_eq_false_2.
Qed.
End Pieces.

(** ** Bounds, whatever the input and the callback *)

Section Bounds.
Context {C : Type}.
Variable onData : option (C -> list Z -> NTSTATUS * C).
Implicit Types (rest w data : list Z) (d : HttpChunkedDecoder) (c : C).

(** What holds of a decoder at any time: the fixed buffers and the trailer storage
    are in bounds, and a decoder that reads payload still expects some. *)
Record decoder_ok (d : HttpChunkedDecoder) : Prop := {
  do_sized : sized d;
  do_sizeLine : zlen (cd_sizeLine d) <= HttpMaxChunkSizeLineBytes;
  do_trailerLine : zlen (cd_trailerLine d) <= HttpMaxHeaderLineBytes;
  do_stored : stored_ok d;
  do_chunk : cd_state d = ChunkData -> cd_chunkRemaining d <> 0;
  do_arena : cd_initialized d = false -> cd_trailerArena d = [];
}.

(** The three ways a call of [Feed] ends: the body is complete; the body is
    refused, for good; all input is consumed and more is needed. *)
Definition outcome (last : Z) (s : NTSTATUS) (n : Z) (d : HttpChunkedDecoder) : Prop :=
  (s = STATUS_SUCCESS /\ cd_state d = Complete)
  \/ (s <> STATUS_SUCCESS /\ cd_state d = Failed)
  \/ (s = STATUS_MORE_PROCESSING_REQUIRED /\ n = last /\ live d).

Lemma decoder_ok_state d st : st <> ChunkData -> decoder_ok d -> decoder_ok (d <| cd_state := st |>).
Proof. intros ? [? ? ? [? ? ?] ? ?]. by constructor. Qed.

Lemma size_char_ok ch d :
  decoder_ok d -> live d -> cd_state d = SizeLine ->
  let (s, d') := ProcessSizeLineChar ch d in
  decoder_ok d' /\ if NT_SUCCESS s then live d' else cd_state d' = Failed.
Proof.
  intros Hd Hl Hst. pose proof (live_size_char ch d) as Hlive. pose proof (sized_size_char ch d (do_sized d Hd)) as Hs.
  destruct (ProcessSizeLineChar ch d) as [s d'] eqn:E. cbn in Hs. split.
  - revert E. destruct Hd as [H1 H2 H3 [H4 H5 H6] H7 H8].
    unfold ProcessSizeLineChar, FinishSizeLine, fail.
    repeat (case_if; try (by intros [= <- <-]; constructor; cbn; rewrite ?Hst)).
    + destruct (accumulate_size 0 _) eqn:Ha; [|by intros [= <- <-]]. cbn.
      case_if; intros [= <- <-]; constructor; cbn; try done. intros _. bool_lia.
    + bool_prop. intros [= <- <-]. constructor; cbn; try done.
      rewrite zlen_app. change (zlen [ch]) with 1. lia.
  - destruct (NT_SUCCESS s) eqn:Es; [apply NT_SUCCESS_true in Es; subst s; by apply Hlive|].
    revert E Es. unfold ProcessSizeLineChar, FinishSizeLine, fail.
    repeat (case_if; try (by intros [= <- <-])). destruct (accumulate_size 0 _); [|by intros [= <- <-]].
    cbn. by case_if; intros [= <- <-].
Qed.

Lemma finish_trailer_failed d :
  NT_SUCCESS (fst (FinishTrailerLine d)) = false ->
  snd (FinishTrailerLine d) = d <| cd_state := Failed |>.
Proof. unfold FinishTrailerLine, fail. by repeat case_if. Qed.

Lemma trailer_char_ok ch d :
  decoder_ok d -> live d -> cd_state d = TrailerLine ->
  let (s, d') := ProcessTrailerLineChar ch d in
  decoder_ok d' /\ if NT_SUCCESS s then cd_state d' = Complete \/ live d' else cd_state d' = Failed.
Proof.
  intros Hd Hl Hst. pose proof (live_trailer_char ch d) as Hlive.
  destruct (ProcessTrailerLineChar ch d) as [s d'] eqn:E.
  assert (Hok : decoder_ok d' /\ (NT_SUCCESS s = false -> cd_state d' = Failed)).
  { revert E. unfold ProcessTrailerLineChar. case_if; [|case_if; [by intros [= <- <-]|case_if; intros [= <- <-]]].
    - intros E. destruct (decide (cd_trailerLine d = [])) as [Hn|Hn].
      { unfold FinishTrailerLine in E. rewrite Hn in E. cbn in E. injection E as <- <-.
        split; [by apply decoder_ok_state|done]. }
      pose proof (finish_trailer d (lv_initialized d Hl) (do_stored d Hd) Hn (do_trailerLine d Hd)) as Hf.
      pose proof (finish_trailer_failed d) as Hff. rewrite E in Hf, Hff. cbn [fst snd] in *.
      destruct (NT_SUCCESS s) eqn:Es; [|rewrite Hff by done; split; [by apply decoder_ok_state|done]].
      destruct (parse_field _) as [field|]; [|done]. destruct (within_limitsb d field) eqn:Hlim; [|done].
      injection Hf as -> ->. split; [|done]. apply within_limitsb_spec in Hlim. destruct Hd as [H1 H2 H3 H4 H5 H6].
      pose proof (stored_ok_store field d H4 Hlim). pose proof (lv_initialized d Hl).
      destruct field. constructor; try done. cbn. congruence.
    - split; [by apply decoder_ok_state|done].
    - bool_prop. destruct Hd as [H1 H2 H3 [H4 H5 H6] H7 H8]. split; [|done]. constructor; try done. cbn.
      rewrite zlen_app. change (zlen [ch]) with 1. lia. }
  destruct Hok as [Hok Hfail]. split; [done|]. destruct (NT_SUCCESS s) eqn:Es; [|by apply Hfail].
  apply NT_SUCCESS_true in Es. subst s. by apply Hlive.
Qed.

Lemma feed_loop_nil fuel off d c :
  live d -> feed_loop onData fuel [] off d c = (STATUS_MORE_PROCESSING_REQUIRED, off, d, c).
Proof. intros []. destruct fuel; cbn; by rewrite bool_decide_eq_false_2. Qed.

Lemma feed_loop_ok fuel rest off d c :
  decoder_ok d -> live d -> (turns rest d <= fuel)%nat -> 0 <= off -> off + zlen rest < 2 ^ 64 ->
  let '(s, n, d', c') := feed_loop onData fuel rest off d c in
  decoder_ok d' /\ off <= n <= off + zlen rest /\ outcome (off + zlen rest) s n d'.
Proof.
  revert rest off d c. induction fuel as [|fuel IH]; intros rest off d c Hd Hl Hf Ho Hb;
    (destruct rest as [|ch rest];
     [rewrite feed_loop_nil by done; rewrite zlen_nil, Z.add_0_r; split_and!; [done|lia..|right; right; split_and!; done]|]).
  { unfold turns in Hf. simpl in Hf. lia. }
  cbn [feed_loop]. rewrite zlen_cons in Hb |- *. pose proof (zlen_nonneg rest).
  assert (Htail : forall d', decoder_ok d' -> live d' ->
    let '(s, n, d', c') := feed_loop onData fuel rest (off +! 1) d' c in
    decoder_ok d' /\ off <= n <= off + (1 + zlen rest) /\ outcome (off + (1 + zlen rest)) s n d').
  { intros d' Hd' Hl'. pose proof (turns_tail ch rest d d'). rewrite u64_id by lia.
    specialize (IH rest (off + 1) d' c Hd' Hl' ltac:(lia) ltac:(lia) ltac:(lia)).
    destruct (feed_loop onData fuel rest (off + 1) d' c) as [[[s n] d2] c2].
    rewrite Z.add_assoc. destruct IH as (? & ? & ?). split_and!; try done; lia. }
  assert (Hfail : forall s n d', cd_state d' = Failed -> decoder_ok d' -> s <> STATUS_SUCCESS ->
    off <= n <= off + (1 + zlen rest) ->
    decoder_ok d' /\ off <= n <= off + (1 + zlen rest) /\ outcome (off + (1 + zlen rest)) s n d').
  { intros. split_and!; try done; try lia. by right; left. }
  assert (Hoff : off +! 1 = off + 1) by (apply u64_id; lia).
  destruct (cd_state d) eqn:Hst; [..|by destruct Hl|by destruct Hl].
  - pose proof (size_char_ok ch d Hd Hl Hst) as Hok. destruct (ProcessSizeLineChar ch d) as [s d'].
    destruct Hok as [Hok Hs]. destruct (NT_SUCCESS s) eqn:Es; cbn [negb]; [by apply Htail|].
    apply Hfail; [done|done|by intros ->|rewrite Hoff; lia].
  - pose proof (turns_take ch rest d (do_sized d Hd) Hst) as Ht. cbn zeta in Ht.
    pose proof (do_sized d Hd) as Hs. unfold sized in Hs. pose proof (do_chunk d Hd Hst) as Hne.
    pose proof (take_range (zlen (ch :: rest)) (cd_chunkRemaining d) (zlen_nonneg _) ltac:(lia)) as Htr.
    rewrite zlen_cons in Htr. rewrite !zlen_cons in Ht. set (take := if _ <? _ then _ else _) in *.
    destruct (if negb (take =? 0) then _ else _) as [s c'].
    destruct (NT_SUCCESS s) eqn:Es; cbn [negb]; cycle 1.
    { apply Hfail; [done|by apply decoder_ok_state|by intros ->|lia]. }
    change (let '(s0, n, d', c'0) := feed_loop onData fuel (zdrop take (ch :: rest)) (off +! take) (after_take take d) c' in
      decoder_ok d' /\ off <= n <= off + (1 + zlen rest) /\ outcome (off + (1 + zlen rest)) s0 n d').
    assert (Hd' : decoder_ok (after_take take d)).
    { pose proof (sized_after_take take d). destruct Hd as [H1 H2 H3 [H4 H5 H6] H7 H8]. unfold after_take in *.
      case_if; constructor; cbn in *; try done. intros _. bool_lia. }
    assert (Hl' : live (after_take take d)).
    { pose proof (sized_after_take take d). destruct Hl as [L1 L2 L3 L4 L5]. unfold after_take in *.
      case_if; constructor; cbn in *; try done; [by rewrite Hst..|]. intros _. bool_lia. }
    rewrite u64_id by lia.
    assert (Hz : zlen (zdrop take (ch :: rest)) = 1 + zlen rest - take) by (rewrite zlen_zdrop, zlen_cons; [done|rewrite zlen_cons; lia]).
    specialize (IH (zdrop take (ch :: rest)) (off + take) (after_take take d) c' Hd' Hl' ltac:(lia) ltac:(lia) ltac:(lia)).
    destruct (feed_loop onData fuel _ _ _ c') as [[[s0 n] d2] c2]. rewrite Hz in IH.
    replace (off + take + (1 + zlen rest - take)) with (off + (1 + zlen rest)) in IH by lia.
    destruct IH as (? & ? & ?). split_and!; try done; lia.
  - case_if; [apply Hfail; [done|by apply decoder_ok_state|done|rewrite Hoff; lia]|].
    apply Htail; [by apply decoder_ok_state|]. destruct Hl. by constructor.
  - case_if; [apply Hfail; [done|by apply decoder_ok_state|done|rewrite Hoff; lia]|].
    apply Htail; destruct Hl; [destruct Hd as [H1 H2 H3 [H4 H5 H6] H7 H8]|]; by constructor.
  - pose proof (trailer_char_ok ch d Hd Hl Hst) as Hok. destruct (ProcessTrailerLineChar ch d) as [s d'].
    destruct Hok as [Hok Hs]. destruct (NT_SUCCESS s) eqn:Es; cbn [negb].
    + case_bool_decide as Ec; [|by apply Htail; [|destruct Hs]].
      split_and!; [done|rewrite Hoff; lia..|by left].
    + apply Hfail; [done|done|by intros ->|rewrite Hoff; lia].
Qed.
End Bounds.

Lemma in_body_live d : in_body d -> live d.
Proof. intros [[? Hst ? ? ?] ? ?]. by constructor; rewrite ?Hst. Qed.

(** ** Any sequence of calls *)

Inductive decoder_reachable : HttpChunkedDecoder -> Prop :=
  | dr_default : decoder_reachable decoder_default
  | dr_initialize memory d : decoder_reachable d -> decoder_reachable (snd (Initialize memory d))
  | dr_reset d : decoder_reachable d -> decoder_reachable (Reset d)
  | dr_storage trailers capacity d :
      decoder_reachable d -> is_u64 capacity -> decoder_reachable (SetTrailerStorage trailers capacity d)
  | dr_feed {C} (onData : option (C -> list Z -> NTSTATUS * C)) data d c :
      decoder_reachable d -> sp_len data < 2 ^ 64 ->
      decoder_reachable (Feed onData data d c).1.2.

Lemma Feed_ok {C} (onData : option (C -> list Z -> NTSTATUS * C)) data d c :
  decoder_ok d -> sp_len data < 2 ^ 64 ->
  let '(s, n, d', c') := Feed onData data d c in
  decoder_ok d' /\ 0 <= n <= Z.max 0 (sp_len data)
  /\ (live d -> sp_isnull data = false -> outcome (sp_len data) s n d').
Proof.
  intros Hd Hb. unfold Feed. destruct (cd_initialized d) eqn:Hi; cbn [negb].
  2: { split_and!; [done|lia..|]. intros []. congruence. }
  assert (Hlive : cd_state d <> Complete -> cd_state d <> Failed -> live d).
  { intros. destruct Hd. by constructor. }
  assert (Hloop : live d ->
    let '(s, n, d', c') :=
      if sp_len data =? 0 then (STATUS_MORE_PROCESSING_REQUIRED, 0, d, c)
      else if sp_isnull data then (STATUS_INVALID_PARAMETER, 0, d, c)
      else feed_loop onData (2 * length (sp_bytes data) + 1) (sp_bytes data) 0 d c in
    decoder_ok d' /\ 0 <= n <= Z.max 0 (sp_len data)
    /\ (live d -> sp_isnull data = false -> outcome (sp_len data) s n d')).
  { intros Hl. case_if; bool_prop.
    { split_and!; [done|lia..|]. intros _ _. right; right. by split_and!. }
    case_if; [split_and!; [done|lia..|done]|]. destruct data as [m|l]; [done|]. cbn [sp_bytes sp_len] in *.
    pose proof (feed_loop_ok onData (2 * length l + 1) l 0 d c Hd Hl) as Hok.
    destruct (feed_loop onData _ l 0 d c) as [[[s n] d'] c']. pose proof (zlen_nonneg l).
    destruct Hok as (? & ? & ?); [unfold turns; case_if; lia|lia|lia|]. split_and!; try done; lia. }
  destruct (cd_state d) eqn:Hst; try (by apply Hloop, Hlive);
    (split_and!; [done|lia..|]; intros []; congruence).
Qed.

Lemma decoder_reachable_ok d : decoder_reachable d -> decoder_ok d.
Proof.
  induction 1 as [|memory d _ IH|d _ IH|trailers capacity d _ IH Hcap|C onData data d c _ IH Hb].
  - by constructor; try done; constructor.
  - unfold Initialize. repeat case_if; try done. destruct IH as [H1 H2 H3 [H4 H5 H6] H7 H8].
    constructor; try done. constructor; try done. cbn. rewrite H8 by done. done.
  - destruct IH as [H1 H2 H3 [H4 H5 H6] H7 H8]. pose proof (zlen_nonneg (cd_trailerArena d)).
    pose proof (zlen_nonneg (cd_stored d)). unfold TrailerCount in *. constructor; try done.
    constructor; unfold TrailerCount; cbn; rewrite ?zlen_nil; [lia|lia|constructor].
  - destruct IH as [H1 H2 H3 [H4 H5 H6] H7 H8]. pose proof (zlen_nonneg (cd_trailerArena d)).
    unfold is_u64 in *. constructor; try done.
    constructor; unfold TrailerCount; cbn; rewrite ?zlen_nil; [lia|lia|constructor].
  - pose proof (Feed_ok onData data d c IH Hb) as Hok. destruct (Feed onData data d c) as [[[s n] d'] c']. apply Hok.
Qed.

(** ** Properties *)

(** A decoder with room for four trailer fields, and a callback that appends. *)
Definition ready_sample : HttpChunkedDecoder :=
  SetTrailerStorage true 4 (snd (Initialize true decoder_default)).
Definition append_body : option (list Z -> list Z -> NTSTATUS * list Z) :=
  Some (fun c x => (STATUS_SUCCESS, c ++ x)).

Lemma in_body_sample : in_body ready_sample.
Proof. by constructor; [constructor| |constructor]. Qed.
Lemma append_accepts : accepts append_body.
Proof. done. Qed.

(** ["3;x" CRLF "abc" CRLF "0" CRLF "T: v" CRLF CRLF], and what follows it. *)
Definition body_sample : list Z :=
  [51; 59; 120; 13; 10; 97; 98; 99; 13; 10; 48; 13; 10; 84; 58; 32; 118; 13; 10; 13; 10].

(** ** The grammar of RFC 9112 and the language *)

Lemma line_text_crlf w : line_text w -> no_lf (w ++ [CR]) /\ strip (w ++ [CR]) = w.
Proof.
  unfold line_text, no_lf, strip. intros Hw. split.
  - apply Forall_app. split; [|by apply Forall_singleton]. eapply Forall_impl; [exact Hw|]. by intros ch [].
  - rewrite List.filter_app. cbn. rewrite app_nil_r. induction Hw as [|ch w [H1 _] _ IH]; [done|]. cbn.
    rewrite (proj2 (Z.eqb_neq ch CR)) by done. cbn. by rewrite IH.
Qed.
Lemma until_semicolon digits ext : forallb IsHexDigit digits = true -> (ext = [] \/ exists text, ext = SEMICOLON :: text) ->
  until SEMICOLON (digits ++ ext) = digits.
Proof.
  intros Hd He. induction digits as [|ch digits IH]; cbn [app until].
  - by destruct He as [-> |[text ->]].
  - cbn [forallb] in Hd. apply andb_true_iff in Hd as [Hc Hd]. destruct (Z.eqb_spec ch SEMICOLON) as [-> |]; [done|]. by rewrite IH.
Qed.
Lemma rfc_size_line_size w n : rfc_size_line w n -> line_text w /\ chunk_size w = Some n.
Proof.
  intros (digits & ext & -> & Hne & Hl & Hd & Hn & Hlt & He & Ht). split.
  - apply Forall_app. split; [|exact Ht]. rewrite forallb_forall in Hd. apply List.Forall_forall. intros ch Hin. specialize (Hd ch Hin). revert ch Hd Hin.
    intros ch Hc _. split; intros ->; by vm_compute in Hc.
  - unfold chunk_size. rewrite until_semicolon, Hd, Hn by done. assert (zlen digits <> 0).
    { destruct digits as [|x l]; [done|]. rewrite zlen_cons. pose proof (zlen_nonneg l). lia. }
    cbn [negb]. by rewrite (proj2 (Z.eqb_neq _ _)), Z.gtb_ltb, Z.geb_leb, (proj2 (Z.ltb_ge _ _)), (proj2 (Z.leb_gt _ _)) by lia.
Qed.
Lemma crlf_line (w rest : list Z) : w ++ CR :: LF :: rest = (w ++ [CR]) ++ LF :: rest.
Proof. by rewrite <- app_assoc. Qed.
Lemma rfc_body_chunked body chunks fields : rfc_body body chunks fields -> chunked_body body chunks fields.
Proof.
  assert (Ht : forall t fields, rfc_trailers t fields -> trailer_section t fields).
  { induction 1 as [|w field rest fs Hw Hl Hf _ IH]; [by apply (trailer_end [CR]); [apply Forall_singleton|]|].
    destruct (line_text_crlf w Hw) as [H1 H2]. rewrite crlf_line. by apply trailer_cons; rewrite ?H2. }
  induction 1 as [w trailer fs Hw Htr|w data rest chunks fs Hw Hne _ IH];
    apply rfc_size_line_size in Hw as [Hw Hs]; destruct (line_text_crlf w Hw) as [H1 H2]; rewrite crlf_line.
  - apply chunked_last; rewrite ?H2; auto.
  - by apply chunked_cons; rewrite ?H2.
Qed.

(** The first line feed ends the first line. *)
Lemma first_line_unique w rest w' rest' : no_lf w -> no_lf w' -> w ++ LF :: rest = w' ++ LF :: rest' -> w = w' /\ rest = rest'.
Proof.
  intros H. revert w'. induction H as [|ch w Hc _ IH]; intros w' H' E.
  - destruct H' as [|ch' w' Hc' _]; [by injection E as ->|]. injection E as <- _. done.
  - destruct H' as [|ch' w' Hc' H']; [by injection E as -> _|]. injection E as <- E. by destruct (IH w' H' E) as [-> ->].
Qed.
(** Carriage returns in a size line do not matter. *)
Lemma size_line_stripped w w' rest chunks fields : no_lf w -> no_lf w' -> strip w = strip w' ->
  chunked_body (w ++ LF :: rest) chunks fields -> chunked_body (w' ++ LF :: rest) chunks fields.
Proof.
  intros Hw Hw' E H. remember (w ++ LF :: rest) as body eqn:Eb.
  destruct H as [v trailer fs Hv Hs Ht|v data r chunks fs Hv Hne Hs Hb]; destruct (first_line_unique _ _ _ _ Hv Hw Eb) as [-> <-];
    rewrite E in Hs; by constructor.
Qed.

(** C17. [Feed] accepts exactly the language [chunked_body].  When it returns
    success it has consumed exactly one body of the language, handed the payload
    of its chunks to the callback in order, one call per chunk, and stored its
    trailer fields, which fit the storage.  Conversely every body of the language whose
    fields fit is accepted, whatever bytes follow it.  The language has every body of
    RFC 9112 with no white space before an extension and within the limits on lines
    ([rfc_body]), but it is wider: carriage returns are dropped wherever they are in a line, so that "1 CR 0 LF" announces 16 bytes and a
    bare line feed ends a line; extensions are neither parsed nor bounded, although a
    comment of the code says that they are bounded; and there is no limit on the
    number of chunks and no forbidden trailer field, although the documentation of
    HTTP/1 promises both. *)
Theorem chunked_language {C} (onData : option (C -> list Z -> NTSTATUS * C)) (d : HttpChunkedDecoder)
    (c : C) (data : list Z) :
  accepts onData -> in_body d -> zlen data < 2 ^ 64 ->
  (forall n d' c', Feed onData (Bytes data) d c = (STATUS_SUCCESS, n, d', c') ->
     exists chunks fields, 0 <= n <= zlen data /\ chunked_body (ztake n data) chunks fields
       /\ within_limits d fields /\ c' = received onData c chunks
       /\ stored_fields d' = stored_fields d ++ fields)
  /\ (forall body rest chunks fields, data = body ++ rest -> chunked_body body chunks fields ->
        within_limits d fields ->
        exists d', Feed onData (Bytes data) d c = (STATUS_SUCCESS, zlen body, d', received onData c chunks)
          /\ stored_fields d' = stored_fields d ++ fields)
  /\ (forall body chunks fields, rfc_body body chunks fields -> chunked_body body chunks fields)
  /\ (forall w w' rest chunks fields, no_lf w -> no_lf w' -> strip w = strip w' ->
        chunked_body (w ++ LF :: rest) chunks fields -> chunked_body (w' ++ LF :: rest) chunks fields).
Proof.
  intros Ha Hd Hb. rewrite Feed_live by (by apply in_body_live). split; [|split; [|split; [exact rfc_body_chunked|exact size_line_stripped]]].
  - intros n d' c' E. destruct (body_sound onData Ha (zlen data) data 0 d c)
      as (body & rest & chunks & fields & d2 & E2 & -> & Hbody & Hlim & Hst); [done|done|done|lia|by rewrite E|].
    rewrite E in E2. injection E2 as -> -> ->. exists chunks, fields. rewrite Z.add_0_l, zlen_app, ztake_app_len.
    pose proof (zlen_nonneg body). pose proof (zlen_nonneg rest). by split_and!; [lia..| | | |].
  - intros body rest chunks fields -> Hbody Hlim.
    destruct (body_complete onData Ha body chunks fields Hbody rest 0 d c) as (d' & E & Hst); [done|done|done|lia|].
    exists d'. by rewrite E.
Qed.

Lemma chunked_language_witness :
  exists chunks fields, chunked_body (ztake 21 (body_sample ++ [72])) chunks fields
    /\ [97; 98; 99] = received append_body [] chunks.
Proof.
  destruct (chunked_language append_body ready_sample [] (body_sample ++ [72]) append_accepts in_body_sample
    ltac:(by vm_compute)) as [H _].
  destruct (H 21 (snd (fst (Feed append_body (Bytes (body_sample ++ [72])) ready_sample []))) [97; 98; 99])
    as (chunks & fields & _ & Hb & _ & Hr & _); [by vm_compute|].
  by exists chunks, fields.
Defined.

(** However the bytes of a body are cut into the pieces that the reads of the
    transport return, the receive loop ends with the status, the trailer fields
    and the payload that one call with all the bytes would give; and a body that
    the connection cuts short is reported as a disconnection, never as complete. *)
Theorem chunked_pieces {C} (onData : option (C -> list Z -> NTSTATUS * C)) (pieces : list (list Z))
    (d : HttpChunkedDecoder) (c : C) :
  accepts onData -> additive onData -> Forall (fun p => p <> []) pieces ->
  zlen (concat pieces) < 2 ^ 64 -> live d ->
  let '(s, n, d', c') := Feed onData (Bytes (concat pieces)) d c in
  pump onData (S (length pieces)) [] pieces d c
  = (if bool_decide (s = STATUS_MORE_PROCESSING_REQUIRED) then STATUS_CONNECTION_DISCONNECTED else s, d', c').
Proof. intros Ha Hadd Hp Hb Hl. rewrite Feed_live by done. by apply pump_feed. Qed.

Lemma append_additive : additive append_body.
Proof. intros c x y _ _. cbn. apply app_assoc. Qed.

Lemma chunked_pieces_witness :
  pump append_body 4 [] [[51; 59; 120; 13]; [10; 97; 98; 99; 13; 10; 48; 13; 10; 84; 58]; [32; 118; 13; 10; 13; 10]]
    ready_sample [] = (STATUS_SUCCESS, (Feed append_body (Bytes body_sample) ready_sample []).1.2, [97; 98; 99]).
Proof.
  assert (E1 : (Feed append_body (Bytes body_sample) ready_sample []).1.1.1 = STATUS_SUCCESS) by (by vm_compute).
  assert (E2 : (Feed append_body (Bytes body_sample) ready_sample []).2 = [97; 98; 99]) by (by vm_compute).
  pose proof (chunked_pieces append_body
    [[51; 59; 120; 13]; [10; 97; 98; 99; 13; 10; 48; 13; 10; 84; 58]; [32; 118; 13; 10; 13; 10]]
    ready_sample [] append_accepts append_additive ltac:(forall_list; done) ltac:(by vm_compute)
    (in_body_live _ in_body_sample)) as H.
  change (concat _) with body_sample in H. revert H E1 E2.
  destruct (Feed append_body (Bytes body_sample) ready_sample []) as [[[s n] d'] c'].
  cbn [fst snd]. intros H -> ->. exact H.
Defined.

(** Whatever the input and the callback, and in any order of calls: the size
    line and trailer line buffers and the trailer storage stay in bounds, every
    stored text lies inside the arena, no more input is consumed than there is,
    and [Feed] on a live decoder ends in one of three ways, by completing the
    body, by refusing it for good, or by consuming everything and asking for more. *)
Theorem chunked_safe {C} (onData : option (C -> list Z -> NTSTATUS * C)) (data : list Z)
    (d : HttpChunkedDecoder) (c : C) :
  decoder_reachable d -> zlen data < 2 ^ 64 ->
  decoder_ok d
  /\ let '(s, n, d', c') := Feed onData (Bytes data) d c in
     decoder_ok d' /\ 0 <= n <= zlen data
     /\ (live d -> outcome (zlen data) s n d')
     /\ (cd_state d = Failed -> d' = d /\ s <> STATUS_SUCCESS).
Proof.
  intros Hr Hb. pose proof (decoder_reachable_ok d Hr) as Hd. split; [done|].
  pose proof (Feed_ok onData (Bytes data) d c Hd Hb) as Hok.
  assert (Hf : cd_state d = Failed -> (Feed onData (Bytes data) d c).1.2 = d
                 /\ (Feed onData (Bytes data) d c).1.1.1 <> STATUS_SUCCESS).
  { intros E. unfold Feed. rewrite E. by case_if. }
  destruct (Feed onData (Bytes data) d c) as [[[s n] d'] c']. cbn [sp_len fst snd] in *.
  pose proof (zlen_nonneg data). destruct Hok as (? & ? & Ho). split_and!; [done|lia|lia| |done].
  intros Hl. by apply Ho.
Qed.

Lemma chunked_safe_witness :
  decoder_ok (Feed append_body (Bytes body_sample) ready_sample []).1.2
  /\ cd_state (Feed append_body (Bytes body_sample) ready_sample []).1.2 = Complete.
Proof.
  pose proof (chunked_safe append_body body_sample ready_sample []) as H.
  destruct H as [_ H]; [apply dr_storage; [apply dr_initialize, dr_default|by vm_compute]|by vm_compute|].
  split; [|by vm_compute]. revert H.
  destruct (Feed append_body (Bytes body_sample) ready_sample []) as [[[s n] d'] c']. intros H. exact (proj1 H).
Defined.

(** A carriage return inside the digits of a size is dropped: ["1" CR "0" LF]
    announces sixteen bytes. *)
Example stray_carriage_return :
  chunk_size (strip [49; 13; 48]) = Some 16.
Proof. done. Qed.

(** An extension may have any length. *)
Lemma extension_unbounded ext : no_lf ext -> chunk_size (strip (53 :: 59 :: ext)) = Some 5.
Proof. done. Qed.
