(* ===== verification/HttpChunkedBody.v ===== *)
(** * Chunked bodies that arrived whole (http1/HttpParser.cpp)

    [DecodeChunkedBodyWithTrailers] reads a chunked body from one buffer: the
    lines, the extensions, the chunks and the trailer fields.  The accepted
    language is a grammar, and the decoder accepts exactly that; a body cut short
    asks for more bytes; and on a common grammar this decoder and the streaming
    one (HttpChunkedDecoder) agree, while elsewhere they differ. *)

From Stdlib Require Import Ascii String.
From S2P Require Import Prelude.
From S2P Require Import HttpChunkedDecoder.
From S2P Require Import HttpText.
#[local] Open Scope string_scope.
#[local] Open Scope list_scope.
#[local] Open Scope Z_scope.

Definition HttpMaxTrailers : Z := 512.
Definition HttpMaxChunks : Z := 8192.

(** ** Characters and texts

    [IsHexDigit], [HexValue] and [IsTchar] of this file are those of
    HttpChunkedDecoder, letter by letter; [IsOptionalWhitespace] is [is_blank]. *)

Definition IsDigit (value : Z) : bool := (value >=? 48) && (value <=? 57).
Definition IsQuotedPairText (ch : Z) : bool := (ch =? 9) || ((ch >=? 0x20) && (ch <=? 0x7e)).

Definition IsValidHeaderName (text : Text) : bool :=
  if sp_isnull text || (sp_len text =? 0) then false else forallb IsTchar (sp_bytes text).
Definition value_char (ch : Z) : bool := negb (negb (ch =? 9) && ((ch <? 0x20) || (ch =? 0x7f))).
Definition IsValidHeaderValue (text : Text) : bool :=
  if sp_isnull text && negb (sp_len text =? 0) then false else forallb value_char (sp_bytes text).
Definition IsValidToken (text : Text) : bool :=
  if sp_isnull text || (sp_len text =? 0) then false else forallb IsTchar (sp_bytes text).

(** The loop [while (p(data[i])) ++i]: what it passes over, and the rest. *)
Fixpoint scan (p : Z -> bool) (l : list Z) : list Z * list Z :=
  match l with
  | [] => ([], [])
  | ch :: rest => if p ch then let '(taken, rest) := scan p rest in (ch :: taken, rest) else ([], l)
  end.

(** The offset of the first carriage return before a line feed. *)
Fixpoint find_crlf (l : list Z) : option Z :=
  match l with
  | a :: ((b :: _) as rest) => if (a =? 13) && (b =? 10) then Some 0 else option_map (Z.add 1) (find_crlf rest)
  | _ => None
  end.
(** [None] is [InvalidOffset]. *)
Definition FindCrlf (data : list Z) (start : Z) : option Z :=
  if start >=? zlen data then None else option_map (Z.add start) (find_crlf (zdrop start data)).

(** ** Chunk extensions *)

(** The rest after the closing quote. *)
Fixpoint quoted_loop (rest : list Z) : option (list Z) :=
  match rest with
  | [] => None
  | value :: rest =>
      if value =? 34 then Some rest
      else if value =? 92 then
        match rest with
        | [] => None
        | ch :: rest => if negb (IsQuotedPairText ch) then None else quoted_loop rest
        end
      else if negb (value =? 9) && (value <? 0x20) then None
      else quoted_loop rest
  end.

Definition parameter_value (rest : list Z) : option (list Z) :=
  match skip is_blank rest with
  | [] => None
  | ch :: tail =>
      if ch =? 34 then quoted_loop tail
      else
        let '(value, rest) := scan IsTchar (ch :: tail) in
        if zlen value =? 0 then None else Some rest
  end.

(** One turn of the loop, from a semicolon to the next one or to the end. *)
Definition one_parameter (rest : list Z) : option (list Z) :=
  match rest with
  | ch :: rest =>
      if negb (ch =? 59) then None
      else
        let '(name, rest) := scan IsTchar (skip is_blank rest) in
        if zlen name =? 0 then None
        else if negb (IsValidToken (Bytes name)) then None
        else
          match skip is_blank rest with
          | [] => Some []
          | ch :: tail =>
              if ch =? 59 then Some (ch :: tail)
              else if negb (ch =? 61) then None
              else
                rest ← parameter_value tail;
                match skip is_blank rest with
                | [] => Some []
                | ch :: tail => if negb (ch =? 59) then None else Some (ch :: tail)
                end
          end
  | [] => None
  end.

Fixpoint parameters_loop (fuel : nat) (rest : list Z) : NTSTATUS :=
  match fuel, rest with
  | _, [] => STATUS_SUCCESS
  | O, _ => STATUS_OTHER 0
  | S fuel, _ =>
      match one_parameter rest with
      | None => STATUS_INVALID_NETWORK_RESPONSE
      | Some rest => parameters_loop fuel rest
      end
  end.
Definition ValidateSemicolonParameters (parameters : list Z) : NTSTATUS :=
  parameters_loop (length parameters) parameters.

(** ** Trailer fields *)

Definition IsForbiddenTrailerField (name : Text) : bool :=
  TextEqualsIgnoreCase name (text "Content-Length") || TextEqualsIgnoreCase name (text "Transfer-Encoding")
  || TextEqualsIgnoreCase name (text "Host") || TextEqualsIgnoreCase name (text "Authorization")
  || TextEqualsIgnoreCase name (text "Proxy-Authorization") || TextEqualsIgnoreCase name (text "Cookie")
  || TextEqualsIgnoreCase name (text "Set-Cookie").

(** [line]: the bytes from [lineStart] to [lineEnd]. *)
Definition ParseTrailerFieldLine (line : list Z) : Result HttpHeader :=
  match line with
  | [] => Err STATUS_INVALID_PARAMETER
  | first :: _ =>
      if is_blank first then Err STATUS_INVALID_NETWORK_RESPONSE
      else
        match cut 58 line with
        | (name, _ :: value) =>
            if zlen name =? 0 then Err STATUS_INVALID_NETWORK_RESPONSE
            else
              let name := Bytes name in
              let value := TrimOptionalWhitespace (Bytes value) in
              if negb (IsValidHeaderName name) || negb (IsValidHeaderValue value) || IsForbiddenTrailerField name
              then Err STATUS_INVALID_NETWORK_RESPONSE
              else Ok (MkHeader name value)
        | (_, []) => Err STATUS_INVALID_NETWORK_RESPONSE
        end
  end.

(** ** Chunks *)

Fixpoint parse_hex_loop (rest : list Z) (parsed : Z) : Result Z :=
  match rest with
  | [] => Ok parsed
  | ch :: rest =>
      if negb (IsHexDigit ch) then Err STATUS_INVALID_NETWORK_RESPONSE
      else
        let digit := HexValue ch in
        if parsed >? (MAXU64 -! digit) / 16 then Err STATUS_INTEGER_OVERFLOW
        else parse_hex_loop rest ((parsed *! 16) +! digit)
  end.
Definition ParseHexSize (text : Text) : Result Z :=
  if sp_isnull text || (sp_len text =? 0) then Err STATUS_INVALID_PARAMETER else parse_hex_loop (sp_bytes text) 0.

(** What a call fills: the bytes at the destination, [*bytesConsumed],
    [*trailerCount], and the trailer array. *)
Record chunked := MkChunked {
  ck_decoded : list Z;
  ck_consumed : Z;
  ck_trailerCount : Z;
  ck_trailers : list HttpHeader;
}.
#[export] Instance chunked_eta : Eta chunked := fun x =>
  MkChunked (ck_decoded x) (ck_consumed x) (ck_trailerCount x) (ck_trailers x).
Definition chunked_start : chunked := MkChunked [] 0 0 [].

Section Decode.
(** The destination and the trailer array: whether each pointer is there, and the
    capacities.  The destination does not overlap the body ([SelectDestination]). *)
Variable destination : bool.
Variable capacity : Z.
Variable trailers : bool.
Variable trailerCapacity : Z.
Variable data : list Z.

(** [source]: the [chunkSize] bytes at the cursor. *)
Definition CopyChunkData (source : list Z) (k : chunked) : NTSTATUS * chunked :=
  let chunkSize := zlen source in
  if chunkSize =? 0 then (STATUS_SUCCESS, k)
  else if negb destination || (zlen (ck_decoded k) >? capacity) || (chunkSize >? capacity -! zlen (ck_decoded k))
  then (STATUS_BUFFER_TOO_SMALL, k)
  else (STATUS_SUCCESS, k <| ck_decoded := ck_decoded k ++ source |>).

(** The loop over the trailer lines. *)
Fixpoint trailers_loop (fuel : nat) (cursor : Z) (k : chunked) : NTSTATUS * chunked :=
  match fuel with
  | O => (STATUS_OTHER 0, k)
  | S fuel =>
      match FindCrlf data cursor with
      | None => (STATUS_MORE_PROCESSING_REQUIRED, k)
      | Some trailerLineEnd =>
          if trailerLineEnd -! cursor >? HttpMaxHeaderLineBytes then (STATUS_INVALID_NETWORK_RESPONSE, k)
          else if trailerLineEnd =? cursor then (STATUS_SUCCESS, k <| ck_consumed := cursor +! 2 |>)
          else if ck_trailerCount k >=? HttpMaxTrailers then (STATUS_INVALID_NETWORK_RESPONSE, k)
          else if trailers && (ck_trailerCount k >=? trailerCapacity) then (STATUS_BUFFER_TOO_SMALL, k)
          else
            match ParseTrailerFieldLine (zsub data cursor (trailerLineEnd - cursor)) with
            | Err status => (status, k)
            | Ok field =>
                let k := if trailers then k <| ck_trailers := ck_trailers k ++ [field] |> else k in
                trailers_loop fuel (trailerLineEnd +! 2) (k <| ck_trailerCount := ck_trailerCount k +! 1 |>)
            end
      end
  end.

(** The size that a line announces. *)
Definition chunk_line (line : list Z) : Result Z :=
  let '(size, extension) := cut 59 line in
  if negb (zlen extension =? 0) && negb (NT_SUCCESS (ValidateSemicolonParameters extension))
  then Err (ValidateSemicolonParameters extension)
  else
    let chunkSizeText := trim size in
    if zlen chunkSizeText =? 0 then Err STATUS_INVALID_NETWORK_RESPONSE else ParseHexSize (Bytes chunkSizeText).

Fixpoint chunks_loop (fuel : nat) (cursor chunkCount : Z) (k : chunked) : NTSTATUS * chunked :=
  match fuel with
  | O => (STATUS_OTHER 0, k)
  | S fuel =>
      match FindCrlf data cursor with
      | None => (STATUS_MORE_PROCESSING_REQUIRED, k)
      | Some chunkLineEnd =>
          if chunkLineEnd -! cursor >? HttpMaxChunkSizeLineBytes then (STATUS_INVALID_NETWORK_RESPONSE, k)
          else
            match chunk_line (zsub data cursor (chunkLineEnd - cursor)) with
            | Err status => (status, k)
            | Ok chunkSize =>
                let cursor := chunkLineEnd +! 2 in
                if chunkSize =? 0 then trailers_loop (S (length data)) cursor k
                else
                  let chunkCount := chunkCount +! 1 in
                  if chunkCount >? HttpMaxChunks then (STATUS_INVALID_NETWORK_RESPONSE, k)
                  else if chunkSize >? zlen data -! cursor then (STATUS_MORE_PROCESSING_REQUIRED, k)
                  else
                    let '(status, k) := CopyChunkData (zsub data cursor chunkSize) k in
                    if negb (NT_SUCCESS status) then (status, k)
                    else
                      let cursor := cursor +! chunkSize in
                      if cursor +! 2 >? zlen data then (STATUS_MORE_PROCESSING_REQUIRED, k)
                      else if negb (zget data cursor =? 13) || negb (zget data (cursor +! 1) =? 10)
                      then (STATUS_INVALID_NETWORK_RESPONSE, k)
                      else chunks_loop fuel (cursor +! 2) chunkCount k
            end
      end
  end.
End Decode.

(** The pointers for the three counts are there. *)
Definition DecodeChunkedBodyWithTrailers (data : span) (destination : bool) (capacity : Z) (trailers : bool)
    (trailerCapacity : Z) : NTSTATUS * chunked :=
  if (negb destination && negb (capacity =? 0)) || (negb trailers && negb (trailerCapacity =? 0))
  then (STATUS_INVALID_PARAMETER, chunked_start)
  else
    match data with
    | Null _ => (STATUS_INVALID_PARAMETER, chunked_start)
    | Bytes data =>
        chunks_loop destination capacity trailers trailerCapacity data (S (length data)) 0 0 chunked_start
    end.

Definition DecodeChunkedBody (data : span) (destination : bool) (capacity : Z) : NTSTATUS * chunked :=
  DecodeChunkedBodyWithTrailers data destination capacity false 0.

(** ** Scanning *)

Lemma scan_spec p l : exists a b, scan p l = (a, b) /\ l = a ++ b /\ Forall (fun ch => p ch = true) a
  /\ match b with [] => True | ch :: _ => p ch = false end.
Proof.
  induction l as [|ch l (a & b & E & -> & Ha & Hb)]; [by exists [], []|]. cbn [scan]. destruct (p ch) eqn:Ech.
  - rewrite E. exists (ch :: a), b. by split_and!; [done|done|apply Forall_cons|].
  - exists [], (ch :: a ++ b). by split_and!.
Qed.
Lemma scan_app p a b : Forall (fun ch => p ch = true) a -> match b with [] => True | ch :: _ => p ch = false end ->
  scan p (a ++ b) = (a, b).
Proof.
  intros Ha Hb. induction Ha as [|ch a Hc _ IH]; cbn [app scan].
  - destruct b as [|ch b]; [done|]. cbn [scan]. by rewrite Hb.
  - by rewrite Hc, IH.
Qed.
Lemma skip_app p a b : Forall (fun ch => p ch = true) a -> match b with [] => True | ch :: _ => p ch = false end ->
  skip p (a ++ b) = b.
Proof. intros Ha Hb. rewrite skip_app_blank by done. by apply skip_none. Qed.
Lemma cut_app_at stop a b : Forall (fun ch => ch <> stop) a -> cut stop (a ++ stop :: b) = (a, stop :: b).
Proof.
  induction 1 as [|ch a Hc _ IH]; cbn [app cut]; [by rewrite Z.eqb_refl|]. by rewrite (proj2 (Z.eqb_neq ch stop) Hc), IH.
Qed.
Lemma cut_none stop a : Forall (fun ch => ch <> stop) a -> cut stop a = (a, []).
Proof. induction 1 as [|ch a Hc _ IH]; cbn [cut]; [done|]. by rewrite (proj2 (Z.eqb_neq ch stop) Hc), IH. Qed.
Lemma forallb_Forall {A} (p : A -> bool) l : forallb p l = true <-> Forall (fun x => p x = true) l.
Proof. rewrite List.forallb_forall, Forall_forall. by setoid_rewrite list_elem_of_In. Qed.

(** ** Lines *)

Lemma find_crlf_cons a l : find_crlf (a :: l)
  = match l with b :: _ => if (a =? 13) && (b =? 10) then Some 0 else option_map (Z.add 1) (find_crlf l) | [] => None end.
Proof. by destruct l. Qed.
Lemma find_crlf_app w rest : find_crlf w = None -> find_crlf (w ++ 13 :: 10 :: rest) = Some (zlen w).
Proof.
  induction w as [|a w IH]; intros Hw; [done|]. rewrite find_crlf_cons in Hw. cbn [app]. rewrite find_crlf_cons.
  destruct w as [|b w]; [cbn [app]; by rewrite andb_false_r|]. cbn [app].
  destruct ((a =? 13) && (b =? 10)); [done|]. destruct (find_crlf (b :: w)) eqn:E; [done|].
  cbn [app] in IH. rewrite IH by done. cbn [option_map]. by rewrite (zlen_cons a).
Qed.
Lemma find_crlf_Some l n : find_crlf l = Some n ->
  exists w rest, l = w ++ 13 :: 10 :: rest /\ zlen w = n /\ find_crlf w = None.
Proof.
  revert n. induction l as [|a l IH]; intros n; [done|]. rewrite find_crlf_cons. destruct l as [|b l]; [done|].
  destruct ((a =? 13) && (b =? 10)) eqn:E.
  - intros [= <-]. bool_prop. subst. by exists [], l.
  - destruct (find_crlf (b :: l)) as [m|] eqn:Em; [|done]. intros [= <-]. destruct (IH m eq_refl) as (w & rest & El & Hl & Hw).
    exists (a :: w), rest. rewrite El, zlen_cons, Hl. split_and!; [done|done|]. rewrite find_crlf_cons.
    destruct w as [|c w]; [done|]. injection El as <- _. by rewrite E, Hw.
Qed.
Lemma find_crlf_prefix a b : find_crlf (a ++ b) = None -> find_crlf a = None.
Proof.
  induction a as [|x a IH]; [done|]. cbn [app]. rewrite !find_crlf_cons. destruct a as [|y a]; [done|]. cbn [app] in *.
  destruct ((x =? 13) && (y =? 10)); [done|]. destruct (find_crlf (y :: a ++ b)); [done|]. by rewrite IH.
Qed.
Lemma find_crlf_snoc w : find_crlf w = None -> find_crlf (w ++ [13]) = None.
Proof.
  induction w as [|x w IH]; [done|]. cbn [app]. rewrite !find_crlf_cons. destruct w as [|y w]; cbn [app] in *.
  - intros _. by rewrite andb_false_r.
  - destruct ((x =? 13) && (y =? 10)); [done|]. destruct (find_crlf (y :: w)); [done|]. by rewrite IH.
Qed.
(** Neither character of a line's end. *)
Abbreviation no_cr := (Forall (fun ch => ch <> 13 /\ ch <> 10)).
Lemma find_crlf_no_cr w : no_cr w -> find_crlf w = None.
Proof.
  induction 1 as [|x w [Hx _] _ IH]; [done|]. rewrite find_crlf_cons. destruct w; [done|].
  rewrite (proj2 (Z.eqb_neq x 13)) by done. cbn [andb]. by rewrite IH.
Qed.

(** At the cursor. *)
Lemma FindCrlf_at before rest :
  FindCrlf (before ++ rest) (zlen before) = option_map (Z.add (zlen before)) (find_crlf rest).
Proof.
  unfold FindCrlf. rewrite zlen_app, zdrop_app_len, Z.geb_leb. destruct (Z.leb_spec (zlen before + zlen rest) (zlen before)); [|done].
  destruct rest; [done|]. rewrite zlen_cons in *. pose proof (zlen_nonneg rest). lia.
Qed.

(** ** Extensions: the grammar *)

Inductive quoted : list Z -> Prop :=
  | quoted_end : quoted [34]
  | quoted_pair ch q : IsQuotedPairText ch = true -> quoted q -> quoted (92 :: ch :: q)
  | quoted_char ch q : ch <> 34 -> ch <> 92 -> ch = 9 \/ 32 <= ch -> quoted q -> quoted (ch :: q).

Definition token (l : list Z) : Prop := l <> [] /\ Forall (fun ch => IsTchar ch = true) l.
Definition parameter_text (l : list Z) : Prop := token l \/ exists q, l = 34 :: q /\ quoted q.

(** A semicolon, a name, and a value or none, with white space in between. *)
Inductive parameter : list Z -> Prop :=
  | parameter_name a name b : blanks a -> token name -> blanks b -> parameter (59 :: a ++ name ++ b)
  | parameter_pair a name b c value d :
      blanks a -> token name -> blanks b -> blanks c -> parameter_text value -> blanks d ->
      parameter (59 :: a ++ name ++ b ++ 61 :: c ++ value ++ d).
Inductive semicolon_parameters : list Z -> Prop :=
  | parameters_nil : semicolon_parameters []
  | parameters_cons p rest : parameter p -> semicolon_parameters rest -> semicolon_parameters (p ++ rest).

Lemma quoted_loop_ok q rest : quoted q -> quoted_loop (q ++ rest) = Some rest.
Proof.
  induction 1 as [|ch q Hc _ IH|ch q H1 H2 H3 _ IH]; [done| |]; cbn [app quoted_loop].
  - cbn [Z.eqb Pos.eqb]. rewrite Hc. exact IH.
  - rewrite (proj2 (Z.eqb_neq ch 34)), (proj2 (Z.eqb_neq ch 92)) by done.
    replace (negb (ch =? 9) && (ch <? 32)) with false; [done|]. symmetry.
    destruct H3 as [-> |H3]; [done|]. by rewrite (proj2 (Z.ltb_ge ch 32)), andb_false_r.
Qed.
Lemma quoted_loop_sound l rest : quoted_loop l = Some rest -> exists q, l = q ++ rest /\ quoted q.
Proof.
  assert (H : forall n l, (length l <= n)%nat -> quoted_loop l = Some rest -> exists q, l = q ++ rest /\ quoted q).
  { clear l. induction n as [|n IH]; intros [|ch l] Hl; cbn [length] in Hl; try done; try lia. cbn [quoted_loop].
    destruct (Z.eqb_spec ch 34) as [-> |H34]; [intros [= ->]; exists [34]; by split; [|constructor]|].
    destruct (Z.eqb_spec ch 92) as [-> |H92].
    - destruct l as [|c l]; [done|]. destruct (IsQuotedPairText c) eqn:Ec; [|done]. cbn [negb length] in *.
      intros (q & -> & Hq)%IH; [|lia]. exists (92 :: c :: q). by split; [|constructor].
    - destruct (negb (ch =? 9) && (ch <? 32)) eqn:E; [done|]. intros (q & -> & Hq)%IH; [|lia].
      exists (ch :: q). split; [done|]. constructor; try done. destruct (Z.eqb_spec ch 9); [by left|]. cbn in E.
      right. by apply Z.ltb_ge. }
  by apply (H (length l)).
Qed.

(** What follows a parameter. *)
Definition at_parameter (l : list Z) : Prop := match l with [] => True | ch :: _ => ch = 59 end.
Lemma at_parameter_not p l : at_parameter l -> p 59 = false -> match l with [] => True | ch :: _ => p ch = false end.
Proof. destruct l; [done|]. by intros -> ?. Qed.
Lemma token_nonempty l : token l -> (zlen l =? 0) = false.
Proof. intros [H _]. destruct l; [done|]. apply Z.eqb_neq. rewrite zlen_cons. pose proof (zlen_nonneg l). lia. Qed.
Lemma IsValidToken_token l : token l -> IsValidToken (Bytes l) = true.
Proof. intros H. unfold IsValidToken. cbn [sp_isnull sp_len sp_bytes orb]. rewrite token_nonempty by done. apply forallb_Forall. by destruct H. Qed.

Lemma tchar_not_blank ch : IsTchar ch = true -> is_blank ch = false.
Proof.
  intros H. destruct (is_blank ch) eqn:E; [|done]. unfold is_blank in E.
  apply orb_true_iff in E as [E|E]; apply Z.eqb_eq in E; subst; by vm_compute in H.
Qed.
Lemma blank_not_tchar l c : blanks l -> match c with [] => True | ch :: _ => IsTchar ch = false end ->
  match l ++ c with [] => True | ch :: _ => IsTchar ch = false end.
Proof.
  destruct 1 as [|ch l Hc _]; [done|]. intros _. cbn [app]. destruct (IsTchar ch) eqn:E; [|done].
  apply tchar_not_blank in E. congruence.
Qed.
Lemma token_head l c : token l -> match l ++ c with [] => True | ch :: _ => is_blank ch = false end.
Proof. intros [Hn Hl]. destruct l as [|ch l]; [done|]. apply Forall_cons in Hl as [Hc _]. by apply tchar_not_blank. Qed.

Lemma parameter_value_sound l rest : parameter_value l = Some rest ->
  exists c value, l = c ++ value ++ rest /\ blanks c /\ parameter_text value.
Proof.
  unfold parameter_value. destruct (skip_spec is_blank l) as (c & E & Hc). destruct (skip is_blank l) as [|ch tail] eqn:Es; [done|].
  destruct (Z.eqb_spec ch 34) as [-> |H34].
  - intros (q & -> & Hq)%quoted_loop_sound. exists c, (34 :: q). split_and!; [done|done|right]. by exists q.
  - destruct (scan_spec IsTchar (ch :: tail)) as (v & b & Ev & Eb & Hv & _). rewrite Ev.
    destruct (Z.eqb_spec (zlen v) 0) as [|Hz]; [done|]. intros [= ->]. exists c, v. rewrite E, Eb. split_and!; [done|done|left].
    split; [|done]. by intros ->.
Qed.
Lemma parameter_value_ok c value rest : blanks c -> parameter_text value ->
  match rest with [] => True | ch :: _ => IsTchar ch = false end -> parameter_value (c ++ value ++ rest) = Some rest.
Proof.
  intros Hc Hv Hrest. unfold parameter_value. rewrite skip_app_blank by done. destruct Hv as [Hv|(q & -> & Hq)].
  - rewrite skip_none by (by apply token_head). pose proof Hv as [Hne Ht]. destruct value as [|ch v]; [done|]. cbn [app].
    replace (ch =? 34) with false.
    + change (ch :: v ++ rest) with ((ch :: v) ++ rest). rewrite scan_app by done. by rewrite token_nonempty.
    + symmetry. apply Z.eqb_neq. intros ->. apply Forall_cons in Ht as [Ht _]. by vm_compute in Ht.
  - cbn [app skip]. change (is_blank 34) with false. cbv iota. cbn [Z.eqb Pos.eqb]. by apply quoted_loop_ok.
Qed.

Lemma one_parameter_sound l rest : one_parameter l = Some rest ->
  exists p, l = p ++ rest /\ parameter p /\ at_parameter rest.
Proof.
  unfold one_parameter. destruct l as [|ch l]; [done|]. destruct (Z.eqb_spec ch 59) as [-> |]; [|done]. cbn [negb].
  destruct (skip_spec is_blank l) as (a & El & Ha). destruct (scan_spec IsTchar (skip is_blank l)) as (name & r1 & En & E1 & Hn & _).
  rewrite En. destruct (Z.eqb_spec (zlen name) 0) as [|Hz]; [done|]. assert (Ht : token name) by (split; [by intros ->|done]).
  rewrite IsValidToken_token by done. cbn [negb]. destruct (skip_spec is_blank r1) as (b & E2 & Hb).
  assert (Hbase : l = a ++ name ++ b ++ skip is_blank r1) by (by rewrite <- E2, <- E1).
  destruct (skip is_blank r1) as [|ch tail] eqn:Es.
  { intros [= <-]. exists (59 :: a ++ name ++ b). rewrite Hbase, !app_nil_r. by split_and!; [|constructor|]. }
  destruct (Z.eqb_spec ch 59) as [-> |].
  { intros [= <-]. exists (59 :: a ++ name ++ b). rewrite Hbase. cbn [app]. rewrite <- !app_assoc. by split_and!; [|constructor|]. }
  destruct (Z.eqb_spec ch 61) as [-> |]; [|done]. cbn [negb]. intros (r2 & Hv & H)%bind_Some.
  apply parameter_value_sound in Hv as (c & value & -> & Hc & Hval). destruct (skip_spec is_blank r2) as (d & E3 & Hd).
  exists (59 :: a ++ name ++ b ++ 61 :: c ++ value ++ d).
  assert (Hr : rest = skip is_blank r2 /\ at_parameter rest).
  { destruct (skip is_blank r2) as [|ch t]; [by injection H as <-|]. destruct (Z.eqb_spec ch 59) as [-> |]; [|done]. by injection H as <-. }
  destruct Hr as [-> Hat]. rewrite Hbase, E3 at 1. split_and!; [|by constructor|done].
  cbn [app]. by rewrite <- !app_assoc; cbn [app]; rewrite <- !app_assoc.
Qed.
Lemma one_parameter_ok p rest : parameter p -> at_parameter rest -> one_parameter (p ++ rest) = Some rest.
Proof.
  intros Hp Hrest. assert (Hb59 : match rest with [] => True | ch :: _ => is_blank ch = false end) by (by apply at_parameter_not).
  assert (Ht59 : match rest with [] => True | ch :: _ => IsTchar ch = false end) by (by apply at_parameter_not).
  destruct Hp as [a name b Ha Hn Hb|a name b c value d Ha Hn Hb Hc Hv Hd].
  - cbn [app one_parameter]. cbn [Z.eqb Pos.eqb negb]. rewrite <- !app_assoc.
    rewrite skip_app by (exact Ha || by apply token_head). rewrite scan_app by first [exact (proj2 Hn)|by apply blank_not_tchar].
    rewrite token_nonempty, IsValidToken_token by done. cbn [negb]. rewrite skip_app by done.
    destruct rest as [|ch rest]; [done|]. cbn in Hrest. by subst.
  - cbn [app one_parameter]. cbn [Z.eqb Pos.eqb negb]. rewrite <- !app_assoc.
    rewrite skip_app by (exact Ha || by apply token_head). rewrite scan_app by first [exact (proj2 Hn)|by apply blank_not_tchar].
    rewrite token_nonempty, IsValidToken_token by done. cbn [negb app]. rewrite <- !app_assoc, skip_app by done.
    cbn [Z.eqb Pos.eqb negb]. rewrite parameter_value_ok by (done || by apply blank_not_tchar). cbn [mbind option_bind].
    rewrite skip_app by done. destruct rest as [|ch rest]; [done|]. cbn in Hrest. by subst.
Qed.
Lemma parameter_semicolon p : parameter p -> exists l, p = 59 :: l.
Proof. destruct 1; eexists; reflexivity. Qed.
Lemma semicolon_at l : semicolon_parameters l -> at_parameter l.
Proof. destruct 1 as [|p rest Hp _]; [done|]. by destruct (parameter_semicolon p Hp) as (l & ->). Qed.

Lemma ValidateSemicolonParameters_spec l :
  (ValidateSemicolonParameters l = STATUS_SUCCESS <-> semicolon_parameters l)
  /\ (ValidateSemicolonParameters l <> STATUS_SUCCESS -> ValidateSemicolonParameters l = STATUS_INVALID_NETWORK_RESPONSE).
Proof.
  unfold ValidateSemicolonParameters. assert (Hf : (length l <= length l)%nat) by lia. revert Hf. generalize (length l) at 2 3 4 5.
  intros fuel. revert l. induction fuel as [|fuel IH]; intros l Hf; (destruct l as [|ch l]; [split; [split; [constructor|done]|done]|]); [cbn in Hf; lia|].
  cbn [parameters_loop]. destruct (one_parameter (ch :: l)) as [rest|] eqn:E.
  - apply one_parameter_sound in E as (p & Ep & Hp & Hat). destruct (parameter_semicolon p Hp) as (q & Eq).
    assert (Hl : (length rest <= fuel)%nat) by (apply (f_equal length) in Ep; rewrite Eq, length_app in Ep; cbn [length] in *; lia).
    destruct (IH rest Hl) as [IH1 IH2]. split; [|exact IH2]. rewrite IH1, Ep. split; [by constructor|].
    intros Hs. inversion Hs as [E0|p' rest' Hp' Hs' E0]; [by rewrite Eq in E0|].
    pose proof (one_parameter_ok p rest Hp Hat) as O1. pose proof (one_parameter_ok p' rest' Hp' (semicolon_at _ Hs')) as O2. congruence.
  - split; [|done]. split; [done|]. intros Hs. inversion Hs as [|p rest Hp Hs' E0].
    pose proof (one_parameter_ok p rest Hp (semicolon_at _ Hs')). congruence.
Qed.

(** ** Size lines *)

Lemma trim_padding a v b : blanks a -> blanks b -> trim (a ++ v ++ b) = trim v.
Proof.
  intros Ha Hb. induction Ha as [|ch a Hc _ IH]; cbn [app]; [|by rewrite trim_cons].
  induction b as [|ch b IH] using rev_ind; [by rewrite app_nil_r|]. apply Forall_app in Hb as [Hb Hc].
  rewrite app_assoc, trim_snoc by exact (Forall_inv Hc). by apply IH.
Qed.
Lemma trim_solid v : Forall (fun ch => is_blank ch = false) v -> trim v = v.
Proof.
  intros Hv. unfold trim. rewrite (skip_none is_blank v) by (by destruct Hv). rewrite skip_none; [apply rev_involutive|].
  apply Forall_rev in Hv. by destruct Hv.
Qed.

Definition hex_size (digits : list Z) (n : Z) : Prop :=
  digits <> [] /\ forallb IsHexDigit digits = true /\ hex_value 0 digits = n /\ n < 2 ^ 64.
(** A size with white space around it, and extensions. *)
Definition size_line (w : list Z) (n : Z) : Prop :=
  exists a digits b ext, w = a ++ digits ++ b ++ ext /\ blanks a /\ blanks b /\ hex_size digits n /\ semicolon_parameters ext.

Lemma parse_hex_loop_spec l p n : parse_hex_loop l p = Ok n <-> accumulate_size p l = Some n.
Proof.
  revert p. induction l as [|ch l IH]; intros p; cbn [parse_hex_loop accumulate_size]; [split; congruence|].
  destruct (IsHexDigit ch); [|done]. cbn [negb]. case_if; [done|]. apply IH.
Qed.
Lemma accumulate_digits l p n : accumulate_size p l = Some n -> forallb IsHexDigit l = true.
Proof.
  revert p. induction l as [|ch l IH]; intros p; [done|]. cbn [accumulate_size forallb]. destruct (IsHexDigit ch); [|done]. cbn [negb].
  case_if; [done|]. apply IH.
Qed.
Lemma ParseHexSize_spec l n : l <> [] -> ParseHexSize (Bytes l) = Ok n <-> hex_size l n.
Proof.
  intros Hl. unfold ParseHexSize, hex_size. cbn [sp_isnull sp_len sp_bytes orb].
  replace (zlen l =? 0) with false by (destruct l; [done|]; symmetry; apply Z.eqb_neq; rewrite zlen_cons; pose proof (zlen_nonneg l); lia).
  rewrite parse_hex_loop_spec. split.
  - intros H. pose proof (accumulate_digits _ _ _ H) as Hd. rewrite accumulate_value in H by (done || lia).
    destruct (Z.geb_spec (hex_value 0 l) (2 ^ 64)); [done|]. injection H as <-. by split_and!.
  - intros (_ & Hd & <- & Hn). rewrite accumulate_value by (done || lia). by destruct (Z.geb_spec (hex_value 0 l) (2 ^ 64)); [lia|].
Qed.

Lemma hex_digit_solid l : forallb IsHexDigit l = true ->
  Forall (fun ch => ch <> 59) l /\ Forall (fun ch => is_blank ch = false) l.
Proof.
  intros H%forallb_Forall. split; eapply Forall_impl; [exact H| |exact H|]; intros ch Hc; cbv beta in *.
  - intros ->. by vm_compute in Hc.
  - destruct (is_blank ch) eqn:E; [|done]. unfold is_blank in E. apply orb_true_iff in E as [E|E]; apply Z.eqb_eq in E; subst; by vm_compute in Hc.
Qed.
Lemma blanks_no_semicolon l : blanks l -> Forall (fun ch => ch <> 59) l.
Proof. intros H. eapply Forall_impl; [exact H|]. cbv beta. intros ch Hc ->. by vm_compute in Hc. Qed.
Lemma semicolon_parameters_cases l : semicolon_parameters l -> l = [] \/ exists r, l = 59 :: r.
Proof. destruct 1 as [|p rest Hp _]; [by left|]. right. destruct (parameter_semicolon p Hp) as (q & ->). by eexists. Qed.

Lemma chunk_line_spec w n : chunk_line w = Ok n <-> size_line w n.
Proof.
  unfold chunk_line, size_line. split.
  - pose proof (cut_app 59 w) as Ew. destruct (cut 59 w) as [size ext]. cbn [fst snd] in Ew.
    destruct (ValidateSemicolonParameters_spec ext) as [Hs _].
    destruct (negb (zlen ext =? 0) && negb (NT_SUCCESS (ValidateSemicolonParameters ext))) eqn:E; [done|].
    destruct (Z.eqb_spec (zlen (trim size)) 0) as [|Hz]; [done|]. intros H. apply ParseHexSize_spec in H; [|by intros E0; rewrite E0 in Hz].
    destruct (trim_spec size) as (a & b & Esize & Hab). apply Forall_app in Hab as [Ha Hb].
    exists a, (trim size), b, ext. rewrite Ew at 1. rewrite Esize at 1. rewrite <- !app_assoc. split_and!; try done.
    apply Hs. apply andb_false_iff in E as [E|E]; apply negb_false_iff in E.
    + apply Z.eqb_eq in E. destruct ext; [done|]. rewrite zlen_cons in E. pose proof (zlen_nonneg ext). lia.
    + by apply NT_SUCCESS_true.
  - intros (a & digits & b & ext & -> & Ha & Hb & Hn & He).
    destruct (hex_digit_solid digits (proj1 (proj2 Hn))) as [Hd Hd'].
    assert (Hplain : Forall (fun ch => ch <> 59) (a ++ digits ++ b)).
    { rewrite !Forall_app. split_and!; [by apply blanks_no_semicolon|done|by apply blanks_no_semicolon]. }
    assert (Ecut : cut 59 (a ++ digits ++ b ++ ext) = (a ++ digits ++ b, ext)).
    { destruct (semicolon_parameters_cases ext He) as [-> |(r & ->)]; rewrite ?app_nil_r; [by apply cut_none|].
      rewrite !app_assoc, <- (app_assoc a). by apply cut_app_at. }
    rewrite Ecut. destruct (ValidateSemicolonParameters_spec ext) as [Hs _]. rewrite (proj2 Hs He). cbn [NT_SUCCESS negb]. rewrite andb_false_r.
    rewrite trim_padding, trim_solid by done. destruct Hn as [Hne Hn]. rewrite (proj2 (Z.eqb_neq _ 0)).
    + apply ParseHexSize_spec; [done|]. by split.
    + destruct digits; [done|]. rewrite zlen_cons. pose proof (zlen_nonneg digits). lia.
Qed.

(** ** Trailer lines *)

Definition forbidden_names : list (list Z) :=
  [str "Content-Length"; str "Transfer-Encoding"; str "Host"; str "Authorization"; str "Proxy-Authorization"; str "Cookie";
   str "Set-Cookie"].
Definition trailer_line (line : list Z) (h : HttpHeader) : Prop :=
  exists name v, line = name ++ 58 :: v /\ token name /\ Forall (fun ch => value_char ch = true) (trim v)
  /\ existsb (same_text name) forbidden_names = false /\ h = MkHeader (Bytes name) (Bytes (trim v)).

Lemma forbidden_spec name : IsForbiddenTrailerField (Bytes name) = existsb (same_text name) forbidden_names.
Proof.
  unfold IsForbiddenTrailerField, text, MakeText. rewrite !TextEqualsIgnoreCase_bytes.
  cbn [existsb forbidden_names]. by rewrite orb_false_r, !orb_assoc.
Qed.
Lemma IsValidHeaderName_token l : IsValidHeaderName (Bytes l) = true <-> token l.
Proof.
  unfold IsValidHeaderName, token. cbn [sp_isnull sp_len sp_bytes orb]. rewrite <- forallb_Forall.
  destruct l as [|ch l]; [by split; [|intros [? _]]|]. rewrite (proj2 (Z.eqb_neq _ 0)).
  - by split; [split|intros [_ ?]].
  - rewrite zlen_cons. pose proof (zlen_nonneg l). lia.
Qed.

Lemma tchar_no_colon l : Forall (fun ch => IsTchar ch = true) l -> Forall (fun ch => ch <> 58) l.
Proof. intros H. eapply Forall_impl; [exact H|]. cbv beta. intros ch Hc ->. by vm_compute in Hc. Qed.

Lemma ParseTrailerFieldLine_spec line h : ParseTrailerFieldLine line = Ok h <-> trailer_line line h.
Proof.
  unfold ParseTrailerFieldLine, trailer_line. split.
  - destruct line as [|first line']; [done|]. destruct (is_blank first); [done|]. set (line := first :: line').
    pose proof (cut_app 58 line) as E. pose proof (cut_head 58 line) as Eh. destruct (cut 58 line) as [name [|c v]]; [done|].
    cbn [fst snd] in *. subst c. destruct (zlen name =? 0); [done|]. rewrite forbidden_spec. cbn [TrimOptionalWhitespace].
    destruct (IsValidHeaderName (Bytes name)) eqn:E1; [|done]. destruct (IsValidHeaderValue (Bytes (trim v))) eqn:E2; [|done].
    destruct (existsb (same_text name) forbidden_names) eqn:E3; [done|]. cbn [negb orb]. intros [= <-]. exists name, v.
    split_and!; try done; [by apply IsValidHeaderName_token|by apply forallb_Forall].
  - intros (name & v & -> & Hn & Hv & Hf & ->). pose proof Hn as [Hne Ht].
    pose proof (cut_app_at 58 name v (tchar_no_colon name Ht)) as Ecut.
    destruct (name ++ 58 :: v) as [|first line'] eqn:El; [by destruct name|].
    assert (Hb : is_blank first = false).
    { pose proof (token_head name (58 :: v) Hn) as Hh. by rewrite El in Hh. }
    rewrite Hb, Ecut, token_nonempty by done. rewrite (proj2 (IsValidHeaderName_token name) Hn), forbidden_spec, Hf.
    cbn [TrimOptionalWhitespace negb orb]. unfold IsValidHeaderValue. cbn [sp_isnull andb sp_bytes].
    by rewrite (proj2 (forallb_Forall _ _) Hv).
Qed.

(** ** Bodies: the grammar *)

Inductive trailer_lines : list Z -> list HttpHeader -> Prop :=
  | trailers_end : trailer_lines [13; 10] []
  | trailers_line line h rest fields :
      trailer_line line h -> zlen line <= HttpMaxHeaderLineBytes -> trailer_lines rest fields ->
      trailer_lines (line ++ 13 :: 10 :: rest) (h :: fields).
(** Bodies whose size lines are of a grammar [line]. *)
Inductive body_of (line : list Z -> Z -> Prop) : list Z -> list (list Z) -> list HttpHeader -> Prop :=
  | whole_last w trailer fields :
      line w 0 -> zlen w <= HttpMaxChunkSizeLineBytes -> trailer_lines trailer fields ->
      body_of line (w ++ 13 :: 10 :: trailer) [] fields
  | whole_chunk w chunk rest chunks fields :
      line w (zlen chunk) -> zlen w <= HttpMaxChunkSizeLineBytes -> chunk <> [] -> body_of line rest chunks fields ->
      body_of line (w ++ 13 :: 10 :: chunk ++ 13 :: 10 :: rest) (chunk :: chunks) fields.
Abbreviation whole_body := (body_of size_line).

(** No line of the grammar has a carriage return or a line feed. *)
Lemma blanks_no_cr l : blanks l -> no_cr l.
Proof. intros H. eapply Forall_impl; [exact H|]. cbv beta. intros ch Hc. split; intros ->; by vm_compute in Hc. Qed.
Lemma tchars_no_cr l : Forall (fun ch => IsTchar ch = true) l -> no_cr l.
Proof. intros H. eapply Forall_impl; [exact H|]. cbv beta. intros ch Hc. split; intros ->; by vm_compute in Hc. Qed.
Lemma values_no_cr l : Forall (fun ch => value_char ch = true) l -> no_cr l.
Proof. intros H. eapply Forall_impl; [exact H|]. cbv beta. intros ch Hc. split; intros ->; by vm_compute in Hc. Qed.
Lemma digits_no_cr l : forallb IsHexDigit l = true -> no_cr l.
Proof. intros H%forallb_Forall. eapply Forall_impl; [exact H|]. cbv beta. intros ch Hc. split; intros ->; by vm_compute in Hc. Qed.
Lemma quoted_no_cr q : quoted q -> no_cr q.
Proof.
  induction 1 as [|ch q Hc _ IH|ch q _ _ H _ IH]; repeat apply Forall_cons_2; try done; try lia.
  split; intros ->; by vm_compute in Hc.
Qed.
Create HintDb no_cr.
#[local] Hint Resolve blanks_no_cr tchars_no_cr values_no_cr digits_no_cr quoted_no_cr : no_cr.
Lemma parameter_no_cr p : parameter p -> no_cr p.
Proof.
  destruct 1 as [a name b Ha [_ Hn] Hb|a name b c value d Ha [_ Hn] Hb Hc Hv Hd]; (apply Forall_cons_2; [done|]); rewrite !Forall_app.
  - split_and!; by eauto with no_cr.
  - split_and!; [by eauto with no_cr..|]. apply Forall_cons_2; [done|]. rewrite !Forall_app. split_and!; [by eauto with no_cr| |by eauto with no_cr].
    destruct Hv as [[_ Hv]|(q & -> & Hq)]; [by eauto with no_cr|]. apply Forall_cons_2; [done|]. by apply quoted_no_cr.
Qed.
Lemma size_line_no_cr w n : size_line w n -> no_cr w.
Proof.
  intros (a & digits & b & ext & -> & Ha & Hb & (_ & Hd & _) & He). rewrite !Forall_app. split_and!; [by eauto with no_cr..|].
  induction He as [|p rest Hp _ IH]; [by apply Forall_nil_2|]. apply Forall_app. split; [by apply parameter_no_cr|done].
Qed.
Lemma field_no_cr name v : token name -> Forall (fun ch => value_char ch = true) (trim v) -> no_cr (name ++ 58 :: v).
Proof.
  intros [_ Hn] Hv. apply Forall_app. split; [by apply tchars_no_cr|]. apply Forall_cons_2; [done|].
  destruct (trim_spec v) as (a & b & -> & Hab). apply Forall_app in Hab as [Ha Hb]. rewrite !Forall_app.
  split_and!; [by apply blanks_no_cr|by apply values_no_cr|by apply blanks_no_cr].
Qed.
Lemma trailer_line_no_cr w h : trailer_line w h -> no_cr w.
Proof. intros (name & v & -> & Hn & Hv & _). by apply field_no_cr. Qed.

Lemma ParseTrailerFieldLine_status line status : ParseTrailerFieldLine line = Err status -> status <> STATUS_SUCCESS.
Proof.
  unfold ParseTrailerFieldLine. destruct line as [|first line']; [by intros [= <-]|]. case_if; [by intros [= <-]|].
  destruct (cut 58 _) as [name [|c v]]; [by intros [= <-]|]. case_if; [by intros [= <-]|]. cbv zeta. case_if; [by intros [= <-]|done].
Qed.
Lemma chunk_line_status w status : chunk_line w = Err status -> status <> STATUS_SUCCESS.
Proof.
  unfold chunk_line. destruct (cut 59 w) as [size ext]. case_if.
  { intros [= <-] E. rewrite E in Heqb. by rewrite andb_false_r in Heqb. }
  cbv zeta. case_if; [by intros [= <-]|]. unfold ParseHexSize. case_if; [by intros [= <-]|]. generalize 0. intros p.
  revert p. induction (sp_bytes _) as [|ch l IH]; intros p; [done|]. cbn [parse_hex_loop]. do 2 (case_if; [by intros [= <-]|]). apply IH.
Qed.

(** What arrived of a line and what follows it. *)
Lemma line_prefix w rest p q : no_cr w -> w ++ 13 :: 10 :: rest = p ++ q ->
  find_crlf p = None \/ exists p', p = w ++ 13 :: 10 :: p' /\ rest = p' ++ q.
Proof.
  intros Hw E. change (13 :: 10 :: rest) with ([13] ++ 10 :: rest) in E. rewrite app_assoc in E.
  pose proof (find_crlf_snoc w (find_crlf_no_cr w Hw)) as Hs.
  apply app_eq_inv in E as [(k & Ek & _)|(k & -> & Ek)].
  - left. rewrite Ek in Hs. by eapply find_crlf_prefix.
  - destruct k as [|x k]; [left; by rewrite app_nil_r|]. injection Ek as <- ->. right. exists k. split; [by rewrite <- app_assoc|done].
Qed.

(** ** One line of each loop *)

Section Steps.
Context (destination : bool) (capacity : Z) (trailers : bool) (trailerCapacity : Z) (data : list Z).
Hypothesis Hdata : zlen data < 2 ^ 60.

Lemma trailers_step fuel before w rest k : data = before ++ w ++ 13 :: 10 :: rest -> find_crlf w = None ->
  trailers_loop trailers trailerCapacity data (S fuel) (zlen before) k
  = if zlen w >? HttpMaxHeaderLineBytes then (STATUS_INVALID_NETWORK_RESPONSE, k)
    else if zlen w =? 0 then (STATUS_SUCCESS, k <| ck_consumed := zlen before + 2 |>)
    else if ck_trailerCount k >=? HttpMaxTrailers then (STATUS_INVALID_NETWORK_RESPONSE, k)
    else if trailers && (ck_trailerCount k >=? trailerCapacity) then (STATUS_BUFFER_TOO_SMALL, k)
    else
      match ParseTrailerFieldLine w with
      | Err status => (status, k)
      | Ok field =>
          let k := if trailers then k <| ck_trailers := ck_trailers k ++ [field] |> else k in
          trailers_loop trailers trailerCapacity data fuel (zlen (before ++ w ++ [13; 10]))
            (k <| ck_trailerCount := ck_trailerCount k +! 1 |>)
      end.
Proof.
  intros E Hw. assert (Hl : zlen before + zlen w + 2 + zlen rest < 2 ^ 60) by (rewrite E, !zlen_app, !zlen_cons in Hdata; lia).
  pose proof (zlen_nonneg before). pose proof (zlen_nonneg w). pose proof (zlen_nonneg rest).
  cbn [trailers_loop]. rewrite E at 1. rewrite FindCrlf_at, find_crlf_app by done. cbn [option_map].
  replace (zlen before + zlen w - zlen before) with (zlen w) by lia. rewrite (u64_id (zlen w)) by lia.
  replace (zlen before + zlen w =? zlen before) with (zlen w =? 0) by (destruct (Z.eqb_spec (zlen w) 0); symmetry; [apply Z.eqb_eq|apply Z.eqb_neq]; lia).
  rewrite (u64_id (zlen before + 2)), (u64_id (zlen before + zlen w + 2)) by lia.
  replace (zsub data (zlen before) (zlen w)) with w by (rewrite E; symmetry; apply zsub_at).
  rewrite !zlen_app. change (zlen [13; 10]) with 2. by rewrite Z.add_assoc.
Qed.

Lemma chunks_step fuel before w rest count k : data = before ++ w ++ 13 :: 10 :: rest -> find_crlf w = None -> 0 <= count < 2 ^ 60 ->
  chunks_loop destination capacity trailers trailerCapacity data (S fuel) (zlen before) count k
  = if zlen w >? HttpMaxChunkSizeLineBytes then (STATUS_INVALID_NETWORK_RESPONSE, k)
    else
      match chunk_line w with
      | Err status => (status, k)
      | Ok n =>
          if n =? 0 then trailers_loop trailers trailerCapacity data (S (length data)) (zlen (before ++ w ++ [13; 10])) k
          else if count + 1 >? HttpMaxChunks then (STATUS_INVALID_NETWORK_RESPONSE, k)
          else if n >? zlen rest then (STATUS_MORE_PROCESSING_REQUIRED, k)
          else
            let '(status, k) := CopyChunkData destination capacity (ztake n rest) k in
            if negb (NT_SUCCESS status) then (status, k)
            else
              match zdrop n rest with
              | [] | [_] => (STATUS_MORE_PROCESSING_REQUIRED, k)
              | a :: b :: _ =>
                  if negb (a =? 13) || negb (b =? 10) then (STATUS_INVALID_NETWORK_RESPONSE, k)
                  else chunks_loop destination capacity trailers trailerCapacity data fuel
                         (zlen (before ++ w ++ 13 :: 10 :: ztake n rest ++ [13; 10])) (count + 1) k
              end
      end.
Proof.
  intros E Hw Hcount. assert (Hl : zlen data = zlen before + zlen w + 2 + zlen rest) by (rewrite E, !zlen_app, !zlen_cons; lia).
  pose proof (zlen_nonneg before). pose proof (zlen_nonneg w). pose proof (zlen_nonneg rest).
  cbn [chunks_loop]. rewrite E at 1. rewrite FindCrlf_at, find_crlf_app by done. cbn [option_map].
  replace (zlen before + zlen w - zlen before) with (zlen w) by lia. rewrite (u64_id (zlen w)) by lia.
  replace (zsub data (zlen before) (zlen w)) with w by (rewrite E; symmetry; apply zsub_at).
  destruct (zlen w >? HttpMaxChunkSizeLineBytes); [done|]. destruct (chunk_line w) as [n|status] eqn:Ew; [|done].
  assert (Hn : 0 <= n < 2 ^ 64).
  { apply chunk_line_spec in Ew as (a & digits & b & ext & _ & _ & _ & (_ & Hd & <- & Hlt) & _).
    split; [by apply hex_value_mono|done]. }
  assert (Eb : zlen (before ++ w ++ [13; 10]) = zlen before + zlen w + 2) by (rewrite !zlen_app; change (zlen [13; 10]) with 2; lia).
  rewrite Eb, (u64_id (zlen before + zlen w + 2)), (u64_id (count + 1)) by lia.
  destruct (n =? 0); [done|]. destruct (count + 1 >? HttpMaxChunks); [done|].
  assert (Er : zlen data - (zlen before + zlen w + 2) = zlen rest) by lia. rewrite Er, (u64_id (zlen rest)) by lia.
  destruct (n >? zlen rest) eqn:Egt; [done|]. bool_prop. apply Z.ltb_ge in Egt.
  assert (Edata : data = (before ++ w ++ [13; 10]) ++ ztake n rest ++ zdrop n rest) by (rewrite ztake_zdrop, E, <- !app_assoc; done).
  replace (zsub data (zlen before + zlen w + 2) n) with (ztake n rest).
  2:{ rewrite Edata, <- Eb at 1. pose proof (zsub_at (before ++ w ++ [13; 10]) (ztake n rest) (zdrop n rest)) as Es.
      rewrite (zlen_ztake n rest) in Es by lia. by rewrite Es. }
  destruct (CopyChunkData destination capacity (ztake n rest) k) as [status k1]. destruct (NT_SUCCESS status); [|done]. cbn [negb].
  rewrite (u64_id (zlen before + zlen w + 2 + n)) by lia. rewrite (u64_id (zlen before + zlen w + 2 + n + 2)) by lia.
  rewrite (u64_id (zlen before + zlen w + 2 + n + 1)) by lia.
  assert (Hd : zlen (zdrop n rest) = zlen rest - n) by (apply zlen_zdrop; lia).
  assert (Eat : forall i, 0 <= i -> zget data (zlen before + zlen w + 2 + n + i) = zget (zdrop n rest) i).
  { intros i Hi. rewrite Edata, app_assoc, zget_app_r; rewrite zlen_app, Eb, zlen_ztake by lia; [|lia]. f_equal. lia. }
  pose proof (Eat 0 ltac:(lia)) as E0. rewrite Z.add_0_r in E0. rewrite E0, (Eat 1) by lia.
  destruct (zdrop n rest) as [|a [|b r]].
  - change (zlen []) with 0 in Hd. by rewrite Z.gtb_ltb, (proj2 (Z.ltb_lt _ _)) by lia.
  - change (zlen [a]) with 1 in Hd. by rewrite Z.gtb_ltb, (proj2 (Z.ltb_lt _ _)) by lia.
  - rewrite !zlen_cons in Hd. pose proof (zlen_nonneg r). rewrite Z.gtb_ltb, (proj2 (Z.ltb_ge _ _)) by lia.
    change (zget (a :: b :: r) 0) with a. change (zget (a :: b :: r) 1) with b.
    destruct (negb (a =? 13) || negb (b =? 10)); [done|]. f_equal.
    rewrite !zlen_app, !zlen_cons, zlen_app, zlen_ztake by lia. change (zlen [13; 10]) with 2. lia.
Qed.

(** ** The loops and the grammar *)

(** What a call has filled after these chunks and fields. *)
Definition filled (k : chunked) (chunks : list (list Z)) (fields : list HttpHeader) (n : Z) : chunked :=
  MkChunked (ck_decoded k ++ concat chunks) n (ck_trailerCount k + zlen fields)
    (if trailers then ck_trailers k ++ fields else ck_trailers k).
Definition trailer_room (k : chunked) (fields : list HttpHeader) : Prop :=
  ck_trailerCount k + zlen fields <= HttpMaxTrailers
  /\ (trailers = true -> ck_trailerCount k + zlen fields <= trailerCapacity).
Definition body_room (k : chunked) (count : Z) (chunks : list (list Z)) : Prop :=
  zlen (ck_decoded k) + zlen (concat chunks) <= capacity /\ count + zlen chunks <= HttpMaxChunks.

(** A field stored, or only counted. *)
Definition with_field (h : HttpHeader) (k : chunked) : chunked :=
  (if trailers then k <| ck_trailers := ck_trailers k ++ [h] |> else k) <| ck_trailerCount := ck_trailerCount k + 1 |>.
Lemma filled_field k h fields n : filled (with_field h k) [] fields n = filled k [] (h :: fields) n.
Proof using. clear. unfold filled, with_field. destruct trailers; cbn; rewrite zlen_cons, ?app_nil_r, <- ?app_assoc; f_equal; lia. Qed.
Lemma with_field_count k h : ck_trailerCount (with_field h k) = ck_trailerCount k + 1.
Proof using. by unfold with_field; destruct trailers. Qed.

Lemma trailers_guards k h fields : 0 <= ck_trailerCount k -> trailer_room k (h :: fields) ->
  (ck_trailerCount k >=? HttpMaxTrailers) = false
  /\ trailers && (ck_trailerCount k >=? trailerCapacity) = false /\ trailer_room (with_field h k) fields
  /\ ck_trailerCount k +! 1 = ck_trailerCount k + 1.
Proof using.
  clear. intros Hk [H1 H2]. rewrite zlen_cons in *. pose proof (zlen_nonneg fields). unfold trailer_room, HttpMaxTrailers in *.
  rewrite with_field_count, !Z.geb_leb. split_and!; [apply Z.leb_gt; lia| |lia|intros Ht; specialize (H2 Ht); lia|apply u64_id; lia].
  destruct trailers; [|done]. cbn [andb]. apply Z.leb_gt. specialize (H2 eq_refl). lia.
Qed.

Lemma trailers_loop_ok t fields : trailer_lines t fields -> forall before after fuel k,
  data = before ++ t ++ after -> (length t < fuel)%nat -> 0 <= ck_trailerCount k -> trailer_room k fields ->
  trailers_loop trailers trailerCapacity data fuel (zlen before) k
  = (STATUS_SUCCESS, filled k [] fields (zlen (before ++ t))).
Proof using Hdata.
  induction 1 as [|line h rest fields Hl Hlen Ht IH]; intros before after fuel k E Hf Hk Hroom; (destruct fuel as [|fuel]; [cbn [length] in Hf; lia|]).
  - rewrite (trailers_step fuel before [] after k E eq_refl). change (zlen []) with 0. cbn [Z.gtb Z.compare Z.eqb].
    rewrite zlen_app. change (zlen [13; 10]) with 2. unfold filled, with_field. destruct k. cbn. rewrite !app_nil_r.
    change (zlen []) with 0. rewrite Z.add_0_r. by destruct trailers.
  - rewrite <- app_assoc in E. cbn [app] in E.
    rewrite (trailers_step fuel before line (rest ++ after) k E) by (by eapply find_crlf_no_cr, trailer_line_no_cr).
    rewrite Z.gtb_ltb, (proj2 (Z.ltb_ge _ _)) by done. rewrite (proj2 (ParseTrailerFieldLine_spec line h) Hl).
    destruct (trailers_guards k h fields Hk Hroom) as (-> & -> & Hroom' & Ec). cbv zeta.
    replace (zlen line =? 0) with false.
    2:{ symmetry. apply Z.eqb_neq. destruct Hl as (name & v & -> & _). rewrite zlen_app, zlen_cons.
        pose proof (zlen_nonneg name). pose proof (zlen_nonneg v). lia. }
    replace (_ <| ck_trailerCount := _ |>) with (with_field h k) by (unfold with_field; rewrite <- Ec; by destruct trailers).
    rewrite (IH (before ++ line ++ [13; 10]) after fuel (with_field h k)).
    + rewrite filled_field. by rewrite <- !app_assoc.
    + rewrite E, <- !app_assoc. done.
    + rewrite length_app in Hf. cbn [length] in Hf. lia.
    + rewrite with_field_count. lia.
    + done.
Qed.

Lemma trailers_loop_sound fuel before rest k k' :
  data = before ++ rest -> 0 <= ck_trailerCount k ->
  trailers_loop trailers trailerCapacity data fuel (zlen before) k = (STATUS_SUCCESS, k') ->
  exists t fields after, rest = t ++ after /\ trailer_lines t fields
  /\ (fields = [] \/ trailer_room k fields) /\ k' = filled k [] fields (zlen (before ++ t)).
Proof using Hdata.
  revert before rest k. induction fuel as [|fuel IH]; intros before rest k E Hk; [done|].
  destruct (find_crlf rest) as [n|] eqn:Ef.
  2:{ cbn [trailers_loop]. rewrite E at 1. rewrite FindCrlf_at, Ef. done. }
  apply find_crlf_Some in Ef as (w & r & -> & _ & Hw). rewrite (trailers_step fuel before w r k E Hw). cbv zeta.
  destruct (Z.gtb_spec (zlen w) HttpMaxHeaderLineBytes); [done|]. destruct (Z.eqb_spec (zlen w) 0) as [Ew|Ew].
  - assert (w = []) as -> by (destruct w; [done|rewrite zlen_cons in Ew; pose proof (zlen_nonneg w); lia]).
    intros [= <-]. exists [13; 10], [], r. split_and!; [done|constructor|by left|].
    rewrite zlen_app. unfold filled. destruct k. cbn. rewrite !app_nil_r, Z.add_0_r. by destruct trailers.
  - destruct (Z.geb_spec (ck_trailerCount k) HttpMaxTrailers) as [|Hmax]; [done|].
    destruct (trailers && (ck_trailerCount k >=? trailerCapacity)) eqn:Hcap; [done|].
    destruct (ParseTrailerFieldLine w) as [h|status] eqn:Ep; [|by intros [= -> _]; apply ParseTrailerFieldLine_status in Ep].
    apply ParseTrailerFieldLine_spec in Ep.
    assert (Ec : ck_trailerCount k +! 1 = ck_trailerCount k + 1) by (apply u64_id; unfold HttpMaxTrailers in *; lia).
    replace (_ <| ck_trailerCount := _ |>) with (with_field h k) by (unfold with_field; rewrite <- Ec; by destruct trailers).
    intros Hloop. apply (IH (before ++ w ++ [13; 10]) r) in Hloop as (t & fields & after & -> & Ht & Hroom & ->);
      [|by rewrite E, <- !app_assoc|rewrite with_field_count; lia].
    exists (w ++ 13 :: 10 :: t), (h :: fields), after. split_and!; [by rewrite <- app_assoc|by constructor| |].
    + right. unfold trailer_room in *. rewrite with_field_count, zlen_cons in *. destruct Hroom as [-> |[R1 R2]].
      * change (zlen []) with 0. split; [lia|]. intros Et. rewrite Et in Hcap. cbn [andb] in Hcap. rewrite Z.geb_leb in Hcap. apply Z.leb_gt in Hcap. lia.
      * split; [lia|]. intros Et. specialize (R2 Et). lia.
    + rewrite filled_field. by rewrite <- !app_assoc.
Qed.

Lemma CopyChunkData_ok s k : (destination = true \/ capacity = 0) -> 0 <= capacity < 2 ^ 62 ->
  zlen (ck_decoded k) + zlen s <= capacity ->
  CopyChunkData destination capacity s k = (STATUS_SUCCESS, k <| ck_decoded := ck_decoded k ++ s |>).
Proof using.
  clear. intros Hd Hc Hs. unfold CopyChunkData. pose proof (zlen_nonneg s). pose proof (zlen_nonneg (ck_decoded k)).
  destruct (Z.eqb_spec (zlen s) 0) as [E|E].
  { assert (s = []) as -> by (destruct s; [done|rewrite zlen_cons in E; pose proof (zlen_nonneg s); lia]). rewrite app_nil_r. by destruct k. }
  destruct Hd as [-> | ->]; [|lia]. cbn [negb orb]. rewrite (u64_id (capacity - _)), !Z.gtb_ltb, !(proj2 (Z.ltb_ge _ _)) by lia. done.
Qed.
Lemma CopyChunkData_sound s k k' : 0 <= capacity < 2 ^ 62 -> s <> [] ->
  CopyChunkData destination capacity s k = (STATUS_SUCCESS, k') ->
  zlen (ck_decoded k) + zlen s <= capacity /\ k' = k <| ck_decoded := ck_decoded k ++ s |>.
Proof using.
  clear. intros Hc Hs. unfold CopyChunkData. pose proof (zlen_nonneg s). pose proof (zlen_nonneg (ck_decoded k)).
  destruct (Z.eqb_spec (zlen s) 0) as [E|E].
  { destruct s; [done|rewrite zlen_cons in E; pose proof (zlen_nonneg s); lia]. }
  destruct destination; [|done]. cbn [negb orb]. destruct (Z.gtb_spec (zlen (ck_decoded k)) capacity); [done|]. cbn [orb].
  rewrite (u64_id (capacity - _)) by lia. destruct (Z.gtb_spec (zlen s) (capacity - zlen (ck_decoded k))); [done|].
  intros [= <-]. split; [lia|done].
Qed.

Hypothesis Hdestination : destination = true \/ capacity = 0.
Hypothesis Hcapacity : 0 <= capacity < 2 ^ 62.

Lemma filled_chunk s k chunks fields n :
  filled (k <| ck_decoded := ck_decoded k ++ s |>) chunks fields n = filled k (s :: chunks) fields n.
Proof using. clear. unfold filled. destruct k. cbn. by rewrite <- app_assoc. Qed.
Lemma size_not_last (chunk : list Z) : chunk <> [] -> (zlen chunk =? 0) = false.
Proof using. clear. destruct chunk as [|x l]; [done|]. intros _. apply Z.eqb_neq. rewrite zlen_cons. pose proof (zlen_nonneg l). lia. Qed.

Lemma chunks_loop_ok body chunks fields : whole_body body chunks fields -> forall before after fuel count k,
  data = before ++ body ++ after -> (length body < fuel)%nat -> 0 <= ck_trailerCount k -> 0 <= count ->
  trailer_room k fields -> body_room k count chunks ->
  chunks_loop destination capacity trailers trailerCapacity data fuel (zlen before) count k
  = (STATUS_SUCCESS, filled k chunks fields (zlen (before ++ body))).
Proof using Hdata Hdestination Hcapacity.
  induction 1 as [w t fields Hw Hlen Ht|w chunk rest chunks fields Hw Hlen Hne Hb IH];
    intros before after fuel count k E Hf Hk Hcount Htr [Hr1 Hr2]; (destruct fuel as [|fuel]; [lia|]); rewrite <- !app_assoc in E; cbn [app] in E.
  - assert (Hc60 : count < 2 ^ 60) by (unfold HttpMaxChunks in Hr2; change (zlen []) with 0 in Hr2; lia).
    rewrite (chunks_step fuel before w (t ++ after) count k E) by (done || by eapply find_crlf_no_cr, size_line_no_cr).
    rewrite Z.gtb_ltb, (proj2 (Z.ltb_ge _ _)) by done. rewrite (proj2 (chunk_line_spec w 0) Hw). cbn [Z.eqb].
    rewrite (trailers_loop_ok t fields Ht (before ++ w ++ [13; 10]) after); [|by rewrite E, <- !app_assoc| |done|done].
    + by rewrite <- !app_assoc.
    + rewrite E, !length_app. cbn [length]. rewrite length_app. lia.
  - rewrite zlen_cons in Hr2. pose proof (zlen_nonneg chunks) as Hz. cbn [concat] in Hr1. rewrite zlen_app in Hr1.
    pose proof (zlen_nonneg chunk) as Hzc. pose proof (zlen_nonneg (concat chunks)).
    assert (Hc60 : count < 2 ^ 60) by (unfold HttpMaxChunks in Hr2; lia).
    rewrite <- app_assoc in E. cbn [app] in E.
    rewrite (chunks_step fuel before w (chunk ++ 13 :: 10 :: rest ++ after) count k E) by (done || by eapply find_crlf_no_cr, size_line_no_cr).
    rewrite Z.gtb_ltb, (proj2 (Z.ltb_ge _ _)) by done. rewrite (proj2 (chunk_line_spec w _) Hw), size_not_last by done.
    rewrite ztake_app_len, zdrop_app_len, zlen_app, zlen_cons. rewrite !Z.gtb_ltb, !(proj2 (Z.ltb_ge _ _)).
    2:{ pose proof (zlen_nonneg (10 :: rest ++ after)). lia. }
    2:{ lia. }
    rewrite CopyChunkData_ok by (done || lia). cbn [NT_SUCCESS negb Z.eqb Pos.eqb orb].
    rewrite (IH (before ++ w ++ 13 :: 10 :: chunk ++ [13; 10]) after fuel (count + 1)).
    + rewrite filled_chunk. repeat (rewrite <- !app_assoc; cbn [app]). done.
    + rewrite E. repeat (rewrite <- !app_assoc; cbn [app]). done.
    + rewrite length_app in Hf. cbn [length] in Hf. rewrite length_app in Hf. cbn [length] in Hf. lia.
    + done.
    + lia.
    + done.
    + split; [cbn; rewrite zlen_app; lia|lia].
Qed.

Lemma chunks_loop_sound fuel before rest count k k' :
  data = before ++ rest -> 0 <= ck_trailerCount k -> 0 <= count <= HttpMaxChunks -> zlen (ck_decoded k) <= capacity ->
  chunks_loop destination capacity trailers trailerCapacity data fuel (zlen before) count k = (STATUS_SUCCESS, k') ->
  exists body chunks fields after, rest = body ++ after /\ whole_body body chunks fields
  /\ (fields = [] \/ trailer_room k fields) /\ body_room k count chunks /\ k' = filled k chunks fields (zlen (before ++ body)).
Proof using Hdata Hcapacity.
  revert before rest count k. induction fuel as [|fuel IH]; intros before rest count k E Hk Hcount Hdec; [done|].
  destruct (find_crlf rest) as [n|] eqn:Ef.
  2:{ cbn [chunks_loop]. rewrite E at 1. rewrite FindCrlf_at, Ef. done. }
  apply find_crlf_Some in Ef as (w & r & -> & _ & Hw).
  rewrite (chunks_step fuel before w r count k E Hw) by (unfold HttpMaxChunks in Hcount; lia).
  destruct (Z.gtb_spec (zlen w) HttpMaxChunkSizeLineBytes); [done|].
  destruct (chunk_line w) as [size|status] eqn:Ew; [|by intros [= -> _]; apply chunk_line_status in Ew].
  apply chunk_line_spec in Ew. assert (Hs0 : 0 <= size).
  { destruct Ew as (a & digits & b & ext & _ & _ & _ & (_ & Hd & <- & _) & _). by apply hex_value_mono. }
  destruct (Z.eqb_spec size 0) as [-> |Hs].
  - intros Ht. apply (trailers_loop_sound _ _ r) in Ht as (t & fields & after & -> & Ht & Hroom & ->); [|by rewrite E, <- !app_assoc|done].
    exists (w ++ 13 :: 10 :: t), [], fields, after. split_and!; [by rewrite <- app_assoc|by constructor|done| |by rewrite <- !app_assoc].
    split; change (zlen []) with 0; change (zlen (concat [])) with 0; lia.
  - destruct (Z.gtb_spec (count + 1) HttpMaxChunks) as [|Hmax]; [done|]. destruct (Z.gtb_spec size (zlen r)) as [|Hfit]; [done|].
    destruct (CopyChunkData destination capacity (ztake size r) k) as [status k1] eqn:Ec.
    destruct (NT_SUCCESS status) eqn:En; [|cbn [negb]; by intros [= -> _]]. apply NT_SUCCESS_true in En as ->. cbn [NT_SUCCESS negb].
    assert (Hlen : zlen (ztake size r) = size) by (apply zlen_ztake; lia).
    assert (Hne : ztake size r <> []) by (intros Hnil; rewrite Hnil in Hlen; change (zlen []) with 0 in Hlen; lia).
    apply CopyChunkData_sound in Ec as [Hcap ->]; [|done|done].
    destruct (zdrop size r) as [|a [|b after]] eqn:Ed; [done|done|].
    destruct (Z.eqb_spec a 13) as [-> |]; [|done]. destruct (Z.eqb_spec b 10) as [-> |]; [|done]. cbn [negb orb].
    assert (Er : r = ztake size r ++ 13 :: 10 :: after) by (rewrite <- Ed; symmetry; apply ztake_zdrop).
    intros Hloop. apply (IH _ after) in Hloop as (body & chunks & fields & after' & -> & Hb & Htr & Hbr & ->).
    + exists (w ++ 13 :: 10 :: ztake size r ++ 13 :: 10 :: body), (ztake size r :: chunks), fields, after'. split_and!.
      * rewrite Er at 1. repeat (rewrite <- !app_assoc; cbn [app]). done.
      * constructor; [by rewrite Hlen|done|done|done].
      * done.
      * destruct Hbr as [B1 B2]. split; [cbn [concat]; rewrite zlen_app; cbn in B1; rewrite zlen_app in B1; lia|rewrite zlen_cons; lia].
      * rewrite filled_chunk. repeat (rewrite <- !app_assoc; cbn [app]). done.
    + rewrite E. rewrite Er at 1. repeat (rewrite <- !app_assoc; cbn [app]). done.
    + done.
    + lia.
    + cbn. rewrite zlen_app. lia.
Qed.

(** *** Bodies cut short *)

Lemma trailers_loop_more t fields : trailer_lines t fields -> forall before p q fuel k,
  t = p ++ q -> q <> [] -> data = before ++ p -> (length p < fuel)%nat -> 0 <= ck_trailerCount k -> trailer_room k fields ->
  (trailers_loop trailers trailerCapacity data fuel (zlen before) k).1 = STATUS_MORE_PROCESSING_REQUIRED.
Proof using Hdata.
  induction 1 as [|line h rest fields Hl Hlen Ht IH]; intros before p q fuel k Ep Hq E Hf Hk Hroom; (destruct fuel as [|fuel]; [lia|]).
  - assert (Hnone : find_crlf p = None).
    { destruct p as [|a [|b p]]; [done|done|]. injection Ep as <- <- Ep. by destruct p, q. }
    cbn [trailers_loop]. rewrite E at 1. by rewrite FindCrlf_at, Hnone.
  - destruct (line_prefix line rest p q (trailer_line_no_cr _ _ Hl) Ep) as [Hnone|(p' & -> & Ep')].
    { cbn [trailers_loop]. rewrite E at 1. by rewrite FindCrlf_at, Hnone. }
    rewrite (trailers_step fuel before line p' k E) by (by eapply find_crlf_no_cr, trailer_line_no_cr).
    rewrite Z.gtb_ltb, (proj2 (Z.ltb_ge _ _)) by done. rewrite (proj2 (ParseTrailerFieldLine_spec line h) Hl).
    destruct (trailers_guards k h fields Hk Hroom) as (-> & -> & Hroom' & Ec). cbv zeta.
    case_if; [apply Z.eqb_eq in Heqb|].
    { exfalso. destruct Hl as (name & v & -> & _). rewrite zlen_app, zlen_cons in Heqb.
      pose proof (zlen_nonneg name). pose proof (zlen_nonneg v). lia. }
    replace (_ <| ck_trailerCount := _ |>) with (with_field h k) by (unfold with_field; rewrite <- Ec; by destruct trailers).
    apply (IH (before ++ line ++ [13; 10]) p' q); [done|done|by rewrite E, <- !app_assoc| |rewrite with_field_count; lia|done].
    rewrite length_app in Hf. cbn [length] in Hf. lia.
Qed.

Lemma chunks_loop_more body chunks fields : whole_body body chunks fields -> forall before p q fuel count k,
  body = p ++ q -> q <> [] -> data = before ++ p -> (length p < fuel)%nat -> 0 <= ck_trailerCount k -> 0 <= count ->
  trailer_room k fields -> body_room k count chunks ->
  (chunks_loop destination capacity trailers trailerCapacity data fuel (zlen before) count k).1 = STATUS_MORE_PROCESSING_REQUIRED.
Proof using Hdata Hdestination Hcapacity.
  induction 1 as [w t fields Hw Hlen Ht|w chunk rest chunks fields Hw Hlen Hne Hb IH];
    intros before p q fuel count k Ep Hq E Hf Hk Hcount Htr [Hr1 Hr2]; (destruct fuel as [|fuel]; [lia|]);
    (destruct (line_prefix w _ p q (size_line_no_cr _ _ Hw) Ep) as [Hnone|(p' & -> & Ep')];
      [cbn [chunks_loop]; rewrite E at 1; by rewrite FindCrlf_at, Hnone|]).
  - assert (Hc60 : count < 2 ^ 60) by (unfold HttpMaxChunks in Hr2; change (zlen []) with 0 in Hr2; lia).
    rewrite (chunks_step fuel before w p' count k E) by (done || by eapply find_crlf_no_cr, size_line_no_cr).
    rewrite Z.gtb_ltb, (proj2 (Z.ltb_ge _ _)) by done. rewrite (proj2 (chunk_line_spec w 0) Hw). cbn [Z.eqb].
    apply (trailers_loop_more t fields Ht (before ++ w ++ [13; 10]) p' q); [done|done|by rewrite E, <- !app_assoc| |done|done].
    rewrite E, !length_app. cbn [length]. lia.
  - rewrite zlen_cons in Hr2. pose proof (zlen_nonneg chunks) as Hz. cbn [concat] in Hr1. rewrite zlen_app in Hr1.
    pose proof (zlen_nonneg chunk) as Hzc. pose proof (zlen_nonneg (concat chunks)).
    assert (Hc60 : count < 2 ^ 60) by (unfold HttpMaxChunks in Hr2; lia).
    rewrite (chunks_step fuel before w p' count k E) by (done || by eapply find_crlf_no_cr, size_line_no_cr).
    rewrite Z.gtb_ltb, (proj2 (Z.ltb_ge _ _)) by done. rewrite (proj2 (chunk_line_spec w _) Hw), size_not_last by done.
    rewrite !Z.gtb_ltb, (proj2 (Z.ltb_ge _ (count + 1))) by lia. destruct (Z.ltb_spec (zlen p') (zlen chunk)) as [|Hlong]; [done|].
    apply app_eq_inv in Ep' as [(r & Er & _)|(r & -> & Er)].
    { assert (r = []) as ->.
      { rewrite Er, zlen_app in Hlong. destruct r; [done|]. rewrite zlen_cons in Hlong. pose proof (zlen_nonneg r). lia. }
      rewrite app_nil_r in Er. subst p'. rewrite zdrop_all, ztake_all by lia. by rewrite CopyChunkData_ok by (done || lia). }
    rewrite ztake_app_len, zdrop_app_len, CopyChunkData_ok by (done || lia). cbn [NT_SUCCESS negb].
    destruct r as [|a [|b r]]; [done|done|]. injection Er as <- <- ->. cbn [Z.eqb Pos.eqb negb orb].
    apply (IH (before ++ w ++ 13 :: 10 :: chunk ++ [13; 10]) r q); [done|done| | |done|lia|done|].
    + rewrite E. repeat (rewrite <- !app_assoc; cbn [app]). done.
    + rewrite length_app in Hf. cbn [length] in Hf. rewrite length_app in Hf. cbn [length] in Hf. lia.
    + split; [cbn; rewrite zlen_app; lia|lia].
Qed.
End Steps.

(** ** With the streaming decoder *)

(** Size lines without white space around the size: both decoders read them. *)
Definition plain_size_line (w : list Z) (n : Z) : Prop :=
  exists digits ext, w = digits ++ ext /\ hex_size digits n /\ semicolon_parameters ext.
Abbreviation plain_body := (body_of plain_size_line).

Lemma plain_size_line_size w n : plain_size_line w n -> size_line w n.
Proof. intros (digits & ext & -> & Hn & He). exists [], digits, [], ext. by split_and!; [|apply Forall_nil_2|apply Forall_nil_2| |]. Qed.
Lemma plain_whole body chunks fields : plain_body body chunks fields -> whole_body body chunks fields.
Proof. induction 1; constructor; try done; by apply plain_size_line_size. Qed.

Lemma no_lf_line w : no_cr w -> HttpChunkedDecoder.no_lf (w ++ [13]) /\ HttpChunkedDecoder.strip (w ++ [13]) = w.
Proof.
  unfold HttpChunkedDecoder.no_lf, HttpChunkedDecoder.strip. intros Hw. split.
  - apply Forall_app. split; [|by apply Forall_singleton]. eapply Forall_impl; [exact Hw|]. by intros ch [].
  - rewrite List.filter_app. cbn. rewrite app_nil_r. induction Hw as [|ch w [H1 _] _ IH]; [done|]. cbn.
    rewrite (proj2 (Z.eqb_neq ch HttpChunkedDecoder.CR)) by done. cbn. by rewrite IH.
Qed.
Lemma until_digits digits ext : Forall (fun ch => ch <> 59) digits -> semicolon_parameters ext ->
  HttpChunkedDecoder.until HttpChunkedDecoder.SEMICOLON (digits ++ ext) = digits.
Proof.
  intros Hd He. induction Hd as [|ch digits Hc _ IH]; cbn [app HttpChunkedDecoder.until].
  - by destruct (semicolon_parameters_cases ext He) as [-> |(r & ->)].
  - rewrite (proj2 (Z.eqb_neq ch HttpChunkedDecoder.SEMICOLON)) by done. by rewrite IH.
Qed.
Lemma plain_chunk_size w n : plain_size_line w n -> zlen w <= HttpMaxChunkSizeLineBytes ->
  HttpChunkedDecoder.chunk_size w = Some n.
Proof.
  intros (digits & ext & -> & (Hne & Hd & Hn & Hlt) & He) Hl. unfold HttpChunkedDecoder.chunk_size.
  rewrite until_digits by (done || by apply hex_digit_solid). rewrite zlen_app in Hl. pose proof (zlen_nonneg ext).
  rewrite Hd, Hn. replace (zlen digits =? 0) with false by (symmetry; by apply size_not_last). cbn [orb negb].
  by rewrite Z.gtb_ltb, Z.geb_leb, (proj2 (Z.ltb_ge _ _)), (proj2 (Z.leb_gt _ _)) by lia.
Qed.

Lemma trim_same l : HttpChunkedDecoder.trim l = trim l.
Proof.
  assert (H : forall l, HttpChunkedDecoder.trim_left l = skip is_blank l).
  { clear l. induction l as [|ch l IH]; [done|]. cbn [HttpChunkedDecoder.trim_left skip]. by rewrite IH. }
  unfold HttpChunkedDecoder.trim, trim. by rewrite !H.
Qed.
Definition field_pair (h : HttpHeader) : list Z * list Z := (sp_bytes (hd_Name h), sp_bytes (hd_Value h)).
Lemma trailer_line_field w h : trailer_line w h -> HttpChunkedDecoder.trailer_field w (field_pair h).
Proof.
  intros (name & v & -> & [Hne Hn] & _ & _ & ->). destruct (trim_spec v) as (a & b & E & Hab). rewrite E at 1.
  apply Forall_app in Hab as [Ha Hb].
  apply HttpChunkedDecoder.trailer_field_intro; [done|by apply forallb_Forall|by apply forallb_Forall|by apply forallb_Forall|].
  rewrite !trim_same. cbn [sp_bytes hd_Value]. destruct (trim_ends v) as [E1 E2]. unfold trim at 1.
  rewrite (skip_none is_blank (trim v)) by done. by rewrite skip_none, rev_involutive.
Qed.
Lemma trailer_section_of t fields : trailer_lines t fields -> HttpChunkedDecoder.trailer_section t (map field_pair fields).
Proof.
  induction 1 as [|line h rest fields Hl Hlen _ IH].
  - by apply (HttpChunkedDecoder.trailer_end [13]); [apply Forall_singleton|].
  - destruct (no_lf_line line (trailer_line_no_cr _ _ Hl)) as [H1 H2].
    replace (line ++ 13 :: 10 :: rest) with ((line ++ [13]) ++ 10 :: rest) by (by rewrite <- app_assoc).
    cbn [map]. apply HttpChunkedDecoder.trailer_cons; rewrite ?H2; [done|done|by apply trailer_line_field|done].
Qed.
Lemma plain_streamed body chunks fields : plain_body body chunks fields ->
  HttpChunkedDecoder.chunked_body body chunks (map field_pair fields).
Proof.
  induction 1 as [w t fields Hw Hlen Ht|w chunk rest chunks fields Hw Hlen Hne Hb IH];
    destruct (no_lf_line w (size_line_no_cr _ _ (plain_size_line_size _ _ Hw))) as [H1 H2].
  - replace (w ++ 13 :: 10 :: t) with ((w ++ [13]) ++ 10 :: t) by (by rewrite <- app_assoc).
    apply HttpChunkedDecoder.chunked_last; [done| |by apply trailer_section_of]. rewrite H2. by apply plain_chunk_size.
  - replace (w ++ 13 :: 10 :: chunk ++ 13 :: 10 :: rest) with ((w ++ [13]) ++ 10 :: chunk ++ 13 :: 10 :: rest) by (by rewrite <- app_assoc).
    apply HttpChunkedDecoder.chunked_cons; [done|done| |done]. rewrite H2. by apply plain_chunk_size.
Qed.

(** ** Properties *)

(** What a call accepts: a body of the grammar within its limits. *)
Definition fits (capacity : Z) (trailers : bool) (trailerCapacity : Z) (chunks : list (list Z)) (fields : list HttpHeader) : Prop :=
  zlen (concat chunks) <= capacity /\ zlen chunks <= HttpMaxChunks /\ zlen fields <= HttpMaxTrailers
  /\ (trailers = true -> zlen fields <= trailerCapacity).
Lemma fits_room capacity trailers trailerCapacity chunks fields : fits capacity trailers trailerCapacity chunks fields ->
  trailer_room trailers trailerCapacity chunked_start fields /\ body_room capacity chunked_start 0 chunks.
Proof. intros (H1 & H2 & H3 & H4). split; split; cbn; try change (zlen []) with 0; try (intros Ht; specialize (H4 Ht)); lia. Qed.
Lemma decode_unfold data destination capacity trailers trailerCapacity :
  (destination = true \/ capacity = 0) -> (trailers = true \/ trailerCapacity = 0) ->
  DecodeChunkedBodyWithTrailers (Bytes data) destination capacity trailers trailerCapacity
  = chunks_loop destination capacity trailers trailerCapacity data (S (length data)) (zlen (@nil Z)) 0 chunked_start.
Proof.
  intros Hd Ht. unfold DecodeChunkedBodyWithTrailers. change (zlen (@nil Z)) with 0.
  destruct Hd as [-> | ->], Ht as [-> | ->]; cbn [negb andb orb Z.eqb]; by rewrite ?andb_false_r, ?orb_false_r.
Qed.
Lemma decode_ok body chunks fields rest destination capacity trailers trailerCapacity :
  zlen (body ++ rest) < 2 ^ 60 -> 0 <= capacity < 2 ^ 62 ->
  (destination = true \/ capacity = 0) -> (trailers = true \/ trailerCapacity = 0) ->
  whole_body body chunks fields -> fits capacity trailers trailerCapacity chunks fields ->
  DecodeChunkedBodyWithTrailers (Bytes (body ++ rest)) destination capacity trailers trailerCapacity
  = (STATUS_SUCCESS, MkChunked (concat chunks) (zlen body) (zlen fields) (if trailers then fields else [])).
Proof.
  intros Hl Hc Hd Ht Hb Hf. rewrite decode_unfold by done. destruct (fits_room _ _ _ _ _ Hf) as [R1 R2].
  rewrite (chunks_loop_ok destination capacity trailers trailerCapacity (body ++ rest) Hl Hd Hc body chunks fields Hb [] rest);
    [|done|rewrite length_app; lia|done|done|done|done].
  unfold filled. cbn [chunked_start ck_decoded ck_trailerCount ck_trailers app]. by destruct trailers.
Qed.

(** C28. The decoder accepts exactly the bodies of the grammar of RFC 9112 within
    its limits, at the start of whatever it is given: it returns the payload of
    the chunks in order, the bytes of the body, and the trailer fields. *)
Theorem whole_chunked_exact data destination capacity trailers trailerCapacity k :
  zlen data < 2 ^ 60 -> 0 <= capacity < 2 ^ 62 -> 0 <= trailerCapacity ->
  (destination = true \/ capacity = 0) -> (trailers = true \/ trailerCapacity = 0) ->
  DecodeChunkedBodyWithTrailers (Bytes data) destination capacity trailers trailerCapacity = (STATUS_SUCCESS, k)
  <-> exists body chunks fields rest, data = body ++ rest /\ whole_body body chunks fields
      /\ fits capacity trailers trailerCapacity chunks fields
      /\ k = MkChunked (concat chunks) (zlen body) (zlen fields) (if trailers then fields else []).
Proof.
  intros Hl Hc Htc Hd Ht. split.
  - rewrite decode_unfold by done. intros Hloop.
    apply (chunks_loop_sound destination capacity trailers trailerCapacity data Hl Hc (S (length data)) [] data 0 chunked_start) in Hloop
      as (body & chunks & fields & rest & -> & Hb & Htr & [B1 B2] & ->); [|done|done|unfold HttpMaxChunks; lia|change (zlen (ck_decoded chunked_start)) with 0; lia].
    exists body, chunks, fields, rest. split_and!; [done|done| |unfold filled; cbn [chunked_start ck_decoded ck_trailerCount ck_trailers app]; by destruct trailers].
    change (zlen (ck_decoded chunked_start)) with 0 in B1. unfold fits, trailer_room, HttpMaxTrailers, HttpMaxChunks in *.
    cbn [chunked_start ck_trailerCount] in Htr. destruct Htr as [-> |[T1 T2]]; [change (zlen []) with 0|]; split_and!; lia || (intros E; specialize (T2 E); lia).
  - intros (body & chunks & fields & rest & -> & Hb & Hf & ->). by apply decode_ok.
Qed.
(** ["4;a" CRLF "Wiki" CRLF "0" CRLF "T: v" CRLF CRLF]. *)
Definition whole_sample : list Z :=
  str "4;a" ++ 13 :: 10 :: str "Wiki" ++ 13 :: 10 :: str "0" ++ 13 :: 10 :: str "T: v" ++ 13 :: 10 :: [13; 10].
Lemma whole_sample_plain : plain_body whole_sample [str "Wiki"] [MkHeader (text "T") (text "v")].
Proof.
  apply whole_chunk; [|done|done|].
  - exists (str "4"), (59 :: [] ++ str "a" ++ []). split_and!; [done|by split_and!|].
    rewrite <- (app_nil_r (59 :: _)). apply parameters_cons; [|constructor]. apply parameter_name; [apply Forall_nil_2| |apply Forall_nil_2].
    split; [done|by apply Forall_singleton].
  - apply whole_last; [|done|].
    + exists (str "0"), []. by split_and!; [|split_and!|constructor].
    + apply trailers_line; [|by vm_compute|constructor]. exists (str "T"), (str " v"). split_and!; [done| |by apply Forall_singleton|done|done].
      split; [done|by apply Forall_singleton].
Qed.
Lemma whole_chunked_exact_witness :
  DecodeChunkedBodyWithTrailers (Bytes (whole_sample ++ str "HTTP")) true 100 true 4
  = (STATUS_SUCCESS, MkChunked (str "Wiki") 22 1 [MkHeader (text "T") (text "v")])
  /\ exists body chunks fields rest, whole_sample ++ str "HTTP" = body ++ rest /\ whole_body body chunks fields
     /\ fits 100 true 4 chunks fields
     /\ MkChunked (str "Wiki") 22 1 [MkHeader (text "T") (text "v")] = MkChunked (concat chunks) (zlen body) (zlen fields) fields.
Proof.
  assert (E : DecodeChunkedBodyWithTrailers (Bytes (whole_sample ++ str "HTTP")) true 100 true 4
    = (STATUS_SUCCESS, MkChunked (str "Wiki") 22 1 [MkHeader (text "T") (text "v")])) by (vm_compute; reflexivity).
  split; [exact E|]. apply (whole_chunked_exact _ true 100 true 4) in E; [exact E|done|done|lia|by left|by left].
Defined.

(** A body of the grammar cut short anywhere is answered with a request for
    more bytes, whatever the decoder has filled by then. *)
Theorem whole_chunked_more body chunks fields data missing destination capacity trailers trailerCapacity :
  body = data ++ missing -> missing <> [] -> whole_body body chunks fields ->
  fits capacity trailers trailerCapacity chunks fields ->
  zlen data < 2 ^ 60 -> 0 <= capacity < 2 ^ 62 -> (destination = true \/ capacity = 0) -> (trailers = true \/ trailerCapacity = 0) ->
  (DecodeChunkedBodyWithTrailers (Bytes data) destination capacity trailers trailerCapacity).1 = STATUS_MORE_PROCESSING_REQUIRED.
Proof.
  intros E Hm Hb Hf Hl Hc Hd Ht. rewrite decode_unfold by done. destruct (fits_room _ _ _ _ _ Hf) as [R1 R2].
  by apply (chunks_loop_more destination capacity trailers trailerCapacity data Hl Hd Hc body chunks fields Hb [] data missing); try lia.
Qed.

Lemma whole_chunked_more_witness :
  (DecodeChunkedBodyWithTrailers (Bytes (ztake 7 whole_sample)) true 100 true 4).1 = STATUS_MORE_PROCESSING_REQUIRED.
Proof.
  apply (whole_chunked_more whole_sample [str "Wiki"] [MkHeader (text "T") (text "v")] (ztake 7 whole_sample) (zdrop 7 whole_sample));
    [symmetry; apply ztake_zdrop|done|apply plain_whole, whole_sample_plain| |done|done|by left|by left].
  unfold fits. split_and!; first [by vm_compute|intros _; by vm_compute].
Defined.

(** Three bodies the two decoders treat differently: a blank after the size, an
    extension whose value is no token, and a forbidden trailer field. *)
Definition lines (l : list (list Z)) : list Z := concat (map (fun line => line ++ [13; 10]) l).
Definition streamed (body : list Z) : NTSTATUS := (HttpChunkedDecoder.Feed append_body (Bytes body) ready_sample []).1.1.1.
Definition whole (body : list Z) : NTSTATUS := (DecodeChunkedBodyWithTrailers (Bytes body) true 100 true 4).1.
Example decoders_differ :
  let blank := lines [str "1 "; str "W"; str "0"; []] in
  let extension := lines [str "1;a=@"; str "W"; str "0"; []] in
  let trailer := lines [str "1"; str "W"; str "0"; str "Content-Length: 3"; []] in
  map streamed [blank; extension; trailer] = [STATUS_INVALID_NETWORK_RESPONSE; STATUS_SUCCESS; STATUS_SUCCESS]
  /\ map whole [blank; extension; trailer] = [STATUS_SUCCESS; STATUS_INVALID_NETWORK_RESPONSE; STATUS_INVALID_NETWORK_RESPONSE].
Proof. by vm_compute. Qed.

(** C29. On their common ground the streaming decoder and this one agree. The
    common ground is a body of the grammar [plain_body] (no white space around
    the sizes, extensions and trailer fields this decoder accepts) within the
    limits of both decoders ([within_limits], [fits]), with a callback that takes
    the data: the same bytes are consumed, the callback is given the chunks whose
    concatenation this decoder returns, and the same trailer fields are stored.
    Elsewhere they differ: the streaming decoder refuses white space around a
    size, which this one skips, and accepts malformed extensions and forbidden
    trailer fields, which this one refuses ([decoders_differ]). *)
Theorem decoders_agree {C} (onData : option (C -> list Z -> NTSTATUS * C)) d c body chunks fields rest capacity trailerCapacity :
  HttpChunkedDecoder.accepts onData -> HttpChunkedDecoder.in_body d -> zlen (body ++ rest) < 2 ^ 60 -> 0 <= capacity < 2 ^ 62 ->
  plain_body body chunks fields ->
  HttpChunkedDecoder.within_limits d (map field_pair fields) -> fits capacity true trailerCapacity chunks fields ->
  (exists d', HttpChunkedDecoder.Feed onData (Bytes (body ++ rest)) d c
              = (STATUS_SUCCESS, zlen body, d', HttpChunkedDecoder.received onData c chunks)
              /\ HttpChunkedDecoder.stored_fields d' = HttpChunkedDecoder.stored_fields d ++ map field_pair fields)
  /\ DecodeChunkedBodyWithTrailers (Bytes (body ++ rest)) true capacity true trailerCapacity
     = (STATUS_SUCCESS, MkChunked (concat chunks) (zlen body) (zlen fields) fields).
Proof.
  intros Ha Hd Hl Hc Hb Hlim Hf. split.
  - rewrite HttpChunkedDecoder.Feed_live by (by apply HttpChunkedDecoder.in_body_live).
    destruct (HttpChunkedDecoder.body_complete onData Ha body chunks (map field_pair fields) (plain_streamed _ _ _ Hb) rest 0 d c)
      as (d' & E & Hst); [done|done|lia|lia|]. exists d'. by split.
  - apply (decode_ok body chunks fields rest true capacity true trailerCapacity); try done; [by left|by left|by apply plain_whole].
Qed.
Lemma decoders_agree_witness :
  (exists d', HttpChunkedDecoder.Feed append_body (Bytes (whole_sample ++ [])) ready_sample []
              = (STATUS_SUCCESS, zlen whole_sample, d', str "Wiki")
              /\ HttpChunkedDecoder.stored_fields d' = [(str "T", str "v")])
  /\ DecodeChunkedBodyWithTrailers (Bytes (whole_sample ++ [])) true 100 true 4
     = (STATUS_SUCCESS, MkChunked (concat [str "Wiki"]) (zlen whole_sample) 1 [MkHeader (text "T") (text "v")]).
Proof.
  apply (decoders_agree append_body ready_sample [] whole_sample [str "Wiki"] [MkHeader (text "T") (text "v")] [] 100 4);
    [exact append_accepts|exact in_body_sample|done|done|exact whole_sample_plain| |].
  - split_and!; [by right|by vm_compute|by vm_compute].
  - unfold fits. split_and!; first [by vm_compute|intros _; by vm_compute].
Defined.
