(* ===== verification/HttpTransferCoding.v ===== *)
(** * The transfer codings of a response (http1/HttpTransferCoding.cpp)

    [Parse] collects the codings of every Transfer-Encoding field: the members of
    the lists in order, at most four, "chunked" at most once, no parameters.  What
    it accepts is stated as a grammar, and it accepts exactly that. *)

From Stdlib Require Import Ascii String.
From S2P Require Import Prelude.
From S2P Require Import HttpChunkedDecoder.
From S2P Require Import HttpText.
From S2P Require Import HttpChunkedBody.
#[local] Open Scope string_scope.
#[local] Open Scope list_scope.
#[local] Open Scope Z_scope.

Definition HttpMaxTransferCodings : Z := 4.

Inductive HttpTransferCodingKind := Coding_Chunked | Coding_Gzip | Coding_Deflate | Coding_Compress.
#[export] Instance HttpTransferCodingKind_eq_dec : EqDecision HttpTransferCodingKind.
Proof. solve_decision. Defined.

Record HttpTransferCodingInfo := MkTransferInfo {
  ti_Coding0 : HttpTransferCodingKind;
  ti_Coding1 : HttpTransferCodingKind;
  ti_Coding2 : HttpTransferCodingKind;
  ti_Coding3 : HttpTransferCodingKind;
  ti_CodingCount : Z;
  ti_HasTransferEncoding : bool;
  ti_FinalCodingIsChunked : bool;
}.
#[export] Instance HttpTransferCodingInfo_eta : Eta HttpTransferCodingInfo := fun i =>
  MkTransferInfo (ti_Coding0 i) (ti_Coding1 i) (ti_Coding2 i) (ti_Coding3 i) (ti_CodingCount i)
    (ti_HasTransferEncoding i) (ti_FinalCodingIsChunked i).
Definition info_default : HttpTransferCodingInfo :=
  MkTransferInfo Coding_Chunked Coding_Chunked Coding_Chunked Coding_Chunked 0 false false.

Definition GetTransferCoding (info : HttpTransferCodingInfo) (index : Z) : HttpTransferCodingKind :=
  if index =? 0 then ti_Coding0 info
  else if index =? 1 then ti_Coding1 info
  else if index =? 2 then ti_Coding2 info
  else ti_Coding3 info.

Definition SetTransferCoding (info : HttpTransferCodingInfo) (index : Z) (coding : HttpTransferCodingKind) : HttpTransferCodingInfo :=
  if index =? 0 then info <| ti_Coding0 := coding |>
  else if index =? 1 then info <| ti_Coding1 := coding |>
  else if index =? 2 then info <| ti_Coding2 := coding |>
  else info <| ti_Coding3 := coding |>.

Definition is_chunked (coding : HttpTransferCodingKind) : bool := bool_decide (coding = Coding_Chunked).

Definition AppendTransferCoding (coding : HttpTransferCodingKind) (info : HttpTransferCodingInfo)
    : NTSTATUS * HttpTransferCodingInfo :=
  if ti_CodingCount info >=? HttpMaxTransferCodings then (STATUS_NOT_SUPPORTED, info)
  else if is_chunked coding && existsb (fun index => is_chunked (GetTransferCoding info index)) (seqZ 0 (ti_CodingCount info))
  then (STATUS_INVALID_NETWORK_RESPONSE, info)
  else
    let info := SetTransferCoding info (ti_CodingCount info) coding in
    (STATUS_SUCCESS, info <| ti_CodingCount := ti_CodingCount info +! 1 |>).

(** [*hasCoding] is set exactly on success. *)
Definition ParseTransferCodingToken (member : Text) : Result HttpTransferCodingKind :=
  let member := TrimOptionalWhitespace member in
  if sp_len member =? 0 then Err STATUS_INVALID_NETWORK_RESPONSE
  else
    let '(token, parameters) := cut 59 (sp_bytes member) in
    let token := TrimOptionalWhitespace (Bytes token) in
    if negb (IsValidToken token) then Err STATUS_INVALID_NETWORK_RESPONSE
    else if TextEqualsIgnoreCase token (text "identity") then Err STATUS_INVALID_NETWORK_RESPONSE
    else if TextEqualsIgnoreCase token (text "br") then Err STATUS_NOT_SUPPORTED
    else
      let parsed :=
        if TextEqualsIgnoreCase token (text "chunked") then Some Coding_Chunked
        else if TextEqualsIgnoreCase token (text "gzip") || TextEqualsIgnoreCase token (text "x-gzip") then Some Coding_Gzip
        else if TextEqualsIgnoreCase token (text "deflate") then Some Coding_Deflate
        else if TextEqualsIgnoreCase token (text "compress") || TextEqualsIgnoreCase token (text "x-compress")
        then Some Coding_Compress
        else None in
      match parsed with
      | None => Err STATUS_NOT_SUPPORTED
      | Some parsed => if negb (zlen parameters =? 0) then Err STATUS_INVALID_NETWORK_RESPONSE else Ok parsed
      end.

(** [rest]: the value from the cursor on. *)
Fixpoint append_codings_loop (fuel : nat) (rest : list Z) (info : HttpTransferCodingInfo) : NTSTATUS * HttpTransferCodingInfo :=
  match fuel with
  | O => (STATUS_OTHER 0, info)
  | S fuel =>
      let '(member, rest) := cut 44 rest in
      match ParseTransferCodingToken (Bytes member) with
      | Err status => (status, info)
      | Ok coding =>
          let '(status, info) := AppendTransferCoding coding info in
          if negb (NT_SUCCESS status) then (status, info)
          else
            match rest with
            | [] => (STATUS_SUCCESS, info)
            | _ :: rest => append_codings_loop fuel rest info
            end
      end
  end.
Definition AppendTransferCodings (value : Text) (info : HttpTransferCodingInfo) : NTSTATUS * HttpTransferCodingInfo :=
  append_codings_loop (S (length (sp_bytes value))) (sp_bytes value) info.

(** The loop over the fields; [saw]: [sawTransferEncodingHeader]. *)
Fixpoint fields_loop (headers : list HttpHeader) (saw : bool) (info : HttpTransferCodingInfo)
    : NTSTATUS * bool * HttpTransferCodingInfo :=
  match headers with
  | [] => (STATUS_SUCCESS, saw, info)
  | h :: headers =>
      if negb (TextEqualsIgnoreCase (hd_Name h) (text "Transfer-Encoding")) then fields_loop headers saw info
      else
        let '(status, info) := AppendTransferCodings (hd_Value h) info in
        if negb (NT_SUCCESS status) then (status, true, info_default) else fields_loop headers true info
  end.

(** [HttpTransferCoding::Parse]. *)
Definition Parse (headers : HeaderArray) : NTSTATUS * HttpTransferCodingInfo :=
  if ha_isnull headers && negb (ha_count headers =? 0) then (STATUS_INVALID_PARAMETER, info_default)
  else
    let '(status, saw, info) := fields_loop (ha_headers headers) false info_default in
    if negb (NT_SUCCESS status) then (status, info)
    else if negb saw then (STATUS_SUCCESS, info)
    else if ti_CodingCount info =? 0 then (STATUS_INVALID_NETWORK_RESPONSE, info_default)
    else
      (STATUS_SUCCESS,
       info <| ti_HasTransferEncoding := true |>
            <| ti_FinalCodingIsChunked := is_chunked (GetTransferCoding info (ti_CodingCount info -! 1)) |>).

Example parse_two :
  Parse (HeaderList [MkHeader (text "A") (text "b"); MkHeader (text "transfer-encoding") (text "x-gzip , Chunked")])
  = (STATUS_SUCCESS, MkTransferInfo Coding_Gzip Coding_Chunked Coding_Chunked Coding_Chunked 2 true true).
Proof. vm_compute. reflexivity. Qed.

(** ** The grammar *)

Definition coding_names : list (list Z * HttpTransferCodingKind) :=
  [(str "chunked", Coding_Chunked); (str "gzip", Coding_Gzip); (str "x-gzip", Coding_Gzip); (str "deflate", Coding_Deflate);
   (str "compress", Coding_Compress); (str "x-compress", Coding_Compress)].

(** A member of the list: the name of a coding, with white space around it. *)
Definition coding_member (member : list Z) (coding : HttpTransferCodingKind) : Prop :=
  exists a name b full, member = a ++ name ++ b /\ blanks a /\ blanks b
  /\ (full, coding) ∈ coding_names /\ same_text name full = true.

(** The values of the fields of a name. *)
Definition field_values (name : list Z) (headers : list HttpHeader) : list (list Z) :=
  map (fun h => sp_bytes (hd_Value h)) (filter (fun h => TextEqualsIgnoreCase (hd_Name h) (Bytes name) = true) headers).
Definition transfer_encodings : list HttpHeader -> list (list Z) := field_values (str "Transfer-Encoding").

(** The codings of all fields: in order, four at most, "chunked" once at most. *)
Definition transfer_codings (headers : list HttpHeader) (codings : list HttpTransferCodingKind) : Prop :=
  Forall2 coding_member (concat (map (split_on 44) (transfer_encodings headers))) codings
  /\ zlen codings <= HttpMaxTransferCodings
  /\ (length (filter (fun c => c = Coding_Chunked) codings) <= 1)%nat.

Definition slots (codings : list HttpTransferCodingKind) (i : nat) : HttpTransferCodingKind := nth i codings Coding_Chunked.
Definition info_of (codings : list HttpTransferCodingKind) : HttpTransferCodingInfo :=
  MkTransferInfo (slots codings 0) (slots codings 1) (slots codings 2) (slots codings 3) (zlen codings)
    (negb (zlen codings =? 0)) (negb (zlen codings =? 0) && bool_decide (last codings = Some Coding_Chunked)).

(** ** Members *)

Lemma same_text_refl l : same_text l l = true.
Proof. by apply bool_decide_eq_true. Qed.
Lemma lower_blank ch : is_blank (ToLowerAscii ch) = is_blank ch.
Proof.
  unfold is_blank, ToLowerAscii, IsUpperAscii. destruct ((ch >=? 65) && (ch <=? 90)) eqn:E; [|done].
  apply andb_true_iff in E as [E1 E2]. rewrite Z.geb_leb in E1. apply Z.leb_le in E1, E2.
  rewrite !(proj2 (Z.eqb_neq _ _)) by lia. done.
Qed.
Lemma lower_tchar ch : IsTchar (ToLowerAscii ch) = true -> IsTchar ch = true.
Proof.
  unfold ToLowerAscii, IsUpperAscii. destruct ((ch >=? 65) && (ch <=? 90)) eqn:E; [|done].
  intros _. unfold IsTchar. replace (in_chars 65 90 ch) with true by (symmetry; exact E). by rewrite orb_true_r.
Qed.
Lemma same_text_Forall (p : Z -> bool) a b : (forall ch, p (ToLowerAscii ch) = true -> p ch = true) ->
  same_text a b = true -> Forall (fun ch => p ch = true) (map ToLowerAscii b) -> Forall (fun ch => p ch = true) a.
Proof.
  intros Hp Hs%bool_decide_eq_true Hb. rewrite <- Hs in Hb. rewrite Forall_map in Hb. eapply Forall_impl; [exact Hb|]. by intros ch ?%Hp.
Qed.

Lemma coding_name_token full coding : (full, coding) ∈ coding_names -> token (map ToLowerAscii full).
Proof.
  intros H. assert (Ha : forallb (fun p => forallb IsTchar (map ToLowerAscii p.1) && negb (bool_decide (p.1 = []))) coding_names = true) by (vm_compute; reflexivity).
  rewrite List.forallb_forall in Ha. specialize (Ha _ (proj1 (list_elem_of_In _ _) H)). cbn [fst] in Ha. apply andb_true_iff in Ha as [H1 H2].
  split; [|by apply forallb_Forall]. destruct full; [done|done].
Qed.
Lemma coding_text_token name full coding : (full, coding) ∈ coding_names -> same_text name full = true -> token name.
Proof.
  intros Hf Hs. destruct (coding_name_token _ _ Hf) as [Hne Ht]. split.
  - apply bool_decide_eq_true in Hs. intros ->. rewrite <- Hs in Hne. done.
  - by apply (same_text_Forall IsTchar name full lower_tchar).
Qed.
Lemma tchar_no_semicolon l : Forall (fun ch => IsTchar ch = true) l -> Forall (fun ch => ch <> 59) l.
Proof. intros H. eapply Forall_impl; [exact H|]. cbv beta. intros ch Hc ->. by vm_compute in Hc. Qed.
Lemma token_solid l : token l -> Forall (fun ch => is_blank ch = false) l.
Proof. intros [_ H]. eapply Forall_impl; [exact H|]. cbv beta. intros ch. apply tchar_not_blank. Qed.

(** The coding that a name stands for, as the chain of comparisons finds it. *)
Definition named_coding (name : list Z) : option HttpTransferCodingKind :=
  snd <$> List.find (fun p => same_text name p.1) coding_names.
Definition refused_name (name : list Z) : bool := same_text name (str "identity") || same_text name (str "br").
Lemma named_refused name coding : named_coding name = Some coding -> refused_name name = false.
Proof.
  unfold named_coding. destruct (List.find _ _) as [[full c]|] eqn:E; [|done]. intros _. apply List.find_some in E as [Hin Hs]. cbn [fst] in Hs.
  apply bool_decide_eq_true in Hs. unfold refused_name, same_text. rewrite Hs.
  assert (Ha : forallb (fun p => negb (refused_name p.1)) coding_names = true) by (vm_compute; reflexivity).
  rewrite List.forallb_forall in Ha. specialize (Ha _ Hin). unfold refused_name, same_text in Ha. by apply negb_true_iff in Ha.
Qed.
Lemma named_coding_spec name coding :
  named_coding name = Some coding <-> exists full, (full, coding) ∈ coding_names /\ same_text name full = true.
Proof.
  unfold named_coding. split.
  - destruct (List.find _ _) as [[full c]|] eqn:E; [|done]. intros [= <-]. apply List.find_some in E as [Hin Hs]. exists full. split; [by apply list_elem_of_In|done].
  - intros (full & Hin & Hs). apply bool_decide_eq_true in Hs. unfold same_text. rewrite Hs. change (snd <$> List.find (fun p => same_text full p.1) coding_names = Some coding).
    apply list_elem_of_In in Hin. cbn [coding_names List.In] in Hin. repeat (destruct Hin as [[= <- <-]|Hin]; [vm_compute; reflexivity|]). done.
Qed.

Lemma ParseTransferCodingToken_eq member : ParseTransferCodingToken (Bytes member)
  = if zlen (trim member) =? 0 then Err STATUS_INVALID_NETWORK_RESPONSE
    else
      let '(name, parameters) := cut 59 (trim member) in
      if negb (IsValidToken (Bytes (trim name))) then Err STATUS_INVALID_NETWORK_RESPONSE
      else if same_text (trim name) (str "identity") then Err STATUS_INVALID_NETWORK_RESPONSE
      else if same_text (trim name) (str "br") then Err STATUS_NOT_SUPPORTED
      else
        match named_coding (trim name) with
        | None => Err STATUS_NOT_SUPPORTED
        | Some c => if negb (zlen parameters =? 0) then Err STATUS_INVALID_NETWORK_RESPONSE else Ok c
        end.
Proof.
  unfold ParseTransferCodingToken. cbn [TrimOptionalWhitespace sp_len sp_bytes].
  destruct (zlen (trim member) =? 0); [done|]. destruct (cut 59 (trim member)) as [name parameters].
  unfold text, MakeText. rewrite !TextEqualsIgnoreCase_bytes. destruct (IsValidToken (Bytes (trim name))); [|done]. cbn [negb].
  unfold named_coding, coding_names. cbn [List.find fst].
  change (c_string (str "identity")) with (str "identity"). change (c_string (str "br")) with (str "br").
  change (c_string (str "chunked")) with (str "chunked"). change (c_string (str "gzip")) with (str "gzip").
  change (c_string (str "x-gzip")) with (str "x-gzip"). change (c_string (str "deflate")) with (str "deflate").
  change (c_string (str "compress")) with (str "compress"). change (c_string (str "x-compress")) with (str "x-compress").
  destruct (same_text (trim name) (str "identity")), (same_text (trim name) (str "br")); try done.
  destruct (same_text (trim name) (str "chunked")); [done|].
  destruct (same_text (trim name) (str "gzip")); [done|]. destruct (same_text (trim name) (str "x-gzip")); [done|].
  destruct (same_text (trim name) (str "deflate")); [done|]. destruct (same_text (trim name) (str "compress")); [done|].
  by destruct (same_text (trim name) (str "x-compress")).
Qed.

Lemma te_trim_trim l : trim (trim l) = trim l.
Proof.
  pose proof (trim_ends l) as [H1 H2]. unfold trim at 1. rewrite (skip_none is_blank (trim l)) by done.
  rewrite skip_none by done. apply rev_involutive.
Qed.
Lemma cut_nil stop l a : cut stop l = (a, []) -> a = l.
Proof. intros E. pose proof (cut_app stop l) as H. rewrite E in H. cbn [fst snd] in H. by rewrite app_nil_r in H. Qed.
Lemma zlen_0 {A} (l : list A) : zlen l = 0 -> l = [].
Proof. destruct l as [|x l]; [done|]. rewrite zlen_cons. pose proof (zlen_nonneg l). lia. Qed.

Lemma ParseTransferCodingToken_spec member coding :
  ParseTransferCodingToken (Bytes member) = Ok coding <-> coding_member member coding.
Proof.
  rewrite ParseTransferCodingToken_eq. unfold coding_member. split.
  - destruct (zlen (trim member) =? 0); [done|]. destruct (cut 59 (trim member)) as [name parameters] eqn:Ecut.
    destruct (IsValidToken _); [|done]. cbn [negb]. do 2 (case_if; [done|]).
    destruct (named_coding (trim name)) as [c|] eqn:En; [|done]. destruct (Z.eqb_spec (zlen parameters) 0) as [Ez|]; [|done].
    intros [= <-]. apply zlen_0 in Ez. subst parameters. apply cut_nil in Ecut. subst name. rewrite te_trim_trim in En.
    apply named_coding_spec in En as (full & Hin & Hs). destruct (trim_spec member) as (a & b & E & Hab). apply Forall_app in Hab as [Ha Hb].
    by exists a, (trim member), b, full.
  - intros (a & name & b & full & -> & Ha & Hb & Hin & Hs). pose proof (coding_text_token name full coding Hin Hs) as Ht.
    rewrite trim_padding, trim_solid by (done || by apply token_solid). rewrite token_nonempty by done.
    rewrite (cut_none 59 name) by (apply tchar_no_semicolon; apply Ht). rewrite trim_solid by (by apply token_solid).
    rewrite IsValidToken_token by done. cbn [negb].
    assert (En : named_coding name = Some coding) by (apply named_coding_spec; by exists full).
    pose proof (named_refused name coding En) as Hr. unfold refused_name in Hr. apply orb_false_iff in Hr as [-> ->]. by rewrite En.
Qed.

Lemma coding_member_unique member c c' : coding_member member c -> coding_member member c' -> c = c'.
Proof. intros Hc%ParseTransferCodingToken_spec Hc'%ParseTransferCodingToken_spec. congruence. Qed.
Lemma coding_members_unique members cs cs' : Forall2 coding_member members cs -> Forall2 coding_member members cs' -> cs = cs'.
Proof.
  intros H. revert cs'. induction H as [|m c ms cs Hc _ IH]; intros cs' H'.
  - by apply Forall2_nil_inv_l in H'.
  - apply Forall2_cons_inv_l in H' as (c' & n' & Hc' & Hf' & ->). f_equal; [by eapply coding_member_unique|by apply IH].
Qed.

(** ** The table of codings *)

(** The table while the fields are read. *)
Definition partial (codings : list HttpTransferCodingKind) : HttpTransferCodingInfo :=
  MkTransferInfo (slots codings 0) (slots codings 1) (slots codings 2) (slots codings 3) (zlen codings) false false.
Definition chunked_count (codings : list HttpTransferCodingKind) : nat := length (filter (fun c => c = Coding_Chunked) codings).
Definition table (codings : list HttpTransferCodingKind) : Prop :=
  zlen codings <= HttpMaxTransferCodings /\ (chunked_count codings <= 1)%nat.

Lemma table_prefix a b : table (a ++ b) -> table a.
Proof.
  unfold table, chunked_count. rewrite zlen_app, filter_app, length_app. pose proof (zlen_nonneg b). lia.
Qed.
Lemma existsb_count codings : existsb is_chunked codings = false <-> chunked_count codings = O.
Proof.
  unfold chunked_count. induction codings as [|c codings IH]; [done|]. cbn [existsb]. rewrite filter_cons. unfold is_chunked at 1.
  destruct (decide (c = Coding_Chunked)) as [E|E].
  - by rewrite bool_decide_eq_true_2.
  - by rewrite bool_decide_eq_false_2.
Qed.
Lemma table_four c0 c1 c2 c3 c4 codings : ~ table (c0 :: c1 :: c2 :: c3 :: c4 :: codings).
Proof. intros [H _]. unfold HttpMaxTransferCodings in H. rewrite !zlen_cons in H. pose proof (zlen_nonneg codings). lia. Qed.
Lemma AppendTransferCoding_partial coding codings : table codings ->
  AppendTransferCoding coding (partial codings)
  = if zlen codings =? 4 then (STATUS_NOT_SUPPORTED, partial codings)
    else if is_chunked coding && existsb is_chunked codings then (STATUS_INVALID_NETWORK_RESPONSE, partial codings)
    else (STATUS_SUCCESS, partial (codings ++ [coding])).
Proof.
  intros H. destruct codings as [|c0 [|c1 [|c2 [|c3 [|c4 codings]]]]]; try reflexivity. by apply table_four in H.
Qed.
Lemma append_ok coding codings info : table codings ->
  AppendTransferCoding coding (partial codings) = (STATUS_SUCCESS, info)
  <-> table (codings ++ [coding]) /\ info = partial (codings ++ [coding]).
Proof.
  intros Ht. rewrite AppendTransferCoding_partial by done. destruct Ht as [H1 H2]. unfold table, chunked_count, HttpMaxTransferCodings in *.
  rewrite zlen_app, filter_app, length_app. change (zlen [coding]) with 1.
  destruct (Z.eqb_spec (zlen codings) 4) as [E|E]; [split; [done|lia]|].
  destruct (is_chunked coding) eqn:Ec; cbn [andb].
  - apply bool_decide_eq_true in Ec. subst coding. destruct (existsb is_chunked codings) eqn:Ee.
    + split; [done|]. intros [[_ Hc] _]. change (length (filter _ [Coding_Chunked])) with 1%nat in Hc.
      assert (existsb is_chunked codings = false) by (apply existsb_count; unfold chunked_count; lia). congruence.
    + apply existsb_count in Ee. unfold chunked_count in Ee. rewrite Ee. change (length (filter _ [Coding_Chunked])) with 1%nat.
      split; [intros [= <-]; by split_and!; try lia|by intros [_ ->]].
  - apply bool_decide_eq_false in Ec. rewrite filter_cons_False, filter_nil by done. cbn [length].
    split; [intros [= <-]; by split_and!; try lia|by intros [_ ->]].
Qed.

(** ** The loops *)

Lemma ParseTransferCodingToken_status member status :
  ParseTransferCodingToken (Bytes member) = Err status -> status <> STATUS_SUCCESS.
Proof.
  rewrite ParseTransferCodingToken_eq. case_if; [by intros [= <-]|]. destruct (cut 59 (trim member)) as [name parameters].
  do 3 (case_if; [by intros [= <-]|]). destruct (named_coding (trim name)); [case_if; [by intros [= <-]|done]|by intros [= <-]].
Qed.

(** Later codings after those of the table so far. *)
Definition more (codings : list HttpTransferCodingKind) (members : list (list Z)) (info : HttpTransferCodingInfo) : Prop :=
  exists new, Forall2 coding_member members new /\ table (codings ++ new) /\ info = partial (codings ++ new).
Lemma more_nil codings info : table codings -> more codings [] info <-> info = partial codings.
Proof.
  intros Ht. split.
  - intros (new & Hf & _ & ->). apply Forall2_nil_inv_l in Hf. subst. by rewrite app_nil_r.
  - intros ->. exists []. rewrite app_nil_r. by split_and!; [constructor| |].
Qed.
Lemma snoc_app {A} (l k : list A) x : l ++ x :: k = (l ++ [x]) ++ k.
Proof. by rewrite <- app_assoc. Qed.
Lemma more_cons codings member members info :
  more codings (member :: members) info
  <-> exists c, coding_member member c /\ table (codings ++ [c]) /\ more (codings ++ [c]) members info.
Proof.
  split.
  - intros (new & Hf & Ht & ->). apply Forall2_cons_inv_l in Hf as (c & new' & Hc & Hf & ->). exists c.
    rewrite (snoc_app codings new' c) in Ht |- *. split_and!; [done|by eapply table_prefix|by exists new'].
  - intros (c & Hc & _ & new & Hf & Ht & ->). exists (c :: new). rewrite (snoc_app codings new c). by split_and!; [constructor| |].
Qed.
Lemma more_app codings a b info :
  more codings (a ++ b) info <-> exists new, Forall2 coding_member a new /\ table (codings ++ new) /\ more (codings ++ new) b info.
Proof.
  split.
  - intros (new & Hf & Ht & ->). apply Forall2_app_inv_l in Hf as (n1 & n2 & H1 & H2 & ->). exists n1. rewrite (app_assoc codings) in Ht |- *.
    split_and!; [done|by eapply table_prefix|by exists n2].
  - intros (n1 & H1 & _ & n2 & H2 & Ht & ->). exists (n1 ++ n2). rewrite (app_assoc codings). split_and!; [by apply Forall2_app|done|done].
Qed.

Lemma append_codings_spec fuel rest codings info : (length rest < fuel)%nat -> table codings ->
  append_codings_loop fuel rest (partial codings) = (STATUS_SUCCESS, info) <-> more codings (split_on 44 rest) info.
Proof.
  revert rest codings. induction fuel as [|fuel IH]; intros rest codings Hf Ht; [lia|].
  cbn [append_codings_loop]. rewrite split_on_cut. pose proof (cut_app 44 rest) as Ea.
  destruct (cut 44 rest) as [member rest']. cbn [fst snd] in *. rewrite more_cons.
  destruct (ParseTransferCodingToken (Bytes member)) as [c|status] eqn:Ep.
  2:{ split; [intros [= -> _]; by apply ParseTransferCodingToken_status in Ep|].
      intros (c & Hc%ParseTransferCodingToken_spec & _). congruence. }
  apply ParseTransferCodingToken_spec in Ep.
  destruct (AppendTransferCoding c (partial codings)) as [status info1] eqn:Eap.
  destruct (NT_SUCCESS status) eqn:Es; cbn [negb].
  - apply NT_SUCCESS_true in Es. subst status. apply append_ok in Eap as [Ht' ->]; [|done].
    transitivity (more (codings ++ [c]) match rest' with [] => [] | _ :: r => split_on 44 r end info).
    + destruct rest' as [|x r]; [rewrite more_nil by done; split; [by intros [= <-]|by intros ->]|].
      apply IH; [|done]. rewrite Ea, length_app in Hf. cbn [length] in Hf. lia.
    + split; [by exists c|]. intros (c' & Hc' & _ & H). by rewrite (coding_member_unique member c c').
  - split; [by intros [= -> _]|]. intros (c' & Hc' & Ht' & _). exfalso.
    rewrite (coding_member_unique member c' c) in Ht' by done.
    pose proof (proj2 (append_ok c codings _ Ht) (conj Ht' eq_refl)) as E. rewrite E in Eap. by injection Eap as <- _.
Qed.

Lemma AppendTransferCodings_spec value codings info : table codings ->
  AppendTransferCodings value (partial codings) = (STATUS_SUCCESS, info) <-> more codings (split_on 44 (sp_bytes value)) info.
Proof. intros Ht. apply append_codings_spec; [lia|done]. Qed.

Lemma transfer_encodings_cons h headers :
  transfer_encodings (h :: headers)
  = if TextEqualsIgnoreCase (hd_Name h) (text "Transfer-Encoding") then sp_bytes (hd_Value h) :: transfer_encodings headers
    else transfer_encodings headers.
Proof.
  unfold transfer_encodings, field_values. change (Bytes (str "Transfer-Encoding")) with (text "Transfer-Encoding"). rewrite filter_cons.
  by destruct (TextEqualsIgnoreCase (hd_Name h) (text "Transfer-Encoding")).
Qed.

Lemma fields_loop_spec headers saw codings saw' info : table codings ->
  fields_loop headers saw (partial codings) = (STATUS_SUCCESS, saw', info)
  <-> more codings (concat (map (split_on 44) (transfer_encodings headers))) info
      /\ saw' = saw || negb (bool_decide (transfer_encodings headers = [])).
Proof.
  revert saw codings. induction headers as [|h headers IH]; intros saw codings Ht; cbn [fields_loop].
  - cbn [transfer_encodings field_values map concat]. change (transfer_encodings []) with (@nil (list Z)). cbn [map concat].
    rewrite more_nil by done. rewrite bool_decide_eq_true_2, orb_false_r by done. split; [by intros [= -> ->]|by intros [-> ->]].
  - rewrite transfer_encodings_cons. destruct (TextEqualsIgnoreCase (hd_Name h) _); cbn [negb]; [|by apply IH].
    cbn [map concat]. rewrite more_app, (bool_decide_eq_false_2 (_ :: _ = [])), orb_true_r by done.
    destruct (AppendTransferCodings (hd_Value h) (partial codings)) as [status info1] eqn:Ea.
    destruct (NT_SUCCESS status) eqn:Es; cbn [negb].
    + apply NT_SUCCESS_true in Es. subst status. apply AppendTransferCodings_spec in Ea as (new & Hf & Ht' & ->); [|done].
      rewrite IH by done. cbn [orb]. split; [intros [H ->]; split; [by exists new|done]|]. intros [(new' & Hf' & _ & H) ->]. split; [|done].
      by rewrite (coding_members_unique _ new new' Hf Hf').
    + split; [by intros [= -> _ _]|]. intros [(new & Hf & Ht' & _) _]. exfalso.
      pose proof (proj2 (AppendTransferCodings_spec (hd_Value h) codings _ Ht) (ex_intro _ new (conj Hf (conj Ht' eq_refl)))) as E.
      rewrite E in Ea. by injection Ea as <- _.
Qed.

(** ** The whole table *)

Lemma slots_final codings i : table codings -> i = zlen codings - 1 -> 0 <= i ->
  bool_decide (last codings = Some Coding_Chunked) = is_chunked (GetTransferCoding (partial codings) i).
Proof.
  intros H -> Hi. unfold is_chunked. apply bool_decide_ext.
  destruct codings as [|c0 [|c1 [|c2 [|c3 [|c4 codings]]]]]; [done|vm_compute; split; congruence..|by apply table_four in H].
Qed.
Lemma pieces_nonempty l : l <> [] -> concat (map (split_on 44) l) <> [].
Proof. destruct l as [|v l]; [done|]. intros _. cbn [map concat]. by rewrite split_on_cut. Qed.

Lemma Parse_spec headers info :
  Parse (HeaderList headers) = (STATUS_SUCCESS, info) <-> exists codings, transfer_codings headers codings /\ info = info_of codings.
Proof.
  unfold Parse. cbn [ha_isnull ha_headers andb]. change info_default with (partial []).
  transitivity (exists codings, transfer_codings headers codings /\ info = info_of codings); [|done].
  assert (H0 : table []) by (split; [done|cbn; lia]).
  destruct (fields_loop headers false (partial [])) as [[status saw] i] eqn:E. destruct (NT_SUCCESS status) eqn:Es; cbn [negb].
  - apply NT_SUCCESS_true in Es. subst status. apply fields_loop_spec in E as [(codings & Hf & Ht & ->) ->]; [|done]. cbn [app orb] in *.
    assert (Hall : forall codings', transfer_codings headers codings' -> codings' = codings).
    { intros c' (Hf' & _). by eapply coding_members_unique. }
    assert (Htc : transfer_codings headers codings) by (destruct Ht; by split_and!).
    transitivity (info = info_of codings); [|split; [by exists codings|by intros (c' & Hc' & ->); rewrite (Hall c' Hc')]].
    destruct (bool_decide (transfer_encodings headers = [])) eqn:Ee; cbn [negb].
    + apply bool_decide_eq_true in Ee. rewrite Ee in Hf. apply Forall2_nil_inv_l in Hf. subst codings.
      split; [by intros [= <-]|by intros ->].
    + apply bool_decide_eq_false in Ee. assert (codings <> []) as Hne.
      { intros ->. apply Forall2_nil_inv_r in Hf. by apply pieces_nonempty in Ee. }
      cbn [partial ti_CodingCount]. assert (Hz : 0 < zlen codings) by (destruct codings as [|x l]; [done|rewrite zlen_cons; pose proof (zlen_nonneg l); lia]).
      unfold info_of. rewrite (proj2 (Z.eqb_neq _ _)) by lia. destruct Ht as [Ht1 Ht2]. unfold HttpMaxTransferCodings in Ht1.
      rewrite (u64_id (zlen codings - 1)), <- (slots_final codings (zlen codings - 1)) by (lia || done). cbn [negb andb].
      split; [by intros [= <-]|by intros ->].
  - split; [by intros [= -> _]|]. intros (codings & (Hf & Hc & Hn) & _). exfalso.
    pose proof (proj2 (fields_loop_spec headers false [] _ (partial codings) H0) (conj (ex_intro _ codings (conj Hf (conj (conj Hc Hn) eq_refl))) eq_refl)) as E1.
    rewrite E1 in E. by injection E as <- _ _.
Qed.

Lemma fields_loop_failed headers saw info status saw' info' : status <> STATUS_SUCCESS ->
  fields_loop headers saw info = (status, saw', info') -> info' = info_default.
Proof.
  intros Hs. revert saw info. induction headers as [|h headers IH]; intros saw info; cbn [fields_loop]; [by intros [= <- _ _]|].
  destruct (TextEqualsIgnoreCase _ _); cbn [negb]; [|apply IH]. destruct (AppendTransferCodings _ _) as [st i].
  destruct (NT_SUCCESS st); cbn [negb]; [apply IH|by intros [= _ _ <-]].
Qed.

(** C9. The codings of a response's Transfer-Encoding fields are read exactly when
    they follow the grammar: the table then holds them in order and says whether
    the last is "chunked"; otherwise the call fails and the table is empty. *)
Theorem transfer_codings_exact headers :
  match Parse (HeaderList headers) with
  | (STATUS_SUCCESS, info) => exists codings, transfer_codings headers codings /\ info = info_of codings
  | (_, info) => info = info_default /\ forall codings, ~ transfer_codings headers codings
  end.
Proof.
  destruct (Parse (HeaderList headers)) as [status info] eqn:E.
  assert (Hf : status <> STATUS_SUCCESS -> info = info_default /\ forall codings, ~ transfer_codings headers codings).
  { intros Hs. split.
    - unfold Parse in E. cbn [ha_isnull ha_headers andb] in E. destruct (fields_loop headers false info_default) as [[st saw] i] eqn:El.
      destruct (NT_SUCCESS st) eqn:Est; cbn [negb] in E.
      + destruct saw; cbn [negb] in E; [|by injection E as <- _]. destruct (ti_CodingCount i =? 0); by injection E as <- <-.
      + injection E as -> ->. by eapply fields_loop_failed.
    - intros codings Hc. pose proof (proj2 (Parse_spec headers (info_of codings)) (ex_intro _ codings (conj Hc eq_refl))). congruence. }
  destruct status; try (apply Hf; done). by apply Parse_spec.
Qed.
