(* ===== verification/HttpParser.v ===== *)
(** * The head of an HTTP/1 response (http1/HttpParser.cpp)

    [ParseResponseHeaders] reads the status line and the header fields of a
    response and decides how its body is framed.  The accepted heads are stated as
    a grammar, the framing as the rules of RFC 9112, section 6.3; the parser
    accepts exactly those heads with exactly that framing. *)

From Stdlib Require Import Ascii String.
From S2P Require Import Prelude.
From S2P Require Import HttpChunkedDecoder.
From S2P Require Import HttpText.
From S2P Require Import HttpChunkedBody.
From S2P Require Import HttpTransferCoding.
#[local] Open Scope string_scope.
#[local] Open Scope list_scope.
#[local] Open Scope Z_scope.

Definition HttpMaxHeaderBytes : Z := 65536.
Definition HttpMaxHeaders : Z := 512.

(** The options: an array or a buffer is the presence of the pointer and the
    capacity.  The coding policy and the decoders' materials are not looked at by
    what this file models. *)
Record HttpParseOptions := MkOptions {
  po_Headers : bool;
  po_HeaderCapacity : Z;
  po_Trailers : bool;
  po_ResponseBodyForbidden : bool;
}.

Definition ContainsChar (text : Text) (needle : Z) : bool :=
  if sp_isnull text then false else existsb (fun ch => ch =? needle) (sp_bytes text).

Definition StartsWith (text prefix : Text) : bool :=
  if sp_isnull text || sp_isnull prefix || (sp_len text <? sp_len prefix) then false
  else match starts_with (sp_bytes prefix) (sp_bytes text) with Some _ => true | None => false end.

(** The offset after the first CRLF CRLF. *)
Fixpoint find_end (l : list Z) : option Z :=
  match l with
  | a :: ((b :: c :: d :: _) as rest) =>
      if (a =? 13) && (b =? 10) && (c =? 13) && (d =? 10) then Some 4 else option_map (Z.add 1) (find_end rest)
  | _ => None
  end.
(** [None] is [InvalidOffset]. *)
Definition FindHeaderEnd (data : span) : option Z :=
  if sp_isnull data || (sp_len data <? 4) then None else find_end (sp_bytes data).

Fixpoint parse_uint16_loop (rest : list Z) (parsed : Z) : Result Z :=
  match rest with
  | [] => Ok parsed
  | ch :: rest =>
      if negb (IsDigit ch) then Err STATUS_INVALID_NETWORK_RESPONSE
      else
        let parsed := u32 (u32 (parsed * 10) + (ch - 48)) in
        if parsed >? 0xFFFF then Err STATUS_INTEGER_OVERFLOW else parse_uint16_loop rest parsed
  end.
Definition ParseUInt16 (text : Text) : Result Z :=
  if sp_isnull text || (sp_len text =? 0) then Err STATUS_INVALID_PARAMETER else parse_uint16_loop (sp_bytes text) 0.

Fixpoint parse_size_loop (rest : list Z) (parsed : Z) : Result Z :=
  match rest with
  | [] => Ok parsed
  | ch :: rest =>
      if negb (IsDigit ch) then Err STATUS_INVALID_NETWORK_RESPONSE
      else
        let digit := ch - 48 in
        if parsed >? (MAXU64 -! digit) / 10 then Err STATUS_INTEGER_OVERFLOW
        else parse_size_loop rest ((parsed *! 10) +! digit)
  end.
Definition ParseSize (text : Text) : Result Z :=
  if sp_isnull text || (sp_len text =? 0) then Err STATUS_INVALID_PARAMETER else parse_size_loop (sp_bytes text) 0.

Definition StatusCodeHasNoBody (statusCode : Z) : bool :=
  ((statusCode >=? 100) && (statusCode <=? 199)) || (statusCode =? 204) || (statusCode =? 205) || (statusCode =? 304).

(** ** The status line *)

Definition is_space (ch : Z) : bool := ch =? 32.

(** What follows the version: the spaces, the code and the reason phrase. *)
Definition status_code (rest : list Z) (response : HttpResponse) : Result HttpResponse :=
  match skip is_space rest with
  | c0 :: c1 :: c2 :: rest =>
      if negb (IsDigit c0) || negb (IsDigit c1) || negb (IsDigit c2) then Err STATUS_INVALID_NETWORK_RESPONSE
      else
        code ← ParseUInt16 (Bytes [c0; c1; c2]);
        if (code <? 100) || (code >? 599) then Err STATUS_INVALID_NETWORK_RESPONSE
        else
          let response := response <| rp_StatusCode := code |> in
          match rest with
          | [] => Ok (response <| rp_ReasonPhrase := Null 0 |>)
          | ch :: reason =>
              if negb (ch =? 32) then Err STATUS_INVALID_NETWORK_RESPONSE
              else Ok (response <| rp_ReasonPhrase := Bytes reason |>)
          end
  | _ => Err STATUS_INVALID_NETWORK_RESPONSE
  end.

(** When the line is refused, the callers clear the response. *)
Definition ParseStatusLine (line : list Z) (response : HttpResponse) : Result HttpResponse :=
  if negb (StartsWith (Bytes line) (text "HTTP/")) then Err STATUS_INVALID_NETWORK_RESPONSE
  else
    let '(major, rest) := scan IsDigit (zdrop 5 line) in
    match rest with
    | [] => Err STATUS_INVALID_NETWORK_RESPONSE
    | ch :: rest =>
        if (zlen major =? 0) || negb (ch =? 46) then Err STATUS_INVALID_NETWORK_RESPONSE
        else
          MajorVersion ← ParseUInt16 (Bytes major);
          let '(minor, rest) := scan IsDigit rest in
          match rest with
          | [] => Err STATUS_INVALID_NETWORK_RESPONSE
          | ch :: _ =>
              if (zlen minor =? 0) || negb (ch =? 32) then Err STATUS_INVALID_NETWORK_RESPONSE
              else
                MinorVersion ← ParseUInt16 (Bytes minor);
                if negb (MajorVersion =? 1) || (MinorVersion >? 1) then Err STATUS_INVALID_NETWORK_RESPONSE
                else
                  status_code rest (response <| rp_MajorVersion := MajorVersion |> <| rp_MinorVersion := MinorVersion |>)
          end
    end.

(** ** The header fields *)

Section Fields.
Variable options : HttpParseOptions.
Variable data : list Z.
Variable headerEnd : Z.

(** [headers]: what the array holds up to [*headerCount]. *)
Fixpoint headers_loop (fuel : nat) (cursor : Z) (headers : list HttpHeader) : NTSTATUS * list HttpHeader :=
  match fuel with
  | O => (STATUS_OTHER 0, headers)
  | S fuel =>
      if negb (cursor <? headerEnd -! 2) then (STATUS_SUCCESS, headers)
      else
        match FindCrlf data cursor with
        | None => (STATUS_INVALID_NETWORK_RESPONSE, headers)
        | Some lineEnd =>
            if lineEnd >? headerEnd then (STATUS_INVALID_NETWORK_RESPONSE, headers)
            else if lineEnd -! cursor >? HttpMaxHeaderLineBytes then (STATUS_INVALID_NETWORK_RESPONSE, headers)
            else if lineEnd =? cursor then (STATUS_SUCCESS, headers)
            else if is_blank (zget data cursor) then (STATUS_INVALID_NETWORK_RESPONSE, headers)
            else
              match cut 58 (zsub data cursor (lineEnd - cursor)) with
              | (_, []) => (STATUS_INVALID_NETWORK_RESPONSE, headers)
              | (name, _ :: value) =>
                  if zlen name =? 0 then (STATUS_INVALID_NETWORK_RESPONSE, headers)
                  else if (zlen headers >=? HttpMaxHeaders) || (zlen headers >=? po_HeaderCapacity options)
                          || negb (po_Headers options)
                  then (STATUS_BUFFER_TOO_SMALL, headers)
                  else
                    let name := Bytes name in
                    let value := TrimOptionalWhitespace (Bytes value) in
                    if negb (IsValidHeaderName name) || negb (IsValidHeaderValue value)
                    then (STATUS_INVALID_NETWORK_RESPONSE, headers)
                    else headers_loop fuel (lineEnd +! 2) (headers ++ [MkHeader name value])
              end
        end
  end.
Definition ParseHeaders (headerStart : Z) : NTSTATUS * list HttpHeader :=
  if (headerEnd <? headerStart) || (headerEnd -! headerStart >? HttpMaxHeaderBytes)
  then (STATUS_INVALID_NETWORK_RESPONSE, [])
  else headers_loop (S (length data)) headerStart [].
End Fields.

(** [found]: [*found] with [*contentLength]. *)
Fixpoint content_length_loop (headers : list HttpHeader) (found : option Z) : Result (option Z) :=
  match headers with
  | [] => Ok found
  | h :: headers =>
      if negb (TextEqualsIgnoreCase (hd_Name h) (text "Content-Length")) then content_length_loop headers found
      else
        let value := TrimOptionalWhitespace (hd_Value h) in
        if (sp_len value =? 0) || ContainsChar value 44 then Err STATUS_INVALID_NETWORK_RESPONSE
        else
          match found with
          | Some _ => Err STATUS_INVALID_NETWORK_RESPONSE
          | None => parsed ← ParseSize value; content_length_loop headers (Some parsed)
          end
  end.
Definition ReadContentLength (response : HttpResponse) : Result (option Z) :=
  content_length_loop (ha_headers (rp_Headers response)) None.

(** ** The head *)

Definition array_of (present : bool) (headers : list HttpHeader) : HeaderArray :=
  if present then HeaderList headers else NullHeaders (zlen headers).

(** The body's framing, once the fields are read. *)
Definition frame_body (options : HttpParseOptions) (response : HttpResponse) : NTSTATUS * HttpResponse * Z :=
  if po_ResponseBodyForbidden options || StatusCodeHasNoBody (rp_StatusCode response)
  then (STATUS_SUCCESS, response <| rp_BodyKind := BodyKind_None |>, 0)
  else
    let '(status, transferInfo) := Parse (rp_Headers response) in
    if negb (NT_SUCCESS status) then (status, response_default, 0)
    else if ti_HasTransferEncoding transferInfo
            && ((rp_MajorVersion response <? 1) || ((rp_MajorVersion response =? 1) && (rp_MinorVersion response <? 1)))
    then (STATUS_INVALID_NETWORK_RESPONSE, response_default, 0)
    else
      match ReadContentLength response with
      | Err status => (status, response_default, 0)
      | Ok contentLength =>
          if ti_HasTransferEncoding transferInfo then
            if bool_decide (contentLength <> None) then (STATUS_INVALID_NETWORK_RESPONSE, response_default, 0)
            else if negb (ti_FinalCodingIsChunked transferInfo) then (STATUS_NOT_SUPPORTED, response_default, 0)
            else (STATUS_SUCCESS, response <| rp_BodyKind := BodyKind_Chunked |>, 0)
          else
            match contentLength with
            | Some contentLength => (STATUS_SUCCESS, response <| rp_BodyKind := BodyKind_ContentLength |>, contentLength)
            | None =>
                (STATUS_SUCCESS,
                 response <| rp_BodyKind := BodyKind_CloseDelimited |> <| rp_BodyEndsOnConnectionClose := true |>, 0)
            end
      end.

(** The status, the response and [*contentLengthOut] (0 where it is not written).
    The array of the options may be written up to a refused line; the response
    does not refer to it then. *)
Definition ParseResponseHeaders (data : span) (options : HttpParseOptions) : NTSTATUS * HttpResponse * Z :=
  if sp_isnull data then (STATUS_INVALID_PARAMETER, response_default, 0)
  else if sp_len data =? 0 then (STATUS_MORE_PROCESSING_REQUIRED, response_default, 0)
  else
    match FindHeaderEnd data with
    | None => (STATUS_MORE_PROCESSING_REQUIRED, response_default, 0)
    | Some headerEnd =>
        if headerEnd >? HttpMaxHeaderBytes then (STATUS_INVALID_NETWORK_RESPONSE, response_default, 0)
        else
          match FindCrlf (sp_bytes data) 0 with
          | None => (STATUS_INVALID_NETWORK_RESPONSE, response_default, 0)
          | Some statusLineEnd =>
              if statusLineEnd +! 2 >? headerEnd then (STATUS_INVALID_NETWORK_RESPONSE, response_default, 0)
              else
                match ParseStatusLine (ztake statusLineEnd (sp_bytes data)) response_default with
                | Err status => (status, response_default, 0)
                | Ok response =>
                    let '(status, headers) := ParseHeaders options (sp_bytes data) headerEnd (statusLineEnd +! 2) in
                    if negb (NT_SUCCESS status) then (status, response_default, 0)
                    else
                      frame_body options
                        (response <| rp_Headers := array_of (po_Headers options) headers |>
                                  <| rp_Trailers := array_of (po_Trailers options) [] |>
                                  <| rp_Body := Null 0 |> <| rp_BytesConsumed := headerEnd |>)
                end
          end
    end.

Definition crlf : list Z := [13; 10].
Definition sample_options : HttpParseOptions := MkOptions true 8 true false.
Definition sample_head : list Z :=
  str "HTTP/1.1 200 OK" ++ crlf ++ str "Server: x" ++ crlf ++ str "Content-Length: 5" ++ crlf ++ crlf.
Example parse_sample :
  ParseResponseHeaders (Bytes (sample_head ++ str "hello")) sample_options
  = (STATUS_SUCCESS,
     MkResponse 1 1 200 (Bytes (str "OK"))
       (HeaderList [MkHeader (text "Server") (text "x"); MkHeader (text "Content-Length") (text "5")]) (HeaderList [])
       (Null 0) BodyKind_ContentLength false false false 49, 5).
Proof. vm_compute. reflexivity. Qed.

(** ** Numbers *)

Lemma IsDigit_digit ch : IsDigit ch = digit ch.
Proof. unfold IsDigit, digit. by rewrite Z.geb_leb. Qed.

(** A decimal number, of whatever width. *)
Definition number (ds : list Z) (n : Z) : Prop :=
  ds <> [] /\ Forall (fun ch => digit ch = true) ds /\ decimal_value ds = n.

Lemma zlen_not_0 {A} (l : list A) : l <> [] -> (zlen l =? 0) = false.
Proof. intros H. apply Z.eqb_neq. intros E. by apply H, zlen_0. Qed.

Lemma parse_uint16_loop_spec l p n : 0 <= p <= 0xFFFF ->
  parse_uint16_loop l p = Ok n
  <-> Forall (fun ch => digit ch = true) l /\ foldl (fun n ch => 10 * n + (ch - 48)) p l = n /\ n <= 0xFFFF.
Proof.
  revert p. induction l as [|ch l IH]; intros p Hp; cbn [parse_uint16_loop foldl].
  { split; [intros [= <-]; split_and!; (done || lia)|by intros (_ & -> & _)]. }
  rewrite IsDigit_digit, Forall_cons. destruct (digit ch) eqn:Ec; cbn [negb]; [|split; [done|by intros ([? _] & _)]].
  assert (Hc : 48 <= ch <= 57) by (unfold digit in Ec; apply andb_true_iff in Ec as [H1 H2]; apply Z.leb_le in H1, H2; lia).
  rewrite (u32_id (p * 10)), (u32_id (p * 10 + (ch - 48))) by lia. replace (p * 10 + (ch - 48)) with (10 * p + (ch - 48)) by lia.
  destruct (Z.gtb_spec (10 * p + (ch - 48)) 0xFFFF).
  - split; [done|]. intros ([_ Hl] & <- & Hn). pose proof (foldl_decimal l (10 * p + (ch - 48)) ltac:(lia) Hl). lia.
  - rewrite IH by lia. split; [intros (? & ? & ?); by split_and!|by intros ([_ ?] & ? & ?)].
Qed.
Lemma ParseUInt16_spec l n : ParseUInt16 (Bytes l) = Ok n <-> number l n /\ n <= 0xFFFF.
Proof.
  unfold ParseUInt16, number. cbn [sp_isnull sp_len sp_bytes orb]. destruct l as [|ch l]; [split; [done|by intros ((? & _) & _)]|].
  rewrite zlen_not_0 by done. rewrite parse_uint16_loop_spec by lia. unfold decimal_value.
  split; [intros (? & ? & ?); by split_and!|by intros ((_ & ? & ?) & ?)].
Qed.

Lemma parse_size_loop_unsigned l p n : parse_size_loop l p = Ok n <-> parse_unsigned_loop l p = Some (n, []).
Proof.
  revert p. induction l as [|ch l IH]; intros p; cbn [parse_size_loop parse_unsigned_loop]; [split; by intros [= ->]|].
  assert (Hd : negb (IsDigit ch) = (ch <? 48) || (ch >? 57)).
  { unfold IsDigit. by rewrite negb_andb, Z.geb_leb, Z.gtb_ltb, !Z.ltb_antisym. }
  rewrite Hd. destruct ((ch <? 48) || (ch >? 57)); [done|]. cbv zeta. case_if; [done|]. apply IH.
Qed.
Lemma ParseSize_spec l n : ParseSize (Bytes l) = Ok n <-> decimal l n.
Proof.
  unfold ParseSize, decimal. cbn [sp_isnull sp_len sp_bytes orb]. destruct l as [|ch l]; [split; [done|by intros (? & _)]|].
  rewrite zlen_not_0 by done. rewrite parse_size_loop_unsigned, parse_unsigned_loop_spec by lia. split.
  - intros (ds & E & Hd & _ & Hv & Hb). rewrite app_nil_r in E. subst ds. by split_and!.
  - intros (_ & Hd & Hv & Hb). exists (ch :: l). rewrite app_nil_r. by split_and!.
Qed.

(** ** The status line: the grammar *)

Inductive reason_text : list Z -> Text -> Prop :=
  | reason_absent : reason_text [] (Null 0)
  | reason_phrase r : reason_text (32 :: r) (Bytes r).
(** "HTTP/1." minor, spaces, a code of three digits, and perhaps a space and a
    reason phrase. *)
Definition status_line (line : list Z) (minor code : Z) (reason : Text) : Prop :=
  exists major_ds minor_ds spaces code_ds tail,
    line = str "HTTP/" ++ major_ds ++ 46 :: minor_ds ++ spaces ++ code_ds ++ tail
    /\ number major_ds 1 /\ number minor_ds minor /\ minor <= 1
    /\ spaces <> [] /\ Forall (fun ch => is_space ch = true) spaces
    /\ number code_ds code /\ length code_ds = 3%nat /\ 100 <= code <= 599 /\ reason_text tail reason.

Definition status_response (minor code : Z) (reason : Text) (r : HttpResponse) : HttpResponse :=
  r <| rp_MajorVersion := 1 |> <| rp_MinorVersion := minor |> <| rp_StatusCode := code |> <| rp_ReasonPhrase := reason |>.

Lemma code_digits c0 c1 c2 : number [c0; c1; c2] (100 * (c0 - 48) + 10 * (c1 - 48) + (c2 - 48))
  <-> IsDigit c0 = true /\ IsDigit c1 = true /\ IsDigit c2 = true.
Proof.
  unfold number. rewrite !Forall_cons, !IsDigit_digit. split; [by intros (_ & (? & ? & ? & _) & _)|].
  intros (? & ? & ?). split_and!; try done. unfold decimal_value. cbn [foldl]. lia.
Qed.

Lemma status_code_spec rest r r' :
  status_code rest r = Ok r' <->
  exists spaces code_ds tail code reason,
    rest = spaces ++ code_ds ++ tail /\ Forall (fun ch => is_space ch = true) spaces
    /\ number code_ds code /\ length code_ds = 3%nat /\ 100 <= code <= 599 /\ reason_text tail reason
    /\ r' = r <| rp_StatusCode := code |> <| rp_ReasonPhrase := reason |>.
Proof.
  unfold status_code. split.
  - destruct (skip_spec is_space rest) as (spaces & E & Hs). destruct (skip is_space rest) as [|c0 [|c1 [|c2 tail]]]; try done.
    destruct (IsDigit c0) eqn:E0; [|done]. destruct (IsDigit c1) eqn:E1; [|done]. destruct (IsDigit c2) eqn:E2; [|done]. cbn [negb orb].
    destruct (ParseUInt16 (Bytes [c0; c1; c2])) as [code|] eqn:Ep; [|done]. rewrite bind_Ok_l. apply ParseUInt16_spec in Ep as [Hn _].
    destruct ((code <? 100) || (code >? 599)) eqn:Er; [done|]. apply orb_false_iff in Er as [Er1 Er2]. rewrite Z.gtb_ltb in Er2. apply Z.ltb_ge in Er1, Er2.
    assert (Hex : forall reason, reason_text tail reason -> exists spaces code_ds tail code' reason',
      rest = spaces ++ code_ds ++ tail /\ Forall (fun ch => is_space ch = true) spaces /\ number code_ds code' /\ length code_ds = 3%nat
      /\ 100 <= code' <= 599 /\ reason_text tail reason'
      /\ r <| rp_StatusCode := code |> <| rp_ReasonPhrase := reason |> = r <| rp_StatusCode := code' |> <| rp_ReasonPhrase := reason' |>).
    { intros reason Hr. exists spaces, [c0; c1; c2], tail, code, reason. by split_and!. }
    destruct tail as [|ch tail]; [intros [= <-]; apply Hex; constructor|]. destruct (Z.eqb_spec ch 32) as [-> |]; [|done]. cbn [negb].
    intros [= <-]. apply Hex. constructor.
  - intros (spaces & ds & tail & code & reason & -> & Hs & Hn & Hl & Hc & Hr & ->).
    destruct ds as [|c0 [|c1 [|c2 [|c3 ds]]]]; try done. cbn [app].
    assert (Hd : IsDigit c0 = true /\ IsDigit c1 = true /\ IsDigit c2 = true).
    { destruct Hn as (_ & Hd & _). rewrite !Forall_cons in Hd. rewrite !IsDigit_digit. by destruct Hd as (? & ? & ? & _). }
    rewrite skip_app; [|done|]; [|destruct Hd as [Hd _]; unfold is_space; apply Z.eqb_neq; intros ->; by vm_compute in Hd].
    destruct Hd as (-> & -> & ->). cbn [negb orb].
    rewrite (proj2 (ParseUInt16_spec [c0; c1; c2] code)) by (split; [done|lia]). rewrite bind_Ok_l.
    rewrite Z.gtb_ltb, !(proj2 (Z.ltb_ge _ _)) by lia. cbn [orb]. by destruct Hr.
Qed.

Lemma StartsWith_spec l prefix : StartsWith (Bytes l) (Bytes prefix) = true <-> exists rest, l = prefix ++ rest.
Proof.
  unfold StartsWith. cbn [sp_isnull sp_len sp_bytes orb]. split.
  - case_if; [done|]. destruct (starts_with prefix l) as [rest|] eqn:E; [|done]. intros _. exists rest. by apply starts_with_spec.
  - intros (rest & ->). rewrite zlen_app. pose proof (zlen_nonneg rest). rewrite (proj2 (Z.ltb_ge _ _)) by lia.
    by rewrite (proj2 (starts_with_spec prefix (prefix ++ rest) rest) eq_refl).
Qed.
Lemma digits_IsDigit l : Forall (fun ch => digit ch = true) l <-> Forall (fun ch => IsDigit ch = true) l.
Proof. by setoid_rewrite IsDigit_digit. Qed.
Lemma number_scan ds n c rest : number ds n -> IsDigit c = false -> scan IsDigit (ds ++ c :: rest) = (ds, c :: rest).
Proof. intros (_ & Hd & _) Hc. apply scan_app; [by apply digits_IsDigit|done]. Qed.

Lemma ParseStatusLine_spec line r r' :
  ParseStatusLine line r = Ok r'
  <-> exists minor code reason, status_line line minor code reason /\ r' = status_response minor code reason r.
Proof.
  unfold ParseStatusLine, status_line. change (text "HTTP/") with (Bytes (str "HTTP/")). split.
  - destruct (StartsWith _ _) eqn:Es; [|done]. cbn [negb]. apply StartsWith_spec in Es as (rest & ->).
    change 5 with (zlen (str "HTTP/")). rewrite zdrop_app_len.
    destruct (scan_spec IsDigit rest) as (major & b & -> & -> & Hmajor & _). destruct b as [|c b]; [done|].
    destruct (Z.eqb_spec (zlen major) 0) as [|Hne]; [done|]. destruct (Z.eqb_spec c 46) as [-> |]; [|done]. cbn [negb orb].
    destruct (ParseUInt16 (Bytes major)) as [M|] eqn:EM; [|done]. rewrite bind_Ok_l. apply ParseUInt16_spec in EM as [HM _].
    destruct (scan_spec IsDigit b) as (minor & b' & -> & -> & Hminor & _). destruct b' as [|c b']; [done|].
    destruct (Z.eqb_spec (zlen minor) 0) as [|Hne']; [done|]. destruct (Z.eqb_spec c 32) as [-> |]; [|done]. cbn [negb orb].
    destruct (ParseUInt16 (Bytes minor)) as [m|] eqn:Em; [|done]. rewrite bind_Ok_l. apply ParseUInt16_spec in Em as [Hm _].
    destruct (Z.eqb_spec M 1) as [-> |]; [|done]. destruct (Z.gtb_spec m 1); [done|]. cbn [negb orb].
    intros (spaces & ds & tail & code & reason & E & Hs & Hn & Hl & Hc & Hr & ->)%status_code_spec.
    exists m, code, reason. split; [|done]. exists major, minor, spaces, ds, tail. rewrite E. split_and!; try (done || lia).
    intros ->. destruct ds as [|c0 ds]; [done|]. cbn [app] in E. injection E as <- _. destruct Hn as (_ & Hd & _). by apply Forall_inv in Hd.
  - intros (minor & code & reason & (major_ds & minor_ds & spaces & ds & tail & -> & HM & Hm & Hle & Hne & Hs & Hn & Hl & Hc & Hr) & ->).
    rewrite (proj2 (StartsWith_spec _ _)) by (by eexists). cbn [negb]. change 5 with (zlen (str "HTTP/")). rewrite zdrop_app_len.
    rewrite (number_scan major_ds 1) by done. rewrite (zlen_not_0 major_ds) by (by destruct HM). cbn [negb orb Z.eqb Pos.eqb].
    rewrite (proj2 (ParseUInt16_spec major_ds 1)) by (split; [done|lia]). rewrite bind_Ok_l.
    destruct spaces as [|sp spaces]; [done|]. pose proof (Forall_inv Hs) as Hsp. cbn beta in Hsp. apply Z.eqb_eq in Hsp. subst sp.
    change ((32 :: spaces) ++ ds ++ tail) with (32 :: spaces ++ ds ++ tail). rewrite (number_scan minor_ds minor) by done.
    rewrite (zlen_not_0 minor_ds) by (by destruct Hm). cbn [negb orb Z.eqb Pos.eqb].
    rewrite (proj2 (ParseUInt16_spec minor_ds minor)) by (split; [done|lia]). rewrite bind_Ok_l. cbn [negb Z.eqb Pos.eqb orb].
    rewrite Z.gtb_ltb, (proj2 (Z.ltb_ge _ _)) by lia.
    apply status_code_spec. exists (32 :: spaces), ds, tail, code, reason. destruct Hc. by split_and!.
Qed.

(** ** The fields: the grammar *)

(** A name, a colon, and a value with white space around it. *)
Definition field_line (line : list Z) (h : HttpHeader) : Prop :=
  exists name v, line = name ++ 58 :: v /\ token name /\ Forall (fun ch => value_char ch = true) (trim v)
  /\ h = MkHeader (Bytes name) (Bytes (trim v)).
Inductive field_lines : list Z -> list HttpHeader -> Prop :=
  | fields_end : field_lines [] []
  | fields_line line h rest fields :
      field_line line h -> zlen line <= HttpMaxHeaderLineBytes -> field_lines rest fields ->
      field_lines (line ++ 13 :: 10 :: rest) (h :: fields).

(** A head: its line and its fields, up to the first empty line. *)
Definition response_head (head : list Z) (minor code : Z) (reason : Text) (fields : list HttpHeader) : Prop :=
  exists line block, head = line ++ 13 :: 10 :: block ++ [13; 10]
  /\ find_crlf line = None /\ status_line line minor code reason /\ field_lines block fields
  /\ zlen head <= HttpMaxHeaderBytes.

(** ** The end of the head *)

Definition at_end (l : list Z) : bool :=
  match l with a :: b :: c :: d :: _ => (a =? 13) && (b =? 10) && (c =? 13) && (d =? 10) | _ => false end.
Lemma find_end_cons a l : find_end (a :: l) = if at_end (a :: l) then Some 4 else option_map (Z.add 1) (find_end l).
Proof. by destruct l as [|b [|c [|d l]]]. Qed.

Lemma find_end_line w r : find_crlf w = None ->
  find_end (w ++ 13 :: 10 :: r) = option_map (Z.add (zlen w)) (find_end (13 :: 10 :: r)).
Proof.
  induction w as [|a w IH]; intros Hw.
  { cbn [app]. change (zlen []) with 0. by destruct (find_end (13 :: 10 :: r)). }
  rewrite find_crlf_cons in Hw. cbn [app]. rewrite find_end_cons. destruct w as [|b w].
  - cbn [app] in *. replace (at_end (a :: 13 :: 10 :: r)) with false by (destruct r; cbn; by rewrite ?andb_false_r). done.
  - destruct ((a =? 13) && (b =? 10)) eqn:E; [done|]. destruct (find_crlf (b :: w)) eqn:E'; [done|].
    replace (at_end (a :: (b :: w) ++ 13 :: 10 :: r)) with false.
    + rewrite IH by done. destruct (find_end (13 :: 10 :: r)); [|done]. cbn [option_map]. rewrite (zlen_cons a). f_equal. lia.
    + cbn [app]. destruct (w ++ 13 :: 10 :: r) as [|c [|d l]]; try done. cbn [at_end]. by rewrite E.
Qed.
Lemma find_end_next w r : w <> [] -> find_crlf w = None ->
  find_end (13 :: 10 :: w ++ 13 :: 10 :: r) = option_map (Z.add (2 + zlen w)) (find_end (13 :: 10 :: r)).
Proof.
  intros Hne Hw. rewrite (find_end_cons 13 (10 :: w ++ 13 :: 10 :: r)), (find_end_cons 10 (w ++ 13 :: 10 :: r)), find_end_line by done.
  replace (at_end (13 :: 10 :: w ++ 13 :: 10 :: r)) with false.
  - replace (at_end (10 :: w ++ 13 :: 10 :: r)) with false by (by destruct (w ++ 13 :: 10 :: r) as [|? [|? [|? ?]]]).
    destruct (find_end (13 :: 10 :: r)); [|done]. cbn [option_map]. f_equal. lia.
  - destruct w as [|a [|b w]]; [done| |]; cbn [app at_end]; [by rewrite andb_false_r|].
    rewrite find_crlf_cons in Hw. destruct ((a =? 13) && (b =? 10)) eqn:E; [done|]. cbn [Z.eqb Pos.eqb andb]. by rewrite E.
Qed.
Lemma find_end_Some l n : find_end l = Some n -> exists h rest, l = h ++ 13 :: 10 :: 13 :: 10 :: rest /\ zlen h + 4 = n.
Proof.
  revert n. induction l as [|a l IH]; intros n; [done|]. rewrite find_end_cons. destruct (at_end (a :: l)) eqn:E.
  - intros [= <-]. destruct l as [|b [|c [|d l]]]; try done. cbn [at_end] in E. repeat (apply andb_true_iff in E as [E ?]).
    exists [], l. split; [|done]. cbn [app]. repeat match goal with H : (_ =? _) = true |- _ => apply Z.eqb_eq in H; subst end. done.
  - destruct (find_end l) as [m|] eqn:Em; [|done]. intros [= <-]. destruct (IH m eq_refl) as (h & rest & -> & Hm).
    exists (a :: h), rest. split; [done|]. rewrite zlen_cons. lia.
Qed.

(** ** One field, then all *)

Lemma field_line_no_cr w h : field_line w h -> no_cr w.
Proof. intros (name & v & -> & Hn & Hv & _). by apply field_no_cr. Qed.
Lemma field_line_nonempty w h : field_line w h -> w <> [].
Proof. intros (name & v & -> & _). by destruct name. Qed.

(** What one turn does with a line. *)
Definition read_field (w : list Z) : option HttpHeader :=
  if is_blank (zget w 0) then None
  else
    match cut 58 w with
    | (_, []) => None
    | (name, _ :: value) =>
        if (zlen name =? 0) || negb (IsValidHeaderName (Bytes name)) || negb (IsValidHeaderValue (Bytes (trim value))) then None
        else Some (MkHeader (Bytes name) (Bytes (trim value)))
    end.
Lemma read_field_spec w h : w <> [] -> read_field w = Some h <-> field_line w h.
Proof.
  intros Hne. unfold read_field, field_line. split.
  - destruct (is_blank _); [done|]. pose proof (cut_app 58 w) as E. pose proof (cut_head 58 w) as Eh. destruct (cut 58 w) as [name [|c v]]; [done|].
    cbn [fst snd] in *. subst c. destruct (zlen name =? 0); [done|]. cbn [orb].
    destruct (IsValidHeaderName (Bytes name)) eqn:E1; [|done]. destruct (IsValidHeaderValue (Bytes (trim v))) eqn:E2; [|done]. cbn [negb orb].
    intros [= <-]. exists name, v. split_and!; [done|by apply IsValidHeaderName_token|by apply forallb_Forall|done].
  - intros (name & v & -> & Hn & Hv & ->). pose proof (token_head name (58 :: v) Hn) as Hh.
    rewrite cut_app_at by (apply tchar_no_colon, Hn). rewrite token_nonempty, (proj2 (IsValidHeaderName_token name) Hn) by done.
    replace (IsValidHeaderValue (Bytes (trim v))) with true by (symmetry; by apply (proj2 (forallb_Forall value_char (trim v)))). cbn [negb orb].
    destruct (name ++ 58 :: v); [done|]. rewrite zget_0. by rewrite Hh.
Qed.

Definition room (options : HttpParseOptions) (n : Z) : bool :=
  negb ((n >=? HttpMaxHeaders) || (n >=? po_HeaderCapacity options) || negb (po_Headers options)).

Section Loop.
Context (options : HttpParseOptions) (data : list Z) (headerEnd : Z).
Hypothesis Hdata : zlen data < 2 ^ 60.

(** A turn succeeds only on to the next line, with the field stored. *)
Lemma headers_step fuel before w rest headers headers' :
  data = before ++ w ++ 13 :: 10 :: rest -> find_crlf w = None -> w <> [] -> zlen before + zlen w + 2 < headerEnd < 2 ^ 60 ->
  headers_loop options data headerEnd (S fuel) (zlen before) headers = (STATUS_SUCCESS, headers')
  <-> exists h, field_line w h /\ zlen w <= HttpMaxHeaderLineBytes /\ room options (zlen headers) = true
      /\ headers_loop options data headerEnd fuel (zlen (before ++ w ++ [13; 10])) (headers ++ [h]) = (STATUS_SUCCESS, headers').
Proof using Hdata.
  intros E Hw Hne [H1 H2]. pose proof (zlen_nonneg before). pose proof (zlen_nonneg w). assert (Hz : zlen w <> 0) by (intros ?; by apply Hne, zlen_0).
  cbn [headers_loop]. rewrite (u64_id (headerEnd - 2)), (proj2 (Z.ltb_lt _ _)) by lia. cbn [negb].
  rewrite E at 1. rewrite FindCrlf_at, find_crlf_app by done. cbn [option_map].
  rewrite (Z.gtb_ltb (zlen before + zlen w) headerEnd), (proj2 (Z.ltb_ge _ _)) by lia.
  replace (zlen before + zlen w - zlen before) with (zlen w) by lia. rewrite (u64_id (zlen w)), (proj2 (Z.eqb_neq _ (zlen before))) by lia.
  replace (zsub data (zlen before) (zlen w)) with w by (rewrite E; symmetry; apply zsub_at).
  replace (zget data (zlen before)) with (zget w 0).
  2:{ rewrite E, zget_app_r, zget_app_l by lia. by rewrite Z.sub_diag. }
  rewrite (u64_id (zlen before + zlen w + 2)) by lia.
  replace (zlen (before ++ w ++ [13; 10])) with (zlen before + zlen w + 2) by (rewrite !zlen_app; change (zlen [13; 10]) with 2; lia).
  setoid_rewrite <- (read_field_spec w _ Hne). unfold read_field, room.
  destruct (Z.gtb_spec (zlen w) HttpMaxHeaderLineBytes) as [|Hlen]; [split; [done|intros (h & _ & ? & _); lia]|].
  destruct (is_blank (zget w 0)); [split; [done|by intros (h & ? & _)]|].
  destruct (cut 58 w) as [name [|c v]]; [split; [done|by intros (h & ? & _)]|]. cbn [TrimOptionalWhitespace].
  destruct (zlen name =? 0); [split; [done|by intros (h & ? & _)]|]. cbn [orb].
  destruct (_ || negb (po_Headers options)); [split; [done|by intros (h & _ & _ & ? & _)]|]. cbn [negb].
  destruct (negb (IsValidHeaderName _) || negb (IsValidHeaderValue _)); [split; [done|by intros (h & ? & _)]|]. split.
  - intros Hl. exists (MkHeader (Bytes name) (Bytes (trim v))). by split_and!.
  - by intros (h & [= <-] & _ & _ & Hl).
Qed.
End Loop.

(** The fields after [n] others are within the limit and the array. *)
Definition fields_fit (options : HttpParseOptions) (n : Z) (fields : list HttpHeader) : Prop :=
  fields = [] \/ po_Headers options = true /\ n + zlen fields <= HttpMaxHeaders /\ n + zlen fields <= po_HeaderCapacity options.
Lemma room_spec options n : room options n = true <-> po_Headers options = true /\ n < HttpMaxHeaders /\ n < po_HeaderCapacity options.
Proof.
  unfold room. rewrite !Z.geb_leb, negb_true_iff, !orb_false_iff, negb_false_iff, !Z.leb_gt. by split; [intros [[? ?] ?]|intros (? & ? & ?)].
Qed.
Lemma fields_fit_cons options n h fields :
  fields_fit options n (h :: fields) <-> room options n = true /\ fields_fit options (n + 1) fields.
Proof.
  unfold fields_fit. rewrite room_spec, zlen_cons. pose proof (zlen_nonneg fields). split.
  - intros [?|(? & ? & ?)]; [done|]. split_and!; try (done || lia). right. split_and!; (done || lia).
  - intros ((? & ? & ?) & Hf). right. split_and!; try done; (destruct Hf as [-> |(_ & ? & ?)]; [change (zlen []) with 0|]; lia).
Qed.

Definition crlf_ended (block : list Z) : Prop := block = [] \/ exists b, block = b ++ [13; 10].
Lemma find_crlf_ended b : find_crlf (b ++ [13; 10]) <> None.
Proof.
  destruct (find_crlf b) as [n|] eqn:E.
  - apply find_crlf_Some in E as (w & rest & -> & _ & Hw). rewrite <- app_assoc. cbn [app]. by rewrite find_crlf_app.
  - by rewrite find_crlf_app.
Qed.
Lemma suffix_ended a b rest : a ++ 13 :: 10 :: rest = b ++ [13; 10] -> crlf_ended rest.
Proof.
  intros E. destruct rest as [|x rest _] using rev_ind; [by left|]. right. destruct rest as [|y rest _] using rev_ind; cbn [app] in E.
  - change [13; 10; x] with ([13] ++ [10; x]) in E. rewrite (app_assoc a) in E. apply app_inj_2 in E as [_ E]; [|done]. by injection E as ? ?.
  - exists rest. rewrite <- app_assoc in *. cbn [app] in *. change (13 :: 10 :: rest ++ [y; x]) with ((13 :: 10 :: rest) ++ [y; x]) in E.
    rewrite app_assoc in E. apply app_inj_2 in E as [_ E]; [|done]. by rewrite E.
Qed.
Lemma crlf_ended_line block : crlf_ended block -> block <> [] ->
  exists w rest, block = w ++ 13 :: 10 :: rest /\ find_crlf w = None /\ crlf_ended rest.
Proof.
  intros [?|(b & ->)] Hne; [done|]. destruct (find_crlf (b ++ [13; 10])) as [n|] eqn:E; [|by apply find_crlf_ended in E].
  apply find_crlf_Some in E as (w & rest & E & _ & Hw). exists w, rest. split_and!; [done|done|by eapply suffix_ended].
Qed.

Lemma field_lines_ended block fields : field_lines block fields -> crlf_ended block.
Proof.
  induction 1 as [|w h rest fields _ _ _ IH]; [by left|]. right. destruct IH as [-> |(b & ->)]; [by exists w|].
  exists (w ++ 13 :: 10 :: b). by rewrite <- app_assoc.
Qed.
(** Nothing ends the head before its fields do. *)
Lemma field_lines_end block fields rest : field_lines block fields ->
  find_end (13 :: 10 :: block ++ 13 :: 10 :: rest) = Some (zlen block + 4).
Proof.
  induction 1 as [|w h block fields Hw _ _ IH]; [done|].
  rewrite <- app_assoc. cbn [app]. rewrite find_end_next by (eapply field_line_nonempty || eapply find_crlf_no_cr, field_line_no_cr; done).
  rewrite IH. cbn [option_map]. rewrite zlen_app, !zlen_cons. f_equal. lia.
Qed.

Section Block.
Context (options : HttpParseOptions) (data : list Z) (headerEnd : Z).
Hypothesis Hdata : zlen data < 2 ^ 60.

Lemma headers_loop_spec fuel before block rest headers headers' :
  data = before ++ block ++ 13 :: 10 :: rest -> headerEnd = zlen before + zlen block + 2 -> (length block < fuel)%nat ->
  crlf_ended block -> find_end (13 :: 10 :: block ++ 13 :: 10 :: rest) = Some (zlen block + 4) ->
  headers_loop options data headerEnd fuel (zlen before) headers = (STATUS_SUCCESS, headers')
  <-> exists fields, field_lines block fields /\ fields_fit options (zlen headers) fields /\ headers' = headers ++ fields.
Proof using Hdata.
  revert before block headers. induction fuel as [|fuel IH]; intros before block headers E Eh Hf Hb Hend; [lia|].
  assert (Hl : headerEnd < 2 ^ 60).
  { rewrite E, !zlen_app, !zlen_cons in Hdata. pose proof (zlen_nonneg rest). lia. }
  destruct (decide (block = [])) as [-> |Hne].
  - change (zlen []) with 0 in Eh. cbn [headers_loop]. pose proof (zlen_nonneg before).
    rewrite (u64_id (headerEnd - 2)), (proj2 (Z.ltb_ge _ _)) by lia. cbn [negb]. split.
    + intros [= <-]. exists []. rewrite app_nil_r. split_and!; [constructor|by left|done].
    + intros (fields & Hl' & _ & ->). inversion Hl' as [|w h r f _ _ _ E0]; [by rewrite app_nil_r|]. by apply app_eq_nil in E0 as [_ ?].
  - destruct (crlf_ended_line block Hb Hne) as (w & block' & -> & Hw & Hb'). rewrite <- app_assoc in *. cbn [app] in *.
    assert (Hwne : w <> []).
    { intros ->. assert (F : find_end (13 :: 10 :: [] ++ 13 :: 10 :: block' ++ 13 :: 10 :: rest) = Some 4) by done. rewrite F in Hend.
      assert (Hn : 4 = zlen ([] ++ 13 :: 10 :: block') + 4) by congruence.
      rewrite zlen_app, !zlen_cons, zlen_nil in Hn. pose proof (zlen_nonneg block'). lia. }
    rewrite zlen_app, !zlen_cons in *. pose proof (zlen_nonneg block'). rewrite find_end_next in Hend by done.
    rewrite (headers_step options data headerEnd Hdata fuel before w (block' ++ 13 :: 10 :: rest)) by (done || lia).
    assert (IH' : forall h, headers_loop options data headerEnd fuel (zlen (before ++ w ++ [13; 10])) (headers ++ [h]) = (STATUS_SUCCESS, headers')
      <-> exists fields, field_lines block' fields /\ fields_fit options (zlen (headers ++ [h])) fields /\ headers' = (headers ++ [h]) ++ fields).
    { intros h. apply (IH (before ++ w ++ [13; 10]) block').
      - by rewrite E, <- !app_assoc.
      - rewrite Eh, !zlen_app. change (zlen [13; 10]) with 2. lia.
      - rewrite length_app in Hf. cbn [length] in Hf. lia.
      - done.
      - destruct (find_end (13 :: 10 :: block' ++ 13 :: 10 :: rest)) as [n|]; [|done]. injection Hend as Hend. f_equal. lia. }
    split.
    + intros (h & Hh & Hlen & Hr & (fields & Hfl & Hfit & ->)%IH'). exists (h :: fields). rewrite zlen_app in Hfit. change (zlen [h]) with 1 in Hfit.
      split_and!; [by constructor|by apply fields_fit_cons|by rewrite <- app_assoc].
    + intros (fields & Hfl & Hfit & ->). inversion Hfl as [E0|w' h block'' fields' Hh Hlen Hfl' E0]; [by destruct w|]. subst fields.
      pose proof (find_crlf_app w block' Hw) as F1. rewrite <- E0, find_crlf_app in F1 by (by eapply find_crlf_no_cr, field_line_no_cr).
      injection F1 as F1. apply app_inj_1 in E0 as [-> E0]; [|unfold zlen in F1; lia]. injection E0 as ->.
      apply fields_fit_cons in Hfit as [Hr Hfit]. exists h. split_and!; try done. apply IH'. exists fields'.
      rewrite zlen_app. change (zlen [h]) with 1. split_and!; [done|done|by rewrite <- app_assoc].
Qed.
End Block.

(** ** The framing of the body: RFC 9112, section 6.3 *)

Definition no_body_code (code : Z) : Prop := 100 <= code <= 199 \/ code = 204 \/ code = 205 \/ code = 304.
Definition content_lengths : list HttpHeader -> list (list Z) := field_values (str "Content-Length").

(** How the body is framed, and the length announced for it. *)
Inductive body_framing (forbidden : bool) (minor code : Z) (fields : list HttpHeader) : HttpBodyKind -> Z -> Prop :=
  | framing_none : forbidden = true \/ no_body_code code -> body_framing forbidden minor code fields BodyKind_None 0
  | framing_chunked codings :
      forbidden = false -> ~ no_body_code code -> transfer_encodings fields <> [] -> transfer_codings fields codings ->
      last codings = Some Coding_Chunked -> 1 <= minor -> content_lengths fields = [] ->
      body_framing forbidden minor code fields BodyKind_Chunked 0
  | framing_length v n :
      forbidden = false -> ~ no_body_code code -> transfer_encodings fields = [] -> content_lengths fields = [v] ->
      decimal (trim v) n -> body_framing forbidden minor code fields BodyKind_ContentLength n
  | framing_close :
      forbidden = false -> ~ no_body_code code -> transfer_encodings fields = [] -> content_lengths fields = [] ->
      body_framing forbidden minor code fields BodyKind_CloseDelimited 0.

Lemma StatusCodeHasNoBody_spec code : StatusCodeHasNoBody code = true <-> no_body_code code.
Proof.
  unfold StatusCodeHasNoBody, no_body_code. rewrite Z.geb_leb, !orb_true_iff, andb_true_iff, !Z.eqb_eq, !Z.leb_le. tauto.
Qed.

Lemma length_fields_cons h fields :
  content_lengths (h :: fields)
  = if TextEqualsIgnoreCase (hd_Name h) (text "Content-Length") then sp_bytes (hd_Value h) :: content_lengths fields
    else content_lengths fields.
Proof.
  unfold content_lengths, field_values. change (Bytes (str "Content-Length")) with (text "Content-Length"). rewrite filter_cons.
  by destruct (TextEqualsIgnoreCase (hd_Name h) (text "Content-Length")).
Qed.
Lemma decimal_no_comma l n : decimal l n -> existsb (fun ch => ch =? 44) l = false.
Proof.
  intros (_ & Hd & _). induction Hd as [|ch l Hc _ IH]; [done|]. cbn [existsb]. rewrite IH, orb_false_r.
  apply Z.eqb_neq. intros ->. by vm_compute in Hc.
Qed.

Lemma content_length_loop_again fields n found :
  content_length_loop fields (Some n) = Ok found <-> content_lengths fields = [] /\ found = Some n.
Proof.
  induction fields as [|h fields IH]; cbn [content_length_loop]; [split; [by intros [= <-]|by intros [_ ->]]|].
  rewrite length_fields_cons. destruct (TextEqualsIgnoreCase _ _); cbn [negb]; [|exact IH].
  destruct (_ || _); by split; [|intros [? _]].
Qed.
(** One length, or none. *)
Definition announced (lengths : list (list Z)) (found : option Z) : Prop :=
  match lengths with
  | [] => found = None
  | [v] => exists n, decimal (trim v) n /\ found = Some n
  | _ => False
  end.
Lemma content_length_loop_spec fields found :
  content_length_loop fields None = Ok found <-> announced (content_lengths fields) found.
Proof.
  induction fields as [|h fields IH]; cbn [content_length_loop]; [split; [by intros [= <-]|by intros ->]|].
  rewrite length_fields_cons. destruct (TextEqualsIgnoreCase _ _); cbn [negb]; [|exact IH].
  destruct (hd_Value h) as [len|v]; cbn [TrimOptionalWhitespace sp_len sp_bytes].
  - unfold ContainsChar, ParseSize. cbn [sp_isnull]. rewrite orb_false_r. cbn [orb].
    transitivity False; [by destruct (len =? 0)|]. split; [done|]. unfold announced. destruct (content_lengths fields); [|done].
    intros (n & (Hne & _) & _). by apply Hne.
  - unfold ContainsChar. cbn [sp_isnull sp_bytes]. unfold announced. split.
    + destruct (_ || _); [done|]. destruct (ParseSize (Bytes (trim v))) as [n|] eqn:Ep; [|done]. rewrite bind_Ok_l.
      intros [-> ->]%content_length_loop_again. exists n. split; [by apply ParseSize_spec|done].
    + destruct (content_lengths fields) as [|v' l] eqn:El; [|done]. intros (n & Hn & ->).
      rewrite (decimal_no_comma _ _ Hn), (zlen_not_0 (trim v)) by (by destruct Hn). cbn [orb].
      rewrite (proj2 (ParseSize_spec _ _) Hn), bind_Ok_l. by apply content_length_loop_again.
Qed.

Lemma parse_size_status l status : ParseSize l = Err status -> status <> STATUS_SUCCESS.
Proof.
  unfold ParseSize. case_if; [by intros [= <-]|]. generalize 0. induction (sp_bytes l) as [|ch r IH]; intros p; [done|].
  cbn [parse_size_loop]. case_if; [by intros [= <-]|]. cbv zeta. case_if; [by intros [= <-]|]. apply IH.
Qed.
Lemma content_length_status fields found status : content_length_loop fields found = Err status -> status <> STATUS_SUCCESS.
Proof.
  revert found. induction fields as [|h fields IH]; intros found; [done|]. cbn [content_length_loop]. case_if; [apply IH|].
  cbv zeta. case_if; [by intros [= <-]|]. destruct found; [by intros [= <-]|].
  destruct (ParseSize _) as [n|s] eqn:Ep; [rewrite bind_Ok_l; apply IH|rewrite bind_Err_l; intros [= <-]; by apply parse_size_status in Ep].
Qed.

(** The response with its framing. *)
Definition framed (kind : HttpBodyKind) (r : HttpResponse) : HttpResponse :=
  match kind with
  | BodyKind_CloseDelimited => r <| rp_BodyKind := kind |> <| rp_BodyEndsOnConnectionClose := true |>
  | _ => r <| rp_BodyKind := kind |>
  end.
Lemma ha_array present fields : present = true \/ fields = [] ->
  ha_headers (array_of present fields) = fields /\ Parse (array_of present fields) = Parse (HeaderList fields).
Proof. intros [-> | ->]; [done|]. by destruct present. Qed.
Lemma codings_none fields : transfer_encodings fields = [] -> transfer_codings fields [].
Proof. intros E. unfold transfer_codings. rewrite E. split_and!; [constructor|done|cbn; lia]. Qed.
Lemma codings_empty fields codings : transfer_codings fields codings -> codings = [] <-> transfer_encodings fields = [].
Proof.
  intros (Hf & _). split.
  - intros ->. apply Forall2_nil_inv_r in Hf. destruct (transfer_encodings fields) eqn:E; [done|]. by apply (pieces_nonempty (_ :: _)) in Hf.
  - intros E. rewrite E in Hf. by apply Forall2_nil_inv_l in Hf.
Qed.
Lemma codings_unique fields cs cs' : transfer_codings fields cs -> transfer_codings fields cs' -> cs = cs'.
Proof. intros (Hf & _) (Hf' & _). by eapply coding_members_unique. Qed.

(** Which fields a body is framed by, where one is expected. *)
Lemma framing_body forbidden minor code fields kind n : forbidden = false -> ~ no_body_code code ->
  body_framing forbidden minor code fields kind n <->
  exists codings found, transfer_codings fields codings /\ announced (content_lengths fields) found
  /\ (codings <> [] /\ found = None /\ last codings = Some Coding_Chunked /\ 1 <= minor /\ kind = BodyKind_Chunked /\ n = 0
      \/ codings = [] /\ (found = Some n /\ kind = BodyKind_ContentLength \/ found = None /\ n = 0 /\ kind = BodyKind_CloseDelimited)).
Proof.
  intros Hforb Hcode. split.
  - destruct 1 as [[?|?]|codings _ _ Hte Hc Hlast Hm Hcl|v n _ _ Hte Hcl Hd|_ _ Hte Hcl]; [congruence|done| | |].
    + exists codings, None. rewrite Hcl. split_and!; [done|done|left]. split_and!; try done. intros E. by apply Hte, (codings_empty fields codings).
    + exists [], (Some n). rewrite Hcl. split_and!; [by apply codings_none|by exists n|right]. split; [done|by left].
    + exists [], None. rewrite Hcl. split_and!; [by apply codings_none|done|right]. split; [done|by right].
  - intros (codings & found & Hc & Ha & [(Hne & -> & Hlast & Hm & -> & ->)|(-> & [[-> ->]|(-> & -> & ->)])]).
    + apply (framing_chunked _ _ _ _ codings); try done; [by rewrite <- (codings_empty fields codings)|].
      destruct (content_lengths fields) as [|v [|? ?]]; [done| |done]. by destruct Ha as (? & _ & ?).
    + apply (codings_empty fields []) in Hc as Hte. destruct (content_lengths fields) as [|v [|? ?]] eqn:El; [done| |done].
      destruct Ha as (m & Hd & [= <-]). by apply (framing_length _ _ _ _ v); try done; apply Hte.
    + apply (codings_empty fields []) in Hc as Hte. destruct (content_lengths fields) as [|v [|? ?]] eqn:El; [|by destruct Ha as (? & _ & ?)|done].
      by apply framing_close; try done; apply Hte.
Qed.

Lemma frame_body_spec options r r' n present fields :
  rp_Headers r = array_of present fields -> present = true \/ fields = [] -> rp_MajorVersion r = 1 ->
  frame_body options r = (STATUS_SUCCESS, r', n)
  <-> exists kind, body_framing (po_ResponseBodyForbidden options) (rp_MinorVersion r) (rp_StatusCode r) fields kind n
      /\ r' = framed kind r.
Proof.
  intros Hh Hp HM. unfold frame_body, ReadContentLength. destruct (ha_array present fields Hp) as [Eh EP]. rewrite Hh, Eh, EP, HM.
  destruct (po_ResponseBodyForbidden options || StatusCodeHasNoBody (rp_StatusCode r)) eqn:Eno.
  { rewrite orb_true_iff, StatusCodeHasNoBody_spec in Eno. split.
    - intros [= <- <-]. exists BodyKind_None. split; [by apply framing_none|done].
    - intros (kind & Hk & ->). destruct Hk; try (destruct Eno; congruence). done. }
  apply orb_false_iff in Eno as [Ef Ec]. assert (Hc : ~ no_body_code (rp_StatusCode r)) by (rewrite <- StatusCodeHasNoBody_spec; congruence).
  setoid_rewrite (framing_body _ _ _ _ _ _ Ef Hc).
  destruct (Parse (HeaderList fields)) as [status info] eqn:EPa. destruct (NT_SUCCESS status) eqn:Es; cbn [negb].
  2:{ split; [by intros [= -> _]|]. intros (kind & (codings & found & Htc & _) & _).
      pose proof (proj2 (Parse_spec fields (info_of codings)) (ex_intro _ codings (conj Htc eq_refl))) as E. rewrite E in EPa. by injection EPa as <- _. }
  apply NT_SUCCESS_true in Es. subst status. apply Parse_spec in EPa as (codings & Htc & ->).
  assert (Hall : forall cs, transfer_codings fields cs -> cs = codings) by (intros cs Hcs; by eapply codings_unique).
  cbn [info_of ti_HasTransferEncoding ti_FinalCodingIsChunked Z.ltb Z.compare Pos.compare Pos.compare_cont Z.eqb Pos.eqb orb andb].
  destruct (content_length_loop fields None) as [found|status] eqn:El.
  2:{ assert (Hno : forall found, ~ announced (content_lengths fields) found).
      { intros f Hf%content_length_loop_spec. congruence. }
      assert (status <> STATUS_SUCCESS) by (by eapply content_length_status).
      split; [case_if; congruence|]. by intros (kind & (cs & f & _ & Hf%Hno & _) & _). }
  apply content_length_loop_spec in El.
  assert (Hfound : forall f, announced (content_lengths fields) f -> f = found).
  { intros f Hf%content_length_loop_spec. apply content_length_loop_spec in El. congruence. }
  destruct (Z.eqb_spec (zlen codings) 0) as [Ez|Ez]; cbn [negb andb].
  - apply zlen_0 in Ez. subst codings. destruct found as [m|]; (split; [intros [= <- <-]|intros (kind & (cs & f & Hcs%Hall & Hf%Hfound & Hcase) & ->); subst]).
    + exists BodyKind_ContentLength. split; [|done]. exists [], (Some m). split_and!; [done|done|right; split; [done|by left]].
    + destruct Hcase as [(? & _)|(_ & [[[= <-] ->]|(? & _)])]; done.
    + exists BodyKind_CloseDelimited. split; [|done]. exists [], None. split_and!; [done|done|right; split; [done|by right]].
    + destruct Hcase as [(? & _)|(_ & [[? _]|(_ & -> & ->)])]; done.
  - assert (Hne : codings <> []) by (intros ->; done). destruct (Z.ltb_spec (rp_MinorVersion r) 1) as [Hm|Hm].
    { split; [done|]. intros (kind & (cs & f & Hcs%Hall & _ & Hcase) & _). subst cs. destruct Hcase as [(_ & _ & _ & ? & _)|[? _]]; [lia|done]. }
    destruct (decide (found = None)) as [-> |Hfn]; [rewrite bool_decide_eq_false_2 by (intros H; by apply H)|rewrite bool_decide_eq_true_2 by done].
    + destruct (decide (last codings = Some Coding_Chunked)) as [Hl|Hl]; [rewrite bool_decide_eq_true_2 by done|rewrite bool_decide_eq_false_2 by done]; cbn [negb].
      * split; [intros [= <- <-]; exists BodyKind_Chunked; split; [|done]; exists codings, None; split_and!; [done|done|by left]|].
        intros (kind & (cs & f & Hcs%Hall & _ & Hcase) & ->). subst cs. by destruct Hcase as [(_ & _ & _ & _ & -> & ->)|[? _]].
      * split; [done|]. intros (kind & (cs & f & Hcs%Hall & _ & Hcase) & _). subst cs. by destruct Hcase as [(_ & _ & ? & _)|[? _]].
    + split; [done|]. intros (kind & (cs & f & Hcs%Hall & Hf%Hfound & Hcase) & _). subst cs f. by destruct Hcase as [(_ & ? & _)|[? _]].
Qed.

(** ** The whole head *)

Lemma parse_uint16_status l status : ParseUInt16 l = Err status -> status <> STATUS_SUCCESS.
Proof.
  unfold ParseUInt16. case_if; [by intros [= <-]|]. generalize 0. induction (sp_bytes l) as [|ch r IH]; intros p; [done|].
  cbn [parse_uint16_loop]. case_if; [by intros [= <-]|]. cbv zeta. case_if; [by intros [= <-]|]. apply IH.
Qed.
Lemma ParseStatusLine_status line r status : ParseStatusLine line r = Err status -> status <> STATUS_SUCCESS.
Proof.
  unfold ParseStatusLine. case_if; [by intros [= <-]|]. destruct (scan IsDigit _) as [major [|c rest]]; [by intros [= <-]|].
  case_if; [by intros [= <-]|]. destruct (ParseUInt16 (Bytes major)) as [M|s] eqn:EM; [|rewrite bind_Err_l; intros [= <-]; by apply parse_uint16_status in EM].
  rewrite bind_Ok_l. destruct (scan IsDigit rest) as [minor [|c' rest']]; [by intros [= <-]|]. case_if; [by intros [= <-]|].
  destruct (ParseUInt16 (Bytes minor)) as [m|s] eqn:Em; [|rewrite bind_Err_l; intros [= <-]; by apply parse_uint16_status in Em].
  rewrite bind_Ok_l. case_if; [by intros [= <-]|]. unfold status_code. destruct (skip _ _) as [|c0 [|c1 [|c2 tail]]]; try by intros [= <-].
  case_if; [by intros [= <-]|]. destruct (ParseUInt16 (Bytes [c0; c1; c2])) as [code|s] eqn:Ec; [|rewrite bind_Err_l; intros [= <-]; by apply parse_uint16_status in Ec].
  rewrite bind_Ok_l. case_if; [by intros [= <-]|]. cbv zeta. destruct tail; [done|]. case_if; [by intros [= <-]|done].
Qed.

Lemma FindHeaderEnd_bytes data : FindHeaderEnd (Bytes data) = find_end data.
Proof.
  unfold FindHeaderEnd. cbn [sp_isnull sp_len sp_bytes orb]. destruct (Z.ltb_spec (zlen data) 4) as [H|]; [|done].
  destruct data as [|a [|b [|c [|d l]]]]; try done. rewrite !zlen_cons in H. pose proof (zlen_nonneg l). lia.
Qed.
Lemma FindCrlf_start data : FindCrlf data 0 = find_crlf data.
Proof. change data with ([] ++ data) at 1. change 0 with (zlen (@nil Z)). rewrite FindCrlf_at. by destruct (find_crlf data). Qed.

(** A head as its line, its block of lines and the empty line. *)
Lemma head_parts data headerEnd : find_end data = Some headerEnd ->
  exists line block rest, data = line ++ 13 :: 10 :: block ++ 13 :: 10 :: rest /\ find_crlf line = None /\ crlf_ended block
  /\ find_end (13 :: 10 :: block ++ 13 :: 10 :: rest) = Some (zlen block + 4) /\ headerEnd = zlen line + zlen block + 4.
Proof.
  intros E. destruct (find_crlf data) as [n|] eqn:En.
  - apply find_crlf_Some in En as (line & r & -> & _ & Hl). rewrite find_end_line in E by done.
    destruct (find_end (13 :: 10 :: r)) as [m|] eqn:Em; [|done]. injection E as <-.
    destruct (find_end_Some _ _ Em) as (h & rest & Eh & Hm). destruct h as [|x [|y h]]; cbn [app] in Eh.
    + injection Eh as ->. exists line, [], rest. change (zlen []) with 0 in *. split_and!; [done|done|by left|done|lia].
    + by injection Eh as _ ? _.
    + injection Eh as <- <- ->. exists line, (h ++ [13; 10]), rest. rewrite <- !app_assoc. cbn [app]. rewrite !zlen_cons in Hm.
      rewrite zlen_app. change (zlen [13; 10]) with 2. split_and!; [done|done|right; by exists h|rewrite Em; f_equal; lia|lia].
  - exfalso. apply find_end_Some in E as (h & rest & -> & _). change (h ++ 13 :: 10 :: 13 :: 10 :: rest) with (h ++ [13; 10] ++ 13 :: 10 :: rest) in En.
    rewrite app_assoc in En. apply find_crlf_prefix in En. by apply find_crlf_ended in En.
Qed.

Lemma parts_head line block rest fields : find_crlf line = None -> field_lines block fields ->
  find_end (line ++ 13 :: 10 :: block ++ 13 :: 10 :: rest) = Some (zlen line + zlen block + 4).
Proof. intros Hl Hf. rewrite find_end_line, (field_lines_end block fields rest Hf) by done. cbn [option_map]. f_equal. lia. Qed.

Lemma status_line_unique line minor code reason minor' code' reason' :
  status_line line minor code reason -> status_line line minor' code' reason' -> minor = minor' /\ code = code' /\ reason = reason'.
Proof.
  intros H H'. assert (E : ParseStatusLine line response_default = Ok (status_response minor code reason response_default)).
  { apply ParseStatusLine_spec. by exists minor, code, reason. }
  assert (E' : ParseStatusLine line response_default = Ok (status_response minor' code' reason' response_default)).
  { apply ParseStatusLine_spec. by exists minor', code', reason'. }
  rewrite E in E'. by injection E' as -> -> ->.
Qed.

(** The response of a head. *)
Definition head_response (options : HttpParseOptions) (minor code : Z) (reason : Text) (fields : list HttpHeader) (consumed : Z) : HttpResponse :=
  MkResponse 1 minor code reason (array_of (po_Headers options) fields) (array_of (po_Trailers options) []) (Null 0)
    BodyKind_None false false false consumed.

Lemma ParseHeaders_parts options line block rest headers : zlen (line ++ 13 :: 10 :: block ++ 13 :: 10 :: rest) < 2 ^ 60 ->
  zlen line + zlen block + 4 <= HttpMaxHeaderBytes -> crlf_ended block ->
  find_end (13 :: 10 :: block ++ 13 :: 10 :: rest) = Some (zlen block + 4) ->
  ParseHeaders options (line ++ 13 :: 10 :: block ++ 13 :: 10 :: rest) (zlen line + zlen block + 4) (zlen line + 2) = (STATUS_SUCCESS, headers)
  <-> field_lines block headers /\ fields_fit options 0 headers.
Proof.
  intros Hd Hm Hb He. unfold ParseHeaders. pose proof (zlen_nonneg line). pose proof (zlen_nonneg block). unfold HttpMaxHeaderBytes in *.
  replace (zlen line + zlen block + 4 - (zlen line + 2)) with (zlen block + 2) by lia. rewrite (u64_id (zlen block + 2)) by lia.
  rewrite Z.gtb_ltb, !(proj2 (Z.ltb_ge _ _)) by lia. cbn [orb].
  replace (zlen line + 2) with (zlen (line ++ [13; 10])) by (rewrite zlen_app; done).
  rewrite (headers_loop_spec options _ _ Hd _ (line ++ [13; 10]) block rest); [|by rewrite <- app_assoc|rewrite zlen_app; change (zlen [13; 10]) with 2; lia| |done|done].
  - change (zlen []) with 0. split; [intros (fields & Hf & Hfit & ->); by split|intros [Hf Hfit]; by exists headers].
  - rewrite length_app. cbn [length]. rewrite length_app. lia.
Qed.

(** The parts of a head are those found. *)
Lemma head_parts_unique data headerEnd line block rest :
  data = line ++ 13 :: 10 :: block ++ 13 :: 10 :: rest -> find_crlf line = None -> headerEnd = zlen line + zlen block + 4 ->
  find_end data = Some headerEnd ->
  forall head rest' minor code reason fields, data = head ++ rest' -> response_head head minor code reason fields ->
  status_line line minor code reason /\ field_lines block fields /\ head = line ++ 13 :: 10 :: block ++ [13; 10]
  /\ headerEnd <= HttpMaxHeaderBytes.
Proof.
  intros Edata Hline Eend Ee head rest' minor code reason fields E (line' & block' & -> & Hl' & Hs' & Hf' & Hmax).
  rewrite E in Edata, Ee. rewrite <- app_assoc in *. cbn [app] in *. rewrite <- app_assoc in *. cbn [app] in *.
  rewrite (parts_head line' block' rest' fields) in Ee by done. injection Ee as Ee.
  pose proof (find_crlf_app line (block ++ 13 :: 10 :: rest) Hline) as F. rewrite <- Edata, find_crlf_app in F by done. injection F as F.
  apply app_inj_1 in Edata as [-> Edata]; [|unfold zlen in F; lia]. injection Edata as Edata.
  apply app_inj_1 in Edata as [-> _]; [|unfold zlen in *; lia]. split_and!; try done.
  rewrite !zlen_app, !zlen_cons, zlen_app in Hmax. change (zlen [13; 10]) with 2 in Hmax. lia.
Qed.

Lemma head_spec data options r n : zlen data < 2 ^ 60 ->
  ParseResponseHeaders (Bytes data) options = (STATUS_SUCCESS, r, n)
  <-> exists head rest minor code reason fields kind, data = head ++ rest /\ response_head head minor code reason fields
      /\ fields_fit options 0 fields /\ body_framing (po_ResponseBodyForbidden options) minor code fields kind n
      /\ r = framed kind (head_response options minor code reason fields (zlen head)).
Proof.
  intros Hd. unfold ParseResponseHeaders. rewrite FindHeaderEnd_bytes, FindCrlf_start. cbn [sp_isnull sp_len sp_bytes].
  destruct (find_end data) as [headerEnd|] eqn:Ee.
  2:{ split; [by case_if|]. intros (head & rest & minor & code & reason & fields & kind & -> & (line & block & -> & Hl & Hs & Hf & _) & _).
      rewrite <- app_assoc in Ee. cbn [app] in Ee. rewrite <- app_assoc in Ee. cbn [app] in Ee. by rewrite (parts_head line block rest fields) in Ee. }
  destruct (head_parts data headerEnd Ee) as (line & block & rest & Edata & Hline & Hb & He & Eend).
  pose proof (zlen_nonneg line). pose proof (zlen_nonneg block).
  assert (Hlen : zlen data <> 0) by (rewrite Edata, zlen_app, !zlen_cons; pose proof (zlen_nonneg (block ++ 13 :: 10 :: rest)); lia).
  rewrite (proj2 (Z.eqb_neq _ _)) by done.
  pose proof (head_parts_unique data headerEnd line block rest Edata Hline Eend Ee) as Hparts.
  destruct (Z.gtb_spec headerEnd HttpMaxHeaderBytes) as [Hmax|Hmax].
  { split; [done|]. intros (head & rest' & minor & code & reason & fields & kind & E & Hh & _).
    destruct (Hparts _ _ _ _ _ _ E Hh) as (_ & _ & _ & ?). lia. }
  rewrite Edata at 1. rewrite find_crlf_app by done. unfold HttpMaxHeaderBytes in Hmax. rewrite (u64_id (zlen line + 2)) by lia.
  rewrite Z.gtb_ltb, (proj2 (Z.ltb_ge _ _)) by lia. replace (ztake (zlen line) data) with line by (rewrite Edata, ztake_app_len; done).
  destruct (ParseStatusLine line response_default) as [resp|status] eqn:Es.
  2:{ split; [intros [= -> _ _]; by apply ParseStatusLine_status in Es|].
      intros (head & rest' & minor & code & reason & fields & kind & E & Hh & _). destruct (Hparts _ _ _ _ _ _ E Hh) as (Hs & _).
      pose proof (proj2 (ParseStatusLine_spec line response_default _) (ex_intro _ minor (ex_intro _ code (ex_intro _ reason (conj Hs eq_refl))))). congruence. }
  pose proof (ParseHeaders_parts options line block rest) as HP. rewrite <- Edata, <- Eend in HP.
  destruct (ParseHeaders options data headerEnd (zlen line + 2)) as [status headers] eqn:Eh. destruct (NT_SUCCESS status) eqn:Ens; cbn [negb].
  2:{ split; [by intros [= -> _ _]|]. intros (head & rest' & minor & code & reason & fields & kind & E & Hh & Hfit & _).
      destruct (Hparts _ _ _ _ _ _ E Hh) as (_ & Hf & _). pose proof (proj2 (HP fields Hd Hmax Hb He) (conj Hf Hfit)) as E1.
      injection E1 as E1 _. by rewrite E1 in Ens. }
  apply NT_SUCCESS_true in Ens. subst status. destruct (proj1 (HP headers Hd Hmax Hb He) eq_refl) as [Hf Hfit].
  apply ParseStatusLine_spec in Es as (minor & code & reason & Hs & ->).
  pose proof (status_line_unique line) as Hu.
  rewrite (frame_body_spec options _ r n (po_Headers options) headers); [|done|by destruct Hfit as [? |[? _]]; [right|left]|done].
  split.
  - intros (kind & Hk & ->). exists (line ++ 13 :: 10 :: block ++ [13; 10]), rest, minor, code, reason, headers, kind.
    assert (Ez : zlen (line ++ 13 :: 10 :: block ++ [13; 10]) = headerEnd).
    { rewrite !zlen_app, !zlen_cons, zlen_app. change (zlen [13; 10]) with 2. lia. }
    rewrite Ez. split_and!; [by rewrite Edata, <- app_assoc; cbn [app]; rewrite <- app_assoc| |done|done|by destruct kind].
    exists line, block. rewrite Ez. by split_and!.
  - intros (head & rest' & minor' & code' & reason' & fields & kind & E & Hh & Hfit' & Hk & ->). exists kind.
    destruct (Hparts _ _ _ _ _ _ E Hh) as (Hs' & Hf' & -> & _). destruct (Hu _ _ _ _ _ _ Hs Hs') as (<- & <- & <-).
    pose proof (proj2 (HP fields Hd Hmax Hb He) (conj Hf' Hfit')) as E1. injection E1 as <-. split; [done|].
    replace (zlen (line ++ 13 :: 10 :: block ++ [13; 10])) with headerEnd; [by destruct kind|].
    rewrite !zlen_app, !zlen_cons, zlen_app. change (zlen [13; 10]) with 2. lia.
Qed.

(** C5. The parser accepts exactly the heads of the grammar, with the version, the
    code, the reason phrase and the fields in them, and frames the body exactly by
    the rules of RFC 9112, section 6.3; whatever follows the head is left alone. *)
Theorem response_head_exact data options r n : zlen data < 2 ^ 60 ->
  ParseResponseHeaders (Bytes data) options = (STATUS_SUCCESS, r, n)
  <-> exists head rest minor code reason fields kind, data = head ++ rest /\ response_head head minor code reason fields
      /\ fields_fit options 0 fields /\ body_framing (po_ResponseBodyForbidden options) minor code fields kind n
      /\ r = framed kind (head_response options minor code reason fields (zlen head)).
Proof. apply head_spec. Qed.
Lemma response_head_exact_witness :
  exists head rest minor code reason fields kind, sample_head ++ str "hello" = head ++ rest /\ response_head head minor code reason fields
  /\ fields_fit sample_options 0 fields /\ body_framing false minor code fields kind 5
  /\ MkResponse 1 1 200 (Bytes (str "OK"))
       (HeaderList [MkHeader (text "Server") (text "x"); MkHeader (text "Content-Length") (text "5")]) (HeaderList [])
       (Null 0) BodyKind_ContentLength false false false 49
     = framed kind (head_response sample_options minor code reason fields (zlen head)).
Proof. apply (response_head_exact (sample_head ++ str "hello") sample_options); [done|exact parse_sample]. Defined.

Lemma at_end_app a b : at_end a = true -> at_end (a ++ b) = true.
Proof. by destruct a as [|? [|? [|? [|? ?]]]]. Qed.
Lemma find_end_app p q m : find_end p = Some m -> find_end (p ++ q) = Some m.
Proof.
  revert m. induction p as [|a p IH]; intros m; [done|]. cbn [app]. rewrite !find_end_cons. destruct (at_end (a :: p)) eqn:E.
  - intros [= <-]. change (a :: p ++ q) with ((a :: p) ++ q). by rewrite at_end_app.
  - destruct (find_end p) as [k|] eqn:Ek; [|done]. intros [= <-]. rewrite (IH k eq_refl). destruct (at_end (a :: p ++ q)) eqn:E'; [|done].
    exfalso. apply find_end_Some in Ek as (h & rest & -> & _). destruct h as [|? [|? [|? ?]]]; cbn [app at_end] in E, E'; congruence.
Qed.

Lemma sample_is_head :
  response_head sample_head 1 200 (Bytes (str "OK")) [MkHeader (text "Server") (text "x"); MkHeader (text "Content-Length") (text "5")].
Proof.
  pose proof parse_sample as E. apply (head_spec (sample_head ++ str "hello") sample_options) in E; [|done].
  destruct E as (head & rest & minor & code & reason & fields & kind & E & Hh & _ & _ & Er).
  destruct kind; try discriminate Er. unfold framed, head_response in Er. cbn [array_of sample_options po_Headers po_Trailers] in Er.
  injection Er as <- <- <- <- Hz. replace sample_head with head; [done|].
  apply app_inj_1 in E as [E _]; [by rewrite E|]. unfold zlen in Hz. change (length sample_head) with 49%nat. lia.
Qed.

(** C31. A head that has not arrived whole asks for more bytes, wherever it is cut. *)
Theorem response_head_more head arrived missing minor code reason fields options :
  response_head head minor code reason fields -> head = arrived ++ missing -> missing <> [] ->
  ParseResponseHeaders (Bytes arrived) options = (STATUS_MORE_PROCESSING_REQUIRED, response_default, 0).
Proof.
  intros (line & block & -> & Hl & Hs & Hf & _) E Hm. unfold ParseResponseHeaders. rewrite FindHeaderEnd_bytes. cbn [sp_isnull sp_len].
  destruct (zlen arrived =? 0); [done|]. destruct (find_end arrived) as [m|] eqn:Em; [exfalso|done].
  pose proof (find_end_app arrived missing m Em) as E2. rewrite <- E in E2. rewrite (parts_head line block [] fields) in E2 by done. injection E2 as E2.
  apply find_end_Some in Em as (h & rest & -> & Hh). apply (f_equal zlen) in E. rewrite !zlen_app, !zlen_cons, !zlen_app, !zlen_cons in E.
  rewrite zlen_nil in E. pose proof (zlen_nonneg rest). destruct missing as [|x missing]; [done|]. rewrite zlen_cons in E.
  pose proof (zlen_nonneg missing). lia.
Qed.
Lemma response_head_more_witness :
  ParseResponseHeaders (Bytes (ztake 40 sample_head)) sample_options = (STATUS_MORE_PROCESSING_REQUIRED, response_default, 0).
Proof.
  apply (response_head_more sample_head (ztake 40 sample_head) (zdrop 40 sample_head) 1 200 (Bytes (str "OK"))
    [MkHeader (text "Server") (text "x"); MkHeader (text "Content-Length") (text "5")]);
    [exact sample_is_head|symmetry; apply ztake_zdrop|done].
Defined.
