(* ===== verification/BitStream.v ===== *)
(** * The bits of a byte string, the least significant bit of a byte first

    Shared by the formats that pack their codes this way: DEFLATE
    (WebSocketDeflate) and LZW (CompressDecoder). *)

From S2P Require Import Prelude.

Definition byte_bits (b : Z) : list bool := map (Z.testbit b) [0; 1; 2; 3; 4; 5; 6; 7].
Definition to_bits (l : list Z) : list bool := flat_map byte_bits l.
Fixpoint bits_value (l : list bool) : Z :=
  match l with [] => 0 | b :: l => Z.b2z b + 2 * bits_value l end.

Lemma to_bits_app l k : to_bits (l ++ k) = to_bits l ++ to_bits k.
Proof. apply flat_map_app. Qed.
Lemma to_bits_length l : length (to_bits l) = (8 * length l)%nat.
Proof. induction l as [|b l IH]; [done|]. cbn [to_bits flat_map]. rewrite length_app. unfold to_bits in IH. rewrite IH. cbn. lia. Qed.
Lemma to_bits_drop n l : drop (8 * n) (to_bits l) = to_bits (drop n l).
Proof.
  revert l. induction n as [|n IH]; intros l; [done|]. destruct l as [|b l]; [by rewrite drop_nil|].
  replace (8 * S n)%nat with (8 + 8 * n)%nat by lia. rewrite <- drop_drop. change (drop 8 (to_bits (b :: l))) with (to_bits l).
  apply IH.
Qed.

Lemma drop_byte_bits b k bits : (k < 8)%nat ->
  drop k (byte_bits b ++ bits) = Z.testbit b (Z.of_nat k) :: drop (S k) (byte_bits b ++ bits).
Proof. intros Hk. do 8 (destruct k as [|k]; [done|]). lia. Qed.

Lemma testbit_land b k : 0 <= k -> Z.land (Z.shiftr b k) 1 = Z.b2z (Z.testbit b k).
Proof. intros Hk. rewrite (land_ones_mod _ 1), <- Z.bit0_mod, Z.shiftr_spec by lia. done. Qed.

Lemma byte_bits_value b : is_byte b -> bits_value (byte_bits b) = b.
Proof.
  intros Hb. apply Z.eqb_eq. revert b Hb. apply byte_cases. by vm_compute.
Qed.
Lemma to_bits_inj l k : bytes l -> bytes k -> to_bits l = to_bits k -> l = k.
Proof.
  intros Hl. revert k. induction Hl as [|b l Hb _ IH]; intros k Hk E; destruct Hk as [|b' k Hb' Hk]; [done|done|done|].
  change (byte_bits b ++ to_bits l = byte_bits b' ++ to_bits k) in E. apply app_inj_1 in E as [E1 E2]; [|done].
  f_equal; [|by apply IH]. by rewrite <- (byte_bits_value b), <- (byte_bits_value b'), E1.
Qed.

Lemma bits_value_app l k : bits_value (l ++ k) = bits_value l + 2 ^ Z.of_nat (length l) * bits_value k.
Proof.
  induction l as [|b l IH]; [cbn; lia|]. cbn [app bits_value length]. rewrite IH, Nat2Z.inj_succ, Z.pow_succ_r by lia. lia.
Qed.
Lemma bits_value_range l : 0 <= bits_value l < 2 ^ Z.of_nat (length l).
Proof.
  induction l as [|b l IH]; [done|]. cbn [bits_value length]. rewrite Nat2Z.inj_succ, Z.pow_succ_r by lia.
  destruct b; cbn [Z.b2z]; lia.
Qed.
Lemma bits_value_inj l k : length l = length k -> bits_value l = bits_value k -> l = k.
Proof.
  revert k. induction l as [|b l IH]; intros [|b' k] Hl E; [done|done|done|]. cbn [bits_value length] in *.
  injection Hl as Hl. destruct b, b'; cbn [Z.b2z] in E; try (exfalso; lia); f_equal; apply IH; (done || lia).
Qed.

Lemma to_bits_lookup l i : (i < 8 * length l)%nat ->
  to_bits l !! i = Some (Z.testbit (zget l (Z.of_nat i / 8)) (Z.of_nat i mod 8)).
Proof.
  intros Hi. assert (Ei : i = (8 * (i / 8) + i mod 8)%nat) by (apply Nat.div_mod_eq).
  assert (Hm : (i mod 8 < 8)%nat) by (by apply Nat.mod_upper_bound).
  assert (Hq : (i / 8 < length l)%nat) by (apply Nat.Div0.div_lt_upper_bound; lia).
  destruct (lookup_lt_is_Some_2 l (i / 8) Hq) as [b Hb].
  replace (Z.of_nat i / 8) with (Z.of_nat (i / 8)) by (by rewrite Nat2Z.inj_div).
  replace (Z.of_nat i mod 8) with (Z.of_nat (i mod 8)) by (by rewrite Nat2Z.inj_mod).
  replace (zget l (Z.of_nat (i / 8))) with b by (unfold zget; by rewrite Nat2Z.id, nth_lookup, Hb).
  rewrite Ei at 1. rewrite <- lookup_drop, to_bits_drop, (drop_S l b _ Hb).
  change (to_bits (b :: drop (S (i / 8)) l)) with (byte_bits b ++ to_bits (drop (S (i / 8)) l)).
  generalize (to_bits (drop (S (i / 8)) l)). generalize (i mod 8)%nat Hm. intros k Hk rest.
  do 8 (destruct k as [|k]; [done|]). lia.
Qed.

(** The [n] lowest bits of a number, and bytes of bits, the last one filled up with
    zeros. *)
Definition lsb_bits (n v : Z) : list bool := map (Z.testbit v) (seqZ 0 n).
Fixpoint pack (n : nat) (bits : list bool) : list Z :=
  match n with O => [] | S n => bits_value (take 8 bits) :: pack n (drop 8 bits) end.
Definition packed (bits : list bool) : list Z := pack ((length bits + 7) / 8) bits.

Lemma lsb_bits_length n v : length (lsb_bits n v) = Z.to_nat n.
Proof. unfold lsb_bits. by rewrite length_map, length_seqZ. Qed.
Lemma lsb_bits_value n v : 0 <= n -> bits_value (lsb_bits n v) = v mod 2 ^ n.
Proof.
  intros Hn. rewrite <- (Z2Nat.id n) by done. generalize (Z.to_nat n). clear n Hn. intros n.
  induction n as [|n IH]; [by rewrite Z.mod_1_r|].
  unfold lsb_bits in *. rewrite seqZ_S, map_app, bits_value_app, IH, length_map, length_seqZ, Nat2Z.id.
  cbn [map bits_value]. rewrite Z.mul_0_r, !Z.add_0_r, Z.add_0_l. rewrite Nat2Z.inj_succ, Z.pow_succ_r, (Z.mul_comm 2), Z.rem_mul_r by lia.
  by rewrite <- Z.testbit_spec' by lia.
Qed.

Lemma bits_value_zeros n : bits_value (replicate n false) = 0.
Proof. induction n as [|n IH]; [done|]. cbn [replicate bits_value]. by rewrite IH. Qed.
Lemma bits_value_bits8 l : (length l <= 8)%nat -> byte_bits (bits_value l) = l ++ replicate (8 - length l) false.
Proof.
  intros Hl. apply bits_value_inj.
  - rewrite length_app, length_replicate. cbn. lia.
  - rewrite bits_value_app, bits_value_zeros, Z.mul_0_r, Z.add_0_r. apply byte_bits_value.
    pose proof (bits_value_range l). assert (2 ^ Z.of_nat (length l) <= 2 ^ 8) by (apply Z.pow_le_mono_r; lia). unfold is_byte. lia.
Qed.
(** The bits come back, up to the filling. *)
Lemma to_bits_pack n bits : (length bits <= 8 * n)%nat ->
  to_bits (pack n bits) = bits ++ replicate (8 * n - length bits) false.
Proof.
  revert bits. induction n as [|n IH]; intros bits Hl; [by destruct bits; [|cbn in Hl; lia]|]. cbn [pack].
  change (to_bits (?b :: ?l)) with (byte_bits b ++ to_bits l). rewrite bits_value_bits8 by (rewrite length_take; lia).
  rewrite IH by (rewrite length_drop; lia). destruct (decide (length bits <= 8)%nat) as [Hs|Hs].
  - rewrite (take_ge bits), (drop_ge bits) by lia. cbn [app length]. rewrite <- app_assoc, <- replicate_add. do 2 f_equal. lia.
  - rewrite length_take, Nat.min_l, app_nil_r by lia. rewrite length_drop, app_assoc, take_drop. do 2 f_equal. lia.
Qed.
Lemma to_bits_packed bits : exists n, (n < 8)%nat /\ to_bits (packed bits) = bits ++ replicate n false.
Proof.
  unfold packed. set (n := ((length bits + 7) / 8)%nat).
  pose proof (Nat.div_mod_eq (length bits + 7) 8). pose proof (Nat.mod_upper_bound (length bits + 7) 8).
  exists (8 * n - length bits)%nat. split; [lia|]. apply to_bits_pack. lia.
Qed.
Lemma pack_bytes n bits : bytes (pack n bits).
Proof.
  revert bits. induction n as [|n IH]; intros bits; [apply Forall_nil_2|]. cbn [pack]. apply Forall_cons; split; [|apply IH].
  pose proof (bits_value_range (take 8 bits)). assert (2 ^ Z.of_nat (length (take 8 bits)) <= 2 ^ 8) by (apply Z.pow_le_mono_r; rewrite ?length_take; lia).
  unfold is_byte. lia.
Qed.
