(* ===== verification/CompressDecoder.v ===== *)
(** * The [compress] content coding (codec/ContentCoding.cpp)

    The decoder of the LZW format of the [compress] program: codes of 9 to 16 bits
    packed from the least significant bit, a dictionary that grows with every code,
    and a code that clears it.  [lzw_decode] is the textbook decoder on a sequence
    of codes; [layout] places the codes in the bits, either the way this decoder
    reads them or the way the format has them.

    The arrays of prefixes and suffixes and the stack are lists; a read outside of
    them does not occur ([table_ok]). *)

From S2P Require Import Prelude.
From S2P Require Import BitStream.

Definition CompressMagic0 : Z := 0x1F.
Definition CompressMagic1 : Z := 0x9D.
Definition CompressBlockModeFlag : Z := 0x80.
Definition CompressMaxBitsMask : Z := 0x1F.
Definition CompressClearCode : Z := 256.
Definition CompressFirstFreeCode : Z := 257.
Definition CompressInitialBits : Z := 9.
Definition CompressMinBits : Z := 9.
Definition CompressMaxBits : Z := 16.

(** [static_cast<SIZE_T>(-1)], where there is no previous code. *)
Definition NoCode : Z := MAXU64.
Definition u16 (x : Z) : Z := x mod 2 ^ 16.

(** ** Output

    [destination]: whether the pointer is there; [output]: the bytes at it up to
    [*decodedLength]. *)
Definition AppendOutputByte (destination : bool) (capacity byte : Z) (output : list Z) : option (list Z) :=
  if (zlen output >=? capacity) || negb destination then None else Some (output ++ [byte]).

(** From the top of the stack down. *)
Fixpoint emit_loop (destination : bool) (capacity : Z) (top : list Z) (output : list Z) : NTSTATUS * list Z :=
  match top with
  | [] => (STATUS_SUCCESS, output)
  | byte :: top =>
      match AppendOutputByte destination capacity byte output with
      | None => (STATUS_BUFFER_TOO_SMALL, output)
      | Some output => emit_loop destination capacity top output
      end
  end.
Definition EmitReverseStack (destination : bool) (capacity : Z) (stack : list Z) (output : list Z) : NTSTATUS * list Z :=
  emit_loop destination capacity (rev stack) output.

(** ** Codes *)

Fixpoint code_loop (n : nat) (bit : Z) (data : list Z) (bitOffset parsed : Z) : Z :=
  match n with
  | O => parsed
  | S n =>
      let absoluteBit := bitOffset +! bit in
      let byte := zget data (absoluteBit / 8) in
      let bitValue := u8 (Z.land (Z.shiftr byte (absoluteBit mod 8)) 1) in
      code_loop n (bit + 1) data bitOffset (Z.lor parsed (u64 (Z.shiftl bitValue bit)))
  end.
Definition ReadCompressCode (data : list Z) (bitOffset codeBits : Z) : option Z :=
  if (codeBits =? 0) || (codeBits >? CompressMaxBits) then None
  else
    let dataBits := zlen data *! 8 in
    if (bitOffset >? dataBits) || (codeBits >? dataBits -! bitOffset) then None
    else Some (code_loop (Z.to_nat codeBits) 0 data bitOffset 0).

Definition HasCompleteCompressCode (dataBits bitOffset codeBits : Z) : bool :=
  if (codeBits =? 0) || (dataBits <? codeBits -! 1) then false else bitOffset <? dataBits -! (codeBits -! 1).

Definition AlignCompressBitOffset (bitOffset codeBits : Z) : Z :=
  if codeBits =? 0 then bitOffset
  else
    let groupBits := u64 (Z.shiftl codeBits 3) in
    let current := (bitOffset -! 1) +! groupBits in
    current -! (current mod groupBits).

(** ** The dictionary *)

(** The loop [while (current >= 256)] and what follows it: the stack and the first
    byte.  A turn pushes a byte, so the capacity of the stack bounds the turns. *)
Fixpoint expand_loop (fuel : nat) (prefixes suffixes : list Z) (nextCode stackCapacity current : Z) (stack : list Z)
    : option (list Z * Z) :=
  match fuel with
  | O => None
  | S fuel =>
      if current >=? 256 then
        if (current >=? nextCode) || (zlen stack >=? stackCapacity) then None
        else expand_loop fuel prefixes suffixes nextCode stackCapacity (zget prefixes current) (stack ++ [zget suffixes current])
      else if zlen stack >=? stackCapacity then None
      else Some (stack ++ [u8 current], u8 current)
  end.
Definition ExpandCompressCode (code : Z) (prefixes suffixes : list Z) (nextCode stackCapacity : Z) : option (list Z * Z) :=
  if stackCapacity =? 0 then None
  else expand_loop (S (Z.to_nat stackCapacity)) prefixes suffixes nextCode stackCapacity code [].

(** The variables of [DecodeCompressWithTables].  [firstByte], which is written and
    never read, is left out. *)
Record lz := MkLz {
  lz_bitOffset : Z;
  lz_codeBits : Z;
  lz_maxCodeForBits : Z;
  lz_nextCode : Z;
  lz_oldCode : Z;
  lz_prefixes : list Z;
  lz_suffixes : list Z;
  lz_output : list Z;
}.
#[export] Instance lz_eta : Eta lz := fun x =>
  MkLz (lz_bitOffset x) (lz_codeBits x) (lz_maxCodeForBits x) (lz_nextCode x) (lz_oldCode x) (lz_prefixes x)
    (lz_suffixes x) (lz_output x).

Section Decode.
Variable data : list Z.
Variable destination : bool.
Variable capacity : Z.
Variable maxBits : Z.
Variable blockMode : bool.
Variable maxCodes : Z.

Definition dataBits : Z := zlen data *! 8.

(** Wider codes begin at the next group of eight. *)
Definition widens (s : lz) : bool := (lz_nextCode s >? lz_maxCodeForBits s) && (lz_codeBits s <? maxBits).
Definition widen (s : lz) : lz :=
  s <| lz_bitOffset := AlignCompressBitOffset (lz_bitOffset s) (lz_codeBits s) |>
    <| lz_codeBits := lz_codeBits s +! 1 |>
    <| lz_maxCodeForBits := u64 (Z.shiftl 1 (lz_codeBits s +! 1)) -! 1 |>.

Definition clear (s : lz) : lz :=
  s <| lz_codeBits := CompressInitialBits |>
    <| lz_maxCodeForBits := u64 (Z.shiftl 1 CompressInitialBits) -! 1 |>
    <| lz_nextCode := CompressFirstFreeCode |>
    <| lz_oldCode := NoCode |>.

(** The bytes a code stands for, written out: the status, the first of them, and the
    output. *)
Definition emit_code (code : Z) (s : lz) : NTSTATUS * Z * list Z :=
  if code <? lz_nextCode s then
    match ExpandCompressCode code (lz_prefixes s) (lz_suffixes s) (lz_nextCode s) maxCodes with
    | None => (STATUS_INVALID_NETWORK_RESPONSE, 0, lz_output s)
    | Some (stack, currentFirst) =>
        let '(status, output) := EmitReverseStack destination capacity stack (lz_output s) in
        (status, currentFirst, output)
    end
  else if (code =? lz_nextCode s) && negb (lz_oldCode s =? NoCode) then
    match ExpandCompressCode (lz_oldCode s) (lz_prefixes s) (lz_suffixes s) (lz_nextCode s) maxCodes with
    | None => (STATUS_INVALID_NETWORK_RESPONSE, 0, lz_output s)
    | Some (stack, currentFirst) =>
        let '(status, output) := EmitReverseStack destination capacity stack (lz_output s) in
        if negb (NT_SUCCESS status) then (status, currentFirst, output)
        else
          match AppendOutputByte destination capacity currentFirst output with
          | None => (STATUS_BUFFER_TOO_SMALL, currentFirst, output)
          | Some output => (STATUS_SUCCESS, currentFirst, output)
          end
    end
  else (STATUS_INVALID_NETWORK_RESPONSE, 0, lz_output s).

Definition add_entry (currentFirst : Z) (s : lz) : lz :=
  if negb (lz_oldCode s =? NoCode) && (lz_nextCode s <? maxCodes) then
    s <| lz_prefixes := <[Z.to_nat (lz_nextCode s) := u16 (lz_oldCode s)]> (lz_prefixes s) |>
      <| lz_suffixes := <[Z.to_nat (lz_nextCode s) := currentFirst]> (lz_suffixes s) |>
      <| lz_nextCode := lz_nextCode s +! 1 |>
  else s.

Fixpoint lzw_loop (fuel : nat) (s : lz) : NTSTATUS * lz :=
  match fuel with
  | O => (STATUS_OTHER 0, s)
  | S fuel =>
      if negb (HasCompleteCompressCode dataBits (lz_bitOffset s) (lz_codeBits s)) then (STATUS_SUCCESS, s)
      else
        let widened := widens s in
        let s := if widened then widen s else s in
        if widened && negb (HasCompleteCompressCode dataBits (lz_bitOffset s) (lz_codeBits s)) then (STATUS_SUCCESS, s)
        else
          match ReadCompressCode data (lz_bitOffset s) (lz_codeBits s) with
          | None => (STATUS_INVALID_NETWORK_RESPONSE, s)
          | Some code =>
              let s := s <| lz_bitOffset := lz_bitOffset s +! lz_codeBits s |> in
              if blockMode && (code =? CompressClearCode) then lzw_loop fuel (clear s)
              else
                let '(status, currentFirst, output) := emit_code code s in
                let s := s <| lz_output := output |> in
                if negb (NT_SUCCESS status) then (status, s)
                else lzw_loop fuel ((add_entry currentFirst s) <| lz_oldCode := code |>)
          end
  end.
End Decode.

(** The first 256 places of the two arrays are set, the others are as they were. *)
Definition lz_start (blockMode : bool) (maxCodes : Z) (prefixes suffixes : list Z) : lz :=
  MkLz 0 CompressInitialBits (u64 (Z.shiftl 1 CompressInitialBits) -! 1)
    (if blockMode then CompressFirstFreeCode else CompressClearCode) NoCode
    (replicate 256 0 ++ drop 256 prefixes) (seqZ 0 256 ++ drop 256 suffixes) [].

(** The arrays are there; the output has the bytes written, whatever the status. *)
Definition DecodeCompressWithTables (compressed : list Z) (destination : bool) (capacity : Z)
    (prefixes suffixes : list Z) (maxCodes : Z) : NTSTATUS * list Z :=
  if (zlen compressed <? 3) || (maxCodes <? Z.shiftl 1 CompressInitialBits) then (STATUS_INVALID_PARAMETER, [])
  else if negb (zget compressed 0 =? CompressMagic0) || negb (zget compressed 1 =? CompressMagic1)
  then (STATUS_INVALID_NETWORK_RESPONSE, [])
  else
    let flags := zget compressed 2 in
    let maxBits := Z.land flags CompressMaxBitsMask in
    if (maxBits <? CompressMinBits) || (maxBits >? CompressMaxBits) then (STATUS_INVALID_NETWORK_RESPONSE, [])
    else
      let blockMode := negb (Z.land flags CompressBlockModeFlag =? 0) in
      if negb (u64 (Z.shiftl 1 maxBits) =? maxCodes) then (STATUS_INVALID_PARAMETER, [])
      else
        let data := zdrop 3 compressed in
        let '(status, s) := lzw_loop data destination capacity maxBits blockMode maxCodes (S (Z.to_nat (8 * zlen data)))
                              (lz_start blockMode maxCodes prefixes suffixes) in
        (status, lz_output s).

(** [allocated]: whether the three arrays are there. *)
Definition DecodeCompress (compressed : span) (destination : bool) (capacity : Z) (allocated : bool) : NTSTATUS * list Z :=
  match compressed with
  | Null _ => (STATUS_INVALID_PARAMETER, [])
  | Bytes compressed =>
      if (zlen compressed <? 3) || negb (zget compressed 0 =? CompressMagic0) || negb (zget compressed 1 =? CompressMagic1)
      then (STATUS_INVALID_NETWORK_RESPONSE, [])
      else
        let maxBits := Z.land (zget compressed 2) CompressMaxBitsMask in
        if (maxBits <? CompressMinBits) || (maxBits >? CompressMaxBits) then (STATUS_INVALID_NETWORK_RESPONSE, [])
        else
          let maxCodes := u64 (Z.shiftl 1 maxBits) in
          if negb allocated then (STATUS_INSUFFICIENT_RESOURCES, [])
          else
            let zeros := replicate (Z.to_nat maxCodes) 0 in
            DecodeCompressWithTables compressed destination capacity zeros zeros maxCodes
  end.

(** ** The format

    [lzw_decode] reads a sequence of codes, with the strings of the codes from
    [first_free] on, and the string before (none at the start and after a clear). *)

Section Meaning.
Variable blockMode : bool.
Variable maxCodes : Z.

Definition first_free : Z := if blockMode then 257 else 256.
Definition next_code (table : list (list Z)) : Z := first_free + zlen table.

Definition string_of (table : list (list Z)) (code : Z) : option (list Z) :=
  if code <? 256 then Some [code]
  else if code <? first_free then None
  else table !! Z.to_nat (code - first_free).

(** The string of a code that may be the one about to be entered. *)
Definition meaning (table : list (list Z)) (previous : option (list Z)) (code : Z) : option (list Z) :=
  if code <? next_code table then string_of table code
  else
    match previous with
    | Some p => if (code =? next_code table) && (code <? maxCodes) then Some (p ++ ztake 1 p) else None
    | None => None
    end.

Definition grow (table : list (list Z)) (previous : option (list Z)) (s : list Z) : list (list Z) :=
  match previous with
  | Some p => if next_code table <? maxCodes then table ++ [p ++ ztake 1 s] else table
  | None => table
  end.

Definition is_clear (code : Z) : bool := blockMode && (code =? 256).

Fixpoint lzw_decode (table : list (list Z)) (previous : option (list Z)) (codes : list Z) : option (list Z) :=
  match codes with
  | [] => Some []
  | code :: codes =>
      if is_clear code then lzw_decode [] None codes
      else
        s ← meaning table previous code;
        rest ← lzw_decode (grow table previous s) (Some s) codes;
        Some (s ++ rest)
  end.
End Meaning.

(** Where the next code goes: the bit where codes of this width began, the offset,
    the width, the code about to be entered, and whether there is a code before. *)
Record place := MkPlace { pl_start : Z; pl_offset : Z; pl_width : Z; pl_next : Z; pl_previous : bool }.

Section Layout.
(** [relative]: codes come in groups of eight from where their width began, and a
    clear ends its group, as the format has it; otherwise groups are counted from the first bit, and a clear ends nothing, as the decoder reads them. *)
Variable relative : bool.
Variable blockMode : bool.
Variable maxBits : Z.

Definition group_end (base offset width : Z) : Z :=
  base + (offset - base + 8 * width - 1) / (8 * width) * (8 * width).
Definition base_of (p : place) : Z := if relative then pl_start p else 0.

Definition place_widened (p : place) : place :=
  if (pl_next p >? 2 ^ pl_width p - 1) && (pl_width p <? maxBits) then
    let offset := group_end (base_of p) (pl_offset p) (pl_width p) in
    MkPlace offset offset (pl_width p + 1) (pl_next p) (pl_previous p)
  else p.
Definition place_after (code : Z) (p : place) : place :=
  let offset := pl_offset p + pl_width p in
  if is_clear blockMode code then
    let offset := if relative then group_end (pl_start p) offset (pl_width p) else offset in
    MkPlace offset offset 9 257 false
  else
    let next := if pl_previous p && (pl_next p <? 2 ^ maxBits) then pl_next p + 1 else pl_next p in
    MkPlace (pl_start p) offset (pl_width p) next true.

Definition zero_bits (n : Z) : list bool := replicate (Z.to_nat n) false.

(** The bits from the offset on. *)
Fixpoint layout (codes : list Z) (p : place) : list bool :=
  match codes with
  | [] => []
  | code :: codes =>
      let q := place_widened p in
      let r := place_after code q in
      zero_bits (pl_offset q - pl_offset p) ++ lsb_bits (pl_width q) code
      ++ zero_bits (pl_offset r - (pl_offset q + pl_width q)) ++ layout codes r
  end.
Definition place_start : place := MkPlace 0 0 9 (first_free blockMode) false.
End Layout.

(** The codes in the bits of [data]: each where [place_widened] says, up to where no
    whole code is left. *)
Fixpoint stream (relative blockMode : bool) (maxBits : Z) (bits : list bool) (codes : list Z) (p : place) : Prop :=
  let q := place_widened relative maxBits p in
  match codes with
  | [] => Z.of_nat (length bits) < pl_offset q + pl_width q
  | code :: codes =>
      pl_offset q + pl_width q <= Z.of_nat (length bits)
      /\ bits_value (take (Z.to_nat (pl_width q)) (drop (Z.to_nat (pl_offset q)) bits)) = code
      /\ stream relative blockMode maxBits bits codes (place_after relative blockMode maxBits code q)
  end.

(** One way to compress, which never clears the dictionary: the longest string of the
    dictionary, over and over.  [w] is what has been read of the next string, [k] its
    code. *)
Section Encoder.
Variable blockMode : bool.
Variable maxCodes : Z.

Fixpoint find_string (table : list (list Z)) (s : list Z) (code : Z) : option Z :=
  match table with
  | [] => None
  | t :: table => if bool_decide (t = s) then Some code else find_string table s (code + 1)
  end.
Fixpoint encode_loop (table : list (list Z)) (w : list Z) (k : Z) (input : list Z) : list Z :=
  match input with
  | [] => [k]
  | c :: input =>
      match find_string table (w ++ [c]) (first_free blockMode) with
      | Some k => encode_loop table (w ++ [c]) k input
      | None =>
          let table := if next_code blockMode table <? maxCodes then table ++ [w ++ [c]] else table in
          k :: encode_loop table [c] c input
      end
  end.
Definition lzw_encode (input : list Z) : list Z :=
  match input with [] => [] | c :: input => encode_loop [] [c] c input end.
End Encoder.

(** A file of the format with these codes, in block mode or not. *)
Definition compress_file (blockMode : bool) (maxBits : Z) (codes : list Z) : list Z :=
  [CompressMagic0; CompressMagic1; maxBits + (if blockMode then CompressBlockModeFlag else 0)]
  ++ packed (layout true blockMode maxBits codes (place_start blockMode)).

(** ** Reading a code *)

Lemma code_loop_ok data n bit off parsed :
  8 * zlen data < 2 ^ 60 -> 0 <= off -> 0 <= bit -> bit + Z.of_nat n <= 16 -> off + bit + Z.of_nat n <= 8 * zlen data ->
  0 <= parsed < 2 ^ bit ->
  code_loop n bit data off parsed
  = parsed + 2 ^ bit * bits_value (take n (drop (Z.to_nat (off + bit)) (to_bits data))).
Proof.
  intros Hd Ho. revert bit parsed. induction n as [|n IH]; intros bit parsed Hb Hn Hle Hp; [by rewrite Z.mul_0_r, Z.add_0_r|].
  cbn [code_loop]. rewrite (u64_id (off + bit)) by lia.
  assert (Hx : to_bits data !! Z.to_nat (off + bit) = Some (Z.testbit (zget data ((off + bit) / 8)) ((off + bit) mod 8))).
  { rewrite to_bits_lookup by (unfold zlen in *; lia). by rewrite Z2Nat.id by lia. }
  rewrite (drop_S _ _ _ Hx), testbit_land by (apply Z.mod_pos_bound; lia). cbn [take bits_value].
  set (x := Z.testbit _ _). assert (Hbx : 0 <= Z.b2z x <= 1) by (by destruct x).
  assert (Hpow : 2 ^ bit <= 2 ^ 15) by (apply Z.pow_le_mono_r; lia).
  replace (u8 (Z.b2z x)) with (Z.b2z x) by (unfold u8; rewrite Z.mod_small by lia; done).
  rewrite u64_id by (rewrite Z.shiftl_mul_pow2 by lia; nia).
  rewrite Z.lor_comm, lor_shiftl by lia. rewrite IH; [|lia..|rewrite Z.pow_add_r by lia; nia].
  replace (Z.to_nat (off + (bit + 1))) with (S (Z.to_nat (off + bit))) by lia. rewrite Z.pow_add_r by lia. change (2 ^ 1) with 2. lia.
Qed.
Lemma ReadCompressCode_ok data off w : 8 * zlen data < 2 ^ 60 -> 0 <= off -> 9 <= w <= 16 -> off + w <= 8 * zlen data ->
  ReadCompressCode data off w = Some (bits_value (take (Z.to_nat w) (drop (Z.to_nat off) (to_bits data)))).
Proof.
  intros Hd Ho Hw Hle. unfold ReadCompressCode, CompressMaxBits.
  rewrite (proj2 (Z.eqb_neq w 0)), Z.gtb_ltb, (proj2 (Z.ltb_ge 16 w)), (u64_id (zlen data * 8)) by lia. cbn [orb].
  rewrite u64_id by lia. guard_false. f_equal. rewrite code_loop_ok by lia. rewrite Z.mul_1_l, Z.add_0_l, Z.add_0_r. done.
Qed.
Lemma HasComplete_iff data off w : 8 * zlen data < 2 ^ 60 -> 0 <= off -> 9 <= w <= 16 ->
  HasCompleteCompressCode (dataBits data) off w = (off + w <=? 8 * zlen data).
Proof.
  intros Hd Ho Hw. pose proof (zlen_nonneg data). unfold HasCompleteCompressCode, dataBits. rewrite (u64_id (zlen data * 8)), (u64_id (w - 1)) by lia.
  rewrite (proj2 (Z.eqb_neq w 0)) by lia. cbn [orb].
  destruct (Z.ltb_spec (zlen data * 8) (w - 1)); [symmetry; apply Z.leb_gt; lia|]. rewrite u64_id by lia.
  destruct (Z.ltb_spec off (zlen data * 8 - (w - 1))), (Z.leb_spec (off + w) (8 * zlen data)); lia.
Qed.
Lemma Align_ok off w : 0 <= off < 2 ^ 60 -> 9 <= w <= 16 -> AlignCompressBitOffset off w = group_end 0 off w.
Proof.
  intros Ho Hw. unfold AlignCompressBitOffset, group_end. rewrite (proj2 (Z.eqb_neq w 0)) by lia.
  rewrite (u64_id (Z.shiftl w 3)) by (rewrite Z.shiftl_mul_pow2 by lia; lia).
  replace (Z.shiftl w 3) with (8 * w) by (rewrite Z.shiftl_mul_pow2 by lia; lia).
  assert (E : (off -! 1) +! (8 * w) = off - 1 + 8 * w).
  { unfold u64. rewrite Z.add_mod_idemp_l by lia. apply Z.mod_small. lia. }
  rewrite E, Z.sub_0_r, Z.add_0_l. replace (off + 8 * w - 1) with (off - 1 + 8 * w) by lia.
  pose proof (Z.div_mod (off - 1 + 8 * w) (8 * w) ltac:(lia)). pose proof (Z.mod_pos_bound (off - 1 + 8 * w) (8 * w) ltac:(lia)).
  rewrite u64_id by lia. lia.
Qed.
Lemma group_end_bounds base off w : base <= off -> 0 < w -> off <= group_end base off w < off + 8 * w.
Proof.
  intros. unfold group_end. set (x := off - base + 8 * w - 1).
  pose proof (Z.div_mod x (8 * w) ltac:(lia)). pose proof (Z.mod_pos_bound x (8 * w) ltac:(lia)). lia.
Qed.

(** ** The dictionary *)

Lemma string_of_grow blockMode maxCodes T prev s c t :
  string_of blockMode T c = Some t -> string_of blockMode (grow blockMode maxCodes T prev s) c = Some t.
Proof.
  unfold string_of, grow. case_if; [done|]. case_if; [done|]. intros Hc. destruct prev as [p|]; [|done].
  case_if; [|done]. by apply lookup_app_l_Some.
Qed.
Lemma string_of_old blockMode maxCodes T prev s c : c < next_code blockMode T ->
  string_of blockMode (grow blockMode maxCodes T prev s) c = string_of blockMode T c.
Proof.
  intros Hc. unfold string_of, grow. case_if; [done|]. case_if; [done|]. destruct prev as [p|]; [|done]. case_if; [|done].
  apply lookup_app_l. unfold next_code, zlen in Hc. bool_prop. lia.
Qed.
Lemma string_of_new blockMode T t : string_of blockMode (T ++ [t]) (next_code blockMode T) = Some t.
Proof.
  unfold string_of, next_code. pose proof (zlen_nonneg T). assert (256 <= first_free blockMode) by (unfold first_free; by destruct blockMode).
  rewrite (proj2 (Z.ltb_ge _ _)), (proj2 (Z.ltb_ge _ _)) by lia. rewrite lookup_app_r by (unfold zlen; lia).
  by replace (Z.to_nat _ - length T)%nat with 0%nat by (unfold zlen; lia).
Qed.
Lemma next_code_snoc blockMode T t : next_code blockMode (T ++ [t]) = next_code blockMode T + 1.
Proof. unfold next_code. rewrite zlen_app. change (zlen [t]) with 1. lia. Qed.
Lemma first_free_bounds blockMode : 256 <= first_free blockMode <= 257.
Proof. by destruct blockMode. Qed.
Lemma next_code_ge blockMode T : first_free blockMode <= next_code blockMode T.
Proof. unfold next_code. pose proof (zlen_nonneg T). lia. Qed.

(** The arrays hold, for each code entered, the code of the string without its last
    byte, and that byte. *)
Definition table_ok (blockMode : bool) (T : list (list Z)) (prefixes suffixes : list Z) : Prop :=
  forall c s, first_free blockMode <= c < next_code blockMode T -> string_of blockMode T c = Some s ->
  exists s', 0 <= zget prefixes c < c /\ string_of blockMode T (zget prefixes c) = Some s' /\ s = s' ++ [zget suffixes c].

Section Expand.
Variable blockMode : bool.
Variables (T : list (list Z)) (prefixes suffixes : list Z).
Hypothesis HT : table_ok blockMode T prefixes suffixes.

Lemma string_code c s : string_of blockMode T c = Some s -> 256 <= c -> first_free blockMode <= c < next_code blockMode T.
Proof.
  unfold string_of. intros Hs Hc. rewrite (proj2 (Z.ltb_ge c 256)) in Hs by lia.
  destruct (Z.ltb_spec c (first_free blockMode)); [done|]. apply lookup_lt_Some in Hs. unfold next_code, zlen. lia.
Qed.
Lemma string_length c s : 0 <= c -> string_of blockMode T c = Some s -> 1 <= zlen s <= Z.max 1 (c - 254).
Proof.
  intros Hc. revert s. apply (Zlt_0_ind (fun c => forall s, string_of blockMode T c = Some s -> 1 <= zlen s <= Z.max 1 (c - 254))); [|done].
  clear c Hc. intros c IH Hc s Hs. destruct (Z.lt_ge_cases c 256) as [H|H].
  - unfold string_of in Hs. rewrite (proj2 (Z.ltb_lt c 256)) in Hs by lia. injection Hs as <-. change (zlen [c]) with 1. lia.
  - destruct (HT c s (string_code c s Hs H) Hs) as (s' & Hp & Hs' & ->). destruct (IH _ Hp s' Hs') as [H1 H2].
    rewrite zlen_app. change (zlen [_]) with 1. lia.
Qed.
Lemma expand_loop_ok capacity s : forall fuel c stack, string_of blockMode T c = Some s -> 0 <= c ->
  zlen stack + zlen s <= capacity -> (length s <= fuel)%nat ->
  expand_loop fuel prefixes suffixes (next_code blockMode T) capacity c stack = Some (stack ++ rev s, default 0 (head s)).
Proof.
  induction s as [|x s IH] using rev_ind; intros fuel c stack Hs Hc Hcap Hf.
  { apply string_length in Hs; [|done]. change (zlen []) with 0 in Hs. lia. }
  rewrite zlen_app in Hcap. change (zlen [x]) with 1 in Hcap. pose proof (zlen_nonneg s). rewrite length_app in Hf. cbn [length] in Hf.
  destruct fuel as [|fuel]; [lia|]. cbn [expand_loop]. rewrite Z.geb_leb. destruct (Z.leb_spec 256 c) as [H256|H256].
  - pose proof (string_code c _ Hs H256) as Hcode. destruct (HT c _ Hcode Hs) as (s' & Hp & Hs' & E). apply app_inj_tail in E as [<- ->].
    rewrite !Z.geb_leb, (proj2 (Z.leb_gt _ _)), (proj2 (Z.leb_gt _ _)) by lia. cbn [orb].
    rewrite (IH fuel _ (stack ++ [zget suffixes c])); [|done|lia|rewrite zlen_app; change (zlen [_]) with 1; lia|lia].
    rewrite rev_app_distr, <- app_assoc. apply string_length in Hs'; [|lia]. destruct s as [|y s]; [|done]. change (zlen []) with 0 in Hs'. lia.
  - unfold string_of in Hs. rewrite (proj2 (Z.ltb_lt c 256)) in Hs by lia. injection Hs as Hs.
    destruct s as [|y s]; [|destruct s; discriminate Hs]. injection Hs as ->. rewrite Z.geb_leb, (proj2 (Z.leb_gt _ _)) by (change (zlen []) with 0 in *; lia).
    cbn [app rev head default]. unfold u8. by rewrite Z.mod_small by lia.
Qed.
End Expand.
Lemma Expand_ok blockMode T prefixes suffixes maxCodes c s : table_ok blockMode T prefixes suffixes ->
  string_of blockMode T c = Some s -> 0 <= c < next_code blockMode T -> next_code blockMode T <= maxCodes ->
  ExpandCompressCode c prefixes suffixes (next_code blockMode T) maxCodes = Some (rev s, default 0 (head s)).
Proof.
  intros HT Hs Hc Hm. unfold ExpandCompressCode. pose proof (next_code_ge blockMode T). pose proof (first_free_bounds blockMode).
  rewrite (proj2 (Z.eqb_neq maxCodes 0)) by lia. pose proof (string_length _ _ _ _ HT c s (proj1 Hc) Hs) as Hl.
  rewrite (expand_loop_ok _ _ _ _ HT maxCodes s); [done|done|lia| |]; unfold zlen in *; cbn [length]; lia.
Qed.

(** ** One code *)

(** How many bytes there are for the output. *)
Definition room (destination : bool) (capacity : Z) : Z := if destination then capacity else 0.

Lemma emit_loop_spec destination capacity top output :
  0 <= capacity -> zlen output <= room destination capacity ->
  if zlen output + zlen top <=? room destination capacity
  then emit_loop destination capacity top output = (STATUS_SUCCESS, output ++ top)
  else exists output', emit_loop destination capacity top output = (STATUS_BUFFER_TOO_SMALL, output')
       /\ zlen output' <= room destination capacity.
Proof.
  intros Hc. revert output. induction top as [|b top IH]; intros output Ho; cbn [emit_loop].
  { change (zlen []) with 0. rewrite (proj2 (Z.leb_le _ _)) by lia. by rewrite app_nil_r. }
  unfold AppendOutputByte. rewrite zlen_cons. pose proof (zlen_nonneg top). pose proof (zlen_nonneg output).
  assert (E : (zlen output >=? capacity) || negb destination = (room destination capacity <=? zlen output)).
  { unfold room. rewrite Z.geb_leb. destruct destination; cbn [negb]; [by rewrite orb_false_r|]. rewrite orb_true_r. symmetry. apply Z.leb_le. lia. }
  rewrite E. destruct (Z.leb_spec (room destination capacity) (zlen output)).
  - rewrite (proj2 (Z.leb_gt _ _)) by lia. by exists output.
  - assert (El : zlen (output ++ [b]) = zlen output + 1) by (by rewrite zlen_app). specialize (IH (output ++ [b]) ltac:(lia)).
    rewrite El in IH. replace (zlen output + (1 + zlen top)) with (zlen output + 1 + zlen top) by lia.
    case_if; [|done]. by rewrite IH, <- app_assoc.
Qed.

Lemma zget_entry (l : list Z) i v d : 0 <= i < zlen l -> 0 <= d ->
  zget (<[Z.to_nat i:=v]> l) d = if i =? d then v else zget l d.
Proof.
  intros Hl Hd. unfold zget, zlen in *. rewrite !nth_lookup. destruct (Z.eqb_spec i d) as [->|Hne].
  - by rewrite list_lookup_insert_eq by lia.
  - by rewrite list_lookup_insert_ne by lia.
Qed.

(** The variables of the decoder at a place of the bits, with a dictionary. *)
Record at_place (blockMode : bool) (maxBits : Z) (s : lz) (p : place) (T : list (list Z)) (previous : option (list Z)) : Prop := {
  at_offset : lz_bitOffset s = pl_offset p;
  at_width : lz_codeBits s = pl_width p;
  at_max : lz_maxCodeForBits s = 2 ^ pl_width p - 1;
  at_next : lz_nextCode s = pl_next p;
  at_code : pl_next p = next_code blockMode T;
  at_full : next_code blockMode T <= 2 ^ maxBits;
  at_old : match previous with
           | None => lz_oldCode s = NoCode
           | Some t => 0 <= lz_oldCode s < next_code blockMode T /\ string_of blockMode T (lz_oldCode s) = Some t
           end;
  at_previous : pl_previous p = bool_decide (is_Some previous);
  at_prefixes : zlen (lz_prefixes s) = 2 ^ maxBits;
  at_suffixes : zlen (lz_suffixes s) = 2 ^ maxBits;
  at_table : table_ok blockMode T (lz_prefixes s) (lz_suffixes s);
  at_positive : 0 <= pl_offset p;
  at_widths : 9 <= pl_width p <= maxBits;
}.

(** Compute the fields of an updated record. *)
Ltac fields := cbn [lz_bitOffset lz_codeBits lz_maxCodeForBits lz_nextCode lz_oldCode lz_prefixes lz_suffixes lz_output
       pl_start pl_offset pl_width pl_next pl_previous].
Ltac lz_fields := cbv [set_field]; fields.

Section Turn.
Variable data : list Z.
Variable destination : bool.
Variable capacity maxBits : Z.
Variable blockMode : bool.
Hypothesis Hdata : 8 * zlen data < 2 ^ 59.
Hypothesis Hcapacity : 0 <= capacity < 2 ^ 62.
Hypothesis Hbits : 9 <= maxBits <= 16.

Abbreviation maxCodes := (2 ^ maxBits).
Abbreviation fits n := (n <=? room destination capacity).

Lemma maxCodes_range : 512 <= maxCodes <= 65536.
Proof using Hbits. split; [change 512 with (2 ^ 9)|change 65536 with (2 ^ 16)]; apply Z.pow_le_mono_r; lia. Qed.

Lemma emit_code_spec s p T previous code :
  at_place blockMode maxBits s p T previous -> 0 <= code < maxCodes -> is_clear blockMode code = false ->
  zlen (lz_output s) <= room destination capacity ->
  match meaning blockMode maxCodes T previous code with
  | Some t =>
      t <> []
      /\ if fits (zlen (lz_output s) + zlen t)
         then emit_code destination capacity maxCodes code s = (STATUS_SUCCESS, default 0 (head t), lz_output s ++ t)
         else exists first output, emit_code destination capacity maxCodes code s = (STATUS_BUFFER_TOO_SMALL, first, output)
              /\ zlen output <= room destination capacity
  | None => emit_code destination capacity maxCodes code s = (STATUS_INVALID_NETWORK_RESPONSE, 0, lz_output s)
  end.
Proof using Hcapacity Hbits.
  clear Hdata. intros Hs Hcode Hclear Ho. pose proof maxCodes_range. pose proof (first_free_bounds blockMode). pose proof (next_code_ge blockMode T).
  destruct Hs as [_ _ _ Hn Hn' Hfull Hold _ _ _ HT _ _]. unfold meaning, emit_code. rewrite Hn, Hn'.
  destruct (Z.ltb_spec code (next_code blockMode T)) as [Hlt|Hge].
  - assert (Hsome : is_Some (string_of blockMode T code)).
    { unfold string_of. case_if; [done|]. bool_prop. destruct (Z.ltb_spec code (first_free blockMode)).
      - unfold first_free, is_clear in *. destruct blockMode; [|lia]. cbn [andb] in Hclear. bool_prop. lia.
      - apply lookup_lt_is_Some. unfold next_code, zlen in Hlt. lia. }
    destruct Hsome as [t Ht]. rewrite Ht. rewrite (Expand_ok _ _ _ _ _ _ _ HT Ht) by lia. unfold EmitReverseStack.
    rewrite List.rev_involutive. pose proof (string_length _ _ _ _ HT code t ltac:(lia) Ht) as Hl. split; [intros ->; change (zlen []) with 0 in Hl; lia|].
    pose proof (emit_loop_spec destination capacity t (lz_output s) ltac:(lia) Ho) as Hem. case_if.
    + by rewrite Hem.
    + destruct Hem as (output' & -> & Hl'). by eexists _, _.
  - destruct previous as [t|].
    + destruct Hold as [Hold1 Hold2]. rewrite (proj2 (Z.ltb_lt code maxCodes)) by lia. rewrite andb_true_r.
      assert (Hno : (lz_oldCode s =? NoCode) = false) by (apply Z.eqb_neq; unfold NoCode, MAXU64; lia).
      rewrite Hno. cbn [negb]. rewrite andb_true_r. case_if; [|done].
      rewrite (Expand_ok _ _ _ _ _ _ _ HT Hold2) by lia. unfold EmitReverseStack. rewrite List.rev_involutive.
      pose proof (string_length _ _ _ _ HT _ t (proj1 Hold1) Hold2) as Hl. destruct t as [|x t]; [rewrite zlen_nil in Hl; lia|].
      change (ztake 1 (x :: t)) with [x]. cbn [default head]. split; [done|].
      pose proof (emit_loop_spec destination capacity (x :: t) (lz_output s) ltac:(lia) Ho) as Hem.
      rewrite (zlen_app (x :: t)). change (zlen [x]) with 1. destruct (fits (zlen (lz_output s) + zlen (x :: t))) eqn:E1.
      * rewrite Hem. cbn [NT_SUCCESS negb].
        pose proof (emit_loop_spec destination capacity [x] (lz_output s ++ x :: t) ltac:(lia)) as Hem2.
        rewrite zlen_app in Hem2. change (zlen [x]) with 1 in Hem2. rewrite Z.add_assoc. cbn [emit_loop] in Hem2.
        specialize (Hem2 ltac:(bool_lia)). case_if.
        -- destruct (AppendOutputByte _ _ _ _); [|done]. injection Hem2 as ->. by rewrite <- app_assoc.
        -- destruct Hem2 as (o & Ho2 & Hl2). destruct (AppendOutputByte _ _ _ _); [done|]. injection Ho2 as <-. by eexists _, _.
      * destruct Hem as (output' & -> & Hl'). cbn [NT_SUCCESS negb]. rewrite (proj2 (Z.leb_gt _ _)) by bool_lia. by eexists _, _.
    + rewrite Hold, Z.eqb_refl, andb_false_r. done.
Qed.

(** A code read is in the dictionary afterwards. *)
Lemma code_entered T previous code t :
  meaning blockMode maxCodes T previous code = Some t -> 0 <= code ->
  code < next_code blockMode (grow blockMode maxCodes T previous t)
  /\ string_of blockMode (grow blockMode maxCodes T previous t) code = Some t.
Proof using Hbits.
  clear Hdata Hcapacity. intros Hm Hcode. unfold meaning in Hm. destruct (Z.ltb_spec code (next_code blockMode T)) as [Hlt|Hge].
  - split; [|by apply string_of_grow]. unfold grow. destruct previous; [|done]. case_if; [rewrite next_code_snoc|]; lia.
  - destruct previous as [q|]; [|done]. destruct (_ && _) eqn:E; [|done]. injection Hm as <-. bool_prop.
    unfold grow. rewrite (proj2 (Z.ltb_lt _ _)), next_code_snoc by lia. split; [lia|]. subst code.
    replace (ztake 1 (q ++ ztake 1 q)) with (ztake 1 q) by (by destruct q). apply string_of_new.
Qed.
(** The arrays after an entry. *)
Lemma table_ok_entry T q t old prefixes suffixes :
  table_ok blockMode T prefixes suffixes -> zlen prefixes = maxCodes -> zlen suffixes = maxCodes ->
  0 <= old < next_code blockMode T -> string_of blockMode T old = Some q -> next_code blockMode T < maxCodes -> t <> [] ->
  table_ok blockMode (T ++ [q ++ ztake 1 t]) (<[Z.to_nat (next_code blockMode T) := u16 old]> prefixes)
    (<[Z.to_nat (next_code blockMode T) := default 0 (head t)]> suffixes).
Proof using Hbits.
  clear Hdata Hcapacity. intros HT Hpre Hsuf Hold Hq Hroom Ht c u Hc Hu. pose proof maxCodes_range. pose proof (first_free_bounds blockMode).
  pose proof (next_code_ge blockMode T). rewrite next_code_snoc in Hc.
  assert (Eg : T ++ [q ++ ztake 1 t] = grow blockMode maxCodes T (Some q) t) by (unfold grow; by rewrite (proj2 (Z.ltb_lt _ _)) by lia).
  rewrite !zget_entry by lia. destruct (Z.eqb_spec (next_code blockMode T) c) as [<-|Hne].
  - rewrite string_of_new in Hu. injection Hu as <-. exists q. unfold u16. rewrite Z.mod_small by lia. split_and!; [lia|lia| |by destruct t].
    rewrite Eg. by apply string_of_grow.
  - rewrite Eg in *. rewrite string_of_old in Hu by lia. destruct (HT c u ltac:(lia) Hu) as (u' & Hr & Hu' & E). exists u'.
    split_and!; [lia|lia|by apply string_of_grow|done].
Qed.

Lemma add_entry_fields first o w m n old prefixes suffixes output offset written code :
  (add_entry maxCodes first ((MkLz o w m n old prefixes suffixes output) <| lz_bitOffset := offset |> <| lz_output := written |>))
    <| lz_oldCode := code |>
  = if negb (old =? NoCode) && (n <? maxCodes)
    then MkLz offset w m (n +! 1) code (<[Z.to_nat n := u16 old]> prefixes) (<[Z.to_nat n := first]> suffixes) written
    else MkLz offset w m n code prefixes suffixes written.
Proof using. clear. unfold add_entry. cbn [set_field lz_oldCode lz_nextCode]. by destruct (negb (old =? NoCode) && (n <? maxCodes)). Qed.

(** What is entered after a code. *)
Lemma add_entry_at s p T previous code t output :
  at_place blockMode maxBits s p T previous -> 0 <= code < maxCodes -> is_clear blockMode code = false ->
  meaning blockMode maxCodes T previous code = Some t -> t <> [] ->
  at_place blockMode maxBits
    ((add_entry maxCodes (default 0 (head t)) (s <| lz_bitOffset := pl_offset p + pl_width p |> <| lz_output := output |>)) <| lz_oldCode := code |>)
    (place_after false blockMode maxBits code p) (grow blockMode maxCodes T previous t) (Some t).
Proof using Hbits.
  clear Hdata Hcapacity. intros Hs Hcode Hclear Hm Ht. pose proof maxCodes_range. pose proof (first_free_bounds blockMode). pose proof (next_code_ge blockMode T).
  destruct (code_entered _ _ _ _ Hm (proj1 Hcode)) as [Hlater1 Hlater2].
  destruct Hs as [Ho Hw Hmax Hn Hn' Hfull Hold Hp Hpre Hsuf HT Hpos Hwid]. destruct s as [o1 o2 o3 o4 old prefixes suffixes o8].
  cbn [lz_bitOffset lz_codeBits lz_maxCodeForBits lz_nextCode lz_oldCode lz_prefixes lz_suffixes] in *. subst.
  unfold place_after. rewrite Hclear, add_entry_fields.
  assert (Eold : negb (old =? NoCode) = pl_previous p).
  { rewrite Hp. destruct previous as [q|]; [|by rewrite Hold, Z.eqb_refl].
    rewrite (proj2 (Z.eqb_neq _ _)) by (unfold NoCode, MAXU64; lia). by rewrite bool_decide_true by (by eexists). }
  rewrite Eold. clear Eold. destruct previous as [q|].
  - rewrite bool_decide_true in Hp by (by eexists). rewrite Hp. cbn [andb].
    assert (Eg : grow blockMode maxCodes T (Some q) t = if next_code blockMode T <? maxCodes then T ++ [q ++ ztake 1 t] else T) by done.
    rewrite Eg in *. rewrite Hn'. destruct (Z.ltb_spec (next_code blockMode T) maxCodes) as [Hroom|Hroom].
    + destruct Hold as [Hold1 Hold2]. constructor; fields; try done; try lia.
      all: rewrite ?next_code_snoc in *; try lia.
      * by rewrite u64_id by lia.
      * split; [lia|done].
      * unfold zlen. by rewrite length_insert.
      * unfold zlen. by rewrite length_insert.
      * by apply table_ok_entry.
    + constructor; fields; first [done|lia|split; [lia|done]].
  - rewrite bool_decide_false in Hp by (by intros []). rewrite Hp. cbn [andb]. constructor; fields; first [done|lia|split; [lia|done]].
Qed.

(** ** All codes *)

Abbreviation bits := (to_bits data).
(** The bytes that the codes from a place on stand for. *)
Definition denotes (T : list (list Z)) (previous : option (list Z)) (p : place) (o : list Z) : Prop :=
  exists codes, stream false blockMode maxBits bits codes p /\ lzw_decode blockMode maxCodes T previous codes = Some o.

Definition code_at (q : place) : Z := bits_value (take (Z.to_nat (pl_width q)) (drop (Z.to_nat (pl_offset q)) bits)).

Lemma bits_length : Z.of_nat (length bits) = 8 * zlen data.
Proof using. rewrite to_bits_length. unfold zlen. lia. Qed.

Lemma denotes_end T previous p o : let q := place_widened false maxBits p in
  8 * zlen data < pl_offset q + pl_width q -> denotes T previous p o <-> o = [].
Proof using.
  intros q Hq. split.
  - intros ([|code codes] & Hs & Hd); [by injection Hd as <-|]. cbn [stream] in Hs. fold q in Hs. rewrite bits_length in Hs. lia.
  - intros ->. exists []. split; [|done]. cbn [stream]. fold q. rewrite bits_length. lia.
Qed.
Lemma denotes_clear T previous p o : let q := place_widened false maxBits p in
  pl_offset q + pl_width q <= 8 * zlen data -> is_clear blockMode (code_at q) = true ->
  denotes T previous p o <-> denotes [] None (place_after false blockMode maxBits (code_at q) q) o.
Proof using.
  intros q Hq Hc. split.
  - intros ([|code codes] & Hs & Hd); cbn [stream] in Hs; fold q in Hs; rewrite bits_length in Hs; [lia|].
    destruct Hs as (_ & <- & Hs). cbn [lzw_decode] in Hd. unfold code_at in *. rewrite Hc in Hd. by exists codes.
  - intros (codes & Hs & Hd). exists (code_at q :: codes). split; [|cbn [lzw_decode]; by rewrite Hc].
    cbn [stream]. fold q. rewrite bits_length. by split_and!.
Qed.
Lemma denotes_code T previous p o : let q := place_widened false maxBits p in
  pl_offset q + pl_width q <= 8 * zlen data -> is_clear blockMode (code_at q) = false ->
  denotes T previous p o <->
  exists t o', meaning blockMode maxCodes T previous (code_at q) = Some t /\ o = t ++ o'
    /\ denotes (grow blockMode maxCodes T previous t) (Some t) (place_after false blockMode maxBits (code_at q) q) o'.
Proof using.
  intros q Hq Hc. split.
  - intros ([|code codes] & Hs & Hd); cbn [stream] in Hs; fold q in Hs; rewrite bits_length in Hs; [lia|].
    destruct Hs as (_ & <- & Hs). fold (code_at q) in *. cbn [lzw_decode] in Hd. rewrite Hc in Hd.
    destruct (meaning _ _ _ _ _) as [t|]; [|done]. cbn [mbind option_bind] in Hd.
    destruct (lzw_decode _ _ _ _ codes) as [o'|] eqn:E; [|done]. injection Hd as <-. exists t, o'. split_and!; [done..|by exists codes].
  - intros (t & o' & Hm & -> & codes & Hs & Hd). exists (code_at q :: codes). split.
    + cbn [stream]. fold q. rewrite bits_length. by split_and!.
    + cbn [lzw_decode]. by rewrite Hc, Hm; cbn [mbind option_bind]; rewrite Hd.
Qed.

(** The place is where the next code is read. *)
Lemma widen_at s p T previous : at_place blockMode maxBits s p T previous -> pl_offset p <= 8 * zlen data + 128 ->
  at_place blockMode maxBits (if widens maxBits s then widen s else s) (place_widened false maxBits p) T previous
  /\ pl_offset p <= pl_offset (place_widened false maxBits p) /\ pl_width p <= pl_width (place_widened false maxBits p)
  /\ lz_output (if widens maxBits s then widen s else s) = lz_output s
  /\ (widens maxBits s = false -> place_widened false maxBits p = p).
Proof using Hdata Hbits.
  clear Hcapacity. intros Hs Hp. pose proof Hs as [Ho Hw Hmax Hn Hn' Hfull Hold Hpv Hpre Hsuf HT Hpos Hwid]. unfold widens, place_widened.
  rewrite Hn, Hmax, Hw. destruct (_ && _) eqn:E; [|by split_and!]. bool_prop. cbn [base_of pl_offset pl_width].
  pose proof (zlen_nonneg data). pose proof (group_end_bounds 0 (pl_offset p) (pl_width p) ltac:(lia) ltac:(lia)).
  split_and!; [|lia|lia|done|done]. unfold widen. constructor; lz_fields; try done; rewrite ?Hw, ?Ho; try lia.
  - rewrite Align_ok by lia. done.
  - by rewrite u64_id by lia.
  - rewrite (u64_id (pl_width p + 1)) by lia. assert (2 ^ (pl_width p + 1) <= 2 ^ 16) by (apply Z.pow_le_mono_r; lia).
    rewrite Z.shiftl_1_l. assert (0 < 2 ^ (pl_width p + 1)) by lia. rewrite (u64_id (2 ^ _)), u64_id by lia. done.
Qed.

Lemma clear_at s p T previous : at_place blockMode maxBits s p T previous -> blockMode = true ->
  at_place blockMode maxBits (clear (s <| lz_bitOffset := pl_offset p + pl_width p |>))
    (place_after false blockMode maxBits 256 p) [] None.
Proof using Hbits.
  clear Hdata Hcapacity. intros [Ho Hw Hmax Hn Hn' Hfull Hold Hpv Hpre Hsuf HT Hpos Hwid] Hb. pose proof maxCodes_range.
  unfold place_after, is_clear. rewrite Hb. cbn [andb Z.eqb Pos.eqb]. unfold clear. constructor; lz_fields; try done; try lia.
  - change (next_code true []) with 257. lia.
  - intros c t Hc. change (next_code true []) with (first_free true) in Hc. lia.
Qed.

Lemma code_at_range q : 9 <= pl_width q <= maxBits -> 0 <= code_at q < maxCodes.
Proof using Hbits.
  clear Hdata Hcapacity. intros Hq. unfold code_at. set (l := take _ _). pose proof (bits_value_range l).
  assert (2 ^ Z.of_nat (length l) <= maxCodes); [|lia]. apply Z.pow_le_mono_r; [lia|]. unfold l. rewrite length_take. lia.
Qed.

(** The loop ends; it succeeds exactly when the codes have a meaning that fits, and
    then writes it. *)
Definition loop_result (T : list (list Z)) (previous : option (list Z)) (p : place) (output : list Z) (r : NTSTATUS * lz) : Prop :=
  let '(status, s') := r in
  zlen (lz_output s') <= room destination capacity
  /\ (status = STATUS_SUCCESS \/ status = STATUS_INVALID_NETWORK_RESPONSE \/ status = STATUS_BUFFER_TOO_SMALL)
  /\ (status = STATUS_SUCCESS -> exists o, lz_output s' = output ++ o)
  /\ forall o, (status = STATUS_SUCCESS /\ lz_output s' = output ++ o)
     <-> (denotes T previous p o /\ zlen output + zlen o <= room destination capacity).

Section Steps.
Variables (T : list (list Z)) (previous : option (list Z)) (p : place) (output : list Z).
Abbreviation q := (place_widened false maxBits p).
Abbreviation after := (place_after false blockMode maxBits (code_at q) q).

Lemma result_end status s : 8 * zlen data < pl_offset q + pl_width q -> zlen output <= room destination capacity ->
  status = STATUS_SUCCESS -> lz_output s = output -> loop_result T previous p output (status, s).
Proof using.
  intros Hend Ho -> Es. unfold loop_result. rewrite Es. split_and!; [done|by left|intros _; exists []; by rewrite app_nil_r|].
  intros o. rewrite (denotes_end T previous p o Hend). split; [intros [_ E]|intros [-> _]; by rewrite app_nil_r].
  apply (f_equal length) in E. rewrite length_app in E. destruct o; [|cbn in E; lia]. split; [done|]. change (zlen []) with 0. lia.
Qed.
Lemma result_fail status s : status = STATUS_INVALID_NETWORK_RESPONSE \/ status = STATUS_BUFFER_TOO_SMALL ->
  zlen (lz_output s) <= room destination capacity ->
  (forall o, denotes T previous p o -> room destination capacity < zlen output + zlen o) ->
  loop_result T previous p output (status, s).
Proof using.
  intros Hst Hl Hno. unfold loop_result. split_and!; [done|by right|by destruct Hst as [-> | ->]|].
  intros o. split; [intros [-> _]; by destruct Hst|]. intros [Hd Hle]. apply Hno in Hd. lia.
Qed.

Hypothesis Hmore : pl_offset q + pl_width q <= 8 * zlen data.
Lemma result_clear r : is_clear blockMode (code_at q) = true -> loop_result [] None after output r ->
  loop_result T previous p output r.
Proof using Hmore.
  intros Hc. destruct r as [status s]. intros (R1 & R2 & R3 & R4). split_and!; try done.
  intros o. rewrite R4. by rewrite (denotes_clear T previous p o Hmore Hc).
Qed.
Hypothesis Hcode : is_clear blockMode (code_at q) = false.
Lemma result_code t r : meaning blockMode maxCodes T previous (code_at q) = Some t ->
  loop_result (grow blockMode maxCodes T previous t) (Some t) after (output ++ t) r -> loop_result T previous p output r.
Proof using Hmore Hcode.
  intros Em. destruct r as [status s]. intros (R1 & R2 & R3 & R4). split_and!; try done.
  - intros Est. destruct (R3 Est) as [o Eo]. exists (t ++ o). by rewrite Eo, app_assoc.
  - intros o. rewrite (denotes_code T previous p o Hmore Hcode). split.
    + intros [Est Eo]. destruct (R3 Est) as [o' Eo']. destruct (proj1 (R4 o') (conj Est Eo')) as [Hd Hl].
      rewrite Eo', <- app_assoc in Eo. apply app_inv_head in Eo as <-. split; [by exists t, o'|]. rewrite !zlen_app in *. lia.
    + intros [(t' & o' & Et & -> & Hd) Hl]. rewrite Em in Et. injection Et as <-. rewrite zlen_app in Hl.
      destruct (proj2 (R4 o')) as [Est Eo']; [split; [done|rewrite zlen_app; lia]|]. by rewrite Eo', <- app_assoc.
Qed.
(** What a failed code says of the bytes meant. *)
Lemma no_meaning : meaning blockMode maxCodes T previous (code_at q) = None -> forall o, ~ denotes T previous p o.
Proof using Hmore Hcode. intros Em o (t & o' & Et & _)%(denotes_code T previous p o Hmore Hcode). by rewrite Em in Et. Qed.
Lemma no_room t : meaning blockMode maxCodes T previous (code_at q) = Some t -> forall o, denotes T previous p o -> zlen t <= zlen o.
Proof using Hmore Hcode.
  intros Em o (t' & o' & Et & -> & _)%(denotes_code T previous p o Hmore Hcode). rewrite Em in Et. injection Et as <-.
  rewrite zlen_app. pose proof (zlen_nonneg o'). lia.
Qed.
End Steps.

Lemma lzw_loop_result fuel : forall s p T previous,
  at_place blockMode maxBits s p T previous -> pl_offset p <= 8 * zlen data ->
  (Z.to_nat (8 * zlen data - pl_offset p) < fuel)%nat -> zlen (lz_output s) <= room destination capacity ->
  loop_result T previous p (lz_output s) (lzw_loop data destination capacity maxBits blockMode maxCodes fuel s).
Proof using Hdata Hbits Hcapacity.
  induction fuel as [|fuel IH]; intros s p T previous Hs Hp Hf Ho; [lia|]. cbn [lzw_loop].
  destruct (widen_at _ _ _ _ Hs ltac:(lia)) as (Hs' & Hge & Hgw & Hout & Hsame).
  set (q := place_widened false maxBits p) in *. set (sw := if widens maxBits s then widen s else s) in *.
  pose proof (at_positive _ _ _ _ _ _ Hs) as Hpos. pose proof (at_widths _ _ _ _ _ _ Hs) as Hwid. pose proof (at_widths _ _ _ _ _ _ Hs') as Hwid'.
  rewrite (at_offset _ _ _ _ _ _ Hs), (at_width _ _ _ _ _ _ Hs), (at_offset _ _ _ _ _ _ Hs'), (at_width _ _ _ _ _ _ Hs').
  rewrite !HasComplete_iff by lia.
  destruct (Z.leb_spec (pl_offset q + pl_width q) (8 * zlen data)) as [Hmore|Hend].
  2:{ destruct (Z.leb_spec (pl_offset p + pl_width p) (8 * zlen data)); cbn [negb]; [|by apply result_end].
      destruct (widens maxBits s) eqn:Ew; cbn [andb negb]; [by apply result_end|]. rewrite (Hsame eq_refl) in Hend. lia. }
  rewrite (proj2 (Z.leb_le (pl_offset p + pl_width p) _)) by lia. cbn [negb]. rewrite andb_false_r.
  rewrite ReadCompressCode_ok by lia. fold (code_at q). rewrite (u64_id (pl_offset q + pl_width q)) by lia.
  set (code := code_at q). assert (Hcode : 0 <= code < maxCodes) by (by apply code_at_range).
  assert (Hafter : pl_offset (place_after false blockMode maxBits code q) = pl_offset q + pl_width q).
  { unfold place_after. by destruct (is_clear blockMode code). }
  change (blockMode && (code =? CompressClearCode)) with (is_clear blockMode code).
  destruct (is_clear blockMode code) eqn:Ec.
  - pose proof Ec as [Eb E256]%andb_true_iff. apply Z.eqb_eq in E256.
    pose proof (clear_at _ _ _ _ Hs' Eb) as Hs2. rewrite <- E256 in Hs2. apply result_clear; [done..|].
    rewrite <- Hout. apply (IH _ _ _ _ Hs2); [lia|lia|by change (zlen (lz_output sw) <= room destination capacity); rewrite Hout].
  - change (emit_code destination capacity maxCodes code (sw <| lz_bitOffset := pl_offset q + pl_width q |>))
      with (emit_code destination capacity maxCodes code sw).
    pose proof (emit_code_spec sw q T previous code Hs' Hcode Ec) as Hem. rewrite Hout in Hem. specialize (Hem Ho).
    destruct (meaning blockMode maxCodes T previous code) as [t|] eqn:Em.
    + destruct Hem as [Ht Hem]. destruct (Z.leb_spec (zlen (lz_output s) + zlen t) (room destination capacity)) as [Hfit|Hfull].
      * rewrite Hem. cbn [NT_SUCCESS negb].
        pose proof (add_entry_at sw q T previous code t (lz_output s ++ t) Hs' Hcode Ec Em Ht) as Hs2.
        set (s2 := (add_entry _ _ _) <| lz_oldCode := code |>) in *.
        assert (Ho' : lz_output s2 = lz_output s ++ t) by (unfold s2, add_entry; by case_if).
        apply (result_code _ _ _ _ Hmore Ec t); [done|]. rewrite <- Ho'. apply (IH _ _ _ _ Hs2); rewrite ?Ho', ?zlen_app; lia.
      * destruct Hem as (first & output & -> & Hl). apply result_fail; [by right|done|].
        intros o Hd. pose proof (no_room _ _ _ Hmore Ec t Em o Hd). lia.
    + rewrite Hem. apply result_fail; [by left|exact Ho|]. intros o Hd. by apply (no_meaning _ _ _ Hmore Ec Em) in Hd.
Qed.
End Turn.

(** ** The decoder on whole inputs *)

Definition flags_of (blockMode : bool) (maxBits : Z) : Z := maxBits + (if blockMode then CompressBlockModeFlag else 0).

Lemma lz_start_at blockMode maxBits : 9 <= maxBits <= 16 ->
  let zeros := replicate (Z.to_nat (2 ^ maxBits)) 0 in
  at_place blockMode maxBits (lz_start blockMode (2 ^ maxBits) zeros zeros) (place_start blockMode) [] None.
Proof.
  intros Hb zeros. pose proof (maxCodes_range maxBits Hb) as Hm. pose proof (first_free_bounds blockMode).
  assert (Hz : forall l : list Z, length l = 256%nat -> zlen (l ++ drop 256 zeros) = 2 ^ maxBits).
  { intros l Hl. unfold zlen. rewrite length_app, length_drop. unfold zeros. rewrite length_replicate. lia. }
  constructor; cbn [lz_start lz_bitOffset lz_codeBits lz_maxCodeForBits lz_nextCode lz_oldCode lz_prefixes lz_suffixes pl_offset pl_width pl_next pl_previous place_start];
    try done; try (by apply Hz).
  - unfold next_code. rewrite zlen_nil. lia.
  - unfold next_code. rewrite zlen_nil. lia.
  - intros c t Hc. unfold next_code in Hc. rewrite zlen_nil in Hc. lia.
  - cbn. lia.
Qed.

(** What the decoder does with the flags byte and the codes. *)
Lemma compress_unfold blockMode maxBits data destination capacity :
  9 <= maxBits <= 16 ->
  DecodeCompress (Bytes (CompressMagic0 :: CompressMagic1 :: flags_of blockMode maxBits :: data)) destination capacity true
  = let zeros := replicate (Z.to_nat (2 ^ maxBits)) 0 in
    let '(status, s) := lzw_loop data destination capacity maxBits blockMode (2 ^ maxBits) (S (Z.to_nat (8 * zlen data)))
                          (lz_start blockMode (2 ^ maxBits) zeros zeros) in
    (status, lz_output s).
Proof.
  intros Hb. unfold DecodeCompress. set (compressed := CompressMagic0 :: _).
  assert (Hl : (zlen compressed <? 3) = false).
  { apply Z.ltb_ge. unfold compressed. rewrite !zlen_cons. pose proof (zlen_nonneg data). lia. }
  assert (E2 : zget compressed 2 = flags_of blockMode maxBits) by done.
  assert (Hflags : Z.land (flags_of blockMode maxBits) CompressMaxBitsMask = maxBits
                   /\ negb (Z.land (flags_of blockMode maxBits) CompressBlockModeFlag =? 0) = blockMode
                   /\ u64 (Z.shiftl 1 maxBits) = 2 ^ maxBits /\ (2 ^ maxBits <? Z.shiftl 1 9) = false).
  { assert (Hc : maxBits = 9 \/ maxBits = 10 \/ maxBits = 11 \/ maxBits = 12 \/ maxBits = 13 \/ maxBits = 14 \/ maxBits = 15 \/ maxBits = 16) by lia.
    destruct blockMode; repeat (destruct Hc as [-> |Hc]; [done|]); by subst. }
  destruct Hflags as (F1 & F2 & F3 & F4). rewrite Hl, E2. cbn [orb].
  change (negb (zget compressed 0 =? CompressMagic0) || negb (zget compressed 1 =? CompressMagic1)) with false. cbv iota.
  rewrite F1, F3. unfold CompressMinBits, CompressMaxBits. guard_false. cbn [negb]. unfold DecodeCompressWithTables.
  change (zget compressed 0 =? CompressMagic0) with true. change (zget compressed 1 =? CompressMagic1) with true.
  change CompressInitialBits with 9. rewrite Hl, E2, F1, F2, F3, F4, Z.eqb_refl. cbn [negb orb]. unfold CompressMinBits, CompressMaxBits. guard_false. done.
Qed.

(** On any bytes after the header the decoder ends, within the capacity, with a
    success, an invalid response or a destination too small; and it succeeds exactly
    when the codes that it reads have a meaning in the LZW format that fits, which is
    then what it writes. *)
Theorem compress_exact blockMode maxBits data destination capacity :
  9 <= maxBits <= 16 -> zlen data < 2 ^ 56 -> 0 <= capacity < 2 ^ 62 ->
  exists status output,
    DecodeCompress (Bytes (CompressMagic0 :: CompressMagic1 :: flags_of blockMode maxBits :: data)) destination capacity true
    = (status, output)
    /\ zlen output <= room destination capacity
    /\ (status = STATUS_SUCCESS \/ status = STATUS_INVALID_NETWORK_RESPONSE \/ status = STATUS_BUFFER_TOO_SMALL)
    /\ forall o, (status = STATUS_SUCCESS /\ output = o)
       <-> exists codes, stream false blockMode maxBits (to_bits data) codes (place_start blockMode)
           /\ lzw_decode blockMode (2 ^ maxBits) [] None codes = Some o /\ zlen o <= room destination capacity.
Proof.
  intros Hb Hd Hc. rewrite compress_unfold by done. cbv zeta. set (zeros := replicate _ 0).
  pose proof (lzw_loop_result data destination capacity maxBits blockMode ltac:(lia) Hc Hb (S (Z.to_nat (8 * zlen data)))
    (lz_start blockMode (2 ^ maxBits) zeros zeros) (place_start blockMode) [] None (lz_start_at blockMode maxBits Hb)) as Hr.
  cbn [place_start pl_offset] in Hr. specialize (Hr ltac:(pose proof (zlen_nonneg data); lia) ltac:(rewrite Z.sub_0_r; lia)).
  cbn [lz_start lz_output] in Hr. assert (H0 : zlen (@nil Z) <= room destination capacity) by (unfold room; rewrite zlen_nil; destruct destination; lia).
  specialize (Hr H0). destruct (lzw_loop _ _ _ _ _ _ _ _) as [status s]. destruct Hr as (R1 & R2 & R3 & R4).
  exists status, (lz_output s). split_and!; [done..|]. intros o. specialize (R4 o). rewrite zlen_nil, Z.add_0_l in R4. cbn [app] in R4. rewrite R4.
  unfold denotes. naive_solver.
Qed.

(** ** From codes to bits *)

(** The place and the dictionary go together. *)
Record place_ok (relative blockMode : bool) (maxBits : Z) (p : place) (T : list (list Z)) (previous : option (list Z)) : Prop := {
  po_next : pl_next p = next_code blockMode T;
  po_previous : pl_previous p = bool_decide (is_Some previous);
  po_full : pl_next p <= 2 ^ maxBits;
  po_width : 9 <= pl_width p <= maxBits;
  po_fits : pl_next p <= 2 ^ pl_width p;
  po_offset : 0 <= base_of relative p <= pl_offset p;
}.

Section Placed.
Variables (relative blockMode : bool) (maxBits : Z).
Hypothesis Hbits : 9 <= maxBits <= 16.

Lemma widened_ok p T previous : place_ok relative blockMode maxBits p T previous ->
  let q := place_widened relative maxBits p in
  place_ok relative blockMode maxBits q T previous /\ pl_offset p <= pl_offset q < pl_offset p + 128
  /\ (pl_width q < maxBits -> pl_next q < 2 ^ pl_width q).
Proof using Hbits.
  intros [Hn Hp Hf Hw Hw' Ho]. unfold place_widened. destruct (_ && _) eqn:E; bool_prop.
  - pose proof (group_end_bounds (base_of relative p) (pl_offset p) (pl_width p) ltac:(lia) ltac:(lia)) as Hg.
    assert (Hpow : 2 ^ (pl_width p + 1) = 2 * 2 ^ pl_width p) by (rewrite Z.pow_add_r by lia; lia).
    assert (0 < 2 ^ pl_width p) by lia. split; [|cbn [pl_offset pl_width pl_next]; lia].
    unfold base_of in *. constructor; cbn [pl_offset pl_width pl_next pl_previous pl_start]; try done; try lia. unfold base_of; cbn [pl_start]. destruct relative; lia.
  - split; [done|]. split; [lia|]. intros Hlt. apply andb_false_iff in E as [E|E]; bool_prop; lia.
Qed.
Lemma after_ok q T previous code t : place_ok relative blockMode maxBits q T previous ->
  is_clear blockMode code = false -> (pl_width q < maxBits -> pl_next q < 2 ^ pl_width q) ->
  place_ok relative blockMode maxBits (place_after relative blockMode maxBits code q) (grow blockMode (2 ^ maxBits) T previous t) (Some t).
Proof using Hbits.
  intros [Hn Hp Hf Hw Hw' Ho] Hc Hroom. unfold place_after. rewrite Hc.
  assert (Hcase : pl_width q = maxBits \/ pl_width q < maxBits) by lia.
  assert (Hg : next_code blockMode (grow blockMode (2 ^ maxBits) T previous t)
               = if pl_previous q && (pl_next q <? 2 ^ maxBits) then pl_next q + 1 else pl_next q).
  { unfold grow. rewrite Hp, Hn. destruct previous as [p|]; [|done]. rewrite bool_decide_true by (by eexists). cbn [andb].
    destruct (next_code blockMode T <? 2 ^ maxBits); [apply next_code_snoc|done]. }
  constructor; unfold base_of in *; cbn [pl_offset pl_width pl_next pl_previous pl_start].
  - by rewrite Hg.
  - by rewrite bool_decide_true by (by eexists).
  - destruct (_ && _) eqn:E; bool_prop; lia.
  - done.
  - destruct (_ && _) eqn:E; bool_prop; [|lia]. destruct Hcase as [Hm|Hm]; [rewrite Hm; lia|specialize (Hroom Hm); lia].
  - destruct relative; lia.
Qed.
Lemma cleared_ok q T previous code : place_ok relative blockMode maxBits q T previous -> is_clear blockMode code = true ->
  let r := place_after relative blockMode maxBits code q in
  place_ok relative blockMode maxBits r [] None /\ pl_offset q + pl_width q <= pl_offset r < pl_offset q + pl_width q + 128.
Proof using Hbits.
  intros [Hn Hp Hf Hw Hw' Ho] Hc. unfold place_after. rewrite Hc. apply andb_true_iff in Hc as [-> Hc].
  assert (Hg : relative = true -> pl_offset q + pl_width q <= group_end (pl_start q) (pl_offset q + pl_width q) (pl_width q) < pl_offset q + pl_width q + 128).
  { intros ->. unfold base_of in Ho. pose proof (group_end_bounds (pl_start q) (pl_offset q + pl_width q) (pl_width q) ltac:(lia) ltac:(lia)). lia. }
  assert (Hm : 512 <= 2 ^ maxBits) by (change 512 with (2 ^ 9); apply Z.pow_le_mono_r; lia).
  split; [constructor; unfold base_of|]; cbn [pl_offset pl_width pl_next pl_previous pl_start]; try done; try lia.
  - destruct relative; [specialize (Hg eq_refl)|]; lia.
  - destruct relative; [specialize (Hg eq_refl)|]; lia.
Qed.
Lemma start_ok : place_ok relative blockMode maxBits (place_start blockMode) [] None.
Proof using Hbits.
  assert (Hm : 512 <= 2 ^ maxBits) by (change 512 with (2 ^ 9); apply Z.pow_le_mono_r; lia). pose proof (first_free_bounds blockMode).
  constructor; unfold base_of; cbn [place_start pl_offset pl_width pl_next pl_previous pl_start]; try lia; try done.
  - unfold next_code. rewrite zlen_nil. lia.
  - destruct relative; lia.
Qed.

(** A code with a meaning fits its width. *)
Lemma meaning_fits q T previous code t : place_ok relative blockMode maxBits q T previous ->
  (pl_width q < maxBits -> pl_next q < 2 ^ pl_width q) -> meaning blockMode (2 ^ maxBits) T previous code = Some t -> code < 2 ^ pl_width q.
Proof using Hbits.
  intros [Hn Hp Hf Hw Hw' Ho] Hroom Hm. assert (Hcase : pl_width q = maxBits \/ pl_width q < maxBits) by lia.
  unfold meaning in Hm. destruct (Z.ltb_spec code (next_code blockMode T)) as [Hlt|Hge]; [lia|].
  destruct previous as [p|]; [|done]. destruct (_ && _) eqn:E; [|done]. bool_prop. destruct Hcase as [Hc|Hc]; [rewrite Hc; lia|specialize (Hroom Hc); lia].
Qed.

Lemma zero_bits_length n : 0 <= n -> Z.of_nat (length (zero_bits n)) = n.
Proof using. intros. unfold zero_bits. rewrite length_replicate. lia. Qed.

(** The codes laid out are the codes of the stream. *)
Lemma layout_stream codes : forall p T previous o pre tail,
  place_ok relative blockMode maxBits p T previous -> Forall (fun c => 0 <= c) codes ->
  lzw_decode blockMode (2 ^ maxBits) T previous codes = Some o ->
  Z.of_nat (length pre) = pl_offset p -> (length tail < 9)%nat ->
  stream relative blockMode maxBits (pre ++ layout relative blockMode maxBits codes p ++ tail) codes p.
Proof using Hbits.
  induction codes as [|code codes IH]; intros p T previous o pre tail Hp Hc Hd Hpre Htail; cbn [stream layout].
  - destruct (widened_ok p T previous Hp) as ([] & Hq & _). rewrite !length_app. cbn [app length]. lia.
  - apply Forall_cons in Hc as [Hc0 Hc]. destruct (widened_ok p T previous Hp) as (Hq & Hqo & Hroom).
    set (q := place_widened relative maxBits p) in *. set (r := place_after relative blockMode maxBits code q).
    pose proof (po_width _ _ _ _ _ _ Hq) as Hw. cbn [lzw_decode] in Hd.
    assert (Hnext : code < 2 ^ pl_width q /\ pl_offset q + pl_width q <= pl_offset r /\ exists T' previous' o',
              place_ok relative blockMode maxBits r T' previous' /\ lzw_decode blockMode (2 ^ maxBits) T' previous' codes = Some o').
    { destruct (is_clear blockMode code) eqn:Ec.
      - destruct (cleared_ok _ _ _ _ Hq Ec) as [Hr Hro]. fold r in Hr, Hro. pose proof Ec as [_ E%Z.eqb_eq]%andb_true_iff.
        split_and!; [|lia|by exists [], None, o]. assert (2 ^ 9 <= 2 ^ pl_width q) by (apply Z.pow_le_mono_r; lia). lia.
      - destruct (meaning _ _ _ _ _) as [t|] eqn:Em; [|done]. cbn [mbind option_bind] in Hd.
        destruct (lzw_decode _ _ _ _ codes) as [o'|] eqn:Eo; [|done].
        split_and!; [by apply (meaning_fits q T previous code t)| |].
        + unfold r, place_after. rewrite Ec. cbn [pl_offset]. lia.
        + exists (grow blockMode (2 ^ maxBits) T previous t), (Some t), o'. split; [by apply after_ok|done]. }
    destruct Hnext as (Hlt & Hro & T' & previous' & o' & Hr & Hd').
    set (a := zero_bits (pl_offset q - pl_offset p)). set (b := lsb_bits (pl_width q) code). set (z := zero_bits (pl_offset r - (pl_offset q + pl_width q))).
    assert (Ha : Z.of_nat (length a) = pl_offset q - pl_offset p) by (apply zero_bits_length; lia).
    assert (Hz : Z.of_nat (length z) = pl_offset r - (pl_offset q + pl_width q)) by (apply zero_bits_length; lia).
    assert (Hb : length b = Z.to_nat (pl_width q)) by apply lsb_bits_length.
    set (L := layout relative blockMode maxBits codes r).
    replace (pre ++ (a ++ b ++ z ++ L) ++ tail) with ((pre ++ a) ++ b ++ z ++ L ++ tail) by (by rewrite <- !app_assoc).
    split_and!.
    + rewrite !length_app. lia.
    + rewrite drop_app_length' by (rewrite length_app; lia). rewrite take_app_length' by lia. unfold b. rewrite lsb_bits_value by lia. apply Z.mod_small. lia.
    + specialize (IH r T' previous' o' (pre ++ a ++ b ++ z) tail Hr Hc Hd').
      replace ((pre ++ a) ++ b ++ z ++ L ++ tail) with ((pre ++ a ++ b ++ z) ++ L ++ tail) by (by rewrite <- !app_assoc).
      apply IH; [rewrite !length_app; lia|done].
Qed.
Lemma layout_length codes : forall p T previous o, place_ok relative blockMode maxBits p T previous ->
  lzw_decode blockMode (2 ^ maxBits) T previous codes = Some o ->
  Z.of_nat (length (layout relative blockMode maxBits codes p)) <= 300 * Z.of_nat (length codes).
Proof using Hbits.
  induction codes as [|code codes IH]; intros p T previous o Hp Hd; cbn [layout length]; [lia|].
  destruct (widened_ok p T previous Hp) as (Hq & Hqo & Hroom). set (q := place_widened relative maxBits p) in *.
  set (r := place_after relative blockMode maxBits code q). pose proof (po_width _ _ _ _ _ _ Hq) as Hw. cbn [lzw_decode] in Hd.
  rewrite !length_app, lsb_bits_length, !Nat2Z.inj_add, Z2Nat.id, zero_bits_length by lia.
  destruct (is_clear blockMode code) eqn:Ec.
  - destruct (cleared_ok _ _ _ _ Hq Ec) as [Hr Hro]. fold r in Hr, Hro. rewrite zero_bits_length by lia. specialize (IH r [] None o Hr Hd). lia.
  - destruct (meaning _ _ _ _ _) as [t|] eqn:Em; [|done]. cbn [mbind option_bind] in Hd.
    destruct (lzw_decode _ _ _ _ codes) as [o'|] eqn:Eo; [|done]. pose proof (after_ok q T previous code t Hq Ec Hroom) as Hr. fold r in Hr.
    specialize (IH r _ _ _ Hr Eo). assert (Hro : pl_offset r = pl_offset q + pl_width q) by (unfold r, place_after; by rewrite Ec).
    rewrite zero_bits_length by lia. lia.
Qed.
End Placed.

(** ** The reference compressor *)

Section Compressor.
Variable blockMode : bool.
Variable maxCodes : Z.

Lemma find_string_Some table s n k : find_string table s n = Some k -> n <= k /\ table !! Z.to_nat (k - n) = Some s.
Proof using.
  revert n. induction table as [|t table IH]; intros n; [done|]. cbn [find_string]. destruct (bool_decide_reflect (t = s)) as [->|].
  - intros [= ->]. split; [lia|]. by rewrite Z.sub_diag.
  - intros [Hle Hk]%IH. split; [lia|]. replace (Z.to_nat (k - n)) with (S (Z.to_nat (k - (n + 1)))) by lia. done.
Qed.
Lemma find_string_of table s k : find_string table s (first_free blockMode) = Some k ->
  string_of blockMode table k = Some s /\ 0 <= k < next_code blockMode table.
Proof using.
  intros [Hle Hk]%find_string_Some. pose proof (first_free_bounds blockMode). unfold string_of.
  rewrite (proj2 (Z.ltb_ge k 256)), (proj2 (Z.ltb_ge k _)) by lia. split; [done|]. apply lookup_lt_Some in Hk. unfold next_code, zlen. lia.
Qed.
Lemma string_not_clear table k s : string_of blockMode table k = Some s -> is_clear blockMode k = false.
Proof using.
  intros Hs. unfold string_of, is_clear in *. destruct (Z.eqb_spec k 256) as [->|]; [|apply andb_false_r].
  unfold first_free in Hs. by destruct blockMode.
Qed.
(** The code of a string of the dictionary that the compressor has is read as that
    string by a decoder that is one entry behind. *)
Lemma meaning_ahead T previous w k : w <> [] -> match previous with Some q => q <> [] | None => True end ->
  string_of blockMode (grow blockMode maxCodes T previous w) k = Some w ->
  0 <= k < next_code blockMode (grow blockMode maxCodes T previous w) -> meaning blockMode maxCodes T previous k = Some w.
Proof using.
  intros Hw Hq Hs Hk. unfold meaning. destruct (Z.ltb_spec k (next_code blockMode T)) as [Hlt|Hge]; [by rewrite string_of_old in Hs|].
  destruct previous as [q|]; cbn [grow] in Hk, Hs; [|lia]. unfold grow in *. destruct (Z.ltb_spec (next_code blockMode T) maxCodes) as [Hr|Hr]; [|lia].
  rewrite next_code_snoc in Hk. assert (k = next_code blockMode T) as -> by lia. rewrite Z.eqb_refl, (proj2 (Z.ltb_lt _ _)) by lia. cbn [andb].
  rewrite string_of_new in Hs. injection Hs as Hs. destruct q as [|x q], w as [|y w]; try done.
  change (ztake 1 (y :: w)) with [y] in Hs. injection Hs as -> Hs. change (ztake 1 (y :: q)) with [y]. by rewrite <- Hs.
Qed.
Lemma grow_head T previous w w' : w <> [] -> grow blockMode maxCodes T previous (w ++ w') = grow blockMode maxCodes T previous w.
Proof using. intros Hw. by destruct w. Qed.

Lemma encode_loop_ok input : forall T previous w k,
  w <> [] -> match previous with Some q => q <> [] | None => True end -> bytes input ->
  string_of blockMode (grow blockMode maxCodes T previous w) k = Some w ->
  0 <= k < next_code blockMode (grow blockMode maxCodes T previous w) ->
  lzw_decode blockMode maxCodes T previous (encode_loop blockMode maxCodes (grow blockMode maxCodes T previous w) w k input) = Some (w ++ input)
  /\ Forall (fun c => 0 <= c /\ is_clear blockMode c = false) (encode_loop blockMode maxCodes (grow blockMode maxCodes T previous w) w k input)
  /\ (length (encode_loop blockMode maxCodes (grow blockMode maxCodes T previous w) w k input) <= S (length input))%nat.
Proof using.
  induction input as [|c input IH]; intros T previous w k Hw Hq Hb Hs Hk; cbn [encode_loop].
  - pose proof (string_not_clear _ _ _ Hs) as Hc. cbn [lzw_decode]. rewrite Hc, (meaning_ahead T previous w k) by done.
    cbn [mbind option_bind]. split_and!; [done|apply Forall_singleton; split; [lia|done]|done].
  - apply Forall_cons in Hb as [Hc Hb]. destruct (find_string _ _ _) as [k'|] eqn:Ef.
    + apply find_string_of in Ef as [Hs' Hk']. specialize (IH T previous (w ++ [c]) k'). rewrite grow_head, <- app_assoc in IH by done.
      destruct IH as (I1 & I2 & I3); try done; [by destruct w|]. split_and!; [done..|cbn [length]; lia].
    + set (G := grow blockMode maxCodes T previous w) in *. pose proof (string_not_clear _ _ _ Hs) as Hclear.
      assert (Eg : (if next_code blockMode G <? maxCodes then G ++ [w ++ [c]] else G) = grow blockMode maxCodes G (Some w) [c]) by done.
      rewrite Eg. pose proof (next_code_ge blockMode (grow blockMode maxCodes G (Some w) [c])). pose proof (first_free_bounds blockMode).
      unfold is_byte in Hc. destruct (IH G (Some w) [c] c) as (I1 & I2 & I3); try done; [|lia|].
      { unfold string_of. by rewrite (proj2 (Z.ltb_lt c 256)) by lia. }
      cbn [lzw_decode]. rewrite Hclear, (meaning_ahead T previous w k) by done. cbn [mbind option_bind]. fold G. rewrite I1. cbn [app].
      split_and!; [done|apply Forall_cons; split; [split; [lia|done]|done]|cbn [length]; lia].
Qed.
Lemma lzw_encode_ok input : bytes input ->
  lzw_decode blockMode maxCodes [] None (lzw_encode blockMode maxCodes input) = Some input
  /\ Forall (fun c => 0 <= c /\ is_clear blockMode c = false) (lzw_encode blockMode maxCodes input)
  /\ (length (lzw_encode blockMode maxCodes input) <= length input)%nat.
Proof using.
  intros Hb. destruct input as [|c input]; [by split_and!; [|apply Forall_nil_2|]|]. apply Forall_cons in Hb as [Hc Hb]. unfold is_byte in Hc.
  pose proof (next_code_ge blockMode []). pose proof (first_free_bounds blockMode).
  destruct (encode_loop_ok input [] None [c] c) as (I1 & I2 & I3); try done; [|cbn [grow]; lia].
  unfold string_of. by rewrite (proj2 (Z.ltb_lt c 256)) by lia.
Qed.
End Compressor.

(** Up to the second change of width both ways of placing the codes agree. *)
Lemma same_layout blockMode maxBits codes : forall p n, 9 <= maxBits <= 16 ->
  Forall (fun c => 0 <= c /\ is_clear blockMode c = false) codes ->
  pl_width p = 9 /\ pl_start p = 0 \/ pl_width p = 10 ->
  pl_next p <= 256 + n + (if pl_previous p then 0 else 1) -> (pl_previous p = false -> n = 0) ->
  maxBits <= 10 \/ n + zlen codes <= 768 -> 0 <= n ->
  layout true blockMode maxBits codes p = layout false blockMode maxBits codes p.
Proof.
  induction codes as [|code codes IH]; intros p n Hb Hc Hw Hn Hp Hl Hn0; [done|]. apply Forall_cons in Hc as [[_ Hc] Hcs].
  rewrite zlen_cons in Hl. pose proof (zlen_nonneg codes). cbn [layout].
  assert (Hq : place_widened true maxBits p = place_widened false maxBits p).
  { unfold place_widened. destruct (_ && _) eqn:E; [|done]. bool_prop. unfold base_of. destruct Hw as [[_ ->]|Hw]; [done|].
    rewrite Hw in *. change (2 ^ 10) with 1024 in *. destruct (pl_previous p) eqn:Ep; [|specialize (Hp eq_refl)]; lia. }
  rewrite Hq. set (q := place_widened false maxBits p).
  assert (Hqw : (pl_width q = 9 /\ pl_start q = 0 \/ pl_width q = 10) /\ pl_next q = pl_next p /\ pl_previous q = pl_previous p).
  { unfold q, place_widened. destruct (_ && _) eqn:E; [|done]. bool_prop. cbn [pl_width pl_start pl_next pl_previous]. split; [|done]. right.
    destruct Hw as [[Hw _]|Hw]; rewrite Hw in *; [done|]. change (2 ^ 10) with 1024 in *. destruct (pl_previous p) eqn:Ep; [|specialize (Hp eq_refl)]; lia. }
  destruct Hqw as (Hqw & Hqn & Hqp).
  assert (Hr : place_after true blockMode maxBits code q = place_after false blockMode maxBits code q) by (unfold place_after; by rewrite Hc).
  rewrite Hr. do 3 f_equal. apply (IH _ (n + 1)); try done; try lia; unfold place_after; rewrite Hc; cbn [pl_width pl_start pl_next pl_previous].
  - done.
  - rewrite Hqn, Hqp. destruct (pl_previous p) eqn:Ep; cbn [andb]; [case_if; lia|]. specialize (Hp eq_refl). lia.
  - done.
Qed.

Lemma zlen_packed bits : zlen (packed bits) = (Z.of_nat (length bits) + 7) / 8.
Proof.
  assert (H : forall n l, length (pack n l) = n) by (induction n as [|n IH]; intros l; [done|cbn [pack length]; by rewrite IH]).
  unfold zlen, packed. rewrite H. by rewrite Nat2Z.inj_div, Nat2Z.inj_add.
Qed.

(** C27. A file of the [compress] format whose codes do not clear the dictionary is
    decoded to what its codes mean, in block mode or not and for every width of the
    codes, as long as it has at most 768 codes, or codes of at most 10 bits; and every
    byte string has such codes.  Files with a clear code are not covered: the format
    pads the group of the clear code, which the decoder does not expect. *)
Theorem compress_roundtrip blockMode maxBits capacity :
  9 <= maxBits <= 16 -> 0 <= capacity < 2 ^ 62 ->
  (forall codes input, Forall (fun c => 0 <= c /\ is_clear blockMode c = false) codes ->
     lzw_decode blockMode (2 ^ maxBits) [] None codes = Some input ->
     zlen codes < 2 ^ 40 -> zlen input <= capacity -> maxBits <= 10 \/ zlen codes <= 768 ->
     DecodeCompress (Bytes (compress_file blockMode maxBits codes)) true capacity true = (STATUS_SUCCESS, input))
  /\ (forall input, bytes input -> exists codes, Forall (fun c => 0 <= c /\ is_clear blockMode c = false) codes
      /\ lzw_decode blockMode (2 ^ maxBits) [] None codes = Some input /\ zlen codes <= zlen input).
Proof.
  intros Hb Hcap. split.
  2:{ intros input Hi. destruct (lzw_encode_ok blockMode (2 ^ maxBits) input Hi) as (E1 & E2 & E3).
      exists (lzw_encode blockMode (2 ^ maxBits) input). split_and!; [done..|unfold zlen; lia]. }
  intros codes input E2 E1 Hlen Hfits Hcodes.
  pose proof (start_ok true blockMode maxBits Hb) as Hp. pose proof (start_ok false blockMode maxBits Hb) as Hp'.
  pose proof (layout_length true blockMode maxBits Hb codes _ _ _ _ Hp E1) as Hl.
  assert (Hsame : layout true blockMode maxBits codes (place_start blockMode) = layout false blockMode maxBits codes (place_start blockMode)).
  { pose proof (first_free_bounds blockMode). apply (same_layout blockMode maxBits codes _ 0); try done; cbn [place_start pl_width pl_start pl_next pl_previous]; [by left|lia]. }
  unfold compress_file. rewrite Hsame in *. set (L := layout false blockMode maxBits codes (place_start blockMode)) in *.
  pose proof (zlen_nonneg input) as Hpos.  destruct (compress_exact blockMode maxBits (packed L) true capacity Hb) as (status & output & Ed & _ & _ & Hiff); [|lia|].
  { rewrite zlen_packed. unfold zlen in *. Z.to_euclidean_division_equations. lia. }
  destruct (to_bits_packed L) as (n & Hn & Hpack). destruct (proj2 (Hiff input)) as [-> ->]; [|exact Ed].
  exists codes. split_and!; [|done|unfold room; lia]. rewrite Hpack.
  apply (layout_stream false blockMode maxBits Hb codes (place_start blockMode) [] None input [] (replicate n false)); try done.
  - eapply Forall_impl; [exact E2|]. by intros c [Hc _].
  - rewrite length_replicate. lia.
Qed.
Lemma compress_roundtrip_witness :
  compress_file true 16 [104; 105; 257; 259] = [31; 157; 144; 104; 210; 4; 28; 8]
  /\ DecodeCompress (Bytes (compress_file true 16 [104; 105; 257; 259])) true 100 true
     = (STATUS_SUCCESS, [104; 105; 104; 105; 104; 105; 104]).
Proof.
  split; [by vm_compute|]. apply (proj1 (compress_roundtrip true 16 100 ltac:(lia) ltac:(lia)));
    [|by vm_compute|by vm_compute|by vm_compute|right; by vm_compute].
  repeat (apply Forall_cons; split; [done|]). apply Forall_nil_2.
Defined.

Lemma compress_exact_witness :
  exists status output,
    DecodeCompress (Bytes [31; 157; 144; 104; 210; 4; 28; 8]) true 100 true = (status, output)
    /\ zlen output <= room true 100
    /\ (status = STATUS_SUCCESS \/ status = STATUS_INVALID_NETWORK_RESPONSE \/ status = STATUS_BUFFER_TOO_SMALL)
    /\ forall o, (status = STATUS_SUCCESS /\ output = o)
       <-> exists codes, stream false true 16 (to_bits [104; 210; 4; 28; 8]) codes (place_start true)
           /\ lzw_decode true (2 ^ 16) [] None codes = Some o /\ zlen o <= room true 100.
Proof. apply (compress_exact true 16 [104; 210; 4; 28; 8] true 100); [lia|done|lia]. Defined.

(** Bytes without long repetitions. *)
Definition sample (n : Z) : list Z := map (fun i => (i * i * 7 + i * 13 + i / 3 * 31) mod 251) (seqZ 0 n).

(** Past 768 codes the decoder loses its place: this file with codes of up to 11
    bits is refused.  The format counts groups of eight codes from where their width
    began, the decoder from the first code; the first groups of 11 bits are where the
    two differ. *)
Example compress_misaligned :
  let codes := lzw_encode true (2 ^ 11) (sample 800) in
  lzw_decode true (2 ^ 11) [] None codes = Some (sample 800) /\ 768 < zlen codes
  /\ (DecodeCompress (Bytes (compress_file true 11 codes)) true 4096 true).1 = STATUS_INVALID_NETWORK_RESPONSE.
Proof. split_and!; vm_compute; reflexivity. Qed.
