(* ===== verification/WebSocketFrame.v ===== *)
(** * WebSocket frames and the opening handshake (ws/WebSocketFrame.cpp, RFC 6455)

    The frame codec, the accept value, the negotiation of permessage-deflate
    (RFC 7692) and the check of the server's handshake.  A destination is what
    has been written at it; a function that reports the size it would have
    needed returns status, [*bytesWritten] and the bytes written. *)

From Stdlib Require Import Ascii String.
From S2P Require Import Prelude Base64 HttpText.
#[local] Open Scope string_scope.
#[local] Open Scope list_scope.
#[local] Open Scope Z_scope.

(** ** Constants and types (ws/WebSocketFrame.h, ws/WebSocketDeflate.h) *)

Definition WebSocketClientKeyLength : Z := 16.
Definition WebSocketAcceptValueLength : Z := 28.
Definition WebSocketMaskingKeyLength : Z := 4.
Definition WebSocketMaxControlPayloadLength : Z := 125.
Definition WebSocketMaximumPayloadLength : Z := 0x7fffffffffffffff.
Definition WebSocketGuid : list Z := str "258EAFA5-E914-47DA-95CA-C5AB0DC85B11".
Definition Sha1DigestLength : Z := 20.
Definition WebSocketDeflateMinWindowBits : Z := 8.
Definition WebSocketDeflateMaxWindowBits : Z := 15.

(** [WebSocketOpcode]: a value of the enumeration may be any byte. *)
Definition Opcode_Continuation : Z := 0x0.
Definition Opcode_Text : Z := 0x1.
Definition Opcode_Binary : Z := 0x2.
Definition Opcode_Close : Z := 0x8.
Definition Opcode_Ping : Z := 0x9.
Definition Opcode_Pong : Z := 0xA.

Record WebSocketFrameHeader := MkFrameHeader {
  wh_Fin : bool;
  wh_Rsv1 : bool;
  wh_Masked : bool;
  wh_Opcode : Z;
  wh_PayloadLength : Z;
  wh_MaskingKey : list Z;
  wh_HeaderLength : Z;
}.

Record PerMessageDeflateOptions := MkOptions {
  po_Enable : bool;
  po_ClientNoContextTakeover : bool;
  po_ServerNoContextTakeover : bool;
  po_ClientMaxWindowBits : Z;
  po_ServerMaxWindowBits : Z;
}.
Record PerMessageDeflateNegotiation := MkNegotiation {
  pn_Enabled : bool;
  pn_ClientNoContextTakeover : bool;
  pn_ServerNoContextTakeover : bool;
  pn_ClientMaxWindowBits : Z;
  pn_ServerMaxWindowBits : Z;
}.
#[export] Instance PerMessageDeflateNegotiation_eta : Eta PerMessageDeflateNegotiation := fun n =>
  MkNegotiation (pn_Enabled n) (pn_ClientNoContextTakeover n) (pn_ServerNoContextTakeover n)
    (pn_ClientMaxWindowBits n) (pn_ServerMaxWindowBits n).
Definition negotiation_default : PerMessageDeflateNegotiation :=
  MkNegotiation false false false WebSocketDeflateMaxWindowBits WebSocketDeflateMaxWindowBits.

Definition IsValidPerMessageDeflateOptions (options : PerMessageDeflateOptions) : bool :=
  if negb (po_Enable options) then true
  else
    (po_ClientMaxWindowBits options >=? WebSocketDeflateMinWindowBits)
    && (po_ClientMaxWindowBits options <=? WebSocketDeflateMaxWindowBits)
    && (po_ServerMaxWindowBits options >=? WebSocketDeflateMinWindowBits)
    && (po_ServerMaxWindowBits options <=? WebSocketDeflateMaxWindowBits).

(** Status, [*bytesWritten], and the bytes at the destination. *)
Definition written : Type := NTSTATUS * Z * list Z.

(** ** Base64 *)

Definition IsValidBuffer (data : span) : bool := (sp_len data =? 0) || negb (sp_isnull data).

Definition alphabet : list Z :=
  str "ABCDEFGHIJKLMNOPQRSTUVWXYZabcdefghijklmnopqrstuvwxyz0123456789+/".
Definition Base64Char (value : Z) : Z := zget alphabet (Z.land value 0x3f).

Definition group (value shift : Z) : Z := Base64Char (u8 (Z.land (Z.shiftr value shift) 0x3f)).

(** The loop over triples, and the one or two bytes left. *)
Fixpoint base64_loop (data output : list Z) : list Z :=
  match data with
  | a :: b :: c :: data =>
      let value := Z.lor (Z.lor (u32 (Z.shiftl a 16)) (u32 (Z.shiftl b 8))) c in
      base64_loop data (output ++ [group value 18; group value 12; group value 6; group value 0])
  | [a] =>
      let value := u32 (Z.shiftl a 16) in output ++ [group value 18; group value 12; 61; 61]
  | [a; b] =>
      let value := Z.lor (u32 (Z.shiftl a 16)) (u32 (Z.shiftl b 8)) in
      output ++ [group value 18; group value 12; group value 6; 61]
  | [] => output
  end.

(** [destination]: whether the pointer is there. *)
Definition Base64Encode (data : span) (destination : bool) (capacity : Z) : written :=
  if negb (IsValidBuffer data) || negb destination then (STATUS_INVALID_PARAMETER, 0, [])
  else if sp_len data >? (MAXU64 / 4) *! 3 then (STATUS_INTEGER_OVERFLOW, 0, [])
  else
    let required := ((sp_len data +! 2) / 3) *! 4 in
    if capacity <? required then (STATUS_BUFFER_TOO_SMALL, required, [])
    else let output := base64_loop (sp_bytes data) [] in (STATUS_SUCCESS, zlen output, output).

(** ** Texts *)

Fixpoint diff_loop (l r : list Z) (diff : Z) : Z :=
  match l, r with
  | x :: l, y :: r => diff_loop l r (u8 (Z.lor diff (Z.lxor x y)))
  | _, _ => diff
  end.
(** Both have [length] characters. *)
Definition ConstantTimeEquals (l r : span) : bool :=
  if sp_isnull l || sp_isnull r then false else diff_loop (sp_bytes l) (sp_bytes r) 0 =? 0.

Definition IsSubprotocolSeparator (value : Z) : bool :=
  existsb (Z.eqb value) [40; 41; 60; 62; 64; 44; 59; 58; 92; 34; 47; 91; 93; 63; 61; 123; 125; 32; 9].

Fixpoint bytes_equal (a b : list Z) : bool :=
  match a, b with
  | [], [] => true
  | x :: a, y :: b => (x =? y) && bytes_equal a b
  | _, _ => false
  end.
Definition TextEquals (l r : Text) : bool :=
  if negb (sp_len l =? sp_len r)
     || (sp_isnull l && negb (sp_len l =? 0)) || (sp_isnull r && negb (sp_len r =? 0))
  then false
  else (sp_len l =? 0) || bytes_equal (sp_bytes l) (sp_bytes r).

Definition token_char (value : Z) : bool :=
  negb ((value <=? 0x20) || (value >=? 0x7f) || IsSubprotocolSeparator value).
Definition IsValidSubprotocolToken (token : Text) : bool :=
  if sp_isnull token || (sp_len token =? 0) then false else forallb token_char (sp_bytes token).

(** ** The selected subprotocol *)

(** [found]: the selected value once a field was seen. *)
Fixpoint find_subprotocol_loop (headers : list HttpHeader) (found : option Text) : Result (option Text) :=
  match headers with
  | [] => Ok found
  | h :: headers =>
      if negb (TextEqualsIgnoreCase (hd_Name h) (text "Sec-WebSocket-Protocol"))
      then find_subprotocol_loop headers found
      else
        match found with
        | Some _ => Err STATUS_INVALID_NETWORK_RESPONSE
        | None => find_subprotocol_loop headers (Some (TrimOptionalWhitespace (hd_Value h)))
        end
  end.
Definition FindSelectedSubprotocol (r : HttpResponse) : Result (option Text) :=
  if ha_isnull (rp_Headers r) && negb (ha_count (rp_Headers r) =? 0) then Err STATUS_INVALID_NETWORK_RESPONSE
  else
    found ← find_subprotocol_loop (ha_headers (rp_Headers r)) None;
    match found with
    | None => Ok None
    | Some selected =>
        if IsValidSubprotocolToken selected then Ok (Some selected) else Err STATUS_INVALID_NETWORK_RESPONSE
    end.

Definition CountHeaders (r : HttpResponse) (name : Text) : Z :=
  zlen (List.filter (fun h => TextEqualsIgnoreCase (hd_Name h) name) (ha_headers (rp_Headers r))).

(** The loop over the requested subprotocols, between commas. *)
Fixpoint candidates_loop (candidates : list (list Z)) (selected : Text) (matched : bool) : NTSTATUS :=
  match candidates with
  | [] => if matched then STATUS_SUCCESS else STATUS_INVALID_NETWORK_RESPONSE
  | candidate :: candidates =>
      let candidate := TrimOptionalWhitespace (Bytes candidate) in
      if negb (IsValidSubprotocolToken candidate) then STATUS_INVALID_PARAMETER
      else candidates_loop candidates selected (if TextEquals candidate selected then true else matched)
  end.
Definition ValidateSelectedSubprotocol (selected requested : Text) : NTSTATUS :=
  if negb (IsValidSubprotocolToken selected) then STATUS_INVALID_NETWORK_RESPONSE
  else if sp_isnull requested || (sp_len requested =? 0) then STATUS_INVALID_NETWORK_RESPONSE
  else candidates_loop (split_on 44 (sp_bytes requested)) selected false.

(** ** permessage-deflate *)

Definition ParseWindowBits (text : Text) : option Z :=
  let text := TrimOptionalWhitespace text in
  if (sp_len text =? 0) || (sp_len text >? 2) || sp_isnull text then None
  else if existsb (fun ch => (ch <? 48) || (ch >? 57)) (sp_bytes text) then None
  else
    let value := foldl (fun value ch => u32 (u32 (value * 10) + (ch - 48))) 0 (sp_bytes text) in
    if (value <? WebSocketDeflateMinWindowBits) || (value >? WebSocketDeflateMaxWindowBits) then None
    else Some (u8 value).

(** The variables of [ParsePerMessageDeflateResponse]. *)
Record parse_state := MkParse {
  ps_negotiated : PerMessageDeflateNegotiation;
  ps_clientNoContextSeen : bool;
  ps_serverNoContextSeen : bool;
  ps_clientWindowSeen : bool;
  ps_serverWindowSeen : bool;
}.
#[export] Instance parse_state_eta : Eta parse_state := fun s =>
  MkParse (ps_negotiated s) (ps_clientNoContextSeen s) (ps_serverNoContextSeen s) (ps_clientWindowSeen s)
    (ps_serverWindowSeen s).
Definition parse_start : parse_state := MkParse negotiation_default false false false false.

(** The name of a parameter, and its value, empty when there is none. *)
Definition parameter_parts (parameter : list Z) : list Z * list Z :=
  let '(name, rest) := cut 61 parameter in
  (trim name, match rest with [] => [] | _ :: value => trim value end).

(** One turn of the loop over parameters; [None] is
    [STATUS_INVALID_NETWORK_RESPONSE]. *)
Definition parse_parameter (requested : PerMessageDeflateOptions) (parameter : list Z) (s : parse_state)
    : option parse_state :=
  let parameter := trim parameter in
  if zlen parameter =? 0 then None
  else
    let '(name, parameterValue) := parameter_parts parameter in
    if TextEqualsIgnoreCase (Bytes name) (text "client_no_context_takeover") then
      if ps_clientNoContextSeen s || negb (zlen parameterValue =? 0) then None
      else
        Some (s <| ps_clientNoContextSeen := true |>
                <| ps_negotiated := (ps_negotiated s) <| pn_ClientNoContextTakeover := true |> |>)
    else if TextEqualsIgnoreCase (Bytes name) (text "server_no_context_takeover") then
      if ps_serverNoContextSeen s || negb (zlen parameterValue =? 0) then None
      else
        Some (s <| ps_serverNoContextSeen := true |>
                <| ps_negotiated := (ps_negotiated s) <| pn_ServerNoContextTakeover := true |> |>)
    else if TextEqualsIgnoreCase (Bytes name) (text "client_max_window_bits") then
      if ps_clientWindowSeen s || (zlen parameterValue =? 0) then None
      else
        match ParseWindowBits (Bytes parameterValue) with
        | None => None
        | Some bits =>
            if bits >? po_ClientMaxWindowBits requested then None
            else
              Some (s <| ps_clientWindowSeen := true |>
                      <| ps_negotiated := (ps_negotiated s) <| pn_ClientMaxWindowBits := bits |> |>)
        end
    else if TextEqualsIgnoreCase (Bytes name) (text "server_max_window_bits") then
      if ps_serverWindowSeen s || (zlen parameterValue =? 0) then None
      else
        match ParseWindowBits (Bytes parameterValue) with
        | None => None
        | Some bits =>
            if bits >? po_ServerMaxWindowBits requested then None
            else
              Some (s <| ps_serverWindowSeen := true |>
                      <| ps_negotiated := (ps_negotiated s) <| pn_ServerMaxWindowBits := bits |> |>)
        end
    else None.

Fixpoint parameters_loop (requested : PerMessageDeflateOptions) (parameters : list (list Z)) (s : parse_state)
    : option parse_state :=
  match parameters with
  | [] => Some s
  | parameter :: parameters =>
      s ← parse_parameter requested parameter s;
      parameters_loop requested parameters s
  end.

(** The outer loop: its items are between commas, the parameters of an item
    between semicolons after the name of the extension. *)
Fixpoint items_loop (requested : PerMessageDeflateOptions) (items : list (list Z)) (extensionSeen : bool)
    (s : parse_state) : option (bool * parse_state) :=
  match items with
  | [] => Some (extensionSeen, s)
  | item :: items =>
      let item := trim item in
      if zlen item =? 0 then None
      else
        let pieces := split_on 59 item in
        let extension := trim (hd [] pieces) in
        if negb (TextEqualsIgnoreCase (Bytes extension) (text "permessage-deflate")) then None
        else if extensionSeen then None
        else
          s ← parameters_loop requested (tl pieces) s;
          items_loop requested items true s
  end.

Definition ParsePerMessageDeflateResponse (value : Text) (requested : PerMessageDeflateOptions)
    : Result PerMessageDeflateNegotiation :=
  match items_loop requested (split_on 44 (sp_bytes value)) false parse_start with
  | None => Err STATUS_INVALID_NETWORK_RESPONSE
  | Some (extensionSeen, s) =>
      if negb extensionSeen then Err STATUS_INVALID_NETWORK_RESPONSE
      else
        let n := (ps_negotiated s) <| pn_Enabled := true |> in
        let n := if negb (ps_clientWindowSeen s)
                 then n <| pn_ClientMaxWindowBits := po_ClientMaxWindowBits requested |> else n in
        let n := if negb (ps_serverWindowSeen s)
                 then n <| pn_ServerMaxWindowBits := po_ServerMaxWindowBits requested |> else n in
        let n := if po_ClientNoContextTakeover requested then n <| pn_ClientNoContextTakeover := true |> else n in
        let n := if po_ServerNoContextTakeover requested then n <| pn_ServerNoContextTakeover := true |> else n in
        Ok n
  end.

(** The loop over the fields: how many are of the name, and the last of them. *)
Fixpoint extension_loop (headers : list HttpHeader) (headerName : Text) (count : Z) (extension : option HttpHeader)
    : Z * option HttpHeader :=
  match headers with
  | [] => (count, extension)
  | h :: headers =>
      if negb (TextEqualsIgnoreCase (hd_Name h) headerName) then extension_loop headers headerName count extension
      else extension_loop headers headerName (count +! 1) (Some h)
  end.

(** [negotiated]: whether the pointer [negotiatedDeflate] is there; the result
    is what it points to. *)
Definition ValidatePerMessageDeflateExtensions (headers : HeaderArray) (headerName : Text)
    (perMessageDeflate : option PerMessageDeflateOptions) (negotiated : bool) : Result PerMessageDeflateNegotiation :=
  if ha_isnull headers && negb (ha_count headers =? 0) then Err STATUS_INVALID_NETWORK_RESPONSE
  else
    let '(count, extension) := extension_loop (ha_headers headers) headerName 0 None in
    if count >? 1 then Err STATUS_INVALID_NETWORK_RESPONSE
    else if count =? 1 then
      match perMessageDeflate, extension with
      | Some options, Some extension =>
          if negb (po_Enable options) || negb (IsValidPerMessageDeflateOptions options) || negb negotiated
          then Err STATUS_INVALID_NETWORK_RESPONSE
          else ParsePerMessageDeflateResponse (hd_Value extension) options
      | _, _ => Err STATUS_INVALID_NETWORK_RESPONSE
      end
    else Ok negotiation_default.

(** ** The handshake *)

Inductive HashAlgorithm := Sha1 | Sha256 | Sha384 | Sha512.

(** The hash context of crypto/CngProvider, which calls the kernel: its three
    calls, the last two over the algorithm it was initialised with and the data
    hashed so far. *)
Record HashContext := MkHash {
  hash_Initialize : HashAlgorithm -> NTSTATUS;
  hash_Update : HashAlgorithm -> list Z -> list Z -> NTSTATUS;
  hash_Finish : HashAlgorithm -> list Z -> Result (list Z);
}.

(** Whether each allocation succeeds. *)
Record allocations := MkAlloc { al_hash : bool; al_digest : bool; al_expected : bool }.

(** [random]: the result of [GenerateRandom] on [WebSocketClientKeyLength]
    bytes; [bytesWritten]: the value at the pointer before the call. *)
Definition GenerateClientKey (random : Result (list Z)) (memory : bool) (destination : bool) (capacity : Z)
    (bytesWritten : Z) : written :=
  if negb memory then (STATUS_INSUFFICIENT_RESOURCES, bytesWritten, [])
  else
    match random with
    | Err status => (status, bytesWritten, [])
    | Ok nonce => Base64Encode (Bytes nonce) destination capacity
    end.

Section Handshake.
Variable hash : HashContext.

Definition ComputeAcceptValue (clientKey : span) (m : allocations) (destination : bool) (capacity : Z) : written :=
  if sp_isnull clientKey || (sp_len clientKey =? 0) || negb destination then (STATUS_INVALID_PARAMETER, 0, [])
  else if negb (al_hash m) then (STATUS_INSUFFICIENT_RESOURCES, 0, [])
  else if negb (NT_SUCCESS (hash_Initialize hash Sha1)) then (hash_Initialize hash Sha1, 0, [])
  else
    let key := sp_bytes clientKey in
    let status := hash_Update hash Sha1 [] key in
    let status := if NT_SUCCESS status then hash_Update hash Sha1 key WebSocketGuid else status in
    if negb (al_digest m) then (STATUS_INSUFFICIENT_RESOURCES, 0, [])
    else
      let digest := if NT_SUCCESS status then hash_Finish hash Sha1 (key ++ WebSocketGuid) else Err status in
      match digest with
      | Err status => (status, 0, [])
      | Ok digest =>
          if negb (zlen digest =? Sha1DigestLength) then (STATUS_INVALID_NETWORK_RESPONSE, 0, [])
          else Base64Encode (Bytes digest) destination capacity
      end.

(** The selected subprotocol (a null text when there is none) and the
    negotiated extension. *)
Definition ValidateServerHandshake (r : HttpResponse) (clientKey requestedSubprotocol : span)
    (perMessageDeflate : option PerMessageDeflateOptions) (negotiated : bool) (m : allocations)
    : Result (Text * PerMessageDeflateNegotiation) :=
  if negb (rp_StatusCode r =? 101) || negb (rp_MajorVersion r =? 1) || negb (rp_MinorVersion r =? 1)
     || negb (HasHeaderValueToken (text "Connection") (text "Upgrade") r)
     || negb (HasHeaderValueToken (text "Upgrade") (text "websocket") r)
  then Err STATUS_INVALID_NETWORK_RESPONSE
  else if negb (CountHeaders r (text "Sec-WebSocket-Accept") =? 1) then Err STATUS_INVALID_NETWORK_RESPONSE
  else
    match FindHeader (text "Sec-WebSocket-Accept") r with
    | None => Err STATUS_INVALID_NETWORK_RESPONSE
    | Some accept =>
        n ← ValidatePerMessageDeflateExtensions (rp_Headers r) (text "Sec-WebSocket-Extensions")
              perMessageDeflate negotiated;
        if negb (al_expected m) then Err STATUS_INSUFFICIENT_RESOURCES
        else
          let '(status, expectedLength, expected) :=
            ComputeAcceptValue clientKey m true WebSocketAcceptValueLength in
          if negb (NT_SUCCESS status) then Err status
          else if negb (sp_len (hd_Value accept) =? expectedLength)
                  || negb (ConstantTimeEquals (hd_Value accept) (Bytes expected))
          then Err STATUS_INVALID_NETWORK_RESPONSE
          else
            found ← FindSelectedSubprotocol r;
            match found with
            | None => Ok (Null 0, n)
            | Some selected =>
                let status := ValidateSelectedSubprotocol selected requestedSubprotocol in
                if NT_SUCCESS status then Ok (selected, n) else Err status
            end
    end.
End Handshake.

(** ** Frames *)

Definition IsKnownOpcode (opcode : Z) : bool :=
  (opcode =? Opcode_Continuation) || (opcode =? Opcode_Text) || (opcode =? Opcode_Binary)
  || (opcode =? Opcode_Close) || (opcode =? Opcode_Ping) || (opcode =? Opcode_Pong).
Definition IsControlOpcode (opcode : Z) : bool :=
  (opcode =? Opcode_Close) || (opcode =? Opcode_Ping) || (opcode =? Opcode_Pong).

(** [output]: what is at the destination so far; the cursor is its length. *)
Definition WritePayloadLength (payloadLength : Z) (masked : bool) (capacity : Z) (output : list Z)
    : Result (list Z) :=
  if zlen output >=? capacity then Err STATUS_INVALID_PARAMETER
  else
    let maskBit := if masked then 0x80 else 0x00 in
    if payloadLength <=? 125 then Ok (output ++ [u8 (Z.lor maskBit payloadLength)])
    else if payloadLength <=? 0xffff then
      if capacity -! zlen output <? 3 then Err STATUS_BUFFER_TOO_SMALL
      else
        Ok (output ++ [u8 (Z.lor maskBit 126); u8 (Z.land (Z.shiftr payloadLength 8) 0xff);
                       u8 (Z.land payloadLength 0xff)])
    else if capacity -! zlen output <? 9 then Err STATUS_BUFFER_TOO_SMALL
    else
      Ok (output ++ u8 (Z.lor maskBit 127)
            :: map (fun shift => u8 (Z.land (Z.shiftr payloadLength shift) 0xff)) [56; 48; 40; 32; 24; 16; 8; 0]).

(** [byte ^ maskingKey[index % 4]] over the payload from [index] on. *)
Fixpoint mask_loop (maskingKey : list Z) (index : Z) (payload : list Z) : list Z :=
  match payload with
  | [] => []
  | byte :: payload =>
      u8 (Z.lxor byte (zget maskingKey (index mod WebSocketMaskingKeyLength)))
      :: mask_loop maskingKey (index + 1) payload
  end.

Definition EncodeFrame (opcode : Z) (fin rsv1 : bool) (payload : span) (maskingKey : option (list Z)) (masked : bool)
    (destination : bool) (capacity : Z) : written :=
  let payloadLength := sp_len payload in
  if negb (IsValidBuffer payload) || (masked && bool_decide (maskingKey = None)) || negb destination
  then (STATUS_INVALID_PARAMETER, 0, [])
  else if negb (IsKnownOpcode opcode) then (STATUS_INVALID_PARAMETER, 0, [])
  else if IsControlOpcode opcode && (negb fin || (payloadLength >? WebSocketMaxControlPayloadLength))
  then (STATUS_INVALID_PARAMETER, 0, [])
  else if rsv1 && ((opcode =? Opcode_Continuation) || IsControlOpcode opcode) then (STATUS_INVALID_PARAMETER, 0, [])
  else if payloadLength >? WebSocketMaximumPayloadLength then (STATUS_INVALID_PARAMETER, 0, [])
  else
    let headerLength := 2 + (if masked then WebSocketMaskingKeyLength else 0) in
    let headerLength :=
      if (payloadLength >? 125) && (payloadLength <=? 0xffff) then headerLength +! 2
      else if payloadLength >? 0xffff then headerLength +! 8
      else headerLength in
    if payloadLength >? MAXU64 -! headerLength then (STATUS_INTEGER_OVERFLOW, 0, [])
    else
      let required := headerLength +! payloadLength in
      if capacity <? required then (STATUS_BUFFER_TOO_SMALL, required, [])
      else
        let first := u8 (Z.lor (Z.lor (if fin then 0x80 else 0x00) (if rsv1 then 0x40 else 0x00)) opcode) in
        match WritePayloadLength payloadLength masked capacity [first] with
        | Err status => (status, 0, [first])
        | Ok output =>
            let key := default [] maskingKey in
            let output := if masked then output ++ ztake WebSocketMaskingKeyLength key else output in
            let output := output ++ (if masked then mask_loop key 0 (sp_bytes payload) else sp_bytes payload) in
            (STATUS_SUCCESS, zlen output, output)
        end.

Definition EncodeClientFrame (opcode : Z) (fin rsv1 : bool) (payload : span) (maskingKey : option (list Z)) :
    bool -> Z -> written :=
  EncodeFrame opcode fin rsv1 payload maskingKey true.
Definition EncodeClientFrameForHttp2 (opcode : Z) (fin rsv1 : bool) (payload : span) : bool -> Z -> written :=
  EncodeFrame opcode fin rsv1 payload None false.

(** The payload length and the cursor after it. *)
Definition ReadExtendedLength (data : list Z) (lengthCode cursor : Z) : Result (Z * Z) :=
  if lengthCode <=? 125 then Ok (lengthCode, cursor)
  else if lengthCode =? 126 then
    if zlen data -! cursor <? 2 then Err STATUS_MORE_PROCESSING_REQUIRED
    else
      let payloadLength := Z.lor (u64 (Z.shiftl (zget data cursor) 8)) (zget data (cursor +! 1)) in
      if payloadLength <=? 125 then Err STATUS_INVALID_NETWORK_RESPONSE else Ok (payloadLength, cursor +! 2)
  else if zlen data -! cursor <? 8 then Err STATUS_MORE_PROCESSING_REQUIRED
  else
    let value := be_get 0 (zsub data cursor 8) in
    if negb (Z.land value (2 ^ 63) =? 0) || (value <=? 0xffff) then Err STATUS_INVALID_NETWORK_RESPONSE
    else Ok (value, cursor +! 8).

Definition DecodeFrameHeader (data : span) : Result WebSocketFrameHeader :=
  if sp_isnull data then Err STATUS_INVALID_PARAMETER
  else if sp_len data <? 2 then Err STATUS_MORE_PROCESSING_REQUIRED
  else
    let first := zget (sp_bytes data) 0 in
    let second := zget (sp_bytes data) 1 in
    if negb (Z.land first 0x30 =? 0) then Err STATUS_INVALID_NETWORK_RESPONSE
    else
      let opcode := Z.land first 0x0f in
      if negb (IsKnownOpcode opcode) then Err STATUS_INVALID_NETWORK_RESPONSE
      else
        '(payloadLength, cursor) ← ReadExtendedLength (sp_bytes data) (Z.land second 0x7f) 2;
        let masked := negb (Z.land second 0x80 =? 0) in
        if masked then Err STATUS_INVALID_NETWORK_RESPONSE
        else if IsControlOpcode opcode && ((Z.land first 0x80 =? 0) || (payloadLength >? 125))
        then Err STATUS_INVALID_NETWORK_RESPONSE
        else
          Ok (MkFrameHeader (negb (Z.land first 0x80 =? 0)) (negb (Z.land first 0x40 =? 0)) masked opcode payloadLength
                (replicate 4 0) cursor).

Definition DecodeFramePayload (header : WebSocketFrameHeader) (data : span) (destination : bool) (capacity : Z)
    : written :=
  if wh_PayloadLength header >? MAXU64 then (STATUS_BUFFER_TOO_SMALL, 0, [])
  else
    let payloadLength := wh_PayloadLength header in
    if sp_isnull data || (wh_HeaderLength header >? sp_len data)
       || (payloadLength >? sp_len data -! wh_HeaderLength header)
    then (STATUS_MORE_PROCESSING_REQUIRED, 0, [])
    else if negb destination || (capacity <? payloadLength) then (STATUS_BUFFER_TOO_SMALL, payloadLength, [])
    else
      let payload := zsub (sp_bytes data) (wh_HeaderLength header) payloadLength in
      let output := if wh_Masked header then mask_loop (wh_MaskingKey header) 0 payload else payload in
      (STATUS_SUCCESS, payloadLength, output).

(** ** The layout of a frame (RFC 6455, section 5.2) *)

Definition first_byte (fin rsv1 : bool) (opcode : Z) : Z := 128 * Z.b2z fin + 64 * Z.b2z rsv1 + opcode.
Definition length_bytes (masked : bool) (n : Z) : list Z :=
  if n <=? 125 then [128 * Z.b2z masked + n]
  else if n <=? 65535 then 128 * Z.b2z masked + 126 :: be_put 2 n
  else 128 * Z.b2z masked + 127 :: be_put 8 n.
(** Byte [i] of the payload is combined with byte [i mod 4] of the key. *)
Definition masked_bytes (key payload : list Z) : list Z :=
  imap (fun i byte => Z.lxor byte (zget key (Z.of_nat i mod 4))) payload.
Definition frame_bytes (fin rsv1 : bool) (opcode : Z) (key : option (list Z)) (payload : list Z) : list Z :=
  first_byte fin rsv1 opcode :: length_bytes (bool_decide (key <> None)) (zlen payload)
  ++ match key with Some key => key ++ masked_bytes key payload | None => payload end.

(** Control frames are short and whole, and only the first frame of a data
    message has RSV1. *)
Definition legal (fin rsv1 : bool) (opcode n : Z) : bool :=
  IsKnownOpcode opcode
  && negb (IsControlOpcode opcode && (negb fin || (n >? 125)))
  && negb (rsv1 && ((opcode =? Opcode_Continuation) || IsControlOpcode opcode))
  && (n <? 2 ^ 63).

(** ** Bytes of a header *)

Lemma known_opcode opcode : IsKnownOpcode opcode = true -> In opcode [0; 1; 2; 8; 9; 10].
Proof.
  unfold IsKnownOpcode, Opcode_Continuation, Opcode_Text, Opcode_Binary, Opcode_Close, Opcode_Ping, Opcode_Pong.
  rewrite !orb_true_iff, !Z.eqb_eq. cbn. intuition.
Qed.

Lemma first_byte_spec fin rsv1 opcode : IsKnownOpcode opcode = true ->
  let b := first_byte fin rsv1 opcode in
  is_byte b /\ Z.land b 0x30 = 0 /\ Z.land b 0x0f = opcode
  /\ (Z.land b 0x80 =? 0) = negb fin /\ (Z.land b 0x40 =? 0) = negb rsv1
  /\ u8 (Z.lor (Z.lor (if fin then 0x80 else 0x00) (if rsv1 then 0x40 else 0x00)) opcode) = b.
Proof.
  intros H%known_opcode. cbn in H.
  repeat (destruct H as [<-|H]; [by destruct fin, rsv1|]). done.
Qed.
Lemma first_byte_inv b : is_byte b -> Z.land b 0x30 = 0 -> IsKnownOpcode (Z.land b 0x0f) = true ->
  b = first_byte (negb (Z.land b 0x80 =? 0)) (negb (Z.land b 0x40 =? 0)) (Z.land b 0x0f).
Proof.
  intros Hb H30 Hk. pose proof (byte_cases (fun b =>
    negb (Z.land b 0x30 =? 0) || negb (IsKnownOpcode (Z.land b 0x0f))
    || (b =? first_byte (negb (Z.land b 0x80 =? 0)) (negb (Z.land b 0x40 =? 0)) (Z.land b 0x0f)))%bool
    ltac:(vm_compute; reflexivity) b Hb) as H.
  cbv beta in H. rewrite H30, Hk in H. cbn [Z.eqb negb orb] in H. by apply Z.eqb_eq in H.
Qed.

Lemma second_byte b : is_byte b ->
  Z.land b 0x7f = b mod 128 /\ (Z.land b 0x80 =? 0) = (b <? 128).
Proof.
  intros Hb. pose proof (byte_cases (fun b => (Z.land b 0x7f =? b mod 128)
    && Bool.eqb (Z.land b 0x80 =? 0) (b <? 128))%bool ltac:(vm_compute; reflexivity) b Hb) as H.
  cbv beta in H. bool_prop. split; [done|]. by apply eqb_prop.
Qed.

Lemma mask_bit (masked : bool) n : 0 <= n < 128 ->
  u8 (Z.lor (if masked then 0x80 else 0x00) n) = 128 * Z.b2z masked + n.
Proof.
  intros Hn. destruct masked; [|by rewrite Z.lor_0_l, Z.add_0_l; apply Z.mod_small; lia].
  change 0x80 with (1 * 2 ^ 7). rewrite lor_disjoint by lia. unfold u8. cbn [Z.b2z]. apply Z.mod_small. lia.
Qed.

Lemma be_put_shifts v :
  map (fun shift => u8 (Z.land (Z.shiftr v shift) 0xff)) [56; 48; 40; 32; 24; 16; 8; 0] = be_put 8 v.
Proof.
  unfold be_put. change (Z.to_nat 8) with 8%nat. cbn [be_put_loop map].
  rewrite !Z.shiftr_shiftr by lia. by rewrite Z.shiftr_0_r.
Qed.
Lemma be_put_2 v : [u8 (Z.land (Z.shiftr v 8) 0xff); u8 (Z.land v 0xff)] = be_put 2 v.
Proof. done. Qed.

Lemma length_bytes_size masked n :
  zlen (length_bytes masked n) = if n <=? 125 then 1 else if n <=? 65535 then 3 else 9.
Proof. unfold length_bytes. repeat case_if; [done| |]; by rewrite zlen_cons, be_put_len. Qed.

Lemma WritePayloadLength_spec n masked capacity output :
  0 <= n < 2 ^ 63 -> zlen output + zlen (length_bytes masked n) <= capacity -> capacity < 2 ^ 64 ->
  WritePayloadLength n masked capacity output = Ok (output ++ length_bytes masked n).
Proof.
  intros Hn Hc Hcap. rewrite length_bytes_size in Hc. pose proof (zlen_nonneg output).
  unfold WritePayloadLength, length_bytes. cbv zeta.
  rewrite Z.geb_leb. rewrite (proj2 (Z.leb_gt _ _)) by (repeat case_if_in Hc; lia).
  destruct (Z.leb_spec n 125); [by rewrite mask_bit by lia|]. destruct (Z.leb_spec n 65535).
  - rewrite u64_id by lia. rewrite (proj2 (Z.ltb_ge _ _)) by lia. by rewrite mask_bit by lia.
  - rewrite u64_id by lia. rewrite (proj2 (Z.ltb_ge _ _)) by lia. by rewrite be_put_shifts, mask_bit by lia.
Qed.

Lemma lxor_byte a b : is_byte a -> is_byte b -> is_byte (Z.lxor a b).
Proof.
  unfold is_byte. intros Ha Hb. assert (Hn : 0 <= Z.lxor a b) by (apply Z.lxor_nonneg; lia). split; [done|].
  destruct (Z.eq_dec (Z.lxor a b) 0) as [->|]; [lia|]. apply (Z.log2_lt_cancel _ 256).
  pose proof (Z.log2_lxor a b ltac:(lia) ltac:(lia)). pose proof (Z.log2_le_mono a 255 ltac:(lia)).
  pose proof (Z.log2_le_mono b 255 ltac:(lia)). change (Z.log2 255) with 7 in *. change (Z.log2 256) with 8. lia.
Qed.

Lemma mask_loop_spec key index payload : bytes key -> zlen key = 4 -> bytes payload -> 0 <= index ->
  mask_loop key index payload = imap (fun i byte => Z.lxor byte (zget key ((index + Z.of_nat i) mod 4))) payload.
Proof.
  intros Hk Hk4 Hp. revert index. induction Hp as [|b payload Hb _ IH]; intros index Hi; [done|].
  cbn [mask_loop imap]. rewrite IH by lia. f_equal.
  - rewrite Z.add_0_r. unfold u8, WebSocketMaskingKeyLength. apply Z.mod_small.
    apply lxor_byte; [done|]. apply zget_byte; [done|]. pose proof (Z.mod_pos_bound index 4). lia.
  - apply imap_ext. intros i x _. cbn. do 2 f_equal. f_equal. lia.
Qed.

(** ** Writing *)

Definition key_ok (key : option (list Z)) : Prop :=
  match key with Some key => bytes key /\ zlen key = 4 | None => True end.

Lemma frame_bytes_size fin rsv1 opcode key payload : key_ok key ->
  zlen (frame_bytes fin rsv1 opcode key payload)
  = 2 + (if bool_decide (key <> None) then 4 else 0)
    + (if zlen payload <=? 125 then 0 else if zlen payload <=? 65535 then 2 else 8) + zlen payload.
Proof.
  intros Hk. unfold frame_bytes. rewrite zlen_cons, zlen_app, length_bytes_size.
  destruct key as [key|]; cbn in Hk.
  - destruct Hk as [_ Hk]. rewrite bool_decide_true by done. rewrite zlen_app, Hk.
    unfold zlen, masked_bytes. rewrite length_imap. repeat case_if; lia.
  - rewrite bool_decide_false by naive_solver. repeat case_if; lia.
Qed.

Lemma EncodeFrame_spec opcode fin rsv1 payload key capacity :
  bytes payload -> zlen payload < 2 ^ 64 -> key_ok key -> 0 <= capacity < 2 ^ 64 ->
  EncodeFrame opcode fin rsv1 (Bytes payload) key (bool_decide (key <> None)) true capacity
  = if negb (legal fin rsv1 opcode (zlen payload)) then (STATUS_INVALID_PARAMETER, 0, [])
    else
      let frame := frame_bytes fin rsv1 opcode key payload in
      if capacity <? zlen frame then (STATUS_BUFFER_TOO_SMALL, zlen frame, [])
      else (STATUS_SUCCESS, zlen frame, frame).
Proof.
  intros Hp Hlen Hk Hc. pose proof (zlen_nonneg payload) as Hn0. pose proof (frame_bytes_size fin rsv1 opcode key payload Hk) as Hs.
  unfold EncodeFrame, IsValidBuffer, legal. cbn [sp_len sp_isnull sp_bytes negb]. rewrite orb_true_r.
  replace (bool_decide (key <> None) && bool_decide (key = None)) with false by (by destruct key). cbn [negb orb].
  destruct (IsKnownOpcode opcode) eqn:Hop; [|done]. cbn [negb andb].
  change WebSocketMaxControlPayloadLength with 125.
  destruct (IsControlOpcode opcode && (negb fin || (zlen payload >? 125))); [done|]. cbn [negb andb].
  destruct (rsv1 && _); [done|]. cbn [negb andb].
  replace (zlen payload >? WebSocketMaximumPayloadLength) with (negb (zlen payload <? 2 ^ 63)).
  2:{ unfold WebSocketMaximumPayloadLength. destruct (Z.ltb_spec (zlen payload) (2 ^ 63)), (Z.gtb_spec (zlen payload) 0x7fffffffffffffff); (done || lia). }
  destruct (Z.ltb_spec (zlen payload) (2 ^ 63)) as [Hl|]; [|done]. cbn [negb]. cbv zeta.
  set (h := 2 + (if bool_decide (key <> None) then 4 else 0)
            + (if zlen payload <=? 125 then 0 else if zlen payload <=? 65535 then 2 else 8)) in *.
  assert (Hh : 2 <= h <= 14) by (unfold h; repeat case_if; lia).
  match goal with |- context [zlen payload >? MAXU64 -! ?x] => replace x with h end.
  2:{ unfold h, WebSocketMaskingKeyLength. rewrite Z.gtb_ltb, (Z.gtb_ltb _ 0xffff).
      destruct (bool_decide _), (Z.leb_spec (zlen payload) 125), (Z.ltb_spec 125 (zlen payload)), (Z.leb_spec (zlen payload) 65535),
        (Z.ltb_spec 0xffff (zlen payload)); cbn [andb]; rewrite ?u64_id; lia. }
  unfold MAXU64. rewrite Z.gtb_ltb, (proj2 (Z.ltb_ge _ (zlen payload))), (u64_id (h + zlen payload)), <- Hs by (rewrite ?u64_id; lia).
  destruct (Z.ltb_spec capacity (zlen (frame_bytes fin rsv1 opcode key payload))) as [|Hcap]; [done|].
  pose proof (first_byte_spec fin rsv1 opcode Hop) as (_ & _ & _ & _ & _ & Hfirst). cbv zeta in Hfirst. rewrite Hfirst.
  rewrite WritePayloadLength_spec; [|lia| |lia].
  2:{ rewrite length_bytes_size. change (zlen [first_byte fin rsv1 opcode]) with 1. unfold h in Hs.
      repeat case_if; lia. }
  unfold frame_bytes in *. destruct key as [key|]; cbn [default from_option].
  - destruct Hk as [Hkb Hk4]. rewrite bool_decide_true in * by done.
    change WebSocketMaskingKeyLength with 4. change (id key) with key. rewrite (ztake_all 4 key) by lia. rewrite mask_loop_spec by (done || lia).
    cbn [app]. rewrite <- !app_assoc. done.
  - rewrite bool_decide_false in * by naive_solver. cbn [app]. done.
Qed.

(** ** Reading *)

Lemma high_bit_clear value : 0 <= value < 2 ^ 64 -> (Z.land value (2 ^ 63) =? 0) = (value <? 2 ^ 63).
Proof.
  intros Hv. assert (E : Z.land value (2 ^ 63) = value / 2 ^ 63 * 2 ^ 63).
  { apply Z.bits_inj'. intros i Hi. rewrite Z.land_spec, Z.pow2_bits_eqb, <- Z.shiftl_mul_pow2 by lia.
    rewrite <- Z.shiftr_div_pow2, Z.shiftl_spec by lia. destruct (Z.eqb_spec 63 i) as [<-|Hne].
    - rewrite andb_true_r, Z.shiftr_spec by lia. f_equal.
    - rewrite andb_false_r. symmetry. destruct (Z.lt_ge_cases i 63); [by apply Z.testbit_neg_r; lia|].
      rewrite Z.shiftr_spec by lia. destruct (Z.eq_dec value 0) as [->|]; [apply Z.testbit_0_l|].
      apply Z.bits_above_log2; [lia|]. pose proof (Z.log2_lt_pow2 value 64). lia. }
  rewrite E. destruct (Z.ltb_spec value (2 ^ 63)).
  - by rewrite Z.div_small by lia.
  - apply Z.eqb_neq. pose proof (Z.div_le_mono (2 ^ 63) value (2 ^ 63)). rewrite Z.div_same in * by lia. lia.
Qed.

Lemma ReadExtendedLength_complete f n rest :
  0 <= n < 2 ^ 63 -> zlen rest < 2 ^ 63 ->
  let data := f :: length_bytes false n ++ rest in
  ReadExtendedLength data (zget data 1 mod 128) 2 = Ok (n, 1 + zlen (length_bytes false n)).
Proof.
  intros Hn Hr. rewrite length_bytes_size. unfold length_bytes, ReadExtendedLength. cbn [Z.b2z]. rewrite Z.mul_0_r, !Z.add_0_l.
  pose proof (zlen_nonneg rest). destruct (Z.leb_spec n 125).
  { cbn [app]. change (zget (_ :: n :: _) 1) with n. rewrite Z.mod_small by lia.
    by rewrite (proj2 (Z.leb_le _ _)) by done. }
  destruct (Z.leb_spec n 65535).
  - cbn [app]. change (zget (_ :: 126 :: _) 1 mod 128) with 126. cbn [Z.leb Z.eqb Z.compare Pos.compare Pos.compare_cont Pos.eqb].
    rewrite u64_id by (rewrite !zlen_cons, zlen_app, be_put_len; lia).
    rewrite (proj2 (Z.ltb_ge _ _)) by (rewrite !zlen_cons, zlen_app, be_put_len; lia).
    change (2 +! 1) with 3. change (2 +! 2) with 4.
    assert (E : Z.lor (u64 (Z.shiftl (zget (f :: 126 :: be_put 2 n ++ rest) 2) 8)) (zget (f :: 126 :: be_put 2 n ++ rest) 3) = n).
    { transitivity (be_get 0 (be_put 2 n)); [reflexivity|]. rewrite be_get_put, Z.mod_small by lia. done. }
    rewrite E. by rewrite (proj2 (Z.leb_gt _ _)) by done.
  - cbn [app]. change (zget (_ :: 127 :: _) 1 mod 128) with 127. cbn [Z.leb Z.eqb Z.compare Pos.compare Pos.compare_cont Pos.eqb].
    rewrite u64_id by (rewrite !zlen_cons, zlen_app, be_put_len; lia).
    rewrite (proj2 (Z.ltb_ge _ _)) by (rewrite !zlen_cons, zlen_app, be_put_len; lia).
    assert (E : zsub (f :: 127 :: be_put 8 n ++ rest) 2 8 = be_put 8 n).
    { change (f :: 127 :: be_put 8 n ++ rest) with ([f; 127] ++ be_put 8 n ++ rest). unfold zsub.
      change 2 with (zlen [f; 127]). rewrite zdrop_app_len. rewrite <- (be_put_len 8 n) at 1 by lia. apply ztake_app_len. }
    rewrite E, be_get_put, Z.mod_small by (change (256 ^ 8) with (2 ^ 64); lia).
    rewrite high_bit_clear, (proj2 (Z.ltb_lt _ _)), (proj2 (Z.leb_gt _ _)) by lia. done.
Qed.

Lemma ReadExtendedLength_sound f s tail n cursor :
  bytes (f :: s :: tail) -> zlen tail < 2 ^ 63 -> s < 128 ->
  ReadExtendedLength (f :: s :: tail) (s mod 128) 2 = Ok (n, cursor) ->
  0 <= n < 2 ^ 63 /\ exists rest, s :: tail = length_bytes false n ++ rest.
Proof.
  intros [Hf [Hs Ht]%Forall_cons]%Forall_cons Hlen Hs'. unfold is_byte in Hs. rewrite Z.mod_small by lia.
  unfold ReadExtendedLength, length_bytes. cbn [Z.b2z]. pose proof (zlen_nonneg tail).
  rewrite (u64_id (zlen (f :: s :: tail) - 2)) by (rewrite !zlen_cons; lia). rewrite !zlen_cons.
  destruct (Z.leb_spec s 125); [intros [= <- <-]|].
  { rewrite (proj2 (Z.leb_le _ _)) by done. split; [lia|]. by exists tail. }
  destruct (Z.eqb_spec s 126) as [->|].
  - case_if; [done|]. bool_prop. case_if; [done|]. bool_prop. intros [= <- <-].
    destruct tail as [|a [|b tail]];
      [exfalso; change (zlen (@nil Z)) with 0 in *; lia|exfalso; change (zlen [a]) with 1 in *; lia|]. change (zget (f :: 126 :: a :: b :: tail) 2) with a.
    change (zget (f :: 126 :: a :: b :: tail) (2 +! 1)) with b.
    apply Forall_cons in Ht as [Ha [Hb Ht]%Forall_cons].
    change (Z.lor (u64 (Z.shiftl a 8)) b) with (be_get 0 [a; b]).
    change (zget (f :: 126 :: a :: b :: tail) 2) with a in *.
    change (zget (f :: 126 :: a :: b :: tail) (2 +! 1)) with b in *.
    change (Z.lor (u64 (Z.shiftl a 8)) b) with (be_get 0 [a; b]) in *.
    assert (Hab : bytes [a; b]) by (apply Forall_cons; split; [done|by apply Forall_singleton]).
    destruct (be_get_value [a; b] 0) as [_ Hv]; [done|done|done|].
    change (256 ^ zlen [a; b]) with 65536 in Hv. split; [lia|]. exists tail.
    rewrite (proj2 (Z.leb_gt _ _)), (proj2 (Z.leb_le _ _)) by lia.
    change (be_put 2 (be_get 0 [a; b])) with (be_put (zlen [a; b]) (be_get 0 [a; b])). by rewrite be_put_get.
  - case_if; [done|]. bool_prop. assert (s = 127) as -> by lia.
    destruct (zsub (f :: 127 :: tail) 2 8) as [|] eqn:Ez; [apply (f_equal zlen) in Ez; rewrite zlen_zsub in Ez; [done|lia..|rewrite !zlen_cons; lia]|].
    rewrite <- Ez. clear Ez. set (w := zsub (f :: 127 :: tail) 2 8).
    assert (Hw : zlen w = 8) by (apply zlen_zsub; rewrite ?zlen_cons; lia).
    assert (Hwb : bytes w) by (apply bytes_zsub; apply Forall_cons; split; [done|by apply Forall_cons]).
    destruct (be_get_value w 0) as [_ Hv]; [done|done|rewrite Hw; done|]. rewrite Hw in Hv.
    rewrite high_bit_clear by done. destruct (Z.ltb_spec (be_get 0 w) (2 ^ 63)); [|done]. cbn [negb orb].
    destruct (Z.leb_spec (be_get 0 w) 65535); [done|]. intros [= <- <-]. split; [lia|].
    rewrite (proj2 (Z.leb_gt (be_get 0 w) 125)), (proj2 (Z.leb_gt (be_get 0 w) 65535)) by lia.
    exists (zdrop 8 tail). rewrite <- Hw at 1. rewrite be_put_get by (done || lia). cbn [app]. f_equal.
    symmetry. apply (ztake_zdrop 8 tail).
Qed.

(** What a client accepts in a header, and the header it reads. *)
Definition receivable (fin : bool) (opcode n : Z) : Prop :=
  IsKnownOpcode opcode = true /\ 0 <= n < 2 ^ 63
  /\ (IsControlOpcode opcode = true -> fin = true /\ n <= 125).
Definition header_bytes (fin rsv1 : bool) (opcode n : Z) : list Z :=
  first_byte fin rsv1 opcode :: length_bytes false n.
Definition received_header (fin rsv1 : bool) (opcode n : Z) : WebSocketFrameHeader :=
  MkFrameHeader fin rsv1 false opcode n (replicate 4 0) (zlen (header_bytes fin rsv1 opcode n)).

Lemma length_bytes_head masked n rest : 0 <= n -> exists s tail,
  length_bytes masked n ++ rest = s :: tail /\ 128 * Z.b2z masked <= s < 128 + 128 * Z.b2z masked.
Proof. intros Hn. unfold length_bytes. repeat case_if; bool_prop; eexists; eexists; (split; [done|]); lia. Qed.

Lemma decode_header_complete fin rsv1 opcode n rest :
  receivable fin opcode n -> zlen rest < 2 ^ 63 ->
  DecodeFrameHeader (Bytes (header_bytes fin rsv1 opcode n ++ rest)) = Ok (received_header fin rsv1 opcode n).
Proof.
  intros (Hop & Hn & Hctl) Hr. unfold DecodeFrameHeader, header_bytes. cbn [sp_isnull sp_len sp_bytes app].
  destruct (first_byte_spec fin rsv1 opcode Hop) as (Hb & H30 & H0f & H80 & H40 & _).
  pose proof (ReadExtendedLength_complete (first_byte fin rsv1 opcode) n rest Hn Hr) as Hread. cbv zeta in Hread.
  destruct (length_bytes_head false n rest ltac:(lia)) as (s & tail & E & Hs). rewrite E in *. cbn [Z.b2z] in Hs.
  change (zget (_ :: s :: tail) 1) with s in *. change (zget (?a :: s :: tail) 0) with a.
  rewrite (proj2 (Z.ltb_ge _ _)) by (rewrite !zlen_cons; pose proof (zlen_nonneg tail); lia).
  rewrite H30, H0f, H80, H40, Hop. cbn [Z.eqb negb].
  destruct (second_byte s) as [-> ->]; [unfold is_byte; lia|]. rewrite Hread. cbn [mbind Result_bind].
  rewrite (proj2 (Z.ltb_lt _ _)) by lia. cbn [negb].
  replace (IsControlOpcode opcode && (negb fin || (n >? 125))) with false.
  - rewrite !negb_involutive. unfold received_header, header_bytes. by rewrite zlen_cons.
  - symmetry. destruct (IsControlOpcode opcode); [|done]. destruct (Hctl eq_refl) as [-> ?]. cbn. rewrite Z.gtb_ltb.
    by apply Z.ltb_ge.
Qed.

Lemma decode_header_sound data h :
  bytes data -> zlen data < 2 ^ 63 -> DecodeFrameHeader (Bytes data) = Ok h ->
  exists fin rsv1 opcode n rest,
    data = header_bytes fin rsv1 opcode n ++ rest /\ receivable fin opcode n /\ h = received_header fin rsv1 opcode n.
Proof.
  intros Hd Hlen H. pose proof H as H'. unfold DecodeFrameHeader in H. cbn [sp_isnull sp_len sp_bytes] in H.
  case_if_in H; [done|]. destruct data as [|f [|s tail]]; [done..|]. bool_prop.
  change (zget (f :: s :: tail) 0) with f in H. change (zget (f :: s :: tail) 1) with s in H.
  pose proof Hd as [Hf [Hs Ht]%Forall_cons]%Forall_cons.
  destruct (Z.eqb_spec (Z.land f 0x30) 0) as [H30|]; [|done]. cbn [negb] in H.
  destruct (IsKnownOpcode (Z.land f 0x0f)) eqn:Hop; [|done]. cbn [negb] in H.
  destruct (second_byte s Hs) as [E7f E80]. rewrite E7f, E80 in H. apply bind_Ok in H as ([n cursor] & Hread & H).
  destruct (Z.ltb_spec s 128); [|done]. cbn [negb] in H.
  destruct (ReadExtendedLength_sound f s tail n cursor) as (Hn & rest & E); [done|rewrite !zlen_cons in Hlen; lia|done|done|].
  pose proof (first_byte_inv f Hf H30 Hop) as Ef. rewrite E, Ef in H'. rewrite E, Ef.
  destruct (IsControlOpcode _ && _) eqn:Ec in H; [done|].
  assert (Hrec : receivable (negb (Z.land f 0x80 =? 0)) (Z.land f 0x0f) n).
  { split_and!; [done|lia|lia|]. intros Hc. rewrite Hc in Ec. cbn [andb] in Ec. apply orb_false_iff in Ec as [-> Ec].
    rewrite Z.gtb_ltb in Ec. apply Z.ltb_ge in Ec. done. }
  do 5 eexists. split; [reflexivity|]. split; [done|].
  change (first_byte ?a ?b ?c :: length_bytes false n ++ rest) with (header_bytes a b c n ++ rest) in H'.
  rewrite decode_header_complete in H'; [by injection H' as <-|done|].
  apply (f_equal zlen) in E. rewrite zlen_cons, zlen_app in E. rewrite !zlen_cons in Hlen.
  pose proof (zlen_nonneg (length_bytes false n)). lia.
Qed.

Lemma ReadExtendedLength_stable data more code :
  2 <= zlen data -> zlen (data ++ more) < 2 ^ 63 ->
  ReadExtendedLength data code 2 <> Err STATUS_MORE_PROCESSING_REQUIRED ->
  ReadExtendedLength (data ++ more) code 2 = ReadExtendedLength data code 2.
Proof.
  intros Hd Hm. pose proof (zlen_nonneg more). rewrite zlen_app in Hm. unfold ReadExtendedLength.
  rewrite (u64_id (zlen data - 2)), (u64_id (zlen (data ++ more) - 2)) by (rewrite ?zlen_app; lia).
  rewrite zlen_app. change (2 +! 1) with 3.
  destruct (code <=? 125); [done|]. destruct (code =? 126).
  - destruct (Z.ltb_spec (zlen data - 2) 2); [done|]. rewrite (proj2 (Z.ltb_ge _ _)) by lia.
    by rewrite !zget_app_l by lia.
  - destruct (Z.ltb_spec (zlen data - 2) 8); [done|]. rewrite (proj2 (Z.ltb_ge _ _)) by lia.
    assert (E : zsub (data ++ more) 2 8 = zsub data 2 8); [|by rewrite E].
    apply zget_ext; [rewrite !zlen_zsub by (rewrite ?zlen_app; lia); done|]. intros i Hi.
    rewrite zlen_zsub in Hi by (rewrite ?zlen_app; lia). by rewrite !zget_zsub, zget_app_l by lia.
Qed.

Lemma decode_header_stable data more :
  zlen (data ++ more) < 2 ^ 63 -> DecodeFrameHeader (Bytes data) <> Err STATUS_MORE_PROCESSING_REQUIRED ->
  DecodeFrameHeader (Bytes (data ++ more)) = DecodeFrameHeader (Bytes data).
Proof.
  unfold DecodeFrameHeader. cbn [sp_isnull sp_len sp_bytes]. intros Hm H. rewrite zlen_app in *. pose proof (zlen_nonneg more).
  destruct (Z.ltb_spec (zlen data) 2); [done|]. rewrite (proj2 (Z.ltb_ge _ _)) by lia. rewrite !zget_app_l by lia.
  case_if; [done|]. case_if; [done|].
  rewrite ReadExtendedLength_stable; [done|done|by rewrite zlen_app|].
  intros E. rewrite E in H. done.
Qed.

Lemma decode_header_short data :
  zlen data < 2 ^ 63 -> DecodeFrameHeader (Bytes data) = Err STATUS_MORE_PROCESSING_REQUIRED -> zlen data < 10.
Proof.
  unfold DecodeFrameHeader. cbn [sp_isnull sp_len sp_bytes]. intros Hd H.
  destruct (Z.ltb_spec (zlen data) 2); [lia|]. case_if_in H; [done|]. case_if_in H; [done|].
  unfold ReadExtendedLength in H. rewrite u64_id in H by lia.
  repeat (case_if_in H; try done; bool_prop; try lia); cbn [mbind Result_bind] in H; repeat (case_if_in H; try done).
Qed.

(** ** Masking *)

Lemma masked_bytes_size key payload : zlen (masked_bytes key payload) = zlen payload.
Proof. unfold masked_bytes, zlen. by rewrite length_imap. Qed.
Lemma masked_bytes_bytes key payload : bytes key -> zlen key = 4 -> bytes payload -> bytes (masked_bytes key payload).
Proof.
  intros Hk Hk4 Hp. apply Forall_lookup. intros i b Hi. unfold masked_bytes in Hi.
  rewrite list_lookup_imap in Hi. apply fmap_Some in Hi as (x & Hx & ->).
  apply lxor_byte; [by eapply Forall_lookup_1|]. apply zget_byte; [done|].
  pose proof (Z.mod_pos_bound (Z.of_nat i) 4). lia.
Qed.
Lemma masked_bytes_twice key payload : masked_bytes key (masked_bytes key payload) = payload.
Proof.
  unfold masked_bytes. apply list_eq. intros i. rewrite !list_lookup_imap.
  destruct (payload !! i) as [b|]; [|done]. cbn. by rewrite Z.lxor_assoc, Z.lxor_nilpotent, Z.lxor_0_r.
Qed.

Lemma decode_payload_spec h data capacity :
  0 <= wh_PayloadLength h -> 0 <= wh_HeaderLength h -> zlen data < 2 ^ 63 ->
  wh_HeaderLength h + wh_PayloadLength h <= zlen data -> wh_PayloadLength h <= capacity ->
  DecodeFramePayload h (Bytes data) true capacity
  = (STATUS_SUCCESS, wh_PayloadLength h,
     let payload := zsub data (wh_HeaderLength h) (wh_PayloadLength h) in
     if wh_Masked h then mask_loop (wh_MaskingKey h) 0 payload else payload).
Proof.
  intros Hn Hh Hd Hle Hc. unfold DecodeFramePayload, MAXU64. cbn [sp_isnull sp_len sp_bytes orb negb].
  rewrite u64_id by lia. rewrite !Z.gtb_ltb, !(proj2 (Z.ltb_ge _ _)) by lia. done.
Qed.

Definition encode_frame (fin rsv1 : bool) (opcode : Z) (key : option (list Z)) (payload : list Z) (capacity : Z) : written :=
  match key with
  | Some _ => EncodeClientFrame opcode fin rsv1 (Bytes payload) key true capacity
  | None => EncodeClientFrameForHttp2 opcode fin rsv1 (Bytes payload) true capacity
  end.

(** The header of the frame as its receiver has to read it. *)
Definition frame_header (fin rsv1 : bool) (opcode : Z) (key : option (list Z)) (payload : list Z) : WebSocketFrameHeader :=
  MkFrameHeader fin rsv1 (bool_decide (key <> None)) opcode (zlen payload) (default (replicate 4 0) key)
    (zlen (frame_bytes fin rsv1 opcode key payload) - zlen payload).

Lemma frame_payload_at fin rsv1 opcode key payload rest capacity :
  bytes payload -> key_ok key -> zlen (frame_bytes fin rsv1 opcode key payload ++ rest) < 2 ^ 63 ->
  zlen payload <= capacity ->
  DecodeFramePayload (frame_header fin rsv1 opcode key payload)
    (Bytes (frame_bytes fin rsv1 opcode key payload ++ rest)) true capacity
  = (STATUS_SUCCESS, zlen payload, payload).
Proof.
  intros Hp Hk Hlen Hc. pose proof (zlen_nonneg payload). pose proof (zlen_nonneg rest).
  pose proof (frame_bytes_size fin rsv1 opcode key payload Hk) as Hs. rewrite zlen_app in Hlen.
  set (body := match key with Some key => masked_bytes key payload | None => payload end).
  assert (Hsplit : exists front, frame_bytes fin rsv1 opcode key payload = front ++ body).
  { unfold frame_bytes, body. destruct key as [key|].
    - exists (first_byte fin rsv1 opcode :: length_bytes true (zlen payload) ++ key). cbn [app]. by rewrite <- app_assoc.
    - by exists (first_byte fin rsv1 opcode :: length_bytes false (zlen payload)). }
  destruct Hsplit as (front & E). assert (Hb : zlen body = zlen payload).
  { unfold body. destruct key; [by rewrite masked_bytes_size|done]. }
  assert (Hfront : zlen (frame_bytes fin rsv1 opcode key payload) - zlen payload = zlen front)
    by (rewrite E, zlen_app; lia).
  rewrite decode_payload_spec; cbn [frame_header wh_PayloadLength wh_HeaderLength wh_Masked wh_MaskingKey];
    rewrite ?Hfront; [|lia|apply zlen_nonneg|rewrite zlen_app; lia|rewrite zlen_app, E, zlen_app; pose proof (zlen_nonneg front); lia|done].
  f_equal. cbv zeta. assert (Ez : zsub (frame_bytes fin rsv1 opcode key payload ++ rest) (zlen front) (zlen payload) = body).
  { rewrite E, <- app_assoc. unfold zsub. rewrite zdrop_app_len, <- Hb. apply ztake_app_len. }
  rewrite Ez. unfold body. destruct key as [key|]; [|by rewrite bool_decide_false by naive_solver].
  destruct Hk as [Hkb Hk4]. rewrite bool_decide_true by done. cbn [default from_option]. change (id key) with key.
  rewrite mask_loop_spec; [|done|done|by apply masked_bytes_bytes|done]. apply (masked_bytes_twice key payload).
Qed.

(** A masked frame is refused, once its length has been read. *)
Lemma decode_masked_header fin rsv1 opcode n rest :
  IsKnownOpcode opcode = true -> 0 <= n < 2 ^ 63 -> zlen rest < 2 ^ 63 ->
  DecodeFrameHeader (Bytes (first_byte fin rsv1 opcode :: (length_bytes true n ++ rest)))
  = Err STATUS_INVALID_NETWORK_RESPONSE.
Proof.
  intros Hop Hn Hr. destruct (first_byte_spec fin rsv1 opcode Hop) as (Hb & H30 & H0f & _).
  pose proof (ReadExtendedLength_complete (first_byte fin rsv1 opcode) n rest Hn Hr) as Hread. cbv zeta in Hread.
  destruct (length_bytes_head false n rest ltac:(lia)) as (s & tail & E & Hs). rewrite E in Hread.
  assert (E' : length_bytes true n ++ rest = 128 + s :: tail).
  { revert E. unfold length_bytes. cbn [Z.b2z]. repeat case_if; cbn [app]; intros [= <- <-]; f_equal; lia. }
  rewrite E'. unfold DecodeFrameHeader. cbn [sp_isnull sp_len sp_bytes]. cbn [Z.b2z] in Hs.
  change (zget (_ :: 128 + s :: tail) 1) with (128 + s). change (zget (?a :: 128 + s :: tail) 0) with a.
  rewrite (proj2 (Z.ltb_ge _ _)) by (rewrite !zlen_cons; pose proof (zlen_nonneg tail); lia).
  rewrite H30, H0f, Hop. cbn [Z.eqb negb]. destruct (second_byte (128 + s)) as [-> ->]; [unfold is_byte; lia|].
  change (zget (_ :: s :: tail) 1) with s in Hread.
  replace ((128 + s) mod 128) with (s mod 128) by (rewrite Z.add_comm, <- (Z.mul_1_l 128), Z.mod_add; done).
  assert (Er : forall code, ReadExtendedLength (first_byte fin rsv1 opcode :: 128 + s :: tail) code 2
                            = ReadExtendedLength (first_byte fin rsv1 opcode :: s :: tail) code 2) by done.
  rewrite Er, Hread. cbn [mbind Result_bind]. by rewrite (proj2 (Z.ltb_ge _ _)) by lia.
Qed.

(** ** A reader of frames

    RFC 6455, sections 5.2 and 5.3: what the peer makes of the front of [data], the
    two flags, the opcode, the key where there is one, the payload without its mask,
    and the rest. *)
Definition rfc6455_length (code : Z) (data : list Z) : option (Z * list Z) :=
  if code <=? 125 then Some (code, data)
  else
    let width := if code =? 126 then 2 else 8 in
    if zlen data <? width then None else Some (be_get 0 (ztake width data), zdrop width data).
Definition rfc6455_frame (data : list Z) : option (bool * bool * Z * option (list Z) * list Z * list Z) :=
  match data with
  | first :: second :: data =>
      '(n, data) ← rfc6455_length (second mod 128) data;
      let key := if 128 <=? second then Some (ztake 4 data) else None in
      let data := if 128 <=? second then zdrop 4 data else data in
      if zlen data <? n then None
      else
        let payload := match key with Some key => masked_bytes key (ztake n data) | None => ztake n data end in
        Some (128 <=? first, Z.testbit first 6, first mod 16, key, payload, zdrop n data)
  | _ => None
  end.

Lemma first_byte_read fin rsv1 opcode : IsKnownOpcode opcode = true ->
  (128 <=? first_byte fin rsv1 opcode) = fin /\ Z.testbit (first_byte fin rsv1 opcode) 6 = rsv1 /\ first_byte fin rsv1 opcode mod 16 = opcode.
Proof. intros H%known_opcode. cbn in H. repeat (destruct H as [<-|H]; [by destruct fin, rsv1|]). done. Qed.
Lemma ztake_app_n {A} n (l k : list A) : zlen l = n -> ztake n (l ++ k) = l.
Proof. intros <-. apply ztake_app_len. Qed.
Lemma zdrop_app_n {A} n (l k : list A) : zlen l = n -> zdrop n (l ++ k) = k.
Proof. intros <-. apply zdrop_app_len. Qed.
Lemma length_read masked n : 0 <= n < 2 ^ 63 -> exists second tail, length_bytes masked n = second :: tail
  /\ (128 <=? second) = masked /\ forall data, rfc6455_length (second mod 128) (tail ++ data) = Some (n, data).
Proof.
  intros Hn. unfold length_bytes. destruct (Z.leb_spec n 125) as [H1|H1]; [|destruct (Z.leb_spec n 65535) as [H2|H2]]; eexists _, _; split; try done.
  - split; [destruct masked; cbn [Z.b2z]; [apply Z.leb_le|apply Z.leb_gt]; lia|]. intros data.
    replace ((128 * Z.b2z masked + n) mod 128) with n by (rewrite Z.add_comm, Z.mul_comm, Z.mod_add, Z.mod_small by lia; done).
    unfold rfc6455_length. by rewrite (proj2 (Z.leb_le _ _)) by lia.
  - split; [by destruct masked|]. intros data. replace ((128 * Z.b2z masked + 126) mod 128) with 126 by (by destruct masked).
    unfold rfc6455_length. cbn [Z.leb Z.compare Pos.compare Pos.compare_cont Z.eqb Pos.eqb]. pose proof (zlen_nonneg data).
    rewrite zlen_app, be_put_len, (proj2 (Z.ltb_ge _ _)), ztake_app_n, zdrop_app_n, be_get_put, Z.mod_small by (done || lia || by apply be_put_len). done.
  - split; [by destruct masked|]. intros data. replace ((128 * Z.b2z masked + 127) mod 128) with 127 by (by destruct masked).
    unfold rfc6455_length. cbn [Z.leb Z.compare Pos.compare Pos.compare_cont Z.eqb Pos.eqb]. pose proof (zlen_nonneg data).
    rewrite zlen_app, be_put_len, (proj2 (Z.ltb_ge _ _)), ztake_app_n, zdrop_app_n, be_get_put, Z.mod_small by (done || lia || by apply be_put_len). done.
Qed.
Lemma frame_read fin rsv1 opcode key payload rest : IsKnownOpcode opcode = true -> zlen payload < 2 ^ 63 -> key_ok key ->
  rfc6455_frame (frame_bytes fin rsv1 opcode key payload ++ rest) = Some (fin, rsv1, opcode, key, payload, rest).
Proof.
  intros Hop Hn Hk. pose proof (zlen_nonneg payload). destruct (first_byte_read fin rsv1 opcode Hop) as (E1 & E2 & E3).
  destruct (length_read (bool_decide (key <> None)) (zlen payload)) as (second & tail & E & Em & El); [lia|].
  unfold frame_bytes. rewrite E. cbn [app]. rewrite <- app_assoc. unfold rfc6455_frame. rewrite El, Em, E1, E2, E3. cbn [mbind option_bind].
  pose proof (zlen_nonneg rest). destruct key as [key|]; cbn in Hk.
  - destruct Hk as [_ Hk]. rewrite bool_decide_true by done. rewrite <- app_assoc, zdrop_app_n, zlen_app, masked_bytes_size by done.
    rewrite (proj2 (Z.ltb_ge _ _)) by lia. rewrite (ztake_app_n 4), (ztake_app_n (zlen payload)), zdrop_app_n by (done || apply masked_bytes_size).
    by rewrite masked_bytes_twice.
  - rewrite bool_decide_false by naive_solver. rewrite zlen_app, (proj2 (Z.ltb_ge _ _)), ztake_app_len, zdrop_app_len by lia. done.
Qed.

(** C22. What the encoder writes is what the RFC says a frame is, and is read back.
    A legal frame is the header, the key and the payload combined with it, and nothing
    is written when it is not legal or does not fit.  A peer that reads it by RFC
    6455 gets the flags, the opcode, the key and the payload, whatever follows.  Of the
    two forms this library's own decoder, which is a client's, reads the one without
    a key (sent over HTTP/2), header and payload; a frame with a key, which only a
    client sends, it refuses at the header. *)
Theorem ws_frame_roundtrip fin rsv1 opcode key payload capacity rest :
  bytes payload -> key_ok key -> 0 <= capacity < 2 ^ 64 ->
  zlen (frame_bytes fin rsv1 opcode key payload ++ rest) < 2 ^ 63 ->
  let frame := frame_bytes fin rsv1 opcode key payload in
  encode_frame fin rsv1 opcode key payload capacity
  = (if negb (legal fin rsv1 opcode (zlen payload)) then (STATUS_INVALID_PARAMETER, 0, [])
     else if capacity <? zlen frame then (STATUS_BUFFER_TOO_SMALL, zlen frame, [])
     else (STATUS_SUCCESS, zlen frame, frame))
  /\ (legal fin rsv1 opcode (zlen payload) = true ->
      rfc6455_frame (frame ++ rest) = Some (fin, rsv1, opcode, key, payload, rest)
      /\ match key with
         | Some _ => DecodeFrameHeader (Bytes (frame ++ rest)) = Err STATUS_INVALID_NETWORK_RESPONSE
         | None =>
             DecodeFrameHeader (Bytes (frame ++ rest)) = Ok (frame_header fin rsv1 opcode None payload)
             /\ DecodeFramePayload (frame_header fin rsv1 opcode None payload) (Bytes (frame ++ rest)) true (zlen payload)
                = (STATUS_SUCCESS, zlen payload, payload)
         end).
Proof.
  intros Hp Hk Hc Hlen frame. pose proof (zlen_nonneg rest). pose proof (zlen_nonneg payload).
  pose proof (frame_bytes_size fin rsv1 opcode key payload Hk) as Hs. fold frame in Hs.
  pose proof Hlen as Hlen'. fold frame in Hlen'. rewrite zlen_app in Hlen'.
  assert (Hn63 : zlen payload < 2 ^ 63) by (repeat case_if_in Hs; lia). split.
  - pose proof (EncodeFrame_spec opcode fin rsv1 payload key capacity Hp) as E.
    unfold encode_frame, EncodeClientFrame, EncodeClientFrameForHttp2. destruct key; apply E; (done || lia).
  - intros Hlegal. unfold legal in Hlegal. rewrite !andb_true_iff, !negb_true_iff in Hlegal. destruct Hlegal as (((Hop & Hctl) & _) & Hn).
    apply Z.ltb_lt in Hn. split; [by apply frame_read|]. destruct key as [key|].
    + unfold frame, frame_bytes. rewrite bool_decide_true by done.
      rewrite <- app_comm_cons, <- app_assoc. apply decode_masked_header; [done|lia|]. rewrite !zlen_app. unfold frame, frame_bytes in Hlen'.
      rewrite zlen_cons, !zlen_app in Hlen'. rewrite bool_decide_true in Hlen' by done.
      pose proof (zlen_nonneg (length_bytes true (zlen payload))). lia.
    + split; [|apply frame_payload_at; (done || lia)].
      assert (Hrec : receivable fin opcode (zlen payload)).
      { split_and!; [done|lia|lia|]. intros Hc'. rewrite Hc' in Hctl. cbn [andb] in Hctl. apply orb_false_iff in Hctl as [Hf Hl].
        rewrite Z.gtb_ltb in Hl. apply Z.ltb_ge in Hl. by apply negb_false_iff in Hf. }
      assert (E : frame = header_bytes fin rsv1 opcode (zlen payload) ++ payload) by done.
      rewrite E, zlen_app in Hlen'. pose proof (zlen_nonneg (header_bytes fin rsv1 opcode (zlen payload))).
      rewrite E, <- app_assoc, decode_header_complete; [|done|rewrite zlen_app; lia].
      unfold received_header, frame_header. fold frame. rewrite E, zlen_app. do 2 f_equal. lia.
Qed.

(** A text frame with RSV1 under a key, and a close frame without one. *)
Lemma ws_frame_roundtrip_witness :
  (legal true true 1 3 = true
   /\ encode_frame true true 1 (Some [1; 2; 3; 4]) [72; 105; 33] 100 = (STATUS_SUCCESS, 9, [193; 131; 1; 2; 3; 4; 73; 107; 34]))
  /\ (let frame := frame_bytes true false 8 None [3; 232] in
      DecodeFrameHeader (Bytes (frame ++ [129; 0])) = Ok (frame_header true false 8 None [3; 232])
      /\ DecodeFramePayload (frame_header true false 8 None [3; 232]) (Bytes (frame ++ [129; 0])) true 2
         = (STATUS_SUCCESS, 2, [3; 232])).
Proof.
  assert (B : bytes [72; 105; 33]) by (repeat (apply Forall_cons; split; [by split|]); apply Forall_nil_2).
  assert (K : bytes [1; 2; 3; 4]) by (repeat (apply Forall_cons; split; [by split|]); apply Forall_nil_2).
  assert (P : bytes [3; 232]) by (repeat (apply Forall_cons; split; [by split|]); apply Forall_nil_2).
  split; [split; [done|]|].
  - destruct (ws_frame_roundtrip true true 1 (Some [1; 2; 3; 4]) [72; 105; 33] 100 [] B (conj K eq_refl)) as [E _];
      [done|done|]. exact E.
  - destruct (ws_frame_roundtrip true false 8 None [3; 232] 100 [129; 0] P I) as [_ E]; [done|done|]. exact (proj2 (E eq_refl)).
Defined.

(** The decoder accepts exactly the headers a client may receive: the bytes
    read are the first byte and the length in its shortest form, without a mask,
    of a known opcode, with control frames whole and at most 125 bytes long.
    More bytes never change a verdict, and asking for more happens on fewer than
    ten bytes only. *)
Theorem ws_header_exact data :
  bytes data -> zlen data < 2 ^ 63 ->
  (forall h, DecodeFrameHeader (Bytes data) = Ok h <->
     exists fin rsv1 opcode n rest,
       data = header_bytes fin rsv1 opcode n ++ rest /\ receivable fin opcode n
       /\ h = received_header fin rsv1 opcode n)
  /\ (DecodeFrameHeader (Bytes data) = Err STATUS_MORE_PROCESSING_REQUIRED -> zlen data < 10)
  /\ (DecodeFrameHeader (Bytes data) <> Err STATUS_MORE_PROCESSING_REQUIRED ->
      forall more, zlen (data ++ more) < 2 ^ 63 ->
      DecodeFrameHeader (Bytes (data ++ more)) = DecodeFrameHeader (Bytes data)).
Proof.
  intros Hd Hlen. split_and!.
  - intros h. split; [by apply decode_header_sound|].
    intros (fin & rsv1 & opcode & n & rest & -> & Hrec & ->). apply decode_header_complete; [done|].
    rewrite zlen_app in Hlen. pose proof (zlen_nonneg (header_bytes fin rsv1 opcode n)). lia.
  - by apply decode_header_short.
  - intros H more Hm. by apply decode_header_stable.
Qed.

Lemma ws_header_exact_witness :
  DecodeFrameHeader (Bytes [130; 126; 1; 0; 7]) = Ok (received_header true false 2 256)
  /\ DecodeFrameHeader (Bytes ([130; 126; 0; 9] ++ [1])) = DecodeFrameHeader (Bytes [130; 126; 0; 9]).
Proof.
  assert (B : bytes [130; 126; 1; 0; 7]) by (repeat (apply Forall_cons; split; [by split|]); apply Forall_nil_2).
  assert (B' : bytes [130; 126; 0; 9]) by (repeat (apply Forall_cons; split; [by split|]); apply Forall_nil_2).
  split.
  - destruct (ws_header_exact [130; 126; 1; 0; 7] B) as (H & _); [done|]. apply H.
    exists true, false, 2, 256, [7]. split; [done|]. split; [|done]. split; [done|]. split; [done|]. done.
  - destruct (ws_header_exact [130; 126; 0; 9] B') as (_ & _ & H); [done|]. apply H; done.
Defined.

(** ** Base64 with padding *)

Definition base64 (data : list Z) : list Z :=
  map (zget alphabet) (base64_digits data) ++ replicate (Z.to_nat ((3 - zlen data mod 3) mod 3)) 61.

Lemma groups_value v : 0 <= v ->
  [group v 18; group v 12; group v 6; group v 0] = map (zget alphabet) (value_digits v).
Proof.
  intros Hv. unfold value_digits. cbn [map].
  assert (H : forall k, 0 <= k -> group v k = zget alphabet (Z.land (Z.shiftr v k) 0x3f)).
  { intros k Hk. unfold group, Base64Char, u8. f_equal. change 0x3f with (2 ^ 6 - 1). rewrite !land_ones_mod by lia.
    pose proof (Z.mod_pos_bound (Z.shiftr v k) (2 ^ 6)). rewrite (Z.mod_small _ 256), Z.mod_mod by lia. done. }
  by rewrite !H by lia.
Qed.
Lemma group_chars a b c : is_byte a -> is_byte b -> is_byte c ->
  let v := Z.lor (Z.lor (u32 (Z.shiftl a 16)) (u32 (Z.shiftl b 8))) c in
  [group v 18; group v 12; group v 6; group v 0] = map (zget alphabet) (triple_digits a b c).
Proof.
  intros Ha Hb Hc v. rewrite <- value_digits_triple by done. unfold v. rewrite groups_value.
  - f_equal. f_equal. unfold is_byte in *. rewrite !u32_id by (rewrite Z.shiftl_mul_pow2; lia).
    rewrite (lor_shiftl a (Z.shiftl b 8) 16) by (rewrite ?Z.shiftl_mul_pow2; lia). rewrite Z.shiftl_mul_pow2 by lia.
    replace (a * 2 ^ 16 + b * 2 ^ 8) with ((a * 2 ^ 8 + b) * 2 ^ 8) by lia. rewrite lor_disjoint by lia. lia.
  - unfold is_byte in *. apply Z.lor_nonneg. split; [apply Z.lor_nonneg; split; apply u32_range|lia].
Qed.

Lemma base64_triple a b c data : is_byte a -> is_byte b -> is_byte c ->
  base64 (a :: b :: c :: data) = map (zget alphabet) (triple_digits a b c) ++ base64 data.
Proof.
  intros. unfold base64. rewrite digits_triple, map_app, <- app_assoc by done. do 3 f_equal.
  rewrite !zlen_cons. replace (1 + (1 + (1 + zlen data))) with (zlen data + 1 * 3) by lia. by rewrite Z.mod_add by lia.
Qed.

Lemma base64_padded_spec data output : bytes data -> base64_loop data output = output ++ base64 data.
Proof.
  revert output. induction data as [data IH] using (induction_ltof1 _ (@length Z)). unfold ltof in IH. intros output Hd.
  destruct data as [|a [|b [|c data]]].
  - cbn. by rewrite app_nil_r.
  - apply Forall_cons in Hd as [Ha _]. unfold base64. destruct (digits_tail a a Ha Ha) as [-> _]. cbn [base64_loop]. cbv zeta.
    pose proof (group_chars a 0 0 Ha ltac:(done) ltac:(done)) as T. cbv zeta in T.
    change (u32 (Z.shiftl 0 8)) with 0 in T. rewrite !Z.lor_0_r in T. by injection T as -> -> _ _.
  - apply Forall_cons in Hd as [Ha [Hb _]%Forall_cons]. unfold base64. destruct (digits_tail a b Ha Hb) as [_ ->].
    cbn [base64_loop]. cbv zeta.
    pose proof (group_chars a b 0 Ha Hb ltac:(done)) as T. cbv zeta in T. rewrite !Z.lor_0_r in T.
    by injection T as -> -> -> _.
  - apply Forall_cons in Hd as [Ha [Hb [Hc Hd]%Forall_cons]%Forall_cons]. cbn [base64_loop]. cbv zeta.
    rewrite group_chars, base64_triple, IH, <- app_assoc by (done || (cbn; lia)). done.
Qed.

Lemma base64_size data : bytes data -> zlen (base64 data) = (zlen data + 2) / 3 * 4.
Proof.
  intros Hd. unfold base64. rewrite zlen_app, zlen_map, digits_length, zlen_replicate, Z2Nat.id by (done || apply Z.mod_pos_bound; lia).
  unfold base64_length. pose proof (zlen_nonneg data). destruct (Z.eqb_spec (zlen data mod 3) 0); Z.to_euclidean_division_equations; lia.
Qed.

Lemma base64_limit : (MAXU64 / 4) *! 3 = 13835058055282163709.
Proof. by vm_compute. Qed.

Lemma Base64Encode_spec data capacity : bytes data -> zlen data < 2 ^ 62 ->
  Base64Encode (Bytes data) true capacity
  = if capacity <? zlen (base64 data) then (STATUS_BUFFER_TOO_SMALL, zlen (base64 data), [])
    else (STATUS_SUCCESS, zlen (base64 data), base64 data).
Proof.
  intros Hd Hlen. unfold Base64Encode, IsValidBuffer. cbn [sp_len sp_isnull sp_bytes negb]. rewrite orb_true_r. cbn [negb orb].
  pose proof (zlen_nonneg data). rewrite base64_limit, Z.gtb_ltb, (proj2 (Z.ltb_ge _ _)) by lia. cbv zeta.
  rewrite (u64_id (zlen data + 2)), u64_id by (Z.to_euclidean_division_equations; lia).
  rewrite <- base64_size, base64_padded_spec by done. done.
Qed.

(** ** The negotiation of permessage-deflate *)

Inductive kind := ClientNoContext | ServerNoContext | ClientBits | ServerBits.
#[export] Instance kind_eq_dec : EqDecision kind.
Proof. solve_decision. Defined.

Definition kind_name (k : kind) : list Z :=
  match k with
  | ClientNoContext => str "client_no_context_takeover"
  | ServerNoContext => str "server_no_context_takeover"
  | ClientBits => str "client_max_window_bits"
  | ServerBits => str "server_max_window_bits"
  end.

Definition window_bits (value : list Z) (b : Z) : Prop :=
  (length value = 1 \/ length value = 2)%nat /\ Forall (fun ch => digit ch = true) value
  /\ decimal_value value = b /\ 8 <= b <= 15.

(** A flag has no value; window bits are a number within what was requested. *)
Definition value_ok (requested : PerMessageDeflateOptions) (k : kind) (value : list Z) (b : Z) : Prop :=
  match k with
  | ClientNoContext | ServerNoContext => value = [] /\ b = 0
  | ClientBits => window_bits value b /\ b <= po_ClientMaxWindowBits requested
  | ServerBits => window_bits value b /\ b <= po_ServerMaxWindowBits requested
  end.

(** [text] is the parameter [p]: its name, and its value after an equals sign. *)
Definition parameter_text (requested : PerMessageDeflateOptions) (text : list Z) (p : kind * Z) : Prop :=
  same_text (parameter_parts (trim text)).1 (kind_name p.1) = true
  /\ value_ok requested p.1 (parameter_parts (trim text)).2 p.2.

Fixpoint assoc (k : kind) (l : list (kind * Z)) : option Z :=
  match l with [] => None | (k', b) :: l => if decide (k = k') then Some b else assoc k l end.
Definition has (k : kind) (l : list (kind * Z)) : bool := bool_decide (k ∈ map fst l).

(** What both sides use after the response named the parameters [l]. *)
Definition agreed (requested : PerMessageDeflateOptions) (l : list (kind * Z)) : PerMessageDeflateNegotiation :=
  MkNegotiation true
    (has ClientNoContext l || po_ClientNoContextTakeover requested)
    (has ServerNoContext l || po_ServerNoContextTakeover requested)
    (default (po_ClientMaxWindowBits requested) (assoc ClientBits l))
    (default (po_ServerMaxWindowBits requested) (assoc ServerBits l)).

(** The response is one extension, permessage-deflate, with parameters of
    different kinds. *)
Definition deflate_response (requested : PerMessageDeflateOptions) (value : list Z) (l : list (kind * Z)) : Prop :=
  Forall (fun ch => ch <> 44) value
  /\ NoDup (map fst l)
  /\ exists name parameters,
       split_on 59 (trim value) = name :: parameters
       /\ same_text (trim name) (str "permessage-deflate") = true
       /\ Forall2 (parameter_text requested) parameters l.

Definition seen (k : kind) (s : parse_state) : bool :=
  match k with
  | ClientNoContext => ps_clientNoContextSeen s
  | ServerNoContext => ps_serverNoContextSeen s
  | ClientBits => ps_clientWindowSeen s
  | ServerBits => ps_serverWindowSeen s
  end.
Definition after (p : kind * Z) (s : parse_state) : parse_state :=
  match p.1 with
  | ClientNoContext =>
      s <| ps_clientNoContextSeen := true |>
        <| ps_negotiated := (ps_negotiated s) <| pn_ClientNoContextTakeover := true |> |>
  | ServerNoContext =>
      s <| ps_serverNoContextSeen := true |>
        <| ps_negotiated := (ps_negotiated s) <| pn_ServerNoContextTakeover := true |> |>
  | ClientBits =>
      s <| ps_clientWindowSeen := true |>
        <| ps_negotiated := (ps_negotiated s) <| pn_ClientMaxWindowBits := p.2 |> |>
  | ServerBits =>
      s <| ps_serverWindowSeen := true |>
        <| ps_negotiated := (ps_negotiated s) <| pn_ServerMaxWindowBits := p.2 |> |>
  end.

Lemma trim_trim l : trim (trim l) = trim l.
Proof.
  destruct (trim_ends l) as [Hf Hb]. unfold trim at 1. rewrite (skip_none is_blank (trim l)) by done.
  rewrite (skip_none is_blank (rev (trim l))) by done. apply rev_involutive.
Qed.

Lemma digit_test ch : (ch <? 48) || (ch >? 57) = negb (digit ch).
Proof. unfold digit. rewrite Z.gtb_ltb, Z.ltb_antisym, (Z.ltb_antisym ch 57). by destruct (48 <=? ch), (ch <=? 57). Qed.

Lemma all_digits l :
  existsb (fun ch => (ch <? 48) || (ch >? 57)) l = false <-> Forall (fun ch => digit ch = true) l.
Proof.
  rewrite <- not_true_iff_false, existsb_exists, Forall_forall. split.
  - intros H ch Hin. apply not_false_iff_true. intros E. apply H. exists ch. rewrite digit_test, E.
    by rewrite <- list_elem_of_In.
  - intros H (ch & Hin & E). rewrite digit_test, H in E; [done|by apply list_elem_of_In].
Qed.

Lemma two_digits l : (length l = 1 \/ length l = 2)%nat -> Forall (fun ch => digit ch = true) l ->
  foldl (fun value ch => u32 (u32 (value * 10) + (ch - 48))) 0 l = decimal_value l /\ 0 <= decimal_value l <= 99.
Proof.
  intros Hl Hd. unfold decimal_value. assert (H48 : forall ch, digit ch = true -> 48 <= ch <= 57).
  { intros ch H. unfold digit in H. bool_prop. lia. }
  destruct l as [|x [|y [|z l]]]; cbn [foldl length] in *; [lia| | |lia].
  - apply Forall_cons in Hd as [Hx%H48 _]. rewrite (u32_id (0 * 10)), u32_id by lia. lia.
  - apply Forall_cons in Hd as [Hx%H48 [Hy%H48 _]%Forall_cons]. rewrite (u32_id (0 * 10)) by lia.
    rewrite (u32_id (0 * 10 + (x - 48))), (u32_id (_ * 10)), u32_id by lia. lia.
Qed.

Lemma ParseWindowBits_spec l b : trim l = l -> ParseWindowBits (Bytes l) = Some b <-> window_bits l b.
Proof.
  intros Hl. unfold ParseWindowBits, window_bits. cbn [TrimOptionalWhitespace sp_len sp_isnull sp_bytes]. rewrite Hl, orb_false_r.
  assert (Hlen : (zlen l =? 0) || (zlen l >? 2) = false <-> (length l = 1 \/ length l = 2)%nat).
  { rewrite orb_false_iff, Z.eqb_neq, Z.gtb_ltb, Z.ltb_ge. unfold zlen. lia. }
  destruct ((zlen l =? 0) || (zlen l >? 2)); [split; [done|]; intros (H & _); by apply Hlen in H|].
  destruct (existsb _ l) eqn:Ed.
  { split; [done|]. intros (_ & H & _). apply all_digits in H. congruence. }
  apply all_digits in Ed. destruct (two_digits l) as [-> Hv]; [by apply Hlen|done|].
  unfold WebSocketDeflateMinWindowBits, WebSocketDeflateMaxWindowBits. rewrite Z.gtb_ltb.
  destruct (Z.ltb_spec (decimal_value l) 8); [split; [done|]; intros (_ & _ & <- & ?); lia|].
  destruct (Z.ltb_spec 15 (decimal_value l)); [split; [done|]; intros (_ & _ & <- & ?); lia|]. cbn [orb].
  unfold u8. rewrite Z.mod_small by lia.
  split; [intros [= <-]; split_and!; (done || lia || by apply Hlen)|by intros (_ & _ & <- & _)].
Qed.

Lemma parameter_value_trimmed l : trim (parameter_parts l).2 = (parameter_parts l).2.
Proof. unfold parameter_parts. destruct (cut 61 l) as [name [|ch rest]]; [done|]. apply trim_trim. Qed.

Lemma same_text_kinds name k k' :
  same_text name (kind_name k) = true -> same_text name (kind_name k') = bool_decide (k = k').
Proof.
  unfold same_text. rewrite bool_decide_eq_true. intros ->. by destruct k, k'.
Qed.

Lemma only_kind name k (P : kind * Z -> Prop) : same_text name (kind_name k) = true ->
  (exists p, same_text name (kind_name p.1) = true /\ P p) <-> exists b, P (k, b).
Proof.
  intros Hk. split.
  - intros ([k' b] & Hn & HP). cbn [fst] in Hn. rewrite (same_text_kinds name k k') in Hn by done.
    apply bool_decide_eq_true in Hn as ->. by exists b.
  - intros (b & HP). by exists (k, b).
Qed.

(** The branches of the loop body. *)
Lemma flag_branch (seen : bool) (value : list Z) (s' next : parse_state) :
  (if seen || negb (zlen value =? 0) then None else Some next) = Some s'
  <-> value = [] /\ seen = false /\ s' = next.
Proof.
  assert (Hz : (zlen value =? 0) = true <-> value = []).
  { rewrite Z.eqb_eq. destruct value; [done|]. rewrite zlen_cons. pose proof (zlen_nonneg value). split; [lia|done]. }
  destruct seen; cbn [orb]; [split; [done|by intros (_ & ? & _)]|].
  destruct (zlen value =? 0); cbn [negb].
  - split; [intros [= <-]; split_and!; [by apply Hz|done..]|by intros (_ & _ & ->)].
  - split; [done|]. intros (H & _). by apply Hz in H.
Qed.
Lemma bits_branch (seen : bool) value limit (s' : parse_state) (next : Z -> parse_state) : trim value = value ->
  (if seen || (zlen value =? 0) then None
   else match ParseWindowBits (Bytes value) with
        | None => None
        | Some bits => if bits >? limit then None else Some (next bits)
        end) = Some s'
  <-> exists b, (window_bits value b /\ b <= limit) /\ seen = false /\ s' = next b.
Proof.
  intros Hv. destruct seen; cbn [orb]; [split; [done|by intros (b & _ & ? & _)]|].
  assert (Hz : zlen value = 0 -> value = []).
  { destruct value; [done|]. rewrite zlen_cons. pose proof (zlen_nonneg value). lia. }
  destruct (Z.eqb_spec (zlen value) 0) as [E|E].
  { split; [done|]. intros (b & (([H|H] & _) & _) & _); rewrite (Hz E) in H; done. }
  destruct (ParseWindowBits (Bytes value)) as [bits|] eqn:Ep.
  - apply ParseWindowBits_spec in Ep; [|done]. rewrite Z.gtb_ltb. destruct (Z.ltb_spec limit bits) as [Hl|Hl].
    + split; [done|]. intros (b & ((_ & _ & <- & _) & Hb) & _). destruct Ep as (_ & _ & <- & _). lia.
    + split; [intros [= <-]; exists bits; by split_and!|]. intros (b & ((_ & _ & <- & _) & Hb) & _ & ->).
      by destruct Ep as (_ & _ & <- & _).
  - split; [done|]. intros (b & (Hw & _) & _). by apply ParseWindowBits_spec in Hw; [congruence|].
Qed.

Lemma parse_parameter_spec requested text s s' :
  parse_parameter requested text s = Some s'
  <-> exists p, parameter_text requested text p /\ seen p.1 s = false /\ s' = after p s.
Proof.
  unfold parse_parameter, parameter_text.
  pose proof (parameter_value_trimmed (trim text)) as Hv.
  destruct (parameter_parts (trim text)) as [name value] eqn:Ep. cbn [fst snd] in *.
  unfold HttpText.text, MakeText. rewrite !TextEqualsIgnoreCase_bytes.
  assert (Hnone : forall k, name = [] -> same_text name (kind_name k) = true -> False).
  { intros k ->. by destruct k. }
  destruct (Z.eqb_spec (zlen (trim text)) 0) as [E|E].
  { split; [done|]. intros (p & [Hn _] & _). exfalso. apply (Hnone p.1); [|done].
    destruct (trim text); [by injection Ep|]. rewrite zlen_cons in E. pose proof (zlen_nonneg l). lia. }
  change (c_string (str "client_no_context_takeover")) with (kind_name ClientNoContext).
  change (c_string (str "server_no_context_takeover")) with (kind_name ServerNoContext).
  change (c_string (str "client_max_window_bits")) with (kind_name ClientBits).
  change (c_string (str "server_max_window_bits")) with (kind_name ServerBits).
  assert (Hassoc : forall A B C : Prop, (A /\ B) /\ C <-> A /\ (B /\ C)) by tauto.
  setoid_rewrite Hassoc.
  destruct (same_text name (kind_name ClientNoContext)) eqn:E1.
  { rewrite (only_kind name ClientNoContext _ E1), flag_branch by done. cbn. split; [|naive_solver].
    intros (-> & Hs & ->). by exists 0. }
  destruct (same_text name (kind_name ServerNoContext)) eqn:E2.
  { rewrite (only_kind name ServerNoContext _ E2), flag_branch by done. cbn. split; [|naive_solver].
    intros (-> & Hs & ->). by exists 0. }
  destruct (same_text name (kind_name ClientBits)) eqn:E3.
  { rewrite (only_kind name ClientBits _ E3), bits_branch by done. cbn. done. }
  destruct (same_text name (kind_name ServerBits)) eqn:E4.
  { rewrite (only_kind name ServerBits _ E4), bits_branch by done. cbn. done. }
  split; [done|]. intros ([k b] & Hk & _). cbn [fst] in Hk. destruct k; congruence.
Qed.

Lemma seen_after k p s : seen k (after p s) = bool_decide (k = p.1) || seen k s.
Proof. destruct p as [[] b], k; done. Qed.

Lemma parameters_loop_spec requested parameters s s' :
  parameters_loop requested parameters s = Some s'
  <-> exists l, Forall2 (parameter_text requested) parameters l
                /\ NoDup (map fst l) /\ Forall (fun p => seen p.1 s = false) l
                /\ s' = foldl (fun s p => after p s) s l.
Proof.
  revert s. induction parameters as [|text parameters IH]; intros s; cbn [parameters_loop].
  { split; [intros [= <-]; exists []; split_and!; (done || constructor)|].
    intros (l & H & _ & _ & ->). by apply Forall2_nil_inv_l in H as ->. }
  split.
  - intros H. apply bind_Some in H as (s1 & H1 & H). apply parse_parameter_spec in H1 as (p & Hp & Hs & ->).
    apply IH in H as (l & Hl & Hn & Hseen & ->). exists (p :: l). cbn [map foldl]. split_and!; [by constructor| | |done].
    + constructor; [|done]. intros Hin. apply list_elem_of_In, in_map_iff in Hin as (q & Eq & Hq). rewrite Forall_forall in Hseen.
      specialize (Hseen q ltac:(by apply list_elem_of_In)). rewrite seen_after, Eq, bool_decide_true in Hseen by done. done.
    + constructor; [done|]. eapply Forall_impl; [done|]. intros q Hq. cbv beta in *. rewrite seen_after in Hq. by apply orb_false_iff in Hq as [_ ?].
  - intros (l & Hl & Hn & Hseen & ->). apply Forall2_cons_inv_l in Hl as (p & l' & Hp & Hl & ->).
    cbn [map foldl] in *. apply NoDup_cons in Hn as [Hnin Hn]. apply Forall_cons in Hseen as [Hs Hseen].
    apply bind_Some. exists (after p s). split; [apply parse_parameter_spec; by exists p|].
    apply IH. exists l'. split_and!; [done|done| |done]. apply Forall_forall. intros q Hq. rewrite seen_after.
    apply orb_false_iff. split; [|by rewrite Forall_forall in Hseen; apply Hseen].
    apply bool_decide_eq_false. intros Eq. apply Hnin. apply list_elem_of_In, in_map_iff. exists q. by rewrite list_elem_of_In in Hq.
Qed.

Lemma has_assoc k l : has k l = match assoc k l with Some _ => true | None => false end.
Proof.
  unfold has. induction l as [|[k' b] l IH]; [done|]. cbn [map fst assoc]. destruct (decide (k = k')) as [->|Hne].
  - apply bool_decide_true. by constructor.
  - rewrite <- IH. apply bool_decide_ext. rewrite elem_of_cons. naive_solver.
Qed.

(** What the parameters leave in the negotiation. *)
Lemma foldl_after l s :
  NoDup (map fst l) ->
  let s' := foldl (fun s p => after p s) s l in
  (forall k, seen k s' = seen k s || has k l)
  /\ pn_ClientNoContextTakeover (ps_negotiated s')
     = pn_ClientNoContextTakeover (ps_negotiated s) || has ClientNoContext l
  /\ pn_ServerNoContextTakeover (ps_negotiated s')
     = pn_ServerNoContextTakeover (ps_negotiated s) || has ServerNoContext l
  /\ pn_ClientMaxWindowBits (ps_negotiated s')
     = default (pn_ClientMaxWindowBits (ps_negotiated s)) (assoc ClientBits l)
  /\ pn_ServerMaxWindowBits (ps_negotiated s')
     = default (pn_ServerMaxWindowBits (ps_negotiated s)) (assoc ServerBits l).
Proof.
  revert s. induction l as [|[k b] l IH]; intros s Hn; cbn [foldl map].
  { cbv zeta. unfold has. cbn [map assoc]. split_and!; rewrite ?orb_false_r; try done. intros k. by rewrite orb_false_r. }
  cbn [map fst] in Hn. apply NoDup_cons in Hn as [Hnin Hn]. destruct (IH (after (k, b) s) Hn) as (I1 & I2 & I3 & I4 & I5).
  cbv zeta. rewrite I2, I3, I4, I5.
  assert (Hhas : forall k', has k' ((k, b) :: l) = bool_decide (k' = k) || has k' l).
  { intros k'. unfold has. apply eq_true_iff_eq. rewrite orb_true_iff, !bool_decide_eq_true. cbn [map fst]. by rewrite elem_of_cons. }
  assert (Hassoc : assoc k l = None).
  { clear -Hnin. induction l as [|[k' b'] l IHl]; [done|]. cbn [map fst] in Hnin. apply not_elem_of_cons in Hnin as [Hne Hnin].
    cbn [assoc]. rewrite decide_False by done. by apply IHl. }
  split; [|destruct k; rewrite !Hhas; cbn [after fst snd assoc]; try rewrite Hassoc; cbn;
    rewrite ?orb_true_r, ?orb_true_l, ?orb_false_l; split_and!; by rewrite ?orb_true_r].
  intros k'. rewrite I1, seen_after, Hhas. cbn [fst]. by destruct (bool_decide (k' = k)), (seen k' s).
Qed.

Lemma items_loop_second requested item items s : items_loop requested (item :: items) true s = None.
Proof. cbn [items_loop]. case_if; [done|]. by case_if. Qed.

Lemma split_on_one stop l : (exists w, split_on stop l = [w]) -> split_on stop l = [l] /\ Forall (fun ch => ch <> stop) l.
Proof.
  intros (w & E). rewrite split_on_cut in *. pose proof (cut_app stop l) as Ea. pose proof (cut_plain stop l) as Hp.
  destruct (cut stop l) as [piece [|ch rest]]; cbn [fst snd] in *.
  - rewrite app_nil_r in Ea. by subst.
  - rewrite split_on_cut in E. done.
Qed.
Lemma split_on_plain stop l : Forall (fun ch => ch <> stop) l -> split_on stop l = [l].
Proof.
  induction 1 as [|ch l Hch _ IH]; [done|]. cbn [split_on]. rewrite (proj2 (Z.eqb_neq ch stop)) by done. by rewrite IH.
Qed.
Lemma split_on_nonempty stop l : split_on stop l <> [].
Proof. by rewrite split_on_cut. Qed.

Lemma items_loop_spec requested value e s' :
  items_loop requested (split_on 44 value) false parse_start = Some (e, s')
  <-> e = true /\ exists l, deflate_response requested value l /\ s' = foldl (fun s p => after p s) parse_start l.
Proof.
  unfold deflate_response. split.
  - intros H. destruct (split_on 44 value) as [|item items] eqn:Ev; [by apply split_on_nonempty in Ev|].
    destruct (items_loop requested (item :: items) false parse_start) as [r|] eqn:Er in H; [|done]. injection H as ->.
    cbn [items_loop] in Er. case_if_in Er; [done|]. bool_prop.
    change (text "permessage-deflate") with (Bytes (str "permessage-deflate")) in Er. rewrite TextEqualsIgnoreCase_bytes in Er.
    destruct (same_text _ _) eqn:En in Er; [|done]. cbn [negb] in Er.
    apply bind_Some in Er as (s1 & Hp & Hi). destruct items as [|item2 items]; [|by rewrite items_loop_second in Hi].
    injection Hi as <- <-. destruct (split_on_one 44 value) as [Eone Hplain]; [by exists item|].
    rewrite Ev in Eone. injection Eone as ->. split; [done|].
    apply parameters_loop_spec in Hp as (l & Hl & Hn & _ & ->). exists l. split; [|done]. split_and!; [done|done|].
    destruct (split_on 59 (trim value)) as [|name parameters] eqn:Es; [by apply split_on_nonempty in Es|].
    exists name, parameters. by split_and!.
  - intros (-> & l & (Hplain & Hn & name & parameters & Es & Hname & Hl) & ->). rewrite split_on_plain by done.
    cbn [items_loop]. rewrite Es. cbn [hd tl].
    change (text "permessage-deflate") with (Bytes (str "permessage-deflate")). rewrite TextEqualsIgnoreCase_bytes.
    rewrite Hname. cbn [negb]. rewrite (proj2 (Z.eqb_neq (zlen (trim value)) 0)).
    + rewrite (proj2 (parameters_loop_spec requested parameters parse_start (foldl (fun s p => after p s) parse_start l))); [done|].
      exists l. split_and!; [done|done| |done]. apply Forall_true. by intros [[] b].
    + intros E. destruct (trim value) as [|ch v]; [|rewrite zlen_cons in E; pose proof (zlen_nonneg v); lia].
      cbn in Es. injection Es as <- _. done.
Qed.

Lemma deflate_negotiated_spec value requested n :
  ParsePerMessageDeflateResponse value requested = Ok n
  <-> exists l, deflate_response requested (sp_bytes value) l /\ n = agreed requested l.
Proof.
  unfold ParsePerMessageDeflateResponse.
  assert (Hn : forall l, deflate_response requested (sp_bytes value) l ->
    items_loop requested (split_on 44 (sp_bytes value)) false parse_start
    = Some (true, foldl (fun s p => after p s) parse_start l)) by (intros l Hl; apply items_loop_spec; eauto).
  assert (Ha : forall l, deflate_response requested (sp_bytes value) l ->
    let s := foldl (fun s p => after p s) parse_start l in
    let n := (ps_negotiated s) <| pn_Enabled := true |> in
    let n := if negb (ps_clientWindowSeen s)
             then n <| pn_ClientMaxWindowBits := po_ClientMaxWindowBits requested |> else n in
    let n := if negb (ps_serverWindowSeen s)
             then n <| pn_ServerMaxWindowBits := po_ServerMaxWindowBits requested |> else n in
    let n := if po_ClientNoContextTakeover requested then n <| pn_ClientNoContextTakeover := true |> else n in
    let n := if po_ServerNoContextTakeover requested then n <| pn_ServerNoContextTakeover := true |> else n in
    n = agreed requested l).
  { intros l (_ & Hnd & _). destruct (foldl_after l parse_start Hnd) as (I1 & I2 & I3 & I4 & I5). cbv zeta in *.
    pose proof (I1 ClientBits) as J1. pose proof (I1 ServerBits) as J2. cbn [seen parse_start ps_clientWindowSeen ps_serverWindowSeen orb] in J1, J2.
    destruct (ps_negotiated (foldl (fun s p => after p s) parse_start l)) as [e c v cb sb].
    cbn [pn_ClientNoContextTakeover pn_ServerNoContextTakeover pn_ClientMaxWindowBits pn_ServerMaxWindowBits] in *.
    rewrite J1, J2, !has_assoc. unfold agreed. rewrite I2, I3, I4, I5.
    by destruct (assoc ClientBits l), (assoc ServerBits l), (po_ClientNoContextTakeover requested),
      (po_ServerNoContextTakeover requested), (has ClientNoContext l), (has ServerNoContext l). }
  split.
  - destruct (items_loop _ _ _ _) as [[e s]|] eqn:E; [|done]. pose proof E as E'.
    apply items_loop_spec in E as (-> & l & Hl & ->). cbn [negb]. intros [= <-]. exists l. split; [done|]. by apply Ha.
  - intros (l & Hl & ->). rewrite (Hn l Hl). cbn [negb]. f_equal. by apply Ha.
Qed.

(** A Sec-WebSocket-Extensions value is accepted exactly when it is one
    extension, permessage-deflate, whose parameters are known, are each given
    once and respect what was requested; the result is what both sides agreed. *)
Theorem deflate_negotiated value requested n :
  ParsePerMessageDeflateResponse value requested = Ok n
  <-> exists l, deflate_response requested (sp_bytes value) l /\ n = agreed requested l.
Proof. apply deflate_negotiated_spec. Qed.

(** A flag and window bits, and a response with the same flag twice. *)
Example deflate_agreed :
  let requested := MkOptions true false true 12 15 in
  ParsePerMessageDeflateResponse (text "permessage-deflate; client_no_context_takeover; client_max_window_bits = 10") requested
  = Ok (MkNegotiation true true true 10 15)
  /\ ParsePerMessageDeflateResponse (text "permessage-deflate; server_no_context_takeover; server_no_context_takeover") requested
     = Err STATUS_INVALID_NETWORK_RESPONSE.
Proof. by vm_compute. Qed.

(** ** The handshake *)

(** What the code relies on in the hash: initialised for SHA-1 it succeeds, and
    is the function [sha1] of the concatenation of what was hashed. Nothing is
    said about the other algorithms. *)
Record hash_ok (hash : HashContext) (sha1 : list Z -> list Z) : Prop := {
  ho_initialize : hash_Initialize hash Sha1 = STATUS_SUCCESS;
  ho_update : forall x y, hash_Update hash Sha1 x y = STATUS_SUCCESS;
  ho_finish : forall x, hash_Finish hash Sha1 x = Ok (sha1 x);
  ho_digest : forall x, bytes (sha1 x) /\ zlen (sha1 x) = 20;
}.

Definition accept_value (sha1 : list Z -> list Z) (key : list Z) : list Z := base64 (sha1 (key ++ WebSocketGuid)).

(** The values of the fields of a name. *)
Definition field_values (r : HttpResponse) (name : string) : list Text :=
  map hd_Value (List.filter (fun h => TextEqualsIgnoreCase (hd_Name h) (text name)) (ha_headers (rp_Headers r))).

(** Some field of the name has the token in its list. *)
Definition lists (r : HttpResponse) (name token : string) : Prop :=
  exists value piece, In (Bytes value) (field_values r name) /\ In piece (split_on 44 value)
                      /\ same_text (trim piece) (str token) = true.

Definition token_text (l : list Z) : Prop := l <> [] /\ Forall (fun ch => token_char ch = true) l.

Definition extension_agreed (r : HttpResponse) (options : option PerMessageDeflateOptions) (negotiated : bool)
    (n : PerMessageDeflateNegotiation) : Prop :=
  match field_values r "Sec-WebSocket-Extensions" with
  | [] => n = negotiation_default
  | [value] =>
      exists requested l,
        options = Some requested /\ po_Enable requested = true /\ IsValidPerMessageDeflateOptions requested = true
        /\ negotiated = true /\ deflate_response requested (sp_bytes value) l /\ n = agreed requested l
  | _ => False
  end.

(** The selected subprotocol is one of those requested, which are all tokens. *)
Definition subprotocol_agreed (r : HttpResponse) (requested : span) (selected : Text) : Prop :=
  match field_values r "Sec-WebSocket-Protocol" with
  | [] => selected = Null 0
  | [value] =>
      exists v q, value = Bytes v /\ requested = Bytes q /\ q <> [] /\ selected = Bytes (trim v)
                  /\ Forall token_text (map trim (split_on 44 q)) /\ In (trim v) (map trim (split_on 44 q))
  | _ => False
  end.

Lemma find_header_loop_spec headers name :
  find_header_loop headers name = hd_error (List.filter (fun h => TextEqualsIgnoreCase (hd_Name h) name) headers).
Proof.
  induction headers as [|h headers IH]; [done|]. cbn [find_header_loop List.filter].
  by destruct (TextEqualsIgnoreCase (hd_Name h) name).
Qed.

Lemma last_cons_default {A} (x y : A) l : List.last (x :: l) y = List.last l x.
Proof.
  revert x y. induction l as [|z l IH]; intros x y; [done|].
  change (List.last (x :: z :: l) y) with (List.last (z :: l) y). by rewrite !IH.
Qed.

Lemma extension_loop_spec headers name count last :
  0 <= count -> count + zlen headers < 2 ^ 64 ->
  let found := List.filter (fun h => TextEqualsIgnoreCase (hd_Name h) name) headers in
  extension_loop headers name count last
  = (count + zlen found, match found with [] => last | h :: found => Some (List.last found h) end).
Proof.
  revert count last. induction headers as [|h headers IH]; intros count last Hc Hle; cbn [extension_loop List.filter].
  { cbn. by rewrite Z.add_0_r. }
  rewrite zlen_cons in Hle. pose proof (zlen_nonneg headers). destruct (TextEqualsIgnoreCase (hd_Name h) name); cbn [negb].
  - rewrite u64_id, IH by lia. cbv zeta. rewrite zlen_cons. f_equal; [lia|].
    destruct (List.filter _ headers) as [|h' found]; [done|]. by rewrite last_cons_default.
  - apply IH; lia.
Qed.

Lemma find_subprotocol_loop_spec headers found :
  find_subprotocol_loop headers found
  = match found, List.filter (fun h => TextEqualsIgnoreCase (hd_Name h) (text "Sec-WebSocket-Protocol")) headers with
    | found, [] => Ok found
    | None, [h] => Ok (Some (TrimOptionalWhitespace (hd_Value h)))
    | _, _ => Err STATUS_INVALID_NETWORK_RESPONSE
    end.
Proof.
  revert found. induction headers as [|h headers IH]; intros found; cbn [find_subprotocol_loop List.filter]; [by destruct found|].
  destruct (TextEqualsIgnoreCase _ _); cbn [negb]; [|apply IH].
  destruct found; [done|]. rewrite IH. by destruct (List.filter _ headers).
Qed.

Lemma lists_spec r name token : str token <> [] -> c_string (str token) = str token ->
  HasHeaderValueToken (text name) (text token) r = true <-> lists r name token.
Proof.
  intros Ht Hc. unfold HasHeaderValueToken, lists, field_values. change (text token) with (Bytes (c_string (str token))). rewrite Hc.
  cbn [sp_isnull sp_len]. rewrite orb_false_r.
  assert (E0 : (zlen (str token) =? 0) = false).
  { apply Z.eqb_neq. destruct (str token) as [|x l]; [done|]. rewrite zlen_cons. pose proof (zlen_nonneg l). lia. }
  rewrite E0, orb_false_r. destruct (rp_Headers r) as [count|headers]; cbn [ha_isnull ha_headers].
  { split; [done|]. by intros (value & piece & [] & _). }
  rewrite existsb_exists. split.
  - intros (h & Hin & Hand). apply andb_true_iff in Hand as [Hname Htok]. destruct (hd_Value h) as [len|value] eqn:Ev; [done|].
    rewrite HeaderValueHasToken_spec, existsb_exists in Htok by done. destruct Htok as (piece & Hp & Hs).
    exists value, piece. split_and!; [|done|done]. apply in_map_iff. exists h. split; [done|]. apply filter_In. by split.
  - intros (value & piece & Hin & Hp & Hs). apply in_map_iff in Hin as (h & Ev & Hin). apply filter_In in Hin as [Hin Hname].
    exists h. split; [done|]. rewrite Hname, Ev, HeaderValueHasToken_spec by done. cbn [andb]. apply existsb_exists. by exists piece.
Qed.

Lemma lor_low_byte a b : is_byte a -> is_byte b -> is_byte (Z.lor a b).
Proof.
  unfold is_byte. intros Ha Hb. split; [apply Z.lor_nonneg; lia|].
  destruct (Z.eq_dec (Z.lor a b) 0) as [->|]; [lia|]. apply (Z.log2_lt_cancel _ 256).
  rewrite Z.log2_lor by lia. pose proof (Z.log2_le_mono a 255 ltac:(lia)).
  pose proof (Z.log2_le_mono b 255 ltac:(lia)). change (Z.log2 255) with 7 in *. change (Z.log2 256) with 8. lia.
Qed.

Lemma diff_loop_zero l r diff : length l = length r -> bytes l -> bytes r -> is_byte diff ->
  diff_loop l r diff = 0 <-> diff = 0 /\ l = r.
Proof.
  revert r diff. induction l as [|x l IH]; intros [|y r] diff Hlen Hl Hr Hd; try done; cbn [diff_loop]; [naive_solver|].
  apply Forall_cons in Hl as [Hx Hl]. apply Forall_cons in Hr as [Hy Hr]. injection Hlen as Hlen.
  assert (Hb : is_byte (Z.lor diff (Z.lxor x y))) by (apply lor_low_byte; [done|by apply lxor_byte]).
  assert (E : u8 (Z.lor diff (Z.lxor x y)) = Z.lor diff (Z.lxor x y)) by (apply Z.mod_small; exact Hb).
  rewrite E, IH, Z.lor_eq_0_iff, Z.lxor_eq_0_iff by done. naive_solver.
Qed.

Lemma ConstantTimeEquals_spec value expected :
  sp_len value = zlen expected -> bytes (sp_bytes value) -> bytes expected ->
  ConstantTimeEquals value (Bytes expected) = true <-> value = Bytes expected.
Proof.
  intros Hlen Hv He. unfold ConstantTimeEquals. cbn [sp_isnull sp_bytes]. rewrite orb_false_r.
  destruct value as [len|l]; cbn [sp_isnull sp_bytes sp_len] in *; [done|].
  rewrite Z.eqb_eq, diff_loop_zero; [naive_solver|unfold zlen in Hlen; lia|done|done|done].
Qed.

Lemma base64_bytes data : bytes data -> bytes (base64 data).
Proof.
  intros Hd. unfold base64. apply Forall_app. split.
  - apply Forall_forall. intros ch Hin. apply list_elem_of_In, in_map_iff in Hin as (d & <- & Hin).
    pose proof (digits_range data Hd) as Hr. rewrite Forall_forall in Hr. apply list_elem_of_In, Hr in Hin.
    assert (H : forallb (fun d => (0 <=? zget alphabet d) && (zget alphabet d <? 256)) (seqZ 0 64) = true) by (by vm_compute).
    rewrite List.forallb_forall in H. specialize (H d ltac:(apply list_elem_of_In, elem_of_seqZ; lia)). unfold is_byte. lia.
  - apply Forall_replicate. done.
Qed.

Lemma TextEquals_spec a b : TextEquals (Bytes a) (Bytes b) = true <-> a = b.
Proof.
  unfold TextEquals. cbn [sp_len sp_isnull sp_bytes andb]. rewrite !orb_false_r.
  assert (H : forall l r, bytes_equal l r = true <-> l = r).
  { induction l as [|x l IH]; intros [|y r]; cbn [bytes_equal]; [done..|].
    rewrite andb_true_iff, Z.eqb_eq, IH. naive_solver. }
  destruct (Z.eqb_spec (zlen a) (zlen b)) as [E|E]; cbn [negb].
  - destruct (Z.eqb_spec (zlen a) 0) as [E0|E0]; cbn [orb]; [|apply H].
    split; [intros _|by intros _]. rewrite E in E0. unfold zlen in *. destruct a, b; cbn [length] in *; (done || lia).
  - split; [done|]. by intros ->.
Qed.

Lemma IsValidSubprotocolToken_spec l : IsValidSubprotocolToken (Bytes l) = true <-> token_text l.
Proof.
  unfold IsValidSubprotocolToken, token_text. cbn [sp_isnull sp_len sp_bytes orb].
  destruct (Z.eqb_spec (zlen l) 0) as [E|E].
  - split; [done|]. intros [Hne _]. destruct l; [done|]. rewrite zlen_cons in E. pose proof (zlen_nonneg l). lia.
  - rewrite forallb_forall, Forall_forall. setoid_rewrite list_elem_of_In.
    split; [intros H; split; [by intros ->|done]|by intros [_ H]].
Qed.

Lemma candidates_loop_spec candidates selected matched :
  candidates_loop candidates (Bytes selected) matched = STATUS_SUCCESS
  <-> Forall token_text (map trim candidates) /\ (matched = true \/ In selected (map trim candidates)).
Proof.
  revert matched. induction candidates as [|c candidates IH]; intros matched; cbn [candidates_loop map].
  - destruct matched; cbn; [split; [auto|done]|]. split; [done|]. by intros (_ & [?|[]]).
  - cbn [TrimOptionalWhitespace]. rewrite Forall_cons, <- (IsValidSubprotocolToken_spec (trim c)).
    destruct (IsValidSubprotocolToken (Bytes (trim c))); cbn [negb]; [|split; [done|by intros [[? _] _]]].
    rewrite IH. destruct (TextEquals (Bytes (trim c)) (Bytes selected)) eqn:E.
    + apply TextEquals_spec in E. cbn [In]. naive_solver.
    + assert (Hne : trim c <> selected) by (intros Heq; apply TextEquals_spec in Heq; congruence). cbn [In]. naive_solver.
Qed.

Lemma ComputeAcceptValue_spec hash sha1 key : hash_ok hash sha1 -> key <> [] ->
  ComputeAcceptValue hash (Bytes key) (MkAlloc true true true) true WebSocketAcceptValueLength
  = (STATUS_SUCCESS, 28, accept_value sha1 key).
Proof.
  intros [Hi Hu Hf Hd] Hk. unfold ComputeAcceptValue, accept_value. cbn [sp_isnull sp_len sp_bytes orb negb al_hash al_digest].
  rewrite (proj2 (Z.eqb_neq (zlen key) 0)) by (unfold zlen; destruct key; cbn [length]; (done || lia)).
  rewrite Hi. cbn [NT_SUCCESS negb]. rewrite !Hu. cbn [NT_SUCCESS]. rewrite Hf.
  destruct (Hd (key ++ WebSocketGuid)) as [Hb Hl]. rewrite Hl. cbn [Z.eqb Sha1DigestLength Pos.eqb negb].
  rewrite Base64Encode_spec, base64_size, Hl by (done || lia). done.
Qed.

Lemma extension_spec r options negotiated n :
  ha_isnull (rp_Headers r) = false -> zlen (ha_headers (rp_Headers r)) < 2 ^ 64 ->
  ValidatePerMessageDeflateExtensions (rp_Headers r) (text "Sec-WebSocket-Extensions") options negotiated = Ok n
  <-> extension_agreed r options negotiated n.
Proof.
  intros Hnull Hlen. unfold ValidatePerMessageDeflateExtensions, extension_agreed, field_values. rewrite Hnull. cbn [andb].
  rewrite extension_loop_spec by lia. cbv zeta. rewrite Z.add_0_l.
  destruct (List.filter _ _) as [|h [|h' found]].
  - split; [by intros [= <-]|by intros ->].
  - cbn [map List.last]. change (zlen [h]) with 1. cbn [Z.gtb Z.eqb Z.compare Pos.compare Pos.compare_cont Pos.eqb].
    destruct options as [o|]; [|split; [done|by intros (? & ? & ? & _)]].
    destruct (po_Enable o) eqn:He; cbn [negb orb]; [|split; [done|intros (? & ? & [= <-] & ? & _); congruence]].
    destruct (IsValidPerMessageDeflateOptions o) eqn:Hv; cbn [negb orb]; [|split; [done|intros (? & ? & [= <-] & _ & ? & _); congruence]].
    destruct negotiated; cbn [negb]; [|split; [done|by intros (? & ? & _ & _ & _ & ? & _)]].
    rewrite deflate_negotiated_spec. split; [intros (l & Hl & ->); by exists o, l|].
    intros (o' & l & [= <-] & _ & _ & _ & Hl & ->). by exists l.
  - cbn [map]. rewrite Z.gtb_ltb, (proj2 (Z.ltb_lt _ _)); [done|]. rewrite !zlen_cons. pose proof (zlen_nonneg found). lia.
Qed.

Lemma subprotocol_spec r requested selected n :
  ha_isnull (rp_Headers r) = false ->
  (found ← FindSelectedSubprotocol r;
   match found with
   | None => Ok (Null 0, n)
   | Some selected =>
       let status := ValidateSelectedSubprotocol selected requested in
       if NT_SUCCESS status then Ok (selected, n) else Err status
   end) = (Ok (selected, n) : Result (Text * PerMessageDeflateNegotiation))
  <-> subprotocol_agreed r requested selected.
Proof.
  intros Hnull. unfold FindSelectedSubprotocol, subprotocol_agreed, field_values. rewrite Hnull. cbn [andb].
  rewrite find_subprotocol_loop_spec. destruct (List.filter _ _) as [|h [|h' found]]; cbn [mbind Result_bind map].
  - split; [by intros [= <-]|by intros ->].
  - destruct (hd_Value h) as [len|v]; cbn [TrimOptionalWhitespace].
    { cbn. split; [done|]. by intros (? & ? & ? & _). }
    destruct (IsValidSubprotocolToken (Bytes (trim v))) eqn:Ht; cbn [mbind Result_bind].
    + unfold ValidateSelectedSubprotocol. rewrite Ht. cbn [negb]. destruct requested as [len|q]; cbn [sp_isnull sp_len sp_bytes orb].
      { split; [done|]. by intros (? & ? & _ & ? & _). }
      destruct (Z.eqb_spec (zlen q) 0) as [E|E].
      { split; [done|]. intros (? & q' & _ & [= <-] & Hq & _). unfold zlen in E. destruct q; cbn [length] in E; (done || lia). }
      pose proof (candidates_loop_spec (split_on 44 q) (trim v) false) as Hc.
      destruct (candidates_loop (split_on 44 q) (Bytes (trim v)) false) eqn:Es; cbn [NT_SUCCESS].
      1:{ destruct Hc as [Hc _]. destruct (Hc eq_refl) as [Hall [?|Hin]]; [done|]. split.
          - intros [= <-]. exists v, q. split_and!; try done. by intros ->.
          - by intros (v' & q' & [= <-] & _ & _ & -> & _). }
      all: split; [done|]; intros (v' & q' & [= <-] & [= <-] & _ & _ & Hall & Hin); destruct Hc as [_ Hc];
        specialize (Hc (conj Hall (or_intror Hin))); done.
    + split; [done|]. intros (v' & q' & [= <-] & _ & _ & _ & Hall & Hin). rewrite Forall_forall in Hall.
      specialize (Hall (trim v) ltac:(by apply list_elem_of_In)). apply IsValidSubprotocolToken_spec in Hall. congruence.
  - done.
Qed.

(** C21. A handshake is accepted exactly when the response is 101 of HTTP/1.1,
    upgrades the connection to websocket, proves with its one accept value that
    the server read the client's key, and agrees on extension and subprotocol
    with what was requested. *)
Theorem handshake_exact hash sha1 r key requested options negotiated selected n :
  hash_ok hash sha1 -> key <> [] ->
  Forall (fun h => bytes (sp_bytes (hd_Value h))) (ha_headers (rp_Headers r)) ->
  zlen (ha_headers (rp_Headers r)) < 2 ^ 64 ->
  ValidateServerHandshake hash r (Bytes key) requested options negotiated (MkAlloc true true true) = Ok (selected, n)
  <-> rp_StatusCode r = 101 /\ rp_MajorVersion r = 1 /\ rp_MinorVersion r = 1
      /\ lists r "Connection" "Upgrade" /\ lists r "Upgrade" "websocket"
      /\ field_values r "Sec-WebSocket-Accept" = [Bytes (accept_value sha1 key)]
      /\ extension_agreed r options negotiated n
      /\ subprotocol_agreed r requested selected.
Proof.
  intros Hh Hk Hb Hlen. unfold ValidateServerHandshake.
  rewrite <- (lists_spec r "Connection" "Upgrade"), <- (lists_spec r "Upgrade" "websocket") by done.
  destruct (Z.eqb_spec (rp_StatusCode r) 101); cbn [negb orb]; [|split; [done|by intros (? & _)]].
  destruct (Z.eqb_spec (rp_MajorVersion r) 1); cbn [negb orb]; [|split; [done|by intros (_ & ? & _)]].
  destruct (Z.eqb_spec (rp_MinorVersion r) 1); cbn [negb orb]; [|split; [done|by intros (_ & _ & ? & _)]].
  destruct (HasHeaderValueToken (text "Connection") (text "Upgrade") r) eqn:Hc; cbn [negb orb];
    [|split; [done|intros (_ & _ & _ & ? & _); congruence]].
  destruct (HasHeaderValueToken (text "Upgrade") (text "websocket") r) eqn:Hu; cbn [negb];
    [|split; [done|intros (_ & _ & _ & _ & ? & _); congruence]].
  assert (Hnull : ha_isnull (rp_Headers r) = false).
  { unfold HasHeaderValueToken in Hc. by destruct (ha_isnull (rp_Headers r)). }
  unfold CountHeaders, FindHeader. rewrite Hnull. change (sp_isnull (text "Sec-WebSocket-Accept")) with false.
  change (sp_len (text "Sec-WebSocket-Accept") =? 0) with false. cbn [orb]. rewrite find_header_loop_spec.
  unfold field_values at 1.
  assert (Hbytes : forall h l, List.filter (fun h => TextEqualsIgnoreCase (hd_Name h) (text "Sec-WebSocket-Accept"))
    (ha_headers (rp_Headers r)) = h :: l -> bytes (sp_bytes (hd_Value h))).
  { intros h l E. rewrite Forall_forall in Hb. apply (Hb h), list_elem_of_In.
    assert (In h (h :: l)) as Hin by (by left). rewrite <- E in Hin. by apply filter_In in Hin as [? _]. }
  destruct (List.filter _ _) as [|accept [|accept' found]].
  { cbn. split; [done|]. by intros (_ & _ & _ & _ & _ & ? & _). }
  2:{ cbn [map hd_error]. rewrite (proj2 (Z.eqb_neq _ _)); [cbn [negb]; split; [done|]; by intros (_ & _ & _ & _ & _ & ? & _)|].
      rewrite !zlen_cons. pose proof (zlen_nonneg found). lia. }
  specialize (Hbytes accept [] eq_refl). cbn [map hd_error]. change (zlen [accept]) with 1. cbn [Z.eqb Pos.eqb negb al_expected].
  rewrite (ComputeAcceptValue_spec hash sha1 key Hh Hk). cbn [NT_SUCCESS negb].
  rewrite <- extension_spec, <- (subprotocol_spec r requested selected n) by done.
  destruct (ValidatePerMessageDeflateExtensions _ _ _ _) as [n'|s'];
    [|cbn [mbind Result_bind]; split; [done|]; by intros (_ & _ & _ & _ & _ & _ & ? & _)].
  change (Ok n' ≫= ?f) with (f n'). cbv beta.
  destruct (ho_digest _ _ Hh (key ++ WebSocketGuid)) as [Hd20 Hl20].
  assert (Ha : zlen (accept_value sha1 key) = 28) by (unfold accept_value; by rewrite base64_size, Hl20).
  destruct (Z.eqb_spec (sp_len (hd_Value accept)) 28) as [El|El]; cbn [negb orb].
  2:{ split; [done|]. intros (_ & _ & _ & _ & _ & [= E] & _). rewrite E in El. cbn [sp_len] in El. done. }
  pose proof (ConstantTimeEquals_spec (hd_Value accept) (accept_value sha1 key)) as Hct.
  rewrite El, Ha in Hct. specialize (Hct eq_refl Hbytes (base64_bytes _ Hd20)).
  destruct (ConstantTimeEquals _ _); cbn [negb].
  2:{ split; [done|]. intros (_ & _ & _ & _ & _ & [= E] & _). apply Hct in E. done. }
  destruct Hct as [Hct _]. rewrite (Hct eq_refl).
  (* The two sides name the negotiation [n'] and [n]. *)
  split.
  - intros H. assert (n' = n) as -> by (revert H; destruct (FindSelectedSubprotocol r) as [[sel|]|]; cbn; [case_if; congruence|congruence|done]).
    by split_and!.
  - intros (_ & _ & _ & _ & _ & _ & [= <-] & H). exact H.
Qed.

(** The handshake of RFC 6455, section 1.3, with the SHA-1 digest given there;
    the other algorithms fail. *)
Definition sample_digest : list Z :=
  [0xb3; 0x7a; 0x4f; 0x2c; 0xc0; 0x62; 0x4f; 0x16; 0x90; 0xf6; 0x46; 0x06; 0xcf; 0x38; 0x59; 0x45; 0xb2; 0xbe; 0xc4; 0xea].
Definition sample_hash : HashContext :=
  let when_sha1 {A} (a : HashAlgorithm) (yes no : A) := match a with Sha1 => yes | _ => no end in
  MkHash (fun a => when_sha1 a STATUS_SUCCESS STATUS_NOT_SUPPORTED)
    (fun a _ _ => when_sha1 a STATUS_SUCCESS STATUS_INVALID_DEVICE_STATE)
    (fun a _ => when_sha1 a (Ok sample_digest) (Err STATUS_INVALID_DEVICE_STATE)).
Definition sample_key : list Z := str "dGhlIHNhbXBsZSBub25jZQ==".
Definition sample_response : HttpResponse :=
  response_default <| rp_MajorVersion := 1 |> <| rp_MinorVersion := 1 |> <| rp_StatusCode := 101 |>
    <| rp_Headers := HeaderList [
    MkHeader (text "Upgrade") (text "websocket");
    MkHeader (text "Connection") (text "keep-alive, Upgrade");
    MkHeader (text "Sec-WebSocket-Accept") (text "s3pPLMBiTxaQ9kYGzzhZRbK+xOo=");
    MkHeader (text "Sec-WebSocket-Protocol") (text "chat")] |>.

Lemma sample_hash_ok : hash_ok sample_hash (fun _ => sample_digest).
Proof.
  split; try done. intros _. split; [|done].
  repeat (apply Forall_cons; split; [by split|]). apply Forall_nil_2.
Qed.

Lemma handshake_exact_witness :
  ValidateServerHandshake sample_hash sample_response (Bytes sample_key) (text "chat, superchat") None false
    (MkAlloc true true true) = Ok (text "chat", negotiation_default)
  /\ accept_value (fun _ => sample_digest) sample_key = str "s3pPLMBiTxaQ9kYGzzhZRbK+xOo="
  /\ subprotocol_agreed sample_response (text "chat, superchat") (text "chat").
Proof.
  assert (E : ValidateServerHandshake sample_hash sample_response (Bytes sample_key) (text "chat, superchat") None false
    (MkAlloc true true true) = Ok (text "chat", negotiation_default)) by (vm_compute; reflexivity).
  split; [exact E|]. split; [by vm_compute|].
  apply (handshake_exact sample_hash (fun _ => sample_digest) sample_response sample_key (text "chat, superchat") None false)
    in E as (_ & _ & _ & _ & _ & _ & _ & H); [exact H|exact sample_hash_ok|discriminate| |done].
  assert (B : forallb (fun h => forallb (fun b => (0 <=? b) && (b <? 256)) (sp_bytes (hd_Value h)))
    (ha_headers (rp_Headers sample_response)) = true) by (by vm_compute).
  apply Forall_forall. intros h Hh. rewrite List.forallb_forall in B. apply list_elem_of_In, B in Hh.
  apply Forall_forall. intros b Hin. rewrite List.forallb_forall in Hh. apply list_elem_of_In, Hh in Hin. unfold is_byte. lia.
Defined.
