(* ===== verification/WebSocketDeflate.v ===== *)
(** * permessage-deflate: compression of WebSocket messages
    (ws/WebSocketDeflate.cpp, RFC 1951 and RFC 7692)

    The bit reader, the Huffman tables and their canonical codes, the sliding
    window, the decoder of a message, and the encoder, which writes stored
    blocks.  What a compressed message means is stated on lists of bits; the
    decoder gives every such message its meaning, and always ends. *)

From S2P Require Import Prelude.
From S2P Require Import BitStream.

(** ** Constants *)

Definition MaxExpansionRatio : Z := 1024.
Definition MaxLiteralLengthCodes : Z := 288.
Definition MaxDistanceCodes : Z := 32.
Definition MaxCodeLengthCodes : Z := 19.
Definition MaxCodeBits : Z := 15.
Definition PerMessageDeflateTail : list Z := [0x00; 0x00; 0xff; 0xff].
Definition MinWindowBits : Z := 8.
Definition MaxWindowBits : Z := 15.

Definition LengthBase : list Z :=
  [3; 4; 5; 6; 7; 8; 9; 10; 11; 13; 15; 17; 19; 23; 27; 31; 35; 43; 51; 59; 67; 83; 99; 115; 131; 163; 195; 227; 258].
Definition LengthExtra : list Z :=
  [0; 0; 0; 0; 0; 0; 0; 0; 1; 1; 1; 1; 2; 2; 2; 2; 3; 3; 3; 3; 4; 4; 4; 4; 5; 5; 5; 5; 0].
Definition DistanceBase : list Z :=
  [1; 2; 3; 4; 5; 7; 9; 13; 17; 25; 33; 49; 65; 97; 129; 193; 257; 385; 513; 769; 1025; 1537; 2049; 3073; 4097; 6145;
   8193; 12289; 16385; 24577].
Definition DistanceExtra : list Z :=
  [0; 0; 0; 0; 1; 1; 2; 2; 3; 3; 4; 4; 5; 5; 6; 6; 7; 7; 8; 8; 9; 9; 10; 10; 11; 11; 12; 12; 13; 13].
Definition CodeLengthOrder : list Z := [16; 17; 18; 0; 8; 7; 9; 6; 10; 5; 11; 4; 12; 3; 13; 2; 14; 1; 15].

Definition u16 (x : Z) : Z := x mod 2 ^ 16.

(** ** The bit reader *)

Record BitReader := MkReader { br_data : list Z; br_byteOffset : Z; br_bitOffset : Z }.
#[export] Instance BitReader_eta : Eta BitReader := fun r => MkReader (br_data r) (br_byteOffset r) (br_bitOffset r).

(** A failed read leaves a reader nobody uses. *)
Fixpoint read_bits_loop (n : nat) (bit parsed : Z) (r : BitReader) : option (Z * BitReader) :=
  match n with
  | O => Some (parsed, r)
  | S n =>
      if br_byteOffset r >=? zlen (br_data r) then None
      else
        let current := zget (br_data r) (br_byteOffset r) in
        let parsed := Z.lor parsed (u32 (Z.shiftl (Z.land (Z.shiftr current (br_bitOffset r)) 1) bit)) in
        let r := r <| br_bitOffset := u8 (br_bitOffset r + 1) |> in
        let r := if br_bitOffset r =? 8
                 then r <| br_bitOffset := 0 |> <| br_byteOffset := br_byteOffset r +! 1 |> else r in
        read_bits_loop n (bit + 1) parsed r
  end.
Definition ReadBits (bitCount : Z) (r : BitReader) : option (Z * BitReader) :=
  if bitCount >? 16 then None else read_bits_loop (Z.to_nat bitCount) 0 0 r.

Definition AlignByte (r : BitReader) : BitReader :=
  if negb (br_bitOffset r =? 0) then r <| br_bitOffset := 0 |> <| br_byteOffset := br_byteOffset r +! 1 |> else r.

Definition ReadByte (r : BitReader) : option (Z * BitReader) :=
  let r := AlignByte r in
  if br_byteOffset r >=? zlen (br_data r) then None
  else Some (zget (br_data r) (br_byteOffset r), r <| br_byteOffset := br_byteOffset r +! 1 |>).

Definition HasMoreInput (r : BitReader) : bool := br_byteOffset r <? zlen (br_data r).

(** A read that fails ends the message. *)
Definition reading {A} (m : option A) : Result A :=
  match m with Some a => Ok a | None => Err STATUS_INVALID_NETWORK_RESPONSE end.

(** ** Huffman tables *)

Record HuffmanEntry := MkEntry { he_Code : Z; he_Symbol : Z; he_Length : Z }.
(** [EntryCount] is the length of the list. *)
Record HuffmanTable := MkTable { ht_Entries : list HuffmanEntry; ht_MaxBits : Z }.
Definition empty_table : HuffmanTable := MkTable [] 0.

Fixpoint reverse_loop (n : nat) (code reversed : Z) : Z :=
  match n with
  | O => reversed
  | S n => reverse_loop n (u16 (Z.shiftr code 1)) (u16 (Z.lor (Z.shiftl reversed 1) (Z.land code 1)))
  end.
Definition ReverseBits (code length : Z) : Z := reverse_loop (Z.to_nat length) code 0.

(** The places where the decoder allocates. *)
Inductive site := Counts | Entries | Lengths | Input.

Definition set (l : list Z) (i v : Z) : list Z := <[Z.to_nat i := v]> l.

Record counted := MkCounted { co_bitCounts : list Z; co_entryCount : Z; co_maxBits : Z }.

Fixpoint count_loop (lengths : list Z) (c : counted) : option counted :=
  match lengths with
  | [] => Some c
  | length :: lengths =>
      if length >? MaxCodeBits then None
      else if negb (length =? 0) then
        count_loop lengths
          (MkCounted (set (co_bitCounts c) length (u16 (zget (co_bitCounts c) length + 1))) (co_entryCount c +! 1)
             (if length >? co_maxBits c then length else co_maxBits c))
      else count_loop lengths c
  end.

(** [for (bits = 1; bits <= MaxCodeBits; ++bits)] from [bits] on. *)
Fixpoint next_code_loop (n : nat) (bits code : Z) (bitCounts nextCode : list Z) : list Z :=
  match n with
  | O => nextCode
  | S n =>
      let code := u16 (Z.shiftl (code + zget bitCounts (bits - 1)) 1) in
      next_code_loop n (bits + 1) code bitCounts (set nextCode bits code)
  end.

Fixpoint assign_loop (lengths : list Z) (symbol : Z) (nextCode : list Z) (entries : list HuffmanEntry)
    : list HuffmanEntry :=
  match lengths with
  | [] => entries
  | length :: lengths =>
      if length =? 0 then assign_loop lengths (symbol + 1) nextCode entries
      else
        assign_loop lengths (symbol + 1) (set nextCode length (u16 (zget nextCode length + 1)))
          (entries ++ [MkEntry (ReverseBits (zget nextCode length) length) (u16 symbol) length])
  end.

Section Deflate.
(** Whether an allocation at a place succeeds. *)
Variable memory : site -> bool.

Definition BuildHuffmanTable (lengths : list Z) : Result HuffmanTable :=
  if zlen lengths =? 0 then Err STATUS_INVALID_PARAMETER
  else if negb (memory Counts) then Err STATUS_INSUFFICIENT_RESOURCES
  else
    match count_loop lengths (MkCounted (replicate 16 0) 0 0) with
    | None => Err STATUS_INVALID_NETWORK_RESPONSE
    | Some c =>
        if co_entryCount c =? 0 then Err STATUS_INVALID_NETWORK_RESPONSE
        else if negb (memory Entries) then Err STATUS_INSUFFICIENT_RESOURCES
        else
          let nextCode := next_code_loop 15 1 0 (co_bitCounts c) (replicate 16 0) in
          Ok (MkTable (assign_loop lengths 0 nextCode []) (co_maxBits c))
    end.

Fixpoint find_entry (entries : list HuffmanEntry) (length code : Z) : option Z :=
  match entries with
  | [] => None
  | e :: entries =>
      if (he_Length e =? length) && (he_Code e =? code) then Some (he_Symbol e) else find_entry entries length code
  end.

(** [n] turns are left of [for (length = 1; length <= table.MaxBits; ++length)]. *)
Fixpoint decode_symbol_loop (n : nat) (length code : Z) (table : HuffmanTable) (r : BitReader) : Result (Z * BitReader) :=
  match n with
  | O => Err STATUS_INVALID_NETWORK_RESPONSE
  | S n =>
      '(bit, r) ← reading (ReadBits 1 r);
      let code := u16 (Z.lor code (Z.shiftl (u16 bit) (length - 1))) in
      match find_entry (ht_Entries table) length code with
      | Some symbol => Ok (symbol, r)
      | None => decode_symbol_loop n (length + 1) code table r
      end
  end.
Definition DecodeSymbol (r : BitReader) (table : HuffmanTable) : Result (Z * BitReader) :=
  if zlen (ht_Entries table) =? 0 then Err STATUS_INVALID_PARAMETER
  else decode_symbol_loop (Z.to_nat (ht_MaxBits table)) 1 0 table r.

Definition fixed_literal_lengths : list Z :=
  replicate 144 8 ++ replicate 112 9 ++ replicate 24 7 ++ replicate 8 8.
Definition fixed_distance_lengths : list Z := replicate 32 5.

Definition BuildFixedTables : Result (HuffmanTable * HuffmanTable) :=
  if negb (memory Lengths) then Err STATUS_INSUFFICIENT_RESOURCES
  else
    literalTable ← BuildHuffmanTable fixed_literal_lengths;
    distanceTable ← BuildHuffmanTable fixed_distance_lengths;
    Ok (literalTable, distanceTable).

(** *** Dynamic tables *)

(** [codeLengthLengths[CodeLengthOrder[index]] = length] over the places left. *)
Fixpoint code_length_loop (order : list Z) (lengths : list Z) (r : BitReader) : Result (list Z * BitReader) :=
  match order with
  | [] => Ok (lengths, r)
  | place :: order =>
      '(length, r) ← reading (ReadBits 3 r);
      code_length_loop order (set lengths place (u8 length)) r
  end.

(** [allLengths]: the entries written so far, [count - index] are left. *)
Fixpoint all_lengths_loop (fuel : nat) (count : Z) (table : HuffmanTable) (allLengths : list Z) (r : BitReader)
    : Result (list Z * BitReader) :=
  if negb (zlen allLengths <? count) then Ok (allLengths, r)
  else
    match fuel with
    | O => Err (STATUS_OTHER 0)
    | S fuel =>
        '(symbol, r) ← DecodeSymbol r table;
        if symbol <=? 15 then all_lengths_loop fuel count table (allLengths ++ [u8 symbol]) r
        else if symbol =? 16 then
          if zlen allLengths =? 0 then Err STATUS_INVALID_NETWORK_RESPONSE
          else
            '(extra, r) ← reading (ReadBits 2 r);
            let repeat := extra +! 3 in
            if repeat >? count -! zlen allLengths then Err STATUS_INVALID_NETWORK_RESPONSE
            else
              let previous := zget allLengths (zlen allLengths -! 1) in
              all_lengths_loop fuel count table (allLengths ++ replicate (Z.to_nat repeat) previous) r
        else if (symbol =? 17) || (symbol =? 18) then
          let extraBits := if symbol =? 17 then 3 else 7 in
          '(extra, r) ← reading (ReadBits extraBits r);
          let repeat := extra +! (if symbol =? 17 then 3 else 11) in
          if repeat >? count -! zlen allLengths then Err STATUS_INVALID_NETWORK_RESPONSE
          else all_lengths_loop fuel count table (allLengths ++ replicate (Z.to_nat repeat) 0) r
        else Err STATUS_INVALID_NETWORK_RESPONSE
    end.

Definition ReadDynamicTables (r : BitReader) : Result (HuffmanTable * HuffmanTable * BitReader) :=
  '(hlitValue, r) ← reading (ReadBits 5 r);
  '(hdistValue, r) ← reading (ReadBits 5 r);
  '(hclenValue, r) ← reading (ReadBits 4 r);
  let literalCount := hlitValue +! 257 in
  let distanceCount := hdistValue +! 1 in
  let codeLengthCount := hclenValue +! 4 in
  if (literalCount >? MaxLiteralLengthCodes) || (distanceCount >? MaxDistanceCodes)
  then Err STATUS_INVALID_NETWORK_RESPONSE
  else if negb (memory Lengths) then Err STATUS_INSUFFICIENT_RESOURCES
  else
    '(codeLengthLengths, r) ← code_length_loop (ztake codeLengthCount CodeLengthOrder)
                                (replicate (Z.to_nat MaxCodeLengthCodes) 0) r;
    codeLengthTable ← BuildHuffmanTable codeLengthLengths;
    let count := literalCount +! distanceCount in
    '(allLengths, r) ← all_lengths_loop (Z.to_nat count) count codeLengthTable [] r;
    literalTable ← BuildHuffmanTable (ztake literalCount allLengths);
    let distanceLengths := zdrop literalCount allLengths in
    let hasDistanceCode := existsb (fun length => negb (length =? 0)) distanceLengths in
    if negb hasDistanceCode then Ok (literalTable, empty_table, r)
    else
      distanceTable ← BuildHuffmanTable distanceLengths;
      Ok (literalTable, distanceTable, r).

(** ** The sliding window *)

(** [window]: [None] until it is allocated. *)
Record WebSocketDeflateContext := MkContext {
  dc_window : option (list Z);
  dc_windowMask : Z;
  dc_windowPosition : Z;
  dc_historyBytes : Z;
}.
#[local] Instance WebSocketDeflateContext_eta : Eta WebSocketDeflateContext := fun c =>
  MkContext (dc_window c) (dc_windowMask c) (dc_windowPosition c) (dc_historyBytes c).
Definition context_default : WebSocketDeflateContext := MkContext None 0 0 0.

(** The bytes of the window, and [window_.Count()]. *)
Definition window (c : WebSocketDeflateContext) : list Z := default [] (dc_window c).
Definition window_size (c : WebSocketDeflateContext) : Z := zlen (window c).

(** [Allocate] fails for lack of memory. *)
Definition Initialize (windowBits : Z) (allocated : bool) (c : WebSocketDeflateContext)
    : NTSTATUS * WebSocketDeflateContext :=
  if (windowBits <? MinWindowBits) || (windowBits >? MaxWindowBits) then (STATUS_INVALID_PARAMETER, c)
  else
    let windowSize := u64 (Z.shiftl 1 windowBits) in
    if negb allocated then (STATUS_INSUFFICIENT_RESOURCES, c <| dc_window := None |>)
    else (STATUS_SUCCESS, MkContext (Some (replicate (Z.to_nat windowSize) 0)) (windowSize -! 1) 0 0).

Definition ResetHistory (c : WebSocketDeflateContext) : WebSocketDeflateContext :=
  let c := match dc_window c with
           | Some w => c <| dc_window := Some (replicate (length w) 0) |>
           | None => c
           end in
  c <| dc_windowPosition := 0 |> <| dc_historyBytes := 0 |>.

Definition Release (c : WebSocketDeflateContext) : WebSocketDeflateContext :=
  (ResetHistory c) <| dc_window := None |> <| dc_windowMask := 0 |>.

Definition IsInitialized (c : WebSocketDeflateContext) : bool :=
  bool_decide (dc_window c <> None) && negb (window_size c =? 0).

(** The destination: whether the pointers are there, its capacity, and the length
    of the compressed message. *)
Variable destination : bool.
Variable capacity : Z.
Variable encodedLength : Z.

(** Status, the context, and the bytes written: [*bytesWritten] is their
    number. *)
Definition emitted : Type := NTSTATUS * WebSocketDeflateContext * list Z.

Definition EmitByte (byte : Z) (c : WebSocketDeflateContext) (output : list Z) : emitted :=
  if negb destination || negb (IsInitialized c) then (STATUS_INVALID_PARAMETER, c, output)
  else if zlen output >=? capacity then (STATUS_BUFFER_TOO_SMALL, c, output)
  else if negb (encodedLength =? 0) && (zlen output >=? encodedLength *! MaxExpansionRatio)
  then (STATUS_INVALID_NETWORK_RESPONSE, c, output)
  else
    let position := dc_windowPosition c in
    let c := c <| dc_window := Some (set (window c) position byte) |>
               <| dc_windowPosition := Z.land (position +! 1) (dc_windowMask c) |> in
    let c := if dc_historyBytes c <? window_size c then c <| dc_historyBytes := dc_historyBytes c +! 1 |> else c in
    (STATUS_SUCCESS, c, output ++ [byte]).

(** [n] turns are left. *)
Fixpoint copy_loop (n : nat) (source : Z) (c : WebSocketDeflateContext) (output : list Z) : emitted :=
  match n with
  | O => (STATUS_SUCCESS, c, output)
  | S n =>
      let '(status, c, output) := EmitByte (zget (window c) source) c output in
      if negb (NT_SUCCESS status) then (status, c, output)
      else copy_loop n (Z.land (source +! 1) (dc_windowMask c)) c output
  end.
Definition CopyFromHistory (distance length : Z) (c : WebSocketDeflateContext) (output : list Z) : emitted :=
  if negb (IsInitialized c) || (distance =? 0) || (distance >? dc_historyBytes c) || (distance >? window_size c)
  then (STATUS_INVALID_NETWORK_RESPONSE, c, output)
  else
    let source := Z.land ((dc_windowPosition c +! window_size c) -! distance) (dc_windowMask c) in
    copy_loop (Z.to_nat length) source c output.

(** ** Blocks *)

(** With the reader, which is there on success. *)
Definition decoded : Type := Result BitReader * WebSocketDeflateContext * list Z.
Definition failed (m : Result BitReader) (c : WebSocketDeflateContext) (output : list Z) : decoded := (m, c, output).

(** The base with the extra bits after it. *)
Definition read_extra (base extraBits : Z) (r : BitReader) : Result (Z * BitReader) :=
  if negb (extraBits =? 0) then
    '(extra, r) ← reading (ReadBits extraBits r);
    Ok (base +! extra, r)
  else Ok (base, r).

(** A length symbol up to the distance: length, distance. *)
Definition read_match (symbol : Z) (distanceTable : HuffmanTable) (r : BitReader) : Result (Z * Z * BitReader) :=
  let lengthIndex := symbol - 257 in
  '(length, r) ← read_extra (zget LengthBase lengthIndex) (zget LengthExtra lengthIndex) r;
  if zlen (ht_Entries distanceTable) =? 0 then Err STATUS_INVALID_NETWORK_RESPONSE
  else
    '(distanceSymbol, r) ← DecodeSymbol r distanceTable;
    if distanceSymbol >=? 30 then Err STATUS_INVALID_NETWORK_RESPONSE
    else
      '(distance, r) ← read_extra (zget DistanceBase distanceSymbol) (zget DistanceExtra distanceSymbol) r;
      Ok (length, distance, r).

Fixpoint DecodeCompressedBlock (fuel : nat) (literalTable distanceTable : HuffmanTable) (r : BitReader)
    (c : WebSocketDeflateContext) (output : list Z) : decoded :=
  match fuel with
  | O => (Err (STATUS_OTHER 0), c, output)
  | S fuel =>
      match DecodeSymbol r literalTable with
      | Err status => (Err status, c, output)
      | Ok (symbol, r) =>
          if symbol <? 256 then
            let '(status, c, output) := EmitByte (u8 symbol) c output in
            if negb (NT_SUCCESS status) then (Err status, c, output)
            else DecodeCompressedBlock fuel literalTable distanceTable r c output
          else if symbol =? 256 then (Ok r, c, output)
          else if symbol <=? 285 then
            match read_match symbol distanceTable r with
            | Err status => (Err status, c, output)
            | Ok (length, distance, r) =>
                let '(status, c, output) := CopyFromHistory distance length c output in
                if negb (NT_SUCCESS status) then (Err status, c, output)
                else DecodeCompressedBlock fuel literalTable distanceTable r c output
            end
          else (Err STATUS_INVALID_NETWORK_RESPONSE, c, output)
      end
  end.

(** [n] bytes are left. *)
Fixpoint stored_loop (n : nat) (r : BitReader) (c : WebSocketDeflateContext) (output : list Z) : decoded :=
  match n with
  | O => (Ok r, c, output)
  | S n =>
      match ReadByte r with
      | None => (Err STATUS_INVALID_NETWORK_RESPONSE, c, output)
      | Some (byte, r) =>
          let '(status, c, output) := EmitByte byte c output in
          if negb (NT_SUCCESS status) then (Err status, c, output) else stored_loop n r c output
      end
  end.

Definition stored_length (r : BitReader) : Result (Z * BitReader) :=
  let r := AlignByte r in
  '(len0, r) ← reading (ReadByte r);
  '(len1, r) ← reading (ReadByte r);
  '(nlen0, r) ← reading (ReadByte r);
  '(nlen1, r) ← reading (ReadByte r);
  let length := u16 (Z.lor len0 (Z.shiftl len1 8)) in
  let negated := u16 (Z.lor nlen0 (Z.shiftl nlen1 8)) in
  if negb (u16 (Z.lxor length 0xffff) =? negated) then Err STATUS_INVALID_NETWORK_RESPONSE else Ok (length, r).

Definition DecodeStoredBlock (r : BitReader) (c : WebSocketDeflateContext) (output : list Z) : decoded :=
  match stored_length r with
  | Err status => (Err status, c, output)
  | Ok (length, r) => stored_loop (Z.to_nat length) r c output
  end.

(** One turn of the loop of [InflateMessage]; a compressed block has at most one
    symbol for each bit of the input. *)
Definition decode_block (r : BitReader) (c : WebSocketDeflateContext) (output : list Z) : decoded :=
  let fuel := S (8 * length (br_data r)) in
  match ('(finalBlock, r) ← ReadBits 1 r; ReadBits 2 r) with
  | None => (Err STATUS_INVALID_NETWORK_RESPONSE, c, output)
  | Some (blockType, r) =>
      if blockType =? 0 then DecodeStoredBlock r c output
      else if blockType =? 1 then
        match BuildFixedTables with
        | Err status => (Err status, c, output)
        | Ok (literalTable, distanceTable) => DecodeCompressedBlock fuel literalTable distanceTable r c output
        end
      else if blockType =? 2 then
        match ReadDynamicTables r with
        | Err status => (Err status, c, output)
        | Ok (literalTable, distanceTable, r) => DecodeCompressedBlock fuel literalTable distanceTable r c output
        end
      else (Err STATUS_INVALID_NETWORK_RESPONSE, c, output)
  end.

Fixpoint blocks_loop (fuel : nat) (r : BitReader) (c : WebSocketDeflateContext) (output : list Z) : emitted :=
  if negb (HasMoreInput r) then (STATUS_SUCCESS, c, output)
  else
    match fuel with
    | O => (STATUS_OTHER 0, c, output)
    | S fuel =>
        match decode_block r c output with
        | (Ok r, c, output) => blocks_loop fuel r c output
        | (Err status, c, output) => (status, c, output)
        end
    end.
End Deflate.

Definition InflateMessage (memory : site -> bool) (source : span) (destination : bool) (capacity : Z)
    (c : WebSocketDeflateContext) : emitted :=
  if (sp_isnull source && negb (sp_len source =? 0)) || negb destination || negb (IsInitialized c)
  then (STATUS_INVALID_PARAMETER, c, [])
  else if sp_len source >? MAXU64 -! 4 then (STATUS_INTEGER_OVERFLOW, c, [])
  else if negb (memory Input) then (STATUS_INSUFFICIENT_RESOURCES, c, [])
  else
    let input := sp_bytes source ++ PerMessageDeflateTail in
    blocks_loop memory destination capacity (sp_len source) (S (8 * length input)) (MkReader input 0 0) c [].

(** ** The encoder *)

Definition MaxStoredDeflateBytes (sourceLength : Z) (finalFragment : bool) : Z :=
  let last := if finalFragment then 1 else 0 in
  let blockCount := if sourceLength =? 0 then 0 else (sourceLength +! 65534) / 65535 in
  if blockCount >? ((MAXU64 -! sourceLength) -! last) / 5 then MAXU64
  else (sourceLength +! (blockCount *! 5)) +! last.

Definition stored_header (chunkLength : Z) : list Z :=
  let negated := u16 (Z.lxor chunkLength 0xffff) in
  [0x00; u8 (Z.land chunkLength 0xff); u8 (Z.land (Z.shiftr chunkLength 8) 0xff);
   u8 (Z.land negated 0xff); u8 (Z.land (Z.shiftr negated 8) 0xff)].

(** [rest]: the source from [inputOffset] on. *)
Fixpoint deflate_loop (fuel : nat) (rest output : list Z) : list Z :=
  match fuel, rest with
  | _, [] => output
  | O, _ => output
  | S fuel, _ =>
      let chunkLength := u16 (if zlen rest >? 65535 then 65535 else zlen rest) in
      deflate_loop fuel (zdrop chunkLength rest) (output ++ stored_header chunkLength ++ ztake chunkLength rest)
  end.

(** Status, [*bytesWritten], and the bytes at the destination. *)
Definition DeflateMessage (source : span) (finalFragment : bool) (destination : bool) (capacity : Z)
    : NTSTATUS * Z * list Z :=
  if (sp_isnull source && negb (sp_len source =? 0)) || negb destination then (STATUS_INVALID_PARAMETER, 0, [])
  else
    let required := MaxStoredDeflateBytes (sp_len source) finalFragment in
    if required =? MAXU64 then (STATUS_INTEGER_OVERFLOW, 0, [])
    else if capacity <? required then (STATUS_BUFFER_TOO_SMALL, required, [])
    else
      let output := deflate_loop (length (sp_bytes source)) (sp_bytes source) [] in
      let output := if finalFragment then output ++ [0x00] else output in
      (STATUS_SUCCESS, zlen output, output).

(** ** Bits

    [at_bits] says which bits (BitStream) a reader has before it. *)

(** The bits from the next byte boundary on, when the whole ends at one. *)
Definition align (bits : list bool) : list bool := drop (length bits mod 8) bits.

Definition rest (r : BitReader) : list bool :=
  drop (Z.to_nat (8 * br_byteOffset r + br_bitOffset r)) (to_bits (br_data r)).

Record at_bits (data : list Z) (r : BitReader) (bits : list bool) : Prop := {
  ab_data : br_data r = data;
  ab_bytes : bytes data;
  ab_length : zlen data < 2 ^ 60;
  ab_byte : 0 <= br_byteOffset r <= zlen data;
  ab_bit : 0 <= br_bitOffset r < 8;
  ab_end : br_byteOffset r = zlen data -> br_bitOffset r = 0;
  ab_rest : rest r = bits;
}.

(** Where there is a byte left, its next bit is the first bit. *)
Lemma rest_step data r bits : at_bits data r bits -> br_byteOffset r < zlen data ->
  exists bits', bits = Z.testbit (zget data (br_byteOffset r)) (br_bitOffset r) :: bits'
  /\ at_bits data
       (let r := r <| br_bitOffset := u8 (br_bitOffset r + 1) |> in
        if br_bitOffset r =? 8 then r <| br_bitOffset := 0 |> <| br_byteOffset := br_byteOffset r +! 1 |> else r) bits'.
Proof.
  intros [Hd Hb Hl Hbyte Hbit He Hr] Hlt. destruct r as [d by' bi]. cbn in *. subst d.
  set (k := Z.to_nat by'). assert (Hk : (k < length data)%nat) by (unfold k, zlen in *; lia).
  destruct (lookup_lt_is_Some_2 data k Hk) as [b Hlk].
  assert (Eg : zget data by' = b) by (unfold zget; fold k; rewrite nth_lookup, Hlk; done).
  assert (Edrop : drop (8 * k) (to_bits data) = byte_bits b ++ to_bits (drop (S k) data)).
  { rewrite to_bits_drop, (drop_S data b k Hlk). done. }
  unfold rest in Hr. cbn [br_byteOffset br_bitOffset br_data] in Hr.
  replace (Z.to_nat (8 * by' + bi)) with (8 * k + Z.to_nat bi)%nat in Hr by (unfold k; lia).
  rewrite <- drop_drop, Edrop, drop_byte_bits, Z2Nat.id in Hr by lia. rewrite Eg.
  exists (drop (S (Z.to_nat bi)) (byte_bits b ++ to_bits (drop (S k) data))). split; [done|].
  unfold u8. rewrite Z.mod_small by lia. destruct (Z.eqb_spec (bi + 1) 8) as [E8|E8]; split; cbn; try done; try lia.
  - rewrite u64_id by lia. lia.
  - transitivity (drop (Z.to_nat (8 * u64 (by' + 1) + 0)) (to_bits data)); [done|].
    rewrite u64_id by lia. replace (Z.to_nat (8 * (by' + 1) + 0)) with (8 * S k)%nat by (unfold k; lia).
    rewrite to_bits_drop. replace bi with 7 by lia. done.
  - transitivity (drop (Z.to_nat (8 * by' + (bi + 1))) (to_bits data)); [done|].
    replace (Z.to_nat (8 * by' + (bi + 1))) with (8 * k + S (Z.to_nat bi))%nat by (unfold k; lia).
    by rewrite <- drop_drop, Edrop.
Qed.

Lemma rest_end data r bits : at_bits data r bits -> br_byteOffset r = zlen data -> bits = [].
Proof.
  intros [Hd Hb Hl Hbyte Hbit He Hr] E. rewrite <- Hr. unfold rest. rewrite Hd, (He E), E. apply drop_ge.
  rewrite to_bits_length. unfold zlen. lia.
Qed.

Lemma read_bits_loop_ok data l bits n bit parsed r :
  at_bits data r (l ++ bits) -> length l = n -> 0 <= bit -> bit + Z.of_nat n <= 16 -> 0 <= parsed < 2 ^ bit ->
  exists r', read_bits_loop n bit parsed r = Some (parsed + 2 ^ bit * bits_value l, r') /\ at_bits data r' bits.
Proof.
  revert l bit parsed r. induction n as [|n IH]; intros l bit parsed r Hr Hn Hb Hle Hp.
  { destruct l; [|done]. exists r. cbn. split; [f_equal; f_equal; lia|done]. }
  destruct l as [|x l]; [done|]. injection Hn as Hn. cbn [read_bits_loop].
  pose proof (ab_data _ _ _ Hr) as Hd. pose proof (ab_byte _ _ _ Hr) as Hby. rewrite Hd.
  destruct (Z.eq_dec (br_byteOffset r) (zlen data)) as [E|E]; [by apply (rest_end _ _ _ Hr) in E|].
  rewrite Z.geb_leb, (proj2 (Z.leb_gt _ _)) by lia.
  destruct (rest_step data r _ Hr ltac:(lia)) as (bits' & [= -> <-] & Hr'). cbv zeta in *.
  rewrite testbit_land by apply (ab_bit _ _ _ Hr).
  set (x := Z.testbit _ _) in *. assert (Hx : 0 <= Z.b2z x <= 1) by (by destruct x).
  assert (Hpow : 2 ^ bit <= 2 ^ 15) by (apply Z.pow_le_mono_r; lia).
  rewrite u32_id by (rewrite Z.shiftl_mul_pow2 by lia; nia).
  rewrite Z.lor_comm, lor_shiftl by lia.
  destruct (IH l (bit + 1) (Z.b2z x * 2 ^ bit + parsed) _ Hr') as (r' & E' & Hr''); [done|lia|lia| |].
  { rewrite Z.pow_add_r by lia. nia. }
  exists r'. split; [|done]. rewrite E'. f_equal. f_equal. cbn [bits_value]. rewrite Z.pow_add_r by lia. lia.
Qed.

Lemma read_bits_loop_none data n bit parsed r bits :
  at_bits data r bits -> (length bits < n)%nat -> read_bits_loop n bit parsed r = None.
Proof.
  revert bit parsed r bits. induction n as [|n IH]; intros bit parsed r bits Hr Hn; [lia|]. cbn [read_bits_loop].
  pose proof (ab_data _ _ _ Hr) as Hd. pose proof (ab_byte _ _ _ Hr) as Hby. rewrite Hd.
  destruct (Z.eq_dec (br_byteOffset r) (zlen data)) as [E|E].
  { by rewrite Z.geb_leb, (proj2 (Z.leb_le _ _)) by lia. }
  rewrite Z.geb_leb, (proj2 (Z.leb_gt _ _)) by lia.
  destruct (rest_step data r _ Hr ltac:(lia)) as (bits' & -> & Hr'). cbn [length] in Hn. apply (IH _ _ _ bits'); [done|lia].
Qed.

Lemma ReadBits_ok data l bits n r :
  at_bits data r (l ++ bits) -> Z.of_nat (length l) = n -> n <= 16 ->
  exists r', ReadBits n r = Some (bits_value l, r') /\ at_bits data r' bits.
Proof.
  intros Hr Hn Hle. unfold ReadBits. rewrite Z.gtb_ltb, (proj2 (Z.ltb_ge _ _)) by lia.
  destruct (read_bits_loop_ok data l bits (Z.to_nat n) 0 0 r Hr) as (r' & E & Hr'); [lia..|].
  exists r'. split; [|done]. rewrite E. f_equal. f_equal. lia.
Qed.
Lemma ReadBits_none data bits n r :
  at_bits data r bits -> Z.of_nat (length bits) < n -> ReadBits n r = None.
Proof.
  intros Hr Hn. unfold ReadBits. case_if; [done|]. eapply read_bits_loop_none; [done|lia].
Qed.
(** Either way. *)
Lemma ReadBits_cases data bits n r : at_bits data r bits -> 0 <= n <= 16 ->
  match ReadBits n r with
  | Some (v, r') => exists l bits', bits = l ++ bits' /\ Z.of_nat (length l) = n /\ v = bits_value l /\ at_bits data r' bits'
  | None => Z.of_nat (length bits) < n
  end.
Proof.
  intros Hr Hn. destruct (Z.lt_ge_cases (Z.of_nat (length bits)) n) as [Hlt|Hge].
  - by rewrite (ReadBits_none _ _ _ _ Hr).
  - rewrite <- (take_drop (Z.to_nat n) bits) in Hr.
    destruct (ReadBits_ok data (take (Z.to_nat n) bits) (drop (Z.to_nat n) bits) n r Hr) as (r' & -> & Hr');
      [rewrite length_take; lia|lia|].
    exists (take (Z.to_nat n) bits), (drop (Z.to_nat n) bits). rewrite take_drop, length_take. split_and!; (done || lia).
Qed.

Lemma at_bits_length data r bits : at_bits data r bits ->
  Z.of_nat (length bits) = 8 * (zlen data - br_byteOffset r) - br_bitOffset r.
Proof.
  intros [Hd Hb Hl Hbyte Hbit He <-]. unfold rest. rewrite length_drop, to_bits_length, Hd. unfold zlen in *.
  destruct (Z.eq_dec (br_byteOffset r) (Z.of_nat (length data))) as [E|E]; [rewrite (He E)|]; lia.
Qed.

Lemma HasMoreInput_bits data r bits : at_bits data r bits -> HasMoreInput r = negb (bool_decide (bits = [])).
Proof.
  intros Hr. pose proof (at_bits_length _ _ _ Hr) as Hlen. destruct Hr as [Hd Hb Hl Hbyte Hbit He Hr].
  unfold HasMoreInput. rewrite Hd. destruct (Z.ltb_spec (br_byteOffset r) (zlen data)).
  - rewrite bool_decide_false; [done|]. intros ->. cbn in Hlen. lia.
  - rewrite bool_decide_true; [done|]. destruct bits; [done|]. cbn in Hlen. lia.
Qed.

Lemma to_bits_align l : align (to_bits l) = to_bits l.
Proof. unfold align. rewrite to_bits_length, Nat.mul_comm, Nat.Div0.mod_mul. done. Qed.

Lemma AlignByte_bits data r bits : at_bits data r bits -> exists l,
  align bits = to_bits l /\ bytes l /\ at_bits data (AlignByte r) (to_bits l) /\ br_bitOffset (AlignByte r) = 0
  /\ l = zdrop (br_byteOffset (AlignByte r)) data.
Proof.
  intros Hr. pose proof (at_bits_length _ _ _ Hr) as Hlen. pose proof Hr as [Hd Hb Hl Hbyte Hbit He Hrest].
  set (l := zdrop (br_byteOffset (AlignByte r)) data). exists l.
  assert (Hpos : br_byteOffset (AlignByte r) = (8 * br_byteOffset r + br_bitOffset r + 7) / 8
                 /\ br_bitOffset (AlignByte r) = 0 /\ br_data (AlignByte r) = data /\ br_byteOffset (AlignByte r) <= zlen data).
  { unfold AlignByte. destruct (Z.eqb_spec (br_bitOffset r) 0) as [E|E]; cbn [negb].
    - split_and!; (done || lia || Z.to_euclidean_division_equations; lia).
    - assert (br_byteOffset r <> zlen data) by (intros E'; by apply He in E').
      set (r' := set_field br_byteOffset _ _).
      assert (E' : br_byteOffset r' = br_byteOffset r + 1).
      { transitivity (u64 (br_byteOffset r + 1)); [done|]. apply u64_id. lia. }
      rewrite E'. split_and!; [Z.to_euclidean_division_equations; lia|done|done|lia]. }
  destruct Hpos as (Hp1 & Hp2 & Hp3 & Hp4).
  assert (Hrest' : rest (AlignByte r) = to_bits l).
  { unfold rest, l, zdrop. rewrite Hp2, Hp3, <- to_bits_drop. f_equal. lia. }
  split_and!; [|by apply bytes_zdrop| |done|done].
  - unfold align. rewrite <- Hrest at 2. rewrite <- Hrest'. unfold rest. rewrite drop_drop, Hp3, Hd. f_equal.
    rewrite Hp1, Hp2. apply Nat2Z.inj. rewrite Nat2Z.inj_add, Nat2Z.inj_mod, Hlen, !Z2Nat.id by (Z.to_euclidean_division_equations; lia).
    change (Z.of_nat 8) with 8. Z.to_euclidean_division_equations; lia.
  - split; [done|done|done| |rewrite Hp2; lia|done|done]. split; [|done]. rewrite Hp1. Z.to_euclidean_division_equations; lia.
Qed.

Lemma ReadByte_cases data r bits : at_bits data r bits -> exists l,
  align bits = to_bits l /\ bytes l
  /\ match l with
     | [] => ReadByte r = None
     | b :: l' => exists r', ReadByte r = Some (b, r') /\ at_bits data r' (to_bits l')
     end.
Proof.
  intros Hr. destruct (AlignByte_bits _ _ _ Hr) as (l & Ha & Hl & Hr' & Hbit & El). exists l. split_and!; [done..|].
  unfold ReadByte. pose proof Hr' as [Hd Hb Hlen Hbyte _ _ Hrest]. rewrite Hd.
  destruct l as [|b l'].
  - assert (E : br_byteOffset (AlignByte r) = zlen data).
    { pose proof (f_equal zlen El) as E. rewrite zlen_zdrop in E by done. change (zlen (@nil Z)) with 0 in E. lia. }
    by rewrite Z.geb_leb, (proj2 (Z.leb_le _ _)) by lia.
  - assert (E : br_byteOffset (AlignByte r) < zlen data).
    { pose proof (f_equal zlen El) as E. rewrite zlen_zdrop, zlen_cons in E by done. pose proof (zlen_nonneg l'). lia. }
    rewrite Z.geb_leb, (proj2 (Z.leb_gt _ _)) by lia. set (p := br_byteOffset (AlignByte r)) in *.
    assert (Eb : zget data p = b).
    { pose proof (zget_zdrop data p 0 ltac:(lia) ltac:(lia)) as Eg. rewrite <- El, Z.add_0_r in Eg. by rewrite <- Eg. }
    rewrite Eb. eexists. split; [done|].
    assert (Erest : rest ((AlignByte r) <| br_byteOffset := p +! 1 |>) = to_bits l').
    { transitivity (drop (Z.to_nat (8 * u64 (p + 1) + br_bitOffset (AlignByte r))) (to_bits (br_data (AlignByte r)))); [done|].
      rewrite u64_id, Hbit, Hd by lia. replace (Z.to_nat (8 * (p + 1) + 0)) with (8 * S (Z.to_nat p))%nat by lia.
      rewrite to_bits_drop. f_equal. unfold zdrop in El. replace (S (Z.to_nat p)) with (Z.to_nat p + 1)%nat by lia.
      by rewrite <- drop_drop, <- El. }
    split; [done|done|done| |exact (ab_bit _ _ _ Hr')|intros _; exact Hbit|exact Erest].
    change (0 <= u64 (p + 1) <= zlen data). rewrite u64_id by lia. lia.
Qed.

(** A reader at a byte boundary. *)
Lemma ReadByte_next data r b l : at_bits data r (to_bits (b :: l)) -> bytes (b :: l) ->
  exists r', ReadByte r = Some (b, r') /\ at_bits data r' (to_bits l).
Proof.
  intros Hr Hb. destruct (ReadByte_cases _ _ _ Hr) as (l' & E & Hl & Hc). rewrite to_bits_align in E.
  apply to_bits_inj in E as <-; done.
Qed.

(** ** Canonical codes (RFC 1951, section 3.2.2)

    Symbol [s] has a code of [lengths[s]] bits, none when that is 0.  Codes of
    one length are consecutive numbers in the order of their symbols, and the
    first code of a length follows the codes of the shorter lengths. *)

Definition len_of (lengths : list Z) (s : nat) : Z := nth s lengths 0.
Definition count_of (n : Z) (lengths : list Z) : Z := zlen (List.filter (Z.eqb n) lengths).
Definition codes_of (n : Z) (lengths : list Z) : Z := if n =? 0 then 0 else count_of n lengths.
Fixpoint first_code (lengths : list Z) (n : nat) : Z :=
  match n with
  | O => 0
  | S n => 2 * (first_code lengths n + codes_of (Z.of_nat n) lengths)
  end.
Definition code_value (lengths : list Z) (s : nat) : Z :=
  first_code lengths (Z.to_nat (len_of lengths s)) + count_of (len_of lengths s) (take s lengths).

(** The [n] low bits of [v], the most significant first. *)
Fixpoint msb_bits (n : nat) (v : Z) : list bool :=
  match n with
  | O => []
  | S n => msb_bits n (v / 2) ++ [Z.odd v]
  end.
Definition code_bits (lengths : list Z) (s : nat) : list bool :=
  msb_bits (Z.to_nat (len_of lengths s)) (code_value lengths s).
Definition has_code (lengths : list Z) (s : nat) : Prop := (s < length lengths)%nat /\ len_of lengths s <> 0.

(** The sum of [2^-length], in units of [2^-15]: at most one for a set of codes
    of which none is a prefix of another. *)
Definition kraft (lengths : list Z) : Z :=
  foldr (fun length sum => if length =? 0 then sum else 2 ^ (15 - length) + sum) 0 lengths.

Record code_lengths (lengths : list Z) : Prop := {
  cl_range : Forall (fun length => 0 <= length <= 15) lengths;
  cl_count : zlen lengths < 2 ^ 15;
  cl_kraft : kraft lengths <= 2 ^ 15;
}.

Lemma msb_bits_length n v : length (msb_bits n v) = n.
Proof. revert v. induction n as [|n IH]; intros v; [done|]. cbn [msb_bits]. rewrite length_app, IH. cbn. lia. Qed.

Definition msb_value (l : list bool) : Z := foldl (fun v b => 2 * v + Z.b2z b) 0 l.
Lemma msb_value_snoc l b : msb_value (l ++ [b]) = 2 * msb_value l + Z.b2z b.
Proof. unfold msb_value. by rewrite foldl_app. Qed.
Lemma msb_value_app l k : msb_value (l ++ k) = msb_value l * 2 ^ Z.of_nat (length k) + msb_value k.
Proof.
  induction k as [|b k IH] using rev_ind; [rewrite app_nil_r; cbn; lia|].
  rewrite app_assoc, !msb_value_snoc, IH, length_app, Nat2Z.inj_add, Z.pow_add_r by lia. cbn [length]. change (2 ^ Z.of_nat 1) with 2. lia.
Qed.
Lemma msb_value_range l : 0 <= msb_value l < 2 ^ Z.of_nat (length l).
Proof.
  induction l as [|b l IH] using rev_ind; [done|]. rewrite msb_value_snoc, length_app, Nat2Z.inj_add, Z.pow_add_r by lia.
  cbn [length]. change (2 ^ Z.of_nat 1) with 2. destruct b; cbn [Z.b2z]; lia.
Qed.
Lemma odd_div v : v = 2 * (v / 2) + Z.b2z (Z.odd v).
Proof. rewrite <- Z.bit0_odd, Z.bit0_mod. Z.to_euclidean_division_equations; lia. Qed.
Lemma msb_value_bits n v : 0 <= v < 2 ^ Z.of_nat n -> msb_value (msb_bits n v) = v.
Proof.
  revert v. induction n as [|n IH]; intros v Hv; [cbn in *; lia|].
  rewrite Nat2Z.inj_succ, Z.pow_succ_r in Hv by lia. cbn [msb_bits]. rewrite msb_value_snoc, IH; [symmetry; apply odd_div|].
  Z.to_euclidean_division_equations; lia.
Qed.

Lemma u16_id x : 0 <= x < 2 ^ 16 -> u16 x = x.
Proof. apply Z.mod_small. Qed.

Lemma ReverseBits_value n code : 0 <= code < 2 ^ 16 -> 0 <= n <= 15 ->
  ReverseBits code n = bits_value (msb_bits (Z.to_nat n) code).
Proof.
  intros Hc Hn. unfold ReverseBits.
  assert (H : forall m reversed code, 0 <= code < 2 ^ 16 -> 0 <= reversed -> reversed * 2 ^ Z.of_nat m < 2 ^ 16 - 2 ^ Z.of_nat m + 1 ->
    reverse_loop m code reversed = reversed * 2 ^ Z.of_nat m + bits_value (msb_bits m code)).
  { clear. induction m as [|m IH]; intros reversed code Hc Hr Hle; [cbn; lia|]. cbn [reverse_loop msb_bits].
    rewrite Nat2Z.inj_succ, Z.pow_succ_r in Hle by lia. assert (Hp : 0 < 2 ^ Z.of_nat m) by lia.
    rewrite bits_value_app, msb_bits_length. cbn [bits_value]. rewrite Z.mul_0_r, Z.add_0_r.
    rewrite (land_ones_mod _ 1), <- Z.bit0_mod, Z.bit0_odd, Z.shiftr_div_pow2 by lia. change (2 ^ 1) with 2.
    assert (Hb : 0 <= Z.b2z (Z.odd code) <= 1) by (by destruct (Z.odd code)).
    rewrite lor_shiftl by lia. rewrite (u16_id (code / 2)) by (Z.to_euclidean_division_equations; lia).
    rewrite (u16_id (reversed * 2 ^ 1 + _)) by nia.
    rewrite IH; [|Z.to_euclidean_division_equations; lia|lia|change (2 ^ 1) with 2; nia].
    rewrite Nat2Z.inj_succ, Z.pow_succ_r by lia. change (2 ^ 1) with 2. nia. }
  rewrite H; [lia|done|lia|]. assert (2 ^ Z.of_nat (Z.to_nat n) <= 2 ^ 15) by (apply Z.pow_le_mono_r; lia). lia.
Qed.

(** The part of the sum of the lengths below [n]. *)
Definition kraft_below (n : Z) (lengths : list Z) : Z :=
  foldr (fun length sum => if (length =? 0) || (n <=? length) then sum else 2 ^ (15 - length) + sum) 0 lengths.

Lemma count_of_cons n length lengths :
  count_of n (length :: lengths) = (if n =? length then 1 else 0) + count_of n lengths.
Proof. unfold count_of. cbn [List.filter]. destruct (n =? length); rewrite ?zlen_cons; lia. Qed.
Lemma count_of_app n l k : count_of n (l ++ k) = count_of n l + count_of n k.
Proof. induction l as [|x l IH]; [done|]. cbn [app]. rewrite !count_of_cons, IH. lia. Qed.
Lemma count_of_nonneg n lengths : 0 <= count_of n lengths.
Proof. apply zlen_nonneg. Qed.
Lemma count_of_le n lengths : count_of n lengths <= zlen lengths.
Proof. induction lengths as [|x l IH]; [done|]. rewrite count_of_cons, zlen_cons. case_if; lia. Qed.

Lemma kraft_below_le n lengths : Forall (fun length => 0 <= length <= 15) lengths -> kraft_below n lengths <= kraft lengths.
Proof.
  induction 1 as [|x l Hx _ IH]; [done|]. cbn [kraft_below kraft foldr] in *. unfold kraft_below, kraft in *.
  pose proof (Z.pow_nonneg 2 (15 - x)). destruct (x =? 0); cbn [orb]; [done|]. case_if; lia.
Qed.
Lemma kraft_below_step n lengths : 1 <= n <= 15 -> Forall (fun length => 0 <= length <= 15) lengths ->
  kraft_below (n + 1) lengths = kraft_below n lengths + count_of n lengths * 2 ^ (15 - n).
Proof.
  intros Hn. induction 1 as [|x l Hx _ IH]; [done|]. rewrite count_of_cons. unfold kraft_below in *. cbn [foldr].
  destruct (Z.eqb_spec x 0) as [->|H0]; cbn [orb]; [rewrite (proj2 (Z.eqb_neq n 0)) by lia; lia|].
  destruct (Z.eqb_spec n x) as [->|Hne].
  - rewrite (proj2 (Z.leb_gt (x + 1) x)), (proj2 (Z.leb_le x x)) by lia. lia.
  - destruct (Z.leb_spec (n + 1) x), (Z.leb_spec n x); lia.
Qed.
Lemma kraft_below_1 lengths : Forall (fun length => 0 <= length <= 15) lengths -> kraft_below 1 lengths = 0.
Proof.
  induction 1 as [|x l Hx _ IH]; [done|]. unfold kraft_below in *. cbn [foldr].
  destruct (Z.eqb_spec x 0); cbn [orb]; [done|]. by rewrite (proj2 (Z.leb_le 1 x)) by lia.
Qed.

Section Codes.
Variable lengths : list Z.
Hypothesis Hcl : code_lengths lengths.

Lemma first_code_kraft n : (1 <= n <= 15)%nat ->
  first_code lengths n * 2 ^ (15 - Z.of_nat n) = kraft_below (Z.of_nat n) lengths.
Proof using Hcl.
  destruct Hcl as [Hr _ _]. induction n as [|n IH]; intros Hn; [lia|]. destruct (Nat.eq_dec n 0%nat) as [->|Hn0].
  { rewrite kraft_below_1 by done. done. }
  cbn [first_code]. unfold codes_of. rewrite (proj2 (Z.eqb_neq _ _)) by lia.
  replace (Z.of_nat (S n)) with (Z.of_nat n + 1) by lia. rewrite kraft_below_step, <- IH by (done || lia).
  assert (E : 2 ^ (15 - Z.of_nat n) = 2 * 2 ^ (15 - (Z.of_nat n + 1))).
  { rewrite <- Z.pow_succ_r by lia. f_equal. lia. }
  rewrite E. lia.
Qed.

(** The codes of a length fit in it. *)
Lemma codes_fit n : (1 <= n <= 15)%nat ->
  first_code lengths n + count_of (Z.of_nat n) lengths <= 2 ^ Z.of_nat n.
Proof using Hcl.
  intros Hn. pose proof (first_code_kraft n Hn) as E. pose proof Hcl as [Hr _ Hk].
  pose proof (kraft_below_step (Z.of_nat n) lengths ltac:(lia) Hr) as Es.
  pose proof (kraft_below_le (Z.of_nat n + 1) lengths Hr).
  assert (Hp : 0 < 2 ^ (15 - Z.of_nat n)) by lia.
  assert (E15 : 2 ^ 15 = 2 ^ Z.of_nat n * 2 ^ (15 - Z.of_nat n)) by (rewrite <- Z.pow_add_r by lia; f_equal; lia).
  nia.
Qed.

Lemma first_code_nonneg n : 0 <= first_code lengths n.
Proof using.
  clear Hcl. induction n as [|n IH]; [done|]. cbn [first_code]. unfold codes_of. pose proof (count_of_nonneg (Z.of_nat n) lengths).
  case_if; lia.
Qed.

Lemma first_code_next n m : (1 <= n)%nat -> (n < m)%nat ->
  (first_code lengths n + count_of (Z.of_nat n) lengths) * 2 ^ Z.of_nat (m - n) <= first_code lengths m.
Proof using.
  clear Hcl. intros Hn Hm. replace m with (n + (m - n))%nat by lia. assert (Hd : (1 <= m - n)%nat) by lia. clear Hm.
  replace (n + (m - n) - n)%nat with (m - n)%nat by lia. revert Hd. generalize (m - n)%nat as d. clear m.
  induction d as [|d IH]; intros Hd; [lia|]. rewrite Nat.add_succ_r. cbn [first_code]. unfold codes_of.
  rewrite (proj2 (Z.eqb_neq (Z.of_nat (n + d)) 0)), Nat2Z.inj_succ, Z.pow_succ_r by lia.
  destruct (Nat.eq_dec d 0%nat) as [->|Hd0]; [rewrite Nat.add_0_r; change (2 ^ Z.of_nat 0) with 1; lia|].
  specialize (IH ltac:(lia)). pose proof (count_of_nonneg (Z.of_nat (n + d)) lengths). lia.
Qed.

Lemma len_of_range s : (s < length lengths)%nat -> 0 <= len_of lengths s <= 15.
Proof using Hcl.
  intros Hs. destruct Hcl as [Hr _ _]. rewrite List.Forall_forall in Hr. apply Hr, nth_In, Hs.
Qed.

Lemma rank_lt s : (s < length lengths)%nat -> count_of (len_of lengths s) (take s lengths) < count_of (len_of lengths s) lengths.
Proof using.
  clear Hcl. intros Hs. pose proof (count_of_app (len_of lengths s) (take s lengths) (drop s lengths)) as E.
  rewrite take_drop in E. destruct (lookup_lt_is_Some_2 lengths s Hs) as [x Hx].
  assert (El : len_of lengths s = x) by (unfold len_of; by rewrite nth_lookup, Hx).
  rewrite (drop_S lengths x s Hx), count_of_cons, El, Z.eqb_refl in E. rewrite El.
  pose proof (count_of_nonneg x (drop (S s) lengths)). lia.
Qed.
Lemma rank_mono n s s' : (s < s')%nat -> (s' <= length lengths)%nat -> len_of lengths s = n ->
  count_of n (take s lengths) < count_of n (take s' lengths).
Proof using.
  clear Hcl. intros Hs Hs' <-. pose proof (count_of_app (len_of lengths s) (take s lengths) (drop s (take s' lengths))) as E.
  replace (take s lengths) with (take s (take s' lengths)) in E at 1 by (rewrite take_take; f_equal; lia). rewrite take_drop in E.
  destruct (lookup_lt_is_Some_2 (take s' lengths) s) as [x Hx]; [rewrite length_take; lia|].
  assert (El : len_of lengths s = x).
  { unfold len_of. rewrite lookup_take_lt in Hx by lia. by rewrite nth_lookup, Hx. }
  rewrite (drop_S _ x s Hx), count_of_cons, El, Z.eqb_refl in E. rewrite El.
  pose proof (count_of_nonneg x (drop (S s) (take s' lengths))). lia.
Qed.

Lemma code_value_range s : has_code lengths s ->
  first_code lengths (Z.to_nat (len_of lengths s)) <= code_value lengths s
  < first_code lengths (Z.to_nat (len_of lengths s)) + count_of (len_of lengths s) lengths
  /\ 0 <= code_value lengths s < 2 ^ len_of lengths s.
Proof using Hcl.
  intros [Hs Hl]. pose proof (len_of_range s Hs). pose proof (rank_lt s Hs).
  pose proof (count_of_nonneg (len_of lengths s) (take s lengths)). pose proof (first_code_nonneg (Z.to_nat (len_of lengths s))).
  pose proof (codes_fit (Z.to_nat (len_of lengths s)) ltac:(lia)) as Hf. rewrite Z2Nat.id in Hf by lia.
  unfold code_value. lia.
Qed.
Lemma canonical_bits_length s : has_code lengths s -> Z.of_nat (length (code_bits lengths s)) = len_of lengths s.
Proof using Hcl. intros [Hs _]. unfold code_bits. rewrite msb_bits_length. pose proof (len_of_range s Hs). lia. Qed.
Lemma code_bits_value s : has_code lengths s -> msb_value (code_bits lengths s) = code_value lengths s.
Proof using Hcl.
  intros Hs. pose proof (code_value_range s Hs) as [_ Hv]. destruct Hs as [Hs _]. pose proof (len_of_range s Hs).
  unfold code_bits. apply msb_value_bits. rewrite Z2Nat.id by lia. done.
Qed.

(** No code is a prefix of another. *)
Lemma prefix_free s s' tail :
  has_code lengths s -> has_code lengths s' -> code_bits lengths s' = code_bits lengths s ++ tail -> s = s'.
Proof using Hcl.
  intros Hs Hs' E. pose proof (f_equal msb_value E) as Ev. rewrite msb_value_app, !code_bits_value in Ev by done.
  pose proof (f_equal length E) as El. rewrite length_app in El.
  pose proof (canonical_bits_length s Hs) as L. pose proof (canonical_bits_length s' Hs') as L'.
  pose proof (code_value_range s Hs) as [V _]. pose proof (code_value_range s' Hs') as [V' _].
  pose proof (msb_value_range tail) as Ht.
  destruct (Nat.eq_dec (length tail) 0%nat) as [Hz|Hz].
  - destruct tail; [|done]. cbn in Ev. rewrite Z.mul_1_r, Z.add_0_r in Ev.
    assert (En : len_of lengths s' = len_of lengths s) by (cbn in El; lia).
    unfold code_value in Ev. rewrite En in Ev. destruct Hs as [Hs _], Hs' as [Hs' _].
    destruct (Nat.lt_trichotomy s s') as [H|[H|H]]; [|done|].
    + pose proof (rank_mono (len_of lengths s) s s' H ltac:(lia) eq_refl). lia.
    + pose proof (rank_mono (len_of lengths s) s' s H ltac:(lia) En). lia.
  - exfalso. destruct Hs as [Hs Hn0]. pose proof (len_of_range s Hs).
    pose proof (first_code_next (Z.to_nat (len_of lengths s)) (Z.to_nat (len_of lengths s')) ltac:(lia) ltac:(lia)) as Hnext.
    rewrite Z2Nat.id in Hnext by lia.
    replace (Z.to_nat (len_of lengths s') - Z.to_nat (len_of lengths s))%nat with (length tail) in Hnext by lia.
    set (p := 2 ^ Z.of_nat (length tail)) in *. nia.
Qed.
End Codes.

(** ** Building a table *)

Lemma zlen_set l i v : zlen (set l i v) = zlen l.
Proof. unfold set, zlen. by rewrite length_insert. Qed.
Lemma zget_set l i j v : 0 <= i < zlen l -> 0 <= j -> zget (set l i v) j = if i =? j then v else zget l j.
Proof.
  unfold zlen, zget, set. intros Hi Hj. rewrite !nth_lookup. destruct (Z.eqb_spec i j) as [->|Hne].
  - by rewrite list_lookup_insert_eq by lia.
  - by rewrite list_lookup_insert_ne by lia.
Qed.

Definition nonzero (lengths : list Z) : Z := zlen (List.filter (fun length => negb (length =? 0)) lengths).

Lemma count_loop_spec lengths c :
  Forall (fun length => 0 <= length <= 15) lengths -> zlen (co_bitCounts c) = 16 ->
  (forall n, 0 <= n -> 0 <= zget (co_bitCounts c) n) -> (forall n, 0 <= n -> zget (co_bitCounts c) n + zlen lengths < 2 ^ 16) ->
  0 <= co_entryCount c -> co_entryCount c + zlen lengths < 2 ^ 64 -> 0 <= co_maxBits c <= 15 ->
  exists c', count_loop lengths c = Some c' /\ zlen (co_bitCounts c') = 16
  /\ (forall n, 1 <= n <= 15 -> zget (co_bitCounts c') n = zget (co_bitCounts c) n + count_of n lengths)
  /\ zget (co_bitCounts c') 0 = zget (co_bitCounts c) 0
  /\ co_entryCount c' = co_entryCount c + nonzero lengths
  /\ co_maxBits c <= co_maxBits c' <= 15 /\ Forall (fun length => length <= co_maxBits c') lengths.
Proof.
  intros Hr. revert c. induction Hr as [|x l Hx Hr IH]; intros c H16 H0 Hb Hec0 Hec Hm; cbn [count_loop].
  { exists c. split_and!; try (done || lia).
    - intros n _. change (count_of n []) with 0. lia.
    - change (nonzero []) with 0. lia. }
  rewrite zlen_cons in *. pose proof (zlen_nonneg l). unfold MaxCodeBits. rewrite Z.gtb_ltb, (proj2 (Z.ltb_ge _ _)) by lia.
  assert (Hnz : nonzero (x :: l) = (if x =? 0 then 0 else 1) + nonzero l).
  { unfold nonzero. cbn [List.filter]. destruct (x =? 0); cbn [negb]; rewrite ?zlen_cons; lia. }
  rewrite Hnz. destruct (Z.eqb_spec x 0) as [->|Hx0]; cbn [negb].
  - destruct (IH c) as (c' & E & E16 & Ec & E0 & Ee & Em & Ef); [done|done|intros n Hn; specialize (Hb n Hn); lia|done|lia|done|].
    exists c'. split_and!; try done; try lia.
    + intros n Hn. rewrite count_of_cons, (proj2 (Z.eqb_neq n 0)) by lia. by apply Ec.
    + constructor; [lia|done].
  - assert (Hu : u16 (zget (co_bitCounts c) x + 1) = zget (co_bitCounts c) x + 1).
    { apply u16_id. specialize (H0 x ltac:(lia)). specialize (Hb x ltac:(lia)). lia. }
    rewrite Hu, u64_id by lia.
    destruct (IH (MkCounted (set (co_bitCounts c) x (zget (co_bitCounts c) x + 1)) (co_entryCount c + 1)
      (if x >? co_maxBits c then x else co_maxBits c))) as (c' & E & E16 & Ec & E0 & Ee & Em & Ef); cbn [co_bitCounts co_entryCount co_maxBits].
    + by rewrite zlen_set.
    + intros n Hn. rewrite zget_set by lia. pose proof (H0 x ltac:(lia)). pose proof (H0 n Hn). case_if; lia.
    + intros n Hn. rewrite zget_set by lia. pose proof (Hb x ltac:(lia)). pose proof (Hb n Hn). case_if; lia.
    + lia.
    + lia.
    + rewrite Z.gtb_ltb. case_if; lia.
    + cbn [co_bitCounts co_entryCount co_maxBits] in *. exists c'. rewrite Z.gtb_ltb in *. split_and!; try done; try lia.
      * intros n Hn. rewrite Ec, zget_set, count_of_cons by lia. destruct (Z.eqb_spec x n), (Z.eqb_spec n x); subst; lia.
      * rewrite E0, zget_set by lia. by rewrite (proj2 (Z.eqb_neq x 0)).
      * revert Em. case_if; bool_prop; lia.
      * constructor; [revert Em; case_if; bool_prop; lia|done].
Qed.

Lemma next_code_loop_spec lengths bitCounts n bits nextCode :
  code_lengths lengths -> (forall k, 1 <= k <= 15 -> zget bitCounts k = count_of k lengths) -> zget bitCounts 0 = 0 ->
  1 <= bits -> bits + Z.of_nat n = 16 -> zlen nextCode = 16 ->
  (forall k, 1 <= k < bits -> zget nextCode k = first_code lengths (Z.to_nat k)) ->
  let r := next_code_loop n bits (first_code lengths (Z.to_nat (bits - 1))) bitCounts nextCode in
  zlen r = 16 /\ forall k, 1 <= k <= 15 -> zget r k = first_code lengths (Z.to_nat k).
Proof.
  intros Hcl Hc H0. revert bits nextCode. induction n as [|n IH]; intros bits nextCode Hb Hle H16 Hd; cbn [next_code_loop].
  { split; [done|]. intros k Hk. apply Hd. lia. }
  assert (Ecode : u16 (Z.shiftl (first_code lengths (Z.to_nat (bits - 1)) + zget bitCounts (bits - 1)) 1)
                  = first_code lengths (Z.to_nat bits)).
  { replace (Z.to_nat bits) with (S (Z.to_nat (bits - 1))) by lia. cbn [first_code]. unfold codes_of. rewrite Z2Nat.id by lia.
    assert (Eg : zget bitCounts (bits - 1) = if bits - 1 =? 0 then 0 else count_of (bits - 1) lengths).
    { destruct (Z.eqb_spec (bits - 1) 0) as [->|]; [done|]. apply Hc. lia. }
    rewrite Eg, Z.shiftl_mul_pow2, Z.mul_comm by lia. change (2 ^ 1) with 2. apply u16_id.
    pose proof (first_code_nonneg lengths (Z.to_nat (bits - 1))). destruct (Z.eqb_spec (bits - 1) 0) as [Ez|Ez].
    - rewrite Ez. change (first_code lengths (Z.to_nat 0)) with 0. lia.
    - pose proof (codes_fit lengths Hcl (Z.to_nat (bits - 1)) ltac:(lia)) as Hf. rewrite Z2Nat.id in Hf by lia.
      pose proof (count_of_nonneg (bits - 1) lengths). assert (2 ^ (bits - 1) <= 2 ^ 14) by (apply Z.pow_le_mono_r; lia). lia. }
  rewrite Ecode. replace (Z.to_nat bits) with (Z.to_nat (bits + 1 - 1)) by lia. apply IH; [lia|lia|by rewrite zlen_set|].
  intros k Hk. rewrite zget_set by lia. destruct (Z.eqb_spec bits k) as [->|]; [f_equal; lia|]. apply Hd. lia.
Qed.

Definition entry (lengths : list Z) (s : nat) : HuffmanEntry :=
  MkEntry (bits_value (code_bits lengths s)) (Z.of_nat s) (len_of lengths s).

Lemma assign_loop_spec lengths before todo nextCode entries :
  code_lengths lengths -> lengths = before ++ todo -> zlen nextCode = 16 ->
  (forall k, 1 <= k <= 15 -> zget nextCode k = first_code lengths (Z.to_nat k) + count_of k before) ->
  forall e, In e (assign_loop todo (zlen before) nextCode entries) <->
    In e entries \/ exists s, (length before <= s)%nat /\ has_code lengths s /\ e = entry lengths s.
Proof.
  intros Hcl. pose proof Hcl as [Hr Hz _]. revert before nextCode entries.
  induction todo as [|x todo IH]; intros before nextCode entries E H16 Hn e; cbn [assign_loop].
  { split; [by left|]. intros [?|(s & Hs & [Hlt _] & _)]; [done|]. rewrite E, app_nil_r in Hlt. lia. }
  assert (Hlt : (length before < length lengths)%nat) by (rewrite E, length_app; cbn; lia).
  assert (Ex : len_of lengths (length before) = x).
  { unfold len_of. rewrite E, nth_lookup, lookup_app_r, Nat.sub_diag by lia. done. }
  assert (Etake : take (length before) lengths = before) by (rewrite E; apply take_app_length).
  assert (Hx : 0 <= x <= 15) by (rewrite <- Ex; by apply len_of_range).
  assert (E' : lengths = (before ++ [x]) ++ todo) by (by rewrite <- app_assoc).
  assert (Ez : zlen before + 1 = zlen (before ++ [x])) by (by rewrite zlen_app).
  destruct (Z.eqb_spec x 0) as [Hx0|Hx0].
  - rewrite Ez, (IH (before ++ [x])); [|done|done|].
    + rewrite length_app. cbn [length]. split; (intros [?|(s & Hs & Hcode & ->)]; [by left|right]).
      * exists s. split_and!; [lia|done|done].
      * exists s. destruct (Nat.eq_dec s (length before)) as [->|]; [destruct Hcode as [_ Hcode]; lia|]. split_and!; [lia|done|done].
    + intros k Hk. rewrite count_of_app, count_of_cons, (proj2 (Z.eqb_neq k x)) by lia. cbn. rewrite Z.add_0_r. by apply Hn.
  - assert (Hcode : has_code lengths (length before)) by (split; [done|by rewrite Ex]).
    assert (Ev : zget nextCode x = code_value lengths (length before)).
    { rewrite Hn by lia. unfold code_value. by rewrite Ex, Etake. }
    destruct (code_value_range lengths Hcl _ Hcode) as [_ Hv]. rewrite Ex in Hv.
    assert (Hp : 2 ^ x <= 2 ^ 15) by (apply Z.pow_le_mono_r; lia).
    assert (Eentry : MkEntry (ReverseBits (zget nextCode x) x) (u16 (zlen before)) x = entry lengths (length before)).
    { unfold entry. rewrite Ex. f_equal.
      - rewrite Ev, ReverseBits_value by lia. unfold code_bits. by rewrite Ex.
      - apply u16_id. unfold zlen in *. lia. }
    rewrite Eentry, Ev, Ez, (u16_id (code_value lengths (length before) + 1)) by lia.
    rewrite (IH (before ++ [x])); [|done|by rewrite zlen_set|].
    2:{ intros k Hk. rewrite zget_set by lia. rewrite count_of_app, count_of_cons. cbn [count_of].
        destruct (Z.eqb_spec x k) as [<-|Hne].
        - rewrite Z.eqb_refl, <- Ev, Hn by lia. change (count_of x []) with 0. lia.
        - rewrite (proj2 (Z.eqb_neq k x)) by lia. change (count_of k []) with 0. rewrite !Z.add_0_r. by apply Hn. }
    rewrite in_app_iff, length_app. cbn [In length]. split.
    + intros [[?|[<-|[]]]|(s & Hs & Hc & ->)]; [by left|right; by exists (length before)|right; exists s; split_and!; [lia|done|done]].
    + intros [?|(s & Hs & Hc & ->)]; [by do 2 left|]. destruct (Nat.eq_dec s (length before)) as [->|]; [left; right; by left|].
      right. exists s. split_and!; [lia|done|done].
Qed.

(** A table holds exactly the codes of the lengths. *)
Record table_for (lengths : list Z) (t : HuffmanTable) : Prop := {
  tf_entries : forall e, In e (ht_Entries t) <-> exists s, has_code lengths s /\ e = entry lengths s;
  tf_max : 0 <= ht_MaxBits t <= 15;
  tf_long : Forall (fun length => length <= ht_MaxBits t) lengths;
}.

Lemma nonzero_code lengths s : has_code lengths s -> 0 < nonzero lengths.
Proof.
  intros [Hs Hn]. unfold nonzero.
  assert (Hin : In (len_of lengths s) (List.filter (fun length => negb (length =? 0)) lengths)).
  { apply filter_In. split; [by apply nth_In|]. apply negb_true_iff. by apply Z.eqb_neq. }
  destruct (List.filter _ lengths) as [|x l]; [done|]. rewrite zlen_cons. pose proof (zlen_nonneg l). lia.
Qed.

Lemma BuildHuffmanTable_spec memory lengths s :
  code_lengths lengths -> has_code lengths s -> memory Counts = true -> memory Entries = true ->
  exists t, BuildHuffmanTable memory lengths = Ok t /\ table_for lengths t.
Proof.
  intros Hcl Hs M1 M2. pose proof Hcl as [Hr Hz _]. unfold BuildHuffmanTable. rewrite M1, M2. cbn [negb].
  rewrite (proj2 (Z.eqb_neq (zlen lengths) 0)) by (destruct Hs as [Hs _]; unfold zlen; lia).
  assert (Hrep : forall n, zget (replicate 16 0) n = 0).
  { intros n. unfold zget. rewrite nth_lookup. destruct (replicate 16 0 !! Z.to_nat n) as [x|] eqn:E; [|done].
    by apply lookup_replicate in E as [-> _]. }
  destruct (count_loop_spec lengths (MkCounted (replicate 16 0) 0 0)) as (c & -> & H16 & Hc & H0 & He & Hm & Hf);
    cbn [co_bitCounts co_entryCount co_maxBits]; try done; try (intros n _; rewrite Hrep); try lia.
  cbn [co_bitCounts co_entryCount co_maxBits] in *. rewrite Hrep in H0. pose proof (nonzero_code lengths s Hs).
  rewrite (proj2 (Z.eqb_neq _ 0)) by lia. eexists. split; [done|].
  destruct (next_code_loop_spec lengths (co_bitCounts c) 15 1 (replicate 16 0) Hcl) as [N16 N]; try done; try lia.
  { intros k Hk. by rewrite Hc, Hrep, Z.add_0_l by done. }
  cbn [ht_Entries ht_MaxBits] in *. change (first_code lengths (Z.to_nat (1 - 1))) with 0 in *.
  split; cbn [ht_Entries ht_MaxBits]; [|lia|done].
  intros e. change 0 with (zlen (@nil Z)) at 1. rewrite (assign_loop_spec lengths []); [|done|done|done|].
  - cbn [In length]. split; [intros [[]|(k & _ & ? & ?)]; by exists k|intros (k & ? & ?); right; exists k; split_and!; (done || lia)].
  - intros k Hk. change (count_of k []) with 0. rewrite Z.add_0_r. by apply N.
Qed.

Lemma find_entry_spec entries length code :
  match find_entry entries length code with
  | Some symbol => exists e, In e entries /\ he_Length e = length /\ he_Code e = code /\ he_Symbol e = symbol
  | None => forall e, In e entries -> he_Length e = length -> he_Code e = code -> False
  end.
Proof.
  induction entries as [|e entries IH]; [by intros e []|]. cbn [find_entry].
  destruct (Z.eqb_spec (he_Length e) length), (Z.eqb_spec (he_Code e) code); cbn [andb];
    [exists e; split_and!; (done || by left)| | |];
    (destruct (find_entry entries length code); [destruct IH as (e' & ? & ? & ? & ?); exists e'; split_and!; (done || by right)|
      intros e' [<-|Hin] ? ?; [done|by eapply IH]]).
Qed.

Lemma decode_symbol_loop_ok lengths t data bits s pre post r n :
  code_lengths lengths -> table_for lengths t -> has_code lengths s ->
  code_bits lengths s = pre ++ post -> post <> [] -> Z.of_nat (length pre) + Z.of_nat n = ht_MaxBits t ->
  at_bits data r (post ++ bits) ->
  exists r', decode_symbol_loop n (Z.of_nat (length pre) + 1) (bits_value pre) t r = Ok (Z.of_nat s, r')
             /\ at_bits data r' bits.
Proof.
  intros Hcl Ht Hs. pose proof (canonical_bits_length lengths Hcl s Hs) as Hlen.
  assert (Hmax : len_of lengths s <= ht_MaxBits t /\ ht_MaxBits t <= 15).
  { destruct Ht as [_ Hm Hl]. rewrite List.Forall_forall in Hl. destruct Hs as [Hs _]. split; [|lia]. by apply Hl, nth_In. }
  revert pre post r. induction n as [|n IH]; intros pre post r E Hne Hn Hr; rewrite E, length_app in Hlen.
  { destruct post; [done|]. cbn [length] in Hlen. lia. }
  destruct post as [|x post]; [done|]. cbn [decode_symbol_loop length app] in *.
  destruct (ReadBits_ok data [x] (post ++ bits) 1 r Hr) as (r' & -> & Hr'); [done|lia|].
  cbn [reading mbind Result_bind bits_value]. rewrite Z.mul_0_r, Z.add_0_r.
  replace (Z.of_nat (length pre) + 1 - 1) with (Z.of_nat (length pre)) by lia.
  assert (Hpow : 2 ^ Z.of_nat (length pre) <= 2 ^ 14) by (apply Z.pow_le_mono_r; lia).
  pose proof (bits_value_range pre) as Hv. assert (Hx : 0 <= Z.b2z x <= 1) by (by destruct x).
  rewrite (u16_id (Z.b2z x)), Z.lor_comm, lor_shiftl, u16_id by (lia || nia).
  assert (Ev : Z.b2z x * 2 ^ Z.of_nat (length pre) + bits_value pre = bits_value (pre ++ [x])).
  { rewrite bits_value_app. cbn [bits_value]. lia. }
  rewrite Ev. assert (E' : code_bits lengths s = (pre ++ [x]) ++ post) by (by rewrite <- app_assoc).
  pose proof (find_entry_spec (ht_Entries t) (Z.of_nat (length pre) + 1) (bits_value (pre ++ [x]))) as Hf.
  destruct (find_entry _ _ _) as [symbol|].
  - destruct Hf as (e & Hin & Hl & Hc & <-). apply (tf_entries _ _ Ht) in Hin as (s' & Hs' & ->). cbn [entry he_Length he_Code he_Symbol] in *.
    pose proof (canonical_bits_length lengths Hcl s' Hs') as Hlen'.
    apply bits_value_inj in Hc; [|rewrite length_app; cbn [length]; lia].
    assert (s' = s) as -> by (apply (prefix_free lengths Hcl s' s post); [done|done|by rewrite Hc]).
    destruct post; [|rewrite E, length_app in Hlen'; cbn [length] in Hlen'; lia]. exists r'. by split.
  - destruct post as [|y post].
    + exfalso. apply (Hf (entry lengths s)); cbn [entry he_Length he_Code].
      * apply (tf_entries _ _ Ht). by exists s.
      * cbn [length] in Hlen. lia.
      * by rewrite E', app_nil_r.
    + replace (Z.of_nat (length pre) + 1) with (Z.of_nat (length (pre ++ [x]))) by (rewrite length_app; cbn [length]; lia).
      apply (IH (pre ++ [x]) (y :: post)); [done|done|rewrite length_app; cbn [length]; lia|done].
Qed.

(** A symbol whose code comes next is decoded. *)
Lemma DecodeSymbol_ok lengths t data bits s r :
  code_lengths lengths -> table_for lengths t -> has_code lengths s ->
  at_bits data r (code_bits lengths s ++ bits) ->
  exists r', DecodeSymbol r t = Ok (Z.of_nat s, r') /\ at_bits data r' bits.
Proof.
  intros Hcl Ht Hs Hr. unfold DecodeSymbol.
  assert (Hin : In (entry lengths s) (ht_Entries t)) by (apply (tf_entries _ _ Ht); by exists s).
  rewrite (proj2 (Z.eqb_neq _ 0)) by (destruct (ht_Entries t) as [|e l]; [done|]; rewrite zlen_cons; pose proof (zlen_nonneg l); lia).
  pose proof (tf_max _ _ Ht).
  apply (decode_symbol_loop_ok lengths t data bits s [] (code_bits lengths s) r (Z.to_nat (ht_MaxBits t))); try done.
  - intros E. pose proof (canonical_bits_length lengths Hcl s Hs) as Hl. rewrite E in Hl. by destruct Hs.
  - cbn [length]. lia.
Qed.

(** ** The window holds the history

    [H] is everything the context has produced; the window of [size] bytes holds
    its last bytes, the most recent one before the position. *)
Record holds (size : Z) (c : WebSocketDeflateContext) (H : list Z) : Prop := {
  ho_size : exists k, 8 <= k <= 15 /\ size = 2 ^ k;
  ho_some : dc_window c <> None;
  ho_window : window_size c = size;
  ho_mask : dc_windowMask c = size - 1;
  ho_position : 0 <= dc_windowPosition c < size;
  ho_history : dc_historyBytes c = Z.min size (zlen H);
  ho_recent : forall d, 1 <= d <= Z.min size (zlen H) ->
    zget (window c) ((dc_windowPosition c - d) mod size) = zget H (zlen H - d);
}.

Lemma holds_range size c H : holds size c H -> 256 <= size <= 32768.
Proof.
  intros [(k & Hk & ->) _ _ _ _ _ _]. change 256 with (2 ^ 8). change 32768 with (2 ^ 15).
  split; apply Z.pow_le_mono_r; lia.
Qed.
Lemma land_mask size c H x : holds size c H -> Z.land x (dc_windowMask c) = x mod size.
Proof. intros [(k & Hk & ->) _ _ -> _ _ _]. apply land_ones_mod. lia. Qed.
Lemma holds_initialized size c H : holds size c H -> IsInitialized c = true.
Proof.
  intros Hc. pose proof (holds_range _ _ _ Hc). destruct Hc as [_ Hs Hw _ _ _ _]. unfold IsInitialized.
  rewrite bool_decide_true, Hw by done. cbn [andb]. by rewrite (proj2 (Z.eqb_neq size 0)) by lia.
Qed.

Lemma Initialize_holds k c : 8 <= k <= 15 ->
  (Initialize k true c).1 = STATUS_SUCCESS /\ holds (2 ^ k) (Initialize k true c).2 [].
Proof.
  intros Hk. unfold Initialize, MinWindowBits, MaxWindowBits. rewrite Z.gtb_ltb, !(proj2 (Z.ltb_ge _ _)) by lia. cbn [orb negb].
  assert (H15 : 2 ^ 8 <= 2 ^ k <= 2 ^ 15) by (split; apply Z.pow_le_mono_r; lia).
  rewrite Z.shiftl_mul_pow2, Z.mul_1_l by lia. rewrite (u64_id (2 ^ k)), u64_id by lia. split; [done|]. cbn [snd].
  split; cbn [dc_window dc_windowMask dc_windowPosition dc_historyBytes]; try (done || lia).
  - by exists k.
  - unfold window_size, window. cbn [dc_window default from_option]. change (id ?x) with x. rewrite zlen_replicate. lia.
  - change (zlen []) with 0. lia.
  - intros d Hd. change (zlen []) with 0 in Hd. lia.
Qed.

(** Appending a byte, as [EmitByte] does. *)
Definition pushed (size b : Z) (c : WebSocketDeflateContext) : WebSocketDeflateContext :=
  MkContext (Some (set (window c) (dc_windowPosition c) b)) (dc_windowMask c) ((dc_windowPosition c + 1) mod size)
    (Z.min size (dc_historyBytes c + 1)).

Lemma pushed_holds size b c H : holds size c H -> holds size (pushed size b c) (H ++ [b]).
Proof.
  intros Hc. pose proof (holds_range _ _ _ Hc) as Hs. destruct Hc as [Hk Hsome Hw Hm Hp Hh Hr].
  pose proof (zlen_nonneg H). split; cbn [pushed dc_window dc_windowMask dc_windowPosition dc_historyBytes]; try done.
  - transitivity (zlen (set (window c) (dc_windowPosition c) b)); [done|]. by rewrite zlen_set.
  - apply Z.mod_pos_bound. lia.
  - rewrite Hh, zlen_app. change (zlen [b]) with 1. lia.
  - intros d Hd. rewrite zlen_app in *. change (zlen [b]) with 1 in *.
    change (window (pushed size b c)) with (set (window c) (dc_windowPosition c) b).
    assert (Ei : ((dc_windowPosition c + 1) mod size - d) mod size = (dc_windowPosition c + 1 - d) mod size)
      by (by rewrite Zminus_mod_idemp_l).
    rewrite Ei, zget_set by (rewrite ?Hw; unfold window_size in Hw; try lia; apply Z.mod_pos_bound; lia).
    destruct (Z.eq_dec d 1) as [->|Hd1].
    + rewrite Z.add_simpl_r, Z.mod_small, Z.eqb_refl by lia. rewrite zget_app_r by lia.
      replace (zlen H + 1 - 1 - zlen H) with 0 by lia. done.
    + replace (dc_windowPosition c + 1 - d) with (dc_windowPosition c - (d - 1)) by lia.
      rewrite (proj2 (Z.eqb_neq _ _)).
      * rewrite Hr, zget_app_l by lia. f_equal. lia.
      * intros E. assert (Hmod : (d - 1) mod size = 0).
        { replace (d - 1) with (dc_windowPosition c - (dc_windowPosition c - (d - 1))) by lia.
          rewrite Zminus_mod, <- E, (Z.mod_small (dc_windowPosition c)), Z.sub_diag by lia. done. }
        rewrite Z.mod_small in Hmod by lia. lia.
Qed.

Section Output.
Variable capacity encodedLength : Z.
Hypothesis Hcap : 0 <= capacity < 2 ^ 62.
Hypothesis Henc : 0 <= encodedLength < 2 ^ 50.

(** What the limits allow: the capacity, and 1024 bytes for each byte of the
    compressed message when it has one. *)
Definition allowed (n : Z) : Prop :=
  n <= capacity /\ (encodedLength = 0 \/ n <= encodedLength * MaxExpansionRatio).

Lemma EmitByte_ok size b c H output :
  holds size c H -> allowed (zlen output + 1) ->
  EmitByte true capacity encodedLength b c output = (STATUS_SUCCESS, pushed size b c, output ++ [b]).
Proof.
  intros Hc [Hn He]. pose proof (holds_range _ _ _ Hc) as Hs. unfold EmitByte. rewrite (holds_initialized _ _ _ Hc). cbn [negb orb].
  rewrite Z.geb_leb, (proj2 (Z.leb_gt _ _)) by lia. unfold MaxExpansionRatio in *.
  replace (negb (encodedLength =? 0) && (zlen output >=? encodedLength *! 1024)) with false.
  2:{ symmetry. destruct (Z.eqb_spec encodedLength 0); [done|]. cbn [negb andb]. rewrite u64_id, Z.geb_leb by lia. apply Z.leb_gt. lia. }
  f_equal. f_equal. pose proof (land_mask _ _ _ (dc_windowPosition c +! 1) Hc) as Hl.
  destruct Hc as [Hk Hsome Hw Hm Hp Hh Hr]. rewrite Hl, u64_id by lia. unfold pushed. clear Hl.
  destruct c as [w m p h]. cbn [dc_window dc_windowMask dc_windowPosition dc_historyBytes window window_size] in *.
  pose proof (zlen_nonneg H).
  assert (Hw' : window_size (MkContext w m p h) = size) by done. unfold window_size, window in Hw'. cbn [dc_window] in Hw'.
  match goal with |- (if ?t <? ?u then _ else _) = _ => change t with h; replace u with size end.
  2:{ symmetry. unfold window_size, window. cbn. by rewrite zlen_set. }
  destruct (Z.ltb_spec h size).
  - transitivity (MkContext (Some (set (default [] w) p b)) m ((p + 1) mod size) (h +! 1)); [done|].
    rewrite u64_id by lia. rewrite Z.min_r by lia. done.
  - transitivity (MkContext (Some (set (default [] w) p b)) m ((p + 1) mod size) h); [done|].
    rewrite Z.min_l by lia. f_equal. lia.
Qed.

Lemma EmitByte_full size b c H output :
  holds size c H -> ~ allowed (zlen output + 1) ->
  exists status, EmitByte true capacity encodedLength b c output = (status, c, output)
                 /\ (status = STATUS_BUFFER_TOO_SMALL \/ status = STATUS_INVALID_NETWORK_RESPONSE).
Proof.
  intros Hc Hn. unfold EmitByte, allowed, MaxExpansionRatio in *. rewrite (holds_initialized _ _ _ Hc). cbn [negb orb].
  rewrite !Z.geb_leb. destruct (Z.leb_spec capacity (zlen output)); [eauto|]. rewrite u64_id by lia.
  destruct (Z.eqb_spec encodedLength 0); [exfalso; apply Hn; lia|]. cbn [negb andb].
  destruct (Z.leb_spec (encodedLength * 1024) (zlen output)); [eauto|]. exfalso. apply Hn. lia.
Qed.

Lemma allowed_dec n : {allowed n} + {~ allowed n}.
Proof using.
  clear Hcap Henc.
  unfold allowed. destruct (Z_le_dec n capacity), (Z.eq_dec encodedLength 0),
    (Z_le_dec n (encodedLength * MaxExpansionRatio)); (left; tauto) || (right; tauto).
Defined.
Lemma allowed_le n m : allowed m -> n <= m -> allowed n.
Proof using. clear Hcap Henc. unfold allowed. lia. Qed.

(** An operation that appends to output and history alike; [bytes] of the
    history stay bytes, and only the limits of the message stop it early. *)
Record sound (size : Z) (H output : list Z) (r : emitted) (e : list Z) : Prop := {
  so_output : r.2 = output ++ e;
  so_holds : holds size r.1.2 (H ++ e);
  so_bytes : bytes e;
  so_allowed : e = [] \/ allowed (zlen (output ++ e));
  so_status : r.1.1 <> STATUS_OTHER 0;
}.

Lemma sound_nil size c H output status : holds size c H -> status <> STATUS_OTHER 0 ->
  sound size H output (status, c, output) [].
Proof using. clear Hcap Henc. intros Hc Hs. split; cbn [fst snd]; rewrite ?app_nil_r; try done; by left. Qed.
Lemma sound_trans size H output r e1 e2 : bytes e1 -> allowed (zlen (output ++ e1)) ->
  sound size (H ++ e1) (output ++ e1) r e2 -> sound size H output r (e1 ++ e2).
Proof using.
  clear Hcap Henc.
  intros Hb Ha [Ho Hh Hb2 Ha2 Hs]. split; rewrite ?app_assoc; try done.
  - by apply Forall_app.
  - right. destruct Ha2 as [->|?]; [by rewrite app_nil_r|done].
Qed.

Lemma EmitByte_sound size b c H output : holds size c H -> is_byte b ->
  exists e, sound size H output (EmitByte true capacity encodedLength b c output) e
  /\ ((EmitByte true capacity encodedLength b c output).1.1 = STATUS_SUCCESS -> e = [b]).
Proof using Hcap Henc.
  intros Hc Hb. destruct (allowed_dec (zlen output + 1)) as [Ha|Ha].
  - rewrite (EmitByte_ok size b c H) by done. exists [b]. split; [|done].
    split; cbn [fst snd]; [done|by apply pushed_holds|by apply Forall_singleton| |done]. right. by rewrite zlen_app.
  - destruct (EmitByte_full size b c H output Hc Ha) as (status & -> & Hs). exists []. split; [|destruct Hs as [-> | ->]; done].
    apply sound_nil; [done|]. by destruct Hs as [-> | ->].
Qed.

(** [n] bytes, each the one [d] places back: what a match of LZ77 stands for. *)
Fixpoint repeat_back (n : nat) (d : Z) (H : list Z) : list Z :=
  match n with O => [] | S n => let b := zget H (zlen H - d) in b :: repeat_back n d (H ++ [b]) end.

Lemma repeat_back_length n d H : length (repeat_back n d H) = n.
Proof using. clear Hcap Henc. revert H. induction n as [|n IH]; intros H; [done|]. cbn. by rewrite IH. Qed.

Lemma copy_source size c H d : holds size c H -> 1 <= d <= Z.min size (zlen H) ->
  zget (window c) ((dc_windowPosition c - d) mod size) = zget H (zlen H - d).
Proof using. clear Hcap Henc. intros Hc Hd. by apply (ho_recent _ _ _ Hc). Qed.
Lemma pushed_source size b c H d : holds size c H -> 
  Z.land ((dc_windowPosition c - d) mod size +! 1) (dc_windowMask c) = (dc_windowPosition (pushed size b c) - d) mod size.
Proof using.
  clear Hcap Henc.
  intros Hc. pose proof (holds_range _ _ _ Hc). pose proof (Z.mod_pos_bound (dc_windowPosition c - d) size).
  rewrite (land_mask size c H), u64_id, Zplus_mod_idemp_l by (done || lia). cbn [pushed dc_windowPosition].
  rewrite Zminus_mod_idemp_l. f_equal. lia.
Qed.

Lemma copy_loop_ok size n d c H output :
  holds size c H -> 1 <= d <= Z.min size (zlen H) -> allowed (zlen output + Z.of_nat n) ->
  exists c', copy_loop true capacity encodedLength n ((dc_windowPosition c - d) mod size) c output
             = (STATUS_SUCCESS, c', output ++ repeat_back n d H)
             /\ holds size c' (H ++ repeat_back n d H).
Proof using Hcap Henc.
  revert c H output. induction n as [|n IH]; intros c H output Hc Hd Ha; cbn [copy_loop repeat_back].
  { exists c. by rewrite !app_nil_r. }
  cbv zeta. rewrite (copy_source size c H d Hc Hd). set (b := zget H (zlen H - d)).
  rewrite (EmitByte_ok size b c H) by (done || (eapply allowed_le; [done|lia])). cbn [NT_SUCCESS negb].
  change (dc_windowMask (pushed size b c)) with (dc_windowMask c). rewrite (pushed_source size b c H d Hc).
  destruct (IH (pushed size b c) (H ++ [b]) (output ++ [b])) as (c' & -> & Hc').
  - by apply pushed_holds.
  - rewrite zlen_app. change (zlen [b]) with 1. lia.
  - rewrite zlen_app. eapply allowed_le; [done|]. change (zlen [b]) with 1. lia.
  - exists c'. rewrite <- !app_assoc in *. by split.
Qed.

Lemma copy_loop_sound size n d c H output :
  holds size c H -> bytes H -> 1 <= d <= Z.min size (zlen H) ->
  exists e, sound size H output
              (copy_loop true capacity encodedLength n ((dc_windowPosition c - d) mod size) c output) e.
Proof using Hcap Henc.
  revert c H output. induction n as [|n IH]; intros c H output Hc Hb Hd; cbn [copy_loop].
  { exists []. by apply sound_nil. }
  rewrite (copy_source size c H d Hc Hd). set (b := zget H (zlen H - d)).
  assert (Hbyte : is_byte b) by (apply zget_byte; [done|lia]).
  destruct (allowed_dec (zlen output + 1)) as [Ha|Ha].
  - rewrite (EmitByte_ok size b c H) by done. cbn [NT_SUCCESS negb].
    change (dc_windowMask (pushed size b c)) with (dc_windowMask c). rewrite (pushed_source size b c H d Hc).
    destruct (IH (pushed size b c) (H ++ [b]) (output ++ [b])) as (e & He).
    + by apply pushed_holds.
    + apply Forall_app. split; [done|by apply Forall_singleton].
    + rewrite zlen_app. change (zlen [b]) with 1. lia.
    + exists ([b] ++ e). apply sound_trans; [by apply Forall_singleton|by rewrite zlen_app|done].
  - destruct (EmitByte_full size b c H output Hc Ha) as (status & -> & Hs).
    exists []. destruct Hs as [-> | ->]; cbn [NT_SUCCESS negb]; by apply sound_nil.
Qed.

Lemma CopyFromHistory_source size c H d : holds size c H -> 1 <= d <= Z.min size (zlen H) ->
  Z.land ((dc_windowPosition c +! size) -! d) (dc_windowMask c) = (dc_windowPosition c - d) mod size.
Proof using.
  clear Hcap Henc.
  intros Hc Hd. pose proof (holds_range _ _ _ Hc). rewrite (land_mask size c H) by done.
  pose proof (ho_position _ _ _ Hc). rewrite (u64_id (_ + _)), u64_id by lia.
  replace (dc_windowPosition c + size - d) with (dc_windowPosition c - d + 1 * size) by lia. by rewrite Z.mod_add by lia.
Qed.

Lemma CopyFromHistory_ok size d n c H output :
  holds size c H -> 1 <= d <= Z.min size (zlen H) -> 0 <= n -> allowed (zlen output + n) ->
  exists c', CopyFromHistory true capacity encodedLength d n c output
             = (STATUS_SUCCESS, c', output ++ repeat_back (Z.to_nat n) d H)
             /\ holds size c' (H ++ repeat_back (Z.to_nat n) d H).
Proof using Hcap Henc.
  intros Hc Hd Hn Ha. unfold CopyFromHistory. rewrite (holds_initialized _ _ _ Hc). cbn [negb orb].
  rewrite (proj2 (Z.eqb_neq d 0)), !Z.gtb_ltb by lia.
  rewrite (ho_history _ _ _ Hc), (ho_window _ _ _ Hc), !(proj2 (Z.ltb_ge _ _)) by lia. cbn [orb].
  rewrite (CopyFromHistory_source size c H d Hc Hd).
  apply copy_loop_ok; [done|done|]. by rewrite Z2Nat.id.
Qed.
Lemma CopyFromHistory_sound size d n c H output :
  holds size c H -> bytes H -> 0 <= d ->
  exists e, sound size H output (CopyFromHistory true capacity encodedLength d n c output) e.
Proof using Hcap Henc.
  intros Hc Hb Hd. unfold CopyFromHistory. rewrite (holds_initialized _ _ _ Hc). cbn [negb orb].
  destruct (Z.eqb_spec d 0); [exists []; by apply sound_nil|]. rewrite !Z.gtb_ltb, (ho_history _ _ _ Hc), (ho_window _ _ _ Hc).
  destruct (Z.ltb_spec (Z.min size (zlen H)) d); [exists []; by apply sound_nil|].
  rewrite (proj2 (Z.ltb_ge _ _)) by lia. cbn [orb]. rewrite (CopyFromHistory_source size c H d Hc) by lia.
  apply copy_loop_sound; [done|done|lia].
Qed.
End Output.

(** ** What a compressed message means (RFC 1951)

    Relations between the bits before the decoder, the history, the bytes that
    these bits stand for, and the bits after them. *)

Inductive compressed (size : Z) (lit dist : list Z) : list bool -> list Z -> list Z -> list bool -> Prop :=
  | compressed_end H bits :
      has_code lit 256 -> compressed size lit dist (code_bits lit 256 ++ bits) H [] bits
  | compressed_literal s H e bits bits' :
      (s < 256)%nat -> has_code lit s ->
      compressed size lit dist bits (H ++ [Z.of_nat s]) e bits' ->
      compressed size lit dist (code_bits lit s ++ bits) H (Z.of_nat s :: e) bits'
  | compressed_match s t le de n d H e bits bits' :
      (257 <= s <= 285)%nat -> has_code lit s -> (t < 30)%nat -> has_code dist t ->
      Z.of_nat (length le) = zget LengthExtra (Z.of_nat s - 257) ->
      Z.of_nat (length de) = zget DistanceExtra (Z.of_nat t) ->
      n = zget LengthBase (Z.of_nat s - 257) + bits_value le ->
      d = zget DistanceBase (Z.of_nat t) + bits_value de ->
      d <= Z.min size (zlen H) ->
      compressed size lit dist bits (H ++ repeat_back (Z.to_nat n) d H) e bits' ->
      compressed size lit dist (code_bits lit s ++ le ++ code_bits dist t ++ de ++ bits) H
        (repeat_back (Z.to_nat n) d H ++ e) bits'.

(** The lengths of a dynamic table: [l] so far, [all] of them in the end. *)
Inductive lengths_coded (cl : list Z) (count : Z) : list bool -> list Z -> list Z -> list bool -> Prop :=
  | lengths_done l bits : zlen l = count -> lengths_coded cl count bits l l bits
  | lengths_one s l all bits bits' :
      zlen l < count -> (s <= 15)%nat -> has_code cl s ->
      lengths_coded cl count bits (l ++ [Z.of_nat s]) all bits' ->
      lengths_coded cl count (code_bits cl s ++ bits) l all bits'
  | lengths_again x n l all bits bits' :
      zlen l < count -> has_code cl 16 -> length x = 2%nat -> n = bits_value x + 3 -> l <> [] ->
      n <= count - zlen l ->
      lengths_coded cl count bits (l ++ replicate (Z.to_nat n) (zget l (zlen l - 1))) all bits' ->
      lengths_coded cl count (code_bits cl 16 ++ x ++ bits) l all bits'
  | lengths_zeros s x n l all bits bits' :
      zlen l < count -> (s = 17 /\ length x = 3 \/ s = 18 /\ length x = 7)%nat -> has_code cl s ->
      n = bits_value x + (if (s =? 17)%nat then 3 else 11) -> n <= count - zlen l ->
      lengths_coded cl count bits (l ++ replicate (Z.to_nat n) 0) all bits' ->
      lengths_coded cl count (code_bits cl s ++ x ++ bits) l all bits'.

(** The lengths of the code length code, three bits each, in their order. *)
Definition code_length_lengths (triples : list (list bool)) : list Z :=
  foldl (fun lengths '(place, x) => set lengths place (bits_value x)) (replicate 19 0) (zip CodeLengthOrder triples).

Inductive dynamic_tables : list bool -> list Z -> list Z -> list bool -> Prop :=
  | dynamic_intro hlit hdist hclen triples all bits bits' :
      length hlit = 5%nat -> length hdist = 5%nat -> length hclen = 4%nat ->
      bits_value hlit + 257 <= 288 ->
      Forall (fun x => length x = 3%nat) triples -> zlen triples = bits_value hclen + 4 ->
      code_lengths (code_length_lengths triples) ->
      lengths_coded (code_length_lengths triples) (bits_value hlit + 257 + (bits_value hdist + 1)) bits [] all bits' ->
      code_lengths (ztake (bits_value hlit + 257) all) -> code_lengths (zdrop (bits_value hlit + 257) all) ->
      has_code (ztake (bits_value hlit + 257) all) 256 ->
      dynamic_tables (hlit ++ hdist ++ hclen ++ concat triples ++ bits)
        (ztake (bits_value hlit + 257) all) (zdrop (bits_value hlit + 257) all) bits'.

(** A length of two bytes and its complement. *)
Definition stored_prefix (n : Z) : list Z := [n mod 256; n / 256; (65535 - n) mod 256; (65535 - n) / 256].

(** Whether a block is the last is not used: the message ends with its bits. *)
Inductive block (size : Z) : list bool -> list Z -> list Z -> list bool -> Prop :=
  | block_stored final bits H e after :
      bytes e -> zlen e < 65536 -> bytes after ->
      align bits = to_bits (stored_prefix (zlen e) ++ e ++ after) ->
      block size (final :: false :: false :: bits) H e (to_bits after)
  | block_fixed final bits H e bits' :
      compressed size fixed_literal_lengths fixed_distance_lengths bits H e bits' ->
      block size (final :: true :: false :: bits) H e bits'
  | block_dynamic final bits lit dist bits1 H e bits' :
      dynamic_tables bits lit dist bits1 -> compressed size lit dist bits1 H e bits' ->
      block size (final :: false :: true :: bits) H e bits'.

Inductive message (size : Z) : list bool -> list Z -> list Z -> Prop :=
  | message_end H : message size [] H []
  | message_block bits bits' H e e' :
      block size bits H e bits' -> message size bits' (H ++ e) e' -> message size bits H (e ++ e').

(** ** Decoding *)

Lemma list_range (l : list Z) lo hi i : lo <= 0 <= hi -> Forall (fun x => lo <= x <= hi) l -> lo <= zget l i <= hi.
Proof.
  intros H0 Hl. unfold zget. rewrite nth_lookup. destruct (l !! Z.to_nat i) as [x|] eqn:E; [|done].
  rewrite Forall_lookup in Hl. by apply (Hl (Z.to_nat i)).
Qed.
Lemma zget_range l lo hi i : lo <= 0 <= hi -> forallb (fun x => (lo <=? x) && (x <=? hi)) l = true -> lo <= zget l i <= hi.
Proof.
  intros H0 Hl. apply list_range; [done|]. apply List.Forall_forall. intros x Hx. rewrite List.forallb_forall in Hl.
  apply Hl in Hx. lia.
Qed.
Lemma extra_bits_range i : 0 <= zget LengthExtra i <= 5 /\ 0 <= zget DistanceExtra i <= 13.
Proof. split; by apply zget_range. Qed.
Lemma base_range i : 0 <= zget LengthBase i <= 258 /\ 0 <= zget DistanceBase i <= 24577.
Proof. split; by apply zget_range. Qed.

Lemma read_extra_ok data base n x bits r :
  at_bits data r (x ++ bits) -> Z.of_nat (length x) = n -> n <= 16 -> 0 <= base < 2 ^ 20 ->
  exists r', read_extra base n r = Ok (base + bits_value x, r') /\ at_bits data r' bits.
Proof.
  intros Hr Hn Hle Hb. unfold read_extra. destruct (Z.eqb_spec n 0) as [E|E]; cbn [negb].
  - destruct x; [|cbn [length] in Hn; lia]. exists r. cbn [bits_value]. by rewrite Z.add_0_r.
  - destruct (ReadBits_ok data x bits n r Hr Hn Hle) as (r' & -> & Hr'). cbn [reading mbind Result_bind].
    pose proof (bits_value_range x). assert (2 ^ Z.of_nat (length x) <= 2 ^ 16) by (apply Z.pow_le_mono_r; lia).
    rewrite u64_id by lia. by exists r'.
Qed.

Section Complete.
Variable data : list Z.
Variable size capacity encodedLength : Z.
Hypothesis Hcap : 0 <= capacity < 2 ^ 62.
Hypothesis Henc : 0 <= encodedLength < 2 ^ 50.

(** The table of a set of lengths, which is there when it has a code. *)
Definition usable (lengths : list Z) (t : HuffmanTable) : Prop :=
  code_lengths lengths /\ forall s, has_code lengths s -> table_for lengths t.

Lemma usable_entries lengths t s : usable lengths t -> has_code lengths s -> zlen (ht_Entries t) <> 0.
Proof using.
  clear. intros [_ Ht] Hs. specialize (Ht s Hs).
  assert (Hin : In (entry lengths s) (ht_Entries t)) by (apply (tf_entries _ _ Ht); by exists s).
  destruct (ht_Entries t) as [|x l]; [done|]. rewrite zlen_cons. pose proof (zlen_nonneg l). lia.
Qed.

Lemma read_match_ok lit dist distTable s t le de bits r :
  usable dist distTable -> (257 <= s <= 285)%nat -> (t < 30)%nat -> has_code dist t ->
  Z.of_nat (length le) = zget LengthExtra (Z.of_nat s - 257) ->
  Z.of_nat (length de) = zget DistanceExtra (Z.of_nat t) ->
  at_bits data r (le ++ code_bits dist t ++ de ++ bits) -> code_lengths lit ->
  exists r', read_match (Z.of_nat s) distTable r
    = Ok (zget LengthBase (Z.of_nat s - 257) + bits_value le, zget DistanceBase (Z.of_nat t) + bits_value de, r')
    /\ at_bits data r' bits.
Proof using.
  intros Hd Hs Ht Hcode Hle Hde Hr _. unfold read_match.
  pose proof (extra_bits_range (Z.of_nat s - 257)) as [X1 _]. pose proof (extra_bits_range (Z.of_nat t)) as [_ X2].
  pose proof (base_range (Z.of_nat s - 257)) as [B1 _]. pose proof (base_range (Z.of_nat t)) as [_ B2].
  destruct (read_extra_ok data (zget LengthBase (Z.of_nat s - 257)) _ le _ r Hr Hle) as (r1 & -> & Hr1); [lia|lia|].
  cbn [mbind Result_bind]. rewrite (proj2 (Z.eqb_neq _ 0)) by (by eapply usable_entries).
  destruct Hd as [Hcl Htab]. destruct (DecodeSymbol_ok dist distTable data _ t r1 Hcl (Htab t Hcode) Hcode Hr1) as (r2 & -> & Hr2).
  cbn [mbind Result_bind]. rewrite Z.geb_leb, (proj2 (Z.leb_gt _ _)) by lia.
  destruct (read_extra_ok data (zget DistanceBase (Z.of_nat t)) _ de _ r2 Hr2 Hde) as (r3 & -> & Hr3); [lia|lia|].
  cbn [mbind Result_bind]. by exists r3.
Qed.

Lemma code_bits_nonempty lengths s : code_lengths lengths -> has_code lengths s -> (0 < length (code_bits lengths s))%nat.
Proof using.
  intros Hcl Hs. pose proof (canonical_bits_length lengths Hcl s Hs). destruct Hs as [Hs Hn].
  pose proof (len_of_range lengths Hcl s Hs). lia.
Qed.

Lemma DecodeCompressedBlock_ok lit dist litTable distTable bits H e bits' fuel r c output :
  usable lit litTable -> usable dist distTable ->
  compressed size lit dist bits H e bits' -> (length bits < fuel)%nat ->
  at_bits data r bits -> holds size c H -> allowed capacity encodedLength (zlen output + zlen e) ->
  exists r' c', DecodeCompressedBlock true capacity encodedLength fuel litTable distTable r c output
                = (Ok r', c', output ++ e)
    /\ at_bits data r' bits' /\ holds size c' (H ++ e).
Proof using Hcap Henc.
  intros Hl Hd Hc. revert fuel r c output. pose proof Hl as [Hcl Htab].
  induction Hc as [H bits Hend|s H e bits bits' Hs Hcode _ IH|s t le de n d H e bits bits' Hs Hcode Ht Htcode Hle Hde Hn Hdd Hdle _ IH];
    intros [|fuel] r c output Hf Hr Hh Ha; try lia; cbn [DecodeCompressedBlock].
  - destruct (DecodeSymbol_ok lit litTable data _ 256 r Hcl (Htab 256%nat Hend) Hend Hr) as (r' & -> & Hr').
    exists r', c. rewrite !app_nil_r. by split_and!.
  - destruct (DecodeSymbol_ok lit litTable data _ s r Hcl (Htab s Hcode) Hcode Hr) as (r' & -> & Hr').
    rewrite (proj2 (Z.ltb_lt _ _)) by lia. rewrite zlen_cons in Ha. pose proof (zlen_nonneg e).
    assert (Eb : u8 (Z.of_nat s) = Z.of_nat s) by (apply Z.mod_small; lia). rewrite Eb.
    rewrite (EmitByte_ok capacity encodedLength Henc size (Z.of_nat s) c H) by (done || (eapply allowed_le; [exact Ha|lia])).
    cbn [NT_SUCCESS negb]. pose proof (code_bits_nonempty lit s Hcl Hcode) as Hne. rewrite length_app in Hf.
    destruct (IH fuel r' (pushed size (Z.of_nat s) c) (output ++ [Z.of_nat s])) as (r'' & c' & -> & Hr'' & Hh'');
      [lia|done|by apply pushed_holds|eapply allowed_le; [exact Ha|rewrite zlen_app; change (zlen [_]) with 1; lia]|].
    exists r'', c'. rewrite <- !app_assoc in *. by split_and!.
  - destruct (DecodeSymbol_ok lit litTable data _ s r Hcl (Htab s Hcode) Hcode Hr) as (r' & -> & Hr').
    rewrite (proj2 (Z.ltb_ge _ _)), (proj2 (Z.eqb_neq _ _)), (proj2 (Z.leb_le _ _)) by lia.
    destruct (read_match_ok lit dist distTable s t le de bits r') as (r2 & -> & Hr2); [done..|]. rewrite <- Hn, <- Hdd.
    rewrite zlen_app in Ha. pose proof (zlen_nonneg e). pose proof (bits_value_range le). pose proof (bits_value_range de).
    pose proof (base_range (Z.of_nat s - 257)) as [B1 _].
    assert (B2 : 1 <= zget DistanceBase (Z.of_nat t)).
    { assert (Hall : forallb (fun i => 1 <=? zget DistanceBase i) (seqZ 0 30) = true) by done.
      rewrite List.forallb_forall in Hall. apply Z.leb_le, (Hall (Z.of_nat t)), list_elem_of_In, elem_of_seqZ. lia. }
    assert (Hlen : zlen (repeat_back (Z.to_nat n) d H) = n) by (unfold zlen; rewrite repeat_back_length; lia).
    destruct (CopyFromHistory_ok capacity encodedLength Hcap Henc size d n c H output) as (c1 & -> & Hc1);
      [done|lia|lia|eapply allowed_le; [exact Ha|lia]|].
    cbn [NT_SUCCESS negb]. pose proof (code_bits_nonempty lit s Hcl Hcode) as Hne. rewrite !length_app in Hf.
    destruct (IH fuel r2 c1 (output ++ repeat_back (Z.to_nat n) d H)) as (r3 & c' & -> & Hr3 & Hh3);
      [lia|done|done|eapply allowed_le; [exact Ha|rewrite zlen_app; lia]|].
    exists r3, c'. rewrite <- !app_assoc in *. by split_and!.
Qed.

Variable memory : site -> bool.
Hypothesis Hmem : forall place, memory place = true.

Lemma BuildHuffmanTable_usable lengths s : code_lengths lengths -> has_code lengths s ->
  exists t, BuildHuffmanTable memory lengths = Ok t /\ usable lengths t.
Proof using Hmem.
  intros Hcl Hs. destruct (BuildHuffmanTable_spec memory lengths s Hcl Hs) as (t & E & Ht); [done|done|].
  exists t. by split.
Qed.

Lemma fixed_lengths_ok : code_lengths fixed_literal_lengths /\ code_lengths fixed_distance_lengths.
Proof using.
  split; split; try (by vm_compute); apply List.Forall_forall; intros x Hx.
  - assert (H : forallb (fun x => (0 <=? x) && (x <=? 15)) fixed_literal_lengths = true) by (by vm_compute).
    rewrite List.forallb_forall in H. apply H in Hx. lia.
  - assert (H : forallb (fun x => (0 <=? x) && (x <=? 15)) fixed_distance_lengths = true) by (by vm_compute).
    rewrite List.forallb_forall in H. apply H in Hx. lia.
Qed.

Lemma BuildFixedTables_ok : exists lt dt, BuildFixedTables memory = Ok (lt, dt)
  /\ usable fixed_literal_lengths lt /\ usable fixed_distance_lengths dt.
Proof using Hmem.
  destruct fixed_lengths_ok as [Hl Hd]. unfold BuildFixedTables. rewrite Hmem. cbn [negb].
  destruct (BuildHuffmanTable_usable fixed_literal_lengths 256 Hl) as (lt & -> & Hlt); [split; [cbn; lia|by vm_compute]|].
  destruct (BuildHuffmanTable_usable fixed_distance_lengths 0 Hd) as (dt & -> & Hdt); [split; [cbn; lia|by vm_compute]|].
  cbn [mbind Result_bind]. by exists lt, dt.
Qed.

Lemma code_length_loop_ok order triples lengths bits r :
  length order = length triples -> Forall (fun x => length x = 3%nat) triples ->
  at_bits data r (concat triples ++ bits) ->
  exists r', code_length_loop order lengths r
    = Ok (foldl (fun lengths '(place, x) => set lengths place (bits_value x)) lengths (zip order triples), r')
    /\ at_bits data r' bits.
Proof using.
  intros Hlen Ht. revert order lengths r Hlen. induction Ht as [|x triples Hx _ IH]; intros [|place order] lengths r Hlen Hr; try done.
  { by exists r. }
  cbn [concat] in Hr. rewrite <- app_assoc in Hr. cbn [code_length_loop].
  destruct (ReadBits_ok data x _ 3 r Hr) as (r' & -> & Hr'); [lia|lia|]. cbn [reading mbind Result_bind].
  assert (Eu : u8 (bits_value x) = bits_value x).
  { apply Z.mod_small. pose proof (bits_value_range x) as Hv. rewrite Hx in Hv. change (2 ^ Z.of_nat 3) with 8 in Hv. lia. }
  rewrite Eu. cbn [length] in Hlen. apply IH; [lia|done].
Qed.

Lemma all_lengths_loop_ok cl table count bits l all bits' fuel r :
  usable cl table -> lengths_coded cl count bits l all bits' -> count < 2 ^ 10 ->
  count - zlen l <= Z.of_nat fuel -> at_bits data r bits ->
  exists r', all_lengths_loop fuel count table l r = Ok (all, r') /\ at_bits data r' bits'.
Proof using.
  intros [Hcl Htab] Hc Hcount. revert fuel r.
  induction Hc as [l bits Hl|s l all bits bits' Hlt Hs Hcode _ IH|x n l all bits bits' Hlt Hcode Hx Hn Hl Hle _ IH
                  |s x n l all bits bits' Hlt Hs Hcode Hn Hle _ IH]; intros fuel r Hf Hr; pose proof (zlen_nonneg l).
  - exists r. split; [|done]. destruct fuel; cbn [all_lengths_loop]; by rewrite (proj2 (Z.ltb_ge _ _)) by lia.
  - destruct fuel as [|fuel]; [lia|]. cbn [all_lengths_loop]. rewrite (proj2 (Z.ltb_lt _ _)) by lia. cbn [negb].
    destruct (DecodeSymbol_ok cl table data _ s r Hcl (Htab s Hcode) Hcode Hr) as (r' & -> & Hr'). cbn [mbind Result_bind].
    rewrite (proj2 (Z.leb_le _ _)) by lia. assert (Eu : u8 (Z.of_nat s) = Z.of_nat s) by (apply Z.mod_small; lia). rewrite Eu.
    apply IH; [|done]. rewrite zlen_app. change (zlen [_]) with 1. lia.
  - destruct fuel as [|fuel]; [lia|]. cbn [all_lengths_loop]. rewrite (proj2 (Z.ltb_lt _ _)) by lia. cbn [negb].
    destruct (DecodeSymbol_ok cl table data _ 16 r Hcl (Htab 16%nat Hcode) Hcode Hr) as (r' & -> & Hr'). cbn [mbind Result_bind].
    change (Z.of_nat 16 <=? 15) with false. change (Z.of_nat 16 =? 16) with true. cbv iota.
    assert (Hpos : 1 <= zlen l) by (unfold zlen; destruct l; cbn [length]; (done || lia)).
    rewrite (proj2 (Z.eqb_neq (zlen l) 0)) by lia.
    destruct (ReadBits_ok data x _ 2 r' Hr') as (r2 & -> & Hr2); [lia|lia|]. cbn [reading mbind Result_bind].
    pose proof (bits_value_range x) as Hv. rewrite Hx in Hv. change (2 ^ Z.of_nat 2) with 4 in Hv.
    rewrite (u64_id (bits_value x + 3)), <- Hn by lia. rewrite (u64_id (count - zlen l)) by lia.
    rewrite Z.gtb_ltb, (proj2 (Z.ltb_ge _ _)), (u64_id (zlen l - 1)) by lia.
    apply IH; [|done]. rewrite zlen_app, zlen_replicate. lia.
  - destruct fuel as [|fuel]; [lia|]. cbn [all_lengths_loop]. rewrite (proj2 (Z.ltb_lt _ _)) by lia. cbn [negb].
    destruct (DecodeSymbol_ok cl table data _ s r Hcl (Htab s Hcode) Hcode Hr) as (r' & -> & Hr'). cbn [mbind Result_bind].
    rewrite (proj2 (Z.leb_gt _ _)), (proj2 (Z.eqb_neq (Z.of_nat s) 16)) by lia.
    destruct (ReadBits_ok data x bits (if Z.of_nat s =? 17 then 3 else 7) r' Hr') as (r2 & E & Hr2).
    { destruct Hs as [[-> ->]|[-> ->]]; done. }
    { case_if; lia. }
    pose proof (bits_value_range x) as Hv. assert (Hp : 2 ^ Z.of_nat (length x) <= 2 ^ 7) by (apply Z.pow_le_mono_r; lia).
    replace ((Z.of_nat s =? 17) || (Z.of_nat s =? 18)) with true by (by destruct Hs as [[-> _]|[-> _]]).
    rewrite E. cbn [reading mbind Result_bind].
    assert (En : bits_value x +! (if Z.of_nat s =? 17 then 3 else 11) = n).
    { rewrite Hn. replace (s =? 17)%nat with (Z.of_nat s =? 17) by (by destruct Hs as [[-> _]|[-> _]]). apply u64_id. case_if; lia. }
    rewrite En, (u64_id (count - _)), Z.gtb_ltb, (proj2 (Z.ltb_ge _ _)) by lia.
    apply IH; [|done]. rewrite zlen_app, zlen_replicate. assert (3 <= n) by (rewrite Hn; case_if; lia). lia.
Qed.

Lemma nonzero_existsb lengths :
  existsb (fun length => negb (length =? 0)) lengths = true <-> exists s, has_code lengths s.
Proof using.
  rewrite existsb_exists. unfold has_code, len_of. split.
  - intros (x & Hin & Hx). apply negb_true_iff, Z.eqb_neq in Hx. apply (In_nth _ _ 0) in Hin as (s & Hs & E).
    exists s. split; [done|by rewrite E].
  - intros (s & Hs & Hn). exists (nth s lengths 0). split; [by apply nth_In|]. by apply negb_true_iff, Z.eqb_neq.
Qed.

Lemma lengths_coded_size cl count bits l all bits' : lengths_coded cl count bits l all bits' -> zlen all = count.
Proof using. by induction 1. Qed.

Lemma lengths_coded_code cl count bits l all bits' :
  lengths_coded cl count bits l all bits' -> zlen l < count -> exists s, has_code cl s.
Proof using. destruct 1; intros ?; [lia|eauto..]. Qed.

Lemma dynamic_tables_range bits lit dist bits' : dynamic_tables bits lit dist bits' ->
  code_lengths lit /\ code_lengths dist.
Proof using. by destruct 1. Qed.

Lemma ReadDynamicTables_ok bits lit dist bits' r :
  dynamic_tables bits lit dist bits' -> at_bits data r bits ->
  exists lt dt r', ReadDynamicTables memory r = Ok (lt, dt, r') /\ usable lit lt /\ usable dist dt /\ at_bits data r' bits'.
Proof using Hmem.
  intros Hd Hr. destruct Hd as [hlit hdist hclen triples all bits bits' Hl5 Hd5 Hc4 H288 Ht Hn Hcl Hcoded Hlit Hdist H256].
  unfold ReadDynamicTables. pose proof (bits_value_range hlit) as V1. rewrite Hl5 in V1.
  pose proof (bits_value_range hdist) as V2. rewrite Hd5 in V2. pose proof (bits_value_range hclen) as V3. rewrite Hc4 in V3.
  change (2 ^ Z.of_nat 5) with 32 in *. change (2 ^ Z.of_nat 4) with 16 in *.
  destruct (ReadBits_ok data hlit _ 5 r Hr) as (r1 & -> & Hr1); [lia|lia|]. cbn [reading mbind Result_bind].
  destruct (ReadBits_ok data hdist _ 5 r1 Hr1) as (r2 & -> & Hr2); [lia|lia|]. cbn [reading mbind Result_bind].
  destruct (ReadBits_ok data hclen _ 4 r2 Hr2) as (r3 & -> & Hr3); [lia|lia|]. cbn [reading mbind Result_bind].
  rewrite !u64_id by (rewrite ?u64_id; lia). unfold MaxLiteralLengthCodes, MaxDistanceCodes.
  rewrite !Z.gtb_ltb, !(proj2 (Z.ltb_ge _ _)) by lia. cbn [orb]. rewrite Hmem. cbn [negb].
  destruct (code_length_loop_ok (ztake (bits_value hclen + 4) CodeLengthOrder) triples (replicate 19 0) bits r3) as (r4 & E4 & Hr4).
  { unfold ztake. rewrite length_take. unfold zlen in Hn. cbn [CodeLengthOrder length]. lia. }
  { done. } { done. }
  assert (Ezip : zip (ztake (bits_value hclen + 4) CodeLengthOrder) triples = zip CodeLengthOrder triples).
  { unfold ztake. rewrite <- Hn. unfold zlen. rewrite Nat2Z.id. clear. generalize CodeLengthOrder as order. intros order.
    revert order. induction triples as [|x triples IH]; intros [|place order]; try done. cbn [length take zip_with]. by rewrite IH. }
  change (Z.to_nat MaxCodeLengthCodes) with 19%nat. rewrite E4, Ezip. cbn [mbind Result_bind].
  change (foldl _ (replicate 19 0) (zip CodeLengthOrder triples)) with (code_length_lengths triples).
  pose proof (lengths_coded_size _ _ _ _ _ _ Hcoded) as Hsize.
  destruct (lengths_coded_code _ _ _ _ _ _ Hcoded) as (s & Hs); [change (zlen []) with 0; lia|].
  destruct (BuildHuffmanTable_usable _ s Hcl Hs) as (ct & -> & Hct). cbn [mbind Result_bind].
  destruct (all_lengths_loop_ok _ ct _ _ _ _ _ (Z.to_nat (bits_value hlit + 257 + (bits_value hdist + 1))) r4 Hct Hcoded)
    as (r5 & -> & Hr5); [lia|change (zlen []) with 0; lia|done|]. cbn [mbind Result_bind].
  destruct (BuildHuffmanTable_usable _ 256 Hlit H256) as (lt & -> & Hlt). cbn [mbind Result_bind].
  destruct (existsb _ (zdrop (bits_value hlit + 257) all)) eqn:Ed; cbn [negb].
  - apply nonzero_existsb in Ed as (s' & Hs'). destruct (BuildHuffmanTable_usable _ s' Hdist Hs') as (dt & -> & Hdt).
    cbn [mbind Result_bind]. by exists lt, dt, r5.
  - exists lt, empty_table, r5. split_and!; [done|done| |done]. split; [done|]. intros s' Hs'. exfalso.
    assert (existsb (fun length => negb (length =? 0)) (zdrop (bits_value hlit + 257) all) = true) by (apply nonzero_existsb; eauto).
    congruence.
Qed.

(** *** Stored blocks *)

Lemma two_bytes a b : is_byte a -> is_byte b -> u16 (Z.lor a (Z.shiftl b 8)) = a + 256 * b.
Proof using.
  clear Hcap Henc Hmem.
  unfold is_byte. intros Ha Hb. rewrite Z.lor_comm, lor_shiftl, u16_id by lia. lia.
Qed.
Lemma complement n : 0 <= n < 65536 -> u16 (Z.lxor n 0xffff) = 65535 - n.
Proof using.
  clear Hcap Henc Hmem.
  intros Hn. assert (E : Z.lxor n 0xffff = 0xffff - n).
  { rewrite Z.sub_nocarry_ldiff.
    - apply Z.bits_inj'. intros i Hi. rewrite Z.lxor_spec, Z.ldiff_spec.
      change 65535 with (Z.ones 16). destruct (Z.lt_ge_cases i 16).
      + rewrite Z.ones_spec_low by lia. by destruct (Z.testbit n i).
      + rewrite Z.ones_spec_high by lia. cbn. rewrite xorb_false_r. destruct (Z.eq_dec n 0) as [->|]; [apply Z.testbit_0_l|].
        apply Z.bits_above_log2; [lia|]. pose proof (Z.log2_lt_pow2 n 16). lia.
    - apply Z.bits_inj'. intros i Hi. rewrite Z.ldiff_spec, Z.bits_0. change 65535 with (Z.ones 16).
      destruct (Z.lt_ge_cases i 16); [rewrite Z.ones_spec_low by lia; by rewrite andb_false_r|].
      destruct (Z.eq_dec n 0) as [->|]; [by rewrite Z.testbit_0_l|]. rewrite (Z.bits_above_log2 n i); [done|lia|].
      pose proof (Z.log2_lt_pow2 n 16). lia. }
  rewrite E. apply u16_id. lia.
Qed.

Lemma stored_length_ok n tail bits r :
  0 <= n < 65536 -> bytes tail -> align bits = to_bits (stored_prefix n ++ tail) -> at_bits data r bits ->
  exists r', stored_length r = Ok (n, r') /\ at_bits data r' (to_bits tail).
Proof using.
  clear Hcap Henc Hmem.
  intros Hn Ht Ha Hr. destruct (AlignByte_bits _ _ _ Hr) as (l & El & Hl & Hr0 & _).
  assert (Hp : bytes (stored_prefix n)).
  { unfold stored_prefix. forall_list; unfold is_byte; Z.to_euclidean_division_equations; lia. }
  assert (Hpt : bytes (stored_prefix n ++ tail)) by (by apply Forall_app).
  rewrite El in Ha. apply to_bits_inj in Ha; [|done|done]. subst l. unfold stored_length, stored_prefix in *. cbn [app] in *.
  pose proof Hpt as [H0 [H1 [H2 [H3 H4]%Forall_cons]%Forall_cons]%Forall_cons]%Forall_cons.
  destruct (ReadByte_next data _ _ _ Hr0 Hpt) as (r1 & -> & Hr1). cbn [reading mbind Result_bind].
  destruct (ReadByte_next data _ _ _ Hr1) as (r2 & -> & Hr2); [by repeat (apply Forall_cons; split; [done|])|]. cbn [reading mbind Result_bind].
  destruct (ReadByte_next data _ _ _ Hr2) as (r3 & -> & Hr3); [by repeat (apply Forall_cons; split; [done|])|]. cbn [reading mbind Result_bind].
  destruct (ReadByte_next data _ _ _ Hr3) as (r4 & -> & Hr4); [by apply Forall_cons|]. cbn [reading mbind Result_bind].
  rewrite !two_bytes by done.
  assert (E1 : n mod 256 + 256 * (n / 256) = n) by (Z.to_euclidean_division_equations; lia).
  assert (E2 : (65535 - n) mod 256 + 256 * ((65535 - n) / 256) = 65535 - n) by (Z.to_euclidean_division_equations; lia).
  rewrite E1, E2, complement, Z.eqb_refl by done. cbn [negb]. by exists r4.
Qed.

Lemma stored_loop_ok e after r c H output :
  bytes (e ++ after) -> at_bits data r (to_bits (e ++ after)) -> holds size c H ->
  allowed capacity encodedLength (zlen output + zlen e) ->
  exists r' c', stored_loop true capacity encodedLength (length e) r c output = (Ok r', c', output ++ e)
    /\ at_bits data r' (to_bits after) /\ holds size c' (H ++ e).
Proof using Hcap Henc.
  revert r c H output. induction e as [|b e IH]; intros r c H output Hb Hr Hc Ha; cbn [stored_loop length].
  { exists r, c. by rewrite !app_nil_r. }
  cbn [app] in *. destruct (ReadByte_next data r b _ Hr Hb) as (r' & -> & Hr'). rewrite zlen_cons in Ha. pose proof (zlen_nonneg e).
  rewrite (EmitByte_ok capacity encodedLength Henc size b c H) by (done || (eapply allowed_le; [exact Ha|lia])).
  cbn [NT_SUCCESS negb]. apply Forall_cons in Hb as [_ Hb].
  destruct (IH r' (pushed size b c) (H ++ [b]) (output ++ [b])) as (r'' & c' & -> & Hr'' & Hc'); [done|done|by apply pushed_holds| |].
  { eapply allowed_le; [exact Ha|]. rewrite zlen_app. change (zlen [b]) with 1. lia. }
  exists r'', c'. rewrite <- !app_assoc in *. by split_and!.
Qed.

Lemma inflate_block_ok bits H e bits' r c output :
  block size bits H e bits' -> at_bits data r bits -> holds size c H ->
  allowed capacity encodedLength (zlen output + zlen e) ->
  exists r' c', decode_block memory true capacity encodedLength r c output = (Ok r', c', output ++ e)
    /\ at_bits data r' bits' /\ holds size c' (H ++ e).
Proof using Hcap Henc Hmem.
  intros Hb Hr Hc Ha. unfold decode_block. pose proof (ab_data _ _ _ Hr) as Hdata.
  assert (Hhead : forall final b0 b1 bits0, at_bits data r (final :: b0 :: b1 :: bits0) ->
    exists r', ('(finalBlock, r) ← ReadBits 1 r; ReadBits 2 r) = Some (Z.b2z b0 + 2 * Z.b2z b1, r')
      /\ at_bits data r' bits0 /\ (length bits0 < S (8 * length (br_data r)))%nat).
  { intros final b0 b1 bits0 Hr0. destruct (ReadBits_ok data [final] (b0 :: b1 :: bits0) 1 r Hr0) as (r1 & -> & Hr1); [done|lia|].
    cbn [mbind option_bind]. destruct (ReadBits_ok data [b0; b1] bits0 2 r1 Hr1) as (r2 & -> & Hr2); [done|lia|].
    exists r2. cbn [bits_value]. rewrite Z.mul_0_r, Z.add_0_r. split_and!; [done|done|].
    pose proof (at_bits_length _ _ _ Hr2). pose proof (ab_byte _ _ _ Hr2). pose proof (ab_bit _ _ _ Hr2). rewrite Hdata. unfold zlen in *. lia. }
  destruct Hb as [final bits H e after He Hlen Hafter Halign|final bits H e bits' Hcomp|final bits lit dist bits1 H e bits' Hdyn Hcomp].
  - destruct (Hhead _ _ _ _ Hr) as (r1 & -> & Hr1 & _). cbn [Z.b2z Z.mul Z.add Z.eqb]. unfold DecodeStoredBlock.
    assert (Hea : bytes (e ++ after)) by (by apply Forall_app). pose proof (zlen_nonneg e).
    destruct (stored_length_ok (zlen e) (e ++ after) bits r1) as (r2 & -> & Hr2); [lia|done|done|done|].
    unfold zlen. rewrite Nat2Z.id. by apply (stored_loop_ok e after).
  - destruct (Hhead _ _ _ _ Hr) as (r1 & -> & Hr1 & Hlen). cbn [Z.b2z Z.mul Z.add Z.eqb Pos.eqb].
    destruct BuildFixedTables_ok as (lt & dt & -> & Hlt & Hdt). by eapply DecodeCompressedBlock_ok.
  - destruct (Hhead _ _ _ _ Hr) as (r1 & -> & Hr1 & Hlen). cbn [Z.b2z Z.mul Z.add Z.eqb Pos.eqb Pos.mul].
    destruct (ReadDynamicTables_ok _ _ _ _ r1 Hdyn Hr1) as (lt & dt & r2 & -> & Hlt & Hdt & Hr2).
    eapply DecodeCompressedBlock_ok; try done.
    pose proof (at_bits_length _ _ _ Hr2). pose proof (ab_byte _ _ _ Hr2). pose proof (ab_bit _ _ _ Hr2). rewrite Hdata. unfold zlen in *. lia.
Qed.
End Complete.

(** ** Messages *)

Lemma compressed_shorter size lit dist bits H e bits' :
  compressed size lit dist bits H e bits' -> (length bits' <= length bits)%nat.
Proof. induction 1; rewrite ?length_app in *; lia. Qed.
Lemma lengths_coded_shorter cl count bits l all bits' :
  lengths_coded cl count bits l all bits' -> (length bits' <= length bits)%nat.
Proof. induction 1; rewrite ?length_app in *; lia. Qed.
Lemma block_shorter size bits H e bits' : block size bits H e bits' -> (length bits' < length bits)%nat.
Proof.
  destruct 1 as [final bits H e after _ _ _ Ha|final bits H e bits' Hc|final bits lit dist bits1 H e bits' Hd Hc]; cbn [length].
  - apply (f_equal length) in Ha. unfold align in Ha. rewrite length_drop, !to_bits_app, !length_app in Ha. lia.
  - apply compressed_shorter in Hc. lia.
  - apply compressed_shorter in Hc. destruct Hd as [hlit hdist hclen triples all bits bits1 _ _ _ _ _ _ _ Hl _ _ _].
    apply lengths_coded_shorter in Hl. rewrite !length_app. lia.
Qed.

Lemma blocks_loop_ok data size capacity encodedLength memory bits H e fuel r c output :
  0 <= capacity < 2 ^ 62 -> 0 <= encodedLength < 2 ^ 50 -> (forall place, memory place = true) ->
  message size bits H e -> (length bits < fuel)%nat -> at_bits data r bits -> holds size c H ->
  allowed capacity encodedLength (zlen output + zlen e) ->
  exists c', blocks_loop memory true capacity encodedLength fuel r c output = (STATUS_SUCCESS, c', output ++ e)
             /\ holds size c' (H ++ e).
Proof.
  intros Hcap Henc Hmem Hm. revert fuel r c output.
  induction Hm as [H|bits bits' H e e' Hb Hm IH]; intros [|fuel] r c output Hf Hr Hc Ha; try lia; cbn [blocks_loop];
    rewrite (HasMoreInput_bits _ _ _ Hr).
  - exists c. rewrite !app_nil_r. by rewrite bool_decide_true.
  - pose proof (block_shorter _ _ _ _ _ Hb) as Hs. rewrite bool_decide_false by (intros ->; cbn [length] in Hs; lia). cbn [negb].
    rewrite zlen_app in Ha. pose proof (zlen_nonneg e').
    destruct (inflate_block_ok data size capacity encodedLength Hcap Henc memory Hmem _ _ _ _ r c output Hb Hr Hc) as (r' & c' & -> & Hr' & Hc');
      [eapply allowed_le; [exact Ha|lia]|].
    destruct (IH fuel r' c' (output ++ e)) as (c'' & -> & Hc''); [lia|done|done|rewrite zlen_app; eapply allowed_le; [exact Ha|lia]|].
    exists c''. rewrite <- !app_assoc in *. by split.
Qed.

Lemma reader_start data : bytes data -> zlen data < 2 ^ 60 -> at_bits data (MkReader data 0 0) (to_bits data).
Proof.
  intros Hb Hl. pose proof (zlen_nonneg data). split; cbn [br_data br_byteOffset br_bitOffset]; (done || lia).
Qed.

Lemma InflateMessage_ok memory source capacity size c H e :
  bytes source -> zlen source < 2 ^ 50 -> 0 <= capacity < 2 ^ 62 -> (forall place, memory place = true) ->
  holds size c H -> message size (to_bits (source ++ PerMessageDeflateTail)) H e ->
  allowed capacity (zlen source) (zlen e) ->
  exists c', InflateMessage memory (Bytes source) true capacity c = (STATUS_SUCCESS, c', e) /\ holds size c' (H ++ e).
Proof.
  intros Hb Hl Hcap Hmem Hc Hm Ha. unfold InflateMessage. cbn [sp_isnull sp_len sp_bytes andb orb negb].
  rewrite (holds_initialized _ _ _ Hc), Hmem. cbn [negb]. pose proof (zlen_nonneg source).
  rewrite Z.gtb_ltb, (proj2 (Z.ltb_ge _ _)) by (unfold MAXU64; rewrite u64_id; lia).
  destruct (blocks_loop_ok (source ++ PerMessageDeflateTail) size capacity (zlen source) memory (to_bits (source ++ PerMessageDeflateTail)) H e
    (S (8 * length (source ++ PerMessageDeflateTail))) (MkReader (source ++ PerMessageDeflateTail) 0 0) c [])
    as (c' & -> & Hc'); [done|lia|done|exact Hm|rewrite to_bits_length; lia| |done|done|by exists c'].
  apply reader_start; [apply Forall_app; split; [done|]|rewrite zlen_app; change (zlen PerMessageDeflateTail) with 4; lia].
  repeat (apply Forall_cons; split; [by split|]). apply Forall_nil_2.
Qed.

(** ** Stored blocks, as the encoder writes them *)

Lemma land_mod256 x : 0 <= x -> u8 (Z.land x 0xff) = x mod 256.
Proof. intros Hx. rewrite land_255. apply Z.mod_small. apply Z.mod_pos_bound. lia. Qed.

Lemma stored_header_prefix n : 0 <= n < 65536 -> stored_header n = 0 :: stored_prefix n.
Proof.
  intros Hn. unfold stored_header, stored_prefix. rewrite complement by done. rewrite !Z.shiftr_div_pow2 by lia.
  change (2 ^ 8) with 256. rewrite !land_mod256 by (apply Z.div_pos || lia; lia).
  rewrite !(Z.mod_small (_ / 256)) by (Z.to_euclidean_division_equations; lia). done.
Qed.

(** The bits of a header byte 0 and a stored block: a block of the message. *)
Lemma block_of_stored size H e after : bytes e -> zlen e < 65536 -> bytes after ->
  block size (to_bits (0 :: stored_prefix (zlen e) ++ e ++ after)) H e (to_bits after).
Proof.
  intros He Hlen Ha. change (to_bits (0 :: ?l)) with (false :: false :: false :: [false; false; false; false; false] ++ to_bits l).
  apply block_stored; [done|done|done|]. unfold align. rewrite length_app, to_bits_length.
  replace ((length [false; false; false; false; false] + 8 * length (stored_prefix (zlen e) ++ e ++ after)) mod 8)%nat with 5%nat; [done|].
  change (length [false; false; false; false; false]) with 5%nat. rewrite Nat.mul_comm, Nat.Div0.mod_add. done.
Qed.

(** The output of the encoder for a fragment. *)
Definition stored_blocks (source : list Z) : list Z := deflate_loop (length source) source [].

Lemma deflate_loop_app fuel rest output : deflate_loop fuel rest output = output ++ deflate_loop fuel rest [].
Proof.
  revert rest output. induction fuel as [|fuel IH]; intros [|b rest] output; cbn [deflate_loop]; rewrite ?app_nil_r; try done.
  cbv zeta. rewrite IH, (IH _ ([] ++ _)), <- !app_assoc. done.
Qed.
Lemma deflate_loop_fuel fuel fuel' rest : (length rest <= fuel)%nat -> (length rest <= fuel')%nat ->
  deflate_loop fuel rest [] = deflate_loop fuel' rest [].
Proof.
  revert fuel' rest. induction fuel as [|fuel IH]; intros fuel' [|b rest] Hf Hf'; cbn [length] in *; try lia;
    [by destruct fuel'|by destruct fuel'|].
  destruct fuel' as [|fuel']; [lia|]. cbn [deflate_loop]. cbv zeta. rewrite deflate_loop_app, (deflate_loop_app fuel').
  f_equal. set (n := u16 _). assert (Hn : 1 <= n <= zlen (b :: rest)).
  { unfold n. rewrite Z.gtb_ltb, zlen_cons. pose proof (zlen_nonneg rest). rewrite u16_id; case_if; bool_prop; lia. }
  assert (Hd : (length (zdrop n (b :: rest)) < length (b :: rest))%nat).
  { unfold zdrop. rewrite length_drop. unfold zlen in Hn. lia. }
  cbn [length] in Hd. apply IH; lia.
Qed.

Lemma stored_blocks_cons m : m <> [] ->
  let n := Z.min 65535 (zlen m) in
  stored_blocks m = (0 :: stored_prefix n) ++ ztake n m ++ stored_blocks (zdrop n m) /\ 1 <= n <= zlen m.
Proof.
  intros Hne n. assert (Hn : 1 <= n <= zlen m).
  { unfold n. destruct m as [|b m]; [done|]. rewrite zlen_cons. pose proof (zlen_nonneg m). lia. }
  split; [|done]. unfold stored_blocks. destruct m as [|b m]; [done|]. cbn [length deflate_loop]. cbv zeta.
  assert (En : u16 (if zlen (b :: m) >? 65535 then 65535 else zlen (b :: m)) = n).
  { unfold n. rewrite Z.gtb_ltb. rewrite u16_id; case_if; bool_prop; pose proof (zlen_nonneg (b :: m)); lia. }
  rewrite En, deflate_loop_app, stored_header_prefix by (unfold n; lia). cbn [app]. rewrite <- app_assoc. do 3 f_equal.
  assert (Hd : (length (zdrop n (b :: m)) < length (b :: m))%nat) by (unfold zdrop; rewrite length_drop; unfold zlen in Hn; lia).
  cbn [length] in Hd. apply deflate_loop_fuel; lia.
Qed.

Lemma stored_blocks_ind (P : list Z -> Prop) :
  P [] -> (forall m, m <> [] -> P (zdrop (Z.min 65535 (zlen m)) m) -> P m) -> forall m, P m.
Proof.
  intros H0 Hs m. induction m as [m IH] using (induction_ltof1 _ (@length Z)). unfold ltof in IH.
  destruct m as [|b m]; [done|]. apply Hs; [done|]. apply IH. unfold zdrop. rewrite length_drop, zlen_cons. cbn [length].
  pose proof (zlen_nonneg m). lia.
Qed.

Lemma stored_blocks_bytes m : bytes m -> bytes (stored_blocks m).
Proof.
  induction m as [|m Hne IH] using stored_blocks_ind; intros Hb; [constructor|].
  destruct (stored_blocks_cons m Hne) as [-> Hn]. rewrite !Forall_app. split_and!; [|by apply bytes_ztake|apply IH; by apply bytes_zdrop].
  unfold stored_prefix. forall_list; unfold is_byte; Z.to_euclidean_division_equations; lia.
Qed.

Lemma stored_blocks_size m : zlen (stored_blocks m) = zlen m + (zlen m + 65534) / 65535 * 5.
Proof.
  induction m as [|m Hne IH] using stored_blocks_ind; [done|]. destruct (stored_blocks_cons m Hne) as [-> Hn].
  set (n := Z.min 65535 (zlen m)) in *. rewrite !zlen_app, IH, zlen_ztake, zlen_zdrop by lia.
  change (zlen (0 :: stored_prefix n)) with 5. destruct (Z.le_gt_cases (zlen m) 65535) as [Hle|Hgt].
  - replace n with (zlen m) by lia. rewrite Z.sub_diag. change ((0 + 65534) / 65535) with 0.
    replace ((zlen m + 65534) / 65535) with 1; [lia|]. Z.to_euclidean_division_equations. lia.
  - replace n with 65535 by lia. replace (zlen m + 65534) with (zlen m - 65535 + 65534 + 1 * 65535) by lia.
    rewrite Z.div_add by lia. lia.
Qed.

Lemma message_stored size m after H e : bytes m -> bytes after ->
  message size (to_bits after) (H ++ m) e -> message size (to_bits (stored_blocks m ++ after)) H (m ++ e).
Proof.
  revert H. induction m as [|m Hne IH] using stored_blocks_ind; intros H Hb Ha Hm; [by rewrite app_nil_r in Hm|].
  destruct (stored_blocks_cons m Hne) as [-> Hn]. set (n := Z.min 65535 (zlen m)) in *.
  rewrite <- (ztake_zdrop n m) in Hm |- * at 3. rewrite <- !app_assoc. cbn [app].
  assert (Hz : zlen (ztake n m) = n) by (apply zlen_ztake; lia). rewrite <- Hz at 1.
  apply message_block with (bits' := to_bits (stored_blocks (zdrop n m) ++ after)).
  - apply block_of_stored; [by apply bytes_ztake|rewrite Hz; lia|].
    apply Forall_app. split; [apply stored_blocks_bytes; by apply bytes_zdrop|done].
  - apply IH; [by apply bytes_zdrop|done|]. rewrite <- app_assoc, ztake_zdrop. rewrite ztake_zdrop in Hm. done.
Qed.

(** What follows the last fragment: a final empty stored block. *)
Lemma message_tail size H : message size (to_bits (0 :: PerMessageDeflateTail)) H [].
Proof.
  change (@nil Z) with ([] ++ @nil Z). apply message_block with (bits' := to_bits []); [|constructor].
  apply (block_of_stored size H [] []); [constructor|done|constructor].
Qed.

Lemma DeflateMessage_spec source finalFragment capacity : zlen source < 2 ^ 60 ->
  MaxStoredDeflateBytes (zlen source) finalFragment <= capacity ->
  let output := stored_blocks source ++ (if finalFragment then [0] else []) in
  zlen output = MaxStoredDeflateBytes (zlen source) finalFragment
  /\ DeflateMessage (Bytes source) finalFragment true capacity = (STATUS_SUCCESS, zlen output, output).
Proof.
  intros Hl Hc output. pose proof (zlen_nonneg source).
  assert (Hm : MaxStoredDeflateBytes (zlen source) finalFragment = zlen output).
  { unfold MaxStoredDeflateBytes, output, MAXU64. rewrite zlen_app, stored_blocks_size.
    assert (Eb : (if zlen source =? 0 then 0 else (zlen source +! 65534) / 65535) = (zlen source + 65534) / 65535).
    { destruct (Z.eqb_spec (zlen source) 0) as [->|]; [done|]. by rewrite u64_id by lia. }
    rewrite Eb. set (k := (zlen source + 65534) / 65535). assert (Hk : 0 <= k <= zlen source + 1) by (unfold k; Z.to_euclidean_division_equations; lia).
    set (last := if finalFragment then 1 else 0).
    assert (Hlast : 0 <= last <= 1 /\ zlen (if finalFragment then [0] else []) = last) by (by destruct finalFragment).
    rewrite (u64_id (_ - zlen source)), (u64_id (_ - last)), Z.gtb_ltb by (rewrite ?u64_id; lia).
    rewrite (proj2 (Z.ltb_ge _ _)) by (Z.to_euclidean_division_equations; lia).
    rewrite (u64_id (k * 5)), (u64_id (zlen source + k * 5)), u64_id by lia. lia. }
  split; [done|]. unfold DeflateMessage. cbn [sp_isnull sp_len sp_bytes andb orb negb]. rewrite Hm in *.
  assert (Hsmall : zlen output < 2 ^ 62).
  { unfold output. rewrite zlen_app, stored_blocks_size. assert (zlen (if finalFragment then [0] else []) <= 1) by (by destruct finalFragment).
    Z.to_euclidean_division_equations. lia. }
  rewrite (proj2 (Z.eqb_neq _ _)), (proj2 (Z.ltb_ge _ _)) by (unfold MAXU64; lia). fold (stored_blocks source). unfold output.
  destruct finalFragment; [done|]. by rewrite app_nil_r.
Qed.

(** What [DeflateMessage] leaves at a large enough destination. *)
Definition deflated (source : list Z) (finalFragment : bool) : list Z :=
  (DeflateMessage (Bytes source) finalFragment true (MaxStoredDeflateBytes (zlen source) finalFragment)).2.

Lemma stored_blocks_bound m : zlen m <= zlen (stored_blocks m) <= 6 * zlen m.
Proof. rewrite stored_blocks_size. pose proof (zlen_nonneg m). Z.to_euclidean_division_equations. lia. Qed.

Lemma message_fragments size fragments last after H e :
  Forall bytes fragments -> bytes last -> bytes after ->
  message size (to_bits after) ((H ++ concat fragments) ++ last) e ->
  message size (to_bits (concat (map stored_blocks fragments) ++ stored_blocks last ++ after)) H
    (concat fragments ++ last ++ e).
Proof.
  intros Hf Hb Ha. revert H. induction fragments as [|f fragments IH]; intros H Hm; cbn [map concat app] in *.
  - rewrite app_nil_r in Hm. by apply message_stored.
  - apply Forall_cons in Hf as [Hfb Hf]. rewrite <- !app_assoc.
    apply message_stored; [done| |apply IH; [done|by rewrite <- !app_assoc in *]].
    rewrite !Forall_app. split_and!; [|by apply stored_blocks_bytes|done]. apply Forall_concat, Forall_map.
    eapply Forall_impl; [exact Hf|]. apply stored_blocks_bytes.
Qed.

(** C36. A message compressed fragment by fragment, only the last one final, is
    decompressed to the concatenation of the fragments, whatever was exchanged
    before; the encoder needs exactly the capacity it announces. *)
Theorem deflate_roundtrip memory size c H fragments last capacity :
  holds size c H -> (forall place, memory place = true) ->
  Forall bytes fragments -> bytes last -> zlen (concat fragments) + zlen last < 2 ^ 40 ->
  zlen (concat fragments) + zlen last <= capacity < 2 ^ 62 ->
  let payload := concat (map (fun f => deflated f false) fragments) ++ deflated last true in
  zlen (deflated last true) = MaxStoredDeflateBytes (zlen last) true
  /\ exists c', InflateMessage memory (Bytes payload) true capacity c
                = (STATUS_SUCCESS, c', concat fragments ++ last)
                /\ holds size c' (H ++ concat fragments ++ last).
Proof.
  intros Hc Hmem Hf Hb Hl Hcap payload. pose proof (zlen_nonneg last). pose proof (zlen_nonneg (concat fragments)).
  assert (Hd : forall f fin, zlen f < 2 ^ 60 -> deflated f fin = stored_blocks f ++ (if fin then [0] else [])).
  { intros f fin Hlen. unfold deflated. by destruct (DeflateMessage_spec f fin _ Hlen (Z.le_refl _)) as [_ ->]. }
  split.
  { rewrite Hd by lia. destruct (DeflateMessage_spec last true _ ltac:(lia) (Z.le_refl _)) as [E _]. exact E. }
  assert (Hpay : payload = concat (map stored_blocks fragments) ++ stored_blocks last ++ [0]).
  { unfold payload. rewrite Hd by lia. f_equal. f_equal. clear -Hd Hl. pose proof (zlen_nonneg last) as Hn. revert Hl.
    induction fragments as [|f fragments IH]; intros Hl; [done|]. cbn [concat map] in *. rewrite zlen_app in Hl.
    pose proof (zlen_nonneg f). pose proof (zlen_nonneg (concat fragments)). rewrite Hd, app_nil_r, IH by lia. done. }
  assert (Hsize : zlen (concat fragments) <= zlen (concat (map stored_blocks fragments)) <= 6 * zlen (concat fragments)).
  { clear. induction fragments as [|f fragments IH]; [done|]. cbn [map concat]. rewrite !zlen_app.
    pose proof (stored_blocks_bound f). lia. }
  pose proof (stored_blocks_bound last). assert (Hlen : zlen payload = zlen (concat (map stored_blocks fragments)) + zlen (stored_blocks last) + 1).
  { rewrite Hpay, !zlen_app. change (zlen [0]) with 1. lia. }
  assert (Hbytes : bytes (concat (map stored_blocks fragments))).
  { apply Forall_concat, Forall_map. eapply Forall_impl; [exact Hf|]. apply stored_blocks_bytes. }
  apply (InflateMessage_ok memory payload capacity size c H); try done.
  - rewrite Hpay, !Forall_app. split_and!; [done|by apply stored_blocks_bytes|]. by apply Forall_singleton.
  - lia.
  - lia.
  - rewrite Hpay, <- !app_assoc. rewrite <- (app_nil_r last) at 2. apply message_fragments; [done|done| |apply message_tail].
    repeat (apply Forall_cons; split; [by split|]). apply Forall_nil_2.
  - rewrite zlen_app. unfold allowed, MaxExpansionRatio. lia.
Qed.
Lemma deflate_roundtrip_witness :
  let payload := concat (map (fun f => deflated f false) [[72; 101]]) ++ deflated [108; 108; 111] true in
  zlen (deflated [108; 108; 111] true) = MaxStoredDeflateBytes 3 true
  /\ exists c', InflateMessage (fun _ => true) (Bytes payload) true 5 (Initialize 8 true context_default).2
                = (STATUS_SUCCESS, c', concat [[72; 101]] ++ [108; 108; 111])
                /\ holds 256 c' ([] ++ concat [[72; 101]] ++ [108; 108; 111]).
Proof.
  apply (deflate_roundtrip (fun _ => true) 256 (Initialize 8 true context_default).2 [] [[72; 101]] [108; 108; 111] 5).
  - apply (Initialize_holds 8 context_default). lia.
  - done.
  - by repeat constructor.
  - by repeat constructor.
  - by vm_compute.
  - split; [by vm_compute|done].
Defined.

(** ** Claims about compressed messages *)

Section Rules.
Context (size : Z) (lit dist : list Z).

(** The rules of [compressed] for given bits. *)
Lemma compressed_literal_at s bits bits0 H e bits' :
  bits0 = code_bits lit s ++ bits -> (s < 256)%nat -> has_code lit s ->
  compressed size lit dist bits (H ++ [Z.of_nat s]) e bits' -> compressed size lit dist bits0 H (Z.of_nat s :: e) bits'.
Proof. intros ->. apply compressed_literal. Qed.
Lemma compressed_end_at bits bits0 H : bits0 = code_bits lit 256 ++ bits -> has_code lit 256 -> compressed size lit dist bits0 H [] bits.
Proof. intros ->. apply compressed_end. Qed.
End Rules.

Lemma has_code_dec lengths s : (s <? length lengths)%nat && negb (len_of lengths s =? 0) = true -> has_code lengths s.
Proof. intros [H1 H2]%andb_prop. apply Nat.ltb_lt in H1. apply negb_true_iff, Z.eqb_neq in H2. by split. Qed.

(** A context that was given some bytes. *)
Definition pushes (size : Z) (l : list Z) (c : WebSocketDeflateContext) : WebSocketDeflateContext :=
  foldl (fun c b => pushed size b c) c l.
Lemma pushes_holds size l c H : holds size c H -> holds size (pushes size l c) (H ++ l).
Proof.
  revert c H. induction l as [|b l IH]; intros c H Hc; [by rewrite app_nil_r|]. cbn [pushes foldl].
  replace (H ++ b :: l) with ((H ++ [b]) ++ l) by (by rewrite <- app_assoc). apply IH. by apply pushed_holds.
Qed.

(** C20. A message in the format of RFC 1951 (stored, fixed and dynamic blocks, over
    the bytes the context has already produced) is decompressed to the bytes it
    stands for when the limits allow them, and the window goes on from there. *)
Theorem inflate_meaning memory source capacity size c H e :
  bytes source -> zlen source < 2 ^ 50 -> 0 <= capacity < 2 ^ 62 -> (forall place, memory place = true) ->
  holds size c H -> message size (to_bits (source ++ PerMessageDeflateTail)) H e ->
  zlen e <= capacity -> (source = [] \/ zlen e <= 1024 * zlen source) ->
  exists c', InflateMessage memory (Bytes source) true capacity c = (STATUS_SUCCESS, c', e) /\ holds size c' (H ++ e).
Proof.
  intros Hb Hl Hcap Hmem Hc Hm He Hr. apply (InflateMessage_ok memory source capacity size c H e); try done.
  split; [done|]. unfold MaxExpansionRatio. destruct Hr as [-> |Hr]; [by left|right; lia].
Qed.
Lemma inflate_meaning_witness :
  exists c', InflateMessage (fun _ => true) (Bytes [0xf2; 0x00; 0x11; 0x00; 0x00]) true 100
               (pushes 256 [72; 101; 108; 108; 111] (Initialize 8 true context_default).2)
             = (STATUS_SUCCESS, c', [72; 101; 108; 108; 111]) /\ holds 256 c' ([72; 101; 108; 108; 111] ++ [72; 101; 108; 108; 111]).
Proof.
  apply (inflate_meaning (fun _ => true) [0xf2; 0x00; 0x11; 0x00; 0x00] 100 256 _ [72; 101; 108; 108; 111]).
  - by repeat constructor.
  - done.
  - done.
  - done.
  - apply (pushes_holds 256 [72; 101; 108; 108; 111] _ []). apply (Initialize_holds 8 context_default). lia.
  - set (after := [false] ++ to_bits ([0] ++ PerMessageDeflateTail)).
    replace (to_bits _) with (false :: true :: false :: code_bits fixed_literal_lengths 72
      ++ code_bits fixed_literal_lengths 258 ++ [] ++ code_bits fixed_distance_lengths 4 ++ [false]
      ++ code_bits fixed_literal_lengths 256 ++ after) by (by vm_compute).
    change [72; 101; 108; 108; 111] with ([72; 101; 108; 108; 111] ++ []) at 2.
    eapply message_block; [apply block_fixed|].
    + apply (compressed_literal 256 _ _ 72); [lia|by apply has_code_dec; vm_compute|].
      change [101; 108; 108; 111] with (repeat_back (Z.to_nat 4) 5 ([72; 101; 108; 108; 111] ++ [Z.of_nat 72]) ++ []).
      eapply (compressed_match 256 _ _ 258 4 [] [false] 4 5); try done; try lia; try (by apply has_code_dec; vm_compute).
      apply compressed_end. by apply has_code_dec; vm_compute.
    + eapply (message_block _ _ (to_bits []) _ [] []); [|apply message_end].
      change after with (false :: false :: false :: [false; false; false; false; false; false] ++ to_bits PerMessageDeflateTail).
      by apply block_stored.
  - done.
  - right. by vm_compute.
Defined.

(** From code lengths that fit a prefix code the decoder builds tables with which
    every symbol is read back from its canonical code: the codes of one length
    are consecutive, in the order of the symbols, after those of the shorter
    lengths; and nothing but the code is taken from the input. *)
Theorem canonical_decoded memory lengths s0 :
  code_lengths lengths -> has_code lengths s0 -> memory Counts = true -> memory Entries = true ->
  exists t, BuildHuffmanTable memory lengths = Ok t
  /\ forall s data bits r, has_code lengths s -> at_bits data r (code_bits lengths s ++ bits) ->
     exists r', DecodeSymbol r t = Ok (Z.of_nat s, r') /\ at_bits data r' bits.
Proof.
  intros Hcl Hs M1 M2. destruct (BuildHuffmanTable_spec memory lengths s0 Hcl Hs M1 M2) as (t & -> & Ht).
  exists t. split; [done|]. intros s data bits r Hcode Hr. by apply (DecodeSymbol_ok lengths).
Qed.
(** The example of the RFC: lengths 3, 3, 3, 3, 3, 2, 4, 4. *)
Lemma canonical_decoded_witness :
  code_bits [3; 3; 3; 3; 3; 2; 4; 4] 6 = [true; true; true; false]
  /\ exists t, BuildHuffmanTable (fun _ => true) [3; 3; 3; 3; 3; 2; 4; 4] = Ok t
  /\ forall s data bits r, has_code [3; 3; 3; 3; 3; 2; 4; 4] s -> at_bits data r (code_bits [3; 3; 3; 3; 3; 2; 4; 4] s ++ bits) ->
     exists r', DecodeSymbol r t = Ok (Z.of_nat s, r') /\ at_bits data r' bits.
Proof.
  split; [done|]. apply (canonical_decoded (fun _ => true) [3; 3; 3; 3; 3; 2; 4; 4] 0); [|by apply has_code_dec|done|done].
  split; [|done|by vm_compute]. repeat (apply Forall_cons; split; [lia|]). apply Forall_nil_2.
Defined.
