(* ===== verification/WebSocketDeflateSafety.v ===== *)
(** * permessage-deflate on any input (ws/WebSocketDeflate.cpp)

    The decoder is given bytes from the network: whatever they are, and whichever
    allocations fail, it ends with a status of the code, within its limits, and
    its window holds what it wrote. *)

From S2P Require Import Prelude BitStream WebSocketDeflate.

(** ** On any input

    Every operation either fails with a status of the code or leaves the reader
    at bits it had before it; [shorter] counts the turns of the loops. *)
Definition shorter {A} (data : list Z) (strict : bool) (bits : list bool) (m : Result (A * BitReader)) : Prop :=
  match m with
  | Ok (_, r') => exists bits', at_bits data r' bits'
                  /\ (length bits' + (if strict then 1 else 0) <= length bits)%nat
  | Err status => status <> STATUS_OTHER 0
  end.

Lemma shorter_bind {A B} data s1 s2 s bits (m : Result (A * BitReader)) (f : A * BitReader -> Result (B * BitReader)) :
  shorter data s1 bits m -> (s = true -> s1 = true \/ s2 = true) ->
  (forall a r bits', at_bits data r bits' -> shorter data s2 bits' (f (a, r))) ->
  shorter data s bits (m ≫= f).
Proof.
  intros Hm Hs Hf. destruct m as [[a r]|status]; [|done]. destruct Hm as (bits1 & Hr & Hlen). cbn [mbind Result_bind].
  specialize (Hf a r bits1 Hr). unfold shorter in *. destruct (f (a, r)) as [[b r']|status]; [|done].
  destruct Hf as (bits2 & Hr' & Hlen'). exists bits2. split; [done|]. destruct s1, s2, s; lia.
Qed.
Lemma shorter_if {A} data s bits (b : bool) (m m' : Result (A * BitReader)) :
  shorter data s bits m -> shorter data s bits m' -> shorter data s bits (if b then m else m').
Proof. by destruct b. Qed.
Lemma shorter_weaken {A} data bits (m : Result (A * BitReader)) : shorter data true bits m -> shorter data false bits m.
Proof. unfold shorter. destruct m as [[a r]|status]; [|done]. intros (bits' & ? & ?). exists bits'. split; [done|lia]. Qed.
Lemma shorter_ret {A} data bits (a : A) r : at_bits data r bits -> shorter data false bits (Ok (a, r)).
Proof. intros Hr. exists bits. split; [done|lia]. Qed.

Lemma ReadBits_shorter data bits n r : at_bits data r bits -> 0 <= n <= 16 ->
  shorter data (negb (n =? 0)) bits (reading (ReadBits n r)).
Proof.
  intros Hr Hn. pose proof (ReadBits_cases data bits n r Hr Hn) as H. destruct (ReadBits n r) as [[v r']|]; [|done].
  destruct H as (l & bits' & -> & Hl & _ & Hr'). exists bits'. split; [done|]. rewrite length_app.
  destruct (Z.eqb_spec n 0); cbn [negb]; lia.
Qed.

Lemma DecodeSymbol_shorter data bits t r : at_bits data r bits -> shorter data true bits (DecodeSymbol r t).
Proof.
  intros Hr. unfold DecodeSymbol. case_if; [done|]. generalize 1 at 1 as l. generalize 0 as code.
  revert r bits Hr. induction (Z.to_nat (ht_MaxBits t)) as [|n IH]; intros r bits Hr code l; [done|]. cbn [decode_symbol_loop].
  apply (shorter_bind data true false); [by apply (ReadBits_shorter data bits 1)|by left|].
  intros bit r' bits' Hr'. cbv zeta. destruct (find_entry _ _ _); [by apply shorter_ret|]. by apply shorter_weaken, IH.
Qed.

Lemma BuildHuffmanTable_status memory lengths status :
  BuildHuffmanTable memory lengths = Err status -> status <> STATUS_OTHER 0.
Proof.
  unfold BuildHuffmanTable. do 2 (case_if; [by intros [= <-]|]). destruct (count_loop _ _); [|by intros [= <-]].
  do 2 (case_if; [by intros [= <-]|]). done.
Qed.
Lemma BuildHuffmanTable_shorter {A} data bits memory lengths (f : HuffmanTable -> Result (A * BitReader)) :
  (forall t, shorter data false bits (f t)) -> shorter data false bits (BuildHuffmanTable memory lengths ≫= f).
Proof.
  intros Hf. destruct (BuildHuffmanTable memory lengths) as [t|status] eqn:E; [apply Hf|]. by eapply BuildHuffmanTable_status.
Qed.

Lemma read_extra_shorter data base n bits r : at_bits data r bits -> 0 <= n <= 16 -> 0 <= base ->
  shorter data false bits (read_extra base n r)
  /\ match read_extra base n r with Ok (v, _) => 0 <= v | Err _ => True end.
Proof.
  intros Hr Hn Hb. unfold read_extra. case_if; [|split; [by apply shorter_ret|done]]. split.
  - apply (shorter_bind data false false); [|by left|intros x r' bits' Hr'; by apply shorter_ret].
    pose proof (ReadBits_shorter data bits n r Hr Hn) as H. by destruct (negb (n =? 0)); [apply shorter_weaken|].
  - destruct (ReadBits n r) as [[v r']|]; [|done]. cbn [reading mbind Result_bind]. apply u64_range.
Qed.

Lemma read_match_shorter data symbol t bits r : at_bits data r bits ->
  shorter data false bits (read_match symbol t r)
  /\ match read_match symbol t r with Ok (_, d, _) => 0 <= d | Err _ => True end.
Proof.
  intros Hr. unfold read_match. pose proof (extra_bits_range (symbol - 257)) as [X1 _]. pose proof (base_range (symbol - 257)) as [B1 _].
  destruct (read_extra_shorter data (zget LengthBase (symbol - 257)) (zget LengthExtra (symbol - 257)) bits r Hr) as [H1 _]; [lia|lia|].
  destruct (read_extra _ _ r) as [[len r1]|status]; [|by split]. destruct H1 as (bits1 & Hr1 & L1). cbn [mbind Result_bind].
  case_if; [by split|]. pose proof (DecodeSymbol_shorter data bits1 t r1 Hr1) as H2.
  destruct (DecodeSymbol r1 t) as [[s r2]|status]; [|by split]. destruct H2 as (bits2 & Hr2 & L2). cbn [mbind Result_bind].
  case_if; [by split|]. pose proof (extra_bits_range s) as [_ X2]. pose proof (base_range s) as [_ B2].
  destruct (read_extra_shorter data (zget DistanceBase s) (zget DistanceExtra s) bits2 r2 Hr2) as [H3 H4]; [lia|lia|].
  destruct (read_extra _ _ r2) as [[d r3]|status]; [|by split]. destruct H3 as (bits3 & Hr3 & L3). cbn [mbind Result_bind].
  split; [|done]. exists bits3. split; [done|lia].
Qed.

Lemma code_length_loop_shorter data order lengths bits r : at_bits data r bits ->
  shorter data false bits (code_length_loop order lengths r).
Proof.
  revert lengths bits r. induction order as [|place order IH]; intros lengths bits r Hr; cbn [code_length_loop]; [by apply shorter_ret|].
  apply (shorter_bind data true false); [by apply (ReadBits_shorter data bits 3)|by left|]. intros x r' bits' Hr'. by apply IH.
Qed.

(** A reading of [n] bits and what follows it. *)
Lemma reading_bits {B} data s bits n r (f : Z * BitReader -> Result (B * BitReader)) : at_bits data r bits -> 0 <= n <= 16 ->
  (forall x r' bits', at_bits data r' bits' -> 0 <= x < 2 ^ n -> Z.of_nat (length bits') + n = Z.of_nat (length bits) ->
     shorter data s bits (f (x, r'))) ->
  shorter data s bits (reading (ReadBits n r) ≫= f).
Proof.
  intros Hr Hn Hf. pose proof (ReadBits_cases data bits n r Hr Hn) as H. destruct (ReadBits n r) as [[v r']|]; [|done].
  destruct H as (l & bits' & -> & Hl & -> & Hr'). apply (Hf _ _ bits'); [done| |rewrite length_app; lia].
  rewrite <- Hl. apply bits_value_range.
Qed.
Lemma shorter_le {A} data s bits bits' (m : Result (A * BitReader)) :
  (length bits' <= length bits)%nat -> shorter data s bits' m -> shorter data s bits m.
Proof. intros Hl. destruct m as [[a r]|status]; [|done]. intros (k & ? & ?). exists k. split; [done|lia]. Qed.

(** A run of code lengths: at least three of them, and no more than are left. *)
Lemma repeat_left x extra base count (l : list Z) fuel : 0 <= x < 2 ^ extra -> 0 <= extra <= 7 -> 3 <= base <= 11 ->
  zlen l < count < 2 ^ 10 -> count - zlen l <= Z.of_nat (S fuel) -> (x +! base >? count -! zlen l) = false ->
  forall v, count - zlen (l ++ replicate (Z.to_nat (x +! base)) v) <= Z.of_nat fuel.
Proof.
  intros Hx He Hb Hc Hf Hle v. assert (2 ^ extra <= 2 ^ 7) by (apply Z.pow_le_mono_r; lia). pose proof (zlen_nonneg l).
  rewrite (u64_id (x + base)) in * by lia. rewrite zlen_app, zlen_replicate. lia.
Qed.

Lemma all_lengths_loop_shorter data count table l bits fuel r :
  count < 2 ^ 10 -> count - zlen l <= Z.of_nat fuel -> at_bits data r bits ->
  shorter data false bits (all_lengths_loop fuel count table l r).
Proof.
  intros Hcount. revert l bits r. induction fuel as [|fuel IH]; intros l bits r Hf Hr; cbn [all_lengths_loop].
  { rewrite (proj2 (Z.ltb_ge _ _)) by lia. by apply shorter_ret. }
  case_if; [by apply shorter_ret|]. apply negb_false_iff, Z.ltb_lt in Heqb.
  apply (shorter_bind data true false); [by apply DecodeSymbol_shorter|by left|]. intros symbol r1 bits1 Hr1.
  pose proof (zlen_nonneg l). apply shorter_if.
  { apply IH; [|done]. rewrite zlen_app. change (zlen [_]) with 1. lia. }
  apply shorter_if; [apply shorter_if; [done|]|apply shorter_if; [|done]].
  - apply (reading_bits data false bits1 2); [done|done|]. intros x r2 bits2 Hr2 Hx L2. cbv zeta.
    case_if; [done|]. apply (shorter_le _ _ _ bits2); [lia|]. apply IH; [|done]. by apply (repeat_left x 2).
  - apply (reading_bits data false bits1); [done|by case_if|]. intros x r2 bits2 Hr2 Hx L2. cbv zeta.
    destruct (_ >? _) eqn:E; [done|]. apply (shorter_le _ _ _ bits2); [destruct (symbol =? 17); lia|]. apply IH; [|done].
    eapply (repeat_left x (if symbol =? 17 then 3 else 7)); [done| | |done|done|exact E]; by destruct (symbol =? 17).
Qed.

Lemma ReadDynamicTables_shorter data memory bits r : at_bits data r bits ->
  match ReadDynamicTables memory r with
  | Ok (_, _, r') => exists bits', at_bits data r' bits' /\ (length bits' <= length bits)%nat
  | Err status => status <> STATUS_OTHER 0
  end.
Proof.
  intros Hr. enough (H : shorter data false bits (ReadDynamicTables memory r)).
  { unfold shorter in H. destruct (ReadDynamicTables memory r) as [[[lt dt] r']|]; [|done].
    destruct H as (bits' & ? & ?). exists bits'. split; [done|lia]. }
  unfold ReadDynamicTables.
  apply reading_bits; [done|done|]. intros hlit r1 bits1 Hr1 Hlit L1.
  apply (shorter_le _ _ _ bits1); [lia|]. apply reading_bits; [done|done|]. intros hdist r2 bits2 Hr2 Hdist L2.
  apply (shorter_le _ _ _ bits2); [lia|]. apply reading_bits; [done|done|]. intros hclen r3 bits3 Hr3 Hclen L3.
  apply (shorter_le _ _ _ bits3); [lia|]. cbv zeta. apply shorter_if; [done|]. apply shorter_if; [done|].
  apply (shorter_bind data false false); [by apply code_length_loop_shorter|done|]. intros cl r4 bits4 Hr4.
  apply BuildHuffmanTable_shorter. intros t.
  apply (shorter_bind data false false); [apply all_lengths_loop_shorter; [| |done]|done|].
  - rewrite (u64_id (hlit + 257)), (u64_id (hdist + 1)), u64_id by lia. lia.
  - change (zlen []) with 0. pose proof (u64_range (hlit +! 257 + (hdist +! 1))). lia.
  - intros all r5 bits5 Hr5. apply BuildHuffmanTable_shorter. intros lt. apply shorter_if; [by apply shorter_ret|].
    apply BuildHuffmanTable_shorter. intros dt. by apply shorter_ret.
Qed.

(** ** Blocks and the whole message *)

(** An operation after another; it needs nothing of what the first one said. *)
Lemma sound_seq capacity encodedLength size H output r1 r2 e1 e2 :
  sound capacity encodedLength size H output r1 e1 -> sound capacity encodedLength size (H ++ e1) (output ++ e1) r2 e2 ->
  sound capacity encodedLength size H output r2 (e1 ++ e2).
Proof.
  intros [_ _ Hb [-> |Ha] _] H2; [rewrite !app_nil_r in H2; exact H2|]. by apply sound_trans.
Qed.
(** Its status does not matter, as long as it is one of the code. *)
Lemma sound_status capacity encodedLength size H output status status' c out e : status' <> STATUS_OTHER 0 ->
  sound capacity encodedLength size H output (status, c, out) e ->
  sound capacity encodedLength size H output (status', c, out) e.
Proof. by intros Hs []. Qed.

Definition status_of (m : Result BitReader) : NTSTATUS := match m with Ok _ => STATUS_SUCCESS | Err status => status end.
(** What a block does: it writes soundly, and on success leaves the reader at
    bits not longer, or shorter, than before. *)
Definition block_sound (data : list Z) (capacity encodedLength size : Z) (H output : list Z) (n : nat) (d : decoded) : Prop :=
  let '(m, c, out) := d in
  (exists e, sound capacity encodedLength size H output (status_of m, c, out) e)
  /\ match m with
     | Ok r => exists bits, at_bits data r bits /\ (length bits <= n)%nat
     | Err _ => True
     end.

Section Blocks.
Variable data : list Z.
Variable capacity encodedLength size : Z.
Hypothesis Hcap : 0 <= capacity < 2 ^ 62.
Hypothesis Henc : 0 <= encodedLength < 2 ^ 50.
Variable memory : site -> bool.

Lemma block_sound_error H output n c status : holds size c H -> status <> STATUS_OTHER 0 ->
  block_sound data capacity encodedLength size H output n (Err status, c, output).
Proof using. clear Hcap Henc. intros Hc Hs. split; [|done]. exists []. by apply sound_nil. Qed.
Lemma block_sound_le H output n m d : (n <= m)%nat -> block_sound data capacity encodedLength size H output n d ->
  block_sound data capacity encodedLength size H output m d.
Proof using.
  clear Hcap Henc. intros Hn. destruct d as [[[r|status] c] out]; cbn; [|done]. intros [? (bits & ? & ?)].
  split; [done|]. exists bits. split; [done|lia].
Qed.

(** A step that writes, its failure passed on, and the rest of the block. *)
Lemma block_sound_emit H output n (r : emitted) e1 (next : WebSocketDeflateContext -> list Z -> decoded) :
  bytes H -> sound capacity encodedLength size H output r e1 ->
  (forall c, holds size c (H ++ e1) -> bytes (H ++ e1) ->
     block_sound data capacity encodedLength size (H ++ e1) (output ++ e1) n (next c (output ++ e1))) ->
  block_sound data capacity encodedLength size H output n
    (let '(status, c, output) := r in if negb (NT_SUCCESS status) then (Err status, c, output) else next c output).
Proof using.
  clear Hcap Henc. intros Hb Hs Hn. destruct r as [[status c] out]. pose proof Hs as [E Hc He _ Hst]. cbn [fst snd] in *. subst out.
  destruct (NT_SUCCESS status); cbn [negb].
  - specialize (Hn c Hc). destruct (next c (output ++ e1)) as [[m c'] out']. destruct Hn as [[e2 H2] Hm]; [by apply Forall_app|].
    split; [|done]. exists (e1 ++ e2). by eapply sound_seq.
  - split; [by exists e1|done].
Qed.

Lemma DecodeCompressedBlock_sound lt dt bits fuel r c H output :
  at_bits data r bits -> (length bits < fuel)%nat -> holds size c H -> bytes H ->
  block_sound data capacity encodedLength size H output (length bits)
    (DecodeCompressedBlock true capacity encodedLength fuel lt dt r c output).
Proof using Hcap Henc.
  revert bits r c H output. induction fuel as [|fuel IH]; intros bits r c H output Hr Hf Hc Hb; [lia|].
  cbn [DecodeCompressedBlock]. pose proof (DecodeSymbol_shorter data bits lt r Hr) as Hd.
  destruct (DecodeSymbol r lt) as [[symbol r1]|status]; [|by apply block_sound_error]. destruct Hd as (bits1 & Hr1 & L1).
  destruct (symbol <? 256).
  { destruct (EmitByte_sound capacity encodedLength Hcap Henc size (u8 symbol) c H output Hc) as (e & He & _); [apply Z.mod_pos_bound; lia|].
    apply (block_sound_emit _ _ _ _ e _ Hb He). intros c1 Hc1 Hb1. apply (block_sound_le _ _ (length bits1)); [lia|]. apply IH; (done || lia). }
  destruct (symbol =? 256).
  { split; [exists []; by apply sound_nil|]. exists bits1. split; [done|lia]. }
  destruct (symbol <=? 285); [|by apply block_sound_error].
  destruct (read_match_shorter data symbol dt bits1 r1 Hr1) as [Hm Hd].
  destruct (read_match symbol dt r1) as [[[len d] r2]|status]; [|by apply block_sound_error]. destruct Hm as (bits2 & Hr2 & L2).
  destruct (CopyFromHistory_sound capacity encodedLength Hcap Henc size d len c H output Hc Hb Hd) as [e He].
  apply (block_sound_emit _ _ _ _ e _ Hb He). intros c1 Hc1 Hb1. apply (block_sound_le _ _ (length bits2)); [lia|].
  apply IH; (done || lia).
Qed.

(** After the bytes, the reader is at a byte boundary or further. *)
Lemma ReadByte_shorter bits r : at_bits data r bits ->
  match ReadByte r with
  | Some (b, r') => is_byte b /\ exists bits', at_bits data r' bits' /\ (length bits' < length bits)%nat
  | None => True
  end.
Proof using.
  clear Hcap Henc. intros Hr. destruct (ReadByte_cases data r bits Hr) as (l & Ha & Hl & H). destruct l as [|b l]; [by rewrite H|].
  destruct H as (r' & -> & Hr'). apply Forall_cons in Hl as [Hb _]. split; [done|]. exists (to_bits l). split; [done|].
  apply (f_equal length) in Ha. unfold align in Ha. rewrite length_drop, !to_bits_length in *. cbn [length] in Ha. lia.
Qed.

Lemma stored_loop_sound n bits r c H output :
  at_bits data r bits -> holds size c H -> bytes H ->
  block_sound data capacity encodedLength size H output (length bits)
    (stored_loop true capacity encodedLength n r c output).
Proof using Hcap Henc.
  revert bits r c H output. induction n as [|n IH]; intros bits r c H output Hr Hc Hb; cbn [stored_loop].
  { split; [exists []; by apply sound_nil|]. exists bits. by split. }
  pose proof (ReadByte_shorter bits r Hr) as Hd. destruct (ReadByte r) as [[b r1]|]; [|by apply block_sound_error].
  destruct Hd as (Hbyte & bits1 & Hr1 & L1).
  destruct (EmitByte_sound capacity encodedLength Hcap Henc size b c H output Hc Hbyte) as (e & He & _).
  apply (block_sound_emit _ _ _ _ e _ Hb He). intros c1 Hc1 Hb1. apply (block_sound_le _ _ (length bits1)); [lia|]. by apply IH.
Qed.

Lemma reading_byte {B} bits r (f : Z * BitReader -> Result (B * BitReader)) : at_bits data r bits ->
  (forall b r' bits', at_bits data r' bits' -> shorter data false bits' (f (b, r'))) ->
  shorter data false bits (reading (ReadByte r) ≫= f).
Proof using.
  clear Hcap Henc. intros Hr Hf. pose proof (ReadByte_shorter bits r Hr) as H. destruct (ReadByte r) as [[b r']|]; [|done].
  destruct H as (_ & bits' & Hr' & L). apply (shorter_le _ _ _ bits'); [lia|]. by apply Hf.
Qed.

Lemma stored_length_shorter bits r : at_bits data r bits -> shorter data false bits (stored_length r).
Proof using.
  clear Hcap Henc. intros Hr. unfold stored_length. cbv zeta. destruct (AlignByte_bits data r bits Hr) as (l & Ha & _ & Hr0 & _).
  assert (L0 : (length (to_bits l) <= length bits)%nat) by (rewrite <- Ha; unfold align; rewrite length_drop; lia).
  apply (shorter_le _ _ _ _ _ L0).
  eapply reading_byte; [exact Hr0|]. intros len0 r1 bits1 Hr1. eapply reading_byte; [exact Hr1|]. intros len1 r2 bits2 Hr2.
  eapply reading_byte; [exact Hr2|]. intros nlen0 r3 bits3 Hr3. eapply reading_byte; [exact Hr3|]. intros nlen1 r4 bits4 Hr4.
  apply shorter_if; [done|by apply shorter_ret].
Qed.

Lemma BuildFixedTables_status : match BuildFixedTables memory with Ok _ => True | Err status => status <> STATUS_OTHER 0 end.
Proof using.
  clear Hcap Henc. unfold BuildFixedTables. case_if; [done|].
  destruct (BuildHuffmanTable memory fixed_literal_lengths) as [lt|] eqn:E1; [|by eapply BuildHuffmanTable_status].
  cbn [mbind Result_bind]. destruct (BuildHuffmanTable memory fixed_distance_lengths) as [dt|] eqn:E2;
    [done|by eapply BuildHuffmanTable_status].
Qed.

Lemma decode_block_sound bits r c H output :
  at_bits data r bits -> holds size c H -> bytes H ->
  block_sound data capacity encodedLength size H output (length bits - 1) (decode_block memory true capacity encodedLength r c output).
Proof using Hcap Henc.
  intros Hr Hc Hb. pose proof (at_bits_length _ _ _ Hr) as Hlen. pose proof Hr as [Hdata _ _ Hoff Hbit _ _].
  assert (Hn : (length bits <= 8 * length (br_data r))%nat) by (unfold zlen in *; rewrite Hdata; lia). clear Hlen Hoff Hbit Hdata.
  unfold decode_block. pose proof (ReadBits_cases data bits 1 r Hr ltac:(lia)) as H1.
  destruct (ReadBits 1 r) as [[final r1]|]; [|by apply block_sound_error]. destruct H1 as (l1 & bits1 & -> & L1 & _ & Hr1).
  cbn [mbind option_bind]. pose proof (ReadBits_cases data bits1 2 r1 Hr1 ltac:(lia)) as H2.
  destruct (ReadBits 2 r1) as [[type r2]|]; [|by apply block_sound_error]. destruct H2 as (l2 & bits2 & -> & L2 & _ & Hr2).
  rewrite !length_app in *.
  destruct (type =? 0); [|destruct (type =? 1); [|destruct (type =? 2); [|by apply block_sound_error]]].
  - unfold DecodeStoredBlock. pose proof (stored_length_shorter bits2 r2 Hr2) as Hs.
    destruct (stored_length r2) as [[len r3]|status]; [|by apply block_sound_error]. destruct Hs as (bits3 & Hr3 & L3).
    apply (block_sound_le _ _ (length bits3)); [lia|]. by apply stored_loop_sound.
  - pose proof BuildFixedTables_status as Hs. destruct (BuildFixedTables memory) as [[lt dt]|status]; [|by apply block_sound_error].
    apply (block_sound_le _ _ (length bits2)); [lia|]. apply DecodeCompressedBlock_sound; (done || lia).
  - pose proof (ReadDynamicTables_shorter data memory bits2 r2 Hr2) as Hs.
    destruct (ReadDynamicTables memory r2) as [[[lt dt] r3]|status]; [|by apply block_sound_error]. destruct Hs as (bits3 & Hr3 & L3).
    apply (block_sound_le _ _ (length bits3)); [lia|]. apply DecodeCompressedBlock_sound; (done || lia).
Qed.

Lemma blocks_loop_sound fuel bits r c H output :
  at_bits data r bits -> (length bits < fuel)%nat -> holds size c H -> bytes H ->
  exists e, sound capacity encodedLength size H output (blocks_loop memory true capacity encodedLength fuel r c output) e.
Proof using Hcap Henc.
  revert bits r c H output. induction fuel as [|fuel IH]; intros bits r c H output Hr Hf Hc Hb; [lia|]. cbn [blocks_loop].
  rewrite (HasMoreInput_bits _ _ _ Hr), negb_involutive. case_bool_decide; [exists []; by apply sound_nil|].
  pose proof (decode_block_sound bits r c H output Hr Hc Hb) as Hd.
  destruct (decode_block memory true capacity encodedLength r c output) as [[[r'|status] c'] out'];
    destruct Hd as [[e He] Hr']; [|by exists e].
  destruct Hr' as (bits' & Hr' & L). pose proof He as [E Hc' Hbe _ _]. cbn [fst snd] in *. subst out'.
  destruct (IH bits' r' c' (H ++ e) (output ++ e)) as [e' He']; [done| |done|by apply Forall_app|].
  - destruct bits; [done|]. cbn [length] in *. lia.
  - exists (e ++ e'). by eapply sound_seq.
Qed.
End Blocks.

(** The output of a message: bytes, as many as fit and at most 1024 for each byte
    received. *)
Definition within (source : list Z) (capacity : Z) (out : list Z) : Prop :=
  bytes out /\ zlen out <= capacity /\ (source = [] \/ zlen out <= 1024 * zlen source).

(** C32. Whatever bytes arrive and whichever allocations fail, the decoder ends with
    a status of the code; it writes at most the capacity and at most 1024 bytes
    for each byte received, and the window holds exactly what was written. *)
Theorem inflate_safe memory source capacity size c H :
  bytes source -> zlen source < 2 ^ 50 -> 0 <= capacity < 2 ^ 62 -> holds size c H -> bytes H ->
  exists status c' out, InflateMessage memory (Bytes source) true capacity c = (status, c', out)
  /\ status <> STATUS_OTHER 0
  /\ within source capacity out
  /\ holds size c' (H ++ out).
Proof.
  intros Hb Hl Hcap Hc HH. unfold within, InflateMessage. cbn [sp_isnull sp_len sp_bytes andb orb negb].
  rewrite (holds_initialized _ _ _ Hc). cbn [negb]. pose proof (zlen_nonneg source).
  rewrite Z.gtb_ltb, (proj2 (Z.ltb_ge _ _)) by (unfold MAXU64; rewrite u64_id; lia).
  destruct (memory Input); cbn [negb].
  2:{ exists STATUS_INSUFFICIENT_RESOURCES, c, []. change (zlen []) with 0. rewrite app_nil_r. split_and!; first [done|right; lia|lia]. }
  destruct (blocks_loop_sound (source ++ PerMessageDeflateTail) capacity (zlen source) size Hcap ltac:(lia) memory
    (S (8 * length (source ++ PerMessageDeflateTail))) (to_bits (source ++ PerMessageDeflateTail))
    (MkReader (source ++ PerMessageDeflateTail) 0 0) c H []) as [e [E Hh He Ha Hs]];
    [|rewrite to_bits_length; lia|done|done|].
  { apply reader_start; [apply Forall_app; split; [done|]|rewrite zlen_app; change (zlen PerMessageDeflateTail) with 4; lia].
    repeat (apply Forall_cons; split; [by split|]). apply Forall_nil_2. }
  destruct (blocks_loop _ _ _ _ _ _ _ _) as [[status c'] out]. cbn [fst snd app] in *. subst out.
  exists status, c', e. split_and!; try done.
  - destruct Ha as [-> | [Ha _]]; [change (zlen []) with 0; lia|done].
  - destruct Ha as [-> | [_ [Ha|Ha]]]; [right; change (zlen []) with 0; lia| |right; unfold MaxExpansionRatio in Ha; lia].
    left. unfold zlen in Ha. by destruct source.
Qed.
Lemma inflate_safe_witness :
  exists status c' out, InflateMessage (fun _ => true) (Bytes [0xf2; 0x48; 0xff]) true 100 (Initialize 8 true context_default).2
                        = (status, c', out)
  /\ status <> STATUS_OTHER 0
  /\ within [0xf2; 0x48; 0xff] 100 out
  /\ holds 256 c' ([] ++ out).
Proof.
  apply (inflate_safe (fun _ => true) [0xf2; 0x48; 0xff] 100 256 (Initialize 8 true context_default).2 []).
  - by repeat constructor.
  - done.
  - done.
  - apply (Initialize_holds 8 context_default). lia.
  - done.
Defined.
