(* ===== verification/LittleEndian.v ===== *)
(** * Little-endian integers

    [ReadLittleEndian32], [WriteLittleEndian32] and [WriteLittleEndian64] of
    crypto/Aead.cpp and codec/ContentCoding.cpp, over the value of a byte string. *)

From S2P Require Import Prelude.

Definition ReadLittleEndian32 (data : list Z) : Z :=
  Z.lor (Z.lor (Z.lor (zget data 0) (u32 (Z.shiftl (zget data 1) 8))) (u32 (Z.shiftl (zget data 2) 16)))
    (u32 (Z.shiftl (zget data 3) 24)).
Definition WriteLittleEndian32 (value : Z) : list Z :=
  [u8 (Z.land value 0xff); u8 (Z.land (Z.shiftr value 8) 0xff); u8 (Z.land (Z.shiftr value 16) 0xff);
   u8 (Z.land (Z.shiftr value 24) 0xff)].
Definition WriteLittleEndian64 (value : Z) : list Z :=
  map (fun index => u8 (Z.land (Z.shiftr value (index * 8)) 0xff)) [0; 1; 2; 3; 4; 5; 6; 7].

(** ** Values *)

Fixpoint le_value (l : list Z) : Z := match l with [] => 0 | b :: l => b + 256 * le_value l end.
Fixpoint le_bytes (n : nat) (v : Z) : list Z := match n with O => [] | S n => v mod 256 :: le_bytes n (v / 256) end.

Lemma le_value_range l : bytes l -> 0 <= le_value l < 256 ^ zlen l.
Proof.
  induction 1 as [|b l Hb _ IH]; [done|]. cbn [le_value]. rewrite zlen_cons, Z.pow_add_r by (pose proof (zlen_nonneg l); lia).
  unfold is_byte in Hb. change (256 ^ 1) with 256. lia.
Qed.
Lemma le_value_app l k : le_value (l ++ k) = le_value l + 256 ^ zlen l * le_value k.
Proof.
  induction l as [|b l IH]; [change (le_value k = 0 + 1 * le_value k); lia|]. cbn [app le_value]. rewrite IH, zlen_cons, Z.pow_add_r by (pose proof (zlen_nonneg l); lia).
  change (256 ^ 1) with 256. lia.
Qed.
Lemma le_bytes_length n v : length (le_bytes n v) = n.
Proof. revert v. induction n as [|n IH]; intros v; [done|]. cbn [le_bytes length]. by rewrite IH. Qed.
Lemma le_bytes_bytes n v : bytes (le_bytes n v).
Proof. revert v. induction n as [|n IH]; intros v; [apply Forall_nil_2|]. apply Forall_cons. split; [apply Z.mod_pos_bound; lia|apply IH]. Qed.
Lemma le_value_bytes n v : le_value (le_bytes n v) = v mod 256 ^ Z.of_nat n.
Proof.
  revert v. induction n as [|n IH]; intros v; [by rewrite Z.mod_1_r|]. cbn [le_bytes le_value].
  rewrite IH, pow256_S, Z.rem_mul_r by (try apply pow256_pos; lia). done.
Qed.
Lemma le_bytes_value l : bytes l -> le_bytes (length l) (le_value l) = l.
Proof.
  induction 1 as [|b l Hb _ IH]; [done|]. cbn [length le_bytes le_value]. unfold is_byte in Hb.
  rewrite (Z.mul_comm 256), Z.mod_add, Z.div_add, (Z.mod_small b), (Z.div_small b) by lia. by rewrite Z.add_0_l, IH.
Qed.
Lemma le_value_inj l k : bytes l -> bytes k -> length l = length k -> le_value l = le_value k -> l = k.
Proof. intros Hl Hk E Ev. by rewrite <- (le_bytes_value l), <- (le_bytes_value k), E, Ev. Qed.
Lemma le_value_zeros n : le_value (replicate n 0) = 0.
Proof. induction n as [|n IH]; [done|]. cbn [replicate le_value]. by rewrite IH. Qed.
Lemma le_bytes_app n m v : le_bytes (n + m) v = le_bytes n v ++ le_bytes m (v / 256 ^ Z.of_nat n).
Proof.
  revert v. induction n as [|n IH]; intros v; [by rewrite Z.div_1_r|]. cbn [Nat.add le_bytes app]. rewrite IH, pow256_S, Z.div_div by (try apply pow256_pos; lia). done.
Qed.
Lemma le_bytes_mod n v : le_bytes n (v mod 256 ^ Z.of_nat n) = le_bytes n v.
Proof. rewrite <- le_value_bytes. rewrite <- (le_bytes_length n v) at 1. apply le_bytes_value, le_bytes_bytes. Qed.

Lemma ReadLittleEndian32_value l : bytes l -> (4 <= length l)%nat -> ReadLittleEndian32 l = le_value (take 4 l).
Proof.
  intros Hl Hn. destruct l as [|a [|b [|c [|d l]]]]; cbn [length] in Hn; try lia.
  do 4 (apply Forall_cons in Hl as [? Hl]). unfold is_byte in *. unfold ReadLittleEndian32. cbn [take le_value].
  change (zget (a :: b :: c :: d :: l) 0) with a. change (zget (a :: b :: c :: d :: l) 1) with b.
  change (zget (a :: b :: c :: d :: l) 2) with c. change (zget (a :: b :: c :: d :: l) 3) with d.
  assert (E : forall x y n, 0 <= n -> 0 <= x < 2 ^ n -> 0 <= y * 2 ^ n < 2 ^ 32 -> Z.lor x (u32 (Z.shiftl y n)) = x + y * 2 ^ n).
  { intros x y n ? Hx Hy. rewrite Z.shiftl_mul_pow2, u32_id, Z.lor_comm, lor_disjoint by lia. lia. }
  rewrite (E a b 8), (E _ c 16), (E _ d 24) by lia. change (take 0 l) with (@nil Z). cbn [le_value]. lia.
Qed.

(** A part of a number, by the bytes that hold it. *)
Lemma ReadLittleEndian32_at l k : bytes l -> (k + 4 <= length l)%nat ->
  ReadLittleEndian32 (drop k l) = (le_value l / 256 ^ Z.of_nat k) mod 2 ^ 32.
Proof.
  intros Hl Hk. rewrite ReadLittleEndian32_value by (by apply Forall_drop || (rewrite length_drop; lia)).
  rewrite <- (take_drop k l) at 2. rewrite le_value_app. assert (Ek : zlen (take k l) = Z.of_nat k) by (unfold zlen; rewrite length_take; lia).
  rewrite Ek. pose proof (le_value_range (take k l) (Forall_take _ _ _ Hl)) as Hr. rewrite Ek in Hr. pose proof (pow256_pos k).
  rewrite (Z.mul_comm (256 ^ _)), Z.div_add, Z.div_small, Z.add_0_l by lia.
  rewrite <- (take_drop 4 (drop k l)) at 2. rewrite le_value_app.
  assert (E4 : zlen (take 4 (drop k l)) = 4) by (unfold zlen; rewrite length_take, length_drop; lia). rewrite E4. change (256 ^ 4) with (2 ^ 32).
  pose proof (le_value_range (take 4 (drop k l)) (Forall_take _ _ _ (Forall_drop _ _ _ Hl))) as H4. rewrite E4 in H4. change (256 ^ 4) with (2 ^ 32) in H4.
  rewrite (Z.mul_comm (2 ^ 32)), Z.mod_add, Z.mod_small by lia. done.
Qed.

Lemma u8_land v : u8 (Z.land v 0xff) = v mod 256.
Proof. unfold u8. rewrite land_255. apply Z.mod_mod. lia. Qed.
Lemma WriteLittleEndian32_bytes v : WriteLittleEndian32 v = le_bytes 4 v.
Proof. unfold WriteLittleEndian32. rewrite !u8_land, !Z.shiftr_div_pow2 by lia. cbn [le_bytes]. by rewrite !Z.div_div by lia. Qed.
Lemma WriteLittleEndian64_bytes v : WriteLittleEndian64 v = le_bytes 8 v.
Proof. unfold WriteLittleEndian64. cbn [map]. rewrite !u8_land, !Z.shiftr_div_pow2 by lia. cbn [le_bytes]. by rewrite ?Z.div_div, ?Z.div_1_r by lia. Qed.

(** Concrete byte strings, by evaluation. *)
Lemma bytes_decide l : forallb (fun b => (0 <=? b) && (b <? 256)) l = true -> bytes l.
Proof.
  intros H. rewrite List.forallb_forall in H. apply Forall_forall. intros b Hb. apply list_elem_of_In in Hb. specialize (H b Hb).
  unfold is_byte. bool_lia.
Qed.
