(* ===== verification/Poly1305.v ===== *)
(** * Poly1305

    [Poly1305ProcessBlock] and [Poly1305] of crypto/Aead.cpp, which keep the
    accumulator in five limbs of 26 bits, against the definition of RFC 8439: the
    polynomial of the blocks, evaluated modulo 2^130-5. *)

From S2P Require Import Prelude LittleEndian.

(** [ULONG h[5]] and its like. *)
Record Limbs := MkLimbs { l0 : Z; l1 : Z; l2 : Z; l3 : Z; l4 : Z }.

Definition mask26 : Z := 0x3ffffff.

(** [RtlCopyMemory(padded, block, blockLength); padded[blockLength] = 1] on 17 zero bytes. *)
Definition padded (block : list Z) : list Z := block ++ [1] ++ replicate (16 - length block) 0.

Definition block_values (block : list Z) : Limbs :=
  MkLimbs (Z.land (ReadLittleEndian32 (padded block)) mask26)
    (Z.land (Z.shiftr (ReadLittleEndian32 (drop 3 (padded block))) 2) mask26)
    (Z.land (Z.shiftr (ReadLittleEndian32 (drop 6 (padded block))) 4) mask26)
    (Z.land (Z.shiftr (ReadLittleEndian32 (drop 9 (padded block))) 6) mask26)
    (Z.land (ReadLittleEndian32 (drop 13 (padded block))) mask26).

(** The products [d0] to [d4]; every addition is on 64 bits. *)
Definition products (h r : Limbs) : Limbs :=
  let s1 := u32 (l1 r * 5) in let s2 := u32 (l2 r * 5) in let s3 := u32 (l3 r * 5) in let s4 := u32 (l4 r * 5) in
  MkLimbs (l0 h *! l0 r +! l1 h *! s4 +! l2 h *! s3 +! l3 h *! s2 +! l4 h *! s1)
    (l0 h *! l1 r +! l1 h *! l0 r +! l2 h *! s4 +! l3 h *! s3 +! l4 h *! s2)
    (l0 h *! l2 r +! l1 h *! l1 r +! l2 h *! l0 r +! l3 h *! s4 +! l4 h *! s3)
    (l0 h *! l3 r +! l1 h *! l2 r +! l2 h *! l1 r +! l3 h *! l0 r +! l4 h *! s4)
    (l0 h *! l4 r +! l1 h *! l3 r +! l2 h *! l2 r +! l3 h *! l1 r +! l4 h *! l0 r).

(** The carries after the products. *)
Definition carry_products (d : Limbs) : Limbs :=
  let d0 := l0 d in
  let carry := u32 (Z.shiftr d0 26) in let h0 := Z.land (u32 d0) mask26 in
  let d1 := l1 d +! carry in
  let carry := u32 (Z.shiftr d1 26) in let h1 := Z.land (u32 d1) mask26 in
  let d2 := l2 d +! carry in
  let carry := u32 (Z.shiftr d2 26) in let h2 := Z.land (u32 d2) mask26 in
  let d3 := l3 d +! carry in
  let carry := u32 (Z.shiftr d3 26) in let h3 := Z.land (u32 d3) mask26 in
  let d4 := l4 d +! carry in
  let carry := u32 (Z.shiftr d4 26) in let h4 := Z.land (u32 d4) mask26 in
  let h0 := u32 (h0 + u32 (carry * 5)) in
  let carry := Z.shiftr h0 26 in
  MkLimbs (Z.land h0 mask26) (u32 (h1 + carry)) h2 h3 h4.

Definition add_limbs (h v : Limbs) : Limbs :=
  MkLimbs (u32 (l0 h + l0 v)) (u32 (l1 h + l1 v)) (u32 (l2 h + l2 v)) (u32 (l3 h + l3 v)) (u32 (l4 h + l4 v)).

Definition Poly1305ProcessBlock (h r : Limbs) (block : list Z) : Limbs :=
  carry_products (products (add_limbs h (block_values block)) r).

(** The clamped multiplier, from the first half of the key. *)
Definition clamp_r (key : list Z) : Limbs :=
  let t0 := ReadLittleEndian32 key in let t1 := ReadLittleEndian32 (drop 4 key) in
  let t2 := ReadLittleEndian32 (drop 8 key) in let t3 := ReadLittleEndian32 (drop 12 key) in
  MkLimbs (Z.land t0 0x3ffffff)
    (Z.land (Z.lor (Z.shiftr t0 26) (u32 (Z.shiftl t1 6))) 0x3ffff03)
    (Z.land (Z.lor (Z.shiftr t1 20) (u32 (Z.shiftl t2 12))) 0x3ffc0ff)
    (Z.land (Z.lor (Z.shiftr t2 14) (u32 (Z.shiftl t3 18))) 0x3f03fff)
    (Z.land (Z.shiftr t3 8) 0x00fffff).

(** The loop over the message; a turn consumes at least a byte, so its length is
    enough fuel. *)
Fixpoint poly_blocks (fuel : nat) (h r : Limbs) (message : list Z) : Limbs :=
  match fuel with
  | O => h
  | S fuel =>
      match message with
      | [] => h
      | _ => poly_blocks fuel (Poly1305ProcessBlock h r (take 16 message)) r (drop 16 message)
      end
  end.

(** The carries after the loop. *)
Definition carry_all (h : Limbs) : Limbs :=
  let carry := Z.shiftr (l1 h) 26 in let h1 := Z.land (l1 h) mask26 in
  let h2 := u32 (l2 h + carry) in
  let carry := Z.shiftr h2 26 in let h2 := Z.land h2 mask26 in
  let h3 := u32 (l3 h + carry) in
  let carry := Z.shiftr h3 26 in let h3 := Z.land h3 mask26 in
  let h4 := u32 (l4 h + carry) in
  let carry := Z.shiftr h4 26 in let h4 := Z.land h4 mask26 in
  let h0 := u32 (l0 h + u32 (carry * 5)) in
  let carry := Z.shiftr h0 26 in let h0 := Z.land h0 mask26 in
  MkLimbs h0 (u32 (h1 + carry)) h2 h3 h4.

(** [g], the accumulator less 2^130-5, in wrapping arithmetic. *)
Definition minus_p (h : Limbs) : Limbs :=
  let g0 := u32 (l0 h + 5) in
  let carry := Z.shiftr g0 26 in let g0 := Z.land g0 mask26 in
  let g1 := u32 (l1 h + carry) in
  let carry := Z.shiftr g1 26 in let g1 := Z.land g1 mask26 in
  let g2 := u32 (l2 h + carry) in
  let carry := Z.shiftr g2 26 in let g2 := Z.land g2 mask26 in
  let g3 := u32 (l3 h + carry) in
  let carry := Z.shiftr g3 26 in let g3 := Z.land g3 mask26 in
  MkLimbs g0 g1 g2 g3 (u32 (u32 (l4 h + carry) - 2 ^ 26)).

(** The selection by a mask, without a branch. *)
Definition select_limb (mask h g : Z) : Z := Z.lor (Z.land h (MAXU32 - mask)) (Z.land g mask).
Definition select_reduced (h : Limbs) : Limbs :=
  let g := minus_p h in
  let mask := u32 (Z.shiftr (l4 g) 31 - 1) in
  MkLimbs (select_limb mask (l0 h) (l0 g)) (select_limb mask (l1 h) (l1 g)) (select_limb mask (l2 h) (l2 g))
    (select_limb mask (l3 h) (l3 g)) (select_limb mask (l4 h) (l4 g)).

(** [f0] to [f3] and the tag. *)
Definition poly_tag (key : list Z) (h : Limbs) : list Z :=
  let f0 := Z.land (Z.lor (l0 h) (u64 (Z.shiftl (l1 h) 26))) 0xffffffff +! ReadLittleEndian32 (drop 16 key) in
  let f1 := Z.land (Z.lor (Z.shiftr (l1 h) 6) (u64 (Z.shiftl (l2 h) 20))) 0xffffffff
            +! ReadLittleEndian32 (drop 20 key) +! Z.shiftr f0 32 in
  let f2 := Z.land (Z.lor (Z.shiftr (l2 h) 12) (u64 (Z.shiftl (l3 h) 14))) 0xffffffff
            +! ReadLittleEndian32 (drop 24 key) +! Z.shiftr f1 32 in
  let f3 := Z.land (Z.lor (Z.shiftr (l3 h) 18) (u64 (Z.shiftl (l4 h) 8))) 0xffffffff
            +! ReadLittleEndian32 (drop 28 key) +! Z.shiftr f2 32 in
  WriteLittleEndian32 (u32 f0) ++ WriteLittleEndian32 (u32 f1) ++ WriteLittleEndian32 (u32 f2) ++ WriteLittleEndian32 (u32 f3).

Definition Poly1305 (key message : list Z) : list Z :=
  poly_tag key (select_reduced (carry_all (poly_blocks (length message) (MkLimbs 0 0 0 0 0) (clamp_r key) message))).

(** ** Specification (RFC 8439, 2.5) *)

Definition p1305 : Z := 2 ^ 130 - 5.
Definition clamp : Z := 0x0ffffffc0ffffffc0ffffffc0fffffff.
Definition poly_r (key : list Z) : Z := Z.land (le_value (take 16 key)) clamp.
Definition poly_s (key : list Z) : Z := le_value (take 16 (drop 16 key)).
(** A block with the bit above its last byte. *)
Definition block_number (block : list Z) : Z := le_value block + 256 ^ zlen block.
Fixpoint poly_eval (fuel : nat) (acc r : Z) (message : list Z) : Z :=
  match fuel with
  | O => acc
  | S fuel =>
      match message with
      | [] => acc
      | _ => poly_eval fuel ((acc + block_number (take 16 message)) * r mod p1305) r (drop 16 message)
      end
  end.
Definition poly1305_spec (key message : list Z) : list Z :=
  le_bytes 16 (poly_eval (length message) 0 (poly_r key) message + poly_s key).

(** The vector of RFC 8439, 2.5.2. *)
Example poly1305_vector :
  Poly1305
    [0x85;0xd6;0xbe;0x78;0x57;0x55;0x6d;0x33;0x7f;0x44;0x52;0xfe;0x42;0xd5;0x06;0xa8;
     0x01;0x03;0x80;0x8a;0xfb;0x0d;0xb2;0xfd;0x4a;0xbf;0xf6;0xaf;0x41;0x49;0xf5;0x1b]
    [0x43;0x72;0x79;0x70;0x74;0x6f;0x67;0x72;0x61;0x70;0x68;0x69;0x63;0x20;0x46;0x6f;0x72
     ;0x75;0x6d;0x20;0x52;0x65;0x73;0x65;0x61;0x72;0x63;0x68;0x20;0x47;0x72;0x6f;0x75;0x70]
  = [0xa8;0x06;0x1d;0xc1;0x30;0x51;0x36;0xc6;0xc2;0x2b;0x8b;0xaf;0x0c;0x01;0x27;0xa9].
Proof. by vm_compute. Qed.

(** ** Limbs *)

Definition limbs_value (h : Limbs) : Z := l0 h + 2 ^ 26 * l1 h + 2 ^ 52 * l2 h + 2 ^ 78 * l3 h + 2 ^ 104 * l4 h.
(** Every limb below 2^26. *)
Definition limbs_reduced (h : Limbs) : Prop :=
  (0 <= l0 h < 2 ^ 26 /\ 0 <= l1 h < 2 ^ 26 /\ 0 <= l2 h < 2 ^ 26) /\ 0 <= l3 h < 2 ^ 26 /\ 0 <= l4 h < 2 ^ 26.
(** What a block leaves: the second limb holds the last carry. *)
Definition limbs_loose (h : Limbs) : Prop :=
  (0 <= l0 h < 2 ^ 26 /\ 0 <= l1 h < 2 ^ 26 + 2 ^ 6 /\ 0 <= l2 h < 2 ^ 26) /\ 0 <= l3 h < 2 ^ 26 /\ 0 <= l4 h < 2 ^ 26.

Lemma mask26_mod x : Z.land x mask26 = x mod 2 ^ 26.
Proof. by apply (land_ones_mod x 26). Qed.

(** 26 bits from the word at a byte offset. *)
Lemma word_limb x a b : 0 <= b <= 6 -> Z.land (Z.shiftr ((x / 2 ^ a) mod 2 ^ 32) b) mask26 = (x / 2 ^ a / 2 ^ b) mod 2 ^ 26.
Proof.
  intros Hb. rewrite mask26_mod, Z.shiftr_div_pow2 by lia. generalize (x / 2 ^ a) as y. intros y.
  apply Z.bits_inj'. intros i Hi. destruct (Z.lt_ge_cases i 26); [|by rewrite !Z.mod_pow2_bits_high by lia].
  by rewrite !Z.mod_pow2_bits_low, !Z.div_pow2_bits, Z.mod_pow2_bits_low by lia.
Qed.
(** 26 bits across two words. *)
Lemma word_straddle x a : 6 <= a < 32 ->
  Z.lor (Z.shiftr (x mod 2 ^ 32) a) (u32 (Z.shiftl ((x / 2 ^ 32) mod 2 ^ 32) (32 - a))) mod 2 ^ 26 = (x / 2 ^ a) mod 2 ^ 26.
Proof.
  intros Ha. apply Z.bits_inj'. intros i Hi. destruct (Z.lt_ge_cases i 26); [|by rewrite !Z.mod_pow2_bits_high by lia].
  unfold u32. rewrite !Z.mod_pow2_bits_low, Z.lor_spec, Z.shiftr_spec, Z.div_pow2_bits by lia.
  rewrite (Z.mod_pow2_bits_low _ 32 i), Z.shiftl_spec by lia.
  destruct (Z.lt_ge_cases (i + a) 32).
  - rewrite Z.mod_pow2_bits_low by lia. rewrite (Z.testbit_neg_r _ (i - (32 - a))), orb_false_r by lia. done.
  - rewrite Z.mod_pow2_bits_high, Z.mod_pow2_bits_low, Z.div_pow2_bits by lia. cbn [orb]. f_equal. lia.
Qed.
Lemma word_straddle_at x k a : 0 <= k -> 6 <= a < 32 ->
  Z.lor (Z.shiftr ((x / 2 ^ k) mod 2 ^ 32) a) (u32 (Z.shiftl ((x / 2 ^ (k + 32)) mod 2 ^ 32) (32 - a))) mod 2 ^ 26 = (x / 2 ^ (k + a)) mod 2 ^ 26.
Proof. intros Hk Ha. rewrite !Z.pow_add_r, <- !Z.div_div by lia. by apply word_straddle. Qed.
Lemma word_shift x k a n : 0 <= k -> 0 <= a -> 0 <= n -> n + a <= 32 -> Z.shiftr ((x / 2 ^ k) mod 2 ^ 32) a mod 2 ^ n = (x / 2 ^ (k + a)) mod 2 ^ n.
Proof.
  intros Hk Ha Hn Hna. rewrite !Z.pow_add_r, <- !Z.div_div by lia. generalize (x / 2 ^ k) as y. intros y.
  apply Z.bits_inj'. intros i Hi. destruct (Z.lt_ge_cases i n); [|by rewrite !Z.mod_pow2_bits_high by lia].
  by rewrite !Z.mod_pow2_bits_low, Z.shiftr_spec, Z.div_pow2_bits, Z.mod_pow2_bits_low by lia.
Qed.
Lemma land_low n x y m : 0 <= n -> 0 <= m < 2 ^ n -> x mod 2 ^ n = y mod 2 ^ n -> Z.land x m = Z.land y m.
Proof.
  intros Hn Hm E. assert (Em : Z.land m (Z.ones n) = m) by (rewrite Z.land_ones, Z.mod_small by lia; done).
  rewrite <- Em, !(Z.land_comm m), !Z.land_assoc, !Z.land_ones by lia. by rewrite E.
Qed.

(** The limbs of a number below 2^130 are its digits. *)
Lemma digits26 x : 0 <= x < 2 ^ 130 ->
  x = x mod 2 ^ 26 + 2 ^ 26 * ((x / 2 ^ 26) mod 2 ^ 26) + 2 ^ 52 * ((x / 2 ^ 52) mod 2 ^ 26)
      + 2 ^ 78 * ((x / 2 ^ 78) mod 2 ^ 26) + 2 ^ 104 * ((x / 2 ^ 104) mod 2 ^ 26).
Proof.
  intros Hx. replace (x / 2 ^ 104) with (x / 2 ^ 78 / 2 ^ 26) by (by rewrite Z.div_div by lia).
  replace (x / 2 ^ 78) with (x / 2 ^ 52 / 2 ^ 26) by (by rewrite Z.div_div by lia).
  replace (x / 2 ^ 52) with (x / 2 ^ 26 / 2 ^ 26) by (by rewrite Z.div_div by lia).
  pose proof (Z.div_mod x (2 ^ 26) ltac:(lia)). set (y1 := x / 2 ^ 26) in *. pose proof (Z.div_mod y1 (2 ^ 26) ltac:(lia)). set (y2 := y1 / 2 ^ 26) in *.
  pose proof (Z.div_mod y2 (2 ^ 26) ltac:(lia)). set (y3 := y2 / 2 ^ 26) in *. pose proof (Z.div_mod y3 (2 ^ 26) ltac:(lia)). set (y4 := y3 / 2 ^ 26) in *.
  assert (0 <= y4 < 2 ^ 26).
  { unfold y4, y3, y2, y1. rewrite !Z.div_div by lia. split; [apply Z.div_pos; lia|apply Z.div_lt_upper_bound; lia]. }
  rewrite (Z.mod_small y4) by done. lia.
Qed.

Lemma word_at l k : bytes l -> (k + 4 <= length l)%nat -> ReadLittleEndian32 (drop k l) = (le_value l / 2 ^ (8 * Z.of_nat k)) mod 2 ^ 32.
Proof. intros Hl Hk. rewrite ReadLittleEndian32_at by done. by rewrite Z.pow_mul_r by lia. Qed.
Lemma word_0 l : bytes l -> (4 <= length l)%nat -> ReadLittleEndian32 l = le_value l mod 2 ^ 32.
Proof. intros Hl Hk. rewrite <- (drop_0 l) at 1. rewrite word_at by done. by rewrite Z.div_1_r. Qed.

(** ** The block *)

Lemma padded_bytes block : bytes block -> bytes (padded block).
Proof.
  intros Hb. unfold padded. apply Forall_app. split; [done|]. apply Forall_app.
  split; [by apply Forall_singleton|by apply Forall_replicate].
Qed.
Lemma padded_length block : (length block <= 16)%nat -> length (padded block) = 17%nat.
Proof. intros. unfold padded. rewrite !length_app, length_replicate. cbn [length]. lia. Qed.
Lemma padded_value block : le_value (padded block) = block_number block.
Proof. unfold padded, block_number. rewrite !le_value_app, le_value_zeros. change (le_value [1]) with 1. by rewrite Z.mul_0_r, Z.add_0_r, Z.mul_1_r. Qed.
Lemma block_number_range block : bytes block -> (length block <= 16)%nat -> 0 < block_number block < 2 ^ 129.
Proof.
  intros Hb Hl. pose proof (le_value_range block Hb). unfold block_number. pose proof (pow256_pos (length block)) as Hp.
  change (Z.of_nat (length block)) with (zlen block) in Hp.
  assert (256 ^ zlen block <= 256 ^ 16) by (apply Z.pow_le_mono_r; unfold zlen; lia). change (256 ^ 16) with (2 ^ 128) in *. lia.
Qed.
Lemma word_low x : Z.land (x mod 2 ^ 32) mask26 = x mod 2 ^ 26.
Proof. pose proof (word_limb x 0 0 ltac:(lia)) as H. by rewrite Z.shiftr_0_r, !Z.div_1_r in H. Qed.
Definition digits_of (x : Z) : Limbs :=
  MkLimbs (x mod 2 ^ 26) ((x / 2 ^ 26) mod 2 ^ 26) ((x / 2 ^ 52) mod 2 ^ 26) ((x / 2 ^ 78) mod 2 ^ 26) ((x / 2 ^ 104) mod 2 ^ 26).
Lemma digits_of_reduced x : limbs_reduced (digits_of x).
Proof. repeat split; apply Z.mod_pos_bound; lia. Qed.
Lemma digits_of_value x : 0 <= x < 2 ^ 130 -> limbs_value (digits_of x) = x.
Proof. intros Hx. symmetry. by apply digits26. Qed.
Lemma block_values_digits block : bytes block -> (length block <= 16)%nat -> block_values block = digits_of (block_number block).
Proof.
  intros Hb Hl. pose proof (padded_bytes block Hb) as Hpb. pose proof (padded_length block Hl) as Hpl.
  unfold block_values, digits_of. rewrite word_0, !word_at, padded_value by (done || lia).
  rewrite !word_limb, !word_low, !Z.div_div, <- !Z.pow_add_r by lia. done.
Qed.

(** ** The multiplier *)

Lemma digit_land x m a : 0 <= a -> (Z.land x m / 2 ^ a) mod 2 ^ 26 = Z.land (x / 2 ^ a) ((m / 2 ^ a) mod 2 ^ 26).
Proof. intros Ha. by rewrite <- !Z.shiftr_div_pow2, Z.shiftr_land, <- !Z.land_ones, Z.land_assoc by lia. Qed.

Section Multiplier.
Context (key : list Z) (Hk : bytes key) (Hl : length key = 32%nat).

Lemma poly_r_land : poly_r key = Z.land (le_value key) clamp.
  Proof using Hk Hl.
    unfold poly_r. apply (land_low 128); [done|by vm_compute|].
    rewrite <- (take_drop 16 key) at 2. rewrite le_value_app. unfold zlen. rewrite length_take, Hl.
    change (256 ^ Z.of_nat (16 `min` 32)) with (2 ^ 128). by rewrite (Z.mul_comm (2 ^ 128)), Z.mod_add by done.
  Qed.
Lemma poly_r_range : 0 <= poly_r key < 2 ^ 124.
  Proof using Hk Hl.
    unfold poly_r. assert (Hc : 0 <= le_value (take 16 key)) by (apply le_value_range; by apply Forall_take).
    split; [by apply Z.land_nonneg; left|]. apply Z.le_lt_trans with clamp; [|by vm_compute].
    apply Z.ldiff_le; [done|]. apply Z.bits_inj'. intros i Hi. rewrite Z.ldiff_spec, Z.land_spec, Z.bits_0.
    by destruct (Z.testbit clamp i); rewrite ?andb_false_r, ?andb_true_r.
  Qed.
Lemma clamp_r_digits : clamp_r key = digits_of (poly_r key).
  Proof using Hk Hl.
    rewrite poly_r_land. unfold clamp_r, digits_of. rewrite word_0, !word_at by (done || lia).
    rewrite <- (Z.div_1_r (Z.land (le_value key) clamp)) at 1. rewrite <- (Z.div_1_r (le_value key)) at 1 2.
    change (?x / 1) with (x / 2 ^ 0). rewrite !digit_land by lia.
    pose proof (word_shift (le_value key) 0 0 26) as W0. pose proof (word_straddle_at (le_value key) 0 26) as W1.
    pose proof (word_straddle_at (le_value key) 32 20) as W2. pose proof (word_straddle_at (le_value key) 64 14) as W3.
    pose proof (word_shift (le_value key) 96 8 20) as W4.
    replace ((clamp / 2 ^ 0) mod 2 ^ 26) with 0x3ffffff by (by vm_compute).
    replace ((clamp / 2 ^ 26) mod 2 ^ 26) with 0x3ffff03 by (by vm_compute).
    replace ((clamp / 2 ^ 52) mod 2 ^ 26) with 0x3ffc0ff by (by vm_compute).
    replace ((clamp / 2 ^ 78) mod 2 ^ 26) with 0x3f03fff by (by vm_compute).
    replace ((clamp / 2 ^ 104) mod 2 ^ 26) with 0x00fffff by (by vm_compute).
    f_equal.
    - apply (land_low 26); [done|done|]. rewrite Z.shiftr_0_r in W0. apply W0; lia.
    - apply (land_low 26); [done|done|]. apply W1; lia.
    - apply (land_low 26); [done|done|]. apply W2; lia.
    - apply (land_low 26); [done|done|]. apply W3; lia.
    - apply (land_low 20); [done|done|]. apply W4; lia.
  Qed.
End Multiplier.

(** ** Multiplication and carries *)

Definition limb_max : Z := 2 ^ 27 + 2 ^ 6.
Definition limbs_bounded (h : Limbs) : Prop :=
  (0 <= l0 h < limb_max /\ 0 <= l1 h < limb_max /\ 0 <= l2 h < limb_max) /\ 0 <= l3 h < limb_max /\ 0 <= l4 h < limb_max.

Lemma mul_bound a b A B : 0 <= a <= A -> 0 <= b <= B -> 0 <= a * b <= A * B.
Proof. nia. Qed.

(** The product without its wrap-arounds. *)
Definition wide_products (h r : Limbs) : Limbs :=
  MkLimbs (l0 h * l0 r + l1 h * (l4 r * 5) + l2 h * (l3 r * 5) + l3 h * (l2 r * 5) + l4 h * (l1 r * 5))
    (l0 h * l1 r + l1 h * l0 r + l2 h * (l4 r * 5) + l3 h * (l3 r * 5) + l4 h * (l2 r * 5))
    (l0 h * l2 r + l1 h * l1 r + l2 h * l0 r + l3 h * (l4 r * 5) + l4 h * (l3 r * 5))
    (l0 h * l3 r + l1 h * l2 r + l2 h * l1 r + l3 h * l0 r + l4 h * (l4 r * 5))
    (l0 h * l4 r + l1 h * l3 r + l2 h * l2 r + l3 h * l1 r + l4 h * l0 r).

(** The bound of one product: [limb_max * 2^26]. *)
Definition one_product : Z := limb_max * 2 ^ 26.
Definition products_bounded (d : Limbs) : Prop :=
  (0 <= l0 d <= 21 * one_product /\ 0 <= l1 d <= 17 * one_product /\ 0 <= l2 d <= 13 * one_product)
  /\ 0 <= l3 d <= 9 * one_product /\ 0 <= l4 d <= 5 * one_product.

Lemma one_mul h r : 0 <= h < limb_max -> 0 <= r < 2 ^ 26 -> 0 <= h * r <= 1 * one_product.
Proof. intros Hh Hr. rewrite Z.mul_1_l. apply mul_bound; lia. Qed.
Lemma five_mul h r : 0 <= h < limb_max -> 0 <= r < 2 ^ 26 -> 0 <= h * (r * 5) <= 5 * one_product.
Proof. intros Hh Hr. pose proof (one_mul h r Hh Hr). lia. Qed.
Lemma sum5 a b c d e ka kb kc kd ke n m :
  0 <= a <= ka * m -> 0 <= b <= kb * m -> 0 <= c <= kc * m -> 0 <= d <= kd * m -> 0 <= e <= ke * m ->
  n = ka + kb + kc + kd + ke -> 0 <= a + b + c + d + e <= n * m.
Proof. intros ? ? ? ? ? ->. lia. Qed.

Lemma wide_products_bounded h r : limbs_bounded h -> limbs_reduced r -> products_bounded (wide_products h r).
Proof.
  intros [(H0 & H1 & H2) [H3 H4]] [(R0 & R1 & R2) [R3 R4]].
  unfold products_bounded, wide_products. cbn [l0 l1 l2 l3 l4].
  split; [split; [|split]|split]; eapply sum5;
    first [by apply one_mul | by apply five_mul | reflexivity].
Qed.

Lemma u64_add_l a b : u64 (u64 a + b) = u64 (a + b).
Proof. apply Z.add_mod_idemp_l. lia. Qed.
Lemma u64_sum5 a b c d e : a +! b +! c +! d +! e = u64 (a + b + c + d + e).
Proof. by rewrite (u64_add_l (a + b)), (u64_add_l (a + b + c)), (u64_add_l (a + b + c + d)). Qed.
Lemma one_u64 h r : 0 <= h < limb_max -> 0 <= r < 2 ^ 26 -> u64 (h * r) = h * r.
Proof. intros Hh Hr. pose proof (one_mul h r Hh Hr). assert (1 * one_product < 2 ^ 64) by done. apply u64_id. lia. Qed.
Lemma five_u64 h r : 0 <= h < limb_max -> 0 <= r < 2 ^ 26 -> u64 (h * (r * 5)) = h * (r * 5).
Proof. intros Hh Hr. pose proof (five_mul h r Hh Hr). assert (5 * one_product < 2 ^ 64) by done. apply u64_id. lia. Qed.

Lemma products_wide h r : limbs_bounded h -> limbs_reduced r -> products h r = wide_products h r.
Proof.
  intros Hh Hr. pose proof (wide_products_bounded h r Hh Hr) as [(D0 & D1 & D2) [D3 D4]].
  destruct Hr as [(R0 & R1 & R2) [R3 R4]].
  unfold products, wide_products in *. cbn [l0 l1 l2 l3 l4] in *. rewrite !(u32_id (_ * 5)) by lia.
  destruct Hh as [(H0 & H1 & H2) [H3 H4]]. rewrite !five_u64, !one_u64 by done. rewrite !u64_sum5. assert (21 * one_product < 2 ^ 64) by done.
  rewrite !u64_id by lia. done.
Qed.

(** The terms of the product at 2^130 and above count five times each. *)
Definition high_terms (h r : Limbs) : Z :=
  (l1 h * l4 r + l2 h * l3 r + l3 h * l2 r + l4 h * l1 r) + 2 ^ 26 * (l2 h * l4 r + l3 h * l3 r + l4 h * l2 r)
  + 2 ^ 52 * (l3 h * l4 r + l4 h * l3 r) + 2 ^ 78 * (l4 h * l4 r).
Lemma wide_products_value h r : limbs_value (wide_products h r) = limbs_value h * limbs_value r - high_terms h r * p1305.
Proof. unfold limbs_value, wide_products, high_terms, p1305. cbn [l0 l1 l2 l3 l4]. ring. Qed.

(** From here on [lia] reasons about quotients. *)
#[local] Ltac Zify.zify_post_hook ::= Z.div_mod_to_equations.

(** [carry_products] without wrap-arounds. *)
Lemma carry_products_ok d : products_bounded d ->
  limbs_loose (carry_products d) /\ exists k, limbs_value (carry_products d) = limbs_value d - k * p1305.
Proof.
  destruct d as [d0 d1 d2 d3 d4]. intros [(D0 & D1 & D2) [D3 D4]]. cbn [l0 l1 l2 l3 l4] in *.
  change one_product with 9007203549708288 in *. unfold carry_products. cbn [l0 l1 l2 l3 l4].
  rewrite !mask26_mod, !Z.shiftr_div_pow2 by lia.
  assert (Hu : forall x, u32 x mod 2 ^ 26 = x mod 2 ^ 26) 
    by (intros x; apply Z.mod_mod_divide; by exists 64).
  rewrite !Hu. rewrite (u32_id (d0 / 2 ^ 26)) by lia. rewrite (u64_id (d1 + d0 / 2 ^ 26)) by lia.
  set (e1 := d1 + d0 / 2 ^ 26). assert (0 <= e1 <= 18 * 9007203549708288) by lia.
  rewrite (u32_id (e1 / 2 ^ 26)) by lia. rewrite (u64_id (d2 + e1 / 2 ^ 26)) by lia.
  set (e2 := d2 + e1 / 2 ^ 26). assert (0 <= e2 <= 14 * 9007203549708288) by lia.
  rewrite (u32_id (e2 / 2 ^ 26)) by lia. rewrite (u64_id (d3 + e2 / 2 ^ 26)) by lia.
  set (e3 := d3 + e2 / 2 ^ 26). assert (0 <= e3 <= 10 * 9007203549708288) by lia.
  rewrite (u32_id (e3 / 2 ^ 26)) by lia. rewrite (u64_id (d4 + e3 / 2 ^ 26)) by lia.
  set (e4 := d4 + e3 / 2 ^ 26). assert (0 <= e4 <= 5 * 9007203549708288 + 2 ^ 31) by lia.
  rewrite (u32_id (e4 / 2 ^ 26)) by lia. rewrite (u32_id (e4 / 2 ^ 26 * 5)) by lia.
  set (f0 := d0 mod 2 ^ 26 + e4 / 2 ^ 26 * 5). assert (0 <= f0 < 2 ^ 32) by lia.
  rewrite (u32_id f0) by lia. rewrite (u32_id (e1 mod 2 ^ 26 + f0 / 2 ^ 26)) by lia.
  split.
  - unfold limbs_loose. cbn [l0 l1 l2 l3 l4]. clearbody f0 e4 e3 e2 e1. repeat split; lia.
  - exists (e4 / 2 ^ 26). unfold limbs_value, p1305. cbn [l0 l1 l2 l3 l4].
    assert (E : forall x, x mod 2 ^ 26 = x - 2 ^ 26 * (x / 2 ^ 26)) by (intros x; lia). rewrite !E. unfold f0, e4, e3, e2, e1.
    rewrite !E. ring.
Qed.

Lemma add_limbs_ok h v : limbs_loose h -> limbs_reduced v ->
  limbs_bounded (add_limbs h v) /\ limbs_value (add_limbs h v) = limbs_value h + limbs_value v.
Proof.
  destruct h as [h0 h1 h2 h3 h4], v as [v0 v1 v2 v3 v4]. intros [(H0 & H1 & H2) [H3 H4]] [(V0 & V1 & V2) [V3 V4]].
  unfold add_limbs, limbs_value, limbs_bounded, limb_max. cbn [l0 l1 l2 l3 l4] in *. rewrite !u32_id by lia.
  split; [repeat split; lia|ring].
Qed.

(** A block adds its number and multiplies, modulo 2^130-5. *)
Lemma process_block_ok h r block : limbs_loose h -> limbs_reduced r -> bytes block -> (length block <= 16)%nat ->
  limbs_loose (Poly1305ProcessBlock h r block)
  /\ limbs_value (Poly1305ProcessBlock h r block) mod p1305 = (limbs_value h + block_number block) * limbs_value r mod p1305.
Proof.
  intros Hh Hr Hb Hl. unfold Poly1305ProcessBlock. rewrite block_values_digits by done.
  destruct (add_limbs_ok h (digits_of (block_number block))) as [Ha Ea]; [done|apply digits_of_reduced|].
  rewrite digits_of_value in Ea by (pose proof (block_number_range block Hb Hl); lia).
  rewrite products_wide by done. destruct (carry_products_ok _ (wide_products_bounded _ _ Ha Hr)) as [Hc [k Ek]].
  split; [done|]. rewrite Ek, wide_products_value, Ea. generalize (high_terms (add_limbs h (digits_of (block_number block))) r) as t. intros t.
  rewrite <- Z.sub_add_distr, <- Z.mul_add_distr_r. by rewrite <- (Z.mod_add _ (t + k) p1305), Z.sub_add by done.
Qed.

Lemma poly_blocks_ok fuel h r message acc : limbs_loose h -> limbs_reduced r -> bytes message -> limbs_value h mod p1305 = acc mod p1305 ->
  limbs_loose (poly_blocks fuel h r message)
  /\ limbs_value (poly_blocks fuel h r message) mod p1305 = poly_eval fuel acc (limbs_value r) message mod p1305.
Proof.
  revert h message acc. induction fuel as [|fuel IH]; intros h message acc Hh Hr Hm E; [done|].
  cbn [poly_blocks poly_eval]. destruct message as [|b message]; [done|].
  set (block := take 16 (b :: message)). assert (Hb : bytes block) by (by apply Forall_take).
  assert (Hl : (length block <= 16)%nat) by (unfold block; rewrite length_take; lia).
  destruct (process_block_ok h r block Hh Hr Hb Hl) as [Hh' E'].
  apply IH; [done|done|by apply Forall_drop|]. rewrite E', Z.mod_mod by done.
  rewrite Z.mul_mod, Z.add_mod, E, <- Z.add_mod, <- Z.mul_mod by done. done.
Qed.
Lemma poly_eval_range fuel acc r message : 0 <= acc < p1305 -> 0 <= poly_eval fuel acc r message < p1305.
Proof.
  revert acc message. induction fuel as [|fuel IH]; intros acc message Ha; [done|]. cbn [poly_eval].
  destruct message; [done|]. apply IH, Z.mod_pos_bound. done.
Qed.

(** ** The last reduction *)

Lemma limbs_value_range h : limbs_reduced h -> 0 <= limbs_value h < 2 ^ 130.
Proof. intros [(H0 & H1 & H2) [H3 H4]]. unfold limbs_value. lia. Qed.

(** The carry out of the fifth limb needs a carry out of the second, which then is
    small, so that the carries end at the second limb. *)
Lemma carry_all_ok h : limbs_loose h ->
  limbs_reduced (carry_all h) /\ limbs_value (carry_all h) mod p1305 = limbs_value h mod p1305.
Proof.
  destruct h as [h0 h1 h2 h3 h4]. intros [(H0 & H1 & H2) [H3 H4]]. cbn [l0 l1 l2 l3 l4] in *.
  unfold carry_all. cbn [l0 l1 l2 l3 l4]. rewrite !mask26_mod, !Z.shiftr_div_pow2 by lia.
  set (c1 := h1 / 2 ^ 26). assert (0 <= c1 <= 1 /\ (c1 = 1 -> h1 mod 2 ^ 26 < 2 ^ 6)) as [Hc1 Hs] by lia.
  rewrite (u32_id (h2 + c1)) by lia.
  set (c2 := (h2 + c1) / 2 ^ 26). assert (0 <= c2 <= c1) by lia.
  rewrite (u32_id (h3 + c2)) by lia.
  set (c3 := (h3 + c2) / 2 ^ 26). assert (0 <= c3 <= c2) by lia.
  rewrite (u32_id (h4 + c3)) by lia.
  set (c4 := (h4 + c3) / 2 ^ 26). assert (0 <= c4 <= c3) by lia.
  rewrite (u32_id (c4 * 5)) by lia. rewrite (u32_id (h0 + c4 * 5)) by lia.
  set (c0 := (h0 + c4 * 5) / 2 ^ 26). assert (0 <= c0 <= c4) by lia.
  assert (Hr : 0 <= h1 mod 2 ^ 26 + c0 < 2 ^ 26) by lia. rewrite (u32_id (h1 mod 2 ^ 26 + c0)) by lia.
  split.
  - unfold limbs_reduced. cbn [l0 l1 l2 l3 l4]. repeat split; try apply Z.mod_pos_bound; lia.
  - unfold limbs_value. cbn [l0 l1 l2 l3 l4].
    rewrite <- (Z.mod_add _ c4 p1305) by done. f_equal.
    assert (E : forall x, x mod 2 ^ 26 = x - 2 ^ 26 * (x / 2 ^ 26)) by (intros x; lia). rewrite !E.
    fold c1 c2 c3 c4 c0. unfold p1305. ring.
Qed.

Lemma land_MAXU32 x : 0 <= x < 2 ^ 32 -> Z.land x MAXU32 = x.
Proof. intros Hx. unfold MAXU32. rewrite land_ones_mod by lia. by apply Z.mod_small. Qed.
Lemma select_limb_all h g : 0 <= g < 2 ^ 32 -> select_limb MAXU32 h g = g.
Proof. intros Hg. unfold select_limb. rewrite Z.sub_diag, Z.land_0_r, land_MAXU32 by done. done. Qed.
Lemma select_limb_none h g : 0 <= h < 2 ^ 32 -> select_limb 0 h g = h.
Proof. intros Hh. unfold select_limb. rewrite Z.sub_0_r, Z.land_0_r, Z.lor_0_r. by apply land_MAXU32. Qed.

Lemma four_digits a b c d : 0 <= a < 2 ^ 26 -> 0 <= b < 2 ^ 26 -> 0 <= c < 2 ^ 26 -> 0 <= d < 2 ^ 26 ->
  0 <= a + 2 ^ 26 * b + 2 ^ 52 * c + 2 ^ 78 * d < 2 ^ 104.
Proof. lia. Qed.
(** [g4] tells whether the accumulator reaches 2^130-5. *)
Lemma minus_p_ok h : limbs_reduced h ->
  if p1305 <=? limbs_value h
  then limbs_reduced (minus_p h) /\ limbs_value (minus_p h) = limbs_value h - p1305
  else Z.shiftr (l4 (minus_p h)) 31 = 1.
Proof.
  destruct h as [h0 h1 h2 h3 h4]. intros [(H0 & H1 & H2) [H3 H4]]. cbn [l0 l1 l2 l3 l4] in *.
  unfold minus_p. cbn [l0 l1 l2 l3 l4]. rewrite !mask26_mod, !Z.shiftr_div_pow2 by lia.
  rewrite (u32_id (h0 + 5)) by lia. set (c0 := (h0 + 5) / 2 ^ 26). assert (0 <= c0 <= 1) by lia.
  rewrite (u32_id (h1 + c0)) by lia. set (c1 := (h1 + c0) / 2 ^ 26). assert (0 <= c1 <= 1) by lia.
  rewrite (u32_id (h2 + c1)) by lia. set (c2 := (h2 + c1) / 2 ^ 26). assert (0 <= c2 <= 1) by lia.
  rewrite (u32_id (h3 + c2)) by lia. set (c3 := (h3 + c2) / 2 ^ 26). assert (0 <= c3 <= 1) by lia.
  rewrite (u32_id (h4 + c3)) by lia.
  set (low := (h0 + 5) mod 2 ^ 26 + 2 ^ 26 * ((h1 + c0) mod 2 ^ 26) + 2 ^ 52 * ((h2 + c1) mod 2 ^ 26) + 2 ^ 78 * ((h3 + c2) mod 2 ^ 26)).
  assert (E : forall x, x mod 2 ^ 26 = x - 2 ^ 26 * (x / 2 ^ 26)) by (intros x; lia).
  assert (Hlow : 0 <= low < 2 ^ 104).
  { apply four_digits; by apply Z.mod_pos_bound. }
  assert (EV : limbs_value (MkLimbs h0 h1 h2 h3 h4) + 5 = low + 2 ^ 104 * (h4 + c3)).
  { unfold limbs_value, low. cbn [l0 l1 l2 l3 l4]. rewrite !E. fold c0 c1 c2 c3. ring. }
  destruct (p1305 <=? _) eqn:Ep; bool_prop; unfold p1305 in *.
  - assert (2 ^ 26 <= h4 + c3) by lia. rewrite (u32_id (h4 + c3 - 2 ^ 26)) by lia. split.
    + unfold limbs_reduced. cbn [l0 l1 l2 l3 l4]. repeat split; try apply Z.mod_pos_bound; lia.
    + unfold limbs_value at 1. cbn [l0 l1 l2 l3 l4]. fold low. lia.
  - assert (h4 + c3 < 2 ^ 26) by lia. unfold u32.
    rewrite <- (Z.mod_add (h4 + c3 - 2 ^ 26) 1), Z.mod_small by lia. symmetry. apply Z.div_unique with (h4 + c3 - 2 ^ 26 + 2 ^ 31); lia.
Qed.

Lemma select_reduced_ok h : limbs_reduced h ->
  limbs_reduced (select_reduced h) /\ limbs_value (select_reduced h) = limbs_value h mod p1305.
Proof.
  intros Hh. pose proof (minus_p_ok h Hh) as Hm. pose proof (limbs_value_range h Hh) as Hv. unfold select_reduced.
  destruct (p1305 <=? limbs_value h) eqn:Ep; bool_prop.
  - destruct Hm as [Hg Eg]. replace (u32 (Z.shiftr (l4 (minus_p h)) 31 - 1)) with MAXU32.
    + pose proof Hg as [(G0 & G1 & G2) [G3 G4]]. rewrite !select_limb_all by lia. destruct (minus_p h) as [g0 g1 g2 g3 g4].
      cbn [l0 l1 l2 l3 l4] in *. split; [done|]. rewrite Eg. apply Z.mod_unique with 1; unfold p1305 in *; lia.
    + destruct Hg as [_ [_ G4]]. rewrite Z.shiftr_div_pow2, Z.div_small by lia. done.
  - rewrite Hm. change (u32 (1 - 1)) with 0. pose proof Hh as [(H0 & H1 & H2) [H3 H4]]. rewrite !select_limb_none by lia.
    destruct h as [h0 h1 h2 h3 h4]. cbn [l0 l1 l2 l3 l4] in *. split; [done|]. symmetry. apply Z.mod_small. lia.
Qed.

(** ** The tag *)

(** One word of a sum, with the carry of the words below. *)
Lemma add_word x y c : 0 <= c -> (x mod 2 ^ 32 + y mod 2 ^ 32 + c) mod 2 ^ 32 = (x + y + c) mod 2 ^ 32
  /\ (x mod 2 ^ 32 + y mod 2 ^ 32 + c) / 2 ^ 32 + x / 2 ^ 32 + y / 2 ^ 32 = (x + y + c) / 2 ^ 32.
Proof. intros Hc. split; lia. Qed.

#[local] Ltac Zify.zify_post_hook ::= idtac.

(** 32 bits from two limbs. *)
Lemma limb_word h g a n : 0 <= a <= 26 -> n = 26 - a -> 0 <= h < 2 ^ 26 -> 0 <= g < 2 ^ 26 ->
  Z.land (Z.lor (Z.shiftr h a) (u64 (Z.shiftl g n))) 0xffffffff = (h / 2 ^ a + 2 ^ n * g) mod 2 ^ 32.
Proof.
  intros Ha -> Hh Hg. rewrite (land_ones_mod _ 32), Z.shiftl_mul_pow2, Z.shiftr_div_pow2 by lia. f_equal.
  assert (Hp : 0 < 2 ^ (26 - a) <= 2 ^ 26) by (split; [lia|apply Z.pow_le_mono_r; lia]).
  rewrite u64_id by nia. rewrite Z.lor_comm, lor_disjoint; [lia|lia|].
  split; [apply Z.div_pos; lia|]. apply Z.div_lt_upper_bound; [lia|]. rewrite <- Z.pow_add_r by lia. replace (a + (26 - a)) with 26 by lia. lia.
Qed.
Lemma limb_words h : limbs_reduced h -> let v := limbs_value h in
  v mod 2 ^ 32 = (l0 h + 2 ^ 26 * l1 h) mod 2 ^ 32
  /\ (v / 2 ^ 32) mod 2 ^ 32 = (l1 h / 2 ^ 6 + 2 ^ 20 * l2 h) mod 2 ^ 32
  /\ (v / 2 ^ 64) mod 2 ^ 32 = (l2 h / 2 ^ 12 + 2 ^ 14 * l3 h) mod 2 ^ 32
  /\ (v / 2 ^ 96) mod 2 ^ 32 = (l3 h / 2 ^ 18 + 2 ^ 8 * l4 h) mod 2 ^ 32.
Proof.
  destruct h as [h0 h1 h2 h3 h4]. intros [(H0 & H1 & H2) [H3 H4]]. unfold limbs_value. cbn [l0 l1 l2 l3 l4] in *.
  cbv zeta. split; [|split; [|split]].
  - rewrite <- (Z.mod_add (h0 + 2 ^ 26 * h1) (2 ^ 20 * h2 + 2 ^ 46 * h3 + 2 ^ 72 * h4)) by done. f_equal. ring.
  - replace ((h0 + 2 ^ 26 * h1 + 2 ^ 52 * h2 + 2 ^ 78 * h3 + 2 ^ 104 * h4) / 2 ^ 32) with (h1 / 2 ^ 6 + 2 ^ 20 * h2 + (2 ^ 14 * h3 + 2 ^ 40 * h4) * 2 ^ 32).
    { by rewrite Z.mod_add. }
    apply Z.div_unique with (h0 + 2 ^ 26 * (h1 mod 2 ^ 6)); pose proof (Z.mod_pos_bound h1 (2 ^ 6) ltac:(done)); [lia|]. pose proof (Z.div_mod h1 (2 ^ 6) ltac:(done)). lia.
  - replace ((h0 + 2 ^ 26 * h1 + 2 ^ 52 * h2 + 2 ^ 78 * h3 + 2 ^ 104 * h4) / 2 ^ 64) with (h2 / 2 ^ 12 + 2 ^ 14 * h3 + (2 ^ 8 * h4) * 2 ^ 32).
    { by rewrite Z.mod_add. }
    apply Z.div_unique with (h0 + 2 ^ 26 * h1 + 2 ^ 52 * (h2 mod 2 ^ 12)); pose proof (Z.mod_pos_bound h2 (2 ^ 12) ltac:(done)); [lia|]. pose proof (Z.div_mod h2 (2 ^ 12) ltac:(done)). lia.
  - f_equal. symmetry.
    apply Z.div_unique with (h0 + 2 ^ 26 * h1 + 2 ^ 52 * h2 + 2 ^ 78 * (h3 mod 2 ^ 18)); pose proof (Z.mod_pos_bound h3 (2 ^ 18) ltac:(done)); [lia|]. pose proof (Z.div_mod h3 (2 ^ 18) ltac:(done)). lia.
Qed.

Lemma four_words_bytes t :
  le_bytes 4 (t mod 2 ^ 32) ++ le_bytes 4 ((t / 2 ^ 32) mod 2 ^ 32) ++ le_bytes 4 ((t / 2 ^ 64) mod 2 ^ 32) ++ le_bytes 4 ((t / 2 ^ 96) mod 2 ^ 32)
  = le_bytes 16 t.
Proof.
  change (2 ^ 32) with (256 ^ Z.of_nat 4) at 1 3 4 5. rewrite !le_bytes_mod.
  change 16%nat with (4 + (4 + (4 + 4)))%nat. rewrite !le_bytes_app, !Z.div_div by done. done.
Qed.

(** The four words of a sum, each with the carry of the one before. *)
Lemma sum_words v s :
  let w x n := (x / 2 ^ n) mod 2 ^ 32 in
  let f0 := v mod 2 ^ 32 +! s mod 2 ^ 32 in
  let f1 := w v 32 +! w s 32 +! Z.shiftr f0 32 in
  let f2 := w v 64 +! w s 64 +! Z.shiftr f1 32 in
  let f3 := w v 96 +! w s 96 +! Z.shiftr f2 32 in
  u32 f0 = (v + s) mod 2 ^ 32 /\ u32 f1 = w (v + s) 32 /\ u32 f2 = w (v + s) 64 /\ u32 f3 = w (v + s) 96.
Proof.
  cbv zeta beta.
  assert (Step : forall x y c, 0 <= c <= 1 -> x mod 2 ^ 32 +! y mod 2 ^ 32 +! c = x mod 2 ^ 32 + y mod 2 ^ 32 + c).
  { intros x y c Hc. pose proof (Z.mod_pos_bound x (2 ^ 32) ltac:(done)). pose proof (Z.mod_pos_bound y (2 ^ 32) ltac:(done)).
    rewrite u64_add_l. apply u64_id. lia. }
  assert (Carry : forall x y c, 0 <= c <= 1 -> 0 <= (x mod 2 ^ 32 + y mod 2 ^ 32 + c) / 2 ^ 32 <= 1).
  { intros x y c Hc. pose proof (Z.mod_pos_bound x (2 ^ 32) ltac:(done)). pose proof (Z.mod_pos_bound y (2 ^ 32) ltac:(done)).
    split; [apply Z.div_pos; lia|]. apply Z.lt_succ_r, Z.div_lt_upper_bound; lia. }
  assert (D : forall x n m, 0 <= n -> 0 <= m -> x / 2 ^ n / 2 ^ m = x / 2 ^ (n + m)) by (intros; rewrite Z.div_div, Z.pow_add_r by lia; done).
  rewrite <- (Z.add_0_r (v mod _ + s mod _)), <- (u64_add_l _ 0), !Step, !Z.shiftr_div_pow2 by lia.
  pose proof (Carry v s 0 ltac:(lia)) as B0. destruct (add_word v s 0 ltac:(lia)) as [A0 C0]. rewrite (Z.add_0_r (v + s)) in A0, C0.
  set (c0 := (_ + _ + 0) / 2 ^ 32) in *. rewrite (Step _ _ c0) by done.
  pose proof (Carry (v / 2 ^ 32) (s / 2 ^ 32) c0 B0) as B1. destruct (add_word (v / 2 ^ 32) (s / 2 ^ 32) c0 ltac:(lia)) as [A1 C1].
  set (c1 := (_ + _ + c0) / 2 ^ 32) in *. rewrite (Step _ _ c1) by done.
  pose proof (Carry (v / 2 ^ 64) (s / 2 ^ 64) c1 B1) as B2. destruct (add_word (v / 2 ^ 64) (s / 2 ^ 64) c1 ltac:(lia)) as [A2 C2].
  set (c2 := (_ + _ + c1) / 2 ^ 32) in *. rewrite (Step _ _ c2) by done.
  destruct (add_word (v / 2 ^ 96) (s / 2 ^ 96) c2 ltac:(lia)) as [A3 _]. unfold u32. rewrite A0, A1, A2, A3.
  replace (v / 2 ^ 32 + s / 2 ^ 32 + c0) with ((v + s) / 2 ^ 32) in * by lia. rewrite !D in * by lia. change (32 + 32) with 64 in *.
  replace (v / 2 ^ 64 + s / 2 ^ 64 + c1) with ((v + s) / 2 ^ 64) in * by lia. rewrite !D in * by lia. change (64 + 32) with 96 in *.
  replace (v / 2 ^ 96 + s / 2 ^ 96 + c2) with ((v + s) / 2 ^ 96) by lia. done.
Qed.

Lemma poly_tag_ok key h : bytes key -> length key = 32%nat -> limbs_reduced h ->
  poly_tag key h = le_bytes 16 (limbs_value h + poly_s key).
Proof.
  intros Hk Hl Hh. unfold poly_tag, poly_s. pose proof Hh as [(H0 & H1 & H2) [H3 H4]]. destruct (limb_words h Hh) as (W0 & W1 & W2 & W3).
  replace (drop 20 key) with (drop 4 (drop 16 key)) by (by rewrite drop_drop).
  replace (drop 24 key) with (drop 8 (drop 16 key)) by (by rewrite drop_drop).
  replace (drop 28 key) with (drop 12 (drop 16 key)) by (by rewrite drop_drop).
  assert (Hb : bytes (drop 16 key)) by (by apply Forall_drop). assert (Hd : length (drop 16 key) = 16%nat) by (rewrite length_drop, Hl; done).
  rewrite (take_ge (drop 16 key)) by lia. revert Hb Hd. generalize (drop 16 key) as k. intros k Hb Hd.
  rewrite word_0, !word_at by (done || lia). change (8 * Z.of_nat 4) with 32. change (8 * Z.of_nat 8) with 64. change (8 * Z.of_nat 12) with 96.
  rewrite <- (Z.shiftr_0_r (l0 h)), !limb_word, Z.div_1_r by (done || lia). rewrite <- W0, <- W1, <- W2, <- W3.
  rewrite !WriteLittleEndian32_bytes, <- four_words_bytes.
  destruct (sum_words (limbs_value h) (le_value k)) as (E0 & E1 & E2 & E3). cbv zeta beta in *. by rewrite E0, E1, E2, E3.
Qed.

Lemma Poly1305_spec key message : bytes key -> length key = 32%nat -> bytes message ->
  Poly1305 key message = poly1305_spec key message.
Proof.
  intros Hk Hl Hm. unfold Poly1305, poly1305_spec. rewrite clamp_r_digits by done.
  pose proof (poly_r_range key Hk Hl) as Hr. pose proof (digits_of_value (poly_r key) ltac:(lia)) as Er.
  destruct (poly_blocks_ok (length message) (MkLimbs 0 0 0 0 0) (digits_of (poly_r key)) message 0) as [Hb Eb];
    [by repeat split|apply digits_of_reduced|done|done|]. rewrite Er in Eb.
  destruct (carry_all_ok _ Hb) as [Hc Ec]. destruct (select_reduced_ok _ Hc) as [Hs Es].
  rewrite poly_tag_ok, Es, Ec, Eb by done. do 2 f_equal. apply Z.mod_small, poly_eval_range. done.
Qed.

(** C25. Poly1305, computed in five limbs of 26 bits with 32- and 64-bit products, is the
    polynomial of RFC 8439: for every key and message the tag is the little-endian
    form of the clamped polynomial of the blocks modulo 2^130-5 plus the second half
    of the key, modulo 2^128; no carry is lost on the way. *)
Theorem poly1305_exact key message : bytes key -> length key = 32%nat -> bytes message ->
  le_value (Poly1305 key message)
  = (poly_eval (length message) 0 (poly_r key) message + poly_s key) mod 2 ^ 128 /\ length (Poly1305 key message) = 16%nat.
Proof.
  intros Hk Hl Hm. rewrite Poly1305_spec by done. unfold poly1305_spec. split; [apply (le_value_bytes 16)|apply le_bytes_length].
Qed.
Lemma poly1305_exact_witness :
  le_value (Poly1305 (seqZ 100 32) [1; 2; 3]) = (poly_eval 3 0 (poly_r (seqZ 100 32)) [1; 2; 3] + poly_s (seqZ 100 32)) mod 2 ^ 128
  /\ length (Poly1305 (seqZ 100 32) [1; 2; 3]) = 16%nat.
Proof. apply (poly1305_exact (seqZ 100 32) [1; 2; 3]); first [by apply bytes_decide | reflexivity]. Defined.
