(* ===== verification/ChaChaPoly.v ===== *)
(** * The ChaCha20-Poly1305 AEAD

    crypto/Aead.cpp: [ChaCha20Block], [ChaCha20Xor], the input of the
    authenticator, [ChaCha20Poly1305Encrypt] and [ChaCha20Poly1305Decrypt], and
    the types of include/wknet/crypto/Aead.h, over Poly1305.  The scratch area of
    the code is written before it is read, so that only its allocation is
    modelled.  An output buffer is a span of its present contents. *)

From S2P Require Import Prelude LittleEndian Poly1305.

(** ** ChaCha20 *)

Definition RotateLeft32 (value bits : Z) : Z := Z.lor (u32 (Z.shiftl value bits)) (Z.shiftr value (32 - bits)).

Definition QuarterRound (a b c d : Z) : Z * Z * Z * Z :=
  let a := u32 (a + b) in let d := Z.lxor d a in let d := RotateLeft32 d 16 in
  let c := u32 (c + d) in let b := Z.lxor b c in let b := RotateLeft32 b 12 in
  let a := u32 (a + b) in let d := Z.lxor d a in let d := RotateLeft32 d 8 in
  let c := u32 (c + d) in let b := Z.lxor b c in let b := RotateLeft32 b 7 in
  (a, b, c, d).

(** [QuarterRound(working[i], working[j], working[k], working[l])] *)
Definition quarter_at (i j k l : nat) (working : list Z) : list Z :=
  let '(a, b, c, d) := QuarterRound (nth i working 0) (nth j working 0) (nth k working 0) (nth l working 0) in
  <[l := d]> (<[k := c]> (<[j := b]> (<[i := a]> working))).

Definition double_round (working : list Z) : list Z :=
  let working := quarter_at 0 4 8 12 working in
  let working := quarter_at 1 5 9 13 working in
  let working := quarter_at 2 6 10 14 working in
  let working := quarter_at 3 7 11 15 working in
  let working := quarter_at 0 5 10 15 working in
  let working := quarter_at 1 6 11 12 working in
  let working := quarter_at 2 7 8 13 working in
  quarter_at 3 4 9 14 working.

Definition initial_state (key : list Z) (counter : Z) (nonce : list Z) : list Z :=
  [0x61707865; 0x3320646e; 0x79622d32; 0x6b206574;
   ReadLittleEndian32 key; ReadLittleEndian32 (drop 4 key); ReadLittleEndian32 (drop 8 key); ReadLittleEndian32 (drop 12 key);
   ReadLittleEndian32 (drop 16 key); ReadLittleEndian32 (drop 20 key); ReadLittleEndian32 (drop 24 key); ReadLittleEndian32 (drop 28 key);
   counter; ReadLittleEndian32 nonce; ReadLittleEndian32 (drop 4 nonce); ReadLittleEndian32 (drop 8 nonce)].

Definition ChaCha20Block (key : list Z) (counter : Z) (nonce : list Z) : list Z :=
  let state := initial_state key counter nonce in
  let working := Nat.iter 10 double_round state in
  flat_map WriteLittleEndian32 (zip_with (fun w s => u32 (w + s)) working state).

(** The loop of [ChaCha20Xor]: the bytes it writes.  A turn consumes at least a
    byte of the input. *)
Fixpoint xor_loop (fuel : nat) (key : list Z) (counter : Z) (nonce input : list Z) : list Z :=
  match fuel with
  | O => []
  | S fuel =>
      match input with
      | [] => []
      | _ =>
          let block := ChaCha20Block key counter nonce in
          zip_with (fun a b => u8 (Z.lxor a b)) (take 64 input) block
          ++ xor_loop fuel key (u32 (counter + 1)) nonce (drop 64 input)
      end
  end.

(** [data == nullptr && length != 0] is the only invalid buffer. *)
Definition IsValidBuffer (data : span) : bool := (sp_len data =? 0) || negb (sp_isnull data).

(** Writing from the start of a buffer. *)
Definition write_front (output : span) (data : list Z) : span :=
  match output with Null n => Null n | Bytes l => Bytes (mem_copy l 0 data) end.

Definition ChaCha20Xor (key : list Z) (counter : Z) (nonce : list Z) (input output : span) : NTSTATUS * span :=
  if negb (IsValidBuffer input) || sp_isnull output || (sp_len output <? sp_len input) then (STATUS_INVALID_PARAMETER, output)
  else (STATUS_SUCCESS, write_front output (xor_loop (length (sp_bytes input)) key counter nonce (sp_bytes input))).

(** ** The types of Aead.h *)

Inductive AeadAlgorithm := Aes128Gcm | Aes256Gcm | ChaCha20Poly1305 | Aes128Ccm | Aes128Ccm8.
Record AeadKey := MkAeadKey { ak_Algorithm : AeadAlgorithm; ak_Key : span }.
Record AeadParameters := MkAeadParameters { ap_Nonce : span; ap_Aad : span; ap_Tag : span }.

(** What a call leaves: the status, the output buffer, the tag buffer (of an
    encryption) and [*bytesWritten]. *)
Record AeadResult := MkAeadResult { ar_status : NTSTATUS; ar_output : span; ar_tag : span; ar_bytesWritten : Z }.

(** The loop compares every byte; [diff] collects the differences. *)
Definition MemoryEquals (left right : list Z) (length : Z) : bool :=
  fold_left (fun diff i => u8 (Z.lor diff (Z.lxor (zget left i) (zget right i)))) (seqZ 0 length) 0 =? 0.

(** ** The authenticator's input *)

(** [allocated]: whether the pool has room.  The fresh array is zero. *)
Definition BuildChaCha20Poly1305MacInput (allocated : bool) (aad ciphertext : span) : Result (list Z) :=
  if negb (IsValidBuffer aad) || negb (IsValidBuffer ciphertext) then Err STATUS_INVALID_PARAMETER else
  let aadPadding := (16 - sp_len aad mod 16) mod 16 in
  let ciphertextPadding := (16 - sp_len ciphertext mod 16) mod 16 in
  let required := sp_len aad +! aadPadding +! sp_len ciphertext +! ciphertextPadding +! 16 in
  if required =? 0 then Err STATUS_INVALID_PARAMETER else
  if negb allocated then Err STATUS_INSUFFICIENT_RESOURCES else
  let macInput := replicate (Z.to_nat required) 0 in
  let macInput := mem_copy macInput 0 (sp_bytes aad) in
  let offset := sp_len aad +! aadPadding in
  let macInput := mem_copy macInput offset (sp_bytes ciphertext) in
  let offset := offset +! sp_len ciphertext +! ciphertextPadding in
  let macInput := mem_copy macInput offset (WriteLittleEndian64 (sp_len aad)) in
  let offset := offset +! 8 in
  let macInput := mem_copy macInput offset (WriteLittleEndian64 (sp_len ciphertext)) in
  Ok (ztake (offset +! 8) macInput).

Definition ValidateChaCha20Poly1305 (key : AeadKey) (parameters : AeadParameters) : NTSTATUS :=
  if sp_isnull (ak_Key key) || negb (sp_len (ak_Key key) =? 32) || sp_isnull (ap_Nonce parameters)
     || negb (sp_len (ap_Nonce parameters) =? 12) || negb (IsValidBuffer (ap_Aad parameters))
  then STATUS_INVALID_PARAMETER else STATUS_SUCCESS.

(** The key of the authenticator: the first half of block 0. *)
Definition poly_key (key : list Z) (nonce : list Z) : list Z := take 32 (ChaCha20Block key 0 nonce).

(** ** Encryption and decryption

    [scratch], [mac]: whether the allocations of the scratch area and of the
    authenticator's input succeed. *)
Definition ChaCha20Poly1305Encrypt (scratch mac : bool) (key : AeadKey) (parameters : AeadParameters)
    (plaintext ciphertext tag : span) : AeadResult :=
  let failed s := MkAeadResult s ciphertext tag 0 in
  let status := ValidateChaCha20Poly1305 key parameters in
  if negb (NT_SUCCESS status) then failed status else
  if negb (IsValidBuffer plaintext) || sp_isnull ciphertext || (sp_len ciphertext <? sp_len plaintext)
     || sp_isnull tag || negb (sp_len tag =? 16) then failed STATUS_INVALID_PARAMETER else
  if negb scratch then failed STATUS_INSUFFICIENT_RESOURCES else
  let k := sp_bytes (ak_Key key) in let nonce := sp_bytes (ap_Nonce parameters) in
  let polyKey := poly_key k nonce in
  let '(status, ciphertext) := ChaCha20Xor k 1 nonce plaintext ciphertext in
  if negb (NT_SUCCESS status) then MkAeadResult status ciphertext tag 0 else
  match BuildChaCha20Poly1305MacInput mac (ap_Aad parameters) (Bytes (ztake (sp_len plaintext) (sp_bytes ciphertext))) with
  | Err s => MkAeadResult s ciphertext tag 0
  | Ok macInput => MkAeadResult STATUS_SUCCESS ciphertext (write_front tag (Poly1305 polyKey macInput)) (sp_len plaintext)
  end.

Definition ChaCha20Poly1305Decrypt (scratch mac : bool) (key : AeadKey) (parameters : AeadParameters)
    (ciphertext plaintext : span) : AeadResult :=
  let failed s := MkAeadResult s plaintext (ap_Tag parameters) 0 in
  let status := ValidateChaCha20Poly1305 key parameters in
  if negb (NT_SUCCESS status) then failed status else
  if negb (IsValidBuffer ciphertext) || sp_isnull plaintext || (sp_len plaintext <? sp_len ciphertext)
     || sp_isnull (ap_Tag parameters) || negb (sp_len (ap_Tag parameters) =? 16) then failed STATUS_INVALID_PARAMETER else
  if negb scratch then failed STATUS_INSUFFICIENT_RESOURCES else
  let k := sp_bytes (ak_Key key) in let nonce := sp_bytes (ap_Nonce parameters) in
  let polyKey := poly_key k nonce in
  match BuildChaCha20Poly1305MacInput mac (ap_Aad parameters) ciphertext with
  | Err s => failed s
  | Ok macInput =>
      if negb (MemoryEquals (Poly1305 polyKey macInput) (sp_bytes (ap_Tag parameters)) 16) then failed STATUS_INVALID_SIGNATURE else
      let '(status, plaintext) := ChaCha20Xor k 1 nonce ciphertext plaintext in
      MkAeadResult status plaintext (ap_Tag parameters) (if NT_SUCCESS status then sp_len ciphertext else 0)
  end.

(** [PacketProtectionChaCha20Block] of crypto/PacketProtectionPrimitives.h. *)
Definition PacketProtectionChaCha20Block (scratch : bool) (key : span) (counter : Z) (nonce output : span) : NTSTATUS * span :=
  if sp_isnull key || sp_isnull nonce || sp_isnull output then (STATUS_INVALID_PARAMETER, output) else
  if negb scratch then (STATUS_INSUFFICIENT_RESOURCES, output) else
  (STATUS_SUCCESS, write_front output (ChaCha20Block (sp_bytes key) counter (sp_bytes nonce))).

(** ** Specification (RFC 8439) *)

(** The state as four rows; a round works on the columns of the rows, a diagonal
    round on the columns of the rotated rows. *)
Definition rotate_row (n : nat) (row : list Z) : list Z := drop n row ++ take n row.
Fixpoint round_rows (a b c d : list Z) : list Z * list Z * list Z * list Z :=
  match a, b, c, d with
  | a :: la, b :: lb, c :: lc, d :: ld =>
      let '(a, b, c, d) := QuarterRound a b c d in
      let '(la, lb, lc, ld) := round_rows la lb lc ld in (a :: la, b :: lb, c :: lc, d :: ld)
  | _, _, _, _ => ([], [], [], [])
  end.
Definition double_round_rows (state : list Z * list Z * list Z * list Z) : list Z * list Z * list Z * list Z :=
  let '(a, b, c, d) := state in
  let '(a, b, c, d) := round_rows a b c d in
  let '(a, b, c, d) := round_rows a (rotate_row 1 b) (rotate_row 2 c) (rotate_row 3 d) in
  (a, rotate_row 3 b, rotate_row 2 c, rotate_row 1 d).
Definition of_rows (state : list Z * list Z * list Z * list Z) : list Z := let '(a, b, c, d) := state in a ++ b ++ c ++ d.

(** The data that the tag covers (2.8). *)
Definition pad16 (l : list Z) : list Z := replicate (Z.to_nat ((16 - zlen l mod 16) mod 16)) 0.
Definition mac_data (aad ciphertext : list Z) : list Z :=
  aad ++ pad16 aad ++ ciphertext ++ pad16 ciphertext ++ le_bytes 8 (zlen aad) ++ le_bytes 8 (zlen ciphertext).
Definition chacha_tag (key nonce aad ciphertext : list Z) : list Z :=
  poly1305_spec (poly_key key nonce) (mac_data aad ciphertext).

(** Block function test vector of RFC 8439, 2.3.2. *)
Definition vector_key : list Z := seqZ 0 32.
Example chacha_block_vector :
  ChaCha20Block vector_key 1 [0; 0; 0; 9; 0; 0; 0; 0x4a; 0; 0; 0; 0]
  = [0x10;0xf1;0xe7;0xe4;0xd1;0x3b;0x59;0x15;0x50;0x0f;0xdd;0x1f;0xa3;0x20;0x71;0xc4;
     0xc7;0xd1;0xf4;0xc7;0x33;0xc0;0x68;0x03;0x04;0x22;0xaa;0x9a;0xc3;0xd4;0x6c;0x4e;
     0xd2;0x82;0x64;0x46;0x07;0x9f;0xaa;0x09;0x14;0xc2;0xd7;0x05;0xd9;0x8b;0x02;0xa2;
     0xb5;0x12;0x9c;0xd1;0xde;0x16;0x4e;0xb9;0xcb;0xd0;0x83;0xe8;0xa2;0x50;0x3c;0x4e].
Proof. by vm_compute. Qed.

(** ** ChaCha20 lemmas *)

(** One quarter round at a time, on sixteen words. *)
Ltac quarter_step :=
  match goal with
  | |- context [quarter_at ?i ?j ?k ?l (?x :: ?w)] =>
      let t := constr:(quarter_at i j k l (x :: w)) in
      let t' := eval cbv [quarter_at nth insert list_insert] in t in
      change t with t';
      match t' with context [QuarterRound ?a ?b ?c ?d] => destruct (QuarterRound a b c d) as [[[? ?] ?] ?] end
  end.
Lemma double_round_rows_ok a0 a1 a2 a3 b0 b1 b2 b3 c0 c1 c2 c3 d0 d1 d2 d3 :
  double_round (of_rows ([a0; a1; a2; a3], [b0; b1; b2; b3], [c0; c1; c2; c3], [d0; d1; d2; d3]))
  = of_rows (double_round_rows ([a0; a1; a2; a3], [b0; b1; b2; b3], [c0; c1; c2; c3], [d0; d1; d2; d3])).
Proof.
  cbv [double_round double_round_rows of_rows round_rows rotate_row app drop take].
  do 8 quarter_step. done.
Qed.

Lemma double_round_length w : length (double_round w) = length w.
Proof.
  assert (H : forall i j k l w, length (quarter_at i j k l w) = length w).
  { intros. unfold quarter_at. destruct (QuarterRound _ _ _ _) as [[[? ?] ?] ?]. by rewrite !length_insert. }
  unfold double_round. by rewrite !H.
Qed.
Lemma iter_double_round_length n w : length (Nat.iter n double_round w) = length w.
Proof. induction n as [|n IH]; [done|]. rewrite Nat.iter_succ, double_round_length. done. Qed.

Lemma flat_words_length l : length (flat_map WriteLittleEndian32 l) = (4 * length l)%nat.
Proof. induction l as [|w l IH]; [done|]. cbn [flat_map length]. rewrite length_app, IH, WriteLittleEndian32_bytes, le_bytes_length. lia. Qed.
Lemma flat_words_bytes l : bytes (flat_map WriteLittleEndian32 l).
Proof.
  induction l as [|w l IH]; [apply Forall_nil_2|]. cbn [flat_map]. apply Forall_app. split; [|done].
  rewrite WriteLittleEndian32_bytes. apply le_bytes_bytes.
Qed.
Lemma ChaCha20Block_length key counter nonce : length (ChaCha20Block key counter nonce) = 64%nat.
Proof. unfold ChaCha20Block. rewrite flat_words_length, length_zip_with, iter_double_round_length. done. Qed.
Lemma ChaCha20Block_bytes key counter nonce : bytes (ChaCha20Block key counter nonce).
Proof. apply flat_words_bytes. Qed.

Lemma u8_of_lxor a b : is_byte a -> is_byte b -> u8 (Z.lxor a b) = Z.lxor a b.
Proof.
  intros Ha Hb. unfold u8. change 256 with (2 ^ 8). rewrite <- Z.land_ones by done. apply Z.bits_inj'. intros i Hi.
  rewrite Z.land_spec, Z.testbit_ones_nonneg by done. destruct (Z.ltb_spec i 8); [apply andb_true_r|]. rewrite andb_false_r, Z.lxor_spec.
  rewrite <- (Z.mod_small a (2 ^ 8)), <- (Z.mod_small b (2 ^ 8)) by done. by rewrite !Z.mod_pow2_bits_high by lia.
Qed.

(** ** Streams

    A message combined with a sequence of blocks of [size] bytes; shared by
    ChaCha20 and by the counter mode of CCM. *)

Definition lxor_bytes (l k : list Z) : list Z := zip_with (fun a b => u8 (Z.lxor a b)) l k.
Fixpoint xor_stream (size fuel : nat) (block : nat -> list Z) (input : list Z) : list Z :=
  match fuel with
  | O => []
  | S fuel =>
      match input with
      | [] => []
      | _ => lxor_bytes (take size input) (block O) ++ xor_stream size fuel (fun i => block (S i)) (drop size input)
      end
  end.

Lemma lxor_bytes_length l k : (length l <= length k)%nat -> length (lxor_bytes l k) = length l.
Proof. intros. unfold lxor_bytes. rewrite length_zip_with. lia. Qed.
Lemma lxor_bytes_bytes l k : bytes (lxor_bytes l k).
Proof. revert k. induction l as [|a l IH]; intros [|b k]; [apply Forall_nil_2..|]. apply Forall_cons. split; [apply u8_range|apply IH]. Qed.
Lemma lxor_bytes_cancel l k : bytes l -> bytes k -> (length l <= length k)%nat -> lxor_bytes (lxor_bytes l k) k = l.
Proof.
  intros Hl. revert k. induction Hl as [|a l Ha _ IH]; intros [|b k] Hk Hn; cbn [length] in *; [done|done|lia|].
  apply Forall_cons in Hk as [Hb Hk]. unfold lxor_bytes in *. cbn [zip_with]. rewrite IH by (done || lia).
  rewrite (u8_of_lxor a b) by done. rewrite Z.lxor_comm, <- (Z.lxor_comm b), <- Z.lxor_assoc, Z.lxor_nilpotent, Z.lxor_0_l.
  f_equal. by apply Z.mod_small.
Qed.

Section Streams.
Context (size : nat) (Hsize : (0 < size)%nat).

Lemma xor_stream_cons fuel block input : input <> [] ->
    xor_stream size (S fuel) block input = lxor_bytes (take size input) (block O) ++ xor_stream size fuel (fun i => block (S i)) (drop size input).
  Proof using. intros H. destruct input; [congruence|reflexivity]. Qed.
Lemma xor_stream_nil fuel block : xor_stream size fuel block [] = [].
  Proof using. by destruct fuel. Qed.
Lemma xor_stream_bytes fuel block input : bytes (xor_stream size fuel block input).
  Proof using.
    revert block input. induction fuel as [|fuel IH]; intros block input; [apply Forall_nil_2|].
    destruct input as [|b input]; [apply Forall_nil_2|]. rewrite xor_stream_cons by done. apply Forall_app. split; [apply lxor_bytes_bytes|apply IH].
  Qed.
Lemma xor_stream_length fuel block input : (forall i, length (block i) = size) -> (length input <= fuel)%nat ->
    length (xor_stream size fuel block input) = length input.
  Proof using Hsize.
    revert block input. induction fuel as [|fuel IH]; intros block input Hb Hf; [by destruct input; [|cbn in Hf; lia]|].
    destruct input as [|b input]; [done|]. rewrite xor_stream_cons by done.
    rewrite length_app, IH by (done || rewrite length_drop; cbn [length] in *; lia).
    rewrite lxor_bytes_length by (rewrite Hb, length_take; lia). rewrite length_take, length_drop. lia.
  Qed.
  (** More fuel than the input is long changes nothing. *)
Lemma xor_stream_fuel fuel block input : (length input <= fuel)%nat -> xor_stream size fuel block input = xor_stream size (length input) block input.
  Proof using Hsize.
    revert block input. induction fuel as [fuel IH] using lt_wf_ind. intros block input Hf.
    destruct input as [|b input]; [by rewrite xor_stream_nil|]. destruct fuel as [|fuel]; [cbn in Hf; lia|].
    change (length (b :: input)) with (S (length input)) in *. rewrite !xor_stream_cons by done. f_equal.
    rewrite (IH fuel), (IH (length input)) by (rewrite ?length_drop; cbn [length]; lia). done.
  Qed.
  (** Applying a stream twice. *)
Lemma xor_stream_twice fuel block input : (forall i, length (block i) = size /\ bytes (block i)) -> bytes input -> (length input <= fuel)%nat ->
    xor_stream size fuel block (xor_stream size fuel block input) = input.
  Proof using Hsize.
    revert block input. induction fuel as [|fuel IH]; intros block input Hb Hi Hf; [by destruct input; [|cbn in Hf; lia]|].
    destruct input as [|b input]; [by rewrite !xor_stream_nil|]. rewrite (xor_stream_cons fuel block (b :: input)) by done.
    set (x := lxor_bytes (take size (b :: input)) (block O)). set (y := xor_stream size fuel (fun i => block (S i)) (drop size (b :: input))).
    assert (Hx : length x = length (take size (b :: input))) by (apply lxor_bytes_length; rewrite (proj1 (Hb _)), length_take; lia).
    assert (Hn : (length (drop size (b :: input)) <= fuel)%nat) by (rewrite length_drop; cbn [length] in *; lia).
    assert (take size (x ++ y) = x /\ drop size (x ++ y) = y) as [Et Ed].
    { destruct (Nat.le_gt_cases (length (b :: input)) size) as [Hs|Hs].
      - assert (y = []) as -> by (unfold y; rewrite drop_ge by done; apply xor_stream_nil). rewrite app_nil_r. rewrite take_ge in Hx by lia.
        split; [apply take_ge; lia|apply drop_ge; lia].
      - rewrite length_take in Hx. split; [apply take_app_length'|apply drop_app_length']; lia. }
    assert (Hxy : x ++ y <> []) by (intros E; apply (f_equal length) in E; rewrite length_app, Hx, length_take in E; cbn [length] in E; lia).
    rewrite xor_stream_cons, Et, Ed by done. unfold x, y.
    rewrite IH, lxor_bytes_cancel; [apply take_drop|by apply Forall_take|apply Hb|rewrite (proj1 (Hb _)), length_take; lia|intros; apply Hb|by apply Forall_drop|done].
  Qed.
End Streams.

(** The block is not to be computed in what follows. *)
#[local] Opaque ChaCha20Block Poly1305.

(** The blocks of ChaCha20; the counter has 32 bits. *)
Lemma xor_loop_stream fuel key counter nonce input : 0 <= counter < 2 ^ 32 ->
  xor_loop fuel key counter nonce input = xor_stream 64 fuel (fun i => ChaCha20Block key (u32 (counter + Z.of_nat i)) nonce) input.
Proof.
  revert counter input. induction fuel as [|fuel IH]; intros counter input Hc; [reflexivity|].
  destruct input as [|b input]; [reflexivity|]. cbn [xor_loop xor_stream]. rewrite (IH _ _ (u32_range _)). unfold lxor_bytes.
  apply (f_equal2 app); [change (Z.of_nat 0) with 0; rewrite Z.add_0_r, u32_id by done; reflexivity|].
  assert (E : forall fuel f g l, (forall i, f i = g i) -> xor_stream 64 fuel f l = xor_stream 64 fuel g l).
  { clear. induction fuel as [|fuel IH]; intros f g l E; [reflexivity|]. destruct l; [reflexivity|]. cbn [xor_stream]. rewrite E. f_equal. apply IH. intros. apply E. }
  apply E. intros i. replace (u32 (u32 (counter + 1) + Z.of_nat i)) with (u32 (counter + Z.of_nat (S i))); [reflexivity|].
  unfold u32. rewrite Z.add_mod_idemp_l by done. f_equal. lia.
Qed.

(** ** The comparison of tags *)

Lemma u8_of_lor a b : is_byte a -> is_byte b -> u8 (Z.lor a b) = Z.lor a b.
Proof.
  intros Ha Hb. unfold u8. change 256 with (2 ^ 8). rewrite <- Z.land_ones by done. apply Z.bits_inj'. intros i Hi.
  rewrite Z.land_spec, Z.testbit_ones_nonneg by done. destruct (Z.ltb_spec i 8); [apply andb_true_r|]. rewrite andb_false_r, Z.lor_spec.
  rewrite <- (Z.mod_small a (2 ^ 8)), <- (Z.mod_small b (2 ^ 8)) by done. by rewrite !Z.mod_pow2_bits_high by lia.
Qed.
Lemma MemoryEquals_loop l k js diff : bytes l -> bytes k -> is_byte diff -> Forall (fun i => 0 <= i < zlen l /\ i < zlen k) js ->
  fold_left (fun diff i => u8 (Z.lor diff (Z.lxor (zget l i) (zget k i)))) js diff = 0
  <-> diff = 0 /\ Forall (fun i => zget l i = zget k i) js.
Proof.
  intros Hl Hk. revert diff. induction js as [|i js IH]; intros diff Hd Hi; cbn [fold_left]; [rewrite Forall_nil; tauto|].
  apply Forall_cons in Hi as [[Hi1 Hi2] Hi]. assert (is_byte (zget l i)) by (apply zget_byte; [done|lia]). assert (is_byte (zget k i)) by (apply zget_byte; [done|lia]).
  assert (is_byte (Z.lxor (zget l i) (zget k i))) by (rewrite <- u8_of_lxor by done; apply u8_range).
  assert (is_byte (Z.lor diff (Z.lxor (zget l i) (zget k i)))) by (rewrite <- u8_of_lor by done; apply u8_range).
  rewrite u8_of_lor by done. rewrite IH by done. rewrite Z.lor_eq_0_iff, Z.lxor_eq_0_iff, Forall_cons. tauto.
Qed.
(** [MemoryEquals] decides equality. *)
Lemma MemoryEquals_spec l k : bytes l -> bytes k -> zlen l = zlen k -> MemoryEquals l k (zlen l) = true <-> l = k.
Proof.
  intros Hl Hk E. unfold MemoryEquals. rewrite Z.eqb_eq. rewrite MemoryEquals_loop; [|done|done|by vm_compute|].
  - split; [|intros ->; split; [done|by apply Forall_forall]]. intros [_ H]. rewrite Forall_forall in H.
    apply zget_ext; [done|]. intros i Hi. apply H, elem_of_seqZ. lia.
  - apply Forall_forall. intros i Hi. apply elem_of_seqZ in Hi. lia.
Qed.

(** ** The authenticator's input *)

Lemma pad16_zlen l : zlen (pad16 l) = (16 - zlen l mod 16) mod 16.
Proof. unfold pad16. rewrite zlen_replicate. pose proof (Z.mod_pos_bound (16 - zlen l mod 16) 16 ltac:(done)). lia. Qed.
Lemma mem_copy_zeros pre n src : zlen src <= Z.of_nat n ->
  mem_copy (pre ++ replicate n 0) (zlen pre) src = pre ++ src ++ replicate (n - length src) 0.
Proof.
  intros Hn. unfold mem_copy. rewrite ztake_app_len, zdrop_app_plus by apply zlen_nonneg. unfold zdrop, zlen. by rewrite Nat2Z.id, drop_replicate.
Qed.
Lemma zlen_le_bytes n v : zlen (le_bytes n v) = Z.of_nat n.
Proof. unfold zlen. by rewrite le_bytes_length. Qed.

Lemma mem_copy_padded pre n src : (length src + length (pad16 src) <= n)%nat ->
  mem_copy (pre ++ replicate n 0) (zlen pre) src
  = (pre ++ src ++ pad16 src) ++ replicate (n - (length src + length (pad16 src))) 0.
Proof.
  intros Hn. rewrite mem_copy_zeros by (unfold zlen; lia). rewrite <- !app_assoc. do 2 f_equal.
  unfold pad16 in *. rewrite length_replicate in *. rewrite <- replicate_add. f_equal. lia.
Qed.
Lemma mem_copy_zeros_app pre n src : (length src <= n)%nat ->
  mem_copy (pre ++ replicate n 0) (zlen pre) src = (pre ++ src) ++ replicate (n - length src) 0.
Proof. intros Hn. rewrite mem_copy_zeros by (unfold zlen; lia). by rewrite <- app_assoc. Qed.

Definition mac_length (aad ciphertext : list Z) : Z := zlen aad + zlen (pad16 aad) + zlen ciphertext + zlen (pad16 ciphertext) + 16.

(** Sixty-four bits are enough for buffers that fit in memory. *)
Lemma mac_input_ok aad ciphertext : mac_length aad ciphertext < 2 ^ 64 ->
  BuildChaCha20Poly1305MacInput true (Bytes aad) (Bytes ciphertext) = Ok (mac_data aad ciphertext).
Proof.
  unfold mac_length. intros Hlen. unfold BuildChaCha20Poly1305MacInput, IsValidBuffer. cbn [sp_len sp_isnull sp_bytes negb]. rewrite !orb_true_r. cbn [negb orb].
  rewrite <- !pad16_zlen. pose proof (zlen_nonneg aad) as Ha. pose proof (zlen_nonneg ciphertext) as Hc.
  pose proof (zlen_nonneg (pad16 aad)) as Hpa. pose proof (zlen_nonneg (pad16 ciphertext)) as Hpc. u64_simpl.
  replace (zlen aad + zlen (pad16 aad) + zlen ciphertext + zlen (pad16 ciphertext) + 16 =? 0) with false by (symmetry; apply Z.eqb_neq; lia). f_equal.
  set (n := Z.to_nat _).
  change (mem_copy (replicate n 0) 0 aad) with (mem_copy ([] ++ replicate n 0) (zlen (@nil Z)) aad).
  rewrite mem_copy_padded by (unfold n, zlen in *; lia). rewrite app_nil_l, <- (zlen_app aad (pad16 aad)).
  rewrite mem_copy_padded by (unfold n, zlen in *; lia).
  rewrite <- (Z.add_assoc _ (zlen ciphertext)), <- (zlen_app ciphertext (pad16 ciphertext)), <- (zlen_app (aad ++ _)).
  rewrite mem_copy_zeros_app by (rewrite WriteLittleEndian64_bytes, le_bytes_length; unfold n, zlen in *; lia).
  replace 8 with (zlen (WriteLittleEndian64 (zlen aad))) at 2 by (by rewrite WriteLittleEndian64_bytes, zlen_le_bytes).
  rewrite <- (zlen_app _ (WriteLittleEndian64 (zlen aad))).
  rewrite mem_copy_zeros_app by (rewrite !WriteLittleEndian64_bytes, !le_bytes_length; unfold n, zlen in *; lia).
  replace 8 with (zlen (WriteLittleEndian64 (zlen ciphertext))) by (by rewrite WriteLittleEndian64_bytes, zlen_le_bytes).
  rewrite <- (zlen_app _ (WriteLittleEndian64 (zlen ciphertext))), ztake_app_len, !WriteLittleEndian64_bytes. unfold mac_data. by rewrite <- !app_assoc.
Qed.

(** The data determine what they cover. *)
Lemma mac_data_inj aad c aad' c' : zlen aad < 2 ^ 64 -> zlen c < 2 ^ 64 -> zlen aad' < 2 ^ 64 -> zlen c' < 2 ^ 64 ->
  mac_data aad c = mac_data aad' c' -> aad = aad' /\ c = c'.
Proof.
  intros Ha Hc Ha' Hc' E. unfold mac_data in E. rewrite !app_assoc in E.
  apply app_inj_2 in E as [E E2]; [|by rewrite !le_bytes_length]. apply app_inj_2 in E as [E E1]; [|by rewrite !le_bytes_length].
  assert (L : forall n m, 0 <= n < 2 ^ 64 -> 0 <= m < 2 ^ 64 -> le_bytes 8 n = le_bytes 8 m -> n = m).
  { intros n m Hn Hm H. apply (f_equal le_value) in H. rewrite !le_value_bytes in H. by rewrite !Z.mod_small in H. }
  pose proof (zlen_nonneg aad). pose proof (zlen_nonneg c). pose proof (zlen_nonneg aad'). pose proof (zlen_nonneg c').
  apply L in E1, E2; [|lia..]. unfold pad16 in E. rewrite E1, E2, <- !app_assoc in E.
  apply app_inj_1 in E as [-> E]; [|unfold zlen in E1; lia]. apply app_inv_head in E. by apply app_inv_tail in E.
Qed.

(** ** The functions on buffers that fit *)

(** The keystream from block 1 (2.4). *)
Definition chacha_stream (key nonce input : list Z) : list Z :=
  xor_stream 64 (length input) (fun i => ChaCha20Block key (u32 (1 + Z.of_nat i)) nonce) input.

Lemma mem_copy_front dst src : mem_copy dst 0 src = src ++ zdrop (zlen src) dst.
Proof. done. Qed.
Lemma chacha_stream_length key nonce input : zlen (chacha_stream key nonce input) = zlen input.
Proof. unfold chacha_stream, zlen. rewrite xor_stream_length by (done || lia || (intros; apply ChaCha20Block_length)). done. Qed.
Lemma chacha_stream_bytes key nonce input : bytes (chacha_stream key nonce input).
Proof. apply xor_stream_bytes. Qed.
Lemma chacha_stream_twice key nonce input : bytes input -> chacha_stream key nonce (chacha_stream key nonce input) = input.
Proof.
  intros Hb. pose proof (chacha_stream_length key nonce input) as E. unfold zlen in E. apply Nat2Z.inj in E. unfold chacha_stream at 1. rewrite E.
  apply xor_stream_twice; [lia|intros i; split; [apply ChaCha20Block_length|apply ChaCha20Block_bytes]|done|done].
Qed.
Lemma poly_key_ok key nonce : bytes (poly_key key nonce) /\ length (poly_key key nonce) = 32%nat.
Proof. unfold poly_key. split; [apply Forall_take, ChaCha20Block_bytes|]. by rewrite length_take, ChaCha20Block_length. Qed.
Lemma mac_data_bytes aad c : bytes aad -> bytes c -> bytes (mac_data aad c).
Proof.
  intros Ha Hc. unfold mac_data, pad16. repeat (apply Forall_app; split); try done; try apply le_bytes_bytes; by apply Forall_replicate.
Qed.
Lemma chacha_tag_spec key nonce aad c : bytes aad -> bytes c -> Poly1305 (poly_key key nonce) (mac_data aad c) = chacha_tag key nonce aad c.
Proof. intros Ha Hc. destruct (poly_key_ok key nonce). apply Poly1305_spec; [done|done|by apply mac_data_bytes]. Qed.
Lemma chacha_tag_length key nonce aad c : zlen (chacha_tag key nonce aad c) = 16.
Proof. apply zlen_le_bytes. Qed.
Lemma chacha_tag_bytes key nonce aad c : bytes (chacha_tag key nonce aad c).
Proof. apply le_bytes_bytes. Qed.

Lemma mac_length_eq aad c c' : zlen c = zlen c' -> mac_length aad c = mac_length aad c'.
Proof. intros E. unfold mac_length. by rewrite !pad16_zlen, E. Qed.
Lemma ztake_app_exact {A} n (l k : list A) : zlen l = n -> ztake n (l ++ k) = l.
Proof. intros <-. apply ztake_app_len. Qed.
Lemma ChaCha20Xor_ok key nonce input output : zlen input <= zlen output ->
  ChaCha20Xor key 1 nonce (Bytes input) (Bytes output)
  = (STATUS_SUCCESS, Bytes (chacha_stream key nonce input ++ zdrop (zlen input) output)).
Proof.
  intros Hl. unfold ChaCha20Xor, IsValidBuffer. cbn [sp_len sp_isnull sp_bytes negb write_front]. rewrite orb_true_r. cbn [negb orb].
  rewrite (proj2 (Z.ltb_ge _ _) Hl), mem_copy_front. rewrite xor_loop_stream by done. fold (chacha_stream key nonce input). by rewrite chacha_stream_length.
Qed.

Section Calls.
Context (key nonce aad : list Z) (Hk : zlen key = 32) (Hn : zlen nonce = 12) (Ha : bytes aad).

Lemma validate_ok tag : ValidateChaCha20Poly1305 (MkAeadKey ChaCha20Poly1305 (Bytes key)) (MkAeadParameters (Bytes nonce) (Bytes aad) tag) = STATUS_SUCCESS.
  Proof using Hk Hn. unfold ValidateChaCha20Poly1305, IsValidBuffer. cbn [ak_Key ap_Nonce ap_Aad sp_len sp_isnull]. by rewrite Hk, Hn, orb_true_r. Qed.

Lemma chacha_encrypt_ok plaintext output tag t : bytes plaintext -> zlen plaintext <= zlen output -> zlen tag = 16 ->
    mac_length aad plaintext < 2 ^ 64 ->
    ChaCha20Poly1305Encrypt true true (MkAeadKey ChaCha20Poly1305 (Bytes key)) (MkAeadParameters (Bytes nonce) (Bytes aad) t)
      (Bytes plaintext) (Bytes output) (Bytes tag)
    = MkAeadResult STATUS_SUCCESS (Bytes (chacha_stream key nonce plaintext ++ zdrop (zlen plaintext) output))
        (Bytes (chacha_tag key nonce aad (chacha_stream key nonce plaintext))) (zlen plaintext).
  Proof using Hk Hn Ha.
    intros Hp Hl Ht Hm. unfold ChaCha20Poly1305Encrypt. rewrite validate_ok. cbn [NT_SUCCESS negb ak_Key ap_Nonce ap_Aad sp_bytes sp_isnull sp_len].
    unfold IsValidBuffer at 1. cbn [sp_len sp_isnull]. rewrite (proj2 (Z.ltb_ge _ _) Hl), Ht, orb_true_r. cbn [negb orb].
    change (negb (16 =? 16)) with false. cbv iota.
    rewrite ChaCha20Xor_ok by done. cbn [NT_SUCCESS negb sp_bytes sp_len].
    rewrite (ztake_app_exact _ _ _ (chacha_stream_length key nonce plaintext)).
    rewrite mac_input_ok by (by rewrite (mac_length_eq aad _ plaintext) by apply chacha_stream_length).
    rewrite chacha_tag_spec by (done || apply chacha_stream_bytes). cbn [write_front]. f_equal.
    rewrite mem_copy_front, chacha_tag_length, <- Ht, zdrop_all, app_nil_r. done.
  Qed.

Lemma chacha_decrypt_ok ciphertext output tag : bytes ciphertext -> bytes tag -> zlen ciphertext <= zlen output -> zlen tag = 16 ->
    mac_length aad ciphertext < 2 ^ 64 ->
    ChaCha20Poly1305Decrypt true true (MkAeadKey ChaCha20Poly1305 (Bytes key)) (MkAeadParameters (Bytes nonce) (Bytes aad) (Bytes tag))
      (Bytes ciphertext) (Bytes output)
    = if decide (tag = chacha_tag key nonce aad ciphertext)
      then MkAeadResult STATUS_SUCCESS (Bytes (chacha_stream key nonce ciphertext ++ zdrop (zlen ciphertext) output)) (Bytes tag) (zlen ciphertext)
      else MkAeadResult STATUS_INVALID_SIGNATURE (Bytes output) (Bytes tag) 0.
  Proof using Hk Hn Ha.
    intros Hc Htb Hl Ht Hm. unfold ChaCha20Poly1305Decrypt. rewrite validate_ok. cbn [NT_SUCCESS negb ak_Key ap_Nonce ap_Aad ap_Tag sp_bytes sp_isnull sp_len].
    unfold IsValidBuffer at 1. cbn [sp_len sp_isnull]. rewrite (proj2 (Z.ltb_ge _ _) Hl), Ht, orb_true_r. cbn [negb orb].
    change (negb (16 =? 16)) with false. cbv iota. rewrite mac_input_ok by done. rewrite chacha_tag_spec by done.
    pose proof (MemoryEquals_spec (chacha_tag key nonce aad ciphertext) tag (chacha_tag_bytes _ _ _ _) Htb) as M.
    rewrite chacha_tag_length in M. specialize (M (eq_sym Ht)).
    destruct (decide (tag = _)) as [E|E].
    - rewrite (proj2 M (eq_sym E)). cbn [negb]. rewrite ChaCha20Xor_ok by done. done.
    - destruct (MemoryEquals _ _ _); [by destruct E; symmetry; apply M|done].
  Qed.
End Calls.
