(* ===== verification/Aes.v ===== *)
(** * The AES block cipher

    crypto/Aead.cpp: the key schedules and the encryption of a block, for keys of
    128 bits (records) and of 256 bits (packet protection), against the
    definition of FIPS 197.  A state is its sixteen bytes, column after column. *)

From S2P Require Import Prelude LittleEndian Poly1305 ChaChaPoly.

Definition AesSBox : list Z :=
  [0x63; 0x7c; 0x77; 0x7b; 0xf2; 0x6b; 0x6f; 0xc5; 0x30; 0x01; 0x67; 0x2b; 0xfe; 0xd7; 0xab; 0x76;
   0xca; 0x82; 0xc9; 0x7d; 0xfa; 0x59; 0x47; 0xf0; 0xad; 0xd4; 0xa2; 0xaf; 0x9c; 0xa4; 0x72; 0xc0;
   0xb7; 0xfd; 0x93; 0x26; 0x36; 0x3f; 0xf7; 0xcc; 0x34; 0xa5; 0xe5; 0xf1; 0x71; 0xd8; 0x31; 0x15;
   0x04; 0xc7; 0x23; 0xc3; 0x18; 0x96; 0x05; 0x9a; 0x07; 0x12; 0x80; 0xe2; 0xeb; 0x27; 0xb2; 0x75;
   0x09; 0x83; 0x2c; 0x1a; 0x1b; 0x6e; 0x5a; 0xa0; 0x52; 0x3b; 0xd6; 0xb3; 0x29; 0xe3; 0x2f; 0x84;
   0x53; 0xd1; 0x00; 0xed; 0x20; 0xfc; 0xb1; 0x5b; 0x6a; 0xcb; 0xbe; 0x39; 0x4a; 0x4c; 0x58; 0xcf;
   0xd0; 0xef; 0xaa; 0xfb; 0x43; 0x4d; 0x33; 0x85; 0x45; 0xf9; 0x02; 0x7f; 0x50; 0x3c; 0x9f; 0xa8;
   0x51; 0xa3; 0x40; 0x8f; 0x92; 0x9d; 0x38; 0xf5; 0xbc; 0xb6; 0xda; 0x21; 0x10; 0xff; 0xf3; 0xd2;
   0xcd; 0x0c; 0x13; 0xec; 0x5f; 0x97; 0x44; 0x17; 0xc4; 0xa7; 0x7e; 0x3d; 0x64; 0x5d; 0x19; 0x73;
   0x60; 0x81; 0x4f; 0xdc; 0x22; 0x2a; 0x90; 0x88; 0x46; 0xee; 0xb8; 0x14; 0xde; 0x5e; 0x0b; 0xdb;
   0xe0; 0x32; 0x3a; 0x0a; 0x49; 0x06; 0x24; 0x5c; 0xc2; 0xd3; 0xac; 0x62; 0x91; 0x95; 0xe4; 0x79;
   0xe7; 0xc8; 0x37; 0x6d; 0x8d; 0xd5; 0x4e; 0xa9; 0x6c; 0x56; 0xf4; 0xea; 0x65; 0x7a; 0xae; 0x08;
   0xba; 0x78; 0x25; 0x2e; 0x1c; 0xa6; 0xb4; 0xc6; 0xe8; 0xdd; 0x74; 0x1f; 0x4b; 0xbd; 0x8b; 0x8a;
   0x70; 0x3e; 0xb5; 0x66; 0x48; 0x03; 0xf6; 0x0e; 0x61; 0x35; 0x57; 0xb9; 0x86; 0xc1; 0x1d; 0x9e;
   0xe1; 0xf8; 0x98; 0x11; 0x69; 0xd9; 0x8e; 0x94; 0x9b; 0x1e; 0x87; 0xe9; 0xce; 0x55; 0x28; 0xdf;
   0x8c; 0xa1; 0x89; 0x0d; 0xbf; 0xe6; 0x42; 0x68; 0x41; 0x99; 0x2d; 0x0f; 0xb0; 0x54; 0xbb; 0x16].
Definition AesRcon : list Z := [0x01; 0x02; 0x04; 0x08; 0x10; 0x20; 0x40; 0x80; 0x1b; 0x36].

Definition AesGfMul2 (value : Z) : Z :=
  u8 (Z.lxor (Z.shiftl value 1) (if negb (Z.land value 0x80 =? 0) then 0x1b else 0x00)).

Definition AesAddRoundKey (state roundKey : list Z) : list Z := zip_with (fun a b => u8 (Z.lxor a b)) state roundKey.
Definition AesSubBytes (state : list Z) : list Z := map (zget AesSBox) state.

(** [state[i] = v] *)
Definition put (i : nat) (v : Z) (state : list Z) : list Z := <[i := v]> state.
Definition AesShiftRows (state : list Z) : list Z :=
  let s1 := zget state 1 in
  let state := put 1 (zget state 5) state in
  let state := put 5 (zget state 9) state in
  let state := put 9 (zget state 13) state in
  let state := put 13 s1 state in
  let s2 := zget state 2 in let s6 := zget state 6 in
  let state := put 2 (zget state 10) state in
  let state := put 6 (zget state 14) state in
  let state := put 10 s2 state in
  let state := put 14 s6 state in
  let s3 := zget state 3 in
  let state := put 3 (zget state 15) state in
  let state := put 15 (zget state 11) state in
  let state := put 11 (zget state 7) state in
  put 7 s3 state.

(** One column. *)
Definition mix_column (c : list Z) : list Z :=
  let a0 := zget c 0 in let a1 := zget c 1 in let a2 := zget c 2 in let a3 := zget c 3 in
  let t := u8 (Z.lxor (Z.lxor (Z.lxor a0 a1) a2) a3) in
  let u := a0 in
  [u8 (Z.lxor (Z.lxor a0 t) (AesGfMul2 (u8 (Z.lxor a0 a1))));
   u8 (Z.lxor (Z.lxor a1 t) (AesGfMul2 (u8 (Z.lxor a1 a2))));
   u8 (Z.lxor (Z.lxor a2 t) (AesGfMul2 (u8 (Z.lxor a2 a3))));
   u8 (Z.lxor (Z.lxor a3 t) (AesGfMul2 (u8 (Z.lxor a3 u))))].
Definition AesMixColumns (state : list Z) : list Z :=
  flat_map (fun column => mix_column (zsub state (column * 4) 4)) [0; 1; 2; 3].

(** ** Key schedules *)

(** The rotation, substitution and constant of the first word of a key length. *)
Definition schedule_core (rconIndex : Z) (temp : list Z) : list Z :=
  let rotate := zget temp 0 in
  [u8 (Z.lxor (zget AesSBox (zget temp 1)) (zget AesRcon rconIndex)); zget AesSBox (zget temp 2);
   zget AesSBox (zget temp 3); zget AesSBox rotate].
(** The copy of four bytes, each with the byte a key length before. *)
Definition schedule_append (keyLength : Z) (temp roundKeys : list Z) : list Z :=
  roundKeys ++ zip_with (fun a b => u8 (Z.lxor a b)) (zsub roundKeys (zlen roundKeys - keyLength) 4) temp.

(** The loop of [Aes128Initialize]: forty turns of a word. *)
Fixpoint expand128_loop (fuel : nat) (rconIndex : Z) (roundKeys : list Z) : list Z :=
  match fuel with
  | O => roundKeys
  | S fuel =>
      if zlen roundKeys <? 176 then
        let temp := zsub roundKeys (zlen roundKeys - 4) 4 in
        if zlen roundKeys mod 16 =? 0
        then expand128_loop fuel (rconIndex + 1) (schedule_append 16 (schedule_core rconIndex temp) roundKeys)
        else expand128_loop fuel rconIndex (schedule_append 16 temp roundKeys)
      else roundKeys
  end.
Definition Aes128Initialize (key : span) : Result (list Z) :=
  if sp_isnull key || negb (sp_len key =? 16) then Err STATUS_INVALID_PARAMETER
  else Ok (expand128_loop 40 0 (sp_bytes key)).

Fixpoint expand256_loop (fuel : nat) (rcon : Z) (roundKeys : list Z) : list Z :=
  match fuel with
  | O => roundKeys
  | S fuel =>
      if zlen roundKeys <? 240 then
        let temp := zsub roundKeys (zlen roundKeys - 4) 4 in
        if zlen roundKeys mod 32 =? 0
        then expand256_loop fuel (rcon + 1) (schedule_append 32 (schedule_core rcon temp) roundKeys)
        else if zlen roundKeys mod 32 =? 16
        then expand256_loop fuel rcon (schedule_append 32 (map (zget AesSBox) temp) roundKeys)
        else expand256_loop fuel rcon (schedule_append 32 temp roundKeys)
      else roundKeys
  end.
Definition Aes256PacketInitialize (key : list Z) : list Z := expand256_loop 52 0 key.

(** ** Encryption of a block *)

Definition aes_round (roundKeys state : list Z) (round : Z) : list Z :=
  AesAddRoundKey (AesMixColumns (AesShiftRows (AesSubBytes state))) (zsub roundKeys (round * 16) 16).
Definition Aes128EncryptBlock (roundKeys input : list Z) : list Z :=
  let state := AesAddRoundKey input (zsub roundKeys 0 16) in
  let state := fold_left (aes_round roundKeys) (seqZ 1 9) state in
  AesAddRoundKey (AesShiftRows (AesSubBytes state)) (zsub roundKeys (10 * 16) 16).
Definition Aes256PacketEncrypt (roundKeys input : list Z) : list Z :=
  let state := AesAddRoundKey input (zsub roundKeys 0 16) in
  let state := fold_left (aes_round roundKeys) (seqZ 1 13) state in
  AesAddRoundKey (AesShiftRows (AesSubBytes state)) (zsub roundKeys (14 * 16) 16).

(** [PacketProtectionAesEncryptBlock]; [scratch], [context]: the allocations. *)
Definition PacketProtectionAesEncryptBlock (scratch context : bool) (key : span) (input output : span) : NTSTATUS * span :=
  if sp_isnull key || (negb (sp_len key =? 16) && negb (sp_len key =? 32)) || sp_isnull input || sp_isnull output
  then (STATUS_INVALID_PARAMETER, output) else
  if negb scratch then (STATUS_INSUFFICIENT_RESOURCES, output) else
  if negb context then (STATUS_INSUFFICIENT_RESOURCES, output) else
  if sp_len key =? 32
  then (STATUS_SUCCESS, write_front output (Aes256PacketEncrypt (Aes256PacketInitialize (sp_bytes key)) (sp_bytes input)))
  else match Aes128Initialize key with
       | Err s => (s, output)
       | Ok roundKeys => (STATUS_SUCCESS, write_front output (Aes128EncryptBlock roundKeys (sp_bytes input)))
       end.

(** FIPS 197, appendix C. *)
Definition fips_plaintext : list Z := map (fun i => 0x11 * i) (seqZ 0 16).
Example aes128_vector :
  PacketProtectionAesEncryptBlock true true (Bytes (seqZ 0 16)) (Bytes fips_plaintext) (Bytes (replicate 16 0))
  = (STATUS_SUCCESS, Bytes [0x69;0xc4;0xe0;0xd8;0x6a;0x7b;0x04;0x30;0xd8;0xcd;0xb7;0x80;0x70;0xb4;0xc5;0x5a]).
Proof. by vm_compute. Qed.
Example aes256_vector :
  PacketProtectionAesEncryptBlock true true (Bytes (seqZ 0 32)) (Bytes fips_plaintext) (Bytes (replicate 16 0))
  = (STATUS_SUCCESS, Bytes [0x8e;0xa2;0xb7;0xca;0x51;0x67;0x45;0xbf;0xea;0xfc;0x49;0x90;0x4b;0x49;0x60;0x89]).
Proof. by vm_compute. Qed.

(** ** Specification (FIPS 197) *)

(** Multiplication by x, and of two elements, in GF(2^8) modulo x^8+x^4+x^3+x+1. *)
Definition xtime (a : Z) : Z := if 0x100 <=? 2 * a then Z.lxor (2 * a) 0x11b else 2 * a.
Fixpoint gf_mul_loop (n : nat) (a b : Z) : Z :=
  match n with O => 0 | S n => Z.lxor (if Z.odd b then a else 0) (gf_mul_loop n (xtime a) (b / 2)) end.
Definition gf_mul : Z -> Z -> Z := gf_mul_loop 8.
(** The inverse, as the power 254. *)
Definition gf_inv (a : Z) : Z :=
  let sq x := gf_mul x x in
  let a2 := sq a in let a4 := sq a2 in let a8 := sq a4 in let a16 := sq a8 in let a32 := sq a16 in let a64 := sq a32 in let a128 := sq a64 in
  gf_mul a2 (gf_mul a4 (gf_mul a8 (gf_mul a16 (gf_mul a32 (gf_mul a64 a128))))).
Lemma gf_inv_ok a : is_byte a -> a <> 0 -> gf_mul a (gf_inv a) = 1.
Proof.
  intros Ha H0. assert (E : (a =? 0) || (gf_mul a (gf_inv a) =? 1) = true) by (revert a Ha H0; intros a Ha _; revert a Ha; apply byte_cases; by vm_compute).
  apply orb_true_iff in E as [E|E]; apply Z.eqb_eq in E; [done|exact E].
Qed.
(** The affine transformation of 5.1.1. *)
Definition affine (b : Z) : Z :=
  fold_right (fun i acc => Z.lor acc (Z.shiftl (Z.b2z
    (xorb (xorb (xorb (xorb (xorb (Z.testbit b i) (Z.testbit b ((i + 4) mod 8))) (Z.testbit b ((i + 5) mod 8)))
      (Z.testbit b ((i + 6) mod 8))) (Z.testbit b ((i + 7) mod 8))) (Z.testbit 0x63 i))) i)) 0 [0; 1; 2; 3; 4; 5; 6; 7].
Definition sbox (b : Z) : Z := affine (gf_inv b).

(** A state as its four columns, which are words of four bytes. *)
Definition columns (l : list Z) : list (list Z) := [zsub l 0 4; zsub l 4 4; zsub l 8 4; zsub l 12 4].
Definition fips_sub_bytes : list (list Z) -> list (list Z) := map (map sbox).
Definition fips_shift_rows (s : list (list Z)) : list (list Z) :=
  map (fun c => map (fun r => nth r (nth ((c + r) mod 4) s []) 0%Z) [0; 1; 2; 3])%nat [0; 1; 2; 3]%nat.
Definition mix_matrix : list (list Z) := [[2; 3; 1; 1]; [1; 2; 3; 1]; [1; 1; 2; 3]; [3; 1; 1; 2]].
Definition fips_mix_columns : list (list Z) -> list (list Z) :=
  map (fun column => map (fun row => fold_left Z.lxor (zip_with gf_mul row column) 0) mix_matrix).
Definition fips_add_round_key : list (list Z) -> list (list Z) -> list (list Z) := zip_with (zip_with Z.lxor).
Definition round_key (w : list (list Z)) (round : nat) : list (list Z) := take 4 (drop (4 * round) w).
Definition fips_round (w s : list (list Z)) (round : nat) : list (list Z) :=
  fips_add_round_key (fips_mix_columns (fips_shift_rows (fips_sub_bytes s))) (round_key w round).
(** Cipher (5.1), with [nr] rounds and the key schedule [w]. *)
Definition fips_cipher (nr : nat) (w : list (list Z)) (block : list Z) : list Z :=
  let s := fips_add_round_key (columns block) (round_key w 0) in
  let s := fold_left (fips_round w) (seq 1 (nr - 1)) s in
  concat (fips_add_round_key (fips_shift_rows (fips_sub_bytes s)) (round_key w nr)).

(** KeyExpansion (5.2), for [nk] words of key. *)
Definition sub_word : list Z -> list Z := map sbox.
Definition rot_word (w : list Z) : list Z := drop 1 w ++ take 1 w.
Definition rcon (j : nat) : list Z := [Nat.iter (j - 1) xtime 1; 0; 0; 0].
Definition next_word (nk : nat) (w : list (list Z)) : list Z :=
  let i := length w in
  let temp := nth (i - 1) w [] in
  zip_with Z.lxor (nth (i - nk) w [])
    (if (i mod nk =? 0)%nat then zip_with Z.lxor (sub_word (rot_word temp)) (rcon (i / nk))
     else if (6 <? nk)%nat && (i mod nk =? 4)%nat then sub_word temp else temp).
Fixpoint fips_schedule (nk n : nat) (w : list (list Z)) : list (list Z) :=
  match n with O => w | S n => fips_schedule nk n (w ++ [next_word nk w]) end.

(** AES-128 and AES-256. *)
Definition aes128 (key block : list Z) : list Z := fips_cipher 10 (fips_schedule 4 40 (columns key)) block.
Definition aes256 (key block : list Z) : list Z :=
  fips_cipher 14 (fips_schedule 8 52 (columns key ++ columns (drop 16 key))) block.

(** ** Bytes *)

Lemma sbox_table b : is_byte b -> zget AesSBox b = sbox b.
Proof. intros Hb. apply Z.eqb_eq. revert b Hb. apply byte_cases. by vm_compute. Qed.
Lemma sbox_byte b : is_byte b -> is_byte (sbox b).
Proof.
  intros Hb. enough ((0 <=? sbox b) && (sbox b <? 256) = true) by (unfold is_byte; bool_lia).
  revert b Hb. apply byte_cases. by vm_compute.
Qed.
Lemma mul2_xtime a : is_byte a -> AesGfMul2 a = gf_mul 2 a.
Proof. intros Ha. apply Z.eqb_eq. revert a Ha. apply byte_cases. by vm_compute. Qed.
Lemma mul3 a : is_byte a -> gf_mul 3 a = Z.lxor (gf_mul 2 a) a.
Proof. intros Ha. apply Z.eqb_eq. revert a Ha. apply byte_cases. by vm_compute. Qed.
Lemma mul1 a : is_byte a -> gf_mul 1 a = a.
Proof. intros Ha. apply Z.eqb_eq. revert a Ha. apply byte_cases. by vm_compute. Qed.
Lemma u8_byte a : is_byte (u8 a).
Proof. apply u8_range. Qed.
Lemma mul2_byte a : is_byte (AesGfMul2 a).
Proof. apply u8_range. Qed.

Lemma lxor_is_byte a b : is_byte a -> is_byte b -> is_byte (Z.lxor a b).
Proof. intros Ha Hb. rewrite <- u8_of_lxor by done. apply u8_range. Qed.
Lemma land_128 a : negb (Z.land a 0x80 =? 0) = Z.testbit a 7.
Proof.
  change 0x80 with (2 ^ 7). destruct (Z.testbit a 7) eqn:E.
  - apply negb_true_iff, Z.eqb_neq. intros H. apply (f_equal (fun x => Z.testbit x 7)) in H. rewrite Z.land_spec, E in H. done.
  - apply negb_false_iff, Z.eqb_eq, Z.bits_inj'. intros i Hi. rewrite Z.land_spec, Z.pow2_bits_eqb, Z.bits_0 by done.
    destruct (Z.eqb_spec 7 i) as [<-|]; [by rewrite E|apply andb_false_r].
Qed.
Lemma u8_lxor a b : u8 (Z.lxor a b) = Z.lxor (u8 a) (u8 b).
Proof.
  unfold u8. change 256 with (2 ^ 8). apply Z.bits_inj'. intros i Hi. rewrite Z.lxor_spec. destruct (Z.lt_ge_cases i 8).
  - by rewrite !Z.mod_pow2_bits_low, Z.lxor_spec by done.
  - by rewrite !Z.mod_pow2_bits_high by done.
Qed.
(** Doubling is linear. *)
Lemma mul2_lxor a b : AesGfMul2 (Z.lxor a b) = Z.lxor (AesGfMul2 a) (AesGfMul2 b).
Proof.
  unfold AesGfMul2. rewrite !land_128, Z.lxor_spec, !u8_lxor, Z.shiftl_lxor, u8_lxor.
  generalize (u8 (Z.shiftl a 1)), (u8 (Z.shiftl b 1)). intros x y.
  destruct (Z.testbit a 7), (Z.testbit b 7); cbn [xorb]; change (u8 27) with 27; change (u8 0) with 0; apply Z.bits_inj'; intros i Hi;
    rewrite !Z.lxor_spec, ?Z.bits_0; destruct (Z.testbit x i), (Z.testbit y i), (Z.testbit 27 i); done.
Qed.

(** ** The operations on a state *)

Definition word (w : list Z) : Prop := length w = 4%nat /\ bytes w.
Definition aes_state (s : list (list Z)) : Prop := length s = 4%nat /\ Forall word s.

Lemma word_inv w : word w -> exists a b c d, w = [a; b; c; d] /\ (is_byte a /\ is_byte b) /\ is_byte c /\ is_byte d.
Proof.
  intros [Hl Hb]. destruct w as [|a [|b [|c [|d [|]]]]]; try done. exists a, b, c, d. split; [done|].
  do 4 (apply Forall_cons in Hb as [? Hb]). done.
Qed.
Lemma word_intro a b c d : is_byte a -> is_byte b -> is_byte c -> is_byte d -> word [a; b; c; d].
Proof. intros. split; [done|]. by repeat (apply Forall_cons_2; [done|]). Qed.
Lemma state_inv s : aes_state s -> exists p q r t, s = [p; q; r; t] /\ (word p /\ word q) /\ word r /\ word t.
Proof.
  intros [Hl Hb]. destruct s as [|a [|b [|c [|d [|]]]]]; try done. exists a, b, c, d. split; [done|].
  do 4 (apply Forall_cons in Hb as [? Hb]). done.
Qed.
Lemma state_intro p q r t : word p -> word q -> word r -> word t -> aes_state [p; q; r; t].
Proof. intros. split; [done|]. by repeat (apply Forall_cons_2; [done|]). Qed.
(** A state as sixteen bytes. *)
Ltac explicit_state H :=
  apply state_inv in H as (p & q & r & t & -> & (Hp & Hq) & Hr & Ht);
  apply word_inv in Hp as (p0 & p1 & p2 & p3 & -> & (? & ?) & ? & ?); apply word_inv in Hq as (q0 & q1 & q2 & q3 & -> & (? & ?) & ? & ?);
  apply word_inv in Hr as (r0 & r1 & r2 & r3 & -> & (? & ?) & ? & ?); apply word_inv in Ht as (t0 & t1 & t2 & t3 & -> & (? & ?) & ? & ?).
Ltac words := repeat first [apply state_intro | apply word_intro]; repeat apply lxor_is_byte; eauto using sbox_byte, mul2_byte.

Lemma sub_bytes_ok s : aes_state s -> AesSubBytes (concat s) = concat (fips_sub_bytes s) /\ aes_state (fips_sub_bytes s).
Proof.
  intros H. explicit_state H. unfold AesSubBytes, fips_sub_bytes. cbn [concat app map].
  rewrite !sbox_table by done. split; [done|]. words.
Qed.
Lemma shift_rows_ok s : aes_state s -> AesShiftRows (concat s) = concat (fips_shift_rows s) /\ aes_state (fips_shift_rows s).
Proof. intros H. explicit_state H. split; [reflexivity|]. cbv [fips_shift_rows map Nat.add Nat.modulo Nat.divmod Nat.sub fst snd nth]. words. Qed.

Lemma four_equal (a b c d a' b' c' d' : Z) : a = a' -> b = b' -> c = c' -> d = d' -> [a; b; c; d] = [a'; b'; c'; d'].
Proof. by intros -> -> -> ->. Qed.
Lemma mix_column_ok w : word w ->
  mix_column w = map (fun row => fold_left Z.lxor (zip_with gf_mul row w) 0) mix_matrix /\ word (mix_column w).
Proof.
  intros H. apply word_inv in H as (a & b & c & d & -> & (Ha & Hb) & Hc & Hd).
  assert (Hl : forall x y, is_byte x -> is_byte y -> is_byte (Z.lxor x y)) by apply lxor_is_byte.
  assert (Hu : forall x, is_byte x -> u8 x = x) by (intros; by apply Z.mod_small).
  unfold mix_column. change (zget [a; b; c; d] 0) with a. change (zget [a; b; c; d] 1) with b.
  change (zget [a; b; c; d] 2) with c. change (zget [a; b; c; d] 3) with d. cbv zeta.
  rewrite !Hu by (repeat apply Hl; auto using mul2_byte, u8_byte). rewrite !mul2_lxor.
  split; [|apply word_intro; repeat apply Hl; auto using mul2_byte].
  cbn [map mix_matrix zip_with fold_left]. rewrite !mul3, !mul1, <- !mul2_xtime, !Z.lxor_0_l by done.
  repeat match goal with |- context [AesGfMul2 ?x] => generalize (AesGfMul2 x); intros ? end.
  apply four_equal; apply Z.bits_inj'; intros i Hi; rewrite !Z.lxor_spec;
    repeat match goal with |- context [Z.testbit ?x i] => destruct (Z.testbit x i) end; done.
Qed.
Lemma mix_columns_ok s : aes_state s -> AesMixColumns (concat s) = concat (fips_mix_columns s) /\ aes_state (fips_mix_columns s).
Proof.
  intros H. apply state_inv in H as (p & q & r & t & -> & (Hp & Hq) & Hr & Ht). unfold fips_mix_columns. cbn [map].
  destruct (mix_column_ok p Hp) as [<- Wp], (mix_column_ok q Hq) as [<- Wq], (mix_column_ok r Hr) as [<- Wr], (mix_column_ok t Ht) as [<- Wt].
  split; [|by apply state_intro].
  apply word_inv in Hp as (p0 & p1 & p2 & p3 & -> & _). apply word_inv in Hq as (q0 & q1 & q2 & q3 & -> & _).
  apply word_inv in Hr as (r0 & r1 & r2 & r3 & -> & _). apply word_inv in Ht as (t0 & t1 & t2 & t3 & -> & _). reflexivity.
Qed.
Lemma add_word_ok v w : word v -> word w -> zip_with (fun a b => u8 (Z.lxor a b)) v w = zip_with Z.lxor v w /\ word (zip_with Z.lxor v w).
Proof.
  intros Hv Hw. apply word_inv in Hv as (a & b & c & d & -> & (? & ?) & ? & ?). apply word_inv in Hw as (e & f & g & h & -> & (? & ?) & ? & ?).
  cbn [zip_with]. rewrite !u8_of_lxor by done. split; [done|]. by apply word_intro; apply lxor_is_byte.
Qed.
Lemma add_round_key_ok s k : aes_state s -> aes_state k ->
  AesAddRoundKey (concat s) (concat k) = concat (fips_add_round_key s k) /\ aes_state (fips_add_round_key s k).
Proof.
  intros Hs Hk. explicit_state Hs. rename p0 into x0, p1 into x1, p2 into x2, p3 into x3, q0 into x4, q1 into x5, q2 into x6, q3 into x7,
    r0 into x8, r1 into x9, r2 into x10, r3 into x11, t0 into x12, t1 into x13, t2 into x14, t3 into x15.
  explicit_state Hk. unfold AesAddRoundKey, fips_add_round_key. cbn [concat app zip_with]. rewrite !u8_of_lxor by done.
  split; [done|]. words.
Qed.

(** ** The key schedule *)

Definition words_of (w : list (list Z)) : Prop := Forall word w.
Lemma concat_length (w : list (list Z)) : words_of w -> zlen (concat w) = 4 * zlen w.
Proof. induction 1 as [|x w [Hx _] _ IH]; [done|]. cbn [concat]. rewrite zlen_app, zlen_cons, IH. unfold zlen at 1. rewrite Hx. lia. Qed.
Lemma zsub_concat (w : list (list Z)) j : words_of w -> (j < length w)%nat -> zsub (concat w) (4 * Z.of_nat j) 4 = nth j w [].
Proof.
  intros Hw. revert j. induction Hw as [|x w [Hx Hb] Hw IH]; intros j Hj; [cbn in Hj; lia|]. cbn [concat].
  assert (Ex : zlen x = 4) by (unfold zlen; rewrite Hx; done). destruct j as [|j].
  - unfold zsub. rewrite zdrop_0, <- Ex, ztake_app_len. done.
  - unfold zsub. replace (4 * Z.of_nat (S j)) with (zlen x + 4 * Z.of_nat j) by lia. rewrite zdrop_app_plus by lia. apply (IH j). cbn in Hj. lia.
Qed.
Lemma nth_word w j : words_of w -> (j < length w)%nat -> word (nth j w []).
Proof. intros Hw Hj. by apply Forall_nth. Qed.
Lemma zget_rcon j : (1 <= j <= 10)%nat -> zget AesRcon (Z.of_nat j - 1) = Nat.iter (j - 1) xtime 1 /\ is_byte (Nat.iter (j - 1) xtime 1).
Proof. intros Hj. do 11 (destruct j as [|j]; [try lia; vm_compute; by split|]). lia. Qed.

Lemma schedule_core_ok w j : word w -> (1 <= j <= 10)%nat ->
  schedule_core (Z.of_nat j - 1) w = zip_with Z.lxor (sub_word (rot_word w)) (rcon j) /\ word (schedule_core (Z.of_nat j - 1) w).
Proof.
  intros Hw Hj. destruct (zget_rcon j Hj) as [Er Hr]. apply word_inv in Hw as (a & b & c & d & -> & (Ha & Hb) & Hc & Hd).
  unfold schedule_core. rewrite Er. change (zget [a; b; c; d] 0) with a. change (zget [a; b; c; d] 1) with b.
  change (zget [a; b; c; d] 2) with c. change (zget [a; b; c; d] 3) with d. rewrite !sbox_table by done. cbv zeta.
  rewrite u8_of_lxor by (done || by apply sbox_byte). unfold rcon, sub_word, rot_word. cbn [drop take app map zip_with]. rewrite !Z.lxor_0_r.
  split; [done|]. apply word_intro; [apply lxor_is_byte|..]; auto using sbox_byte.
Qed.
Lemma sub_word_ok w : word w -> map (zget AesSBox) w = sub_word w /\ word (sub_word w).
Proof.
  intros Hw. apply word_inv in Hw as (a & b & c & d & -> & (Ha & Hb) & Hc & Hd). unfold sub_word. cbn [map]. rewrite !sbox_table by done.
  split; [done|]. apply word_intro; by apply sbox_byte.
Qed.

(** One turn of a schedule, whatever [temp] is. *)
Lemma schedule_append_ok nk temp w : words_of w -> (0 < nk <= length w)%nat -> word temp ->
  schedule_append (4 * Z.of_nat nk) temp (concat w) = concat (w ++ [zip_with Z.lxor (nth (length w - nk) w []) temp])
  /\ words_of (w ++ [zip_with Z.lxor (nth (length w - nk) w []) temp]).
Proof.
  intros Hw Hn Ht. unfold schedule_append. rewrite concat_length by done.
  replace (4 * zlen w - 4 * Z.of_nat nk) with (4 * Z.of_nat (length w - nk)) by (unfold zlen; lia). rewrite zsub_concat by (done || lia).
  destruct (add_word_ok (nth (length w - nk) w []) temp) as [E Hx]; [apply nth_word; [done|lia]|done|]. rewrite E.
  split; [by rewrite concat_app; cbn [concat]; rewrite app_nil_r|]. apply Forall_app. split; [done|]. by apply Forall_cons_2.
Qed.
Lemma last_word w : words_of w -> (0 < length w)%nat -> zsub (concat w) (zlen (concat w) - 4) 4 = nth (length w - 1) w [] /\ word (nth (length w - 1) w []).
Proof.
  intros Hw Hl. rewrite concat_length by done. replace (4 * zlen w - 4) with (4 * Z.of_nat (length w - 1)) by (unfold zlen; lia).
  rewrite zsub_concat by (done || lia). split; [done|]. apply nth_word; [done|lia].
Qed.
(** The position in bytes and in words. *)
Lemma position_mod w k c : words_of w -> (0 < k)%nat -> (zlen (concat w) mod (4 * Z.of_nat k) =? 4 * Z.of_nat c) = (length w mod k =? c)%nat.
Proof.
  intros Hw Hk. rewrite concat_length by done. unfold zlen. rewrite Zmult_mod_distr_l.
  destruct (Nat.eqb_spec (length w mod k) c) as [E|E]; [apply Z.eqb_eq|apply Z.eqb_neq]; rewrite <- Nat2Z.inj_mod; lia.
Qed.

(** The constants used so far, before and after a turn. *)
Lemma cores_core (w : list (list Z)) x nk : (0 < nk <= length w)%nat -> (length w mod nk = 0)%nat ->
  ((length w - 1) / nk = length w / nk - 1 /\ (length (w ++ [x]) - 1) / nk = length w / nk /\ 1 <= length w / nk)%nat.
Proof.
  intros Hn E. pose proof (Nat.div_mod (length w) nk ltac:(lia)) as D. rewrite length_app. cbn [length]. rewrite Nat.add_sub.
  split; [symmetry; apply (Nat.div_unique _ nk _ (nk - 1)); nia|split; [done|]]. destruct (length w / nk)%nat; lia.
Qed.
Lemma cores_other (w : list (list Z)) x nk : (0 < nk)%nat -> (length w mod nk <> 0)%nat -> ((length (w ++ [x]) - 1) / nk = (length w - 1) / nk)%nat.
Proof.
  intros Hn E. pose proof (Nat.div_mod (length w) nk ltac:(lia)) as D. pose proof (Nat.mod_upper_bound (length w) nk ltac:(lia)).
  rewrite length_app. cbn [length]. rewrite Nat.add_sub. apply (Nat.div_unique _ nk _ (length w mod nk - 1)); lia.
Qed.

(** The three kinds of turn. *)
Section Turns.
Context (nk : nat) (w : list (list Z)) (Hw : words_of w) (Hn : (0 < nk <= length w)%nat).
Definition turn_ok (cores : nat) (temp : list Z) : Prop :=
    schedule_append (4 * Z.of_nat nk) temp (concat w) = concat (w ++ [next_word nk w])
    /\ words_of (w ++ [next_word nk w]) /\ ((length (w ++ [next_word nk w]) - 1) / nk = cores)%nat.

Lemma core_turn : (length w mod nk = 0)%nat -> (length w / nk <= 10)%nat ->
    turn_ok ((length w - 1) / nk + 1) (schedule_core (Z.of_nat ((length w - 1) / nk)) (nth (length w - 1) w [])).
  Proof using Hw Hn.
    intros E Hd. destruct (cores_core w (next_word nk w) nk Hn E) as (C1 & C2 & C3).
    destruct (last_word w Hw ltac:(lia)) as [_ Hlw]. destruct (schedule_core_ok _ (length w / nk) Hlw ltac:(lia)) as [Ec Hc].
    unfold turn_ok. rewrite C1. replace (Z.of_nat (length w / nk - 1)) with (Z.of_nat (length w / nk) - 1) by lia. rewrite Ec in *.
    destruct (schedule_append_ok nk _ w Hw Hn Hc) as [Ea Ha]. unfold next_word in *. rewrite E in *. change (0 =? 0)%nat with true in *. cbv iota in *.
    split; [done|split; [done|lia]].
  Qed.
Lemma sub_turn : (length w mod nk = 4)%nat -> (6 < nk)%nat ->
    turn_ok ((length w - 1) / nk) (map (zget AesSBox) (nth (length w - 1) w [])).
  Proof using Hw Hn.
    intros E Hk. destruct (last_word w Hw ltac:(lia)) as [_ Hlw]. destruct (sub_word_ok _ Hlw) as [Ec Hc]. unfold turn_ok. rewrite Ec.
    split; [|split; [|apply cores_other; lia]]; destruct (schedule_append_ok nk _ w Hw Hn Hc) as [Ea Ha]; unfold next_word; rewrite E;
      rewrite (proj2 (Nat.ltb_lt 6 nk) Hk); change (4 =? 0)%nat with false; change (4 =? 4)%nat with true; cbv [andb]; done.
  Qed.
Lemma plain_turn : (length w mod nk <> 0)%nat -> ((6 <? nk) && (length w mod nk =? 4) = false)%nat ->
    turn_ok ((length w - 1) / nk) (nth (length w - 1) w []).
  Proof using Hw Hn.
    intros E E4. destruct (last_word w Hw ltac:(lia)) as [_ Hlw]. unfold turn_ok.
    split; [|split; [|apply cores_other; lia]]; destruct (schedule_append_ok nk _ w Hw Hn Hlw) as [Ea Ha]; unfold next_word;
      rewrite (proj2 (Nat.eqb_neq _ 0) E), E4; done.
  Qed.
End Turns.

Lemma expand128_ok n w : words_of w -> (4 <= length w)%nat -> (length w + n = 44)%nat ->
  expand128_loop n (Z.of_nat ((length w - 1) / 4)) (concat w) = concat (fips_schedule 4 n w)
  /\ words_of (fips_schedule 4 n w) /\ length (fips_schedule 4 n w) = 44%nat.
Proof.
  revert w. induction n as [|n IH]; intros w Hw Hl Hn; [split; [done|split; [done|cbn; lia]]|]. cbn [expand128_loop fips_schedule].
  destruct (last_word w Hw ltac:(lia)) as [-> _].
  replace (zlen (concat w) <? 176) with true by (symmetry; apply Z.ltb_lt; rewrite concat_length by done; unfold zlen; lia).
  rewrite (position_mod w 4 0 Hw ltac:(lia) : (zlen (concat w) mod 16 =? 0) = _).
  pose proof (Nat.div_mod (length w) 4 ltac:(lia)) as D.
  assert (Hl' : length (w ++ [next_word 4 w]) = S (length w)) by (rewrite length_app; cbn; lia).
  destruct (Nat.eqb_spec (length w mod 4) 0) as [E|E].
  - destruct (core_turn 4 w Hw ltac:(lia) E ltac:(lia)) as (T1 & T2 & T3). rewrite (T1 : schedule_append 16 _ _ = _).
    replace (Z.of_nat ((length w - 1) / 4) + 1) with (Z.of_nat ((length (w ++ [next_word 4 w]) - 1) / 4)) by lia. apply IH; [done|lia..].
  - destruct (plain_turn 4 w Hw ltac:(lia) E eq_refl) as (T1 & T2 & T3). rewrite (T1 : schedule_append 16 _ _ = _), <- T3. apply IH; [done|lia..].
Qed.
Lemma expand256_ok n w : words_of w -> (8 <= length w)%nat -> (length w + n = 60)%nat ->
  expand256_loop n (Z.of_nat ((length w - 1) / 8)) (concat w) = concat (fips_schedule 8 n w)
  /\ words_of (fips_schedule 8 n w) /\ length (fips_schedule 8 n w) = 60%nat.
Proof.
  revert w. induction n as [|n IH]; intros w Hw Hl Hn; [split; [done|split; [done|cbn; lia]]|]. cbn [expand256_loop fips_schedule].
  destruct (last_word w Hw ltac:(lia)) as [-> _].
  replace (zlen (concat w) <? 240) with true by (symmetry; apply Z.ltb_lt; rewrite concat_length by done; unfold zlen; lia).
  rewrite (position_mod w 8 0 Hw ltac:(lia) : (zlen (concat w) mod 32 =? 0) = _), (position_mod w 8 4 Hw ltac:(lia) : (zlen (concat w) mod 32 =? 16) = _).
  pose proof (Nat.div_mod (length w) 8 ltac:(lia)) as D.
  assert (Hl' : length (w ++ [next_word 8 w]) = S (length w)) by (rewrite length_app; cbn; lia).
  destruct (Nat.eqb_spec (length w mod 8) 0) as [E|E]; [|destruct (Nat.eqb_spec (length w mod 8) 4) as [E4|E4]].
  - destruct (core_turn 8 w Hw ltac:(lia) E ltac:(lia)) as (T1 & T2 & T3). rewrite (T1 : schedule_append 32 _ _ = _).
    replace (Z.of_nat ((length w - 1) / 8) + 1) with (Z.of_nat ((length (w ++ [next_word 8 w]) - 1) / 8)) by lia. apply IH; [done|lia..].
  - destruct (sub_turn 8 w Hw ltac:(lia) E4 ltac:(lia)) as (T1 & T2 & T3). rewrite (T1 : schedule_append 32 _ _ = _), <- T3. apply IH; [done|lia..].
  - destruct (plain_turn 8 w Hw ltac:(lia) E) as (T1 & T2 & T3); [by apply Nat.eqb_neq|]. rewrite (T1 : schedule_append 32 _ _ = _), <- T3. apply IH; [done|lia..].
Qed.

(** ** The cipher *)

Lemma sixteen l : length l = 16%nat -> bytes l -> concat (columns l) = l /\ aes_state (columns l).
Proof.
  intros Hl Hb. do 17 (destruct l as [|? l]; try done). do 16 (apply Forall_cons in Hb as [? Hb]).
  cbv [columns zsub zdrop ztake drop take Z.to_nat Pos.to_nat Pos.iter_op Init.Nat.add Nat.add]. split; [done|]. by apply state_intro; apply word_intro.
Qed.
Lemma concat_drop (w : list (list Z)) n : words_of w -> (n <= length w)%nat -> zdrop (4 * Z.of_nat n) (concat w) = concat (drop n w).
Proof.
  intros Hw Hn. rewrite <- (take_drop n w) at 1. rewrite concat_app.
  replace (4 * Z.of_nat n) with (zlen (concat (take n w))); [apply zdrop_app_len|].
  rewrite concat_length by (by apply Forall_take). unfold zlen. rewrite length_take. lia.
Qed.
Lemma round_key_ok w r : words_of w -> (4 * r + 4 <= length w)%nat ->
  zsub (concat w) (Z.of_nat r * 16) 16 = concat (round_key w r) /\ aes_state (round_key w r).
Proof.
  intros Hw Hr. assert (Hd : words_of (drop (4 * r) w)) by (by apply Forall_drop).
  assert (Hl : length (round_key w r) = 4%nat) by (unfold round_key; rewrite length_take, length_drop; lia).
  assert (Hk : words_of (round_key w r)) by (by apply Forall_take).
  split; [|by split]. unfold zsub. replace (Z.of_nat r * 16) with (4 * Z.of_nat (4 * r)) by lia. rewrite concat_drop by (done || lia).
  rewrite <- (take_drop 4 (drop (4 * r) w)), concat_app. replace 16 with (zlen (concat (round_key w r))); [apply ztake_app_len|].
  rewrite concat_length by done. unfold zlen. by rewrite Hl.
Qed.
Lemma round_ok w s r : words_of w -> (4 * r + 4 <= length w)%nat -> aes_state s ->
  aes_round (concat w) (concat s) (Z.of_nat r) = concat (fips_round w s r) /\ aes_state (fips_round w s r).
Proof.
  intros Hw Hr Hs. unfold aes_round, fips_round. destruct (round_key_ok w r Hw Hr) as [-> Hk].
  destruct (sub_bytes_ok s Hs) as [-> H1]. destruct (shift_rows_ok _ H1) as [-> H2]. destruct (mix_columns_ok _ H2) as [-> H3].
  by apply add_round_key_ok.
Qed.
Lemma rounds_ok w n first s : words_of w -> (4 * (first + n) <= length w)%nat -> aes_state s ->
  fold_left (aes_round (concat w)) (map Z.of_nat (seq first n)) (concat s) = concat (fold_left (fips_round w) (seq first n) s)
  /\ aes_state (fold_left (fips_round w) (seq first n) s).
Proof.
  intros Hw. revert first s. induction n as [|n IH]; intros first s Hl Hs; [done|]. cbn [seq map fold_left].
  destruct (round_ok w s first Hw ltac:(lia) Hs) as [-> Hs']. apply IH; [lia|done].
Qed.
(** A cipher of [nr] rounds, as the code writes it. *)
Lemma cipher_ok w nr block : words_of w -> (4 * nr + 4 <= length w)%nat -> (1 <= nr)%nat -> length block = 16%nat -> bytes block ->
  AesAddRoundKey (AesShiftRows (AesSubBytes (fold_left (aes_round (concat w)) (map Z.of_nat (seq 1 (nr - 1)))
    (AesAddRoundKey block (zsub (concat w) 0 16))))) (zsub (concat w) (Z.of_nat nr * 16) 16)
  = fips_cipher nr w block.
Proof.
  intros Hw Hl Hn Hb Hbb. destruct (sixteen block Hb Hbb) as [Eb Sb]. rewrite <- Eb at 1. unfold fips_cipher.
  destruct (round_key_ok w 0 Hw ltac:(lia)) as [E0 K0]. change (Z.of_nat 0 * 16) with 0 in E0. rewrite E0.
  destruct (add_round_key_ok _ _ Sb K0) as [-> H0]. destruct (rounds_ok w (nr - 1) 1 _ Hw ltac:(lia) H0) as [-> H1].
  destruct (sub_bytes_ok _ H1) as [-> H2]. destruct (shift_rows_ok _ H2) as [-> H3].
  destruct (round_key_ok w nr Hw Hl) as [-> Kn]. by apply add_round_key_ok.
Qed.

Lemma aes128_ok key block : length key = 16%nat -> bytes key -> length block = 16%nat -> bytes block ->
  Aes128EncryptBlock (expand128_loop 40 0 key) block = aes128 key block.
Proof.
  intros Hk Hkb Hb Hbb. destruct (sixteen key Hk Hkb) as [Ek [Lk Wk]]. unfold aes128. rewrite <- (f_equal (expand128_loop 40 0) Ek).
  destruct (expand128_ok 40 (columns key) Wk ltac:(rewrite Lk; lia) ltac:(rewrite Lk; lia)) as (E & W & L). rewrite Lk in E.
  change (Z.of_nat ((4 - 1) / 4)) with 0 in E. rewrite E. exact (cipher_ok _ 10 block W ltac:(rewrite L; lia) ltac:(lia) Hb Hbb).
Qed.
Lemma key256 key : length key = 32%nat -> bytes key ->
  concat (columns key ++ columns (drop 16 key)) = key /\ words_of (columns key ++ columns (drop 16 key)) /\ length (columns key ++ columns (drop 16 key)) = 8%nat.
Proof.
  intros Hk Hkb. destruct (sixteen (take 16 key)) as [E1 [L1 W1]]; [rewrite length_take; lia|by apply Forall_take|].
  destruct (sixteen (drop 16 key)) as [E2 [L2 W2]]; [rewrite length_drop; lia|by apply Forall_drop|].
  assert (Ec : columns (take 16 key) = columns key).
  { change (take 16 key) with (zsub key 0 16). unfold columns. by rewrite !zsub_zsub by lia. }
  rewrite Ec in *. split; [rewrite concat_app, E1, E2; apply take_drop|]. split; [by apply Forall_app|]. by rewrite length_app, L1, L2.
Qed.
Lemma aes256_ok key block : length key = 32%nat -> bytes key -> length block = 16%nat -> bytes block ->
  Aes256PacketEncrypt (Aes256PacketInitialize key) block = aes256 key block.
Proof.
  intros Hk Hkb Hb Hbb. destruct (key256 key Hk Hkb) as (Ek & W & L). unfold aes256, Aes256PacketInitialize. rewrite <- (f_equal (expand256_loop 52 0) Ek).
  destruct (expand256_ok 52 _ W ltac:(rewrite L; lia) ltac:(rewrite L; lia)) as (E & W' & L'). rewrite L in E.
  change (Z.of_nat ((8 - 1) / 8)) with 0 in E. rewrite E. exact (cipher_ok _ 14 block W' ltac:(rewrite L'; lia) ltac:(lia) Hb Hbb).
Qed.

(** The block that is encrypted has sixteen bytes again. *)
Lemma fips_cipher_length nr w block : words_of w -> (4 * nr + 4 <= length w)%nat -> (1 <= nr)%nat -> length block = 16%nat -> bytes block ->
  length (fips_cipher nr w block) = 16%nat /\ bytes (fips_cipher nr w block).
Proof.
  intros Hw Hl Hn Hb Hbb. destruct (sixteen block Hb Hbb) as [_ Sb]. unfold fips_cipher.
  destruct (round_key_ok w 0 Hw ltac:(lia)) as [_ K0]. destruct (add_round_key_ok _ _ Sb K0) as [_ H0].
  destruct (rounds_ok w (nr - 1) 1 _ Hw ltac:(lia) H0) as [_ H1]. destruct (sub_bytes_ok _ H1) as [_ H2]. destruct (shift_rows_ok _ H2) as [_ H3].
  destruct (round_key_ok w nr Hw Hl) as [_ Kn]. destruct (add_round_key_ok _ _ H3 Kn) as [_ H4].
  explicit_state H4. split; [done|]. cbn [concat app]. repeat (apply Forall_cons_2; [done|]). apply Forall_nil_2.
Qed.
Lemma aes128_block key block : length key = 16%nat -> bytes key -> length block = 16%nat -> bytes block ->
  length (aes128 key block) = 16%nat /\ bytes (aes128 key block).
Proof.
  intros Hk Hkb Hb Hbb. destruct (sixteen key Hk Hkb) as [_ [Lk Wk]].
  destruct (expand128_ok 40 (columns key) Wk ltac:(rewrite Lk; lia) ltac:(rewrite Lk; lia)) as (_ & W & L).
  exact (fips_cipher_length 10 _ block W ltac:(rewrite L; lia) ltac:(lia) Hb Hbb).
Qed.

Lemma aes256_block key block : length key = 32%nat -> bytes key -> length block = 16%nat -> bytes block ->
  length (aes256 key block) = 16%nat /\ bytes (aes256 key block).
Proof.
  intros Hk Hkb Hb Hbb. destruct (key256 key Hk Hkb) as (_ & W & L).
  destruct (expand256_ok 52 _ W ltac:(rewrite L; lia) ltac:(rewrite L; lia)) as (_ & W' & L').
  exact (fips_cipher_length 14 _ block W' ltac:(rewrite L'; lia) ltac:(lia) Hb Hbb).
Qed.

(** C26. The AES of the packet protection is that of FIPS 197, for keys of 128 and of 256
    bits: substitution by inversion in GF(2^8) and an affine map, rows, columns as a
    matrix over GF(2^8), and the key schedule in words. *)
Theorem aes_block_exact key block output : zlen key = 16 \/ zlen key = 32 -> bytes key -> zlen block = 16 -> bytes block -> zlen output = 16 ->
  PacketProtectionAesEncryptBlock true true (Bytes key) (Bytes block) (Bytes output)
  = (STATUS_SUCCESS, Bytes (if zlen key =? 32 then aes256 key block else aes128 key block)).
Proof.
  intros Hk Hkb Hb Hbb Ho. assert (Hb' : length block = 16%nat) by (unfold zlen in Hb; lia).
  unfold PacketProtectionAesEncryptBlock. cbn [sp_isnull sp_len sp_bytes orb negb].
  assert (W : forall x, length x = 16%nat -> write_front (Bytes output) x = Bytes x).
  { intros x Hx. cbn [write_front]. rewrite mem_copy_front. assert (Ez : zdrop (zlen x) output = []).
    { replace (zlen x) with (zlen output) by (unfold zlen in *; lia). apply zdrop_all. } by rewrite Ez, app_nil_r. }
  destruct Hk as [Hk|Hk]; rewrite Hk.
  - change (negb (16 =? 16) && negb (16 =? 32)) with false. change (16 =? 32) with false. cbv iota. cbn [orb].
    assert (Hk' : length key = 16%nat) by (unfold zlen in Hk; lia). unfold Aes128Initialize. cbn [sp_isnull sp_len sp_bytes orb]. rewrite Hk.
    change (negb (16 =? 16)) with false. cbv iota. rewrite aes128_ok by done. by rewrite W by (by apply aes128_block).
  - change (negb (32 =? 16) && negb (32 =? 32)) with false. change (32 =? 32) with true. cbv iota. cbn [orb].
    assert (Hk' : length key = 32%nat) by (unfold zlen in Hk; lia). rewrite aes256_ok by done. by rewrite W by (by apply aes256_block).
Qed.
Lemma aes_block_exact_witness :
  PacketProtectionAesEncryptBlock true true (Bytes (seqZ 0 32)) (Bytes fips_plaintext) (Bytes (replicate 16 0))
  = (STATUS_SUCCESS, Bytes (if zlen (seqZ 0 32) =? 32 then aes256 (seqZ 0 32) fips_plaintext else aes128 (seqZ 0 32) fips_plaintext)).
Proof.
  apply (aes_block_exact (seqZ 0 32) fips_plaintext (replicate 16 0)); first [by right | by apply bytes_decide | reflexivity].
Defined.
