(* ===== verification/Aead.v ===== *)
(** * Authenticated encryption

    crypto/Aead.cpp: AES-CCM ([CcmComputeMac], [CcmCrypt], [AesCcmEncrypt],
    [AesCcmDecrypt]) and the entry points [Aead::Encrypt] and [Aead::Decrypt],
    which choose between AES-GCM (the kernel's, a parameter), ChaChaPoly and CCM.
    CCM is compared with RFC 3610 over the block cipher of FIPS 197. *)

From S2P Require Import Prelude LittleEndian Poly1305 ChaChaPoly Aes.

(** ** CCM *)

Definition WriteBigEndianLength (value length : Z) : list Z :=
  map (fun index => u8 (Z.land (Z.shiftr value ((length - 1 - index) * 8)) 0xff)) (seqZ 0 length).

Definition CcmPayloadLengthFits (payloadLength lengthFieldLength : Z) : bool :=
  if 8 <=? lengthFieldLength then true
  else let maxLength := u64 (Z.shiftl 1 (lengthFieldLength * 8)) -! 1 in payloadLength <=? maxLength.

Definition lengthFieldLength (nonce : list Z) : Z := 16 -! 1 -! zlen nonce.

Definition BuildCcmCounterBlock (nonce : list Z) (counterValue : Z) : list Z :=
  let l := lengthFieldLength nonce in
  let counterBlock := replicate 16 0 in
  let counterBlock := mem_copy counterBlock 0 [u8 (l -! 1)] in
  let counterBlock := mem_copy counterBlock 1 nonce in
  mem_copy counterBlock (1 + zlen nonce) (WriteBigEndianLength counterValue l).

Definition CcmMacBlock (context block mac : list Z) : list Z :=
  Aes128EncryptBlock context (zip_with (fun a b => u8 (Z.lxor a b)) mac block).

(** The loop over the associated data, with the block being filled. *)
Fixpoint ccm_aad_loop (fuel : nat) (context aad block : list Z) (blockOffset : Z) (mac : list Z) : list Z * Z * list Z :=
  match fuel with
  | O => (block, blockOffset, mac)
  | S fuel =>
      match aad with
      | [] => (block, blockOffset, mac)
      | _ =>
          let chunk := if zlen aad <? 16 - blockOffset then zlen aad else 16 - blockOffset in
          let block := mem_copy block blockOffset (ztake chunk aad) in
          let blockOffset := blockOffset + chunk in
          if blockOffset =? 16
          then ccm_aad_loop fuel context (zdrop chunk aad) (replicate 16 0) 0 (CcmMacBlock context block mac)
          else ccm_aad_loop fuel context (zdrop chunk aad) block blockOffset mac
      end
  end.
(** The loop over the message. *)
Fixpoint ccm_text_loop (fuel : nat) (context text mac : list Z) : list Z :=
  match fuel with
  | O => mac
  | S fuel =>
      match text with
      | [] => mac
      | _ => ccm_text_loop fuel context (drop 16 text) (CcmMacBlock context (mem_copy (replicate 16 0) 0 (take 16 text)) mac)
      end
  end.

Definition ccm_flags (aad : list Z) (tagLength l : Z) : Z :=
  u8 (Z.lor (Z.lor (if negb (zlen aad =? 0) then 0x40 else 0) (u64 (Z.shiftl ((tagLength -! 2) / 2) 3))) (l -! 1)).

Definition CcmComputeMac (context nonce aad plaintext : list Z) (tagLength : Z) (mac : list Z) : Result (list Z) :=
  let l := lengthFieldLength nonce in
  if negb (CcmPayloadLengthFits (zlen plaintext) l) || (0xff00 <=? zlen aad) then Err STATUS_INVALID_PARAMETER else
  let block := replicate 16 0 in
  let block := mem_copy block 0 [ccm_flags aad tagLength l] in
  let block := mem_copy block 1 nonce in
  let block := mem_copy block (1 + zlen nonce) (WriteBigEndianLength (zlen plaintext) l) in
  let mac := CcmMacBlock context block mac in
  let mac :=
    if negb (zlen aad =? 0) then
      let block := replicate 16 0 in
      let block := mem_copy block 0 [u8 (Z.land (Z.shiftr (zlen aad) 8) 0xff); u8 (Z.land (zlen aad) 0xff)] in
      let '(block, blockOffset, mac) := ccm_aad_loop (length aad) context aad block 2 mac in
      if negb (blockOffset =? 0) then CcmMacBlock context block mac else mac
    else mac in
  Ok (ccm_text_loop (length plaintext) context plaintext mac).

(** The loop of [CcmCrypt]: the status and the bytes it writes. *)
Fixpoint ctr_loop (fuel : nat) (context nonce : list Z) (counterValue : Z) (input : list Z) : NTSTATUS * list Z :=
  match fuel with
  | O => (STATUS_SUCCESS, [])
  | S fuel =>
      match input with
      | [] => (STATUS_SUCCESS, [])
      | _ =>
          let stream := Aes128EncryptBlock context (BuildCcmCounterBlock nonce counterValue) in
          let out := zip_with (fun a b => u8 (Z.lxor a b)) (take 16 input) stream in
          if counterValue =? MAXU64 then (STATUS_INTEGER_OVERFLOW, out)
          else let '(status, rest) := ctr_loop fuel context nonce (counterValue +! 1) (drop 16 input) in (status, out ++ rest)
      end
  end.
Definition CcmCrypt (context nonce : list Z) (input output : span) : NTSTATUS * span :=
  if negb (IsValidBuffer input) || negb (IsValidBuffer output) || (sp_len output <? sp_len input) then (STATUS_INVALID_PARAMETER, output) else
  let '(status, out) := ctr_loop (length (sp_bytes input)) context nonce 1 (sp_bytes input) in (status, write_front output out).

Definition ValidateAesCcm (key : AeadKey) (parameters : AeadParameters) (tagLength : Z) : NTSTATUS :=
  if sp_isnull (ak_Key key) || negb (sp_len (ak_Key key) =? 16) || sp_isnull (ap_Nonce parameters)
     || (sp_len (ap_Nonce parameters) <? 7) || (13 <? sp_len (ap_Nonce parameters)) || negb (IsValidBuffer (ap_Aad parameters))
     || (negb (tagLength =? 8) && negb (tagLength =? 16))
  then STATUS_INVALID_PARAMETER else STATUS_SUCCESS.

(** The tag: the authenticator combined with the block of counter 0. *)
Definition ccm_tag_bytes (context nonce mac : list Z) (tagLength : Z) : list Z :=
  let stream := Aes128EncryptBlock context (BuildCcmCounterBlock nonce 0) in
  ztake tagLength (zip_with (fun a b => u8 (Z.lxor a b)) mac stream).

(** [context], [scratch]: whether the two allocations succeed. *)
Definition AesCcmEncrypt (context scratch : bool) (key : AeadKey) (parameters : AeadParameters) (plaintext ciphertext tag : span) : AeadResult :=
  let failed s := MkAeadResult s ciphertext tag 0 in
  let status := ValidateAesCcm key parameters (sp_len tag) in
  if negb (NT_SUCCESS status) then failed status else
  if negb (IsValidBuffer plaintext) || negb (IsValidBuffer ciphertext) || (sp_len ciphertext <? sp_len plaintext) || sp_isnull tag
  then failed STATUS_INVALID_PARAMETER else
  if negb context then failed STATUS_INSUFFICIENT_RESOURCES else
  if negb scratch then failed STATUS_INSUFFICIENT_RESOURCES else
  match Aes128Initialize (ak_Key key) with
  | Err s => failed s
  | Ok roundKeys =>
      let nonce := sp_bytes (ap_Nonce parameters) in
      match CcmComputeMac roundKeys nonce (sp_bytes (ap_Aad parameters)) (sp_bytes plaintext) (sp_len tag) (replicate 16 0) with
      | Err s => failed s
      | Ok mac =>
          let '(status, ciphertext) := CcmCrypt roundKeys nonce plaintext ciphertext in
          if negb (NT_SUCCESS status) then MkAeadResult status ciphertext tag 0
          else MkAeadResult STATUS_SUCCESS ciphertext (write_front tag (ccm_tag_bytes roundKeys nonce mac (sp_len tag))) (sp_len plaintext)
      end
  end.

(** [RtlSecureZeroMemory(plaintext, plaintextLength)] *)
Definition zero_span (s : span) : span := match s with Null n => Null n | Bytes l => Bytes (replicate (length l) 0) end.

Definition AesCcmDecrypt (context scratch : bool) (key : AeadKey) (parameters : AeadParameters) (ciphertext plaintext : span) : AeadResult :=
  let tag := ap_Tag parameters in
  let failed s := MkAeadResult s plaintext tag 0 in
  if sp_isnull tag then failed STATUS_INVALID_PARAMETER else
  let status := ValidateAesCcm key parameters (sp_len tag) in
  if negb (NT_SUCCESS status) then failed status else
  if negb (IsValidBuffer ciphertext) || negb (IsValidBuffer plaintext) || (sp_len plaintext <? sp_len ciphertext)
  then failed STATUS_INVALID_PARAMETER else
  if negb context then failed STATUS_INSUFFICIENT_RESOURCES else
  if negb scratch then failed STATUS_INSUFFICIENT_RESOURCES else
  match Aes128Initialize (ak_Key key) with
  | Err s => failed s
  | Ok roundKeys =>
      let nonce := sp_bytes (ap_Nonce parameters) in
      let '(status, plaintext) := CcmCrypt roundKeys nonce ciphertext plaintext in
      if negb (NT_SUCCESS status) then MkAeadResult status plaintext tag 0 else
      match CcmComputeMac roundKeys nonce (sp_bytes (ap_Aad parameters)) (ztake (sp_len ciphertext) (sp_bytes plaintext)) (sp_len tag) (replicate 16 0) with
      | Err s => MkAeadResult s plaintext tag 0
      | Ok mac =>
          if negb (MemoryEquals (ccm_tag_bytes roundKeys nonce mac (sp_len tag)) (sp_bytes tag) (sp_len tag))
          then MkAeadResult STATUS_INVALID_SIGNATURE (zero_span plaintext) tag 0
          else MkAeadResult STATUS_SUCCESS plaintext tag (sp_len ciphertext)
      end
  end.

(** ** The entry points

    [gcm_encrypt] and [gcm_decrypt] are the kernel's AES-GCM, reached through
    [CngProvider]; [scratch] and [other] say which allocations succeed. *)
Definition TagLength (algorithm : AeadAlgorithm) : Z :=
  match algorithm with Aes128Gcm | Aes256Gcm | ChaCha20Poly1305 | Aes128Ccm => 16 | Aes128Ccm8 => 8 end.

Section EntryPoints.
Context (gcm_encrypt : AeadKey -> AeadParameters -> span -> span -> span -> AeadResult).
Context (gcm_decrypt : AeadKey -> AeadParameters -> span -> span -> AeadResult).
Context (scratch other : bool).

Definition Aead_Encrypt (key : AeadKey) (parameters : AeadParameters) (plaintext ciphertext tag : span) : AeadResult :=
    let invalid := MkAeadResult STATUS_INVALID_PARAMETER ciphertext tag 0 in
    match ak_Algorithm key with
    | Aes128Gcm => if negb (sp_len (ak_Key key) =? 16) then invalid else gcm_encrypt key parameters plaintext ciphertext tag
    | Aes256Gcm => if negb (sp_len (ak_Key key) =? 32) then invalid else gcm_encrypt key parameters plaintext ciphertext tag
    | ChaCha20Poly1305 => ChaCha20Poly1305Encrypt scratch other key parameters plaintext ciphertext tag
    | Aes128Ccm => if negb (sp_len tag =? 16) then invalid else AesCcmEncrypt other scratch key parameters plaintext ciphertext tag
    | Aes128Ccm8 => if negb (sp_len tag =? 8) then invalid else AesCcmEncrypt other scratch key parameters plaintext ciphertext tag
    end.
Definition Aead_Decrypt (key : AeadKey) (parameters : AeadParameters) (ciphertext plaintext : span) : AeadResult :=
    let tag := ap_Tag parameters in
    let invalid := MkAeadResult STATUS_INVALID_PARAMETER plaintext tag 0 in
    match ak_Algorithm key with
    | Aes128Gcm => if negb (sp_len (ak_Key key) =? 16) then invalid else gcm_decrypt key parameters ciphertext plaintext
    | Aes256Gcm => if negb (sp_len (ak_Key key) =? 32) then invalid else gcm_decrypt key parameters ciphertext plaintext
    | ChaCha20Poly1305 => ChaCha20Poly1305Decrypt scratch other key parameters ciphertext plaintext
    | Aes128Ccm => if negb (sp_len tag =? 16) then invalid else AesCcmDecrypt other scratch key parameters ciphertext plaintext
    | Aes128Ccm8 => if negb (sp_len tag =? 8) then invalid else AesCcmDecrypt other scratch key parameters ciphertext plaintext
    end.
End EntryPoints.

(** ** Specification (RFC 3610) *)

Definition be_bytes (n v : Z) : list Z := rev (le_bytes (Z.to_nat n) v).
Definition padded16 (l : list Z) : list Z := l ++ pad16 l.
(** CBC-MAC over blocks of sixteen bytes. *)
Fixpoint cbc (fuel : nat) (e : list Z -> list Z) (x data : list Z) : list Z :=
  match fuel with
  | O => x
  | S fuel => match data with [] => x | _ => cbc fuel e (e (zip_with Z.lxor x (take 16 data))) (drop 16 data) end
  end.
Definition cbc_mac (e : list Z -> list Z) (x data : list Z) : list Z := cbc (length data) e x data.

Section Ccm.
Context (e : list Z -> list Z) (nonce aad : list Z) (m : Z).
Definition ccm_l : Z := 15 - zlen nonce.
Definition ccm_b0 (text : list Z) : list Z :=
    [64 * (if decide (aad = []) then 0 else 1) + 8 * ((m - 2) / 2) + (ccm_l - 1)] ++ nonce ++ be_bytes ccm_l (zlen text).
Definition ccm_blocks (text : list Z) : list Z :=
    ccm_b0 text ++ (if decide (aad = []) then [] else padded16 (be_bytes 2 (zlen aad) ++ aad)) ++ padded16 text.
Definition ccm_a (i : Z) : list Z := [ccm_l - 1] ++ nonce ++ be_bytes ccm_l i.
Definition ccm_ctr (input : list Z) : list Z := xor_stream 16 (length input) (fun i => e (ccm_a (1 + Z.of_nat i))) input.
Definition ccm_tag (text : list Z) : list Z :=
    ztake m (zip_with Z.lxor (cbc_mac e (replicate 16 0) (ccm_blocks text)) (e (ccm_a 0))).
End Ccm.

(** Packet vector 1 of RFC 3610. *)
Definition vector_gcm_encrypt (key : AeadKey) (parameters : AeadParameters) (p c t : span) : AeadResult := MkAeadResult STATUS_NOT_SUPPORTED c t 0.
Definition vector_gcm_decrypt (key : AeadKey) (parameters : AeadParameters) (c p : span) : AeadResult := MkAeadResult STATUS_NOT_SUPPORTED p (ap_Tag parameters) 0.
Example ccm_vector :
  Aead_Encrypt vector_gcm_encrypt true true (MkAeadKey Aes128Ccm8 (Bytes (seqZ 0xc0 16)))
    (MkAeadParameters (Bytes [0; 0; 0; 3; 2; 1; 0; 0xa0; 0xa1; 0xa2; 0xa3; 0xa4; 0xa5]) (Bytes (seqZ 0 8)) (Null 0))
    (Bytes (seqZ 8 23)) (Bytes (replicate 23 0)) (Bytes (replicate 8 0))
  = MkAeadResult STATUS_SUCCESS
      (Bytes [0x58;0x8c;0x97;0x9a;0x61;0xc6;0x63;0xd2;0xf0;0x66;0xd0;0xc2;0xc0;0xf9;0x89;0x80;0x6d;0x5f;0x6b;0x61;0xda;0xc3;0x84])
      (Bytes [0x17;0xe8;0xd1;0x2c;0xfd;0xf9;0x26;0xe0]) 23.
Proof. by vm_compute. Qed.

(** ** Blocks *)

Definition blk (x : list Z) : Prop := length x = 16%nat /\ bytes x.

Lemma le_bytes_S n v : rev (le_bytes (S n) v) = rev (le_bytes n (v / 256)) ++ [v mod 256].
Proof. done. Qed.
Lemma write_big_endian v n : 0 <= n -> WriteBigEndianLength v n = be_bytes n v.
Proof.
  intros Hn. unfold be_bytes. rewrite <- (Z2Nat.id n) at 1 by done. clear Hn. generalize (Z.to_nat n) as k. clear n. intros k. revert v.
  unfold WriteBigEndianLength. induction k as [|k IH]; intros v; [done|]. rewrite le_bytes_S, <- IH.
  replace (Z.of_nat (S k)) with (Z.of_nat k + 1) by lia. rewrite seqZ_app by lia. rewrite map_app. f_equal.
  - apply map_ext_in. intros i Hi. apply list_elem_of_In, elem_of_seqZ in Hi. f_equal. f_equal.
    rewrite <- shiftr_8, Z.shiftr_shiftr by lia. f_equal. lia.
  - rewrite Z.add_0_l. change (seqZ (Z.of_nat k) 1) with [Z.of_nat 0 + Z.of_nat k]. cbn [map]. rewrite u8_land.
    replace ((Z.of_nat k + 1 - 1 - (Z.of_nat 0 + Z.of_nat k)) * 8) with 0 by lia. by rewrite Z.shiftr_0_r.
Qed.
Lemma be_bytes_length n v : 0 <= n -> zlen (be_bytes n v) = n.
Proof. intros. unfold be_bytes, zlen. rewrite length_rev, le_bytes_length. lia. Qed.
Lemma be_bytes_bytes n v : bytes (be_bytes n v).
Proof. unfold be_bytes. apply Forall_rev, le_bytes_bytes. Qed.

(** A block written as a byte, the nonce and a length. *)
Lemma build_block x nonce v : 7 <= zlen nonce <= 13 ->
  mem_copy (mem_copy (mem_copy (replicate 16 0) 0 [x]) 1 nonce) (1 + zlen nonce) (WriteBigEndianLength v (lengthFieldLength nonce))
  = [x] ++ nonce ++ be_bytes (ccm_l nonce) v.
Proof.
  intros Hn. unfold lengthFieldLength, ccm_l. rewrite (u64_id (16 - 1)), u64_id by lia. change (16 - 1) with 15. rewrite write_big_endian by lia.
  change (mem_copy (replicate 16 0) 0 [x]) with ([x] ++ replicate 15 0).
  assert (E1 : mem_copy ([x] ++ replicate 15 0) 1 nonce = ([x] ++ nonce) ++ replicate (15 - length nonce) 0)
    by (apply (mem_copy_zeros_app [x]); unfold zlen in Hn; lia).
  rewrite E1.
  replace (1 + zlen nonce) with (zlen ([x] ++ nonce)) by (rewrite zlen_app; done).
  pose proof (be_bytes_length (15 - zlen nonce) v ltac:(lia)) as Hb.
  rewrite mem_copy_zeros_app by (unfold zlen in *; lia).
  replace (15 - length nonce - length (be_bytes (15 - zlen nonce) v))%nat with 0%nat by (unfold zlen in *; lia).
  cbn [replicate]. by rewrite app_nil_r, <- app_assoc.
Qed.
Lemma counter_block nonce i : 7 <= zlen nonce <= 13 -> BuildCcmCounterBlock nonce i = ccm_a nonce i.
Proof.
  intros Hn. unfold BuildCcmCounterBlock, ccm_a. rewrite build_block by done. do 2 f_equal. unfold lengthFieldLength, ccm_l.
  u64_simpl. unfold u8. rewrite Z.mod_small by lia. lia.
Qed.
Lemma ccm_block_ok nonce x v : 7 <= zlen nonce <= 13 -> bytes nonce -> is_byte x -> blk ([x] ++ nonce ++ be_bytes (ccm_l nonce) v).
Proof.
  intros Hn Hb Hx. split.
  - pose proof (be_bytes_length (ccm_l nonce) v ltac:(unfold ccm_l; lia)) as H. unfold ccm_l, zlen in *. rewrite !length_app. cbn [length]. lia.
  - apply Forall_app. split; [by apply Forall_singleton|]. apply Forall_app. split; [done|apply be_bytes_bytes].
Qed.
Lemma ccm_a_ok nonce i : 7 <= zlen nonce <= 13 -> bytes nonce -> blk (ccm_a nonce i).
Proof. intros Hn Hb. apply ccm_block_ok; [done|done|]. unfold is_byte, ccm_l. lia. Qed.

(** ** Chaining *)

Lemma cbc_fuel fuel e x data : (length data <= fuel)%nat -> cbc fuel e x data = cbc_mac e x data.
Proof.
  unfold cbc_mac. revert x data. induction fuel as [fuel IH] using lt_wf_ind. intros x data Hf.
  destruct data as [|b data]; [by destruct fuel|]. destruct fuel as [|fuel]; [cbn in Hf; lia|]. cbn [length cbc].
  rewrite (IH fuel), (IH (length data)) by (rewrite ?length_drop; cbn [length] in *; lia). done.
Qed.
Lemma cbc_mac_nil e x : cbc_mac e x [] = x.
Proof. done. Qed.
Lemma cbc_mac_block e x b data : length b = 16%nat -> cbc_mac e x (b ++ data) = cbc_mac e (e (zip_with Z.lxor x b)) data.
Proof.
  intros Hb. destruct b as [|c b]; [done|]. unfold cbc_mac at 1. cbn [app length cbc].
  change (c :: b ++ data) with ((c :: b) ++ data). rewrite <- Hb, take_app_length, drop_app_length. apply cbc_fuel. rewrite length_app. lia.
Qed.
Lemma cbc_mac_app e x k a data : length a = (16 * k)%nat -> cbc_mac e x (a ++ data) = cbc_mac e (cbc_mac e x a) data.
Proof.
  revert x a. induction k as [|k IH]; intros x a Ha; [destruct a; [done|cbn in Ha; lia]|].
  assert (H16 : length (take 16 a) = 16%nat) by (rewrite length_take; lia).
  rewrite <- (take_drop 16 a), <- app_assoc, (cbc_mac_block e x _ (drop 16 a ++ data)), (cbc_mac_block e x _ (drop 16 a)) by done. apply IH. rewrite length_drop. lia.
Qed.

Lemma padded16_block b r : length b = 16%nat -> padded16 (b ++ r) = b ++ padded16 r.
Proof.
  intros Hb. unfold padded16, pad16. rewrite <- app_assoc. do 3 f_equal. rewrite zlen_app. unfold zlen at 1. rewrite Hb.
  f_equal. f_equal. f_equal. change (Z.of_nat 16) with (1 * 16). rewrite Z.add_comm, Z.mod_add by done. done.
Qed.
Lemma padded16_short l : l <> [] -> (length l <= 16)%nat -> padded16 l = l ++ replicate (16 - length l) 0.
Proof.
  intros Hl Hn. unfold padded16, pad16. do 2 f_equal. assert (0 < zlen l <= 16) by (destruct l; [done|]; unfold zlen in *; cbn [length] in *; lia).
  destruct (Z.eq_dec (zlen l) 16) as [E|E]; [rewrite E; change (Z.to_nat ((16 - 16 mod 16) mod 16)) with 0%nat; unfold zlen in E; lia|].
  rewrite (Z.mod_small (zlen l)), Z.mod_small by lia. unfold zlen. lia.
Qed.
Lemma padded16_length l : exists k, length (padded16 l) = (16 * k)%nat.
Proof.
  unfold padded16. rewrite length_app. unfold pad16. rewrite length_replicate. unfold zlen.
  pose proof (Z.div_mod (Z.of_nat (length l)) 16 ltac:(done)) as D. pose proof (Z.mod_pos_bound (Z.of_nat (length l)) 16 ltac:(done)) as M.
  destruct (Z.eq_dec (Z.of_nat (length l) mod 16) 0) as [E|E].
  - exists (Z.to_nat (Z.of_nat (length l) / 16)). rewrite E in *. change (Z.to_nat ((16 - 0) mod 16)) with 0%nat. lia.
  - exists (Z.to_nat (Z.of_nat (length l) / 16 + 1)). rewrite (Z.mod_small (16 - _)) by lia. lia.
Qed.
Lemma padded16_bytes l : bytes l -> bytes (padded16 l).
Proof. intros. unfold padded16, pad16. apply Forall_app. split; [done|]. by apply Forall_replicate. Qed.

(** ** The code's CCM is RFC 3610's, over a block cipher [e] *)

Section Cipher.
Context (context : list Z) (e : list Z -> list Z).
Context (He : forall x, blk x -> Aes128EncryptBlock context x = e x /\ blk (e x)).

Lemma lxor_block x b : blk x -> blk b -> zip_with (fun a b => u8 (Z.lxor a b)) x b = zip_with Z.lxor x b /\ blk (zip_with Z.lxor x b).
  Proof using.
    intros [Lx Bx] [Lb Bb]. assert (E : zip_with (fun a b => u8 (Z.lxor a b)) x b = zip_with Z.lxor x b).
    { clear Lx Lb. revert b Bb. induction Bx as [|a x Ha _ IH]; intros b Bb; [done|]. destruct Bb as [|c b Hc Bb]; [done|]. cbn [zip_with].
      rewrite u8_of_lxor by done. f_equal. by apply IH. }
    split; [done|]. rewrite <- E. split; [rewrite length_zip_with; lia|apply lxor_bytes_bytes].
  Qed.
Lemma mac_block x b : blk x -> blk b -> CcmMacBlock context b x = e (zip_with Z.lxor x b) /\ blk (e (zip_with Z.lxor x b)).
  Proof using He. intros Hx Hb. unfold CcmMacBlock. destruct (lxor_block x b Hx Hb) as [-> H]. by apply He. Qed.

Lemma blk_padded l : (length l <= 16)%nat -> bytes l -> blk (l ++ replicate (16 - length l) 0).
  Proof using. intros Hl Hb. split; [rewrite length_app, length_replicate; lia|]. apply Forall_app. split; [done|]. by apply Forall_replicate. Qed.

  (** A padded message from its first block. *)
Lemma padded16_step l : l <> [] ->
    padded16 l = (take 16 l ++ replicate (16 - length (take 16 l)) 0) ++ padded16 (drop 16 l).
  Proof using.
    intros Hl. destruct (Nat.le_gt_cases (length l) 16) as [Hn|Hn].
    - rewrite take_ge, drop_ge, padded16_short by done. change (padded16 []) with (@nil Z). by rewrite app_nil_r.
    - rewrite <- (take_drop 16 l) at 1. rewrite padded16_block by (rewrite length_take; lia).
      replace (16 - length (take 16 l))%nat with 0%nat by (rewrite length_take; lia). by rewrite app_nil_r.
  Qed.

Lemma text_loop fuel text x : blk x -> bytes text -> (length text <= fuel)%nat ->
    ccm_text_loop fuel context text x = cbc_mac e x (padded16 text) /\ blk (cbc_mac e x (padded16 text)).
  Proof using He.
    revert text x. induction fuel as [|fuel IH]; intros text x Hx Ht Hf; [by destruct text; [|cbn in Hf; lia]|].
    destruct text as [|b text]; [done|]. cbn [ccm_text_loop]. set (l := b :: text) in *.
    assert (Hb : blk (take 16 l ++ replicate (16 - length (take 16 l)) 0)) by (apply blk_padded; [rewrite length_take; lia|by apply Forall_take]).
    rewrite padded16_step, cbc_mac_block by (done || apply Hb).
    replace (mem_copy (replicate 16 0) 0 (take 16 l)) with (take 16 l ++ replicate (16 - length (take 16 l)) 0).
    - destruct (mac_block x _ Hx Hb) as [-> Hm]. apply IH; [done|by apply Forall_drop|]. rewrite length_drop. unfold l in *. cbn [length] in *. lia.
    - symmetry. apply (mem_copy_zeros_app [] 16). rewrite length_take. lia.
  Qed.

  (** The last block of the associated data, if one is begun. *)
Lemma aad_end pre x : blk x -> bytes pre -> (length pre < 16)%nat ->
    (if negb (zlen pre =? 0) then CcmMacBlock context (pre ++ replicate (16 - length pre) 0) x else x) = cbc_mac e x (padded16 pre)
    /\ blk (cbc_mac e x (padded16 pre)).
  Proof using He.
    intros Hx Hp Hl. destruct pre as [|b pre]; [done|]. set (l := b :: pre) in *.
    replace (zlen l =? 0) with false by (symmetry; apply Z.eqb_neq; unfold zlen, l; cbn [length]; lia). cbn [negb].
    rewrite padded16_short by (done || lia). rewrite <- (app_nil_r (l ++ replicate _ _)) at 2 3.
    assert (Hb : blk (l ++ replicate (16 - length l) 0)) by (apply blk_padded; [lia|done]). rewrite cbc_mac_block by apply Hb.
    rewrite cbc_mac_nil. by apply mac_block.
  Qed.
Lemma aad_loop fuel aad pre x : blk x -> bytes pre -> bytes aad -> (length pre < 16)%nat -> (length aad <= fuel)%nat ->
    (let '(block, blockOffset, mac) := ccm_aad_loop fuel context aad (pre ++ replicate (16 - length pre) 0) (zlen pre) x in
     if negb (blockOffset =? 0) then CcmMacBlock context block mac else mac)
    = cbc_mac e x (padded16 (pre ++ aad)) /\ blk (cbc_mac e x (padded16 (pre ++ aad))).
  Proof using He.
    revert aad pre x. induction fuel as [|fuel IH]; intros aad pre x Hx Hp Ha Hl Hf.
    { destruct aad; [|cbn in Hf; lia]. cbn [ccm_aad_loop]. rewrite app_nil_r. by apply aad_end. }
    destruct aad as [|b aad]; [cbn [ccm_aad_loop]; rewrite app_nil_r; by apply aad_end|]. cbn [ccm_aad_loop]. set (l := b :: aad) in *.
    set (chunk := if zlen l <? 16 - zlen pre then zlen l else 16 - zlen pre).
    assert (Hc : 0 < chunk <= zlen l /\ chunk <= 16 - zlen pre /\ (chunk < 16 - zlen pre -> chunk = zlen l)).
    { unfold chunk, l. rewrite zlen_cons. pose proof (zlen_nonneg aad). unfold zlen in *. destruct (Z.ltb_spec (1 + Z.of_nat (length aad)) (16 - Z.of_nat (length pre))); lia. }
    destruct Hc as (Hc1 & Hc2 & Hc3). assert (Ht : zlen (ztake chunk l) = chunk) by (apply zlen_ztake; lia).
    rewrite mem_copy_zeros_app by (unfold zlen in *; lia).
    replace (16 - length pre - length (ztake chunk l))%nat with (16 - length (pre ++ ztake chunk l))%nat by (rewrite length_app; lia).
    replace (zlen pre + chunk) with (zlen (pre ++ ztake chunk l)) by (rewrite zlen_app; lia).
    assert (Hp' : bytes (pre ++ ztake chunk l)) by (apply Forall_app; split; [done|by apply bytes_ztake]).
    assert (Hd : bytes (zdrop chunk l)) by (by apply bytes_zdrop).
    assert (Hfd : (length (zdrop chunk l) <= fuel)%nat) by (unfold zdrop; rewrite length_drop; unfold l in *; cbn [length] in *; lia).
    replace (pre ++ l) with ((pre ++ ztake chunk l) ++ zdrop chunk l) by (by rewrite <- app_assoc, ztake_zdrop). set (pre' := pre ++ ztake chunk l) in *.
    assert (Hz : zlen pre' = zlen pre + chunk) by (unfold pre'; rewrite zlen_app; lia).
    destruct (Z.eqb_spec (zlen pre') 16) as [E|E].
    - assert (Hb : blk pre') by (split; [unfold zlen in E; lia|done]).
      replace (16 - length pre')%nat with 0%nat by (unfold zlen in E; lia). cbn [replicate]. rewrite app_nil_r.
      rewrite padded16_block, cbc_mac_block by apply Hb. destruct (mac_block x pre' Hx Hb) as [-> Hm].
      exact (IH (zdrop chunk l) [] _ Hm (Forall_nil_2 _) Hd ltac:(cbn; lia) Hfd).
    - apply IH; [done|done|done|unfold zlen in *; lia|done].
  Qed.

Section Nonce.
Context (nonce aad : list Z) (m : Z) (Hn : 7 <= zlen nonce <= 13) (Hnb : bytes nonce) (Ha : bytes aad) (Hm : m = 8 \/ m = 16).

Lemma ccm_flags_ok : ccm_flags aad m (lengthFieldLength nonce) = 64 * (if decide (aad = []) then 0 else 1) + 8 * ((m - 2) / 2) + (ccm_l nonce - 1)
    /\ is_byte (ccm_flags aad m (lengthFieldLength nonce)).
  Proof using Hn Ha Hm.
    split; [|apply u8_range]. unfold ccm_flags, lengthFieldLength, ccm_l. rewrite (u64_id (16 - 1)), (u64_id (16 - 1 - _)) by lia.
    assert (Ez : (zlen aad =? 0) = bool_decide (aad = [])).
    { destruct aad; [done|]. rewrite zlen_cons. pose proof (zlen_nonneg l). rewrite bool_decide_false by done. apply Z.eqb_neq. lia. }
    rewrite Ez. assert (Hc : zlen nonce = 7 \/ zlen nonce = 8 \/ zlen nonce = 9 \/ zlen nonce = 10 \/ zlen nonce = 11 \/ zlen nonce = 12 \/ zlen nonce = 13) by lia.
    destruct (decide (aad = [])); [rewrite bool_decide_true by done|rewrite bool_decide_false by done];
      destruct Hm as [-> | ->]; destruct Hc as [-> |[-> |[-> |[-> |[-> |[-> | ->]]]]]]; reflexivity.
  Qed.

Lemma compute_mac text : bytes text -> CcmPayloadLengthFits (zlen text) (ccm_l nonce) = true -> zlen aad < 0xff00 ->
    CcmComputeMac context nonce aad text m (replicate 16 0) = Ok (cbc_mac e (replicate 16 0) (ccm_blocks nonce aad m text))
    /\ blk (cbc_mac e (replicate 16 0) (ccm_blocks nonce aad m text)).
  Proof using He Hn Hnb Ha Hm.
    intros Ht Hf Hl. unfold CcmComputeMac. assert (El : lengthFieldLength nonce = ccm_l nonce) by (unfold lengthFieldLength, ccm_l; u64_simpl; lia).
    rewrite <- El in Hf. cbv zeta. rewrite Hf, (proj2 (Z.leb_gt _ _) Hl). cbn [negb orb]. rewrite !build_block by done.
    destruct ccm_flags_ok as [Ef Hfb]. rewrite Ef in *. unfold ccm_blocks. set (b0 := ccm_b0 nonce aad m text).
    change ([_] ++ nonce ++ be_bytes (ccm_l nonce) (zlen text)) with b0.
    assert (Hb0 : blk b0) by (by apply ccm_block_ok). assert (Hz : blk (replicate 16 0)) by (split; [done|by apply Forall_replicate]).
    destruct (mac_block (replicate 16 0) b0 Hz Hb0) as [-> H1]. rewrite cbc_mac_block by apply Hb0. set (x1 := e _) in *.
    assert (Haad : (if negb (zlen aad =? 0) then
        let '(block, blockOffset, mac) := ccm_aad_loop (length aad) context aad
          (mem_copy (replicate 16 0) 0 [u8 (Z.land (Z.shiftr (zlen aad) 8) 0xff); u8 (Z.land (zlen aad) 0xff)]) 2 x1 in
        if negb (blockOffset =? 0) then CcmMacBlock context block mac else mac else x1)
      = cbc_mac e x1 (if decide (aad = []) then [] else padded16 (be_bytes 2 (zlen aad) ++ aad))
      /\ blk (cbc_mac e x1 (if decide (aad = []) then [] else padded16 (be_bytes 2 (zlen aad) ++ aad)))).
    { destruct (decide (aad = [])) as [->|Hne]; [done|]. assert (H0 : 0 < zlen aad) by (destruct aad; [done|]; rewrite zlen_cons; pose proof (zlen_nonneg l); lia).
      rewrite (proj2 (Z.eqb_neq (zlen aad) 0)) by lia. cbn [negb].
      change (mem_copy (replicate 16 0) 0 [?a; ?b]) with ([a; b] ++ replicate 14 0).
      assert (E2 : [u8 (Z.land (Z.shiftr (zlen aad) 8) 255); u8 (Z.land (zlen aad) 255)] = be_bytes 2 (zlen aad)) by (rewrite !u8_land, shiftr_8; done).
      assert (L2 : length (be_bytes 2 (zlen aad)) = 2%nat) by (unfold be_bytes; rewrite length_rev; apply le_bytes_length).
      rewrite E2. exact (aad_loop (length aad) aad (be_bytes 2 (zlen aad)) x1 H1 (be_bytes_bytes _ _) Ha ltac:(rewrite L2; lia) ltac:(lia)). }
    destruct Haad as [Haad H2]. rewrite Haad.
    assert (Hk : exists k, length (if decide (aad = []) then [] else padded16 (be_bytes 2 (zlen aad) ++ aad)) = (16 * k)%nat).
    { destruct (decide (aad = [])); [by exists 0%nat|]. apply padded16_length. }
    destruct Hk as [k Hk]. rewrite (cbc_mac_app e x1 k) by done.
    destruct (text_loop (length text) text _ H2 Ht ltac:(lia)) as [-> H3]. done.
  Qed.

Lemma ctr_loop_ok fuel c input : 0 <= c -> c + zlen input < 2 ^ 64 ->
    ctr_loop fuel context nonce c input = (STATUS_SUCCESS, xor_stream 16 fuel (fun i => e (ccm_a nonce (c + Z.of_nat i))) input).
  Proof using He Hn Hnb.
    revert c input. induction fuel as [|fuel IH]; intros c input Hc Hl; [done|]. destruct input as [|b input]; [done|].
    cbn [ctr_loop xor_stream]. rewrite zlen_cons in Hl. pose proof (zlen_nonneg input).
    rewrite counter_block by done. destruct (He (ccm_a nonce c) (ccm_a_ok nonce c Hn Hnb)) as [-> _].
    replace (c =? MAXU64) with false by (symmetry; apply Z.eqb_neq; unfold MAXU64; lia). rewrite u64_id by lia.
    rewrite IH; [|lia|]. 2:{ unfold zlen. rewrite length_drop. unfold zlen in *. cbn [length]. lia. }
    change (Z.of_nat 0) with 0. rewrite Z.add_0_r. f_equal. apply (f_equal2 app); [done|].
    assert (E : forall fuel f g l, (forall i, f i = g i) -> xor_stream 16 fuel f l = xor_stream 16 fuel g l).
    { clear. induction fuel as [|fuel IH]; intros f g l E; [done|]. destruct l; [done|]. cbn [xor_stream]. rewrite E. f_equal. apply IH. intros. apply E. }
    apply E. intros i. do 2 f_equal. lia.
  Qed.
Lemma ccm_ctr_length input : zlen (ccm_ctr e nonce input) = zlen input.
  Proof using He Hn Hnb.
    unfold ccm_ctr, zlen. rewrite xor_stream_length; [done|lia| |done]. intros i. apply He. by apply ccm_a_ok.
  Qed.
Lemma ccm_ctr_bytes input : bytes (ccm_ctr e nonce input).
  Proof using. apply xor_stream_bytes. Qed.
Lemma ccm_ctr_twice input : bytes input -> ccm_ctr e nonce (ccm_ctr e nonce input) = input.
  Proof using He Hn Hnb.
    intros Hb. pose proof (ccm_ctr_length input) as E. unfold zlen in E. apply Nat2Z.inj in E. unfold ccm_ctr at 1. rewrite E.
    apply xor_stream_twice; [lia| |done|done]. intros i. apply He. by apply ccm_a_ok.
  Qed.
Lemma ccm_crypt input output : zlen input <= zlen output -> zlen input < 2 ^ 64 - 1 ->
    CcmCrypt context nonce (Bytes input) (Bytes output) = (STATUS_SUCCESS, Bytes (ccm_ctr e nonce input ++ zdrop (zlen input) output)).
  Proof using He Hn Hnb.
    intros Hl Hi. unfold CcmCrypt, IsValidBuffer. cbn [sp_len sp_isnull sp_bytes negb]. rewrite !orb_true_r, (proj2 (Z.ltb_ge _ _) Hl). cbn [negb orb].
    rewrite ctr_loop_ok by lia. cbn [write_front]. rewrite mem_copy_front. fold (ccm_ctr e nonce input). by rewrite ccm_ctr_length.
  Qed.
Lemma tag_bytes x : blk x -> ccm_tag_bytes context nonce x m = ztake m (zip_with Z.lxor x (e (ccm_a nonce 0)))
    /\ zlen (ztake m (zip_with Z.lxor x (e (ccm_a nonce 0)))) = m /\ bytes (ztake m (zip_with Z.lxor x (e (ccm_a nonce 0)))).
  Proof using He Hn Hnb Hm.
    intros Hx. unfold ccm_tag_bytes. rewrite counter_block by done. destruct (He (ccm_a nonce 0) (ccm_a_ok nonce 0 Hn Hnb)) as [-> Hb].
    destruct (lxor_block x _ Hx Hb) as [-> [L B]]. split; [done|]. split; [|by apply bytes_ztake].
    apply zlen_ztake. unfold zlen. rewrite L. lia.
  Qed.
End Nonce.
End Cipher.

(** ** CCM on buffers that fit *)

(** The cipher is not to be computed in what follows. *)
#[local] Opaque aes128 Aes128EncryptBlock expand128_loop.

Section Ccm128.
Context (key nonce aad : list Z) (m : Z) (Hk : zlen key = 16) (Hkb : bytes key).
Context (Hn : 7 <= zlen nonce <= 13) (Hnb : bytes nonce) (Ha : bytes aad) (Hm : m = 8 \/ m = 16).
Definition round_keys : list Z := expand128_loop 40 0 key.
Lemma round_keys_ok x : blk x -> Aes128EncryptBlock round_keys x = aes128 key x /\ blk (aes128 key x).
  Proof using Hk Hkb.
    intros [Hx Hb]. assert (Hk' : length key = 16%nat) by (unfold zlen in Hk; lia). split; [exact (aes128_ok key x Hk' Hkb Hx Hb)|exact (aes128_block key x Hk' Hkb Hx Hb)].
  Qed.
Lemma aes_initialize_ok : Aes128Initialize (Bytes key) = Ok round_keys.
  Proof using Hk. unfold Aes128Initialize. cbn [sp_isnull sp_len sp_bytes]. rewrite Hk. reflexivity. Qed.
Lemma validate_ccm alg tag : ValidateAesCcm (MkAeadKey alg (Bytes key)) (MkAeadParameters (Bytes nonce) (Bytes aad) tag) m = STATUS_SUCCESS.
  Proof using Hk Hn Hm.
    unfold ValidateAesCcm, IsValidBuffer. cbn [ak_Key ap_Nonce ap_Aad sp_len sp_isnull]. rewrite Hk.
    rewrite (proj2 (Z.ltb_ge (zlen nonce) 7)), (proj2 (Z.ltb_ge 13 (zlen nonce))), orb_true_r by lia. by destruct Hm as [-> | ->].
  Qed.

Lemma ccm_encrypt_ok alg text output tag t : bytes text -> zlen tag = m -> zlen text <= zlen output -> zlen text < 2 ^ 64 - 1 ->
    CcmPayloadLengthFits (zlen text) (ccm_l nonce) = true -> zlen aad < 0xff00 ->
    AesCcmEncrypt true true (MkAeadKey alg (Bytes key)) (MkAeadParameters (Bytes nonce) (Bytes aad) t) (Bytes text) (Bytes output) (Bytes tag)
    = MkAeadResult STATUS_SUCCESS (Bytes (ccm_ctr (aes128 key) nonce text ++ zdrop (zlen text) output))
        (Bytes (ccm_tag (aes128 key) nonce aad m text)) (zlen text).
  Proof using Hk Hkb Hn Hnb Ha Hm.
    intros Ht Hg Ho Hl Hf Hla. unfold AesCcmEncrypt. cbn [sp_len]. rewrite Hg, validate_ccm. cbn [NT_SUCCESS negb ak_Key ap_Nonce ap_Aad sp_bytes sp_isnull].
    unfold IsValidBuffer. cbn [sp_len sp_isnull negb]. rewrite !orb_true_r, (proj2 (Z.ltb_ge _ _) Ho). cbn [negb orb]. rewrite aes_initialize_ok.
    destruct (compute_mac round_keys (aes128 key) round_keys_ok nonce aad m Hn Hnb Ha Hm text Ht Hf Hla) as [-> Hx].
    rewrite (ccm_crypt round_keys (aes128 key) round_keys_ok nonce Hn Hnb text output Ho Hl). cbn [NT_SUCCESS negb write_front].
    destruct (tag_bytes round_keys (aes128 key) round_keys_ok nonce m Hn Hnb Hm _ Hx) as (-> & Hz & _). fold (ccm_tag (aes128 key) nonce aad m text) in *.
    assert (Ez : zdrop m tag = []) by (rewrite <- Hg; apply zdrop_all). rewrite mem_copy_front, Hz, Ez, app_nil_r. reflexivity.
  Qed.

Lemma ccm_decrypt_ok alg text output tag : zlen text <= zlen output -> zlen text < 2 ^ 64 - 1 -> bytes tag -> zlen tag = m ->
    CcmPayloadLengthFits (zlen text) (ccm_l nonce) = true -> zlen aad < 0xff00 ->
    AesCcmDecrypt true true (MkAeadKey alg (Bytes key)) (MkAeadParameters (Bytes nonce) (Bytes aad) (Bytes tag)) (Bytes text) (Bytes output)
    = if decide (tag = ccm_tag (aes128 key) nonce aad m (ccm_ctr (aes128 key) nonce text))
      then MkAeadResult STATUS_SUCCESS (Bytes (ccm_ctr (aes128 key) nonce text ++ zdrop (zlen text) output)) (Bytes tag) (zlen text)
      else MkAeadResult STATUS_INVALID_SIGNATURE (Bytes (replicate (length output) 0)) (Bytes tag) 0.
  Proof using Hk Hkb Hn Hnb Ha Hm.
    intros Ho Hl Htb Hg Hf Hla. unfold AesCcmDecrypt. cbn [ap_Tag sp_isnull sp_len]. rewrite Hg, validate_ccm. cbn [NT_SUCCESS negb ak_Key ap_Nonce ap_Aad sp_bytes sp_isnull].
    unfold IsValidBuffer. cbn [sp_len sp_isnull negb]. rewrite !orb_true_r, (proj2 (Z.ltb_ge _ _) Ho). cbn [negb orb]. rewrite aes_initialize_ok.
    rewrite (ccm_crypt round_keys (aes128 key) round_keys_ok nonce Hn Hnb text output Ho Hl). cbn [NT_SUCCESS negb sp_bytes].
    set (p := ccm_ctr (aes128 key) nonce text). pose proof (ccm_ctr_length round_keys (aes128 key) round_keys_ok nonce Hn Hnb text) as Hp. fold p in Hp.
    rewrite (ztake_app_exact _ _ _ Hp). assert (Hpb : bytes p) by apply ccm_ctr_bytes. rewrite <- Hp in Hf.
    destruct (compute_mac round_keys (aes128 key) round_keys_ok nonce aad m Hn Hnb Ha Hm p Hpb Hf Hla) as [-> Hx].
    destruct (tag_bytes round_keys (aes128 key) round_keys_ok nonce m Hn Hnb Hm _ Hx) as (-> & Hz & Hb). fold (ccm_tag (aes128 key) nonce aad m p) in *.
    pose proof (MemoryEquals_spec _ tag Hb Htb) as M. rewrite Hz in M. specialize (M (eq_sym Hg)).
    destruct (decide (tag = _)) as [E|E]; [by rewrite (proj2 M (eq_sym E))|].
    destruct (MemoryEquals _ _ _) eqn:Em; [by destruct E; symmetry; apply M|]. cbn [negb zero_span]. do 3 f_equal.
    rewrite length_app. unfold zdrop. rewrite length_drop. unfold zlen in *. lia.
  Qed.

Lemma ccm_tag_ok text : bytes text -> CcmPayloadLengthFits (zlen text) (ccm_l nonce) = true -> zlen aad < 0xff00 ->
    bytes (ccm_tag (aes128 key) nonce aad m text) /\ zlen (ccm_tag (aes128 key) nonce aad m text) = m.
  Proof using Hk Hkb Hn Hnb Ha Hm.
    intros Ht Hf Hla. destruct (compute_mac round_keys (aes128 key) round_keys_ok nonce aad m Hn Hnb Ha Hm text Ht Hf Hla) as [_ Hx].
    by destruct (tag_bytes round_keys (aes128 key) round_keys_ok nonce m Hn Hnb Hm _ Hx) as (_ & Hz & Hb).
  Qed.

  (** With associated data of 0xff00 bytes and more the authenticator is refused
      after the text has been written. *)
Lemma ccm_long_aad_ok alg text output tag : zlen text <= zlen output -> zlen text < 2 ^ 64 - 1 -> zlen tag = m -> 0xff00 <= zlen aad ->
    AesCcmDecrypt true true (MkAeadKey alg (Bytes key)) (MkAeadParameters (Bytes nonce) (Bytes aad) (Bytes tag)) (Bytes text) (Bytes output)
    = MkAeadResult STATUS_INVALID_PARAMETER (Bytes (ccm_ctr (aes128 key) nonce text ++ zdrop (zlen text) output)) (Bytes tag) 0.
  Proof using Hk Hkb Hn Hnb Hm.
    clear Ha. intros Ho Hl Hg Hla. unfold AesCcmDecrypt. cbn [ap_Tag sp_isnull sp_len]. rewrite Hg, validate_ccm. cbn [NT_SUCCESS negb ak_Key ap_Nonce ap_Aad sp_bytes sp_isnull].
    unfold IsValidBuffer. cbn [sp_len sp_isnull negb]. rewrite !orb_true_r, (proj2 (Z.ltb_ge _ _) Ho). cbn [negb orb]. rewrite aes_initialize_ok.
    rewrite (ccm_crypt round_keys (aes128 key) round_keys_ok nonce Hn Hnb text output Ho Hl). cbn [NT_SUCCESS negb sp_bytes].
    unfold CcmComputeMac. rewrite (proj2 (Z.leb_le 0xff00 (zlen aad)) Hla), orb_true_r. reflexivity.
  Qed.
End Ccm128.

(** ** What the entry points compute *)

(** The ciphertext of a text, and the text of a ciphertext. *)
Definition aead_stream (algorithm : AeadAlgorithm) (key nonce text : list Z) : list Z :=
  match algorithm with ChaCha20Poly1305 => chacha_stream key nonce text | _ => ccm_ctr (aes128 key) nonce text end.
(** The tag of a ciphertext: RFC 8439 authenticates the ciphertext, RFC 3610 the text. *)
Definition aead_tag (algorithm : AeadAlgorithm) (key nonce aad ciphertext : list Z) : list Z :=
  match algorithm with
  | ChaCha20Poly1305 => chacha_tag key nonce aad ciphertext
  | _ => ccm_tag (aes128 key) nonce aad (TagLength algorithm) (ccm_ctr (aes128 key) nonce ciphertext)
  end.
(** What a rejected ciphertext leaves in the output: CCM has written there, and wipes it. *)
Definition aead_rejected (algorithm : AeadAlgorithm) (output : list Z) : list Z :=
  match algorithm with ChaCha20Poly1305 => output | _ => replicate (length output) 0 end.
(** The sizes that each software algorithm takes. *)
Definition aead_ready (algorithm : AeadAlgorithm) (key nonce aad text : list Z) : Prop :=
  match algorithm with
  | ChaCha20Poly1305 => zlen key = 32 /\ zlen nonce = 12 /\ mac_length aad text < 2 ^ 64
  | Aes128Ccm | Aes128Ccm8 => zlen key = 16 /\ 7 <= zlen nonce <= 13 /\ zlen aad < 0xff00 /\ zlen text < 2 ^ 64 - 1
      /\ CcmPayloadLengthFits (zlen text) (ccm_l nonce) = true
  | _ => False
  end.

Lemma aead_ready_length algorithm key nonce aad text text' : zlen text = zlen text' ->
  aead_ready algorithm key nonce aad text -> aead_ready algorithm key nonce aad text'.
Proof. intros E. unfold aead_ready. destruct algorithm; rewrite <- ?E; try done. intros (? & ? & H). by rewrite (mac_length_eq aad text' text). Qed.

Section Entry.
Context (gcm_encrypt : AeadKey -> AeadParameters -> span -> span -> span -> AeadResult).
Context (gcm_decrypt : AeadKey -> AeadParameters -> span -> span -> AeadResult).
Context (algorithm : AeadAlgorithm) (key nonce aad : list Z) (Hkb : bytes key) (Hnb : bytes nonce) (Ha : bytes aad).

Lemma aead_stream_ok text : aead_ready algorithm key nonce aad text ->
    zlen (aead_stream algorithm key nonce text) = zlen text /\ bytes (aead_stream algorithm key nonce text)
    /\ (bytes text -> aead_stream algorithm key nonce (aead_stream algorithm key nonce text) = text).
  Proof using Hkb Hnb.
    assert (C : zlen key = 16 -> 7 <= zlen nonce <= 13 -> zlen (ccm_ctr (aes128 key) nonce text) = zlen text /\ bytes (ccm_ctr (aes128 key) nonce text)
      /\ (bytes text -> ccm_ctr (aes128 key) nonce (ccm_ctr (aes128 key) nonce text) = text)).
    { intros Hk Hn. pose proof (round_keys_ok key Hk Hkb) as He. split; [by eapply ccm_ctr_length|split; [apply ccm_ctr_bytes|by eapply ccm_ctr_twice]]. }
    unfold aead_ready, aead_stream. destruct algorithm; try done; [|intros (? & ? & _); by apply C..].
    intros _. split; [apply chacha_stream_length|split; [apply chacha_stream_bytes|apply chacha_stream_twice]].
  Qed.

Lemma aead_tag_ok ciphertext : aead_ready algorithm key nonce aad ciphertext ->
    bytes (aead_tag algorithm key nonce aad ciphertext) /\ zlen (aead_tag algorithm key nonce aad ciphertext) = TagLength algorithm.
  Proof using Hkb Hnb Ha.
    intros Hr. pose proof (aead_stream_ok ciphertext Hr) as (El & Eb & _). unfold aead_tag, aead_stream, aead_ready in *.
    destruct algorithm; try done; [split; [apply chacha_tag_bytes|apply chacha_tag_length]|..]; destruct Hr as (Hk & Hn & Hl & Hs & Hf); rewrite <- El in Hf;
      apply ccm_tag_ok; first [done | by right | by left].
  Qed.

Lemma encrypt_ok text output tag t : aead_ready algorithm key nonce aad text -> bytes text -> zlen text <= zlen output -> zlen tag = TagLength algorithm ->
    Aead_Encrypt gcm_encrypt true true (MkAeadKey algorithm (Bytes key)) (MkAeadParameters (Bytes nonce) (Bytes aad) t) (Bytes text) (Bytes output) (Bytes tag)
    = MkAeadResult STATUS_SUCCESS (Bytes (aead_stream algorithm key nonce text ++ zdrop (zlen text) output))
        (Bytes (aead_tag algorithm key nonce aad (aead_stream algorithm key nonce text))) (zlen text).
  Proof using Hkb Hnb Ha.
    intros Hr Ht Ho Hg. destruct (aead_stream_ok text Hr) as (_ & _ & E). specialize (E Ht).
    unfold Aead_Encrypt, aead_tag, aead_stream, aead_ready in *. cbn [ak_Algorithm sp_len] in *.
    destruct algorithm; try done; cbn [TagLength] in *; rewrite ?Hg.
    - destruct Hr as (Hk & Hn & Hl). by apply chacha_encrypt_ok.
    - destruct Hr as (Hk & Hn & Hl & Hs & Hf). change (negb (16 =? 16)) with false. cbv iota. rewrite E.
      apply ccm_encrypt_ok; first [done | by right].
    - destruct Hr as (Hk & Hn & Hl & Hs & Hf). change (negb (8 =? 8)) with false. cbv iota. rewrite E.
      apply ccm_encrypt_ok; first [done | by left].
  Qed.

Lemma decrypt_ok ciphertext output tag : aead_ready algorithm key nonce aad ciphertext -> bytes ciphertext -> bytes tag ->
    zlen ciphertext <= zlen output -> zlen tag = TagLength algorithm ->
    Aead_Decrypt gcm_decrypt true true (MkAeadKey algorithm (Bytes key)) (MkAeadParameters (Bytes nonce) (Bytes aad) (Bytes tag)) (Bytes ciphertext) (Bytes output)
    = if decide (tag = aead_tag algorithm key nonce aad ciphertext)
      then MkAeadResult STATUS_SUCCESS (Bytes (aead_stream algorithm key nonce ciphertext ++ zdrop (zlen ciphertext) output)) (Bytes tag) (zlen ciphertext)
      else MkAeadResult STATUS_INVALID_SIGNATURE (Bytes (aead_rejected algorithm output)) (Bytes tag) 0.
  Proof using Hkb Hnb Ha.
    intros Hr Hc Htb Ho Hg. unfold Aead_Decrypt, aead_tag, aead_stream, aead_rejected, aead_ready in *. cbn [ak_Algorithm ap_Tag sp_len] in *.
    destruct algorithm; try done; cbn [TagLength] in *; rewrite ?Hg.
    - destruct Hr as (Hk & Hn & Hl). by apply chacha_decrypt_ok.
    - destruct Hr as (Hk & Hn & Hl & Hs & Hf). change (negb (16 =? 16)) with false. cbv iota.
      apply ccm_decrypt_ok; first [done | by right].
    - destruct Hr as (Hk & Hn & Hl & Hs & Hf). change (negb (8 =? 8)) with false. cbv iota.
      apply ccm_decrypt_ok; first [done | by left].
  Qed.
End Entry.

(** The tag and the ciphertext that Aead::Encrypt writes are those of the
    standards: on well-sized arguments ChaCha20-Poly1305 gives the tag of RFC 8439
    (the Poly1305 polynomial of the padded data under the key of block 0) and the
    two CCM algorithms the ciphertext and tag of RFC 3610 over AES-128 of FIPS 197;
    the output behind the ciphertext is not touched. *)
Theorem aead_encrypt_exact gcm algorithm key nonce aad text output tag t :
  aead_ready algorithm key nonce aad text -> bytes key -> bytes nonce -> bytes aad -> bytes text ->
  zlen text <= zlen output -> zlen tag = TagLength algorithm ->
  Aead_Encrypt gcm true true (MkAeadKey algorithm (Bytes key)) (MkAeadParameters (Bytes nonce) (Bytes aad) t) (Bytes text) (Bytes output) (Bytes tag)
  = MkAeadResult STATUS_SUCCESS (Bytes (aead_stream algorithm key nonce text ++ zdrop (zlen text) output))
      (Bytes (aead_tag algorithm key nonce aad (aead_stream algorithm key nonce text))) (zlen text).
Proof. intros. by apply encrypt_ok. Qed.

(** C24. ChaCha20-Poly1305 and the two AES-CCM algorithms, on arguments within
    their limits ([aead_ready]: key and nonce sizes, lengths the algorithm can
    count, and for CCM associated data shorter than 0xff00 bytes): Aead::Decrypt
    accepts exactly one tag for each ciphertext; with it the text is returned,
    with any other tag the status is STATUS_INVALID_SIGNATURE, no byte is reported
    and the output holds none of the text. AES-GCM is computed by the kernel and
    is not covered; longer associated data is not covered for CCM, where
    [ccm_long_aad] shows that the text is left in the output. *)
Theorem aead_decrypt_exact gcm algorithm key nonce aad ciphertext output tag :
  aead_ready algorithm key nonce aad ciphertext -> bytes key -> bytes nonce -> bytes aad -> bytes ciphertext -> bytes tag ->
  zlen ciphertext <= zlen output -> zlen tag = TagLength algorithm ->
  Aead_Decrypt gcm true true (MkAeadKey algorithm (Bytes key)) (MkAeadParameters (Bytes nonce) (Bytes aad) (Bytes tag)) (Bytes ciphertext) (Bytes output)
  = if decide (tag = aead_tag algorithm key nonce aad ciphertext)
    then MkAeadResult STATUS_SUCCESS (Bytes (aead_stream algorithm key nonce ciphertext ++ zdrop (zlen ciphertext) output)) (Bytes tag) (zlen ciphertext)
    else MkAeadResult STATUS_INVALID_SIGNATURE (Bytes (aead_rejected algorithm output)) (Bytes tag) 0.
Proof. intros. by apply decrypt_ok. Qed.

(** C23. Decryption undoes encryption: whatever Aead::Encrypt wrote with
    ChaCha20-Poly1305 or AES-CCM on arguments within their limits ([aead_ready]),
    Aead::Decrypt with the same key, nonce and associated data accepts and
    returns the text. *)
Theorem aead_roundtrip gcm_e gcm_d algorithm key nonce aad text output tag t :
  aead_ready algorithm key nonce aad text -> bytes key -> bytes nonce -> bytes aad -> bytes text ->
  zlen text <= zlen output -> zlen tag = TagLength algorithm ->
  let sealed := Aead_Encrypt gcm_e true true (MkAeadKey algorithm (Bytes key)) (MkAeadParameters (Bytes nonce) (Bytes aad) t)
                  (Bytes text) (Bytes output) (Bytes tag) in
  let opened := Aead_Decrypt gcm_d true true (MkAeadKey algorithm (Bytes key)) (MkAeadParameters (Bytes nonce) (Bytes aad) (ar_tag sealed))
                  (Bytes (ztake (ar_bytesWritten sealed) (sp_bytes (ar_output sealed)))) (Bytes output) in
  ar_status sealed = STATUS_SUCCESS /\ ar_status opened = STATUS_SUCCESS
  /\ ztake (ar_bytesWritten opened) (sp_bytes (ar_output opened)) = text.
Proof.
  intros Hr Hkb Hnb Ha Ht Ho Hg. cbv zeta. rewrite encrypt_ok by done. cbn [ar_tag ar_output ar_bytesWritten sp_bytes ar_status].
  destruct (aead_stream_ok algorithm key nonce aad Hkb Hnb text Hr) as (Hl & Hb & E). rewrite (ztake_app_exact _ _ _ Hl).
  set (c := aead_stream algorithm key nonce text) in *. assert (Hr' : aead_ready algorithm key nonce aad c) by (by apply (aead_ready_length _ _ _ _ text)).
  destruct (aead_tag_ok algorithm key nonce aad Hkb Hnb Ha c Hr') as [Hgb Hgl].
  rewrite decrypt_ok, decide_True by (done || lia). cbn [ar_status ar_output ar_bytesWritten sp_bytes]. rewrite (E Ht).
  by rewrite (ztake_app_exact _ text _ (eq_sym Hl)).
Qed.

(** C38. CCM with 0xff00 bytes of associated data or more, which its encoding of the
    length does not cover, is refused by Aead::Decrypt only after the text has been
    decrypted into the output, where it stays: the status is an error, but the
    unauthenticated text is released. *)
Theorem ccm_long_aad gcm algorithm key nonce aad ciphertext output tag :
  algorithm = Aes128Ccm \/ algorithm = Aes128Ccm8 -> zlen key = 16 -> bytes key -> 7 <= zlen nonce <= 13 -> bytes nonce ->
  0xff00 <= zlen aad -> zlen ciphertext <= zlen output -> zlen ciphertext < 2 ^ 64 - 1 -> zlen tag = TagLength algorithm ->
  Aead_Decrypt gcm true true (MkAeadKey algorithm (Bytes key)) (MkAeadParameters (Bytes nonce) (Bytes aad) (Bytes tag)) (Bytes ciphertext) (Bytes output)
  = MkAeadResult STATUS_INVALID_PARAMETER (Bytes (ccm_ctr (aes128 key) nonce ciphertext ++ zdrop (zlen ciphertext) output)) (Bytes tag) 0.
Proof.
  intros Halg Hk Hkb Hn Hnb Hla Ho Hl Hg. unfold Aead_Decrypt. cbn [ak_Algorithm ap_Tag sp_len].
  destruct Halg as [-> | ->]; cbn [TagLength] in *; rewrite Hg; [change (negb (16 =? 16)) with false|change (negb (8 =? 8)) with false]; cbv iota.
  - by apply (ccm_long_aad_ok key nonce aad 16); first [done | by right].
  - by apply (ccm_long_aad_ok key nonce aad 8); first [done | by left].
Qed.

(** ** Witnesses *)

Definition sample_key : list Z := seqZ 0xc0 16.
Definition sample_nonce : list Z := [0; 0; 0; 3; 2; 1; 0; 0xa0; 0xa1; 0xa2; 0xa3; 0xa4; 0xa5].
Lemma sample_ready text : zlen text < 2 ^ 16 -> aead_ready Aes128Ccm8 sample_key sample_nonce [1; 2; 3] text.
Proof.
  intros H. split; [done|]. split; [by vm_compute|]. split; [by vm_compute|]. split; [lia|]. apply Z.leb_le.
  change (u64 (Z.shiftl 1 (ccm_l sample_nonce * 8)) -! 1) with 65535. lia.
Qed.

Lemma aead_encrypt_exact_witness :
  Aead_Encrypt vector_gcm_encrypt true true (MkAeadKey Aes128Ccm8 (Bytes sample_key))
    (MkAeadParameters (Bytes sample_nonce) (Bytes [1; 2; 3]) (Null 0)) (Bytes [7; 8; 9]) (Bytes [0; 0; 0; 0; 5]) (Bytes (replicate 8 0))
  = MkAeadResult STATUS_SUCCESS (Bytes (aead_stream Aes128Ccm8 sample_key sample_nonce [7; 8; 9] ++ zdrop 3 [0; 0; 0; 0; 5]))
      (Bytes (aead_tag Aes128Ccm8 sample_key sample_nonce [1; 2; 3] (aead_stream Aes128Ccm8 sample_key sample_nonce [7; 8; 9]))) 3.
Proof.
  apply (aead_encrypt_exact vector_gcm_encrypt Aes128Ccm8 sample_key sample_nonce [1; 2; 3] [7; 8; 9] [0; 0; 0; 0; 5] (replicate 8 0) (Null 0));
    first [by apply sample_ready | by apply bytes_decide | by vm_compute].
Defined.
Lemma aead_decrypt_exact_witness :
  Aead_Decrypt vector_gcm_decrypt true true (MkAeadKey ChaCha20Poly1305 (Bytes vector_key))
    (MkAeadParameters (Bytes [1; 2; 3; 4; 5; 6; 7; 8; 9; 10; 11; 12]) (Bytes [1; 2; 3]) (Bytes (replicate 16 7))) (Bytes [7; 8; 9]) (Bytes [0; 0; 0; 5])
  = if decide (replicate 16 7 = aead_tag ChaCha20Poly1305 vector_key [1; 2; 3; 4; 5; 6; 7; 8; 9; 10; 11; 12] [1; 2; 3] [7; 8; 9])
    then MkAeadResult STATUS_SUCCESS (Bytes (aead_stream ChaCha20Poly1305 vector_key [1; 2; 3; 4; 5; 6; 7; 8; 9; 10; 11; 12] [7; 8; 9] ++ zdrop 3 [0; 0; 0; 5]))
      (Bytes (replicate 16 7)) 3
    else MkAeadResult STATUS_INVALID_SIGNATURE (Bytes (aead_rejected ChaCha20Poly1305 [0; 0; 0; 5])) (Bytes (replicate 16 7)) 0.
Proof.
  apply (aead_decrypt_exact vector_gcm_decrypt ChaCha20Poly1305 vector_key [1; 2; 3; 4; 5; 6; 7; 8; 9; 10; 11; 12] [1; 2; 3] [7; 8; 9] [0; 0; 0; 5] (replicate 16 7));
    first [by apply bytes_decide | by vm_compute].
Defined.
Lemma aead_roundtrip_witness :
  let sealed := Aead_Encrypt vector_gcm_encrypt true true (MkAeadKey Aes128Ccm8 (Bytes sample_key))
    (MkAeadParameters (Bytes sample_nonce) (Bytes [1; 2; 3]) (Null 0)) (Bytes [7; 8; 9]) (Bytes [0; 0; 0; 0]) (Bytes (replicate 8 0)) in
  let opened := Aead_Decrypt vector_gcm_decrypt true true (MkAeadKey Aes128Ccm8 (Bytes sample_key))
    (MkAeadParameters (Bytes sample_nonce) (Bytes [1; 2; 3]) (ar_tag sealed))
    (Bytes (ztake (ar_bytesWritten sealed) (sp_bytes (ar_output sealed)))) (Bytes [0; 0; 0; 0]) in
  ar_status sealed = STATUS_SUCCESS /\ ar_status opened = STATUS_SUCCESS /\ ztake (ar_bytesWritten opened) (sp_bytes (ar_output opened)) = [7; 8; 9].
Proof.
  apply (aead_roundtrip vector_gcm_encrypt vector_gcm_decrypt Aes128Ccm8 sample_key sample_nonce [1; 2; 3] [7; 8; 9] [0; 0; 0; 0] (replicate 8 0) (Null 0));
    first [by apply sample_ready | by apply bytes_decide | by vm_compute].
Defined.
Lemma ccm_long_aad_witness :
  Aead_Decrypt vector_gcm_decrypt true true (MkAeadKey Aes128Ccm8 (Bytes sample_key))
    (MkAeadParameters (Bytes sample_nonce) (Bytes (replicate (Z.to_nat 0xff00) 0)) (Bytes (replicate 8 1))) (Bytes [7; 8; 9]) (Bytes [0; 0; 0; 0])
  = MkAeadResult STATUS_INVALID_PARAMETER (Bytes (ccm_ctr (aes128 sample_key) sample_nonce [7; 8; 9] ++ zdrop 3 [0; 0; 0; 0])) (Bytes (replicate 8 1)) 0.
Proof.
  apply (ccm_long_aad vector_gcm_decrypt Aes128Ccm8 sample_key sample_nonce (replicate (Z.to_nat 0xff00) 0) [7; 8; 9] [0; 0; 0; 0] (replicate 8 1));
    first [by right | by apply bytes_decide | rewrite zlen_replicate, Z2Nat.id; lia | by vm_compute].
Defined.
