(* ===== verification/Checksums.v ===== *)
(** * The checksums of the content codings (codec/ContentCoding.cpp)

    CRC-32 with the register shifted towards the least significant bit, and
    Adler-32.  The register of the CRC is, bit for bit from the other end, the
    remainder of the message as a polynomial over GF(2); Adler-32 is its two sums. *)

From S2P Require Import Prelude.
From S2P Require Import BitStream.
From S2P Require Import LittleEndian.

(** ** CRC-32 *)

Definition crc_bit (crc : Z) : Z :=
  let mask := u32 (0 - Z.land crc 1) in
  Z.lxor (Z.shiftr crc 1) (Z.land 0xEDB88320 mask).
Fixpoint crc_loop (data : list Z) (crc : Z) : Z :=
  match data with
  | [] => crc
  | byte :: data => crc_loop data (Nat.iter 8 crc_bit (Z.lxor crc byte))
  end.
Definition ComputeCrc32 (data : list Z) : Z := u32 (Z.lnot (crc_loop data 0xFFFFFFFF)).

(** ** Adler-32 *)

Definition AdlerModulo : Z := 65521.
Fixpoint adler_loop (data : list Z) (low high : Z) : Z * Z :=
  match data with
  | [] => (low, high)
  | byte :: data =>
      let low := u32 (low + byte) in
      let low := if low >=? AdlerModulo then u32 (low - AdlerModulo) else low in
      adler_loop data low (u32 (high + low) mod AdlerModulo)
  end.
Definition ComputeAdler32 (data : list Z) : Z :=
  let '(low, high) := adler_loop data 1 0 in Z.lor (u32 (Z.shiftl high 16)) low.

(** "123456789" and "Wikipedia". *)
Example crc_check : ComputeCrc32 [0x31; 0x32; 0x33; 0x34; 0x35; 0x36; 0x37; 0x38; 0x39] = 0xCBF43926.
Proof. vm_compute. reflexivity. Qed.
Example adler_wikipedia : ComputeAdler32 [0x57; 0x69; 0x6b; 0x69; 0x70; 0x65; 0x64; 0x69; 0x61] = 0x11E60398.
Proof. vm_compute. reflexivity. Qed.

(** ** Polynomials over GF(2)

    The bit [i] of a number is the coefficient of [x^i].  [poly bits] has the bits
    of a message from the highest power down; a quotient is its bits likewise. *)

Definition generator : Z := 0x104C11DB7.
Definition poly (bits : list bool) : Z := foldl (fun a (b : bool) => Z.lxor (2 * a) (Z.b2z b)) 0 bits.
Definition times (quotient : list bool) : Z :=
  foldl (fun a (b : bool) => Z.lxor (2 * a) (if b then generator else 0)) 0 quotient.

(** The message, 32 zeros, and its first 32 bits inverted: RFC 1952, section 8. *)
Definition dividend (bits : list bool) : Z :=
  Z.lxor (Z.shiftl (poly bits) 32) (Z.shiftl 0xFFFFFFFF (Z.of_nat (length bits))).

(** [crc] has the bits of [r], the highest first. *)
Definition reflected (crc r : Z) : Prop := forall i, 0 <= i < 32 -> Z.testbit crc i = Z.testbit r (31 - i).
(** The remainder of a division by the generator. *)
Definition remainder (d r : Z) : Prop := 0 <= r < 2 ^ 32 /\ exists quotient, d = Z.lxor (times quotient) r.

(** ** One bit *)

(** The register after one bit of the message. *)
Definition crc_step (crc : Z) (b : bool) : Z :=
  Z.lxor (Z.shiftr crc 1) (if xorb (Z.testbit crc 0) b then 0xEDB88320 else 0).

Lemma land_one x : Z.land x 1 = Z.b2z (Z.testbit x 0).
Proof. change 1 with (Z.ones 1). by rewrite Z.land_ones, Z.bit0_mod. Qed.
Lemma crc_bit_eq crc : crc_bit crc = Z.lxor (Z.shiftr crc 1) (if Z.testbit crc 0 then 0xEDB88320 else 0).
Proof. unfold crc_bit. rewrite land_one. by destruct (Z.testbit crc 0). Qed.

(** The byte put into the register at once, or a bit at a time. *)
Lemma crc_bit_xor crc rest : crc_bit (Z.lxor crc rest) = Z.lxor (crc_step crc (Z.testbit rest 0)) (Z.shiftr rest 1).
Proof.
  rewrite crc_bit_eq, Z.lxor_spec, Z.shiftr_lxor. unfold crc_step. rewrite !Z.lxor_assoc. f_equal. apply Z.lxor_comm.
Qed.
Lemma crc_byte crc byte : is_byte byte -> Nat.iter 8 crc_bit (Z.lxor crc byte) = foldl crc_step crc (byte_bits byte).
Proof.
  intros Hb. cbn [byte_bits map foldl]. unfold Nat.iter. cbn [nat_rect]. rewrite !crc_bit_xor, !Z.shiftr_shiftr, !Z.shiftr_spec by lia.
  assert (E : Z.shiftr byte 8 = 0) by (rewrite Z.shiftr_div_pow2 by lia; apply Z.div_small; exact Hb).
  change (1 + 1 + 1 + 1 + 1 + 1 + 1 + 1) with 8. rewrite E, Z.lxor_0_r. done.
Qed.
Lemma crc_loop_bits data crc : bytes data -> crc_loop data crc = foldl crc_step crc (to_bits data).
Proof.
  intros Hd. revert crc. induction Hd as [|b data Hb _ IH]; intros crc; [done|].
  cbn [crc_loop]. rewrite IH. change (to_bits (b :: data)) with (byte_bits b ++ to_bits data). rewrite foldl_app. by rewrite crc_byte.
Qed.

(** ** The division *)

Definition rem_step (r : Z) (b : bool) : Z :=
  Z.lxor (Z.lxor (2 * r) (if b then 2 ^ 32 else 0)) (if xorb (Z.testbit r 31) b then generator else 0).

Lemma double_shiftl r : 2 * r = Z.shiftl r 1.
Proof. rewrite Z.shiftl_mul_pow2 by lia. change (2 ^ 1) with 2. lia. Qed.
Lemma testbit_high r i n : 0 <= r < 2 ^ n -> n <= i -> Z.testbit r i = false.
Proof.
  intros Hr Hi. destruct (Z.eq_dec r 0) as [-> |]; [apply Z.testbit_0_l|]. apply Z.bits_above_log2; [lia|].
  assert (Z.log2 r < n) by (apply Z.log2_lt_pow2; lia). lia.
Qed.
Lemma rem_step_range r b : 0 <= r < 2 ^ 32 -> 0 <= rem_step r b < 2 ^ 32.
Proof.
  intros Hr. assert (Hn : 0 <= rem_step r b).
  { unfold rem_step. rewrite !Z.lxor_nonneg. unfold generator. destruct b, (xorb _ _); lia. }
  split; [done|]. destruct (Z.eq_dec (rem_step r b) 0) as [-> |]; [lia|]. apply Z.log2_lt_pow2; [lia|].
  destruct (Z.le_gt_cases 32 (Z.log2 (rem_step r b))) as [Hl|]; [exfalso|done].
  assert (Hbit : Z.testbit (rem_step r b) (Z.log2 (rem_step r b)) = true) by (apply Z.bit_log2; lia).
  revert Hbit. generalize (Z.log2 (rem_step r b)) Hl. intros i Hi. unfold rem_step. rewrite !Z.lxor_spec.
  rewrite (double_shiftl r), Z.shiftl_spec by lia.
  destruct (Z.eq_dec i 32) as [-> |Hne].
  - change (32 - 1) with 31. destruct (Z.testbit r 31), b; cbn; done.
  - rewrite (testbit_high r (i - 1) 32) by lia.
    assert (H32 : Z.testbit (if b then 2 ^ 32 else 0) i = false) by (destruct b; [apply Z.pow2_bits_false; lia|apply Z.testbit_0_l]).
    assert (HG : Z.testbit (if xorb (Z.testbit r 31) b then generator else 0) i = false).
    { destruct (xorb _ _); [|apply Z.testbit_0_l]. apply (testbit_high _ _ 33); [unfold generator; lia|lia]. }
    by rewrite H32, HG.
Qed.

Lemma crc_step_reflected crc r b : 0 <= crc < 2 ^ 32 -> 0 <= r < 2 ^ 32 -> reflected crc r -> reflected (crc_step crc b) (rem_step r b).
Proof.
  intros Hc Hr Hrel i Hi. unfold crc_step, rem_step. rewrite !Z.lxor_spec, Z.shiftr_spec by lia.
  assert (H0 : Z.testbit crc 0 = Z.testbit r 31) by (apply (Hrel 0); lia). rewrite H0.
  rewrite (double_shiftl r), Z.shiftl_spec by lia.
  assert (Hp : Z.testbit (if b then 2 ^ 32 else 0) (31 - i) = false) by (destruct b; [apply Z.pow2_bits_false; lia|apply Z.testbit_0_l]).
  rewrite Hp, xorb_false_r. f_equal.
  - destruct (Z.eq_dec i 31) as [-> |].
    + rewrite (testbit_high crc (31 + 1) 32) by lia. by rewrite Z.testbit_neg_r by lia.
    + rewrite (Hrel (i + 1)) by lia. f_equal. lia.
  - destruct (xorb (Z.testbit r 31) b); [|by rewrite !Z.testbit_0_l]. unfold generator.
    assert (Hall : forallb (fun i => Bool.eqb (Z.testbit 0xEDB88320 i) (Z.testbit 0x104C11DB7 (31 - i))) (seqZ 0 32) = true) by (vm_compute; reflexivity).
    rewrite List.forallb_forall in Hall. apply Bool.eqb_prop, Hall, list_elem_of_In, elem_of_seqZ. lia.
Qed.
Lemma crc_step_range crc b : 0 <= crc < 2 ^ 32 -> 0 <= crc_step crc b < 2 ^ 32.
Proof.
  intros Hc. unfold crc_step. assert (Hs : 0 <= Z.shiftr crc 1 < 2 ^ 31) by (rewrite Z.shiftr_div_pow2 by lia; lia || (split; [apply Z.div_pos; lia|apply Z.div_lt_upper_bound; lia])).
  destruct (xorb _ _); [|rewrite Z.lxor_0_r; lia].
  assert (Hn : 0 <= Z.lxor (Z.shiftr crc 1) 0xEDB88320) by (apply Z.lxor_nonneg; lia). split; [done|].
  destruct (Z.eq_dec (Z.lxor (Z.shiftr crc 1) 0xEDB88320) 0) as [-> |]; [lia|]. apply Z.log2_lt_pow2; [lia|].
  eapply Z.le_lt_trans; [apply Z.log2_lxor; lia|]. apply Z.max_lub_lt; [|done].
  destruct (Z.eq_dec (Z.shiftr crc 1) 0) as [-> |]; [done|]. apply Z.log2_lt_pow2; lia.
Qed.

Lemma times_snoc q b : times (q ++ [b]) = Z.lxor (2 * times q) (if b then generator else 0).
Proof. unfold times. by rewrite foldl_app. Qed.
Lemma poly_snoc bits b : poly (bits ++ [b]) = Z.lxor (2 * poly bits) (Z.b2z b).
Proof. unfold poly. by rewrite foldl_app. Qed.
Lemma double_lxor a b : 2 * Z.lxor a b = Z.lxor (2 * a) (2 * b).
Proof. rewrite !double_shiftl. apply Z.shiftl_lxor. Qed.
Lemma dividend_snoc bits b : dividend (bits ++ [b]) = Z.lxor (2 * dividend bits) (if b then 2 ^ 32 else 0).
Proof.
  unfold dividend. rewrite poly_snoc, length_app, Z.shiftl_lxor, double_lxor. cbn [length].
  assert (E1 : Z.shiftl (2 * poly bits) 32 = 2 * Z.shiftl (poly bits) 32) by (rewrite !Z.shiftl_mul_pow2 by lia; lia).
  assert (E2 : Z.shiftl 0xFFFFFFFF (Z.of_nat (length bits + 1)) = 2 * Z.shiftl 0xFFFFFFFF (Z.of_nat (length bits))).
  { rewrite !Z.shiftl_mul_pow2, Nat2Z.inj_add, Z.pow_add_r by lia. change (2 ^ Z.of_nat 1) with 2. lia. }
  assert (E3 : Z.shiftl (Z.b2z b) 32 = if b then 2 ^ 32 else 0) by (by destruct b).
  rewrite E1, E2, E3, !Z.lxor_assoc. f_equal. apply Z.lxor_comm.
Qed.

Lemma remainder_step bits r b : remainder (dividend bits) r -> remainder (dividend (bits ++ [b])) (rem_step r b).
Proof.
  intros [Hr (q & E)]. split; [by apply rem_step_range|]. exists (q ++ [xorb (Z.testbit r 31) b]).
  rewrite dividend_snoc, times_snoc, E, double_lxor. unfold rem_step. set (g := if xorb _ _ then generator else 0).
  set (h := if b then 2 ^ 32 else 0). rewrite !Z.lxor_assoc. f_equal.
  rewrite (Z.lxor_comm h g), <- (Z.lxor_assoc _ g h), (Z.lxor_comm _ g), Z.lxor_assoc.
  rewrite <- (Z.lxor_assoc g g), Z.lxor_nilpotent. by rewrite Z.lxor_0_l.
Qed.

Lemma crc_division bits : exists r, remainder (dividend bits) r /\ reflected (foldl crc_step 0xFFFFFFFF bits) r
  /\ 0 <= foldl crc_step 0xFFFFFFFF bits < 2 ^ 32.
Proof.
  induction bits as [|b bits (r & Hr & Hrel & Hc)] using rev_ind.
  - exists 0xFFFFFFFF. split; [split; [lia|by exists []]|]. cbn [foldl]. split; [|lia].
    intros i Hi. change 0xFFFFFFFF with (Z.ones 32). rewrite !Z.ones_spec_low by lia. done.
  - rewrite foldl_app. exists (rem_step r b). split; [by apply remainder_step|]. split; [|by apply crc_step_range].
    apply crc_step_reflected; [done|by apply Hr|done].
Qed.

(** ** Adler-32: the two sums *)

Definition sum (l : list Z) : Z := foldr Z.add 0 l.
(** The sums of the bytes so far, one after each byte. *)
Fixpoint running (acc : Z) (l : list Z) : list Z :=
  match l with [] => [] | x :: l => (acc + x) :: running (acc + x) l end.

#[local] Ltac Zify.zify_post_hook ::= Z.div_mod_to_equations.
Lemma adler_loop_spec data low acc high : bytes data -> low = acc mod AdlerModulo -> 0 <= high < AdlerModulo ->
  adler_loop data low high = ((acc + sum data) mod AdlerModulo, (high + sum (running acc data)) mod AdlerModulo).
Proof.
  intros Hd. revert low acc high. induction Hd as [|b data Hb _ IH]; intros low acc high -> Hh; cbn [adler_loop running sum foldr].
  - f_equal; [f_equal; lia|]. rewrite Z.add_0_r. symmetry. by apply Z.mod_small.
  - unfold AdlerModulo in *. unfold is_byte in Hb. rewrite (u32_id (acc mod 65521 + b)) by lia.
    assert (El : (if acc mod 65521 + b >=? 65521 then u32 (acc mod 65521 + b - 65521) else acc mod 65521 + b) = (acc + b) mod 65521).
    { rewrite Z.geb_leb. destruct (Z.leb_spec 65521 (acc mod 65521 + b)); [rewrite u32_id by lia|]; lia. }
    rewrite El, (u32_id (high + _)) by lia. rewrite (IH _ (acc + b)) by lia. unfold sum. f_equal; lia || (f_equal; lia).
Qed.
#[local] Ltac Zify.zify_post_hook ::= idtac.

(** C30. The CRC-32 of a byte string is, complemented and read from the other end,
    the remainder of the string as a polynomial by the generator of RFC 1952, and
    its Adler-32 the two sums of RFC 1950. *)
Theorem checksums_exact data : bytes data ->
  (exists r, remainder (dividend (to_bits data)) r /\ reflected (Z.lnot (ComputeCrc32 data)) r)
  /\ ComputeAdler32 data
     = 65536 * (sum (running 1 data) mod AdlerModulo) + (1 + sum data) mod AdlerModulo.
Proof.
  intros Hd. split.
  - destruct (crc_division (to_bits data)) as (r & Hr & Hrel & Hc). exists r. split; [done|]. unfold ComputeCrc32. rewrite crc_loop_bits by done.
    intros i Hi. rewrite Z.lnot_spec by lia. unfold u32. rewrite Z.mod_pow2_bits_low, Z.lnot_spec, negb_involutive by lia. by apply Hrel.
  - unfold ComputeAdler32. rewrite (adler_loop_spec data 1 1 0) by (done || unfold AdlerModulo; lia).
    rewrite Z.add_0_l, Z.shiftl_mul_pow2 by lia. assert (H1 : 0 <= (1 + sum data) mod AdlerModulo < 2 ^ 16) by (pose proof (Z.mod_pos_bound (1 + sum data) AdlerModulo); unfold AdlerModulo in *; lia).
    assert (H2 : 0 <= sum (running 1 data) mod AdlerModulo < 2 ^ 16) by (pose proof (Z.mod_pos_bound (sum (running 1 data)) AdlerModulo); unfold AdlerModulo in *; lia).
    rewrite u32_id by lia. rewrite <- (Z.shiftl_mul_pow2 _ 16), lor_shiftl by lia. lia.
Qed.
Lemma checksums_exact_witness :
  (exists r, remainder (dividend (to_bits [0x61; 0x62])) r /\ reflected (Z.lnot (ComputeCrc32 [0x61; 0x62])) r)
  /\ ComputeAdler32 [0x61; 0x62] = 65536 * (sum (running 1 [0x61; 0x62]) mod AdlerModulo) + (1 + sum [0x61; 0x62]) mod AdlerModulo.
Proof. apply (checksums_exact [0x61; 0x62]). by apply bytes_decide. Defined.
