(* ===== verification/DeflateContainers.v ===== *)
(** * The gzip and deflate content codings (codec/ContentCoding.cpp)

    The containers of RFC 1950 and RFC 1952 around a raw deflate stream, which the
    kernel decompresses ([RtlDecompressBufferEx], a parameter).  The decoders accept
    exactly the containers of the standards, with their checksums. *)

From S2P Require Import Prelude.
From S2P Require Import LittleEndian.
From S2P Require Import Checksums.

Definition GzipFlagHeaderCrc : Z := 0x02.
Definition GzipFlagExtra : Z := 0x04.
Definition GzipFlagName : Z := 0x08.
Definition GzipFlagComment : Z := 0x10.
Definition GzipReservedFlags : Z := 0xE0.

Definition SizeFitsUlong (value : Z) : bool := value <=? 0xFFFFFFFF.
Definition ReadBigEndian32 (data : list Z) : Z :=
  Z.lor (Z.lor (Z.lor (u32 (Z.shiftl (zget data 0) 24)) (u32 (Z.shiftl (zget data 1) 16))) (u32 (Z.shiftl (zget data 2) 8)))
    (zget data 3).

(** What the decoders ask the kernel: the status of [RtlGetCompressionWorkSpaceSize],
    whether the work space is allocated, and [RtlDecompressBufferEx] for deflate: the
    input and the capacity give a status and the bytes written. *)
Record DeflateRuntime := MkRuntime {
  rt_workspace : NTSTATUS;
  rt_allocated : bool;
  rt_decompress : list Z -> Z -> NTSTATUS * list Z;
}.

Section Decode.
Context (runtime : DeflateRuntime).
(** What [DeflateRuntimeAvailable] answers. *)
Context (available : bool).
Context (capacity : Z).

(** The status and the bytes at the destination, as many as [*decodedLength].  Where
    there is no destination the capacity is 0. *)
Definition DecodeRawDeflateUnchecked (compressed : span) : NTSTATUS * list Z :=
  match compressed with
  | Null _ => (STATUS_INVALID_PARAMETER, [])
  | Bytes compressed =>
      if negb (SizeFitsUlong (zlen compressed)) || negb (SizeFitsUlong capacity) then (STATUS_INVALID_PARAMETER, [])
      else if negb (NT_SUCCESS (rt_workspace runtime)) then (rt_workspace runtime, [])
      else if negb (rt_allocated runtime) then (STATUS_INSUFFICIENT_RESOURCES, [])
      else
        let '(status, output) := rt_decompress runtime compressed capacity in
        if bool_decide (status = STATUS_BUFFER_TOO_SMALL) then (status, [])
        else if negb (NT_SUCCESS status) then (STATUS_INVALID_NETWORK_RESPONSE, [])
        else (STATUS_SUCCESS, output)
  end.

Definition DecodeRawDeflate (compressed : span) : NTSTATUS * list Z :=
  if negb available then (STATUS_NOT_SUPPORTED, []) else DecodeRawDeflateUnchecked compressed.

(** ** deflate: with or without the container of zlib *)

Definition LooksLikeZlibHeader (data : list Z) : bool :=
  if zlen data <? 2 then false
  else
    let cmf := zget data 0 in
    let flg := zget data 1 in
    let header := Z.lor (Z.shiftl cmf 8) flg mod 2 ^ 16 in
    (Z.land cmf 0x0F =? 8) && (Z.shiftr cmf 4 <=? 7) && (Z.land flg 0x20 =? 0) && (header mod 31 =? 0).

Definition DecodeDeflate (compressed : span) : NTSTATUS * list Z :=
  match compressed with
  | Null _ => (STATUS_INVALID_PARAMETER, [])
  | Bytes data =>
      if LooksLikeZlibHeader data then
        if zlen data <? 6 then (STATUS_INVALID_NETWORK_RESPONSE, [])
        else
          let rawDeflateLength := zlen data -! 6 in
          let '(status, output) := DecodeRawDeflate (Bytes (zsub data 2 rawDeflateLength)) in
          if negb (NT_SUCCESS status) then (status, output)
          else
            let expectedAdler := ReadBigEndian32 (zdrop (zlen data -! 4) data) in
            if expectedAdler =? ComputeAdler32 output then (STATUS_SUCCESS, output) else (STATUS_INVALID_NETWORK_RESPONSE, output)
      else DecodeRawDeflate (Bytes data)
  end.

(** ** gzip *)

Fixpoint zero_loop (rest : list Z) (cursor : Z) : option Z :=
  match rest with
  | [] => None
  | ch :: rest => if ch =? 0 then Some (cursor +! 1) else zero_loop rest (cursor +! 1)
  end.
Definition SkipZeroTerminatedField (data : list Z) (cursor : Z) : option Z :=
  if cursor >=? zlen data then None else zero_loop (zdrop cursor data) cursor.

(** The cursor after the extra field. *)
Definition gzip_extra (data : list Z) (flags cursor : Z) : option Z :=
  if Z.land flags GzipFlagExtra =? 0 then Some cursor
  else if cursor +! 2 >? zlen data then None
  else
    let extraLength := Z.lor (zget data cursor) (u64 (Z.shiftl (zget data (cursor +! 1)) 8)) in
    let cursor := cursor +! 2 in
    if extraLength >? zlen data -! cursor then None else Some (cursor +! extraLength).
(** The cursor after the name, or after the comment. *)
Definition gzip_string (data : list Z) (flags flag cursor : Z) : option Z :=
  if Z.land flags flag =? 0 then Some cursor else SkipZeroTerminatedField data cursor.
(** The cursor after the checksum of the header. *)
Definition gzip_header_crc (data : list Z) (flags cursor : Z) : option Z :=
  if Z.land flags GzipFlagHeaderCrc =? 0 then Some cursor
  else if cursor +! 2 >? zlen data then None
  else
    let expectedHeaderCrc := Z.lor (zget data cursor) (Z.shiftl (zget data (cursor +! 1)) 8) mod 2 ^ 16 in
    let actualHeaderCrc := Z.land (ComputeCrc32 (ztake cursor data)) 0xFFFF in
    if negb (expectedHeaderCrc =? actualHeaderCrc) then None else Some (cursor +! 2).

Definition gzip_body (data : list Z) (cursor : Z) : NTSTATUS * list Z :=
  if cursor +! 8 >? zlen data then (STATUS_INVALID_NETWORK_RESPONSE, [])
  else
    let rawDeflateLength := zlen data -! cursor -! 8 in
    let '(status, output) := DecodeRawDeflate (Bytes (zsub data cursor rawDeflateLength)) in
    if negb (NT_SUCCESS status) then (status, output)
    else
      let expectedCrc := ReadLittleEndian32 (zdrop (zlen data -! 8) data) in
      let expectedSize := ReadLittleEndian32 (zdrop (zlen data -! 4) data) in
      if (zlen output >? 0xFFFFFFFF) || negb (expectedCrc =? ComputeCrc32 output) || negb (expectedSize =? u32 (zlen output))
      then (STATUS_INVALID_NETWORK_RESPONSE, output)
      else (STATUS_SUCCESS, output).

Definition DecodeGzip (compressed : span) : NTSTATUS * list Z :=
  match compressed with
  | Null _ => (STATUS_INVALID_PARAMETER, [])
  | Bytes data =>
      if (zlen data <? 18) || negb (zget data 0 =? 0x1F) || negb (zget data 1 =? 0x8B) || negb (zget data 2 =? 8)
         || negb (Z.land (zget data 3) GzipReservedFlags =? 0)
      then (STATUS_INVALID_NETWORK_RESPONSE, [])
      else
        let flags := zget data 3 in
        match cursor ← gzip_extra data flags 10;
              cursor ← gzip_string data flags GzipFlagName cursor;
              cursor ← gzip_string data flags GzipFlagComment cursor;
              gzip_header_crc data flags cursor with
        | None => (STATUS_INVALID_NETWORK_RESPONSE, [])
        | Some cursor => gzip_body data cursor
        end
  end.
End Decode.

(** ** The containers: RFC 1950 and RFC 1952 *)

Section Containers.
Context (runtime : DeflateRuntime) (available : bool) (capacity : Z).

(** The kernel decompresses [raw] to [output]. *)
Definition inflates (raw output : list Z) : Prop :=
  available = true /\ zlen raw <= 0xFFFFFFFF /\ capacity <= 0xFFFFFFFF /\ rt_workspace runtime = STATUS_SUCCESS
  /\ rt_allocated runtime = true /\ rt_decompress runtime raw capacity = (STATUS_SUCCESS, output).

Lemma DecodeRawDeflate_spec raw output : DecodeRawDeflate runtime available capacity (Bytes raw) = (STATUS_SUCCESS, output) <-> inflates raw output.
Proof.
  unfold DecodeRawDeflate, DecodeRawDeflateUnchecked, inflates, SizeFitsUlong. destruct available; cbn [negb]; [|by split; [|intros [? _]]].
  destruct (Z.leb_spec (zlen raw) 0xFFFFFFFF); cbn [negb orb]; [|split; [done|intros (_ & ? & _); lia]].
  destruct (Z.leb_spec capacity 0xFFFFFFFF); cbn [negb]; [|split; [done|intros (_ & _ & ? & _); lia]].
  destruct (NT_SUCCESS (rt_workspace runtime)) eqn:Ew; cbn [negb].
  2:{ split; [intros [= E _]; by rewrite E in Ew|intros (_ & _ & _ & E & _); by rewrite E in Ew]. }
  apply NT_SUCCESS_true in Ew. destruct (rt_allocated runtime); cbn [negb]; [|by split; [|intros (_ & _ & _ & _ & ? & _)]].
  destruct (rt_decompress runtime raw capacity) as [status out]. split.
  - case_bool_decide; [by intros [= -> _]|]. destruct (NT_SUCCESS status) eqn:Es; cbn [negb]; [|done]. apply NT_SUCCESS_true in Es. subst. intros [= <-]. by split_and!.
  - intros (_ & _ & _ & _ & _ & [= -> ->]). done.
Qed.
Lemma DecodeRawDeflate_failed raw : NT_SUCCESS (DecodeRawDeflate runtime available capacity raw).1 = false ->
  (DecodeRawDeflate runtime available capacity raw).1 <> STATUS_SUCCESS.
Proof. intros H E. by rewrite E in H. Qed.

Definition zlib_header (cmf flg : Z) : Prop :=
  cmf mod 16 = 8 /\ cmf / 16 <= 7 /\ Z.testbit flg 5 = false /\ (256 * cmf + flg) mod 31 = 0.
Definition zlib_headed (data : list Z) : Prop := exists cmf flg rest, data = cmf :: flg :: rest /\ zlib_header cmf flg.
(** The two bytes, the stream, and the Adler-32 of what it holds. *)
Definition zlib_stream (data raw output : list Z) : Prop :=
  exists cmf flg, data = cmf :: flg :: raw ++ be_put 4 (ComputeAdler32 output) /\ zlib_header cmf flg.

Definition flag (flags bit : Z) (part : list Z) (p : list Z -> Prop) : Prop :=
  if Z.testbit flags bit then p part else part = [].
Definition zero_terminated (l : list Z) : Prop := exists s, l = s ++ [0] /\ Forall (fun ch => ch <> 0) s.
Definition extra_field (l : list Z) : Prop := exists s, l = le_bytes 2 (zlen s) ++ s /\ zlen s < 2 ^ 16.
Definition gzip_header (header : list Z) : Prop :=
  exists flags six extra name comment crc, 0 <= flags < 32 /\ length six = 6%nat
  /\ flag flags 2 extra extra_field /\ flag flags 3 name zero_terminated /\ flag flags 4 comment zero_terminated
  /\ let checked := [0x1F; 0x8B; 8; flags] ++ six ++ extra ++ name ++ comment in
     flag flags 1 crc (fun crc => crc = le_bytes 2 (ComputeCrc32 checked)) /\ header = checked ++ crc.
(** One member: the header, the stream, and the CRC and the size of what it holds. *)
Definition gzip_member (data raw output : list Z) : Prop :=
  exists header, gzip_header header /\ zlen output < 2 ^ 32
  /\ data = header ++ raw ++ le_bytes 4 (ComputeCrc32 output) ++ le_bytes 4 (zlen output).
End Containers.

(** ** Numbers in the containers *)

Lemma le_bytes_iff n t v : bytes t -> length t = n -> 0 <= v < 256 ^ Z.of_nat n -> le_value t = v <-> t = le_bytes n v.
Proof.
  intros Ht Hn Hv. split.
  - intros <-. by rewrite <- Hn, le_bytes_value.
  - intros ->. rewrite le_value_bytes. by apply Z.mod_small.
Qed.
Lemma ReadLittleEndian32_iff t v : bytes t -> length t = 4%nat -> 0 <= v < 2 ^ 32 -> ReadLittleEndian32 t = v <-> t = le_bytes 4 v.
Proof.
  intros Ht Hn Hv. rewrite ReadLittleEndian32_value by (done || lia). rewrite take_ge by lia. by apply le_bytes_iff.
Qed.
Lemma lor_one_byte a b : is_byte a -> 0 <= b -> Z.lor a (Z.shiftl b 8) = a + 256 * b.
Proof. intros Ha Hb. rewrite Z.lor_comm, lor_shiftl by (unfold is_byte in Ha; lia). change (2 ^ 8) with 256. lia. Qed.
Lemma ReadBigEndian32_iff t v : bytes t -> length t = 4%nat -> 0 <= v < 2 ^ 32 -> ReadBigEndian32 t = v <-> t = be_put 4 v.
Proof.
  intros Ht Hn Hv. destruct t as [|a [|b [|c [|d [|e t]]]]]; cbn [length] in Hn; try lia.
  assert (Hz : zlen [a; b; c; d] = 4) by done. assert (E : ReadBigEndian32 [a; b; c; d] = be_get 0 [a; b; c; d]).
  { pose proof Ht as Ht'. do 4 (apply Forall_cons in Ht' as [? Ht']). unfold is_byte in *. cbn [be_get]. rewrite (be_get_step 0 a), Z.add_0_l by (unfold is_byte; lia).
    rewrite (be_get_step a b), (be_get_step _ c), (be_get_step _ d) by (unfold is_byte; lia). unfold ReadBigEndian32.
    change (zget [a; b; c; d] 0) with a. change (zget [a; b; c; d] 1) with b. change (zget [a; b; c; d] 2) with c. change (zget [a; b; c; d] 3) with d.
    rewrite !Z.shiftl_mul_pow2, !u32_id by lia. rewrite lor_disjoint by lia. replace (a * 2 ^ 24 + b * 2 ^ 16) with ((a * 256 + b) * 2 ^ 16) by lia.
    rewrite lor_disjoint by lia. replace ((a * 256 + b) * 2 ^ 16 + c * 2 ^ 8) with (((a * 256 + b) * 256 + c) * 2 ^ 8) by lia. rewrite lor_disjoint by lia. lia. }
  rewrite E. split.
  - intros <-. rewrite <- Hz at 1. by rewrite be_put_get.
  - intros ->. rewrite be_get_put by lia. by apply Z.mod_small.
Qed.

(** ** zlib *)

Lemma byte_zlib cmf flg : is_byte cmf -> is_byte flg ->
  (Z.land cmf 0x0F =? 8) && (Z.shiftr cmf 4 <=? 7) && (Z.land flg 0x20 =? 0) && (Z.lor (Z.shiftl cmf 8) flg mod 2 ^ 16 mod 31 =? 0) = true
  <-> zlib_header cmf flg.
Proof.
  intros Hc Hf. unfold zlib_header, is_byte in *. rewrite lor_shiftl by lia. rewrite (Z.mod_small (_ * _ + _)) by lia.
  change 0x0F with (2 ^ 4 - 1). rewrite land_ones_mod, Z.shiftr_div_pow2 by lia. change (2 ^ 4) with 16. change (2 ^ 8) with 256. rewrite (Z.mul_comm cmf).
  assert (E : (Z.land flg 0x20 =? 0) = negb (Z.testbit flg 5)).
  { pose proof (byte_cases (fun flg => Bool.eqb (Z.land flg 0x20 =? 0) (negb (Z.testbit flg 5))) ltac:(vm_compute; reflexivity) flg Hf) as E.
    by apply Bool.eqb_prop in E. }
  rewrite E, !andb_true_iff, negb_true_iff, !Z.eqb_eq, Z.leb_le. tauto.
Qed.
Lemma LooksLikeZlibHeader_spec data : bytes data -> LooksLikeZlibHeader data = true <-> zlib_headed data.
Proof.
  intros Hd. unfold LooksLikeZlibHeader, zlib_headed. destruct data as [|cmf [|flg rest]].
  - split; [done|by intros (? & ? & ? & ? & _)].
  - split; [done|by intros (? & ? & ? & ? & _)].
  - rewrite !zlen_cons. pose proof (zlen_nonneg rest). rewrite (proj2 (Z.ltb_ge _ _)) by lia.
    change (zget (cmf :: flg :: rest) 0) with cmf. change (zget (cmf :: flg :: rest) 1) with flg.
    apply Forall_cons in Hd as [Hc Hd]. apply Forall_cons in Hd as [Hf _]. cbv zeta. rewrite byte_zlib by done. split.
    + intros H'. by exists cmf, flg, rest.
    + by intros (c & f & r & [= <- <- <-] & Hz).
Qed.

Lemma tail_split (data : list Z) n : 0 <= n <= zlen data -> exists a t, data = a ++ t /\ zlen t = n /\ zdrop (zlen data - n) data = t /\ ztake (zlen data - n) data = a.
Proof.
  intros Hn. exists (ztake (zlen data - n) data), (zdrop (zlen data - n) data). rewrite ztake_zdrop, zlen_zdrop by lia. split_and!; (done || lia).
Qed.
Lemma adler_loop_low data low high : 0 <= low < 2 ^ 32 -> 0 <= (adler_loop data low high).1 < 2 ^ 32.
Proof.
  revert low high. induction data as [|b data IH]; intros low high Hl; [done|]. cbn [adler_loop]. apply IH. cbv zeta. case_if; apply u32_range.
Qed.
Lemma ComputeAdler32_range data : 0 <= ComputeAdler32 data < 2 ^ 32.
Proof.
  unfold ComputeAdler32. pose proof (adler_loop_low data 1 0 ltac:(lia)) as Hl. destruct (adler_loop data 1 0) as [low high]. cbn [fst] in Hl.
  split; [apply Z.lor_nonneg; split; [apply u32_range|lia]|].
  apply Z.log2_lt_cancel. rewrite Z.log2_lor by (apply u32_range || lia). change (Z.log2 (2 ^ 32)) with 32.
  pose proof (u32_range (Z.shiftl high 16)). assert (Hlog : forall x, 0 <= x < 2 ^ 32 -> Z.log2 x < 32).
  { intros x Hx. destruct (Z.eq_dec x 0) as [-> |]; [done|]. apply Z.log2_lt_pow2; lia. }
  apply Z.max_lub_lt; by apply Hlog.
Qed.
Lemma ComputeCrc32_range data : 0 <= ComputeCrc32 data < 2 ^ 32.
Proof. apply u32_range. Qed.

Section Zlib.
Context (runtime : DeflateRuntime) (available : bool) (capacity : Z).
Abbreviation inflate := (inflates runtime available capacity).

Lemma DecodeDeflate_spec data output : bytes data -> zlen data < 2 ^ 60 ->
  DecodeDeflate runtime available capacity (Bytes data) = (STATUS_SUCCESS, output)
  <-> (exists raw, zlib_stream data raw output /\ inflate raw output) \/ ~ zlib_headed data /\ inflate data output.
Proof.
  intros Hd Hl. unfold DecodeDeflate. pose proof (LooksLikeZlibHeader_spec data Hd) as Hlook. destruct (LooksLikeZlibHeader data).
  2:{ rewrite DecodeRawDeflate_spec. split; [intros H; right; split; [intros Hz; apply Hlook in Hz; done|done]|].
      intros [(raw & (cmf & flg & -> & Hz) & _)|[_ H]]; [|done]. exfalso. assert (Hh : zlib_headed (cmf :: flg :: raw ++ be_put 4 (ComputeAdler32 output))) by (by exists cmf, flg, (raw ++ be_put 4 (ComputeAdler32 output))).
      by apply Hlook in Hh. }
  destruct (proj1 Hlook eq_refl) as (cmf & flg & rest & -> & Hz). rewrite !zlen_cons in *. pose proof (zlen_nonneg rest).
  apply Forall_cons in Hd as [Hc Hd]. apply Forall_cons in Hd as [Hf Hd].
  destruct (Z.ltb_spec (1 + (1 + zlen rest)) 6) as [Hshort|Hlong].
  { split; [done|]. intros [(raw & (c & f & [= _ _ E] & _) & _)|[Hno _]]; [|exfalso; by apply Hno, Hlook].
    apply (f_equal zlen) in E. rewrite zlen_app, be_put_len in E by lia. pose proof (zlen_nonneg raw). lia. }
  destruct (tail_split rest 4 ltac:(lia)) as (raw & t & -> & Ht & _ & _). rewrite zlen_app, Ht in *.
  replace (1 + (1 + (zlen raw + 4)) - 6) with (zlen raw) by lia. rewrite (u64_id (zlen raw)), (u64_id (_ - 4)) by lia.
  replace (zsub (cmf :: flg :: raw ++ t) 2 (zlen raw)) with raw by (symmetry; apply (zsub_at [cmf; flg] raw t)).
  replace (zdrop (1 + (1 + (zlen raw + 4)) - 4) (cmf :: flg :: raw ++ t)) with t.
  2:{ replace (1 + (1 + (zlen raw + 4)) - 4) with (zlen (cmf :: flg :: raw)) by (rewrite !zlen_cons; lia).
      symmetry. apply (zdrop_app_len (cmf :: flg :: raw) t). }
  apply Forall_app in Hd as [_ Hbt]. assert (Hlt : length t = 4%nat) by (unfold zlen in Ht; lia).
  transitivity (inflate raw output /\ t = be_put 4 (ComputeAdler32 output)).
  - rewrite <- DecodeRawDeflate_spec, <- ReadBigEndian32_iff by (done || apply ComputeAdler32_range).
    destruct (DecodeRawDeflate _ _ _ (Bytes raw)) as [status out]. destruct (NT_SUCCESS status) eqn:Es; cbn [negb].
    + apply NT_SUCCESS_true in Es. subst status. destruct (Z.eqb_spec (ReadBigEndian32 t) (ComputeAdler32 out)) as [E|E].
      * split; [by intros [= <-]|by intros [[= <-] _]].
      * split; [done|]. by intros [[= <-] ?].
    + split; [by intros [= -> _]|by intros [[= -> _] _]].
  - split.
    + intros [Hi ->]. left. exists raw. split; [by exists cmf, flg|done].
    + intros [(raw' & (c & f & [= <- <- E] & _) & Hi)|[Hno _]]; [|exfalso; by apply Hno, Hlook].
      apply app_inj_2 in E as [-> ->]; [done|]. rewrite Hlt. unfold be_put. by rewrite be_put_loop_len.
Qed.
End Zlib.

(** ** The fields of a gzip header *)

Lemma land_flag flags bit : is_byte flags -> 0 <= bit < 8 -> (Z.land flags (2 ^ bit) =? 0) = negb (Z.testbit flags bit).
Proof.
  intros Hf Hb. assert (Hc : forall b, is_byte b -> forallb (fun bit => Bool.eqb (Z.land b (2 ^ bit) =? 0) (negb (Z.testbit b bit))) (seqZ 0 8) = true).
  { apply (byte_cases (fun b => forallb (fun bit => Bool.eqb (Z.land b (2 ^ bit) =? 0) (negb (Z.testbit b bit))) (seqZ 0 8))). vm_compute. reflexivity. }
  specialize (Hc flags Hf). rewrite List.forallb_forall in Hc. apply Bool.eqb_prop, Hc, list_elem_of_In, elem_of_seqZ. lia.
Qed.

(** What a step of the header does: from the end of [a], over a part of [r]. *)
Definition steps (step : option Z) (a r : list Z) (part : list Z -> Prop) : Prop :=
  forall cursor, step = Some cursor <-> exists p r', r = p ++ r' /\ part p /\ cursor = zlen (a ++ p).

Lemma steps_none a r part : (forall p r', r = p ++ r' -> ~ part p) -> steps None a r part.
Proof. intros H cursor. split; [done|]. intros (p & r' & E & Hp & _). by destruct (H p r' E). Qed.
Lemma steps_some a p r (part : list Z -> Prop) :
  part p -> (forall p' r', p ++ r = p' ++ r' -> part p' -> p' = p) -> steps (Some (zlen (a ++ p))) a (p ++ r) part.
Proof.
  intros Hp Hu cursor. split.
  - intros [= <-]. by exists p, r.
  - intros (p' & r' & E & Hp' & ->). by rewrite (Hu p' r' E Hp').
Qed.
Lemma steps_flag flags bit step a r (part : list Z -> Prop) : is_byte flags -> 0 <= bit < 8 -> steps step a r part ->
  steps (if Z.land flags (2 ^ bit) =? 0 then Some (zlen a) else step) a r (fun p => flag flags bit p part).
Proof.
  intros Hf Hb Hs. rewrite land_flag by done. unfold flag. destruct (Z.testbit flags bit); cbn [negb]; [done|].
  intros cursor. split; [intros [= <-]; exists [], r; by rewrite app_nil_r|]. intros (p & r' & _ & -> & ->). by rewrite app_nil_r.
Qed.

Lemma bytes_2 x y : 0 <= x < 256 -> 0 <= y < 256 -> bytes [x; y].
Proof. intros Hx Hy. repeat (apply Forall_cons; split; [done|]). apply Forall_nil_2. Qed.

Section Fields.
Context (a r : list Z).
Hypothesis Hbytes : bytes (a ++ r).
Hypothesis Hlen : zlen (a ++ r) < 2 ^ 60.


Lemma extra_steps flags : is_byte flags -> steps (gzip_extra (a ++ r) flags (zlen a)) a r (fun p => flag flags 2 p extra_field).
Proof using Hbytes Hlen.
  intros Hf. unfold gzip_extra. change GzipFlagExtra with (2 ^ 2). apply steps_flag; [done|lia|].
  pose proof (zlen_nonneg a). pose proof (zlen_nonneg r). rewrite zlen_app in Hlen.
  rewrite zlen_app, (u64_id (zlen a + 2)) by lia. apply Forall_app in Hbytes as [_ Hr].
  destruct (Z.gtb_spec (zlen a + 2) (zlen a + zlen r)) as [Hs|Hs].
  { apply steps_none. intros p r' E (s & -> & _). rewrite E, !zlen_app in Hs. pose proof (zlen_nonneg s). pose proof (zlen_nonneg r').
    assert (zlen (le_bytes 2 (zlen s)) = 2) by (unfold zlen; by rewrite le_bytes_length). lia. }
  destruct r as [|x [|y r0]]; [change (zlen []) with 0 in *; lia|change (zlen [x]) with 1 in *; lia|].
  apply Forall_cons in Hr as [Hx Hr]. apply Forall_cons in Hr as [Hy Hr]. rewrite !zlen_cons in *.
  rewrite zget_app_r by lia. rewrite Z.sub_diag, zget_0. rewrite (u64_id (zlen a + 1)), zget_app_r by lia.
  replace (zlen a + 1 - zlen a) with 1 by lia. change (zget (x :: y :: r0) 1) with y. pose proof (zlen_nonneg r0).
  unfold is_byte in Hx, Hy. rewrite (u64_id (Z.shiftl y 8)) by (rewrite Z.shiftl_mul_pow2 by lia; lia). rewrite lor_one_byte by (unfold is_byte; lia).
  rewrite (u64_id (_ - _)) by lia.
  assert (Ele : forall s r', x :: y :: r0 = (le_bytes 2 (zlen s) ++ s) ++ r' -> zlen s < 2 ^ 16 -> zlen s = x + 256 * y /\ r0 = s ++ r').
  { intros s r' E Hz. rewrite <- app_assoc in E. change (x :: y :: r0) with ([x; y] ++ r0) in E. apply app_inj_1 in E as [E ->]; [|by rewrite le_bytes_length].
    split; [|done]. apply (le_bytes_iff 2 [x; y] (zlen s)) in E; [cbn [le_value] in E; lia| |done|change (256 ^ Z.of_nat 2) with (2 ^ 16); pose proof (zlen_nonneg s); lia].
    by apply bytes_2. }
  destruct (Z.gtb_spec (x + 256 * y) (zlen a + (1 + (1 + zlen r0)) - (zlen a + 2))) as [Hx'|Hx'].
  { apply steps_none. intros p r' E (s & -> & Hz). destruct (Ele s r' E Hz) as [Es ->]. rewrite zlen_app in Hx'. pose proof (zlen_nonneg r'). lia. }
  rewrite (u64_id (zlen a + 2 + _)) by lia. set (s := ztake (x + 256 * y) r0).
  assert (Hs' : zlen s = x + 256 * y) by (apply zlen_ztake; lia).
  assert (Eb : [x; y] = le_bytes 2 (zlen s)).
  { apply le_bytes_iff; [by apply bytes_2|done|rewrite Hs'; change (256 ^ Z.of_nat 2) with (2 ^ 16); lia|]. rewrite Hs'. cbn [le_value]. lia. }
  replace (x :: y :: r0) with ((le_bytes 2 (zlen s) ++ s) ++ zdrop (x + 256 * y) r0).
  2:{ rewrite <- Eb, <- app_assoc. unfold s. by rewrite ztake_zdrop. }
  replace (zlen a + 2 + (x + 256 * y)) with (zlen (a ++ le_bytes 2 (zlen s) ++ s)).
  2:{ rewrite !zlen_app, <- Eb, Hs'. change (zlen [x; y]) with 2. lia. }
  apply steps_some.
  - exists s. split; [done|]. rewrite Hs'. lia.
  - intros p' r' E (s' & -> & Hz). rewrite <- Eb, <- app_assoc in E at 1. cbn [app] in E. unfold s in E. rewrite ztake_zdrop in E.
    destruct (Ele s' r' E Hz) as [Es' Er']. assert (s' = s) as ->; [|done]. unfold s. rewrite <- Es', Er'. by rewrite ztake_app_len.
Qed.

Lemma zero_loop_spec rest cursor c' : 0 <= cursor -> cursor + zlen rest < 2 ^ 60 ->
  zero_loop rest cursor = Some c' <-> exists s r', rest = s ++ 0 :: r' /\ Forall (fun ch => ch <> 0) s /\ c' = cursor + zlen s + 1.
Proof using.
  clear. revert cursor. induction rest as [|ch rest IH]; intros cursor Hc Hl; cbn [zero_loop].
  { split; [done|]. by intros (s & r' & E & _); destruct s. }
  rewrite zlen_cons in Hl. pose proof (zlen_nonneg rest). rewrite (u64_id (cursor + 1)) by lia. destruct (Z.eqb_spec ch 0) as [-> |Hne].
  - split; [intros [= <-]; exists [], rest; change (zlen []) with 0; split_and!; [done|apply Forall_nil_2|lia]|].
    intros (s & r' & E & Hs & ->). destruct s as [|x s]; [change (zlen []) with 0; f_equal; lia|]. injection E as <- _. by apply Forall_inv in Hs.
  - rewrite IH by lia. split.
    + intros (s & r' & -> & Hs & ->). exists (ch :: s), r'. rewrite zlen_cons. split_and!; [done|by constructor|lia].
    + intros (s & r' & E & Hs & ->). destruct s as [|x s]; [by injection E|]. injection E as <- ->. exists s, r'. rewrite zlen_cons.
      split_and!; [done|by apply Forall_inv_tail in Hs|lia].
Qed.
Lemma string_steps flags bit : is_byte flags -> 0 <= bit < 8 ->
  steps (gzip_string (a ++ r) flags (2 ^ bit) (zlen a)) a r (fun p => flag flags bit p zero_terminated).
Proof using Hbytes Hlen.
  intros Hf Hb. unfold gzip_string. apply steps_flag; [done|done|]. unfold SkipZeroTerminatedField. rewrite zlen_app in *. pose proof (zlen_nonneg a). rewrite Z.geb_leb.
  destruct (Z.leb_spec (zlen a + zlen r) (zlen a)) as [Hs|Hs].
  { apply steps_none. intros p r' E (s & -> & _). rewrite E, !zlen_app in Hs. change (zlen [0]) with 1 in Hs. pose proof (zlen_nonneg s). pose proof (zlen_nonneg r'). lia. }
  rewrite zdrop_app_len. intros cursor. rewrite zero_loop_spec by lia. split.
  - intros (s & r' & -> & Hs' & ->). exists (s ++ [0]), r'. rewrite !zlen_app. change (zlen [0]) with 1. split_and!; [by rewrite <- app_assoc|by exists s|lia].
  - intros (p & r' & -> & (s & -> & Hs') & ->). exists s, r'. rewrite !zlen_app. change (zlen [0]) with 1. split_and!; [by rewrite <- app_assoc|done|lia].
Qed.

Lemma crc_steps flags : is_byte flags ->
  steps (gzip_header_crc (a ++ r) flags (zlen a)) a r (fun p => flag flags 1 p (fun crc => crc = le_bytes 2 (ComputeCrc32 a))).
Proof using Hbytes Hlen.
  intros Hf. unfold gzip_header_crc. change GzipFlagHeaderCrc with (2 ^ 1). apply steps_flag; [done|lia|]. pose proof (zlen_nonneg a). pose proof (zlen_nonneg r). rewrite zlen_app in Hlen.
  rewrite zlen_app, (u64_id (zlen a + 2)) by lia. apply Forall_app in Hbytes as [_ Hr].
  destruct (Z.gtb_spec (zlen a + 2) (zlen a + zlen r)) as [Hs|Hs].
  { apply steps_none. intros p r' E ->. rewrite E, zlen_app in Hs. pose proof (zlen_nonneg r').
    assert (zlen (le_bytes 2 (ComputeCrc32 a)) = 2) by (unfold zlen; by rewrite le_bytes_length). lia. }
  destruct r as [|x [|y r0]]; [change (zlen []) with 0 in *; lia|change (zlen [x]) with 1 in *; lia|].
  apply Forall_cons in Hr as [Hx Hr]. apply Forall_cons in Hr as [Hy Hr]. rewrite !zlen_cons in *. pose proof (zlen_nonneg r0).
  rewrite zget_app_r by lia. rewrite Z.sub_diag, zget_0. rewrite (u64_id (zlen a + 1)), zget_app_r by lia.
  replace (zlen a + 1 - zlen a) with 1 by lia. change (zget (x :: y :: r0) 1) with y. unfold is_byte in Hx, Hy.
  rewrite lor_one_byte by (unfold is_byte; lia). rewrite (Z.mod_small (x + 256 * y)) by lia. rewrite ztake_app_len.
  change 0xFFFF with (2 ^ 16 - 1). rewrite land_ones_mod by lia.
  assert (Eiff : x + 256 * y = ComputeCrc32 a mod 2 ^ 16 <-> [x; y] = le_bytes 2 (ComputeCrc32 a)).
  { rewrite <- (le_bytes_mod 2). change (256 ^ Z.of_nat 2) with (2 ^ 16). rewrite <- le_bytes_iff; [cbn [le_value]; split; lia|by apply bytes_2|done|].
    change (256 ^ Z.of_nat 2) with (2 ^ 16). apply Z.mod_pos_bound. lia. }
  destruct (Z.eqb_spec (x + 256 * y) (ComputeCrc32 a mod 2 ^ 16)) as [E|E]; cbn [negb].
  - apply Eiff in E. replace (zlen a + 2) with (zlen (a ++ le_bytes 2 (ComputeCrc32 a))) by (rewrite zlen_app, <- E; done).
    change (x :: y :: r0) with ([x; y] ++ r0). rewrite E. apply steps_some; [done|]. by intros p' r' _ ->.
  - apply steps_none. intros p r' Ep ->. apply E, Eiff. change (x :: y :: r0) with ([x; y] ++ r0) in Ep.
    apply app_inj_1 in Ep as [Ep _]; [done|by rewrite le_bytes_length].
Qed.
End Fields.

(** ** The whole member *)

Lemma steps_bind a r step (f : Z -> option Z) part cursor : steps step a r part ->
  step ≫= f = Some cursor
  <-> exists p r', r = p ++ r' /\ part p /\ f (zlen (a ++ p)) = Some cursor.
Proof.
  intros Hs. split.
  - destruct step as [c|]; [|done]. cbn. intros Hf. destruct (proj1 (Hs c) eq_refl) as (p & r' & -> & Hp & ->). by exists p, r'.
  - intros (p & r' & -> & Hp & Hf). rewrite (proj2 (Hs (zlen (a ++ p)))); [exact Hf|]. by exists p, r'.
Qed.
(** The bytes before the cursor are what the fields were read from. *)
Definition header_fields (flags : Z) (start r fields rest : list Z) : Prop :=
  exists extra name comment crc, r = (extra ++ name ++ comment ++ crc) ++ rest /\ fields = extra ++ name ++ comment ++ crc
  /\ flag flags 2 extra extra_field /\ flag flags 3 name zero_terminated /\ flag flags 4 comment zero_terminated
  /\ flag flags 1 crc (fun crc => crc = le_bytes 2 (ComputeCrc32 (start ++ extra ++ name ++ comment))).

Lemma fields_spec flags start r cursor : is_byte flags -> bytes (start ++ r) -> zlen (start ++ r) < 2 ^ 60 ->
  (cursor ← gzip_extra (start ++ r) flags (zlen start);
   cursor ← gzip_string (start ++ r) flags GzipFlagName cursor;
   cursor ← gzip_string (start ++ r) flags GzipFlagComment cursor;
   gzip_header_crc (start ++ r) flags cursor) = Some cursor
  <-> exists fields rest, header_fields flags start r fields rest /\ cursor = zlen (start ++ fields).
Proof.
  intros Hf Hb Hl. rewrite (steps_bind start r) by (by apply extra_steps).
  change GzipFlagName with (2 ^ 3). change GzipFlagComment with (2 ^ 4).
  assert (Hassoc : forall a p r' : list Z, (a ++ p) ++ r' = a ++ p ++ r') by (intros; by rewrite <- app_assoc).
  split.
  - intros (extra & r1 & -> & He & H). rewrite <- Hassoc in *.
    apply (steps_bind _ _ _ _ _ _ (string_steps (start ++ extra) r1 Hb Hl flags 3 Hf ltac:(lia))) in H as (name & r2 & -> & Hn & H). rewrite <- Hassoc in *.
    apply (steps_bind _ _ _ _ _ _ (string_steps ((start ++ extra) ++ name) r2 Hb Hl flags 4 Hf ltac:(lia))) in H as (comment & r3 & -> & Hc & H). rewrite <- Hassoc in *.
    apply (crc_steps (((start ++ extra) ++ name) ++ comment) r3 Hb Hl flags Hf) in H as (crc & rest & -> & Hcrc & ->).
    rewrite !Hassoc in Hcrc. exists (extra ++ name ++ comment ++ crc), rest. split; [|by rewrite !Hassoc].
    exists extra, name, comment, crc. rewrite !Hassoc. by split_and!.
  - intros (fields & rest & (extra & name & comment & crc & -> & -> & He & Hn & Hc & Hcrc) & ->). rewrite !Hassoc in *.
    exists extra, (name ++ comment ++ crc ++ rest). split_and!; [done|done|]. rewrite <- (Hassoc start) in *.
    apply (steps_bind _ _ _ _ _ _ (string_steps (start ++ extra) (name ++ comment ++ crc ++ rest) Hb Hl flags 3 Hf ltac:(lia))).
    exists name, (comment ++ crc ++ rest). split_and!; [done|done|]. rewrite <- (Hassoc (start ++ extra)) in *.
    apply (steps_bind _ _ _ _ _ _ (string_steps ((start ++ extra) ++ name) (comment ++ crc ++ rest) Hb Hl flags 4 Hf ltac:(lia))).
    exists comment, (crc ++ rest). split_and!; [done|done|]. rewrite <- (Hassoc ((start ++ extra) ++ name)) in *.
    apply (crc_steps (((start ++ extra) ++ name) ++ comment) (crc ++ rest) Hb Hl flags Hf). exists crc, rest. split_and!; [done|exact Hcrc|by rewrite !Hassoc].
Qed.

Section Gzip.
Context (runtime : DeflateRuntime) (available : bool) (capacity : Z).
Abbreviation inflate := (inflates runtime available capacity).

Lemma gzip_body_spec before rest output : bytes (before ++ rest) -> zlen (before ++ rest) < 2 ^ 60 ->
  gzip_body runtime available capacity (before ++ rest) (zlen before) = (STATUS_SUCCESS, output)
  <-> exists raw, rest = raw ++ le_bytes 4 (ComputeCrc32 output) ++ le_bytes 4 (zlen output) /\ zlen output < 2 ^ 32 /\ inflate raw output.
Proof.
  intros Hb Hl. unfold gzip_body. pose proof (zlen_nonneg before). pose proof (zlen_nonneg rest). rewrite zlen_app in *.
  rewrite (u64_id (zlen before + 8)) by lia.
  assert (H4 : forall v, zlen (le_bytes 4 v) = 4) by (intros v; unfold zlen; by rewrite le_bytes_length).
  destruct (Z.gtb_spec (zlen before + 8) (zlen before + zlen rest)) as [Hs|Hs].
  { split; [done|]. intros (raw & -> & _). rewrite !zlen_app, !H4 in Hs. pose proof (zlen_nonneg raw). lia. }
  apply Forall_app in Hb as [_ Hb]. destruct (tail_split rest 4 ltac:(lia)) as (r1 & t2 & -> & Ht2 & _). rewrite zlen_app, Ht2 in *.
  destruct (tail_split r1 4 ltac:(lia)) as (raw & t1 & -> & Ht1 & _). rewrite zlen_app, Ht1 in *. rewrite <- app_assoc in *.
  rewrite (u64_id (zlen before + (zlen raw + 4 + 4) - zlen before)), (u64_id (_ - 8)), (u64_id (_ - 8)), (u64_id (_ - 4)) by (rewrite ?u64_id by lia; lia).
  replace (zlen before + (zlen raw + 4 + 4) - zlen before - 8) with (zlen raw) by lia. rewrite zsub_at.
  replace (zdrop (zlen before + (zlen raw + 4 + 4) - 8) (before ++ raw ++ t1 ++ t2)) with (t1 ++ t2).
  2:{ replace (zlen before + (zlen raw + 4 + 4) - 8) with (zlen (before ++ raw)) by (rewrite zlen_app; lia). by rewrite app_assoc, zdrop_app_len. }
  replace (zdrop (zlen before + (zlen raw + 4 + 4) - 4) (before ++ raw ++ t1 ++ t2)) with t2.
  2:{ replace (zlen before + (zlen raw + 4 + 4) - 4) with (zlen (before ++ raw ++ t1)) by (rewrite !zlen_app; lia).
      replace (before ++ raw ++ t1 ++ t2) with ((before ++ raw ++ t1) ++ t2) by (by rewrite <- !app_assoc). by rewrite zdrop_app_len. }
  rewrite !Forall_app in Hb. destruct Hb as (_ & Hb1 & Hb2). assert (Hn1 : length t1 = 4%nat) by (unfold zlen in Ht1; lia). assert (Hn2 : length t2 = 4%nat) by (unfold zlen in Ht2; lia).
  assert (Er : ReadLittleEndian32 (t1 ++ t2) = ReadLittleEndian32 t1).
  { rewrite !ReadLittleEndian32_value by (try (apply Forall_app; by split); rewrite ?length_app; done || lia). by rewrite take_app_le by lia. }
  rewrite Er. transitivity (inflate raw output /\ zlen output < 2 ^ 32 /\ t1 = le_bytes 4 (ComputeCrc32 output) /\ t2 = le_bytes 4 (zlen output)).
  - rewrite <- DecodeRawDeflate_spec. destruct (DecodeRawDeflate _ _ _ (Bytes raw)) as [status out]. pose proof (zlen_nonneg out). destruct (NT_SUCCESS status) eqn:Es; cbn [negb].
    2:{ split; [by intros [= -> _]|by intros [[= -> _] _]]. }
    apply NT_SUCCESS_true in Es. subst status. destruct (Z.gtb_spec (zlen out) 0xFFFFFFFF) as [Hbig|Hbig]; cbn [orb].
    { split; [done|]. intros ([= <-] & ? & _). lia. }
    rewrite (u32_id (zlen out)) by lia. assert (Hsucc : zlen out < 2 ^ 32) by lia.
    pose proof (ReadLittleEndian32_iff t1 _ Hb1 Hn1 (ComputeCrc32_range out)) as I1. pose proof (ReadLittleEndian32_iff t2 (zlen out) Hb2 Hn2 ltac:(lia)) as I2.
    destruct (Z.eqb_spec (ReadLittleEndian32 t1) (ComputeCrc32 out)) as [E1|E1]; cbn [negb orb].
    + destruct (Z.eqb_spec (ReadLittleEndian32 t2) (zlen out)) as [E2|E2]; cbn [negb].
      * split; [intros [= <-]; split_and!; [done|done|by apply I1|by apply I2]|by intros ([= <-] & _)].
      * split; [done|]. intros ([= <-] & _ & _ & E). destruct E2. by apply I2.
    + split; [done|]. intros ([= <-] & _ & E & _). destruct E1. by apply I1.
  - split.
    + intros (Hi & Hz & -> & ->). by exists raw.
    + intros (raw' & E & Hz & Hi). rewrite !(app_assoc raw), !(app_assoc raw') in E. apply app_inj_2 in E as [E ->]; [|by rewrite le_bytes_length].
      apply app_inj_2 in E as [-> ->]; [done|by rewrite le_bytes_length].
Qed.

(** The bytes that [DecodeGzip] looks at first. *)
Definition gzip_magic (data : list Z) : bool :=
  negb ((zlen data <? 18) || negb (zget data 0 =? 0x1F) || negb (zget data 1 =? 0x8B) || negb (zget data 2 =? 8)
        || negb (Z.land (zget data 3) GzipReservedFlags =? 0)).
Lemma flags_reserved flags : is_byte flags -> (Z.land flags GzipReservedFlags =? 0) = (flags <? 32).
Proof.
  intros Hf. apply Bool.eqb_prop. apply (byte_cases (fun b => Bool.eqb (Z.land b GzipReservedFlags =? 0) (b <? 32))); [vm_compute; reflexivity|done].
Qed.
Lemma gzip_magic_spec data : bytes data ->
  gzip_magic data = true <-> exists flags six rest, data = ([0x1F; 0x8B; 8; flags] ++ six) ++ rest /\ 0 <= flags < 32 /\ length six = 6%nat /\ 8 <= zlen rest.
Proof.
  intros Hb. unfold gzip_magic. rewrite negb_true_iff, !orb_false_iff, !negb_false_iff, Z.ltb_ge, !Z.eqb_eq. split.
  - intros ((((Hl & E0) & E1) & E2) & E3). destruct data as [|a0 [|a1 [|a2 [|flags data]]]]; try (by vm_compute in Hl; destruct Hl).
    change (zget _ 0) with a0 in E0. change (zget _ 1) with a1 in E1. change (zget _ 2) with a2 in E2. change (zget _ 3) with flags in E3. subst.
    do 4 (apply Forall_cons in Hb as [? Hb]). apply Z.eqb_eq in E3. rewrite flags_reserved in E3 by done. apply Z.ltb_lt in E3.
    rewrite !zlen_cons in Hl. exists flags, (ztake 6 data), (zdrop 6 data). rewrite <- app_assoc, ztake_zdrop, zlen_zdrop by lia.
    unfold is_byte in *. split_and!; [done|lia|lia| |lia]. assert (E6 : zlen (ztake 6 data) = 6) by (apply zlen_ztake; lia). unfold zlen in E6. lia.
  - intros (flags & six & rest & -> & Hf & Hs & Hr). rewrite !zlen_app, <- !app_assoc. cbn [app].
    change (zget _ 0) with 0x1F. change (zget _ 1) with 0x8B. change (zget _ 2) with 8. change (zget _ 3) with flags.
    assert (E6 : zlen six = 6) by (unfold zlen; lia). rewrite E6. change (zlen [0x1F; 0x8B; 8; flags]) with 4. split_and!; try done; [lia|].
    apply Z.eqb_eq. rewrite flags_reserved by (unfold is_byte; lia). apply Z.ltb_lt; lia.
Qed.

Lemma DecodeGzip_spec data output : bytes data -> zlen data < 2 ^ 60 ->
  DecodeGzip runtime available capacity (Bytes data) = (STATUS_SUCCESS, output) <-> exists raw, gzip_member data raw output /\ inflate raw output.
Proof.
  intros Hb Hl.
  assert (H4 : forall v, zlen (le_bytes 4 v) = 4) by (intros v; unfold zlen; by rewrite le_bytes_length).
  assert (Hmagic : forall raw, gzip_member data raw output -> gzip_magic data = true).
  { intros raw (header & (flags & six & extra & name & comment & crc & Hf & Hsix & _ & _ & _ & _ & ->) & _ & E). apply gzip_magic_spec; [done|].
    exists flags, six, (extra ++ name ++ comment ++ crc ++ raw ++ le_bytes 4 (ComputeCrc32 output) ++ le_bytes 4 (zlen output)).
    split_and!; [by rewrite E, <- !app_assoc|lia|lia|done|]. rewrite !zlen_app, !H4. pose proof (zlen_nonneg raw).
    pose proof (zlen_nonneg extra). pose proof (zlen_nonneg name). pose proof (zlen_nonneg comment). pose proof (zlen_nonneg crc). lia. }
  unfold DecodeGzip. replace (_ || negb (Z.land (zget data 3) GzipReservedFlags =? 0)) with (negb (gzip_magic data)) by apply negb_involutive.
  destruct (gzip_magic data) eqn:Em; cbn [negb]; [clear Hmagic|split; [done|intros (raw & Hm & _); by apply Hmagic in Hm]].
  apply gzip_magic_spec in Em as (flags & six & rest & -> & Hf & Hsix & _); [|done].
  assert (E10 : 10 = zlen ([0x1F; 0x8B; 8; flags] ++ six)) by (rewrite zlen_app; unfold zlen at 2; rewrite Hsix; done).
  change (zget (([0x1F; 0x8B; 8; flags] ++ six) ++ rest) 3) with flags. set (start := [0x1F; 0x8B; 8; flags] ++ six) in *. rewrite E10.
  assert (Hflags : is_byte flags) by (unfold is_byte; lia). pose proof (fields_spec flags start rest) as HF. cbv zeta.
  transitivity (exists fields r, header_fields flags start rest fields r
    /\ gzip_body runtime available capacity (start ++ rest) (zlen (start ++ fields)) = (STATUS_SUCCESS, output)).
  - destruct (_ ≫= _) as [cursor|]; specialize (fun c => HF c Hflags Hb Hl); (split; [|intros (fields & r & Hfields & Hg);
      pose proof (proj2 (HF (zlen (start ++ fields))) (ex_intro _ fields (ex_intro _ r (conj Hfields eq_refl)))) as Ec]).
    + intros Hg. destruct (proj1 (HF cursor) eq_refl) as (fields & r & Hfields & ->). by exists fields, r.
    + by injection Ec as ->.
    + done.
    + done.
  - clear HF. split.
    + intros (fields & r & (extra & name & comment & crc & -> & -> & He & Hn & Hc & Hcrc) & Hg). rewrite (app_assoc start) in Hb, Hl, Hg.
      apply gzip_body_spec in Hg as (raw & -> & Hz & Hi); [|done|done]. exists raw. split; [|done].
      exists (start ++ extra ++ name ++ comment ++ crc). split; [|split; [done|by rewrite <- !app_assoc]].
      exists flags, six, extra, name, comment, crc. cbv zeta. split_and!; try (done || lia); unfold start in *; rewrite <- !app_assoc in *; done.
    + intros (raw & (header & (flags' & six' & extra & name & comment & crc & Hf' & Hsix' & He & Hn & Hc & Hcrc & ->) & Hz & E) & Hi).
      unfold start in E. rewrite <- !app_assoc in E. apply app_inj_1 in E as [E1 E]; [|done]. injection E1 as <-.
      apply app_inj_1 in E as [<- ->]; [|congruence].
      exists (extra ++ name ++ comment ++ crc), (raw ++ le_bytes 4 (ComputeCrc32 output) ++ le_bytes 4 (zlen output)). split.
      * exists extra, name, comment, crc. split_and!; try done. by rewrite <- !app_assoc.
      * assert (Ea : start ++ extra ++ name ++ comment ++ crc ++ raw ++ le_bytes 4 (ComputeCrc32 output) ++ le_bytes 4 (zlen output)
                     = (start ++ extra ++ name ++ comment ++ crc) ++ raw ++ le_bytes 4 (ComputeCrc32 output) ++ le_bytes 4 (zlen output)) by (by rewrite <- !app_assoc).
        rewrite Ea in Hb, Hl |- *. apply gzip_body_spec; [done|done|]. by exists raw.
Qed.
End Gzip.

(** A runtime that reads one stored block (RFC 1951, section 3.2.4). *)
Definition stored_block (raw : list Z) (capacity : Z) : NTSTATUS * list Z :=
  match raw with
  | 1 :: a :: b :: _ :: _ :: data =>
      if negb (a + 256 * b =? zlen data) then (STATUS_OTHER 1, [])
      else if zlen data >? capacity then (STATUS_BUFFER_TOO_SMALL, []) else (STATUS_SUCCESS, data)
  | _ => (STATUS_OTHER 1, [])
  end.
Definition stored_runtime : DeflateRuntime := MkRuntime STATUS_SUCCESS true stored_block.
(** The stream that the code probes the runtime with, in its two containers. *)
Definition DeflateProbeRaw : list Z := [0x01; 0x05; 0x00; 0xfa; 0xff; 0x6b; 0x68; 0x74; 0x74; 0x70].
Definition DeflateProbePlain : list Z := [0x6b; 0x68; 0x74; 0x74; 0x70].
Definition gzip_sample : list Z :=
  [0x1F; 0x8B; 8; 8; 0; 0; 0; 0; 0; 3; 0x61; 0] ++ DeflateProbeRaw ++ le_bytes 4 (ComputeCrc32 DeflateProbePlain) ++ le_bytes 4 5.
Definition zlib_sample : list Z := [0x78; 0x9C] ++ DeflateProbeRaw ++ be_put 4 (ComputeAdler32 DeflateProbePlain).
Example gzip_decoded : DecodeGzip stored_runtime true 100 (Bytes gzip_sample) = (STATUS_SUCCESS, DeflateProbePlain).
Proof. vm_compute. reflexivity. Qed.

(** C6. The gzip decoder accepts exactly the members of RFC 1952 whose stream the
    kernel decompresses and whose CRC and size are those of the output; the deflate
    decoder exactly the zlib streams of RFC 1950 with their Adler-32, and what does
    not begin like one as a raw stream. *)
Theorem containers_exact runtime available capacity data output : bytes data -> zlen data < 2 ^ 60 ->
  (DecodeGzip runtime available capacity (Bytes data) = (STATUS_SUCCESS, output)
   <-> exists raw, gzip_member data raw output /\ inflates runtime available capacity raw output)
  /\ (DecodeDeflate runtime available capacity (Bytes data) = (STATUS_SUCCESS, output)
      <-> (exists raw, zlib_stream data raw output /\ inflates runtime available capacity raw output)
          \/ ~ zlib_headed data /\ inflates runtime available capacity data output).
Proof. intros Hb Hl. split; [by apply DecodeGzip_spec|by apply DecodeDeflate_spec]. Qed.
Lemma containers_exact_witness :
  (exists raw, gzip_member gzip_sample raw DeflateProbePlain /\ inflates stored_runtime true 100 raw DeflateProbePlain)
  /\ ((exists raw, zlib_stream zlib_sample raw DeflateProbePlain /\ inflates stored_runtime true 100 raw DeflateProbePlain)
      \/ ~ zlib_headed zlib_sample /\ inflates stored_runtime true 100 zlib_sample DeflateProbePlain).
Proof.
  split.
  - apply (containers_exact stored_runtime true 100 gzip_sample DeflateProbePlain); [apply bytes_decide; vm_compute; reflexivity|vm_compute; reflexivity|exact gzip_decoded].
  - apply (containers_exact stored_runtime true 100 zlib_sample DeflateProbePlain); [apply bytes_decide; vm_compute; reflexivity|vm_compute; reflexivity|vm_compute; reflexivity].
Defined.
