(* ===== verification/DeflateProbe.v ===== *)
(** * The probe of the deflate runtime (codec/ContentCoding.cpp)

    [ContentCoding::DeflateRuntimeAvailable] in the kernel: the first caller decodes
    a short stream and records the result in [g_deflateRuntimeProbeState]; callers
    that come meanwhile wait.  The threads are a transition system whose steps are
    the interlocked operations; whatever the interleaving, the probe runs at most
    once, and every caller gets its result. *)

From stdpp Require Import gmap.
From S2P Require Import Prelude.
From S2P Require Import DeflateContainers.

(** [allocated]: whether the pool has room for the output; the array is zeroed. *)
Definition ProbeDeflateRuntime (runtime : DeflateRuntime) (allocated : bool) : bool :=
  if negb allocated then false
  else
    let '(status, output) := DecodeRawDeflateUnchecked runtime (zlen DeflateProbePlain) (Bytes DeflateProbeRaw) in
    NT_SUCCESS status && (zlen output =? zlen DeflateProbePlain) && bool_decide (output = DeflateProbePlain).

(** [InterlockedCompareExchange(&state, exchange, comparand)]: the new state and
    what the call returns. *)
Definition InterlockedCompareExchange (state exchange comparand : Z) : Z * Z :=
  (if state =? comparand then exchange else state, state).

(** Where a thread is in a call: before it, before the second exchange, in the
    probe, in the loop that waits, or past the return. *)
Inductive pc := Start | Exchange | Probing | Waiting | Returned (available : bool).
#[export] Instance pc_eq_dec : EqDecision pc.
Proof. solve_decision. Defined.

(** One interlocked operation of a thread, with the new state; [result] is what the
    probe finds, where the thread is in it. *)
Definition thread_step (state : Z) (result : bool) (at_ : pc) : Z * pc :=
  match at_ with
  | Start =>
      let '(state', state) := InterlockedCompareExchange state 0 0 in
      (state', if state =? 1 then Returned true else if state =? 2 then Returned false else Exchange)
  | Exchange =>
      let '(state', old) := InterlockedCompareExchange state 3 0 in
      (state', if old =? 0 then Probing else Waiting)
  | Probing => (if result then 1 else 2, Returned result)
  | Waiting =>
      let '(state', state) := InterlockedCompareExchange state 0 0 in
      (state', if state =? 3 then Waiting else Returned (state =? 1))
  | Returned available => (state, Returned available)
  end.

(** The variable and the calls so far; a call that has not begun is not there. *)
Record system := MkSystem { sy_state : Z; sy_threads : gmap Z pc }.
Definition initial : system := MkSystem 0 ∅.

(** Any thread takes a step, or a call begins.  Allocations may succeed in one probe
    and not in another. *)
Inductive step : system -> system -> Prop :=
  | step_call s thread :
      sy_threads s !! thread = None -> step s (MkSystem (sy_state s) (<[thread := Start]> (sy_threads s)))
  | step_thread s thread at_ runtime allocated :
      sy_threads s !! thread = Some at_ ->
      let result := ProbeDeflateRuntime runtime allocated in
      step s (MkSystem (thread_step (sy_state s) result at_).1 (<[thread := (thread_step (sy_state s) result at_).2]> (sy_threads s))).
Inductive reachable : system -> Prop :=
  | reach_initial : reachable initial
  | reach_step s s' : reachable s -> step s s' -> reachable s'.

(** ** The invariant

    State 0: no probe yet.  State 3: one thread is in the probe.  State 1 or 2: the
    probe is over, and who has returned has its result. *)
Definition invariant (s : system) : Prop :=
  match sy_state s with
  | 0 => forall t at_, sy_threads s !! t = Some at_ -> at_ = Start \/ at_ = Exchange
  | 3 => exists p, sy_threads s !! p = Some Probing
         /\ forall t at_, sy_threads s !! t = Some at_ -> t = p \/ at_ = Start \/ at_ = Exchange \/ at_ = Waiting
  | 1 | 2 => forall t at_, sy_threads s !! t = Some at_ ->
             at_ = Start \/ at_ = Exchange \/ at_ = Waiting \/ at_ = Returned (sy_state s =? 1)
  | _ => False
  end.

Lemma invariant_call s thread : invariant s -> sy_threads s !! thread = None ->
  invariant (MkSystem (sy_state s) (<[thread := Start]> (sy_threads s))).
Proof.
  unfold invariant. cbn [sy_state sy_threads]. destruct (sy_state s) as [|[[?|?|]|[?|?|]|]|?]; try done.
  all: intros Hi Hn; try (intros t at_; destruct (decide (t = thread)) as [-> |Hne];
    [rewrite lookup_insert_eq; intros [= <-]; by left|rewrite lookup_insert_ne by done; apply Hi]).
  destruct Hi as (p & Hp & Hi). exists p. rewrite lookup_insert_ne by congruence. split; [done|]. intros t at_.
  destruct (decide (t = thread)) as [-> |Hne]; [rewrite lookup_insert_eq; intros [= <-]; right; by left|rewrite lookup_insert_ne by done; apply Hi].
Qed.

(** What the invariant says of each thread, by the state. *)
Definition quiet (state : Z) (at_ : pc) : Prop :=
  match state with
  | 0 => at_ = Start \/ at_ = Exchange
  | 3 => at_ = Start \/ at_ = Exchange \/ at_ = Waiting
  | _ => at_ = Start \/ at_ = Exchange \/ at_ = Waiting \/ at_ = Returned (state =? 1)
  end.
Definition all_quiet (state : Z) (threads : gmap Z pc) : Prop := forall t at_, threads !! t = Some at_ -> quiet state at_.
Definition prober (p : Z) (threads : gmap Z pc) : Prop :=
  threads !! p = Some Probing /\ forall t at_, threads !! t = Some at_ -> t = p \/ quiet 3 at_.
Lemma invariant_cases s : invariant s <->
  (sy_state s = 0 \/ sy_state s = 1 \/ sy_state s = 2) /\ all_quiet (sy_state s) (sy_threads s)
  \/ sy_state s = 3 /\ exists p, prober p (sy_threads s).
Proof.
  unfold invariant, all_quiet, prober. destruct s as [state threads]. cbn [sy_state sy_threads].
  split.
  - destruct state as [|[[?|?|]|[?|?|]|]|?]; try done; intros H; try (left; split; [lia|exact H]). right. by split.
  - intros [[[-> |[-> | ->]] H]|[-> H]]; exact H.
Qed.
Lemma quiet_insert state threads thread at_ : all_quiet state threads -> quiet state at_ -> all_quiet state (<[thread := at_]> threads).
Proof.
  intros Hq Ha t x. destruct (decide (t = thread)) as [-> |Hne]; [rewrite lookup_insert_eq; by intros [= <-]|rewrite lookup_insert_ne by done; apply Hq].
Qed.
Lemma prober_insert p threads thread at_ : prober p threads -> thread <> p -> quiet 3 at_ -> prober p (<[thread := at_]> threads).
Proof.
  intros [Hp Hq] Hne Ha. split; [by rewrite lookup_insert_ne|]. intros t x.
  destruct (decide (t = thread)) as [-> |Hnt]; [rewrite lookup_insert_eq; intros [= <-]; by right|rewrite lookup_insert_ne by done; apply Hq].
Qed.

Lemma invariant_thread s thread at_ result : invariant s -> sy_threads s !! thread = Some at_ ->
  invariant (MkSystem (thread_step (sy_state s) result at_).1 (<[thread := (thread_step (sy_state s) result at_).2]> (sy_threads s))).
Proof.
  rewrite !invariant_cases. destruct s as [state threads]. cbn [sy_state sy_threads]. intros [[Hs Hq]|[-> (p & Hp)]] Hat.
  - (* Before the probe, or after it. *)
    pose proof (Hq thread at_ Hat) as Ha. destruct Hs as [-> |Hs].
    + destruct Ha as [-> | ->]; cbn.
      * left. split; [by left|]. apply quiet_insert; [done|by right].
      * right. split; [done|]. exists thread. split; [by rewrite lookup_insert_eq|]. intros t x.
        destruct (decide (t = thread)) as [-> |Hne]; [by left|rewrite lookup_insert_ne by done; intros Hx%Hq; right; destruct Hx as [-> | ->]; [by left|right; by left]].
    + left. destruct Hs as [-> | ->]; (destruct Ha as [-> |[-> |[-> | ->]]]; cbn; (split; [by auto|by apply quiet_insert; [|unfold quiet; cbn; auto]])).
  - (* During the probe. *)
    destruct (decide (thread = p)) as [-> |Hne].
    + destruct Hp as [Hp Hq]. rewrite Hp in Hat. injection Hat as <-. left. cbn. split; [destruct result; auto|].
      intros t x. destruct (decide (t = p)) as [-> |Hnt].
      * rewrite lookup_insert_eq. intros [= <-]. destruct result; unfold quiet; cbn; auto.
      * rewrite lookup_insert_ne by done. intros Hx%Hq. destruct Hx as [?|Hx]; [done|]. destruct result; unfold quiet in *; destruct Hx as [-> |[-> | ->]]; auto.
    + right. pose proof (proj2 Hp thread at_ Hat) as [?|Ha]; [done|].
      destruct Ha as [-> |[-> | ->]]; cbn; (split; [done|]; exists p; apply prober_insert; [done|done|unfold quiet; auto]).
Qed.

Lemma invariant_reachable s : reachable s -> invariant s.
Proof.
  induction 1 as [|s s' _ IH Hstep]; [done|]. destruct Hstep as [s thread Hn|s thread at_ runtime allocated Hat]; [by apply invariant_call|by apply invariant_thread].
Qed.

(** C7. However the calls interleave, at most one of them probes the runtime, none
    does once a call has returned, all that return give the same answer, which the
    variable holds, and while the variable says that a probe runs, one does. *)
Theorem probe_once s : reachable s ->
  (forall t t', sy_threads s !! t = Some Probing -> sy_threads s !! t' = Some Probing -> t = t')
  /\ (forall t available, sy_threads s !! t = Some (Returned available) ->
      sy_state s = (if available then 1 else 2) /\ forall t', sy_threads s !! t' <> Some Probing)
  /\ (forall t t' a a', sy_threads s !! t = Some (Returned a) -> sy_threads s !! t' = Some (Returned a') -> a = a')
  /\ (sy_state s = 3 <-> exists t, sy_threads s !! t = Some Probing).
Proof.
  intros Hr%invariant_reachable%invariant_cases. destruct s as [state threads]. cbn [sy_state sy_threads] in *. destruct Hr as [[Hs Hq]|[-> (p & Hp & Hq)]].
  - assert (Hno : forall t, threads !! t <> Some Probing).
    { intros t Ht%Hq. destruct Hs as [-> |[-> | ->]]; by repeat destruct Ht as [Ht|Ht]. }
    assert (Hret : forall t a, threads !! t = Some (Returned a) -> state = (if a then 1 else 2)).
    { intros t a Ht%Hq. destruct Hs as [-> |[-> | ->]]; repeat destruct Ht as [Ht|Ht]; try done; by injection Ht as ->. }
    split_and!.
    + by intros t t' ?%Hno.
    + intros t a Ht. split; [by eapply Hret|done].
    + intros t t' a a' Ht%Hret Ht'%Hret. destruct a, a'; congruence.
    + split; [intros E; exfalso; lia|by intros (t & ?%Hno)].
  - assert (Hnr : forall t a, threads !! t <> Some (Returned a)).
    { intros t a Ht. destruct (Hq t _ Ht) as [-> |Hx]; [congruence|]. by repeat destruct Hx as [Hx|Hx]. }
    split_and!.
    + intros t t' Ht Ht'. destruct (Hq t _ Ht) as [-> |Hx]; [|by repeat destruct Hx as [Hx|Hx]].
      destruct (Hq t' _ Ht') as [-> |Hx]; [done|by repeat destruct Hx as [Hx|Hx]].
    + by intros t a ?%Hnr.
    + by intros t t' a a' ?%Hnr.
    + split; [intros _; by exists p|done].
Qed.

(** Two calls: the first probes and the second waits. *)
Definition calls (steps : list (Z * pc)) : gmap Z pc := foldr (fun c threads => <[c.1 := c.2]> threads) ∅ steps.
Definition sample_system : system :=
  MkSystem 3 (calls [(2, Waiting); (2, Exchange); (1, Probing); (2, Start); (1, Exchange); (1, Start)]).
Lemma sample_reachable : reachable sample_system.
Proof.
  eapply reach_step; [|apply (step_thread (MkSystem 3 (calls [(2, Exchange); (1, Probing); (2, Start); (1, Exchange); (1, Start)])) 2 Exchange stored_runtime true); reflexivity].
  eapply reach_step; [|apply (step_thread (MkSystem 3 (calls [(1, Probing); (2, Start); (1, Exchange); (1, Start)])) 2 Start stored_runtime true); reflexivity].
  eapply reach_step; [|apply (step_thread (MkSystem 0 (calls [(2, Start); (1, Exchange); (1, Start)])) 1 Exchange stored_runtime true); reflexivity].
  eapply reach_step; [|apply (step_call (MkSystem 0 (calls [(1, Exchange); (1, Start)])) 2); reflexivity].
  eapply reach_step; [|apply (step_thread (MkSystem 0 (calls [(1, Start)])) 1 Start stored_runtime true); reflexivity].
  eapply reach_step; [exact reach_initial|apply (step_call initial 1); reflexivity].
Qed.
Lemma probe_once_witness :
  sy_state sample_system = 3 <-> exists t, sy_threads sample_system !! t = Some Probing.
Proof. exact (proj2 (proj2 (proj2 (probe_once sample_system sample_reachable)))). Defined.
