(* ===== verification/Aes128GcmCoding.v ===== *)
(** * The aes128gcm content coding (codec/ContentCoding.cpp)

    RFC 8188: a header with a salt, a record size and a key identifier, then records
    of AES-GCM with their padding.  HKDF and AES-GCM are the kernel's, parameters of
    the decoder.  Whatever the encoder of the RFC writes is read back; a message cut
    between two records is refused. *)

From Stdlib Require Import Ascii String.
From S2P Require Import Prelude.
From S2P Require Import LittleEndian.
From S2P Require Import ChaChaPoly.
From S2P Require Import Aead.
From S2P Require Import DeflateContainers.
#[local] Open Scope string_scope.
#[local] Open Scope list_scope.
#[local] Open Scope Z_scope.

Definition SaltLength : Z := 16.
Definition RecordTagLength : Z := 16.
Definition NonceLength : Z := 12.
Definition PrkLength : Z := 32.
Definition CekLength : Z := 16.
Definition HeaderFixedLength : Z := SaltLength + 4 + 1.
Definition CekInfo : list Z := str "Content-Encoding: aes128gcm" ++ [0].
Definition NonceInfo : list Z := str "Content-Encoding: nonce" ++ [0].

(** [nonce[4 + index] ^= (sequence >> (7 - index) * 8) & 0xFF], for the eight. *)
Definition XorAes128GcmSequence (nonce : list Z) (sequence : Z) : list Z :=
  ztake 4 nonce
  ++ map (fun index => u8 (Z.lxor (zget nonce (4 + index)) (Z.land (Z.shiftr sequence ((7 - index) * 8)) 0xFF))) (seqZ 0 8)
  ++ zdrop 12 nonce.

(** From the end of the record: the last byte that is not zero, and its index. *)
Fixpoint delimiter_loop (from_end : list Z) : option (Z * Z) :=
  match from_end with
  | [] => None
  | byte :: from_end => if negb (byte =? 0) then Some (byte, zlen from_end) else delimiter_loop from_end
  end.

(** [destination], [capacity]: the buffer; [output]: what it holds so far. *)
Definition AppendAes128GcmRecordPlaintext (plaintext : list Z) (finalRecord destination : bool) (capacity : Z) (output : list Z)
    : NTSTATUS * list Z :=
  match delimiter_loop (rev plaintext) with
  | None => (STATUS_INVALID_NETWORK_RESPONSE, output)
  | Some (delimiter, delimiterIndex) =>
      let expectedDelimiter := if finalRecord then 2 else 1 in
      if negb (delimiter =? expectedDelimiter) then (STATUS_INVALID_NETWORK_RESPONSE, output)
      else if (delimiterIndex >? capacity) || (zlen output >? capacity -! delimiterIndex) || negb destination
      then (STATUS_BUFFER_TOO_SMALL, output)
      else (STATUS_SUCCESS, output ++ ztake delimiterIndex plaintext)
  end.

Section Decode.
(** AES-GCM, and the allocations of [Aead], which GCM does not make. *)
Context (gcm_decrypt : AeadKey -> AeadParameters -> span -> span -> AeadResult).
Context (scratch other : bool).
(** HKDF with SHA-256: the status and the bytes written; [extract salt key] and
    [expand prk info length]. *)
Context (HkdfExtract : list Z -> list Z -> NTSTATUS * list Z).
Context (HkdfExpand : list Z -> list Z -> Z -> NTSTATUS * list Z).
(** Whether the record buffer is allocated. *)
Context (allocated : bool).
Context (destination : bool) (capacity : Z).

(** The loop over the records; [buffer]: the record buffer. *)
Fixpoint records_loop (fuel : nat) (encrypted cek nonceBase : list Z) (recordSize cursor sequence : Z) (buffer output : list Z)
    : NTSTATUS * list Z :=
  match fuel with
  | O => (STATUS_OTHER 0, output)
  | S fuel =>
      if negb (cursor <? zlen encrypted) then (STATUS_SUCCESS, output)
      else
        let remaining := zlen encrypted -! cursor in
        let finalRecord := remaining <=? recordSize in
        let recordLength := if finalRecord then remaining else recordSize in
        if (recordLength <=? RecordTagLength) || (negb finalRecord && negb (recordLength =? recordSize))
        then (STATUS_INVALID_NETWORK_RESPONSE, output)
        else
          let ciphertextLength := recordLength -! RecordTagLength in
          if ciphertextLength >? zlen buffer then (STATUS_BUFFER_TOO_SMALL, output)
          else
            let nonce := XorAes128GcmSequence nonceBase sequence in
            let key := MkAeadKey Aes128Gcm (Bytes cek) in
            let parameters :=
              MkAeadParameters (Bytes nonce) (Null 0) (Bytes (zsub encrypted (cursor +! ciphertextLength) RecordTagLength)) in
            let r := Aead_Decrypt gcm_decrypt scratch other key parameters
                       (Bytes (zsub encrypted cursor ciphertextLength)) (Bytes buffer) in
            if negb (NT_SUCCESS (ar_status r)) then (ar_status r, output)
            else
              let buffer := sp_bytes (ar_output r) in
              let '(status, output) :=
                AppendAes128GcmRecordPlaintext (ztake (ar_bytesWritten r) buffer) finalRecord destination capacity output in
              if negb (NT_SUCCESS status) then (status, output)
              else records_loop fuel encrypted cek nonceBase recordSize (cursor +! recordLength) (sequence +! 1) buffer output
  end.

(** The content encryption key and the nonce. *)
Definition derive_keys (salt keyingMaterial : list Z) : Result (list Z * list Z) :=
  let '(status, prk) := HkdfExtract salt keyingMaterial in
  if negb (NT_SUCCESS status) || negb (zlen prk =? PrkLength)
  then Err (if NT_SUCCESS status then STATUS_INVALID_NETWORK_RESPONSE else status)
  else
    let '(status, cek) := HkdfExpand prk CekInfo CekLength in
    if negb (NT_SUCCESS status) then Err status
    else
      let '(status, nonceBase) := HkdfExpand prk NonceInfo NonceLength in
      if negb (NT_SUCCESS status) then Err status else Ok (cek, nonceBase).

Definition DecodeAes128Gcm (encrypted keyingMaterial : span) : NTSTATUS * list Z :=
  match encrypted, keyingMaterial with
  | Bytes encrypted, Bytes keyingMaterial =>
      if zlen keyingMaterial =? 0 then (STATUS_INVALID_PARAMETER, [])
      else if zlen encrypted <? HeaderFixedLength then (STATUS_INVALID_NETWORK_RESPONSE, [])
      else
        let salt := ztake SaltLength encrypted in
        let recordSize := ReadBigEndian32 (zdrop SaltLength encrypted) in
        let keyIdLength := zget encrypted (SaltLength + 4) in
        let cursor := HeaderFixedLength in
        if (cursor >? zlen encrypted) || (keyIdLength >? zlen encrypted -! cursor) then (STATUS_INVALID_NETWORK_RESPONSE, [])
        else
          let cursor := cursor +! keyIdLength in
          if (recordSize <? RecordTagLength + 1) || (cursor >=? zlen encrypted) then (STATUS_INVALID_NETWORK_RESPONSE, [])
          else
            match derive_keys salt keyingMaterial with
            | Err status => (status, [])
            | Ok (cek, nonceBase) =>
                if negb allocated then (STATUS_INSUFFICIENT_RESOURCES, [])
                else
                  records_loop (S (length encrypted)) encrypted cek nonceBase recordSize cursor 0
                    (replicate (Z.to_nat (recordSize -! RecordTagLength)) 0) []
            end
  | _, _ => (STATUS_INVALID_PARAMETER, [])
  end.
End Decode.

(** ** The encoder of RFC 8188

    [seal key nonce text]: the ciphertext, as long as the text, and the tag. *)
Section Encode.
Context (seal : list Z -> list Z -> list Z -> list Z * list Z).
Context (cek nonceBase : list Z) (recordSize : Z).

(** The nonce of a record: the sequence number, most significant byte first, is
    added bit by bit to the last eight bytes. *)
Definition record_nonce (sequence : Z) : list Z := zip_with Z.lxor nonceBase (replicate 4 0 ++ be_put 8 sequence).
(** A record: its text, its delimiter and its padding. *)
Definition record_plain (delimiter : Z) (record : list Z * Z) : list Z :=
  record.1 ++ [delimiter] ++ replicate (Z.to_nat record.2) 0.
Definition sealed (sequence delimiter : Z) (record : list Z * Z) : list Z :=
  let '(ciphertext, tag) := seal cek (record_nonce sequence) (record_plain delimiter record) in ciphertext ++ tag.
Fixpoint encode_records (sequence : Z) (records : list (list Z * Z)) : list Z :=
  match records with
  | [] => []
  | [last] => sealed sequence 2 last
  | record :: records => sealed sequence 1 record ++ encode_records (sequence + 1) records
  end.
(** Every record but the last fills the record size. *)
Fixpoint records_ok (records : list (list Z * Z)) : Prop :=
  match records with
  | [] => False
  | [last] => 0 <= last.2 /\ zlen (record_plain 2 last) + RecordTagLength <= recordSize
  | record :: records => 0 <= record.2 /\ zlen (record_plain 1 record) + RecordTagLength = recordSize /\ records_ok records
  end.
Definition encode_header (salt keyId : list Z) : list Z := salt ++ be_put 4 recordSize ++ [zlen keyId] ++ keyId.
Definition encode (salt keyId : list Z) (records : list (list Z * Z)) : list Z := encode_header salt keyId ++ encode_records 0 records.
Definition message (records : list (list Z * Z)) : list Z := concat (map fst records).
End Encode.

(** ** Nonces and delimiters *)

Lemma be_put_8 v : be_put 8 v = map (fun index => Z.land (Z.shiftr v ((7 - index) * 8)) 0xFF) (seqZ 0 8).
Proof.
  change (seqZ 0 8) with [0; 1; 2; 3; 4; 5; 6; 7]. cbn [map]. unfold be_put. change (Z.to_nat 8) with 8%nat. rewrite !be_put_loop_S.
  cbn [be_put_loop app]. rewrite !land_255, !Z.shiftr_div_pow2, !Z.div_div by lia. by rewrite Z.div_1_r.
Qed.
Lemma nonce_spec nonce sequence : bytes nonce -> length nonce = 12%nat -> XorAes128GcmSequence nonce sequence = record_nonce nonce sequence.
Proof.
  intros Hb Hl. unfold XorAes128GcmSequence, record_nonce. rewrite be_put_8. do 12 (destruct nonce as [|? nonce]; [done|]). destruct nonce; [|done].
  do 12 (apply Forall_cons in Hb as [? Hb]). change (seqZ 0 8) with [0; 1; 2; 3; 4; 5; 6; 7].
  cbn [map zip_with replicate app]. rewrite !Z.lxor_0_r.
  assert (Hu : forall x y, is_byte x -> u8 (Z.lxor x (Z.land y 0xFF)) = Z.lxor x (Z.land y 0xFF)).
  { intros x y Hx. apply u8_of_lxor; [done|]. rewrite land_255. apply Z.mod_pos_bound. lia. }
  rewrite !Hu by done. reflexivity.
Qed.
Lemma delimiter_spec text delimiter n : delimiter <> 0 ->
  delimiter_loop (rev (text ++ [delimiter] ++ replicate n 0)) = Some (delimiter, zlen text).
Proof.
  intros Hd. rewrite !rev_app_distr. cbn [rev app]. rewrite <- app_assoc. assert (E : rev (replicate n 0) = replicate n 0).
  { induction n as [|n IH]; [done|]. cbn [replicate rev]. rewrite IH. symmetry. apply (replicate_cons_app n 0). }
  rewrite E. clear E. induction n as [|n IH]; cbn [replicate app delimiter_loop]; [|exact IH].
  rewrite (proj2 (Z.eqb_neq _ _)) by done. cbn [negb]. unfold zlen. by rewrite length_rev.
Qed.

(** ** One record *)

(** The records so far, none of them the last. *)
Fixpoint encode_open (seal : list Z -> list Z -> list Z -> list Z * list Z) (cek nonceBase : list Z) (sequence : Z)
    (records : list (list Z * Z)) : list Z :=
  match records with
  | [] => []
  | record :: records => sealed seal cek nonceBase sequence 1 record ++ encode_open seal cek nonceBase (sequence + 1) records
  end.

Section Records.
Context (gcm_decrypt : AeadKey -> AeadParameters -> span -> span -> AeadResult) (scratch other : bool).
Context (capacity : Z).
Context (seal : list Z -> list Z -> list Z -> list Z * list Z) (cek nonceBase : list Z) (recordSize : Z).
(** AES-GCM: a ciphertext as long as its text and a tag of 16 bytes, and what was
    sealed is opened to the text, at the front of the buffer. *)
Definition opens : Prop :=
  forall key nonce text, zlen key = 16 -> length nonce = 12%nat ->
  zlen (seal key nonce text).1 = zlen text /\ zlen (seal key nonce text).2 = RecordTagLength
  /\ forall buffer, zlen text <= zlen buffer ->
     gcm_decrypt (MkAeadKey Aes128Gcm (Bytes key)) (MkAeadParameters (Bytes nonce) (Null 0) (Bytes (seal key nonce text).2))
       (Bytes (seal key nonce text).1) (Bytes buffer)
     = MkAeadResult STATUS_SUCCESS (Bytes (mem_copy buffer 0 text)) (Bytes (seal key nonce text).2) (zlen text).
Hypothesis Hopens : opens.
Hypothesis Hcek : zlen cek = 16.
Hypothesis Hnonce : bytes nonceBase /\ length nonceBase = 12%nat.
Hypothesis Hsize : 17 <= recordSize < 2 ^ 32.
Hypothesis Hcapacity : 0 <= capacity < 2 ^ 62.

Abbreviation loop := (records_loop gcm_decrypt scratch other true capacity).

Lemma zlen_plain delimiter record : 0 <= record.2 -> zlen (record_plain delimiter record) = zlen record.1 + 1 + record.2.
Proof using. clear. intros H. unfold record_plain. rewrite !zlen_app, zlen_replicate. change (zlen [delimiter]) with 1. lia. Qed.
Lemma length_record_nonce sequence : length (record_nonce nonceBase sequence) = 12%nat.
Proof using Hnonce.
  destruct Hnonce as [_ Hl]. unfold record_nonce. rewrite length_zip_with, Hl, length_app, length_replicate, be_put_8, length_map. reflexivity.
Qed.
Lemma zlen_sealed sequence delimiter record : 0 <= record.2 ->
  zlen (sealed seal cek nonceBase sequence delimiter record) = zlen record.1 + 1 + record.2 + 16.
Proof using Hopens Hcek Hnonce.
  intros H. unfold sealed.
  destruct (Hopens cek (record_nonce nonceBase sequence) (record_plain delimiter record) Hcek (length_record_nonce sequence)) as (H1 & H2 & _).
  destruct (seal _ _ _) as [c t]. cbn [fst snd] in *. rewrite zlen_app, H1, H2, zlen_plain by done. reflexivity.
Qed.
Lemma take_mem_copy buffer (text : list Z) : zlen text <= zlen buffer -> ztake (zlen text) (mem_copy buffer 0 text) = text.
Proof using. clear. intros H. unfold mem_copy. change (ztake 0 buffer) with (@nil Z). cbn [app]. apply ztake_app_len. Qed.

(** A turn on a record that was sealed with one delimiter or the other. *)
Lemma record_step fuel before after sequence delimiter record buffer output : delimiter <> 0 -> 0 <= record.2 -> 0 <= sequence < 2 ^ 60 ->
  zlen (before ++ sealed seal cek nonceBase sequence delimiter record ++ after) < 2 ^ 60 ->
  zlen record.1 + 1 + record.2 + 16 <= recordSize -> (after <> [] -> zlen record.1 + 1 + record.2 + 16 = recordSize) ->
  zlen buffer = recordSize - 16 -> zlen output + zlen record.1 <= capacity ->
  exists buffer', zlen buffer' = zlen buffer /\
  loop (S fuel) (before ++ sealed seal cek nonceBase sequence delimiter record ++ after) cek nonceBase recordSize (zlen before) sequence buffer output
  = if negb (delimiter =? if decide (after = []) then 2 else 1) then (STATUS_INVALID_NETWORK_RESPONSE, output)
    else loop fuel (before ++ sealed seal cek nonceBase sequence delimiter record ++ after) cek nonceBase recordSize
           (zlen (before ++ sealed seal cek nonceBase sequence delimiter record)) (sequence + 1) buffer' (output ++ record.1).
Proof using Hopens Hcek Hnonce Hsize Hcapacity.
  intros Hd Hpad Hseq Hl Hfit Hfull Hbuf Hcap. pose proof (zlen_sealed sequence delimiter record Hpad) as Hz.
  pose proof (zlen_plain delimiter record Hpad) as Hp. pose proof (zlen_nonneg before). pose proof (zlen_nonneg after). pose proof (zlen_nonneg record.1). pose proof (zlen_nonneg output).
  destruct (Hopens cek (record_nonce nonceBase sequence) (record_plain delimiter record) Hcek (length_record_nonce sequence)) as (Hct & Htag & Hopen).
  specialize (Hopen buffer). unfold RecordTagLength in *.
  exists (mem_copy buffer 0 (record_plain delimiter record)). split; [apply zlen_mem_copy; lia|].
  cbn [records_loop]. rewrite !zlen_app, Hz in *. rewrite (proj2 (Z.ltb_lt _ _)) by lia. cbn [negb].
  rewrite (u64_id (_ - zlen before)) by lia. set (total := zlen record.1 + 1 + record.2 + 16) in *.
  replace (zlen before + (total + zlen after) - zlen before) with (total + zlen after) by lia.
  assert (Hfinal : (total + zlen after <=? recordSize) = if decide (after = []) then true else false).
  { destruct (decide (after = [])) as [-> |Hne]; [rewrite zlen_nil; apply Z.leb_le; lia|]. apply Z.leb_gt. specialize (Hfull Hne).
    destruct after as [|x after]; [done|]. rewrite zlen_cons in *. pose proof (zlen_nonneg after). lia. }
  rewrite Hfinal.
  assert (Hlen : (if if decide (after = []) then true else false then total + zlen after else recordSize) = total).
  { destruct (decide (after = [])) as [-> |Hne]; [rewrite zlen_nil; lia|]. symmetry. by apply Hfull. }
  rewrite Hlen. unfold RecordTagLength. rewrite (proj2 (Z.leb_gt total 16)) by lia. cbn [orb].
  replace (negb (if decide (after = []) then true else false) && negb (total =? recordSize)) with false.
  2:{ destruct (decide (after = [])) as [|Hne]; [done|]. rewrite (Hfull Hne). by rewrite Z.eqb_refl. }
  rewrite (u64_id (total - 16)), (Z.gtb_ltb (total - 16)), (proj2 (Z.ltb_ge _ _)) by lia.
  rewrite nonce_spec by apply Hnonce. rewrite (u64_id (zlen before + (total - 16))) by lia.
  unfold sealed in *. destruct (seal cek (record_nonce nonceBase sequence) (record_plain delimiter record)) as [ct tag] eqn:Eseal. cbn [fst snd] in *.
  replace (total - 16) with (zlen ct) by (unfold total; lia). rewrite <- (app_assoc ct tag after).
  rewrite zsub_at. replace (zsub (before ++ ct ++ tag ++ after) (zlen before + zlen ct) 16) with tag.
  2:{ rewrite <- Htag, <- zlen_app, app_assoc. symmetry. apply zsub_at. }
  unfold Aead_Decrypt. cbn [ak_Algorithm ak_Key sp_len]. rewrite Hcek. cbn [negb Z.eqb Pos.eqb].
  rewrite Hopen by lia. cbn [ar_status NT_SUCCESS negb ar_output sp_bytes ar_bytesWritten]. rewrite take_mem_copy by lia.
  unfold AppendAes128GcmRecordPlaintext. unfold record_plain at 1. rewrite delimiter_spec by done.
  replace (if if decide (after = []) then true else false then 2 else 1) with (if decide (after = []) then 2 else 1) by (by destruct (decide (after = []))).
  destruct (negb (delimiter =? _)); [done|].
  rewrite (u64_id (capacity - _)), !Z.gtb_ltb, !(proj2 (Z.ltb_ge _ _)) by lia. cbn [orb negb NT_SUCCESS].
  unfold record_plain. rewrite ztake_app_len. rewrite (u64_id (zlen before + total)), (u64_id (sequence + 1)) by lia.
  replace (zlen (before ++ ct ++ tag)) with (zlen before + total) by (rewrite !zlen_app; unfold total; lia). done.
Qed.

Lemma sealed_nonempty sequence delimiter record : 0 <= record.2 -> sealed seal cek nonceBase sequence delimiter record <> [].
Proof using Hopens Hcek Hnonce.
  intros H E. pose proof (zlen_sealed sequence delimiter record H) as Hz. rewrite E, zlen_nil in Hz. pose proof (zlen_nonneg record.1). lia.
Qed.
Lemma encode_nonempty sequence records : records_ok recordSize records -> encode_records seal cek nonceBase sequence records <> [].
Proof using Hopens Hcek Hnonce.
  destruct records as [|record [|record' records]]; cbn [records_ok encode_records]; [done| |].
  - intros [H _]. by apply sealed_nonempty.
  - intros [H _]. intros [E _]%app_eq_nil. by apply sealed_nonempty in E.
Qed.

Lemma records_loop_ok records : records_ok recordSize records -> forall fuel before sequence buffer output,
  (length records < fuel)%nat -> 0 <= sequence -> sequence + zlen records < 2 ^ 60 ->
  zlen (before ++ encode_records seal cek nonceBase sequence records) < 2 ^ 60 ->
  zlen buffer = recordSize - 16 -> zlen output + zlen (message records) <= capacity ->
  loop fuel (before ++ encode_records seal cek nonceBase sequence records) cek nonceBase recordSize (zlen before) sequence buffer output
  = (STATUS_SUCCESS, output ++ message records).
Proof using Hopens Hcek Hnonce Hsize Hcapacity.
  induction records as [|record records IH]; intros Hok fuel before sequence buffer output Hf Hs Hs' Hl Hb Hc; [done|].
  destruct fuel as [|fuel]; [cbn [length] in Hf; lia|]. unfold message in *. cbn [map concat] in *. rewrite zlen_app, zlen_cons in *.
  pose proof (zlen_nonneg records). pose proof (zlen_nonneg (concat (map fst records))). pose proof (zlen_nonneg output). unfold RecordTagLength in *.
  destruct records as [|record' records].
  - cbn [records_ok encode_records] in *. destruct Hok as [Hpad Hsz]. rewrite zlen_plain in Hsz by done.
    destruct (record_step fuel before [] sequence 2 record buffer output) as (buffer' & Hb' & E); try (done || (unfold RecordTagLength in *; lia)); [rewrite app_nil_r, zlen_app; lia|].
    rewrite app_nil_r in E. rewrite E. cbn [negb Z.eqb Pos.eqb]. rewrite decide_True by done. cbn [negb Z.eqb Pos.eqb].
    destruct fuel as [|fuel]; [cbn [length] in Hf; lia|]. cbn [records_loop]. rewrite (proj2 (Z.ltb_ge _ _)) by lia. cbn [negb map concat]. by rewrite app_nil_r.
  - set (rest := record' :: records) in *. change (encode_records seal cek nonceBase sequence (record :: rest))
      with (sealed seal cek nonceBase sequence 1 record ++ encode_records seal cek nonceBase (sequence + 1) rest) in *.
    change (records_ok recordSize (record :: rest)) with (0 <= record.2 /\ zlen (record_plain 1 record) + RecordTagLength = recordSize /\ records_ok recordSize rest) in Hok.
    destruct Hok as (Hpad & Hsz & Hok). rewrite zlen_plain in Hsz by done. unfold RecordTagLength in Hsz.
    destruct (record_step fuel before (encode_records seal cek nonceBase (sequence + 1) rest) sequence 1 record buffer output) as (buffer' & Hb' & E);
      try (done || lia); [rewrite zlen_app; lia|].
    rewrite E. rewrite decide_False by (by apply encode_nonempty). cbn [negb Z.eqb Pos.eqb].
    rewrite (app_assoc before). rewrite (IH Hok fuel (before ++ sealed seal cek nonceBase sequence 1 record)); try lia.
    + by rewrite <- app_assoc.
    + cbn [length] in Hf. lia.
    + rewrite zlen_app, zlen_app in *. lia.
    + rewrite zlen_app. lia.
Qed.

(** Only records that are not the last: the decoder takes the last of them for the
    last record, and finds the wrong delimiter. *)
Lemma records_loop_open records : records <> [] ->
  Forall (fun record => 0 <= record.2 /\ zlen (record_plain 1 record) + RecordTagLength = recordSize) records ->
  forall fuel before sequence buffer output,
  (length records < fuel)%nat -> 0 <= sequence -> sequence + zlen records < 2 ^ 60 ->
  zlen (before ++ encode_open seal cek nonceBase sequence records) < 2 ^ 60 ->
  zlen buffer = recordSize - 16 -> zlen output + zlen (message records) <= capacity ->
  (loop fuel (before ++ encode_open seal cek nonceBase sequence records) cek nonceBase recordSize (zlen before) sequence buffer output).1
  = STATUS_INVALID_NETWORK_RESPONSE.
Proof using Hopens Hcek Hnonce Hsize Hcapacity.
  intros Hne Hall. induction Hall as [|record records [Hpad Hsz] Hall IH]; intros fuel before sequence buffer output Hf Hs Hs' Hl Hb Hc; [done|]. clear Hne.
  destruct fuel as [|fuel]; [cbn [length] in Hf; lia|]. unfold message in *. cbn [map concat encode_open] in *. rewrite zlen_app, zlen_cons in *.
  pose proof (zlen_nonneg records). pose proof (zlen_nonneg (concat (map fst records))). pose proof (zlen_nonneg output).
  rewrite zlen_plain in Hsz by done. unfold RecordTagLength in *.
  destruct (record_step fuel before (encode_open seal cek nonceBase (sequence + 1) records) sequence 1 record buffer output) as (buffer' & Hb' & E);
    try (done || lia); [rewrite zlen_app; lia|].
  rewrite E. destruct records as [|record' records]; [done|].
  rewrite decide_False by (cbn [encode_open]; intros [E' _]%app_eq_nil; apply Forall_inv in Hall as [? _]; by apply sealed_nonempty in E').
  cbn [negb Z.eqb Pos.eqb]. rewrite (app_assoc before). apply IH; try (done || lia).
  - cbn [length] in *. lia.
  - rewrite zlen_app, zlen_app in *. lia.
  - rewrite zlen_app. lia.
Qed.
Lemma encode_records_length sequence records : records_ok recordSize records ->
  (length records <= length (encode_records seal cek nonceBase sequence records))%nat.
Proof using Hopens Hcek Hnonce.
  revert sequence. induction records as [|record records IH]; intros sequence Hok; [done|].
  destruct records as [|record' records].
  - pose proof (encode_nonempty sequence [record] Hok) as Hne. destruct (encode_records _ _ _ sequence [record]); [done|cbn [length]; lia].
  - set (rest := record' :: records) in *. destruct Hok as (Hpad & _ & Hok).
    change (encode_records seal cek nonceBase sequence (record :: rest))
      with (sealed seal cek nonceBase sequence 1 record ++ encode_records seal cek nonceBase (sequence + 1) rest).
    specialize (IH (sequence + 1) Hok). rewrite length_app. cbn [length]. pose proof (sealed_nonempty sequence 1 record Hpad) as Hne.
    destruct (sealed _ _ _ sequence 1 record); [done|cbn [length]; lia].
Qed.
Lemma encode_open_length sequence records : Forall (fun record : list Z * Z => 0 <= record.2) records ->
  (length records <= length (encode_open seal cek nonceBase sequence records))%nat.
Proof using Hopens Hcek Hnonce.
  intros H. revert sequence. induction H as [|record records Hpad _ IH]; intros sequence; [done|]. cbn [encode_open]. rewrite length_app. cbn [length].
  specialize (IH (sequence + 1)). pose proof (sealed_nonempty sequence 1 record Hpad) as Hne. destruct (sealed _ _ _ sequence 1 record); [done|cbn [length]; lia].
Qed.

(** ** The header *)

Lemma ReadBigEndian32_app v rest : 0 <= v < 2 ^ 32 -> ReadBigEndian32 (be_put 4 v ++ rest) = v.
Proof using.
  clear. intros Hv. transitivity (ReadBigEndian32 (be_put 4 v)).
  - pose proof (be_put_loop_len 4 v) as Hl. unfold be_put. change (Z.to_nat 4) with 4%nat.
    destruct (be_put_loop 4 v []) as [|a [|b [|c [|d [|? ?]]]]]; done.
  - apply ReadBigEndian32_iff; [apply be_put_bytes|apply be_put_loop_len|done|done].
Qed.

Context (HkdfExtract : list Z -> list Z -> NTSTATUS * list Z) (HkdfExpand : list Z -> list Z -> Z -> NTSTATUS * list Z).
Context (salt keyId key : list Z).
Hypothesis Hkeys : derive_keys HkdfExtract HkdfExpand salt key = Ok (cek, nonceBase).
Hypothesis Hkey : key <> [].
Hypothesis Hsalt : zlen salt = 16.

Lemma decode_body body : body <> [] -> zlen (encode_header recordSize salt keyId ++ body) < 2 ^ 60 ->
  DecodeAes128Gcm gcm_decrypt scratch other HkdfExtract HkdfExpand true true capacity (Bytes (encode_header recordSize salt keyId ++ body)) (Bytes key)
  = loop (S (length (encode_header recordSize salt keyId ++ body))) (encode_header recordSize salt keyId ++ body) cek nonceBase recordSize
      (zlen (encode_header recordSize salt keyId)) 0 (replicate (Z.to_nat (recordSize - 16)) 0) [].
Proof using Hkeys Hkey Hsalt Hsize Hnonce.
  intros Hbody Hl. assert (Hb : 0 < zlen body) by (destruct body; [done|rewrite zlen_cons; pose proof (zlen_nonneg body); lia]).
  assert (Hk : 0 < zlen key) by (destruct key as [|x k]; [done|rewrite zlen_cons; pose proof (zlen_nonneg k); lia]).
  pose proof (zlen_nonneg keyId). assert (Hh : zlen (encode_header recordSize salt keyId) = 21 + zlen keyId).
  { unfold encode_header. rewrite !zlen_app, be_put_len, Hsalt by lia. change (zlen [zlen keyId]) with 1. lia. }
  rewrite zlen_app in Hl. unfold DecodeAes128Gcm. rewrite (proj2 (Z.eqb_neq (zlen key) 0)) by lia. rewrite zlen_app.
  unfold HeaderFixedLength, SaltLength, RecordTagLength. rewrite (proj2 (Z.ltb_ge _ _)) by lia.
  assert (Hs : ztake 16 (encode_header recordSize salt keyId ++ body) = salt).
  { unfold encode_header. rewrite <- app_assoc, <- Hsalt. apply ztake_app_len. }
  assert (Hr : ReadBigEndian32 (zdrop 16 (encode_header recordSize salt keyId ++ body)) = recordSize).
  { unfold encode_header. rewrite <- app_assoc, <- Hsalt at 1. rewrite zdrop_app_len, <- app_assoc. apply ReadBigEndian32_app. lia. }
  assert (Hi : zget (encode_header recordSize salt keyId ++ body) (16 + 4) = zlen keyId).
  { unfold encode_header. rewrite <- !app_assoc, zget_app_r by lia. rewrite zget_app_r by (rewrite be_put_len; lia).
    rewrite be_put_len, Hsalt by lia. reflexivity. }
  rewrite Hs, Hr, Hi. change (16 + 4 + 1) with 21. rewrite (u64_id (_ - 21)), (u64_id (21 + _)) by lia.
  rewrite !Z.gtb_ltb, Z.geb_leb, !(proj2 (Z.ltb_ge _ _)), (proj2 (Z.leb_gt _ _)) by lia. cbn [orb].
  rewrite Hkeys, (u64_id (recordSize - 16)), Hh by lia. reflexivity.
Qed.
End Records.

(** C8. Whatever the encoder of RFC 8188 writes, DecodeAes128Gcm reads back:
    for any key identifier, record size, padding and division into records the status
    is success and the output is the message.  A message that was cut between two
    records, whose last record is therefore not marked as the last, is refused. *)
Theorem aes128gcm_roundtrip gcm_decrypt scratch other seal HkdfExtract HkdfExpand capacity salt keyId key cek nonceBase recordSize :
  opens gcm_decrypt seal -> derive_keys HkdfExtract HkdfExpand salt key = Ok (cek, nonceBase) -> zlen cek = 16 ->
  bytes nonceBase /\ length nonceBase = 12%nat -> key <> [] -> zlen salt = 16 -> zlen keyId < 256 -> 17 <= recordSize < 2 ^ 32 ->
  0 <= capacity < 2 ^ 62 ->
  let decode := fun encrypted => DecodeAes128Gcm gcm_decrypt scratch other HkdfExtract HkdfExpand true true capacity (Bytes encrypted) (Bytes key) in
  (forall records, records_ok recordSize records ->
     zlen (encode seal cek nonceBase recordSize salt keyId records) < 2 ^ 59 -> zlen (message records) <= capacity ->
     decode (encode seal cek nonceBase recordSize salt keyId records) = (STATUS_SUCCESS, message records))
  /\ (forall records, records <> [] ->
     Forall (fun record => 0 <= record.2 /\ zlen (record_plain 1 record) + RecordTagLength = recordSize) records ->
     zlen (encode_header recordSize salt keyId ++ encode_open seal cek nonceBase 0 records) < 2 ^ 59 -> zlen (message records) <= capacity ->
     (decode (encode_header recordSize salt keyId ++ encode_open seal cek nonceBase 0 records)).1 = STATUS_INVALID_NETWORK_RESPONSE).
Proof.
  intros Hopens Hkeys Hcek Hnonce Hkey Hsalt Hid Hsize Hcap decode. subst decode. cbv beta. split; intros records.
  - intros Hok Hl Hm. unfold encode in *. pose proof (encode_records_length _ _ cek nonceBase recordSize Hopens Hcek Hnonce 0 records Hok) as Hn.
    rewrite (decode_body gcm_decrypt scratch other capacity cek nonceBase recordSize) with (HkdfExtract := HkdfExtract); try done; [|by eapply encode_nonempty|lia].
    rewrite zlen_app in Hl. pose proof (zlen_nonneg (encode_header recordSize salt keyId)).
    eapply records_loop_ok; try done; try (rewrite ?zlen_app, ?zlen_replicate, ?length_app, ?zlen_nil; unfold zlen in *; lia).
  - intros Hne Hall Hl Hm.
    assert (Hn : (length records <= length (encode_open seal cek nonceBase 0 records))%nat).
    { eapply encode_open_length; try done. eapply Forall_impl; [exact Hall|]. by intros record [? _]. }
    assert (0 < length records)%nat by (destruct records; [done|cbn [length]; lia]).
    rewrite (decode_body gcm_decrypt scratch other capacity cek nonceBase recordSize) with (HkdfExtract := HkdfExtract); try done;
      [|intros E; rewrite E in Hn; cbn [length] in Hn; lia|lia].
    rewrite zlen_app in Hl. pose proof (zlen_nonneg (encode_header recordSize salt keyId)).
    eapply records_loop_open; try done; try (rewrite ?zlen_app, ?zlen_replicate, ?length_app, ?zlen_nil; unfold zlen in *; lia).
Qed.

(** ** An instance: a seal that adds the key and a tag that sums the text *)

Definition sample_seal (key nonce text : list Z) : list Z * list Z :=
  (map (fun b => Z.lxor b (zget key 0)) text, take 12 nonce ++ be_put 4 (foldr Z.add 0 text)).
Definition sample_gcm_decrypt (key : AeadKey) (parameters : AeadParameters) (ciphertext output : span) : AeadResult :=
  let text := map (fun b => Z.lxor b (zget (sp_bytes (ak_Key key)) 0)) (sp_bytes ciphertext) in
  if decide (sp_bytes (ap_Tag parameters) = take 12 (sp_bytes (ap_Nonce parameters)) ++ be_put 4 (foldr Z.add 0 text))
  then MkAeadResult STATUS_SUCCESS (Bytes (mem_copy (sp_bytes output) 0 text)) (ap_Tag parameters) (zlen (sp_bytes ciphertext))
  else MkAeadResult STATUS_INVALID_SIGNATURE output (ap_Tag parameters) 0.
Definition sample_extract (salt key : list Z) : NTSTATUS * list Z := (STATUS_SUCCESS, salt ++ replicate 16 (zget key 0)).
Definition sample_expand (prk info : list Z) (n : Z) : NTSTATUS * list Z := (STATUS_SUCCESS, ztake n (drop 15 prk)).
Definition sample_records : list (list Z * Z) := [([1; 2; 3], 0); ([4], 2); ([5; 6], 0)].

Lemma sample_opens : opens sample_gcm_decrypt sample_seal.
Proof.
  intros key nonce text Hk Hn. unfold sample_seal, sample_gcm_decrypt. cbn [fst snd ak_Key ap_Tag ap_Nonce sp_bytes]. split_and!.
  - unfold zlen. by rewrite length_map.
  - rewrite zlen_app, be_put_len by lia. unfold zlen. rewrite length_take, Hn. done.
  - intros buffer _. assert (E : map (fun b => Z.lxor b (zget key 0)) (map (fun b => Z.lxor b (zget key 0)) text) = text).
    { rewrite map_map. transitivity (map id text); [|apply map_id]. apply map_ext. intros b. by rewrite Z.lxor_assoc, Z.lxor_nilpotent, Z.lxor_0_r. }
    rewrite E, decide_True by done. f_equal. unfold zlen. by rewrite length_map.
Qed.

Lemma aes128gcm_roundtrip_witness :
  let cek := replicate 16 7 in let nonceBase := replicate 12 7 in
  DecodeAes128Gcm sample_gcm_decrypt true true sample_extract sample_expand true true 100
    (Bytes (encode sample_seal cek nonceBase 20 (replicate 16 7) [9; 9] sample_records)) (Bytes [7])
  = (STATUS_SUCCESS, [1; 2; 3; 4; 5; 6]).
Proof.
  intros cek nonceBase.
  apply (proj1 (aes128gcm_roundtrip sample_gcm_decrypt true true sample_seal sample_extract sample_expand 100 (replicate 16 7) [9; 9] [7] cek nonceBase 20
    sample_opens eq_refl eq_refl (conj (bytes_decide nonceBase eq_refl) eq_refl) ltac:(done) eq_refl ltac:(done) ltac:(lia) ltac:(lia)) sample_records);
    [|by vm_compute|by vm_compute]. vm_compute. repeat split; discriminate.
Defined.
